(* ===== verification/_CoqProject ===== *)
-Q . S2P
Prelude.v
Convert.v
Debounce.v
Broker.v
Utf8.v
Subject.v
Threads.v
Conversations.v
Store.v
Imap.v
Checkpoint.v
Discover.v
Pipeline.v
Initial.v
InitialSafety.v
InitialRun.v
Incremental.v
Tame.v
Reconciler.v
Watcher.v
Supervisor.v
Text.v
Jmap.v
Changes.v
GoStrings.v
GoTime.v
Json.v
JsonDecode.v
Sieve.v
SieveLang.v
SieveParse.v
SieveScan.v
SieveManager.v
Transmission.v
Smtp.v
Outbox.v
OutboxSafety.v
OutboxLiveness.v
GoEncoding.v
Token.v
Auth.v
WriteWorld.v
ImapClient.v
WriteLaws.v
Write.v
Append.v
Folders.v
Snooze.v
WriteLogic.v
WriteSafety.v
WriteContract.v
WriteEffects.v
WriteReplace.v
AppendSafety.v
FolderSafety.v
Blob.v
BlobSafety.v
BlobKept.v
Search.v
QueryFilter.v
QueryFaithful.v
Query.v
QueryPages.v
DelegatedToken.v
Delegated.v
DelegatedSafety.v
