(* ===== verification/Prelude.v ===== *)
(** * The Moov Mail server

    Moov is a webmail server in front of an IMAP server. Its core is a sync engine
    (src/internal/sync) that keeps a PostgreSQL store (src/internal/store) equal to
    what the IMAP server (src/internal/imap) holds: it discovers the folders of an
    account, imports their history, follows changes as they are notified, audits the
    result, and survives failures at every point. In front of the store is a JMAP server
    (src/internal/jmap) for the web client, and beside it the mail filters of a user
    (src/internal/sieve), written as a Sieve script to the mail server, the outbox
    (src/internal/submit), which sends what the user submits, the write path that turns
    what the user does to messages and folders into IMAP commands, sign-in and access
    tokens (src/internal/jmaphttp), and the store of message bytes (src/internal/blob).
    This library models these parts as executable functions and proves the properties their comments promise.

    ** How the program is modelled

    A part of the code is a function in a state and error monad, [M W E A]
    (Prelude): it returns the world it leaves and a value or an error, and keeps
    what was committed before an error. The world ([Store.World]) is the database, the
    IMAP server, the clock and a schedule of failures: every statement and command
    first takes an entry of the schedule ([Store.io]) and fails if the entry says so.
    A theorem over all worlds is therefore a theorem over every point at which the
    process can be cut off, one statement being atomic as PostgreSQL makes it. In the
    world of the write path ([WriteWorld.WWorld]) an entry of the schedule is also what
    other clients and the sync engine do before the next command, and whether its answer
    arrives; a trace records what the server executed. Parts with goroutines of their own
    (broker, supervisor, outbox, sign-in, delegated sign-in, blob store) are transition systems.

    Integers keep the width they have in Go where it matters ([wrap32],
    [wrap64s], the bounds in [ImapLaws]); times are nanoseconds.

    ** Files

    - Prelude: machine integers, time, the monad with its weakest preconditions
      ([wp]), the tactics [wp_steps], [bool_cases], [case_bool], shared list lemmas.
    - Convert: convert.go, the conversions between wire and column integers.
    - Debounce: debounce.go, the per-mailbox timer logic.
    - Broker: broker.go, the state-change fan-out: goroutines as interleaved atomic
      actions over channels that panic as Go's do.
    - Utf8: the text sanitizer of message.go over Go's UTF-8 rules.
    - Subject: threading.go and threadkey.go: subject keys, reference sets and durable
      thread keys over rune lists.
    - Threads: threads.go, threadrows.go and the assignment step of pipeline.go, over
      the tables of messages, subject hints and thread rows. Conversations has the
      invariant of a history of batches and its theorems.
    - Store: the tables and the statements of internal/store that the engine uses
      (mailboxes.go, messages.go, sync.go), the world and its failures.
    - Imap: the commands as a class ([ImapServer]), what RFC 3501 and RFC 7162
      guarantee of them ([ImapLaws]), and an in-memory server that satisfies them.
      The theorems are proved against the class.
    - Checkpoint: checkpoint.go, resume points and their JSON.
    - Discover: discover.go.
    - Pipeline: pipeline.go and newMessage of message.go: fetch, parse, write, with
      retries, the degraded path and quarantine.
    - Initial: phases.go and Run of initial.go. InitialSafety and InitialRun hold
      the invariant (every checkpoint is true), the [safe] and [asafe] rules by
      which each step keeps it, and the theorems on runs.
    - Incremental: incremental.go, with the relation between cursor, rows and server
      that any history of changes and interrupted passes keeps.
    - Tame: no program of the engine moves the clock, and which errors it returns.
    - Reconciler: reconciler.go and the sweep and single pass of watcher.go.
    - Watcher: the rest of watcher.go: event loop, session, reconnect loop, breaker, and
      the deadlines that end them.
    - Supervisor: supervisor.go: eligibility, one initial sync, and the goroutines
      of Run and superviseAccount as a labelled transition system ([svlabel], [sv_exec])
      with its fair runs ([fair_run]).

    - Text: the functions of Go's strings and strconv packages that the JMAP layer uses.
    - Jmap: internal/jmap: requests, result references, dispatch, creation ids, limits,
      and the object ids of mail/id.go.
    - Changes: mail/changes.go with its queries and state strings, and a client that
      follows the pages.
    - GoStrings, GoTime, Json, JsonDecode: what the code uses of Go's strings, time and
      encoding/json packages: searching and trimming, calendar dates and RFC 3339, JSON
      text written, read back and decoded into structs.
    - Sieve: sieve/model.go and generate.go: the filter model, its validation and the
      generated script, byte for byte. SieveLang gives the emitted commands the meaning
      RFC 5228 and its extensions give them and proves what a script does to a message.
    - SieveParse: parse.go: reading the script back, importing a foreign one.
    - SieveScan: scan.go and the redirect policy of jmap/mail/sieve_adapter.go.
    - SieveManager: manager.go over a ManageSieve server whose commands may fail before
      or after they took effect.
    - Transmission: submit/message.go: the bytes that are sent. Smtp: submit/client.go:
      one transaction with a peer that answers anything.
    - Outbox: submit/outbox.go with the send intents of store/submission.go. Its world
      has a schedule of what other goroutines do between two operations, of failures and
      of crashes. OutboxSafety and OutboxLiveness hold its invariants and theorems.
    - GoEncoding: hexadecimal and base64url text, as tokens use them. Token:
      jmaphttp/token.go. Auth: jmaphttp/auth.go, authcache.go and lockout.go, the sign-in
      of concurrent requests.
    - WriteWorld: the world of the write path, its connections and events. ImapClient: the
      client commands of internal/imap that write (convert.go, store.go, move.go,
      append.go, folder.go), over the class [ImapWriter], whose laws and in-memory
      instance are in WriteLaws.
    - Write: sync/write.go; Append: append.go; Folders: write_mailbox.go and the folder
      statements of store/mailboxes.go; Snooze: snooze.go, waker.go, store/snooze.go.
      WriteLogic has the rules by which a program keeps a trace justified, WriteSafety and
      WriteContract apply them to every operation, WriteEffects, WriteReplace, AppendSafety
      and FolderSafety prove what single operations do.
    - Blob: blob/blob.go and pins.go as programs of statements and file operations,
      with the batches of pipeline.go that insert messages and reference their blobs,
      interleaved under row locks, with crashes of process and machine. BlobSafety has their
      typestate and the invariant, BlobKept the theorems.
    - Search: store/search.go, narrowing.go and collapse.go: the statements behind
      Email/query as filters, sorts and limits over rows. QueryFilter: the filters of
      jmap/mail/query.go and their default exclusion (adapter_query_e3.go), QueryFaithful
      what RFC 8621 says of them. Query: the handler of query.go and the paging walks of
      adapter_query.go; QueryPages proves what they answer.
    - DelegatedToken: jmaphttp/delegated_jwt.go: key documents, their cache and the token
      profile. Delegated: jmaphttp/delegated.go and store/delegated.go as programs of
      statements, interleaved with failures and restarts. DelegatedSafety checks every
      program once against what its statements need and tell, and proves the theorems.

    ** What the theorems show

    - Initial sync: interrupted anywhere, any number of times, it never believes it
      has a message it does not have, and an undisturbed run stores everything
      ([initial_sync_resumes]), through the pipeline's contract
      ([pipeline_stores_requested]) and discovery's ([discover_complete]).
    - Incremental sync: it converges from any history
      ([incremental_history_converges]), rebuilds a recreated folder, never revives
      an expunged message, and writes nothing for a change that changes nothing.
    - Reconciler: a repair is reported only when verified; the escalated walk
      restores a folder from any state; the sweep's accounts and its budget are
      right; the backoff is exact.
    - Watcher and supervisor: connection attempts are paced and bounded, also across
      a restart; no account is supervised twice ([supervisor_exclusive]), and in every fair
      run every eligible account is adopted ([supervisor_adopts_all]).
    - Debouncer, broker, sanitizer, conversions, checkpoints: the contracts their
      clients use.
    - Threading: conversations are the connected groups of messages whatever the order
      of arrival ([threads_connect]), their ids only ever decrease to that of the
      oldest member ([threads_settle]), and only a clash of durable rows makes a
      batch fail ([threading_fails_on_rows_only]).
    - JMAP core: every call is answered in order whatever the handlers do
      ([process_answers_every_call]), result references mean what RFC 8620 says in any
      order of the arguments ([backrefs_resolved]), a method that was not opted into
      does not exist, and ids and pointers are exact.
    - JMAP changes: a client that follows Email/changes converges to the account
      ([changes_converge]) as long as no two rows share an instant.
    - Sieve: a generated script forwards only to verified addresses and answers only
      whom it should ([sieve_policy]), a blocked sender gets nothing
      ([blocked_sender_silenced]), the script reads back as its model
      ([managed_roundtrip]), the scanner finds exactly its redirects
      ([scanner_agrees]), and taking over a foreign script destroys nothing
      ([push_preserves], [import_keeps_everything]).
    - Submission: an accepted or cancelled message is never sent again and no message is
      sent twice unless an acceptance was lost ([outbox_at_most_once]); nothing stays in
      flight ([outbox_settles]); a transaction serves all recipients or none
      ([transaction_all_or_nothing]); blind recipients are not disclosed
      ([prepared_transmission]).
    - Sign-in: a request is served as a user only after the mail server accepted the
      password ([auth_sound]); guessing is paced ([lockout_paces_pair],
      [budget_bounds_rejections]). Tokens open only what they were minted for, for as long
      as nobody revokes them ([token_sound]); the registry stays well formed.
    - Writes: whatever happens meanwhile, a write touches only its message and loses none
      ([write_contract]), a keyword replace undoes nothing it has not seen
      ([replace_never_clobbers]), an append happens once ([append_at_most_once]), a rename
      keeps the rows it renames ([rename_in_place]); a connection that dies while cached
      stays dead ([dead_socket_wedges]).
    - Blobs: reference counts are exact in every interleaving ([blob_counts]), bytes are
      kept unless a Put overlaps a collection or, before a power loss, records a name that
      is not on disk ([blob_bytes_kept]), and the row locks never deadlock
      ([blob_no_deadlock]).
    - Email/query: an accepted filter is applied whole ([filter_faithful]), and paging in
      the default order answers exactly the requested window ([query_pages_exact]).
    - Delegated sign-in: a session is served only for its own secret, before both its
      expiries, and goes back through renewals to a signed login of its account
      ([delegated_sound]); until it expires a login token opens one session, across restarts
      ([delegated_single_use]); revocation is final
      ([revoked_stays_out]).
    - Where the code does not do what it says, a theorem exhibits it on a concrete
      account: copied mail skipped by the recent window, mail that arrives before a
      retry, an inbox that never reads complete again, a moved SPECIAL-USE role, a
      lost message on the degraded path, a batch left unthreaded by two rows that swap
      keys, changes lost between two pages, an escalation bound that outlives its
      cause, a vanished folder counted as repaired, a redirect the policy gate does not
      see, list mail that is answered, a retried submission that is never sent, a keyword
      replace without a recorded modification sequence or with the one of another mailbox, a
      woken message with its old date, a rename its own children refuse, a Put that loses its
      bytes to a collection and one that loses them to a power loss, a timeout of one
      connection attempt that ends the sync of an account until the process restarts, pages of
      an ascending list that repeat, collapsed lists that end early, a login token replayed
      after its expiry, and a renewal that outlives a revocation.

    ** Bounds and fuel

    The window loops of phases.go walk down from the highest UID; their fuel is
    that UID, and each turn lowers it by at least one, so it is never exhausted (the
    theorems on success prove it). The scanner and the require splitter of the filters
    have the length of their input as fuel ([scan_total]). A filter is translated to its nesting
    ([translate_node_depth]), a paging walk has one turn per row it may return ([walk_full]),
    a collapsed walk the thirty-two passes of the code. The other loops are structural: over lists of
    mailboxes, batches, inputs of a session and turns of the reconnect loop.

    ** Parameters

    MIME parsing ([derive]), hashing ([sha256]), the order in which the parse pool
    delivers ([sched], a permutation), thread assignment inside the pipeline ([assign])
    and the content
    errors PostgreSQL raises ([rejects]) are arguments, and for the filters Unicode
    lower-casing ([ToLower]), the scripts a server accepts and its quota ([accepts],
    [room]), for the outbox the order of returned rows ([order], a permutation), the
    jitter of the backoff, upper-casing and base64, for tokens the HMAC and the order of a
    range over a map, for delegated sign-in the signature schemes and SHA-256, for the write path the IMAP server ([ImapWriter]) and what other
    parties do, for blobs the order of a SELECT DISTINCT ([pick]), for searches text matching and
    ranking, case folding and the parsing of dates. The theorems hold for
    all of them.

    ** What is not modelled

    Concurrency inside one pipeline run other than its reordering; in the sync engine the
    server changes between two passes and not in the middle of one ([Incremental.hstep], and
    the runs of Initial), unlike in the write path, where others act before every command; the
    reconciler's goroutine is serialised with the watcher's loop; the unique index of
    message_state and its waits beside the row locks of blobs; log lines, metrics callbacks and
    the closing of connections. Bulk migration, muting, the JMAP methods other than
    changes and Email/query, the HTTP handlers other than sign-in, tokens and delegated sign-in, the ManageSieve wire protocol,
    the MIME parser and the web client are outside this library. *)

From Stdlib Require Export ZArith Lia.
From stdpp Require Export base option gmap fin_maps sorting strings list.

#[global] Open Scope Z_scope.

(** ** Machine integers of the Go code *)

Definition MaxUint32 : Z := 4294967295.
Definition MaxInt64 : Z := 9223372036854775807.
Definition MinInt64 : Z := -9223372036854775808.

(** Wrap-around of Go's fixed-width integers. *)
Definition wrap32 (z : Z) : Z := z mod 4294967296.

Definition wrap64s (z : Z) : Z :=
  (z + 9223372036854775808) mod 18446744073709551616 - 9223372036854775808.

Definition is_uint32 (z : Z) : Prop := 0 <= z <= MaxUint32.
Definition is_int64 (z : Z) : Prop := MinInt64 <= z <= MaxInt64.
Definition is_uint64 (z : Z) : Prop := 0 <= z <= 18446744073709551615.

(** ** time.Time and time.Duration

    A [Time] counts nanoseconds since Go's zero time, so [0] is the value for
    which [IsZero] holds; a [Duration] is an int64 count of nanoseconds. *)

Abbreviation Time := Z (only parsing).
Abbreviation Duration := Z (only parsing).

Definition IsZero (t : Time) : bool := t =? 0.
Definition Before (t u : Time) : bool := t <? u.
Definition After (t u : Time) : bool := u <? t.

(** [t.Sub(u)] saturates at the ends of the int64 range. *)
Definition Sub (t u : Time) : Duration := Z.max MinInt64 (Z.min MaxInt64 (t - u)).

Definition Nanosecond : Duration := 1.
Definition Millisecond : Duration := 1000000.
Definition Second : Duration := 1000 * Millisecond.
Definition Minute : Duration := 60 * Second.
Definition Hour : Duration := 60 * Minute.

(** ** A state-and-error monad

    [M W E A] runs on a world [W] and returns the world it leaves together with
    an error or a value: the effects made before an error are kept, as in the
    Go code, where an early [return err] does not undo what was committed. *)

Definition M (W E A : Type) : Type := W -> W * (E + A).

#[global] Instance M_ret {W E} : MRet (M W E) := fun A a w => (w, inr a).

#[global] Instance M_bind {W E} : MBind (M W E) := fun A B k m w =>
  match m w with
  | (w', inl e) => (w', inl e)
  | (w', inr a) => k a w'
  end.

Definition throw {W E A} (e : E) : M W E A := fun w => (w, inl e).
Definition get {W E} : M W E W := fun w => (w, inr w).
Definition gets {W E A} (f : W -> A) : M W E A := fun w => (w, inr (f w)).
Definition modify {W E} (f : W -> W) : M W E unit := fun w => (f w, inr tt).

(** The loop [for _, x := range l]: stops at the first error. *)
Fixpoint forM_ {W E A} (l : list A) (f : A -> M W E unit) : M W E unit :=
  match l with
  | [] => mret tt
  | x :: l => f x ≫= fun _ => forM_ l f
  end.

(** Weakest precondition of a computation: what holds of the world it leaves
    and of its result. *)
Definition wp {W E A} (m : M W E A) (Q : W -> E + A -> Prop) (w : W) : Prop :=
  Q (m w).1 (m w).2.

Section wp.
Context {W E : Type}.

Lemma wp_ret {A} (a : A) (Q : W -> E + A -> Prop) w :
  Q w (inr a) -> wp (mret a) Q w.
Proof. done. Qed.

Lemma wp_throw {A} (e : E) (Q : W -> E + A -> Prop) w :
  Q w (inl e) -> wp (throw e) Q w.
Proof. done. Qed.

Lemma wp_gets {A} (f : W -> A) (Q : W -> E + A -> Prop) w :
  Q w (inr (f w)) -> wp (gets f) Q w.
Proof. done. Qed.

Lemma wp_get (Q : W -> E + W -> Prop) w : Q w (inr w) -> wp get Q w.
Proof. done. Qed.

Lemma wp_modify (f : W -> W) (Q : W -> E + unit -> Prop) w :
  Q (f w) (inr tt) -> wp (modify f) Q w.
Proof. done. Qed.

Lemma wp_bind {A B} (m : M W E A) (k : A -> M W E B) (Q : W -> E + B -> Prop) w :
  wp m (fun w' r => match r with
                    | inl e => Q w' (inl e)
                    | inr a => wp (k a) Q w'
                    end) w ->
  wp (m ≫= k) Q w.
Proof.
  unfold wp, mbind, M_bind. destruct (m w) as [w' [e|a]]; simpl; done.
Qed.

Lemma wp_mono {A} (m : M W E A) (P Q : W -> E + A -> Prop) w :
  wp m P w -> (forall w' r, P w' r -> Q w' r) -> wp m Q w.
Proof. unfold wp. eauto. Qed.

Lemma wp_any {A} (m : M W E A) (Q : W -> E + A -> Prop) w :
  (forall w' r, Q w' r) -> wp m Q w.
Proof. unfold wp. eauto. Qed.

Lemma wp_elim {A} (m : M W E A) (Q : W -> E + A -> Prop) w w' r :
  wp m Q w -> m w = (w', r) -> Q w' r.
Proof. unfold wp. intros H Heq. by rewrite Heq in H. Qed.

Lemma wp_if {A} (b : bool) (m1 m2 : M W E A) Q w :
  (b = true -> wp m1 Q w) -> (b = false -> wp m2 Q w) ->
  wp (if b then m1 else m2) Q w.
Proof. destruct b; auto. Qed.

(** A loop keeps an invariant its body keeps. *)
Lemma wp_forM_ {A} (l : list A) (f : A -> M W E unit) (I : W -> Prop)
    (Q : W -> E + unit -> Prop) w :
  I w ->
  (forall x w, x ∈ l -> I w ->
     wp (f x) (fun w' r => match r with
                           | inl e => Q w' (inl e)
                           | inr _ => I w'
                           end) w) ->
  (forall w', I w' -> Q w' (inr tt)) ->
  wp (forM_ l f) Q w.
Proof.
  revert w. induction l as [|x l IH]; intros w HI Hbody HQ; simpl.
  - by apply wp_ret, HQ.
  - apply wp_bind. eapply wp_mono; [apply Hbody; [left|done]|].
    intros w' [e|[]] H; [done|]. apply IH; [done| |done].
    intros y w'' Hy. apply Hbody. by right.
Qed.
End wp.

Create HintDb moov discriminated.
#[export] Hint Resolve wp_ret wp_throw wp_gets wp_get wp_modify wp_bind : moov.

(** Step through a monadic program: binds, reads, writes and tests. *)
Ltac wp_step :=
  match goal with
  | |- wp (mret _) _ _ => apply wp_ret
  | |- wp (throw _) _ _ => apply wp_throw
  | |- wp (gets _) _ _ => apply wp_gets
  | |- wp get _ _ => apply wp_get
  | |- wp (modify _) _ _ => apply wp_modify
  | |- wp (mbind _ _) _ _ => apply wp_bind
  | |- wp (if _ then _ else _) _ _ => apply wp_if; intros ?
  end.
Ltac wp_steps := repeat (wp_step; cbv beta iota).

(** Linear arithmetic with divisions. *)
Ltac div_lia := Z.div_mod_to_equations; lia.

(** Case analysis on the tests the Go code makes. *)
Ltac bool_cases :=
  repeat match goal with
  | H : (_ =? _)%Z = true |- _ => apply Z.eqb_eq in H
  | H : (_ =? _)%Z = false |- _ => apply Z.eqb_neq in H
  | H : (_ <? _)%Z = true |- _ => apply Z.ltb_lt in H
  | H : (_ <? _)%Z = false |- _ => apply Z.ltb_ge in H
  | H : (_ <=? _)%Z = true |- _ => apply Z.leb_le in H
  | H : (_ <=? _)%Z = false |- _ => apply Z.leb_gt in H
  | H : _ && _ = true |- _ => apply andb_prop in H; destruct H
  | H : _ && _ = false |- _ => apply andb_false_iff in H; destruct H
  | H : _ || _ = true |- _ => apply orb_prop in H; destruct H
  | H : _ || _ = false |- _ => apply orb_false_elim in H; destruct H
  | H : negb _ = true |- _ => apply negb_true_iff in H
  | H : negb _ = false |- _ => apply negb_false_iff in H
  | H : bool_decide _ = true |- _ => apply bool_decide_eq_true in H
  | H : bool_decide _ = false |- _ => apply bool_decide_eq_false in H
  end.

Ltac case_bool :=
  match goal with
  | |- context [if ?b then _ else _] =>
      lazymatch b with
      | context [if _ then _ else _] => fail
      | _ => destruct b eqn:?; bool_cases
      end
  end.

(** ** sort.Strings *)

Definition sort_Strings (l : list string) : list string := merge_sort String.le l.

Lemma sort_Strings_perm l : sort_Strings l ≡ₚ l.
Proof. apply merge_sort_Permutation. Qed.

Lemma sort_Strings_sorted l : StronglySorted String.le (sort_Strings l).
Proof. apply StronglySorted_merge_sort; apply _. Qed.


Lemma StronglySorted_impl {A} (R R' : A -> A -> Prop) l :
  (forall a b, R a b -> R' a b) -> StronglySorted R l -> StronglySorted R' l.
Proof.
  intros HR. induction 1 as [|a l _ IH Hall]; constructor; [done|].
  eapply Forall_impl; [exact Hall|]. auto.
Qed.

Lemma NoDup_fmap_filter {A B} (f : A -> B) (P : A -> Prop) `{!forall x, Decision (P x)} l :
  NoDup (f <$> l) -> NoDup (f <$> filter P l).
Proof.
  induction l as [|x l IH]; [done|]. rewrite fmap_cons, NoDup_cons. intros [Hnin Hnd].
  rewrite filter_cons. case_decide; [|auto]. rewrite fmap_cons. constructor; [|auto].
  intros (y & Heq & [_ Hy]%list_elem_of_filter)%list_elem_of_fmap. apply Hnin. rewrite Heq.
  by apply list_elem_of_fmap_2.
Qed.
