(* ===== verification/Convert.v ===== *)
(** Numeric conversions between the IMAP wire types and the store's columns
    (src/internal/sync/convert.go). *)

From S2P Require Import Prelude.

(** DefaultFetchWindow of src/internal/sync/initial.go. *)
Definition DefaultFetchWindow : Z := 500.

(** [imap.ModSeq] (uint64) to the bigint column. *)
Definition modSeqToDB (m : Z) : Z := if MaxInt64 <? m then MaxInt64 else m.

Definition uidValidityToDB (v : Z) : Z := v.

Definition uidValidityFromDB (v : Z) : Z :=
  if (v <? 0) || (MaxUint32 <? v) then 0 else v.

Definition uidNextToDB (u : Z) : Z := u.

Definition uidFromDB (v : Z) : Z :=
  if (v <? 0) || (MaxUint32 <? v) then 0 else v.

Definition modSeqFromDB (v : Z) : Z := if v <? 0 then 0 else v.

Definition windowSize (n : Z) : Z :=
  if n <=? 0 then DefaultFetchWindow
  else if MaxUint32 <? n then MaxUint32
  else n.

(** Storing and reloading an identity is exact: a UIDVALIDITY or UID that
    the wire type can hold survives the round trip through its bigint column,
    a MODSEQ saturates at the column's maximum and never turns negative, and
    whatever a column holds is read back as a value of the wire type. *)
Theorem convert_roundtrip (v m db : Z) :
  is_uint32 v -> is_uint64 m -> is_int64 db ->
  uidValidityFromDB (uidValidityToDB v) = v /\
  uidFromDB (uidNextToDB v) = v /\
  modSeqFromDB (modSeqToDB m) = Z.min m MaxInt64 /\
  is_int64 (modSeqToDB m) /\
  is_uint32 (uidValidityFromDB db) /\ is_uint32 (uidFromDB db) /\
  is_uint64 (modSeqFromDB db).
Proof.
  unfold is_uint32, is_uint64, is_int64, uidValidityFromDB, uidFromDB, uidValidityToDB,
    uidNextToDB, modSeqFromDB, modSeqToDB, MaxUint32, MaxInt64, MinInt64.
  intros. repeat split; repeat case_bool; lia.
Qed.

Lemma convert_roundtrip_witness :
  is_uint32 4294967295 /\
  modSeqFromDB (modSeqToDB 18446744073709551615) = MaxInt64.
Proof.
  split; [unfold is_uint32, MaxUint32; lia|].
  destruct (convert_roundtrip 4294967295 18446744073709551615 (-1)) as (_ & _ & H & _);
    [unfold is_uint32, MaxUint32; lia|unfold is_uint64; lia|
     unfold is_int64, MinInt64, MaxInt64; lia|].
  rewrite H. reflexivity.
Defined.

(** The window is a positive UID count that the UID type can hold. *)
Lemma windowSize_bounds n : 1 <= windowSize n <= MaxUint32.
Proof. unfold windowSize, DefaultFetchWindow, MaxUint32. repeat case_bool; lia. Qed.
#[export] Hint Resolve windowSize_bounds : moov.
