(* ===== verification/Debounce.v ===== *)
(** The per-mailbox notification debouncer (src/internal/sync/debounce.go).

    The [pending] map holds the deadlines as data; [timer] is the instant the
    armed [time.Timer] fires, or [None] when [d.timer] is nil. The injected
    clock is the argument [now] of the operations that read it. *)

From S2P Require Import Prelude.

Record pendingMailbox := mkPending {
  first : Time;  (* when the burst started *)
  last : Time    (* the most recent event *)
}.

Record debouncer := mkDebouncer {
  quiet : Duration;
  maxWait : Duration;
  pending : gmap string pendingMailbox;
  timer : option Time
}.

(** The earlier of "quiet since the last event" and "maxWait since the first". *)
Definition deadline (p : pendingMailbox) (quiet maxWait : Duration) : Time :=
  let settle := last p + quiet in
  let limit := first p + maxWait in
  if Before limit settle then limit else settle.

Definition newDebouncer (quiet maxWait : Duration) : debouncer :=
  {| quiet := quiet; maxWait := maxWait; pending := ∅; timer := None |}.

Definition set_timer (d : debouncer) (t : option Time) : debouncer :=
  {| quiet := quiet d; maxWait := maxWait d; pending := pending d; timer := t |}.
Definition set_pending (d : debouncer) (m : gmap string pendingMailbox) : debouncer :=
  {| quiet := quiet d; maxWait := maxWait d; pending := m; timer := timer d |}.

Definition stopTimer (d : debouncer) : debouncer :=
  match timer d with
  | None => d
  | Some _ => set_timer d None
  end.

(** The loop of [arm] over the deadlines, in whatever order the range over the
    map visits them. *)
Definition earliest (dls : list Time) : Time :=
  foldl (fun e dl => if IsZero e || Before dl e then dl else e) 0 dls.

(** The deadlines, in the order a range over [pending] meets them. *)
Definition deadlines (d : debouncer) : list Time :=
  (fun kp => deadline kp.2 (quiet d) (maxWait d)) <$> map_to_list (pending d).

Definition arm (now : Time) (d : debouncer) : debouncer :=
  if decide (pending d = ∅) then stopTimer d
  else
    let wait := Sub (earliest (deadlines d)) now in
    let wait := if wait <? 0 then 0 else wait in
    set_timer (stopTimer d) (Some (now + wait)).

Definition touch (now : Time) (mailbox : string) (d : debouncer) : debouncer :=
  let p := match pending d !! mailbox with
           | Some p => p
           | None => {| first := now; last := 0 |}
           end in
  arm now (set_pending d (<[mailbox := {| first := first p; last := now |}]> (pending d))).

(** The channel [ready()] returns: [None] is the nil channel. *)
Definition ready (d : debouncer) : option Time := timer d.

Definition is_due (d : debouncer) (now : Time) (p : pendingMailbox) : bool :=
  negb (After (deadline p (quiet d) (maxWait d)) now).

Definition take (now : Time) (d : debouncer) : list string * debouncer :=
  let due := (map_to_list (filter (fun kp => is_due d now kp.2 = true) (pending d))).*1 in
  let rest := foldl (fun m name => delete name m) (pending d) due in
  (sort_Strings due, arm now (stopTimer (set_pending d rest))).

Definition reset (d : debouncer) : debouncer := stopTimer (set_pending d ∅).
Definition stop (d : debouncer) : debouncer := stopTimer d.
Definition pendingCount (d : debouncer) : Z := Z.of_nat (size (pending d)).

(** ** Runs of the dispatch loop over the debouncer

    [dreach q m t d]: the debouncer [d] of a loop that started with quiet time
    [q] and limit [m], at clock [t]. The clock never goes back. *)
Inductive dreach (q m : Duration) : Time -> debouncer -> Prop :=
| reach_new t : 0 < t -> dreach q m t (newDebouncer q m)
| reach_touch t t' d mb : dreach q m t d -> t <= t' -> dreach q m t' (touch t' mb d)
| reach_take t t' d : dreach q m t d -> t <= t' -> dreach q m t' (take t' d).2
| reach_reset t t' d : dreach q m t d -> t <= t' -> dreach q m t' (reset d).

(** ** Lemmas *)

Lemma deadline_le_settle p q m : deadline p q m <= last p + q.
Proof. unfold deadline, Before. case_bool; lia. Qed.

Lemma deadline_le_limit p q m : deadline p q m <= first p + m.
Proof. unfold deadline, Before. case_bool; lia. Qed.

Lemma deadline_min p q m : deadline p q m = Z.min (last p + q) (first p + m).
Proof. unfold deadline, Before. case_bool; lia. Qed.

(** The scan finds the least deadline, whatever order the map is visited in. *)
Lemma earliest_spec_aux l e :
  0 <= e -> Forall (fun x => 0 < x) l ->
  let r := foldl (fun e dl => if IsZero e || Before dl e then dl else e) e l in
  (r = e \/ r ∈ l) /\ (e <> 0 -> r <= e) /\ Forall (fun x => r <= x) l /\
  (l <> [] -> 0 < r).
Proof.
  revert e. induction l as [|x l IH]; intros e He Hpos; simpl.
  - repeat split; auto; done.
  - inversion Hpos as [|? ? Hx Hl]; subst.
    set (e' := if IsZero e || Before x e then x else e).
    assert (0 < e' /\ e' <= x /\ (e <> 0 -> e' <= e) /\ (e' = e \/ e' = x)) as (? & ? & ? & Hor).
    { unfold e', IsZero, Before. case_bool; repeat split; lia. }
    destruct (IH e' ltac:(lia) Hl) as (Hmem & Hle & Hall & Hne). repeat split.
    + destruct Hmem as [->|?]; [|set_solver]. destruct Hor as [->| ->]; set_solver.
    + intros ?. specialize (Hle ltac:(lia)). lia.
    + constructor; [|done]. specialize (Hle ltac:(lia)). lia.
    + intros _. destruct l; [simpl; lia|]. apply Hne. done.
Qed.

Lemma earliest_spec l :
  l <> [] -> Forall (fun x => 0 < x) l ->
  earliest l ∈ l /\ Forall (fun x => earliest l <= x) l.
Proof.
  intros Hne Hpos. destruct (earliest_spec_aux l 0 ltac:(lia) Hpos) as ([H0|?] & _ & ? & Hp).
  - specialize (Hp Hne). cbv zeta in *. lia.
  - done.
Qed.

Lemma elem_of_deadlines d T :
  T ∈ deadlines d <->
  exists name p, pending d !! name = Some p /\ T = deadline p (quiet d) (maxWait d).
Proof.
  unfold deadlines. rewrite list_elem_of_fmap. split.
  - intros ([name p] & -> & H%elem_of_map_to_list). eauto.
  - intros (name & p & H%elem_of_map_to_list & ->). by exists (name, p).
Qed.

Lemma deadlines_nonempty d : pending d <> ∅ -> deadlines d <> [].
Proof.
  intros Hne Heq. apply Hne. apply map_to_list_empty_iff.
  unfold deadlines in Heq. by apply fmap_nil_inv in Heq.
Qed.

Lemma pending_stopTimer d : pending (stopTimer d) = pending d.
Proof. unfold stopTimer. by destruct (timer d). Qed.
Lemma timer_stopTimer d : timer (stopTimer d) = None.
Proof. unfold stopTimer. by destruct (timer d) eqn:E. Qed.
Lemma quiet_stopTimer d : quiet (stopTimer d) = quiet d.
Proof. unfold stopTimer. by destruct (timer d). Qed.
Lemma maxWait_stopTimer d : maxWait (stopTimer d) = maxWait d.
Proof. unfold stopTimer. by destruct (timer d). Qed.
Create Rewrite HintDb debounce.
#[local] Hint Rewrite pending_stopTimer timer_stopTimer quiet_stopTimer maxWait_stopTimer : debounce.

Lemma pending_arm now d : pending (arm now d) = pending d.
Proof. unfold arm. case_decide; simpl; by autorewrite with debounce. Qed.
Lemma quiet_arm now d : quiet (arm now d) = quiet d.
Proof. unfold arm. case_decide; simpl; by autorewrite with debounce. Qed.
Lemma maxWait_arm now d : maxWait (arm now d) = maxWait d.
Proof. unfold arm. case_decide; simpl; by autorewrite with debounce. Qed.
#[local] Hint Rewrite pending_arm quiet_arm maxWait_arm : debounce.

(** Arming leaves the timer nil exactly when nothing is pending. *)
Lemma timer_arm now d : timer (arm now d) = None <-> pending (arm now d) = ∅.
Proof. unfold arm. case_decide as He; simpl; autorewrite with debounce; done. Qed.

(** What deleting the due names leaves. *)
Lemma lookup_foldl_delete {A} (names : list string) (m : gmap string A) k :
  foldl (fun m name => delete name m) m names !! k =
  if decide (k ∈ names) then None else m !! k.
Proof.
  revert m. induction names as [|x names IH]; intros m; cbn [foldl].
  - by rewrite decide_False by apply not_elem_of_nil.
  - rewrite IH. case_decide as H1; case_decide as H2; try set_solver.
    + destruct (decide (k = x)) as [->|]; [by rewrite lookup_delete_eq|set_solver].
    + rewrite lookup_delete_ne; [done|set_solver].
Qed.

Lemma elem_of_due d now name :
  name ∈ (map_to_list (filter (fun kp => is_due d now kp.2 = true) (pending d))).*1 <->
  exists p, pending d !! name = Some p /\ deadline p (quiet d) (maxWait d) <= now.
Proof.
  rewrite list_elem_of_fmap. unfold is_due, After. split.
  - intros ([k p] & -> & H%elem_of_map_to_list). simpl in *.
    apply map_lookup_filter_Some in H as [? H]. exists p. bool_cases. done.
  - intros (p & Hp & Hle). exists (name, p). split; [done|].
    apply elem_of_map_to_list, map_lookup_filter_Some. split; [done|]. simpl.
    apply negb_true_iff, Z.ltb_ge. lia.
Qed.

(** Which mailboxes survive a [take]. *)
Lemma lookup_take now d name :
  pending (take now d).2 !! name =
  match pending d !! name with
  | Some p => if deadline p (quiet d) (maxWait d) <=? now then None else Some p
  | None => None
  end.
Proof.
  unfold take. simpl. autorewrite with debounce. simpl. rewrite lookup_foldl_delete.
  case_decide as Hin; rewrite elem_of_due in Hin.
  - destruct Hin as (p & -> & ?%Z.leb_le). by rewrite H.
  - destruct (pending d !! name) as [p|] eqn:E; [|done].
    destruct (_ <=? _) eqn:?; bool_cases; [|done]. exfalso. eauto.
Qed.

(** The state of a running debouncer: every burst has a start and a last event
    in the past, and the timer is armed at the least deadline (or at once, when
    that deadline had passed when it was armed) exactly when something waits. *)
Record debouncer_wf (q m : Duration) (t : Time) (d : debouncer) : Prop := {
  wf_clock : 0 < t;
  wf_quiet : quiet d = q;
  wf_maxWait : maxWait d = m;
  wf_pending name p : pending d !! name = Some p -> 0 < first p <= last p /\ last p <= t;
  wf_timer : match timer d with
             | None => pending d = ∅
             | Some T =>
                 exists t0, t0 <= t /\
                   (exists name p, pending d !! name = Some p /\ T = Z.max t0 (deadline p q m)) /\
                   (forall name p, pending d !! name = Some p -> T <= Z.max t0 (deadline p q m))
             end
}.

Section invariant.
Context (q m : Duration) (Hq : 0 <= q <= MaxInt64) (Hm : 0 <= m <= MaxInt64).

Lemma deadline_pos p : 0 < first p <= last p -> 0 < deadline p q m.
Proof using Hq Hm. rewrite deadline_min. lia. Qed.

(** Arming re-establishes the timer half of the invariant. *)
Lemma arm_wf t d :
  0 < t -> quiet d = q -> maxWait d = m ->
  (forall name p, pending d !! name = Some p -> 0 < first p <= last p /\ last p <= t) ->
  debouncer_wf q m t (arm t d).
Proof using Hq Hm.
  intros Ht Hdq Hdm Hp. split; autorewrite with debounce; try done.
  unfold arm. case_decide as He.
  { by rewrite timer_stopTimer. }
  cbn [timer set_timer].
  destruct (earliest_spec (deadlines d)) as [Hin Hmin].
  { by apply deadlines_nonempty. }
  { apply Forall_forall. intros T (name & p & Hl & ->)%elem_of_deadlines.
    rewrite Hdq, Hdm. apply deadline_pos. by apply Hp in Hl as []. }
  pose proof Hin as (name & p & Hl & He')%elem_of_deadlines.
  rewrite Hdq, Hdm in He'. pose proof (Hp _ _ Hl).
  pose proof (deadline_le_settle p q m).
  assert (t + (if Sub (earliest (deadlines d)) t <? 0 then 0
               else Sub (earliest (deadlines d)) t) = Z.max t (earliest (deadlines d))) as ->.
  { unfold Sub, MinInt64, MaxInt64 in *. case_bool; lia. }
  exists t. split; [lia|]. split.
  - exists name, p. by rewrite He'.
  - intros name' p' Hl'. rewrite Forall_forall in Hmin.
    assert (earliest (deadlines d) <= deadline p' q m); [|lia].
    apply Hmin, elem_of_deadlines. exists name', p'. by rewrite Hdq, Hdm.
Qed.

Lemma dreach_wf t d : dreach q m t d -> debouncer_wf q m t d.
Proof using Hq Hm.
  induction 1 as [t Ht|t t' d mb _ IH Hle|t t' d _ IH Hle|t t' d _ IH Hle].
  - split; done.
  - destruct IH as [H0 H1 H2 H3 _]. apply arm_wf; simpl; [lia|done|done|].
    intros name p. destruct (decide (mb = name)) as [->|Hne].
    + rewrite lookup_insert_eq. intros [= <-]. simpl.
      destruct (pending d !! name) as [p|] eqn:E; simpl; [|lia].
      specialize (H3 _ _ E). lia.
    + rewrite lookup_insert_ne by done. intros Hl. specialize (H3 _ _ Hl). lia.
  - destruct IH as [H0 H1 H2 H3 _]. unfold take. simpl.
    apply arm_wf; autorewrite with debounce; simpl; [lia|done|done|].
    intros name p. rewrite lookup_foldl_delete. case_decide; [done|].
    intros Hl. specialize (H3 _ _ Hl). lia.
  - destruct IH as [H0 H1 H2 H3 _]. unfold reset.
    split; autorewrite with debounce; simpl; try done; lia.
Qed.
End invariant.



(** [take] returns exactly the mailboxes whose deadline has passed, each
    once and in sorted order, and forgets exactly those: a mailbox that is not
    due keeps its burst unchanged, and the timer stays armed while one is left. *)
Theorem take_exact (now : Time) (d : debouncer) :
  let '(due, d') := take now d in
  (forall name, name ∈ due <->
     exists p, pending d !! name = Some p /\
       (last p + quiet d <= now \/ first p + maxWait d <= now)) /\
  NoDup due /\ StronglySorted String.le due /\
  (forall name p, pending d' !! name = Some p <->
     pending d !! name = Some p /\ now < last p + quiet d /\ now < first p + maxWait d) /\
  (ready d' = None <-> pending d' = ∅).
Proof.
  pose proof (lookup_take now d) as Hlt. unfold take in *. simpl in *.
  set (due := (map_to_list _).*1) in *. repeat split.
  - rewrite (sort_Strings_perm due). intros (p & ? & Hd)%elem_of_due.
    rewrite deadline_min in Hd. exists p. split; [done|lia].
  - rewrite (sort_Strings_perm due). intros (p & ? & Hd). apply elem_of_due.
    exists p. split; [done|]. rewrite deadline_min. lia.
  - rewrite (sort_Strings_perm due). apply NoDup_fst_map_to_list.
  - apply sort_Strings_sorted.
  - rewrite Hlt in H. destruct (pending d !! name); [|done]. case_match; congruence.
  - rewrite Hlt in H. destruct (pending d !! name) as [p'|]; [|done].
    case_match; bool_cases; simplify_eq. rewrite deadline_min in *. lia.
  - rewrite Hlt in H. destruct (pending d !! name) as [p'|]; [|done].
    case_match; bool_cases; simplify_eq. rewrite deadline_min in *. lia.
  - intros (Hp & ? & ?). rewrite Hlt, Hp. case_match; bool_cases; [|done].
    rewrite deadline_min in *. lia.
  - apply timer_arm.
  - apply timer_arm.
Qed.
