(* ===== verification/Broker.v ===== *)
(** The push broker (src/internal/sync/broker.go): the in-process fan-out of
    "account N changed" to the connected event-source handlers.

    Subscriptions are shared objects: the broker's per-account sets, a Notify
    that copied a set, and the handlers' cancel closures all point at them. They
    live in [heap], addressed by a [nat]. Each critical section of a lock is one
    action of [bstep], so an interleaving of goroutines is a list of actions. *)

From S2P Require Import Prelude.

Record StateChange := mkChange { AccountID : Z; At : Time }.

(** One subscriber's one-slot channel. [sub_ch] is the content of the buffered
    channel of capacity 1 and [ch_closed] whether [close(ch)] ran; [sub_closed]
    is the flag the Go code keeps beside the channel. *)
Record subscription := mkSub {
  sub_ch : option StateChange;
  ch_closed : bool;
  sub_closed : bool
}.

Record Broker := mkBroker {
  b_subs : gmap Z (gset nat);
  b_closed : bool
}.

(** The broker, its subscriptions, and the goroutines in flight:
    [deliveries] are the Notify calls past their lock (the change and the copied
    set still to be served), [finishing] the subscriptions a cancel or Close has
    unlinked and will finish, [owner] the account a cancel closure captured
    ([None] for the empty closure returned after shutdown), [cancelled] the
    closures whose once.Do ran. [panicked] records a send on, or a close of, a
    closed channel. *)
Record world := mkWorld {
  broker : Broker;
  heap : gmap nat subscription;
  owner : gmap nat (option Z);
  next_sub : nat;
  deliveries : list (StateChange * list nat);
  finishing : list nat;
  cancelled : gset nat;
  panicked : bool
}.

Definition NewBroker : Broker := {| b_subs := ∅; b_closed := false |}.

Definition init_world : world :=
  {| broker := NewBroker; heap := ∅; owner := ∅; next_sub := 0; deliveries := [];
     finishing := []; cancelled := ∅; panicked := false |}.

(** A send on a channel that is not full: panics on a closed channel. *)
Definition chan_send (s : subscription) (c : StateChange) : subscription * bool :=
  if ch_closed s then (s, true)
  else ({| sub_ch := Some c; ch_closed := ch_closed s; sub_closed := sub_closed s |}, false).

Definition chan_recv (s : subscription) : subscription :=
  {| sub_ch := None; ch_closed := ch_closed s; sub_closed := sub_closed s |}.

(** [deliver]: the three selects. The subscriber is not under [sendMu] and may
    drain the slot between them; [r1] and [r2] say whether it does. *)
Definition deliver (r1 r2 : bool) (change : StateChange) (s : subscription) : subscription * bool :=
  if sub_closed s then (s, false)
  else
    match sub_ch s with
    | None => chan_send s change
    | Some _ =>
        if ch_closed s then (s, true)
        else
          let s := if r1 then chan_recv s else s in
          let s := match sub_ch s with Some _ => chan_recv s | None => s end in
          let s := if r2 then chan_recv s else s in
          match sub_ch s with
          | None => chan_send s change
          | Some _ => (s, false)
          end
    end.

(** [finish]: closes the channel exactly once. *)
Definition finish (s : subscription) : subscription * bool :=
  if sub_closed s then (s, false)
  else ({| sub_ch := sub_ch s; ch_closed := true; sub_closed := true |}, ch_closed s).

Definition subs_of (b : Broker) (accountID : Z) : gset nat := default ∅ (b_subs b !! accountID).

(** The record updates of the actions below. *)
Definition upd_broker (w : world) (b : Broker) : world :=
  {| broker := b; heap := heap w; owner := owner w; next_sub := next_sub w;
     deliveries := deliveries w; finishing := finishing w; cancelled := cancelled w;
     panicked := panicked w |}.

Definition upd_sub (w : world) (s : nat) (r : subscription * bool) : world :=
  {| broker := broker w; heap := <[s := r.1]> (heap w); owner := owner w;
     next_sub := next_sub w; deliveries := deliveries w; finishing := finishing w;
     cancelled := cancelled w; panicked := panicked w || r.2 |}.

Definition fresh_sub : subscription :=
  {| sub_ch := None; ch_closed := false; sub_closed := false |}.

(** [StateEvents]: the new subscription's address and the world after it. *)
Definition StateEvents (accountID : Z) (w : world) : nat * world :=
  let s := next_sub w in
  let b := broker w in
  if b_closed b then
    let r := finish fresh_sub in
    (s, {| broker := b; heap := <[s := r.1]> (heap w); owner := <[s := None]> (owner w);
           next_sub := S s; deliveries := deliveries w; finishing := finishing w;
           cancelled := cancelled w; panicked := panicked w || r.2 |})
  else
    (s, {| broker := {| b_subs := <[accountID := {[s]} ∪ subs_of b accountID]> (b_subs b);
                        b_closed := false |};
           heap := <[s := fresh_sub]> (heap w); owner := <[s := Some accountID]> (owner w);
           next_sub := S s; deliveries := deliveries w; finishing := finishing w;
           cancelled := cancelled w; panicked := panicked w |}).

(** Unlinking a subscription from its account's bucket, reaping an empty one. *)
Definition unlink (b : Broker) (accountID : Z) (s : nat) : Broker :=
  match b_subs b !! accountID with
  | None => b
  | Some set =>
      let set' := set ∖ {[s]} in
      {| b_subs := if decide (set' = ∅) then delete accountID (b_subs b)
                   else <[accountID := set']> (b_subs b);
         b_closed := b_closed b |}
  end.

(** The cancel closure of a subscription: the part under [b.mu]. *)
Definition cancel (s : nat) (w : world) : world :=
  match owner w !! s with
  | Some (Some accountID) =>
      if decide (s ∈ cancelled w) then w
      else
        {| broker := unlink (broker w) accountID s; heap := heap w; owner := owner w;
           next_sub := next_sub w; deliveries := deliveries w;
           finishing := finishing w ++ [s]; cancelled := {[s]} ∪ cancelled w;
           panicked := panicked w |}
  | _ => w
  end.

(** [Subscribers] and [Notify] accept the nil broker. *)
Definition Subscribers (b : option Broker) (accountID : Z) : Z :=
  match b with
  | None => 0
  | Some b => Z.of_nat (size (subs_of b accountID))
  end.

(** [Notify]: the part under [b.mu], which copies the set. *)
Definition Notify (accountID : Z) (now : Time) (w : world) : world :=
  if b_closed (broker w) then w
  else
    let subs := elements (subs_of (broker w) accountID) in
    if decide (subs = []) then w
    else
      {| broker := broker w; heap := heap w; owner := owner w; next_sub := next_sub w;
         deliveries := deliveries w ++ [({| AccountID := accountID; At := now |}, subs)];
         finishing := finishing w; cancelled := cancelled w; panicked := panicked w |}.

(** [Close]: the part under [b.mu]. *)
Definition Close (w : world) : world :=
  if b_closed (broker w) then w
  else
    let all := map_to_list (b_subs (broker w)) ≫= (fun kv => elements kv.2) in
    {| broker := {| b_subs := ∅; b_closed := true |}; heap := heap w; owner := owner w;
       next_sub := next_sub w; deliveries := deliveries w; finishing := finishing w ++ all;
       cancelled := cancelled w; panicked := panicked w |}.

Inductive baction :=
| ASubscribe (accountID : Z)
| ACancel (s : nat)
| ANotify (accountID : Z) (now : Time)
| ADeliver (i : nat) (r1 r2 : bool)  (* the next send of the i-th Notify in flight *)
| AClose
| AFinish                            (* the next finish of a cancel or Close *)
| AReceive (s : nat).

Definition set_deliveries (w : world) (ds : list (StateChange * list nat)) : world :=
  {| broker := broker w; heap := heap w; owner := owner w; next_sub := next_sub w;
     deliveries := ds; finishing := finishing w; cancelled := cancelled w;
     panicked := panicked w |}.
Definition set_finishing (w : world) (fs : list nat) : world :=
  {| broker := broker w; heap := heap w; owner := owner w; next_sub := next_sub w;
     deliveries := deliveries w; finishing := fs; cancelled := cancelled w;
     panicked := panicked w |}.

Definition bstep (a : baction) (w : world) : world :=
  match a with
  | ASubscribe acc => (StateEvents acc w).2
  | ACancel s => cancel s w
  | ANotify acc now => Notify acc now w
  | ADeliver i r1 r2 =>
      match deliveries w !! i with
      | Some (c, s :: rest) =>
          match heap w !! s with
          | Some sub => set_deliveries (upd_sub w s (deliver r1 r2 c sub))
                          (<[i := (c, rest)]> (deliveries w))
          | None => w
          end
      | _ => w
      end
  | AClose => Close w
  | AFinish =>
      match finishing w with
      | s :: rest =>
          match heap w !! s with
          | Some sub => set_finishing (upd_sub w s (finish sub)) rest
          | None => w
          end
      | [] => w
      end
  | AReceive s =>
      match heap w !! s with
      | Some sub => upd_sub w s (chan_recv sub, false)
      | None => w
      end
  end.

Definition brun (l : list baction) (w : world) : world := foldl (fun w a => bstep a w) w l.

(** ** Invariant *)

Record binv (w : world) : Prop := {
  inv_panic : panicked w = false;
  inv_flag s sub : heap w !! s = Some sub -> ch_closed sub = sub_closed sub;
  inv_alloc s : is_Some (heap w !! s) <-> (s < next_sub w)%nat;
  inv_owner s : is_Some (owner w !! s) <-> (s < next_sub w)%nat;
  inv_bucket a set : b_subs (broker w) !! a = Some set -> set <> ∅;
  inv_subs a s : (s ∈ subs_of (broker w) a) <->
    (owner w !! s = Some (Some a) /\ (s ∉ cancelled w) /\ b_closed (broker w) = false);
  inv_live s sub : heap w !! s = Some sub ->
    sub_closed sub = true \/ s ∈ finishing w \/ exists a, s ∈ subs_of (broker w) a;
  inv_cancel s : s ∈ cancelled w -> (s < next_sub w)%nat;
  inv_fin s : s ∈ finishing w -> (s < next_sub w)%nat;
  inv_del c l s : (c, l) ∈ deliveries w -> s ∈ l -> (s < next_sub w)%nat
}.

Lemma subs_of_insert b a set a' c :
  subs_of {| b_subs := <[a := set]> (b_subs b); b_closed := c |} a' =
  if decide (a = a') then set else subs_of b a'.
Proof. unfold subs_of. simpl. rewrite lookup_insert. by case_decide. Qed.

Lemma subs_of_unlink b a s a' :
  subs_of (unlink b a s) a' = if decide (a = a') then subs_of b a ∖ {[s]} else subs_of b a'.
Proof.
  unfold unlink, subs_of. destruct (b_subs b !! a) as [set|] eqn:E.
  - cbn [b_subs]. destruct (decide (set ∖ {[s]} = ∅)) as [He|He];
      destruct (decide (a = a')) as [<-|Hne].
    + by rewrite lookup_delete_eq.
    + by rewrite lookup_delete_ne.
    + by rewrite lookup_insert_eq.
    + by rewrite lookup_insert_ne.
  - destruct (decide (a = a')) as [<-|]; rewrite ?E; simpl; [set_solver|done].
Qed.

Lemma bucket_unlink b a s a' set :
  (forall a set, b_subs b !! a = Some set -> set <> ∅) ->
  b_subs (unlink b a s) !! a' = Some set -> set <> ∅.
Proof.
  intros Hb. unfold unlink. destruct (b_subs b !! a) as [set0|] eqn:E; [|apply Hb].
  simpl. case_decide as He.
  - rewrite lookup_delete_Some. intros [_ H]. by eapply Hb.
  - rewrite lookup_insert_Some. intros [[_ <-]|[_ H]]; [done|by eapply Hb].
Qed.

Lemma deliver_flags r1 r2 c sub :
  ch_closed sub = sub_closed sub ->
  ch_closed (deliver r1 r2 c sub).1 = ch_closed sub /\
  sub_closed (deliver r1 r2 c sub).1 = sub_closed sub /\ (deliver r1 r2 c sub).2 = false.
Proof.
  destruct sub as [[x|] cc sc], r1, r2; simpl; intros ->; unfold deliver, chan_send;
    simpl; destruct sc; done.
Qed.

Lemma finish_flags sub :
  ch_closed sub = sub_closed sub ->
  ch_closed (finish sub).1 = true /\ sub_closed (finish sub).1 = true /\ (finish sub).2 = false.
Proof. destruct sub as [x cc sc]; simpl; intros ->; unfold finish; simpl; by destruct sc. Qed.

(** Replacing a subscription by one with the same flags, or a closed one, keeps
    the part of the invariant that speaks of the heap. *)
Lemma binv_upd_sub w s sub r :
  binv w -> heap w !! s = Some sub -> ch_closed r.1 = sub_closed r.1 -> r.2 = false ->
  (sub_closed sub = true -> sub_closed r.1 = true) ->
  binv (upd_sub w s r).
Proof.
  intros [] Hs Hf Hp Hc. unfold upd_sub. split; simpl; try done.
  - by rewrite inv_panic0, Hp.
  - intros s' sub'. rewrite lookup_insert_Some. intros [[_ <-]|[_ H]]; eauto.
  - intros s'. destruct (decide (s = s')) as [->|].
    + rewrite lookup_insert_eq. rewrite <- inv_alloc0. split; eauto.
    + by rewrite lookup_insert_ne.
  - intros s' sub'. rewrite lookup_insert_Some. intros [[<- <-]|[_ H]]; [|eauto].
    destruct (inv_live0 _ _ Hs) as [?|?]; auto.
Qed.

Lemma heap_lookup w s : binv w -> (s < next_sub w)%nat -> exists sub, heap w !! s = Some sub.
Proof. intros [] ?. by apply inv_alloc0. Qed.

Lemma binv_init : binv init_world.
Proof.
  split; simpl; try done; try (by intros; lia || set_solver).
  all: intros s; rewrite lookup_empty; split; [by intros []|lia].
Qed.

Lemma binv_StateEvents acc w : binv w -> binv (StateEvents acc w).2.
Proof.
  intros [Hp Hf Ha Ho Hb Hs Hl Hcn Hfin Hd]. unfold StateEvents.
  assert (heap w !! next_sub w = None) as Hnew.
  { apply eq_None_not_Some. rewrite Ha. lia. }
  assert (owner w !! next_sub w = None) as Hown.
  { apply eq_None_not_Some. rewrite Ho. lia. }
  assert (forall B (m : gmap nat B) x s, (is_Some (m !! s) <-> (s < next_sub w)%nat) ->
    is_Some (<[next_sub w := x]> m !! s) <-> (s < S (next_sub w))%nat) as Hins.
  { intros B m x s Hm. rewrite lookup_insert. case_decide; [subst; split; eauto; lia|].
    rewrite Hm. lia. }
  destruct (b_closed (broker w)) eqn:Hc; split; simpl; auto.
  - by rewrite Hp.
  - intros s sub. rewrite lookup_insert_Some. intros [[_ <-]|[_ H]]; eauto.
  - intros a s. rewrite Hs, Hc. naive_solver.
  - intros s sub. rewrite lookup_insert_Some. intros [[_ <-]|[_ H]]; eauto.
  - intros s Hin. specialize (Hcn s Hin). lia.
  - intros s Hin. specialize (Hfin s Hin). lia.
  - intros c l s Hin Hel. specialize (Hd c l s Hin Hel). lia.
  - intros s sub. rewrite lookup_insert_Some. intros [[_ <-]|[_ H]]; eauto.
  - intros a set. rewrite lookup_insert_Some. intros [[_ <-]|[_ H]]; [set_solver|eauto].
  - intros a s. rewrite subs_of_insert. rewrite lookup_insert.
    destruct (decide (next_sub w = s)) as [<-|Hne]; case_decide as Hacc; subst.
    + split; [intros _|set_solver]. split; [done|]. split; [|done]. intros Hcan.
      specialize (Hcn _ Hcan). lia.
    + rewrite Hs, Hown. naive_solver.
    + rewrite elem_of_union, Hs. set_solver.
    + rewrite Hs. naive_solver.
  - intros s sub. rewrite lookup_insert_Some. intros [[<- <-]|[Hne H]].
    + right; right. exists acc. rewrite subs_of_insert. case_decide; [set_solver|done].
    + destruct (Hl _ _ H) as [?|[?|[a' Ha']]]; auto. right; right. exists a'.
      rewrite subs_of_insert. case_decide; [subst; set_solver|done].
  - intros s Hin. specialize (Hcn s Hin). lia.
  - intros s Hin. specialize (Hfin s Hin). lia.
  - intros c l s Hin Hel. specialize (Hd c l s Hin Hel). lia.
Qed.

Lemma binv_cancel s w : binv w -> binv (cancel s w).
Proof.
  intros Hinv. pose proof Hinv as [Hp Hf Ha Ho Hb Hs Hl Hcn Hfin Hd]. unfold cancel.
  destruct (owner w !! s) as [[acc|]|] eqn:E; [|done..]. case_decide as Hc; [done|].
  assert (s < next_sub w)%nat by (apply Ho; eauto).
  assert (b_closed (unlink (broker w) acc s) = b_closed (broker w)) as Hcl.
  { unfold unlink. by destruct (b_subs (broker w) !! acc). }
  split; simpl; auto.
  - intros a set. by apply bucket_unlink.
  - intros a s'. rewrite subs_of_unlink, Hcl. case_decide as Hd'; subst.
    + rewrite elem_of_difference, Hs. set_solver.
    + rewrite Hs. split; [|set_solver]. intros (? & ? & ?). split; [done|].
      split; [|done]. assert (s <> s') by congruence. set_solver.
  - intros s' sub Hl'. destruct (Hl _ _ Hl') as [?|[?|[a Ha']]]; [auto|set_solver|].
    destruct (decide (s = s')) as [<-|]; [set_solver|].
    right; right. exists a. rewrite subs_of_unlink. case_decide; [subst; set_solver|done].
  - intros s'. rewrite elem_of_union, elem_of_singleton. intros [->|?]; auto.
  - intros s'. rewrite elem_of_app, list_elem_of_singleton. intros [?| ->]; auto.
Qed.

Lemma binv_Notify acc now w : binv w -> binv (Notify acc now w).
Proof.
  intros Hinv. pose proof Hinv as [Hp Hf Ha Ho Hb Hs Hl Hcn Hfin Hd]. unfold Notify.
  destruct (b_closed (broker w)) eqn:Hc; [done|]. case_decide; [done|].
  split; simpl; auto; [intros a s; rewrite Hs; by rewrite Hc|].
  intros c l s. rewrite elem_of_app, list_elem_of_singleton. intros [?|[= -> ->]]; [eauto|].
  rewrite elem_of_elements, Hs. intros (? & _). apply Ho. eauto.
Qed.

Lemma elem_of_all_subs (b : Broker) s :
  s ∈ (map_to_list (b_subs b) ≫= (fun kv => elements kv.2)) <-> exists a, s ∈ subs_of b a.
Proof.
  rewrite list_elem_of_bind. unfold subs_of. split.
  - intros ([a set] & Hin & Hel%elem_of_map_to_list). exists a. rewrite Hel. simpl in *.
    by apply elem_of_elements.
  - intros (a & Hin). destruct (b_subs b !! a) as [set|] eqn:E; [|set_solver].
    exists (a, set). simpl in *. split; [by apply elem_of_elements|].
    by apply elem_of_map_to_list.
Qed.

Lemma binv_Close w : binv w -> binv (Close w).
Proof.
  intros Hinv. pose proof Hinv as [Hp Hf Ha Ho Hb Hs Hl Hcn Hfin Hd]. unfold Close.
  destruct (b_closed (broker w)) eqn:Hc; [done|]. split; simpl; auto.
  - intros a s. unfold subs_of; simpl. rewrite lookup_empty. simpl. set_solver.
  - intros s sub Hl'. destruct (Hl _ _ Hl') as [?|[?|Ha']]; [auto|set_solver|].
    right; left. apply elem_of_app. right. by apply elem_of_all_subs.
  - intros s. rewrite elem_of_app, elem_of_all_subs. intros [?|[a Ha']]; [auto|].
    apply Hs in Ha' as (? & _). apply Ho. eauto.
Qed.

Lemma binv_set_deliveries w i c s rest ds :
  binv w -> deliveries w !! i = Some (c, s :: rest) -> ds = <[i := (c, rest)]> (deliveries w) ->
  binv (set_deliveries w ds).
Proof.
  intros [Hp Hf Ha Ho Hb Hs Hl Hcn Hfin Hd] Hi ->. split; simpl; auto.
  intros c' l' s' Hin Hel. apply list_elem_of_lookup in Hin as [j Hj].
  apply list_lookup_insert_Some in Hj as [(<- & [= <- <-] & _)|(_ & Hj)].
  - eapply Hd; [eapply list_elem_of_lookup_2, Hi|by right].
  - eapply Hd; [eapply list_elem_of_lookup_2, Hj|done].
Qed.

Lemma binv_step a w : binv w -> binv (bstep a w).
Proof.
  intros Hinv. destruct a as [acc|s|acc now|i r1 r2| | |s]; simpl;
    auto using binv_StateEvents, binv_cancel, binv_Notify, binv_Close.
  - destruct (deliveries w !! i) as [[c [|s rest]]|] eqn:Hi; [done| |done].
    destruct (heap w !! s) as [sub|] eqn:Hs; [|done].
    pose proof (inv_flag w Hinv _ _ Hs) as Hf.
    destruct (deliver_flags r1 r2 c sub Hf) as (? & ? & ?).
    eapply binv_set_deliveries; [|done|done]. eapply binv_upd_sub; [done|done|congruence..].
  - destruct (finishing w) as [|s rest] eqn:Hfin; [done|].
    destruct (heap w !! s) as [sub|] eqn:Hs; [|done].
    destruct (finish_flags sub (inv_flag w Hinv _ _ Hs)) as (H1 & H2 & H3).
    assert (binv (upd_sub w s (finish sub))) as [? ? ? ? ? ? Hl ? Hfi ?].
    { eapply binv_upd_sub; [done|done|congruence..]. }
    split; simpl in *; auto.
    + intros s' sub' Hs'. destruct (Hl _ _ Hs') as [?|[Hin|?]]; auto.
      rewrite Hfin in Hin. apply elem_of_cons in Hin as [->|Hin]; [|auto].
      rewrite lookup_insert_eq in Hs'. simplify_eq. auto.
    + intros s' Hin. apply Hfi. rewrite Hfin. by right.
  - destruct (heap w !! s) as [sub|] eqn:Hs; [|done].
    eapply binv_upd_sub; [done|done|exact (inv_flag w Hinv _ _ Hs)|done|done].
Qed.

Lemma brun_inv l w : binv w -> binv (brun l w).
Proof. revert w. induction l as [|a l IH]; intros w Hw; [done|]. apply IH, binv_step, Hw. Qed.
#[export] Hint Resolve brun_inv binv_init binv_step : moov.

(** ** Properties *)

(** C33: The broker is free of the channel panics its locking is there to
    prevent, in every interleaving of subscribers, cancels, publishers and
    shutdown: no send or close ever meets a closed channel, the set registered
    for an account is exactly the subscriptions taken for it and not cancelled
    (none once the broker is closed), and no empty bucket is ever kept. *)
Theorem broker_safe (l : list baction) :
  let w := brun l init_world in
  panicked w = false /\
  (forall s sub, heap w !! s = Some sub -> ch_closed sub = sub_closed sub) /\
  (forall a s, s ∈ subs_of (broker w) a <->
     (owner w !! s = Some (Some a) /\ (s ∉ cancelled w) /\ b_closed (broker w) = false)) /\
  (forall a, Subscribers (Some (broker w)) a = 0 <-> b_subs (broker w) !! a = None).
Proof.
  intros w. assert (binv w) as [Hp Hf _ _ Hb Hs _ _ _ _] by (unfold w; auto with moov).
  split; [done|]. split; [done|]. split; [done|]. intros a. split.
  - unfold Subscribers, subs_of. destruct (b_subs (broker w) !! a) as [set|] eqn:E; [|done].
    specialize (Hb _ _ E). simpl. intros Hsz.
    assert (size set = 0%nat) as ?%size_empty_iff by lia. set_solver.
  - unfold Subscribers, subs_of. by intros ->.
Qed.

(** How a finish goroutine empties its list. *)
Lemma brun_finish_all n w :
  binv w -> (length (finishing w) <= n)%nat ->
  let w' := brun (replicate n AFinish) w in
  finishing w' = [] /\ broker w' = broker w /\ next_sub w' = next_sub w.
Proof.
  revert w. induction n as [|n IH]; intros w Hw Hn.
  - simpl. destruct (finishing w) eqn:E; simpl in *; [done|lia].
  - change (brun (replicate (S n) AFinish) w) with (brun (replicate n AFinish) (bstep AFinish w)).
    assert (binv (bstep AFinish w)) as Hw' by auto with moov.
    destruct (IH (bstep AFinish w) Hw') as (H1 & H2 & H3).
    + simpl. destruct (finishing w) as [|s rest] eqn:E; simpl in *; [rewrite E; simpl; lia|].
      destruct (heap_lookup w s Hw) as [sub ->]; simpl; [|lia].
      apply (inv_fin w Hw). rewrite E. by left.
    + cbv zeta. rewrite H1, H2, H3. split; [done|]. simpl.
      destruct (finishing w) as [|s rest]; [done|]. by destruct (heap w !! s).
Qed.

(** Shutdown reaches everybody. From any state the broker can be in, Close
    followed by the finishes it started ends every subscription ever handed
    out: every handler's channel is closed, and a subscription taken later is
    born closed. *)
Theorem broker_shutdown (l : list baction) (acc : Z) :
  let w := brun l init_world in
  let w1 := bstep AClose w in
  let w2 := brun (replicate (length (finishing w1)) AFinish) w1 in
  finishing w2 = [] /\
  (forall s sub, heap w2 !! s = Some sub -> ch_closed sub = true) /\
  (forall s w3, StateEvents acc w2 = (s, w3) ->
     exists sub, heap w3 !! s = Some sub /\ ch_closed sub = true /\ sub_ch sub = None).
Proof.
  intros w w1 w2. assert (binv w1) as Hw1 by (unfold w1, w; auto with moov).
  destruct (brun_finish_all (length (finishing w1)) w1 Hw1 ltac:(lia)) as (Hfin & Hbr & _).
  fold w2 in Hfin, Hbr. assert (binv w2) as [_ Hf _ _ _ Hs Hl _ _ _] by (unfold w2; auto with moov).
  assert (b_closed (broker w2) = true) as Hcl.
  { rewrite Hbr. unfold w1. simpl. unfold Close. by destruct (b_closed (broker w)) eqn:E. }
  split; [done|]. split.
  - intros s sub Hsub. rewrite (Hf _ _ Hsub).
    destruct (Hl _ _ Hsub) as [?|[Hin|[a Ha]]]; [done|rewrite Hfin in Hin; set_solver|].
    apply Hs in Ha as (_ & _ & ?). congruence.
  - intros s w3. unfold StateEvents. rewrite Hcl. intros [= <- <-]. eexists.
    split; [apply lookup_insert_eq|done].
Qed.

(** The drain-then-send pair overwrites, whatever the subscriber does meanwhile. *)
Lemma deliver_open r1 r2 c sub :
  ch_closed sub = false -> sub_closed sub = false ->
  deliver r1 r2 c sub = ({| sub_ch := Some c; ch_closed := false; sub_closed := false |}, false).
Proof.
  destruct sub as [[x|] cc sc], r1, r2; simpl; intros -> ->; reflexivity.
Qed.

(** Serving one Notify's copied set: every open subscription of the set ends
    holding the change, all others are as before. *)
Lemma brun_deliver_all rs i c ss w :
  binv w -> deliveries w !! i = Some (c, ss) -> length rs = length ss -> NoDup ss ->
  let w' := brun ((fun r => ADeliver i r.1 r.2) <$> rs) w in
  (forall s, s ∉ ss -> heap w' !! s = heap w !! s) /\
  (forall s sub, s ∈ ss -> heap w !! s = Some sub -> sub_closed sub = false ->
     exists sub', heap w' !! s = Some sub' /\ sub_ch sub' = Some c).
Proof.
  revert ss w. induction rs as [|[r1 r2] rs IH]; intros ss w Hw Hi Hlen Hnd; cbn [fmap list_fmap].
  - destruct ss; [|done]. simpl. split; [done|]. intros s sub Hin. set_solver.
  - destruct ss as [|s0 ss]; [done|]. apply NoDup_cons in Hnd as [Hnin Hnd].
    destruct (heap_lookup w s0 Hw) as [sub0 Hs0].
    { eapply (inv_del w Hw); [eapply list_elem_of_lookup_2, Hi|by left]. }
    set (w1 := bstep (ADeliver i r1 r2) w).
    assert (heap w1 = <[s0 := (deliver r1 r2 c sub0).1]> (heap w) /\
            deliveries w1 = <[i := (c, ss)]> (deliveries w)) as [Hh1 Hd1].
    { unfold w1. simpl. rewrite Hi, Hs0. done. }
    destruct (IH ss w1) as [Hother Hset].
    { unfold w1. auto with moov. }
    { rewrite Hd1. apply list_lookup_insert_eq. by eapply lookup_lt_Some. }
    { simpl in Hlen. lia. }
    { done. }
    change (brun (ADeliver i r1 r2 :: _) w) with (brun ((fun r => ADeliver i r.1 r.2) <$> rs) w1).
    split.
    + intros s Hs. rewrite Hother by set_solver. rewrite Hh1. apply lookup_insert_ne. set_solver.
    + intros s sub [->|Hin]%elem_of_cons Hsub Hcl.
      * rewrite Hother by done. rewrite Hh1, lookup_insert_eq.
        assert (sub = sub0) as -> by congruence.
        rewrite deliver_open; [eauto| |done]. by rewrite (inv_flag w Hw _ _ Hs0).
      * apply (Hset s sub); [done| |done]. rewrite Hh1, lookup_insert_ne; [done|set_solver].
Qed.

(** A notification reaches every subscriber of its account and nobody else.
    Take any reachable broker, publish a change for an account and let its
    delivery run, with subscribers draining their slot at any moment of it:
    each live subscription of that account then holds exactly this change, an
    unread older one having been replaced, and no other subscription changed. *)
Theorem notify_delivers (l : list baction) (acc : Z) (now : Time) (rs : list (bool * bool)) :
  let w := brun l init_world in
  let w1 := bstep (ANotify acc now) w in
  let w2 := brun ((fun r => ADeliver (length (deliveries w)) r.1 r.2) <$> rs) w1 in
  length rs = size (subs_of (broker w) acc) ->
  (forall s, s ∉ subs_of (broker w) acc -> heap w2 !! s = heap w !! s) /\
  (forall s sub, s ∈ subs_of (broker w) acc -> heap w !! s = Some sub ->
     sub_closed sub = false ->
     exists sub', heap w2 !! s = Some sub' /\
       sub_ch sub' = Some {| AccountID := acc; At := now |}).
Proof.
  intros w w1 w2 Hlen. assert (binv w) as Hw by (unfold w; auto with moov).
  assert (binv w1) as Hw1 by (unfold w1; auto with moov).
  destruct (decide (elements (subs_of (broker w) acc) = [])) as [He|He].
  { assert (w1 = w) as Hw1'.
    { unfold w1. simpl. unfold Notify. rewrite decide_True by done. by destruct (b_closed _). }
    apply elements_empty_inv in He.
    assert (rs = []) as Hrs.
    { apply length_zero_iff_nil. rewrite Hlen. by apply size_empty_iff. }
    unfold w2. rewrite Hrs, Hw1'. simpl. split; [done|set_solver]. }
  assert (b_closed (broker w) = false) as Hcl.
  { apply not_true_is_false. intros Hc. apply He. apply elements_empty_iff, elem_of_equiv_empty.
    intros s Hs. apply (inv_subs w Hw) in Hs as (_ & _ & ?). congruence. }
  assert (w1 = set_deliveries w (deliveries w ++
    [({| AccountID := acc; At := now |}, elements (subs_of (broker w) acc))])) as Hw1'.
  { unfold w1. simpl. unfold Notify. rewrite Hcl, decide_False by done. done. }
  destruct (brun_deliver_all rs (length (deliveries w)) {| AccountID := acc; At := now |}
    (elements (subs_of (broker w) acc)) w1) as [Hother Hset]; [done| |done| |].
  { rewrite Hw1'. simpl. by rewrite lookup_app_r, Nat.sub_diag by lia. }
  { apply NoDup_elements. }
  fold w2 in Hother, Hset. rewrite Hw1' in Hother, Hset. simpl in Hother, Hset.
  split.
  - intros s Hs. apply Hother. by rewrite elem_of_elements.
  - intros s sub Hs. apply Hset. by rewrite elem_of_elements.
Qed.

Lemma notify_delivers_witness :
  let w := brun [ASubscribe 7; ASubscribe 9; ANotify 7 1; ADeliver 0 false false] init_world in
  let w2 := brun [ADeliver 1 true false] (bstep (ANotify 7 5) w) in
  exists sub', heap w2 !! 0%nat = Some sub' /\ sub_ch sub' = Some {| AccountID := 7; At := 5 |}.
Proof.
  intros w w2.
  destruct (notify_delivers [ASubscribe 7; ASubscribe 9; ANotify 7 1; ADeliver 0 false false]
    7 5 [(true, false)]) as [_ H]; [vm_compute; reflexivity|].
  destruct (H 0%nat {| sub_ch := Some {| AccountID := 7; At := 1 |};
                       ch_closed := false; sub_closed := false |}) as (sub' & Hs & Hc).
  - apply (bool_decide_unpack _). vm_compute. exact I.
  - vm_compute. reflexivity.
  - reflexivity.
  - exists sub'. split; [exact Hs|exact Hc].
Defined.
