(* ===== verification/Utf8.v ===== *)
(** UTF-8 as Go's standard library reads it (utf8.DecodeRuneInString,
    utf8.ValidString, strings.ToValidUTF8), and the sanitizer that keeps every
    text column acceptable to PostgreSQL (sanitizeText, sanitizeAll of
    src/internal/sync/message.go). Strings are byte strings. *)

From S2P Require Import Prelude.
From Stdlib Require Import Ascii.
#[local] Open Scope Z_scope.

Definition byte_of (a : ascii) : Z := Z.of_N (N_of_ascii a).

Definition in_range (lo hi b : Z) : bool := (lo <=? b) && (b <=? hi).

(** A continuation byte. *)
Definition is_cont (b : Z) : bool := in_range 128 191 b.

(** The second byte a three- or four-byte lead accepts. *)
Definition accept3 (b0 b1 : Z) : bool :=
  if b0 =? 224 then in_range 160 191 b1
  else if b0 =? 237 then in_range 128 159 b1
  else is_cont b1.
Definition accept4 (b0 b1 : Z) : bool :=
  if b0 =? 240 then in_range 144 191 b1
  else if b0 =? 244 then in_range 128 143 b1
  else is_cont b1.

(** The number of bytes DecodeRuneInString consumes at the head of [s] when it
    decodes a multi-byte rune, 0 when the head is a single byte or is invalid. *)
Definition multi_width (s : string) : nat :=
  match s with
  | String a (String b r) =>
      let b0 := byte_of a in
      let b1 := byte_of b in
      if in_range 194 223 b0 then if is_cont b1 then 2 else 0
      else if in_range 224 239 b0 then
        match r with
        | String c _ => if accept3 b0 b1 && is_cont (byte_of c) then 3 else 0
        | EmptyString => 0
        end
      else if in_range 240 244 b0 then
        match r with
        | String c (String d _) =>
            if accept4 b0 b1 && is_cont (byte_of c) && is_cont (byte_of d) then 4 else 0
        | _ => 0
        end
      else 0
  | _ => 0
  end%nat.

Definition is_ascii_byte (a : ascii) : bool := byte_of a <? 128.

(** utf8.ValidString: [skip] bytes of the current rune remain to be passed. *)
Fixpoint valid_from (skip : nat) (s : string) : bool :=
  match s with
  | EmptyString => true
  | String a s' =>
      match skip with
      | S k => valid_from k s'
      | O =>
          if is_ascii_byte a then valid_from 0 s'
          else match multi_width s with
               | O => false
               | S w => valid_from w s'
               end
      end
  end.
Definition ValidString (s : string) : bool := valid_from 0 s.

(** The replacement character of strings.ToValidUTF8's second argument. *)
Definition replacement : string :=
  String (ascii_of_N 239) (String (ascii_of_N 191) (String (ascii_of_N 189) EmptyString)).

(** strings.ToValidUTF8: [copy] bytes of the current rune remain to be copied,
    [invalid] says the previous byte was already replaced. *)
Fixpoint to_valid (copy : nat) (invalid : bool) (s : string) : string :=
  match s with
  | EmptyString => EmptyString
  | String a s' =>
      match copy with
      | S k => String a (to_valid k false s')
      | O =>
          if is_ascii_byte a then String a (to_valid 0 false s')
          else match multi_width s with
               | O => if invalid then to_valid 0 true s'
                      else replacement +:+ to_valid 0 true s'
               | S w => String a (to_valid w false s')
               end
      end
  end.
Definition ToValidUTF8 (s : string) : string := to_valid 0 false s.

Definition NUL : ascii := ascii_of_N 0.

(** strings.IndexByte(s, 0) >= 0 and strings.ReplaceAll(s, NUL, ""). *)
Fixpoint contains_byte (c : ascii) (s : string) : bool :=
  match s with
  | EmptyString => false
  | String a s' => (byte_of a =? byte_of c) || contains_byte c s'
  end.
Fixpoint remove_byte (c : ascii) (s : string) : string :=
  match s with
  | EmptyString => EmptyString
  | String a s' => if byte_of a =? byte_of c then remove_byte c s' else String a (remove_byte c s')
  end.

Definition sanitizeText (s : string) : string :=
  match s with
  | EmptyString => EmptyString
  | _ =>
      let needsWork := negb (ValidString s) || contains_byte NUL s in
      if negb needsWork then s
      else ToValidUTF8 (remove_byte NUL s)
  end.

Definition sanitizeAll (l : list string) : list string := sanitizeText <$> l.

(** ** Lemmas *)

Lemma byte_of_inj a b : byte_of a = byte_of b -> a = b.
Proof.
  unfold byte_of. intros H%N2Z.inj. rewrite <- (ascii_N_embedding a), <- (ascii_N_embedding b).
  by rewrite H.
Qed.

(** Decoding at the head looks at no more bytes than it consumes. *)
Lemma multi_width_prefix s t w :
  multi_width s = w -> (0 < w)%nat -> String.substring 0 w s = String.substring 0 w t ->
  multi_width t = w.
Proof.
  destruct s as [|a [|b [|c [|d s]]]]; simpl; intros <-;
  repeat case_match; simpl; try lia; intros _;
  destruct t as [|a' [|b' [|c' [|d' t]]]]; simpl; try done;
  intros Heq; simplify_eq; simpl;
  repeat match goal with H : _ = _ |- _ => rewrite H end; try done.
Qed.

Lemma multi_width_le s : (multi_width s <= String.length s)%nat.
Proof. destruct s as [|a [|b [|c [|d s]]]]; simpl; repeat case_match; simpl; lia. Qed.

Lemma substring_to_valid k inv s :
  String.substring 0 k (to_valid k inv s) = String.substring 0 k s.
Proof.
  assert (forall t, String.substring 0 0 t = EmptyString) as H0 by (by intros []).
  revert k inv. induction s as [|a s IH]; intros [|k] inv; rewrite ?H0; try done.
  simpl. by rewrite IH.
Qed.

Lemma valid_to_valid s : forall k inv, valid_from k (to_valid k inv s) = true.
Proof.
  induction s as [|a s IH]; intros [|k] inv; cbn [to_valid]; try done.
  - destruct (is_ascii_byte a) eqn:Ha; [cbn [valid_from]; by rewrite Ha|].
    destruct (multi_width (String a s)) as [|w] eqn:Hw.
    + destruct inv; [apply IH|]. exact (IH 0%nat true).
    + cbn [valid_from]. rewrite Ha.
      rewrite (multi_width_prefix (String a s) _ (S w) Hw); [apply IH|lia|].
      simpl. by rewrite substring_to_valid.
  - cbn [valid_from]. apply IH.
Qed.

Lemma contains_remove_byte c s : contains_byte c (remove_byte c s) = false.
Proof.
  induction s as [|a s IH]; simpl; [done|]. destruct (byte_of a =? byte_of c) eqn:E; [done|].
  simpl. by rewrite E, IH.
Qed.

Lemma contains_to_valid s : forall k inv,
  contains_byte NUL s = false -> contains_byte NUL (to_valid k inv s) = false.
Proof.
  induction s as [|a s IH]; intros k inv; cbn [to_valid]; [done|].
  cbn [contains_byte]. intros [Ha Hs]%orb_false_elim.
  destruct k as [|k]; [|cbn [contains_byte]; by rewrite Ha, IH].
  destruct (is_ascii_byte a); [cbn [contains_byte]; by rewrite Ha, IH|].
  destruct (multi_width _); [|cbn [contains_byte]; by rewrite Ha, IH].
  destruct inv; [by apply IH|]. exact (IH 0%nat true Hs).
Qed.

(** What a text column accepts. *)
Definition clean_text (s : string) : Prop := ValidString s = true /\ contains_byte NUL s = false.

Lemma sanitizeText_id s : clean_text s -> sanitizeText s = s.
Proof. intros [Hv Hn]. unfold sanitizeText. destruct s; [done|]. by rewrite Hv, Hn. Qed.

Lemma sanitizeText_is_clean s : clean_text (sanitizeText s).
Proof.
  unfold sanitizeText, clean_text, ValidString, ToValidUTF8. destruct s as [|a s]; [done|].
  destruct (valid_from 0 (String a s)) eqn:Hv, (contains_byte NUL (String a s)) eqn:Hn;
    cbn [negb orb]; split; auto using valid_to_valid, contains_to_valid, contains_remove_byte.
Qed.

(** The sanitizer in front of every text column gives PostgreSQL only what
    it accepts: its result is valid UTF-8 without a NUL byte, whatever bytes
    the mail carried, and text that was already acceptable passes unchanged, so
    sanitizing twice is sanitizing once. *)
Theorem sanitizeText_clean (s : string) :
  clean_text (sanitizeText s) /\
  (clean_text s <-> sanitizeText s = s) /\
  sanitizeText (sanitizeText s) = sanitizeText s.
Proof.
  split; [apply sanitizeText_is_clean|]. split.
  - split; [apply sanitizeText_id|]. intros <-. apply sanitizeText_is_clean.
  - apply sanitizeText_id, sanitizeText_is_clean.
Qed.

Example sanitize_example :
  sanitizeText (String (ascii_of_N 255) (String (ascii_of_N 254) "ab")) = replacement +:+ "ab".
Proof. reflexivity. Qed.
