(* ===== verification/Subject.v ===== *)
(** Subject normalisation and the durable thread key
    (src/internal/store/threading.go, src/internal/store/threadkey.go).

    The text that reaches threading went through sanitizeText, so it is valid
    UTF-8, and a Go string is modelled as the list of its runes: a byte offset is
    the sum of the encoded lengths before it, and cutting on a rune boundary is
    cutting the list. [unicode.ToLower] and [unicode.IsDigit] are the tables of the
    standard library and stay parameters; [unicode.IsSpace] is written out. *)

From S2P Require Import Prelude.
#[local] Open Scope Z_scope.

Abbreviation rune := Z (only parsing).
Definition text : Type := list rune.

#[global] Instance text_eq_dec : EqDecision text.
Proof. unfold text. apply _. Defined.
#[global] Instance text_countable : Countable text.
Proof. unfold text. apply _. Defined.

(** A literal of ASCII characters. *)
Fixpoint lit (s : string) : text :=
  match s with
  | EmptyString => []
  | String.String c s => Z.of_N (Ascii.N_of_ascii c) :: lit s
  end.

Definition rune_len (r : rune) : Z :=
  if r <? 128 then 1 else if r <? 2048 then 2 else if r <? 65536 then 3 else 4.
(** len(s), in bytes. *)
Definition blen (s : text) : Z := foldr (fun r n => rune_len r + n) 0 s.

(** unicode.IsSpace: the White_Space property. *)
Definition IsSpace (r : rune) : bool :=
  ((9 <=? r) && (r <=? 13)) || (r =? 32) || (r =? 133) || (r =? 160) || (r =? 5760) ||
  ((8192 <=? r) && (r <=? 8202)) || (r =? 8232) || (r =? 8233) || (r =? 8239) || (r =? 8287) ||
  (r =? 12288).

Fixpoint trim_left (s : text) : text :=
  match s with
  | r :: s' => if IsSpace r then trim_left s' else s
  | [] => []
  end.
Definition trim_right (s : text) : text := reverse (trim_left (reverse s)).
Definition TrimSpace (s : text) : text := trim_right (trim_left s).

Definition colon : rune := 58.
Definition lbracket : rune := 91.
Definition rbracket : rune := 93.
Definition lparen : rune := 40.
Definition rparen : rune := 41.

(** The text before the first [c] and the text after it: strings.IndexByte with
    the two slices around it. *)
Fixpoint cut_at (c : rune) (s : text) : option (text * text) :=
  match s with
  | [] => None
  | r :: s' => if r =? c then Some ([], s')
               else match cut_at c s' with Some (a, b) => Some (r :: a, b) | None => None end
  end.

(** The text before the last [c]: strings.LastIndexByte. *)
Definition cut_last (c : rune) (s : text) : option (text * text) :=
  match cut_at c (reverse s) with
  | Some (a, b) => Some (reverse b, reverse a)
  | None => None
  end.

Definition maxSubjectKeyLength : Z := 512.
Definition minSubjectKeyLength : nat := 3.
Definition maxThreadKeyLength : Z := 512.

Definition replyPrefixes : list text :=
  lit <$> ["re"; "fw"; "fwd"; "forward"; "rv"; "res"; "resp"; "reenv"; "enc"; "r"; "ref"; "tr";
           "rif"; "aw"; "wg"; "antw"; "doorst"; "sv"; "vs"; "vb"; "vl"].

(** [truncateRunes]: the longest prefix of whole runes within the bytes. *)
Fixpoint take_bytes (n : Z) (s : text) : text :=
  match s with
  | [] => []
  | r :: s => if rune_len r <=? n then r :: take_bytes (n - rune_len r) s else []
  end.
Definition truncateRunes (s : text) (maxBytes : Z) : text :=
  if blen s <=? maxBytes then s else take_bytes maxBytes s.

Section subject.
Context (ToLower : rune -> rune) (IsDigit : rune -> bool).

(** [stripCounter]. *)
Definition stripCounter (token : text) : text :=
  if blen token <? 3 then token
  else
    let strip (open : rune) :=
      match cut_last open (removelast token) with
      | Some (before, digits) =>
          if decide (before = []) then token
          else if forallb IsDigit digits then TrimSpace before else token
      | None => token
      end in
    match last token with
    | Some r => if r =? rbracket then strip lbracket
                else if r =? rparen then strip lparen else token
    | None => token
    end.

(** [stripOnePrefix]: the rest, whether it was a reply marker; [None] when nothing
    was stripped. *)
Definition stripOnePrefix (s : text) : option (text * bool) :=
  let s := trim_left s in
  match s with
  | [] => None
  | r :: s' =>
      if r =? lbracket then
        match cut_at rbracket s' with
        | Some (inner, rest) =>
            if decide (inner = []) then None
            else if existsb (fun r => (r =? lbracket) || (r =? rbracket)) inner then None
            else Some (rest, false)
        | None => None
        end
      else
        match cut_at colon s with
        | Some (before, rest) =>
            if (blen before <=? 0) || (16 <? blen before) then None
            else
              let token := stripCounter (ToLower <$> TrimSpace before) in
              if decide (token ∈ replyPrefixes) then Some (rest, true) else None
        | None => None
        end
  end.

(** The stripping loop: each turn removes at least one rune, so the length is
    fuel enough. *)
Fixpoint strip_loop (fuel : nat) (s : text) (isReply : bool) : text * bool :=
  match fuel with
  | O => (s, isReply)
  | S fuel =>
      match stripOnePrefix s with
      | None => (s, isReply)
      | Some (rest, marker) => strip_loop fuel rest (isReply || marker)
      end
  end.

(** [collapseSubject]; [space] and [started] are the loop's state. *)
Fixpoint collapse_from (space started : bool) (s : text) : text :=
  match s with
  | [] => []
  | r :: s =>
      if IsSpace r then collapse_from true started s
      else (if space && started then [32] else []) ++ ToLower r :: collapse_from false true s
  end.
Definition collapseSubject (s : text) : text := collapse_from false false s.

(** [NormalizeSubject]. *)
Definition subject_key (s : text) : text :=
  let key := collapseSubject s in
  if (length key <? minSubjectKeyLength)%nat then []
  else if maxSubjectKeyLength <? blen key then truncateRunes key maxSubjectKeyLength
  else key.
Definition NormalizeSubject (subject : text) : text * bool :=
  let s := TrimSpace subject in
  let '(s, isReply) := strip_loop (length s) s false in
  (subject_key s, isReply).

(** *** The durable key *)

Record ThreadCandidate := mkCandidate {
  tc_MessageID : text;
  tc_References : list text;
  tc_Subject : text
}.

(** [referenceSet]. *)
Fixpoint reference_from (self : text) (seen : gset text) (refs : list text) : list text :=
  match refs with
  | [] => []
  | ref :: refs =>
      if decide (ref = [] \/ ref = self \/ ref ∈ seen) then reference_from self seen refs
      else ref :: reference_from self ({[ref]} ∪ seen) refs
  end.
Definition referenceSet (c : ThreadCandidate) : list text :=
  reference_from (tc_MessageID c) ∅ (tc_References c).

(** hex of the first half of SHA-256. *)
Context (digest : text -> text).

Definition truncateThreadKey (key : text) : text :=
  if blen key <=? maxThreadKeyLength then key else truncateRunes key maxThreadKeyLength.

Fixpoint first_reference (refs : list text) : option text :=
  match refs with
  | [] => None
  | ref :: refs => let ref := TrimSpace ref in
                   if decide (ref = []) then first_reference refs else Some ref
  end.

Definition ThreadKey (c : ThreadCandidate) : text :=
  let id := TrimSpace (tc_MessageID c) in
  if decide (id = []) then
    match first_reference (tc_References c) with
    | Some ref => truncateThreadKey (lit "ref:" ++ ref)
    | None => lit "sub:" ++ digest (NormalizeSubject (tc_Subject c)).1
    end
  else truncateThreadKey (lit "mid:" ++ id).

Definition ThreadKeyScheme (key : text) : string :=
  if decide (lit "mid:" `prefix_of` key) then "message-id"
  else if decide (lit "ref:" `prefix_of` key) then "reference"
  else if decide (lit "sub:" `prefix_of` key) then "subject"
  else "unknown".
End subject.

(** ** Trimming *)

Lemma trim_left_idem s : trim_left (trim_left s) = trim_left s.
Proof. induction s as [|r s IH]; [done|]. simpl. destruct (IsSpace r) eqn:E; [done|]. simpl. by rewrite E. Qed.

Lemma trim_left_length s : (length (trim_left s) <= length s)%nat.
Proof. induction s as [|r s IH]; [done|]. simpl. destruct (IsSpace r); simpl; lia. Qed.

Lemma trim_left_app s r t : IsSpace r = false -> trim_left (s ++ r :: t) = trim_left s ++ r :: t.
Proof.
  intros Hr. induction s as [|x s IH]; simpl; [by rewrite Hr|]. by destruct (IsSpace x).
Qed.

Lemma trim_left_cases s :
  (trim_left s = [] /\ Forall (fun r => IsSpace r = true) s) \/
  (exists sp r t, s = sp ++ r :: t /\ Forall (fun r => IsSpace r = true) sp /\ IsSpace r = false).
Proof.
  induction s as [|x s IH]; [by left|]. simpl. destruct (IsSpace x) eqn:E.
  - destruct IH as [[? ?]|(sp & r & t & -> & ? & ?)]; [left; by auto|].
    right. exists (x :: sp), r, t. auto.
  - right. by exists [], x, s.
Qed.

Lemma trim_left_spaces s : Forall (fun r => IsSpace r = true) s -> trim_left s = [].
Proof. induction 1 as [|r s Hr _ IH]; [done|]. simpl. by rewrite Hr. Qed.

Lemma trim_right_app s r t : IsSpace r = false -> trim_right (s ++ r :: t) = s ++ r :: trim_right t.
Proof.
  intros Hr. unfold trim_right.
  rewrite reverse_app, reverse_cons, <- app_assoc. simpl. rewrite trim_left_app by done.
  by rewrite reverse_app, reverse_cons, reverse_involutive, <- app_assoc.
Qed.

Lemma trim_right_nospace s : Forall (fun r => IsSpace r = false) s -> trim_right s = s.
Proof.
  intros Hs. destruct s as [|x s _] using rev_ind; [done|].
  apply Forall_app in Hs as [_ Hx]. rewrite Forall_singleton in Hx. by rewrite trim_right_app.
Qed.

Lemma trim_left_nospace s : Forall (fun r => IsSpace r = false) s -> trim_left s = s.
Proof. intros Hs. destruct Hs as [|r s Hr _]; [done|]. simpl. by rewrite Hr. Qed.

(** The two ends are trimmed independently. *)
Lemma trim_commute s : trim_left (trim_right s) = trim_right (trim_left s).
Proof.
  destruct (trim_left_cases s) as [[H0 Hall]|(sp & r & t & -> & Hsp & Hr)].
  - rewrite H0. assert (trim_right s = []) as ->; [|done].
    unfold trim_right. rewrite trim_left_spaces; [done|]. by apply Forall_reverse.
  - rewrite trim_right_app, !trim_left_app by done. rewrite trim_left_spaces by done. simpl.
    symmetry. exact (trim_right_app [] r t Hr).
Qed.

Lemma trim_right_length s : (length (trim_right s) <= length s)%nat.
Proof.
  unfold trim_right. rewrite length_reverse. etrans; [apply trim_left_length|].
  by rewrite length_reverse.
Qed.

Lemma cut_at_length c s a b : cut_at c s = Some (a, b) -> length s = (length a + S (length b))%nat.
Proof.
  revert a b. induction s as [|r s IH]; intros a b; simpl; [done|].
  destruct (r =? c); [by intros [= <- <-]|]. destruct (cut_at c s) as [[a' b']|]; [|done].
  intros [= <- <-]. simpl. by rewrite (IH a' b').
Qed.

Lemma cut_at_app c a b : Forall (fun r => r <> c) a -> cut_at c (a ++ c :: b) = Some (a, b).
Proof.
  induction 1 as [|r a Hr _ IH]; simpl; [by rewrite Z.eqb_refl|].
  rewrite (proj2 (Z.eqb_neq _ _)) by done. by rewrite IH.
Qed.

(** ** The stripping loop *)

Section stripping.
Context (ToLower : rune -> rune) (IsDigit : rune -> bool).
Abbreviation strip1 := (stripOnePrefix ToLower IsDigit).
Abbreviation loop := (strip_loop ToLower IsDigit).

Lemma strip1_trim s : strip1 (trim_left s) = strip1 s.
Proof. unfold stripOnePrefix. by rewrite trim_left_idem. Qed.

Lemma strip1_shorter s rest m : strip1 s = Some (rest, m) -> (length rest < length s)%nat.
Proof.
  unfold stripOnePrefix. pose proof (trim_left_length s) as Hlen. intros H.
  destruct (trim_left s) as [|r s'] eqn:Es; [done|]. destruct (r =? lbracket).
  - destruct (cut_at rbracket s') as [[inner after]|] eqn:Hc; [|done].
    apply cut_at_length in Hc. repeat case_decide; try done. destruct (existsb _ _); [done|].
    injection H as <- <-. simpl in Hlen. lia.
  - destruct (cut_at colon (r :: s')) as [[before after]|] eqn:Hc; [|done].
    apply cut_at_length in Hc. destruct (_ || _); [done|]. case_decide; [|done].
    injection H as <- <-. lia.
Qed.

Lemma loop_fuel n m s b : (length s <= n)%nat -> (length s <= m)%nat -> loop n s b = loop m s b.
Proof.
  revert m s b. induction n as [|n IH]; intros m s b Hn Hm.
  - destruct s; [|simpl in Hn; lia]. by destruct m.
  - destruct m as [|m]; [destruct s; [done|simpl in Hm; lia]|]. simpl.
    destruct (strip1 s) as [[rest mk]|] eqn:E; [|done]. apply strip1_shorter in E.
    apply IH; lia.
Qed.

Lemma loop_marked n s b : loop n s true = ((loop n s b).1, true).
Proof.
  revert s b. induction n as [|n IH]; intros s b; [done|]. simpl.
  destruct (strip1 s) as [[rest m]|]; [|done]. apply IH.
Qed.

Lemma collapse_start sp s : collapse_from ToLower sp false s = collapseSubject ToLower (trim_left s).
Proof.
  unfold collapseSubject. revert sp. induction s as [|r s IH]; intros sp; [done|]. simpl.
  destruct (IsSpace r) eqn:E; [apply IH|]. simpl. rewrite E. by rewrite andb_false_r.
Qed.

(** Leading space makes no difference to what the loop finds. *)
Lemma loop_trim n s b :
  (length s <= n)%nat ->
  (loop n (trim_left s) b).2 = (loop n s b).2 /\
  collapseSubject ToLower (loop n (trim_left s) b).1 = collapseSubject ToLower (loop n s b).1.
Proof.
  intros Hn. assert (collapseSubject ToLower (trim_left s) = collapseSubject ToLower s) as Hc.
  { symmetry. apply collapse_start. }
  destruct n as [|n]; [done|]. simpl. rewrite strip1_trim.
  by destruct (strip1 s) as [[rest m]|].
Qed.

Lemma subject_key_collapse s s' :
  collapseSubject ToLower s = collapseSubject ToLower s' -> subject_key ToLower s = subject_key ToLower s'.
Proof. unfold subject_key. by intros ->. Qed.

(** A reply marker as a mailer writes it: letters that are one of the prefixes. *)
Definition reply_marker (p : text) : Prop :=
  (ToLower <$> p) ∈ replyPrefixes /\ Forall (fun r => 65 <= r <= 90 \/ 97 <= r <= 122) p.

Lemma marker_counter t : t ∈ replyPrefixes -> stripCounter IsDigit t = t.
Proof.
  intros Ht. unfold replyPrefixes in Ht. simpl in Ht.
  repeat (apply elem_of_cons in Ht as [->|Ht]; [reflexivity|]). by apply elem_of_nil in Ht.
Qed.

Lemma marker_length t : t ∈ replyPrefixes -> (1 <= length t <= 7)%nat.
Proof.
  intros Ht. unfold replyPrefixes in Ht. simpl in Ht.
  repeat (apply elem_of_cons in Ht as [->|Ht]; [simpl; lia|]). by apply elem_of_nil in Ht.
Qed.

Lemma letters_ok p :
  Forall (fun r => 65 <= r <= 90 \/ 97 <= r <= 122) p ->
  Forall (fun r => IsSpace r = false) p /\ Forall (fun r => r <> colon) p /\
  Forall (fun r => r <> lbracket) p /\ blen p = Z.of_nat (length p).
Proof.
  induction 1 as [|r p Hr _ (IH1 & IH2 & IH3 & IH4)]; [by repeat split|].
  split; [constructor; [|done]|split; [|split]].
  - unfold IsSpace. repeat (rewrite (proj2 (Z.eqb_neq _ _)) by lia).
    destruct (r <=? 13) eqn:E1, (8192 <=? r) eqn:E2; bool_cases; try lia; by rewrite ?andb_false_r.
  - constructor; [|done]. unfold colon. lia.
  - constructor; [|done]. unfold lbracket. lia.
  - simpl. rewrite IH4. unfold rune_len. rewrite (proj2 (Z.ltb_lt _ _)) by lia. lia.
Qed.

Lemma strip1_marker p s : reply_marker p -> strip1 (p ++ colon :: s) = Some (s, true).
Proof.
  intros [Hp Hl]. destruct (letters_ok p Hl) as (Hsp & Hco & Hbr & Hlen).
  pose proof (marker_length _ Hp) as Hn. rewrite length_fmap in Hn.
  unfold stripOnePrefix. destruct p as [|r p]; [simpl in Hn; lia|].
  assert (trim_left ((r :: p) ++ colon :: s) = (r :: p) ++ colon :: s) as ->.
  { simpl. apply Forall_cons in Hsp as [-> _]. done. }
  rewrite (cut_at_app colon (r :: p) s) by done.
  change ((r :: p) ++ colon :: s) with (r :: (p ++ colon :: s)). cbv iota.
  apply Forall_cons in Hbr as [Hr _]. rewrite (proj2 (Z.eqb_neq _ _)) by done.
  rewrite Hlen. destruct ((_ <=? _) || _) eqn:E.
  { simpl length in *. bool_cases; lia. }
  unfold TrimSpace. rewrite trim_left_nospace, trim_right_nospace by done.
  rewrite marker_counter by done. by rewrite decide_True.
Qed.

Lemma NormalizeSubject_reply p s :
  reply_marker p ->
  NormalizeSubject ToLower IsDigit (p ++ colon :: s) =
  ((NormalizeSubject ToLower IsDigit s).1, true).
Proof.
  intros Hp. assert (IsSpace colon = false) as Hcol by reflexivity.
  destruct (letters_ok p (proj2 Hp)) as (Hsp & _).
  unfold NormalizeSubject, TrimSpace. rewrite trim_left_app, trim_right_app by done.
  rewrite (trim_left_nospace p) by done. rewrite length_app. simpl.
  rewrite Nat.add_succ_r. cbn [strip_loop]. rewrite strip1_marker by done. simpl.
  rewrite <- trim_commute. set (s' := trim_right s).
  set (n := (length p + length s')%nat).
  assert (length s' <= n)%nat as Hn by (subst n; lia).
  pose proof (trim_left_length s') as Hl.
  rewrite (loop_fuel (length (trim_left s')) n (trim_left s') false) by lia.
  destruct (loop_trim n s' false Hn) as [_ Hc].
  rewrite (loop_marked n s' false).
  destruct (loop n (trim_left s') false) as [t b], (loop n s' false) as [t' b']. simpl in *.
  f_equal. by apply subject_key_collapse.
Qed.

(** ** Bounds of the key *)

Lemma rune_len_bounds r : 1 <= rune_len r <= 4.
Proof. unfold rune_len. repeat case_bool; lia. Qed.

Lemma blen_nonneg s : 0 <= blen s.
Proof. induction s as [|r s IH]; simpl; [done|]. pose proof (rune_len_bounds r). lia. Qed.

Lemma blen_app s t : blen (s ++ t) = blen s + blen t.
Proof. induction s as [|r s IH]; simpl; [done|]. lia. Qed.

Lemma blen_length s : blen s <= 4 * Z.of_nat (length s).
Proof. induction s as [|r s IH]; simpl; [done|]. pose proof (rune_len_bounds r). lia. Qed.

Lemma take_bytes_bound n s : 0 <= n -> blen (take_bytes n s) <= n.
Proof.
  revert n. induction s as [|r s IH]; intros n Hn; simpl; [done|].
  case_bool; simpl; [|done]. specialize (IH (n - rune_len r) ltac:(lia)). lia.
Qed.

Lemma take_bytes_full n s : n < blen s -> n - 4 < blen (take_bytes n s).
Proof.
  revert n. induction s as [|r s IH]; intros n Hn; simpl in *; [lia|].
  pose proof (rune_len_bounds r). case_bool; simpl; [|lia].
  specialize (IH (n - rune_len r) ltac:(lia)). lia.
Qed.

Lemma take_bytes_prefix n s : take_bytes n s `prefix_of` s.
Proof.
  revert n. induction s as [|r s IH]; intros n; simpl; [done|].
  case_bool; [by apply prefix_cons|apply prefix_nil].
Qed.

Lemma subject_key_bounds s :
  blen (subject_key ToLower s) <= maxSubjectKeyLength /\
  (subject_key ToLower s = [] \/ (minSubjectKeyLength <= length (subject_key ToLower s))%nat).
Proof.
  unfold subject_key, truncateRunes, maxSubjectKeyLength, minSubjectKeyLength.
  set (key := collapseSubject ToLower s). destruct (_ <? _)%nat eqn:E; [split; [done|by left]|].
  apply Nat.ltb_ge in E. destruct (512 <? blen key) eqn:E2; bool_cases; [|split; [done|by right]].
  rewrite (proj2 (Z.leb_gt _ _)) by done. split; [by apply take_bytes_bound|]. right.
  pose proof (take_bytes_full 512 key E2). pose proof (blen_length (take_bytes 512 key)). lia.
Qed.

(** ** The durable key *)

Lemma truncate_prefix p s :
  blen p <= maxThreadKeyLength ->
  p `prefix_of` truncateThreadKey (p ++ s) /\ blen (truncateThreadKey (p ++ s)) <= maxThreadKeyLength.
Proof.
  intros Hp. unfold truncateThreadKey, truncateRunes. case_bool; [by split; [apply prefix_app_r|]|].
  split; [|by apply take_bytes_bound].
  clear -Hp. revert Hp. generalize maxThreadKeyLength. induction p as [|r p IH]; intros n Hp; simpl in *.
  - apply prefix_nil.
  - pose proof (blen_nonneg p). rewrite (proj2 (Z.leb_le _ _)) by lia. apply prefix_cons, IH. lia.
Qed.
End stripping.

(** A reply and its original have the same key. Whatever the subject, putting
    a reply or forward marker in front of it, in any of the languages known and in
    any case, changes neither the key nor anything else but the reply flag, which is
    then set; so the subject fallback can find the original from the reply. *)
Theorem reply_keeps_key (ToLower : rune -> rune) (IsDigit : rune -> bool) (p s : text) :
  reply_marker ToLower p ->
  NormalizeSubject ToLower IsDigit (p ++ colon :: s) =
  ((NormalizeSubject ToLower IsDigit s).1, true).
Proof. apply NormalizeSubject_reply. Qed.

Definition ascii_lower (r : rune) : rune := if (65 <=? r) && (r <=? 90) then r + 32 else r.
Definition ascii_digit (r : rune) : bool := (48 <=? r) && (r <=? 57).

Lemma reply_keeps_key_witness :
  NormalizeSubject ascii_lower ascii_digit (lit "RV: [moov-dev] Re[2]:  Release   Plan") =
  (lit "release plan", true).
Proof.
  change (lit "RV: [moov-dev] Re[2]:  Release   Plan") with
    (lit "RV" ++ colon :: lit " [moov-dev] Re[2]:  Release   Plan").
  rewrite (reply_keeps_key ascii_lower ascii_digit); [vm_compute; reflexivity|].
  split; [apply (bool_decide_unpack _); vm_compute; exact I|].
  repeat constructor; simpl; lia.
Defined.

(** The durable key of a thread is bounded and says where it comes from. A
    subject key has at most 512 bytes and is empty or has at least three runes; a
    thread key made of a Message-ID or a reference has at most 512 bytes; and its
    scheme is read back exactly: no Message-ID, reference or digest can pass for one
    of another kind. *)
Theorem thread_key_sound (ToLower : rune -> rune) (IsDigit : rune -> bool)
    (digest : text -> text) (c : ThreadCandidate) :
  let subject := (NormalizeSubject ToLower IsDigit (tc_Subject c)).1 in
  let key := ThreadKey ToLower IsDigit digest c in
  blen subject <= 512 /\ (subject = [] \/ (3 <= length subject)%nat) /\
  ThreadKeyScheme key =
    (if decide (TrimSpace (tc_MessageID c) = []) then
       match first_reference (tc_References c) with Some _ => "reference" | None => "subject" end
     else "message-id") /\
  (ThreadKeyScheme key <> "subject" -> blen key <= 512).
Proof.
  intros subject key. assert (blen subject <= 512 /\ (subject = [] \/ (3 <= length subject)%nat)) as [H1 H2].
  { unfold subject, NormalizeSubject. destruct (strip_loop _ _ _ _ _) as [s b].
    apply subject_key_bounds. }
  split; [done|]. split; [done|]. unfold key, ThreadKey.
  cbv zeta. destruct (decide (TrimSpace (tc_MessageID c) = [])) as [Hid|Hid]; unfold ThreadKeyScheme.
  - destruct (first_reference (tc_References c)) as [ref|].
    + destruct (truncate_prefix (lit "ref:") ref) as [Hp Hb]; [by vm_compute|].
      set (k := truncateThreadKey _) in *. destruct Hp as [t ->].
      rewrite decide_False by (intros [x Hx]; discriminate Hx). rewrite decide_True by (by apply prefix_app_r).
      done.
    + rewrite decide_False by (intros [x Hx]; discriminate Hx). rewrite decide_False by (intros [x Hx]; discriminate Hx).
      rewrite decide_True by (by apply prefix_app_r). done.
  - destruct (truncate_prefix (lit "mid:") (TrimSpace (tc_MessageID c))) as [Hp Hb]; [by vm_compute|].
    set (k := truncateThreadKey _) in *. destruct Hp as [t ->].
    rewrite decide_True by (by apply prefix_app_r). done.
Qed.
