(* ===== verification/Threads.v ===== *)
(** Threading (src/internal/store/threads.go and threadrows.go): which conversation
    a message joins when it is stored, how conversations merge, the subject hints,
    and the durable thread rows with their two unique indexes.

    The tables are finite maps; a transaction is a function that leaves the tables
    as they were when it fails ([in_tx]). SELECT DISTINCT ... LIMIT gives the rows in
    an order of the planner's choosing, the parameter [planner]. *)

From S2P Require Import Prelude Subject.
#[local] Open Scope Z_scope.

Definition threadMergeMaxMembers : nat := 1000.
Definition threadSubjectWindow : Duration := 30 * 24 * Hour.
Definition threadLookupLimit : nat := 64.

(** The columns of [messages] that threading reads, and the one it writes. An absent
    In-Reply-To is the empty text. *)
Record tmessage := mkTmessage {
  tm_AccountID : Z;
  tm_MessageID : text;
  tm_InReplyTo : text;
  tm_References : list text;
  tm_Subject : text;
  tm_Date : Time;
  tm_ThreadID : Z
}.

Definition with_thread (t : Z) (m : tmessage) : tmessage :=
  {| tm_AccountID := tm_AccountID m; tm_MessageID := tm_MessageID m;
     tm_InReplyTo := tm_InReplyTo m; tm_References := tm_References m;
     tm_Subject := tm_Subject m; tm_Date := tm_Date m; tm_ThreadID := t |}.

(** A row of [threads]. *)
Record Thread := mkThread {
  th_AccountID : Z;
  th_RootMessageID : text;
  th_ThreadID : Z;
  th_MergedInto : option Z;
  th_DestroyedAt : option Time;
  th_UpdatedAt : Time
}.
Definition Destroyed (t : Thread) : bool := bool_decide (is_Some (th_DestroyedAt t)).

Record TDB := mkTDB {
  t_messages : gmap Z tmessage;
  t_updated : gmap Z Time;                  (* message_state.updated_at, by message *)
  t_subjects : gmap (Z * text) (Z * Time);  (* thread_id and last_seen *)
  t_threads : gmap Z Thread;
  t_next : Z;                               (* the sequence of threads.id *)
  t_now : Time                              (* now() of the transaction *)
}.

Definition set_tmessages (f : gmap Z tmessage -> gmap Z tmessage) (d : TDB) : TDB :=
  {| t_messages := f (t_messages d); t_updated := t_updated d; t_subjects := t_subjects d;
     t_threads := t_threads d; t_next := t_next d; t_now := t_now d |}.
Definition set_updated (f : gmap Z Time -> gmap Z Time) (d : TDB) : TDB :=
  {| t_messages := t_messages d; t_updated := f (t_updated d); t_subjects := t_subjects d;
     t_threads := t_threads d; t_next := t_next d; t_now := t_now d |}.
Definition set_subjects (f : gmap (Z * text) (Z * Time) -> gmap (Z * text) (Z * Time)) (d : TDB)
    : TDB :=
  {| t_messages := t_messages d; t_updated := t_updated d; t_subjects := f (t_subjects d);
     t_threads := t_threads d; t_next := t_next d; t_now := t_now d |}.
Definition set_threads (rows : gmap Z Thread) (next : Z) (d : TDB) : TDB :=
  {| t_messages := t_messages d; t_updated := t_updated d; t_subjects := t_subjects d;
     t_threads := rows; t_next := next; t_now := t_now d |}.

Inductive terr :=
| TUnique      (* a unique index of [threads] *)
| TNotFound
| TYounger     (* mergeThread's guard *)
| TSelfMerge
| TMismatch.   (* ids and candidates of different lengths *)

Record ThreadAssignment := mkAssignment {
  as_MessageID : Z;
  as_ThreadID : Z;
  as_MergedFrom : list Z;
  as_MovedMessages : Z
}.

Section threads.
Context (ToLower : rune -> rune) (IsDigit : rune -> bool) (digest : text -> text).
Context (planner : gset Z -> list Z).
Abbreviation TM := (M TDB terr).
Abbreviation normalize := (NormalizeSubject ToLower IsDigit).

(** The headers threading sees: References with In-Reply-To. *)
Definition candidate (m : tmessage) : ThreadCandidate :=
  {| tc_MessageID := tm_MessageID m;
     tc_References := if decide (tm_InReplyTo m = []) then tm_References m
                      else tm_References m ++ [tm_InReplyTo m];
     tc_Subject := tm_Subject m |}.

Definition thread_set (P : tmessage -> bool) (d : TDB) : gset Z :=
  list_to_set ((fun kv => tm_ThreadID kv.2) <$>
                 filter (fun kv => P kv.2 = true) (map_to_list (t_messages d))).

(** SELECT DISTINCT thread_id ... LIMIT. *)
Definition limited (s : gset Z) : list Z := take threadLookupLimit (planner s).

Definition named_by (accountID : Z) (ids : list text) (m : tmessage) : bool :=
  bool_decide (tm_AccountID m = accountID /\ tm_MessageID m ∈ ids).
Definition threadsOfMessageIDs (accountID : Z) (messageIDs : list text) : TM (list Z) :=
  gets (fun d => limited (thread_set (named_by accountID messageIDs) d)).

Definition references (accountID : Z) (messageID : text) (m : tmessage) : bool :=
  bool_decide (tm_AccountID m = accountID /\
    (tm_InReplyTo m = messageID \/ messageID ∈ tm_References m)).
Definition threadsReferencing (accountID : Z) (messageID : text) : TM (list Z) :=
  gets (fun d => limited (thread_set (references accountID messageID) d)).

Definition threadBySubjectKey (accountID : Z) (key : text) : TM (option Z) :=
  gets (fun d => match t_subjects d !! (accountID, key) with
                 | Some (t, seen) => if t_now d - threadSubjectWindow <? seen then Some t else None
                 | None => None
                 end).

Definition recordSubjectKey (accountID : Z) (key : text) (threadID : Z) : TM unit :=
  modify (fun d => set_subjects
    (fun s => <[(accountID, key) :=
       (match s !! (accountID, key) with
        | Some (t, _) => Z.min t threadID
        | None => threadID
        end, t_now d)]> s) d).

Definition in_thread (accountID t : Z) (m : tmessage) : bool :=
  bool_decide (tm_AccountID m = accountID /\ tm_ThreadID m = t).
Definition members (accountID t : Z) (d : TDB) : gmap Z tmessage :=
  filter (fun kv => in_thread accountID t kv.2 = true) (t_messages d).

Definition move_message (accountID loser winner : Z) (m : tmessage) : tmessage :=
  if in_thread accountID loser m then with_thread winner m else m.

(** The three statements of a merge: the members, their state cursors, the hints. *)
Definition merge_members (accountID loser winner : Z) (d : TDB) : TDB :=
  let d := set_tmessages (fmap (move_message accountID loser winner)) d in
  let d := set_updated (fun u => ((fun _ => t_now d) <$> members accountID winner d) ∪ u) d in
  set_subjects (map_imap (fun k v =>
    Some (if bool_decide (k.1 = accountID /\ v.1 = loser) then (winner, v.2) else v))) d.

(** [mergeThread]. *)
Definition mergeThread (accountID loser winner : Z) : TM Z :=
  if loser <=? winner then throw TYounger
  else
    d ← get;
    let n := size (members accountID loser d) in
    if (n =? 0)%nat then mret 0
    else if (threadMergeMaxMembers <? n)%nat then mret 0
    else modify (merge_members accountID loser winner) ;; mret (Z.of_nat n).

(** *** Durable rows *)

(** The unique indexes: (account_id, root_message_id), and (account_id, thread_id)
    among the rows that are not destroyed. *)
Definition clashes (r r' : Thread) : bool :=
  bool_decide (th_AccountID r = th_AccountID r' /\
    (th_RootMessageID r = th_RootMessageID r' \/
     (th_DestroyedAt r = None /\ th_DestroyedAt r' = None /\ th_ThreadID r = th_ThreadID r'))).
Definition write_row (id : Z) (r : Thread) : TM unit :=
  d ← get;
  if existsb (fun kv => negb (kv.1 =? id) && clashes r kv.2) (map_to_list (t_threads d))
  then throw TUnique
  else modify (fun d => set_threads (<[id := r]> (t_threads d)) (Z.max (t_next d) (id + 1)) d).

Definition find_row (P : Thread -> bool) (d : TDB) : option (Z * Thread) :=
  List.find (fun kv => P kv.2) (map_to_list (t_threads d)).
Definition by_key (accountID : Z) (key : text) (r : Thread) : bool :=
  bool_decide (th_AccountID r = accountID /\ th_RootMessageID r = key).
Definition live_owner (accountID threadID : Z) (r : Thread) : bool :=
  bool_decide (th_AccountID r = accountID /\ th_ThreadID r = threadID /\ th_DestroyedAt r = None).

Definition update_row (t : Z) (key : text) (now : Time) (r : Thread) : Thread :=
  {| th_AccountID := th_AccountID r; th_RootMessageID := key; th_ThreadID := t;
     th_MergedInto := th_MergedInto r; th_DestroyedAt := th_DestroyedAt r; th_UpdatedAt := now |}.

(** [EnsureThread]: the id of the row. *)
Definition EnsureThread (accountID : Z) (rootKey : text) (threadID : Z) : TM Z :=
  d ← get;
  match find_row (by_key accountID rootKey) d with
  | Some (id, r) =>
      if th_ThreadID r =? threadID then mret id
      else write_row id (update_row threadID rootKey (t_now d) r) ;; mret id
  | None =>
      let id := t_next d in
      write_row id {| th_AccountID := accountID; th_RootMessageID := rootKey;
                      th_ThreadID := threadID; th_MergedInto := None; th_DestroyedAt := None;
                      th_UpdatedAt := t_now d |} ;;
      mret id
  end.

(** [TombstoneThread]. *)
Definition TombstoneThread (accountID loserID winnerID : Z) : TM unit :=
  if loserID =? winnerID then throw TSelfMerge
  else
    d ← get;
    match t_threads d !! loserID with
    | Some r =>
        if bool_decide (th_AccountID r = accountID /\ th_MergedInto r <> Some winnerID) then
          write_row loserID
            {| th_AccountID := th_AccountID r; th_RootMessageID := th_RootMessageID r;
               th_ThreadID := th_ThreadID r; th_MergedInto := Some winnerID;
               th_DestroyedAt := Some (default (t_now d) (th_DestroyedAt r));
               th_UpdatedAt := t_now d |}
        else mret tt
    | None => mret tt
    end.

(** The oldest of a thread by (date, id). *)
Definition older (x y : Z * tmessage) : bool :=
  (tm_Date x.2 <? tm_Date y.2) || ((tm_Date x.2 =? tm_Date y.2) && (x.1 <=? y.1)).
Definition oldest (l : list (Z * tmessage)) : option (Z * tmessage) :=
  foldr (fun x best => match best with
                       | Some b => Some (if older x b then x else b)
                       | None => Some x
                       end) None l.

(** [threadRootKey]. *)
Definition threadRootKey (accountID threadID : Z) : TM text :=
  d ← get;
  match oldest (map_to_list (members accountID threadID d)) with
  | Some (_, m) => mret (ThreadKey ToLower IsDigit digest (candidate m))
  | None => throw TNotFound
  end.

(** [ensureThreadForWinner]: the id of the row. *)
Definition ensureThreadForWinner (accountID : Z) (key : text) (winner : Z) : TM Z :=
  d ← get;
  match find_row (live_owner accountID winner) d with
  | Some (existing, r) =>
      if decide (th_RootMessageID r = key) then
        write_row existing (update_row (th_ThreadID r) key (t_now d) r) ;; mret existing
      else
        match find_row (by_key accountID key) d with
        | Some (other, ro) =>
            if negb (other =? existing) then
              let '(winnerRow, rw, loserRow) :=
                if existing <? other then (existing, r, other) else (other, ro, existing) in
              write_row winnerRow (update_row winner key (t_now d) rw) ;;
              TombstoneThread accountID loserRow winnerRow ;;
              mret winnerRow
            else
              write_row existing (update_row (th_ThreadID r) key (t_now d) r) ;; mret existing
        | None =>
            write_row existing (update_row (th_ThreadID r) key (t_now d) r) ;; mret existing
        end
  | None => EnsureThread accountID key winner
  end.

(** [ensureThreadRow]. *)
Definition ensureThreadRow (accountID winner : Z) (mergedFrom : list Z) : TM unit :=
  key ← threadRootKey accountID winner;
  row ← ensureThreadForWinner accountID key winner;
  forM_ mergedFrom (fun loser =>
    d ← get;
    match find_row (live_owner accountID loser) d with
    | Some (loserRow, _) =>
        if loserRow =? row then mret tt else TombstoneThread accountID loserRow row
    | None => mret tt
    end).

(** *** Assignment *)

(** The loop over the threads that lost: what was absorbed, how many moved. *)
Fixpoint merge_all (accountID winner : Z) (ts : list Z) : TM (list Z * Z) :=
  match ts with
  | [] => mret ([], 0)
  | t :: ts =>
      if t =? winner then merge_all accountID winner ts
      else
        moved ← mergeThread accountID t winner;
        rest ← merge_all accountID winner ts;
        mret (if moved =? 0 then rest else (t :: rest.1, moved + rest.2))
  end.

(** Steps 1 to 3: the threads the message belongs to. *)
Definition related (accountID : Z) (c : ThreadCandidate) : TM (gset Z) :=
  let refs := referenceSet c in
  up ← (if decide (refs = []) then mret [] else threadsOfMessageIDs accountID refs);
  down ← (if decide (tc_MessageID c = []) then mret []
          else threadsReferencing accountID (tc_MessageID c));
  let found : gset Z := list_to_set (up ++ down) in
  let '(key, isReply) := normalize (tc_Subject c) in
  if decide (found = ∅ /\ isReply = true /\ key <> []) then
    hint ← threadBySubjectKey accountID key;
    mret match hint with Some t => {[t]} | None => ∅ end
  else mret found.

(** [assignOne]. *)
Definition assignOne (accountID id : Z) (c : ThreadCandidate) : TM ThreadAssignment :=
  threads ← related accountID c;
  let winner := foldr Z.min id (elements threads) in
  (if winner =? id then mret tt
   else modify (set_tmessages (alter (fun m =>
          if tm_AccountID m =? accountID then with_thread winner m else m) id))) ;;
  merged ← merge_all accountID winner (elements threads);
  (let key := (normalize (tc_Subject c)).1 in
   if decide (key = []) then mret tt else recordSubjectKey accountID key winner) ;;
  ensureThreadRow accountID winner merged.1 ;;
  mret {| as_MessageID := id; as_ThreadID := winner; as_MergedFrom := merged.1;
          as_MovedMessages := merged.2 |}.

(** A transaction that fails leaves no trace. *)
Definition in_tx {A} (m : TM A) : TM A := fun d =>
  match m d with
  | (_, inl e) => (d, inl e)
  | r => r
  end.

Fixpoint assign_all (accountID : Z) (work : list (Z * ThreadCandidate))
    : TM (list ThreadAssignment) :=
  match work with
  | [] => mret []
  | (id, c) :: work =>
      if id =? 0 then assign_all accountID work
      else
        a ← assignOne accountID id c;
        rest ← assign_all accountID work;
        mret (a :: rest)
  end.

(** [AssignThreads]. *)
Definition AssignThreads (accountID : Z) (ids : list Z) (candidates : list ThreadCandidate)
    : TM (list ThreadAssignment) :=
  if negb (length ids =? length candidates)%nat then throw TMismatch
  else in_tx (assign_all accountID (zip ids candidates)).

(** *** Storing a batch

    The pipeline inserts a batch, each message in a conversation of its own, and then
    threads it; a failed assignment is logged and the messages stay as they are. An id
    of zero is a message the insert skipped. *)

Record batch := mkBatch {
  b_account : Z;
  b_now : Time;
  b_rows : list (Z * tmessage)
}.

Definition insert_row (now : Time) (row : Z * tmessage) (d : TDB) : TDB :=
  if row.1 =? 0 then d
  else set_updated <[row.1 := now]>
         (set_tmessages <[row.1 := with_thread row.1 row.2]> d).
Definition set_now (now : Time) (d : TDB) : TDB :=
  {| t_messages := t_messages d; t_updated := t_updated d; t_subjects := t_subjects d;
     t_threads := t_threads d; t_next := t_next d; t_now := now |}.
Definition insert_rows (b : batch) (d : TDB) : TDB :=
  foldl (fun d row => insert_row (b_now b) row d) (set_now (b_now b) d) (b_rows b).

(** The thread id reported for each message, and whether the assignment succeeded. *)
Definition assignThreads (accountID : Z) (ids : list Z) (ms : list tmessage) (d : TDB)
    : TDB * (list Z * bool) :=
  match AssignThreads accountID ids (candidate <$> ms) d with
  | (d, inl _) => (d, (ids, false))
  | (d, inr asg) =>
      (d, ((fun id => match List.find (fun a => (as_MessageID a =? id) && negb (id =? 0)) asg with
                      | Some a => as_ThreadID a
                      | None => id
                      end) <$> ids, true))
  end.

(** The tables after a batch, and the messages threaded so far. *)
Definition store_batch (dA : TDB * gset Z) (b : batch) : TDB * gset Z :=
  let '(d, (_, ok)) := assignThreads (b_account b) (b_rows b).*1 (b_rows b).*2
                         (insert_rows b dA.1) in
  (d, if ok then dA.2 ∪ list_to_set (filter (fun id => id <> 0) (b_rows b).*1) else dA.2).

Definition no_threads : TDB :=
  {| t_messages := ∅; t_updated := ∅; t_subjects := ∅; t_threads := ∅; t_next := 1; t_now := 0 |}.
Definition store_all (bs : list batch) : TDB * gset Z := foldl store_batch (no_threads, ∅) bs.

(** *** Re-threading *)

(** [threadOfMessage]. *)
Definition threadOfMessage (accountID id : Z) : TM Z :=
  d ← get;
  match t_messages d !! id with
  | Some m => if tm_AccountID m =? accountID then mret (tm_ThreadID m) else throw TNotFound
  | None => throw TNotFound
  end.

Definition id_le (x y : Z * tmessage) : Prop := x.1 <= y.1.
#[local] Instance id_le_dec : RelDecision id_le.
Proof. intros x y. apply Z.le_dec. Defined.

(** The next messages of the account, in id order. *)
Definition reindex_batch (accountID : Z) (batchSize : nat) (afterID : Z) (d : TDB)
    : list (Z * ThreadCandidate) :=
  (fun kv => (kv.1, candidate kv.2)) <$>
    take batchSize (merge_sort id_le
      (filter (fun kv => tm_AccountID kv.2 = accountID /\ afterID < kv.1)
         (map_to_list (t_messages d)))).

Fixpoint reindex_all (accountID : Z) (work : list (Z * ThreadCandidate)) (changed lastID : Z)
    : TM (Z * Z) :=
  match work with
  | [] => mret (changed, lastID)
  | (id, c) :: work =>
      before ← threadOfMessage accountID id;
      a ← assignOne accountID id c;
      reindex_all accountID work
        (if negb (as_ThreadID a =? before) || (0 <? as_MovedMessages a) then changed + 1 else changed)
        id
  end.

(** [ReindexThreads]: how many messages changed, and the last one read. *)
Definition ReindexThreads (accountID batchSize afterID : Z) : TM (Z * Z) :=
  let batchSize := if batchSize <=? 0 then 1000 else batchSize in
  r ← in_tx (d ← get;
             reindex_all accountID (reindex_batch accountID (Z.to_nat batchSize) afterID d) 0 0);
  mret (r.1, if r.2 =? 0 then afterID else r.2).
End threads.
