(* ===== verification/Conversations.v ===== *)
(** What threading guarantees over the life of an account: conversations are the
    connected groups of messages, and a conversation's id is that of its oldest
    stored member.

    The history is a list of batches, each inserted and then threaded ([store_all] of
    Threads.v). The headers of all the messages it stores, [H], never change; the
    invariant [Inv] relates the thread ids of the tables to the links [H] has. *)

From S2P Require Import Prelude Subject Threads.
#[local] Open Scope Z_scope.

Section conversations.
Context (ToLower : rune -> rune) (IsDigit : rune -> bool) (digest : text -> text).
Context (planner : gset Z -> list Z).
(** SELECT DISTINCT gives each row once, in some order. *)
Hypothesis planner_rows : forall s, planner s ≡ₚ elements s.
Abbreviation TM := (M TDB terr).
Abbreviation normalize := (NormalizeSubject ToLower IsDigit).
Abbreviation assign := (assignOne ToLower IsDigit digest planner).

(** *** Links between messages *)

(** [y] names [x] in its References or In-Reply-To. *)
Definition replies_to (y x : tmessage) : Prop :=
  tm_AccountID y = tm_AccountID x /\ tm_MessageID x <> [] /\
  tm_MessageID x ∈ tc_References (candidate y).
Definition linked (x y : tmessage) : Prop := replies_to x y \/ replies_to y x.

(** Two messages of one account with the same subject key, one of them a reply. *)
Definition same_subject (x y : tmessage) : Prop :=
  tm_AccountID x = tm_AccountID y /\
  (normalize (tm_Subject x)).1 = (normalize (tm_Subject y)).1 /\
  (normalize (tm_Subject x)).1 <> [] /\
  ((normalize (tm_Subject x)).2 = true \/ (normalize (tm_Subject y)).2 = true).

Definition related_to (h : gmap Z tmessage) (x y : Z) : Prop :=
  exists mx my, h !! x = Some mx /\ h !! y = Some my /\ (linked mx my \/ same_subject mx my).
Definition connected (h : gmap Z tmessage) : Z -> Z -> Prop := rtc (related_to h).

(** The bounds within which threading is exact: no message names more than 64 stored
    ancestors or has more than 64 stored descendants, no conversation has more than
    1000 messages, no message names itself. *)
Definition few_relatives (h : gmap Z tmessage) : Prop :=
  forall x m, h !! x = Some m ->
    (size (filter (fun kv : Z * tmessage =>
       named_by (tm_AccountID m) (referenceSet (candidate m)) kv.2 = true) h)
     <= threadLookupLimit)%nat /\
    (size (filter (fun kv : Z * tmessage =>
       references (tm_AccountID m) (tm_MessageID m) kv.2 = true) h) <= threadLookupLimit)%nat.
Definition short_conversations (h : gmap Z tmessage) : Prop :=
  forall X : gset Z, X ⊆ dom h -> (forall x y, x ∈ X -> y ∈ X -> connected h x y) ->
    (size X <= threadMergeMaxMembers)%nat.
Definition no_self_reference (h : gmap Z tmessage) : Prop :=
  forall x m, h !! x = Some m -> tm_MessageID m ∉ tc_References (candidate m) \/ tm_MessageID m = [].

Lemma linked_sym x y : linked x y -> linked y x.
Proof. intros [?|?]; [by right|by left]. Qed.

Lemma related_sym h x y : related_to h x y -> related_to h y x.
Proof.
  intros (mx & my & Hx & Hy & [Hl|(Ha & Hk & Hne & Hr)]); exists my, mx; split_and!; auto.
  - left. by apply linked_sym.
  - right. split_and!; [congruence..|tauto].
Qed.

Lemma connected_sym h x y : connected h x y -> connected h y x.
Proof.
  induction 1 as [|x y z Hxy _ IH]; [constructor|]. eapply rtc_r; [exact IH|].
  by apply related_sym.
Qed.

Lemma reference_from_elem self seen refs r :
  r ∈ reference_from self seen refs <-> r ∈ refs /\ r <> [] /\ r <> self /\ r ∉ seen.
Proof.
  revert seen. induction refs as [|ref refs IH]; intros seen; simpl; [set_solver|].
  case_decide as Hd; rewrite ?elem_of_cons, IH; [set_solver|].
  destruct (decide (r = ref)) as [->|]; set_solver.
Qed.

Lemma referenceSet_elem c r :
  r ∈ referenceSet c <-> r ∈ tc_References c /\ r <> [] /\ r <> tc_MessageID c.
Proof. unfold referenceSet. rewrite reference_from_elem. set_solver. Qed.

(** *** Headers *)

Definition headers (d : TDB) : gmap Z tmessage := with_thread 0 <$> t_messages d.

Lemma headers_lookup d x m :
  t_messages d !! x = Some m -> headers d !! x = Some (with_thread 0 m).
Proof. intros Hx. unfold headers. by rewrite lookup_fmap, Hx. Qed.

Lemma linked_headers x y : linked (with_thread 0 x) (with_thread 0 y) <-> linked x y.
Proof. done. Qed.

(** *** What a merge does to the tables *)

Definition reassign (a : Z) (S : gset Z) (w : Z) (m : tmessage) : tmessage :=
  if decide (tm_AccountID m = a /\ tm_ThreadID m ∈ S) then with_thread w m else m.
Definition repoint (a : Z) (S : gset Z) (w : Z) (a' t : Z) : Z :=
  if decide (a' = a /\ t ∈ S) then w else t.

Lemma reassign_thread a S w m :
  tm_ThreadID (reassign a S w m) = repoint a S w (tm_AccountID m) (tm_ThreadID m).
Proof. unfold reassign, repoint. by case_decide. Qed.

Lemma reassign_header a S w m : with_thread 0 (reassign a S w m) = with_thread 0 m.
Proof. unfold reassign. by case_decide. Qed.

Lemma reassign_account a S w m : tm_AccountID (reassign a S w m) = tm_AccountID m.
Proof. unfold reassign. by case_decide. Qed.

Definition populated (d : TDB) (a t : Z) : Prop :=
  exists y m, t_messages d !! y = Some m /\ tm_AccountID m = a /\ tm_ThreadID m = t.

(** The threads of [S] are folded into [w]: every member moves, every hint of a
    conversation that has members follows, and nothing else changes. *)
Record folds (a : Z) (S : gset Z) (w : Z) (d d' : TDB) : Prop := {
  folds_messages : t_messages d' = reassign a S w <$> t_messages d;
  folds_now : t_now d' = t_now d;
  folds_hints : forall a' k t' s, t_subjects d' !! (a', k) = Some (t', s) ->
    exists t, t_subjects d !! (a', k) = Some (t, s) /\
      (populated d a' t -> t' = repoint a S w a' t)
}.

Lemma folds_refl a w d : folds a ∅ w d d.
Proof.
  split; [|done|].
  - rewrite <-(map_fmap_id (t_messages d)) at 1. apply map_fmap_ext. intros y m _.
    unfold reassign. rewrite decide_False; [done|set_solver].
  - intros a' k t' s Hs. exists t'. split; [done|]. intros _. unfold repoint.
    rewrite decide_False; [done|set_solver].
Qed.

Lemma folds_populated a S w d d' a' t :
  folds a S w d d' -> populated d a' t -> populated d' a' (repoint a S w a' t).
Proof.
  intros Hf (y & m & Hy & Ha & Ht). exists y, (reassign a S w m).
  rewrite (folds_messages _ _ _ _ _ Hf), lookup_fmap, Hy, reassign_account, reassign_thread.
  split_and!; [done|done|congruence].
Qed.

Lemma repoint_app a S S' w a' t :
  repoint a S' w a' (repoint a S w a' t) = repoint a (S ∪ S') w a' t.
Proof.
  unfold repoint. case_decide as H1; case_decide as H2; case_decide as H3; set_solver.
Qed.

Lemma folds_trans a S S' w d d' d'' :
  folds a S w d d' -> folds a S' w d' d'' -> folds a (S ∪ S') w d d''.
Proof.
  intros H1 H2. split.
  - rewrite (folds_messages _ _ _ _ _ H2), (folds_messages _ _ _ _ _ H1), <-map_fmap_compose.
    apply map_fmap_ext. intros y m _. simpl. unfold reassign.
    repeat case_decide; simpl in *; try done; set_solver.
  - by rewrite (folds_now _ _ _ _ _ H2), (folds_now _ _ _ _ _ H1).
  - intros a' k t'' s Hs.
    destruct (folds_hints _ _ _ _ _ H2 _ _ _ _ Hs) as (t' & Hs' & Hp').
    destruct (folds_hints _ _ _ _ _ H1 _ _ _ _ Hs') as (t & Hs0 & Hp).
    exists t. split; [done|]. intros Hpop. specialize (Hp Hpop). subst t'.
    rewrite Hp' by (by eapply folds_populated). apply repoint_app.
Qed.

Lemma members_dom a t d x :
  x ∈ dom (members a t d) <->
  exists m, t_messages d !! x = Some m /\ tm_AccountID m = a /\ tm_ThreadID m = t.
Proof.
  unfold members. rewrite elem_of_dom. unfold is_Some.
  setoid_rewrite map_lookup_filter_Some. simpl. unfold in_thread.
  setoid_rewrite bool_decide_eq_true. naive_solver.
Qed.

Lemma members_empty a t d : size (members a t d) = 0%nat -> ~ populated d a t.
Proof.
  intros Hz (y & m & Hy & Hm). apply map_size_empty_inv in Hz.
  assert (y ∈ dom (members a t d)) as Hd by (apply members_dom; eauto).
  rewrite Hz in Hd. set_solver.
Qed.

Lemma merge_folds a l w d : folds a {[l]} w d (merge_members a l w d).
Proof.
  split.
  - unfold merge_members. simpl. apply map_fmap_ext. intros y m _.
    unfold move_message, reassign, in_thread.
    case_bool_decide; case_decide; try done; set_solver.
  - done.
  - intros a' k t' s. unfold merge_members. simpl. rewrite map_lookup_imap.
    destruct (t_subjects d !! (a', k)) as [[t s0]|]; simpl; [|done].
    intros Hs. exists t. unfold repoint.
    case_bool_decide; simplify_eq; (split; [done|]); intros _; case_decide; set_solver.
Qed.

Lemma mergeThread_folds a l w d :
  w < l -> (size (members a l d) <= threadMergeMaxMembers)%nat ->
  wp (mergeThread a l w) (fun d' r =>
    folds a {[l]} w d d' /\ t_threads d' = t_threads d /\ exists n, r = inr n) d.
Proof.
  intros Hlt Hsize. unfold mergeThread. wp_steps; bool_cases; [lia| | |].
  - apply Nat.eqb_eq in H0. split_and!; [|done|by eexists].
    pose proof (members_empty _ _ _ H0) as Hno. split; [|done|].
    + rewrite <-(map_fmap_id (t_messages d)) at 1. apply map_fmap_ext. intros y m Hy.
      unfold reassign. rewrite decide_False; [done|]. intros [Ha Ht%elem_of_singleton].
      apply Hno. by exists y, m.
    + intros a' k t' s Hs. exists t'. split; [done|]. intros Hp. unfold repoint.
      rewrite decide_False; [done|]. intros [-> ->%elem_of_singleton]. done.
  - apply Nat.ltb_lt in H1. lia.
  - split_and!; [apply merge_folds|done|by eexists].
Qed.

Lemma folds_size a S w d d' t :
  folds a S w d d' -> t <> w -> (size (members a t d') <= size (members a t d))%nat.
Proof.
  intros Hf Hne. rewrite <-!size_dom. apply subseteq_size. intros y.
  rewrite !members_dom. intros (m & Hy & Ha & Ht).
  rewrite (folds_messages _ _ _ _ _ Hf) in Hy. apply lookup_fmap_Some in Hy as (m0 & <- & Hy).
  exists m0. rewrite reassign_account in Ha. rewrite reassign_thread in Ht.
  unfold repoint in Ht. case_decide; [congruence|done].
Qed.

(** The losers among [ts] are folded into the winner. *)
Lemma merge_all_folds a w ts d :
  (forall t, t ∈ ts -> t = w \/
     (w < t /\ (size (members a t d) <= threadMergeMaxMembers)%nat)) ->
  wp (merge_all a w ts) (fun d' r =>
    folds a (list_to_set ts ∖ {[w]}) w d d' /\ t_threads d' = t_threads d /\
    exists out, r = inr out) d.
Proof.
  revert d. induction ts as [|t ts IH]; intros d Hts; simpl.
  - wp_steps. replace (∅ ∖ {[w]}) with (∅ : gset Z) by set_solver.
    split_and!; [apply folds_refl|done|by eexists].
  - apply wp_if; intros Htw; bool_cases.
    { subst t. eapply wp_mono; [apply IH; set_solver|].
      intros d' r Hd'. by replace (({[w]} ∪ list_to_set ts) ∖ {[w]})
        with (list_to_set ts ∖ {[w]} : gset Z) by set_solver. }
    destruct (Hts t) as [?|[Hlt Hsize]]; [left|lia|].
    wp_step. eapply wp_mono; [by apply mergeThread_folds|].
    intros d1 r (Hf & Hth & n & ->). wp_step.
    eapply wp_mono; [apply IH|].
    { intros t' Ht'. destruct (decide (t' = w)) as [|Hne]; [by left|right].
      destruct (Hts t') as [?|[? ?]]; [by right|done|].
      split; [done|]. etrans; [by eapply folds_size|done]. }
    intros d2 r (Hf2 & Hth2 & out & ->). wp_step.
    split_and!; [|congruence|by eexists].
    replace (({[t]} ∪ list_to_set ts) ∖ {[w]}) with ({[t]} ∪ list_to_set ts ∖ {[w]} : gset Z)
      by set_solver.
    by eapply folds_trans.
Qed.

(** *** Durable rows do not touch the messages *)

Definition rows_only {A} (P : A -> Prop) (m : TM A) : Prop :=
  forall d, wp m (fun d' r => t_messages d' = t_messages d /\ t_subjects d' = t_subjects d /\
    t_now d' = t_now d /\ match r with inl e => e = TUnique | inr x => P x end) d.

Lemma rows_only_bind {A B} (P : A -> Prop) (Q : B -> Prop) (m : TM A) (k : A -> TM B) :
  rows_only P m -> (forall x, P x -> rows_only Q (k x)) -> rows_only Q (m ≫= k).
Proof.
  intros Hm Hk d. wp_step. eapply wp_mono; [apply Hm|].
  intros d' [e|x] (H1 & H2 & H3 & H4); [done|]. eapply wp_mono; [by apply Hk|].
  intros d'' r (H1' & H2' & H3' & H4'). split_and!; [congruence..|done].
Qed.

Lemma rows_only_ret {A} (P : A -> Prop) x : P x -> rows_only P (mret x : TM A).
Proof. intros Hx d. by apply wp_ret. Qed.

Lemma rows_only_get (P : TDB -> Prop) : (forall d, P d) -> rows_only P (get : TM TDB).
Proof. intros HP d. by apply wp_get. Qed.

Lemma rows_only_write id r : rows_only (fun _ => True) (write_row id r).
Proof. intros d. unfold write_row. by wp_steps. Qed.

Lemma rows_only_tombstone a l w : l <> w -> rows_only (fun _ => True) (TombstoneThread a l w).
Proof.
  intros Hne d. unfold TombstoneThread. wp_steps; bool_cases; [done|].
  destruct (t_threads d !! l); [|by wp_steps].
  wp_steps; [|done]. apply rows_only_write.
Qed.

Lemma rows_only_write_ret {A} id r (x : A) :
  rows_only (fun _ => True) (write_row id r ;; mret x).
Proof.
  eapply rows_only_bind; [apply rows_only_write|]. intros _ _. by apply rows_only_ret.
Qed.

Lemma rows_only_ensure a key w : rows_only (fun _ => True) (EnsureThread a key w).
Proof.
  unfold EnsureThread. eapply rows_only_bind; [by apply (rows_only_get (fun _ => True))|].
  intros d _. destruct (find_row _ d) as [[id r]|]; [|apply rows_only_write_ret].
  case_match; [by apply rows_only_ret|apply rows_only_write_ret].
Qed.

Lemma rows_only_winner a key w : rows_only (fun _ => True) (ensureThreadForWinner a key w).
Proof.
  unfold ensureThreadForWinner. eapply rows_only_bind; [by apply (rows_only_get (fun _ => True))|].
  intros d _. destruct (find_row (live_owner _ _) d) as [[id r]|]; [|apply rows_only_ensure].
  case_decide; [apply rows_only_write_ret|].
  destruct (find_row (by_key _ _) d) as [[other ro]|]; [|apply rows_only_write_ret].
  destruct (negb (other =? id)) eqn:Hne; bool_cases; [|apply rows_only_write_ret].
  assert (forall x y rw, x <> y -> rows_only (fun _ => True)
    (write_row x (update_row w key (t_now d) rw) ;; TombstoneThread a y x ;; mret x)) as Hw.
  { intros x y rw Hxy. eapply rows_only_bind; [apply rows_only_write|]. intros _ _.
    eapply rows_only_bind; [by apply rows_only_tombstone|]. intros _ _. by apply rows_only_ret. }
  destruct (id <? other); apply Hw; congruence.
Qed.

Lemma rows_only_forM {A} (l : list A) (f : A -> TM unit) :
  (forall x, rows_only (fun _ => True) (f x)) -> rows_only (fun _ => True) (forM_ l f).
Proof.
  intros Hf. induction l as [|x l IH]; simpl; [by apply rows_only_ret|].
  eapply rows_only_bind; [apply Hf|done].
Qed.

(** The conversation has a member, so its key is found, and the rows can only fail on
    a unique index. *)
Lemma ensureThreadRow_rows a w merged d :
  populated d a w ->
  wp (ensureThreadRow ToLower IsDigit digest a w merged) (fun d' r =>
    t_messages d' = t_messages d /\ t_subjects d' = t_subjects d /\ t_now d' = t_now d /\
    match r with inl e => e = TUnique | inr _ => True end) d.
Proof.
  intros (y & m & Hy & Hm). unfold ensureThreadRow, threadRootKey. wp_steps.
  destruct (oldest _) as [[z mz]|] eqn:Hold.
  - wp_step. match goal with |- wp ?p _ _ => assert (rows_only (fun _ => True) p) as Hp end.
    { eapply rows_only_bind; [apply rows_only_winner|]. intros row _.
      apply rows_only_forM. intros loser.
      eapply rows_only_bind; [by apply (rows_only_get (fun _ => True))|]. intros d1 _.
      destruct (find_row _ d1) as [[lr ?]|]; [|by apply rows_only_ret].
      destruct (lr =? row) eqn:Hlr; bool_cases; [by apply rows_only_ret|].
      by apply rows_only_tombstone. }
    eapply wp_mono; [apply Hp|]. intros d' [e|?] ?; naive_solver.
  - exfalso. assert (map_to_list (members a w d) = []) as Hnil.
    { destruct (map_to_list (members a w d)) as [|x l]; [done|]. simpl in Hold.
      by destruct (oldest l). }
    apply map_to_list_empty_iff in Hnil.
    assert (y ∈ dom (members a w d)) as Hd by (apply members_dom; eauto).
    rewrite Hnil in Hd. set_solver.
Qed.

(** *** The invariant *)

Section invariant.
Context (H : gmap Z tmessage).
Hypothesis Hfew : few_relatives H.
Hypothesis Hshort : short_conversations H.
Hypothesis Hself : no_self_reference H.
Abbreviation conn := (connected H).

(** [A] is the set of messages threaded so far. A message that is stored but not
    threaded yet is alone, or in the conversation of a message it is linked to. *)
Record Inv (A : gset Z) (d : TDB) : Prop := {
  inv_headers : headers d ⊆ H;
  inv_le : forall x m, t_messages d !! x = Some m -> tm_ThreadID m <= x;
  inv_root : forall x m, t_messages d !! x = Some m ->
    exists r, t_messages d !! tm_ThreadID m = Some r /\ tm_AccountID r = tm_AccountID m /\
              tm_ThreadID r = tm_ThreadID m;
  inv_conn : forall x m, t_messages d !! x = Some m -> conn x (tm_ThreadID m);
  inv_hint : forall a k t s, t_subjects d !! (a, k) = Some (t, s) ->
    k <> [] /\
    (exists y m, y ∈ A /\ t_messages d !! y = Some m /\ tm_AccountID m = a /\ tm_ThreadID m = t) /\
    (exists z m, t_messages d !! z = Some m /\ tm_AccountID m = a /\
       (normalize (tm_Subject m)).1 = k /\ conn z t);
  inv_new : forall x m, t_messages d !! x = Some m -> x ∉ A ->
    (tm_ThreadID m = x /\ forall y my, t_messages d !! y = Some my ->
       tm_AccountID my = tm_AccountID m -> tm_ThreadID my = x -> y = x) \/
    (exists z mz, z <> x /\ t_messages d !! z = Some mz /\ linked m mz /\
       tm_ThreadID mz = tm_ThreadID m);
  inv_link : forall x mx y my, x ∈ A -> y ∈ A ->
    t_messages d !! x = Some mx -> t_messages d !! y = Some my -> linked mx my ->
    tm_ThreadID mx = tm_ThreadID my
}.

Lemma linked_account x y : linked x y -> tm_AccountID x = tm_AccountID y.
Proof. by intros [[? _]|[? _]]. Qed.

Lemma inv_stored A d x m :
  Inv A d -> t_messages d !! x = Some m -> H !! x = Some (with_thread 0 m).
Proof.
  intros HI Hx. eapply lookup_weaken; [by apply headers_lookup|]. apply (inv_headers _ _ HI).
Qed.

Lemma linked_conn A d x mx y my :
  Inv A d -> t_messages d !! x = Some mx -> t_messages d !! y = Some my -> linked mx my -> conn x y.
Proof.
  intros HI Hx Hy Hl. apply rtc_once. eexists _, _.
  split_and!; [by eapply inv_stored|by eapply inv_stored|]. by left.
Qed.

Lemma conn_size A d a t :
  Inv A d -> (size (members a t d) <= threadMergeMaxMembers)%nat.
Proof.
  intros HI. rewrite <-size_dom. apply Hshort.
  - intros x (m & Hx & _)%members_dom. apply elem_of_dom. eexists. by eapply inv_stored.
  - intros x y (mx & Hx & _ & Htx)%members_dom (my & Hy & _ & Hty)%members_dom.
    trans t; [rewrite <-Htx; by eapply inv_conn|].
    apply connected_sym. rewrite <-Hty. by eapply inv_conn.
Qed.

(** *** The lookups *)

Lemma thread_set_elem P d t :
  t ∈ thread_set P d <-> exists x m, t_messages d !! x = Some m /\ P m = true /\ tm_ThreadID m = t.
Proof.
  unfold thread_set. rewrite elem_of_list_to_set, list_elem_of_fmap.
  setoid_rewrite list_elem_of_filter. split.
  - intros ([x m] & -> & HP & Hx%elem_of_map_to_list). eauto.
  - intros (x & m & Hx & HP & <-). exists (x, m). split_and!; [done..|].
    by apply elem_of_map_to_list.
Qed.

Lemma size_list_to_set_le (l : list Z) : (size (list_to_set l : gset Z) <= length l)%nat.
Proof.
  induction l as [|x l IH]; simpl; [done|].
  rewrite size_union_alt, size_singleton.
  assert (size (list_to_set l ∖ {[x]} : gset Z) <= size (list_to_set l : gset Z))%nat
    by (apply subseteq_size; set_solver).
  lia.
Qed.

Lemma thread_set_size P d :
  headers d ⊆ H -> (forall m, P (with_thread 0 m) = P m) ->
  (size (thread_set P d) <= size (filter (fun kv : Z * tmessage => P kv.2 = true) H))%nat.
Proof.
  intros Hsub HP. unfold thread_set. etrans; [apply size_list_to_set_le|]. rewrite length_fmap.
  set (l := filter _ _).
  assert (NoDup l.*1) as Hnd by apply NoDup_fmap_filter, NoDup_fst_map_to_list.
  replace (length l) with (size (list_to_set l.*1 : gset Z))
    by (by rewrite size_list_to_set, length_fmap).
  rewrite <-size_dom. apply subseteq_size. intros x.
  rewrite elem_of_list_to_set, list_elem_of_fmap, elem_of_dom.
  intros ([y m] & -> & [Hm Hy%elem_of_map_to_list]%list_elem_of_filter).
  exists (with_thread 0 m). apply map_lookup_filter_Some. simpl in *. rewrite HP.
  split; [|done]. eapply lookup_weaken; [by apply headers_lookup|done].
Qed.

Lemma limited_elem s t : t ∈ limited planner s -> t ∈ s.
Proof.
  unfold limited. intros Ht. apply elem_of_elements. rewrite <-planner_rows.
  by eapply subseteq_take.
Qed.

Lemma limited_all s t : (size s <= threadLookupLimit)%nat -> t ∈ s -> t ∈ limited planner s.
Proof.
  intros Hs Ht. unfold limited. rewrite take_ge.
  - rewrite planner_rows. by apply elem_of_elements.
  - by rewrite planner_rows.
Qed.

(** The threads a message is found to belong to: those of the messages it is linked
    to, or else the one its subject points at. *)
Record found (d : TDB) (m : tmessage) (S : gset Z) : Prop := {
  found_all : forall z mz, t_messages d !! z = Some mz -> linked m mz -> tm_ThreadID mz ∈ S;
  found_sound : forall t, t ∈ S ->
    (exists z mz, t_messages d !! z = Some mz /\ linked m mz /\ tm_ThreadID mz = t) \/
    (exists s, t_subjects d !! (tm_AccountID m, (normalize (tm_Subject m)).1) = Some (t, s) /\
       (normalize (tm_Subject m)).2 = true)
}.

Lemma refs_linked m mz :
  named_by (tm_AccountID m) (referenceSet (candidate m)) mz = true -> replies_to m mz.
Proof.
  unfold named_by. intros [Ha (Hr & Hne & _)%referenceSet_elem]%bool_decide_eq_true.
  by split.
Qed.

Lemma linked_refs x m mz :
  H !! x = Some (with_thread 0 m) -> replies_to m mz ->
  named_by (tm_AccountID m) (referenceSet (candidate m)) mz = true.
Proof.
  intros Hx (Ha & Hne & Hr). unfold named_by. apply bool_decide_eq_true. split; [done|].
  apply referenceSet_elem. split_and!; [done..|]. intros Heq.
  destruct (Hself _ _ Hx) as [Hn|Hn]; [|simpl in *; congruence].
  apply Hn. change (candidate (with_thread 0 m)) with (candidate m). simpl in *. congruence.
Qed.

Lemma references_linked m mz :
  tm_MessageID m <> [] -> 
  references (tm_AccountID m) (tm_MessageID m) mz = true <-> replies_to mz m.
Proof.
  intros Hne. unfold references, replies_to, candidate. simpl. rewrite bool_decide_eq_true.
  case_decide as Hi; simpl; rewrite ?elem_of_app, ?list_elem_of_singleton; intuition congruence.
Qed.

(** The threads the two graph queries give. *)
Definition graph (d : TDB) (m : tmessage) : list Z :=
  (if decide (referenceSet (candidate m) = []) then [] else
     limited planner (thread_set (named_by (tm_AccountID m) (referenceSet (candidate m))) d)) ++
  (if decide (tm_MessageID m = []) then [] else
     limited planner (thread_set (references (tm_AccountID m) (tm_MessageID m)) d)).

Lemma graph_sound d m t :
  t ∈ graph d m -> exists z mz, t_messages d !! z = Some mz /\ linked m mz /\ tm_ThreadID mz = t.
Proof.
  unfold graph. rewrite elem_of_app. intros [Ht|Ht]; case_decide as Hd; try set_solver;
    apply limited_elem, thread_set_elem in Ht as (z & mz & Hz & HP & <-); exists z, mz;
    split_and!; try done.
  - left. by apply refs_linked.
  - right. by apply references_linked.
Qed.

Lemma graph_all A d x m z mz :
  Inv A d -> t_messages d !! x = Some m -> t_messages d !! z = Some mz -> linked m mz ->
  tm_ThreadID mz ∈ graph d m.
Proof.
  intros HI Hx Hz Hl. pose proof (inv_stored _ _ _ _ HI Hx) as HxH.
  destruct (Hfew _ _ HxH) as [Hup Hdown].
  change (candidate (with_thread 0 m)) with (candidate m) in Hup. simpl in Hup, Hdown.
  unfold graph. rewrite elem_of_app. destruct Hl as [Hl|Hl]; [left|right].
  - pose proof (linked_refs _ _ _ HxH Hl) as Hn. rewrite decide_False.
    + apply limited_all; [|apply thread_set_elem; eauto].
      etrans; [apply thread_set_size; [apply (inv_headers _ _ HI)|done]|done].
    + intros Heq. unfold named_by in Hn. apply bool_decide_eq_true in Hn as [_ Hn].
      rewrite Heq in Hn. set_solver.
  - assert (tm_MessageID m <> []) as Hne by apply Hl. rewrite decide_False by done.
    apply limited_all.
    + etrans; [apply thread_set_size; [apply (inv_headers _ _ HI)|done]|done].
    + apply thread_set_elem. exists z, mz. split_and!; [done| |done].
      by apply references_linked.
Qed.

Lemma related_found A d x m :
  Inv A d -> t_messages d !! x = Some m ->
  wp (related ToLower IsDigit planner (tm_AccountID m) (candidate m))
     (fun d' r => d' = d /\ exists S, r = inr S /\ found d m S) d.
Proof.
  intros HI Hx. unfold related. wp_step.
  apply (wp_mono _ (fun d' r => d' = d /\ r = inr (if decide (referenceSet (candidate m) = [])
    then [] else limited planner (thread_set (named_by (tm_AccountID m) (referenceSet (candidate m))) d)))).
  { case_decide; by wp_steps. }
  intros d' r [-> ->]. wp_step.
  apply (wp_mono _ (fun d' r => d' = d /\ r = inr (if decide (tm_MessageID m = [])
    then [] else limited planner (thread_set (references (tm_AccountID m) (tm_MessageID m)) d)))).
  { simpl. case_decide; by wp_steps. }
  intros d' r [-> ->]. simpl. fold (graph d m).
  destruct (normalize (tm_Subject m)) as [key isReply] eqn:Hn.
  case_decide as Hsil.
  - destruct Hsil as (Hnone & -> & Hkey).
    unfold threadBySubjectKey. wp_steps. split; [done|]. eexists. split; [done|].
    split.
    + intros z mz Hz Hl. pose proof (graph_all _ _ _ _ _ _ HI Hx Hz Hl). set_solver.
    + intros t Ht. right. rewrite Hn. simpl.
      destruct (t_subjects d !! (tm_AccountID m, key)) as [[t0 s]|] eqn:Hs; [|set_solver].
      destruct (t_now d - threadSubjectWindow <? s); [|set_solver].
      apply elem_of_singleton in Ht as ->. eauto.
  - wp_steps. split; [done|]. eexists. split; [done|]. split.
    + intros z mz Hz Hl. apply elem_of_list_to_set. by eapply graph_all.
    + intros t Ht%elem_of_list_to_set. left. by apply graph_sound.
Qed.

(** *** One assignment *)

Lemma foldr_min_le x l : foldr Z.min x l <= x /\ forall t, t ∈ l -> foldr Z.min x l <= t.
Proof.
  induction l as [|y l [IH1 IH2]]; simpl; [set_solver|].
  split; [lia|]. intros t [->|Ht]%elem_of_cons; [lia|]. specialize (IH2 t Ht). lia.
Qed.

Lemma foldr_min_elem x l : foldr Z.min x l = x \/ foldr Z.min x l ∈ l.
Proof.
  induction l as [|y l [IH|IH]]; simpl; [by left| |].
  - rewrite IH. destruct (Z.min_spec y x) as [[_ ->]|[_ ->]]; [right; left|by left].
  - destruct (Z.min_spec y (foldr Z.min x l)) as [[_ ->]|[_ ->]]; right; [left|by right].
Qed.

(** What the message [x] joins: the conversations [F], its own included, become [w]. *)
Record joins (A : gset Z) (d : TDB) (x : Z) (m : tmessage) (F : gset Z) (w : Z) : Prop := {
  joins_x : t_messages d !! x = Some m;
  joins_new : x ∉ A;
  joins_self : tm_ThreadID m ∈ F;
  joins_in : w ∈ F;
  joins_le : forall t, t ∈ F -> w <= t;
  joins_conn : forall t, t ∈ F -> conn x t;
  joins_root : forall t, t ∈ F -> exists r, t_messages d !! t = Some r /\
    tm_AccountID r = tm_AccountID m /\ tm_ThreadID r = t;
  joins_linked : forall z mz, t_messages d !! z = Some mz -> linked m mz -> tm_ThreadID mz ∈ F;
  joins_alone : forall y my, t_messages d !! y = Some my -> y ∈ F -> y <> x -> y ∉ A ->
    tm_AccountID my = tm_AccountID m ->
    (forall z mz, t_messages d !! z = Some mz -> tm_AccountID mz = tm_AccountID my ->
       tm_ThreadID mz = y -> z = y) -> linked m my
}.

Lemma found_conn A d x m S t :
  Inv A d -> t_messages d !! x = Some m -> found d m S -> t ∈ S -> conn x t.
Proof.
  intros HI Hx Hf Ht. destruct (found_sound _ _ _ Hf t Ht) as [(z & mz & Hz & Hl & <-)|(s & Hs & Hr)].
  - trans z; [by eapply linked_conn|by eapply inv_conn].
  - destruct (inv_hint _ _ HI _ _ _ _ Hs) as (Hk & _ & z & mz & Hz & Ha & Hkz & Hc).
    trans z; [|done]. apply rtc_once. eexists _, _.
    split_and!; [by eapply inv_stored|by eapply inv_stored|]. right.
    split_and!; simpl; [congruence..|by left].
Qed.

Lemma found_root A d m S t :
  Inv A d -> found d m S -> t ∈ S ->
  exists r, t_messages d !! t = Some r /\ tm_AccountID r = tm_AccountID m /\ tm_ThreadID r = t.
Proof.
  intros HI Hf Ht. destruct (found_sound _ _ _ Hf t Ht) as [(z & mz & Hz & Hl & <-)|(s & Hs & Hr)].
  - destruct (inv_root _ _ HI _ _ Hz) as (r & Hr & Ha & Htr). exists r.
    by rewrite Ha, (linked_account _ _ Hl).
  - destruct (inv_hint _ _ HI _ _ _ _ Hs) as (_ & (y & my & _ & Hy & Ha & <-) & _).
    destruct (inv_root _ _ HI _ _ Hy) as (r & Hr' & Ha' & Htr). exists r. by rewrite Ha', Ha.
Qed.

Lemma found_joins A d x m S :
  Inv A d -> t_messages d !! x = Some m -> x ∉ A -> found d m S ->
  joins A d x m ({[tm_ThreadID m]} ∪ S) (foldr Z.min x (elements S)) /\
  (tm_ThreadID m ∈ S \/ forall y my, t_messages d !! y = Some my ->
     tm_AccountID my = tm_AccountID m -> tm_ThreadID my = tm_ThreadID m -> y = x).
Proof.
  intros HI Hx Hnew Hf. set (w := foldr Z.min x (elements S)).
  destruct (foldr_min_le x (elements S)) as [Hwx HwS]. fold w in Hwx, HwS.
  setoid_rewrite elem_of_elements in HwS.
  assert (tm_ThreadID m ∈ S \/ (tm_ThreadID m = x /\ forall y my, t_messages d !! y = Some my ->
     tm_AccountID my = tm_AccountID m -> tm_ThreadID my = x -> y = x)) as Hcase.
  { destruct (inv_new _ _ HI _ _ Hx Hnew) as [Hal|(z & mz & _ & Hz & Hl & Ht)]; [by right|left].
    rewrite <-Ht. by eapply found_all. }
  assert (w <= tm_ThreadID m) as Hwt by (destruct Hcase as [?|[-> _]]; [by apply HwS|done]).
  split.
  - split.
    + done.
    + done.
    + set_solver.
    + destruct (foldr_min_elem x (elements S)) as [Hw|Hw%elem_of_elements]; fold w in Hw; [|set_solver].
      pose proof (inv_le _ _ HI _ _ Hx). replace w with (tm_ThreadID m) by lia. set_solver.
    + intros t [->%elem_of_singleton|Ht]%elem_of_union; [done|by apply HwS].
    + intros t [->%elem_of_singleton|Ht]%elem_of_union; [by eapply inv_conn|by eapply found_conn].
    + intros t [->%elem_of_singleton|Ht]%elem_of_union; [by eapply inv_root|by eapply found_root].
    + intros z mz Hz Hl. apply elem_of_union_r. by eapply found_all.
    + intros y my Hy Hin Hne HnA Ha Hal. apply elem_of_union in Hin as [->%elem_of_singleton|Hin].
      { exfalso. apply Hne. symmetry. eapply (Hal x m); [exact Hx|congruence|done]. }
      destruct (found_sound _ _ _ Hf _ Hin) as [(z & mz & Hz & Hl & Ht)|(s & Hs & _)].
      * assert (z = y) as -> by (eapply Hal; [exact Hz|rewrite Ha; symmetry; by apply linked_account|done]).
        by simplify_eq.
      * destruct (inv_hint _ _ HI _ _ _ _ Hs) as (_ & (v & mv & HvA & Hv & Hav & Htv) & _).
        assert (v = y) as -> by (eapply Hal; [exact Hv|congruence|done]). done.
  - destruct Hcase as [?|[Heq Hal]]; [by left|right]. intros y my Hy Ha Ht.
    eapply Hal; [done..|congruence].
Qed.

(** Joining keeps the invariant. *)
Section join.
Context (A : gset Z) (d d' : TDB) (x : Z) (m : tmessage) (F : gset Z) (w : Z).
Hypothesis HI : Inv A d.
Hypothesis HJ : joins A d x m F w.
Hypothesis Hmsg : t_messages d' = reassign (tm_AccountID m) F w <$> t_messages d.
Hypothesis Hhints : forall a k t' s, t_subjects d' !! (a, k) = Some (t', s) ->
  (exists t s0, t_subjects d !! (a, k) = Some (t, s0) /\ t' = repoint (tm_AccountID m) F w a t) \/
  (a = tm_AccountID m /\ k = (normalize (tm_Subject m)).1 /\ k <> [] /\ t' = w).
Abbreviation re := (reassign (tm_AccountID m) F w).
Abbreviation rep := (repoint (tm_AccountID m) F w).

Lemma join_lookup y my' :
  t_messages d' !! y = Some my' -> exists my, t_messages d !! y = Some my /\ my' = re my.
Proof. rewrite Hmsg. intros (my & <- & Hy)%lookup_fmap_Some. eauto. Qed.

Lemma join_stored y my : t_messages d !! y = Some my -> t_messages d' !! y = Some (re my).
Proof. intros Hy. by rewrite Hmsg, lookup_fmap, Hy. Qed.

Lemma linked_re y z : linked (re y) (re z) <-> linked y z.
Proof. by rewrite <-(linked_headers (re y)), !reassign_header. Qed.

Lemma rep_x y my :
  t_messages d !! y = Some my -> linked m my -> tm_ThreadID (re my) = tm_ThreadID (re m).
Proof.
  intros Hy Hl. rewrite !reassign_thread. unfold repoint.
  rewrite !decide_True; [done| |]; split.
  - done.
  - apply (joins_self _ _ _ _ _ _ HJ).
  - symmetry. by apply linked_account.
  - by eapply joins_linked.
Qed.

Lemma re_x : tm_ThreadID (re m) = w.
Proof.
  rewrite reassign_thread. unfold repoint. rewrite decide_True; [done|].
  split; [done|]. apply (joins_self _ _ _ _ _ _ HJ).
Qed.

Lemma rep_le t a : rep a t <= t.
Proof.
  unfold repoint. case_decide as Hd; [|done]. apply (joins_le _ _ _ _ _ _ HJ). tauto.
Qed.

Lemma rep_root a t r :
  t_messages d !! t = Some r -> tm_AccountID r = a -> tm_ThreadID r = t ->
  exists r', t_messages d' !! rep a t = Some r' /\ tm_AccountID r' = a /\ tm_ThreadID r' = rep a t.
Proof.
  intros Hr Ha Ht. unfold repoint. case_decide as Hd.
  - destruct Hd as [-> Hd].
    destruct (joins_root _ _ _ _ _ _ HJ w (joins_in _ _ _ _ _ _ HJ)) as (q & Hq & Haq & Htq).
    exists (re q). split_and!; [by apply join_stored|by rewrite reassign_account|].
    rewrite reassign_thread. unfold repoint. rewrite Htq. by case_decide.
  - exists (re r). split_and!; [by apply join_stored|by rewrite reassign_account|].
    rewrite reassign_thread. unfold repoint. rewrite Ha, Ht. by rewrite decide_False.
Qed.

Lemma rep_conn y my :
  t_messages d !! y = Some my -> conn y (rep (tm_AccountID my) (tm_ThreadID my)).
Proof.
  intros Hy. unfold repoint. case_decide as Hd; [|by eapply inv_conn].
  trans (tm_ThreadID my); [by eapply inv_conn|].
  trans x; [apply connected_sym|]; apply (joins_conn _ _ _ _ _ _ HJ); [tauto|].
  apply (joins_in _ _ _ _ _ _ HJ).
Qed.

Lemma rep_conn_hint z t a : conn z t -> conn z (rep a t).
Proof.
  intros Hz. unfold repoint. case_decide as Hd; [|done]. trans t; [done|].
  trans x; [apply connected_sym|]; apply (joins_conn _ _ _ _ _ _ HJ); [tauto|].
  apply (joins_in _ _ _ _ _ _ HJ).
Qed.

Lemma join_hint a k t' s :
  t_subjects d' !! (a, k) = Some (t', s) ->
  k <> [] /\
  (exists y my, y ∈ A ∪ {[x]} /\ t_messages d' !! y = Some my /\ tm_AccountID my = a /\
     tm_ThreadID my = t') /\
  (exists z mz, t_messages d' !! z = Some mz /\ tm_AccountID mz = a /\
     (normalize (tm_Subject mz)).1 = k /\ conn z t').
Proof.
  assert (Hsub : forall q, tm_Subject (re q) = tm_Subject q) by (intros q; unfold reassign; by case_decide).
  intros [(t & s0 & Hs & ->)|(-> & -> & Hk & ->)]%Hhints.
  - destruct (inv_hint _ _ HI _ _ _ _ Hs) as (Hk & (y & my & HyA & Hy & Ha & Ht) & z & mz & Hz & Haz & Hkz & Hc).
    split_and!; [done| |].
    + exists y, (re my). rewrite reassign_account, reassign_thread.
      split_and!; [set_solver|by apply join_stored|done|congruence].
    + exists z, (re mz). rewrite reassign_account, Hsub.
      split_and!; [by apply join_stored|done|done|by apply rep_conn_hint].
  - pose proof (joins_x _ _ _ _ _ _ HJ) as Hx. split_and!; [done| |].
    + exists x, (re m). rewrite reassign_account.
      split_and!; [set_solver|by apply join_stored|done|apply re_x].
    + exists x, (re m). rewrite reassign_account, Hsub.
      split_and!; [by apply join_stored|done|done|].
      apply (joins_conn _ _ _ _ _ _ HJ), (joins_in _ _ _ _ _ _ HJ).
Qed.

Lemma join_new y my :
  t_messages d !! y = Some my -> y ∉ A ∪ {[x]} ->
  (tm_ThreadID (re my) = y /\ forall z mz, t_messages d' !! z = Some mz ->
     tm_AccountID mz = tm_AccountID (re my) -> tm_ThreadID mz = y -> z = y) \/
  (exists z mz, z <> y /\ t_messages d' !! z = Some mz /\ linked (re my) mz /\
     tm_ThreadID mz = tm_ThreadID (re my)).
Proof.
  intros Hy Hnew. pose proof (joins_x _ _ _ _ _ _ HJ) as Hx.
  destruct (inv_new _ _ HI _ _ Hy) as [[Ht Hal]|(z & mz & Hne & Hz & Hl & Ht)]; [set_solver| |].
  - destruct (decide (tm_AccountID my = tm_AccountID m /\ y ∈ F)) as [[Ha HyF]|Hout].
    + assert (linked m my) as Hl.
      { eapply joins_alone; [done|done|done|set_solver|set_solver|done|exact Hal]. }
      right. exists x, (re m). split_and!; [set_solver|by apply join_stored| |].
      * apply linked_re. by apply linked_sym.
      * symmetry. by eapply rep_x.
    + left. rewrite reassign_thread, reassign_account, Ht. unfold repoint.
      rewrite decide_False by done. split; [done|].
      intros z mz' Hz. apply join_lookup in Hz as (mz & Hz & ->).
      rewrite reassign_account, reassign_thread. unfold repoint. intros Ha.
      case_decide as Hd; [|by apply (Hal z mz)].
      intros <-. exfalso. apply Hout. split; [|apply (joins_in _ _ _ _ _ _ HJ)].
      destruct Hd; congruence.
  - right. exists z, (re mz). split_and!; [done|by apply join_stored|by apply linked_re|].
    by rewrite !reassign_thread, Ht, (linked_account _ _ Hl).
Qed.

Lemma join_inv : Inv (A ∪ {[x]}) d'.
Proof.
  split.
  - unfold headers. rewrite Hmsg, <-map_fmap_compose.
    erewrite (map_fmap_ext _ (with_thread 0)); [apply (inv_headers _ _ HI)|].
    intros y my _. apply reassign_header.
  - intros y my' (my & Hy & ->)%join_lookup. rewrite reassign_thread.
    etrans; [apply rep_le|by eapply inv_le].
  - intros y my' (my & Hy & ->)%join_lookup. rewrite reassign_thread, reassign_account.
    destruct (inv_root _ _ HI _ _ Hy) as (r & Hr & Ha & Ht). by eapply rep_root.
  - intros y my' (my & Hy & ->)%join_lookup. rewrite reassign_thread. by apply rep_conn.
  - apply join_hint.
  - intros y my' (my & Hy & ->)%join_lookup. by apply join_new.
  - intros y my' z mz' HyA HzA (my & Hy & ->)%join_lookup (mz & Hz & ->)%join_lookup Hl.
    apply (proj1 (linked_re my mz)) in Hl.
    pose proof (joins_x _ _ _ _ _ _ HJ) as Hx.
    destruct (decide (y = x)) as [->|Hnx]; [assert (my = m) as -> by congruence; symmetry; by apply (rep_x z)|].
    destruct (decide (z = x)) as [->|Hnz]; [assert (mz = m) as -> by congruence; apply (rep_x y); [done|by apply linked_sym]|].
    rewrite !reassign_thread, (linked_account _ _ Hl).
    by rewrite (inv_link _ _ HI y my z mz ltac:(set_solver) ltac:(set_solver) Hy Hz Hl).
Qed.
End join.

Definition lowered (d d' : TDB) : Prop :=
  forall y m, t_messages d !! y = Some m ->
    exists m', t_messages d' !! y = Some m' /\ tm_ThreadID m' <= tm_ThreadID m.

Lemma lowered_trans d d' d'' : lowered d d' -> lowered d' d'' -> lowered d d''.
Proof.
  intros H1 H2 y m Hy. destruct (H1 _ _ Hy) as (m' & Hy' & Hle).
  destruct (H2 _ _ Hy') as (m'' & Hy'' & Hle'). exists m''. split; [done|lia].
Qed.

Lemma with_thread_same m : with_thread (tm_ThreadID m) m = m.
Proof. by destruct m. Qed.

(** The message takes the winning id. *)
Definition moved (d : TDB) (x w : Z) (m : tmessage) : TDB :=
  set_tmessages <[x := with_thread w m]> d.

Lemma move_self A d x m F w :
  Inv A d -> joins A d x m F w ->
  wp (if w =? x then mret tt : TM unit else modify (set_tmessages (alter (fun m' =>
          if tm_AccountID m' =? tm_AccountID m then with_thread w m' else m') x)))
     (fun d' r => t_messages d' = t_messages (moved d x w m) /\ t_subjects d' = t_subjects d /\
                  t_now d' = t_now d /\ r = inr tt) d.
Proof.
  intros HI HJ. pose proof (joins_x _ _ _ _ _ _ HJ) as Hx. wp_steps; bool_cases.
  - split_and!; [|done..]. simpl.
    pose proof (inv_le _ _ HI _ _ Hx).
    pose proof (joins_le _ _ _ _ _ _ HJ _ (joins_self _ _ _ _ _ _ HJ)).
    replace w with (tm_ThreadID m) by lia. rewrite with_thread_same. by rewrite insert_id.
  - split_and!; [|done..]. simpl. apply map_eq. intros y.
    destruct (decide (y = x)) as [->|Hne].
    + rewrite lookup_alter_eq, lookup_insert_eq, Hx. simpl. by rewrite Z.eqb_refl.
    + by rewrite lookup_alter_ne, lookup_insert_ne.
Qed.

Section fold.
Context (A : gset Z) (d d1 d2 : TDB) (x : Z) (m : tmessage) (S : gset Z) (w : Z).
Hypothesis HI : Inv A d.
Hypothesis HJ : joins A d x m ({[tm_ThreadID m]} ∪ S) w.
Hypothesis Halone : tm_ThreadID m ∈ S \/ forall y my, t_messages d !! y = Some my ->
  tm_AccountID my = tm_AccountID m -> tm_ThreadID my = tm_ThreadID m -> y = x.
Hypothesis Hd1 : t_messages d1 = t_messages (moved d x w m).
Hypothesis Hs1 : t_subjects d1 = t_subjects d.
Hypothesis Hfold : folds (tm_AccountID m) (S ∖ {[w]}) w d1 d2.
Abbreviation F := ({[tm_ThreadID m]} ∪ S).

Lemma fold_other y my :
  t_messages d !! y = Some my -> y <> x -> tm_AccountID my = tm_AccountID m ->
  tm_ThreadID my ∈ F -> tm_ThreadID my ∈ S.
Proof.
  intros Hy Hne Ha [Ht%elem_of_singleton|Ht]%elem_of_union; [|done].
  destruct Halone as [?|Hal]; [by rewrite Ht|]. by destruct Hne; eapply Hal.
Qed.

Lemma fold_messages : t_messages d2 = reassign (tm_AccountID m) F w <$> t_messages d.
Proof.
  rewrite (folds_messages _ _ _ _ _ Hfold), Hd1. simpl. apply map_eq. intros y.
  rewrite !lookup_fmap. destruct (decide (y = x)) as [->|Hne].
  - rewrite lookup_insert_eq, (joins_x _ _ _ _ _ _ HJ). simpl. f_equal.
    unfold reassign at 1. simpl. rewrite decide_False by set_solver.
    unfold reassign. rewrite decide_True; [done|].
    split; [done|]. apply (joins_self _ _ _ _ _ _ HJ).
  - rewrite lookup_insert_ne by done. destruct (t_messages d !! y) as [my|] eqn:Hy; [|done].
    simpl. f_equal. unfold reassign. case_decide as H1; case_decide as H2; try done.
    + set_solver.
    + destruct H2 as [Ha Ht]. pose proof (fold_other _ _ Hy Hne Ha Ht).
      assert (tm_ThreadID my = w) as <- by (apply dec_stable; set_solver). by rewrite with_thread_same.
Qed.

Lemma fold_hints a k t' s :
  t_subjects d2 !! (a, k) = Some (t', s) ->
  exists t, t_subjects d !! (a, k) = Some (t, s) /\ t' = repoint (tm_AccountID m) F w a t.
Proof.
  intros Hs. destruct (folds_hints _ _ _ _ _ Hfold _ _ _ _ Hs) as (t & Ht & Hp).
  rewrite Hs1 in Ht. exists t. split; [done|].
  destruct (inv_hint _ _ HI _ _ _ _ Ht) as (_ & (y & my & HyA & Hy & Ha & Hty) & _).
  assert (y <> x) as Hne by (intros ->; by apply (joins_new _ _ _ _ _ _ HJ)).
  rewrite Hp.
  - unfold repoint. case_decide as H1; case_decide as H2; try done; [set_solver|].
    destruct H2 as [-> Ht']. rewrite <-Hty in Ht'.
    pose proof (fold_other _ _ Hy Hne Ha Ht') as HtS. rewrite Hty in HtS.
    destruct (decide (t = w)) as [|Hnw]; [done|]. exfalso. apply H1. set_solver.
  - exists y, my. rewrite Hd1. simpl. by rewrite lookup_insert_ne.
Qed.
End fold.

(** What one assignment leaves. *)
Definition assigned (A : gset Z) (d : TDB) (x : Z) (d' : TDB) (r : terr + ThreadAssignment) : Prop :=
  match r with
  | inl e => e = TUnique
  | inr asg => Inv (A ∪ {[x]}) d' /\ headers d' = headers d /\ lowered d d' /\
      as_MessageID asg = x /\
      exists m', t_messages d' !! x = Some m' /\ tm_ThreadID m' = as_ThreadID asg
  end.

(** The subject hint. *)
Lemma record_hint (key : text) w a d :
  wp (if decide (key = []) then mret tt : TM unit else recordSubjectKey a key w)
     (fun d' r => t_messages d' = t_messages d /\ t_now d' = t_now d /\ r = inr tt /\
        forall a' k t' s, t_subjects d' !! (a', k) = Some (t', s) ->
          (exists s0, t_subjects d !! (a', k) = Some (t', s0)) \/
          (a' = a /\ k = key /\ k <> [] /\ t' = w)) d.
Proof.
  case_decide as Hk; wp_steps.
  { split_and!; [done..|]. eauto. }
  unfold recordSubjectKey. wp_steps. split_and!; [done..|]. simpl. intros a' k t' s.
  destruct (decide ((a', k) = (a, key))) as [Heq|Hne].
  - simplify_eq. rewrite lookup_insert_eq. intros Heq.
    destruct (t_subjects d !! (a, key)) as [[t s0]|] eqn:Hs; simplify_eq; [|naive_solver].
    destruct (Z.min_spec t w) as [[_ ->]|[_ ->]]; naive_solver.
  - rewrite lookup_insert_ne by done. eauto.
Qed.

Lemma assignOne_spec A d x m :
  Inv A d -> t_messages d !! x = Some m -> x ∉ A ->
  wp (assign (tm_AccountID m) x (candidate m)) (assigned A d x) d.
Proof.
  intros HI Hx Hnew. unfold assignOne. wp_step.
  eapply wp_mono; [by eapply related_found|]. intros d0 r (-> & S & -> & Hf).
  destruct (found_joins _ _ _ _ _ HI Hx Hnew Hf) as [HJ Hal].
  set (w := foldr Z.min x (elements S)) in *. cbv zeta beta iota.
  wp_step. eapply wp_mono; [by eapply move_self|].
  intros d1 r (Hm1 & Hs1 & Hn1 & ->). cbv beta iota. wp_step.
  eapply wp_mono; [apply merge_all_folds|].
  { intros t Ht%elem_of_elements. destruct (decide (t = w)) as [|Hne]; [by left|right].
    pose proof (joins_le _ _ _ _ _ _ HJ t ltac:(set_solver)). split; [lia|].
    etrans; [|eapply (conn_size _ _ (tm_AccountID m) t HI)].
    rewrite <-!size_dom. apply subseteq_size. intros y. rewrite !members_dom, Hm1. simpl.
    intros (my & Hy & Ha & Hty). apply lookup_insert_Some in Hy as [[<- <-]|[_ Hy]]; [done|eauto]. }
  intros d2 r (Hfold & _ & out & ->). rewrite list_to_set_elements_L in Hfold.
  pose proof (fold_messages _ _ _ _ _ _ _ _ HI HJ Hal Hm1 Hs1 Hfold) as Hm2.
  pose proof (fold_hints _ _ _ _ _ _ _ _ HI HJ Hal Hm1 Hs1 Hfold) as Hh2.
  cbv beta iota. wp_step. eapply wp_mono; [apply record_hint|].
  intros d3 r (Hm3 & Hn3 & -> & Hh3). cbv beta iota.
  assert (t_messages d3 = reassign (tm_AccountID m) ({[tm_ThreadID m]} ∪ S) w <$> t_messages d)
    as Hm by congruence.
  assert (t_messages d3 !! x = Some (with_thread w m)) as Hx3.
  { rewrite Hm, lookup_fmap, Hx. simpl. unfold reassign. rewrite decide_True; [done|set_solver]. }
  wp_step. eapply wp_mono; [apply ensureThreadRow_rows; by exists x, (with_thread w m)|].
  intros d4 [e|[]] (Hm4 & Hs4 & Hn4 & He); [done|]. wp_step. simpl.
  rewrite Hm4. split_and!; [|unfold headers|intros y my Hy|done|by eexists].
  - eapply join_inv; [exact HI|exact HJ|congruence|].
    intros a k t' s. rewrite Hs4. intros [(s0 & Hs0)|?]%Hh3; [left|by right].
    apply Hh2 in Hs0 as (t & Ht & ->). eauto.
  - rewrite Hm4, Hm, <-map_fmap_compose. apply map_fmap_ext. intros y my _. apply reassign_header.
  - exists (reassign (tm_AccountID m) ({[tm_ThreadID m]} ∪ S) w my).
    rewrite Hm4, Hm, lookup_fmap, Hy. split; [done|]. rewrite reassign_thread. by eapply rep_le.
Qed.

(** *** A batch *)

Lemma assign_all_spec a work A d :
  Inv A d ->
  NoDup (filter (fun id => id <> 0) work.*1) ->
  (forall id c, (id, c) ∈ work -> id <> 0 -> id ∉ A /\ exists m, headers d !! id = Some m /\
     tm_AccountID m = a /\ c = candidate m) ->
  wp (assign_all ToLower IsDigit digest planner a work) (fun d' r =>
    match r with
    | inl e => e = TUnique
    | inr out => Inv (A ∪ list_to_set (filter (fun id => id <> 0) work.*1)) d' /\
        headers d' = headers d /\ lowered d d' 
    end) d.
Proof.
  revert A d. induction work as [|[id c] work IH]; intros A d HI Hnd Hwork; cbn [assign_all].
  - wp_steps. split_and!; [|done|].
    + change (Inv (A ∪ ∅) d). by rewrite (right_id_L ∅ (∪)).
    + intros y m Hy. by exists m.
  - rewrite fmap_cons, filter_cons in Hnd |- *. simpl in Hnd |- *.
    destruct (id =? 0) eqn:Hz; bool_cases.
    { rewrite decide_False in Hnd |- * by naive_solver. apply IH; [done|done|].
      intros id' c' Hin. apply Hwork. by right. }
    rewrite decide_True in Hnd |- * by done. simpl in Hnd. apply NoDup_cons in Hnd as [Hnin Hnd].
    destruct (Hwork id c) as (HnA & m & Hm & Ha & ->); [by left|done|].
    unfold headers in Hm. apply lookup_fmap_Some in Hm as (m0 & <- & Hm).
    wp_step. change (candidate (with_thread 0 m0)) with (candidate m0). simpl in Ha. subst a.
    eapply wp_mono; [by eapply assignOne_spec|].
    intros d1 [e|asg]; [done|]. intros (HI1 & Hh1 & Hl1 & _). wp_step.
    eapply wp_mono; [apply (IH _ _ HI1 Hnd)|].
    + intros id' c' Hin Hnz. destruct (Hwork id' c') as (HnA' & m' & Hm' & Ha' & ->); [by right|done|].
      split; [|exists m'; by rewrite Hh1].
      intros [?|Heq%elem_of_singleton]%elem_of_union; [done|]. subst id'. apply Hnin.
      apply list_elem_of_filter. split; [done|]. apply list_elem_of_fmap. by exists (id, candidate m').
    + intros d2 [e|out]; [done|]. intros (HI2 & Hh2 & Hl2). wp_step.
      split_and!; [|congruence|by eapply lowered_trans].
      simpl. by rewrite (assoc_L (∪)).
Qed.

Lemma insert_inv A d now x m :
  Inv A d -> x <> 0 -> x ∉ A -> t_messages d !! x = None -> H !! x = Some (with_thread 0 m) ->
  Inv A (insert_row now (x, m) d) /\ lowered d (insert_row now (x, m) d) /\
  headers (insert_row now (x, m) d) = <[x := with_thread 0 m]> (headers d).
Proof.
  intros HI Hnz HxA Hnone HxH. unfold insert_row. simpl.
  rewrite (proj2 (Z.eqb_neq x 0) Hnz).
  set (d' := set_updated _ _). set (mx := with_thread x m).
  assert (Hm : t_messages d' = <[x := mx]> (t_messages d)) by done.
  assert (Hs : t_subjects d' = t_subjects d) by done.
  assert (Hold : forall y my, t_messages d !! y = Some my -> t_messages d' !! y = Some my).
  { intros y my Hy. rewrite Hm, lookup_insert_ne; [done|congruence]. }
  assert (Hnew : t_messages d' !! x = Some mx) by (by rewrite Hm, lookup_insert_eq).
  assert (Hinv : forall y my, t_messages d' !! y = Some my ->
            (y = x /\ my = mx) \/ (y <> x /\ t_messages d !! y = Some my)).
  { intros y my. rewrite Hm. intros [[<- <-]|[? ?]]%lookup_insert_Some; auto. }
  assert (Hthread : forall y my, t_messages d !! y = Some my -> tm_ThreadID my <> x).
  { intros y my Hy Heq. destruct (inv_root _ _ HI _ _ Hy) as (r & Hr & _). congruence. }
  assert (Hhead : headers d' = <[x := with_thread 0 m]> (headers d)).
  { unfold headers. rewrite Hm, fmap_insert. done. }
  split_and!; [|intros y my Hy; exists my; auto with lia|done].
  split.
  - rewrite Hhead. apply insert_subseteq_l; [done|apply (inv_headers _ _ HI)].
  - intros y my [[-> ->]|[_ Hy]]%Hinv; [done|by eapply inv_le].
  - intros y my [[-> ->]|[_ Hy]]%Hinv; [by exists mx|].
    destruct (inv_root _ _ HI _ _ Hy) as (r & Hr & ?). exists r. eauto.
  - intros y my [[-> ->]|[_ Hy]]%Hinv; [constructor|by eapply inv_conn].
  - rewrite Hs. intros a k t s Hk.
    destruct (inv_hint _ _ HI _ _ _ _ Hk) as (? & (y & my & ? & Hy & ?) & z & mz & Hz & ?).
    split_and!; [done|exists y, my|exists z, mz]; eauto.
  - intros y my [[-> ->]|[Hne Hy]]%Hinv HnA.
    + left. split; [done|]. intros z mz [[-> ->]|[_ Hz]]%Hinv _ Ht; [done|].
      by destruct (Hthread _ _ Hz).
    + destruct (inv_new _ _ HI _ _ Hy HnA) as [[Ht Hal]|(z & mz & Hne' & Hz & ?)].
      * left. split; [done|]. intros z mz [[-> ->]|[_ Hz]]%Hinv Ha Htz; [done|]. by eapply Hal.
      * right. exists z, mz. eauto.
  - intros y my z mz HyA HzA [[-> _]|[_ Hy]]%Hinv [[-> _]|[_ Hz]]%Hinv Hl; [done..|].
    by eapply (inv_link _ _ HI y my z mz).
Qed.

Definition fresh (A : gset Z) (d : TDB) (r : Z * tmessage) : Prop :=
  r.1 <> 0 -> t_messages d !! r.1 = None /\ r.1 ∉ A /\ H !! r.1 = Some (with_thread 0 r.2).

Lemma insert_all_inv A now rows d :
  Inv A d -> NoDup (filter (fun id => id <> 0) rows.*1) -> Forall (fresh A d) rows ->
  let d' := foldl (fun d row => insert_row now row d) d rows in
  Inv A d' /\ lowered d d' /\
  (forall id m, (id, m) ∈ rows -> id <> 0 -> headers d' !! id = Some (with_thread 0 m)) /\
  dom (t_messages d') = dom (t_messages d) ∪ list_to_set (filter (fun id => id <> 0) rows.*1).
Proof.
  revert d. induction rows as [|[id m] rows IH]; intros d HI Hnd Hall d'; subst d'; cbn [foldl].
  { split_and!; [done|intros y my Hy; by exists my|set_solver|].
    change (dom (t_messages d) = dom (t_messages d) ∪ ∅). set_solver. }
  rewrite fmap_cons, filter_cons in Hnd |- *. simpl in Hnd |- *.
  apply Forall_cons in Hall as [Hhd Htl]. unfold fresh in Hhd. simpl in Hhd.
  destruct (decide (id = 0)) as [->|Hnz].
  { rewrite decide_False in Hnd |- * by naive_solver. unfold insert_row at 2 4 6 8. simpl.
    destruct (IH d HI Hnd Htl) as (? & ? & Hh & ?). split_and!; [done..| |done].
    intros id' m' [[= -> ->]|Hin]%elem_of_cons; [done|by apply Hh]. }
  rewrite decide_True in Hnd |- * by done. apply NoDup_cons in Hnd as [Hnin Hnd].
  destruct (Hhd Hnz) as (Hnone & HnA & HxH).
  destruct (insert_inv A d now id m HI Hnz HnA Hnone HxH) as (HI1 & Hl1 & Hh1).
  assert (Hnin' : forall r, r ∈ rows -> r.1 = id -> False).
  { intros r Hr <-. apply Hnin. apply list_elem_of_filter. split; [done|].
    by apply list_elem_of_fmap_2. }
  destruct (IH _ HI1 Hnd) as (HI2 & Hl2 & Hh2 & Hd2).
  { apply Forall_forall. intros [id' m'] Hin Hnz'. simpl in *.
    destruct (proj1 (Forall_forall _ _) Htl _ Hin Hnz') as (Hn' & HA' & HH'). simpl in *.
    split_and!; [|done..]. unfold insert_row. simpl. rewrite (proj2 (Z.eqb_neq id 0) Hnz). simpl.
    rewrite lookup_insert_ne; [done|]. intros <-. by apply (Hnin' (id, m')). }
  split_and!; [done|by eapply lowered_trans| |].
  - intros id' m' [[= -> ->]|Hin]%elem_of_cons Hz'; [|by apply Hh2].
    destruct (lookup_fmap_Some (with_thread 0) (t_messages (insert_row now (id, m) d)) id (with_thread 0 m))
      as [(q & Hq & Hlook) _]; [unfold headers in Hh1; rewrite Hh1; by rewrite lookup_insert_eq|].
    destruct (Hl2 _ _ Hlook) as (q' & Hq' & _).
    pose proof (inv_stored _ _ _ _ HI2 Hq') as HH. rewrite HxH in HH. 
    rewrite (headers_lookup _ _ _ Hq'). congruence.
  - rewrite Hd2. unfold insert_row. simpl. rewrite (proj2 (Z.eqb_neq id 0) Hnz). simpl.
    rewrite dom_insert_L. simpl. set_solver.
Qed.

Abbreviation ids_of b := (filter (fun id => id <> 0) (b_rows b).*1).

Lemma inv_now A d now : Inv A d -> Inv A (set_now now d).
Proof. intros HI. split; apply HI. Qed.

(** A whole batch: insertion, then the assignment, which fails on a unique index or
    threads every message of the batch. *)
Lemma AssignThreads_spec A b d :
  Inv A d -> NoDup (ids_of b) ->
  Forall (fresh A d) (b_rows b) ->
  Forall (fun r => r.1 <> 0 -> tm_AccountID r.2 = b_account b) (b_rows b) ->
  lowered d (insert_rows b d) /\
  dom (t_messages (insert_rows b d)) = dom (t_messages d) ∪ list_to_set (ids_of b) /\
  Inv A (insert_rows b d) /\
  wp (AssignThreads ToLower IsDigit digest planner (b_account b) (b_rows b).*1
        (candidate <$> (b_rows b).*2))
     (fun d' r => lowered (insert_rows b d) d' /\ headers d' = headers (insert_rows b d) /\
        match r with
        | inl e => e = TUnique /\ d' = insert_rows b d
        | inr _ => Inv (A ∪ list_to_set (ids_of b)) d'
        end) (insert_rows b d).
Proof.
  intros HI%(inv_now _ _ (b_now b)) Hnd Hfresh Hacc.
  destruct (insert_all_inv A (b_now b) (b_rows b) (set_now (b_now b) d) HI Hnd Hfresh)
    as (HI1 & Hl1 & Hh1 & Hd1).
  fold (insert_rows b d) in HI1, Hl1, Hh1, Hd1. split_and!; [exact Hl1|exact Hd1|exact HI1|].
  unfold AssignThreads. rewrite !length_fmap, Nat.eqb_refl. cbn [negb].
  set (work := zip _ _).
  assert (Hfst : work.*1 = (b_rows b).*1) by (apply fst_zip; by rewrite !length_fmap).
  assert (Hwork : work = (fun r => (r.1, candidate r.2)) <$> b_rows b).
  { subst work. rewrite zip_with_fmap_r, zip_with_fst_snd. apply list_fmap_ext. by intros ? []. }
  pose proof (assign_all_spec (b_account b) work A (insert_rows b d) HI1) as Hspec.
  rewrite Hfst in Hspec. specialize (Hspec Hnd). unfold wp in Hspec |- *. unfold in_tx.
  assert (Hpre : forall id c, (id, c) ∈ work -> id <> 0 -> id ∉ A /\ exists m,
    headers (insert_rows b d) !! id = Some m /\ tm_AccountID m = b_account b /\ c = candidate m).
  { intros id c Hin Hnz. rewrite Hwork in Hin.
    apply list_elem_of_fmap in Hin as ([id' m] & [= -> ->] & Hin).
    destruct (proj1 (Forall_forall _ _) Hfresh _ Hin Hnz) as (_ & HnA & _). split; [done|].
    exists (with_thread 0 m). split_and!; [by apply Hh1| |done].
    by apply (proj1 (Forall_forall _ _) Hacc _ Hin). }
  specialize (Hspec Hpre).
  destruct (assign_all _ _ _ _ _ _ _) as [d' [e|out]]; simpl in *.
  - split_and!; [intros y m Hy; by exists m|done..].
  - naive_solver.
Qed.
End invariant.

(** *** Histories *)

Definition stored_rows (bs : list batch) : list (Z * tmessage) :=
  filter (fun r => r.1 <> 0) (bs ≫= b_rows).
Definition all_headers (bs : list batch) : gmap Z tmessage :=
  list_to_map ((fun r => (r.1, with_thread 0 r.2)) <$> stored_rows bs).

(** Each message has an id of its own and belongs to the account of its batch. *)
Record orderly (bs : list batch) : Prop := {
  orderly_ids : NoDup (stored_rows bs).*1;
  orderly_accounts : Forall (fun b =>
    Forall (fun r => r.1 <> 0 -> tm_AccountID r.2 = b_account b) (b_rows b)) bs
}.

Record tractable (bs : list batch) : Prop := {
  tractable_few : few_relatives (all_headers bs);
  tractable_short : short_conversations (all_headers bs);
  tractable_self : no_self_reference (all_headers bs)
}.

Abbreviation store := (store_all ToLower IsDigit digest planner).

Lemma stored_rows_app bs bs' : stored_rows (bs ++ bs') = stored_rows bs ++ stored_rows bs'.
Proof. unfold stored_rows. by rewrite bind_app, filter_app. Qed.

Lemma stored_rows_one b : (stored_rows [b]).*1 = filter (fun id => id <> 0) (b_rows b).*1.
Proof.
  unfold stored_rows. simpl. rewrite app_nil_r. induction (b_rows b) as [|[id m] l IH]; [done|].
  rewrite fmap_cons, !filter_cons. simpl. by case_decide; rewrite ?fmap_cons, IH.
Qed.

Lemma stored_rows_elem b id m : (id, m) ∈ stored_rows [b] <-> (id, m) ∈ b_rows b /\ id <> 0.
Proof. unfold stored_rows. simpl. rewrite app_nil_r, list_elem_of_filter. naive_solver. Qed.

Lemma all_headers_lookup bs id m :
  orderly bs -> (id, m) ∈ stored_rows bs -> all_headers bs !! id = Some (with_thread 0 m).
Proof.
  intros Ho Hin. unfold all_headers. apply elem_of_list_to_map.
  - rewrite <-list_fmap_compose. apply (orderly_ids _ Ho).
  - apply list_elem_of_fmap. by exists (id, m).
Qed.

Lemma batch_fresh bs b bs' A d :
  orderly (bs ++ b :: bs') ->
  dom (t_messages d) = list_to_set (stored_rows bs).*1 -> A ⊆ dom (t_messages d) ->
  NoDup (filter (fun id => id <> 0) (b_rows b).*1) /\
  Forall (fresh (all_headers (bs ++ b :: bs')) A d) (b_rows b) /\
  Forall (fun r => r.1 <> 0 -> tm_AccountID r.2 = b_account b) (b_rows b).
Proof.
  intros Ho Hdom HA. pose proof (orderly_ids _ Ho) as Hnd.
  change (b :: bs') with ([b] ++ bs') in Hnd.
  rewrite !stored_rows_app, !fmap_app, stored_rows_one in Hnd.
  apply NoDup_app in Hnd as (_ & Hdisj & Hnd). apply NoDup_app in Hnd as (Hnd & _ & _).
  split_and!; [done| |].
  - apply Forall_forall. intros [id m] Hin Hnz. simpl in *.
    assert (id ∉ dom (t_messages d)) as Hn.
    { rewrite Hdom, elem_of_list_to_set. intros Hid. apply (Hdisj _ Hid), elem_of_app. left.
      apply list_elem_of_filter. split; [done|]. by apply (list_elem_of_fmap_2 fst _ (id, m)). }
    split_and!; [by apply not_elem_of_dom|set_solver|].
    apply all_headers_lookup; [done|]. change (b :: bs') with ([b] ++ bs').
    rewrite !stored_rows_app, !elem_of_app, stored_rows_elem. auto.
  - pose proof (orderly_accounts _ Ho) as Hacc. apply Forall_app in Hacc as [_ Hacc].
    by apply Forall_cons in Hacc as [Hacc _].
Qed.

(** The tables after a prefix of the history. *)
Record settled (H : gmap Z tmessage) (bs : list batch) (dA : TDB * gset Z) : Prop := {
  settled_inv : Inv H dA.2 dA.1;
  settled_dom : dom (t_messages dA.1) = list_to_set (stored_rows bs).*1;
  settled_assigned : dA.2 ⊆ dom (t_messages dA.1)
}.

Lemma headers_dom d : dom (headers d) = dom (t_messages d).
Proof. unfold headers. by rewrite dom_fmap_L. Qed.

Lemma store_batch_settled bs b bs' dA :
  orderly (bs ++ b :: bs') -> tractable (bs ++ b :: bs') ->
  settled (all_headers (bs ++ b :: bs')) bs dA ->
  let dA' := store_batch ToLower IsDigit digest planner dA b in
  settled (all_headers (bs ++ b :: bs')) (bs ++ [b]) dA' /\ lowered dA.1 dA'.1.
Proof.
  intros Ho [Hfew Hshort Hself] [HI Hdom HA]. destruct dA as [d A]. simpl in *.
  destruct (batch_fresh _ _ _ _ _ Ho Hdom HA) as (Hnd & Hfresh & Hacc).
  destruct (AssignThreads_spec _ Hfew Hshort Hself A b d HI Hnd Hfresh Hacc)
    as (Hl1 & Hd1 & HI1 & Hwp).
  unfold store_batch, assignThreads. simpl. unfold wp in Hwp.
  destruct (AssignThreads _ _ _ _ _ _ _ _) as [d' [e|out]]; simpl in *.
  - destruct Hwp as (_ & _ & -> & ->). split; [split|done]; simpl; [done| |set_solver].
    rewrite Hd1, Hdom, stored_rows_app, fmap_app, stored_rows_one. by rewrite list_to_set_app_L.
  - destruct Hwp as (Hl2 & Hh & HI2).
    assert (dom (t_messages d') = dom (t_messages (insert_rows b d))) as Hd'
      by (by rewrite <-!headers_dom, Hh).
    split; [split|by eapply lowered_trans]; simpl; [done| |set_solver].
    rewrite Hd', Hd1, Hdom, stored_rows_app, fmap_app, stored_rows_one.
    by rewrite list_to_set_app_L.
Qed.

Lemma inv_empty H : Inv H ∅ no_threads.
Proof.
  split; simpl; try (intros *; by rewrite lookup_empty).
  unfold headers. simpl. rewrite fmap_empty. apply map_empty_subseteq.
Qed.

Lemma store_all_settled bs bs' :
  orderly (bs ++ bs') -> tractable (bs ++ bs') ->
  settled (all_headers (bs ++ bs')) bs (store bs).
Proof.
  revert bs'. induction bs as [|b bs IH] using rev_ind; intros bs' Ho Ht.
  - split; simpl; [apply inv_empty|by rewrite dom_empty_L|set_solver].
  - rewrite <-(assoc_L (++)) in Ho, Ht |- *. simpl in *.
    unfold store_all. rewrite foldl_app. simpl.
    destruct (store_batch_settled bs b bs' (store bs) Ho Ht) as [Hs _]; [by apply IH|done].
Qed.

Lemma store_all_lowered bs bs' :
  orderly (bs ++ bs') -> tractable (bs ++ bs') -> lowered (store bs).1 (store (bs ++ bs')).1.
Proof.
  revert bs. induction bs' as [|b bs' IH]; intros bs Ho Ht.
  - rewrite app_nil_r. intros y m Hy. by exists m.
  - destruct (store_batch_settled bs b bs' (store bs) Ho Ht) as [_ Hl];
      [by apply store_all_settled|].
    rewrite cons_middle, (assoc_L (++)) in Ho, Ht |- *.
    eapply lowered_trans; [|by apply IH].
    unfold store_all at 2. by rewrite foldl_app.
Qed.

(** C36: Conversations are the connected groups of messages. Over any history of
    batches without deletions, each message with an id of its own and in the account of its
    batch, two threaded messages of which one names the other in its References or
    In-Reply-To are in the same conversation, whichever was stored first; and two
    messages in the same conversation are connected by such links and by replies with
    the same subject. This holds while no message has more than 64 stored ancestors or
    descendants, no conversation more than 1000 messages (a merge beyond that is refused),
    and no message names itself. *)
Theorem threads_connect (bs : list batch) :
  orderly bs -> tractable bs ->
  let '(d, A) := store bs in
  (forall x y mx my, x ∈ A -> y ∈ A -> t_messages d !! x = Some mx -> t_messages d !! y = Some my ->
     linked mx my -> tm_ThreadID mx = tm_ThreadID my) /\
  (forall x y mx my, t_messages d !! x = Some mx -> t_messages d !! y = Some my ->
     tm_ThreadID mx = tm_ThreadID my -> connected (all_headers bs) x y).
Proof.
  intros Ho Ht. pose proof (store_all_settled bs []) as Hs. rewrite app_nil_r in Hs.
  destruct (store bs) as [d A]. destruct (Hs Ho Ht) as [HI _ _]. simpl in HI. split.
  - intros x y mx my HxA HyA Hx Hy Hl. by eapply (inv_link _ _ _ HI x mx y my).
  - intros x y mx my Hx Hy Heq. trans (tm_ThreadID mx); [by eapply inv_conn|].
    rewrite Heq. apply connected_sym. by eapply inv_conn.
Qed.

(** C37: Thread ids settle while messages only arrive. In any history of batches without
    deletions, each message with an id of its own and in the account of its batch, no message
    with more than 64 stored ancestors or descendants or naming itself, and no conversation
    of more than 1000 messages: at every point the conversation of a stored message is named
    by the id of its oldest member (a stored message of the same account that is itself in
    the conversation, with an id no greater than any member's), and from one point to a later
    one the conversation id of a message never grows. After a folder is rebuilt neither need
    hold ([reindex_stuck_on_orphan]). *)
Theorem threads_settle (bs bs' : list batch) :
  orderly (bs ++ bs') -> tractable (bs ++ bs') ->
  lowered (store bs).1 (store (bs ++ bs')).1 /\
  forall x m, t_messages (store bs).1 !! x = Some m ->
    tm_ThreadID m <= x /\
    exists r, t_messages (store bs).1 !! tm_ThreadID m = Some r /\
      tm_AccountID r = tm_AccountID m /\ tm_ThreadID r = tm_ThreadID m.
Proof.
  intros Ho Ht. split; [by apply store_all_lowered|]. intros x m Hx.
  destruct (store_all_settled bs bs' Ho Ht) as [HI _ _].
  split; [by eapply inv_le|by eapply inv_root].
Qed.

(** The only way threading a batch fails is a clash of durable rows. After any
    history, the assignment of the next batch threads all of it or fails on a unique
    index of the threads table; it never merges into a younger conversation, never
    loses the conversation it derives a key for, and leaves the tables as the insert
    left them when it fails. *)
Theorem threading_fails_on_rows_only (bs : list batch) (b : batch) :
  orderly (bs ++ [b]) -> tractable (bs ++ [b]) ->
  let d := insert_rows b (store bs).1 in
  match AssignThreads ToLower IsDigit digest planner (b_account b) (b_rows b).*1
          (candidate <$> (b_rows b).*2) d with
  | (d', inl e) => e = TUnique /\ d' = d
  | (d', inr _) => dom (t_messages d') = dom (t_messages d) /\ lowered d d'
  end.
Proof.
  intros Ho Ht d. destruct (store_all_settled bs [b] Ho Ht) as [HI Hdom HA].
  destruct Ht as [Hfew Hshort Hself].
  destruct (batch_fresh _ _ _ _ _ Ho Hdom HA) as (Hnd & Hfresh & Hacc).
  destruct (AssignThreads_spec _ Hfew Hshort Hself _ b _ HI Hnd Hfresh Hacc)
    as (_ & _ & _ & Hwp). fold d in Hwp. unfold wp in Hwp.
  destruct (AssignThreads _ _ _ _ _ _ _ _) as [d' [e|out]]; simpl in *; [tauto|].
  destruct Hwp as (Hl & Hh & _). split; [|done]. by rewrite <-!headers_dom, Hh.
Qed.
End conversations.

(** *** Concrete histories *)

Definition msg (mid : string) (refs : list string) (subject : string) (date : Time) : tmessage :=
  {| tm_AccountID := 7; tm_MessageID := lit mid; tm_InReplyTo := []; tm_References := lit <$> refs;
     tm_Subject := lit subject; tm_Date := date; tm_ThreadID := 0 |}.
Definition one (now : Time) (id : Z) (m : tmessage) : batch :=
  {| b_account := 7; b_now := now; b_rows := [(id, m)] |}.
Abbreviation store_ascii := (store_all ascii_lower ascii_digit (fun s => s) elements).
Abbreviation assign_ascii := (assignThreads ascii_lower ascii_digit (fun s => s) elements).
Definition thread_of (d : TDB) (id : Z) : option Z := tm_ThreadID <$> t_messages d !! id.

Lemma small_tractable bs :
  (size (all_headers bs) <= threadLookupLimit)%nat -> no_self_reference (all_headers bs) ->
  tractable ascii_lower ascii_digit bs.
Proof.
  intros Hsize Hself. split; [| |done].
  - intros x m _. split; (etrans; [|exact Hsize]); rewrite <-!size_dom; apply subseteq_size, dom_filter_subseteq.
  - intros X HX _. transitivity (size (dom (all_headers bs))); [by apply subseteq_size|].
    rewrite size_dom. etrans; [exact Hsize|]. unfold threadLookupLimit, threadMergeMaxMembers. lia.
Qed.

(** A reply stored before the message it answers. *)
Definition late_parent : list batch :=
  [one 10 1 (msg "b" ["a"] "Re: x" 4); one 11 2 (msg "a" [] "x" 3)].

Lemma late_parent_orderly : orderly late_parent.
Proof. split; [apply (bool_decide_unpack _); by vm_compute|]. repeat constructor. Qed.

Lemma late_parent_tractable : tractable ascii_lower ascii_digit late_parent.
Proof.
  apply small_tractable; [vm_compute; lia|].
  assert (map_Forall (fun _ m => tm_MessageID m ∉ tc_References (candidate m))
            (all_headers late_parent)) as Hf.
  { apply (bool_decide_unpack _). by vm_compute. }
  intros x m Hx. left. by apply (Hf x).
Qed.

Lemma threads_connect_witness :
  thread_of (store_ascii late_parent).1 1 = thread_of (store_ascii late_parent).1 2.
Proof.
  pose proof (threads_connect ascii_lower ascii_digit (fun s => s) elements
    ltac:(done) late_parent late_parent_orderly late_parent_tractable) as Hc.
  destruct (store_ascii late_parent) as [d A] eqn:Hs. destruct Hc as [Hc _].
  assert (exists m1 m2, t_messages d !! 1 = Some m1 /\ t_messages d !! 2 = Some m2 /\ linked m1 m2)
    as (m1 & m2 & H1 & H2 & Hl).
  { replace d with (store_ascii late_parent).1 by (by rewrite Hs).
    eexists _, _. split_and!; [vm_compute; reflexivity..|]. left.
    split_and!; [done|done|]. vm_compute. left. }
  assert (1 ∈ A /\ 2 ∈ A) as [HA1 HA2].
  { replace A with (store_ascii late_parent).2 by (by rewrite Hs).
    split; apply (bool_decide_unpack _); by vm_compute. }
  unfold thread_of. simpl. rewrite H1, H2. simpl. f_equal.
  exact (Hc 1 2 m1 m2 HA1 HA2 H1 H2 Hl).
Defined.

Lemma threads_settle_witness :
  exists m, t_messages (store_ascii [one 10 1 (msg "b" ["a"] "Re: x" 4)]).1 !! 1 = Some m /\
    tm_ThreadID m <= 1.
Proof.
  destruct (threads_settle ascii_lower ascii_digit (fun s => s) elements ltac:(done)
    [one 10 1 (msg "b" ["a"] "Re: x" 4)] [one 11 2 (msg "a" [] "x" 3)]
    late_parent_orderly late_parent_tractable) as [_ Hr].
  eexists. split; [vm_compute; reflexivity|]. apply Hr. vm_compute. reflexivity.
Defined.

(** Two conversations whose rows exist, and a message that names both. *)
Definition clash_history : list batch :=
  [one 10 1 (msg "c" [] "three" 4); one 11 2 (msg "b" [] "two" 3)].
Definition clash_batch : batch := one 12 3 (msg "s" ["b"; "c"] "both" 5).

Lemma clash_orderly : orderly (clash_history ++ [clash_batch]).
Proof. split; [apply (bool_decide_unpack _); by vm_compute|]. repeat constructor. Qed.

Lemma clash_tractable : tractable ascii_lower ascii_digit (clash_history ++ [clash_batch]).
Proof.
  apply small_tractable; [vm_compute; lia|].
  assert (map_Forall (fun _ m => tm_MessageID m ∉ tc_References (candidate m))
            (all_headers (clash_history ++ [clash_batch]))) as Hf.
  { apply (bool_decide_unpack _). by vm_compute. }
  intros x m Hx. left. by apply (Hf x).
Qed.

Definition clash_result : TDB * (terr + list ThreadAssignment) :=
  AssignThreads ascii_lower ascii_digit (fun s => s) elements (b_account clash_batch)
    (b_rows clash_batch).*1 (candidate <$> (b_rows clash_batch).*2)
    (insert_rows clash_batch (store_ascii clash_history).1).

Lemma clash_fails : (if clash_result.2 then true else false) = true.
Proof. vm_compute. reflexivity. Qed.

Lemma threading_fails_on_rows_only_witness :
  exists e, clash_result.2 = inl e /\ e = TUnique.
Proof.
  pose proof (threading_fails_on_rows_only ascii_lower ascii_digit (fun s => s) elements ltac:(done)
    clash_history clash_batch clash_orderly clash_tractable) as Hc.
  cbv zeta in Hc. fold clash_result in Hc.
  pose proof clash_fails as Hf. revert Hc Hf. generalize clash_result.
  intros [d' [e|out]] Hc Hf; cbn in Hf; [|discriminate].
  exists e. split; [reflexivity|apply Hc].
Defined.

(** A message that joins two conversations can leave its whole batch unthreaded.
    When the conversation with the smaller id is the one whose oldest member by date
    is the younger's, the surviving row is re-keyed before the other row is
    tombstoned, and the update breaks the unique index on the durable key: the
    assignment fails and the three messages stay in conversations of their own. *)
Theorem merged_rows_clash :
  clash_result.2 = inl TUnique /\
  let d' := (store_ascii (clash_history ++ [clash_batch])).1 in
  thread_of d' <$> [1; 2; 3] = [Some 1; Some 2; Some 3].
Proof. split; vm_compute; reflexivity. Qed.

(** The thread ids reported to the mute hook are those of the moment each message was
    threaded: a later message of the batch can have merged them since. *)
Example reported_thread_is_stale :
  let b := {| b_account := 7; b_now := 11;
              b_rows := [(2, msg "b" [] "y" 2); (3, msg "c" ["a"; "b"] "z" 3)] |} in
  let r := assign_ascii 7 [2; 3] (b_rows b).*2
             (insert_rows b (store_ascii [one 10 1 (msg "a" [] "x" 1)]).1) in
  r.2 = ([2; 1], true) /\ thread_of r.1 <$> [1; 2; 3] = [Some 1; Some 1; Some 1].
Proof. split; vm_compute; reflexivity. Qed.

(** Two copies of one message are separate conversations with the same durable key:
    the second takes the row of the first. *)
Example copy_takes_thread_row :
  let d := (store_ascii [one 10 1 (msg "a" [] "x" 1); one 11 2 (msg "a" [] "x" 1)]).1 in
  thread_of d <$> [1; 2] = [Some 1; Some 2] /\
  (fun r : Z * Thread => (r.1, th_ThreadID r.2)) <$> map_to_list (t_threads d) = [(1, 2)].
Proof. split; vm_compute; reflexivity. Qed.

(** A reply that joined by its subject, once the original is gone with its rebuilt
    folder and the hint is older than a month: re-threading fails on it, and so does
    every later run, since the batch is rolled back. *)
Example reindex_stuck_on_orphan :
  let d := (store_ascii [one 10 1 (msg "a" [] "invoice" 1); one 11 2 (msg "b" [] "Re: invoice" 2)]).1 in
  let d := set_now (11 + threadSubjectWindow) (set_tmessages (delete 1) d) in
  thread_of d 2 = Some 1 /\
  ReindexThreads ascii_lower ascii_digit (fun s => s) elements 7 1000 0 d = (d, inl TNotFound).
Proof. split; vm_compute; reflexivity. Qed.
