(* ===== verification/Store.v ===== *)
(** The part of the PostgreSQL store the sync engine writes
    (src/internal/store: types.go, messages.go, mailboxes.go, sync.go), as
    tables and the effect each SQL statement has on them.

    A table is a finite map from its key; a unique index is a key. The tables
    carry the columns the engine reads or decides on. Statements run in the
    monad of [Prelude.M] over a world that holds the tables, the clock
    PostgreSQL's [now()] reads, a mail server and a schedule of faults: every
    statement first consumes one entry of the schedule and fails, having done
    nothing, when the entry is an error. A theorem about every schedule is a
    theorem about a failure, or a kill, between any two statements. *)

From S2P Require Import Prelude.
From stdpp Require Export pretty.
#[local] Open Scope Z_scope.

(** ** Rows *)

Inductive BackfillState :=
| BackfillPending | BackfillRecentDone | BackfillInProgress | BackfillComplete.

Inductive MailboxRole :=
| RoleNone | RoleInbox | RoleArchive | RoleDrafts | RoleSent | RoleJunk
| RoleTrash | RoleAll | RoleFlagged.

Inductive BreakerState := BreakerClosed | BreakerOpen | BreakerHalfOpen.

Inductive ParseStatus := ParseOK | ParsePartial | ParseFailed.

#[global] Instance BackfillState_eq_dec : EqDecision BackfillState.
Proof. solve_decision. Defined.
#[global] Instance MailboxRole_eq_dec : EqDecision MailboxRole.
Proof. solve_decision. Defined.
#[global] Instance BreakerState_eq_dec : EqDecision BreakerState.
Proof. solve_decision. Defined.
#[global] Instance ParseStatus_eq_dec : EqDecision ParseStatus.
Proof. solve_decision. Defined.

(** One IMAP folder with its QRESYNC resume point and backfill progress. *)
Record Mailbox := mkMailbox {
  mb_ID : Z;
  mb_AccountID : Z;
  mb_Name : string;
  mb_Role : MailboxRole;
  mb_Selectable : bool;
  mb_UIDValidity : option Z;
  mb_UIDNext : option Z;
  mb_HighestModSeq : option Z;
  mb_BackfillState : BackfillState;
  mb_BackfillUIDLow : option Z
}.

Definition UIDValidityOrZero (m : Mailbox) : Z := default 0 (mb_UIDValidity m).

(** The immutable half of a message: what was derived from the raw bytes. *)
Record Message := mkMessage {
  RawSHA256 : string;
  MessageID : string;
  InReplyTo : string;
  ReferencesIDs : list string;
  Subject : string;
  FromAddr : string;
  ToAddrs : string;
  CcAddrs : string;
  Addresses : string;
  MIMEStructure : string;
  Preview : string;
  BodyText : string;
  MParseStatus : ParseStatus;
  Defects : string
}.

(** The volatile half, without the columns that form its unique key. *)
Record MessageState := mkState {
  ms_MessageID : Z;
  ms_Flags : Z;
  ms_Keywords : list string;
  ms_ModSeqSeen : Z;
  ms_DeletedAt : option Time;
  ms_UpdatedAt : Time
}.

(** A row of message_state is addressed by (mailbox_id, uidvalidity, uid). *)
Definition state_key : Type := Z * Z * Z.

Record NewMessage := mkNewMessage {
  nm_Message : Message;
  nm_Key : state_key;
  nm_Flags : Z;
  nm_Keywords : list string;
  nm_ModSeqSeen : Z
}.

Record FlagUpdate := mkFlagUpdate {
  fu_MessageID : Z;
  fu_Flags : Z;
  fu_Keywords : list string;
  fu_ModSeqSeen : Z
}.

(** A JSON document as encoding/json reads and writes it; [JTime] is the RFC
    3339 string of a time.Time. *)
Inductive json :=
| JNum (z : Z) | JBool (b : bool) | JStr (s : string) | JTime (t : Time)
| JObj (fields : list (string * json)).

Record SyncCheckpoint := mkCheckpoint {
  Checkpoint : json;
  StateCounter : Z;
  LastSuccessAt : option Time;
  LastError : option string;
  ConsecutiveErrors : Z;
  cp_BreakerState : BreakerState;
  BreakerUntil : option Time
}.

Record DB := mkDB {
  mailboxes : gmap Z Mailbox;
  messages : gmap Z Message;
  message_state : gmap state_key MessageState;
  thread_ids : gmap Z Z;
  blobs : gset string;
  blob_refs : gset (string * Z * Z);     (* (hash, account, owning message) *)
  sync_log : gmap (Z * string) SyncCheckpoint;
  next_message_id : Z
}.

(** ** The world and its faults *)

Inductive err :=
| ErrIO                 (* a connection or transaction that failed *)
| ErrDeadlock           (* SQLSTATE 40P01 *)
| ErrData               (* SQLSTATE class 22, 23 (not 23505) or 54 *)
| ErrUnique             (* SQLSTATE 23505, a unique index *)
| ErrNotFound
| ErrNeedsInitialSync.  (* errMailboxNeedsInitialSync *)

#[global] Instance err_eq_dec : EqDecision err.
Proof. solve_decision. Defined.

(** A statement or a command fails for a transient reason; a data error is the
    row's own ([rejects] below). *)
Inductive fault := FaultIO | FaultDeadlock.

Definition err_of_fault (f : fault) : err :=
  match f with FaultIO => ErrIO | FaultDeadlock => ErrDeadlock end.

Record World (S : Type) := mkWorld {
  w_db : DB;
  w_srv : S;
  w_now : Time;
  w_faults : list (option fault)
}.
Arguments mkWorld {S}.
Arguments w_db {S}.
Arguments w_srv {S}.
Arguments w_now {S}.
Arguments w_faults {S}.

Section statements.
Context {S : Type}.
Abbreviation MM := (M (World S) err).

Definition set_db (f : DB -> DB) (w : World S) : World S :=
  {| w_db := f (w_db w); w_srv := w_srv w; w_now := w_now w; w_faults := w_faults w |}.

(** Consume one entry of the fault schedule; an exhausted one has no faults. *)
Definition io : MM unit := fun w =>
  match w_faults w with
  | [] => (w, inr tt)
  | f :: fs =>
      ({| w_db := w_db w; w_srv := w_srv w; w_now := w_now w; w_faults := fs |},
       match f with Some e => inl (err_of_fault e) | None => inr tt end)
  end.

Definition now : MM Time := gets w_now.
Definition the_db : MM DB := gets w_db.

(** [if err := f(); err != nil { ... }] without leaving the function. *)
Definition try {A} (m : MM A) : MM (err + A) := fun w =>
  let '(w', r) := m w in (w', inr r).

(** *** mailboxes *)

Definition set_mailboxes (f : gmap Z Mailbox -> gmap Z Mailbox) (d : DB) : DB :=
  {| mailboxes := f (mailboxes d); messages := messages d; message_state := message_state d;
     thread_ids := thread_ids d; blobs := blobs d; blob_refs := blob_refs d;
     sync_log := sync_log d; next_message_id := next_message_id d |}.

Definition GetMailbox (id : Z) : MM Mailbox :=
  io ;; d ← the_db;
  match mailboxes d !! id with
  | Some m => mret m
  | None => throw ErrNotFound
  end.

(** [UpsertMailbox]: INSERT ... ON CONFLICT (account_id, name) DO UPDATE of the
    descriptive columns only. A role another folder of the account holds
    violates the partial unique index (account_id, role). *)
Definition same_folder (accountID : Z) (name : string) (m : Mailbox) : bool :=
  bool_decide (mb_AccountID m = accountID /\ mb_Name m = name).

Definition GetMailboxByName (accountID : Z) (name : string) : MM Mailbox :=
  io ;; d ← the_db;
  match List.find (same_folder accountID name)
          (map_to_list (mailboxes d)).*2 with
  | Some m => mret m
  | None => throw ErrNotFound
  end.

Definition role_taken (accountID : Z) (name : string) (role : MailboxRole) (d : DB) : bool :=
  bool_decide (role <> RoleNone) &&
  existsb (fun m => bool_decide (mb_AccountID m = accountID /\ mb_Name m <> name /\ mb_Role m = role))
    (map_to_list (mailboxes d)).*2.

(** The identity column: an id no row has had. *)
Definition fresh_mailbox_id (d : DB) : Z :=
  1 + foldr Z.max 0 (map_to_list (mailboxes d)).*1.

Definition upsert_row (accountID : Z) (name : string) (role : MailboxRole) (selectable : bool)
    (d : DB) : Mailbox :=
  match List.find (same_folder accountID name) (map_to_list (mailboxes d)).*2 with
  | Some m =>
      {| mb_ID := mb_ID m; mb_AccountID := mb_AccountID m; mb_Name := mb_Name m;
         mb_Role := role; mb_Selectable := selectable;
         mb_UIDValidity := mb_UIDValidity m; mb_UIDNext := mb_UIDNext m;
         mb_HighestModSeq := mb_HighestModSeq m; mb_BackfillState := mb_BackfillState m;
         mb_BackfillUIDLow := mb_BackfillUIDLow m |}
  | None =>
      {| mb_ID := fresh_mailbox_id d; mb_AccountID := accountID; mb_Name := name;
         mb_Role := role; mb_Selectable := selectable;
         mb_UIDValidity := None; mb_UIDNext := None; mb_HighestModSeq := None;
         mb_BackfillState := BackfillPending; mb_BackfillUIDLow := None |}
  end.

Definition UpsertMailbox (accountID : Z) (name : string) (role : MailboxRole) (selectable : bool)
    : MM Mailbox :=
  io ;; d ← the_db;
  if role_taken accountID name role d then throw ErrUnique
  else
    let m := upsert_row accountID name role selectable d in
    modify (set_db (set_mailboxes <[mb_ID m := m]>)) ;; mret m.

Definition with_sync_state (v n h : Z) (m : Mailbox) : Mailbox :=
  {| mb_ID := mb_ID m; mb_AccountID := mb_AccountID m; mb_Name := mb_Name m;
     mb_Role := mb_Role m; mb_Selectable := mb_Selectable m;
     mb_UIDValidity := Some v; mb_UIDNext := Some n; mb_HighestModSeq := Some h;
     mb_BackfillState := mb_BackfillState m; mb_BackfillUIDLow := mb_BackfillUIDLow m |}.

(** UPDATE mailboxes ... WHERE id = $1, failing when no row matched. *)
Definition update_mailbox (id : Z) (f : Mailbox -> Mailbox) : MM unit :=
  io ;; d ← the_db;
  match mailboxes d !! id with
  | Some m => modify (set_db (set_mailboxes <[id := f m]>))
  | None => throw ErrNotFound
  end.

Definition SetMailboxSyncState (id uidvalidity uidnext highestmodseq : Z) : MM unit :=
  update_mailbox id (with_sync_state uidvalidity uidnext highestmodseq).

(** COALESCE($3, backfill_uid_low): a nil watermark leaves the column. *)
Definition with_backfill (state : BackfillState) (uidLow : option Z) (m : Mailbox) : Mailbox :=
  {| mb_ID := mb_ID m; mb_AccountID := mb_AccountID m; mb_Name := mb_Name m;
     mb_Role := mb_Role m; mb_Selectable := mb_Selectable m;
     mb_UIDValidity := mb_UIDValidity m; mb_UIDNext := mb_UIDNext m;
     mb_HighestModSeq := mb_HighestModSeq m; mb_BackfillState := state;
     mb_BackfillUIDLow := match uidLow with
                          | Some l => Some l
                          | None => mb_BackfillUIDLow m
                          end |}.

Definition SetBackfillProgress (id : Z) (state : BackfillState) (uidLow : option Z) : MM unit :=
  update_mailbox id (with_backfill state uidLow).

Definition with_invalidated (m : Mailbox) : Mailbox :=
  {| mb_ID := mb_ID m; mb_AccountID := mb_AccountID m; mb_Name := mb_Name m;
     mb_Role := mb_Role m; mb_Selectable := mb_Selectable m;
     mb_UIDValidity := None; mb_UIDNext := None; mb_HighestModSeq := None;
     mb_BackfillState := BackfillPending; mb_BackfillUIDLow := None |}.

(** The rows of one mailbox, under any UIDVALIDITY. *)
Definition in_mailbox (id : Z) (k : state_key) : Prop := k.1.1 = id.
#[global] Instance in_mailbox_dec id k : Decision (in_mailbox id k).
Proof. unfold in_mailbox. apply _. Defined.

(** One transaction: the messages and their state go, the row starts over. *)
Definition invalidate (id : Z) (d : DB) : DB :=
  let ids := (list_to_set (ms_MessageID <$>
    (map_to_list (filter (fun kv => in_mailbox id kv.1) (message_state d))).*2) : gset Z) in
  {| mailboxes := alter with_invalidated id (mailboxes d);
     messages := filter (fun kv => kv.1 ∉ ids) (messages d);
     message_state := filter (fun kv => ¬ in_mailbox id kv.1) (message_state d);
     thread_ids := thread_ids d; blobs := blobs d; blob_refs := blob_refs d;
     sync_log := sync_log d; next_message_id := next_message_id d |}.

Definition InvalidateMailbox (id : Z) : MM unit :=
  io ;; modify (set_db (invalidate id)).

(** *** messages and message_state *)

(** What PostgreSQL says of the content of a row: [true] when inserting it
    raises a data error (a constraint, a limit). *)
Context (rejects : NewMessage -> bool).

Definition set_messages (f : gmap Z Message -> gmap Z Message) (d : DB) : DB :=
  {| mailboxes := mailboxes d; messages := f (messages d); message_state := message_state d;
     thread_ids := thread_ids d; blobs := blobs d; blob_refs := blob_refs d;
     sync_log := sync_log d; next_message_id := next_message_id d |}.
Definition set_message_state (f : gmap state_key MessageState -> gmap state_key MessageState)
    (d : DB) : DB :=
  {| mailboxes := mailboxes d; messages := messages d; message_state := f (message_state d);
     thread_ids := thread_ids d; blobs := blobs d; blob_refs := blob_refs d;
     sync_log := sync_log d; next_message_id := next_message_id d |}.

(** The first batch: INSERT INTO messages ... RETURNING id, one id per row,
    with the trigger that makes each message its own thread. *)
Definition insert_message_row (nm : NewMessage) (d : DB) : Z * DB :=
  let id := next_message_id d in
  (id, {| mailboxes := mailboxes d; messages := <[id := nm_Message nm]> (messages d);
          message_state := message_state d; thread_ids := <[id := id]> (thread_ids d);
          blobs := blobs d; blob_refs := blob_refs d; sync_log := sync_log d;
          next_message_id := id + 1 |}).

Fixpoint insert_message_rows (msgs : list NewMessage) (d : DB) : list Z * DB :=
  match msgs with
  | [] => ([], d)
  | nm :: msgs =>
      let '(id, d) := insert_message_row nm d in
      let '(ids, d) := insert_message_rows msgs d in
      (id :: ids, d)
  end.

(** The second batch: INSERT INTO message_state ... ON CONFLICT DO NOTHING
    RETURNING message_id; a skipped row turns its id into 0 and the message
    row into an orphan. *)
Definition insert_state_row (t : Time) (nm : NewMessage) (id : Z) (d : DB) : Z * DB :=
  match message_state d !! nm_Key nm with
  | Some _ => (0, d)
  | None =>
      (id, set_message_state <[nm_Key nm :=
             {| ms_MessageID := id; ms_Flags := nm_Flags nm; ms_Keywords := nm_Keywords nm;
                ms_ModSeqSeen := nm_ModSeqSeen nm; ms_DeletedAt := None;
                ms_UpdatedAt := t |}]> d)
  end.

Fixpoint insert_state_rows (t : Time) (msgs : list NewMessage) (ids : list Z) (d : DB)
    : list Z * list Z * DB :=
  match msgs, ids with
  | nm :: msgs, id :: ids =>
      let '(id', d) := insert_state_row t nm id d in
      let '(ids', orphans, d) := insert_state_rows t msgs ids d in
      (id' :: ids', if id' =? 0 then id :: orphans else orphans, d)
  | _, _ => ([], [], d)
  end.

Definition insert_messages (t : Time) (msgs : list NewMessage) (d : DB) : list Z * DB :=
  let '(ids, d) := insert_message_rows msgs d in
  let '(ids', orphans, d) := insert_state_rows t msgs ids d in
  (ids', set_messages (filter (fun kv => kv.1 ∉ orphans)) d).

(** [InsertMessages]: one transaction; a row PostgreSQL refuses aborts it. *)
Definition InsertMessages (msgs : list NewMessage) : MM (list Z) :=
  if decide (msgs = []) then mret []
  else
    io ;;
    if existsb rejects msgs then throw ErrData
    else
      t ← now; d ← the_db;
      let '(ids, d') := insert_messages t msgs d in
      modify (set_db (fun _ => d')) ;; mret ids.

Definition apply_flag_update (t : Time) (u : FlagUpdate) (st : MessageState) : MessageState :=
  if ms_MessageID st =? fu_MessageID u then
    {| ms_MessageID := ms_MessageID st; ms_Flags := fu_Flags u; ms_Keywords := fu_Keywords u;
       ms_ModSeqSeen := fu_ModSeqSeen u; ms_DeletedAt := ms_DeletedAt st; ms_UpdatedAt := t |}
  else st.

(** [UpdateFlags]: one UPDATE ... WHERE message_id = $1 per change. *)
Definition UpdateFlags (updates : list FlagUpdate) : MM unit :=
  if decide (updates = []) then mret tt
  else
    io ;; t ← now;
    modify (set_db (set_message_state (fun m =>
      foldl (fun m u => apply_flag_update t u <$> m) m updates))).

Definition tombstone (t : Time) (st : MessageState) : MessageState :=
  match ms_DeletedAt st with
  | Some _ => st
  | None =>
      {| ms_MessageID := ms_MessageID st; ms_Flags := ms_Flags st;
         ms_Keywords := ms_Keywords st; ms_ModSeqSeen := ms_ModSeqSeen st;
         ms_DeletedAt := Some t; ms_UpdatedAt := t |}
  end.

(** [MarkDeleted]: uid = ANY($3) AND deleted_at IS NULL. *)
Definition mark_deleted (t : Time) (id v : Z) (uids : list Z)
    (m : gmap state_key MessageState) : gmap state_key MessageState :=
  foldl (fun m u => alter (tombstone t) (id, v, u) m) m uids.

Definition MarkDeleted (id uidvalidity : Z) (uids : list Z) : MM unit :=
  if decide (uids = []) then mret tt
  else io ;; t ← now; modify (set_db (set_message_state (mark_deleted t id uidvalidity uids))).

(** [ExistingUIDs]: tombstoned rows still occupy their UID. *)
Definition existing_uids (id v : Z) (uids : list Z) (d : DB) : gset Z :=
  list_to_set (filter (fun u => is_Some (message_state d !! (id, v, u))) uids).

Definition ExistingUIDs (id uidvalidity : Z) (uids : list Z) : MM (gset Z) :=
  if decide (uids = []) then mret ∅
  else io ;; d ← the_db; mret (existing_uids id uidvalidity uids d).

Definition MessageStatesByUID (id uidvalidity : Z) (uids : list Z) : MM (gmap Z MessageState) :=
  if decide (uids = []) then mret ∅
  else
    io ;; d ← the_db;
    mret (list_to_map (omap (fun u => st ← message_state d !! (id, uidvalidity, u); Some (u, st))
                            uids)).

(** SELECT count( * ) ... WHERE mailbox_id = $1 AND deleted_at IS NULL. *)
Definition live_rows (id : Z) (m : gmap state_key MessageState) : gmap state_key MessageState :=
  filter (fun kv => in_mailbox id kv.1 /\ ms_DeletedAt kv.2 = None) m.

Definition CountMailboxMessages (id : Z) : MM Z :=
  io ;; d ← the_db; mret (Z.of_nat (size (live_rows id (message_state d)))).

(** *** blobs *)

Definition set_blobs (f : gset string -> gset string) (d : DB) : DB :=
  {| mailboxes := mailboxes d; messages := messages d; message_state := message_state d;
     thread_ids := thread_ids d; blobs := f (blobs d); blob_refs := blob_refs d;
     sync_log := sync_log d; next_message_id := next_message_id d |}.
Definition set_blob_refs (f : gset (string * Z * Z) -> gset (string * Z * Z)) (d : DB) : DB :=
  {| mailboxes := mailboxes d; messages := messages d; message_state := message_state d;
     thread_ids := thread_ids d; blobs := blobs d; blob_refs := f (blob_refs d);
     sync_log := sync_log d; next_message_id := next_message_id d |}.
Definition set_thread_ids (f : gmap Z Z -> gmap Z Z) (d : DB) : DB :=
  {| mailboxes := mailboxes d; messages := messages d; message_state := message_state d;
     thread_ids := f (thread_ids d); blobs := blobs d; blob_refs := blob_refs d;
     sync_log := sync_log d; next_message_id := next_message_id d |}.

(** *** sync_log *)

Definition set_sync_log (f : gmap (Z * string) SyncCheckpoint -> gmap (Z * string) SyncCheckpoint)
    (d : DB) : DB :=
  {| mailboxes := mailboxes d; messages := messages d; message_state := message_state d;
     thread_ids := thread_ids d; blobs := blobs d; blob_refs := blob_refs d;
     sync_log := f (sync_log d); next_message_id := next_message_id d |}.

(** What [GetCheckpoint] answers when no row exists. *)
Definition zero_checkpoint : SyncCheckpoint :=
  {| Checkpoint := JObj []; StateCounter := 0; LastSuccessAt := None; LastError := None;
     ConsecutiveErrors := 0; cp_BreakerState := BreakerClosed; BreakerUntil := None |}.

Definition GetCheckpoint (accountID : Z) (scope : string) : MM SyncCheckpoint :=
  io ;; d ← the_db; mret (default zero_checkpoint (sync_log d !! (accountID, scope))).

(** INSERT ... ON CONFLICT DO UPDATE on one (account, scope). *)
Definition upsert_log (accountID : Z) (scope : string)
    (ins : SyncCheckpoint) (upd : SyncCheckpoint -> SyncCheckpoint) : MM unit :=
  io ;;
  modify (set_db (set_sync_log (fun m =>
    <[(accountID, scope) := match m !! (accountID, scope) with
                            | Some r => upd r
                            | None => ins
                            end]> m))).

Definition SaveCheckpoint (accountID : Z) (scope : string) (cp : json) : MM unit :=
  t ← now;
  upsert_log accountID scope
    {| Checkpoint := cp; StateCounter := 1; LastSuccessAt := Some t; LastError := None;
       ConsecutiveErrors := 0; cp_BreakerState := BreakerClosed; BreakerUntil := None |}
    (fun r => {| Checkpoint := cp; StateCounter := StateCounter r + 1;
                 LastSuccessAt := Some t; LastError := None; ConsecutiveErrors := 0;
                 cp_BreakerState := BreakerClosed; BreakerUntil := None |}).

(** The new consecutive-error count is the statement's RETURNING. *)
Definition RecordSyncError (accountID : Z) (scope message : string) : MM Z :=
  upsert_log accountID scope
    {| Checkpoint := JObj []; StateCounter := 0; LastSuccessAt := None;
       LastError := Some message; ConsecutiveErrors := 1; cp_BreakerState := BreakerClosed;
       BreakerUntil := None |}
    (fun r => {| Checkpoint := Checkpoint r; StateCounter := StateCounter r;
                 LastSuccessAt := LastSuccessAt r; LastError := Some message;
                 ConsecutiveErrors := ConsecutiveErrors r + 1;
                 cp_BreakerState := cp_BreakerState r; BreakerUntil := BreakerUntil r |}) ;;
  d ← the_db;
  mret (ConsecutiveErrors (default zero_checkpoint (sync_log d !! (accountID, scope)))).

Definition RecordSyncSuccess (accountID : Z) (scope : string) : MM unit :=
  t ← now;
  upsert_log accountID scope
    {| Checkpoint := JObj []; StateCounter := 0; LastSuccessAt := Some t; LastError := None;
       ConsecutiveErrors := 0; cp_BreakerState := BreakerClosed; BreakerUntil := None |}
    (fun r => {| Checkpoint := Checkpoint r; StateCounter := StateCounter r;
                 LastSuccessAt := Some t; LastError := None; ConsecutiveErrors := 0;
                 cp_BreakerState := BreakerClosed; BreakerUntil := None |}).

Definition SetBreakerState (accountID : Z) (scope : string) (state : BreakerState)
    (until : option Time) : MM unit :=
  upsert_log accountID scope
    {| Checkpoint := JObj []; StateCounter := 0; LastSuccessAt := None; LastError := None;
       ConsecutiveErrors := 0; cp_BreakerState := state; BreakerUntil := until |}
    (fun r => {| Checkpoint := Checkpoint r; StateCounter := StateCounter r;
                 LastSuccessAt := LastSuccessAt r; LastError := LastError r;
                 ConsecutiveErrors := ConsecutiveErrors r; cp_BreakerState := state;
                 BreakerUntil := until |}).
End statements.

(** ** Reasoning about statements *)

Section lemmas.
Context {S : Type}.
Implicit Types w : World S.

(** A fault is still to come. *)
Definition faulty (w : World S) : Prop := exists e, Some e ∈ w_faults w.

Definition drop_fault (w : World S) : World S :=
  {| w_db := w_db w; w_srv := w_srv w; w_now := w_now w; w_faults := tail (w_faults w) |}.

Lemma faulty_drop w : faulty (drop_fault w) -> faulty w.
Proof.
  intros [e He]. exists e. simpl in He. destruct (w_faults w); [done|]. by right.
Qed.

Definition transient (e : err) : Prop := e = ErrIO \/ e = ErrDeadlock.

Lemma wp_io (Q : World S -> err + unit -> Prop) w :
  (forall e, faulty w -> transient e -> Q (drop_fault w) (inl e)) -> Q (drop_fault w) (inr tt) -> wp io Q w.
Proof.
  intros He Hok. unfold wp, io. destruct w as [d s t fs]. simpl in *.
  destruct fs as [|[e|] fs]; simpl; [done| |done].
  apply He; [exists e; by left|]. destruct e; [by left|by right].
Qed.

Lemma wp_try {A} (m : M (World S) err A) (Q : World S -> err + (err + A) -> Prop) w :
  wp m (fun w' r => Q w' (inr r)) w -> wp (try m) Q w.
Proof. unfold wp, try. by destruct (m w). Qed.

Lemma wp_now (Q : World S -> err + Time -> Prop) w : Q w (inr (w_now w)) -> wp now Q w.
Proof. done. Qed.
Lemma wp_the_db (Q : World S -> err + DB -> Prop) w : Q w (inr (w_db w)) -> wp the_db Q w.
Proof. done. Qed.

(** The server and the clock are the environment's; faults only run out. *)
Definition same_env (w w' : World S) : Prop :=
  w_srv w' = w_srv w /\ w_now w' = w_now w /\ (faulty w' -> faulty w).

Lemma same_env_refl w : same_env w w.
Proof. by repeat split. Qed.
Lemma same_env_trans w1 w2 w3 : same_env w1 w2 -> same_env w2 w3 -> same_env w1 w3.
Proof. intros (H1 & H2 & H3) (H4 & H5 & H6). repeat split; try congruence. auto. Qed.
Lemma same_env_drop w : same_env w (drop_fault w).
Proof. repeat split. apply faulty_drop. Qed.
Lemma same_env_set_db f w : same_env w (set_db f w).
Proof. by repeat split. Qed.
End lemmas.
#[export] Hint Resolve same_env_refl same_env_drop same_env_set_db faulty_drop : moov.

Ltac wp_step ::=
  match goal with
  | |- wp (mret _) _ _ => apply wp_ret
  | |- wp (throw _) _ _ => apply wp_throw
  | |- wp now _ _ => apply wp_now
  | |- wp the_db _ _ => apply wp_the_db
  | |- wp (try _) _ _ => apply wp_try
  | |- wp (gets _) _ _ => apply wp_gets
  | |- wp get _ _ => apply wp_get
  | |- wp (modify _) _ _ => apply wp_modify
  | |- wp (mbind _ _) _ _ => apply wp_bind
  end.

(** Rows a batch adds: ON CONFLICT DO NOTHING keeps what is there. *)
Definition row_of (t : Time) (nm : NewMessage) (id : Z) : MessageState :=
  {| ms_MessageID := id; ms_Flags := nm_Flags nm; ms_Keywords := nm_Keywords nm;
     ms_ModSeqSeen := nm_ModSeqSeen nm; ms_DeletedAt := None; ms_UpdatedAt := t |}.

(** A message has one state row, and its id came from the sequence. *)
Definition ids_ok (d : DB) : Prop :=
  (forall k st, message_state d !! k = Some st -> ms_MessageID st < next_message_id d) /\
  (forall k k' st st', message_state d !! k = Some st -> message_state d !! k' = Some st' ->
     ms_MessageID st = ms_MessageID st' -> k = k').

(** The tables a batch of message inserts leaves alone, and how it grows the
    two it touches. *)
Record grows (R : state_key -> MessageState -> Prop) (d d' : DB) : Prop := {
  grows_mailboxes : mailboxes d' = mailboxes d;
  grows_log : sync_log d' = sync_log d;
  grows_old k st : message_state d !! k = Some st -> message_state d' !! k = Some st;
  grows_new k st : message_state d' !! k = Some st -> message_state d !! k = Some st \/ R k st;
  grows_ids : ids_ok d -> ids_ok d'
}.

Lemma grows_refl R d : grows R d d.
Proof. split; auto. Qed.
Lemma grows_trans R d1 d2 d3 : grows R d1 d2 -> grows R d2 d3 -> grows R d1 d3.
Proof.
  intros [? ? H1 H2 ?] [? ? H3 H4 ?]. split; try congruence; auto.
  intros k st [?|?]%H4; auto.
Qed.
Lemma grows_mono (R R' : state_key -> MessageState -> Prop) d d' :
  grows R d d' -> (forall k st, R k st -> R' k st) -> grows R' d d'.
Proof. intros [] HR. split; auto. intros k st [?|?]%grows_new0; auto. Qed.
#[export] Hint Resolve grows_refl : moov.

(** The first batch draws consecutive ids and touches no state row. *)
Lemma insert_message_rows_spec R msgs d :
  let r := insert_message_rows msgs d in
  grows R d r.2 /\ length r.1 = length msgs /\ message_state r.2 = message_state d /\
  next_message_id d <= next_message_id r.2 /\
  Forall (fun id => next_message_id d <= id < next_message_id r.2) r.1 /\ NoDup r.1.
Proof.
  revert d. induction msgs as [|nm msgs IH]; intros d; simpl.
  { split; [auto with moov|]. do 2 (split; [done|]). split; [lia|]. split; constructor. }
  set (d1 := mkDB _ _ _ _ _ _ _ _). destruct (IH d1) as (Hg & Hl & Hs & Hn & Hall & Hnd).
  destruct (insert_message_rows msgs d1) as [ids d2]. simpl in *.
  split; [|split; [by rewrite Hl|split; [done|split; [lia|split]]]].
  - eapply grows_trans; [|exact Hg]. split; auto. intros [Hlt Huniq]. split; simpl; [|done].
    intros k st Hk. specialize (Hlt k st Hk). lia.
  - constructor; [lia|]. eapply Forall_impl; [exact Hall|]. simpl. lia.
  - constructor; [|done]. intros Hin. rewrite Forall_forall in Hall. specialize (Hall _ Hin). lia.
Qed.

(** One state row: it keeps the ids sound when its id is new. *)
Lemma insert_state_row_spec t nm id d :
  let r := insert_state_row t nm id d in
  mailboxes r.2 = mailboxes d /\ sync_log r.2 = sync_log d /\
  next_message_id r.2 = next_message_id d /\
  message_state r.2 = match message_state d !! nm_Key nm with
                      | Some _ => message_state d
                      | None => <[nm_Key nm := row_of t nm id]> (message_state d)
                      end.
Proof. unfold insert_state_row. by destruct (message_state d !! nm_Key nm). Qed.

Lemma insert_state_row_ids t nm id d :
  ids_ok d -> id < next_message_id d ->
  (forall k st, message_state d !! k = Some st -> ms_MessageID st <> id) ->
  ids_ok (insert_state_row t nm id d).2.
Proof.
  intros [Hl Hu] Hlt Hfresh. destruct (insert_state_row_spec t nm id d) as (_ & _ & Hn & Hs).
  unfold ids_ok. rewrite Hn, Hs. destruct (message_state d !! nm_Key nm) eqn:E; [done|]. split.
  - intros k st. rewrite lookup_insert_Some. intros [[<- <-]|[_ ?]]; eauto.
  - intros k k' st st'. rewrite !lookup_insert_Some.
    intros [[<- <-]|[_ ?]] [[<- <-]|[_ ?]]; simpl; intros; [done| | |by eapply Hu];
      exfalso; eapply Hfresh; eauto.
Qed.

Lemma insert_state_rows_ids t msgs ids d :
  ids_ok d -> Forall (fun id => id < next_message_id d) ids -> NoDup ids ->
  (forall k st, message_state d !! k = Some st -> ms_MessageID st ∉ ids) ->
  ids_ok (insert_state_rows t msgs ids d).2.
Proof.
  revert ids d. induction msgs as [|nm msgs IH]; intros [|id ids] d Hok Hlt Hnd Hfresh; simpl; try done.
  apply Forall_cons in Hlt as [Hid Hlt]. apply NoDup_cons in Hnd as [Hnin Hnd].
  pose proof (insert_state_row_ids t nm id d Hok Hid ltac:(set_solver)) as Hok1.
  destruct (insert_state_row_spec t nm id d) as (_ & _ & Hn & Hs).
  destruct (insert_state_row t nm id d) as [id' d1]. simpl in *.
  pose proof (IH ids d1) as Hrec.
  destruct (insert_state_rows t msgs ids d1) as [[ids' orphans] d2]. simpl in *.
  apply Hrec; [done|by rewrite Hn|done|]. rewrite Hs. intros k st.
  destruct (message_state d !! nm_Key nm); [set_solver|]. rewrite lookup_insert_Some.
  intros [[<- <-]|[_ ?]]; [done|set_solver].
Qed.

(** Every row of the batch is there afterwards, and nothing else is new. *)
Record adds (R : state_key -> MessageState -> Prop) (d d' : DB) : Prop := {
  adds_mailboxes : mailboxes d' = mailboxes d;
  adds_log : sync_log d' = sync_log d;
  adds_old k st : message_state d !! k = Some st -> message_state d' !! k = Some st;
  adds_new k st : message_state d' !! k = Some st -> message_state d !! k = Some st \/ R k st
}.

Lemma insert_state_rows_adds t msgs ids d :
  length ids = length msgs ->
  let r := insert_state_rows t msgs ids d in
  adds (fun k st => exists nm id, nm ∈ msgs /\ k = nm_Key nm /\ st = row_of t nm id) d r.2 /\
  (forall nm, nm ∈ msgs -> is_Some (message_state r.2 !! nm_Key nm)) /\
  length r.1.1 = length msgs.
Proof.
  revert ids d. induction msgs as [|nm msgs IH]; intros [|id ids] d Hlen; simpl in *; try lia.
  { split; [split; auto|]. split; [|done]. intros nm. set_solver. }
  destruct (insert_state_row_spec t nm id d) as (Hm & Hlog & Hn & Hs).
  destruct (insert_state_row t nm id d) as [id' d1]. simpl in *.
  destruct (IH ids d1) as ([Hm2 Hl2 Ho2 Hn2] & Hall & Hl); [lia|].
  destruct (insert_state_rows t msgs ids d1) as [[ids' orphans] d2]. simpl in *.
  assert (forall k st, message_state d !! k = Some st -> message_state d1 !! k = Some st) as Ho1.
  { intros k st Hk. rewrite Hs. destruct (message_state d !! nm_Key nm) eqn:E; [done|].
    rewrite lookup_insert_ne; [done|congruence]. }
  split; [split; [congruence|congruence|auto|]|split].
  - intros k st [Hk|(nm' & id0 & ? & ? & ?)]%Hn2; cycle 1.
    { right. exists nm', id0. split; [by right|done]. }
    rewrite Hs in Hk. destruct (message_state d !! nm_Key nm); [by left|].
    apply lookup_insert_Some in Hk as [[<- <-]|[_ ?]]; [|by left].
    right. exists nm, id. split; [by left|done].
  - intros nm' [->|Hin]%elem_of_cons; [|auto].
    destruct (message_state d1 !! nm_Key nm) as [st|] eqn:E; [eauto|].
    rewrite Hs in E. destruct (message_state d !! nm_Key nm) eqn:E'; [congruence|].
    by rewrite lookup_insert_eq in E.
  - by rewrite Hl.
Qed.

Lemma insert_messages_grows t msgs d :
  let r := insert_messages t msgs d in
  grows (fun k st => exists nm id, nm ∈ msgs /\ k = nm_Key nm /\ st = row_of t nm id) d r.2 /\
  (forall nm, nm ∈ msgs -> is_Some (message_state r.2 !! nm_Key nm)) /\
  length r.1 = length msgs.
Proof.
  unfold insert_messages.
  destruct (insert_message_rows_spec
    (fun k st => exists nm id, nm ∈ msgs /\ k = nm_Key nm /\ st = row_of t nm id) msgs d)
    as ([Hm1 Hl1 _ _ Hok1] & Hlen & Hs1 & Hnext & Hids & Hnd).
  destruct (insert_message_rows msgs d) as [ids d1]. simpl in *.
  destruct (insert_state_rows_adds t msgs ids d1 Hlen) as ([Hm2 Hl2 Ho2 Hn2] & Hall & Hlen2).
  pose proof (insert_state_rows_ids t msgs ids d1) as Hok2.
  destruct (insert_state_rows t msgs ids d1) as [[ids' orphans] d2]. simpl in *.
  rewrite Hs1 in *. split; [|split; [exact Hall|exact Hlen2]]. split; simpl; try congruence.
  - exact Ho2.
  - exact Hn2.
  - intros Hok. apply Hok2; [by apply Hok1| |done|].
    + eapply Forall_impl; [exact Hids|]. simpl. lia.
    + intros k st Hk Hin. rewrite Forall_forall in Hids. specialize (Hids _ Hin).
      specialize (proj1 Hok _ _ Hk). lia.
Qed.
