(* ===== verification/Imap.v ===== *)
(** What the sync engine relies on from the mail server: the operations of
    imap.Client it calls (src/internal/imap/types.go) as a class, with the
    IMAP guarantees the code depends on as a second class of laws. Dovecot and
    the wire protocol are outside the repository; every theorem that needs a
    law takes the class, and [MemServer] is an instance of both.

    A connection's selected mailbox is the mailbox name passed to a fetch. *)

From S2P Require Import Prelude Store.
#[local] Open Scope Z_scope.

Record MailboxInfo := mkInfo {
  mi_Name : string;
  mi_Role : MailboxRole;
  mi_NoSelect : bool;
  mi_HasStatus : bool;
  mi_NumMessages : Z;
  mi_UIDNext : Z;
  mi_UIDValidity : Z;
  mi_HighestModSeq : Z
}.

Record SelectResult := mkSelect {
  sel_UIDValidity : Z;
  sel_HighestModSeq : Z;
  sel_UIDNext : Z;
  sel_NumMessages : Z;
  sel_VanishedUIDs : list Z
}.

(** One FETCH response. [f_Body] is [None] for a UID that vanished between the
    listing and the fetch. *)
Record Fetched := mkFetched {
  f_UID : Z;
  f_ModSeq : Z;
  f_Flags : list string;
  f_Keywords : list string;
  f_InternalDate : Time;
  f_Body : option string
}.

Class ImapServer (S : Type) := {
  (** SELECT with (QRESYNC (uidvalidity modseq)); [None] is a NO or a BYE. *)
  srv_select : S -> string -> Z -> Z -> option SelectResult;
  (** UID FETCH of a set, as the responses in the order they arrive. *)
  srv_fetch : S -> string -> list Z -> list Fetched;
  (** UID FETCH 1:* (CHANGEDSINCE modseq VANISHED). *)
  srv_changes : S -> string -> Z -> list Fetched * list Z;
  (** LIST ... RETURN (STATUS ...). *)
  srv_list : S -> list MailboxInfo;
  (** STATUS of one mailbox. *)
  srv_status : S -> string -> option MailboxInfo
}.

(** A message as the mailbox holds it. *)
Record SrvMsg := mkSrvMsg {
  sm_ModSeq : Z;
  sm_Flags : list string;
  sm_Keywords : list string;
  sm_InternalDate : Time;
  sm_Body : string
}.

Definition fetched_of (u : Z) (m : SrvMsg) : Fetched :=
  {| f_UID := u; f_ModSeq := sm_ModSeq m; f_Flags := sm_Flags m; f_Keywords := sm_Keywords m;
     f_InternalDate := sm_InternalDate m; f_Body := Some (sm_Body m) |}.

(** The guarantees, stated of the messages [srv_view] says a mailbox holds and of
    its UIDVALIDITY, UIDNEXT and HIGHESTMODSEQ:
    - UIDs are positive, below UIDNEXT, and fit 32 bits (RFC 3501 2.3.1.1);
      modification sequences are bounded by HIGHESTMODSEQ (RFC 7162);
    - SELECT and STATUS report these values, and EXISTS counts the messages;
    - a FETCH answers for exactly the requested UIDs that exist, once each;
    - CHANGEDSINCE answers for exactly the messages above the given MODSEQ, and
      VANISHED never names a UID that exists (RFC 7162 3.2.10). *)
Class ImapLaws (S : Type) `{ImapServer S} := {
  srv_view : S -> string -> gmap Z SrvMsg;
  srv_validity : S -> string -> Z;
  srv_uidnext : S -> string -> Z;
  srv_highest : S -> string -> Z;
  view_bounds s n : 1 <= srv_validity s n <= MaxUint32 /\ 1 <= srv_uidnext s n <= MaxUint32 /\
    (forall u m, srv_view s n !! u = Some m ->
       1 <= u < srv_uidnext s n /\ sm_ModSeq m <= srv_highest s n);
  highest_nonneg s n : 0 <= srv_highest s n;
  view_select s n v since sel : srv_select s n v since = Some sel ->
    sel_UIDValidity sel = srv_validity s n /\ sel_UIDNext sel = srv_uidnext s n /\
    sel_HighestModSeq sel = srv_highest s n /\
    sel_NumMessages sel = Z.of_nat (size (srv_view s n)) /\
    (forall u, u ∈ sel_VanishedUIDs sel -> srv_view s n !! u = None);
  view_fetch s n l f : NoDup l ->
    f ∈ srv_fetch s n l <->
    (exists m, f_UID f ∈ l /\ srv_view s n !! f_UID f = Some m /\ f = fetched_of (f_UID f) m);
  view_fetch_nodup s n l : NoDup l -> NoDup (f_UID <$> srv_fetch s n l);
  view_changes s n since f :
    f ∈ (srv_changes s n since).1 <->
    (exists m, srv_view s n !! f_UID f = Some m /\ since < sm_ModSeq m /\
       f = fetched_of (f_UID f) m);
  view_vanished s n since u : u ∈ (srv_changes s n since).2 -> srv_view s n !! u = None;
  view_status s n i : srv_status s n = Some i -> mi_HasStatus i = true ->
    mi_UIDValidity i = srv_validity s n /\ mi_UIDNext i = srv_uidnext s n /\
    mi_HighestModSeq i = srv_highest s n /\ mi_NumMessages i = Z.of_nat (size (srv_view s n))
}.

(** ** An in-memory server *)

Record MemMailbox := mkMem {
  mem_UIDValidity : Z;
  mem_UIDNext : Z;
  mem_HighestModSeq : Z;
  mem_Role : MailboxRole;
  mem_msgs : gmap Z SrvMsg;
  mem_expunged : list (Z * Z)     (* (uid, modseq of the expunge) *)
}.

Definition mem_wf (m : MemMailbox) : Prop :=
  1 <= mem_UIDNext m <= MaxUint32 /\ 1 <= mem_UIDValidity m <= MaxUint32 /\
  0 <= mem_HighestModSeq m /\
  map_Forall (fun u msg => 1 <= u < mem_UIDNext m /\ sm_ModSeq msg <= mem_HighestModSeq m)
    (mem_msgs m) /\
  Forall (fun e => mem_msgs m !! e.1 = None) (mem_expunged m).

#[global] Instance mem_wf_dec m : Decision (mem_wf m).
Proof. unfold mem_wf. apply _. Defined.

(** A server is a set of well-formed mailboxes. *)
Definition MemServer : Type := gmap string { m : MemMailbox | bool_decide (mem_wf m) }.

Definition mem_lookup (s : MemServer) (n : string) : option MemMailbox := proj1_sig <$> s !! n.

Definition mem_view (s : MemServer) (n : string) : gmap Z SrvMsg :=
  match mem_lookup s n with Some m => mem_msgs m | None => ∅ end.

Definition mem_vanished (m : MemMailbox) (since : Z) : list Z :=
  (filter (fun e => since < e.2) (mem_expunged m)).*1.

Definition mem_info (n : string) (m : MemMailbox) : MailboxInfo :=
  {| mi_Name := n; mi_Role := mem_Role m; mi_NoSelect := false; mi_HasStatus := true;
     mi_NumMessages := Z.of_nat (size (mem_msgs m)); mi_UIDNext := mem_UIDNext m;
     mi_UIDValidity := mem_UIDValidity m; mi_HighestModSeq := mem_HighestModSeq m |}.

#[global] Instance MemServer_ops : ImapServer MemServer := {
  srv_select s n v since :=
    m ← mem_lookup s n;
    Some {| sel_UIDValidity := mem_UIDValidity m; sel_HighestModSeq := mem_HighestModSeq m;
            sel_UIDNext := mem_UIDNext m; sel_NumMessages := Z.of_nat (size (mem_msgs m));
            sel_VanishedUIDs := if (v =? mem_UIDValidity m) && (0 <? since)
                                then mem_vanished m since else [] |};
  srv_fetch s n l :=
    omap (fun u => m ← mem_view s n !! u; Some (fetched_of u m)) l;
  srv_changes s n since :=
    ((fun um => fetched_of um.1 um.2) <$>
       filter (fun um => since < sm_ModSeq um.2) (map_to_list (mem_view s n)),
     match mem_lookup s n with Some m => mem_vanished m since | None => [] end);
  srv_list s := (fun nm => mem_info nm.1 (proj1_sig nm.2)) <$> map_to_list s;
  srv_status s n := mem_info n <$> mem_lookup s n
}.

Lemma mem_lookup_wf s n m : mem_lookup s n = Some m -> mem_wf m.
Proof.
  unfold mem_lookup. intros ([m' Hm'] & _ & ->)%fmap_Some. simpl.
  by apply bool_decide_unpack in Hm'.
Qed.

Definition mem_get {A} (f : MemMailbox -> A) (a : A) (s : MemServer) (n : string) : A :=
  match mem_lookup s n with Some m => f m | None => a end.

Lemma mem_vanished_gone s n m since u :
  mem_lookup s n = Some m -> u ∈ mem_vanished m since -> mem_view s n !! u = None.
Proof.
  intros Hm. destruct (mem_lookup_wf _ _ _ Hm) as (_ & _ & _ & _ & Hexp).
  unfold mem_vanished, mem_view. rewrite Hm. intros ([u' mo] & -> & [_ Hin]%list_elem_of_filter)%list_elem_of_fmap.
  rewrite Forall_forall in Hexp. apply (Hexp _ Hin).
Qed.

#[global] Program Instance MemServer_laws : ImapLaws MemServer := {
  srv_view := mem_view;
  srv_validity := mem_get mem_UIDValidity 1;
  srv_uidnext := mem_get mem_UIDNext 1;
  srv_highest := mem_get mem_HighestModSeq 0
}.
Next Obligation.
  intros s n. unfold mem_get, mem_view. destruct (mem_lookup s n) as [m|] eqn:Hm.
  - destruct (mem_lookup_wf _ _ _ Hm) as (? & ? & _ & Hall & _). auto.
  - unfold MaxUint32. repeat split; try lia. all: by rewrite lookup_empty in *.
Qed.
Next Obligation.
  intros s n. unfold mem_get. destruct (mem_lookup s n) as [m|] eqn:Hm; [|done].
  by destruct (mem_lookup_wf _ _ _ Hm) as (_ & _ & ? & _).
Qed.
Next Obligation.
  intros s n v since sel. simpl. intros (m & Hm & [= <-])%bind_Some. simpl.
  unfold mem_get, mem_view. rewrite Hm. do 4 (split; [done|]).
  intros u. case_match; [|set_solver]. intros Hu. pose proof (mem_vanished_gone s n m since u Hm Hu) as Hv.
  unfold mem_view in Hv. by rewrite Hm in Hv.
Qed.
Next Obligation.
  intros s n l f _. simpl. rewrite list_elem_of_omap. split.
  - intros (u & Hu & (m & Hm & [= <-])%bind_Some). simpl. eauto.
  - intros (m & Hin & Hm & ->). exists (f_UID f). split; [done|]. simpl. by rewrite Hm.
Qed.
Next Obligation.
  intros s n l Hnd. simpl.
  assert (f_UID <$> omap (fun u => m ← mem_view s n !! u; Some (fetched_of u m)) l =
          filter (fun u => is_Some (mem_view s n !! u)) l) as ->; [|by apply NoDup_filter].
  clear Hnd. induction l as [|u l IH]; [done|]. cbn [omap list_omap].
  destruct (mem_view s n !! u) as [m|] eqn:E; simpl.
  - rewrite filter_cons_True by (rewrite E; eauto). f_equal. exact IH.
  - rewrite filter_cons_False by (rewrite E; intros []; done). exact IH.
Qed.
Next Obligation.
  intros s n since f. simpl. rewrite list_elem_of_fmap. split.
  - intros ([u m] & -> & [? Hin]%list_elem_of_filter). simpl.
    apply elem_of_map_to_list in Hin. eauto.
  - intros (m & Hm & ? & ->). exists (f_UID f, m). split; [done|].
    apply list_elem_of_filter. split; [done|]. by apply elem_of_map_to_list.
Qed.
Next Obligation.
  intros s n since u. simpl. destruct (mem_lookup s n) as [m|] eqn:Hm; [|set_solver].
  by apply mem_vanished_gone.
Qed.
Next Obligation.
  intros s n i. simpl. intros (m & Hm & ->)%fmap_Some _. unfold mem_get, mem_view.
  by rewrite Hm.
Qed.
