(* ===== verification/Checkpoint.v ===== *)
(** Resume points of the sync engine (src/internal/sync/checkpoint.go): the
    account's phase and each mailbox's watermark, as the JSON documents kept in
    sync_log, with the loads that discard what they cannot trust. *)

From S2P Require Import Prelude Convert Store.
#[local] Open Scope Z_scope.

Definition checkpointVersion : Z := 1.

(** [Phase] and its constants (src/internal/sync/initial.go). *)
Inductive Phase :=
| PhaseDiscover | PhaseRecent | PhaseBackfill | PhaseComplete | PhaseIncremental
| PhaseOther (s : string).
#[global] Instance Phase_eq_dec : EqDecision Phase.
Proof. solve_decision. Defined.

Definition phase_string (p : Phase) : string :=
  match p with
  | PhaseDiscover => "discover" | PhaseRecent => "recent" | PhaseBackfill => "backfill"
  | PhaseComplete => "complete" | PhaseIncremental => "incremental" | PhaseOther s => s
  end.
Definition phase_of (s : string) : Phase :=
  if decide (s = "discover") then PhaseDiscover
  else if decide (s = "recent") then PhaseRecent
  else if decide (s = "backfill") then PhaseBackfill
  else if decide (s = "complete") then PhaseComplete
  else if decide (s = "incremental") then PhaseIncremental
  else PhaseOther s.

Record accountCheckpoint := mkAccountCheckpoint { ac_Version : Z; ac_Phase : Phase }.

Record mailboxCheckpoint := mkMailboxCheckpoint {
  mc_Version : Z;
  mc_UIDValidity : Z;
  mc_UIDLow : Z;
  mc_RecentDone : bool;
  mc_Complete : bool
}.

(** ** encoding/json on these structs *)

(** The value of a key: the last one wins, an absent one leaves the zero value. *)
Fixpoint json_field (k : string) (fields : list (string * json)) : option json :=
  match fields with
  | [] => None
  | (k', j) :: fields =>
      match json_field k fields with
      | Some j' => Some j'
      | None => if decide (k' = k) then Some j else None
      end
  end.

(** A number into an integer field of the given range; anything else, and a
    number that does not fit, is an UnmarshalTypeError. *)
Definition read_int (lo hi : Z) (k : string) (fields : list (string * json)) : option Z :=
  match json_field k fields with
  | None => Some 0
  | Some (JNum z) => if (lo <=? z) && (z <=? hi) then Some z else None
  | Some _ => None
  end.
Definition read_bool (k : string) (fields : list (string * json)) : option bool :=
  match json_field k fields with
  | None => Some false
  | Some (JBool b) => Some b
  | Some _ => None
  end.
Definition read_str (k : string) (fields : list (string * json)) : option string :=
  match json_field k fields with
  | None => Some EmptyString
  | Some (JStr s) => Some s
  | Some _ => None
  end.

Definition encodeAccountCheckpoint (ac : accountCheckpoint) : json :=
  JObj [("version", JNum (ac_Version ac)); ("phase", JStr (phase_string (ac_Phase ac)))].

Definition decodeAccountCheckpoint (payload : json) : option accountCheckpoint :=
  match payload with
  | JObj fs =>
      v ← read_int MinInt64 MaxInt64 "version" fs;
      p ← read_str "phase" fs;
      if v =? checkpointVersion then Some {| ac_Version := v; ac_Phase := phase_of p |} else None
  | _ => None
  end.

(** [omitempty] drops a false flag. *)
Definition omit_false (k : string) (b : bool) : list (string * json) :=
  if b then [(k, JBool true)] else [].

Definition encodeMailboxCheckpoint (mc : mailboxCheckpoint) : json :=
  JObj ([("version", JNum (mc_Version mc)); ("uidvalidity", JNum (mc_UIDValidity mc));
         ("uid_low", JNum (mc_UIDLow mc))] ++
        omit_false "recent_done" (mc_RecentDone mc) ++ omit_false "complete" (mc_Complete mc)).

Definition decodeMailboxCheckpoint (payload : json) : option mailboxCheckpoint :=
  match payload with
  | JObj fs =>
      v ← read_int MinInt64 MaxInt64 "version" fs;
      uv ← read_int 0 MaxUint32 "uidvalidity" fs;
      low ← read_int 0 MaxUint32 "uid_low" fs;
      rd ← read_bool "recent_done" fs;
      c ← read_bool "complete" fs;
      if v =? checkpointVersion then
        Some {| mc_Version := v; mc_UIDValidity := uv; mc_UIDLow := low; mc_RecentDone := rd;
                mc_Complete := c |}
      else None
  | _ => None
  end.

(** fmt.Sprintf("mailbox:%d", mailboxID). *)
Definition mailboxScope (mailboxID : Z) : string := "mailbox:" +:+ pretty mailboxID.

(** store.AccountScope. *)
Definition AccountScope : string := "account".

Section operations.
Context {S : Type}.
Abbreviation MM := (M (World S) err).

Definition loadAccountPhase (accountID : Z) : MM Phase :=
  cp ← GetCheckpoint accountID AccountScope;
  mret match decodeAccountCheckpoint (Checkpoint cp) with
       | None => PhaseDiscover
       | Some ac => ac_Phase ac
       end.

Definition saveAccountPhase (accountID : Z) (phase : Phase) : MM unit :=
  SaveCheckpoint accountID AccountScope
    (encodeAccountCheckpoint {| ac_Version := checkpointVersion; ac_Phase := phase |}).

Definition freshCheckpoint (uidValidity : Z) : mailboxCheckpoint :=
  {| mc_Version := checkpointVersion; mc_UIDValidity := uidValidity; mc_UIDLow := 0;
     mc_RecentDone := false; mc_Complete := false |}.

Definition loadMailboxCheckpoint (accountID mailboxID uidValidity : Z) : MM mailboxCheckpoint :=
  cp ← GetCheckpoint accountID (mailboxScope mailboxID);
  mret match decodeMailboxCheckpoint (Checkpoint cp) with
       | None => freshCheckpoint uidValidity
       | Some mc => if mc_UIDValidity mc =? uidValidity then mc else freshCheckpoint uidValidity
       end.

Definition saveMailboxCheckpoint (accountID mailboxID : Z) (mc : mailboxCheckpoint) : MM unit :=
  let mc := {| mc_Version := checkpointVersion; mc_UIDValidity := mc_UIDValidity mc;
               mc_UIDLow := mc_UIDLow mc; mc_RecentDone := mc_RecentDone mc;
               mc_Complete := mc_Complete mc |} in
  SaveCheckpoint accountID (mailboxScope mailboxID) (encodeMailboxCheckpoint mc).
End operations.

(** ** Lemmas *)

(** A checkpoint value the code can hold. *)
Definition mc_ok (mc : mailboxCheckpoint) : Prop :=
  mc_Version mc = checkpointVersion /\ is_uint32 (mc_UIDValidity mc) /\ is_uint32 (mc_UIDLow mc).

Lemma read_int_range lo hi k fs z : lo <= 0 <= hi -> read_int lo hi k fs = Some z -> lo <= z <= hi.
Proof.
  unfold read_int. intros ?. destruct (json_field k fs) as [[]|]; try done; [|naive_solver].
  intros. case_match; bool_cases; naive_solver.
Qed.

Lemma decode_mc_ok j mc : decodeMailboxCheckpoint j = Some mc -> mc_ok mc.
Proof.
  destruct j; simpl; try done. intros H.
  repeat (apply bind_Some in H as (? & ? & H)).
  case_match; [|done]. bool_cases. injection H as <-.
  repeat match goal with H : read_int _ _ _ _ = Some _ |- _ =>
    apply read_int_range in H; [|unfold MinInt64, MaxInt64, MaxUint32; lia] end.
  done.
Qed.

Lemma in_bounds lo hi z : lo <= z <= hi -> (lo <=? z) && (z <=? hi) = true.
Proof. intros [?%Z.leb_le ?%Z.leb_le]. by apply andb_true_intro. Qed.

Lemma mailbox_roundtrip mc :
  mc_ok mc -> decodeMailboxCheckpoint (encodeMailboxCheckpoint mc) = Some mc.
Proof.
  destruct mc as [v uv low rd c]. unfold mc_ok, is_uint32.
  cbn [mc_Version mc_UIDValidity mc_UIDLow]. intros (-> & Huv & Hlow).
  assert (forall b1 b2, decodeMailboxCheckpoint (encodeMailboxCheckpoint
    {| mc_Version := 1; mc_UIDValidity := uv; mc_UIDLow := low; mc_RecentDone := b1;
       mc_Complete := b2 |}) =
    (a ← (if (0 <=? uv) && (uv <=? MaxUint32) then Some uv else None);
     b ← (if (0 <=? low) && (low <=? MaxUint32) then Some low else None);
     Some {| mc_Version := 1; mc_UIDValidity := a; mc_UIDLow := b; mc_RecentDone := b1;
             mc_Complete := b2 |})) as Heq by (intros [] []; reflexivity).
  unfold checkpointVersion. by rewrite Heq, !in_bounds.
Qed.

Lemma mailboxScope_inj : Inj (=) (=) mailboxScope.
Proof. intros i j H. unfold mailboxScope in H. by apply (inj _), (inj _) in H. Qed.

Lemma mailboxScope_account i : mailboxScope i <> AccountScope.
Proof. by intros [=]. Qed.

(** The mailbox checkpoint a run would load. *)
Definition ckpt (d : DB) (accountID mailboxID : Z) : option mailboxCheckpoint :=
  decodeMailboxCheckpoint
    (Checkpoint (default zero_checkpoint (sync_log d !! (accountID, mailboxScope mailboxID)))).

(** checkpoint encoding round-trips. Every checkpoint the engine can hold
    (version 1, 32-bit fields) is read back as written, flags omitted by
    omitempty included; the same holds of the account's phase; and two mailboxes
    never share a scope, nor does a mailbox share the account's. *)
Theorem checkpoint_roundtrip :
  (forall mc, mc_ok mc -> decodeMailboxCheckpoint (encodeMailboxCheckpoint mc) = Some mc) /\
  (forall p, (forall s, p <> PhaseOther s) ->
     decodeAccountCheckpoint
       (encodeAccountCheckpoint {| ac_Version := checkpointVersion; ac_Phase := p |}) =
     Some {| ac_Version := checkpointVersion; ac_Phase := p |}) /\
  (forall i j, mailboxScope i = mailboxScope j -> i = j) /\
  (forall i, mailboxScope i <> AccountScope).
Proof.
  split; [exact mailbox_roundtrip|]. split; [|split].
  - intros p Hp. destruct p; [reflexivity..|]. by destruct (Hp s).
  - apply mailboxScope_inj.
  - apply mailboxScope_account.
Qed.

Lemma checkpoint_roundtrip_witness :
  decodeMailboxCheckpoint (encodeMailboxCheckpoint
    {| mc_Version := 1; mc_UIDValidity := 7; mc_UIDLow := 4294967295; mc_RecentDone := true;
       mc_Complete := false |}) =
  Some {| mc_Version := 1; mc_UIDValidity := 7; mc_UIDLow := 4294967295; mc_RecentDone := true;
          mc_Complete := false |}.
Proof.
  apply (proj1 checkpoint_roundtrip). unfold mc_ok, is_uint32, MaxUint32. simpl.
  split; [reflexivity|lia].
Defined.
