(* ===== verification/Discover.v ===== *)
(** Discovery (src/internal/sync/discover.go): LIST, one upsert per folder, and
    the order the later phases visit the selectable ones in. *)

From S2P Require Import Prelude Utf8 Store Imap.
#[local] Open Scope Z_scope.

(** A stored row with what the server just said about the folder. *)
Record syncMailbox := mkSyncMailbox { sb_row : Mailbox; sb_info : MailboxInfo }.

Definition fold_ascii (a : Ascii.ascii) : Z :=
  let b := byte_of a in if (65 <=? b) && (b <=? 90) then b + 32 else b.

Fixpoint fold_eq (a b : string) : bool :=
  match a, b with
  | EmptyString, EmptyString => true
  | String x a, String y b => (fold_ascii x =? fold_ascii y) && fold_eq a b
  | _, _ => false
  end.
Definition equalFoldASCII (a b : string) : bool :=
  if negb (String.length a =? String.length b)%nat then false else fold_eq a b.

Definition isInbox (m : syncMailbox) : bool :=
  bool_decide (mb_Role (sb_row m) = RoleInbox) || equalFoldASCII (mi_Name (sb_info m)) "INBOX".

(** The IMAP package's roles and the store's are one vocabulary. *)
Definition storeRole (r : MailboxRole) : MailboxRole :=
  match r with
  | RoleInbox => RoleInbox | RoleArchive => RoleArchive | RoleDrafts => RoleDrafts
  | RoleSent => RoleSent | RoleJunk => RoleJunk | RoleTrash => RoleTrash | RoleAll => RoleAll
  | RoleFlagged => RoleFlagged | RoleNone => RoleNone
  end.

(** The visiting order: INBOX first, then by name. *)
Definition box_lt (a b : syncMailbox) : bool :=
  if bool_decide (isInbox a <> isInbox b) then isInbox a
  else bool_decide (~ String.le (mi_Name (sb_info b)) (mi_Name (sb_info a))).
Definition box_le (a b : syncMailbox) : Prop := box_lt b a = false.
#[global] Instance box_le_dec a b : Decision (box_le a b).
Proof. unfold box_le. apply _. Defined.

Section discover.
Context {S : Type} `{ImapServer S}.
Abbreviation MM := (M (World S) err).

(** [mailboxRow] followed by the upsert. *)
Definition upsert_info (accountID : Z) (info : MailboxInfo) : MM Mailbox :=
  UpsertMailbox accountID (mi_Name info) (storeRole (mi_Role info)) (negb (mi_NoSelect info)).

Fixpoint upsert_infos (accountID : Z) (infos : list MailboxInfo) : MM (list syncMailbox) :=
  match infos with
  | [] => mret []
  | info :: infos =>
      row ← upsert_info accountID info;
      out ← upsert_infos accountID infos;
      mret (if mi_NoSelect info then out
            else {| sb_row := row; sb_info := info |} :: out)
  end.

Definition discover (accountID : Z) : MM (list syncMailbox) :=
  io ;; w ← get;
  out ← upsert_infos accountID (srv_list (w_srv w));
  mret (merge_sort box_le out).
End discover.

(** ** The mailboxes table *)

(** Rows are indexed by their id, and a folder has one row. *)
Definition mailboxes_wf (d : DB) : Prop :=
  (forall i m, mailboxes d !! i = Some m -> mb_ID m = i) /\
  (forall i j m m', mailboxes d !! i = Some m -> mailboxes d !! j = Some m' ->
     mb_AccountID m = mb_AccountID m' -> mb_Name m = mb_Name m' -> i = j).

(** The columns an upsert leaves alone. *)
Definition same_sync (m m' : Mailbox) : Prop :=
  mb_ID m' = mb_ID m /\ mb_AccountID m' = mb_AccountID m /\ mb_Name m' = mb_Name m /\
  mb_UIDValidity m' = mb_UIDValidity m /\ mb_UIDNext m' = mb_UIDNext m /\
  mb_HighestModSeq m' = mb_HighestModSeq m /\ mb_BackfillState m' = mb_BackfillState m /\
  mb_BackfillUIDLow m' = mb_BackfillUIDLow m.

Lemma same_sync_refl m : same_sync m m.
Proof. done. Qed.
Lemma same_sync_trans m1 m2 m3 : same_sync m1 m2 -> same_sync m2 m3 -> same_sync m1 m3.
Proof. unfold same_sync. intuition congruence. Qed.
#[export] Hint Resolve same_sync_refl : moov.

(** What discovery does to the tables: rows appear and their descriptive columns
    change; no sync state, message or checkpoint does. *)
Record discovers (d d' : DB) : Prop := {
  disc_wf : mailboxes_wf d';
  disc_msgs : message_state d' = message_state d;
  disc_log : sync_log d' = sync_log d;
  disc_old i m : mailboxes d !! i = Some m ->
    exists m', mailboxes d' !! i = Some m' /\ same_sync m m';
  disc_new i m : mailboxes d' !! i = Some m -> mailboxes d !! i = None -> mb_UIDValidity m = None
}.

Lemma discovers_refl d : mailboxes_wf d -> discovers d d.
Proof. intros ?. split; try done; eauto with moov. congruence. Qed.

Lemma discovers_trans d1 d2 d3 : discovers d1 d2 -> discovers d2 d3 -> discovers d1 d3.
Proof.
  intros [? ? ? Ho1 Hn1] [? ? ? Ho2 Hn2]. split; [done|congruence|congruence| |].
  - intros i m (m' & Hm' & Hs)%Ho1. destruct (Ho2 _ _ Hm') as (m'' & ? & ?).
    exists m''. split; [done|]. by eapply same_sync_trans.
  - intros i m Hm Hnone. destruct (mailboxes d2 !! i) as [m'|] eqn:E.
    + destruct (Ho2 _ _ E) as (m'' & Hm'' & Hs). assert (m'' = m) by congruence. subst.
      destruct Hs as (_ & _ & _ & -> & _). eauto.
    + eauto.
Qed.

Lemma foldr_max_le (x : Z) l : x ∈ l -> x <= foldr Z.max 0 l.
Proof. induction l as [|y l IH]; simpl; intros; [set_solver|]. decompose_list_elem_of; [lia|]. pose proof (IH ltac:(done)). lia. Qed.

Lemma fresh_mailbox_id_fresh d : mailboxes d !! fresh_mailbox_id d = None.
Proof.
  destruct (mailboxes d !! fresh_mailbox_id d) as [m|] eqn:E; [|done]. exfalso.
  apply elem_of_map_to_list in E. pose proof (list_elem_of_fmap_2 fst _ _ E) as Hin.
  apply foldr_max_le in Hin. simpl in Hin. unfold fresh_mailbox_id in Hin. lia.
Qed.

Section specs.
Context {S : Type} `{ImapServer S}.
Implicit Types w : World S.

(** The row an upsert writes is the folder's: the old one or a new id. *)
Lemma upsert_row_cases accountID name role sel d :
  mailboxes_wf d ->
  let m := upsert_row accountID name role sel d in
  mb_AccountID m = accountID /\ mb_Name m = name /\ mb_Role m = role /\
  ((exists m0, mailboxes d !! mb_ID m = Some m0 /\ same_sync m0 m) \/
   (mailboxes d !! mb_ID m = None /\ mb_UIDValidity m = None /\
    forall i m', mailboxes d !! i = Some m' -> mb_AccountID m' = accountID ->
      mb_Name m' <> name)).
Proof.
  intros [Hid _]. unfold upsert_row.
  destruct (List.find _ _) as [m0|] eqn:E; simpl.
  - apply List.find_some in E as [Hin Hs]. apply list_elem_of_In, list_elem_of_fmap in Hin.
    destruct Hin as ([i m1] & -> & Hin%elem_of_map_to_list). simpl in *.
    unfold same_folder in Hs. apply bool_decide_eq_true in Hs as [<- <-].
    split; [done|]. split; [done|]. split; [done|]. left. exists m1.
    rewrite (Hid _ _ Hin). split; [done|]. repeat split; by rewrite (Hid _ _ Hin).
  - split; [done|]. split; [done|]. split; [done|]. right.
    split; [apply fresh_mailbox_id_fresh|]. split; [done|]. intros i m' Hm' Ha Hn.
    apply (List.find_none _ _) with (x := m') in E.
    + unfold same_folder in E. apply bool_decide_eq_false in E. naive_solver.
    + apply list_elem_of_In, list_elem_of_fmap. exists (i, m'). split; [done|].
      by apply elem_of_map_to_list.
Qed.

Lemma upsert_discovers accountID name role sel d :
  mailboxes_wf d ->
  let m := upsert_row accountID name role sel d in
  discovers d (set_mailboxes <[mb_ID m := m]> d).
Proof.
  intros Hwf. cbv zeta. destruct (upsert_row_cases accountID name role sel d Hwf)
    as (Ha & Hn & _ & Hcase). set (m := upsert_row _ _ _ _ _) in *.
  destruct Hwf as [Hid Huniq].
  assert (forall i m', mailboxes d !! i = Some m' -> mb_AccountID m' = accountID ->
    mb_Name m' = name -> i = mb_ID m) as Hsame.
  { intros i m' Hm' Ha' Hn'. destruct Hcase as [(m0 & Hm0 & Hs)|(_ & _ & Hno)].
    - destruct Hs as (_ & Has & Hns & _). eapply Huniq; [done|exact Hm0|congruence|congruence].
    - by destruct (Hno i m' Hm' Ha'). }
  split; simpl; try done.
  - split; simpl.
    + intros i m'. rewrite lookup_insert_Some. intros [[<- <-]|[_ ?]]; auto.
    + intros i j m1 m2. rewrite !lookup_insert_Some.
      intros [[<- <-]|[? Hi]] [[<- <-]|[? Hj]] Hacc Hname; [done| | |eauto].
      * symmetry. eapply Hsame; [exact Hj|congruence|congruence].
      * eapply Hsame; [exact Hi|congruence|congruence].
  - intros i m' Hm'. destruct (decide (i = mb_ID m)) as [->|Hne].
    + exists m. split; [apply lookup_insert_eq|]. destruct Hcase as [(m0 & Hm0 & Hs)|(Hno & _)];
        congruence.
    + exists m'. rewrite lookup_insert_ne by done. auto with moov.
  - intros i m'. rewrite lookup_insert_Some. intros [[<- <-]|[_ ?]] Hnone; [|congruence].
    destruct Hcase as [(m0 & Hm0 & _)|(_ & Hv & _)]; [congruence|done].
Qed.

(** A box whose row is the table's. *)
Definition box_in (accountID : Z) (d : DB) (b : syncMailbox) : Prop :=
  mailboxes d !! mb_ID (sb_row b) = Some (sb_row b) /\
  mb_AccountID (sb_row b) = accountID /\ mb_Name (sb_row b) = mi_Name (sb_info b).

(** An upsert leaves every other folder's row alone. *)
Lemma upsert_other accountID name role sel d i m :
  mailboxes_wf d -> mailboxes d !! i = Some m -> mb_AccountID m = accountID ->
  mb_Name m <> name ->
  mailboxes (set_mailboxes <[mb_ID (upsert_row accountID name role sel d) :=
    upsert_row accountID name role sel d]> d) !! i = Some m.
Proof.
  intros Hwf Hm Ha Hn. simpl.
  destruct (upsert_row_cases accountID name role sel d Hwf) as (_ & Hn' & _ & Hcase).
  rewrite lookup_insert_ne; [done|]. intros <-.
  destruct Hcase as [(m0 & Hm0 & Hs)|(Hnone & _)]; [|congruence].
  assert (m0 = m) by congruence. subst m0. destruct Hs as (_ & _ & Hs & _). congruence.
Qed.

Lemma upsert_infos_spec accountID infos w :
  mailboxes_wf (w_db w) -> NoDup (mi_Name <$> infos) ->
  wp (upsert_infos accountID infos)
    (fun w' r => same_env w w' /\ discovers (w_db w) (w_db w') /\
       (forall i m, mailboxes (w_db w) !! i = Some m -> mb_AccountID m = accountID ->
          mb_Name m ∉ mi_Name <$> infos -> mailboxes (w_db w') !! i = Some m) /\
       match r with
       | inl e => faulty w \/ e = ErrUnique
       | inr out => Forall (box_in accountID (w_db w')) out /\
                    sb_info <$> out = filter (fun i => mi_NoSelect i = false) infos
       end) w.
Proof.
  revert w. induction infos as [|info infos IH]; intros w Hwf Hnd; cbn [upsert_infos].
  { wp_steps. split; [auto with moov|]. split; [by apply discovers_refl|]. by split. }
  rewrite fmap_cons in Hnd. apply NoDup_cons in Hnd as [Hnotin Hnd].
  unfold upsert_info, UpsertMailbox. wp_steps. apply wp_io.
  { intros e Hf _. split; [auto with moov|]. split; [by apply discovers_refl|]. auto. }
  wp_steps. simpl w_db. destruct (role_taken _ _ _ _); wp_steps.
  { split; [auto with moov|]. split; [by apply discovers_refl|]. auto. }
  set (m := upsert_row _ _ _ _ _).
  pose proof (upsert_discovers accountID (mi_Name info) (storeRole (mi_Role info))
    (negb (mi_NoSelect info)) (w_db w) Hwf) as Hd. fold m in Hd. cbv zeta in Hd.
  pose proof (fun i m' => upsert_other accountID (mi_Name info) (storeRole (mi_Role info))
    (negb (mi_NoSelect info)) (w_db w) i m' Hwf) as Ho. fold m in Ho.
  destruct (upsert_row_cases accountID (mi_Name info) (storeRole (mi_Role info))
    (negb (mi_NoSelect info)) (w_db w) Hwf) as (Hma & Hmn & _). fold m in Hma, Hmn.
  set (w1 := set_db _ (drop_fault w)).
  assert (same_env w w1) as Henv1.
  { eapply same_env_trans; [apply same_env_drop|apply same_env_set_db]. }
  eapply wp_mono; [apply (IH w1); [apply Hd|done]|].
  intros w2 r (Henv & Hd2 & Hold & Hr).
  assert (same_env w w2) by (by eapply same_env_trans).
  assert (discovers (w_db w) (w_db w2)) by (by eapply discovers_trans).
  assert (mailboxes (w_db w2) !! mb_ID m = Some m) as Hm.
  { apply Hold; [apply lookup_insert_eq|done|congruence]. }
  assert (forall i m', mailboxes (w_db w) !! i = Some m' -> mb_AccountID m' = accountID ->
    mb_Name m' ∉ mi_Name <$> info :: infos -> mailboxes (w_db w2) !! i = Some m').
  { intros i m' Hm' Ha Hn. rewrite fmap_cons, not_elem_of_cons in Hn. destruct Hn.
    apply Hold; [by apply Ho|done|done]. }
  destruct r as [e|out]; wp_steps; (split; [done|]); (split; [done|]); (split; [done|]).
  - destruct Hr as [?|?]; [left; by apply Henv1|by right].
  - destruct Hr as [Hall Hinfo]. destruct (mi_NoSelect info) eqn:E.
    + split; [done|]. by rewrite filter_cons_False by congruence.
    + rewrite filter_cons_True by done. split; [|cbn; by f_equal].
      constructor; [|done]. done.
Qed.
End specs.

(** ** The visiting order *)

Lemma box_le_iff a b :
  box_le a b <->
  (isInbox a = true /\ isInbox b = false) \/
  (isInbox a = isInbox b /\ String.le (mi_Name (sb_info a)) (mi_Name (sb_info b))).
Proof.
  unfold box_le, box_lt. case_bool_decide as Hne.
  - destruct (isInbox a), (isInbox b); naive_solver.
  - rewrite bool_decide_eq_false. split.
    + intros Hle%dec_stable. right. split; [|done]. apply dec_stable. congruence.
    + intros [[Ha Hb]|[_ Hle]]; [congruence|tauto].
Qed.

#[global] Instance box_le_trans : Transitive box_le.
Proof.
  intros a b c. rewrite !box_le_iff. intros [[? ?]|[? ?]] [[? ?]|[? ?]]; try (left; split; congruence).
  right. split; [congruence|]. by etrans.
Qed.
#[global] Instance box_le_total : Total box_le.
Proof.
  intros a b. rewrite !box_le_iff.
  destruct (isInbox a), (isInbox b), (total String.le (mi_Name (sb_info a)) (mi_Name (sb_info b)));
    intuition.
Qed.

Lemma discover_spec {S} `{ImapServer S} (w : World S) (accountID : Z) :
  mailboxes_wf (w_db w) -> NoDup (mi_Name <$> srv_list (w_srv w)) ->
  wp (discover accountID)
    (fun w' r => same_env w w' /\ discovers (w_db w) (w_db w') /\
       match r with
       | inl e => faulty w \/ e = ErrUnique
       | inr boxes =>
           sb_info <$> boxes ≡ₚ filter (fun i => mi_NoSelect i = false) (srv_list (w_srv w)) /\
           Forall (box_in accountID (w_db w')) boxes /\
           StronglySorted (fun a b => isInbox b = true -> isInbox a = true) boxes /\
           StronglySorted (fun a b => isInbox a = isInbox b ->
             String.le (mi_Name (sb_info a)) (mi_Name (sb_info b))) boxes
       end) w.
Proof.
  intros Hwf Hnd. unfold discover. wp_steps. apply wp_io.
  { intros e Hf _. split; [auto with moov|]. split; [by apply discovers_refl|]. auto. }
  wp_steps. eapply wp_mono; [apply upsert_infos_spec; done|].
  intros w' r (Henv & Hd & _ & Hr).
  assert (same_env w w') by (eapply same_env_trans; [apply same_env_drop|done]).
  destruct r as [e|out]; wp_steps; (split; [done|]); (split; [done|]).
  { destruct Hr as [?|?]; [left; by apply faulty_drop|by right]. }
  destruct Hr as [Hall Hinfo]. pose proof (merge_sort_Permutation box_le out) as Hp.
  split; [by rewrite Hp, Hinfo|]. split; [by rewrite Hp|].
  pose proof (StronglySorted_merge_sort box_le out) as Hs.
  split; (eapply StronglySorted_impl; [|exact Hs]); intros a b; rewrite box_le_iff;
    intros [[? ?]|[? ?]]; congruence.
Qed.

(** Discovery is complete and loses nothing. Whatever fails, no folder's
    resume point, message or checkpoint changes and the table keeps one row per
    folder; on success every selectable folder the server lists is returned once,
    with the row the table now holds for it, INBOX before every other folder and
    the rest by name. It fails only because a statement failed or a SPECIAL-USE
    role is still held by another row. *)
Theorem discover_complete {S} `{ImapServer S} (w : World S) (accountID : Z) :
  mailboxes_wf (w_db w) -> NoDup (mi_Name <$> srv_list (w_srv w)) ->
  wp (discover accountID)
    (fun w' r => same_env w w' /\ discovers (w_db w) (w_db w') /\
       match r with
       | inl e => faulty w \/ e = ErrUnique
       | inr boxes =>
           sb_info <$> boxes ≡ₚ filter (fun i => mi_NoSelect i = false) (srv_list (w_srv w)) /\
           Forall (box_in accountID (w_db w')) boxes /\
           StronglySorted (fun a b => isInbox b = true -> isInbox a = true) boxes /\
           StronglySorted (fun a b => isInbox a = isInbox b ->
             String.le (mi_Name (sb_info a)) (mi_Name (sb_info b))) boxes
       end) w.
Proof. apply discover_spec. Qed.

(** A role that moved is fatal. When the first folder the server lists
    carries a SPECIAL-USE role that the table still records for another folder
    of the account (the folder was renamed, or the role reassigned, by another
    client), discovery fails without any fault and changes nothing, so every
    later run fails the same way. *)
Theorem discover_role_conflict {S} `{ImapServer S} (w : World S) (accountID : Z)
    (info : MailboxInfo) (infos : list MailboxInfo) :
  w_faults w = [] -> srv_list (w_srv w) = info :: infos ->
  role_taken accountID (mi_Name info) (storeRole (mi_Role info)) (w_db w) = true ->
  discover accountID w = (w, inl ErrUnique).
Proof.
  intros Hf Hl Hr. destruct w as [d srv t fs]. simpl in *. subst fs.
  unfold discover, mbind, M_bind, io, get. cbn [w_faults w_srv]. rewrite Hl.
  unfold upsert_infos, upsert_info, UpsertMailbox, mbind, M_bind, io, the_db, gets.
  cbn [w_faults w_db]. by rewrite Hr.
Qed.

(** The stale row of a renamed folder, and the server that lists the new name. *)
Definition renamed_trash : World MemServer :=
  let old := {| mb_ID := 1; mb_AccountID := 1; mb_Name := "Trash"; mb_Role := RoleTrash;
                mb_Selectable := true; mb_UIDValidity := Some 7; mb_UIDNext := Some 1;
                mb_HighestModSeq := Some 1; mb_BackfillState := BackfillComplete;
                mb_BackfillUIDLow := Some 1 |} in
  let box := {| mem_UIDValidity := 8; mem_UIDNext := 1; mem_HighestModSeq := 1;
                mem_Role := RoleTrash; mem_msgs := ∅; mem_expunged := [] |} in
  {| w_db := {| mailboxes := {[1 := old]}; messages := ∅; message_state := ∅; thread_ids := ∅;
                blobs := ∅; blob_refs := ∅; sync_log := ∅; next_message_id := 1 |};
     w_srv := {["Bin" := box ↾ I]}; w_now := 1000; w_faults := [] |}.

Definition bin_info : MailboxInfo :=
  {| mi_Name := "Bin"; mi_Role := RoleTrash; mi_NoSelect := false; mi_HasStatus := true;
     mi_NumMessages := 0; mi_UIDNext := 1; mi_UIDValidity := 8; mi_HighestModSeq := 1 |}.

Lemma discover_role_conflict_witness :
  discover 1 renamed_trash = (renamed_trash, inl ErrUnique).
Proof. apply (discover_role_conflict _ _ bin_info []); vm_compute; reflexivity. Defined.

Lemma discover_complete_witness :
  exists w', discover 2 renamed_trash = (w', inr [
    {| sb_row := upsert_row 2 "Bin" RoleTrash true (w_db renamed_trash);
       sb_info := bin_info |}]) /\
    discovers (w_db renamed_trash) (w_db w').
Proof.
  pose proof (discover_complete renamed_trash 2) as H.
  destruct (discover 2 renamed_trash) as [w' r] eqn:E. exists w'. split.
  - f_equal. change r with (snd (w', r)). rewrite <- E. vm_compute. reflexivity.
  - eapply (wp_elim _ _ _ _ _ (H _ _) E).
    Unshelve.
    + unfold renamed_trash, mailboxes_wf. cbn [w_db mailboxes]. split.
      * intros i m [<- <-]%lookup_singleton_Some. done.
      * intros i j m m' [<- _]%lookup_singleton_Some [<- _]%lookup_singleton_Some. done.
    + assert (mi_Name <$> srv_list (w_srv renamed_trash) = ["Bin"]) as ->
        by (vm_compute; reflexivity).
      apply NoDup_singleton.
Defined.
