(* ===== verification/Pipeline.v ===== *)
(** The fetch-parse-write pipeline of the sync engine
    (src/internal/sync/pipeline.go, and newMessage of message.go).

    The three stages run concurrently between bounded queues. Parsing is a pool,
    so the order in which messages reach the writer is the scheduler's: [sched].
    The MIME cascade ([derive], parser.Parse followed by newMessage's mapping of
    its output), the content hash, PostgreSQL's verdict on a row ([rejects]) and
    the conversation grouping ([assign], store.AssignThreads) are parameters. *)

From S2P Require Import Prelude Convert Utf8 Store Imap.
#[local] Open Scope Z_scope.

Record phaseStats := mkStats { stored : Z; skipped : Z; failed : Z }.

Definition stats_zero : phaseStats := {| stored := 0; skipped := 0; failed := 0 |}.

(** [phaseStats.add]. *)
Definition stats_add (a b : phaseStats) : phaseStats :=
  {| stored := stored a + stored b; skipped := skipped a + skipped b;
     failed := failed a + failed b |}.

(** A message after the fetch stage. *)
Record rawMessage := mkRaw {
  raw_uid : Z;
  raw_modSeq : Z;
  raw_flags : Z;
  raw_keywords : list string;
  raw_bytes : string
}.

(** A message after the parse stage: its bytes are durable under [pm_hash]. *)
Record parsedMessage := mkParsed {
  pm_raw : rawMessage;
  pm_hash : string;
  pm_parsed : Message
}.

(** The six system flags (src/internal/store/types.go). *)
Definition FlagSeen : Z := 1.
Definition FlagAnswered : Z := 2.
Definition FlagFlagged : Z := 4.
Definition FlagDeleted : Z := 8.
Definition FlagDraft : Z := 16.
Definition FlagRecent : Z := 32.

(** strings.ToLower on the ASCII letters. *)
Definition lower_ascii (a : Ascii.ascii) : Ascii.ascii :=
  let b := byte_of a in
  if in_range 65 90 b then Ascii.ascii_of_N (Z.to_N (b + 32)) else a.
Fixpoint to_lower (s : string) : string :=
  match s with
  | EmptyString => EmptyString
  | String a s' => String (lower_ascii a) (to_lower s')
  end.

(** strings.TrimPrefix(f, "\"). *)
Definition trim_backslash (s : string) : string :=
  match s with
  | String a s' => if byte_of a =? 92 then s' else s
  | EmptyString => s
  end.

Definition flag_bit (f : string) : Z :=
  let n := to_lower (trim_backslash f) in
  if bool_decide (n = "seen") then FlagSeen
  else if bool_decide (n = "answered") then FlagAnswered
  else if bool_decide (n = "flagged") then FlagFlagged
  else if bool_decide (n = "deleted") then FlagDeleted
  else if bool_decide (n = "draft") then FlagDraft
  else if bool_decide (n = "recent") then FlagRecent
  else 0.

Definition storeFlags (flags : list string) : Z :=
  foldl (fun out f => Z.lor out (flag_bit f)) 0 flags.

(** The errors the degraded path treats as the row's own fault. *)
Definition isDataError (e : err) : bool := bool_decide (e = ErrData).
Definition isDeadlock (e : err) : bool := bool_decide (e = ErrDeadlock).

Definition blobRefRetries : nat := 3.

Definition dquote : string := String (Ascii.ascii_of_N 34) EmptyString.
Definition store_rejected : string :=
  "[{" +:+ dquote +:+ "kind" +:+ dquote +:+ ":" +:+ dquote +:+ "store-rejected" +:+ dquote +:+ "}]".

(** What the store certainly accepts: the identity without the derivation. *)
Definition quarantineRow (row : NewMessage) : NewMessage :=
  {| nm_Message :=
       {| RawSHA256 := RawSHA256 (nm_Message row); MessageID := MessageID (nm_Message row);
          InReplyTo := ""; ReferencesIDs := []; Subject := ""; FromAddr := ""; ToAddrs := "";
          CcAddrs := ""; Addresses := ""; MIMEStructure := ""; Preview := ""; BodyText := "";
          MParseStatus := ParseFailed; Defects := store_rejected |};
     nm_Key := nm_Key row; nm_Flags := nm_Flags row; nm_Keywords := nm_Keywords row;
     nm_ModSeqSeen := nm_ModSeqSeen row |}.

Definition countInserted (ids : list Z) : Z :=
  Z.of_nat (length (filter (fun id => id <> 0) ids)).

(** [sort.Slice] by the hash bytes. *)
Definition hash_le (a b : parsedMessage) : Prop := String.le (pm_hash a) (pm_hash b).
#[global] Instance hash_le_dec a b : Decision (hash_le a b).
Proof. unfold hash_le. apply _. Defined.
#[global] Instance hash_le_trans : Transitive hash_le.
Proof. intros a b c. unfold hash_le. apply (transitivity (R := String.le)). Qed.
#[global] Instance hash_le_total : Total hash_le.
Proof. intros a b. unfold hash_le. apply (total String.le). Qed.

Definition sort_by_hash (batch : list parsedMessage) : list parsedMessage :=
  merge_sort hash_le batch.

Section pipeline.
Context {S : Type} `{ImapServer S}.
Context (BatchSize : nat).
Context (sha256 : string -> string) (derive : string -> Message).
Context (rejects : NewMessage -> bool).
Context (sched : list rawMessage -> list rawMessage).
Context (assign : DB -> Z -> list Z -> option (list (Z * Z))).
Abbreviation MM := (M (World S) err).

Definition filterStored (mailboxID uidValidity : Z) (uids : list Z) : MM (list Z * Z) :=
  existing ← ExistingUIDs mailboxID uidValidity uids;
  if decide (existing = ∅) then mret (uids, 0)
  else mret (filter (fun u => u ∉ existing) uids, Z.of_nat (size existing)).

(** [newMessage]: the row pair of a parsed message. *)
Definition newMessage (mailboxID uidValidity : Z) (pm : parsedMessage) : NewMessage :=
  let p := pm_parsed pm in
  {| nm_Message :=
       {| RawSHA256 := pm_hash pm; MessageID := MessageID p; InReplyTo := InReplyTo p;
          ReferencesIDs := ReferencesIDs p; Subject := Subject p; FromAddr := FromAddr p;
          ToAddrs := ToAddrs p; CcAddrs := CcAddrs p; Addresses := Addresses p;
          MIMEStructure := MIMEStructure p; Preview := Preview p; BodyText := BodyText p;
          MParseStatus := MParseStatus p; Defects := Defects p |};
     nm_Key := (mailboxID, uidValidity, raw_uid (pm_raw pm));
     nm_Flags := raw_flags (pm_raw pm);
     nm_Keywords := sanitizeAll (raw_keywords (pm_raw pm));
     nm_ModSeqSeen := modSeqToDB (raw_modSeq (pm_raw pm)) |}.

(** [insertWithRetry]: at most [blobRefRetries] attempts, only a deadlock is
    worth another. *)
Fixpoint insert_attempts (n : nat) (rows : list NewMessage) : MM (list Z) :=
  r ← try (InsertMessages rejects rows);
  match r with
  | inr ids => mret ids
  | inl e =>
      match n with
      | O => throw e
      | Datatypes.S n => if isDeadlock e then insert_attempts n rows else throw e
      end
  end.
Definition insertWithRetry (rows : list NewMessage) : MM (list Z) :=
  insert_attempts (blobRefRetries - 1) rows.

(** [insertDegraded]: one transaction per message; a message the store still
    refuses is stored stripped, and skipped (id 0) if even that fails. *)
Definition degraded_one (row : NewMessage) : MM Z :=
  r ← try (InsertMessages rejects [row]);
  match r with
  | inr got => mret (List.hd 0 got)
  | inl e =>
      if isDataError e then
        r2 ← try (InsertMessages rejects [quarantineRow row]);
        match r2 with
        | inr got => mret (List.hd 0 got)
        | inl _ => mret 0
        end
      else throw e
  end.

Fixpoint insertDegraded (rows : list NewMessage) : MM (list Z) :=
  match rows with
  | [] => mret []
  | row :: rows =>
      io ;;
      id ← degraded_one row;
      ids ← insertDegraded rows;
      mret (id :: ids)
  end.

(** The insert of [commitBatch], direct or degraded. *)
Definition insertBatch (rows : list NewMessage) : MM (list Z) :=
  r ← try (insertWithRetry rows);
  match r with
  | inr ids => mret ids
  | inl e => if isDataError e then insertDegraded rows else throw e
  end.

(** One reference per message row that was created. *)
Definition refs_of (accountID : Z) (ids : list Z) (batch : list parsedMessage)
    : list (string * Z * Z) :=
  omap (fun ib => if ib.1 =? 0 then None else Some (pm_hash ib.2, accountID, ib.1))
    (zip ids batch).

Fixpoint add_refs_attempts (n : nat) (refs : list (string * Z * Z)) : MM unit :=
  r ← try (io ;; modify (set_db (set_blob_refs (fun s => list_to_set refs ∪ s))));
  match r with
  | inr _ => mret tt
  | inl e =>
      match n with
      | O => throw e
      | Datatypes.S n => if isDeadlock e then add_refs_attempts n refs else throw e
      end
  end.

Definition addBlobRefs (accountID : Z) (ids : list Z) (batch : list parsedMessage) : MM unit :=
  let refs := refs_of accountID ids batch in
  if decide (refs = []) then mret tt
  else add_refs_attempts (blobRefRetries - 1) refs.

(** [assignThreads]: a failure is logged and leaves each message its own
    thread; only a canceled context is propagated. *)
Definition assignThreads (accountID : Z) (ids : list Z) : MM unit :=
  r ← try io;
  d ← the_db;
  match r, assign d accountID ids with
  | inr _, Some pairs => modify (set_db (set_thread_ids (fun m =>
                           foldl (fun m p => <[p.1 := p.2]> m) m pairs)))
  | _, _ => io
  end.

(** [commitBatch], configured without a mute archiver. *)
Definition commitBatch (accountID mailboxID uidValidity : Z) (batch : list parsedMessage)
    : MM (Z * Z) :=
  let batch := sort_by_hash batch in
  let rows := newMessage mailboxID uidValidity <$> batch in
  let nfailed := Z.of_nat (length (filter
    (fun b => MParseStatus (pm_parsed b) = ParseFailed) batch)) in
  ids ← insertBatch rows;
  addBlobRefs accountID ids batch ;;
  assignThreads accountID ids ;;
  mret (countInserted ids, nfailed).

(** [fetchStage]: the responses that carry a body, in arrival order. The
    connection may fail before or after the stream. *)
Definition raw_of (f : Fetched) : option rawMessage :=
  match f_Body f with
  | None => None
  | Some b => Some {| raw_uid := f_UID f; raw_modSeq := f_ModSeq f;
                      raw_flags := storeFlags (f_Flags f); raw_keywords := f_Keywords f;
                      raw_bytes := b |}
  end.

Definition fetchStage (name : string) (uids : list Z) : MM (list rawMessage) :=
  io ;; w ← get; mret (omap raw_of (srv_fetch (w_srv w) name uids)).

(** [parseStage], for one message: the blob is durable before anything else. *)
Definition parseOne (r : rawMessage) : MM parsedMessage :=
  io ;;
  modify (set_db (set_blobs (fun s => {[sha256 (raw_bytes r)]} ∪ s))) ;;
  mret {| pm_raw := r; pm_hash := sha256 (raw_bytes r); pm_parsed := derive (raw_bytes r) |}.

Fixpoint parseStage (rs : list rawMessage) : MM (list parsedMessage) :=
  match rs with
  | [] => mret []
  | r :: rs => p ← parseOne r; ps ← parseStage rs; mret (p :: ps)
  end.

(** The writer's batches: [BatchSize] messages each, the last one shorter. *)
Fixpoint chunks (fuel : nat) (l : list rawMessage) : list (list rawMessage) :=
  match fuel, l with
  | _, [] => []
  | O, _ => [l]
  | Datatypes.S fuel, _ =>
      firstn (Datatypes.S (pred BatchSize)) l ::
      chunks fuel (skipn (Datatypes.S (pred BatchSize)) l)
  end.

(** [writeStage] behind the parse pool: batch after batch is parsed and
    committed. An error leaves the batches committed before it, which is every
    outcome the concurrent stages have for the message tables: the rows of a
    prefix of the batches. *)
Fixpoint writeStage (accountID mailboxID uidValidity : Z) (bs : list (list rawMessage))
    : MM phaseStats :=
  match bs with
  | [] => mret stats_zero
  | b :: bs =>
      ps ← parseStage b;
      r ← commitBatch accountID mailboxID uidValidity ps;
      st ← writeStage accountID mailboxID uidValidity bs;
      mret (stats_add {| stored := r.1; skipped := 0; failed := r.2 |} st)
  end.

(** [fetchAndStore]: the whole pipeline for one set of UIDs. *)
Definition fetchAndStore (accountID mailboxID : Z) (name : string) (uidValidity : Z)
    (uids : list Z) : MM phaseStats :=
  if decide (uids = []) then mret stats_zero
  else
    f ← filterStored mailboxID uidValidity uids;
    let '(wanted, already) := f in
    let stats := {| stored := 0; skipped := already; failed := 0 |} in
    if decide (wanted = []) then mret stats
    else
      raws ← fetchStage name wanted;
      let queue := sched raws in
      st ← writeStage accountID mailboxID uidValidity (chunks (length queue) queue);
      mret (stats_add stats st).
End pipeline.

(** ** What a pipeline run does to the store *)

(** A stored row that says what the server says of the message. *)
Definition row_mirrors (m : SrvMsg) (st : MessageState) : Prop :=
  ms_Flags st = storeFlags (sm_Flags m) /\ ms_Keywords st = sanitizeAll (sm_Keywords m) /\
  ms_ModSeqSeen st = modSeqToDB (sm_ModSeq m) /\ ms_DeletedAt st = None.

(** The rows a batch may create. *)
Definition batch_row (msgs : list NewMessage) (k : state_key) (st : MessageState) : Prop :=
  exists nm t id, nm ∈ msgs /\ k = nm_Key nm /\ st = row_of t nm id.

Lemma sort_by_hash_perm l : sort_by_hash l ≡ₚ l.
Proof. apply merge_sort_Permutation. Qed.

Section specs.
Context {S : Type} `{ImapServer S} `{!ImapLaws S}.
Context (BatchSize : nat) (sha256 : string -> string) (derive : string -> Message).
Context (rejects : NewMessage -> bool).
Context (sched : list rawMessage -> list rawMessage).
Context (sched_perm : forall l, sched l ≡ₚ l).
Context (assign : DB -> Z -> list Z -> option (list (Z * Z))).
Implicit Types w : World S.

(** Storing these rows cannot fail for good: PostgreSQL refuses none of them,
    or nothing else goes wrong and it accepts them stripped. *)
Definition storable (msgs : list NewMessage) (w : World S) : Prop :=
  (forall nm, nm ∈ msgs -> rejects nm = false) \/
  (~ faulty w /\ forall nm, nm ∈ msgs -> rejects (quarantineRow nm) = false).

Lemma storable_weaken msgs msgs' w w' :
  storable msgs w -> (forall nm, nm ∈ msgs' -> nm ∈ msgs) -> same_env w w' -> storable msgs' w'.
Proof. intros [?|[? ?]] Hsub (_ & _ & Hf); [left|right]; auto. Qed.

(** The outcome of an attempt to store rows. *)
Definition stores {A} (msgs : list NewMessage) (w : World S) (ok : A -> World S -> Prop)
    (w' : World S) (r : err + A) : Prop :=
  same_env w w' /\ grows (batch_row msgs) (w_db w) (w_db w') /\
  match r with
  | inl e => (faulty w /\ transient e) \/ (e = ErrData /\ existsb rejects msgs = true)
  | inr a => ok a w'
  end.

Definition all_present (msgs : list NewMessage) (w : World S) : Prop :=
  forall nm, nm ∈ msgs -> is_Some (message_state (w_db w) !! nm_Key nm).

Lemma all_present_grows R msgs w w' :
  all_present msgs w -> grows R (w_db w) (w_db w') -> all_present msgs w'.
Proof. intros Hp [] nm [st Hst]%Hp. exists st. auto. Qed.

Lemma InsertMessages_spec msgs w :
  wp (InsertMessages rejects msgs)
    (stores msgs w (fun ids w' => length ids = length msgs /\ all_present msgs w')) w.
Proof.
  unfold InsertMessages. case_decide as Hnil.
  { wp_steps. subst. split; [auto with moov|]. split; [auto with moov|]. split; [done|].
    intros nm. set_solver. }
  wp_steps. apply wp_io.
  { intros e Hf Ht. split; [auto with moov|]. split; [auto with moov|]. by left. }
  destruct (existsb rejects msgs) eqn:Hrej.
  { wp_steps. split; [auto with moov|]. split; [auto with moov|]. by right. }
  wp_steps. simpl. pose proof (insert_messages_grows (w_now w) msgs (w_db w)) as (Hg & Hall & Hlen).
  destruct (insert_messages (w_now w) msgs (w_db w)) as [ids d']. simpl in *.
  wp_steps. split; [|split].
  - apply same_env_drop.
  - simpl. eapply grows_mono; [exact Hg|]. intros k st (nm & id & ? & ? & ?).
    exists nm, (w_now w), id. done.
  - split; [done|]. exact Hall.
Qed.

Lemma insert_attempts_spec n msgs w :
  wp (insert_attempts rejects n msgs)
    (stores msgs w (fun ids w' => length ids = length msgs /\ all_present msgs w')) w.
Proof.
  revert w. induction n as [|n IH]; intros w; cbn [insert_attempts]; wp_steps;
    (eapply wp_mono; [apply InsertMessages_spec|]);
    intros w' [e|ids] (Henv & Hg & Hr); wp_steps; try done.
  unfold isDeadlock. case_bool_decide; wp_steps; [|done].
  eapply wp_mono; [apply IH|]. intros w'' r (Henv' & Hg' & Hr').
  split; [by eapply same_env_trans|]. split; [by eapply grows_trans|].
  destruct r; [|done]. destruct Hr' as [[Hf ?]|?]; [|auto]. left. split; [by apply Henv|done].
Qed.

Lemma batch_row_sub msgs msgs' k st :
  (forall nm, nm ∈ msgs -> nm ∈ msgs') -> batch_row msgs k st -> batch_row msgs' k st.
Proof. intros Hsub (nm & t & id & ? & ? & ?). exists nm, t, id. auto. Qed.

(** A quarantined row keeps the identity and the flags of the message. *)
Lemma batch_row_quarantine nm k st :
  batch_row [quarantineRow nm] k st -> batch_row [nm] k st.
Proof.
  intros (nm' & t & id & ->%list_elem_of_singleton & -> & ->).
  exists nm, t, id. split; [by left|done].
Qed.

Lemma degraded_one_spec row w :
  wp (degraded_one rejects row)
    (fun w' r => same_env w w' /\ grows (batch_row [row]) (w_db w) (w_db w') /\
       match r with
       | inl e => faulty w
       | inr _ => storable [row] w -> all_present [row] w'
       end) w.
Proof.
  unfold degraded_one. wp_steps. eapply wp_mono; [apply InsertMessages_spec|].
  intros w1 [e|ids] (Henv & Hg & Hr); [|wp_steps; by destruct Hr].
  unfold isDataError. case_bool_decide as He; wp_steps.
  - eapply wp_mono; [apply InsertMessages_spec|]. intros w2 r2 (Henv2 & Hg2 & Hr2).
    assert (grows (batch_row [row]) (w_db w) (w_db w2)) as Hg'.
    { eapply grows_trans; [exact Hg|]. eapply grows_mono; [exact Hg2|].
      apply batch_row_quarantine. }
    destruct r2 as [e2|ids2]; wp_steps; (split; [by eapply same_env_trans|]);
      (split; [exact Hg'|]); intros Hst.
    + exfalso. destruct Hr as [[_ [-> | ->]]|[_ Hrej]]; [done..|].
      simpl in Hrej. rewrite orb_false_r in Hrej.
      destruct Hst as [Hst|[Hnf Hst]]; [rewrite Hst in Hrej; [done|by left]|].
      destruct Hr2 as [[Hf2 _]|[_ Hrej2]]; [by apply Hnf, Henv|].
      simpl in Hrej2. rewrite orb_false_r, Hst in Hrej2; [done|by left].
    + intros nm ->%list_elem_of_singleton.
      exact (proj2 Hr2 (quarantineRow row) (list_elem_of_here _ _)).
  - split; [exact Henv|]. split; [exact Hg|]. destruct Hr as [[? _]|[? _]]; [done|congruence].
Qed.

Lemma insertDegraded_spec rows w :
  wp (insertDegraded rejects rows)
    (fun w' r => same_env w w' /\ grows (batch_row rows) (w_db w) (w_db w') /\
       match r with
       | inl e => faulty w
       | inr _ => storable rows w -> all_present rows w'
       end) w.
Proof.
  revert w. induction rows as [|row rows IH]; intros w.
  { simpl. wp_steps. split; [auto with moov|]. split; [auto with moov|]. intros _ nm. set_solver. }
  cbn [insertDegraded]. wp_steps. apply wp_io.
  { intros e Hf _. split; [auto with moov|]. by split; [auto with moov|]. }
  wp_steps. eapply wp_mono; [apply degraded_one_spec|].
  intros w1 r1 (Henv1' & Hg1 & Hr1'). simpl w_db in Hg1.
  assert (same_env w w1) as Henv1 by (eapply same_env_trans; [apply same_env_drop|done]).
  assert (match r1 with inl _ => faulty w | inr _ => storable [row] w -> all_present [row] w1 end)
    as Hr1.
  { destruct r1; [by apply faulty_drop|]. intros Hst. apply Hr1'.
    eapply storable_weaken; [exact Hst|done|apply same_env_drop]. }
  assert (grows (batch_row (row :: rows)) (w_db w) (w_db w1)).
  { eapply grows_mono; [exact Hg1|]. intros k st. apply batch_row_sub. set_solver. }
  destruct r1 as [e|id]; [done|]. wp_steps. eapply wp_mono; [apply IH|].
  intros w2 r2 (Henv2 & Hg2 & Hr2).
  assert (grows (batch_row (row :: rows)) (w_db w1) (w_db w2)).
  { eapply grows_mono; [exact Hg2|]. intros k st. apply batch_row_sub. set_solver. }
  assert (same_env w w2) by (by eapply same_env_trans).
  destruct r2 as [e|ids]; wp_steps; (split; [done|]); (split; [by eapply grows_trans|]).
  - by apply Henv1.
  - intros Hst nm [->|Hin]%elem_of_cons.
    + eapply all_present_grows; [apply Hr1|exact Hg2|by left].
      eapply storable_weaken; [done| |auto with moov]. set_solver.
    + apply Hr2; [|done]. eapply storable_weaken; [done| |done]. set_solver.
Qed.

Lemma addBlobRefs_spec accountID ids batch w :
  wp (addBlobRefs accountID ids batch)
    (fun w' r => same_env w w' /\ grows (fun _ _ => False) (w_db w) (w_db w') /\
       (forall e, r = inl e -> faulty w)) w.
Proof.
  unfold addBlobRefs. case_decide.
  { wp_steps. split; [auto with moov|]. split; [auto with moov|done]. }
  generalize (blobRefRetries - 1)%nat. intros n. revert w.
  assert (forall w, grows (fun _ _ => False) (w_db w)
    (set_blob_refs (fun s => list_to_set (refs_of accountID ids batch) ∪ s) (w_db w))) as Hg
    by (intros; split; auto).
  induction n as [|n IH]; intros w; cbn [add_refs_attempts]; wp_steps; apply wp_io; wp_steps.
  - intros e Hf _. wp_steps. split; [auto with moov|]. split; [auto with moov|done].
  - split; [apply same_env_drop|]. split; [apply Hg|done].
  - intros e Hf Ht. unfold isDeadlock. case_bool_decide; wp_steps.
    + eapply wp_mono; [apply IH|]. intros w' r (Henv & Hg' & He).
      split; [eapply same_env_trans; [apply same_env_drop|done]|]. by split.
    + split; [auto with moov|]. split; [auto with moov|done].
  - split; [apply same_env_drop|]. split; [apply Hg|done].
Qed.

Lemma assignThreads_spec accountID ids w :
  wp (assignThreads assign accountID ids)
    (fun w' r => same_env w w' /\ grows (fun _ _ => False) (w_db w) (w_db w') /\
       (forall e, r = inl e -> faulty w)) w.
Proof.
  assert (forall w0, same_env w w0 -> w_db w0 = w_db w ->
    wp io (fun w' r => same_env w w' /\ grows (fun _ _ => False) (w_db w) (w_db w') /\
      (forall e, r = inl e -> faulty w)) w0) as Hio.
  { intros w0 Henv Hdb. apply wp_io; [intros e Hf _|];
      (split; [eapply same_env_trans; [done|apply same_env_drop]|]); simpl; rewrite Hdb;
      (split; [auto with moov|]); [intros _ _; by apply Henv|done]. }
  unfold assignThreads. wp_steps. apply wp_io; [intros e Hf _|]; wp_steps.
  - apply Hio; [apply same_env_drop|done].
  - destruct (assign _ accountID ids); [|apply Hio; [apply same_env_drop|done]]. wp_steps.
    split; [apply same_env_drop|]. split; [|done]. by split; auto.
Qed.

Lemma insertBatch_spec rows w :
  wp (insertBatch rejects rows)
    (fun w' r => same_env w w' /\ grows (batch_row rows) (w_db w) (w_db w') /\
       match r with
       | inl e => faulty w
       | inr _ => storable rows w -> all_present rows w'
       end) w.
Proof.
  unfold insertBatch. wp_steps. eapply wp_mono; [apply insert_attempts_spec|].
  intros w1 [e|ids] (Henv & Hg & Hr).
  - unfold isDataError. case_bool_decide as He; wp_steps.
    + eapply wp_mono; [apply insertDegraded_spec|]. intros w2 r2 (Henv2 & Hg2 & Hr2).
      split; [by eapply same_env_trans|]. split; [by eapply grows_trans|].
      destruct r2; [by apply Henv|]. intros Hst. apply Hr2.
      eapply storable_weaken; [done|done|done].
    + split; [done|]. split; [done|]. destruct Hr as [[? _]|[? _]]; [done|congruence].
  - wp_steps. split; [done|]. split; [done|]. intros _. apply Hr.
Qed.

(** The rows of a batch. *)
Definition rows_of (mailboxID uidValidity : Z) (ps : list parsedMessage) : list NewMessage :=
  newMessage mailboxID uidValidity <$> ps.

Lemma commitBatch_spec accountID mailboxID uidValidity ps w :
  wp (commitBatch rejects assign accountID mailboxID uidValidity ps)
    (fun w' r =>
       same_env w w' /\ grows (batch_row (rows_of mailboxID uidValidity ps)) (w_db w) (w_db w') /\
       match r with
       | inl e => faulty w
       | inr _ => storable (rows_of mailboxID uidValidity ps) w ->
                  all_present (rows_of mailboxID uidValidity ps) w'
       end) w.
Proof.
  unfold commitBatch. set (rows := rows_of mailboxID uidValidity ps).
  set (srows := newMessage mailboxID uidValidity <$> sort_by_hash ps).
  assert (forall nm, nm ∈ srows <-> nm ∈ rows) as Hrows.
  { intros nm. unfold srows, rows, rows_of. by rewrite sort_by_hash_perm. }
  assert (forall k st, batch_row srows k st -> batch_row rows k st) as Hrow.
  { intros k st. apply batch_row_sub. apply Hrows. }
  wp_steps. eapply wp_mono; [apply insertBatch_spec|].
  intros w1 r1 (Henv1 & Hg1%(grows_mono _ (batch_row rows)) & Hr1); [|done].
  destruct r1 as [e|ids]; [done|]. wp_steps.
  eapply wp_mono; [apply addBlobRefs_spec|]. intros w2 r2 (Henv2 & Hg2 & Hr2).
  assert (same_env w w2) by (by eapply same_env_trans).
  assert (grows (batch_row rows) (w_db w) (w_db w2)).
  { eapply grows_trans; [done|]. by eapply grows_mono. }
  destruct r2 as [e|[]].
  { split; [done|]. split; [done|]. apply Henv1. by eapply Hr2. }
  wp_steps. eapply wp_mono; [apply assignThreads_spec|]. intros w3 r3 (Henv3 & Hg3 & Hr3).
  assert (same_env w w3) by (by eapply same_env_trans).
  assert (grows (batch_row rows) (w_db w) (w_db w3)).
  { eapply grows_trans; [done|]. by eapply grows_mono. }
  destruct r3 as [e|[]].
  { split; [done|]. split; [done|]. apply Henv1, Henv2. by eapply Hr3. }
  wp_steps. split; [done|]. split; [done|].
  intros Hst nm Hin%Hrows. eapply all_present_grows; [|exact Hg3|exact Hin].
  eapply all_present_grows; [|exact Hg2]. apply Hr1.
  eapply storable_weaken; [done| |auto with moov]. intros ? ?. by apply Hrows.
Qed.

(** What the parse stage makes of a raw message. *)
Definition parsed (r : rawMessage) : parsedMessage :=
  {| pm_raw := r; pm_hash := sha256 (raw_bytes r); pm_parsed := derive (raw_bytes r) |}.

Lemma parseStage_spec rs w :
  wp (parseStage sha256 derive rs)
    (fun w' r => same_env w w' /\ grows (fun _ _ => False) (w_db w) (w_db w') /\
       match r with inl e => faulty w | inr ps => ps = parsed <$> rs end) w.
Proof.
  revert w. induction rs as [|r rs IH]; intros w; cbn [parseStage].
  { wp_steps. split; [auto with moov|]. by split; [auto with moov|]. }
  unfold parseOne. wp_steps. apply wp_io.
  { intros e Hf _. split; [auto with moov|]. by split; [auto with moov|]. }
  wp_steps. eapply wp_mono; [apply IH|]. intros w' r' (Henv & Hg & Hr).
  assert (same_env w w').
  { eapply same_env_trans; [apply same_env_drop|]. eapply same_env_trans; [|exact Henv].
    apply same_env_set_db. }
  assert (grows (fun _ _ => False) (w_db w) (w_db w')).
  { eapply grows_trans; [|exact Hg]. split; auto. }
  destruct r' as [e|ps]; wp_steps; (split; [done|]); (split; [done|]).
  - by apply faulty_drop.
  - by rewrite Hr.
Qed.

Definition raw_row (mailboxID uidValidity : Z) (r : rawMessage) : NewMessage :=
  newMessage mailboxID uidValidity (parsed r).

Lemma writeStage_spec accountID mailboxID uidValidity bs w :
  wp (writeStage sha256 derive rejects assign accountID mailboxID uidValidity bs)
    (fun w' r =>
       let rows := raw_row mailboxID uidValidity <$> concat bs in
       same_env w w' /\ grows (batch_row rows) (w_db w) (w_db w') /\
       match r with
       | inl e => faulty w
       | inr _ => storable rows w -> all_present rows w'
       end) w.
Proof.
  revert w. induction bs as [|b bs IH]; intros w; cbn [writeStage].
  { wp_steps. split; [auto with moov|]. split; [auto with moov|]. intros _ nm. set_solver. }
  set (rows := raw_row mailboxID uidValidity <$> concat (b :: bs)).
  set (rows1 := raw_row mailboxID uidValidity <$> b).
  set (rows2 := raw_row mailboxID uidValidity <$> concat bs).
  assert (rows = rows1 ++ rows2) as Hrows by apply fmap_app.
  wp_steps. eapply wp_mono; [apply parseStage_spec|]. intros w1 r1 (Henv1 & Hg1 & Hr1).
  assert (grows (batch_row rows) (w_db w) (w_db w1)) by (by eapply grows_mono).
  destruct r1 as [e|ps]; [done|]. subst ps. wp_steps.
  eapply wp_mono; [apply commitBatch_spec|]. intros w2 r2 (Henv2 & Hg2 & Hr2).
  assert (rows_of mailboxID uidValidity (parsed <$> b) = rows1) as Heq
    by (unfold rows_of, rows1; by rewrite <- list_fmap_compose).
  rewrite Heq in *.
  assert (same_env w w2) by (by eapply same_env_trans).
  assert (grows (batch_row rows) (w_db w) (w_db w2)).
  { eapply grows_trans; [done|]. eapply grows_mono; [done|]. intros k st.
    apply batch_row_sub. rewrite Hrows. set_solver. }
  destruct r2 as [e|[n nf]]; [split; [done|]; split; [done|]; by apply Henv1|].
  wp_steps. eapply wp_mono; [apply IH|]. intros w3 r3 (Henv3 & Hg3 & Hr3). fold rows2 in Hg3, Hr3.
  assert (same_env w w3) by (by eapply same_env_trans).
  assert (grows (batch_row rows) (w_db w) (w_db w3)).
  { eapply grows_trans; [done|]. eapply grows_mono; [done|]. intros k st.
    apply batch_row_sub. rewrite Hrows. set_solver. }
  destruct r3 as [e|st]; wp_steps; (split; [done|]); (split; [done|]); [by apply Henv1, Henv2|].
  intros Hst nm. rewrite Hrows, elem_of_app. intros [Hin|Hin].
  - eapply all_present_grows; [apply Hr2|exact Hg3|exact Hin].
    eapply storable_weaken; [done| |done]. rewrite Hrows. set_solver.
  - apply Hr3; [|done]. eapply storable_weaken; [done| |done]. rewrite Hrows. set_solver.
Qed.

Lemma concat_chunks fuel l :
  (length l <= fuel)%nat -> concat (chunks BatchSize fuel l) = l.
Proof.
  revert l. induction fuel as [|fuel IH]; intros [|x l] Hlen; simpl in *; try done; [lia|].
  f_equal. rewrite IH; [apply take_drop|]. rewrite length_drop. lia.
Qed.

(** The row the pipeline makes for a message of the server. *)
Definition srv_row (mailboxID uidValidity u : Z) (m : SrvMsg) : NewMessage :=
  raw_row mailboxID uidValidity
    {| raw_uid := u; raw_modSeq := sm_ModSeq m; raw_flags := storeFlags (sm_Flags m);
       raw_keywords := sm_Keywords m; raw_bytes := sm_Body m |}.

(** Every message of the mailbox can be stored. *)
Definition mailbox_storable (mailboxID uidValidity : Z) (name : string) (w : World S) : Prop :=
  storable ((fun um => srv_row mailboxID uidValidity um.1 um.2) <$>
            map_to_list (srv_view (w_srv w) name)) w.

(** A row the pipeline creates for one of [uids]. *)
Definition fetch_row (mailboxID uidValidity : Z) (view : gmap Z SrvMsg) (uids : list Z)
    (k : state_key) (st : MessageState) : Prop :=
  exists u m, u ∈ uids /\ k = (mailboxID, uidValidity, u) /\ view !! u = Some m /\
    row_mirrors m st.

(** Every one of [uids] the server holds has a row. *)
Definition covered (mailboxID uidValidity : Z) (view : gmap Z SrvMsg) (uids : list Z) (d : DB)
    : Prop :=
  forall u, u ∈ uids -> is_Some (view !! u) ->
    is_Some (message_state d !! (mailboxID, uidValidity, u)).

Lemma covered_grows R mailboxID uidValidity view uids d d' :
  covered mailboxID uidValidity view uids d -> grows R d d' ->
  covered mailboxID uidValidity view uids d'.
Proof. intros Hc [] u Hu Hv. destruct (Hc u Hu Hv) as [st Hst]. eauto. Qed.

Lemma srv_row_mirrors mailboxID uidValidity u m t id :
  row_mirrors m (row_of t (srv_row mailboxID uidValidity u m) id).
Proof. by repeat split. Qed.

(** What a fetch of distinct UIDs hands to the writer. *)
Lemma fetched_rows s name mailboxID uidValidity uids nm :
  NoDup uids ->
  nm ∈ raw_row mailboxID uidValidity <$> sched (omap raw_of (srv_fetch s name uids)) <->
  exists u m, u ∈ uids /\ srv_view s name !! u = Some m /\ nm = srv_row mailboxID uidValidity u m.
Proof.
  intros Hnd. rewrite sched_perm, list_elem_of_fmap. setoid_rewrite list_elem_of_omap. split.
  - intros (r & -> & f & Hf & Hr). apply view_fetch in Hf as (m & Hu & Hm & Heq); [|done].
    exists (f_UID f), m. split; [done|]. split; [done|].
    rewrite Heq in Hr. unfold raw_of in Hr. simpl in Hr. injection Hr as <-. done.
  - intros (u & m & Hu & Hm & ->). eexists. split; [reflexivity|].
    exists (fetched_of u m). split; [|reflexivity]. apply view_fetch; [done|]. simpl. eauto.
Qed.

Lemma filterStored_spec mailboxID uidValidity uids w :
  wp (filterStored mailboxID uidValidity uids)
    (fun w' r => same_env w w' /\ w_db w' = w_db w /\
       match r with
       | inl e => faulty w
       | inr (wanted, n) =>
           (NoDup uids -> NoDup wanted) /\
           forall u, u ∈ wanted <-> u ∈ uids /\
             message_state (w_db w) !! (mailboxID, uidValidity, u) = None
       end) w.
Proof.
  unfold filterStored, ExistingUIDs. case_decide as Hnil.
  { wp_steps. subst uids. rewrite decide_True by done. wp_steps. split; [auto with moov|].
    split; [done|]. split; [done|]. set_solver. }
  wp_steps. apply wp_io; [intros; by split; [auto with moov|]|]. wp_steps.
  set (ex := existing_uids _ _ _ _).
  assert (forall u, u ∈ ex <-> u ∈ uids /\
    is_Some (message_state (w_db w) !! (mailboxID, uidValidity, u))) as Hex.
  { intros u. unfold ex, existing_uids. simpl. rewrite elem_of_list_to_set, list_elem_of_filter.
    tauto. }
  case_decide as Hemp; wp_steps; (split; [auto with moov|]); (split; [done|]).
  - split; [done|]. intros u. rewrite eq_None_not_Some. split; [|tauto].
    intros Hu. split; [done|]. intros Hs. assert (u ∈ ex) as Hin by (by apply Hex).
    rewrite Hemp in Hin. set_solver.
  - split; [intros; by apply NoDup_filter|]. intros u.
    rewrite list_elem_of_filter, Hex, eq_None_not_Some. tauto.
Qed.

(** A pipeline run, whatever goes wrong: it only adds rows, each for a
    requested message the server holds and saying what the server says of it;
    it fails only because something failed; and after a success every
    requested message the server holds is stored. *)
Lemma fetchAndStore_spec accountID mailboxID name uidValidity uids w :
  NoDup uids ->
  wp (fetchAndStore BatchSize sha256 derive rejects sched assign
        accountID mailboxID name uidValidity uids)
    (fun w' r =>
       let view := srv_view (w_srv w) name in
       same_env w w' /\
       grows (fetch_row mailboxID uidValidity view uids) (w_db w) (w_db w') /\
       match r with
       | inl e => faulty w
       | inr _ => mailbox_storable mailboxID uidValidity name w ->
                  covered mailboxID uidValidity view uids (w_db w')
       end) w.
Proof.
  intros Hnd. unfold fetchAndStore. case_decide as Hnil.
  { wp_steps. split; [auto with moov|]. split; [auto with moov|]. subst. intros _ u. set_solver. }
  wp_steps. eapply wp_mono; [apply filterStored_spec|]. intros w1 r1 (Henv1 & Hdb1 & Hr1).
  destruct r1 as [e|[wanted n]].
  { split; [done|]. rewrite Hdb1. by split; [auto with moov|]. }
  destruct Hr1 as [Hnd1 Hwanted]. specialize (Hnd1 Hnd). case_decide as Hw.
  { wp_steps. split; [done|]. rewrite Hdb1. split; [auto with moov|]. intros _ u Hu _.
    apply not_eq_None_Some. intros Hnone. apply (not_elem_of_nil u). rewrite <- Hw.
    by apply Hwanted. }
  unfold fetchStage. wp_steps. apply wp_io.
  { intros e Hf _. split; [eapply same_env_trans; [done|auto with moov]|].
    simpl. rewrite Hdb1. split; [auto with moov|]. by apply Henv1. }
  wp_steps. eapply wp_mono; [apply writeStage_spec|]. cbv zeta. intros w2 r2.
  rewrite concat_chunks by done. simpl w_srv. rewrite (proj1 Henv1).
  set (rows := raw_row mailboxID uidValidity <$> _).
  pose proof (fun nm => fetched_rows (w_srv w) name mailboxID uidValidity wanted nm Hnd1) as Hrows.
  change (_ <$> sched _) with rows in Hrows. intros (Henv2 & Hg2 & Hr2).
  assert (same_env w w2).
  { eapply same_env_trans; [done|]. eapply same_env_trans; [apply same_env_drop|done]. }
  assert (grows (fetch_row mailboxID uidValidity (srv_view (w_srv w) name) uids) (w_db w) (w_db w2)).
  { rewrite <- Hdb1. eapply grows_mono; [exact Hg2|]. intros k st (nm & t & id & Hin & -> & ->).
    apply Hrows in Hin as (u & m & Hu & Hm & ->). exists u, m. split; [by apply Hwanted|].
    split; [done|]. split; [done|]. apply srv_row_mirrors. }
  destruct r2 as [e|st]; wp_steps; (split; [done|]); (split; [done|]).
  { by apply Henv1, faulty_drop. }
  intros Hst u Hu [m Hm].
  destruct (message_state (w_db w) !! (mailboxID, uidValidity, u)) as [st'|] eqn:E.
  { exists st'. eapply grows_old; [|exact E]. done. }
  eapply (Hr2 _ (srv_row mailboxID uidValidity u m)), Hrows.
  exists u, m. split; [by apply Hwanted|done].
  Unshelve. eapply storable_weaken; [exact Hst| |].
  - intros nm (u' & m' & _ & Hm' & ->)%Hrows. apply list_elem_of_fmap.
    exists (u', m'). split; [done|]. by apply elem_of_map_to_list.
  - eapply same_env_trans; [exact Henv1|apply same_env_drop].
Qed.
End specs.

(** C24: What a pipeline run does, whatever fails and in whatever order the parse
    pool delivers. It only adds rows: each is for a requested UID the server
    holds, under the given folder and UIDVALIDITY, with the server's flags,
    sanitized keywords and MODSEQ, and not deleted; the mailboxes and the
    checkpoints are untouched. It fails only because something failed. When it
    returns, every requested message the server holds has its row, provided every
    message of the mailbox can be stored: PostgreSQL accepts its row, or accepts it
    stripped of its content and no statement fails for another reason: one poisonous
    message never costs the others theirs. Without that proviso a run may return with
    a message missing ([degraded_insert_loses_message]). *)
Theorem pipeline_stores_requested {S} `{ImapServer S} `{!ImapLaws S} (BatchSize : nat)
    (sha256 : string -> string) (derive : string -> Message) (rejects : NewMessage -> bool)
    (sched : list rawMessage -> list rawMessage)
    (assign : DB -> Z -> list Z -> option (list (Z * Z)))
    (a id v : Z) (name : string) (uids : list Z) (w : World S) :
  (forall l, sched l ≡ₚ l) -> NoDup uids ->
  wp (fetchAndStore BatchSize sha256 derive rejects sched assign a id name v uids)
    (fun w' r =>
       let view := srv_view (w_srv w) name in
       same_env w w' /\ grows (fetch_row id v view uids) (w_db w) (w_db w') /\
       match r with
       | inl e => faulty w
       | inr _ => mailbox_storable sha256 derive rejects id v name w ->
                  covered id v view uids (w_db w')
       end) w.
Proof. intros Hperm Hnd. by apply fetchAndStore_spec. Qed.

(** *** A folder with one message PostgreSQL refuses unless it is stripped *)

Definition plain_mail (text : string) : Message :=
  {| RawSHA256 := ""; MessageID := ""; InReplyTo := ""; ReferencesIDs := []; Subject := "";
     FromAddr := ""; ToAddrs := ""; CcAddrs := ""; Addresses := ""; MIMEStructure := "";
     Preview := ""; BodyText := text; MParseStatus := ParseOK; Defects := "" |}.

Definition poison_msg (body : string) : SrvMsg :=
  {| sm_ModSeq := 1; sm_Flags := []; sm_Keywords := []; sm_InternalDate := 100; sm_Body := body |}.

Definition poison_server : MemServer :=
  {["INBOX" := {| mem_UIDValidity := 7; mem_UIDNext := 3; mem_HighestModSeq := 1;
                  mem_Role := RoleInbox;
                  mem_msgs := {[1 := poison_msg "good"; 2 := poison_msg "bad"]};
                  mem_expunged := [] |} ↾ I]}.

Definition poison_world (fs : list (option fault)) : World MemServer :=
  {| w_db := {| mailboxes := ∅; messages := ∅; message_state := ∅; thread_ids := ∅; blobs := ∅;
                blob_refs := ∅; sync_log := ∅; next_message_id := 1 |};
     w_srv := poison_server; w_now := 1000; w_faults := fs |}.

Definition poison_rejects (nm : NewMessage) : bool :=
  bool_decide (BodyText (nm_Message nm) = "bad").

Definition poison_run : M (World MemServer) err phaseStats :=
  fetchAndStore 10 (fun s => s) plain_mail poison_rejects (fun l => l) (fun _ _ _ => None)
    1 1 "INBOX" 7 [1; 2].

Lemma pipeline_stores_requested_witness :
  covered 1 7 (srv_view poison_server "INBOX") [1; 2] (w_db (poison_run (poison_world [])).1).
Proof.
  pose proof (pipeline_stores_requested 10 (fun s => s) plain_mail poison_rejects (fun l => l)
    (fun _ _ _ => None) 1 1 7 "INBOX" [1; 2] (poison_world []) (fun l => reflexivity l)
    ltac:(repeat constructor; set_solver)) as Hp.
  assert (match (poison_run (poison_world [])).2 with inr _ => true | inl _ => false end = true)
    as Hok by (vm_compute; reflexivity).
  unfold wp in Hp. fold poison_run in Hp. destruct (poison_run (poison_world [])) as [w' [e|st]];
    [done|]. simpl in Hp |- *. apply Hp. right. split.
  - intros [f Hf]. by apply not_elem_of_nil in Hf.
  - intros nm (um & -> & _)%list_elem_of_fmap. reflexivity.
Defined.

(** A transient failure in the degraded path loses a message. PostgreSQL
    refuses UID 2 as parsed, the batch degrades, and the connection
    fails during the insert of the stripped row: the run reports success with no
    row for UID 2, so the caller moves its watermark past a message that was
    never stored and would have been on a retry. *)
Theorem degraded_insert_loses_message :
  let r := poison_run (poison_world (replicate 7 None ++ [Some FaultIO])) in
  match r.2 with inr _ => true | inl _ => false end = true /\
  is_Some (srv_view poison_server "INBOX" !! 2) /\
  message_state (w_db r.1) !! (1, 7, 2) = None /\
  is_Some (message_state (w_db (poison_run (poison_world [])).1) !! (1, 7, 2)).
Proof.
  split; [vm_compute; reflexivity|]. split; [vm_compute; eauto|].
  split; [vm_compute; reflexivity|]. vm_compute. eauto.
Qed.
