(* ===== verification/Initial.v ===== *)
(** The initial sync (src/internal/sync/phases.go and Run of initial.go): the
    recent window of the inbox, then every mailbox walked from its newest UID
    down to 1 in windows, each window's watermark saved after its data.

    A canceled context is a fault of the schedule, taken where the code looks at
    ctx. The walks recurse on fuel; [Z.to_nat high] is enough, since every
    iteration moves [high] down, and running out would be the error [ErrIO]
    without a fault, which the theorems rule out. *)

From S2P Require Import Prelude Convert Utf8 Store Imap Checkpoint Discover Pipeline.
#[local] Open Scope Z_scope.

(** [highestUID]. *)
Definition highestUID (sel : SelectResult) : Z :=
  if 1 <? sel_UIDNext sel then sel_UIDNext sel - 1 else sel_NumMessages sel.

(** [uidRange]: the inclusive range, ascending. *)
Definition uidRange (low high : Z) : list Z :=
  if high <? low then [] else seqZ low (high - low + 1).

(** The low end of the window that ends at [high]. *)
Definition window_low (FetchWindow high : Z) : Z :=
  if windowSize FetchWindow <? high then high - windowSize FetchWindow + 1 else 1.

Definition with_low (cp : mailboxCheckpoint) (low : Z) : mailboxCheckpoint :=
  {| mc_Version := mc_Version cp; mc_UIDValidity := mc_UIDValidity cp; mc_UIDLow := low;
     mc_RecentDone := mc_RecentDone cp; mc_Complete := mc_Complete cp |}.
Definition with_complete (cp : mailboxCheckpoint) : mailboxCheckpoint :=
  {| mc_Version := mc_Version cp; mc_UIDValidity := mc_UIDValidity cp; mc_UIDLow := 1;
     mc_RecentDone := mc_RecentDone cp; mc_Complete := true |}.
Definition with_recent (cp : mailboxCheckpoint) (uids : list Z) : mailboxCheckpoint :=
  {| mc_Version := mc_Version cp; mc_UIDValidity := mc_UIDValidity cp;
     mc_UIDLow := match uids with [] => mc_UIDLow cp | u :: _ => u end;
     mc_RecentDone := true; mc_Complete := mc_Complete cp |}.

(** The UIDVALIDITY the row remembers, 0 for none. *)
Definition known_validity (row : Mailbox) : Z :=
  match mb_UIDValidity row with
  | Some v => if 0 <? v then uidValidityFromDB v else 0
  | None => 0
  end.

Record Result := mkResult {
  res_Mailboxes : Z;
  res_Recent : phaseStats;
  res_Backfill : phaseStats;
  res_Complete : bool
}.

Section initial.
Context {S : Type} `{ImapServer S}.
Context (BatchSize : nat) (FetchWindow RecentWindow : Z).
Context (sha256 : string -> string) (derive : string -> Message).
Context (rejects : NewMessage -> bool).
Context (sched : list rawMessage -> list rawMessage).
Context (assign : DB -> Z -> list Z -> option (list (Z * Z))).
Abbreviation MM := (M (World S) err).
Abbreviation fetch_and_store := (fetchAndStore BatchSize sha256 derive rejects sched assign).

Definition SelectQResync (name : string) (uidValidity modSeq : Z) : MM SelectResult :=
  io ;; w ← get;
  match srv_select (w_srv w) name uidValidity modSeq with
  | Some sel => mret sel
  | None => throw ErrIO
  end.

(** What [selectMailbox] does when UIDVALIDITY changed. *)
Definition restartMailbox (accountID : Z) (mb : syncMailbox) (v : Z) : MM syncMailbox :=
  InvalidateMailbox (mb_ID (sb_row mb)) ;;
  saveMailboxCheckpoint accountID (mb_ID (sb_row mb)) (freshCheckpoint v) ;;
  fresh ← GetMailbox (mb_ID (sb_row mb));
  mret {| sb_row := fresh; sb_info := sb_info mb |}.

(** [selectMailbox]; the caller's box is updated through its pointer. *)
Definition selectMailbox (accountID : Z) (mb : syncMailbox) : MM (SelectResult * syncMailbox) :=
  let known := known_validity (sb_row mb) in
  sel ← SelectQResync (mi_Name (sb_info mb)) known 0;
  mb ← (if negb (known =? 0) && negb (sel_UIDValidity sel =? known)
        then restartMailbox accountID mb (sel_UIDValidity sel) else mret mb);
  SetMailboxSyncState (mb_ID (sb_row mb)) (uidValidityToDB (sel_UIDValidity sel))
    (uidNextToDB (sel_UIDNext sel)) (modSeqToDB (sel_HighestModSeq sel)) ;;
  mret (sel, mb).

Definition markComplete (accountID : Z) (mb : syncMailbox) (cp : mailboxCheckpoint) : MM unit :=
  saveMailboxCheckpoint accountID (mb_ID (sb_row mb)) (with_complete cp) ;;
  SetBackfillProgress (mb_ID (sb_row mb)) BackfillComplete (Some 1).

(** *** Phase A *)

(** Which probed messages are in the window, and whether an older one was
    seen. *)
Definition in_window (cutoff : Time) (f : Fetched) : bool :=
  if IsZero (f_InternalDate f) then true else negb (Before (f_InternalDate f) cutoff).

Definition probeWindow (name : string) (low high : Z) (cutoff : Time) : MM (list Z * bool) :=
  let uids := uidRange low high in
  if decide (uids = []) then mret ([], false)
  else
    io ;; w ← get;
    let fs := srv_fetch (w_srv w) name uids in
    mret (f_UID <$> filter (fun f => in_window cutoff f = true) fs,
          existsb (fun f => negb (in_window cutoff f)) fs).

Fixpoint recent_loop (fuel : nat) (name : string) (cutoff : Time) (high : Z) (found : list Z)
    : MM (list Z) :=
  if high <? 1 then mret found
  else
    match fuel with
    | O => throw ErrIO
    | Datatypes.S fuel =>
        let low := window_low FetchWindow high in
        r ← probeWindow name low high cutoff;
        let '(band, reachedCutoff) := r in
        let found := band ++ found in
        if reachedCutoff || (low =? 1) then mret found
        else recent_loop fuel name cutoff (low - 1) found
    end.

Definition recentUIDs (name : string) (sel : SelectResult) (cutoff : Time) : MM (list Z) :=
  let top := highestUID sel in
  if top =? 0 then mret [] else recent_loop (Z.to_nat top) name cutoff top [].

(** Phase A of a mailbox that is selected and not empty. *)
Definition recent_fetch (accountID : Z) (mb : syncMailbox) (sel : SelectResult) (cutoff : Time)
    : MM phaseStats :=
  let name := mi_Name (sb_info mb) in
  let id := mb_ID (sb_row mb) in
  cp ← loadMailboxCheckpoint accountID id (sel_UIDValidity sel);
  if mc_RecentDone cp then mret stats_zero
  else
    uids ← recentUIDs name sel cutoff;
    st ← fetch_and_store accountID id name (sel_UIDValidity sel) uids;
    let cp := with_recent cp uids in
    saveMailboxCheckpoint accountID id cp ;;
    SetBackfillProgress id BackfillRecentDone (Some (mc_UIDLow cp)) ;;
    mret st.

Definition recent_inbox (accountID : Z) (mb : syncMailbox) : MM (syncMailbox * phaseStats) :=
  t ← now;
  let cutoff := t - RecentWindow in
  r ← selectMailbox accountID mb;
  let '(sel, mb) := r in
  if sel_NumMessages sel =? 0 then mret (mb, stats_zero)
  else st ← recent_fetch accountID mb sel cutoff; mret (mb, st).

(** The first inbox of the list is synced in place. *)
Fixpoint runRecent_boxes (accountID : Z) (boxes : list syncMailbox)
    : MM (list syncMailbox * phaseStats) :=
  match boxes with
  | [] => mret ([], stats_zero)
  | mb :: boxes =>
      if isInbox mb then
        r ← recent_inbox accountID mb;
        let '(mb, st) := r in mret (mb :: boxes, st)
      else
        r ← runRecent_boxes accountID boxes;
        let '(boxes, st) := r in mret (mb :: boxes, st)
  end.
Definition runRecent (accountID : Z) (boxes : list syncMailbox)
    : MM (list syncMailbox * phaseStats) :=
  r ← runRecent_boxes accountID boxes;
  saveAccountPhase accountID PhaseRecent ;;
  mret r.

(** *** Phase B *)

(** The window loop of [backfillMailbox]. *)
Fixpoint backfill_loop (fuel : nat) (accountID : Z) (mb : syncMailbox) (v : Z)
    (cp : mailboxCheckpoint) (high : Z) (st : phaseStats) : MM (mailboxCheckpoint * phaseStats) :=
  if high <? 1 then mret (cp, st)
  else
    match fuel with
    | O => throw ErrIO
    | Datatypes.S fuel =>
        io ;;
        let low := window_low FetchWindow high in
        let id := mb_ID (sb_row mb) in
        st' ← fetch_and_store accountID id (mi_Name (sb_info mb)) v (uidRange low high);
        let cp := with_low cp low in
        saveMailboxCheckpoint accountID id cp ;;
        SetBackfillProgress id BackfillInProgress (Some low) ;;
        if low =? 1 then mret (cp, stats_add st st')
        else backfill_loop fuel accountID mb v cp (low - 1) (stats_add st st')
    end.

(** Where the walk starts: under the watermark, or at the top. *)
Definition resume_high (sel : SelectResult) (cp : mailboxCheckpoint) : Z :=
  let high := highestUID sel in
  if (0 <? mc_UIDLow cp) && (mc_UIDLow cp - 1 <? high) then mc_UIDLow cp - 1 else high.

Definition backfill_selected (accountID : Z) (mb : syncMailbox) (sel : SelectResult)
    : MM phaseStats :=
  let id := mb_ID (sb_row mb) in
  cp ← loadMailboxCheckpoint accountID id (sel_UIDValidity sel);
  if mc_Complete cp then mret stats_zero
  else if sel_NumMessages sel =? 0 then markComplete accountID mb cp ;; mret stats_zero
  else
    let high := resume_high sel cp in
    SetBackfillProgress id BackfillInProgress None ;;
    r ← backfill_loop (Z.to_nat high) accountID mb (sel_UIDValidity sel) cp high stats_zero;
    markComplete accountID mb r.1 ;;
    mret r.2.

Definition backfillMailbox (accountID : Z) (mb : syncMailbox) : MM phaseStats :=
  r ← selectMailbox accountID mb;
  let '(sel, mb) := r in backfill_selected accountID mb sel.

Fixpoint backfill_boxes (accountID : Z) (boxes : list syncMailbox) (st : phaseStats)
    : MM phaseStats :=
  match boxes with
  | [] => mret st
  | mb :: boxes =>
      st' ← backfillMailbox accountID mb;
      backfill_boxes accountID boxes (stats_add st st')
  end.
Definition runBackfill (accountID : Z) (boxes : list syncMailbox) : MM phaseStats :=
  saveAccountPhase accountID PhaseBackfill ;;
  backfill_boxes accountID boxes stats_zero.

(** [recordFailure]: the error is recorded if it can be, and returned. *)
Definition recordFailure {A} (accountID : Z) (phase : Phase) (e : err) : MM A :=
  _ ← try (RecordSyncError accountID AccountScope (phase_string phase));
  throw e.
Definition or_record {A} (accountID : Z) (phase : Phase) (m : MM A) : MM A :=
  r ← try m;
  match r with
  | inr a => mret a
  | inl e => recordFailure accountID phase e
  end.

(** [Run]. *)
Definition Run (accountID : Z) : MM Result :=
  boxes ← or_record accountID PhaseDiscover (discover accountID);
  r ← or_record accountID PhaseRecent (runRecent accountID boxes);
  let '(boxes, recent) := r in
  back ← or_record accountID PhaseBackfill (runBackfill accountID boxes);
  saveAccountPhase accountID PhaseComplete ;;
  mret {| res_Mailboxes := Z.of_nat (length boxes); res_Recent := recent;
          res_Backfill := back; res_Complete := true |}.
End initial.
