(* ===== verification/InitialSafety.v ===== *)
(** Crash safety and completeness of the initial sync ([Initial]): the watermark
    of a mailbox never claims a message that is not stored, wherever a run is
    interrupted, and a run that is not interrupted stores everything. *)

From S2P Require Import Prelude Convert Utf8 Store Imap Checkpoint Discover Pipeline Initial.
#[local] Open Scope Z_scope.

(** ** Ranges and windows *)

Lemma elem_of_uidRange low high u : u ∈ uidRange low high <-> low <= u <= high.
Proof.
  unfold uidRange. case_bool; [set_solver by lia|]. rewrite elem_of_seqZ. lia.
Qed.
Lemma NoDup_uidRange low high : NoDup (uidRange low high).
Proof. unfold uidRange. case_bool; [constructor|apply NoDup_seqZ]. Qed.
#[export] Hint Resolve NoDup_uidRange : moov.

Lemma window_low_bounds fw high : 1 <= high -> 1 <= window_low fw high <= high.
Proof.
  intros. unfold window_low. pose proof (windowSize_bounds fw). case_bool; lia.
Qed.

(** ** The tables a run on one mailbox may change *)

(** The columns that say which folder a row is. *)
Definition same_ident (m m' : Mailbox) : Prop :=
  mb_ID m' = mb_ID m /\ mb_AccountID m' = mb_AccountID m /\ mb_Name m' = mb_Name m.

Record mailbox_frame (accountID id : Z) (d d' : DB) : Prop := {
  mf_row row : mailboxes d !! id = Some row ->
    exists row', mailboxes d' !! id = Some row' /\ same_ident row row';
  mf_rows j : j <> id -> mailboxes d' !! j = mailboxes d !! j;
  mf_states k : k.1.1 <> id -> message_state d' !! k = message_state d !! k;
  mf_log k : k <> (accountID, mailboxScope id) -> sync_log d' !! k = sync_log d !! k
}.

Lemma mailbox_frame_refl a id d : mailbox_frame a id d d.
Proof. split; try done. intros row Hr. by exists row. Qed.
Lemma mailbox_frame_trans a id d1 d2 d3 :
  mailbox_frame a id d1 d2 -> mailbox_frame a id d2 d3 -> mailbox_frame a id d1 d3.
Proof.
  intros [H0 H1 H2 H3] [H0' H4 H5 H6].
  split; intros; [|rewrite H4, H1|rewrite H5, H2|rewrite H6, H3]; try done.
  destruct (H0 row) as (row1 & Hr1 & (? & ? & ?)); [done|].
  destruct (H0' row1) as (row2 & Hr2 & (? & ? & ?)); [done|].
  exists row2. split; [done|]. unfold same_ident. split; [|split]; congruence.
Qed.
#[export] Hint Resolve mailbox_frame_refl : moov.

Lemma grows_frame a id v view uids d d' :
  grows (fetch_row id v view uids) d d' -> mailbox_frame a id d d'.
Proof.
  intros [Hm Hl Ho Hn]. split; [intros row Hr; exists row; by rewrite Hm| | |]; intros;
    [by rewrite Hm| |by rewrite Hl].
  apply option_eq. intros st. split; [|apply Ho].
  intros [?|(u & m & _ & -> & _)]%Hn; done.
Qed.

(** ** The invariant of one mailbox *)

Section mailbox.
Context {S : Type} `{ImapServer S} `{!ImapLaws S}.
Context (BatchSize : nat) (FetchWindow RecentWindow : Z).
Context (sha256 : string -> string) (derive : string -> Message).
Context (rejects : NewMessage -> bool).
Context (sched : list rawMessage -> list rawMessage).
Context (sched_perm : forall l, sched l ≡ₚ l).
Context (assign : DB -> Z -> list Z -> option (list (Z * Z))).
Implicit Types w : World S.

(** Every message of the server from [low] upwards has its row. *)
Definition covered_above (id v : Z) (view : gmap Z SrvMsg) (low : Z) (d : DB) : Prop :=
  forall u, low <= u -> is_Some (view !! u) -> is_Some (message_state d !! (id, v, u)).

(** What a checkpoint claims. *)
Definition claims (id v : Z) (view : gmap Z SrvMsg) (cp : mailboxCheckpoint) (d : DB) : Prop :=
  (0 < mc_UIDLow cp -> covered_above id v view (mc_UIDLow cp) d) /\
  (mc_Complete cp = true -> covered_above id v view 1 d).

Definition validity_ok (v : Z) (row : Mailbox) : Prop :=
  known_validity row = 0 \/ known_validity row = v.

Definition unselectable (name : string) (w : World S) : Prop :=
  exists a b, srv_select (w_srv w) name a b = None.

(** The checkpoint of mailbox [id], backed by folder [name], is true. *)
Record mailbox_inv (accountID id : Z) (name : string) (w : World S) : Prop := {
  mi_row : exists row, mailboxes (w_db w) !! id = Some row /\ mb_ID row = id;
  mi_claims cp : ckpt (w_db w) accountID id = Some cp ->
    mc_UIDValidity cp = srv_validity (w_srv w) name ->
    claims id (srv_validity (w_srv w) name) (srv_view (w_srv w) name) cp (w_db w) /\
    (forall row, mailboxes (w_db w) !! id = Some row ->
       validity_ok (srv_validity (w_srv w) name) row)
}.

(** A step on the mailbox: it keeps the invariant and everything else, and
    fails only if something failed. *)
Definition safe {A} (accountID id : Z) (name : string) (m : M (World S) err A)
    (Q : A -> World S -> Prop) (w : World S) : Prop :=
  wp m (fun w' r =>
    same_env w w' /\ mailbox_frame accountID id (w_db w) (w_db w') /\
    mailbox_inv accountID id name w' /\
    match r with
    | inl e => faulty w \/ unselectable name w
    | inr a => Q a w'
    end) w.

Lemma unselectable_env name w w' : same_env w w' -> unselectable name w' -> unselectable name w.
Proof. intros (Hs & _) (a & b & ?). exists a, b. by rewrite <- Hs. Qed.

Lemma safe_mono {A} a id n (m : M (World S) err A) (P Q : A -> World S -> Prop) w :
  safe a id n m P w -> (forall x w', same_env w w' -> P x w' -> Q x w') -> safe a id n m Q w.
Proof.
  unfold safe. intros Hs HPQ. eapply wp_mono; [exact Hs|]. intros w' r (? & ? & ? & Hr).
  repeat (split; [done|]). destruct r; auto.
Qed.

Lemma safe_ret {A} a id n (x : A) (Q : A -> World S -> Prop) w :
  mailbox_inv a id n w -> Q x w -> safe a id n (mret x) Q w.
Proof. intros. apply wp_ret. auto with moov. Qed.

Lemma safe_bind {A B} a id n (m : M (World S) err A) (k : A -> M (World S) err B)
    (Q : B -> World S -> Prop) w :
  safe a id n m
    (fun x w' => same_env w w' -> mailbox_inv a id n w' -> safe a id n (k x) Q w') w ->
  safe a id n (m ≫= k) Q w.
Proof.
  unfold safe. intros Hm. apply wp_bind. eapply wp_mono; [exact Hm|].
  intros w1 [e|x] (Henv1 & Hf1 & Hi1 & Hr1); [done|].
  eapply wp_mono; [by apply Hr1|]. intros w2 r2 (Henv2 & Hf2 & Hi2 & Hr2).
  split; [by eapply same_env_trans|]. split; [by eapply mailbox_frame_trans|].
  split; [done|]. destruct r2; [|done].
  destruct Hr2 as [?|?]; [left; by apply Henv1|right; by eapply unselectable_env].
Qed.

(** The invariant depends on the environment and three entries only. *)
Lemma mailbox_inv_transfer a id n w w' :
  same_env w w' -> mailboxes (w_db w') !! id = mailboxes (w_db w) !! id ->
  ckpt (w_db w') a id = ckpt (w_db w) a id ->
  (forall v u, is_Some (message_state (w_db w) !! (id, v, u)) ->
     is_Some (message_state (w_db w') !! (id, v, u))) ->
  mailbox_inv a id n w -> mailbox_inv a id n w'.
Proof.
  intros (Hs & _ & _) Hm Hc Hst [Hrow Hcl]. split; rewrite ?Hm; [done|].
  rewrite Hc, Hs. intros cp Hcp Hv. destruct (Hcl cp Hcp Hv) as [[H1 H2] H3].
  split; [|done]. split; intros Hc' u Hu Hview; apply Hst; [by apply H1|by apply H2].
Qed.

Lemma mailbox_inv_frame a id id' n w w' :
  id <> id' -> same_env w w' -> mailbox_frame a id' (w_db w) (w_db w') ->
  mailbox_inv a id n w -> mailbox_inv a id n w'.
Proof.
  intros Hne Henv [_ Hr Hs Hl]. apply mailbox_inv_transfer; [done|by apply Hr| |].
  - unfold ckpt. rewrite Hl; [done|]. intros Heq%(f_equal snd)%mailboxScope_inj. done.
  - intros v u. by rewrite Hs.
Qed.

(** *** Steps *)

Lemma safe_update a id n f w :
  mailbox_inv a id n w -> (forall m, same_ident m (f m)) ->
  (forall m, validity_ok (srv_validity (w_srv w) n) m ->
     validity_ok (srv_validity (w_srv w) n) (f m)) ->
  safe a id n (update_mailbox id f)
    (fun _ w' => message_state (w_db w') = message_state (w_db w) /\
       sync_log (w_db w') = sync_log (w_db w) /\
       mailboxes (w_db w') !! id = f <$> mailboxes (w_db w) !! id) w.
Proof.
  intros [(row & Hrow & Hid) Hcl] Hf Hv. unfold safe, update_mailbox. wp_steps. apply wp_io.
  { intros e Hflt _. split; [auto with moov|]. split; [auto with moov|].
    split; [|by left]. eapply mailbox_inv_transfer; [apply same_env_drop|done..|]. by split; eauto. }
  wp_steps. simpl. rewrite Hrow. wp_steps. split; [apply same_env_drop|]. split; [|split].
  - split; simpl; [|intros; by rewrite lookup_insert_ne|done|done].
    intros row' Hr'. exists (f row). rewrite lookup_insert_eq. split; [done|].
    assert (row' = row) as -> by congruence. apply Hf.
  - split; simpl.
    + exists (f row). rewrite lookup_insert_eq. split; [done|]. by rewrite (proj1 (Hf row)).
    + intros cp Hcp Hval. destruct (Hcl cp Hcp Hval) as [? Hok]. split; [done|].
      intros row'. rewrite lookup_insert_eq. intros [= <-]. auto.
  - simpl. by rewrite lookup_insert_eq.
Qed.

(** What saving a checkpoint does, whatever was stored before. *)
Lemma save_spec a id cp w :
  is_uint32 (mc_UIDValidity cp) -> is_uint32 (mc_UIDLow cp) -> mc_Version cp = checkpointVersion ->
  wp (saveMailboxCheckpoint a id cp)
    (fun w' r => same_env w w' /\ mailbox_frame a id (w_db w) (w_db w') /\
       match r with
       | inl _ => faulty w /\ w_db w' = w_db w
       | inr _ => message_state (w_db w') = message_state (w_db w) /\
                  mailboxes (w_db w') = mailboxes (w_db w) /\ ckpt (w_db w') a id = Some cp
       end) w.
Proof.
  intros Hu Hl Hver. unfold saveMailboxCheckpoint, SaveCheckpoint, upsert_log. wp_steps.
  apply wp_io. { intros e Hflt _. do 2 (split; [auto with moov|]). done. }
  wp_steps. split; [apply same_env_drop|]. split; [|split; [done|split; [done|]]].
  - split; simpl; [intros row Hr; by exists row|done|done|]. intros. by rewrite lookup_insert_ne.
  - unfold ckpt. simpl. rewrite lookup_insert_eq. simpl.
    transitivity (decodeMailboxCheckpoint (encodeMailboxCheckpoint cp)).
    + destruct cp as [ver uv low rd c]. simpl in Hver. subst ver. f_equal.
      by destruct (sync_log (w_db w) !! (a, mailboxScope id)).
    + by apply mailbox_roundtrip.
Qed.

Lemma safe_save a id n cp w :
  mailbox_inv a id n w -> is_uint32 (mc_UIDValidity cp) -> is_uint32 (mc_UIDLow cp) ->
  mc_Version cp = checkpointVersion ->
  (mc_UIDValidity cp = srv_validity (w_srv w) n ->
     claims id (srv_validity (w_srv w) n) (srv_view (w_srv w) n) cp (w_db w) /\
     (forall row, mailboxes (w_db w) !! id = Some row ->
        validity_ok (srv_validity (w_srv w) n) row)) ->
  safe a id n (saveMailboxCheckpoint a id cp)
    (fun _ w' => message_state (w_db w') = message_state (w_db w) /\
       mailboxes (w_db w') = mailboxes (w_db w) /\ ckpt (w_db w') a id = Some cp) w.
Proof.
  intros Hinv Hu Hl Hver Hcl. unfold safe. eapply wp_mono; [by apply save_spec|].
  intros w' [e|[]] (Henv & Hf & Hr); (split; [done|]); (split; [done|]).
  - destruct Hr as [? Hdb]. split; [|by left].
    by eapply mailbox_inv_transfer; [done|rewrite Hdb..|].
  - destruct Hr as (Hms & Hmb & Hck). split; [|done]. split; rewrite Hmb; [apply Hinv|].
    rewrite Hck, (proj1 Henv). intros ? [= <-] Hv. unfold claims, covered_above.
    rewrite Hms. by apply Hcl.
Qed.

Lemma safe_load a id n w :
  mailbox_inv a id n w ->
  safe a id n (loadMailboxCheckpoint a id (srv_validity (w_srv w) n))
    (fun cp w' => w_db w' = w_db w /\ mc_ok cp /\ mc_UIDValidity cp = srv_validity (w_srv w) n /\
       claims id (srv_validity (w_srv w) n) (srv_view (w_srv w) n) cp (w_db w) /\
       (ckpt (w_db w) a id = Some cp \/ cp = freshCheckpoint (srv_validity (w_srv w) n))) w.
Proof.
  intros Hinv. unfold safe, loadMailboxCheckpoint, GetCheckpoint. wp_steps.
  assert (mailbox_inv a id n (drop_fault w)).
  { by eapply mailbox_inv_transfer; [apply same_env_drop|..]. }
  apply wp_io. { intros e Hflt _. repeat (split; [auto with moov|]). by left. }
  wp_steps. split; [apply same_env_drop|]. split; [auto with moov|]. split; [done|].
  set (v := srv_validity (w_srv w) n).
  assert (mc_ok (freshCheckpoint v)) as Hfresh.
  { pose proof (view_bounds (w_srv w) n) as (? & _ & _). unfold v, mc_ok, is_uint32. simpl.
    unfold MaxUint32 in *. split; [done|]. lia. }
  destruct (decodeMailboxCheckpoint _) as [mc|] eqn:E; [case_bool|].
  - split; [done|]. split; [by eapply decode_mc_ok|]. split; [done|].
    split; [|left; exact E]. eapply Hinv; [exact E|done].
  - do 3 (split; [done|]). split; [|by right]. split; simpl; [lia|done].
  - do 3 (split; [done|]). split; [|by right]. split; simpl; [lia|done].
Qed.

Abbreviation fetch_and_store := (fetchAndStore BatchSize sha256 derive rejects sched assign).
Abbreviation storable_in := (mailbox_storable sha256 derive rejects).

Lemma storable_env id v n w w' : same_env w w' -> storable_in id v n w -> storable_in id v n w'.
Proof.
  intros Henv Hst. unfold mailbox_storable in *. rewrite (proj1 Henv).
  by eapply storable_weaken.
Qed.

Lemma covered_above_grows R id v view low d d' :
  covered_above id v view low d -> grows R d d' -> covered_above id v view low d'.
Proof. intros Hc [] u Hu Hv. destruct (Hc u Hu Hv) as [st Hst]. eauto. Qed.

Lemma safe_fetch a id n uids w :
  mailbox_inv a id n w -> NoDup uids ->
  let v := srv_validity (w_srv w) n in
  safe a id n (fetch_and_store a id n v uids)
    (fun _ w' => grows (fetch_row id v (srv_view (w_srv w) n) uids) (w_db w) (w_db w') /\
       (storable_in id v n w -> covered id v (srv_view (w_srv w) n) uids (w_db w'))) w.
Proof.
  intros Hinv Hnd v. unfold safe. eapply wp_mono; [by apply fetchAndStore_spec|]. cbv zeta.
  intros w' r (Henv & Hg & Hr). split; [done|]. split; [by eapply grows_frame|]. split.
  - eapply mailbox_inv_transfer; [done| | | |done].
    + by rewrite (grows_mailboxes _ _ _ Hg).
    + unfold ckpt. by rewrite (grows_log _ _ _ Hg).
    + intros v' u [st Hst]. exists st. by eapply grows_old.
  - destruct r; [by left|done].
Qed.

(** *** SELECT *)

Lemma known_validity_sync v nx h m :
  1 <= v <= MaxUint32 -> known_validity (with_sync_state (uidValidityToDB v) nx h m) = v.
Proof.
  unfold known_validity, uidValidityToDB, uidValidityFromDB. simpl. intros.
  repeat case_bool; lia.
Qed.

(** A box that names the mailbox, and whose snapshot of the row does not remember
    another UIDVALIDITY than the row itself does. *)
Definition box_ok (id : Z) (n : string) (mb : syncMailbox) (w : World S) : Prop :=
  mb_ID (sb_row mb) = id /\ mi_Name (sb_info mb) = n /\
  (validity_ok (srv_validity (w_srv w) n) (sb_row mb) \/
   forall row, mailboxes (w_db w) !! id = Some row ->
     ~ validity_ok (srv_validity (w_srv w) n) row).

Lemma safe_select a id n known w :
  mailbox_inv a id n w ->
  safe a id n (SelectQResync n known 0)
    (fun sel w' => w_db w' = w_db w /\ srv_select (w_srv w) n known 0 = Some sel) w.
Proof.
  intros Hinv. unfold safe, SelectQResync. wp_steps.
  assert (mailbox_inv a id n (drop_fault w)).
  { by eapply mailbox_inv_transfer; [apply same_env_drop|..]. }
  apply wp_io. { intros e Hflt _. repeat (split; [auto with moov|]). by left. }
  wp_steps. simpl. destruct (srv_select (w_srv w) n known 0) as [sel|] eqn:E; wp_steps;
    repeat (split; [auto with moov|]); [done|]. right. by eexists _, _.
Qed.

(** Starting a recreated mailbox over: no checkpoint of the new UIDVALIDITY
    exists, so losing the rows breaks no claim. *)
Lemma safe_invalidate a id n w :
  mailbox_inv a id n w ->
  (forall row, mailboxes (w_db w) !! id = Some row ->
     ~ validity_ok (srv_validity (w_srv w) n) row) ->
  safe a id n (InvalidateMailbox id)
    (fun _ w' => mailboxes (w_db w') !! id = with_invalidated <$> mailboxes (w_db w) !! id) w.
Proof.
  intros [(row & Hrow & Hid) Hcl] Hno. unfold safe, InvalidateMailbox. wp_steps. apply wp_io.
  { intros e Hflt _. split; [auto with moov|]. split; [auto with moov|]. split; [|by left].
    split; simpl; eauto. }
  wp_steps. split; [apply same_env_drop|]. split; [|split].
  - split; simpl; [|intros; by rewrite lookup_alter_ne|intros|done].
    { intros row' Hr'. exists (with_invalidated row'). by rewrite lookup_alter_eq, Hr'. }
    apply option_eq. intros st. rewrite map_lookup_filter_Some. simpl. unfold in_mailbox. tauto.
  - split; simpl.
    + exists (with_invalidated row). by rewrite lookup_alter_eq, Hrow.
    + intros cp Hcp Hv. exfalso. destruct (Hcl cp Hcp Hv) as [_ Hok].
      by eapply Hno, Hok.
  - simpl. by rewrite lookup_alter_eq.
Qed.

Lemma safe_getMailbox a id n w :
  mailbox_inv a id n w ->
  safe a id n (GetMailbox id)
    (fun row w' => w_db w' = w_db w /\ mailboxes (w_db w) !! id = Some row) w.
Proof.
  intros Hinv. pose proof Hinv as [(row & Hrow & Hid) _]. unfold safe, GetMailbox. wp_steps.
  assert (mailbox_inv a id n (drop_fault w)).
  { by eapply mailbox_inv_transfer; [apply same_env_drop|..]. }
  apply wp_io. { intros e Hflt _. repeat (split; [auto with moov|]). by left. }
  wp_steps. simpl. rewrite Hrow. wp_steps. repeat (split; [auto with moov|]). done.
Qed.

Lemma safe_restart a id n mb w :
  mailbox_inv a id n w -> mb_ID (sb_row mb) = id ->
  (forall row, mailboxes (w_db w) !! id = Some row ->
     ~ validity_ok (srv_validity (w_srv w) n) row) ->
  safe a id n (restartMailbox a mb (srv_validity (w_srv w) n))
    (fun mb' w' => mb_ID (sb_row mb') = id /\ sb_info mb' = sb_info mb /\
       known_validity (sb_row mb') = 0) w.
Proof.
  intros Hinv Hid Hno. unfold restartMailbox. rewrite Hid. apply safe_bind.
  eapply safe_mono; [by apply safe_invalidate|]. intros [] w1 _ Hm1 Henv1 Hinv1.
  pose proof (view_bounds (w_srv w) n) as (Hv & _ & _).
  assert (forall row, mailboxes (w_db w1) !! id = Some row -> known_validity row = 0) as Hk1.
  { rewrite Hm1. intros row (row0 & _ & ->)%fmap_Some. done. }
  apply safe_bind. eapply safe_mono; [apply safe_save; [done|..|]|].
  - unfold is_uint32. simpl. lia.
  - unfold is_uint32, MaxUint32. simpl. lia.
  - done.
  - intros _. split; [split; simpl; [lia|done]|]. intros row Hrow. left. by apply Hk1.
  - intros [] w2 _ (_ & Hm2 & _) Henv2 Hinv2. apply safe_bind.
    eapply safe_mono; [by apply safe_getMailbox|].
    intros row w3 _ (Hdb & Hrow) Henv3 Hinv3. apply safe_ret; [done|]. simpl.
    destruct (mi_row _ _ _ _ Hinv2) as (row' & Hrow' & Hid'). split; [congruence|].
    split; [done|]. apply Hk1. congruence.
Qed.

Lemma safe_selectMailbox a id n mb w :
  mailbox_inv a id n w -> box_ok id n mb w ->
  safe a id n (selectMailbox a mb)
    (fun r w' => (exists known, srv_select (w_srv w) n known 0 = Some r.1) /\
       box_ok id n r.2 w' /\ sb_info r.2 = sb_info mb /\
       validity_ok (srv_validity (w_srv w) n) (sb_row r.2) /\
       (forall row, mailboxes (w_db w') !! id = Some row ->
          known_validity row = srv_validity (w_srv w) n)) w.
Proof.
  intros Hinv (Hid & Hn & Hok). unfold selectMailbox. rewrite Hn. apply safe_bind.
  eapply safe_mono; [by apply safe_select|]. intros sel w1 _ (Hdb1 & Hsel) Henv1 Hinv1.
  pose proof (view_bounds (w_srv w) n) as (Hv & _ & _).
  destruct (view_select _ _ _ _ _ Hsel) as (Hselv & _ & _).
  assert (srv_validity (w_srv w1) n = srv_validity (w_srv w) n) as Hsv by (by rewrite (proj1 Henv1)).
  apply safe_bind. eapply (safe_mono _ _ _ _ (fun mb' w' => mb_ID (sb_row mb') = id /\
    sb_info mb' = sb_info mb /\ validity_ok (srv_validity (w_srv w) n) (sb_row mb'))).
  - destruct (negb _ && negb _) eqn:Ec; bool_cases.
    + eapply safe_mono; [rewrite Hselv, <- Hsv; apply safe_restart; [done|done|]|].
      * destruct Hok as [[?|?]|Hno]; [congruence|congruence|]. rewrite Hdb1, Hsv. exact Hno.
      * intros mb' w' _ (? & ? & ?). split; [done|]. split; [done|]. by left.
    + apply safe_ret; [done|]. split; [done|]. split; [done|]. left. congruence.
    + apply safe_ret; [done|]. split; [done|]. split; [done|]. right. congruence.
  - intros mb' w2 Henv12 (Hid' & Hinfo & Hval) Henv2 Hinv2. rewrite Hid'. apply safe_bind.
    assert (srv_validity (w_srv w2) n = srv_validity (w_srv w) n) as Hsv2
      by (rewrite (proj1 Henv2); congruence).
    eapply safe_mono; [apply safe_update; [done|by repeat split|]|].
    + intros m _. right. rewrite Hsv2, Hselv. by apply known_validity_sync.
    + intros [] w3 Henv23 (_ & _ & Hm3) Henv3 Hinv3. apply safe_ret; [done|]. cbn [fst snd].
      split; [eauto|]. split; [|split; [done|split; [done|]]].
      * split; [done|]. split; [congruence|]. left. rewrite (proj1 Henv3), Hsv2. done.
      * intros row Hrow. rewrite Hm3 in Hrow. apply fmap_Some in Hrow as (row0 & _ & ->).
        rewrite Hselv. by apply known_validity_sync.
Qed.

(** *** Phase B *)

(** The row remembers the server's UIDVALIDITY. *)
Definition row_current (id v : Z) (d : DB) : Prop :=
  forall row, mailboxes d !! id = Some row -> known_validity row = v.

Definition cp_current (v : Z) (cp : mailboxCheckpoint) : Prop :=
  mc_ok cp /\ mc_UIDValidity cp = v.

Lemma safe_save_current a id n cp w :
  let v := srv_validity (w_srv w) n in
  mailbox_inv a id n w -> cp_current v cp -> row_current id v (w_db w) ->
  claims id v (srv_view (w_srv w) n) cp (w_db w) ->
  safe a id n (saveMailboxCheckpoint a id cp)
    (fun _ w' => message_state (w_db w') = message_state (w_db w) /\
       mailboxes (w_db w') = mailboxes (w_db w) /\ ckpt (w_db w') a id = Some cp) w.
Proof.
  intros v Hinv [(? & ? & ?) Hval] Hrow Hcl. apply safe_save; [done..|]. intros _.
  split; [done|]. intros row Hr. right. by apply Hrow.
Qed.

Lemma safe_progress a id n st low w :
  let v := srv_validity (w_srv w) n in
  mailbox_inv a id n w -> row_current id v (w_db w) ->
  safe a id n (SetBackfillProgress id st low)
    (fun _ w' => message_state (w_db w') = message_state (w_db w) /\
       ckpt (w_db w') a id = ckpt (w_db w) a id /\ row_current id v (w_db w') /\
       (exists row, mailboxes (w_db w') !! id = Some row /\ mb_BackfillState row = st)) w.
Proof.
  intros v Hinv Hrow. unfold SetBackfillProgress.
  eapply safe_mono; [apply safe_update; [exact Hinv|by repeat split|intros m Hm; exact Hm]|].
  intros [] w' _ (Hst & Hlog & Hm). split; [done|]. split; [unfold ckpt; by rewrite Hlog|].
  destruct (mi_row _ _ _ _ Hinv) as (row & Hrow' & _). rewrite Hrow' in Hm. split.
  - intros row0 Hr0. rewrite Hm in Hr0. injection Hr0 as <-. exact (Hrow _ Hrow').
  - eexists. split; [exact Hm|done].
Qed.

Lemma safe_markComplete a id n mb cp w :
  let v := srv_validity (w_srv w) n in
  mailbox_inv a id n w -> mb_ID (sb_row mb) = id -> cp_current v cp ->
  row_current id v (w_db w) -> covered_above id v (srv_view (w_srv w) n) 1 (w_db w) ->
  safe a id n (markComplete a mb cp)
    (fun _ w' => covered_above id v (srv_view (w_srv w) n) 1 (w_db w') /\
       row_current id v (w_db w') /\
       (exists cp', ckpt (w_db w') a id = Some cp' /\ mc_Complete cp' = true /\
          mc_UIDValidity cp' = v)) w.
Proof.
  intros v Hinv Hid [(? & ? & ?) Hval] Hrow Hcov. unfold markComplete. rewrite Hid.
  apply safe_bind. eapply safe_mono; [apply safe_save_current; [done| |done|]|].
  - split; [|exact Hval]. do 2 (split; [assumption|]). unfold is_uint32, MaxUint32. simpl. lia.
  - split; simpl; done.
  - intros [] w1 Henv1 (Hst & Hm & Hck) _ Hinv1. subst v. rewrite <- (proj1 Henv1) in *.
    eapply safe_mono; [apply safe_progress; [done|]|].
    { unfold row_current. by rewrite Hm. }
    intros [] w2 _ (Hst2 & Hck2 & Hrow2 & _). split; [|split; [done|]].
    + intros u Hu Hview. rewrite Hst2, Hst. by apply Hcov.
    + exists (with_complete cp). by rewrite Hck2, Hck.
Qed.

Lemma covered_above_extend id v view low high d :
  covered_above id v view (high + 1) d -> covered id v view (uidRange low high) d ->
  covered_above id v view low d.
Proof.
  intros Ha Hc u Hu Hview. destruct (decide (u <= high)).
  - apply Hc; [|done]. apply elem_of_uidRange. lia.
  - apply Ha; [lia|done].
Qed.

Lemma safe_io a id n w :
  mailbox_inv a id n w -> safe a id n io (fun _ w' => w_db w' = w_db w) w.
Proof.
  intros Hinv. assert (mailbox_inv a id n (drop_fault w)).
  { by eapply mailbox_inv_transfer; [apply same_env_drop|..]. }
  apply wp_io; [intros e Hflt _|]; repeat (split; [auto with moov|]); [by left|done].
Qed.

(** The walk: whatever it has stored is above the watermark it has saved, and
    it ends at UID 1. *)
Lemma backfill_loop_safe a id n mb fuel cp high st w :
  let v := srv_validity (w_srv w) n in
  let view := srv_view (w_srv w) n in
  mailbox_inv a id n w -> mb_ID (sb_row mb) = id -> mi_Name (sb_info mb) = n ->
  storable_in id v n w -> cp_current v cp -> mc_Complete cp = false -> row_current id v (w_db w) ->
  high <= MaxUint32 -> (Z.to_nat high <= fuel)%nat ->
  covered_above id v view (high + 1) (w_db w) ->
  safe a id n (backfill_loop BatchSize FetchWindow sha256 derive rejects sched assign
                 fuel a mb v cp high st)
    (fun r w' => covered_above id v view 1 (w_db w') /\ cp_current v r.1 /\
       row_current id v (w_db w')) w.
Proof.
  revert cp high st w. induction fuel as [|fuel IH]; intros cp high st w v view
    Hinv Hid Hn Hst Hcp Hnc Hrow Hmax Hfuel Hcov; cbn [backfill_loop].
  all: destruct (high <? 1) eqn:Hh; bool_cases;
    [apply safe_ret; [done|]; split; [|done]; intros u Hu; apply Hcov; lia|].
  { exfalso. lia. }
  pose proof (window_low_bounds FetchWindow high Hh) as Hlow.
  set (low := window_low FetchWindow high) in *. rewrite Hid, Hn.
  apply safe_bind. eapply safe_mono; [by apply safe_io|]. intros [] w0 _ Hdb0 Henv0 Hinv0.
  assert (v = srv_validity (w_srv w0) n) as Hv0 by (by rewrite (proj1 Henv0)).
  assert (view = srv_view (w_srv w0) n) as Hw0 by (by rewrite (proj1 Henv0)).
  apply safe_bind. rewrite Hv0. eapply safe_mono; [apply safe_fetch; auto with moov|].
  rewrite <- Hv0, <- Hw0. intros st' w1 _ (Hg1 & Hc1) Henv1 Hinv1.
  specialize (Hc1 (storable_env _ _ _ _ _ Henv0 Hst)). rewrite Hdb0 in Hg1.
  assert (covered_above id v view low (w_db w1)) as Hcov1.
  { eapply covered_above_extend; [|exact Hc1]. by eapply covered_above_grows. }
  assert (row_current id v (w_db w1)) as Hrow1.
  { unfold row_current. by rewrite (grows_mailboxes _ _ _ Hg1). }
  assert (same_env w w1) as Henv01 by (by eapply same_env_trans).
  assert (v = srv_validity (w_srv w1) n) as Hv1 by (by rewrite (proj1 Henv01)).
  assert (view = srv_view (w_srv w1) n) as Hw1 by (by rewrite (proj1 Henv01)).
  assert (cp_current v (with_low cp low)) as Hcp1.
  { destruct Hcp as [(? & ? & ?) ?]. split; [|assumption]. do 2 (split; [assumption|]).
    unfold is_uint32. simpl. lia. }
  apply safe_bind. eapply safe_mono.
  { apply safe_save_current; rewrite <- ?Hv1, <- ?Hw1; [done..|].
    split; simpl; [done|]. by rewrite Hnc. }
  intros [] w2 _ (Hst2 & Hm2 & _) Henv2 Hinv2.
  assert (same_env w w2) as Henv02 by (by eapply same_env_trans).
  assert (v = srv_validity (w_srv w2) n) as Hv2 by (by rewrite (proj1 Henv02)).
  apply safe_bind. eapply safe_mono.
  { apply safe_progress; rewrite <- ?Hv2; [done|]. unfold row_current. by rewrite Hm2. }
  rewrite <- Hv2. intros [] w3 _ (Hst3 & _ & Hrow3 & _) Henv3 Hinv3.
  assert (same_env w w3) as Henv03 by (by eapply same_env_trans).
  assert (covered_above id v view low (w_db w3)) as Hcov3.
  { intros u Hu Hview. rewrite Hst3, Hst2. by apply Hcov1. }
  destruct (low =? 1) eqn:Hl1; bool_cases.
  - apply safe_ret; [done|]. split; [|done]. by rewrite <- Hl1.
  - assert (v = srv_validity (w_srv w3) n) as Hv3 by (by rewrite (proj1 Henv03)).
    assert (view = srv_view (w_srv w3) n) as Hw3 by (by rewrite (proj1 Henv03)).
    rewrite Hv3, Hw3. apply IH; rewrite <- ?Hv3, <- ?Hw3; try done.
    + by eapply storable_env.
    + lia.
    + lia.
    + by replace (low - 1 + 1) with low by lia.
Qed.

(** The top of a mailbox that holds something. *)
Lemma highestUID_top n known sel w :
  srv_select (w_srv w) n known 0 = Some sel -> sel_NumMessages sel <> 0 ->
  highestUID sel = srv_uidnext (w_srv w) n - 1 /\ 1 <= highestUID sel.
Proof.
  intros Hsel Hne. destruct (view_select _ _ _ _ _ Hsel) as (_ & Hnext & _ & Hnum & _).
  destruct (view_bounds (w_srv w) n) as (_ & Hb & Hu).
  assert (1 < sel_UIDNext sel) as Hgt.
  { rewrite Hnext. destruct (decide (1 < srv_uidnext (w_srv w) n)); [done|]. exfalso.
    apply Hne. rewrite Hnum.
    assert (srv_view (w_srv w) n = ∅) as ->; [|by rewrite map_size_empty].
    apply map_empty. intros u. destruct (srv_view (w_srv w) n !! u) as [m|] eqn:E; [|done].
    destruct (Hu _ _ E). lia. }
  unfold highestUID. rewrite (proj2 (Z.ltb_lt _ _) Hgt). lia.
Qed.

(** Nothing lies above the top, and a watermark is true. *)
Lemma resume_high_covered id n known sel cp w :
  srv_select (w_srv w) n known 0 = Some sel -> sel_NumMessages sel <> 0 ->
  let v := srv_validity (w_srv w) n in
  let view := srv_view (w_srv w) n in
  claims id v view cp (w_db w) ->
  resume_high sel cp <= MaxUint32 /\
  covered_above id v view (resume_high sel cp + 1) (w_db w).
Proof.
  intros Hsel Hne v view [Hcl _].
  destruct (view_bounds (w_srv w) n) as (_ & Hb & Hu). fold view in Hu.
  destruct (highestUID_top _ _ _ _ Hsel Hne) as [Htop _].
  unfold resume_high. rewrite Htop.
  destruct (_ && _) eqn:E; bool_cases; (split; [lia|]); intros u Hle [m Hm].
  - apply Hcl; [lia|lia|eauto].
  - destruct (Hu _ _ Hm). lia.
  - destruct (Hu _ _ Hm). lia.
Qed.

Lemma empty_covered id n known sel w low :
  srv_select (w_srv w) n known 0 = Some sel -> sel_NumMessages sel = 0 ->
  covered_above id (srv_validity (w_srv w) n) (srv_view (w_srv w) n) low (w_db w).
Proof.
  intros Hsel H0. destruct (view_select _ _ _ _ _ Hsel) as (_ & _ & _ & Hnum & _).
  assert (srv_view (w_srv w) n = ∅) as ->.
  { apply map_size_empty_inv. lia. }
  intros u _ [m Hm]. by rewrite lookup_empty in Hm.
Qed.

(** The final state of a mailbox that was walked. *)
Definition fully_stored (id : Z) (n : string) (w : World S) : Prop :=
  covered_above id (srv_validity (w_srv w) n) (srv_view (w_srv w) n) 1 (w_db w).

Lemma backfill_selected_safe a id n mb sel known w :
  mailbox_inv a id n w -> mb_ID (sb_row mb) = id -> mi_Name (sb_info mb) = n ->
  srv_select (w_srv w) n known 0 = Some sel ->
  row_current id (srv_validity (w_srv w) n) (w_db w) ->
  storable_in id (srv_validity (w_srv w) n) n w ->
  safe a id n (backfill_selected BatchSize FetchWindow sha256 derive rejects sched assign a mb sel)
    (fun _ w' => fully_stored id n w') w.
Proof.
  intros Hinv Hid Hn Hsel Hrow Hst. unfold backfill_selected. rewrite Hid.
  destruct (view_select _ _ _ _ _ Hsel) as (Hselv & _). rewrite Hselv.
  apply safe_bind. eapply safe_mono; [by apply safe_load|].
  intros cp w1 _ (Hdb1 & Hok & Hval & Hcl & _) Henv1 Hinv1.
  unfold fully_stored. pose proof (proj1 Henv1) as Hs1.
  rewrite <- Hdb1, <- Hs1 in *.
  assert (cp_current (srv_validity (w_srv w1) n) cp) as Hcp by done.
  destruct (mc_Complete cp) eqn:Hcomp.
  { apply safe_ret; [done|]. by apply Hcl. }
  destruct (sel_NumMessages sel =? 0) eqn:Hnum; bool_cases.
  { apply safe_bind. eapply safe_mono.
    { apply safe_markComplete; try done. by eapply empty_covered. }
    intros [] w2 _ (Hc & _) Henv2 Hinv2. apply safe_ret; [done|].
    by rewrite (proj1 Henv2). }
  destruct (resume_high_covered id n known sel cp w1 Hsel Hnum Hcl) as [Hmax Hcov].
  apply safe_bind. eapply safe_mono; [by apply safe_progress|].
  intros [] w2 _ (Hst2 & _ & Hrow2 & _) Henv2 Hinv2. pose proof (proj1 Henv2) as Hs2.
  apply safe_bind. rewrite <- Hs2 in *. eapply safe_mono.
  { apply backfill_loop_safe; try done.
    - eapply storable_env; [exact Henv2|]. by eapply storable_env.
    - intros u Hu Hview. rewrite Hst2. by apply Hcov. }
  intros [cp' st'] w3 _ (Hcov3 & Hcp3 & Hrow3) Henv3 Hinv3. pose proof (proj1 Henv3) as Hs3.
  cbn [fst snd] in *. rewrite <- Hs3 in *. apply safe_bind.
  eapply safe_mono; [by apply safe_markComplete|].
  intros [] w4 _ (Hc & _) Henv4 Hinv4. apply safe_ret; [done|]. by rewrite (proj1 Henv4).
Qed.

Lemma backfillMailbox_safe a id n mb w :
  mailbox_inv a id n w -> box_ok id n mb w ->
  storable_in id (srv_validity (w_srv w) n) n w ->
  safe a id n (backfillMailbox BatchSize FetchWindow sha256 derive rejects sched assign a mb)
    (fun _ w' => fully_stored id n w') w.
Proof.
  intros Hinv Hbox Hst. unfold backfillMailbox. apply safe_bind.
  eapply safe_mono; [by apply safe_selectMailbox|].
  intros [sel mb'] w1 _ ((known & Hsel) & (Hid & Hn & _) & _ & _ & Hrow) Henv1 Hinv1.
  cbn [fst snd] in *. pose proof (proj1 Henv1) as Hs1. rewrite <- Hs1 in *.
  eapply backfill_selected_safe; try done. by eapply storable_env.
Qed.

(** *** Phase A *)

(** INTERNALDATE is reported and grows with the UID: mail is delivered, never
    copied in with an old date. *)
Definition arrival_order (view : gmap Z SrvMsg) : Prop :=
  (forall u m, view !! u = Some m -> sm_InternalDate m <> 0) /\
  (forall u u' m m', view !! u = Some m -> view !! u' = Some m' -> u <= u' ->
     sm_InternalDate m <= sm_InternalDate m').

(** A set of UIDs the scan may hand to the pipeline: messages of the server, and
    with one of them every younger message in the window. *)
Definition scanned (view : gmap Z SrvMsg) (cutoff : Time) (bound : Z) (found : list Z) : Prop :=
  NoDup found /\
  (forall u, u ∈ found <-> bound <= u /\ exists m, view !! u = Some m /\
     in_window cutoff (fetched_of u m) = true).

Lemma probeWindow_safe a id n low high cutoff w :
  mailbox_inv a id n w -> low <= high ->
  safe a id n (probeWindow n low high cutoff)
    (fun r w' => w_db w' = w_db w /\ NoDup r.1 /\
       forall u, u ∈ r.1 <-> low <= u <= high /\ exists m, srv_view (w_srv w) n !! u = Some m /\
         in_window cutoff (fetched_of u m) = true) w.
Proof.
  intros Hinv Hle. unfold probeWindow. case_decide as Hnil.
  { exfalso. assert (low ∈ uidRange low high) as Hin by (apply elem_of_uidRange; lia).
    rewrite Hnil in Hin. set_solver. }
  apply safe_bind. eapply safe_mono; [by apply safe_io|].
  intros [] w1 _ Hdb1 Henv1 Hinv1. apply (safe_mono _ _ _ _ (fun r w' => w' = w1 /\
    r = (f_UID <$> filter (fun f => in_window cutoff f = true)
           (srv_fetch (w_srv w1) n (uidRange low high)),
         existsb (fun f => negb (in_window cutoff f))
           (srv_fetch (w_srv w1) n (uidRange low high))))).
  { unfold safe. wp_steps. auto with moov. }
  intros r w' _ [-> ->]. cbn [fst]. split; [done|]. rewrite (proj1 Henv1). split.
  - apply NoDup_fmap_filter, view_fetch_nodup, NoDup_uidRange.
  - intros u. rewrite list_elem_of_fmap. split.
    + intros (f & -> & [Hw Hf]%list_elem_of_filter).
      apply view_fetch in Hf as (m & Hu & Hm & Heq); [|apply NoDup_uidRange].
      split; [by apply elem_of_uidRange|]. exists m. split; [done|]. by rewrite <- Heq.
    + intros (Hu & m & Hm & Hw). exists (fetched_of u m). split; [done|].
      apply list_elem_of_filter. split; [done|]. apply view_fetch; [apply NoDup_uidRange|].
      exists m. split; [by apply elem_of_uidRange|done].
Qed.

Lemma recent_loop_safe a id n cutoff fuel high found w :
  mailbox_inv a id n w -> (Z.to_nat high <= fuel)%nat ->
  scanned (srv_view (w_srv w) n) cutoff (high + 1) found ->
  safe a id n (recent_loop FetchWindow fuel n cutoff high found)
    (fun r w' => w_db w' = w_db w /\
       exists bound, scanned (srv_view (w_srv w) n) cutoff bound r) w.
Proof.
  revert high found w. induction fuel as [|fuel IH]; intros high found w Hinv Hfuel Hsc;
    cbn [recent_loop]; (destruct (high <? 1) eqn:Hh; bool_cases; [apply safe_ret; eauto|]).
  { exfalso. lia. }
  pose proof (window_low_bounds FetchWindow high Hh) as Hlow.
  set (low := window_low FetchWindow high) in *.
  apply safe_bind. eapply safe_mono; [apply probeWindow_safe; [done|lia]|].
  intros [band reached] w1 _ (Hdb1 & Hnd & Hband) Henv1 Hinv1. cbn [fst] in *.
  assert (scanned (srv_view (w_srv w) n) cutoff low (band ++ found)) as Hsc1.
  { destruct Hsc as [Hndf Hf]. split.
    - apply NoDup_app. split; [done|]. split; [|done]. intros u Hu%Hband Hu'%Hf. lia.
    - intros u. rewrite elem_of_app, Hband, Hf. split.
      + intros [[? ?]|[? ?]]; (split; [lia|done]).
      + intros [? ?]. destruct (decide (u <= high)); [left|right]; (split; [lia|done]). }
  destruct (reached || _) eqn:E; [apply safe_ret; eauto|].
  rewrite <- (proj1 Henv1), <- Hdb1. apply IH; [done|lia|].
  rewrite (proj1 Henv1). by replace (low - 1 + 1) with low by lia.
Qed.

Lemma recentUIDs_safe a id n known sel cutoff w :
  mailbox_inv a id n w -> srv_select (w_srv w) n known 0 = Some sel ->
  sel_NumMessages sel <> 0 ->
  safe a id n (recentUIDs FetchWindow n sel cutoff)
    (fun r w' => w_db w' = w_db w /\
       exists bound, scanned (srv_view (w_srv w) n) cutoff bound r) w.
Proof.
  intros Hinv Hsel Hne. destruct (highestUID_top _ _ _ _ Hsel Hne) as [Htop H1].
  unfold recentUIDs. destruct (highestUID sel =? 0) eqn:E; bool_cases; [lia|].
  apply recent_loop_safe; [done|done|]. split; [constructor|]. intros u. split; [set_solver|].
  intros (Hle & m & Hm & _). destruct (view_bounds (w_srv w) n) as (_ & _ & Hb).
  destruct (Hb _ _ Hm). lia.
Qed.

(** The window's lowest UID is a true watermark when mail arrives in order. *)
Lemma scanned_claims id v view cutoff bound uids cp d d' R :
  scanned view cutoff bound uids -> arrival_order view -> 0 < v ->
  claims id v view cp d -> grows R d d' -> covered id v view uids d' ->
  claims id v view (with_recent cp uids) d'.
Proof.
  intros [_ Hsc] [Hnz Hord] Hv [H1 H2] Hg Hc. split; simpl.
  - destruct uids as [|u0 uids].
    { intros Hlt. by eapply covered_above_grows; [apply H1|]. }
    intros _ u Hle [m Hm]. apply Hc; [|eauto]. apply Hsc.
    destruct (proj1 (Hsc u0)) as (Hb & m0 & Hm0 & Hw0); [by left|]. split; [lia|].
    exists m. split; [done|]. pose proof (Hord _ _ _ _ Hm0 Hm Hle) as Hdate.
    pose proof (Hnz _ _ Hm) as Hz. pose proof (Hnz _ _ Hm0) as Hz0. revert Hw0.
    unfold in_window, IsZero, Before. simpl. repeat case_bool; simpl; intros; try done; lia.
  - intros Hcomp. by eapply covered_above_grows; [apply H2|].
Qed.

Lemma recent_fetch_safe a id n mb known sel cutoff w :
  mailbox_inv a id n w -> mb_ID (sb_row mb) = id -> mi_Name (sb_info mb) = n ->
  srv_select (w_srv w) n known 0 = Some sel -> sel_NumMessages sel <> 0 ->
  row_current id (srv_validity (w_srv w) n) (w_db w) ->
  storable_in id (srv_validity (w_srv w) n) n w -> arrival_order (srv_view (w_srv w) n) ->
  safe a id n (recent_fetch BatchSize FetchWindow sha256 derive rejects sched assign
                 a mb sel cutoff) (fun _ _ => True) w.
Proof.
  intros Hinv Hid Hn Hsel Hne Hrow Hst Hord. unfold recent_fetch. rewrite Hid, Hn.
  destruct (view_select _ _ _ _ _ Hsel) as (Hselv & _). rewrite Hselv.
  destruct (view_bounds (w_srv w) n) as (Hvb & Hnb & Hub).
  apply safe_bind. eapply safe_mono; [by apply safe_load|].
  intros cp w1 _ (Hdb1 & Hok & Hval & Hcl & _) Henv1 Hinv1. pose proof (proj1 Henv1) as Hs1.
  rewrite <- Hdb1, <- Hs1 in *. destruct (mc_RecentDone cp); [by apply safe_ret|].
  apply safe_bind. eapply safe_mono; [by eapply recentUIDs_safe|].
  intros uids w2 _ (Hdb2 & bound & Hsc) Henv2 Hinv2. pose proof (proj1 Henv2) as Hs2.
  rewrite <- Hdb2, <- Hs2 in *. apply safe_bind.
  eapply safe_mono; [apply safe_fetch; [done|apply Hsc]|].
  intros st w3 _ (Hg3 & Hc3) Henv3 Hinv3. pose proof (proj1 Henv3) as Hs3.
  specialize (Hc3 ltac:(by eapply storable_env; [exact Henv2|eapply storable_env])).
  assert (row_current id (srv_validity (w_srv w2) n) (w_db w3)) as Hrow3.
  { unfold row_current. by rewrite (grows_mailboxes _ _ _ Hg3). }
  assert (claims id (srv_validity (w_srv w2) n) (srv_view (w_srv w2) n)
    (with_recent cp uids) (w_db w3)) as Hcl3.
  { eapply scanned_claims; try done. lia. }
  assert (cp_current (srv_validity (w_srv w2) n) (with_recent cp uids)) as Hcp3.
  { destruct Hok as (? & ? & ?). split; [|done]. do 2 (split; [done|]).
    destruct uids as [|u uids]; [done|]. destruct Hsc as [_ Hsc].
    destruct (proj1 (Hsc u)) as (_ & m & Hm & _); [by left|].
    destruct (Hub _ _ Hm). unfold is_uint32. simpl. lia. }
  rewrite <- Hs3 in *. apply safe_bind. eapply safe_mono; [by apply safe_save_current|].
  intros [] w4 _ (_ & Hm4 & _) Henv4 Hinv4. apply safe_bind.
  eapply safe_mono; [apply safe_progress; [done|]|].
  { rewrite (proj1 Henv4). unfold row_current. by rewrite Hm4. }
  intros [] w5 _ _ Henv5 Hinv5. by apply safe_ret.
Qed.

Lemma recent_inbox_safe a id n mb w :
  mailbox_inv a id n w -> box_ok id n mb w ->
  storable_in id (srv_validity (w_srv w) n) n w -> arrival_order (srv_view (w_srv w) n) ->
  safe a id n (recent_inbox BatchSize FetchWindow RecentWindow sha256 derive rejects sched assign
                 a mb) (fun r w' => box_ok id n r.1 w' /\ sb_info r.1 = sb_info mb) w.
Proof.
  intros Hinv Hbox Hst Hord. unfold recent_inbox. apply safe_bind.
  apply (safe_mono _ _ _ _ (fun _ w' => w' = w)).
  { unfold safe. wp_steps. auto with moov. }
  intros t w0 _ -> _ _. apply safe_bind. eapply safe_mono; [by apply safe_selectMailbox|].
  intros [sel mb'] w1 _ ((known & Hsel) & Hbox' & Hinfo & Hval & Hrow) Henv1 Hinv1.
  cbn [fst snd] in *. pose proof Hbox' as (Hid & Hn & _).
  destruct (sel_NumMessages sel =? 0) eqn:E; bool_cases; [by apply safe_ret|].
  pose proof (proj1 Henv1) as Hs1. rewrite <- Hs1 in *. apply safe_bind.
  eapply safe_mono; [eapply recent_fetch_safe; try done; by eapply storable_env|].
  intros st w2 _ _ Henv2 Hinv2. apply safe_ret; [done|]. cbn [fst]. split; [|done].
  split; [done|]. split; [done|]. left. by rewrite (proj1 Henv2).
Qed.
End mailbox.
