(* ===== verification/InitialRun.v ===== *)
(** The initial sync of a whole account ([Initial.Run]): every checkpoint stays
    true across runs that are interrupted anywhere, and a run that completes has
    stored every message of every folder. *)

From S2P Require Import Prelude Convert Utf8 Store Imap Checkpoint Discover Pipeline Initial.
From S2P Require Import InitialSafety.
#[local] Open Scope Z_scope.

Section account.
Context {S : Type} `{ImapServer S} `{!ImapLaws S}.
Context (BatchSize : nat) (FetchWindow RecentWindow : Z).
Context (sha256 : string -> string) (derive : string -> Message).
Context (rejects : NewMessage -> bool).
Context (sched : list rawMessage -> list rawMessage).
Context (sched_perm : forall l, sched l ≡ₚ l).
Context (assign : DB -> Z -> list Z -> option (list (Z * Z))).
Implicit Types w : World S.

(** Every folder of the account has a true checkpoint; an id no folder has has
    none. *)
Record account_inv (a : Z) (w : World S) : Prop := {
  ai_wf : mailboxes_wf (w_db w);
  ai_rows id row : mailboxes (w_db w) !! id = Some row -> mb_AccountID row = a ->
    mailbox_inv a id (mb_Name row) w;
  ai_fresh id : mailboxes (w_db w) !! id = None -> ckpt (w_db w) a id = None
}.

(** The server's messages can be stored. *)
Definition accepts (w : World S) : Prop :=
  forall id n, mailbox_storable sha256 derive rejects id (srv_validity (w_srv w) n) n w.

Lemma accepts_env w w' : same_env w w' -> accepts w -> accepts w'.
Proof.
  intros Henv Ha id n. rewrite (proj1 Henv). eapply storable_env; [done|]. apply Ha.
Qed.

(** A folder the server offers for selection. *)
Definition listed (w : World S) (n : string) : Prop :=
  exists info, info ∈ srv_list (w_srv w) /\ mi_NoSelect info = false /\ mi_Name info = n.

(** What may make a run fail. *)
Definition excused (w : World S) (e : err) : Prop :=
  faulty w \/ (exists n, listed w n /\ unselectable n w) \/ e = ErrUnique.

Lemma excused_env w w' e : same_env w w' -> excused w' e -> excused w e.
Proof.
  intros Henv [?|[(n & Hl & ?)|?]]; [left; by apply Henv|right; left|by right; right].
  exists n. split; [|by eapply unselectable_env]. unfold listed in *. by rewrite <- (proj1 Henv).
Qed.

Definition asafe {A} (a : Z) (m : M (World S) err A) (Q : A -> World S -> Prop) (w : World S)
    : Prop :=
  wp m (fun w' r => same_env w w' /\ account_inv a w' /\
                    match r with inl e => excused w e | inr x => Q x w' end) w.

Lemma asafe_mono {A} a (m : M (World S) err A) (P Q : A -> World S -> Prop) w :
  asafe a m P w -> (forall x w', P x w' -> Q x w') -> asafe a m Q w.
Proof.
  unfold asafe. intros Hs HPQ. eapply wp_mono; [exact Hs|]. intros w' r (? & ? & Hr).
  split; [done|]. split; [done|]. destruct r; auto.
Qed.

Lemma asafe_ret {A} a (x : A) (Q : A -> World S -> Prop) w :
  account_inv a w -> Q x w -> asafe a (mret x) Q w.
Proof. intros. apply wp_ret. auto with moov. Qed.

Lemma asafe_bind {A B} a (m : M (World S) err A) (k : A -> M (World S) err B)
    (Q : B -> World S -> Prop) w :
  asafe a m (fun x w' => same_env w w' -> account_inv a w' -> asafe a (k x) Q w') w ->
  asafe a (m ≫= k) Q w.
Proof.
  unfold asafe. intros Hm. apply wp_bind. eapply wp_mono; [exact Hm|].
  intros w1 [e|x] (Henv1 & Hi1 & Hr1); [done|].
  eapply wp_mono; [by apply Hr1|]. intros w2 r2 (Henv2 & Hi2 & Hr2).
  split; [by eapply same_env_trans|]. split; [done|]. destruct r2; [|done].
  by eapply excused_env.
Qed.

(** A step on one folder keeps every folder's checkpoint true. *)
Lemma account_inv_frame a id n row w w' :
  account_inv a w -> mailboxes (w_db w) !! id = Some row -> mb_AccountID row = a ->
  mb_Name row = n -> same_env w w' -> mailbox_frame a id (w_db w) (w_db w') ->
  mailbox_inv a id n w' -> account_inv a w'.
Proof.
  intros [[Hid Huniq] Hrows Hfresh] Hrow Ha Hn Henv Hf Hinv.
  pose proof Hf as [Hr Ho _ Hl].
  destruct (Hr _ Hrow) as (row' & Hrow' & (Hi' & Ha' & Hn')).
  assert (forall j m, mailboxes (w_db w') !! j = Some m ->
    exists m0, mailboxes (w_db w) !! j = Some m0 /\ same_ident m0 m) as Hback.
  { intros j m Hm. destruct (decide (j = id)) as [->|Hne].
    - assert (m = row') as -> by congruence. exists row. by split.
    - rewrite Ho in Hm by done. by exists m. }
  split; [split| |].
  - intros j m (m0 & Hm0 & (-> & _))%Hback. auto.
  - intros i j m m' (m0 & Hm0 & (_ & -> & ->))%Hback (m1 & Hm1 & (_ & -> & ->))%Hback. eauto.
  - intros j m Hm Hacc. destruct (decide (j = id)) as [->|Hne].
    + assert (m = row') as -> by congruence. by rewrite Hn', Hn.
    + rewrite Ho in Hm by done. eapply mailbox_inv_frame; eauto.
  - intros j Hj. destruct (decide (j = id)) as [->|Hne]; [congruence|].
    rewrite Ho in Hj by done. unfold ckpt. rewrite Hl; [by apply Hfresh|].
    intros Heq%(f_equal snd)%mailboxScope_inj. done.
Qed.

Lemma asafe_safe {A} a id n row (m : M (World S) err A) Q w :
  account_inv a w -> mailboxes (w_db w) !! id = Some row -> mb_AccountID row = a ->
  mb_Name row = n -> listed w n -> (mailbox_inv a id n w -> safe a id n m Q w) ->
  asafe a m (fun x w' => Q x w' /\ mailbox_frame a id (w_db w) (w_db w') /\ same_env w w') w.
Proof.
  intros Hinv Hrow Ha Hn Hl Hs. unfold asafe.
  eapply wp_mono; [apply Hs; rewrite <- Hn; by eapply ai_rows|].
  intros w' r (Henv & Hf & Hi & Hr). split; [done|].
  split; [by eapply account_inv_frame|].
  destruct r as [e|x]; [|done]. destruct Hr as [?|?]; [by left|]. right. left. by exists n.
Qed.

(** A statement on the account's own scope touches no mailbox. *)
Lemma account_inv_log a w w' :
  account_inv a w -> same_env w w' -> mailboxes (w_db w') = mailboxes (w_db w) ->
  message_state (w_db w') = message_state (w_db w) ->
  (forall k, k <> (a, AccountScope) -> sync_log (w_db w') !! k = sync_log (w_db w) !! k) ->
  account_inv a w'.
Proof.
  intros [Hwf Hrows Hfresh] Henv Hm Hs Hl.
  assert (forall id, ckpt (w_db w') a id = ckpt (w_db w) a id) as Hck.
  { intros id. unfold ckpt. rewrite Hl; [done|]. intros Heq%(f_equal snd).
    by apply mailboxScope_account in Heq. }
  split.
  - unfold mailboxes_wf. by rewrite Hm.
  - rewrite Hm. intros id row Hrow Ha. eapply mailbox_inv_transfer; [done| | | |by apply Hrows].
    + by rewrite Hm.
    + done.
    + by rewrite Hs.
  - rewrite Hm. intros id. rewrite Hck. apply Hfresh.
Qed.

Lemma asafe_phase a phase w :
  account_inv a w ->
  asafe a (saveAccountPhase a phase)
    (fun _ w' => mailboxes (w_db w') = mailboxes (w_db w) /\
       message_state (w_db w') = message_state (w_db w)) w.
Proof.
  intros Hinv. unfold asafe, saveAccountPhase, SaveCheckpoint, upsert_log. wp_steps.
  apply wp_io.
  - intros e Hf _. split; [auto with moov|]. split; [|by left].
    by eapply account_inv_log; [|apply same_env_drop|..].
  - wp_steps. split; [apply same_env_drop|]. split; [|done].
    eapply account_inv_log; [done|apply same_env_drop|done|done|]. simpl. intros k Hk.
    by rewrite lookup_insert_ne.
Qed.

(** *** The boxes of a run *)

Definition box_id (b : syncMailbox) : Z := mb_ID (sb_row b).
Definition box_name (b : syncMailbox) : string := mi_Name (sb_info b).

(** The table has the folder's row, and the box may be synced against it. *)
Definition box_ready (a : Z) (w : World S) (b : syncMailbox) : Prop :=
  (exists row, mailboxes (w_db w) !! box_id b = Some row /\ mb_AccountID row = a /\
     mb_Name row = box_name b) /\
  box_ok (box_id b) (box_name b) b w /\ listed w (box_name b).

Lemma box_ready_frame a id b w w' :
  box_ready a w b -> box_id b <> id -> same_env w w' -> mailbox_frame a id (w_db w) (w_db w') ->
  box_ready a w' b.
Proof.
  intros [(row & Hrow & Ha & Hn) [(H1 & H2 & H3) Hl]] Hne Henv [_ Ho _ _].
  split; [exists row; by rewrite Ho|]. unfold listed, box_ok. rewrite (proj1 Henv), Ho by done.
  done.
Qed.

Lemma fully_stored_frame a id' id n w w' :
  fully_stored id n w -> id <> id' -> same_env w w' -> mailbox_frame a id' (w_db w) (w_db w') ->
  fully_stored id n w'.
Proof.
  intros Hf Hne Henv [_ _ Hs _] u Hu Hview. rewrite (proj1 Henv) in *. rewrite Hs by done.
  by apply Hf.
Qed.

(** The row of a folder survives a step, whichever folder it is on. *)
Lemma frame_row a id b w w' :
  box_ready a w b -> mailbox_frame a id (w_db w) (w_db w') ->
  exists row, mailboxes (w_db w') !! box_id b = Some row /\ mb_AccountID row = a /\
    mb_Name row = box_name b.
Proof.
  intros [(row & Hrow & Ha & Hn) _] [Hr Ho _ _]. destruct (decide (box_id b = id)) as [<-|Hne].
  - destruct (Hr _ Hrow) as (row' & ? & (_ & ? & ?)). exists row'. split; [done|].
    split; congruence.
  - exists row. by rewrite Ho.
Qed.

Abbreviation backfill_mailbox :=
  (backfillMailbox BatchSize FetchWindow sha256 derive rejects sched assign).

(** What is stored of the folders not visited stays stored. *)
Definition keeps_others (ids : list Z) (w w' : World S) : Prop :=
  forall id n, id ∉ ids -> fully_stored id n w -> fully_stored id n w'.

Definition rows_kept (a : Z) (boxes : list syncMailbox) (w : World S) : Prop :=
  Forall (fun b => exists row, mailboxes (w_db w) !! box_id b = Some row /\
    mb_AccountID row = a /\ mb_Name row = box_name b) boxes.

Lemma backfill_boxes_asafe a boxes st w :
  account_inv a w -> accepts w -> Forall (box_ready a w) boxes -> NoDup (box_id <$> boxes) ->
  asafe a (backfill_boxes BatchSize FetchWindow sha256 derive rejects sched assign a boxes st)
    (fun _ w' => Forall (fun b => fully_stored (box_id b) (box_name b) w') boxes /\
       keeps_others (box_id <$> boxes) w w' /\
       (forall j, j ∉ box_id <$> boxes -> mailboxes (w_db w') !! j = mailboxes (w_db w) !! j) /\
       rows_kept a boxes w') w.
Proof.
  revert st w. induction boxes as [|b boxes IH]; intros st w Hinv Hacc Hready Hnd;
    cbn [backfill_boxes].
  { apply asafe_ret; [done|]. split; [constructor|]. split; [by intros id n|].
    split; [done|constructor]. }
  rewrite fmap_cons in Hnd. apply NoDup_cons in Hnd as [Hnin Hnd].
  apply Forall_cons in Hready as [Hb Hbs]. pose proof Hb as [(row & Hrow & Ha & Hn) [Hok Hlisted]].
  apply asafe_bind. eapply asafe_mono.
  { eapply asafe_safe; [done|exact Hrow|done|exact Hn|done|]. intros Hi.
    apply backfillMailbox_safe; [exact sched_perm|done|done|apply Hacc]. }
  intros st' w1 (Hfull & Hframe & _) Henv1 Hinv1.
  assert (Forall (box_ready a w1) boxes) as Hbs1.
  { rewrite Forall_forall in Hbs |- *. intros b' Hb'. eapply box_ready_frame; [by apply Hbs| |done..].
    intros Heq. apply Hnin. rewrite <- Heq. by apply list_elem_of_fmap_2. }
  eapply asafe_mono; [apply IH; [done|by eapply accepts_env|done|done]|].
  intros _ w2 (Hall & Hkeep & Hother & Hrows). split; [|split; [|split]].
  - constructor; [|done]. apply Hkeep; [done|]. exact Hfull.
  - intros id n Hid Hst. rewrite fmap_cons, not_elem_of_cons in Hid. destruct Hid.
    apply Hkeep; [done|]. by eapply fully_stored_frame.
  - intros j Hj. rewrite fmap_cons, not_elem_of_cons in Hj. destruct Hj as [Hj1 Hj2].
    rewrite Hother by done. by apply Hframe.
  - constructor; [|done]. rewrite Hother by done. by eapply frame_row.
Qed.

Lemma runBackfill_asafe a boxes w :
  account_inv a w -> accepts w -> Forall (box_ready a w) boxes -> NoDup (box_id <$> boxes) ->
  asafe a (runBackfill BatchSize FetchWindow sha256 derive rejects sched assign a boxes)
    (fun _ w' => Forall (fun b => fully_stored (box_id b) (box_name b) w') boxes /\
                 rows_kept a boxes w') w.
Proof.
  intros Hinv Hacc Hready Hnd. unfold runBackfill. apply asafe_bind.
  eapply asafe_mono; [by apply asafe_phase|]. intros [] w1 (Hm & _) Henv1 Hinv1.
  eapply asafe_mono; [apply backfill_boxes_asafe; [done|by eapply accepts_env| |done]|].
  - eapply Forall_impl; [exact Hready|]. intros b [(row & ? & ? & ?) Hok].
    split; [exists row; by rewrite Hm|]. unfold listed, box_ok. by rewrite (proj1 Henv1), Hm.
  - intros _ w2 (? & _ & _ & ?). done.
Qed.

Definition arrives_in_order (w : World S) : Prop :=
  forall n, arrival_order (srv_view (w_srv w) n).

Lemma recent_boxes_asafe a boxes w :
  account_inv a w -> accepts w -> arrives_in_order w -> Forall (box_ready a w) boxes ->
  NoDup (box_id <$> boxes) ->
  asafe a (runRecent_boxes BatchSize FetchWindow RecentWindow sha256 derive rejects sched assign
             a boxes)
    (fun r w' => Forall (box_ready a w') r.1 /\ sb_info <$> r.1 = sb_info <$> boxes /\
       box_id <$> r.1 = box_id <$> boxes /\
       (forall b, box_id b ∉ box_id <$> boxes -> box_ready a w b -> box_ready a w' b)) w.
Proof.
  revert w. induction boxes as [|b boxes IH]; intros w Hinv Hacc Hord Hready Hnd;
    cbn [runRecent_boxes].
  { apply asafe_ret; [done|]. split; [constructor|]. by split. }
  rewrite fmap_cons in Hnd. apply NoDup_cons in Hnd as [Hnin Hnd].
  apply Forall_cons in Hready as [Hb Hbs]. pose proof Hb as [(row & Hrow & Ha & Hn) [Hok Hlisted]].
  destruct (isInbox b).
  - apply asafe_bind. eapply asafe_mono.
    { eapply asafe_safe; [done|exact Hrow|done|exact Hn|done|]. intros Hi.
      apply recent_inbox_safe; [exact sched_perm|done|done|apply Hacc|apply Hord]. }
    intros [b' st] w1 ((Hok' & Hinfo) & Hframe & Henv) Henv1 Hinv1. cbn [fst] in *.
    apply asafe_ret; [done|]. cbn [fst]. assert (box_id b' = box_id b) as Hid by apply Hok'.
    assert (box_name b' = box_name b) as Hname by (unfold box_name; by rewrite Hinfo).
    assert (forall c, box_id c <> box_id b -> box_ready a w c -> box_ready a w1 c) as Hkeep.
    { intros c Hne Hc. by eapply box_ready_frame. }
    split; [|split; [|split]].
    + constructor.
      * split; [|rewrite Hid, Hname; split; [done|]; unfold listed; by rewrite (proj1 Henv)].
        rewrite Hid, Hname. by eapply frame_row.
      * rewrite Forall_forall in Hbs |- *. intros c Hc. apply Hkeep; [|by apply Hbs].
        intros Heq. apply Hnin. rewrite <- Heq. by apply list_elem_of_fmap_2.
    + by rewrite !fmap_cons, Hinfo.
    + by rewrite !fmap_cons, Hid.
    + intros c Hc. apply Hkeep. rewrite fmap_cons, not_elem_of_cons in Hc. by destruct Hc.
  - apply asafe_bind. eapply asafe_mono; [by apply IH|].
    intros [boxes' st] w1 (Hr & Hinfo & Hids & Hkeep) Henv1 Hinv1. cbn [fst] in *.
    apply asafe_ret; [done|]. cbn [fst]. split; [constructor; auto|].
    split; [by rewrite !fmap_cons, Hinfo|]. split; [by rewrite !fmap_cons, Hids|].
    intros c Hc. rewrite fmap_cons, not_elem_of_cons in Hc. destruct Hc. by apply Hkeep.
Qed.

Lemma runRecent_asafe a boxes w :
  account_inv a w -> accepts w -> arrives_in_order w -> Forall (box_ready a w) boxes ->
  NoDup (box_id <$> boxes) ->
  asafe a (runRecent BatchSize FetchWindow RecentWindow sha256 derive rejects sched assign a boxes)
    (fun r w' => Forall (box_ready a w') r.1 /\ sb_info <$> r.1 = sb_info <$> boxes /\
       box_id <$> r.1 = box_id <$> boxes) w.
Proof.
  intros Hinv Hacc Hord Hready Hnd. unfold runRecent. apply asafe_bind.
  eapply asafe_mono; [by apply recent_boxes_asafe|].
  intros [boxes' st] w1 (Hr & Hinfo & Hids & _) Henv1 Hinv1. cbn [fst] in *.
  apply asafe_bind. eapply asafe_mono; [by apply asafe_phase|].
  intros [] w2 (Hm & _) Henv2 Hinv2. apply asafe_ret; [done|]. cbn [fst]. split; [|done].
  eapply Forall_impl; [exact Hr|]. intros b [(row & ? & ? & ?) Hok].
  split; [exists row; by rewrite Hm|]. unfold listed, box_ok. by rewrite (proj1 Henv2), Hm.
Qed.

(** *** Discovery *)

Lemma same_sync_known m m' : same_sync m m' -> known_validity m' = known_validity m.
Proof. intros (_ & _ & _ & Hv & _). unfold known_validity. by rewrite Hv. Qed.

Lemma account_inv_discovers a w w' :
  account_inv a w -> same_env w w' -> discovers (w_db w) (w_db w') -> account_inv a w'.
Proof.
  intros [Hwf Hrows Hfresh] Henv [Hwf' Hs Hl Ho Hn].
  assert (forall id, ckpt (w_db w') a id = ckpt (w_db w) a id) as Hck
    by (intros; unfold ckpt; by rewrite Hl).
  split; [done| |].
  - intros id row Hrow Ha. destruct (mailboxes (w_db w) !! id) as [row0|] eqn:E.
    + destruct (Ho _ _ E) as (row1 & Hrow1 & Hsame). assert (row1 = row) as -> by congruence.
      pose proof Hsame as (Hi & Hac & Hna & _). rewrite Hna.
      destruct (Hrows id row0 E) as [_ Hcl]; [congruence|]. split.
      * exists row. split; [done|]. by apply Hwf'.
      * unfold claims, covered_above in *. rewrite Hck, Hs, (proj1 Henv). intros cp Hcp Hv. destruct (Hcl cp Hcp Hv) as [? Hok].
        split; [done|]. intros row2 Hrow2. assert (row2 = row) as -> by congruence.
        unfold validity_ok. rewrite (same_sync_known _ _ Hsame). by apply Hok.
    + split; [exists row; split; [done|]; by apply Hwf'|].
      intros cp. rewrite Hck, Hfresh by done. done.
  - intros id Hnone. rewrite Hck. apply Hfresh. destruct (mailboxes (w_db w) !! id) eqn:E; [|done].
    destruct (Ho _ _ E) as (? & ? & _). congruence.
Qed.

Lemma discover_asafe a w :
  account_inv a w -> NoDup (mi_Name <$> srv_list (w_srv w)) ->
  asafe a (discover a)
    (fun boxes w' => Forall (box_ready a w') boxes /\ NoDup (box_id <$> boxes) /\
       sb_info <$> boxes ≡ₚ filter (fun i => mi_NoSelect i = false) (srv_list (w_srv w))) w.
Proof.
  intros Hinv Hnd. unfold asafe. eapply wp_mono; [apply discover_spec; [apply Hinv|done]|].
  intros w' r (Henv & Hd & Hr). split; [done|]. split; [by eapply account_inv_discovers|].
  destruct r as [e|boxes].
  { destruct Hr as [?|?]; [by left|by right; right]. }
  destruct Hr as (Hp & Hall & _). split; [|split; [|done]].
  - rewrite Forall_forall in Hall |- *. intros b Hin. destruct (Hall b Hin) as (Hb & Ha & Hn).
    split; [eauto|]. split; cycle 1.
    { exists (sb_info b). rewrite (proj1 Henv).
      assert (sb_info b ∈ filter (fun i => mi_NoSelect i = false) (srv_list (w_srv w)))
        as [? ?]%list_elem_of_filter by (rewrite <- Hp; by apply list_elem_of_fmap_2).
      done. }
    split; [done|]. split; [done|].
    destruct (decide (validity_ok (srv_validity (w_srv w') (box_name b)) (sb_row b))) as [?|Hno].
    + by left.
    + right. unfold box_id. rewrite Hb. intros row [= <-]. done.
  - assert (NoDup (box_name <$> boxes)) as Hnames.
    { unfold box_name. rewrite (list_fmap_compose sb_info mi_Name), Hp.
      by apply NoDup_fmap_filter. }
    clear Hp. induction boxes as [|b boxes IH]; [constructor|]. rewrite fmap_cons in *.
    apply Forall_cons in Hall as [(Hb & _ & Hbn) Hall]. apply NoDup_cons in Hnames as [Hnin Hnames].
    constructor; [|auto]. intros (c & Hid & Hc)%list_elem_of_fmap. apply Hnin.
    rewrite Forall_forall in Hall. destruct (Hall c Hc) as (Hcr & _ & Hcn).
    unfold box_id in Hid. rewrite Hid, Hcr in Hb. injection Hb as Heq.
    replace (box_name b) with (box_name c) by (unfold box_name; congruence).
    by apply list_elem_of_fmap_2.
Qed.

(** *** Run *)

Lemma asafe_or_record {A} a phase (m : M (World S) err A) Q w :
  asafe a m Q w -> asafe a (or_record a phase m) Q w.
Proof.
  unfold asafe, or_record. intros Hm. wp_steps. eapply wp_mono; [exact Hm|].
  intros w1 [e|x] (Henv & Hinv & Hr); [|by wp_steps]. unfold recordFailure, RecordSyncError, upsert_log.
  wp_steps. apply wp_io.
  - intros e' Hf _. wp_steps. split; [eapply same_env_trans; [done|apply same_env_drop]|].
    split; [|done]. by eapply account_inv_log; [|apply same_env_drop|..].
  - wp_steps. split; [eapply same_env_trans; [done|apply same_env_drop]|]. split; [|done].
    eapply account_inv_log; [done|apply same_env_drop|done|done|]. simpl. intros k Hk.
    by rewrite lookup_insert_ne.
Qed.

(** Every folder the server lists is in the table with all its messages. *)
Definition account_stored (a : Z) (w : World S) : Prop :=
  forall info, info ∈ srv_list (w_srv w) -> mi_NoSelect info = false ->
    exists id row, mailboxes (w_db w) !! id = Some row /\ mb_AccountID row = a /\
      mb_Name row = mi_Name info /\ fully_stored id (mi_Name info) w.

Abbreviation run :=
  (Run BatchSize FetchWindow RecentWindow sha256 derive rejects sched assign).

Lemma Run_asafe a w :
  account_inv a w -> accepts w -> arrives_in_order w -> NoDup (mi_Name <$> srv_list (w_srv w)) ->
  asafe a (run a) (fun res w' => res_Complete res = true /\ account_stored a w') w.
Proof.
  intros Hinv Hacc Hord Hnd. unfold Run. apply asafe_bind. apply asafe_or_record.
  eapply asafe_mono; [by apply discover_asafe|]. intros boxes w1 (Hr1 & Hnd1 & Hp) Henv1 Hinv1.
  apply asafe_bind. apply asafe_or_record. eapply asafe_mono.
  { apply runRecent_asafe; [done|by eapply accepts_env| |done|done].
    intros n. rewrite (proj1 Henv1). apply Hord. }
  intros [boxes2 st2] w2 (Hr2 & Hinfo2 & Hids2) Henv2 Hinv2. cbn [fst] in *.
  assert (same_env w w2) as Henv02 by (by eapply same_env_trans).
  apply asafe_bind. apply asafe_or_record. eapply asafe_mono.
  { apply runBackfill_asafe; [done|by eapply accepts_env|done|by rewrite Hids2]. }
  intros st3 w3 (Hfull & Hrows) Henv3 Hinv3. apply asafe_bind.
  eapply asafe_mono; [by apply asafe_phase|]. intros [] w4 (Hm4 & Hs4) Henv4 Hinv4.
  apply asafe_ret; [done|]. split; [done|]. intros info Hin Hsel.
  assert (w_srv w4 = w_srv w) as Hsrv
    by (rewrite (proj1 Henv4), (proj1 Henv3); apply Henv02).
  assert (info ∈ sb_info <$> boxes2) as (b & -> & Hb)%list_elem_of_fmap.
  { rewrite Hinfo2, Hp. apply list_elem_of_filter. by rewrite <- Hsrv. }
  unfold rows_kept in Hrows. rewrite Forall_forall in Hfull, Hrows.
  destruct (Hrows b Hb) as (row & Hrow & Ha & Hn). exists (box_id b), row.
  rewrite Hm4. split; [done|]. split; [done|]. split; [done|].
  intros u Hu Hview. rewrite Hs4, (proj1 Henv4) in *. by apply (Hfull b Hb).
Qed.

(** Runs that were interrupted: each starts from the tables the previous one
    left, with its own schedule of faults. *)
Definition with_faults (fs : list (option fault)) (w : World S) : World S :=
  {| w_db := w_db w; w_srv := w_srv w; w_now := w_now w; w_faults := fs |}.

Definition interrupted (a : Z) (fss : list (list (option fault))) (w : World S) : World S :=
  foldl (fun w fs => (run a (with_faults fs w)).1) w fss.

(** PostgreSQL takes the rows of the server's messages. *)
Definition rows_valid (s : S) : Prop :=
  forall id n u m, srv_view s n !! u = Some m ->
    rejects (srv_row sha256 derive id (srv_validity s n) u m) = false.

Lemma rows_valid_accepts w : rows_valid (w_srv w) -> accepts w.
Proof.
  intros Hv id n. left. intros nm ([u m] & -> & Hin%elem_of_map_to_list)%list_elem_of_fmap.
  by apply Hv.
Qed.

Lemma account_inv_faults a fs w : account_inv a w -> account_inv a (with_faults fs w).
Proof.
  intros [Hwf Hrows Hfresh]. split; [done| |done]. intros id row Hrow Ha.
  destruct (Hrows id row Hrow Ha) as [? Hcl]. by split.
Qed.

Lemma interrupted_inv a fss w :
  account_inv a w -> rows_valid (w_srv w) -> arrives_in_order w ->
  NoDup (mi_Name <$> srv_list (w_srv w)) ->
  account_inv a (interrupted a fss w) /\ w_srv (interrupted a fss w) = w_srv w.
Proof.
  revert w. induction fss as [|fs fss IH]; intros w Hinv Hv Hord Hnd; [done|]. simpl.
  pose proof (Run_asafe a (with_faults fs w) (account_inv_faults _ _ _ Hinv)
    (rows_valid_accepts (with_faults fs w) Hv) Hord Hnd) as Hrun.
  unfold asafe, wp in Hrun. destruct (run a (with_faults fs w)) as [w1 r]. simpl in *.
  destruct Hrun as ((Hs & _) & Hinv1 & _). unfold with_faults in Hs. simpl in Hs.
  rewrite <- Hs. apply IH; [done|by rewrite Hs| |by rewrite Hs].
  intros n. rewrite Hs. apply Hord.
Qed.
End account.

(** C1: The initial sync survives a kill at any point. Take an account whose checkpoints are
    true (a new account's are) and a server that does not change while the runs last, whose
    mail arrived in order (in each mailbox INTERNALDATE grows with the UID), whose folder
    names differ, whose listed folders can be selected and whose rows PostgreSQL accepts;
    and any number of runs, each cut short by any schedule of failures between any two
    statements or commands. Every checkpoint is still true; and the next undisturbed run
    either stops with a unique-index error, which only a SPECIAL-USE role that moved to
    another folder gives, or completes, and then every message of every selectable folder
    has its row. [recent_window_skips_copied_mail] and [retry_skips_new_mail] show what
    happens to mail out of order and to mail that arrives between the runs. *)
Theorem initial_sync_resumes {S} `{ImapServer S} `{!ImapLaws S}
    (BatchSize : nat) (FetchWindow RecentWindow : Z) (sha256 : string -> string)
    (derive : string -> Message) (rejects : NewMessage -> bool)
    (sched : list rawMessage -> list rawMessage)
    (assign : DB -> Z -> list Z -> option (list (Z * Z)))
    (a : Z) (w : World S) (fss : list (list (option fault))) :
  (forall l, sched l ≡ₚ l) ->
  account_inv a w ->
  rows_valid sha256 derive rejects (w_srv w) ->
  arrives_in_order w ->
  NoDup (mi_Name <$> srv_list (w_srv w)) ->
  (forall n known since, listed w n -> is_Some (srv_select (w_srv w) n known since)) ->
  let run := Run BatchSize FetchWindow RecentWindow sha256 derive rejects sched assign a in
  let w1 := interrupted BatchSize FetchWindow RecentWindow sha256 derive rejects sched assign a
              fss w in
  account_inv a w1 /\
  match run (with_faults [] w1) with
  | (w2, inr res) => res_Complete res = true /\ account_stored a w2 /\ account_inv a w2
  | (_, inl e) => e = ErrUnique
  end.
Proof.
  intros Hperm Hinv Hv Hord Hnd Hsel run w1.
  destruct (interrupted_inv BatchSize FetchWindow RecentWindow sha256 derive rejects sched Hperm
    assign a fss w Hinv Hv Hord Hnd) as [Hinv1 Hs1]. fold w1 in Hinv1, Hs1. split; [done|].
  pose proof (Run_asafe BatchSize FetchWindow RecentWindow sha256 derive rejects sched Hperm assign
    a (with_faults [] w1) (account_inv_faults _ _ _ Hinv1)) as Hrun.
  unfold run. destruct (Run _ _ _ _ _ _ _ _ _ _) as [w2 r] eqn:E.
  assert (asafe a (Run BatchSize FetchWindow RecentWindow sha256 derive rejects sched assign a)
    (fun res w' => res_Complete res = true /\ account_stored a w') (with_faults [] w1)) as Hsafe.
  { apply Hrun; [apply rows_valid_accepts|intros n|]; simpl; rewrite Hs1; auto. }
  unfold asafe, wp in Hsafe. rewrite E in Hsafe. destruct Hsafe as (Henv & Hinv2 & Hr).
  destruct r as [e|res]; [|by destruct Hr].
  destruct Hr as [[f Hf]|[(n & Hl & x & y & Hno)|?]]; [by apply not_elem_of_nil in Hf| |done].
  unfold listed in Hl. simpl in Hno, Hl. rewrite Hs1 in Hno, Hl.
  destruct (Hsel n x y Hl). congruence.
Qed.

(** ** Sample accounts *)

Definition no_mail : Message :=
  {| RawSHA256 := ""; MessageID := ""; InReplyTo := ""; ReferencesIDs := []; Subject := "";
     FromAddr := ""; ToAddrs := ""; CcAddrs := ""; Addresses := ""; MIMEStructure := "";
     Preview := ""; BodyText := ""; MParseStatus := ParseOK; Defects := "" |}.

Definition empty_db : DB :=
  {| mailboxes := ∅; messages := ∅; message_state := ∅; thread_ids := ∅; blobs := ∅;
     blob_refs := ∅; sync_log := ∅; next_message_id := 1 |}.

Definition mail (date modseq : Z) (body : string) : SrvMsg :=
  {| sm_ModSeq := modseq; sm_Flags := []; sm_Keywords := []; sm_InternalDate := date;
     sm_Body := body |}.

(** Three messages, the last one recent. *)
Definition inbox3 : MemMailbox :=
  {| mem_UIDValidity := 7; mem_UIDNext := 4; mem_HighestModSeq := 3; mem_Role := RoleInbox;
     mem_msgs := {[1 := mail 100 1 "a"; 2 := mail 200 2 "b"; 3 := mail 300 3 "c"]};
     mem_expunged := [] |}.

Definition server3 : MemServer := {["INBOX" := inbox3 ↾ I]}.

Definition new_account : World MemServer :=
  {| w_db := empty_db; w_srv := server3; w_now := 1000; w_faults := [] |}.

(** A run with windows of two UIDs; everything PostgreSQL is given it takes. *)
Definition sample_run : M (World MemServer) err Result :=
  Run 10 2 750 (fun s => s) (fun _ => no_mail) (fun _ => false) (fun l => l)
    (fun _ _ _ => None) 1.

Definition sample_interrupted : World MemServer :=
  interrupted 10 2 750 (fun s => s) (fun _ => no_mail) (fun _ => false) (fun l => l)
    (fun _ _ _ => None) 1
    [replicate 12 None ++ replicate 40 (Some FaultIO); [None; Some FaultDeadlock]] new_account.

Lemma new_account_inv a : account_inv a new_account.
Proof. by split; [split|..]. Qed.

Lemma listed_server3 w n : w_srv w = server3 -> listed w n -> n = "INBOX".
Proof.
  intros Hs (info & Hin & _ & <-). rewrite Hs in Hin.
  assert (srv_list server3 = [mem_info "INBOX" inbox3]) as Heq by (vm_compute; reflexivity).
  rewrite Heq in Hin. by apply list_elem_of_singleton in Hin as ->.
Qed.

(** Dates in UID order. *)
Definition ordered_msgs (m : gmap Z SrvMsg) : bool :=
  forallb (fun x => negb (sm_InternalDate x.2 =? 0)) (map_to_list m) &&
  forallb (fun x => forallb (fun y => negb (x.1 <=? y.1) ||
    (sm_InternalDate x.2 <=? sm_InternalDate y.2)) (map_to_list m)) (map_to_list m).

Lemma ordered_msgs_spec m : ordered_msgs m = true -> arrival_order m.
Proof.
  unfold ordered_msgs. rewrite andb_true_iff, !forallb_forall. intros [Hz Ho]. split.
  - intros u x Hx%elem_of_map_to_list%list_elem_of_In. specialize (Hz _ Hx). simpl in Hz.
    bool_cases. done.
  - intros u u' x x' Hx%elem_of_map_to_list%list_elem_of_In Hx'%elem_of_map_to_list%list_elem_of_In Hle.
    specialize (Ho _ Hx). rewrite forallb_forall in Ho. specialize (Ho _ Hx'). simpl in Ho.
    bool_cases; lia.
Qed.

Lemma mem_view_inbox3 n : mem_view server3 n = mem_msgs inbox3 \/ mem_view server3 n = ∅.
Proof.
  destruct (decide ("INBOX" = n)) as [<-|Hne].
  - left. vm_compute. reflexivity.
  - right. unfold mem_view, mem_lookup.
    assert (server3 !! n = None) as -> by (by apply lookup_singleton_ne). done.
Qed.

(** A run that is seen to succeed. *)
Lemma run_ok {W A} (x : W * (err + A)) (P : W -> A -> Prop) :
  match x with (w, inr r) => P w r | (_, inl e) => e = ErrUnique end ->
  match x.2 with inl _ => false | inr _ => true end = true ->
  match x with (w, inr r) => P w r | (_, inl _) => False end.
Proof. by destruct x as [w [e|r]]. Qed.

Lemma initial_sync_resumes_witness :
  account_inv 1 sample_interrupted /\
  match sample_run (with_faults [] sample_interrupted) with
  | (w2, inr res) => res_Complete res = true /\ account_stored 1 w2 /\ account_inv 1 w2
  | (_, inl _) => False
  end.
Proof.
  destruct (initial_sync_resumes 10 2 750 (fun s => s) (fun _ => no_mail) (fun _ => false)
    (fun l => l) (fun _ _ _ => None) 1 new_account
    [replicate 12 None ++ replicate 40 (Some FaultIO); [None; Some FaultDeadlock]])
    as [Hinv Hrun].
  - done.
  - apply new_account_inv.
  - done.
  - intros n. simpl. destruct (mem_view_inbox3 n) as [-> | ->];
      apply ordered_msgs_spec; vm_compute; reflexivity.
  - assert (mi_Name <$> srv_list (w_srv new_account) = ["INBOX"]) as ->
      by (vm_compute; reflexivity). apply NoDup_singleton.
  - intros n known since ->%listed_server3; [|done]. simpl. eauto.
  - split; [exact Hinv|]. unfold sample_run, sample_interrupted.
    match goal with |- match ?x with _ => _ end => pose proof (run_ok x (fun w2 res =>
      res_Complete res = true /\ account_stored 1 w2 /\ account_inv 1 w2)) as Hok end.
    cbv beta in Hok. apply Hok; [exact Hrun|vm_compute; reflexivity].
Defined.

(** ** Where the engine falls short *)

Definition with_server (s : MemServer) (w : World MemServer) : World MemServer :=
  {| w_db := w_db w; w_srv := s; w_now := w_now w; w_faults := w_faults w |}.

Definition inbox_of (next : Z) (msgs : gmap Z SrvMsg) : MemMailbox :=
  {| mem_UIDValidity := 7; mem_UIDNext := next; mem_HighestModSeq := next; mem_Role := RoleInbox;
     mem_msgs := msgs; mem_expunged := [] |}.

Definition completed (r : World MemServer * (err + Result)) : bool :=
  match r.2 with inr res => res_Complete res | inl _ => false end.

(** A message appended to the inbox today with the date it first had, above one
    that was delivered today. *)
Definition copied_account : World MemServer :=
  with_server {["INBOX" := inbox_of 3 {[1 := mail 900 1 "new"; 2 := mail 100 2 "copied"]} ↾ I]}
    new_account.

(** Mail copied in with an old date is lost. With UID 1 delivered today
    and UID 2 above it carrying a date before the recent window, an undisturbed
    run reports completion while UID 2 has no row: the recent phase records UID 1
    as the watermark although it skipped UID 2, and the backfill resumes below. *)
Theorem recent_window_skips_copied_mail :
  completed (sample_run copied_account) = true /\
  is_Some (srv_view (w_srv copied_account) "INBOX" !! 2) /\
  message_state (w_db (sample_run copied_account).1) !! (1, 7, 2) = None.
Proof.
  split; [vm_compute; reflexivity|]. split; [vm_compute; eauto|]. vm_compute. reflexivity.
Qed.

(** A run stopped by a failure after the inbox was done, and a delivery before
    the retry. *)
Definition two_folders (inbox : {m : MemMailbox | bool_decide (mem_wf m)}) : MemServer :=
  {["INBOX" := inbox;
    "Old" := {| mem_UIDValidity := 9; mem_UIDNext := 2; mem_HighestModSeq := 1;
                mem_Role := RoleNone; mem_msgs := {[1 := mail 50 1 "o"]};
                mem_expunged := [] |} ↾ I]}.

Definition stopped_in_old : World MemServer :=
  (sample_run (with_faults (replicate 42 None ++ [Some FaultIO])
     (with_server (two_folders (inbox3 ↾ I)) new_account))).1.
Definition inbox4 : MemMailbox :=
  inbox_of 5 {[1 := mail 100 1 "a"; 2 := mail 200 2 "b"; 3 := mail 300 3 "c"; 4 := mail 990 4 "d"]}.
Definition retried : World MemServer :=
  with_faults [] (with_server (two_folders (inbox4 ↾ I)) stopped_in_old).

(** A delivery between a stopped run and its retry is lost. The inbox was
    complete when the first run failed in another folder; UID 4 then arrives. The
    retry completes without storing it, and moves the stored cursor past it
    (UIDNEXT 5, HIGHESTMODSEQ 5), so the incremental path will not ask for it
    either: the cursor advanced before its data. *)
Theorem retry_skips_new_mail :
  completed (sample_run retried) = true /\
  is_Some (srv_view (w_srv retried) "INBOX" !! 4) /\
  message_state (w_db (sample_run retried).1) !! (2, 7, 4) = None /\
  (mb_UIDNext <$> mailboxes (w_db (sample_run retried).1) !! 2) = Some (Some 5) /\
  (mb_HighestModSeq <$> mailboxes (w_db (sample_run retried).1) !! 2) = Some (Some 5).
Proof.
  split; [vm_compute; reflexivity|]. split; [vm_compute; eauto|].
  split; [vm_compute; reflexivity|]. split; vm_compute; reflexivity.
Qed.

(** The same failure with an inbox that was empty. *)
Definition stopped_empty : World MemServer :=
  (sample_run (with_faults (replicate 24 None ++ replicate 9 (Some FaultIO))
     (with_server (two_folders (inbox_of 1 ∅ ↾ I)) new_account))).1.
Definition retried_empty : World MemServer :=
  with_faults [] (with_server (two_folders (inbox_of 2 {[1 := mail 990 1 "d"]} ↾ I)) stopped_empty).

(** An inbox that was empty at first never reads as complete again. Its
    checkpoint says complete but not recent-done, so the retry runs the recent
    phase, which sets the row back to recent_done, and the backfill phase then
    returns at once because the checkpoint is complete. The run reports
    completion, the row stays at recent_done, and another run changes nothing. *)
Theorem empty_inbox_stuck_at_recent_done :
  completed (sample_run retried_empty) = true /\
  (mb_BackfillState <$> mailboxes (w_db (sample_run retried_empty).1) !! 2) =
    Some BackfillRecentDone /\
  (mb_BackfillState <$> mailboxes (w_db (sample_run (sample_run retried_empty).1).1) !! 2) =
    Some BackfillRecentDone.
Proof. split; [vm_compute; reflexivity|]. split; vm_compute; reflexivity. Qed.
