(* ===== verification/Incremental.v ===== *)
(** The incremental path (src/internal/sync/incremental.go): one pass over one
    mailbox turns the server's delta since the stored cursor into tombstones,
    flag updates and new rows, and moves the cursor last. *)

From S2P Require Import Prelude Convert Utf8 Store Imap Checkpoint Discover Pipeline Initial.
From S2P Require Import InitialSafety InitialRun.
From stdpp Require Import relations.
#[local] Open Scope Z_scope.

Record IncrementalResult := mkIncremental {
  ir_New : Z;
  ir_FlagsUpdated : Z;
  ir_Vanished : Z;
  ir_Resynced : bool;
  ir_FromModSeq : Z;
  ir_ToModSeq : Z;
  ir_Notified : bool          (* Broker.Notify was called *)
}.

Definition Changed (r : IncrementalResult) : bool :=
  (0 <? ir_New r) || (0 <? ir_FlagsUpdated r) || (0 <? ir_Vanished r) || ir_Resynced r.

Record changedMessage := mkChanged {
  ch_uid : Z;
  ch_modSeq : Z;
  ch_flags : Z;
  ch_keywords : list string
}.

Record mailboxDelta := mkDelta {
  dl_changed : list changedMessage;
  dl_vanished : list Z;
  dl_highestMod : Z;
  dl_uidNext : Z
}.

(** [mailboxCursor]. *)
Definition mailboxCursor (row : Mailbox) : Z * Z :=
  (known_validity row,
   match mb_HighestModSeq row with
   | Some m => if 0 <? m then modSeqFromDB m else 0
   | None => 0
   end).

(** [dedupeUIDs]: the first of equals, in order. *)
Fixpoint dedupe_from (seen : gset Z) (uids : list Z) : list Z :=
  match uids with
  | [] => []
  | u :: uids => if decide (u ∈ seen) then dedupe_from seen uids
                 else u :: dedupe_from ({[u]} ∪ seen) uids
  end.
Definition dedupeUIDs (uids : list Z) : list Z :=
  if (length uids <=? 1)%nat then uids else dedupe_from ∅ uids.

(** [sameKeywords]: the counting comparison. *)
Definition count_up (counts : gmap string Z) (s : string) : gmap string Z :=
  <[s := default 0 (counts !! s) + 1]> counts.
Fixpoint count_down (counts : gmap string Z) (b : list string) : bool :=
  match b with
  | [] => true
  | s :: b =>
      let n := default 0 (counts !! s) - 1 in
      if n <? 0 then false else count_down (<[s := n]> counts) b
  end.
Definition sameKeywords (a b : list string) : bool :=
  if negb (length a =? length b)%nat then false
  else if (length a =? 0)%nat then true
  else count_down (foldl count_up ∅ a) b.

(** [newUIDCandidates]. *)
Definition arrival_range (row : Mailbox) (uidNext : Z) : list Z :=
  match mb_UIDNext row with
  | Some n => if (0 <? n) && (0 <? uidNext) then
                let from := uidFromDB n in
                if 0 <? from then uidRange from (uidNext - 1) else []
              else []
  | None => []
  end.
Definition newUIDCandidates (row : Mailbox) (delta : mailboxDelta) : list Z :=
  let out := dedupe_from ∅ (filter (fun u => u <> 0)
               (arrival_range row (dl_uidNext delta) ++ (ch_uid <$> dl_changed delta))) in
  filter (fun u => u ∉ dl_vanished delta) out.

Section incremental.
Context {S : Type} `{ImapServer S}.
Context (BatchSize : nat) (FetchWindow : Z).
Context (sha256 : string -> string) (derive : string -> Message).
Context (rejects : NewMessage -> bool).
Context (sched : list rawMessage -> list rawMessage).
Context (assign : DB -> Z -> list Z -> option (list (Z * Z))).
Abbreviation MM := (M (World S) err).

Definition changed_of (f : Fetched) : changedMessage :=
  {| ch_uid := f_UID f; ch_modSeq := f_ModSeq f; ch_flags := storeFlags (f_Flags f);
     ch_keywords := f_Keywords f |}.

(** [collectChanges]: FetchChanges drained, then its VANISHED set. *)
Definition collectChanges (name : string) (since : Z) : MM (list changedMessage * list Z) :=
  io ;; w ← get;
  let r := srv_changes (w_srv w) name since in
  mret (changed_of <$> r.1, r.2).

Definition applyVanished (id uidValidity : Z) (vanished : list Z) : MM Z :=
  let uids := dedupeUIDs vanished in
  if decide (uids = []) then mret 0
  else MarkDeleted id uidValidity uids ;; mret (Z.of_nat (length uids)).

(** The update a change implies, if any. *)
Definition flag_update (states : gmap Z MessageState) (ch : changedMessage) : option FlagUpdate :=
  match states !! ch_uid ch with
  | None => None
  | Some st =>
      let keywords := sanitizeAll (ch_keywords ch) in
      if (ms_Flags st =? ch_flags ch) && sameKeywords (ms_Keywords st) keywords then None
      else Some {| fu_MessageID := ms_MessageID st; fu_Flags := ch_flags ch;
                   fu_Keywords := keywords; fu_ModSeqSeen := modSeqToDB (ch_modSeq ch) |}
  end.

Definition applyFlagChanges (id uidValidity : Z) (changed : list changedMessage) : MM Z :=
  if decide (changed = []) then mret 0
  else
    states ← MessageStatesByUID id uidValidity (ch_uid <$> changed);
    if decide (states = ∅) then mret 0
    else
      let updates := omap (flag_update states) changed in
      if decide (updates = []) then mret 0
      else UpdateFlags updates ;; mret (Z.of_nat (length updates)).

Definition fetchNewMessages (accountID : Z) (mb : syncMailbox) (uidValidity : Z)
    (delta : mailboxDelta) : MM Z :=
  let candidates := newUIDCandidates (sb_row mb) delta in
  if decide (candidates = []) then mret 0
  else
    stats ← fetchAndStore BatchSize sha256 derive rejects sched assign accountID
              (mb_ID (sb_row mb)) (mi_Name (sb_info mb)) uidValidity candidates;
    mret (stored stats).

(** [applyDelta]: tombstones, then flags, then new messages. *)
Definition applyDelta (accountID : Z) (mb : syncMailbox) (uidValidity : Z)
    (delta : mailboxDelta) : MM (Z * Z * Z) :=
  vanished ← applyVanished (mb_ID (sb_row mb)) uidValidity (dl_vanished delta);
  updated ← applyFlagChanges (mb_ID (sb_row mb)) uidValidity (dl_changed delta);
  stored ← fetchNewMessages accountID mb uidValidity delta;
  mret (stored, updated, vanished).

Definition zeroCheckpoint : mailboxCheckpoint :=
  {| mc_Version := 0; mc_UIDValidity := 0; mc_UIDLow := 0; mc_RecentDone := false;
     mc_Complete := false |}.

(** [resyncMailbox]: start over and backfill. *)
Definition resyncMailbox (accountID : Z) (mb : syncMailbox) : MM unit :=
  let id := mb_ID (sb_row mb) in
  InvalidateMailbox id ;;
  saveMailboxCheckpoint accountID id zeroCheckpoint ;;
  fresh ← GetMailbox id;
  backfillMailbox BatchSize FetchWindow sha256 derive rejects sched assign accountID
    {| sb_row := fresh; sb_info := sb_info mb |} ;;
  mret tt.

(** The pass proper, on a mailbox whose UIDVALIDITY is the stored one. *)
Definition deltaPass (accountID : Z) (mb : syncMailbox) (since : Z) (sel : SelectResult)
    : MM IncrementalResult :=
  ch ← collectChanges (mi_Name (sb_info mb)) since;
  let delta := {| dl_changed := ch.1; dl_vanished := sel_VanishedUIDs sel ++ ch.2;
                  dl_highestMod := sel_HighestModSeq sel; dl_uidNext := sel_UIDNext sel |} in
  applied ← applyDelta accountID mb (sel_UIDValidity sel) delta;
  SetMailboxSyncState (mb_ID (sb_row mb)) (uidValidityToDB (sel_UIDValidity sel))
    (uidNextToDB (sel_UIDNext sel)) (modSeqToDB (sel_HighestModSeq sel)) ;;
  let '(stored, updated, vanished) := applied in
  let res := {| ir_New := stored; ir_FlagsUpdated := updated; ir_Vanished := vanished;
                ir_Resynced := false; ir_FromModSeq := since;
                ir_ToModSeq := sel_HighestModSeq sel; ir_Notified := false |} in
  mret {| ir_New := stored; ir_FlagsUpdated := updated; ir_Vanished := vanished;
          ir_Resynced := false; ir_FromModSeq := since;
          ir_ToModSeq := sel_HighestModSeq sel; ir_Notified := Changed res |}.

Definition incrementalMailbox (accountID : Z) (mb : syncMailbox) : MM IncrementalResult :=
  let '(known, since) := mailboxCursor (sb_row mb) in
  if (known =? 0) || (since =? 0) then throw ErrNeedsInitialSync
  else
    sel ← SelectQResync (mi_Name (sb_info mb)) known since;
    if negb (sel_UIDValidity sel =? known) then
      resyncMailbox accountID mb ;;
      mret {| ir_New := 0; ir_FlagsUpdated := 0; ir_Vanished := 0; ir_Resynced := true;
              ir_FromModSeq := since; ir_ToModSeq := 0; ir_Notified := false |}
    else deltaPass accountID mb since sel.
End incremental.

(** ** The helpers *)

Lemma elem_of_dedupe_from seen uids u : u ∈ dedupe_from seen uids <-> u ∈ uids /\ u ∉ seen.
Proof.
  revert seen. induction uids as [|x uids IH]; intros seen; simpl; [set_solver|].
  case_decide; rewrite ?elem_of_cons, IH, ?not_elem_of_union, ?not_elem_of_singleton.
  - split; [tauto|]. intros [[->|?] ?]; [done|tauto].
  - split; [intros [->|?]; tauto|]. intros [[->|?] ?]; [by left|].
    destruct (decide (u = x)); tauto.
Qed.
Lemma NoDup_dedupe_from seen uids : NoDup (dedupe_from seen uids).
Proof.
  revert seen. induction uids as [|x uids IH]; intros seen; simpl; [constructor|].
  case_decide; [done|]. constructor; [|done]. rewrite elem_of_dedupe_from. set_solver.
Qed.

Lemma elem_of_dedupeUIDs uids u : u ∈ dedupeUIDs uids <-> u ∈ uids.
Proof. unfold dedupeUIDs. case_match; [done|]. rewrite elem_of_dedupe_from. set_solver. Qed.
Lemma NoDup_dedupeUIDs uids : NoDup (dedupeUIDs uids).
Proof.
  unfold dedupeUIDs. case_match eqn:E; [|apply NoDup_dedupe_from]. apply Nat.leb_le in E.
  destruct uids as [|x [|y uids]]; simpl in E; [constructor|apply NoDup_singleton|lia].
Qed.

(** Occurrences of a keyword. *)
Definition occ (s : string) (l : list string) : Z :=
  Z.of_nat (length (filter (fun x => x = s) l)).

Lemma occ_cons s x l : occ s (x :: l) = (if decide (x = s) then 1 else 0) + occ s l.
Proof. unfold occ. rewrite filter_cons. case_decide; simpl; lia. Qed.

Lemma count_up_occ a counts s :
  default 0 (foldl count_up counts a !! s) = default 0 (counts !! s) + occ s a.
Proof.
  revert counts. induction a as [|x a IH]; intros counts; simpl; [unfold occ; simpl; lia|].
  rewrite IH, occ_cons. unfold count_up. case_decide as Hx.
  - subst. rewrite lookup_insert_eq. simpl. lia.
  - rewrite lookup_insert_ne by done. lia.
Qed.

Lemma count_down_spec b counts :
  (forall s, 0 <= default 0 (counts !! s)) ->
  count_down counts b = true <-> (forall s, occ s b <= default 0 (counts !! s)).
Proof.
  revert counts. induction b as [|x b IH]; intros counts Hnn; simpl.
  { split; [intros _ s; unfold occ; simpl; apply Hnn|done]. }
  assert (forall s, 0 <= occ s b) as Hocc by (intros; unfold occ; lia).
  destruct (_ <? 0) eqn:E; bool_cases.
  - split; [done|]. intros Hall. specialize (Hall x). rewrite occ_cons, decide_True in Hall by done.
    specialize (Hocc x). lia.
  - rewrite IH.
    + split; intros Hall s; specialize (Hall s); rewrite occ_cons in *; case_decide as Hx;
        [subst; rewrite lookup_insert_eq in Hall; simpl in *; lia
        |rewrite lookup_insert_ne in Hall by done; lia
        |subst; rewrite lookup_insert_eq; simpl in *; lia
        |rewrite lookup_insert_ne by done; lia].
    + intros s. destruct (decide (x = s)) as [<-|Hx].
      * rewrite lookup_insert_eq. simpl. lia.
      * rewrite lookup_insert_ne by done. apply Hnn.
Qed.

Lemma sum_occ_length a b :
  length a = length b -> (forall s, occ s b <= occ s a) -> a ≡ₚ b.
Proof.
  revert b. induction a as [|x a IH]; intros b Hlen Hle.
  { by destruct b. }
  destruct (decide (x ∈ b)) as [Hin|Hnin].
  - apply elem_of_Permutation in Hin as (b' & Hb). rewrite Hb. constructor. apply IH.
    + apply Permutation_length in Hb. simpl in *. lia.
    + intros s. specialize (Hle s). assert (occ s b = occ s (x :: b')) as Hb'.
      { unfold occ. by rewrite Hb. }
      rewrite Hb', !occ_cons in Hle. lia.
  - exfalso. assert (length b <= length a)%nat as Hbad; [|simpl in *; lia].
    clear IH Hlen. assert (forall s, occ s b <= occ s a) as Hle'.
    { intros s. specialize (Hle s). rewrite occ_cons in Hle. case_decide as Hx; [|lia]. subst.
      assert (occ s b = 0) as ->; [|unfold occ; lia]. unfold occ.
      assert (filter (fun y => y = s) b = []) as ->; [|done].
      apply elem_of_nil_inv. intros y [-> Hy]%list_elem_of_filter. done. }
    clear Hle Hnin x. revert a Hle'. induction b as [|y b IH]; intros a Hle; simpl; [lia|].
    assert (y ∈ a) as (a' & Ha)%elem_of_Permutation.
    { specialize (Hle y). rewrite occ_cons, decide_True in Hle by done.
      destruct (filter (fun z => z = y) a) as [|z l] eqn:E.
      - unfold occ in Hle. rewrite E in Hle. simpl in Hle. lia.
      - assert (z ∈ filter (fun z => z = y) a) as [-> ?]%list_elem_of_filter
          by (rewrite E; by left). done. }
    rewrite (Permutation_length Ha). simpl. apply le_n_S, IH. intros s. specialize (Hle s).
    assert (occ s a = occ s (y :: a')) as Hq by (unfold occ; by rewrite Ha).
    rewrite Hq, !occ_cons in Hle. lia.
Qed.

Lemma sameKeywords_perm a b : sameKeywords a b = true <-> a ≡ₚ b.
Proof.
  unfold sameKeywords. destruct (length a =? length b)%nat eqn:El; simpl.
  2:{ apply Nat.eqb_neq in El. split; [done|]. intros Hp%Permutation_length. done. }
  apply Nat.eqb_eq in El. destruct (length a =? 0)%nat eqn:E0.
  { apply Nat.eqb_eq in E0. destruct a; [|done]. destruct b; [done|simpl in *; lia]. }
  assert (forall s, default 0 (foldl count_up ∅ a !! s) = occ s a) as Hc.
  { intros s. rewrite count_up_occ, lookup_empty. simpl. lia. }
  rewrite count_down_spec; [|intros s; rewrite Hc; unfold occ; lia]. split.
  - intros Hall. apply sum_occ_length; [done|]. intros s. rewrite <- Hc. apply Hall.
  - intros Hp s. rewrite Hc. unfold occ. by rewrite Hp.
Qed.

(** ** What the store must look like for a cursor to be true *)

Section cursor.
Context {S : Type} `{ImapServer S} `{!ImapLaws S}.
Implicit Types w : World S.

(** A stored row that says what the server says, keywords as a set. *)
Definition row_agrees (m : SrvMsg) (st : MessageState) : Prop :=
  ms_Flags st = storeFlags (sm_Flags m) /\ ms_Keywords st ≡ₚ sanitizeAll (sm_Keywords m) /\
  ms_DeletedAt st = None.

Lemma row_mirrors_agrees m st : row_mirrors m st -> row_agrees m st.
Proof. intros (? & Hk & _ & ?). split; [done|]. split; [by rewrite Hk|done]. Qed.

(** An expunge the server still reports to a client whose cursor is [since]. *)
Definition reported (s : S) (n : string) (since u : Z) : Prop :=
  u ∈ (srv_changes s n since).2 \/
  exists sel, srv_select s n (srv_validity s n) since = Some sel /\ u ∈ sel_VanishedUIDs sel.

(** Everything at or below the cursor is applied: the messages the server has not
    touched since agree with their rows, and the rows whose message is gone are
    tombstones or about to be reported. *)
Record cursor_ok (id : Z) (n : string) (since : Z) (s : S) (d : DB) : Prop := {
  co_gone u st : message_state d !! (id, srv_validity s n, u) = Some st ->
    ms_DeletedAt st = None -> srv_view s n !! u = None -> reported s n since u;
  co_seen u m : srv_view s n !! u = Some m -> sm_ModSeq m <= since ->
    exists st, message_state d !! (id, srv_validity s n, u) = Some st /\ row_agrees m st;
  co_live u m st : srv_view s n !! u = Some m ->
    message_state d !! (id, srv_validity s n, u) = Some st -> ms_DeletedAt st = None;
  co_bound u st : message_state d !! (id, srv_validity s n, u) = Some st ->
    u < srv_uidnext s n;
  co_ids : ids_ok d
}.

(** How a mailbox changes under the rules of IMAP with CONDSTORE and QRESYNC:
    a change or a delivery takes a MODSEQ above the highest so far, a delivery
    takes a UID from UIDNEXT up, and an expunge is reported to every cursor
    older than it. *)
Record evolves (n : string) (s s' : S) : Prop := {
  ev_validity : srv_validity s' n = srv_validity s n;
  ev_uidnext : srv_uidnext s n <= srv_uidnext s' n;
  ev_highest : srv_highest s n <= srv_highest s' n;
  ev_view u m : srv_view s' n !! u = Some m ->
    srv_view s n !! u = Some m \/ srv_highest s n < sm_ModSeq m;
  ev_new u : srv_view s n !! u = None -> is_Some (srv_view s' n !! u) -> srv_uidnext s n <= u;
  ev_expunged u since : is_Some (srv_view s n !! u) -> srv_view s' n !! u = None ->
    since <= srv_highest s n -> reported s' n since u;
  ev_reported u since : reported s n since u -> srv_view s' n !! u = None ->
    since <= srv_highest s n -> reported s' n since u
}.

(** Whatever the server does in between, a true cursor stays true. *)
Lemma cursor_ok_evolves id n since s s' d :
  evolves n s s' -> since <= srv_highest s n -> cursor_ok id n since s d ->
  cursor_ok id n since s' d.
Proof.
  intros [Hv Hnx Hh Hview Hnew Hexp Hrep] Hle [Hgone Hseen Hlive Hb Hids].
  split; rewrite ?Hv; [| | | |done].
  - intros u st Hst Hdel Hnone. destruct (srv_view s n !! u) as [m|] eqn:E.
    + eapply Hexp; [rewrite E; eauto|done|done].
    + eapply Hrep; [by eapply Hgone|done|done].
  - intros u m Hm Hmod. destruct (Hview u m Hm) as [?|?]; [eauto|lia].
  - intros u m st Hm Hst. destruct (srv_view s n !! u) as [m0|] eqn:E; [eauto|].
    pose proof (Hnew u E ltac:(eauto)). specialize (Hb u st Hst). lia.
  - intros u st Hst. specialize (Hb u st Hst). lia.
Qed.

(** The live rows are the server's messages, with its flags. *)
Definition mirrors (id : Z) (n : string) (s : S) (d : DB) : Prop :=
  (forall u m, srv_view s n !! u = Some m ->
     exists st, message_state d !! (id, srv_validity s n, u) = Some st /\ row_agrees m st) /\
  (forall u st, message_state d !! (id, srv_validity s n, u) = Some st ->
     ms_DeletedAt st = None -> is_Some (srv_view s n !! u)).

(** No live row without its message. *)
Definition no_ghosts (id : Z) (n : string) (s : S) (d : DB) : Prop :=
  forall u st, message_state d !! (id, srv_validity s n, u) = Some st ->
    ms_DeletedAt st = None -> is_Some (srv_view s n !! u).

(** The rows of the messages touched since the cursor are up to date. *)
Definition flags_fresh (id : Z) (n : string) (since : Z) (s : S) (d : DB) : Prop :=
  forall u m st, srv_view s n !! u = Some m -> since < sm_ModSeq m ->
    message_state d !! (id, srv_validity s n, u) = Some st -> row_agrees m st.

(** A mirror is true at any cursor. *)
Lemma mirrors_cursor_ok id n since since' s d :
  mirrors id n s d -> cursor_ok id n since s d -> cursor_ok id n since' s d.
Proof.
  intros [Hall Hlive] [_ _ _ Hb Hids]. split; [| | |done|done].
  - intros u st Hst Hdel Hnone. destruct (Hlive u st Hst Hdel). congruence.
  - intros u m Hm _. auto.
  - intros u m st Hm Hst. destruct (Hall u m Hm) as (st' & Hst' & (_ & _ & ?)). congruence.
Qed.

(** *** Tombstones *)

Lemma tombstone_spec t st :
  ms_MessageID (tombstone t st) = ms_MessageID st /\ is_Some (ms_DeletedAt (tombstone t st)) /\
  tombstone t (tombstone t st) = tombstone t st.
Proof. unfold tombstone. destruct (ms_DeletedAt st) eqn:E; simpl; rewrite ?E; eauto. Qed.

Lemma mark_deleted_lookup t id v uids m k :
  mark_deleted t id v uids m !! k =
  (if decide (k.1 = (id, v) /\ k.2 ∈ uids) then tombstone t else (fun st => st)) <$> m !! k.
Proof.
  unfold mark_deleted. revert m. induction uids as [|u uids IH]; intros m; simpl.
  { rewrite decide_False by set_solver. by rewrite option_fmap_id. }
  rewrite IH. destruct k as [iv u']. simpl. destruct (decide (iv = (id, v) /\ u' = u)) as [[-> ->]|Hne].
  - rewrite lookup_alter_eq. rewrite (decide_True (P := _ /\ u ∈ u :: uids)) by set_solver.
    destruct (m !! (id, v, u)) as [st|]; [|reflexivity]. cbn [fmap option_fmap option_map].
    destruct (decide _) as [?|?]; [by rewrite (proj2 (proj2 (tombstone_spec t st)))|reflexivity].
  - rewrite lookup_alter_ne by naive_solver.
    destruct (decide (iv = (id, v) /\ u' ∈ uids)).
    + by rewrite decide_True by set_solver.
    + rewrite decide_False; [done|]. set_solver.
Qed.

Lemma mark_deleted_ok id n since s t uids d :
  cursor_ok id n since s d -> (forall u, u ∈ uids -> srv_view s n !! u = None) ->
  (forall u, reported s n since u -> u ∈ uids) ->
  let d' := set_message_state (mark_deleted t id (srv_validity s n) uids) d in
  cursor_ok id n since s d' /\ no_ghosts id n s d'.
Proof.
  intros [Hgone Hseen Hlive Hb [Hlt Huniq]] Hview Hrep d'.
  assert (forall k st', message_state d' !! k = Some st' -> exists st, message_state d !! k = Some st /\
    ms_MessageID st' = ms_MessageID st /\
    ((st' = st /\ ~ (k.1 = (id, srv_validity s n) /\ k.2 ∈ uids)) \/
     (is_Some (ms_DeletedAt st') /\ k.1 = (id, srv_validity s n) /\ k.2 ∈ uids))) as Hback.
  { intros k st'. simpl. rewrite mark_deleted_lookup. intros (st & Hst & ->)%fmap_Some.
    exists st. split; [done|]. case_decide; [|auto].
    destruct (tombstone_spec t st) as (? & ? & _). auto. }
  assert (forall u, is_Some (srv_view s n !! u) ->
    message_state d' !! (id, srv_validity s n, u) = message_state d !! (id, srv_validity s n, u))
    as Hsame.
  { intros u Hu. simpl. rewrite mark_deleted_lookup, decide_False; [by rewrite option_fmap_id|].
    intros [_ Hin%Hview]. simpl in Hin. rewrite Hin in Hu. by destruct Hu. }
  assert (no_ghosts id n s d') as Hng.
  { intros u st Hst Hdel. destruct (Hback _ _ Hst) as (st0 & Hst0 & _ & [[-> Hno]|[[t' Ht] _]]);
      [|congruence].
    destruct (srv_view s n !! u) as [m|] eqn:E; [eauto|]. exfalso. apply Hno. split; [done|].
    by eapply Hrep, Hgone. }
  split; [|done]. split.
  - intros u st Hst Hdel Hnone. destruct (Hng u st Hst Hdel). congruence.
  - intros u m Hm Hle. rewrite Hsame by eauto. auto.
  - intros u m st Hm. rewrite Hsame by eauto. eauto.
  - intros u st (st0 & Hst0 & _)%Hback. eauto.
  - split.
    + intros k st (st0 & Hst0 & -> & _)%Hback. simpl. eauto.
    + intros k k' st st' (st0 & Hst0 & -> & _)%Hback (st1 & Hst1 & -> & _)%Hback. eauto.
Qed.

(** *** Flag updates *)

Definition apply_updates (t : Time) (updates : list FlagUpdate) (st : MessageState) : MessageState :=
  foldl (fun st u => apply_flag_update t u st) st updates.

Lemma update_flags_lookup (t : Time) (updates : list FlagUpdate)
    (m : gmap state_key MessageState) (k : state_key) :
  (foldl (fun m u => apply_flag_update t u <$> m) m updates) !! k =
  apply_updates t updates <$> m !! k.
Proof.
  unfold apply_updates. revert m. induction updates as [|u us IH]; intros m; simpl.
  - by destruct (m !! k).
  - rewrite IH, lookup_fmap. by destruct (m !! k).
Qed.

(** A row keeps its identity; its flags are its own, or those of an update
    addressed to it. *)
Lemma apply_updates_spec t updates st :
  let st' := apply_updates t updates st in
  ms_MessageID st' = ms_MessageID st /\ ms_DeletedAt st' = ms_DeletedAt st /\
  ((st' = st /\ forall u, u ∈ updates -> fu_MessageID u <> ms_MessageID st) \/
   (exists u, u ∈ updates /\ fu_MessageID u = ms_MessageID st /\
      ms_Flags st' = fu_Flags u /\ ms_Keywords st' = fu_Keywords u)).
Proof.
  unfold apply_updates. revert st. induction updates as [|x us IH]; intros st; simpl.
  { split; [done|]. split; [done|]. left. split; [done|]. set_solver. }
  destruct (IH (apply_flag_update t x st)) as (Hid & Hdel & Hcase).
  set (st' := foldl _ _ us) in *. unfold apply_flag_update in *.
  destruct (ms_MessageID st =? fu_MessageID x) eqn:E; bool_cases; simpl in *.
  - split; [done|]. split; [done|]. right. destruct Hcase as [[-> _]|(u & Hu & ? & ? & ?)].
    + exists x. split; [by left|done].
    + exists u. split; [by right|done].
  - split; [done|]. split; [done|]. destruct Hcase as [[-> Hno]|(u & Hu & ? & ? & ?)].
    + left. split; [done|]. intros u [->|Hu]%elem_of_cons; [congruence|auto].
    + right. exists u. split; [by right|done].
Qed.

Lemma states_lookup id v (uids : list Z) (d : DB) u st :
  (list_to_map (omap (fun u => st ← message_state d !! (id, v, u); Some (u, st)) uids)
     : gmap Z MessageState) !! u = Some st <->
  u ∈ uids /\ message_state d !! (id, v, u) = Some st.
Proof.
  set (l := omap _ uids).
  assert (forall u st, (u, st) ∈ l <-> u ∈ uids /\ message_state d !! (id, v, u) = Some st) as Hl.
  { intros u' st'. unfold l. rewrite list_elem_of_omap. split.
    - intros (x & Hx & (st0 & Hst0 & [= -> ->])%bind_Some). done.
    - intros [Hin Hst]. exists u'. split; [done|]. by rewrite Hst. }
  rewrite <- Hl. split; [apply elem_of_list_to_map_2|]. intros Hin.
  apply elem_of_list_to_map_1'; [|done]. intros st' Hin'. apply Hl in Hin, Hin'.
  destruct Hin, Hin'. congruence.
Qed.

(** The changes the server reports, as the pass sees them. *)
Definition changes (s : S) (n : string) (since : Z) : list changedMessage :=
  changed_of <$> (srv_changes s n since).1.

Lemma elem_of_changes s n since ch :
  ch ∈ changes s n since <->
  exists u m, srv_view s n !! u = Some m /\ since < sm_ModSeq m /\
    ch = changed_of (fetched_of u m).
Proof.
  unfold changes. rewrite list_elem_of_fmap. split.
  - intros (f & -> & (m & Hm & Hlt & Heq)%view_changes). exists (f_UID f), m. by rewrite <- Heq.
  - intros (u & m & Hm & Hlt & ->). exists (fetched_of u m). split; [done|].
    apply view_changes. simpl. eauto.
Qed.

Section updates.
Context (id : Z) (n : string) (since : Z) (s : S) (t : Time) (d : DB).
Context (Hok : cursor_ok id n since s d).
Let v := srv_validity s n.
Let states : gmap Z MessageState :=
  list_to_map (omap (fun u => st ← message_state d !! (id, v, u); Some (u, st))
                    (ch_uid <$> changes s n since)).
Let updates := omap (flag_update states) (changes s n since).
Let d' := set_message_state (fun m => foldl (fun m u => apply_flag_update t u <$> m) m updates) d.

Lemma updated_lookup k :
  message_state d' !! k = apply_updates t updates <$> message_state d !! k.
Proof. apply update_flags_lookup. Qed.

(** An update carries the server's flags to the row of its message. *)
Lemma update_target x :
  x ∈ updates -> exists u m st, srv_view s n !! u = Some m /\
    message_state d !! (id, v, u) = Some st /\ fu_MessageID x = ms_MessageID st /\
    fu_Flags x = storeFlags (sm_Flags m) /\ fu_Keywords x = sanitizeAll (sm_Keywords m).
Proof.
  unfold updates. rewrite list_elem_of_omap. intros (ch & Hch & Hx).
  apply elem_of_changes in Hch as (u & m & Hm & _ & ->). unfold flag_update in Hx. simpl in Hx.
  destruct (states !! u) as [st|] eqn:E; [|done]. apply states_lookup in E as [_ E].
  case_match; [done|]. injection Hx as <-. by exists u, m, st.
Qed.

(** Each row is as before, or belongs to a changed message and agrees. *)
Lemma updated_row k st' :
  message_state d' !! k = Some st' -> exists st, message_state d !! k = Some st /\
    ms_MessageID st' = ms_MessageID st /\ ms_DeletedAt st' = ms_DeletedAt st /\
    ((st' = st /\ forall x, x ∈ updates -> fu_MessageID x <> ms_MessageID st) \/
     exists u m, k = (id, v, u) /\ srv_view s n !! u = Some m /\ row_agrees m st').
Proof.
  rewrite updated_lookup. intros (st & Hst & ->)%fmap_Some.
  destruct (apply_updates_spec t updates st) as (Hid & Hdel & Hcase). exists st.
  split; [done|]. split; [done|]. split; [done|].
  destruct Hcase as [?|(x & Hx & Hxid & Hf & Hk)]; [by left|]. right.
  destruct (update_target x Hx) as (u & m & st0 & Hm & Hst0 & Hid0 & Hf0 & Hk0).
  destruct Hok as [_ _ Hlive _ [_ Huniq]].
  assert (k = (id, v, u)) as -> by (eapply Huniq; [exact Hst|exact Hst0|congruence]).
  exists u, m. split; [done|]. split; [done|]. split; [congruence|]. split; [by rewrite Hk, Hk0|].
  rewrite Hdel. by eapply Hlive.
Qed.

Lemma update_flags_ok :
  no_ghosts id n s d ->
  cursor_ok id n since s d' /\ no_ghosts id n s d' /\ flags_fresh id n since s d'.
Proof.
  intros Hng. destruct Hok as [Hgone Hseen Hlive Hb [Hlt Huniq]].
  assert (no_ghosts id n s d') as Hng'.
  { intros u st' Hst' Hdel. destruct (updated_row _ _ Hst') as (st & Hst & _ & Hd & _).
    eapply Hng; [exact Hst|congruence]. }
  assert (forall u m st', srv_view s n !! u = Some m -> message_state d' !! (id, v, u) = Some st' ->
    ms_DeletedAt st' = None) as Hlive'.
  { intros u m st' Hm Hst'. destruct (updated_row _ _ Hst') as (st & Hst & _ & -> & _). eauto. }
  split; [split|split; [done|]].
  - intros u st' Hst' Hdel Hnone. destruct (Hng' u st' Hst' Hdel). congruence.
  - intros u m Hm Hle. destruct (Hseen u m Hm Hle) as (st & Hst & Hag).
    exists (apply_updates t updates st). split; [rewrite updated_lookup; apply fmap_Some; by exists st|].
    destruct (updated_row (id, v, u) (apply_updates t updates st)) as (st0 & Hst0 & _ & _ & Hcase).
    { rewrite updated_lookup. apply fmap_Some. by exists st. }
    destruct Hcase as [[Heq _]|(u' & m' & [= <-] & Hm' & Hag')]; [|congruence].
    rewrite Heq. assert (Some st0 = Some st) as [= ->] by (rewrite <- Hst0; exact Hst). done.
  - exact Hlive'.
  - intros u st' Hst'. destruct (updated_row _ _ Hst') as (st & Hst & _). eauto.
  - split.
    + intros k st' Hst'. destruct (updated_row _ _ Hst') as (st & Hst & -> & _). simpl. eauto.
    + intros k k' st1 st2 H1 H2. destruct (updated_row _ _ H1) as (st & Hst & -> & _).
      destruct (updated_row _ _ H2) as (st0 & Hst0 & -> & _). eauto.
  - intros u m st' Hm Hgt Hst'. destruct (updated_row _ _ Hst') as (st & Hst & _ & Hd & Hcase).
    destruct Hcase as [[-> Hno]|(u' & m' & [= <-] & Hm' & Hag')]; [|congruence].
    assert (changed_of (fetched_of u m) ∈ changes s n since) as Hin
      by (apply elem_of_changes; eauto).
    assert (states !! u = Some st) as Hs.
    { apply states_lookup. split; [|done]. exact (list_elem_of_fmap_2 ch_uid _ _ Hin). }
    destruct (flag_update states (changed_of (fetched_of u m))) as [x|] eqn:E.
    + exfalso. apply (Hno x); [apply list_elem_of_omap; eauto|].
      unfold flag_update in E. simpl in E. rewrite Hs in E. case_match; [done|]. by injection E as <-.
    + unfold flag_update in E. simpl in E. rewrite Hs in E. case_match eqn:Ec; [|done].
      apply andb_true_iff in Ec as [Hf%Z.eqb_eq Hk%sameKeywords_perm].
      split; [done|]. split; [done|]. eauto.
Qed.
End updates.

(** *** New messages *)

Lemma cursor_ok_grows id n since s uids d d' :
  grows (fetch_row id (srv_validity s n) (srv_view s n) uids) d d' ->
  cursor_ok id n since s d -> cursor_ok id n since s d'.
Proof.
  intros [_ _ Hold Hnew Hids] [Hgone Hseen Hlive Hb Hok]. split; [| | | |by apply Hids].
  - intros u st [Hst|(u' & m & _ & [= <-] & Hm & _)]%Hnew Hdel Hnone; [eauto|congruence].
  - intros u m Hm Hle. destruct (Hseen u m Hm Hle) as (st & Hst & ?). eauto.
  - intros u m st Hm [Hst|(u' & m' & _ & _ & _ & Hr)]%Hnew; [eauto|apply Hr].
  - intros u st [Hst|(u' & m' & _ & [= <-] & Hm & _)]%Hnew; [eauto|].
    destruct (view_bounds s n) as (_ & _ & Hvb). destruct (Hvb _ _ Hm). lia.
Qed.

Lemma no_ghosts_grows id n s uids d d' :
  grows (fetch_row id (srv_validity s n) (srv_view s n) uids) d d' ->
  no_ghosts id n s d -> no_ghosts id n s d'.
Proof.
  intros [_ _ Hold Hnew _] Hng u st [Hst|(u' & m & _ & [= <-] & Hm & _)]%Hnew Hdel; eauto.
Qed.

(** With the tombstones and the flags in place, storing the changed messages
    that have no row completes the mirror. *)
Lemma grows_mirrors id n since s uids d d' :
  cursor_ok id n since s d -> no_ghosts id n s d -> flags_fresh id n since s d ->
  grows (fetch_row id (srv_validity s n) (srv_view s n) uids) d d' ->
  covered id (srv_validity s n) (srv_view s n) uids d' ->
  (forall u m, srv_view s n !! u = Some m -> since < sm_ModSeq m -> u ∈ uids) ->
  mirrors id n s d'.
Proof.
  intros Hok Hng Hff Hg Hcov Hall. split; [|by eapply no_ghosts_grows].
  intros u m Hm. destruct (decide (sm_ModSeq m <= since)) as [Hle|Hgt].
  - destruct (co_seen _ _ _ _ _ Hok u m Hm Hle) as (st & Hst & ?). exists st.
    split; [|done]. by eapply grows_old.
  - destruct (Hcov u) as [st Hst]; [eapply Hall; [done|lia]|eauto|]. exists st. split; [done|].
    destruct (grows_new _ _ _ Hg _ _ Hst) as [Hold|(u' & m' & _ & [= <-] & Hm' & Hr)].
    + eapply Hff; [done|lia|done].
    + assert (m' = m) as -> by congruence. by apply row_mirrors_agrees.
Qed.

Lemma newUIDCandidates_spec row delta :
  NoDup (newUIDCandidates row delta) /\
  (forall ch, ch ∈ dl_changed delta -> ch_uid ch <> 0 -> ch_uid ch ∉ dl_vanished delta ->
     ch_uid ch ∈ newUIDCandidates row delta) /\
  (forall u, u ∈ newUIDCandidates row delta -> u ∉ dl_vanished delta).
Proof.
  unfold newUIDCandidates. split; [apply NoDup_filter, NoDup_dedupe_from|]. split.
  - intros ch Hch H0 Hv. apply list_elem_of_filter. split; [done|].
    apply elem_of_dedupe_from. split; [|set_solver]. apply list_elem_of_filter. split; [done|].
    apply elem_of_app. right. by apply list_elem_of_fmap_2.
  - intros u [? _]%list_elem_of_filter. done.
Qed.

(** *** The pass *)

Context (BatchSize : nat) (FetchWindow : Z).
Context (sha256 : string -> string) (derive : string -> Message).
Context (rejects : NewMessage -> bool).
Context (sched : list rawMessage -> list rawMessage).
Context (sched_perm : forall l, sched l ≡ₚ l).
Context (assign : DB -> Z -> list Z -> option (list (Z * Z))).

(** A part of the pass: whatever fails, the cursor it started from stays true
    and no mailbox row or checkpoint moves. *)
Definition keeps_cursor {A} (id : Z) (n : string) (since : Z) (m : M (World S) err A)
    (Q : DB -> Prop) (w : World S) : Prop :=
  wp m (fun w' r => same_env w w' /\ mailboxes (w_db w') = mailboxes (w_db w) /\
    sync_log (w_db w') = sync_log (w_db w) /\ cursor_ok id n since (w_srv w) (w_db w') /\
    match r with inl e => faulty w | inr _ => Q (w_db w') end) w.

Lemma applyVanished_spec id n since vanished w :
  cursor_ok id n since (w_srv w) (w_db w) ->
  (forall u, u ∈ vanished -> srv_view (w_srv w) n !! u = None) ->
  (forall u, reported (w_srv w) n since u -> u ∈ vanished) ->
  keeps_cursor id n since (applyVanished id (srv_validity (w_srv w) n) vanished)
    (no_ghosts id n (w_srv w)) w.
Proof.
  intros Hok Hview Hrep. unfold keeps_cursor, applyVanished. case_decide as Hnil.
  { wp_steps. split; [auto with moov|]. do 3 (split; [done|]). intros u st Hst Hdel.
    destruct (srv_view (w_srv w) n !! u) eqn:E; [eauto|]. exfalso.
    apply (not_elem_of_nil u). rewrite <- Hnil. apply elem_of_dedupeUIDs, Hrep.
    by eapply co_gone. }
  unfold MarkDeleted. rewrite decide_False by done. wp_steps. apply wp_io.
  { intros e Hf _. split; [auto with moov|]. by do 3 (split; [done|]). }
  wp_steps. simpl. edestruct (mark_deleted_ok id n since (w_srv w) (w_now w)
    (dedupeUIDs vanished) (w_db w) Hok) as [Hok' Hng].
  - intros u Hu. apply Hview. by apply elem_of_dedupeUIDs.
  - intros u Hu. by apply elem_of_dedupeUIDs, Hrep.
  - split; [apply same_env_drop|]. by do 3 (split; [done|]).
Qed.

Lemma applyFlagChanges_spec id n since w :
  cursor_ok id n since (w_srv w) (w_db w) -> no_ghosts id n (w_srv w) (w_db w) ->
  keeps_cursor id n since
    (applyFlagChanges id (srv_validity (w_srv w) n) (changes (w_srv w) n since))
    (fun d => no_ghosts id n (w_srv w) d /\ flags_fresh id n since (w_srv w) d) w.
Proof.
  intros Hok Hng. unfold keeps_cursor, applyFlagChanges.
  pose proof (fun t => update_flags_ok id n since (w_srv w) t (w_db w) Hok Hng) as Hupd.
  case_decide as Hnil.
  { wp_steps. split; [auto with moov|]. do 3 (split; [done|]).
    rewrite Hnil in Hupd. split; [done|]. exact (proj2 (proj2 (Hupd 0))). }
  unfold MessageStatesByUID. rewrite decide_False by (intros ?%fmap_nil_inv; done).
  wp_steps. apply wp_io.
  { intros e Hf _. split; [auto with moov|]. by do 3 (split; [done|]). }
  wp_steps. simpl w_db. set (states := list_to_map _). fold states in Hupd.
  set (updates := omap (flag_update states) _) in *.
  case_decide as Hs; [|case_decide as Hu].
  - wp_steps. split; [auto with moov|]. do 3 (split; [done|]). split; [done|].
    assert (updates = []) as Hemp.
    { unfold updates. apply elem_of_nil_inv. intros x (ch & _ & Hx)%list_elem_of_omap.
      unfold flag_update in Hx. by rewrite Hs, lookup_empty in Hx. }
    rewrite Hemp in Hupd. exact (proj2 (proj2 (Hupd 0))).
  - wp_steps. split; [auto with moov|]. do 3 (split; [done|]). split; [done|].
    rewrite Hu in Hupd. exact (proj2 (proj2 (Hupd 0))).
  - unfold UpdateFlags. rewrite decide_False by done. wp_steps. apply wp_io.
    { intros e Hf _. split; [eapply same_env_trans; apply same_env_drop|].
      do 3 (split; [done|]). by apply faulty_drop. }
    wp_steps. split; [eapply same_env_trans; apply same_env_drop|]. do 2 (split; [done|]).
    exact (Hupd (w_now w)).
Qed.

Abbreviation storable_in := (mailbox_storable sha256 derive rejects).

Lemma fetchNewMessages_spec a id n since mb vanished highest next w :
  mb_ID (sb_row mb) = id -> mi_Name (sb_info mb) = n ->
  cursor_ok id n since (w_srv w) (w_db w) -> no_ghosts id n (w_srv w) (w_db w) ->
  flags_fresh id n since (w_srv w) (w_db w) ->
  (forall u, u ∈ vanished -> srv_view (w_srv w) n !! u = None) ->
  storable_in id (srv_validity (w_srv w) n) n w ->
  keeps_cursor id n since
    (fetchNewMessages BatchSize sha256 derive rejects sched assign a mb (srv_validity (w_srv w) n)
       {| dl_changed := changes (w_srv w) n since; dl_vanished := vanished;
          dl_highestMod := highest; dl_uidNext := next |})
    (mirrors id n (w_srv w)) w.
Proof.
  intros Hid Hn Hok Hng Hff Hvan Hst. unfold keeps_cursor, fetchNewMessages. rewrite Hid, Hn.
  set (delta := mkDelta _ _ _ _). destruct (newUIDCandidates_spec (sb_row mb) delta) as (Hnd & Hin & _).
  assert (forall u m, srv_view (w_srv w) n !! u = Some m -> since < sm_ModSeq m ->
    u ∈ newUIDCandidates (sb_row mb) delta) as Hall.
  { intros u m Hm Hlt. apply (Hin (changed_of (fetched_of u m))).
    - apply elem_of_changes. eauto.
    - destruct (view_bounds (w_srv w) n) as (_ & _ & Hb). destruct (Hb _ _ Hm). simpl. lia.
    - simpl. intros Hv. rewrite (Hvan _ Hv) in Hm. done. }
  case_decide as Hnil.
  { wp_steps. split; [auto with moov|]. do 3 (split; [done|]).
    eapply (grows_mirrors _ _ since _ []); eauto with moov.
    - intros u Hu. set_solver.
    - by rewrite <- Hnil. }
  wp_steps. eapply wp_mono; [by apply fetchAndStore_spec|]. cbv zeta.
  intros w' r (Henv & Hg & Hr).
  pose proof (grows_mailboxes _ _ _ Hg). pose proof (grows_log _ _ _ Hg).
  pose proof (cursor_ok_grows _ _ _ _ _ _ _ Hg Hok).
  destruct r as [e|st]; wp_steps; (split; [done|]); do 3 (split; [done|]); [done|].
  eapply grows_mirrors; [exact Hok|exact Hng|exact Hff|exact Hg|by apply Hr|exact Hall].
Qed.

(** The row's cursor, as the code reads it. *)
Definition row_cursor (d : DB) (id : Z) : option (Z * (Z * Z)) :=
  (fun row => (mb_ID row, mailboxCursor row)) <$> mailboxes d !! id.

Lemma applyDelta_spec a id n since mb vanished highest next w :
  mb_ID (sb_row mb) = id -> mi_Name (sb_info mb) = n ->
  cursor_ok id n since (w_srv w) (w_db w) ->
  (forall u, u ∈ vanished -> srv_view (w_srv w) n !! u = None) ->
  (forall u, reported (w_srv w) n since u -> u ∈ vanished) ->
  storable_in id (srv_validity (w_srv w) n) n w ->
  keeps_cursor id n since
    (applyDelta BatchSize sha256 derive rejects sched assign a mb (srv_validity (w_srv w) n)
       {| dl_changed := changes (w_srv w) n since; dl_vanished := vanished;
          dl_highestMod := highest; dl_uidNext := next |})
    (mirrors id n (w_srv w)) w.
Proof.
  intros Hid Hn Hok Hview Hrep Hst. unfold keeps_cursor, applyDelta. rewrite Hid. wp_steps.
  cbn [dl_vanished dl_changed].
  eapply wp_mono; [by apply applyVanished_spec|]. cbv beta.
  intros w1 r1 (Henv1 & Hm1 & Hl1 & Hok1 & Hr1). destruct r1 as [e|c1]; [done|].
  pose proof (proj1 Henv1) as Hs1. wp_steps. rewrite <- Hs1 in *.
  eapply wp_mono; [by apply applyFlagChanges_spec|]. cbv beta.
  intros w2 r2 (Henv2 & Hm2 & Hl2 & Hok2 & Hr2).
  assert (same_env w w2) by (by eapply same_env_trans).
  assert (mailboxes (w_db w2) = mailboxes (w_db w)) by congruence.
  assert (sync_log (w_db w2) = sync_log (w_db w)) by congruence.
  destruct r2 as [e|c2].
  { do 4 (split; [done|]). by apply Henv1. }
  destruct Hr2 as [Hng2 Hff2]. pose proof (proj1 Henv2) as Hs2. wp_steps. rewrite <- Hs2 in *.
  eapply wp_mono; [apply fetchNewMessages_spec; try done; by eapply storable_env|]. cbv beta.
  intros w3 r3 (Henv3 & Hm3 & Hl3 & Hok3 & Hr3).
  assert (same_env w w3) by (by eapply same_env_trans).
  destruct r3 as [e|c3]; wp_steps; (split; [done|]); (split; [congruence|]);
    (split; [congruence|]); (split; [done|]); [|done].
  by apply Henv1, Henv2.
Qed.

(** The whole pass on a mailbox with the stored UIDVALIDITY. *)
Lemma deltaPass_spec a id n since mb sel w :
  mb_ID (sb_row mb) = id -> mi_Name (sb_info mb) = n ->
  srv_select (w_srv w) n (srv_validity (w_srv w) n) since = Some sel ->
  cursor_ok id n since (w_srv w) (w_db w) ->
  (exists row, mailboxes (w_db w) !! id = Some row /\ mb_ID row = id) ->
  storable_in id (srv_validity (w_srv w) n) n w ->
  wp (deltaPass BatchSize sha256 derive rejects sched assign a mb since sel)
    (fun w' r => same_env w w' /\ cursor_ok id n since (w_srv w) (w_db w') /\
       match r with
       | inl e => faulty w /\ mailboxes (w_db w') = mailboxes (w_db w)
       | inr res => mirrors id n (w_srv w) (w_db w') /\
           row_cursor (w_db w') id = Some (id, (srv_validity (w_srv w) n,
             Z.max 0 (Z.min (srv_highest (w_srv w) n) MaxInt64))) /\
           ir_Resynced res = false /\ ir_Notified res = Changed res
       end) w.
Proof.
  intros Hid Hn Hsel Hok (row & Hrow & Hrid) Hst. unfold deltaPass, collectChanges. rewrite Hid, Hn.
  destruct (view_select _ _ _ _ _ Hsel) as (Hv & Hnext & Hhigh & _ & Hvan).
  pose proof (view_bounds (w_srv w) n) as (Hvb & _ & _).
  wp_steps. apply wp_io. { intros e Hf _. split; [auto with moov|]. done. }
  wp_steps. simpl w_srv. cbn [fst snd]. rewrite Hv.
  change (changed_of <$> _) with (changes (w_srv w) n since).
  eapply wp_mono; [apply (applyDelta_spec a id n since mb _ _ _ (drop_fault w)); try done|].
  - simpl. intros u [?|?]%elem_of_app; [auto|by eapply view_vanished].
  - simpl. intros u [?|(sel' & Hsel' & ?)]; apply elem_of_app; [by right|left].
    congruence.
  - eapply storable_env; [apply same_env_drop|done].
  - cbv beta. simpl w_srv. intros w1 r1 (Henv1 & Hm1 & Hl1 & Hok1 & Hr1). simpl in Hm1.
    assert (same_env w w1) as Henv01 by (eapply same_env_trans; [apply same_env_drop|done]).
    destruct r1 as [e|[[c1 c2] c3]]; [split; [done|]; split; [done|]; split; [by apply faulty_drop|done]|].
    unfold SetMailboxSyncState, update_mailbox. wp_steps. apply wp_io.
    { intros e Hf _. split; [eapply same_env_trans; [done|apply same_env_drop]|].
      split; [done|]. split; [|done]. by apply Henv01. }
    wp_steps. simpl. rewrite Hm1, Hrow. wp_steps.
    split; [eapply same_env_trans; [done|apply same_env_drop]|]. simpl.
    split; [by destruct Hok1|]. split; [done|]. split; [|done].
    unfold row_cursor. simpl. rewrite Hm1, lookup_insert_eq. simpl. unfold mailboxCursor.
    rewrite known_validity_sync by lia. simpl. rewrite Hrid. do 3 f_equal. rewrite Hhigh.
    unfold modSeqToDB, modSeqFromDB. repeat case_bool; lia.
Qed.

Abbreviation incremental :=
  (incrementalMailbox BatchSize FetchWindow sha256 derive rejects sched assign).

(** One pass, UIDVALIDITY unchanged. *)
Lemma incremental_pass a id n since mb w :
  mailboxes (w_db w) !! id = Some (sb_row mb) -> mb_ID (sb_row mb) = id ->
  mi_Name (sb_info mb) = n -> mailboxCursor (sb_row mb) = (srv_validity (w_srv w) n, since) ->
  since <> 0 -> cursor_ok id n since (w_srv w) (w_db w) ->
  storable_in id (srv_validity (w_srv w) n) n w ->
  wp (incremental a mb)
    (fun w' r => same_env w w' /\ cursor_ok id n since (w_srv w) (w_db w') /\
       match r with
       | inl e => (faulty w \/ unselectable n w) /\ mailboxes (w_db w') = mailboxes (w_db w)
       | inr res => mirrors id n (w_srv w) (w_db w') /\
           row_cursor (w_db w') id = Some (id, (srv_validity (w_srv w) n,
             Z.max 0 (Z.min (srv_highest (w_srv w) n) MaxInt64))) /\
           ir_Resynced res = false /\ ir_Notified res = Changed res
       end) w.
Proof.
  intros Hrow Hid Hn Hcur Hs0 Hok Hst. unfold incrementalMailbox. rewrite Hcur, Hn.
  pose proof (view_bounds (w_srv w) n) as (Hvb & _ & _).
  destruct (_ || _) eqn:E; [bool_cases; [lia|done]|]. unfold SelectQResync. wp_steps. apply wp_io.
  { intros e Hf _. split; [auto with moov|]. split; [done|]. split; [by left|done]. }
  wp_steps. simpl w_srv. destruct (srv_select _ _ _ _) as [sel|] eqn:Hsel; wp_steps; cycle 1.
  { split; [auto with moov|]. split; [done|]. split; [|done]. right. by eexists _, _. }
  destruct (view_select _ _ _ _ _ Hsel) as (Hv & _). rewrite Hv, Z.eqb_refl. simpl negb.
  eapply wp_mono; [apply (deltaPass_spec a id n since mb sel (drop_fault w)); try done|].
  - by exists (sb_row mb).
  - eapply storable_env; [apply same_env_drop|done].
  - cbv beta. simpl w_srv. intros w1 r1 (Henv & Hok1 & Hr1).
    split; [eapply same_env_trans; [apply same_env_drop|done]|]. split; [done|].
    destruct r1 as [e|res].
    + destruct Hr1 as [Hf Hm]. split; [left; by apply faulty_drop|done].
    + done.
Qed.

(** *** Histories *)

Definition set_faults (fs : list (option fault)) (w : World S) : World S :=
  {| w_db := w_db w; w_srv := w_srv w; w_now := w_now w; w_faults := fs |}.
Definition set_server (s : S) (w : World S) : World S :=
  {| w_db := w_db w; w_srv := s; w_now := w_now w; w_faults := w_faults w |}.

(** What happens to a mailbox once it is synced: the server changes it, or a pass
    runs over it and is cut short by any schedule of failures. A pass is one step: other
    clients do not change the mailbox between the commands of one pass, only between
    passes, so nothing is claimed here of a change that arrives in the middle of one. *)
Inductive hstep (a id : Z) (info : MailboxInfo) (w : World S) : World S -> Prop :=
| h_server s' : evolves (mi_Name info) (w_srv w) s' -> hstep a id info w (set_server s' w)
| h_pass fs row :
    mailboxes (w_db w) !! id = Some row ->
    hstep a id info w
      (incremental a {| sb_row := row; sb_info := info |} (set_faults fs w)).1.

(** The stored cursor is true. *)
Definition synced (id : Z) (n : string) (w : World S) : Prop :=
  exists row since, mailboxes (w_db w) !! id = Some row /\ mb_ID row = id /\
    mailboxCursor row = (srv_validity (w_srv w) n, since) /\
    0 < since <= srv_highest (w_srv w) n /\ cursor_ok id n since (w_srv w) (w_db w).

Lemma synced_pass a id info row w :
  (forall v u m, rejects (srv_row sha256 derive id v u m) = false) ->
  synced id (mi_Name info) w -> mailboxes (w_db w) !! id = Some row ->
  wp (incremental a {| sb_row := row; sb_info := info |})
    (fun w' r => same_env w w' /\ synced id (mi_Name info) w' /\
       match r with
       | inl e => faulty w \/ unselectable (mi_Name info) w
       | inr res => mirrors id (mi_Name info) (w_srv w) (w_db w')
       end) w.
Proof.
  intros Hacc (row' & since & Hrow' & Hid & Hcur & Hs & Hok) Hrow.
  assert (row' = row) as -> by congruence. set (n := mi_Name info) in *.
  set (mb := {| sb_row := row; sb_info := info |}).
  assert (storable_in id (srv_validity (w_srv w) n) n w) as Hst.
  { left. intros nm ([u m] & -> & _)%list_elem_of_fmap. apply Hacc. }
  eapply wp_mono; [apply (incremental_pass a id n since mb w Hrow Hid eq_refl Hcur); [lia|done|done]|].
  cbv beta. intros w' r (Henv & Hok' & Hr). split; [done|].
  pose proof (proj1 Henv) as Hsrv. rewrite <- Hsrv in *. destruct r as [e|res].
  - destruct Hr as [He Hm]. split; [|by rewrite Hsrv in *]. exists row, since.
    by rewrite Hm.
  - destruct Hr as (Hmir & Hcur' & _). split; [|done].
    unfold row_cursor in Hcur'. apply fmap_Some in Hcur' as (row2 & Hrow2 & Hc2).
    pose proof (f_equal fst Hc2) as Hid2. pose proof (f_equal snd Hc2) as Hcur2.
    eexists row2, _. split; [done|]. split; [by symmetry|].
    split; [symmetry; exact Hcur2|split].
    + pose proof (highest_nonneg (w_srv w') n). unfold MaxInt64. lia.
    + by eapply mirrors_cursor_ok.
Qed.

Lemma synced_step a id info w w' :
  (forall v u m, rejects (srv_row sha256 derive id v u m) = false) ->
  synced id (mi_Name info) w -> hstep a id info w w' -> synced id (mi_Name info) w'.
Proof.
  intros Hacc Hsync Hstep. destruct Hstep as [s' Hev|fs row Hrow].
  - destruct Hsync as (row & since & Hrow & Hid & Hcur & Hs & Hok). exists row, since.
    simpl. pose proof Hev as [Hv _ Hh _ _ _ _]. rewrite Hv. do 3 (split; [done|]).
    split; [lia|]. eapply cursor_ok_evolves; [done|lia|done].
  - pose proof (synced_pass a id info row (set_faults fs w) Hacc Hsync Hrow) as Hp.
    apply Hp.
Qed.
End cursor.

(** ** A recreated mailbox, an expunge, a change that changes nothing *)

Section resync.
Context {S : Type} `{ImapServer S} `{!ImapLaws S}.
Context (BatchSize : nat) (FetchWindow : Z).
Context (sha256 : string -> string) (derive : string -> Message).
Context (rejects : NewMessage -> bool).
Context (sched : list rawMessage -> list rawMessage).
Context (sched_perm : forall l, sched l ≡ₚ l).
Context (assign : DB -> Z -> list Z -> option (list (Z * Z))).

Lemma resyncMailbox_safe a id n mb (w : World S) :
  mailbox_inv a id n w -> mb_ID (sb_row mb) = id -> mi_Name (sb_info mb) = n ->
  (forall row, mailboxes (w_db w) !! id = Some row ->
     ~ validity_ok (srv_validity (w_srv w) n) row) ->
  mailbox_storable sha256 derive rejects id (srv_validity (w_srv w) n) n w ->
  safe a id n (resyncMailbox BatchSize FetchWindow sha256 derive rejects sched assign a mb)
    (fun _ w' => fully_stored id n w') w.
Proof.
  intros Hinv Hid Hn Hno Hst. unfold resyncMailbox. rewrite Hid. apply safe_bind.
  eapply safe_mono; [by apply safe_invalidate|]. intros [] w1 _ Hm1 Henv1 Hinv1.
  pose proof (view_bounds (w_srv w1) n) as (Hv & _ & _).
  assert (forall row, mailboxes (w_db w1) !! id = Some row -> known_validity row = 0) as Hk1.
  { rewrite Hm1. intros row (row0 & _ & ->)%fmap_Some. done. }
  apply safe_bind. eapply safe_mono.
  { apply (safe_save a id n (freshCheckpoint 0)); try done. simpl. lia. }
  intros [] w2 _ (_ & Hm2 & _) Henv2 Hinv2. apply safe_bind.
  eapply safe_mono; [by apply safe_getMailbox|].
  intros row w3 _ (Hdb & Hrow) Henv3 Hinv3. apply safe_bind.
  eapply safe_mono; [apply backfillMailbox_safe; [exact sched_perm|done| |]|].
  - destruct (mi_row _ _ _ _ Hinv2) as (row' & Hrow' & Hid'). split; [simpl; congruence|].
    split; [done|]. left. left. apply Hk1. simpl. congruence.
  - eapply storable_env; [exact Henv3|]. rewrite (proj1 Henv3). eapply storable_env; [exact Henv2|].
    rewrite (proj1 Henv2). eapply storable_env; [exact Henv1|]. by rewrite (proj1 Henv1).
  - intros st w4 _ Hfull Henv4 Hinv4. by apply safe_ret.
Qed.
End resync.

(** A recreated folder is rebuilt. When the server's UIDVALIDITY is not the
    one the row remembers, an incremental pass drops the folder's rows and walks
    it again. Interrupted anywhere it leaves a true checkpoint and every other
    folder untouched; when it returns, every message of the folder is stored
    under the new UIDVALIDITY and the result says so. *)
Theorem incremental_rebuilds_recreated {S} `{ImapServer S} `{!ImapLaws S}
    (BatchSize : nat) (FetchWindow : Z) (sha256 : string -> string)
    (derive : string -> Message) (rejects : NewMessage -> bool)
    (sched : list rawMessage -> list rawMessage)
    (assign : DB -> Z -> list Z -> option (list (Z * Z)))
    (a id : Z) (mb : syncMailbox) (w : World S) (known since : Z) :
  (forall l, sched l ≡ₚ l) ->
  mailbox_inv a id (mi_Name (sb_info mb)) w ->
  mailboxes (w_db w) !! id = Some (sb_row mb) ->
  mailboxCursor (sb_row mb) = (known, since) -> known <> 0 -> since <> 0 ->
  known <> srv_validity (w_srv w) (mi_Name (sb_info mb)) ->
  mailbox_storable sha256 derive rejects id (srv_validity (w_srv w) (mi_Name (sb_info mb)))
    (mi_Name (sb_info mb)) w ->
  safe a id (mi_Name (sb_info mb))
    (incrementalMailbox BatchSize FetchWindow sha256 derive rejects sched assign a mb)
    (fun res w' => ir_Resynced res = true /\ fully_stored id (mi_Name (sb_info mb)) w') w.
Proof.
  intros Hperm Hinv Hrow Hcur Hk Hs Hne Hst. set (n := mi_Name (sb_info mb)) in *.
  assert (mb_ID (sb_row mb) = id) as Hid.
  { destruct (mi_row _ _ _ _ Hinv) as (row & Hr & Hi). congruence. }
  assert (known_validity (sb_row mb) = known) as Hkv by (by injection Hcur).
  unfold incrementalMailbox. rewrite Hcur. fold n.
  destruct (_ || _) eqn:E; [bool_cases; done|]. unfold SelectQResync.
  apply safe_bind. apply (safe_mono _ _ _ _ (fun sel w' => w_db w' = w_db w /\
    srv_select (w_srv w) n known since = Some sel)).
  { unfold safe. assert (mailbox_inv a id n (drop_fault w)).
    { by eapply mailbox_inv_transfer; [apply same_env_drop|..]. }
    wp_steps. apply wp_io. { intros e Hflt _. repeat (split; [auto with moov|]). by left. }
    wp_steps. simpl. destruct (srv_select (w_srv w) n known since) as [sel|] eqn:Es; wp_steps;
      repeat (split; [auto with moov|]); [done|]. right. by eexists _, _. }
  intros sel w1 _ (Hdb & Hsel) Henv1 Hinv1.
  destruct (view_select _ _ _ _ _ Hsel) as (Hv & _). rewrite Hv.
  destruct (srv_validity (w_srv w) n =? known) eqn:Eq; bool_cases; [by destruct Hne|]. simpl negb.
  apply safe_bind. eapply safe_mono; [apply resyncMailbox_safe; try done|].
  - rewrite Hdb, (proj1 Henv1). intros row Hrow'. assert (row = sb_row mb) as -> by congruence.
    intros [?|?]; congruence.
  - eapply storable_env; [exact Henv1|]. by rewrite (proj1 Henv1).
  - intros [] w2 _ Hfull Henv2 Hinv2. by apply safe_ret.
Qed.

(** An expunge is final. Whatever else the delta says of a message the server
    reported expunged (changed flags, a UID in the arrival range), once the delta
    is applied its row, if there is one, is a tombstone. *)
Theorem expunge_is_final {S} `{ImapServer S} `{!ImapLaws S}
    (BatchSize : nat) (sha256 : string -> string) (derive : string -> Message)
    (rejects : NewMessage -> bool) (sched : list rawMessage -> list rawMessage)
    (assign : DB -> Z -> list Z -> option (list (Z * Z)))
    (a v : Z) (mb : syncMailbox) (delta : mailboxDelta) (w : World S) :
  (forall l, sched l ≡ₚ l) ->
  wp (applyDelta BatchSize sha256 derive rejects sched assign a mb v delta)
    (fun w' r => match r with
       | inl _ => True
       | inr _ => forall u st, u ∈ dl_vanished delta ->
           message_state (w_db w') !! (mb_ID (sb_row mb), v, u) = Some st ->
           is_Some (ms_DeletedAt st)
       end) w.
Proof.
  intros Hperm. set (id := mb_ID (sb_row mb)).
  set (P := fun d : DB => forall u st, u ∈ dl_vanished delta ->
    message_state d !! (id, v, u) = Some st -> is_Some (ms_DeletedAt st)).
  unfold applyDelta. fold id. wp_steps.
  apply (wp_mono _ (fun w' r => match r with inl _ => True | inr _ => P (w_db w') end)).
  { unfold applyVanished. case_decide as Hnil.
    - wp_steps. intros u st Hu. apply elem_of_dedupeUIDs in Hu. rewrite Hnil in Hu. set_solver.
    - unfold MarkDeleted. rewrite decide_False by done. wp_steps. apply wp_io; [done|]. wp_steps.
      intros u st Hu. simpl. rewrite mark_deleted_lookup. intros (st0 & _ & ->)%fmap_Some.
      rewrite decide_True by (split; [done|]; by apply elem_of_dedupeUIDs).
      apply tombstone_spec. }
  intros w1 [e|c1] HP1; [done|]. wp_steps.
  apply (wp_mono _ (fun w' r => match r with inl _ => True | inr _ => P (w_db w') end)).
  { unfold applyFlagChanges. case_decide; [by wp_steps|]. unfold MessageStatesByUID.
    rewrite decide_False by (intros ?%fmap_nil_inv; done). wp_steps. apply wp_io; [done|]. wp_steps.
    case_decide; [by wp_steps|]. case_decide; [by wp_steps|]. unfold UpdateFlags.
    rewrite decide_False by done. wp_steps. apply wp_io; [done|]. wp_steps.
    intros u st Hu. simpl. rewrite update_flags_lookup. intros (st0 & Hst0 & ->)%fmap_Some.
    rewrite (proj1 (proj2 (apply_updates_spec _ _ st0))). eauto. }
  intros w2 [e|c2] HP2; [done|]. wp_steps.
  apply (wp_mono _ (fun w' r => match r with inl _ => True | inr _ => P (w_db w') end)).
  { unfold fetchNewMessages. case_decide; [by wp_steps|]. wp_steps.
    destruct (newUIDCandidates_spec (sb_row mb) delta) as (Hnd & _ & Hnv).
    eapply wp_mono; [by apply fetchAndStore_spec|]. cbv zeta. intros w3 r3 (_ & Hg & _).
    destruct r3; [done|]. wp_steps. intros u st Hu Hst.
    destruct (grows_new _ _ _ Hg _ _ Hst) as [?|(u' & m & Hu' & [= <-] & _)]; [eauto|].
    by destruct (Hnv _ Hu'). }
  intros w3 [e|c3] HP3; [done|]. by wp_steps.
Qed.

(** A change that changes nothing is not written. If every reported change
    names a message whose row already has those flags and, in any order, those
    keywords, or no row at all, applying the changes leaves the store exactly as
    it was: no updated_at moves and no client is told of a change. *)
Theorem noop_changes_not_written {S} (id v : Z) (changed : list changedMessage) (w : World S) :
  (forall ch st, ch ∈ changed -> message_state (w_db w) !! (id, v, ch_uid ch) = Some st ->
     ms_Flags st = ch_flags ch /\ ms_Keywords st ≡ₚ sanitizeAll (ch_keywords ch)) ->
  wp (applyFlagChanges id v changed)
    (fun w' r => w_db w' = w_db w /\ match r with inl _ => faulty w | inr n => n = 0 end) w.
Proof.
  intros Hnoop. unfold applyFlagChanges. case_decide; [by wp_steps|]. unfold MessageStatesByUID.
  rewrite decide_False by (intros ?%fmap_nil_inv; done). wp_steps. apply wp_io; [by split|]. wp_steps.
  case_decide; [by wp_steps|]. rewrite decide_True; [by wp_steps|].
  apply elem_of_nil_inv. intros x (ch & Hch & Hx)%list_elem_of_omap. unfold flag_update in Hx.
  destruct (_ !! ch_uid ch) as [st|] eqn:E; [|done]. apply states_lookup in E as [_ E].
  destruct (Hnoop ch st Hch E) as [Hf Hk].
  by rewrite (proj2 (Z.eqb_eq _ _) Hf), (proj2 (sameKeywords_perm _ _) Hk) in Hx.
Qed.

(** C2: The incremental path converges. Start from a mailbox whose stored cursor is true: every
    message the server has not touched since agrees with its row, every other row is a
    tombstone or its expunge is still to be reported. Between the passes let the server
    deliver, flag and expunge mail by the rules of CONDSTORE and QRESYNC, under one
    UIDVALIDITY, and let passes run, during which it stands still, in any order and any
    number, each pass cut short at any point. The stored cursor is still true; and an
    undisturbed pass then leaves exactly the server's messages as live rows, with the
    server's flags and keywords, if the folder can be selected and PostgreSQL rejects no
    row; the parse pool may deliver in any order. *)
Theorem incremental_history_converges {S} `{ImapServer S} `{!ImapLaws S}
    (BatchSize : nat) (FetchWindow : Z) (sha256 : string -> string)
    (derive : string -> Message) (rejects : NewMessage -> bool)
    (sched : list rawMessage -> list rawMessage)
    (assign : DB -> Z -> list Z -> option (list (Z * Z)))
    (a id : Z) (info : MailboxInfo) (w w1 : World S) (row : Mailbox) :
  (forall l, sched l ≡ₚ l) ->
  (forall v u m, rejects (srv_row sha256 derive id v u m) = false) ->
  synced id (mi_Name info) w ->
  rtc (hstep BatchSize FetchWindow sha256 derive rejects sched assign a id info) w w1 ->
  mailboxes (w_db w1) !! id = Some row ->
  (forall v since, is_Some (srv_select (w_srv w1) (mi_Name info) v since)) ->
  synced id (mi_Name info) w1 /\
  match incrementalMailbox BatchSize FetchWindow sha256 derive rejects sched assign a
          {| sb_row := row; sb_info := info |} (set_faults [] w1) with
  | (w2, inr res) => mirrors id (mi_Name info) (w_srv w1) (w_db w2) /\
                     synced id (mi_Name info) w2
  | (_, inl _) => False
  end.
Proof.
  intros Hperm Hacc Hsync Hrtc Hrow Hsel.
  assert (synced id (mi_Name info) w1) as Hsync1.
  { induction Hrtc as [|w w' w1 Hstep _ IH]; [done|]. apply IH; [|done..].
    by eapply synced_step. }
  split; [done|].
  pose proof (synced_pass BatchSize FetchWindow sha256 derive rejects sched Hperm assign
    a id info row (set_faults [] w1) Hacc Hsync1 Hrow) as Hp.
  unfold wp in Hp. destruct (incrementalMailbox _ _ _ _ _ _ _ _ _ _) as [w2 [e|res]]; simpl in Hp.
  - destruct Hp as (_ & _ & [[f Hf]|(x & y & Hno)]); [by apply not_elem_of_nil in Hf|].
    destruct (Hsel x y) as [? ?]. simpl in Hno. congruence.
  - by destruct Hp as (_ & ? & ?).
Qed.

(** ** A sample history: a delivery to an empty inbox, and a pass that fails *)

Definition idle_row : Mailbox :=
  {| mb_ID := 1; mb_AccountID := 1; mb_Name := "INBOX"; mb_Role := RoleInbox;
     mb_Selectable := true; mb_UIDValidity := Some 7; mb_UIDNext := Some 1;
     mb_HighestModSeq := Some 1; mb_BackfillState := BackfillComplete;
     mb_BackfillUIDLow := Some 1 |}.
Definition idle_server : MemServer := {["INBOX" := inbox_of 1 ∅ ↾ I]}.
Definition busy_server : MemServer := {["INBOX" := inbox_of 2 {[1 := mail 990 2 "d"]} ↾ I]}.
Definition idle_info : MailboxInfo := mem_info "INBOX" (inbox_of 1 ∅).

Definition idle_world : World MemServer :=
  {| w_db := set_mailboxes (fun _ => {[1 := idle_row]}) empty_db;
     w_srv := idle_server; w_now := 1000; w_faults := [] |}.

Definition sample_pass : M (World MemServer) err IncrementalResult :=
  incrementalMailbox 10 2 (fun s => s) (fun _ => no_mail) (fun _ => false) (fun l => l)
    (fun _ _ _ => None) 1 {| sb_row := idle_row; sb_info := idle_info |}.

Definition failed_world : World MemServer :=
  (sample_pass (set_faults (replicate 5 None ++ [Some FaultIO]) (set_server busy_server idle_world))).1.

Lemma idle_synced : synced 1 "INBOX" idle_world.
Proof.
  exists idle_row, 1. split; [vm_compute; reflexivity|]. split; [done|].
  split; [vm_compute; reflexivity|]. split; [vm_compute; split; [done|congruence]|].
  assert (srv_view idle_server "INBOX" = ∅) as Hv by (vm_compute; reflexivity).
  split; cbn [w_db w_srv idle_world empty_db set_mailboxes message_state]; rewrite ?Hv.
  - intros u st. by rewrite lookup_empty.
  - intros u m. by rewrite lookup_empty.
  - intros u m st. by rewrite lookup_empty.
  - intros u st. by rewrite lookup_empty.
  - split; intros k; [intros st|intros k' st st']; simpl; by rewrite lookup_empty.
Qed.

Lemma not_reported s since u :
  s = idle_server -> ~ reported s "INBOX" since u.
Proof.
  intros -> [Hin|(sel & Hsel & Hin)].
  - assert ((srv_changes idle_server "INBOX" since).2 = []) as Hnil by (vm_compute; reflexivity).
    rewrite Hnil in Hin. by apply not_elem_of_nil in Hin.
  - cbn [srv_select MemServer_ops] in Hsel.
    assert (mem_lookup idle_server "INBOX" = Some (inbox_of 1 ∅)) as Hl by (vm_compute; reflexivity).
    rewrite Hl in Hsel. simpl in Hsel. injection Hsel as <-. simpl in Hin.
    case_match; by apply not_elem_of_nil in Hin.
Qed.

Lemma idle_evolves : evolves "INBOX" idle_server busy_server.
Proof.
  assert (srv_view idle_server "INBOX" = ∅) as Hv by (vm_compute; reflexivity).
  assert (srv_view busy_server "INBOX" = {[1 := mail 990 2 "d"]}) as Hv' by (vm_compute; reflexivity).
  split.
  - vm_compute. reflexivity.
  - vm_compute. congruence.
  - vm_compute. congruence.
  - rewrite Hv'. intros u m [<- <-]%lookup_singleton_Some. right. vm_compute. reflexivity.
  - rewrite Hv'. intros u _ [m [<- _]%lookup_singleton_Some]. vm_compute. congruence.
  - rewrite Hv. intros u since [m Hm]. by rewrite lookup_empty in Hm.
  - intros u since Hr. by destruct (not_reported _ since u eq_refl Hr).
Qed.

Lemma failed_server : w_srv failed_world = busy_server.
Proof.
  pose proof (synced_pass 10 2 (fun s => s) (fun _ => no_mail) (fun _ => false) (fun l => l)
    (fun l => reflexivity l) (fun _ _ _ => None) 1 1 idle_info idle_row
    (set_faults (replicate 5 None ++ [Some FaultIO]) (set_server busy_server idle_world))) as Hp.
  destruct Hp as [(Hs & _) _]; [done| |vm_compute; reflexivity|exact Hs].
  change (synced 1 (mi_Name idle_info) (set_server busy_server idle_world)).
  eapply (synced_step 10 2 (fun s => s) (fun _ => no_mail) (fun _ => false) (fun l => l)
    (fun l => reflexivity l) (fun _ _ _ => None) 1 1 idle_info idle_world);
    [done|exact idle_synced|apply h_server; exact idle_evolves].
Qed.

Lemma incremental_history_converges_witness :
  synced 1 "INBOX" failed_world /\
  match sample_pass (set_faults [] failed_world) with
  | (w2, inr _) => mirrors 1 "INBOX" (w_srv failed_world) (w_db w2) /\ synced 1 "INBOX" w2
  | (_, inl _) => False
  end.
Proof.
  apply (incremental_history_converges 10 2 (fun s => s) (fun _ => no_mail) (fun _ => false)
    (fun l => l) (fun _ _ _ => None) 1 1 idle_info idle_world failed_world idle_row).
  - done.
  - done.
  - apply idle_synced.
  - eapply rtc_l; [apply h_server with (s' := busy_server); exact idle_evolves|].
    eapply rtc_l; [|apply rtc_refl]. apply h_pass. vm_compute. reflexivity.
  - vm_compute. reflexivity.
  - intros v since.
    rewrite failed_server. cbn [srv_select MemServer_ops].
    assert (mem_lookup busy_server (mi_Name idle_info) = Some (inbox_of 2 {[1 := mail 990 2 "d"]}))
      as -> by (vm_compute; reflexivity). eauto.
Defined.

(** *** Instances of the theorems on a rebuilt folder, an expunge and a no-op *)

Definition stale_row : Mailbox := with_sync_state 6 1 1 idle_row.
Definition stale_world : World MemServer :=
  {| w_db := set_mailboxes (fun _ => {[1 := stale_row]}) empty_db;
     w_srv := busy_server; w_now := 1000; w_faults := [None; None] |}.

Lemma stale_inv : mailbox_inv 1 1 "INBOX" stale_world.
Proof.
  split; [by exists stale_row|]. intros cp Hcp. exfalso. revert Hcp.
  assert (ckpt (w_db stale_world) 1 1 = None) as -> by (vm_compute; reflexivity). done.
Qed.

Lemma incremental_rebuilds_recreated_witness :
  safe 1 1 "INBOX"
    (incrementalMailbox 10 2 (fun s => s) (fun _ => no_mail) (fun _ => false) (fun l => l)
       (fun _ _ _ => None) 1 {| sb_row := stale_row; sb_info := idle_info |})
    (fun res w' => ir_Resynced res = true /\ fully_stored 1 "INBOX" w') stale_world.
Proof.
  apply (incremental_rebuilds_recreated 10 2 (fun s => s) (fun _ => no_mail) (fun _ => false)
    (fun l => l) (fun _ _ _ => None) 1 1 {| sb_row := stale_row; sb_info := idle_info |}
    stale_world 6 1); try done.
  - apply stale_inv.
  - left. intros nm _. done.
Defined.

Definition flagged_state : MessageState :=
  {| ms_MessageID := 1; ms_Flags := FlagSeen; ms_Keywords := ["a"; "b"]; ms_ModSeqSeen := 1;
     ms_DeletedAt := None; ms_UpdatedAt := 5 |}.
Definition flagged_world : World MemServer :=
  {| w_db := set_message_state (fun _ => {[(1, 7, 1) := flagged_state]}) (w_db idle_world);
     w_srv := idle_server; w_now := 1000; w_faults := [] |}.
Definition expunged_and_flagged : mailboxDelta :=
  {| dl_changed := [{| ch_uid := 1; ch_modSeq := 9; ch_flags := FlagFlagged; ch_keywords := [] |}];
     dl_vanished := [1]; dl_highestMod := 9; dl_uidNext := 2 |}.

Lemma expunge_is_final_witness :
  (message_state (w_db flagged_world) !! (1, 7, 1)) = Some flagged_state /\
  wp (applyDelta 10 (fun s => s) (fun _ => no_mail) (fun _ => false) (fun l => l)
        (fun _ _ _ => None) 1 {| sb_row := idle_row; sb_info := idle_info |} 7 expunged_and_flagged)
    (fun w' r => match r with
       | inl _ => True
       | inr _ => forall u st, u ∈ dl_vanished expunged_and_flagged ->
           message_state (w_db w') !! (1, 7, u) = Some st -> is_Some (ms_DeletedAt st)
       end) flagged_world.
Proof. split; [vm_compute; reflexivity|]. by apply expunge_is_final. Defined.

Definition same_flags : list changedMessage :=
  [{| ch_uid := 1; ch_modSeq := 9; ch_flags := FlagSeen; ch_keywords := ["b"; "a"] |};
   {| ch_uid := 5; ch_modSeq := 9; ch_flags := 0; ch_keywords := [] |}].

Lemma noop_changes_not_written_witness :
  wp (applyFlagChanges 1 7 same_flags)
    (fun w' r => w_db w' = w_db flagged_world /\
       match r with inl _ => faulty flagged_world | inr n => n = 0 end) flagged_world.
Proof.
  apply noop_changes_not_written. intros ch st Hch Hst.
  change (({[(1, 7, 1) := flagged_state]} : gmap state_key MessageState) !!
    (1, 7, ch_uid ch) = Some st) in Hst.
  apply lookup_singleton_Some in Hst as [Hk <-].
  apply elem_of_cons in Hch as [->|[->|[]%elem_of_nil]%elem_of_cons]; [|done].
  split; [done|]. simpl. apply (sameKeywords_perm ["a"; "b"]). vm_compute. reflexivity.
Defined.
