(* ===== verification/Tame.v ===== *)
(** What the programs of the engine leave alone whatever happens: none of them
    moves the clock, and only a pass over a folder without a cursor asks for an
    initial sync. [tame P m] collects both: [m] keeps [w_now], and its errors
    satisfy [P]. *)

From S2P Require Import Prelude Convert Utf8 Store Imap Checkpoint Discover Pipeline Initial.
From S2P Require Import Incremental.
#[local] Open Scope Z_scope.

Definition tame {S A} (P : err -> Prop) (m : M (World S) err A) : Prop :=
  forall w, w_now (m w).1 = w_now w /\ (forall e, (m w).2 = inl e -> P e).

Section tame.
Context {S : Type} (P : err -> Prop).
Context (HP : forall e, e <> ErrNeedsInitialSync -> P e).

Lemma tame_ret {A} (a : A) : tame P (S := S) (mret a).
Proof. by split. Qed.
Lemma tame_throw {A} e : P e -> tame P (S := S) (throw (A := A) e).
Proof. split; [done|]. by intros ? [= <-]. Qed.
Lemma tame_bind {A B} (m : M (World S) err A) (k : A -> M (World S) err B) :
  tame P m -> (forall a, tame P (k a)) -> tame P (m ≫= k).
Proof.
  intros Hm Hk w. unfold mbind, M_bind. destruct (Hm w) as [Hw He].
  destruct (m w) as [w' [e|a]]; simpl in *.
  - split; [done|]. intros ? [= <-]. auto.
  - destruct (Hk a w') as [Hw' ?]. split; [congruence|done].
Qed.
Lemma tame_try_bind {A B} (m : M (World S) err A) (k : err + A -> M (World S) err B) :
  tame P m -> (forall r, (forall e, r = inl e -> P e) -> tame P (k r)) -> tame P (try m ≫= k).
Proof.
  intros Hm Hk w. unfold mbind, M_bind, try. destruct (Hm w) as [Hw He].
  destruct (m w) as [w' r]. simpl in *. destruct (Hk r He w'). split; [congruence|done].
Qed.
Lemma tame_try {A} (Q : err -> Prop) (m : M (World S) err A) : tame Q m -> tame P (try m).
Proof.
  intros Hm w. unfold try. destruct (Hm w) as [Hw _]. destruct (m w). by split.
Qed.
Lemma tame_io : tame P (S := S) io.
Proof.
  intros w. unfold io. destruct (w_faults w) as [|[[]|] ?]; (split; [done|]); simpl;
    intros e [= <-]; by apply HP.
Qed.
Lemma tame_gets {A} (f : World S -> A) : tame P (gets f).
Proof. by split. Qed.
Lemma tame_get : tame P (S := S) get.
Proof. by split. Qed.
Lemma tame_modify (f : World S -> World S) : (forall w, w_now (f w) = w_now w) -> tame P (modify f).
Proof. intros Hf w. split; [apply Hf|done]. Qed.

Lemma tame_mono {A} (Q : err -> Prop) (m : M (World S) err A) :
  (forall e, Q e -> P e) -> tame Q m -> tame P m.
Proof. intros HQ Hm w. destruct (Hm w). split; auto. Qed.
End tame.

Create HintDb tame discriminated.
#[export] Hint Resolve tame_ret tame_io tame_gets tame_get : tame.

(** Walk a program whose errors are those of its statements. *)
Ltac tame :=
  repeat first
    [ solve [eauto with tame]
    | match goal with |- forall _, _ => intro end
    | apply tame_modify; done
    | apply tame_try_bind
    | apply tame_bind
    | apply tame_throw; solve [eauto with tame | match goal with HP : forall e, e <> _ -> _ |- _ => apply HP; congruence end]
    | progress cbv zeta
    | match goal with |- tame _ (match ?x with _ => _ end) => destruct x end ].

Section passes.
Context {S : Type} `{ImapServer S}.
Context (P : err -> Prop) (HP : forall e, e <> ErrNeedsInitialSync -> P e).
Context (BatchSize : nat) (FetchWindow : Z).
Context (sha256 : string -> string) (derive : string -> Message).
Context (rejects : NewMessage -> bool).
Context (sched : list rawMessage -> list rawMessage).
Context (assign : DB -> Z -> list Z -> option (list (Z * Z))).

Lemma tame_now : tame P (S := S) now.
Proof. apply tame_gets. Qed.
Lemma tame_the_db : tame P (S := S) the_db.
Proof. apply tame_gets. Qed.
#[local] Hint Resolve tame_now tame_the_db : tame.

Lemma tame_InsertMessages msgs : tame P (S := S) (InsertMessages rejects msgs).
Proof. unfold InsertMessages. tame. Qed.
#[local] Hint Resolve tame_InsertMessages : tame.

Lemma tame_insert_attempts n msgs : tame P (S := S) (insert_attempts rejects n msgs).
Proof. induction n as [|n IH]; simpl; tame. Qed.
Lemma tame_insertDegraded rows : tame P (S := S) (insertDegraded rejects rows).
Proof. induction rows as [|row rows IH]; simpl; unfold degraded_one; tame. Qed.
Lemma tame_add_refs n refs : tame P (S := S) (add_refs_attempts n refs).
Proof. induction n as [|n IH]; simpl; tame. Qed.
#[local] Hint Resolve tame_insert_attempts tame_insertDegraded tame_add_refs : tame.

Lemma tame_commitBatch a id v ps : tame P (S := S) (commitBatch rejects assign a id v ps).
Proof. unfold commitBatch, insertBatch, insertWithRetry, addBlobRefs, assignThreads. tame. Qed.
Lemma tame_parseStage rs : tame P (S := S) (parseStage sha256 derive rs).
Proof. induction rs as [|r rs IH]; simpl; unfold parseOne; tame. Qed.
#[local] Hint Resolve tame_commitBatch tame_parseStage : tame.

Lemma tame_writeStage a id v bs :
  tame P (S := S) (writeStage sha256 derive rejects assign a id v bs).
Proof. induction bs as [|b bs IH]; simpl; tame. Qed.
#[local] Hint Resolve tame_writeStage : tame.

Lemma tame_fetchAndStore a id n v uids :
  tame P (fetchAndStore BatchSize sha256 derive rejects sched assign a id n v uids).
Proof. unfold fetchAndStore, filterStored, ExistingUIDs, fetchStage. tame. Qed.
#[local] Hint Resolve tame_fetchAndStore : tame.

Lemma tame_save a id cp : tame P (S := S) (saveMailboxCheckpoint a id cp).
Proof. unfold saveMailboxCheckpoint, SaveCheckpoint, upsert_log. tame. Qed.
Lemma tame_update id f : tame P (S := S) (update_mailbox id f).
Proof. unfold update_mailbox. tame. Qed.
#[local] Hint Resolve tame_save tame_update : tame.

Lemma tame_backfill_loop fuel a mb v cp high st :
  tame P (backfill_loop BatchSize FetchWindow sha256 derive rejects sched assign
           fuel a mb v cp high st).
Proof.
  revert cp high st. induction fuel as [|fuel IH]; intros; simpl;
    unfold SetBackfillProgress; tame.
Qed.
#[local] Hint Resolve tame_backfill_loop : tame.

Lemma tame_backfillMailbox a mb :
  tame P (backfillMailbox BatchSize FetchWindow sha256 derive rejects sched assign a mb).
Proof.
  unfold backfillMailbox, selectMailbox, SelectQResync, restartMailbox, InvalidateMailbox,
    GetMailbox, SetMailboxSyncState, backfill_selected, loadMailboxCheckpoint, GetCheckpoint,
    markComplete, SetBackfillProgress.
  tame.
Qed.
#[local] Hint Resolve tame_backfillMailbox : tame.

(** A pass asks for an initial sync only over a folder without a cursor. *)
Lemma tame_incremental a mb :
  P ErrNeedsInitialSync \/
    ((mailboxCursor (sb_row mb)).1 <> 0 /\ (mailboxCursor (sb_row mb)).2 <> 0) ->
  tame P (incrementalMailbox BatchSize FetchWindow sha256 derive rejects sched assign a mb).
Proof.
  intros Hor. unfold incrementalMailbox. destruct (mailboxCursor (sb_row mb)) as [known since].
  simpl in *. destruct (_ || _) eqn:E.
  { apply tame_throw. destruct Hor as [?|[? ?]]; [done|]. bool_cases; done. }
  unfold SelectQResync, resyncMailbox, InvalidateMailbox, GetMailbox, deltaPass, collectChanges,
    applyDelta, applyVanished, MarkDeleted, applyFlagChanges, MessageStatesByUID, UpdateFlags,
    fetchNewMessages, SetMailboxSyncState.
  tame.
Qed.

Lemma tame_upsert_infos a infos : tame P (S := S) (upsert_infos a infos).
Proof. induction infos as [|i infos IH]; simpl; unfold upsert_info, UpsertMailbox; tame. Qed.
#[local] Hint Resolve tame_upsert_infos : tame.
Lemma tame_discover a : tame P (discover (S := S) a).
Proof. unfold discover. tame. Qed.
End passes.
