(* ===== verification/Reconciler.v ===== *)
(** The reconciler (src/internal/sync/reconciler.go) with the sweep and the single
    pass it shares with the watcher (sweepAll and passOne of watcher.go): compare
    every folder's STATUS with the stored cursor and row count, repair what
    diverges, verify the repair, and bound the expensive one.

    The watcher's in-memory set of mailboxes with a bound is part of the state:
    [WState]. Divergence reasons are kept as data; the code renders them. *)

From S2P Require Import Prelude Convert Utf8 Store Imap Checkpoint Discover Pipeline Initial.
From S2P Require Import InitialSafety InitialRun Incremental Tame.
#[local] Open Scope Z_scope.

Inductive counter :=
| CUidvalidity (was now : Z) | CUidnext (was now : Z) | CHighestmodseq (was now : Z).

Inductive reason :=
| NotStored                       (* mailbox is not stored locally *)
| Gone                            (* mailbox no longer exists on the server *)
| Counters (cs : list counter)
| Messages (stored server : Z).

Record Divergence := mkDivergence { dv_Mailbox : string; dv_Reason : reason }.

Record ReconcileResult := mkReconcile {
  rr_Checked : Z;
  rr_Diverged : Z;
  rr_Repaired : Z;
  rr_Unrepaired : Z;
  rr_Escalated : Z;
  rr_Stuck : list Divergence;
  rr_Divergences : list Divergence
}.

Definition rr_zero : ReconcileResult :=
  {| rr_Checked := 0; rr_Diverged := 0; rr_Repaired := 0; rr_Unrepaired := 0; rr_Escalated := 0;
     rr_Stuck := []; rr_Divergences := [] |}.

Definition isStructuralReason (r : reason) : bool :=
  match r with NotStored | Gone => true | Counters _ | Messages _ _ => false end.

Definition structuralCount (r : ReconcileResult) : Z :=
  Z.of_nat (length (filter (fun d => isStructuralReason (dv_Reason d) = true) (rr_Divergences r))).

Definition needsDiscovery (r : ReconcileResult) : bool :=
  existsb (fun d => isStructuralReason (dv_Reason d)) (rr_Divergences r).

(** [compareMailboxState]: the counters that differ. *)
Definition compare_counter (stored : option Z) (conv : Z -> Z) (server : Z)
    (mk : Z -> Z -> counter) : list counter :=
  match stored with
  | Some v => if negb (conv v =? server) then [mk (conv v) server] else []
  | None => []
  end.
Definition compareMailboxState (row : Mailbox) (info : MailboxInfo) : option reason :=
  let cs := compare_counter (mb_UIDValidity row) uidValidityFromDB (mi_UIDValidity info) CUidvalidity
         ++ compare_counter (mb_UIDNext row) uidFromDB (mi_UIDNext info) CUidnext
         ++ compare_counter (mb_HighestModSeq row) modSeqFromDB (mi_HighestModSeq info) CHighestmodseq in
  match cs with [] => None | _ => Some (Counters cs) end.

Definition escalationBase : Duration := 15 * Minute.
Definition escalationMax : Duration := 24 * Hour.

Record repairOutcome := mkOutcome {
  ro_repaired : bool;
  ro_reason : option reason;
  ro_escalated : bool;
  ro_attempts : Z;
  ro_backoff : Duration
}.

Definition with_escalated (b : bool) (o : repairOutcome) : repairOutcome :=
  {| ro_repaired := ro_repaired o; ro_reason := ro_reason o; ro_escalated := b;
     ro_attempts := ro_attempts o; ro_backoff := ro_backoff o |}.
Definition with_wait (d : Duration) (o : repairOutcome) : repairOutcome :=
  {| ro_repaired := ro_repaired o; ro_reason := ro_reason o; ro_escalated := ro_escalated o;
     ro_attempts := ro_attempts o; ro_backoff := d |}.

Record escalationState := mkEscalation { es_Version : Z; es_Failures : Z; es_LastAttempt : Time }.
Definition no_escalation : escalationState :=
  {| es_Version := 0; es_Failures := 0; es_LastAttempt := 0 |}.

Definition escalationScope (mailboxID : Z) : string := "reconcile:" +:+ pretty mailboxID.

Definition encodeEscalation (st : escalationState) : json :=
  JObj [("version", JNum (es_Version st)); ("failures", JNum (es_Failures st));
        ("last_attempt", JTime (es_LastAttempt st))].
Definition read_time (k : string) (fields : list (string * json)) : option Time :=
  match json_field k fields with
  | None => Some 0
  | Some (JTime t) => Some t
  | Some _ => None
  end.
Definition decodeEscalation (payload : json) : option escalationState :=
  match payload with
  | JObj fs =>
      v ← read_int MinInt64 MaxInt64 "version" fs;
      n ← read_int MinInt64 MaxInt64 "failures" fs;
      t ← read_time "last_attempt" fs;
      Some {| es_Version := v; es_Failures := n; es_LastAttempt := t |}
  | _ => None
  end.

(** The backoff after [failures] failed walks; the shift is the int64 one. *)
Definition escalationDelay (failures : Z) : Duration :=
  if failures <? 32 then
    let d := wrap64s (Z.shiftl escalationBase (failures - 1)) in
    if (0 <? d) && (d <? escalationMax) then d else escalationMax
  else escalationMax.

(** The store and the watcher's memory. *)
Record WState (S : Type) := mkWState { ws_world : World S; ws_escalated : gset Z }.
Arguments mkWState {S}.
Arguments ws_world {S}.
Arguments ws_escalated {S}.

Section reconciler.
Context {S : Type} `{ImapServer S}.
Context (BatchSize : nat) (FetchWindow : Z).
Context (sha256 : string -> string) (derive : string -> Message).
Context (rejects : NewMessage -> bool).
Context (sched : list rawMessage -> list rawMessage).
Context (assign : DB -> Z -> list Z -> option (list (Z * Z))).
Abbreviation MM := (M (World S) err).
Abbreviation WM := (M (WState S) err).
Abbreviation incremental :=
  (incrementalMailbox BatchSize FetchWindow sha256 derive rejects sched assign).
Abbreviation backfill := (backfillMailbox BatchSize FetchWindow sha256 derive rejects sched assign).

Definition lift {A} (m : MM A) : WM A := fun s =>
  let '(w, r) := m (ws_world s) in ({| ws_world := w; ws_escalated := ws_escalated s |}, r).

(** [passOne]: the pass an event asks for. *)
Definition passOne (accountID : Z) (mailbox : string) : MM (option IncrementalResult) :=
  r ← try (GetMailboxByName accountID mailbox);
  match r with
  | inl e => if bool_decide (e = ErrNotFound) then mret None else throw e
  | inr row =>
      if negb (mb_Selectable row) then mret None
      else
        let info := {| mi_Name := mb_Name row; mi_Role := mb_Role row; mi_NoSelect := false;
                       mi_HasStatus := false; mi_NumMessages := 0; mi_UIDNext := 0;
                       mi_UIDValidity := 0; mi_HighestModSeq := 0 |} in
        let mb := {| sb_row := row; sb_info := info |} in
        p ← try (incremental accountID mb);
        match p with
        | inr res => mret (Some res)
        | inl e =>
            if bool_decide (e = ErrNeedsInitialSync)
            then backfill accountID mb ;; mret None
            else throw e
        end
  end.

(** One folder of [sweepAll]. *)
Definition sweep_one (accountID : Z) (mb : syncMailbox) : MM unit :=
  io ;;
  p ← try (incremental accountID mb);
  match p with
  | inr _ => mret tt
  | inl e =>
      if bool_decide (e = ErrNeedsInitialSync) then backfill accountID mb ;; mret tt
      else throw e
  end.
Definition sweepAll (accountID : Z) : MM unit :=
  boxes ← discover accountID;
  forM_ boxes (sweep_one accountID).

Definition StatusMailbox (name : string) : MM MailboxInfo :=
  io ;; w ← get;
  match srv_status (w_srv w) name with
  | Some i => mret i
  | None => throw ErrIO
  end.

(** The stored rows against the server's count, for a folder that claims to be
    complete. *)
Definition countCheck (row : Mailbox) (info : MailboxInfo) : MM (option reason) :=
  if bool_decide (mb_BackfillState row = BackfillComplete) then
    total ← CountMailboxMessages (mb_ID row);
    mret (if negb (wrap32 total =? mi_NumMessages info)
          then Some (Messages total (mi_NumMessages info)) else None)
  else mret None.

Definition check_mailbox (row : Mailbox) (info : MailboxInfo) : MM (option reason) :=
  match compareMailboxState row info with
  | Some r => mret (Some r)
  | None => countCheck row info
  end.

(** [stillDiverged]. *)
Definition stillDiverged (accountID : Z) (mb : syncMailbox) : MM (option reason) :=
  info ← StatusMailbox (mi_Name (sb_info mb));
  if negb (mi_HasStatus info) then mret None
  else
    row ← GetMailboxByName accountID (mi_Name (sb_info mb));
    check_mailbox row info.

Definition rewound (cp : mailboxCheckpoint) : mailboxCheckpoint :=
  {| mc_Version := mc_Version cp; mc_UIDValidity := mc_UIDValidity cp; mc_UIDLow := 0;
     mc_RecentDone := mc_RecentDone cp; mc_Complete := false |}.

(** [backfillFromTop]. *)
Definition backfillFromTop (accountID : Z) (mb : syncMailbox) : MM unit :=
  row ← GetMailboxByName accountID (mi_Name (sb_info mb));
  cp ← loadMailboxCheckpoint accountID (mb_ID row) (uidValidityFromDB (UIDValidityOrZero row));
  saveMailboxCheckpoint accountID (mb_ID row) (rewound cp) ;;
  backfill accountID {| sb_row := row; sb_info := sb_info mb |} ;;
  mret tt.

Definition loadEscalation (accountID mailboxID : Z) : MM escalationState :=
  cp ← GetCheckpoint accountID (escalationScope mailboxID);
  mret match decodeEscalation (Checkpoint cp) with
       | Some st => if es_Version st =? checkpointVersion then st else no_escalation
       | None => no_escalation
       end.

Definition saveEscalation (accountID mailboxID : Z) (st : escalationState) : WM unit :=
  lift (SaveCheckpoint accountID (escalationScope mailboxID)
          (encodeEscalation {| es_Version := checkpointVersion; es_Failures := es_Failures st;
                               es_LastAttempt := es_LastAttempt st |})) ;;
  modify (fun s => {| ws_world := ws_world s;
                      ws_escalated := if 0 <? es_Failures st then {[mailboxID]} ∪ ws_escalated s
                                      else ws_escalated s ∖ {[mailboxID]} |}).

Definition hasEscalation (mailboxID : Z) : WM bool :=
  gets (fun s => bool_decide (mailboxID ∈ ws_escalated s)).

Definition clearEscalation (accountID mailboxID : Z) : WM unit :=
  b ← hasEscalation mailboxID;
  if negb b then mret tt else saveEscalation accountID mailboxID no_escalation.

(** [escalationAllowed]: allowed, failures, wait. *)
Definition escalationAllowed (accountID : Z) (mb : syncMailbox) : MM (bool * Z * Duration) :=
  st ← loadEscalation accountID (mb_ID (sb_row mb));
  if (es_Failures st <=? 0) || IsZero (es_LastAttempt st) then mret (true, es_Failures st, 0)
  else
    t ← now;
    let delay := escalationDelay (es_Failures st) in
    let elapsed := Sub t (es_LastAttempt st) in
    if delay <=? elapsed then mret (true, es_Failures st, 0)
    else mret (false, es_Failures st, wrap64s (delay - elapsed)).

Definition repairSucceeded (accountID : Z) (mb : syncMailbox) : WM repairOutcome :=
  clearEscalation accountID (mb_ID (sb_row mb)) ;;
  mret {| ro_repaired := true; ro_reason := None; ro_escalated := false; ro_attempts := 0;
          ro_backoff := 0 |}.

Definition repairFailed (accountID : Z) (mb : syncMailbox) (r : reason) (escalated : bool)
    : WM repairOutcome :=
  st ← lift (loadEscalation accountID (mb_ID (sb_row mb)));
  st ← (if escalated then
          t ← lift now;
          let st := {| es_Version := es_Version st; es_Failures := wrap64s (es_Failures st + 1);
                       es_LastAttempt := t |} in
          saveEscalation accountID (mb_ID (sb_row mb)) st ;; mret st
        else mret st);
  mret {| ro_repaired := false; ro_reason := Some r; ro_escalated := false;
          ro_attempts := es_Failures st; ro_backoff := 0 |}.

(** The verdict on a repair, from a fresh comparison. *)
Definition verdict (accountID : Z) (mb : syncMailbox) (walked : bool)
    (otherwise : reason -> WM (repairOutcome * Z)) (budget : Z) : WM (repairOutcome * Z) :=
  still ← lift (stillDiverged accountID mb);
  match still with
  | None =>
      o ← repairSucceeded accountID mb;
      mret (with_escalated walked o, budget)
  | Some r =>
      if walked then
        o ← repairFailed accountID mb r true;
        mret (with_escalated true o, budget)
      else otherwise r
  end.

(** The escalation of a divergence that survived the incremental pass. *)
Definition escalate (accountID : Z) (mb : syncMailbox) (budget : Z) (r : reason)
    : WM (repairOutcome * Z) :=
  if budget <=? 0 then
    o ← repairFailed accountID mb r false; mret (o, budget)
  else
    al ← lift (escalationAllowed accountID mb);
    let '(allowed, failures, wait) := al in
    if negb allowed then
      o ← repairFailed accountID mb r false; mret (with_wait wait o, budget)
    else
      lift (backfillFromTop accountID mb) ;;
      verdict accountID mb true (fun _ => throw ErrIO) (budget - 1).

(** [repairMailbox], with the budget it leaves. *)
Definition repairMailbox (accountID : Z) (mb : syncMailbox) (budget : Z)
    : WM (repairOutcome * Z) :=
  p ← lift (try (incremental accountID mb));
  match p with
  | inr _ => verdict accountID mb false (escalate accountID mb budget) budget
  | inl e =>
      if bool_decide (e = ErrNeedsInitialSync) then
        lift (backfill accountID mb) ;;
        verdict accountID mb true (fun _ => throw ErrIO) (budget - 1)
      else throw e
  end.

Definition ListMailboxes (accountID : Z) : MM (list Mailbox) :=
  io ;; d ← the_db;
  mret (filter (fun m => mb_AccountID m = accountID) (map_to_list (mailboxes d)).*2).

Definition by_name (stored : list Mailbox) (name : string) : option Mailbox :=
  List.find (fun m => bool_decide (mb_Name m = name)) stored.

Definition add_divergence (d : Divergence) (r : ReconcileResult) : ReconcileResult :=
  {| rr_Checked := rr_Checked r; rr_Diverged := rr_Diverged r + 1; rr_Repaired := rr_Repaired r;
     rr_Unrepaired := rr_Unrepaired r; rr_Escalated := rr_Escalated r; rr_Stuck := rr_Stuck r;
     rr_Divergences := rr_Divergences r ++ [d] |}.
Definition add_checked (r : ReconcileResult) : ReconcileResult :=
  {| rr_Checked := rr_Checked r + 1; rr_Diverged := rr_Diverged r; rr_Repaired := rr_Repaired r;
     rr_Unrepaired := rr_Unrepaired r; rr_Escalated := rr_Escalated r; rr_Stuck := rr_Stuck r;
     rr_Divergences := rr_Divergences r |}.
Definition add_repaired (n : Z) (r : ReconcileResult) : ReconcileResult :=
  {| rr_Checked := rr_Checked r; rr_Diverged := rr_Diverged r; rr_Repaired := rr_Repaired r + n;
     rr_Unrepaired := rr_Unrepaired r; rr_Escalated := rr_Escalated r; rr_Stuck := rr_Stuck r;
     rr_Divergences := rr_Divergences r |}.
Definition add_outcome (name : string) (o : repairOutcome) (r : ReconcileResult)
    : ReconcileResult :=
  {| rr_Checked := rr_Checked r; rr_Diverged := rr_Diverged r;
     rr_Repaired := rr_Repaired r + (if ro_repaired o then 1 else 0);
     rr_Unrepaired := rr_Unrepaired r + (if ro_repaired o then 0 else 1);
     rr_Escalated := rr_Escalated r + (if ro_escalated o then 1 else 0);
     rr_Stuck := rr_Stuck r ++
       (if ro_repaired o then []
        else [{| dv_Mailbox := name; dv_Reason := default (Counters []) (ro_reason o) |}]);
     rr_Divergences := rr_Divergences r |}.

(** One folder of the sweep. *)
Definition reconcile_one (accountID : Z) (stored : list Mailbox) (info : MailboxInfo)
    (rb : ReconcileResult * Z) : WM (ReconcileResult * Z) :=
  let '(res, budget) := rb in
  lift io ;;
  if mi_NoSelect info then mret (res, budget)
  else
    match by_name stored (mi_Name info) with
    | None =>
        mret (add_divergence {| dv_Mailbox := mi_Name info; dv_Reason := NotStored |}
                (add_checked res), budget)
    | Some row =>
        let res := add_checked res in
        if negb (mi_HasStatus info) then mret (res, budget)
        else
          d ← lift (check_mailbox row info);
          match d with
          | None => clearEscalation accountID (mb_ID row) ;; mret (res, budget)
          | Some r =>
              let res := add_divergence {| dv_Mailbox := mi_Name info; dv_Reason := r |} res in
              ob ← repairMailbox accountID {| sb_row := row; sb_info := info |} budget;
              mret (add_outcome (mi_Name info) ob.1 res, ob.2)
          end
    end.

Fixpoint reconcile_boxes (accountID : Z) (stored : list Mailbox) (infos : list MailboxInfo)
    (rb : ReconcileResult * Z) : WM (ReconcileResult * Z) :=
  match infos with
  | [] => mret rb
  | info :: infos =>
      rb ← reconcile_one accountID stored info rb;
      reconcile_boxes accountID stored infos rb
  end.

(** The stored folders the server no longer lists. *)
Definition gone_divergences (stored : list Mailbox) (infos : list MailboxInfo) : list Divergence :=
  (fun row => {| dv_Mailbox := mb_Name row; dv_Reason := Gone |}) <$>
    filter (fun row => mb_Name row ∉ mi_Name <$> infos) stored.

(** [Reconcile]. *)
Definition Reconcile (accountID : Z) : WM ReconcileResult :=
  lift io ;;
  infos ← gets (fun s => srv_list (w_srv (ws_world s)));
  stored ← lift (ListMailboxes accountID);
  rb ← reconcile_boxes accountID stored infos (rr_zero, 1);
  let res := foldl (fun r d => add_divergence d r) rb.1 (gone_divergences stored infos) in
  if needsDiscovery res then
    lift (sweepAll accountID) ;;
    mret (add_repaired (structuralCount res) res)
  else mret res.
End reconciler.

(** ** Verified repairs *)

Section repairs.
Context {S : Type} `{ImapServer S}.
Context (BatchSize : nat) (FetchWindow : Z).
Context (sha256 : string -> string) (derive : string -> Message).
Context (rejects : NewMessage -> bool).
Context (sched : list rawMessage -> list rawMessage).
Context (assign : DB -> Z -> list Z -> option (list (Z * Z))).

Lemma wp_lift {A} (m : M (World S) err A) (Q : WState S -> err + A -> Prop) s :
  wp m (fun w r => Q {| ws_world := w; ws_escalated := ws_escalated s |} r) (ws_world s) ->
  wp (lift m) Q s.
Proof. unfold wp, lift. by destruct (m (ws_world s)). Qed.

(** The stored state of a folder agrees with what the server reports of it: the
    cursor with the counters, and the live rows of a complete folder with the
    message count. *)
Definition agrees (accountID : Z) (name : string) (w : World S) : Prop :=
  forall info, srv_status (w_srv w) name = Some info -> mi_HasStatus info = true ->
    exists row,
      List.find (same_folder accountID name) (map_to_list (mailboxes (w_db w))).*2 = Some row /\
      compareMailboxState row info = None /\
      (mb_BackfillState row = BackfillComplete ->
       wrap32 (Z.of_nat (size (live_rows (mb_ID row) (message_state (w_db w))))) =
       mi_NumMessages info).

Lemma agrees_transfer a n w w' :
  agrees a n w -> w_srv w' = w_srv w -> mailboxes (w_db w') = mailboxes (w_db w) ->
  message_state (w_db w') = message_state (w_db w) -> agrees a n w'.
Proof. unfold agrees. by intros ? -> -> ->. Qed.

Lemma stillDiverged_spec a mb w :
  wp (stillDiverged a mb)
    (fun w' r => w_srv w' = w_srv w /\ w_db w' = w_db w /\
       (r = inr None -> agrees a (mi_Name (sb_info mb)) w')) w.
Proof.
  unfold stillDiverged, StatusMailbox. set (n := mi_Name (sb_info mb)). wp_steps.
  apply wp_io; [done|]. wp_steps. simpl w_srv.
  destruct (srv_status (w_srv w) n) as [info|] eqn:Hi; wp_steps; [|done].
  destruct (mi_HasStatus info) eqn:Hst; cbn [negb].
  2: { apply wp_ret. split; [done|]. split; [done|]. intros _ info' Hi' Hst'. simpl in Hi'.
       congruence. }
  unfold GetMailboxByName. wp_steps. apply wp_io; [done|]. wp_steps. simpl w_db.
  destruct (List.find _ _) as [row|] eqn:Hrow; wp_steps; [|done].
  unfold check_mailbox. destruct (compareMailboxState row info) as [r|] eqn:Hc; wp_steps; [done|].
  unfold countCheck. case_bool_decide as Hcomp.
  2: { apply wp_ret. split; [done|]. split; [done|]. intros _ info' Hi' _. simpl in *.
       assert (info' = info) as -> by congruence. by exists row. }
  unfold CountMailboxMessages. wp_steps. apply wp_io; [done|]. wp_steps. simpl.
  split; [done|]. split; [done|]. destruct (wrap32 _ =? _) eqn:E; simpl; [|done].
  bool_cases. intros _ info' Hi' _. simpl in *. assert (info' = info) as -> by congruence. eauto.
Qed.

(** Bookkeeping of the bound touches sync_log only. *)
Lemma clearEscalation_spec a id (s : WState S) :
  wp (clearEscalation a id)
    (fun s' r => w_srv (ws_world s') = w_srv (ws_world s) /\
       mailboxes (w_db (ws_world s')) = mailboxes (w_db (ws_world s)) /\
       message_state (w_db (ws_world s')) = message_state (w_db (ws_world s))) s.
Proof.
  unfold clearEscalation, hasEscalation, saveEscalation, SaveCheckpoint, upsert_log. wp_steps.
  case_bool_decide; simpl; wp_steps; [|done]. apply wp_lift. wp_steps.
  apply wp_io; [done|]. by wp_steps.
Qed.

(** What "repaired" means. *)
Definition honest (a : Z) (n : string) (s : WState S) (r : err + (repairOutcome * Z)) : Prop :=
  match r with
  | inr (o, _) => ro_repaired o = true -> agrees a n (ws_world s)
  | inl _ => True
  end.

Lemma verdict_honest a mb walked otherwise budget s :
  (forall r s, wp (otherwise r) (honest a (mi_Name (sb_info mb))) s) ->
  wp (verdict a mb walked otherwise budget) (honest a (mi_Name (sb_info mb))) s.
Proof.
  intros Hother. unfold verdict. wp_steps. apply wp_lift.
  eapply wp_mono; [apply stillDiverged_spec|]. intros w1 [e|[r|]] (Hs & Hdb & Hag); [done| |].
  - destruct walked; [|apply Hother]. unfold repairFailed. wp_steps. apply wp_lift.
    unfold loadEscalation, GetCheckpoint. wp_steps. apply wp_io; [done|]. wp_steps.
    apply wp_lift. wp_steps. unfold saveEscalation, SaveCheckpoint, upsert_log. wp_steps.
    apply wp_lift. wp_steps. apply wp_io; [done|]. by wp_steps.
  - unfold repairSucceeded. wp_steps. eapply wp_mono; [apply clearEscalation_spec|].
    intros s2 [e|[]] (? & ? & ?); [done|]. wp_steps. simpl. intros _.
    eapply agrees_transfer; [by apply Hag|done..].
Qed.

Lemma repairFailed_honest a n mb r (f : repairOutcome -> repairOutcome) budget s :
  (forall o, ro_repaired (f o) = ro_repaired o) ->
  wp (o ← repairFailed a mb r false; mret (f o, budget)) (honest a n) s.
Proof.
  intros Hf. unfold repairFailed. wp_steps. apply wp_lift. unfold loadEscalation, GetCheckpoint.
  wp_steps. apply wp_io; [done|]. wp_steps. simpl. by rewrite Hf.
Qed.

Lemma repairMailbox_honest a mb budget s :
  wp (repairMailbox BatchSize FetchWindow sha256 derive rejects sched assign a mb budget)
    (honest a (mi_Name (sb_info mb))) s.
Proof.
  unfold repairMailbox. apply wp_bind, wp_lift, wp_any. intros w1 [e|[e|res]]; [done| |].
  - case_bool_decide; [|by apply wp_throw]. apply wp_bind, wp_lift, wp_any.
    intros w2 [e2|?]; [done|]. apply verdict_honest. intros. by apply wp_throw.
  - apply verdict_honest. intros r s2. unfold escalate. apply wp_if; intros Hb.
    { by apply (repairFailed_honest _ _ _ _ (fun o => o)). }
    apply wp_bind, wp_lift, wp_any. intros w3 [e3|[[[] fl] wt]]; [done| |]; cbn [negb].
    + apply wp_bind, wp_lift, wp_any. intros w4 [e4|?]; [done|].
      apply verdict_honest. intros. by apply wp_throw.
    + by apply (repairFailed_honest _ _ _ _ (with_wait wt)).
Qed.
End repairs.

(** ** The escalated repair *)

Section escalated.
Context {S : Type} `{ImapServer S} `{!ImapLaws S}.
Context (BatchSize : nat) (FetchWindow : Z).
Context (sha256 : string -> string) (derive : string -> Message).
Context (rejects : NewMessage -> bool).
Context (sched : list rawMessage -> list rawMessage).
Context (sched_perm : forall l, sched l ≡ₚ l).
Context (assign : DB -> Z -> list Z -> option (list (Z * Z))).
Implicit Types w : World S.

Lemma known_validity_alt row :
  uidValidityFromDB (UIDValidityOrZero row) = known_validity row.
Proof.
  unfold UIDValidityOrZero, known_validity, uidValidityFromDB.
  destruct (mb_UIDValidity row) as [v|]; [|done]. simpl.
  destruct (0 <? v) eqn:E; [done|]. destruct (_ || _) eqn:E'; [done|].
  bool_cases. lia.
Qed.

(** A rewound checkpoint makes no claim, so it is true of any store. *)
Lemma rewound_inv a n row cp w :
  mailboxes (w_db w) !! mb_ID row = Some row ->
  ckpt (w_db w) a (mb_ID row) = Some (rewound cp) ->
  mc_UIDValidity cp = known_validity row ->
  mailbox_inv a (mb_ID row) n w.
Proof.
  intros Hrow Hck Hv. split; [by exists row|]. intros ? Heq Hval.
  rewrite Hck in Heq. injection Heq as <-. split; [by split; simpl; [lia|]|].
  intros row' Hr. assert (row' = row) as -> by congruence. right. simpl in Hval. congruence.
Qed.

Lemma load_validity a id row w :
  wp (loadMailboxCheckpoint a id (known_validity row))
    (fun w' r => same_env w w' /\ w_db w' = w_db w /\
       match r with
       | inl _ => faulty w
       | inr cp => mc_UIDValidity cp = known_validity row /\ mc_Version cp = checkpointVersion /\
                   is_uint32 (mc_UIDValidity cp)
       end) w.
Proof.
  unfold loadMailboxCheckpoint, GetCheckpoint. wp_steps. apply wp_io; [auto with moov|]. wp_steps.
  split; [apply same_env_drop|]. split; [done|].
  assert (is_uint32 (known_validity row)) as Hu.
  { rewrite <- known_validity_alt. unfold uidValidityFromDB, is_uint32, MaxUint32.
    destruct (_ || _) eqn:E; bool_cases; lia. }
  destruct (decodeMailboxCheckpoint _) as [mc|] eqn:E; [case_bool|]; [|done..].
  apply decode_mc_ok in E as (? & ? & ?). done.
Qed.

Lemma backfillFromTop_spec a mb row w :
  let n := mi_Name (sb_info mb) in
  List.find (same_folder a n) (map_to_list (mailboxes (w_db w))).*2 = Some row ->
  mailboxes (w_db w) !! mb_ID row = Some row ->
  mailbox_storable sha256 derive rejects (mb_ID row) (srv_validity (w_srv w) n) n w ->
  wp (backfillFromTop BatchSize FetchWindow sha256 derive rejects sched assign a mb)
    (fun w' r => match r with
       | inl _ => faulty w \/ unselectable n w
       | inr _ => same_env w w' /\ fully_stored (mb_ID row) n w' /\
                  mailbox_frame a (mb_ID row) (w_db w) (w_db w')
       end) w.
Proof.
  intros n Hfind Hrow Hst. unfold backfillFromTop, GetMailboxByName. wp_steps.
  apply wp_io; [by left|]. wp_steps. simpl w_db.
  replace (List.find _ _) with (Some row). wp_steps. rewrite known_validity_alt.
  eapply wp_mono; [apply load_validity|]. intros w1 [e|cp] (Henv1 & Hdb1 & Hr); simpl in *.
  { left. by apply faulty_drop. }
  destruct Hr as (Hval & Hver & Hu). set (w0 := drop_fault w) in *. wp_steps.
  assert (same_env w w1) as Henv by (eapply same_env_trans; [apply same_env_drop|done]).
  eapply wp_mono; [by apply save_spec|]. intros w2 [e|[]] (Henv2 & Hf2 & Hr2).
  { left. apply Henv. by destruct Hr2. }
  destruct Hr2 as (_ & Hmb & Hck). wp_steps.
  assert (same_env w w2) as Henv' by (by eapply same_env_trans).
  assert (mailboxes (w_db w2) !! mb_ID row = Some row) as Hrow2 by (by rewrite Hmb, Hdb1).
  assert (mailbox_inv a (mb_ID row) n w2) as Hinv by (by eapply rewound_inv).
  eapply wp_mono.
  { eapply (backfillMailbox_safe BatchSize FetchWindow sha256 derive rejects sched sched_perm
              assign a (mb_ID row) n); [done| |].
    - split; [done|]. split; [done|]. unfold validity_ok; simpl.
      destruct (decide (known_validity row = 0)); [by left; left|].
      destruct (decide (known_validity row = srv_validity (w_srv w2) n)); [by left; right|].
      right. intros row' Hr'. assert (row' = row) as -> by congruence. by intros [?|?].
    - rewrite (proj1 Henv'). by eapply storable_env. }
  intros w3 [e|st] (Henv3 & Hf3 & _ & Hr3).
  - destruct Hr3 as [?|?]; [left; by apply Henv'|right; by eapply unselectable_env].
  - wp_steps. split; [by eapply same_env_trans|]. split; [done|].
    eapply mailbox_frame_trans; [|exact Hf3]. by rewrite <- Hdb1.
Qed.
End escalated.

(** ** The accounts a sweep keeps *)

Section accounts.
Context {S : Type} `{ImapServer S}.
Context (BatchSize : nat) (FetchWindow : Z).
Context (sha256 : string -> string) (derive : string -> Message).
Context (rejects : NewMessage -> bool).
Context (sched : list rawMessage -> list rawMessage).
Context (assign : DB -> Z -> list Z -> option (list (Z * Z))).
Abbreviation repair := (repairMailbox BatchSize FetchWindow sha256 derive rejects sched assign).
Implicit Types s : WState S.

(** A row no initial sync has given a cursor. *)
Definition never_synced (row : Mailbox) : Prop :=
  (mailboxCursor row).1 = 0 \/ (mailboxCursor row).2 = 0.

#[global] Instance never_synced_dec row : Decision (never_synced row).
Proof. apply _. Defined.

(** The postcondition of a repair: the budget pays for exactly the walks made,
    and only a folder without a cursor is walked on credit. *)
Definition paid (row : Mailbox) (budget : Z) (_ : WState S) (r : err + (repairOutcome * Z)) : Prop :=
  match r with
  | inl _ => True
  | inr (o, b) => b = budget - (if ro_escalated o then 1 else 0) /\
                  (~ never_synced row -> ro_escalated o = true -> 0 < budget)
  end.

Lemma repairFailed_outcome a mb r walked s :
  wp (repairFailed a mb r walked)
    (fun _ res => match res with
                  | inr o => ro_repaired o = false /\ ro_escalated o = false
                  | inl _ => True
                  end) s.
Proof.
  unfold repairFailed. apply wp_bind, wp_lift, wp_any. intros w1 [e|st]; [done|].
  destruct walked; wp_steps; [|done]. apply wp_lift, wp_now. wp_steps. apply wp_any.
  intros s2 [e|[]]; [done|]. by wp_steps.
Qed.

Lemma verdict_paid a mb row (walked : bool) otherwise budget s :
  (forall r s, wp (otherwise r) (paid row (if walked then budget + 1 else budget)) s) ->
  (walked = true -> ~ never_synced row -> 0 <= budget) ->
  wp (verdict a mb walked otherwise budget) (paid row (if walked then budget + 1 else budget)) s.
Proof.
  intros Hother Hb. unfold verdict. apply wp_bind, wp_lift, wp_any.
  intros w1 [e|[r|]]; [done| |].
  - destruct walked; [|apply Hother]. apply wp_bind. eapply wp_mono; [apply repairFailed_outcome|].
    intros s1 [e|o] Ho; [done|]. wp_steps. simpl. split; [lia|].
    intros Hn _. specialize (Hb eq_refl Hn). lia.
  - unfold repairSucceeded. wp_steps. apply wp_any. intros s1 [e|[]]; [done|]. wp_steps.
    simpl. destruct walked; (split; [lia|]); [|done].
    intros Hn _. specialize (Hb eq_refl Hn). lia.
Qed.

Lemma throw_paid row budget e s : wp (throw e) (paid row budget) s.
Proof. by apply wp_throw. Qed.

Lemma refused_paid row budget a mb r (f : repairOutcome -> repairOutcome) s :
  (forall o, ro_escalated (f o) = ro_escalated o) ->
  wp (o ← repairFailed a mb r false; mret (f o, budget)) (paid row budget) s.
Proof.
  intros Hf. apply wp_bind. eapply wp_mono; [apply repairFailed_outcome|].
  intros s1 [e|o] Ho; [done|]. wp_steps. simpl. rewrite Hf, (proj2 Ho). split; [lia|done].
Qed.

(** Only a folder without a cursor asks for an initial sync. *)
Lemma incremental_needs a mb w :
  wp (try (incrementalMailbox BatchSize FetchWindow sha256 derive rejects sched assign a mb))
    (fun _ r => r = inr (inl ErrNeedsInitialSync) -> never_synced (sb_row mb)) w.
Proof.
  destruct (decide (never_synced (sb_row mb))) as [?|Hn]; [by apply wp_any|].
  assert (tame (fun e => e <> ErrNeedsInitialSync)
    (incrementalMailbox BatchSize FetchWindow sha256 derive rejects sched assign a mb)) as Hq.
  { apply tame_incremental; [done|]. right. unfold never_synced in Hn. tauto. }
  unfold wp, try. destruct (Hq w) as [_ He]. destruct (incrementalMailbox _ _ _ _ _ _ _ _ _ w).
  simpl in *. intros [= ->]. by destruct (He ErrNeedsInitialSync).
Qed.

Lemma walk_paid {A} (walk : M (World S) err A) a mb budget s :
  (~ never_synced (sb_row mb) -> 0 < budget) ->
  wp (lift walk ;; verdict a mb true (fun _ => throw ErrIO) (budget - 1))
    (paid (sb_row mb) budget) s.
Proof.
  intros Hb. apply wp_bind, wp_lift, wp_any. intros w1 [e|?]; [done|].
  replace budget with (budget - 1 + 1) at 2 by lia.
  apply (verdict_paid _ _ _ true); [intros; apply throw_paid|]. intros _ Hn.
  specialize (Hb Hn). lia.
Qed.

Lemma repairMailbox_paid a mb budget s : wp (repair a mb budget) (paid (sb_row mb) budget) s.
Proof.
  unfold repairMailbox. apply wp_bind, wp_lift. eapply wp_mono; [apply incremental_needs|].
  intros w1 [e|[e|res]] Hneed; [done| |].
  - case_bool_decide as He; [|apply throw_paid]. subst e. apply walk_paid.
    intros []. by apply Hneed.
  - apply (verdict_paid _ _ _ false); [|done]. intros r s2. unfold escalate.
    apply wp_if; intros Hb.
    { by apply (refused_paid _ _ _ _ _ (fun o => o)). }
    apply wp_bind, wp_lift, wp_any. intros w3 [e3|[[[] fl] wt]]; [done| |]; cbn [negb].
    + apply walk_paid. bool_cases. lia.
    + by apply (refused_paid _ _ _ _ _ (with_wait wt)).
Qed.

(** The accounts of a sweep. *)
Record balanced (credit : Z) (rb : ReconcileResult * Z) : Prop := {
  bal_diverged : rr_Diverged rb.1 = Z.of_nat (length (rr_Divergences rb.1));
  bal_outcomes : rr_Repaired rb.1 + rr_Unrepaired rb.1 + structuralCount rb.1 = rr_Diverged rb.1;
  bal_stuck : rr_Unrepaired rb.1 = Z.of_nat (length (rr_Stuck rb.1));
  bal_escalated : rr_Escalated rb.1 = 1 - rb.2;
  bal_budget : - credit <= rb.2
}.

Lemma structural_snoc r d :
  structuralCount (add_divergence d r) =
  structuralCount r + (if isStructuralReason (dv_Reason d) then 1 else 0).
Proof.
  unfold structuralCount, add_divergence. simpl. rewrite filter_app, length_app, Nat2Z.inj_add.
  f_equal. rewrite filter_cons. destruct (isStructuralReason _); by case_decide.
Qed.

Lemma structural_divergences r r' :
  rr_Divergences r = rr_Divergences r' -> structuralCount r = structuralCount r'.
Proof. unfold structuralCount. by intros ->. Qed.

Lemma check_reason row info (w : World S) :
  wp (check_mailbox row info)
    (fun _ r => match r with inr (Some x) => isStructuralReason x = false | _ => True end) w.
Proof.
  unfold check_mailbox, compareMailboxState, countCheck.
  destruct (_ ++ _ ++ _); [|by wp_steps]. case_bool_decide; [|by wp_steps].
  apply wp_bind, wp_any. intros w1 [e|n]; [done|]. wp_steps. by case_bool.
Qed.

Definition owes (stored : list Mailbox) (info : MailboxInfo) : Prop :=
  match by_name stored (mi_Name info) with Some row => never_synced row | None => False end.
#[global] Instance owes_dec stored info : Decision (owes stored info).
Proof. unfold owes. destruct (by_name _ _); apply _. Defined.

Lemma balanced_structural credit r b d :
  isStructuralReason (dv_Reason d) = true -> balanced credit (r, b) ->
  balanced credit (add_divergence d r, b).
Proof.
  intros Hs [H1 H2 H3 H4 H5]. cbn [fst snd] in *. split; cbn [fst snd]; simpl; [..|done].
  - rewrite length_app. simpl. lia.
  - rewrite structural_snoc, Hs. lia.
  - done.
  - done.
Qed.

Lemma reconcile_one_balanced a stored info credit rb s :
  0 <= credit -> balanced credit rb ->
  wp (reconcile_one BatchSize FetchWindow sha256 derive rejects sched assign a stored info rb)
    (fun _ r => match r with
                | inr rb' => balanced (credit + (if decide (owes stored info) then 1 else 0)) rb'
                | inl _ => True
                end) s.
Proof.
  intros Hcr Hbal. destruct rb as [res b].
  assert (forall c, credit <= c -> balanced c (res, b)) as Hmono.
  { intros c Hc. destruct Hbal. split; try done. lia. }
  set (c := credit + _). assert (credit <= c) as Hc by (subst c; case_decide; lia).
  unfold reconcile_one. apply wp_bind, wp_lift, wp_any. intros w1 [e|?]; [done|].
  apply wp_if; intros _; [wp_steps; auto|]. destruct (by_name stored (mi_Name info)) as [row|] eqn:Hby.
  2: { wp_steps. apply (balanced_structural c); [done|]. destruct (Hmono c Hc). by split. }
  apply wp_if; intros _; [wp_steps; destruct (Hmono c Hc); by split|].
  apply wp_bind, wp_lift. eapply wp_mono; [apply check_reason|].
  intros w2 [e|[r|]] Hr; [done| |].
  - apply wp_bind. eapply wp_mono; [apply repairMailbox_paid|]. intros s3 [e|[o b']] Hp; [done|].
    wp_steps. destruct Hp as [Hb' Hpos]. simpl in Hb', Hpos. destruct Hbal as [H1 H2 H3 H4 H5].
    cbn [fst snd] in *. split; cbn [fst snd]; simpl.
    + rewrite length_app. simpl. lia.
    + rewrite (structural_divergences _ (add_divergence (mkDivergence (mi_Name info) r) res)) by done.
      rewrite structural_snoc. simpl. rewrite Hr. destruct (ro_repaired o); lia.
    + rewrite length_app. destruct (ro_repaired o); simpl; lia.
    + rewrite Hb'. destruct (ro_escalated o); lia.
    + subst c. case_decide as Ho; [destruct (ro_escalated o); lia|].
      unfold owes in Ho. rewrite Hby in Ho. specialize (Hpos Ho).
      destruct (ro_escalated o); [|lia]. specialize (Hpos eq_refl). lia.
  - apply wp_bind, wp_any. intros s3 [e|?]; [done|]. wp_steps. destruct (Hmono c Hc). by split.
Qed.

Lemma reconcile_boxes_balanced a stored infos credit rb s :
  0 <= credit -> balanced credit rb ->
  wp (reconcile_boxes BatchSize FetchWindow sha256 derive rejects sched assign a stored infos rb)
    (fun _ r => match r with
                | inr rb' =>
                    balanced (credit + Z.of_nat (length (filter (owes stored) infos))) rb'
                | inl _ => True
                end) s.
Proof.
  revert credit rb s. induction infos as [|info infos IH]; intros credit rb s Hcr Hbal; simpl.
  - wp_steps. by rewrite Z.add_0_r.
  - apply wp_bind. eapply wp_mono; [by apply reconcile_one_balanced|].
    intros s1 [e|rb'] Hb'; [done|]. eapply wp_mono; [apply IH; [|exact Hb']|].
    { case_decide; lia. }
    intros s2 [e|rb''] Hb''; [done|]. rewrite filter_cons in *. case_decide; simpl in *.
    + replace (credit + _) with (credit + 1 + Z.of_nat (length (filter (owes stored) infos))); [done|].
      lia.
    + by rewrite Z.add_0_r in Hb''.
Qed.

Lemma fold_structural credit ds r b :
  Forall (fun d => isStructuralReason (dv_Reason d) = true) ds -> balanced credit (r, b) ->
  balanced credit (foldl (fun r d => add_divergence d r) r ds, b).
Proof.
  intros Hds. revert r. induction Hds as [|d ds Hd _ IH]; intros r Hbal; simpl; [done|].
  apply IH. by apply balanced_structural.
Qed.

Lemma needsDiscovery_count r : needsDiscovery r = false -> structuralCount r = 0.
Proof.
  unfold needsDiscovery, structuralCount. induction (rr_Divergences r) as [|d ds IH]; [done|].
  simpl. rewrite filter_cons. intros [Hd ?]%orb_false_elim. rewrite Hd. by auto.
Qed.

(** The stored folders of the account, as the sweep reads them. *)
Definition stored_folders (a : Z) (w : World S) : list Mailbox :=
  filter (fun m => mb_AccountID m = a) (map_to_list (mailboxes (w_db w))).*2.

Lemma ListMailboxes_spec a w :
  wp (ListMailboxes a)
    (fun _ r => match r with inr l => l = stored_folders a w | inl _ => True end) w.
Proof. unfold ListMailboxes. wp_steps. apply wp_io; [done|]. by wp_steps. Qed.

Lemma Reconcile_spec a s :
  wp (Reconcile BatchSize FetchWindow sha256 derive rejects sched assign a)
    (fun _ r => match r with
       | inl _ => True
       | inr res =>
           rr_Diverged res = Z.of_nat (length (rr_Divergences res)) /\
           rr_Repaired res + rr_Unrepaired res = rr_Diverged res /\
           rr_Unrepaired res = Z.of_nat (length (rr_Stuck res)) /\
           rr_Escalated res <= 1 + Z.of_nat (length
             (filter (owes (stored_folders a (ws_world s))) (srv_list (w_srv (ws_world s)))))
       end) s.
Proof.
  unfold Reconcile. apply wp_bind, wp_lift, wp_io; [done|]. simpl.
  apply wp_bind, wp_gets. simpl. apply wp_bind, wp_lift. eapply wp_mono; [apply ListMailboxes_spec|].
  intros w1 [e|stored] Hst; [done|]. subst stored. simpl.
  apply wp_bind. eapply wp_mono; [apply (reconcile_boxes_balanced _ _ _ 0); [lia|by split]|].
  intros s2 [e|[r b]] Hbal; [done|]. cbn [fst].
  change (stored_folders a (drop_fault (ws_world s))) with (stored_folders a (ws_world s)) in *.
  set (stored := stored_folders a (ws_world s)) in *.
  set (infos := srv_list (w_srv (ws_world s))) in *.
  apply (fold_structural _ (gone_divergences stored infos)) in Hbal; cycle 1.
  { unfold gone_divergences. apply Forall_fmap, Forall_true. done. }
  destruct Hbal as [H1 H2 H3 H4 H5]. cbn [fst snd] in *.
  set (res := foldl _ _ _) in *. destruct (needsDiscovery res) eqn:Hn.
  - apply wp_bind, wp_lift, wp_any. intros w3 [e|?]; [done|]. wp_steps. simpl. lia.
  - wp_steps. apply needsDiscovery_count in Hn. lia.
Qed.
End accounts.

(** ** The bound on walks *)

(** The bound a mailbox carries in the store. *)
Definition bound_of (d : DB) (a id : Z) : escalationState :=
  match decodeEscalation (Checkpoint (default zero_checkpoint (sync_log d !! (a, escalationScope id)))) with
  | Some st => if es_Version st =? checkpointVersion then st else no_escalation
  | None => no_escalation
  end.

Lemma escalation_roundtrip st :
  is_int64 (es_Version st) -> is_int64 (es_Failures st) ->
  decodeEscalation (encodeEscalation st) = Some st.
Proof.
  unfold is_int64. intros [? ?] [? ?]. destruct st as [v f t]. simpl in *.
  unfold read_int, read_time. simpl.
  repeat (rewrite (proj2 (Z.leb_le _ _)) by done; simpl). done.
Qed.

(** The shift and its overflow test are the minimum of the exact doubling and a
    day. *)
Lemma escalationDelay_min f :
  1 <= f -> escalationDelay f = Z.min (escalationBase * 2 ^ (f - 1)) escalationMax.
Proof.
  intros Hf. unfold escalationDelay. destruct (f <? 32) eqn:E; bool_cases.
  - assert (exists n, (n < 31)%nat /\ f = Z.of_nat n + 1) as (n & Hn & ->)
      by (exists (Z.to_nat (f - 1)); lia).
    do 31 (destruct n as [|n]; [vm_compute; reflexivity|]). lia.
  - assert (2 ^ 7 <= 2 ^ (f - 1)) as Hp by (apply Z.pow_le_mono_r; lia).
    unfold escalationBase, escalationMax, Hour, Minute, Second, Millisecond in *. lia.
Qed.

Section bound.
Context {S : Type}.
Implicit Types w : World S.

Lemma loadEscalation_spec a id w :
  wp (loadEscalation a id)
    (fun w' r => w_db w' = w_db w /\ w_now w' = w_now w /\
       match r with inr st => st = bound_of (w_db w) a id | inl _ => faulty w end) w.
Proof.
  unfold loadEscalation, GetCheckpoint. wp_steps. apply wp_io; [by eauto|]. by wp_steps.
Qed.

Lemma escalationAllowed_spec a mb w :
  let st := bound_of (w_db w) a (mb_ID (sb_row mb)) in
  let delay := Z.min (escalationBase * 2 ^ (es_Failures st - 1)) escalationMax in
  let elapsed := w_now w - es_LastAttempt st in
  0 < es_Failures st -> es_LastAttempt st <> 0 -> 0 <= elapsed <= MaxInt64 ->
  wp (escalationAllowed a mb)
    (fun w' r => w_db w' = w_db w /\
       match r with
       | inl _ => faulty w
       | inr res => res = if delay <=? elapsed then (true, es_Failures st, 0)
                          else (false, es_Failures st, delay - elapsed)
       end) w.
Proof.
  intros st delay elapsed Hf Hl He. unfold escalationAllowed. apply wp_bind.
  eapply wp_mono; [apply loadEscalation_spec|]. intros w1 [e|st'] (Hdb & Hnow & Hr); [done|].
  subst st'. fold st. apply wp_if; intros Hz.
  { apply orb_prop in Hz as [Hz|Hz]; [bool_cases; lia|]. by apply Z.eqb_eq in Hz. }
  clear Hz. apply wp_bind, wp_now. rewrite escalationDelay_min by lia. fold delay. rewrite Hnow.
  assert (0 <= delay <= escalationMax) as Hd.
  { subst delay. assert (0 < 2 ^ (es_Failures st - 1)) by (apply Z.pow_pos_nonneg; lia).
    unfold escalationBase, escalationMax, Hour, Minute, Second, Millisecond in *. lia. }
  assert (Sub (w_now w) (es_LastAttempt st) = elapsed) as ->.
  { unfold Sub, MinInt64, elapsed, MaxInt64 in *. lia. }
  clearbody delay elapsed. apply wp_if; intros Hle; wp_steps; rewrite Hle; [done|].
  split; [done|]. do 2 f_equal. bool_cases. unfold wrap64s, MaxInt64, escalationMax, Hour, Minute,
    Second, Millisecond in *. rewrite Z.mod_small; lia.
Qed.
End bound.

(** ** What the reconciler guarantees *)

(** A repair is believed only when it is verified. Whatever the pass, the
    backfill or the walk did, and whatever failed on the way, repairMailbox reports
    a folder as repaired only if the stored cursor and, for a complete folder, the
    number of live rows agree with what the server says at that moment. *)
Theorem repaired_is_verified {S} `{ImapServer S} (BatchSize : nat) (FetchWindow : Z)
    (sha256 : string -> string) (derive : string -> Message) (rejects : NewMessage -> bool)
    (sched : list rawMessage -> list rawMessage)
    (assign : DB -> Z -> list Z -> option (list (Z * Z)))
    (a : Z) (mb : syncMailbox) (budget : Z) (s : WState S) (o : repairOutcome) (left_ : Z) :
  let run := repairMailbox BatchSize FetchWindow sha256 derive rejects sched assign a mb budget s in
  run.2 = inr (o, left_) -> ro_repaired o = true ->
  agrees a (mi_Name (sb_info mb)) (ws_world run.1).
Proof.
  intros run Hr Ho. pose proof (repairMailbox_honest BatchSize FetchWindow sha256 derive rejects
    sched assign a mb budget s) as Hh. unfold wp in Hh. fold run in Hh. rewrite Hr in Hh. auto.
Qed.

(** C25: The walk repairs what a checkpoint hides. Start from any store at all, with a
    checkpoint that may claim messages it does not hold; if nothing fails and the folder
    can be selected, backfillFromTop succeeds, and whenever it succeeds every message the
    server holds in the folder has a row, live or tombstoned, provided PostgreSQL accepts
    each row, or accepts it stripped and nothing failed; other mailboxes are not touched. *)
Theorem escalation_restores {S} `{ImapServer S} `{!ImapLaws S} (BatchSize : nat) (FetchWindow : Z)
    (sha256 : string -> string) (derive : string -> Message) (rejects : NewMessage -> bool)
    (sched : list rawMessage -> list rawMessage)
    (assign : DB -> Z -> list Z -> option (list (Z * Z)))
    (a : Z) (mb : syncMailbox) (row : Mailbox) (w : World S) :
  let n := mi_Name (sb_info mb) in
  (forall l, sched l ≡ₚ l) ->
  List.find (same_folder a n) (map_to_list (mailboxes (w_db w))).*2 = Some row ->
  mailboxes (w_db w) !! mb_ID row = Some row ->
  mailbox_storable sha256 derive rejects (mb_ID row) (srv_validity (w_srv w) n) n w ->
  match backfillFromTop BatchSize FetchWindow sha256 derive rejects sched assign a mb w with
  | (_, inl _) => faulty w \/ unselectable n w
  | (w', inr _) => w_srv w' = w_srv w /\ fully_stored (mb_ID row) n w' /\
                   mailbox_frame a (mb_ID row) (w_db w) (w_db w')
  end.
Proof.
  intros n Hperm Hfind Hrow Hst. pose proof (backfillFromTop_spec BatchSize FetchWindow sha256
    derive rejects sched Hperm assign a mb row w Hfind Hrow Hst) as Hs. unfold wp in Hs.
  destruct (backfillFromTop _ _ _ _ _ _ _ _ _ _) as [w' [e|[]]]; simpl in Hs; [done|].
  by destruct Hs as ((? & _) & ? & ?).
Qed.

(** The accounts of a sweep are right. When Reconcile succeeds, every
    divergence it lists is counted exactly once, as repaired or as unrepaired; the
    stuck ones are the unrepaired ones; and it walked at most one folder beyond
    those that never had an initial sync. *)
Theorem reconcile_accounts {S} `{ImapServer S} (BatchSize : nat) (FetchWindow : Z)
    (sha256 : string -> string) (derive : string -> Message) (rejects : NewMessage -> bool)
    (sched : list rawMessage -> list rawMessage)
    (assign : DB -> Z -> list Z -> option (list (Z * Z)))
    (a : Z) (s : WState S) (res : ReconcileResult) :
  (Reconcile BatchSize FetchWindow sha256 derive rejects sched assign a s).2 = inr res ->
  rr_Diverged res = Z.of_nat (length (rr_Divergences res)) /\
  rr_Repaired res + rr_Unrepaired res = rr_Diverged res /\
  rr_Unrepaired res = Z.of_nat (length (rr_Stuck res)) /\
  rr_Escalated res <= 1 + Z.of_nat (length
    (filter (owes (stored_folders a (ws_world s))) (srv_list (w_srv (ws_world s))))).
Proof.
  intros Hr. pose proof (Reconcile_spec BatchSize FetchWindow sha256 derive rejects sched assign
    a s) as Hs. unfold wp in Hs. rewrite Hr in Hs. exact Hs.
Qed.

(** The backoff between walks is exact. After [f] failed walks, the last one
    [elapsed] ago, a new one is allowed exactly when min(15min * 2^(f-1), 24h) has
    passed, and otherwise the remaining wait is reported; the int64 shift never
    shortens it. *)
Theorem escalation_backoff {S} (a : Z) (mb : syncMailbox) (w : World S) :
  let st := bound_of (w_db w) a (mb_ID (sb_row mb)) in
  let delay := Z.min (escalationBase * 2 ^ (es_Failures st - 1)) escalationMax in
  let elapsed := w_now w - es_LastAttempt st in
  0 < es_Failures st -> es_LastAttempt st <> 0 -> 0 <= elapsed <= MaxInt64 -> ~ faulty w ->
  (escalationAllowed a mb w).2 =
    inr (if delay <=? elapsed then (true, es_Failures st, 0)
         else (false, es_Failures st, delay - elapsed)).
Proof.
  intros st delay elapsed Hf Hl He Hflt.
  pose proof (escalationAllowed_spec a mb w Hf Hl He) as Hs. unfold wp in Hs.
  destruct (escalationAllowed a mb w) as [w' [e|res]]; simpl in *; destruct Hs as [_ Hr]; [done|].
  by rewrite Hr.
Qed.

(** A success after a restart does not clear the bound. With the in-memory
    set lost, repairSucceeded writes nothing, so a divergence within the old
    backoff is still refused its walk although the folder was repaired since. *)
Theorem restart_keeps_bound {S} (a : Z) (mb : syncMailbox) (s : WState S) :
  let st := bound_of (w_db (ws_world s)) a (mb_ID (sb_row mb)) in
  let delay := Z.min (escalationBase * 2 ^ (es_Failures st - 1)) escalationMax in
  let elapsed := w_now (ws_world s) - es_LastAttempt st in
  ws_escalated s = ∅ ->
  0 < es_Failures st -> es_LastAttempt st <> 0 -> 0 <= elapsed <= MaxInt64 -> elapsed < delay ->
  ~ faulty (ws_world s) ->
  let run := (o ← repairSucceeded a mb; al ← lift (escalationAllowed a mb); mret (o, al)) s in
  exists o, ro_repaired o = true /\ run.2 = inr (o, (false, es_Failures st, delay - elapsed)).
Proof.
  intros st delay elapsed Hesc Hf Hl He Hlt Hflt run.
  pose proof (escalationAllowed_spec a mb (ws_world s) Hf Hl He) as Hs.
  assert (wp (o ← repairSucceeded a mb; al ← lift (escalationAllowed a mb); mret (o, al))
    (fun _ r => exists o, ro_repaired o = true /\
       r = inr (o, (false, es_Failures st, delay - elapsed))) s) as Hwp; [|exact Hwp].
  unfold repairSucceeded, clearEscalation, hasEscalation.
  apply wp_bind, wp_bind, wp_bind, wp_gets. rewrite Hesc, bool_decide_eq_false_2 by set_solver.
  cbn [negb]. wp_steps. apply wp_lift. eapply wp_mono; [exact Hs|]. intros w' [e|res] (_ & Hr); [done|].
  fold st delay elapsed in Hr. rewrite (proj2 (Z.leb_gt _ _)) in Hr by done. subst res.
  wp_steps. eexists. split; [|reflexivity]. done.
Qed.

(** *** Sample sweeps *)

(** A folder whose row and checkpoint claim to be complete while its message is
    missing. *)
Definition lying_row : Mailbox := with_sync_state 7 2 2 idle_row.
Definition lying_db : DB :=
  set_sync_log (fun _ => {[(1, mailboxScope 1) :=
      {| Checkpoint := encodeMailboxCheckpoint {| mc_Version := checkpointVersion;
           mc_UIDValidity := 7; mc_UIDLow := 1; mc_RecentDone := true; mc_Complete := true |};
         StateCounter := 1; LastSuccessAt := None; LastError := None; ConsecutiveErrors := 0;
         cp_BreakerState := BreakerClosed; BreakerUntil := None |}]})
    (set_mailboxes (fun _ => {[1 := lying_row]}) empty_db).
Definition lying_world : World MemServer :=
  {| w_db := lying_db; w_srv := busy_server; w_now := 1000; w_faults := [] |}.
Definition lying_box : syncMailbox :=
  {| sb_row := lying_row; sb_info := mem_info "INBOX" (inbox_of 2 {[1 := mail 990 2 "d"]}) |}.
Definition fresh_watcher (w : World MemServer) : WState MemServer :=
  {| ws_world := w; ws_escalated := ∅ |}.

Lemma repaired_is_verified_witness :
  agrees 1 "INBOX" (ws_world (repairMailbox 10 2 (fun s => s) (fun _ => no_mail) (fun _ => false)
    (fun l => l) (fun _ _ _ => None) 1 lying_box 1 (fresh_watcher lying_world)).1).
Proof.
  apply (repaired_is_verified 10 2 (fun s => s) (fun _ => no_mail) (fun _ => false) (fun l => l)
    (fun _ _ _ => None) 1 lying_box 1 (fresh_watcher lying_world)
    {| ro_repaired := true; ro_reason := None; ro_escalated := true; ro_attempts := 0;
       ro_backoff := 0 |} 0); vm_compute; reflexivity.
Defined.

Lemma escalation_restores_witness :
  match backfillFromTop 10 2 (fun s => s) (fun _ => no_mail) (fun _ => false) (fun l => l)
          (fun _ _ _ => None) 1 lying_box lying_world with
  | (_, inl _) => faulty lying_world \/ unselectable "INBOX" lying_world
  | (w', inr _) => w_srv w' = busy_server /\ fully_stored 1 "INBOX" w' /\
                   mailbox_frame 1 1 lying_db (w_db w')
  end.
Proof.
  apply (escalation_restores 10 2 (fun s => s) (fun _ => no_mail) (fun _ => false) (fun l => l)
    (fun _ _ _ => None) 1 lying_box lying_row lying_world).
  - done.
  - vm_compute. reflexivity.
  - vm_compute. reflexivity.
  - left. intros nm _. done.
Defined.

Lemma reconcile_accounts_witness :
  exists res, rr_Diverged res = 1 /\ rr_Escalated res = 1 /\
    rr_Repaired res + rr_Unrepaired res = rr_Diverged res.
Proof.
  destruct (Reconcile 10 2 (fun s => s) (fun _ => no_mail) (fun _ => false) (fun l => l)
    (fun _ _ _ => None) 1 (fresh_watcher lying_world)).2 as [e|res] eqn:E.
  - exfalso. revert E. vm_compute. congruence.
  - exists res. pose proof (reconcile_accounts 10 2 (fun s => s) (fun _ => no_mail)
      (fun _ => false) (fun l => l) (fun _ _ _ => None) 1 (fresh_watcher lying_world) res E)
      as (_ & Hsum & _ & _).
    assert (rr_Diverged res = 1 /\ rr_Escalated res = 1) as [Hd He].
    { vm_compute in E. injection E as <-. split; reflexivity. }
    exact (conj Hd (conj He Hsum)).
Defined.

(** A mailbox with five failed walks, the last one ten minutes ago. *)
Definition bounded_world : World MemServer :=
  {| w_db := set_sync_log (fun _ => {[(1, escalationScope 1) :=
       {| Checkpoint := encodeEscalation {| es_Version := checkpointVersion; es_Failures := 5;
            es_LastAttempt := 1 |};
          StateCounter := 1; LastSuccessAt := None; LastError := None; ConsecutiveErrors := 0;
          cp_BreakerState := BreakerClosed; BreakerUntil := None |}]}) lying_db;
     w_srv := busy_server; w_now := 1 + 10 * Minute; w_faults := [] |}.

Lemma bounded_not_faulty : ~ faulty bounded_world.
Proof. intros [e []%elem_of_nil]. Qed.

Lemma escalation_backoff_witness :
  (escalationAllowed 1 lying_box bounded_world).2 = inr (false, 5, 4 * Hour - 10 * Minute).
Proof.
  refine (eq_trans (escalation_backoff 1 lying_box bounded_world _ _ _ bounded_not_faulty) _);
    [| | |vm_compute; reflexivity].
  all: vm_compute; repeat split; congruence.
Defined.

Lemma restart_keeps_bound_witness :
  exists o, ro_repaired o = true /\
    ((o ← repairSucceeded 1 lying_box; al ← lift (escalationAllowed 1 lying_box); mret (o, al))
       (fresh_watcher bounded_world)).2 = inr (o, (false, 5, 4 * Hour - 10 * Minute)).
Proof.
  destruct (restart_keeps_bound 1 lying_box (fresh_watcher bounded_world)) as (o & Ho & Hr);
    [done| | | | |exact bounded_not_faulty|].
  1-4: vm_compute; repeat split; congruence.
  exists o. split; [exact Ho|]. etransitivity; [exact Hr|]. vm_compute. reflexivity.
Defined.

(** The account's folder is gone from the server. *)
Definition gone_world : World MemServer :=
  {| w_db := lying_db; w_srv := ∅; w_now := 1000; w_faults := [] |}.
Definition sweep_sample : M (WState MemServer) err ReconcileResult :=
  Reconcile 10 2 (fun s => s) (fun _ => no_mail) (fun _ => false) (fun l => l)
    (fun _ _ _ => None) 1.
Definition sweep_gone (s : WState MemServer) : option (Z * Z * list Divergence) :=
  match (sweep_sample s).2 with
  | inr res => Some (rr_Repaired res, rr_Unrepaired res, rr_Divergences res)
  | inl _ => None
  end.

(** A folder that is gone from the server is counted as repaired by every
    sweep. Discovery only adds and updates rows, so the row stays, still marked
    selectable, and the next sweep finds and counts the same divergence. *)
Theorem gone_folder_counted_repaired :
  let s := fresh_watcher gone_world in
  let s' := (sweep_sample s).1 in
  let gone := {| dv_Mailbox := "INBOX"; dv_Reason := Gone |} in
  sweep_gone s = Some (1, 0, [gone]) /\
  mailboxes (w_db (ws_world s')) = {[1 := lying_row]} /\
  sweep_gone s' = Some (1, 0, [gone]).
Proof. split; [vm_compute; reflexivity|]. split; vm_compute; reflexivity. Qed.
