(* ===== verification/Watcher.v ===== *)
(** The push watcher (src/internal/sync/watcher.go): the options and their
    defaults, the event loop [dispatch] over the debouncer and the idle heartbeat,
    one session ([runOnce]), and the reconnect loop [Watch] with its backoff and
    the persisted circuit breaker.

    The environment is explicit. A [cycle] says what happens to one turn of
    [Watch]: how many connections are granted, what the session's select receives
    and when, which random number jitter draws, and whether the context ends
    during a wait. The clock is [w_now]; [tick] is the passing of time. The
    reconciler's ticker, a goroutine of its own in the code, is one more input of
    the session: its sweeps are serialised with the loop's passes. *)

From S2P Require Import Prelude Convert Utf8 Debounce Store Imap Checkpoint Discover Pipeline.
From S2P Require Import Initial InitialSafety InitialRun Incremental Tame Reconciler.
#[local] Open Scope Z_scope.

Definition DefaultDebounce : Duration := 150 * Millisecond.
Definition DefaultMaxDebounce : Duration := 2 * Second.
Definition DefaultIdleHeartbeat : Duration := 2 * Minute.
Definition DefaultReconcileInterval : Duration := 15 * Minute.
Definition DefaultBackoffMin : Duration := 2 * Second.
Definition DefaultBackoffMax : Duration := 5 * Minute.
Definition DefaultBreakerThreshold : Z := 5.
Definition DefaultBreakerCooldown : Duration := 15 * Minute.

Record WatcherOptions := mkWatcherOptions {
  wo_Debounce : Duration;
  wo_MaxDebounce : Duration;
  wo_ReconcileInterval : Duration;
  wo_BackoffMin : Duration;
  wo_BackoffMax : Duration;
  wo_BreakerThreshold : Z;
  wo_BreakerCooldown : Duration;
  wo_IdleHeartbeat : Duration
}.

(** [withDefaults]. *)
Definition withDefaults (o : WatcherOptions) : WatcherOptions :=
  let debounce := if wo_Debounce o <=? 0 then DefaultDebounce else wo_Debounce o in
  let maxd := if wo_MaxDebounce o <=? 0 then DefaultMaxDebounce else wo_MaxDebounce o in
  let bmin := if wo_BackoffMin o <=? 0 then DefaultBackoffMin else wo_BackoffMin o in
  let bmax := if wo_BackoffMax o <=? 0 then DefaultBackoffMax else wo_BackoffMax o in
  {| wo_Debounce := debounce;
     wo_MaxDebounce := if maxd <? debounce then debounce else maxd;
     wo_ReconcileInterval := if wo_ReconcileInterval o =? 0 then DefaultReconcileInterval
                             else wo_ReconcileInterval o;
     wo_BackoffMin := bmin;
     wo_BackoffMax := if bmax <? bmin then bmin else bmax;
     wo_BreakerThreshold := if wo_BreakerThreshold o <=? 0 then DefaultBreakerThreshold
                            else wo_BreakerThreshold o;
     wo_BreakerCooldown := if wo_BreakerCooldown o <=? 0 then DefaultBreakerCooldown
                           else wo_BreakerCooldown o;
     wo_IdleHeartbeat := if wo_IdleHeartbeat o =? 0 then DefaultIdleHeartbeat
                         else wo_IdleHeartbeat o |}.

(** ** The breaker and the backoff *)

Record breakerState := mkBreaker { bs_open : bool; bs_until : Time; bs_consecutive : Z }.
Definition breaker_zero : breakerState :=
  {| bs_open := false; bs_until := 0; bs_consecutive := 0 |}.

Definition remaining (b : breakerState) (now : Time) : Duration :=
  if negb (bs_open b) || IsZero (bs_until b) then 0
  else
    let d := Sub (bs_until b) now in
    if 0 <? d then d else 0.

Definition nextBackoff (current maximum : Duration) : Duration :=
  let next := wrap64s (current * 2) in
  if (maximum <? next) || (next <=? 0) then maximum else next.

(** [jitter], with the number rand.Int64N(half+1) returned. *)
Definition jitter (draw : Z -> Z) (d : Duration) : Duration :=
  if d <=? 0 then 0
  else let half := Z.quot d 2 in half + draw (half + 1).

(** ** The session *)

Inductive event :=
| EventMailboxChanged (mailbox : string)
| EventOverflow
| EventUnknown.

(** What the select of [dispatch] can receive. *)
Inductive input :=
| InDone                    (* ctx.Done() *)
| InHeartbeat               (* the idle ticker *)
| InEvent (ev : event)
| InClosed                  (* the events channel was closed *)
| InReady                   (* the debouncer's timer *)
| InReconcile.              (* the reconciler's ticker *)

(** How a session ends: with the context, with an error that is [context.DeadlineExceeded],
    or with another one. *)
Inductive outcome := OutDone | OutDeadline | OutFailed (e : err).

(** One turn of [Watch]. *)
Record cycle := mkCycle {
  cy_timeout : bool;                    (* Connect's dial timed out *)
  cy_clients : Z;                       (* connections Connect returned *)
  cy_inputs : list (Duration * input);  (* each with the time it arrives after *)
  cy_draw : Z -> Z;                     (* rand.Int64N *)
  cy_slack : Duration;                  (* how late a timer fires *)
  cy_waits : bool                       (* false: ctx ends during a wait *)
}.

Definition watcherConnections : Z := 2.

Section watcher.
Context {S : Type} `{ImapServer S}.
Context (BatchSize : nat) (FetchWindow : Z).
Context (sha256 : string -> string) (derive : string -> Message).
Context (rejects : NewMessage -> bool).
Context (sched : list rawMessage -> list rawMessage).
Context (assign : DB -> Z -> list Z -> option (list (Z * Z))).
Context (opts : WatcherOptions).
Abbreviation WM := (M (WState S) err).
Abbreviation sweep := (sweepAll BatchSize FetchWindow sha256 derive rejects sched assign).
Abbreviation reconcile := (Reconcile BatchSize FetchWindow sha256 derive rejects sched assign).

Definition tick (d : Duration) : WM unit :=
  modify (fun s => {| ws_world := {| w_db := w_db (ws_world s); w_srv := w_srv (ws_world s);
                                     w_now := w_now (ws_world s) + Z.max 0 d;
                                     w_faults := w_faults (ws_world s) |};
                      ws_escalated := ws_escalated s |}).

Definition attempt {A} (m : WM A) : WM (err + A) := fun s =>
  let '(s', r) := m s in (s', inr r).

(** Go on unless [m] failed; its error ends the session. *)
Definition or_end {A} (m : WM A) (k : A -> WM outcome) : WM outcome :=
  r ← attempt m;
  match r with
  | inl e => mret (OutFailed e)
  | inr a => k a
  end.

(** [heartbeatProbe]. *)
Definition heartbeatProbe (accountID : Z) : WM unit :=
  reconcile accountID ;; mret tt.

(** The passes over what the debouncer says is due. *)
Definition pass_due (accountID : Z) (mailboxes : list string) : WM unit :=
  forM_ mailboxes (fun m =>
    lift (passOne BatchSize FetchWindow sha256 derive rejects sched assign accountID m) ;;
    mret tt).

(** [dispatch]: a branch that is not ready is not taken. *)
Fixpoint dispatch (accountID : Z) (ins : list (Duration * input)) (d : debouncer)
    (lastActivity : Time) : WM outcome :=
  match ins with
  | [] => mret OutDone
  | (dt, i) :: ins =>
      tick dt ;;
      t ← lift now;
      match i with
      | InDone => mret OutDone
      | InHeartbeat =>
          if (wo_IdleHeartbeat opts <=? 0) || (Sub t lastActivity <? wo_IdleHeartbeat opts)
          then dispatch accountID ins d lastActivity
          else or_end (heartbeatProbe accountID) (fun _ =>
                 t ← lift now; dispatch accountID ins d t)
      | InClosed => mret (OutFailed ErrIO)
      | InEvent EventOverflow =>
          or_end (lift (sweep accountID)) (fun _ =>
            t ← lift now; dispatch accountID ins (reset d) t)
      | InEvent (EventMailboxChanged mailbox) =>
          if decide (mailbox = EmptyString) then
            or_end (lift (sweep accountID)) (fun _ =>
              dispatch accountID ins (reset d) lastActivity)
          else dispatch accountID ins (touch t mailbox d) t
      | InEvent EventUnknown => dispatch accountID ins d t
      | InReady =>
          match ready d with
          | Some due => if due <=? t then
                          let '(mailboxes, d) := Debounce.take t d in
                          or_end (pass_due accountID mailboxes) (fun _ =>
                            t ← lift now; dispatch accountID ins d t)
                        else dispatch accountID ins d lastActivity
          | None => dispatch accountID ins d lastActivity
          end
      | InReconcile =>
          if wo_ReconcileInterval opts <=? 0 then dispatch accountID ins d lastActivity
          else or_end (reconcile accountID) (fun _ => dispatch accountID ins d lastActivity)
      end
  end.

(** [runOnce]: whether the session was healthy, and how it ended. The error of a dial that
    timed out is [context.DeadlineExceeded] for [errors.Is] (package net), whatever [ctx] is. *)
Definition runOnce (accountID : Z) (c : cycle) : WM (bool * outcome) :=
  if cy_timeout c then mret (false, OutDeadline)
  else if cy_clients c <? watcherConnections then mret (false, OutFailed ErrIO)
  else
    r ← attempt (lift io);
    match r with
    | inl e => mret (false, OutFailed e)
    | inr _ =>
        r ← attempt (lift (sweep accountID));
        match r with
        | inl e => mret (false, OutFailed e)
        | inr _ =>
            attempt (lift (RecordSyncSuccess accountID AccountScope)) ;;
            t ← lift now;
            out ← dispatch accountID (cy_inputs c)
                    (newDebouncer (wo_Debounce opts) (wo_MaxDebounce opts)) t;
            mret (true, out)
        end
    end.

(** *** [Watch] *)

Definition loadBreaker (accountID : Z) : M (World S) err breakerState :=
  cp ← GetCheckpoint accountID AccountScope;
  mret (match cp_BreakerState cp with
        | BreakerOpen => {| bs_open := true; bs_until := default 0 (BreakerUntil cp);
                            bs_consecutive := ConsecutiveErrors cp |}
        | _ => {| bs_open := false; bs_until := 0; bs_consecutive := ConsecutiveErrors cp |}
        end).

(** What the loop does, for the record: a connection attempt and whether its
    session became healthy, an opened breaker, a retry delay. *)
Inductive wevent :=
| Attempt (t : Time) (healthy : bool)
| Opened (t until : Time)
| Retry (t : Time) (delay : Duration).

(** Wait out an open breaker; [None] when the context ended first. *)
Definition honour (accountID : Z) (c : cycle) (state : breakerState)
    : WM (option breakerState) :=
  t ← lift now;
  let wait := remaining state t in
  if 0 <? wait then
    if negb (cy_waits c) then mret None
    else
      tick (wait + Z.max 0 (cy_slack c)) ;;
      attempt (lift (SetBreakerState accountID AccountScope BreakerHalfOpen None)) ;;
      mret (Some breaker_zero)
  else mret (Some state).

(** The failure count after a failed session, from the loop's own count and the
    stored one. *)
Definition count_failure (accountID : Z) (healthy : bool) (failures : Z) : WM Z :=
  let failures := (if healthy then 0 else failures) + 1 in
  r ← attempt (lift (RecordSyncError accountID AccountScope "watcher"));
  mret match r with
       | inr count => if failures <? count then count else failures
       | inl _ => failures
       end.

Section loop.
(** The session of a turn: [runOnce] below. *)
Context (session : cycle -> WM (bool * outcome)).

Fixpoint watch_loop (accountID : Z) (cycles : list cycle) (state : breakerState)
    (backoff : Duration) (failures : Z) : WM (list wevent) :=
  match cycles with
  | [] => mret []
  | c :: cycles =>
      go ← honour accountID c state;
      match go with
      | None => mret []
      | Some state =>
          t ← lift now;
          r ← session c;
          let '(healthy, out) := r in
          match out with
          | OutDone | OutDeadline => mret [Attempt t healthy]
          | OutFailed e =>
              let backoff := if healthy then wo_BackoffMin opts else backoff in
              failures ← count_failure accountID healthy failures;
              t' ← lift now;
              if wo_BreakerThreshold opts <=? failures then
                let until := t' + wo_BreakerCooldown opts in
                attempt (lift (SetBreakerState accountID AccountScope BreakerOpen
                                 (Some until))) ;;
                rest ← watch_loop accountID cycles
                         {| bs_open := true; bs_until := until; bs_consecutive := 0 |}
                         (wo_BackoffMin opts) 0;
                mret (Attempt t healthy :: Opened t' until :: rest)
              else
                let delay := jitter (cy_draw c) backoff in
                if negb (cy_waits c) then mret [Attempt t healthy]
                else
                  tick (delay + Z.max 0 (cy_slack c)) ;;
                  rest ← watch_loop accountID cycles state
                           (nextBackoff backoff (wo_BackoffMax opts)) failures;
                  mret (Attempt t healthy :: Retry t' delay :: rest)
          end
      end
  end.
End loop.

Definition Watch (accountID : Z) (cycles : list cycle) : WM (list wevent) :=
  r ← attempt (lift (loadBreaker accountID));
  let state := match r with inr st => st | inl _ => breaker_zero end in
  watch_loop (runOnce accountID) accountID cycles state (wo_BackoffMin opts)
    (bs_consecutive state).
End watcher.

(** ** The clock *)

(** Time does not go back while [m] runs. *)
Definition forward {S A} (m : M (WState S) err A) : Prop :=
  forall s, w_now (ws_world s) <= w_now (ws_world (m s).1).

Section forward.
Context {S : Type}.

Lemma forward_ret {A} (a : A) : forward (S := S) (mret a).
Proof. intros s. reflexivity. Qed.
Lemma forward_throw {A} e : forward (S := S) (throw (A := A) e).
Proof. intros s. reflexivity. Qed.
Lemma forward_gets {A} (f : WState S -> A) : forward (gets f).
Proof. intros s. reflexivity. Qed.
Lemma forward_bind {A B} (m : M (WState S) err A) (k : A -> M (WState S) err B) :
  forward m -> (forall a, forward (k a)) -> forward (m ≫= k).
Proof.
  intros Hm Hk s. unfold mbind, M_bind. specialize (Hm s). destruct (m s) as [s' [e|a]]; [done|].
  simpl in *. specialize (Hk a s'). lia.
Qed.
Lemma forward_modify (f : WState S -> WState S) :
  (forall s, w_now (ws_world s) <= w_now (ws_world (f s))) -> forward (modify f).
Proof. intros Hf s. apply Hf. Qed.
Lemma forward_lift {A} (m : M (World S) err A) : tame (fun _ => True) m -> forward (lift m).
Proof.
  intros Hm s. unfold lift. destruct (Hm (ws_world s)) as [Hw _].
  destruct (m (ws_world s)). simpl in *. lia.
Qed.
Lemma forward_attempt {A} (m : M (WState S) err A) : forward m -> forward (attempt m).
Proof. intros Hm s. unfold attempt. specialize (Hm s). by destruct (m s). Qed.
Lemma forward_tick d : forward (S := S) (tick d).
Proof. apply forward_modify. simpl. lia. Qed.
Lemma forward_forM {A} (l : list A) (f : A -> M (WState S) err unit) :
  (forall a, forward (f a)) -> forward (forM_ l f).
Proof.
  intros Hf. induction l as [|x l IH]; simpl; [apply forward_ret|].
  apply forward_bind; [apply Hf|done].
Qed.
Lemma forward_or_end {A} (m : M (WState S) err A) k :
  forward m -> (forall a, forward (k a)) -> forward (or_end m k).
Proof.
  intros Hm Hk. apply forward_bind; [by apply forward_attempt|]. intros [e|a]; [|done].
  apply forward_ret.
Qed.
End forward.

Create HintDb forward discriminated.
#[export] Hint Resolve forward_ret forward_throw forward_gets forward_tick forward_attempt
  forward_lift : forward.
#[export] Hint Extern 1 (tame _ _) => solve [tame] : forward.

Ltac forward :=
  repeat first
    [ solve [eauto with forward]
    | match goal with |- forall _, _ => intro end
    | apply forward_forM
    | apply forward_or_end
    | apply forward_bind
    | apply forward_lift; solve [tame]
    | apply forward_modify; intros; simpl; lia
    | progress cbv zeta
    | match goal with |- forward (match ?x with _ => _ end) => destruct x end ].

Section clock.
Context {S : Type} `{ImapServer S}.
Context (BatchSize : nat) (FetchWindow : Z).
Context (sha256 : string -> string) (derive : string -> Message).
Context (rejects : NewMessage -> bool).
Context (sched : list rawMessage -> list rawMessage).
Context (assign : DB -> Z -> list Z -> option (list (Z * Z))).
Context (opts : WatcherOptions).
Abbreviation calm := (tame (fun _ : err => True)).

Lemma calm_incremental a mb :
  calm (incrementalMailbox BatchSize FetchWindow sha256 derive rejects sched assign a mb).
Proof. by apply tame_incremental; [|left]. Qed.
Lemma calm_backfill a mb :
  calm (backfillMailbox BatchSize FetchWindow sha256 derive rejects sched assign a mb).
Proof. by apply tame_backfillMailbox. Qed.
Lemma calm_discover a : calm (discover (S := S) a).
Proof. by apply tame_discover. Qed.
Lemma calm_io : calm (io (S := S)).
Proof. by apply tame_io. Qed.
#[local] Hint Resolve calm_incremental calm_backfill calm_discover calm_io I : tame.

Lemma calm_forM {A} (l : list A) (f : A -> M (World S) err unit) :
  (forall a, calm (f a)) -> calm (forM_ l f).
Proof.
  intros Hf. induction l as [|x l IH]; simpl; [apply tame_ret|]. by apply tame_bind.
Qed.
Lemma calm_sweepAll a :
  calm (sweepAll BatchSize FetchWindow sha256 derive rejects sched assign a).
Proof.
  unfold sweepAll. apply tame_bind; [apply calm_discover|]. intros boxes. apply calm_forM.
  intros mb. unfold sweep_one. tame.
Qed.
Lemma calm_passOne a n :
  calm (passOne BatchSize FetchWindow sha256 derive rejects sched assign a n).
Proof. unfold passOne, GetMailboxByName, the_db. tame. Qed.
#[local] Hint Resolve calm_sweepAll calm_passOne : tame.

Lemma calm_status n : calm (StatusMailbox (S := S) n).
Proof. unfold StatusMailbox. tame. Qed.
Lemma calm_check row info : calm (check_mailbox (S := S) row info).
Proof. unfold check_mailbox, countCheck, CountMailboxMessages, the_db. tame. Qed.
#[local] Hint Resolve calm_status calm_check : tame.
Lemma calm_still a mb : calm (stillDiverged (S := S) a mb).
Proof. unfold stillDiverged, GetMailboxByName, the_db. tame. Qed.
Lemma calm_save a sc cp : calm (SaveCheckpoint (S := S) a sc cp).
Proof. unfold SaveCheckpoint, upsert_log, now. tame. Qed.
Lemma calm_load a id : calm (loadEscalation (S := S) a id).
Proof. unfold loadEscalation, GetCheckpoint, the_db. tame. Qed.
Lemma calm_now : calm (now (S := S)).
Proof. apply tame_gets. Qed.
#[local] Hint Resolve calm_still calm_save calm_load calm_now : tame.
Lemma calm_allowed a mb : calm (escalationAllowed (S := S) a mb).
Proof. unfold escalationAllowed. tame. Qed.
Lemma calm_fromTop a mb :
  calm (backfillFromTop BatchSize FetchWindow sha256 derive rejects sched assign a mb).
Proof.
  unfold backfillFromTop, GetMailboxByName, loadMailboxCheckpoint, GetCheckpoint,
    saveMailboxCheckpoint, the_db. tame.
Qed.
Lemma calm_list a : calm (ListMailboxes (S := S) a).
Proof. unfold ListMailboxes, the_db. tame. Qed.
#[local] Hint Resolve calm_allowed calm_fromTop calm_list : tame.

Lemma forward_saveEscalation a id st : forward (S := S) (saveEscalation a id st).
Proof. unfold saveEscalation. forward. Qed.
#[local] Hint Resolve forward_saveEscalation : forward.
Lemma forward_clear a id : forward (S := S) (clearEscalation a id).
Proof. unfold clearEscalation, hasEscalation. forward. Qed.
#[local] Hint Resolve forward_clear : forward.
Lemma forward_repairFailed a mb r b : forward (S := S) (repairFailed a mb r b).
Proof. unfold repairFailed. forward. Qed.
Lemma forward_repairSucceeded a mb : forward (S := S) (repairSucceeded a mb).
Proof. unfold repairSucceeded. forward. Qed.
#[local] Hint Resolve forward_repairFailed forward_repairSucceeded : forward.
Lemma forward_verdict a mb b k n : (forall r, forward (k r)) -> forward (S := S) (verdict a mb b k n).
Proof. intros Hk. unfold verdict. forward. Qed.
#[local] Hint Resolve forward_verdict : forward.
Lemma forward_repair a mb n :
  forward (repairMailbox BatchSize FetchWindow sha256 derive rejects sched assign a mb n).
Proof.
  unfold repairMailbox. apply forward_bind; [by eapply forward_lift, tame_try, calm_incremental|].
  intros [e|res]; [forward|].
  apply forward_verdict. intros r. unfold escalate. forward.
Qed.
#[local] Hint Resolve forward_repair : forward.
Lemma forward_boxes a stored infos rb :
  forward (reconcile_boxes BatchSize FetchWindow sha256 derive rejects sched assign a stored infos rb).
Proof.
  revert rb. induction infos as [|i infos IH]; intros rb; simpl; [forward|].
  apply forward_bind; [|done]. unfold reconcile_one. destruct rb. forward.
Qed.
#[local] Hint Resolve forward_boxes : forward.
Lemma forward_Reconcile a :
  forward (Reconcile BatchSize FetchWindow sha256 derive rejects sched assign a).
Proof. unfold Reconcile. forward. Qed.
#[local] Hint Resolve forward_Reconcile : forward.

Lemma forward_dispatch a ins d t :
  forward (dispatch BatchSize FetchWindow sha256 derive rejects sched assign opts a ins d t).
Proof.
  revert d t. induction ins as [|[dt i] ins IH]; intros d t; simpl; [forward|].
  unfold heartbeatProbe, pass_due. forward.
Qed.
#[local] Hint Resolve forward_dispatch : forward.

Lemma forward_runOnce a c :
  forward (runOnce BatchSize FetchWindow sha256 derive rejects sched assign opts a c).
Proof. unfold runOnce, RecordSyncSuccess, upsert_log. forward. Qed.
End clock.

(** ** Sessions end with a value *)

Definition total {S A} (m : M (WState S) err A) : Prop := forall s, exists r, (m s).2 = inr r.

Section total.
Context {S : Type}.

Lemma total_ret {A} (a : A) : total (S := S) (mret a).
Proof. intros s. by exists a. Qed.
Lemma total_attempt {A} (m : M (WState S) err A) : total (attempt m).
Proof. intros s. unfold attempt. destruct (m s). eauto. Qed.
Lemma total_now : total (S := S) (lift now).
Proof. intros s. eauto. Qed.
Lemma total_tick d : total (S := S) (tick d).
Proof. intros s. eauto. Qed.
Lemma total_bind {A B} (m : M (WState S) err A) (k : A -> M (WState S) err B) :
  total m -> (forall a, total (k a)) -> total (m ≫= k).
Proof.
  intros Hm Hk s. unfold mbind, M_bind. destruct (Hm s) as [a Ha].
  destruct (m s) as [s' r]. simpl in Ha. subst r. apply Hk.
Qed.
Lemma total_or_end {A} (m : M (WState S) err A) k :
  (forall a, total (k a)) -> total (or_end m k).
Proof.
  intros Hk. apply total_bind; [apply total_attempt|]. intros [e|a]; [apply total_ret|done].
Qed.
End total.

Create HintDb total discriminated.
#[export] Hint Resolve total_ret total_attempt total_now total_tick : total.
Ltac total :=
  repeat first
    [ solve [eauto with total]
    | match goal with |- forall _, _ => intro end
    | apply total_or_end
    | apply total_bind
    | match goal with |- total (match ?x with _ => _ end) => destruct x end ].

Section runs.
Context {S : Type} `{ImapServer S}.
Context (BatchSize : nat) (FetchWindow : Z).
Context (sha256 : string -> string) (derive : string -> Message).
Context (rejects : NewMessage -> bool).
Context (sched : list rawMessage -> list rawMessage).
Context (assign : DB -> Z -> list Z -> option (list (Z * Z))).
Context (opts : WatcherOptions).

Lemma total_dispatch a ins d t :
  total (dispatch BatchSize FetchWindow sha256 derive rejects sched assign opts a ins d t).
Proof. revert d t. induction ins as [|[dt i] ins IH]; intros d t; simpl; total. Qed.
Lemma total_runOnce a c :
  total (runOnce BatchSize FetchWindow sha256 derive rejects sched assign opts a c).
Proof. pose proof total_dispatch. unfold runOnce. total. Qed.
End runs.

(** ** Pacing *)

Definition attempts (tr : list wevent) : list (Time * bool) :=
  omap (fun e => match e with Attempt t h => Some (t, h) | _ => None end) tr.

(** After [thr] attempts in a row that never became healthy, the next one comes
    [cd] after the first of them at the earliest. *)
Definition spaced (thr : nat) (cd : Duration) (l : list (Time * bool)) : Prop :=
  forall i t t' h,
    (forall k, (i <= k < i + thr)%nat -> exists u, l !! k = Some (u, false)) ->
    l !! i = Some (t', false) -> l !! (i + thr)%nat = Some (t, h) ->
    t' + cd <= t.

(** At most [n] unhealthy attempts at the end of [l]. *)
Definition streak_le (n : Z) (l : list (Time * bool)) : Prop :=
  forall pre suf, l = pre ++ suf -> Forall (fun a => a.2 = false) suf -> Z.of_nat (length suf) <= n.

Lemma streak_nil n : 0 <= n -> streak_le n [].
Proof. intros Hn pre suf Heq _. symmetry in Heq. apply app_nil in Heq as [_ ->]. done. Qed.

Lemma streak_snoc n l t (h : bool) n' :
  streak_le n l -> (if h then 0 else n) + 1 <= n' -> 0 <= n -> streak_le n' (l ++ [(t, h)]).
Proof.
  intros Hl Hn Hpos pre suf Heq Hall. destruct suf as [|x suf _] using rev_ind.
  - simpl. destruct h; lia.
  - rewrite app_assoc in Heq. apply app_inj_tail in Heq as [-> Hx']. subst x.
    apply Forall_app in Hall as [Hsuf Hx]. rewrite Forall_singleton in Hx. cbn in Hx.
    rewrite Hx in Hn.
    rewrite length_app. simpl. specialize (Hl pre suf eq_refl Hsuf). lia.
Qed.

Lemma streak_bounds n l i :
  streak_le n l -> (i <= length l)%nat ->
  (forall k, (i <= k < length l)%nat -> exists u, l !! k = Some (u, false)) ->
  Z.of_nat (length l - i) <= n.
Proof.
  intros Hl Hi Hall. specialize (Hl (list.take i l) (drop i l)).
  rewrite length_drop in Hl. apply Hl; [by rewrite take_drop|].
  apply Forall_lookup. intros j [u h] Hj. rewrite lookup_drop in Hj.
  destruct (Hall (i + j)%nat) as [u' Hu'].
  { apply lookup_lt_Some in Hj as Hlt. lia. }
  simpl. congruence.
Qed.

Section pacing.
Context {S : Type} (opts : WatcherOptions).
Context (thr_pos : 1 <= wo_BreakerThreshold opts).
Context (cd_pos : 0 < wo_BreakerCooldown opts <= MaxInt64).
Abbreviation thr := (Z.to_nat (wo_BreakerThreshold opts)).
Abbreviation cd := (wo_BreakerCooldown opts).
Context (session : cycle -> M (WState S) err (bool * outcome)).
Context (session_forward : forall c, forward (session c)).
Context (session_total : forall c, total (session c)).
Abbreviation clock s := (w_now (ws_world s)).
Implicit Types s : WState S.

(** Where the loop stands: the attempts before the breaker last opened are a
    cooldown away from the next one, and the failures since then are counted. *)
Definition paced (past : list (Time * bool)) (state : breakerState) (failures : Z) (now : Time)
    : Prop :=
  exists old cur, past = old ++ cur /\
    Forall (fun a => a.1 + cd <= now + remaining state now) old /\
    Forall (fun a => a.1 <= now) past /\
    0 <= failures /\ streak_le failures cur /\
    (cur = [] \/ failures < wo_BreakerThreshold opts) /\
    spaced thr cd past.

Lemma remaining_nonneg st t : 0 <= remaining st t.
Proof. unfold remaining. destruct (_ || _); [done|]. case_bool; lia. Qed.

Lemma paced_start state failures now : 0 <= failures -> paced [] state failures now.
Proof.
  intros Hf. exists [], []. do 4 (split; [done|]). split; [by apply streak_nil|].
  split; [by left|]. intros i t t' h _ Hi. done.
Qed.

Lemma spaced_snoc past state failures now t h :
  paced past state failures now -> now + remaining state now <= t ->
  spaced thr cd (past ++ [(t, h)]).
Proof.
  intros (old & cur & -> & Hold & _ & Hf & Hst & Hcur & Hsp) Ht i t1 t0 h1 Hall Hi Hlast.
  destruct (decide (i + thr < length (old ++ cur))%nat) as [Hlt|Hge].
  { rewrite lookup_app_l in Hi by lia. rewrite lookup_app_l in Hlast by lia.
    eapply Hsp; [|exact Hi|exact Hlast]. intros k Hk. destruct (Hall k Hk) as [u Hu].
    exists u. rewrite lookup_app_l in Hu by lia. done. }
  assert (i + thr = length (old ++ cur))%nat as Hlen.
  { apply lookup_lt_Some in Hlast. rewrite length_app in Hlast. simpl in Hlast. lia. }
  rewrite Hlen, lookup_app_r, Nat.sub_diag in Hlast by lia. injection Hlast as <- <-.
  assert (forall k, (i <= k < length (old ++ cur))%nat ->
    exists u, (old ++ cur) !! k = Some (u, false)) as Hrun.
  { intros k Hk. destruct (Hall k) as [u Hu]; [lia|]. exists u.
    rewrite lookup_app_l in Hu by lia. done. }
  rewrite lookup_app_l in Hi by lia.
  destruct (decide (i < length old)%nat) as [Hio|Hio].
  - rewrite lookup_app_l in Hi by done. rewrite Forall_lookup in Hold.
    specialize (Hold _ _ Hi). simpl in Hold. lia.
  - exfalso. rewrite length_app in *.
    assert (Z.of_nat (length cur - (i - length old)) <= failures).
    { apply streak_bounds; [done|lia|]. intros k Hk.
      destruct (Hrun (length old + k)%nat) as [u Hu]; [lia|]. exists u.
      rewrite lookup_app_r in Hu by lia. by replace (length old + k - length old)%nat with k in Hu by lia. }
    destruct Hcur as [-> |?]; simpl in *; lia.
Qed.

Lemma paced_fail past state failures now t h state' failures' now' :
  paced past state failures now -> now + remaining state now <= t -> t <= now' ->
  (if h : bool then 0 else failures) + 1 <= failures' -> failures' < wo_BreakerThreshold opts ->
  paced (past ++ [(t, h)]) state' failures' now'.
Proof.
  intros Hp Ht Ht' Hf' Hthr. pose proof (spaced_snoc _ _ _ _ _ h Hp Ht) as Hsp.
  destruct Hp as (old & cur & -> & Hold & Hpast & Hf & Hst & Hcur & _).
  pose proof (remaining_nonneg state now). pose proof (remaining_nonneg state' now').
  exists old, (cur ++ [(t, h)]). split; [by rewrite app_assoc|].
  split; [eapply Forall_impl; [exact Hold|]; simpl; lia|].
  split; [apply Forall_app; split; [eapply Forall_impl; [exact Hpast|]; simpl; lia|]|].
  { apply Forall_singleton. simpl. lia. }
  split; [destruct h; lia|]. split; [by eapply streak_snoc|]. auto.
Qed.

Lemma paced_open past state failures now t h now' now'' :
  paced past state failures now -> now + remaining state now <= t -> t <= now' ->
  0 < now' -> now' <= now'' ->
  paced (past ++ [(t, h)])
    {| bs_open := true; bs_until := now' + cd; bs_consecutive := 0 |} 0 now''.
Proof.
  intros Hp Ht Ht' Hpos Hle. pose proof (spaced_snoc _ _ _ _ _ h Hp Ht) as Hsp.
  destruct Hp as (old & cur & -> & Hold & Hpast & _).
  pose proof (remaining_nonneg state now).
  assert (now' + cd <= now'' + remaining {| bs_open := true; bs_until := now' + cd;
    bs_consecutive := 0 |} now'') as Hr.
  { unfold remaining, IsZero, Sub, MinInt64 in *. simpl.
    rewrite (proj2 (Z.eqb_neq _ _)) by lia. case_bool; unfold MaxInt64 in *; lia. }
  assert (Forall (fun a : Time * bool => a.1 <= now') ((old ++ cur) ++ [(t, h)])) as Hall.
  { apply Forall_app. split; [eapply Forall_impl; [exact Hpast|]; simpl; lia|].
    by apply Forall_singleton. }
  exists ((old ++ cur) ++ [(t, h)]), []. split; [by rewrite app_nil_r|].
  split; [eapply Forall_impl; [exact Hall|]; simpl; lia|].
  split; [eapply Forall_impl; [exact Hall|]; simpl; lia|].
  split; [done|]. split; [by apply streak_nil|]. auto.
Qed.

Lemma wp_attempt {A} (m : M (WState S) err A) (Q : WState S -> err + (err + A) -> Prop) s :
  wp m (fun s' r => Q s' (inr r)) s -> wp (attempt m) Q s.
Proof. unfold wp, attempt. by destruct (m s). Qed.

Lemma wp_forward {A} (m : M (WState S) err A) s :
  forward m -> wp m (fun s' _ => clock s <= clock s') s.
Proof. intros Hm. apply Hm. Qed.

Lemma session_spec c s :
  wp (session c) (fun s' r => match r with inl _ => False | inr _ => clock s <= clock s' end) s.
Proof.
  unfold wp. pose proof (session_forward c s). destruct (session_total c s) as [r Hr].
  by rewrite Hr.
Qed.

Lemma calm_breaker a sc st u : tame (fun _ => True) (SetBreakerState (S := S) a sc st u).
Proof. unfold SetBreakerState, upsert_log. tame. Qed.
Lemma calm_error a sc m : tame (fun _ => True) (RecordSyncError (S := S) a sc m).
Proof. unfold RecordSyncError, upsert_log, the_db. tame. Qed.

Lemma honour_spec a c state s :
  wp (honour a c state)
    (fun s' r => match r with
       | inl _ => False
       | inr None => True
       | inr (Some _) => clock s + remaining state (clock s) <= clock s'
       end) s.
Proof.
  unfold honour. apply wp_bind, wp_lift, wp_now. pose proof (remaining_nonneg state (clock s)).
  cbv zeta. apply wp_if; intros Hr.
  - apply wp_if; intros _; [by apply wp_ret|]. apply wp_bind, wp_modify, wp_bind, wp_attempt.
    eapply wp_mono; [apply wp_forward, forward_lift, calm_breaker|]. intros s' r Hs'.
    apply wp_ret. simpl in Hs'. lia.
  - apply wp_ret. bool_cases. simpl. lia.
Qed.

Lemma count_failure_spec a h failures s :
  wp (count_failure a h failures)
    (fun s' r => match r with
       | inl _ => False
       | inr f => clock s <= clock s' /\ (if h then 0 else failures) + 1 <= f
       end) s.
Proof.
  unfold count_failure. apply wp_bind, wp_attempt.
  eapply wp_mono; [apply wp_forward, forward_lift, calm_error|]. intros s' r Hs'. apply wp_ret.
  split; [done|]. destruct r as [e|n]; [destruct h; lia|].
  destruct (_ <? n) eqn:E; bool_cases; destruct h; lia.
Qed.

Lemma watch_loop_spaced a cycles state backoff failures past s :
  0 < clock s -> paced past state failures (clock s) ->
  wp (watch_loop opts session a cycles state backoff failures)
    (fun _ r => match r with
       | inl _ => False
       | inr tr => spaced thr cd (past ++ attempts tr)
       end) s.
Proof.
  revert state backoff failures past s.
  induction cycles as [|c cycles IH]; intros state backoff failures past s Hpos Hp; simpl.
  { apply wp_ret. simpl. rewrite app_nil_r. by destruct Hp as (? & ? & _ & _ & _ & _ & _ & _ & ?). }
  apply wp_bind. eapply wp_mono; [apply honour_spec|]. intros s1 [e|[state1|]] Hs1; [done| |].
  2: { apply wp_ret. simpl. rewrite app_nil_r. by destruct Hp as (? & ? & _ & _ & _ & _ & _ & _ & ?). }
  apply wp_bind, wp_lift, wp_now. set (t := w_now (ws_world s1)) in *.
  apply wp_bind. eapply wp_mono; [apply session_spec|].
  simpl. intros s2 [e|[h out]] Hs2; [done|]. pose proof (remaining_nonneg state (clock s)).
  destruct out as [| |e].
  1, 2: by apply wp_ret; simpl; eapply spaced_snoc.
  cbv zeta. apply wp_bind. eapply wp_mono; [apply count_failure_spec|].
  intros s3 [e3|f] Hf; [done|]. destruct Hf as [Hs3 Hf].
  apply wp_bind, wp_lift, wp_now. cbv zeta. apply wp_if; intros Hthr; bool_cases.
  - apply wp_bind, wp_attempt. eapply wp_mono; [apply wp_forward, forward_lift, calm_breaker|].
    simpl. intros s4 r4 Hs4. apply wp_bind. eapply wp_mono.
    { apply (IH _ _ _ (past ++ [(t, h)])); [lia|]. eapply paced_open; try done; lia. }
    intros s5 [e5|tr] Hsp; [done|]. apply wp_ret. simpl. by rewrite <- app_assoc in Hsp.
  - apply wp_if; intros Hw.
    { apply wp_ret. simpl. by eapply spaced_snoc. }
    apply wp_bind, wp_modify, wp_bind. eapply wp_mono.
    { apply (IH _ _ _ (past ++ [(t, h)])); simpl; [lia|].
      eapply paced_fail; try done; simpl in *; lia. }
    intros s5 [e5|tr] Hsp; [done|]. apply wp_ret. simpl. by rewrite <- app_assoc in Hsp.
Qed.

(** Nothing is attempted before the breaker allows it. *)
Lemma watch_loop_after a cycles state backoff failures s :
  wp (watch_loop opts session a cycles state backoff failures)
    (fun _ r => match r with
       | inl _ => False
       | inr tr => Forall (fun x => clock s + remaining state (clock s) <= x.1) (attempts tr)
       end) s.
Proof.
  revert state backoff failures s.
  induction cycles as [|c cycles IH]; intros state backoff failures s; simpl; [by apply wp_ret|].
  apply wp_bind. eapply wp_mono; [apply honour_spec|]. intros s1 [e|[state1|]] Hs1; [done| |].
  2: { by apply wp_ret. }
  apply wp_bind, wp_lift, wp_now. set (t := w_now (ws_world s1)) in *.
  assert (forall state' s', t <= clock s' -> forall x : Time * bool,
    clock s' + remaining state' (clock s') <= x.1 ->
    clock s + remaining state (clock s) <= x.1) as Hlater.
  { intros state' s' Ht x Hx. pose proof (remaining_nonneg state' (clock s')). lia. }
  apply wp_bind. eapply wp_mono; [apply session_spec|].
  simpl. intros s2 [e|[h out]] Hs2; [done|]. destruct out as [| |e].
  1, 2: by apply wp_ret; simpl; apply Forall_singleton.
  cbv zeta. apply wp_bind. eapply wp_mono; [apply count_failure_spec|].
  intros s3 [e3|f] Hf; [done|]. destruct Hf as [Hs3 Hf].
  apply wp_bind, wp_lift, wp_now. cbv zeta. apply wp_if; intros Hthr; bool_cases.
  - apply wp_bind, wp_attempt. eapply wp_mono; [apply wp_forward, forward_lift, calm_breaker|].
    simpl. intros s4 r4 Hs4. apply wp_bind. eapply wp_mono; [apply IH|].
    intros s5 [e5|tr] Hall; [done|]. apply wp_ret. simpl. constructor; [done|].
    eapply Forall_impl; [exact Hall|]. apply Hlater. lia.
  - apply wp_if; intros Hw.
    { apply wp_ret. simpl. by apply Forall_singleton. }
    apply wp_bind, wp_modify, wp_bind. eapply wp_mono; [apply IH|].
    intros s5 [e5|tr] Hall; [done|]. apply wp_ret. simpl. constructor; [done|].
    eapply Forall_impl; [exact Hall|]. apply Hlater. simpl. lia.
Qed.
End pacing.

(** ** Backoff *)

Lemma nextBackoff_min c m : 0 < c -> c <= m -> m <= MaxInt64 -> nextBackoff c m = Z.min (2 * c) m.
Proof.
  unfold nextBackoff, wrap64s, MaxInt64. intros Hc Hm Hx.
  destruct (decide (c * 2 <= 9223372036854775807)).
  - rewrite Z.mod_small by lia. destruct (_ || _) eqn:E; bool_cases; lia.
  - replace (c * 2 + 9223372036854775808) with
      (c * 2 - 9223372036854775808 + 1 * 18446744073709551616) by lia.
    rewrite Z.mod_add, Z.mod_small by lia. destruct (_ || _) eqn:E; bool_cases; lia.
Qed.

(** rand.Int64N's contract. *)
Definition draws (f : Z -> Z) : Prop := forall n, 0 < n -> 0 <= f n < n.

Lemma jitter_range f d : draws f -> 0 < d -> Z.quot d 2 <= jitter f d <= d.
Proof.
  intros Hf Hd. unfold jitter. rewrite (proj2 (Z.leb_gt _ _)) by done. cbv zeta.
  assert (Z.quot d 2 = d / 2) as -> by (apply Z.quot_div_nonneg; lia).
  assert (0 <= d / 2) by (apply Z.div_pos; lia). pose proof (Z.mul_div_le d 2 ltac:(lia)).
  specialize (Hf (d / 2 + 1) ltac:(lia)). lia.
Qed.

(** The retry delays of a run: each lies between half the current backoff and the
    backoff, which starts at [lo], doubles up to [hi], and starts over when a
    session was healthy or the breaker opened. *)
Fixpoint backoffs_ok (lo hi b : Duration) (tr : list wevent) : Prop :=
  match tr with
  | [] => True
  | Attempt _ h :: tr => backoffs_ok lo hi (if h then lo else b) tr
  | Opened _ _ :: tr => backoffs_ok lo hi lo tr
  | Retry _ d :: tr => Z.quot b 2 <= d <= b /\ backoffs_ok lo hi (Z.min (2 * b) hi) tr
  end.

Section backoff.
Context {S : Type} (opts : WatcherOptions).
Context (lo_pos : 0 < wo_BackoffMin opts).
Context (hi_ok : wo_BackoffMin opts <= wo_BackoffMax opts <= MaxInt64).
Context (session : cycle -> M (WState S) err (bool * outcome)).

Lemma watch_loop_backoff a cycles state backoff failures (s : WState S) :
  Forall (fun c => draws (cy_draw c)) cycles ->
  0 < backoff <= wo_BackoffMax opts ->
  wp (watch_loop opts session a cycles state backoff failures)
    (fun _ r => match r with
       | inl _ => True
       | inr tr => backoffs_ok (wo_BackoffMin opts) (wo_BackoffMax opts) backoff tr
       end) s.
Proof.
  intros Hd. revert state backoff failures s.
  induction Hd as [|c cycles Hc _ IH]; intros state backoff failures s Hb; simpl; [by apply wp_ret|].
  apply wp_bind, wp_any. intros s1 [e|[state1|]]; [done| |by apply wp_ret].
  apply wp_bind, wp_lift, wp_now, wp_bind, wp_any. intros s2 [e|[h out]]; [done|].
  destruct out as [| |e]; [by apply wp_ret|by apply wp_ret|]. cbv zeta.
  apply wp_bind, wp_any. intros s3 [e3|f]; [done|].
  apply wp_bind, wp_lift, wp_now. cbv zeta. set (b := if h then _ else _).
  assert (0 < b <= wo_BackoffMax opts) as Hb' by (subst b; destruct h; lia).
  apply wp_if; intros _.
  - apply wp_bind, wp_any. intros s4 [e4|r4]; [done|]. apply wp_bind.
    eapply wp_mono; [apply IH; lia|]. intros s5 [e5|tr] Htr; [done|]. by apply wp_ret.
  - apply wp_if; intros _; [by apply wp_ret|]. apply wp_bind, wp_modify, wp_bind.
    rewrite nextBackoff_min by lia. eapply wp_mono; [apply IH; lia|].
    intros s5 [e5|tr] Htr; [done|]. apply wp_ret. simpl. fold b. split; [|done].
    apply jitter_range; [done|lia].
Qed.
End backoff.

(** ** What the watcher guarantees *)

(** The breaker as the store holds it. *)
Definition stored_breaker (d : DB) (a : Z) : SyncCheckpoint :=
  default zero_checkpoint (sync_log d !! (a, AccountScope)).

(** The options are int64 durations. *)
Definition options_wf (o : WatcherOptions) : Prop :=
  wo_BackoffMin o <= MaxInt64 /\ wo_BackoffMax o <= MaxInt64 /\ wo_BreakerCooldown o <= MaxInt64.

Lemma withDefaults_ok o :
  options_wf o ->
  1 <= wo_BreakerThreshold (withDefaults o) /\
  0 < wo_BreakerCooldown (withDefaults o) <= MaxInt64 /\
  0 < wo_BackoffMin (withDefaults o) /\
  wo_BackoffMin (withDefaults o) <= wo_BackoffMax (withDefaults o) <= MaxInt64.
Proof.
  intros (H1 & H2 & H3). unfold withDefaults, DefaultBreakerThreshold, DefaultBreakerCooldown,
    DefaultBackoffMin, DefaultBackoffMax, Minute, Second, Millisecond, MaxInt64 in *. simpl.
  repeat case_bool; lia.
Qed.

Section watch.
Context {S : Type} `{ImapServer S}.
Context (BatchSize : nat) (FetchWindow : Z).
Context (sha256 : string -> string) (derive : string -> Message).
Context (rejects : NewMessage -> bool).
Context (sched : list rawMessage -> list rawMessage).
Context (assign : DB -> Z -> list Z -> option (list (Z * Z))).

Lemma loadBreaker_spec a (w : World S) :
  wp (loadBreaker a)
    (fun w' r => w_now w' = w_now w /\
       match r with
       | inl _ => faulty w
       | inr st => bs_consecutive st = ConsecutiveErrors (stored_breaker (w_db w) a) /\
           (cp_BreakerState (stored_breaker (w_db w) a) = BreakerOpen ->
            bs_open st = true /\ bs_until st = default 0 (BreakerUntil (stored_breaker (w_db w) a)))
       end) w.
Proof.
  unfold loadBreaker, GetCheckpoint. wp_steps. apply wp_io; [done|]. wp_steps. split; [done|].
  unfold stored_breaker. simpl. by destruct (cp_BreakerState _).
Qed.

Lemma Watch_spec opts a cycles (s : WState S) :
  options_wf opts -> 0 < w_now (ws_world s) ->
  0 <= ConsecutiveErrors (stored_breaker (w_db (ws_world s)) a) ->
  Forall (fun c => draws (cy_draw c)) cycles ->
  let o := withDefaults opts in
  wp (Watch BatchSize FetchWindow sha256 derive rejects sched assign o a cycles)
    (fun _ r => match r with
       | inl _ => False
       | inr tr =>
           spaced (Z.to_nat (wo_BreakerThreshold o)) (wo_BreakerCooldown o) (attempts tr) /\
           backoffs_ok (wo_BackoffMin o) (wo_BackoffMax o) (wo_BackoffMin o) tr
       end) s.
Proof.
  intros Hwf Hpos Hcount Hdraw o.
  destruct (withDefaults_ok opts Hwf) as (Hthr & Hcd & Hlo & Hhi). fold o in Hthr, Hcd, Hlo, Hhi.
  unfold Watch. apply wp_bind, wp_attempt, wp_lift. eapply wp_mono; [apply loadBreaker_spec|].
  intros w1 r (Hnow & Hr). cbv zeta. set (state := match r with inr st => _ | inl _ => _ end).
  assert (0 <= bs_consecutive state) as Hf.
  { subst state. destruct r as [e|st]; [done|]. destruct Hr as [-> _]. done. }
  set (s1 := {| ws_world := w1; ws_escalated := _ |}).
  pose proof (watch_loop_spaced o Hthr Hcd
    (runOnce BatchSize FetchWindow sha256 derive rejects sched assign o a)
    (forward_runOnce _ _ _ _ _ _ _ _ _) (total_runOnce _ _ _ _ _ _ _ _ _)
    a cycles state (wo_BackoffMin o) (bs_consecutive state) [] s1) as Hsp.
  pose proof (watch_loop_backoff o Hlo Hhi
    (runOnce BatchSize FetchWindow sha256 derive rejects sched assign o a)
    a cycles state (wo_BackoffMin o) (bs_consecutive state) s1 Hdraw) as Hback.
  unfold wp in *. destruct (watch_loop _ _ _ _ _ _ _ s1) as [s2 [e|tr]]; simpl in *.
  - apply Hsp; [lia|by apply paced_start].
  - split; [apply Hsp; [lia|by apply paced_start]|apply Hback; lia].
Qed.

Lemma Watch_open_spec o a cycles (s : WState S) u :
  ~ faulty (ws_world s) ->
  cp_BreakerState (stored_breaker (w_db (ws_world s)) a) = BreakerOpen ->
  BreakerUntil (stored_breaker (w_db (ws_world s)) a) = Some u ->
  u <> 0 -> u - w_now (ws_world s) <= MaxInt64 ->
  wp (Watch BatchSize FetchWindow sha256 derive rejects sched assign o a cycles)
    (fun _ r => match r with
       | inl _ => False
       | inr tr => Forall (fun x => u <= x.1) (attempts tr)
       end) s.
Proof.
  intros Hflt Hopen Huntil Hu Hmax.
  unfold Watch. apply wp_bind, wp_attempt, wp_lift. eapply wp_mono; [apply loadBreaker_spec|].
  intros w1 [e|st] (Hnow & Hr); [done|]. cbv zeta. destruct Hr as [_ Hr].
  destruct (Hr Hopen) as [Ho Hun]. rewrite Huntil in Hun. simpl in Hun.
  eapply wp_mono.
  { apply watch_loop_after; [apply forward_runOnce|apply total_runOnce]. }
  intros s2 [e|tr] Hall; [done|]. eapply Forall_impl; [exact Hall|]. simpl. intros x Hx.
  assert (u <= w_now w1 + remaining st (w_now w1)); [|lia].
  unfold remaining, IsZero, Sub, MinInt64, MaxInt64 in *. rewrite Ho, Hun. simpl.
  rewrite (proj2 (Z.eqb_neq _ _)) by done. case_bool; lia.
Qed.
End watch.


(** A restart does not reset the breaker. A watcher started while the store
    says the breaker is open makes no connection before its deadline, however the
    run goes on. *)
Theorem restart_honours_breaker {S} `{ImapServer S} (BatchSize : nat) (FetchWindow : Z)
    (sha256 : string -> string) (derive : string -> Message) (rejects : NewMessage -> bool)
    (sched : list rawMessage -> list rawMessage)
    (assign : DB -> Z -> list Z -> option (list (Z * Z)))
    (o : WatcherOptions) (a : Z) (cycles : list cycle) (s : WState S) (u : Time) :
  ~ faulty (ws_world s) ->
  cp_BreakerState (stored_breaker (w_db (ws_world s)) a) = BreakerOpen ->
  BreakerUntil (stored_breaker (w_db (ws_world s)) a) = Some u ->
  u <> 0 -> u - w_now (ws_world s) <= MaxInt64 ->
  exists tr,
    (Watch BatchSize FetchWindow sha256 derive rejects sched assign o a cycles s).2 = inr tr /\
    Forall (fun x => u <= x.1) (attempts tr).
Proof.
  intros Hf Ho Hu Hz Hm. pose proof (Watch_open_spec BatchSize FetchWindow sha256 derive rejects
    sched assign o a cycles s u Hf Ho Hu Hz Hm) as Hs. unfold wp in Hs.
  destruct (Watch _ _ _ _ _ _ _ _ _ _ _).2 as [e|tr]; [done|]. by exists tr.
Qed.

(** *** A sample watcher *)

(** Defaults, and a server that grants no connection. *)
Definition sample_options : WatcherOptions :=
  {| wo_Debounce := 0; wo_MaxDebounce := 0; wo_ReconcileInterval := 0; wo_BackoffMin := 0;
     wo_BackoffMax := 0; wo_BreakerThreshold := 0; wo_BreakerCooldown := 0;
     wo_IdleHeartbeat := 0 |}.
Definition refused : cycle :=
  {| cy_timeout := false; cy_clients := 0; cy_inputs := []; cy_draw := fun _ => 0; cy_slack := 0; cy_waits := true |}.

Lemma draws_zero : draws (fun _ => 0).
Proof. intros n Hn. lia. Qed.


Definition open_world : World MemServer :=
  {| w_db := set_sync_log (fun _ => {[(1, AccountScope) :=
       {| Checkpoint := JObj []; StateCounter := 1; LastSuccessAt := None; LastError := None;
          ConsecutiveErrors := 5; cp_BreakerState := BreakerOpen;
          BreakerUntil := Some (1000 + Minute) |}]}) (w_db idle_world);
     w_srv := idle_server; w_now := 1000; w_faults := [] |}.

Lemma restart_honours_breaker_witness :
  exists tr,
    (Watch 10 2 (fun s => s) (fun _ => no_mail) (fun _ => false) (fun l => l) (fun _ _ _ => None)
       (withDefaults sample_options) 1 [refused] (fresh_watcher open_world)).2 = inr tr /\
    Forall (fun x => 1000 + Minute <= x.1) (attempts tr).
Proof.
  apply restart_honours_breaker.
  - intros [e []%elem_of_nil].
  - vm_compute. reflexivity.
  - vm_compute. reflexivity.
  - vm_compute. congruence.
  - vm_compute. congruence.
Defined.

(** A dial that times out ends the watcher for good: no breaker, no backoff, no further
    attempt, although the server grants every later connection. *)
Definition unanswered : cycle :=
  {| cy_timeout := true; cy_clients := 0; cy_inputs := []; cy_draw := fun _ => 0; cy_slack := 0; cy_waits := true |}.
Example dial_timeout_ends_watch cycles :
  exists tr,
    (Watch 10 2 (fun s => s) (fun _ => no_mail) (fun _ => false) (fun l => l) (fun _ _ _ => None)
       (withDefaults sample_options) 1 (unanswered :: cycles) (fresh_watcher idle_world)).2 = inr tr /\
    attempts tr = [(1000, false)].
Proof. eexists. split; vm_compute; reflexivity. Qed.
