(* ===== verification/Supervisor.v ===== *)
(** The supervisor (src/internal/sync/supervisor.go): which accounts are synced,
    when the initial sync is skipped, and the goroutines it runs: one that adopts
    accounts and one per account, sharing a semaphore of Concurrency slots.

    The goroutines are a transition system. The main goroutine ([Run]) is the list
    of accounts it still has to hand to [start]; an account's goroutine
    ([superviseAccount]) is its phase and whether it still holds the slot that
    [sync.Once] gives back. A goroutine that is over stays in the set [supervised], as
    in the code, and is told apart by its phase. *)

From S2P Require Import Prelude Convert Utf8 Store Imap Checkpoint Discover Pipeline Initial.
From S2P Require Import InitialSafety InitialRun Incremental Tame Reconciler.
#[local] Open Scope Z_scope.

Inductive AccountState := AccountActive | AccountPaused | AccountDisabled.
Inductive CredentialState :=
| CredentialPending | CredentialActive | CredentialInvalid | CredentialRevoked.

#[global] Instance AccountState_eq_dec : EqDecision AccountState.
Proof. solve_decision. Defined.
#[global] Instance CredentialState_eq_dec : EqDecision CredentialState.
Proof. solve_decision. Defined.

(** The columns of an account the supervisor reads. *)
Record Account := mkAccount {
  acct_ID : Z;
  acct_State : AccountState;
  acct_CredentialState : CredentialState
}.

(** [eligibleAccounts], on the rows ListAccounts returned. *)
Definition eligibleAccounts (all : list Account) : list Account :=
  filter (fun a => acct_State a = AccountActive /\ acct_CredentialState a = CredentialActive) all.

(** ** One account's initial sync *)

Section sync_once.
Context {S : Type} `{ImapServer S}.
Context (BatchSize : nat) (FetchWindow RecentWindow : Z).
Context (sha256 : string -> string) (derive : string -> Message).
Context (rejects : NewMessage -> bool).
Context (sched : list rawMessage -> list rawMessage).
Context (assign : DB -> Z -> list Z -> option (list (Z * Z))).
Abbreviation MM := (M (World S) err).

(** [alreadyComplete]. *)
Definition alreadyComplete (accountID : Z) : MM bool :=
  phase ← loadAccountPhase accountID;
  match phase with
  | PhaseComplete =>
      boxes ← ListMailboxes accountID;
      mret (negb (bool_decide (boxes = [])) &&
            forallb (fun b => negb (mb_Selectable b) ||
                              bool_decide (mb_BackfillState b = BackfillComplete)) boxes)
  | _ => mret false
  end.

(** [syncOnce]. *)
Definition syncOnce (accountID : Z) : MM unit :=
  done ← alreadyComplete accountID;
  if done : bool then mret tt
  else
    io ;;
    Run BatchSize FetchWindow RecentWindow sha256 derive rejects sched assign accountID ;;
    mret tt.
End sync_once.

(** ** The goroutines *)

(** Where an account's goroutine is. *)
Inductive aphase :=
| Syncing                (* in syncOnce *)
| Retrying               (* waiting out RetryDelay *)
| Watching               (* in runWatcher *)
| Finished.              (* it has returned *)

#[global] Instance aphase_eq_dec : EqDecision aphase.
Proof. solve_decision. Defined.

Record goroutine := mkGoroutine { g_phase : aphase; g_holds : bool }.

Record Supervisor := mkSupervisor {
  sv_todo : list Z;                      (* the sweep [Run] is going through *)
  sv_goroutines : gmap Z goroutine;      (* keyed by account: [supervised] *)
  sv_sem : nat;                          (* tokens in the semaphore *)
  sv_notify : bool;                      (* the nudge channel's one slot *)
  sv_done : bool;                        (* ctx has ended *)
  sv_starts : list Z                     (* every goroutine ever launched *)
}.

(** [supervised]. *)
Definition supervised (sv : Supervisor) : gset Z := dom (sv_goroutines sv).
Definition phase_of (a : Z) (sv : Supervisor) : option aphase := g_phase <$> sv_goroutines sv !! a.

Definition holders (sv : Supervisor) : gmap Z goroutine :=
  filter (fun kg => g_holds kg.2 = true) (sv_goroutines sv).

Definition set_goroutine (a : Z) (g : goroutine) (tokens : nat) (sv : Supervisor) : Supervisor :=
  {| sv_todo := sv_todo sv; sv_goroutines := <[a := g]> (sv_goroutines sv); sv_sem := tokens;
     sv_notify := sv_notify sv; sv_done := sv_done sv; sv_starts := sv_starts sv |}.
Definition set_todo (l : list Z) (notify : bool) (sv : Supervisor) : Supervisor :=
  {| sv_todo := l; sv_goroutines := sv_goroutines sv; sv_sem := sv_sem sv; sv_notify := notify;
     sv_done := sv_done sv; sv_starts := sv_starts sv |}.

(** [release]: the slot is given back once. *)
Definition released (g : goroutine) (tokens : nat) : nat :=
  if g_holds g then Nat.pred tokens else tokens.

(** What the goroutines do. *)
Inductive svlabel :=
| SvStart                                          (* [start] of the next account of the sweep *)
| SvAbandon                                        (* it saw the context end while it waited *)
| SvSweep (accounts : list Account) (nudged : bool) (* on the ticker or on a nudge *)
| SvNudge                                          (* [Nudge] *)
| SvSynced (a : Z)                                 (* syncOnce returned nil *)
| SvFailed (a : Z)                                 (* it failed *)
| SvExpired (a : Z)                                (* its error is Canceled or DeadlineExceeded *)
| SvRetry (a : Z)                                  (* RetryDelay passed *)
| SvWatched (a : Z)                                (* the watcher stopped by itself *)
| SvCancel                                         (* the context ends *)
| SvUnwind (a : Z).                                (* a goroutine sees that it has ended *)

#[global] Instance Account_eq_dec : EqDecision Account.
Proof. solve_decision. Defined.
#[global] Instance svlabel_eq_dec : EqDecision svlabel.
Proof. solve_decision. Defined.

Section steps.
Context (Concurrency : nat).

(** The goroutine of [a], in phase [from], goes on to [to] and gives its slot back. *)
Definition leave (a : Z) (from to : aphase) (sv : Supervisor) : option Supervisor :=
  g ← sv_goroutines sv !! a;
  if decide (g_phase g = from)
  then Some (set_goroutine a {| g_phase := to; g_holds := false |} (released g (sv_sem sv)) sv)
  else None.

(** A sweep reads the eligible accounts of then; one that fails is an empty list. *)
Definition sv_exec (l : svlabel) (sv : Supervisor) : option Supervisor :=
  match l with
  | SvStart =>
      match sv_todo sv with
      | [] => None
      | a :: todo =>
          if decide (a ∈ supervised sv) then Some (set_todo todo (sv_notify sv) sv)
          else if (sv_sem sv <? Concurrency)%nat then
            Some {| sv_todo := todo;
                    sv_goroutines := <[a := {| g_phase := Syncing; g_holds := true |}]> (sv_goroutines sv);
                    sv_sem := Datatypes.S (sv_sem sv); sv_notify := sv_notify sv; sv_done := sv_done sv;
                    sv_starts := sv_starts sv ++ [a] |}
          else None
      end
  | SvAbandon => if sv_done sv then Some (set_todo [] (sv_notify sv) sv) else None
  | SvSweep accounts nudged =>
      if decide (sv_todo sv = []) then
        if sv_done sv then None
        else Some (set_todo (acct_ID <$> eligibleAccounts accounts)
                     (if nudged then false else sv_notify sv) sv)
      else None
  | SvNudge => Some (set_todo (sv_todo sv) true sv)
  | SvSynced a => leave a Syncing Watching sv
  | SvFailed a => leave a Syncing Retrying sv
  | SvExpired a => leave a Syncing Finished sv
  | SvRetry a =>
      g ← sv_goroutines sv !! a;
      if decide (g_phase g = Retrying)
      then Some (set_goroutine a {| g_phase := Syncing; g_holds := g_holds g |} (sv_sem sv) sv)
      else None
  | SvWatched a => leave a Watching Finished sv
  | SvCancel =>
      Some {| sv_todo := sv_todo sv; sv_goroutines := sv_goroutines sv; sv_sem := sv_sem sv;
              sv_notify := sv_notify sv; sv_done := true; sv_starts := sv_starts sv |}
  | SvUnwind a =>
      if sv_done sv then g ← sv_goroutines sv !! a; leave a (g_phase g) Finished sv else None
  end.

Definition svstep (sv sv' : Supervisor) : Prop := exists l, sv_exec l sv = Some sv'.

Definition sv_init (accounts : list Account) : Supervisor :=
  {| sv_todo := acct_ID <$> eligibleAccounts accounts; sv_goroutines := ∅; sv_sem := 0%nat;
     sv_notify := false; sv_done := false; sv_starts := [] |}.

Definition sv_reach (sv : Supervisor) : Prop := exists accounts, rtc svstep (sv_init accounts) sv.

(** ** Invariant *)

(** The semaphore counts the goroutines that hold a slot; only one that is in its
    first initial sync does; and an account is launched once. *)
Record sv_inv (sv : Supervisor) : Prop := {
  inv_sem : sv_sem sv = size (holders sv);
  inv_bound : (sv_sem sv <= Concurrency)%nat;
  inv_holds a g : sv_goroutines sv !! a = Some g -> g_holds g = true -> g_phase g = Syncing;
  inv_nodup : NoDup (sv_starts sv);
  inv_starts a : a ∈ sv_starts sv <-> a ∈ supervised sv
}.

Lemma holders_released sv a g p tokens :
  sv_goroutines sv !! a = Some g ->
  size (holders (set_goroutine a {| g_phase := p; g_holds := false |} tokens sv)) =
  released g (size (holders sv)).
Proof.
  intros Hg. unfold holders, set_goroutine, released. simpl.
  rewrite map_filter_insert_False by done. rewrite map_filter_delete, map_size_delete.
  destruct (g_holds g) eqn:Hh.
  - by rewrite (map_lookup_filter_Some_2 _ _ _ _ Hg Hh).
  - rewrite map_lookup_filter_None_2; [done|]. right. intros g' Hg'. simpl. congruence.
Qed.

(** A goroutine that gives its slot back, or has none. *)
Lemma inv_release sv a g p :
  sv_inv sv -> sv_goroutines sv !! a = Some g ->
  sv_inv (set_goroutine a {| g_phase := p; g_holds := false |} (released g (sv_sem sv)) sv).
Proof.
  intros [Hsem Hb Hh Hnd Hst] Hg. split; simpl.
  - rewrite (holders_released sv a g) by done. by rewrite Hsem.
  - unfold released. destruct (g_holds g); lia.
  - intros b g'. rewrite lookup_insert_Some. intros [[<- <-]|[_ ?]]; [done|eauto].
  - done.
  - intros b. rewrite Hst. unfold supervised. simpl. rewrite dom_insert.
    apply elem_of_dom_2 in Hg. set_solver.
Qed.

Lemma inv_start sv a todo :
  sv_inv sv -> a ∉ supervised sv -> (sv_sem sv < Concurrency)%nat ->
  sv_inv {| sv_todo := todo;
    sv_goroutines := <[a := {| g_phase := Syncing; g_holds := true |}]> (sv_goroutines sv);
    sv_sem := Datatypes.S (sv_sem sv); sv_notify := sv_notify sv; sv_done := sv_done sv;
    sv_starts := sv_starts sv ++ [a] |}.
Proof.
  intros [Hsem Hb Hh Hnd Hst] Ha Hfree.
  assert (sv_goroutines sv !! a = None) as Hnone by (by apply not_elem_of_dom).
  split; unfold holders, supervised; simpl.
  - rewrite map_filter_insert_True by done. rewrite map_size_insert_None; [by rewrite Hsem|].
    apply map_lookup_filter_None_2. by left.
  - lia.
  - intros b g'. rewrite lookup_insert_Some. intros [[<- <-]|[_ ?]]; [done|eauto].
  - apply NoDup_app. split; [done|]. split; [|apply NoDup_singleton].
    intros b Hb' ->%list_elem_of_singleton. by apply Ha, Hst.
  - intros b. rewrite elem_of_app, list_elem_of_singleton, Hst, dom_insert. unfold supervised.
    set_solver.
Qed.

Lemma leave_Some a from to sv sv' : leave a from to sv = Some sv' ->
  exists g, sv_goroutines sv !! a = Some g /\ g_phase g = from /\
    sv' = set_goroutine a {| g_phase := to; g_holds := false |} (released g (sv_sem sv)) sv.
Proof.
  unfold leave. destruct (sv_goroutines sv !! a) as [g|]; simpl; [|done].
  destruct (decide _); [|done]. intros [= <-]. by exists g.
Qed.
Lemma leave_inv a from to sv sv' : sv_inv sv -> leave a from to sv = Some sv' -> sv_inv sv'.
Proof. intros Hi (g & Hg & _ & ->)%leave_Some. by apply inv_release. Qed.

Lemma inv_exec l sv sv' : sv_inv sv -> sv_exec l sv = Some sv' -> sv_inv sv'.
Proof.
  intros Hinv He. destruct l; simpl in He; try (by eapply leave_inv);
    try (injection He as <-; by destruct Hinv).
  - destruct (sv_todo sv) as [|a todo]; [done|]. case_decide.
    + injection He as <-. by destruct Hinv.
    + destruct (Nat.ltb_spec (sv_sem sv) Concurrency); [|done]. injection He as <-. by apply inv_start.
  - destruct (sv_done sv); [|done]. injection He as <-. by destruct Hinv.
  - case_decide; [|done]. destruct (sv_done sv); [done|]. injection He as <-. by destruct Hinv.
  - destruct (sv_goroutines sv !! a) as [[p h]|] eqn:Hg; simpl in He; [|done].
    case_decide as Hp; [|done]. injection He as <-. subst p.
    assert (h = false) as ->.
    { destruct h; [|done]. by discriminate (inv_holds _ Hinv _ _ Hg eq_refl). }
    by apply (inv_release sv a {| g_phase := Retrying; g_holds := false |}).
  - destruct (sv_done sv); [|done]. destruct (sv_goroutines sv !! a); simpl in He; [|done]. by eapply leave_inv.
Qed.

Lemma inv_init accounts : sv_inv (sv_init accounts).
Proof.
  split; unfold holders, supervised; simpl.
  - by rewrite map_filter_empty, map_size_empty.
  - lia.
  - intros a g. by rewrite lookup_empty.
  - constructor.
  - intros a. rewrite dom_empty. set_solver.
Qed.
Lemma reach_inv sv : sv_reach sv -> sv_inv sv.
Proof.
  intros [accounts Hr]. pose proof (inv_init accounts) as Hinit. revert Hinit.
  induction Hr as [|x y z [l Hl]]; eauto using inv_exec.
Qed.

(** A full semaphore is held by initial syncs only. *)
Lemma full_syncing sv :
  (0 < Concurrency)%nat -> sv_inv sv -> ~ (sv_sem sv < Concurrency)%nat ->
  exists b g, sv_goroutines sv !! b = Some g /\ g_phase g = Syncing /\ g_holds g = true.
Proof.
  intros Hc Hinv Hfull. destruct (map_choose (holders sv)) as (b & g & Hbg).
  { intros He. assert (sv_sem sv = 0)%nat; [|lia].
    by rewrite (inv_sem _ Hinv), He, map_size_empty. }
  apply map_lookup_filter_Some in Hbg as [Hb Hg]. exists b, g. split; [done|].
  split; [by eapply inv_holds|done].
Qed.

(** ** Progress *)

(** The main goroutine can go on. *)
Definition startable (sv : Supervisor) : Prop :=
  exists a todo, sv_todo sv = a :: todo /\ (a ∈ supervised sv \/ (sv_sem sv < Concurrency)%nat).

(** What ends a syncOnce. *)
Definition ends_sync (a : Z) (l : svlabel) : Prop := l = SvSynced a \/ l = SvFailed a \/ l = SvExpired a.
Definition concerns (a : Z) (l : svlabel) : Prop := ends_sync a l \/ l = SvRetry a \/ l = SvWatched a \/ l = SvUnwind a.
#[global] Instance ends_sync_dec a l : Decision (ends_sync a l) := ltac:(unfold ends_sync; apply _).
#[global] Instance concerns_dec a l : Decision (concerns a l) := ltac:(unfold concerns; apply _).

(** An endless run under a fair scheduler while the context is alive: [None] is a moment in
    which nothing happens. The goroutine of [Run] goes on when it can, its ticker keeps
    ticking, and every initial sync and every wait for a retry ends. *)
Record fair_run (x : nat -> Supervisor) (l : nat -> option svlabel) : Prop := {
  fr_start : sv_reach (x 0%nat);
  fr_step n : match l n with Some lb => sv_exec lb (x n) = Some (x (S n)) | None => x (S n) = x n end;
  fr_alive n : sv_done (x n) = false;
  fr_main n : startable (x n) -> exists m, (n <= m)%nat /\ l m = Some SvStart;
  fr_sweep n : sv_todo (x n) = [] -> exists m accounts nudged, (n <= m)%nat /\ l m = Some (SvSweep accounts nudged);
  fr_sync n a : phase_of a (x n) = Some Syncing -> exists m lb, (n <= m)%nat /\ l m = Some lb /\ ends_sync a lb;
  fr_retry n a : phase_of a (x n) = Some Retrying -> exists m, (n <= m)%nat /\ l m = Some (SvRetry a)
}.

Lemma first_after (P : nat -> Prop) `{!forall n, Decision (P n)} n m :
  (n <= m)%nat -> P m -> exists k, (n <= k)%nat /\ P k /\ forall i, (n <= i < k)%nat -> ~ P i.
Proof.
  intros Hle. replace m with (n + (m - n))%nat by lia. generalize (m - n)%nat. clear m Hle.
  intros d. revert n. induction d as [|d IH]; intros n Hp.
  - exists n. rewrite Nat.add_0_r in Hp. split; [lia|]. split; [done|lia].
  - destruct (decide (P n)) as [Hn|Hn]; [exists n; split; [lia|]; split; [done|lia]|].
    destruct (IH (S n)) as (k & Hk & HPk & Hno); [by rewrite Nat.add_succ_comm|].
    exists k. split; [lia|]. split; [done|]. intros i Hi HPi. destruct (decide (i = n)) as [->|]; [done|].
    by apply (Hno i); [lia|].
Qed.

Section run.
Context (Hpos : (0 < Concurrency)%nat) (x : nat -> Supervisor) (l : nat -> option svlabel) (fair : fair_run x l).

Lemma run_inv n : sv_inv (x n).
Proof.
  induction n as [|n IH]; [apply reach_inv, fair|]. pose proof (fr_step _ _ fair n) as Hs.
  destruct (l n) as [lb|]; [by eapply inv_exec|by rewrite Hs].
Qed.

(** An account's goroutine is changed by its own steps only. *)
Lemma goroutine_step n a g : sv_goroutines (x n) !! a = Some g -> ~ (exists lb, l n = Some lb /\ concerns a lb) ->
  sv_goroutines (x (S n)) !! a = Some g.
Proof.
  intros Hg Hno. pose proof (fr_step _ _ fair n) as Hs. pose proof (fr_alive _ _ fair n) as Hd.
  destruct (l n) as [lb|]; [|by rewrite Hs]. assert (~ concerns a lb) as Hc by (intros ?; apply Hno; by exists lb).
  assert (forall b from to, a <> b -> leave b from to (x n) = Some (x (S n)) -> sv_goroutines (x (S n)) !! a = Some g) as Hleave.
  { intros b from to Hne (g' & _ & _ & ->)%leave_Some. simpl. by rewrite lookup_insert_ne. }
  unfold concerns, ends_sync in Hc. destruct lb; simpl in Hs; rewrite ?Hd in Hs;
    try (eapply Hleave; [|exact Hs]; intros ->; tauto); try (injection Hs as <-; done); try done.
  - destruct (sv_todo (x n)) as [|b todo]; [done|]. case_decide as Hin; [by injection Hs as <-|].
    destruct (_ <? _)%nat; [|done]. injection Hs as <-. simpl. rewrite lookup_insert_ne; [done|].
    intros ->. apply Hin. by eapply elem_of_dom_2.
  - case_decide; [|done]. by injection Hs as <-.
  - destruct (sv_goroutines (x n) !! a0) as [g'|]; simpl in Hs; [|done]. case_decide; [|done]. injection Hs as <-. simpl.
    rewrite lookup_insert_ne; [done|]. intros ->. tauto.
Qed.
Lemma goroutine_until n m a g : (n <= m)%nat -> sv_goroutines (x n) !! a = Some g ->
  (forall i, (n <= i < m)%nat -> ~ exists lb, l i = Some lb /\ concerns a lb) -> sv_goroutines (x m) !! a = Some g.
Proof.
  intros Hle Hg. induction Hle as [|m Hle IH]; intros Hno; [done|].
  apply goroutine_step; [apply IH; intros i Hi; apply Hno; lia|apply Hno; lia].
Qed.
#[local] Instance concerned_dec a n : Decision (exists lb, l n = Some lb /\ concerns a lb).
Proof.
  destruct (l n) as [lb|] eqn:El; [|right; by intros (? & ? & _)].
  destruct (decide (concerns a lb)); [left; by exists lb|right; intros (? & [= <-] & ?); done].
Defined.

(** The next step of a goroutine, which it takes from where it is now. *)
Lemma next_of n m a g lb : (n <= m)%nat -> sv_goroutines (x n) !! a = Some g -> l m = Some lb -> concerns a lb ->
  exists k lb, (n <= k)%nat /\ l k = Some lb /\ concerns a lb /\ sv_goroutines (x k) !! a = Some g /\
    forall i, (n <= i <= k)%nat -> sv_goroutines (x i) !! a = Some g.
Proof.
  intros Hle Hg Hl Hc.
  destruct (first_after (fun n => exists lb, l n = Some lb /\ concerns a lb) n m Hle) as (k & Hk & (lb' & Hl' & Hc') & Hno); [by exists lb|].
  assert (forall i, (n <= i <= k)%nat -> sv_goroutines (x i) !! a = Some g) as Hall.
  { intros i Hi. apply (goroutine_until n); [lia|done|]. intros j Hj. apply Hno. lia. }
  exists k, lb'. split; [done|]. split; [done|]. split; [done|]. split; [apply Hall; lia|done].
Qed.

Lemma supervised_step n : supervised (x n) ⊆ supervised (x (S n)).
Proof.
  pose proof (fr_step _ _ fair n) as Hs. destruct (l n) as [lb|]; [|by rewrite Hs].
  assert (forall b from to, leave b from to (x n) = Some (x (S n)) -> supervised (x n) ⊆ supervised (x (S n))) as Hleave.
  { intros b from to (g' & _ & _ & ->)%leave_Some. unfold supervised. simpl. rewrite dom_insert. set_solver. }
  destruct lb; simpl in Hs; try (by eapply Hleave); try (injection Hs as <-; done).
  - destruct (sv_todo (x n)) as [|b todo]; [done|]. case_decide; [by injection Hs as <-|].
    destruct (_ <? _)%nat; [|done]. injection Hs as <-. unfold supervised. simpl. rewrite dom_insert. set_solver.
  - destruct (sv_done (x n)); [|done]. by injection Hs as <-.
  - case_decide; [|done]. destruct (sv_done (x n)); [done|]. by injection Hs as <-.
  - destruct (sv_goroutines (x n) !! a) as [g'|]; simpl in Hs; [|done]. case_decide; [|done]. injection Hs as <-.
    unfold supervised. simpl. rewrite dom_insert. set_solver.
  - rewrite (fr_alive _ _ fair n) in Hs. done.
Qed.
Lemma supervised_mono n m : (n <= m)%nat -> supervised (x n) ⊆ supervised (x m).
Proof. intros Hle. induction Hle as [|m _ IH]; [done|]. etrans; [exact IH|apply supervised_step]. Qed.

(** The head of a sweep stays until it is started. *)
Lemma todo_step n c rest : sv_todo (x n) = c :: rest ->
  if decide (l n = Some SvStart) then sv_todo (x (S n)) = rest /\ c ∈ supervised (x (S n))
  else sv_todo (x (S n)) = c :: rest.
Proof.
  intros Ht. pose proof (fr_step _ _ fair n) as Hs. pose proof (fr_alive _ _ fair n) as Hd.
  assert (forall b from to, leave b from to (x n) = Some (x (S n)) -> sv_todo (x (S n)) = c :: rest) as Hleave.
  { by intros b from to (g' & _ & _ & ->)%leave_Some. }
  destruct (l n) as [lb|]; [|rewrite decide_False by done; by rewrite Hs].
  destruct lb; simpl in Hs; rewrite ?Hd, ?Ht in Hs; try (rewrite decide_False by done); try done;
    try (by eapply Hleave); try (by injection Hs as <-).
  - rewrite decide_True by done. case_decide as Hin; [by injection Hs as <-|]. destruct (_ <? _)%nat; [|done].
    injection Hs as <-. split; [done|]. unfold supervised. simpl. rewrite dom_insert. set_solver.
  - destruct (sv_goroutines (x n) !! a) as [g'|]; simpl in Hs; [|done]. case_decide; [|done]. by injection Hs as <-.
Qed.
Lemma todo_until n m c rest : (n <= m)%nat -> sv_todo (x n) = c :: rest ->
  (forall i, (n <= i < m)%nat -> l i <> Some SvStart) -> sv_todo (x m) = c :: rest.
Proof.
  intros Hle Ht. induction Hle as [|m Hle IH]; intros Hno; [done|].
  pose proof (todo_step m c rest) as Hs. rewrite decide_False in Hs by (apply Hno; lia).
  apply Hs, IH. intros i Hi. apply Hno. lia.
Qed.
Definition consumed (n : nat) (c : Z) (rest : list Z) : Prop :=
  exists m, (n <= m)%nat /\ sv_todo (x m) = rest /\ c ∈ supervised (x m).
Lemma consume_by n m c rest : (n <= m)%nat -> sv_todo (x n) = c :: rest -> l m = Some SvStart -> consumed n c rest.
Proof.
  intros Hle Ht Hl. destruct (first_after (fun n => l n = Some SvStart) n m Hle Hl) as (k & Hk & Hlk & Hno).
  pose proof (todo_step k c rest (todo_until n k c rest Hk Ht Hno)) as Hs. rewrite decide_True in Hs by done.
  exists (S k). split; [lia|done].
Qed.
Lemma consume_startable n c rest : sv_todo (x n) = c :: rest -> startable (x n) -> consumed n c rest.
Proof. intros Ht Hs. destruct (fr_main _ _ fair n Hs) as (m & Hle & Hl). by eapply consume_by. Qed.

(** A slot that is awaited becomes free: a full semaphore is held by initial syncs. *)
Lemma consume n c rest : sv_todo (x n) = c :: rest -> consumed n c rest.
Proof.
  intros Ht. destruct (decide (sv_sem (x n) < Concurrency)%nat) as [Hlt|Hfull].
  { apply consume_startable; [done|]. exists c, rest. auto. }
  destruct (full_syncing (x n) Hpos (run_inv n) Hfull) as (b & g & Hb & Hp & Hh).
  destruct (fr_sync _ _ fair n b) as (m & lb & Hle & Hl & He); [unfold phase_of; by rewrite Hb; simpl; rewrite Hp|].
  destruct (next_of n m b g lb Hle Hb Hl (or_introl He)) as (k & lb' & Hk & Hlk & Hc & Hbk & _).
  destruct (decide (Exists (fun i => l i = Some SvStart) (seq n (S k - n)))) as [(i & Hi & Hli)%Exists_exists|Hno].
  { apply elem_of_seq in Hi. apply (consume_by n i); [lia|done|done]. }
  assert (sv_todo (x (S k)) = c :: rest) as Hts.
  { apply (todo_until n); [lia|done|]. intros i Hi Hli. apply Hno, Exists_exists. exists i. split; [apply elem_of_seq; lia|done]. }
  assert (sv_sem (x (S k)) < Concurrency)%nat as Hfree.
  { pose proof (fr_step _ _ fair k) as Hs. rewrite Hlk in Hs. pose proof (inv_bound _ (run_inv k)).
    assert (forall to, leave b Syncing to (x k) = Some (x (S k)) -> (sv_sem (x (S k)) < Concurrency)%nat) as Hleave.
    { intros to (g' & Hg' & _ & ->)%leave_Some. simpl. unfold released. rewrite Hbk in Hg'. injection Hg' as <-. rewrite Hh. lia. }
    destruct Hc as [[->|[->| ->]]|[->|[->| ->]]]; simpl in Hs; try (by eapply Hleave); exfalso.
    - rewrite Hbk in Hs. simpl in Hs. rewrite decide_False in Hs by congruence. done.
    - apply leave_Some in Hs as (g' & Hg' & Hp' & _). congruence.
    - by rewrite (fr_alive _ _ fair k) in Hs. }
  destruct (consume_startable (S k) c rest Hts) as (m' & Hm & ?); [exists c, rest; auto|]. exists m'. split; [lia|done].
Qed.
Lemma consume_all n todo : sv_todo (x n) = todo ->
  exists m, (n <= m)%nat /\ sv_todo (x m) = [] /\ forall c, c ∈ todo -> c ∈ supervised (x m).
Proof.
  revert n. induction todo as [|c todo IH]; intros n Ht; [exists n; split; [lia|]; split; [done|]; by intros c Hc%not_elem_of_nil|].
  destruct (consume n c todo Ht) as (m & Hm & Htm & Hc). destruct (IH m Htm) as (m' & Hm' & Ht' & Hall).
  exists m'. split; [lia|]. split; [done|]. intros d [->|Hd]%elem_of_cons; [by apply (supervised_mono m)|by apply Hall].
Qed.

Context (a : Z) (n0 : nat).
Context (eligible : forall n accounts nudged, (n0 <= n)%nat -> l n = Some (SvSweep accounts nudged) -> a ∈ (acct_ID <$> eligibleAccounts accounts)).

(** An account every sweep lists gets its goroutine. *)
Lemma adopted : exists m, (n0 <= m)%nat /\ a ∈ supervised (x m).
Proof.
  destruct (consume_all n0 _ eq_refl) as (n1 & Hn1 & Ht1 & _).
  destruct (fr_sweep _ _ fair n1 Ht1) as (n2 & accounts & nudged & Hn2 & Hl2).
  pose proof (fr_step _ _ fair n2) as Hs. rewrite Hl2 in Hs. simpl in Hs. case_decide; [|done].
  rewrite (fr_alive _ _ fair n2) in Hs. injection Hs as Hs.
  destruct (consume_all (S n2) _ eq_refl) as (n3 & Hn3 & _ & Hall). exists n3. split; [lia|]. apply Hall.
  rewrite <- Hs. simpl. eapply eligible; [|exact Hl2]. lia.
Qed.

Context (alive : phase_of a (x 0%nat) <> Some Finished).
Context (unbroken : forall n, l n <> Some (SvExpired a) /\ l n <> Some (SvWatched a)).

Lemma phase_step n g : sv_goroutines (x n) !! a = Some g -> forall lb, l n = Some lb -> concerns a lb ->
  (g_phase g = Syncing /\ lb = SvSynced a /\ phase_of a (x (S n)) = Some Watching) \/
  (g_phase g = Syncing /\ lb = SvFailed a /\ phase_of a (x (S n)) = Some Retrying) \/
  (g_phase g = Retrying /\ lb = SvRetry a /\ phase_of a (x (S n)) = Some Syncing).
Proof.
  intros Hg lb Hl Hc. destruct (unbroken n) as [He Hw]. pose proof (fr_step _ _ fair n) as Hs. rewrite Hl in *.
  assert (forall to, leave a Syncing to (x n) = Some (x (S n)) -> g_phase g = Syncing /\ phase_of a (x (S n)) = Some to) as Hleave.
  { intros to (g' & Hg' & Hp & ->)%leave_Some. rewrite Hg in Hg'. injection Hg' as <-. split; [done|].
    unfold phase_of. simpl. by rewrite lookup_insert_eq. }
  destruct Hc as [[->|[->| ->]]|[->|[->| ->]]]; simpl in Hs; try done.
  - left. by destruct (Hleave _ Hs).
  - right. left. by destruct (Hleave _ Hs).
  - right. right. rewrite Hg in Hs. simpl in Hs. case_decide; [|done]. injection Hs as <-. split; [done|]. split; [done|].
    unfold phase_of. simpl. by rewrite lookup_insert_eq.
  - by rewrite (fr_alive _ _ fair n) in Hs.
Qed.

(** It stays at work. *)
Lemma never_finished n : phase_of a (x n) <> Some Finished.
Proof.
  induction n as [|n IH]; [done|]. destruct (sv_goroutines (x n) !! a) as [g|] eqn:Hg.
  - destruct (concerned_dec a n) as [(lb & Hl & Hc)|Hno].
    + by destruct (phase_step n g Hg lb Hl Hc) as [(_ & _ & ->)|[(_ & _ & ->)|(_ & _ & ->)]].
    + unfold phase_of in *. rewrite (goroutine_step n a g Hg Hno). by rewrite Hg in IH.
  - pose proof (fr_step _ _ fair n) as Hs. destruct (l n) as [lb|]; [|by rewrite Hs].
    assert (forall b from to, leave b from to (x n) = Some (x (S n)) -> phase_of a (x (S n)) <> Some Finished) as Hleave.
    { intros b from to (g' & Hg' & _ & ->)%leave_Some. unfold phase_of. simpl. rewrite lookup_insert_ne by congruence. by rewrite Hg. }
    unfold phase_of in *. destruct lb; simpl in Hs; try (by eapply Hleave); try (by injection Hs as <-; simpl).
    + destruct (sv_todo (x n)) as [|b todo]; [done|]. case_decide; [injection Hs as <-; by simpl|].
      destruct (_ <? _)%nat; [|done]. injection Hs as <-. simpl. destruct (decide (b = a)) as [->|]; [by rewrite lookup_insert_eq|].
      by rewrite lookup_insert_ne, Hg.
    + destruct (sv_done (x n)); [|done]. by injection Hs as <-.
    + case_decide; [|done]. destruct (sv_done (x n)); [done|]. by injection Hs as <-.
    + destruct (sv_goroutines (x n) !! a0) as [g'|] eqn:Hg'; simpl in Hs; [|done]. case_decide; [|done]. injection Hs as <-. simpl.
      rewrite lookup_insert_ne by congruence. by rewrite Hg.
    + by rewrite (fr_alive _ _ fair n) in Hs.
Qed.

Context (n1 : nat) (succeeds : forall n, (n1 <= n)%nat -> l n <> Some (SvFailed a)).

Lemma watching_stays n m : (n <= m)%nat -> phase_of a (x n) = Some Watching -> phase_of a (x m) = Some Watching.
Proof.
  intros Hle Hp. induction Hle as [|m _ IH]; [done|]. unfold phase_of in *.
  destruct (sv_goroutines (x m) !! a) as [g|] eqn:Hg; simpl in IH; [|done]. injection IH as IH.
  rewrite (goroutine_step m a g Hg); [simpl; by rewrite IH|]. intros (lb & Hl & Hc).
  by destruct (phase_step m g Hg lb Hl Hc) as [(E & _)|[(E & _)|(E & _)]]; rewrite IH in E.
Qed.
Lemma syncing_watches n : (n1 <= n)%nat -> phase_of a (x n) = Some Syncing -> exists m, (n <= m)%nat /\ phase_of a (x m) = Some Watching.
Proof.
  intros Hn Hp. destruct (fr_sync _ _ fair n a Hp) as (m & lb & Hm & Hl & He). unfold phase_of in Hp.
  destruct (sv_goroutines (x n) !! a) as [g|] eqn:Hg; simpl in Hp; [|done]. injection Hp as Hp.
  destruct (next_of n m a g lb Hm Hg Hl (or_introl He)) as (k & lb' & Hk & Hlk & Hc & Hgk & _).
  destruct (phase_step k g Hgk lb' Hlk Hc) as [(_ & _ & E)|[(_ & -> & _)|(E & _)]]; [exists (S k); split; [lia|done]| |congruence].
  exfalso. apply (succeeds k); [lia|done].
Qed.
Lemma watches : exists m, forall n, (m <= n)%nat -> phase_of a (x n) = Some Watching.
Proof.
  assert (exists m, phase_of a (x m) = Some Watching) as [m Hm]; [|exists m; intros n Hn; by eapply watching_stays].
  destruct adopted as (m0 & _ & Ha). pose proof (supervised_mono m0 (Nat.max m0 n1) ltac:(lia)) as Hs.
  set (m := Nat.max m0 n1) in *. assert (n1 <= m)%nat as Hm by lia. specialize (Hs _ Ha).
  pose proof (never_finished m) as Hnf. unfold supervised in Hs. apply elem_of_dom in Hs as [g Hg].
  destruct (g_phase g) eqn:Hp.
  - destruct (syncing_watches m Hm) as (k & _ & ?); [unfold phase_of; by rewrite Hg; simpl; rewrite Hp|by exists k].
  - destruct (fr_retry _ _ fair m a) as (m' & Hm' & Hl); [unfold phase_of; by rewrite Hg; simpl; rewrite Hp|].
    destruct (next_of m m' a g (SvRetry a) Hm' Hg Hl (or_intror (or_introl eq_refl))) as (k & lb' & Hk & Hlk & Hc & Hgk & _).
    destruct (phase_step k g Hgk lb' Hlk Hc) as [(E & _)|[(E & _)|(_ & _ & E)]]; [congruence|congruence|].
    destruct (syncing_watches (S k)) as (j & _ & ?); [lia|done|by exists j].
  - exists m. unfold phase_of. by rewrite Hg; simpl; rewrite Hp.
  - exfalso. apply Hnf. unfold phase_of. by rewrite Hg; simpl; rewrite Hp.
Qed.
End run.
End steps.

(** C35: Supervision is exclusive and bounded. In every reachable state no account
    has been given two goroutines, the semaphore counts exactly the goroutines that
    hold a slot and never exceeds Concurrency, and only a goroutine in an initial
    sync holds one: a watcher or an account waiting to retry never does. *)
Theorem supervisor_exclusive (Concurrency : nat) (sv : Supervisor) :
  sv_reach Concurrency sv ->
  NoDup (sv_starts sv) /\ (forall a, a ∈ sv_starts sv <-> a ∈ supervised sv) /\
  sv_sem sv = size (holders sv) /\ (sv_sem sv <= Concurrency)%nat /\
  (forall a g, sv_goroutines sv !! a = Some g -> g_holds g = true -> g_phase g = Syncing).
Proof. intros Hr. by destruct (reach_inv _ _ Hr). Qed.

(** C34: No account is stranded by the others. In every fair endless run while the context is
    alive (the goroutine of [Run] goes on when it can, the ticker keeps ticking, every syncOnce
    and every wait for a retry ends) an account that every sweep from some moment on lists as
    eligible is given its goroutine, however many watchers are running. If, besides, its own
    goroutine has not returned before, no error of its initial sync is Canceled or
    DeadlineExceeded and its watcher never stops by itself, then it is at work at every moment,
    and once its initial sync stops failing it comes to watch and watches ever after. *)
Theorem supervisor_adopts_all (Concurrency : nat) (x : nat -> Supervisor) (l : nat -> option svlabel) (a : Z) (n0 : nat) :
  (0 < Concurrency)%nat -> fair_run Concurrency x l ->
  (forall n accounts nudged, (n0 <= n)%nat -> l n = Some (SvSweep accounts nudged) ->
     a ∈ (acct_ID <$> eligibleAccounts accounts)) ->
  (exists m, forall n, (m <= n)%nat -> a ∈ supervised (x n)) /\
  (phase_of a (x 0%nat) <> Some Finished ->
   (forall n, l n <> Some (SvExpired a) /\ l n <> Some (SvWatched a)) ->
   (forall n, phase_of a (x n) <> Some Finished) /\
   (forall n1, (forall n, (n1 <= n)%nat -> l n <> Some (SvFailed a)) ->
      exists m, forall n, (m <= n)%nat -> phase_of a (x n) = Some Watching)).
Proof.
  intros Hc Hf He. split.
  - destruct (adopted Concurrency Hc x l Hf a n0 He) as (m & _ & Hm). exists m. intros n Hn.
    by eapply supervised_mono.
  - intros Ha Hu. split; [by eapply never_finished|]. intros n1 Hs. by eapply watches.
Qed.

(** A goroutine that is over is over for good, and its account is skipped by every sweep: a
    deadline of its own (a dial that timed out, say) ends the service of an account until the
    process restarts. *)
Theorem finished_is_final (Concurrency : nat) (sv sv' : Supervisor) (a : Z) :
  phase_of a sv = Some Finished -> rtc (svstep Concurrency) sv sv' -> phase_of a sv' = Some Finished.
Proof.
  intros Hf Hr. induction Hr as [|s s1 s2 [lb He] _ IH]; [done|]. apply IH. clear IH s2. unfold phase_of in *.
  destruct (sv_goroutines s !! a) as [g|] eqn:Hg; simpl in Hf; [|done]. injection Hf as Hf.
  assert (forall b from to, (from = Finished -> to = Finished) -> leave b from to s = Some s1 -> g_phase <$> sv_goroutines s1 !! a = Some Finished) as Hleave.
  { intros b from to Hto (g' & Hg' & Hp & ->)%leave_Some. simpl. destruct (decide (b = a)) as [->|].
    - rewrite lookup_insert_eq. simpl. rewrite Hto; [done|congruence].
    - rewrite lookup_insert_ne by done. rewrite Hg. simpl. by rewrite Hf. }
  assert (forall s1, sv_goroutines s1 = sv_goroutines s -> g_phase <$> sv_goroutines s1 !! a = Some Finished) as Hsame.
  { intros s' ->. rewrite Hg. simpl. by rewrite Hf. }
  destruct lb; simpl in He; try (by eapply Hleave; [|exact He]); try (injection He as <-; by apply Hsame).
  - destruct (sv_todo s) as [|b todo]; [done|]. case_decide as Hin; [injection He as <-; by apply Hsame|].
    destruct (_ <? _)%nat; [|done]. injection He as <-. simpl. rewrite lookup_insert_ne; [rewrite Hg; simpl; by rewrite Hf|].
    intros ->. apply Hin. by eapply elem_of_dom_2.
  - destruct (sv_done s); [|done]. injection He as <-. by apply Hsame.
  - case_decide; [|done]. destruct (sv_done s); [done|]. injection He as <-. by apply Hsame.
  - destruct (sv_goroutines s !! a0) as [g'|] eqn:Hg'; simpl in He; [|done]. case_decide; [|done]. injection He as <-. simpl.
    rewrite lookup_insert_ne by congruence. rewrite Hg. simpl. by rewrite Hf.
  - destruct (sv_done s); [|done]. destruct (sv_goroutines s !! a0); simpl in He; [|done]. by eapply Hleave; [|exact He].
Qed.

(** *** Two accounts, one slot *)

Definition two_accounts : list Account :=
  [{| acct_ID := 1; acct_State := AccountActive; acct_CredentialState := CredentialActive |};
   {| acct_ID := 2; acct_State := AccountActive; acct_CredentialState := CredentialActive |}].

(** The first account is being synced, the second waits for its slot. *)
Definition blocked : Supervisor :=
  {| sv_todo := [2]; sv_goroutines := <[1 := {| g_phase := Syncing; g_holds := true |}]> ∅;
     sv_sem := 1; sv_notify := false; sv_done := false; sv_starts := [1] |}.

Lemma blocked_reach : sv_reach 1 blocked.
Proof. exists two_accounts. apply rtc_once. exists SvStart. vm_compute. reflexivity. Qed.

Lemma supervisor_exclusive_witness :
  NoDup (sv_starts blocked) /\ sv_sem blocked = size (holders blocked).
Proof.
  destruct (supervisor_exclusive 1 blocked blocked_reach) as (Hnd & _ & Hs & _).
  exact (conj Hnd Hs).
Defined.

(** The first account fails, gives its slot to the second and comes back; then sweeps find
    nothing new. *)
Definition sample_labels : list svlabel :=
  [SvStart; SvFailed 1; SvStart; SvSynced 2; SvRetry 1; SvSynced 1; SvSweep two_accounts false; SvStart; SvStart].
Definition state_after (n : nat) : Supervisor :=
  default (sv_init []) (foldl (fun s l => s ≫= sv_exec 1 l) (Some (sv_init two_accounts)) (take n sample_labels)).
(** Six steps, and then three for ever. *)
Fixpoint in_cycle {A} (f : nat -> A) (n : nat) : A :=
  match n with O => f 6%nat | 1%nat => f 7%nat | 2%nat => f 8%nat | S (S (S n)) => in_cycle f n end.
Definition unrolled {A} (f : nat -> A) (n : nat) : A :=
  match n with
  | O => f 0%nat | 1%nat => f 1%nat | 2%nat => f 2%nat | 3%nat => f 3%nat | 4%nat => f 4%nat | 5%nat => f 5%nat
  | S (S (S (S (S (S n))))) => in_cycle f n
  end.
Definition sample (n : nat) : option svlabel * Supervisor := unrolled (fun k => (sample_labels !! k, state_after k)) n.

Lemma in_cycle_index {A} (f : nat -> A) n k : in_cycle f (3 * n + k) = in_cycle f k.
Proof. induction n as [|n IH]; [done|]. replace (3 * S n + k)%nat with (S (S (S (3 * n + k)))) by lia. apply IH. Qed.
Lemma in_cycle_cases {A} (f : nat -> A) n :
  (in_cycle f n = f 6%nat /\ in_cycle f (S n) = f 7%nat) \/ (in_cycle f n = f 7%nat /\ in_cycle f (S n) = f 8%nat) \/
  (in_cycle f n = f 8%nat /\ in_cycle f (S n) = f 6%nat).
Proof.
  assert (n = 3 * (n / 3) + n mod 3)%nat as E by (apply Nat.div_mod_eq). pose proof (Nat.mod_upper_bound n 3 ltac:(lia)) as Hb.
  rewrite E, <- Nat.add_succ_r, !in_cycle_index. clear E. destruct (n mod 3)%nat as [|[|[|k]]]; [auto..|lia].
Qed.
Definition phases (sv : Supervisor) : list (Z * aphase) := prod_map id g_phase <$> map_to_list (sv_goroutines sv).
Lemma phase_listed a sv p : phase_of a sv = Some p -> (a, p) ∈ phases sv.
Proof.
  unfold phase_of, phases. destruct (sv_goroutines sv !! a) as [g|] eqn:Hg; simpl; [|done]. intros [= <-].
  apply list_elem_of_fmap. exists (a, g). split; [done|]. by apply elem_of_map_to_list.
Qed.
Ltac listed H := apply phase_listed in H; vm_compute in H; repeat (apply elem_of_cons in H as [H|H]; [try discriminate H; injection H as ->|]);
  try (by apply not_elem_of_nil in H).
Lemma no_phase n a p : p <> Watching -> phase_of a (sample (6 + n)).2 = Some p -> False.
Proof.
  intros Hp. change (sample (6 + n)) with (in_cycle (fun k => (sample_labels !! k, state_after k)) n).
  destruct (in_cycle_cases (fun k => (sample_labels !! k, state_after k)) n) as [[-> _]|[[-> _]|[-> _]]]; intros H; destruct p; listed H; done.
Qed.
Lemma sample_step n : match (sample n).1 with Some lb => sv_exec 1 lb (sample n).2 = Some (sample (S n)).2 | None => (sample (S n)).2 = (sample n).2 end.
Proof.
  destruct n as [|[|[|[|[|[|n]]]]]]; [vm_compute; reflexivity..|].
  change (sample (S (S (S (S (S (S n))))))) with (in_cycle (fun k => (sample_labels !! k, state_after k)) n).
  change (sample (S (S (S (S (S (S (S n)))))))) with (in_cycle (fun k => (sample_labels !! k, state_after k)) (S n)).
  destruct (in_cycle_cases (fun k => (sample_labels !! k, state_after k)) n) as [[-> ->]|[[-> ->]|[-> ->]]]; vm_compute; reflexivity.
Qed.
Lemma sample_recurs n k : (k < 3)%nat -> exists m, (n <= m)%nat /\ (sample m).1 = sample_labels !! (6 + k)%nat.
Proof.
  intros Hk. exists (6 + (3 * n + k))%nat. split; [lia|].
  change (sample (6 + (3 * n + k))) with (in_cycle (fun k => (sample_labels !! k, state_after k)) (3 * n + k)).
  rewrite in_cycle_index. destruct k as [|[|[|k]]]; [done..|lia].
Qed.
Lemma sample_alive n : sv_done (sample n).2 = false.
Proof.
  destruct n as [|[|[|[|[|[|n]]]]]]; [vm_compute; reflexivity..|].
  change (sample (S (S (S (S (S (S n))))))) with (in_cycle (fun k => (sample_labels !! k, state_after k)) n).
  destruct (in_cycle_cases (fun k => (sample_labels !! k, state_after k)) n) as [[-> _]|[[-> _]|[-> _]]]; vm_compute; reflexivity.
Qed.
Lemma sample_fair : fair_run 1 (fun n => (sample n).2) (fun n => (sample n).1).
Proof.
  split.
  - exists two_accounts. apply rtc_refl.
  - exact sample_step.
  - exact sample_alive.
  - intros n _. destruct (sample_recurs n 1) as (m & Hm & Hl); [lia|]. by exists m.
  - intros n _. destruct (sample_recurs n 0) as (m & Hm & Hl); [lia|]. by exists m, two_accounts, false.
  - intros n a H. destruct n as [|[|[|[|[|[|n]]]]]].
    + listed H.
    + listed H. exists 1%nat, (SvFailed 1). split; [lia|]. split; [done|]. right. by left.
    + listed H.
    + listed H. exists 3%nat, (SvSynced 2). split; [lia|]. split; [done|]. by left.
    + listed H.
    + listed H. exists 5%nat, (SvSynced 1). split; [lia|]. split; [done|]. by left.
    + by apply no_phase in H.
  - intros n a H. destruct n as [|[|[|[|[|[|n]]]]]].
    + listed H.
    + listed H.
    + listed H. exists 4%nat. split; [lia|done].
    + listed H. exists 4%nat. split; [lia|done].
    + listed H. exists 4%nat. split; [lia|done].
    + listed H.
    + by apply no_phase in H.
Qed.
Lemma sample_labelled n lb : (sample n).1 = Some lb -> lb ∈ sample_labels.
Proof.
  destruct n as [|[|[|[|[|[|n]]]]]]; [intros [= <-]; apply (bool_decide_unpack _); vm_compute; exact I..|].
  change (sample (S (S (S (S (S (S n))))))) with (in_cycle (fun k => (sample_labels !! k, state_after k)) n).
  destruct (in_cycle_cases (fun k => (sample_labels !! k, state_after k)) n) as [[-> _]|[[-> _]|[-> _]]];
    intros [= <-]; apply (bool_decide_unpack _); vm_compute; exact I.
Qed.

Lemma supervisor_adopts_all_witness :
  (exists m, forall n, (m <= n)%nat -> 1 ∈ supervised (sample n).2) /\
  exists m, forall n, (m <= n)%nat -> phase_of 1 (sample n).2 = Some Watching.
Proof.
  destruct (supervisor_adopts_all 1 (fun n => (sample n).2) (fun n => (sample n).1) 1 0) as [Hs Hw].
  - lia.
  - exact sample_fair.
  - intros n accounts nudged _ Hl. apply sample_labelled in Hl. vm_compute in Hl.
    repeat (apply elem_of_cons in Hl as [Hl|Hl]; [try discriminate Hl; injection Hl as -> ->|]); [|by apply not_elem_of_nil in Hl].
    apply (bool_decide_unpack _). vm_compute. exact I.
  - split; [exact Hs|]. destruct Hw as [_ Hw].
    + vm_compute. discriminate.
    + intros n. split; intros Hl; apply sample_labelled, (bool_decide_pack _) in Hl; vm_compute in Hl; exact Hl.
    + apply (Hw 6%nat). intros n Hn Hl. destruct n as [|[|[|[|[|[|n]]]]]]; [lia..|].
      change (sample (S (S (S (S (S (S n))))))) with (in_cycle (fun k => (sample_labels !! k, state_after k)) n) in Hl.
      destruct (in_cycle_cases (fun k => (sample_labels !! k, state_after k)) n) as [[E _]|[[E _]|[E _]]]; rewrite E in Hl; discriminate Hl.
Defined.

(** The watcher of the first account ends with a deadline, and no sweep brings it back. *)
Definition replayed (sv : Supervisor) (ls : list svlabel) : option Supervisor := foldl (fun s l => s ≫= sv_exec 1 l) (Some sv) ls.
Lemma replayed_rtc sv ls sv' : replayed sv ls = Some sv' -> rtc (svstep 1) sv sv'.
Proof.
  revert sv. induction ls as [|l ls IH]; intros sv; [intros [= ->]; apply rtc_refl|]. unfold replayed. simpl.
  destruct (sv_exec 1 l sv) as [s1|] eqn:E; [|intros H; exfalso; clear -H; by induction ls].
  intros H. eapply rtc_l; [by exists l|]. by apply IH.
Qed.
Definition cut_short : Supervisor := default (sv_init []) (replayed (sv_init two_accounts) [SvStart; SvSynced 1; SvWatched 1]).
Definition much_later : Supervisor :=
  default (sv_init []) (replayed cut_short [SvStart; SvSynced 2; SvSweep two_accounts true; SvStart; SvStart]).
Lemma finished_is_final_witness : phase_of 1 much_later = Some Finished.
Proof.
  apply (finished_is_final 1 cut_short much_later 1); [vm_compute; reflexivity|].
  apply (replayed_rtc cut_short [SvStart; SvSynced 2; SvSweep two_accounts true; SvStart; SvStart]). vm_compute. reflexivity.
Defined.
