(* ===== verification/Text.v ===== *)
(** Go strings as byte strings: the functions of package strings and strconv that the
    JMAP layer uses, with the lemmas its encodings rest on. *)

From S2P Require Import Prelude.
From Stdlib Require Import Ascii String.
#[local] Open Scope Z_scope.

(** ** Package strings *)

Fixpoint HasPrefix (s p : string) {struct p} : bool :=
  match p, s with
  | EmptyString, _ => true
  | String a p, String b s => Ascii.eqb a b && HasPrefix s p
  | _, _ => false
  end.

(** [strings.CutPrefix]: the rest after the prefix, if it is there. *)
Fixpoint CutPrefix (s p : string) {struct p} : option string :=
  match p, s with
  | EmptyString, _ => Some s
  | String a p, String b s => if Ascii.eqb a b then CutPrefix s p else None
  | _, _ => None
  end.

(** [strings.Split] at a one-byte separator. *)
Fixpoint Split (sep : ascii) (s : string) : list string :=
  match s with
  | EmptyString => [EmptyString]
  | String c s =>
      if Ascii.eqb c sep then EmptyString :: Split sep s
      else match Split sep s with
           | h :: t => String c h :: t
           | [] => [String c EmptyString]
           end
  end.

(** [strings.Join] with a one-byte separator. *)
Fixpoint Join (sep : ascii) (l : list string) : string :=
  match l with
  | [] => EmptyString
  | [x] => x
  | x :: l => (x ++ String sep (Join sep l))%string
  end.

(** [strings.Cut] at a one-byte separator. *)
Fixpoint Cut (sep : ascii) (s : string) : option (string * string) :=
  match s with
  | EmptyString => None
  | String c s =>
      if Ascii.eqb c sep then Some (EmptyString, s)
      else match Cut sep s with
           | Some (a, b) => Some (String c a, b)
           | None => None
           end
  end.

(** [strings.ReplaceAll] of a two-byte pattern by one byte. *)
Fixpoint replace2 (a b c : ascii) (s : string) : string :=
  match s with
  | String x (String y r as s') =>
      if Ascii.eqb x a && Ascii.eqb y b then String c (replace2 a b c r)
      else String x (replace2 a b c s')
  | _ => s
  end.

Fixpoint chars_in (P : ascii -> bool) (s : string) : bool :=
  match s with
  | EmptyString => true
  | String c s => P c && chars_in P s
  end.

Lemma HasPrefix_Cut s p : HasPrefix s p = if CutPrefix s p then true else false.
Proof.
  revert s. induction p as [|a p IH]; intros [|b s]; cbn [HasPrefix CutPrefix]; try done.
  destruct (Ascii.eqb a b); simpl; [apply IH|done].
Qed.

Lemma CutPrefix_Some s p r : CutPrefix s p = Some r <-> s = (p ++ r)%string.
Proof.
  revert s. induction p as [|a p IH]; intros s; cbn [CutPrefix].
  { change ((EmptyString ++ r)%string) with r. split; congruence. }
  change ((String a p ++ r)%string) with (String a (p ++ r)).
  destruct s as [|b s]; [split; congruence|].
  destruct (Ascii.eqb_spec a b) as [->|Hne]; [rewrite IH|]; split; congruence.
Qed.

Lemma Split_nonempty sep s : Split sep s <> [].
Proof. destruct s as [|c s]; simpl; [done|]. case_match; [done|]. by case_match. Qed.

Lemma Split_plain sep s :
  chars_in (fun c => negb (Ascii.eqb c sep)) s = true -> Split sep s = [s].
Proof.
  induction s as [|c s IH]; simpl; [done|]. intros [Hc Hs]%andb_prop.
  apply negb_true_iff in Hc. rewrite Hc. by rewrite (IH Hs).
Qed.

Lemma Split_app sep x s :
  chars_in (fun c => negb (Ascii.eqb c sep)) x = true ->
  Split sep (x ++ String sep s) = x :: Split sep s.
Proof.
  induction x as [|c x IH]; simpl; [by rewrite Ascii.eqb_refl|]. intros [Hc Hx]%andb_prop.
  apply negb_true_iff in Hc. rewrite Hc. by rewrite (IH Hx).
Qed.

(** Splitting undoes joining when no part has the separator. *)
Lemma Split_Join sep l :
  l <> [] -> Forall (fun x => chars_in (fun c => negb (Ascii.eqb c sep)) x = true) l ->
  Split sep (Join sep l) = l.
Proof.
  intros Hne Hall. induction l as [|x l IH]; [done|]. apply Forall_cons in Hall as [Hx Hl].
  destruct l as [|y l]; [by apply Split_plain|].
  change (Join sep (x :: y :: l)) with (x ++ String sep (Join sep (y :: l)))%string.
  rewrite Split_app by done. f_equal. by apply IH.
Qed.

Lemma Cut_app sep a b :
  chars_in (fun c => negb (Ascii.eqb c sep)) a = true ->
  Cut sep (a ++ String sep b) = Some (a, b).
Proof.
  induction a as [|c a IH]; simpl; [by rewrite Ascii.eqb_refl|]. intros [Hc Ha]%andb_prop.
  apply negb_true_iff in Hc. by rewrite Hc, (IH Ha).
Qed.

(** ** Package strconv *)

Definition digit_value (c : ascii) : option Z :=
  let n := Z.of_nat (nat_of_ascii c) in
  if (48 <=? n) && (n <=? 57) then Some (n - 48)
  else if (97 <=? n) && (n <=? 122) then Some (n - 97 + 10)
  else if (65 <=? n) && (n <=? 90) then Some (n - 65 + 10)
  else None.

Definition digit_char (d : Z) : ascii :=
  ascii_of_nat (Z.to_nat (if d <? 10 then d + 48 else d - 10 + 97)).

(** The digits of [s] in the given base, added to [acc]. *)
Fixpoint parse_digits (base acc : Z) (s : string) : option Z :=
  match s with
  | EmptyString => Some acc
  | String c s =>
      match digit_value c with
      | Some d => if d <? base then parse_digits base (acc * base + d) s else None
      | None => None
      end
  end.

(** [strconv.ParseInt(s, base, 64)], for a base up to 36 given explicitly: a sign, at
    least one digit, the value within int64. *)
Definition ParseInt (base : Z) (s : string) : option Z :=
  let '(neg, rest) :=
    match s with
    | String c r => if Ascii.eqb c "+" then (false, r)
                    else if Ascii.eqb c "-" then (true, r) else (false, s)
    | EmptyString => (false, s)
    end in
  match rest with
  | EmptyString => None
  | _ => v ← parse_digits base 0 rest;
         let v := if neg : bool then - v else v in
         if (MinInt64 <=? v) && (v <=? MaxInt64) then Some v else None
  end.

(** [strconv.FormatInt] of a positive number: its digits, most significant first. The
    fuel is a bound on their number. *)
Fixpoint format_digits (fuel : nat) (base v : Z) (acc : string) : string :=
  match fuel with
  | O => acc
  | S fuel =>
      let acc := String (digit_char (v mod base)) acc in
      if v / base =? 0 then acc else format_digits fuel base (v / base) acc
  end.
Definition FormatInt (base v : Z) : string := format_digits (S (Z.to_nat (Z.log2 v))) base v EmptyString.

(** [strconv.Atoi]. *)
Definition Atoi (s : string) : option Z := ParseInt 10 s.

Lemma digit_char_value d : 0 <= d < 36 -> digit_value (digit_char d) = Some d.
Proof.
  intros Hd. assert (Forall (fun d => digit_value (digit_char d) = Some d) (seqZ 0 36)) as Hall.
  { apply (bool_decide_unpack _). by vm_compute. }
  apply (proj1 (Forall_forall _ _) Hall), elem_of_seqZ. lia.
Qed.

Lemma digit_char_not_sign d :
  0 <= d < 36 -> digit_char d <> "+"%char /\ digit_char d <> "-"%char.
Proof.
  intros Hd. split; intros Heq; apply digit_char_value in Hd; rewrite Heq in Hd; by vm_compute in Hd.
Qed.

Lemma format_digits_parse fuel base v acc :
  1 < base <= 36 -> 0 <= v < 2 ^ Z.of_nat fuel -> (0 < fuel)%nat ->
  exists k, 0 <= k /\ forall w, parse_digits base w (format_digits fuel base v acc) =
    parse_digits base (w * base ^ k + v) acc.
Proof.
  intros Hb. revert v acc. induction fuel as [|fuel IH]; intros v acc Hv Hf; [lia|].
  pose proof (Z.mod_pos_bound v base ltac:(lia)) as Hmod.
  pose proof (Z.div_mod v base ltac:(lia)) as Hdiv. cbn [format_digits].
  assert (Hstep : forall w acc', parse_digits base w (String (digit_char (v mod base)) acc') =
                    parse_digits base (w * base + v mod base) acc').
  { intros w acc'. cbn [parse_digits]. rewrite digit_char_value by lia.
    by rewrite (proj2 (Z.ltb_lt (v mod base) base)) by lia. }
  destruct (Z.eqb_spec (v / base) 0) as [Hz|Hnz].
  - exists 1. split; [done|]. intros w. rewrite Hstep. f_equal. lia.
  - assert (0 <= v / base) by (apply Z.div_pos; lia).
    assert (v / base < 2 ^ Z.of_nat fuel).
    { apply Z.div_lt_upper_bound; [lia|]. rewrite Nat2Z.inj_succ, Z.pow_succ_r in Hv by lia. nia. }
    destruct fuel as [|fuel]; [simpl in *; lia|].
    destruct (IH (v / base) (String (digit_char (v mod base)) acc)) as (k & Hk & Heq); [lia..|].
    exists (k + 1). split; [lia|]. intros w. rewrite Heq, Hstep. f_equal.
    rewrite Z.pow_add_r by lia. nia.
Qed.

Lemma format_digits_head fuel base v acc :
  1 < base <= 36 -> 0 <= v ->
  exists d s, 0 <= d < base /\ format_digits (S fuel) base v acc = String (digit_char d) s.
Proof.
  intros Hb. revert v acc. induction fuel as [|fuel IH]; intros v acc Hv; cbn [format_digits].
  - pose proof (Z.mod_pos_bound v base ltac:(lia)). exists (v mod base), acc. split; [done|].
    by destruct (v / base =? 0).
  - destruct (v / base =? 0).
    + pose proof (Z.mod_pos_bound v base ltac:(lia)). eauto.
    + apply IH. apply Z.div_pos; lia.
Qed.

(** ParseInt reads back what FormatInt writes. *)
Lemma ParseInt_FormatInt base v :
  1 < base <= 36 -> 0 <= v <= MaxInt64 -> ParseInt base (FormatInt base v) = Some v.
Proof.
  intros Hb Hv. unfold FormatInt, ParseInt.
  destruct (format_digits_head (Z.to_nat (Z.log2 v)) base v EmptyString Hb) as (d & s & Hd & Heq);
    [lia|].
  destruct (format_digits_parse (S (Z.to_nat (Z.log2 v))) base v EmptyString Hb) as (k & _ & Hp);
    [|lia|].
  { split; [lia|]. rewrite Nat2Z.inj_succ, Z2Nat.id by apply Z.log2_nonneg.
    destruct (decide (v = 0)) as [->|Hnz]; [done|]. apply Z.log2_spec. lia. }
  specialize (Hp 0). rewrite Heq in Hp |- *. destruct (digit_char_not_sign d) as [Hp1 Hm1]; [lia|].
  rewrite (proj2 (Ascii.eqb_neq _ _) Hp1), (proj2 (Ascii.eqb_neq _ _) Hm1). rewrite Hp, Z.mul_0_l, Z.add_0_l.
  cbn [parse_digits mbind option_bind].
  assert (MinInt64 <= v) by (unfold MinInt64; lia).
  by rewrite (proj2 (Z.leb_le MinInt64 v)), (proj2 (Z.leb_le v MaxInt64)) by lia.
Qed.

Lemma format_digits_chars fuel base v acc (P : ascii -> bool) :
  1 < base <= 36 -> 0 <= v -> (forall d, 0 <= d < base -> P (digit_char d) = true) ->
  chars_in P acc = true -> chars_in P (format_digits fuel base v acc) = true.
Proof.
  intros Hb. revert v acc. induction fuel as [|fuel IH]; intros v acc Hv HP Hacc; [done|].
  cbn [format_digits]. pose proof (Z.mod_pos_bound v base ltac:(lia)).
  assert (chars_in P (String (digit_char (v mod base)) acc) = true) by (simpl; by rewrite HP, Hacc).
  destruct (v / base =? 0); [done|]. apply IH; [apply Z.div_pos; lia|done..].
Qed.

(** The decimal form of a number has no dash. *)
Lemma FormatInt_no_dash v :
  0 <= v -> chars_in (fun c => negb (Ascii.eqb c "-")) (FormatInt 10 v) = true.
Proof.
  intros Hv. apply format_digits_chars; [lia|done| |done]. intros d Hd.
  apply negb_true_iff, Ascii.eqb_neq. apply digit_char_not_sign. lia.
Qed.
