(* ===== verification/Jmap.v ===== *)
(** The JMAP core (src/internal/jmap): the Request object, result references, the
    dispatcher, creation ids, limits, errors and object ids.

    A request body is its JSON value; numbers keep their literal. What encoding/json
    does with a value is written out: object members matched by folded name ([fold]),
    the last of two equal keys, null as the zero value. Numbers that pass through an
    [any] are rounded to float64 and printed again ([float64], None when out of range).
    Error descriptions, debugging text, are left out. *)

From S2P Require Import Prelude Text.
From Stdlib Require Import Ascii String.
#[local] Open Scope string_scope.
#[local] Open Scope Z_scope.

(** ** JSON *)

Inductive JSON :=
| JNull
| JBool (b : bool)
| JNum (literal : string)
| JStr (s : string)
| JArr (items : list JSON)
| JObj (members : list (string * JSON)).

(** The members of an object: the last of two equal keys counts. *)
Definition members_of (l : list (string * JSON)) : gmap string JSON := list_to_map (reverse l).

(** json.Marshal of a map: the keys in order. *)
Definition key_le (x y : string * JSON) : Prop := String.le x.1 y.1.
#[global] Instance key_le_dec : RelDecision key_le.
Proof. intros x y. unfold key_le. apply _. Defined.
Definition of_map (m : gmap string JSON) : JSON := JObj (merge_sort key_le (map_to_list m)).

Definition isJSONObject (j : JSON) : bool := match j with JObj _ => true | _ => false end.

(** ** Errors *)

Inductive ErrorCode :=
| CodeServerUnavailable | CodeServerFail | CodeServerPartialFail | CodeUnknownMethod
| CodeInvalidArguments | CodeInvalidResultReference | CodeForbidden | CodeAccountNotFound
| CodeAccountNotSupportedByMethod | CodeAccountReadOnly | CodeRequestTooLarge
| CodeCannotCalculateChanges | CodeStateMismatch | CodeAnchorNotFound | CodeUnsupportedFilter
| CodeUnsupportedSort | CodeTooManyChanges | CodeFromAccountNotFound
| CodeFromAccountNotSupportedByMethod.
#[global] Instance ErrorCode_eq : EqDecision ErrorCode.
Proof. solve_decision. Defined.

Definition error_name (c : ErrorCode) : string :=
  match c with
  | CodeServerUnavailable => "serverUnavailable"
  | CodeServerFail => "serverFail"
  | CodeServerPartialFail => "serverPartialFail"
  | CodeUnknownMethod => "unknownMethod"
  | CodeInvalidArguments => "invalidArguments"
  | CodeInvalidResultReference => "invalidResultReference"
  | CodeForbidden => "forbidden"
  | CodeAccountNotFound => "accountNotFound"
  | CodeAccountNotSupportedByMethod => "accountNotSupportedByMethod"
  | CodeAccountReadOnly => "accountReadOnly"
  | CodeRequestTooLarge => "requestTooLarge"
  | CodeCannotCalculateChanges => "cannotCalculateChanges"
  | CodeStateMismatch => "stateMismatch"
  | CodeAnchorNotFound => "anchorNotFound"
  | CodeUnsupportedFilter => "unsupportedFilter"
  | CodeUnsupportedSort => "unsupportedSort"
  | CodeTooManyChanges => "tooManyChanges"
  | CodeFromAccountNotFound => "fromAccountNotFound"
  | CodeFromAccountNotSupportedByMethod => "fromAccountNotSupportedByMethod"
  end.

Record Invocation := mkInvocation { Name : string; Args : JSON; CallID : string }.

(** [MethodError.Invocation]. *)
Definition error_invocation (c : ErrorCode) (callID : string) : Invocation :=
  {| Name := "error"; Args := JObj [("type", JStr (error_name c))]; CallID := callID |}.

Inductive ProblemType := ProblemUnknownCapability | ProblemNotJSON | ProblemNotRequest | ProblemLimit.
Record RequestError := mkRequestError {
  re_Type : ProblemType;
  re_Status : Z;
  re_Limit : string
}.
Definition StatusBadRequest : Z := 400.
Definition NewRequestError (t : ProblemType) : RequestError :=
  {| re_Type := t; re_Status := StatusBadRequest; re_Limit := "" |}.
Definition NewLimitError (status : Z) (limit : string) : RequestError :=
  {| re_Type := ProblemLimit; re_Status := status; re_Limit := limit |}.

(** ** Limits *)

Record Limits := mkLimits {
  MaxSizeUpload : Z; MaxConcurrentUpload : Z; MaxSizeRequest : Z; MaxConcurrentRequests : Z;
  MaxCallsInRequest : Z; MaxObjectsInGet : Z; MaxObjectsInSet : Z
}.
Definition DefaultLimits : Limits :=
  {| MaxSizeUpload := 50000000; MaxConcurrentUpload := 4; MaxSizeRequest := 10000000;
     MaxConcurrentRequests := 8; MaxCallsInRequest := 32; MaxObjectsInGet := 500;
     MaxObjectsInSet := 500 |}.
Definition CheckObjectsInGet (l : Limits) (n : Z) : option ErrorCode :=
  if MaxObjectsInGet l <? n then Some CodeRequestTooLarge else None.
Definition CheckObjectsInSet (l : Limits) (n : Z) : option ErrorCode :=
  if MaxObjectsInSet l <? n then Some CodeRequestTooLarge else None.

(** ** Object ids (accountid.go, mail/id.go) *)

Definition EncodeAccountID (id : Z) : string := "a" ++ FormatInt 36 id.

Definition encodeID (prefix : string) (id : Z) : string :=
  if id <=? 0 then "" else prefix ++ FormatInt 36 id.

(** [decodeID]: the id, unless the spelling is not the one [encodeID] would give. *)
Definition decodeID (prefix s : string) : option Z :=
  match CutPrefix s prefix with
  | Some EmptyString | None => None
  | Some rest =>
      match ParseInt 36 rest with
      | Some id => if id <=? 0 then None
                   else if decide (encodeID prefix id = s) then Some id else None
      | None => None
      end
  end.

(** [DecodeAccountID]. *)
Definition DecodeAccountID (s : string) : option Z :=
  match CutPrefix s "a" with
  | Some EmptyString | None => None
  | Some rest =>
      match ParseInt 36 rest with
      | Some id => if id <=? 0 then None
                   else if decide (EncodeAccountID id = s) then Some id else None
      | None => None
      end
  end.

Definition mailboxIDPrefix := "m".
Definition emailIDPrefix := "e".
Definition threadIDPrefix := "t".
Definition sieveScriptIDPrefix := "s".
Definition forwardingIDPrefix := "f".

(** [decodeIDList]: the ids read, once each in order, and the strings that are none. *)
Fixpoint decodeIDList (decode : string -> option Z) (seen : gset Z) (ids : list string)
    : list Z * list string :=
  match ids with
  | [] => ([], [])
  | raw :: ids =>
      match decode raw with
      | None => let '(d, u) := decodeIDList decode seen ids in (d, raw :: u)
      | Some id =>
          if decide (id ∈ seen) then decodeIDList decode seen ids
          else let '(d, u) := decodeIDList decode ({[id]} ∪ seen) ids in (id :: d, u)
      end
  end.

(** ** Creation ids (created.go) *)

Definition CreationIDs : Type := gmap string string.
Definition Record_ (creationID serverID : string) (c : CreationIDs) : CreationIDs :=
  if decide (creationID = "" \/ serverID = "") then c else <[creationID := serverID]> c.
Definition Resolve (wireID : string) (c : CreationIDs) : option string :=
  match CutPrefix wireID "#" with
  | None => Some wireID
  | Some EmptyString => None
  | Some rest => c !! rest
  end.

(** ** JSON Pointer (backref.go) *)

Definition unescapeToken (t : string) : string :=
  replace2 "~" "0" "~" (replace2 "~" "1" "/" t).

(** [arrayIndex]. *)
Definition arrayIndex (token : string) (length : Z) : option nat :=
  if decide (token = "-") then None
  else if decide (token = "" \/ (1 < String.length token)%nat /\ HasPrefix token "0" = true) then None
  else match Atoi token with
       | Some idx => if (idx <? 0) || (length <=? idx) then None else Some (Z.to_nat idx)
       | None => None
       end.

Definition flatten_one (v : JSON) : list JSON := match v with JArr l => l | _ => [v] end.

(** [evalTokens]. *)
Fixpoint evalTokens (doc : JSON) (tokens : list string) : option JSON :=
  match tokens with
  | [] => Some doc
  | token :: rest =>
      match doc with
      | JObj l => child ← members_of l !! token; evalTokens child rest
      | JArr l =>
          if decide (token = "*") then
            vs ← mapM (fun item => evalTokens item rest) l;
            Some (JArr (vs ≫= flatten_one))
          else idx ← arrayIndex token (Z.of_nat (List.length l));
               item ← l !! idx;
               evalTokens item rest
      | _ => None
      end
  end.

Definition evalPointer (doc : JSON) (pointer : string) : option JSON :=
  match pointer with
  | EmptyString => Some doc
  | String c rest =>
      if Ascii.eqb c "/" then evalTokens doc (unescapeToken <$> Split "/" rest) else None
  end.

(** ** Result references *)

Record ResultReference := mkReference { ResultOf : string; RefName : string; Path : string }.

Section core.
Context (fold : string -> string).
Context (float64 : string -> option string).

(** A string member of a struct: its last value, "" if absent or null. *)
Definition string_field (f : string) (o : list (string * JSON)) : option string :=
  foldl (fun acc kv =>
    if decide (fold kv.1 = fold f) then
      match kv.2 with
      | JStr s => acc ≫= fun _ => Some s
      | JNull => acc
      | _ => None
      end
    else acc) (Some "") o.

(** json.Unmarshal into a ResultReference. *)
Definition decode_reference (j : JSON) : option ResultReference :=
  match j with
  | JNull => Some (mkReference "" "" "")
  | JObj o =>
      r ← string_field "resultOf" o; n ← string_field "name" o; p ← string_field "path" o;
      Some (mkReference r n p)
  | _ => None
  end.

(** json.Unmarshal into [any]. *)
Fixpoint as_any (j : JSON) : option JSON :=
  match j with
  | JNum n => JNum <$> float64 n
  | JArr l => JArr <$> mapM as_any l
  | JObj l => (fun ms => of_map (members_of ms)) <$>
                mapM (fun kv => (fun v => (kv.1, v)) <$> as_any kv.2) l
  | _ => Some j
  end.

(** [resolveReference]. *)
Definition resolveReference (ref : ResultReference) (prior : list Invocation) : ErrorCode + JSON :=
  match List.find (fun i => String.eqb (CallID i) (ResultOf ref)) prior with
  | None => inl CodeInvalidResultReference
  | Some found =>
      if decide (Name found = RefName ref) then
        match as_any (Args found) with
        | None => inl CodeServerFail
        | Some doc =>
            match evalPointer doc (Path ref) with
            | Some v => inr v
            | None => inl CodeInvalidResultReference
            end
        end
      else inl CodeInvalidResultReference
  end.

Definition is_ref (name : string) : bool := HasPrefix name "#".
Definition plain_name (name : string) : string := default name (CutPrefix name "#").

(** One turn of the loop of ResolveBackReferences. *)
Definition resolve_one (prior : list Invocation) (refName : string) (fields : gmap string JSON)
    : ErrorCode + gmap string JSON :=
  let plain := plain_name refName in
  if decide (is_Some (fields !! plain)) then inl CodeInvalidArguments
  else
    match fields !! refName ≫= decode_reference with
    | None => inl CodeInvalidResultReference
    | Some ref =>
        match resolveReference ref prior with
        | inl e => inl e
        | inr v => inr (<[plain := v]> (delete refName fields))
        end
    end.

Fixpoint resolve_all (prior : list Invocation) (refNames : list string) (fields : gmap string JSON)
    : ErrorCode + gmap string JSON :=
  match refNames with
  | [] => inr fields
  | r :: refNames =>
      match resolve_one prior r fields with
      | inl e => inl e
      | inr fields => resolve_all prior refNames fields
      end
  end.

(** [ResolveBackReferences]; [range] is the order in which Go ranges over the map. *)
Definition ResolveBackReferences (range : gset string -> list string)
    (args : JSON) (prior : list Invocation) : ErrorCode + JSON :=
  match args with
  | JObj l =>
      let fields := members_of l in
      let refNames := filter (fun n => is_ref n = true) (range (dom fields)) in
      if decide (refNames = []) then inr args
      else match resolve_all prior refNames fields with
           | inl e => inl e
           | inr fields => inr (of_map fields)
           end
  | JNull => inr args
  | _ => inl CodeInvalidArguments
  end.

(** ** The Request object (types.go) *)

(** What the decoder makes of a body: the first JSON value and what follows it. *)
Inductive body :=
| BadUTF8
| BadJSON
| Body (value : JSON) (rest : string).

(** [Decoder.More] between two top-level values. *)
Fixpoint More (rest : string) : bool :=
  match rest with
  | EmptyString => false
  | String c r =>
      if existsb (Ascii.eqb c) [" "; "009"; "010"; "013"]%char then More r
      else negb (Ascii.eqb c "]") && negb (Ascii.eqb c "}")
  end.

Definition string_elem (j : JSON) : option string :=
  match j with JStr s => Some s | JNull => Some "" | _ => None end.

Record shape := mkShape {
  sh_Using : option (list string);
  sh_MethodCalls : option (list JSON);
  sh_CreatedIDs : option (gmap string string)
}.

(** One member of the top-level object, decoded into the struct. *)
Definition decode_member (acc : option shape) (kv : string * JSON) : option shape :=
  sh ← acc;
  if decide (fold kv.1 = fold "using") then
    match kv.2 with
    | JNull => Some (mkShape None (sh_MethodCalls sh) (sh_CreatedIDs sh))
    | JArr l => us ← mapM string_elem l;
                Some (mkShape (Some us) (sh_MethodCalls sh) (sh_CreatedIDs sh))
    | _ => None
    end
  else if decide (fold kv.1 = fold "methodCalls") then
    match kv.2 with
    | JNull => Some (mkShape (sh_Using sh) None (sh_CreatedIDs sh))
    | JArr l => Some (mkShape (sh_Using sh) (Some l) (sh_CreatedIDs sh))
    | _ => None
    end
  else if decide (fold kv.1 = fold "createdIds") then
    match kv.2 with
    | JNull => Some (mkShape (sh_Using sh) (sh_MethodCalls sh) None)
    | JObj o => vs ← mapM (fun kv => (fun v => (kv.1, v)) <$> string_elem kv.2) o;
                Some (mkShape (sh_Using sh) (sh_MethodCalls sh)
                  (Some (list_to_map (reverse vs) ∪ default ∅ (sh_CreatedIDs sh))))
    | _ => None
    end
  else Some sh.

Definition decode_shape (j : JSON) : option shape :=
  match j with
  | JNull => Some (mkShape None None None)
  | JObj o => foldl decode_member (Some (mkShape None None None)) o
  | _ => None
  end.

(** [Invocation.UnmarshalJSON]. *)
Definition decode_invocation (j : JSON) : option Invocation :=
  match j with
  | JArr [name; args; callID] =>
      n ← string_elem name;
      if isJSONObject args then c ← string_elem callID; Some (mkInvocation n args c) else None
  | _ => None
  end.

Record Request := mkRequest {
  Using : list string;
  MethodCalls : list Invocation;
  CreatedIDs : option (gmap string string)
}.

(** [ParseRequest]. *)
Definition ParseRequest (b : body) : RequestError + Request :=
  match b with
  | BadUTF8 | BadJSON => inl (NewRequestError ProblemNotJSON)
  | Body j rest =>
      match decode_shape j with
      | None => inl (NewRequestError ProblemNotJSON)
      | Some sh =>
          if More rest then inl (NewRequestError ProblemNotJSON)
          else
            match sh_Using sh, sh_MethodCalls sh with
            | Some us, Some calls =>
                match mapM decode_invocation calls with
                | Some calls => inr (mkRequest us calls (sh_CreatedIDs sh))
                | None => inl (NewRequestError ProblemNotRequest)
                end
            | _, _ => inl (NewRequestError ProblemNotRequest)
            end
      end
  end.

(** ** The dispatcher (dispatch.go)

    A handler runs on the creation ids of the request and on the rest of the world [W];
    it panics, fails, or returns a value, which may not be encodable as JSON. *)

Section engine.
Context {W : Type}.
Context (range : gset string -> list string).

Inductive called (A : Type) :=
| Panicked
| Failed (e : ErrorCode)
| Done (a : A).
Arguments Panicked {A}.
Arguments Failed {A} e.
Arguments Done {A} a.

Definition env : Type := CreationIDs * W.

Inductive method :=
| Handler (h : JSON -> env -> env * called (option JSON))
| MultiHandler (h : JSON -> env -> env * called (list (string * option JSON))).

Record registeredMethod := mkMethod { rm_capability : string; rm_method : method }.

(** The registry: method names to handlers and the capability each belongs to. *)
Abbreviation Registry := (gmap string registeredMethod).

Record Engine := mkEngine {
  e_registry : Registry;
  e_limits : Limits;
  e_capabilities : gset string
}.

(** [safeCall] and [safeCallMulti]: a panic is a serverFail of this call. *)
Definition contain {A} (r : env * called A) : env * (ErrorCode + A) :=
  match r with
  | (w, Panicked) => (w, inl CodeServerFail)
  | (w, Failed e) => (w, inl e)
  | (w, Done a) => (w, inr a)
  end.

(** The responses of a call that succeeded. *)
Definition render (callID : string) (res : string * option JSON) : option Invocation :=
  match res.2 with
  | Some j => if isJSONObject j then Some (mkInvocation res.1 j callID) else None
  | None => None
  end.

Definition run_method (name : string) (m : method) (args : JSON) (w : env)
    : env * (ErrorCode + list (string * option JSON)) :=
  match m with
  | MultiHandler h => contain (h args w)
  | Handler h =>
      match contain (h args w) with
      | (w, inl e) => (w, inl e)
      | (w, inr r) => (w, inr [(name, r)])
      end
  end.

(** [dispatchOne]. *)
Definition dispatchOne (e : Engine) (opted : list string) (prior : list Invocation)
    (call : Invocation) (w : env) : env * list Invocation :=
  let fail c := [error_invocation c (CallID call)] in
  match e_registry e !! Name call with
  | None => (w, fail CodeUnknownMethod)
  | Some m =>
      if decide (rm_capability m ∈ opted) then
        match ResolveBackReferences range (Args call) prior with
        | inl c => (w, fail c)
        | inr args =>
            match run_method (Name call) (rm_method m) args w with
            | (w, inl c) => (w, fail c)
            | (w, inr []) => (w, fail CodeServerFail)
            | (w, inr results) =>
                match mapM (render (CallID call)) results with
                | Some out => (w, out)
                | None => (w, fail CodeServerFail)
                end
            end
        end
      else (w, fail CodeUnknownMethod)
  end.

Fixpoint dispatch_all (e : Engine) (opted : list string) (responses : list Invocation)
    (calls : list Invocation) (w : env) : env * list Invocation :=
  match calls with
  | [] => (w, responses)
  | call :: calls =>
      let '(w, out) := dispatchOne e opted responses call w in
      dispatch_all e opted (responses ++ out)%list calls w
  end.

Record Response := mkResponse {
  MethodResponses : list Invocation;
  rs_CreatedIDs : option (gmap string string);
  SessionState : string
}.

(** [Engine.Process]. *)
Definition Process (e : Engine) (b : body) (sessionState : string) (w : W)
    : W * (RequestError + Response) :=
  match ParseRequest b with
  | inl rerr => (w, inl rerr)
  | inr req =>
      if forallb (fun c => bool_decide (c ∈ e_capabilities e)) (Using req) then
        if MaxCallsInRequest (e_limits e) <? Z.of_nat (List.length (MethodCalls req)) then
          (w, inl (NewLimitError StatusBadRequest "maxCallsInRequest"))
        else
          let '((created, w), responses) :=
            dispatch_all e (Using req) [] (MethodCalls req) (default ∅ (CreatedIDs req), w) in
          (w, inr (mkResponse responses
                     (match CreatedIDs req with Some _ => Some created | None => None end)
                     sessionState))
      else (w, inl (NewRequestError ProblemUnknownCapability))
  end.
End engine.
End core.
Arguments Panicked {A}.
Arguments Failed {A} e.
Arguments Done {A} a.

(** ** Object ids *)

Lemma CutPrefix_app p r : CutPrefix (p ++ r) p = Some r.
Proof. by apply CutPrefix_Some. Qed.

Lemma FormatInt_nonempty base v : 1 < base <= 36 -> 0 <= v -> FormatInt base v <> "".
Proof.
  intros Hb Hv. unfold FormatInt.
  by destruct (format_digits_head (Z.to_nat (Z.log2 v)) base v "" Hb Hv) as (d & s & _ & ->).
Qed.

(** Prefixes of one byte keep the kinds of ids apart. *)
Lemma decode_other a b r s :
  a <> b -> decodeID (String a "") s <> None -> s = String b r -> False.
Proof.
  intros Hne Hd ->. apply Hd. unfold decodeID. simpl.
  by rewrite (proj2 (Ascii.eqb_neq a b) Hne).
Qed.

Lemma decode_encode a id :
  0 < id <= MaxInt64 -> decodeID (String a "") (encodeID (String a "") id) = Some id.
Proof.
  intros Hid. assert (Hne : FormatInt 36 id <> "") by (apply FormatInt_nonempty; lia).
  pose proof (ParseInt_FormatInt 36 id ltac:(lia) ltac:(lia)) as Hp.
  unfold decodeID, encodeID. rewrite (proj2 (Z.leb_gt id 0)) by lia. rewrite !CutPrefix_app, Hp.
  destruct (FormatInt 36 id) as [|c r]; [done|].
  rewrite (proj2 (Z.leb_gt id 0)) by lia. by rewrite !decide_True.
Qed.

Lemma decode_encode_account id : 0 < id <= MaxInt64 -> DecodeAccountID (EncodeAccountID id) = Some id.
Proof.
  intros Hid. assert (Hne : FormatInt 36 id <> "") by (apply FormatInt_nonempty; lia).
  pose proof (ParseInt_FormatInt 36 id ltac:(lia) ltac:(lia)) as Hp.
  unfold DecodeAccountID, EncodeAccountID. rewrite CutPrefix_app, Hp.
  destruct (FormatInt 36 id) as [|c r]; [done|].
  rewrite (proj2 (Z.leb_gt id 0)) by lia. by rewrite !decide_True.
Qed.

(** Object ids are exact names. Every id a row can have is read back from its wire
    form; a string that is read as an id is the one spelling of that id, positive and
    within int64; and the prefixes keep mailboxes, emails, threads, scripts, forwarding
    addresses and accounts apart. *)
Theorem ids_roundtrip (a b : ascii) :
  (forall id, 0 < id <= MaxInt64 ->
     decodeID (String a "") (encodeID (String a "") id) = Some id /\
     DecodeAccountID (EncodeAccountID id) = Some id) /\
  (forall s id, decodeID (String a "") s = Some id -> encodeID (String a "") id = s /\ 0 < id) /\
  (forall s id, DecodeAccountID s = Some id -> EncodeAccountID id = s /\ 0 < id) /\
  (forall s id, a <> b -> decodeID (String a "") s = Some id -> decodeID (String b "") s = None).
Proof.
  split_and!.
  - intros id Hid. split; [by apply decode_encode|by apply decode_encode_account].
  - intros s id. unfold decodeID. repeat case_match; try done. intros [= ->].
    split; [done|]. by apply Z.leb_gt.
  - intros s id. unfold DecodeAccountID. repeat case_match; try done. intros [= ->].
    split; [done|]. by apply Z.leb_gt.
  - intros s id Hne Hs. destruct (decodeID (String b "") s) as [id'|] eqn:Hb; [|done].
    exfalso. unfold decodeID in Hs.
    destruct (CutPrefix s (String a "")) as [r|] eqn:Hc; [|done].
    apply CutPrefix_Some in Hc. eapply (decode_other b a r s); [congruence..|exact Hc].
Qed.

(** ** Pointers *)

(** RFC 6901 escaping of a token. *)
Fixpoint escape (s : string) : string :=
  match s with
  | EmptyString => ""
  | String c s =>
      if Ascii.eqb c "~" then "~0" ++ escape s
      else if Ascii.eqb c "/" then "~1" ++ escape s
      else String c (escape s)
  end.

(** Only the tildes escaped: what is left after the first replacement. *)
Fixpoint escape_tilde (s : string) : string :=
  match s with
  | EmptyString => ""
  | String c s => if Ascii.eqb c "~" then "~0" ++ escape_tilde s else String c (escape_tilde s)
  end.

Lemma replace2_skip a b c x s :
  x <> a -> replace2 a b c (String x s) = String x (replace2 a b c s).
Proof.
  intros Hx. destruct s as [|y s]; simpl; [done|]. by rewrite (proj2 (Ascii.eqb_neq x a) Hx).
Qed.

Lemma replace2_miss a b c y s :
  y <> b -> replace2 a b c (String a (String y s)) = String a (replace2 a b c (String y s)).
Proof. intros Hy. cbn [replace2]. by rewrite (proj2 (Ascii.eqb_neq y b) Hy), andb_false_r. Qed.

Lemma replace2_hit a b c s : replace2 a b c (String a (String b s)) = String c (replace2 a b c s).
Proof. cbn [replace2]. by rewrite !Ascii.eqb_refl. Qed.

Lemma unescape_slash s : replace2 "~" "1" "/" (escape s) = escape_tilde s.
Proof.
  induction s as [|c s IH]; cbn [escape escape_tilde]; [done|].
  destruct (Ascii.eqb_spec c "~") as [->|Ht].
  - change ("~0" ++ escape s) with (String "~" (String "0" (escape s))).
    rewrite replace2_miss, replace2_skip by done. by rewrite IH.
  - destruct (Ascii.eqb_spec c "/") as [->|Hs].
    + change ("~1" ++ escape s) with (String "~" (String "1" (escape s))).
      by rewrite replace2_hit, IH.
    + rewrite replace2_skip by done. by rewrite IH.
Qed.

Lemma unescape_tilde s : replace2 "~" "0" "~" (escape_tilde s) = s.
Proof.
  induction s as [|c s IH]; cbn [escape_tilde]; [done|].
  destruct (Ascii.eqb_spec c "~") as [->|Ht].
  - change ("~0" ++ escape_tilde s) with (String "~" (String "0" (escape_tilde s))).
    by rewrite replace2_hit, IH.
  - rewrite replace2_skip by done. by rewrite IH.
Qed.

Lemma unescape_escape s : unescapeToken (escape s) = s.
Proof. unfold unescapeToken. by rewrite unescape_slash, unescape_tilde. Qed.

Lemma escape_no_slash s : chars_in (fun c => negb (Ascii.eqb c "/")) (escape s) = true.
Proof.
  induction s as [|c s IH]; cbn [escape]; [done|].
  destruct (Ascii.eqb_spec c "~") as [->|]; [done|].
  destruct (Ascii.eqb_spec c "/") as [->|]; [done|]. simpl. rewrite IH.
  by rewrite (proj2 (Ascii.eqb_neq c "/")).
Qed.

(** The pointer that names a path. *)
Definition pointer (tokens : list string) : string :=
  match tokens with
  | [] => ""
  | _ => String "/" (Join "/" (escape <$> tokens))
  end.

(** A JSON pointer reaches the path it spells. For every sequence of tokens,
    whatever characters they contain, the pointer written with RFC 6901 escapes
    evaluates as that path; in particular a slash or a tilde inside a member name is
    never taken for a separator or an escape. *)
Theorem pointer_roundtrip (doc : JSON) (tokens : list string) :
  evalPointer doc (pointer tokens) = evalTokens doc tokens.
Proof.
  destruct tokens as [|t ts]; [done|]. unfold pointer, evalPointer. cbn [Ascii.eqb Bool.eqb].
  change (Ascii.eqb "/" "/") with true. cbn iota. rewrite Split_Join; [|done|].
  - rewrite <-list_fmap_compose. f_equal. rewrite <-(list_fmap_id (t :: ts)) at 2.
    apply list_fmap_ext. intros ? x _. apply unescape_escape.
  - apply Forall_fmap, Forall_true. intros x. apply escape_no_slash.
Qed.

(** ** Result references *)

Lemma is_ref_spec n : is_ref n = true <-> exists p, n = String "#" p.
Proof.
  unfold is_ref. destruct n as [|c n]; cbn [HasPrefix]; [naive_solver|].
  rewrite andb_true_r, Ascii.eqb_eq. naive_solver.
Qed.

Lemma plain_hash n : plain_name (String "#" n) = n.
Proof. done. Qed.

Lemma members_of_map (m : gmap string JSON) :
  members_of (merge_sort key_le (map_to_list m)) = m.
Proof.
  unfold members_of. rewrite <-(list_to_map_to_list m) at 2.
  apply list_to_map_proper.
  - rewrite reverse_Permutation, merge_sort_Permutation. apply NoDup_fst_map_to_list.
  - by rewrite reverse_Permutation, merge_sort_Permutation.
Qed.

Section backrefs.
Context (fold : string -> string) (float64 : string -> option string).
Context (prior : list Invocation).

(** What the value of a "#" argument stands for. *)
Definition reference_value (raw : JSON) : ErrorCode + JSON :=
  match decode_reference fold raw with
  | None => inl CodeInvalidResultReference
  | Some ref => resolveReference float64 ref prior
  end.

Abbreviation one := (resolve_one fold float64 prior).
Abbreviation all := (resolve_all fold float64 prior).

Lemma resolve_one_hash n f raw :
  f !! String "#" n = Some raw ->
  one (String "#" n) f =
    if decide (is_Some (f !! n)) then inl CodeInvalidArguments
    else match reference_value raw with
         | inl e => inl e
         | inr v => inr (<[n := v]> (delete (String "#" n) f))
         end.
Proof.
  intros Hraw. unfold resolve_one, reference_value. rewrite plain_hash, Hraw. simpl.
  case_decide; [done|]. by destruct (decode_reference fold raw).
Qed.

Definition resolvable (f : gmap string JSON) (n : string) : Prop :=
  f !! n = None /\ exists raw v, f !! String "#" n = Some raw /\ reference_value raw = inr v.

Definition value_of (f : gmap string JSON) (n : string) : option JSON :=
  f !! String "#" n ≫= fun raw =>
    match reference_value raw with inr v => Some v | inl _ => None end.

(** The fields once the references named [ns] are replaced. *)
Record replaced (ns : list string) (f f' : gmap string JSON) : Prop := {
  replaced_ref : forall n, n ∈ ns -> f' !! String "#" n = None;
  replaced_plain : forall n, n ∈ ns -> f' !! n = value_of f n;
  replaced_other : forall k, k ∉ ns -> (forall n, n ∈ ns -> k <> String "#" n) -> f' !! k = f !! k
}.

Lemma hash_not_plain n m : is_ref n = false -> n <> String "#" m.
Proof. intros Hn ->. by rewrite (proj2 (is_ref_spec _)) in Hn by eauto. Qed.

Lemma hash_neq n : n <> String "#" n.
Proof. intros Heq. apply (f_equal String.length) in Heq. simpl in Heq. lia. Qed.

Section step.
Context (n : string) (ns : list string) (f : gmap string JSON) (v : JSON).
Hypothesis Hnin : n ∉ ns.
Hypothesis Hplain : forall m, m ∈ n :: ns -> is_ref m = false.
Abbreviation f1 := (<[n := v]> (delete (String "#" n) f)).

Lemma step_keeps m : m ∈ ns -> f1 !! m = f !! m /\ f1 !! String "#" m = f !! String "#" m.
Proof.
  intros Hm. assert (is_ref m = false) as Hm' by (apply Hplain; by right).
  assert (is_ref n = false) as Hn by (apply Hplain; left). split.
  - rewrite lookup_insert_ne, lookup_delete_ne; [done| |congruence].
    intros Heq. by apply (hash_not_plain m n).
  - rewrite lookup_insert_ne, lookup_delete_ne; [done|congruence|]. by apply hash_not_plain.
Qed.

Lemma step_resolvable m : m ∈ ns -> resolvable f1 m <-> resolvable f m.
Proof. intros Hm. destruct (step_keeps m Hm) as [H1 H2]. unfold resolvable. by rewrite H1, H2. Qed.

Lemma step_replaced f' : value_of f n = Some v -> replaced ns f1 f' -> replaced (n :: ns) f f'.
Proof.
  intros Hv [Href Hpl Hoth].
  assert (is_ref n = false) as Hn by (apply Hplain; left).
  assert (Hns : forall m, m ∈ ns -> is_ref m = false) by (intros m Hm; apply Hplain; by right).
  split.
  - intros m [->|Hm]%elem_of_cons; [|by apply Href].
    rewrite Hoth, lookup_insert_ne, lookup_delete_eq; [done|apply hash_neq| |congruence].
    intros Hin%Hns. by rewrite (proj2 (is_ref_spec _)) in Hin by eauto.
  - intros m [->|Hm]%elem_of_cons.
    + rewrite Hv, Hoth, lookup_insert_eq; [done|done|]. intros m Hm. by apply hash_not_plain.
    + rewrite Hpl by done. unfold value_of. by rewrite (proj2 (step_keeps m Hm)).
  - intros k [Hkn Hk]%not_elem_of_cons Hh. rewrite Hoth, lookup_insert_ne, lookup_delete_ne; [done| | | |].
    + symmetry. apply Hh. left.
    + congruence.
    + done.
    + intros m Hm. apply Hh. by right.
Qed.
End step.

(** Resolving the references named [ns], whatever the order. *)
Lemma resolve_all_spec ns f :
  NoDup ns -> (forall n, n ∈ ns -> is_ref n = false) ->
  (forall n, n ∈ ns -> is_Some (f !! String "#" n)) ->
  match all (String "#" <$> ns) f with
  | inl _ => ~ (forall n, n ∈ ns -> resolvable f n)
  | inr f' => (forall n, n ∈ ns -> resolvable f n) /\ replaced ns f f'
  end.
Proof.
  revert f. induction ns as [|n ns IH]; intros f Hnd Hpl Hns.
  { simpl. split; [set_solver|]. by split; set_solver. }
  apply NoDup_cons in Hnd as [Hnin Hnd]. destruct (Hns n) as [raw Hraw]; [left|].
  rewrite fmap_cons. cbn [resolve_all]. rewrite (resolve_one_hash _ _ _ Hraw).
  case_decide as Hdup.
  { intros Hall. destruct (Hall n) as [Hnone _]; [left|]. rewrite Hnone in Hdup.
    by destruct Hdup. }
  apply eq_None_not_Some in Hdup.
  destruct (reference_value raw) as [e|v] eqn:Hv.
  { intros Hall. destruct (Hall n) as [_ (raw' & v' & Hr & Hv')]; [left|]. congruence. }
  assert (value_of f n = Some v) as Hval by (unfold value_of; rewrite Hraw; simpl; by rewrite Hv).
  pose proof (step_resolvable n ns f v Hnin Hpl) as Hres.
  specialize (IH (<[n := v]> (delete (String "#" n) f)) Hnd).
  destruct (all (String "#" <$> ns) _) as [e|f'].
  - intros Hall. apply IH.
    + intros m Hm. apply Hpl. by right.
    + intros m Hm. rewrite (proj2 (step_keeps n ns f v Hnin Hpl m Hm)). apply Hns. by right.
    + intros m Hm. apply Hres; [done|]. apply Hall. by right.
  - destruct IH as [Hall Hf'].
    { intros m Hm. apply Hpl. by right. }
    { intros m Hm. rewrite (proj2 (step_keeps n ns f v Hnin Hpl m Hm)). apply Hns. by right. }
    split; [|by apply (step_replaced n ns f v)].
    intros m [->|Hm]%elem_of_cons; [split; [done|eauto]|]. by apply Hres; auto.
Qed.

(** No argument is written with two marks. *)
Definition no_double_mark (f : gmap string JSON) : Prop :=
  forall n, is_Some (f !! String "#" n) -> is_ref n = false.

Lemma ref_names (range : gset string -> list string) (f : gmap string JSON) :
  (forall s, range s ≡ₚ elements s) ->
  exists ns, filter (fun n => is_ref n = true) (range (dom f)) = String "#" <$> ns /\ NoDup ns /\
    forall n, n ∈ ns <-> is_Some (f !! String "#" n).
Proof.
  intros Hr. set (l := filter _ _).
  assert (Hl : forall x, x ∈ l <-> is_ref x = true /\ is_Some (f !! x)).
  { intros x. unfold l. rewrite list_elem_of_filter, Hr, elem_of_elements, elem_of_dom. done. }
  assert (Heq : l = String "#" <$> (plain_name <$> l)).
  { rewrite <-list_fmap_compose. rewrite <-(list_fmap_id l) at 1. apply list_fmap_ext.
    intros i x Hx%list_elem_of_lookup_2. apply Hl in Hx as [(p & ->)%is_ref_spec _]. done. }
  exists (plain_name <$> l). split_and!; [done| |].
  - apply (NoDup_fmap_1 (String "#")). rewrite <-Heq. unfold l. apply NoDup_filter.
    rewrite Hr. apply NoDup_elements.
  - intros n. split.
    + intros Hn. assert (String "#" n ∈ l) as Hin by (rewrite Heq; by apply list_elem_of_fmap_2).
      by apply Hl in Hin as [_ Hin].
    + intros Hn. assert (String "#" n ∈ l) as Hin.
      { apply Hl. split; [|done]. apply is_ref_spec. eauto. }
      rewrite <-(plain_hash n). by apply list_elem_of_fmap_2.
Qed.

(** C40: Result references are resolved as RFC 8620 defines them. When no argument name carries
    two marks ([double_mark_depends_on_order] shows why), the outcome does not depend on the
    order in which the arguments are visited: they are accepted exactly when every "#name"
    has no plain twin and its reference resolves; then each "name" holds the value its
    reference stands for, no marked name is left, and every other argument is as it was. *)
Theorem backrefs_resolved (range : gset string -> list string) (l : list (string * JSON)) :
  (forall s, range s ≡ₚ elements s) -> no_double_mark (members_of l) ->
  let F := members_of l in
  match ResolveBackReferences fold float64 range (JObj l) prior with
  | inl _ => ~ (forall n, is_Some (F !! String "#" n) -> resolvable F n)
  | inr out => (forall n, is_Some (F !! String "#" n) -> resolvable F n) /\
      exists l', out = JObj l' /\ forall k, members_of l' !! k =
        if is_ref k then None else match F !! k with Some v => Some v | None => value_of F k end
  end.
Proof.
  intros Hr Hmark F. unfold ResolveBackReferences. fold F.
  destruct (ref_names range F Hr) as (ns & Hns & Hnd & Hin). rewrite Hns.
  pose proof (resolve_all_spec ns F Hnd) as Hspec.
  assert (Hpl : forall n, n ∈ ns -> is_ref n = false) by (intros n Hn%Hin; by apply Hmark).
  specialize (Hspec Hpl (fun n => proj1 (Hin n))).
  case_decide as Hnil.
  - apply fmap_nil_inv in Hnil. subst ns. split; [intros n Hn%Hin; by apply not_elem_of_nil in Hn|].
    exists l. split; [done|]. intros k. fold F.
    assert (forall n, F !! String "#" n = None) as Hno.
    { intros n. apply eq_None_not_Some. intros Hn%Hin. by apply not_elem_of_nil in Hn. }
    destruct (is_ref k) eqn:Hk; [apply is_ref_spec in Hk as (p & ->); apply Hno|].
    destruct (F !! k) eqn:Hk'; [done|]. unfold value_of. by rewrite Hno.
  - destruct (all (String "#" <$> ns) F) as [e|f'].
    + intros Hall. apply Hspec. intros n Hn%Hin. by apply Hall.
    + destruct Hspec as [Hall [Href Hplain Hoth]]. split; [intros n Hn%Hin; by apply Hall|].
      eexists. split; [done|]. intros k. rewrite members_of_map.
      destruct (is_ref k) eqn:Hk.
      { apply is_ref_spec in Hk as (p & ->). destruct (decide (p ∈ ns)) as [Hp|Hp]; [by apply Href|].
        rewrite Hoth; [|intros Hk%Hpl; by rewrite (proj2 (is_ref_spec _)) in Hk by eauto|congruence].
        apply eq_None_not_Some. by rewrite <-Hin. }
      destruct (decide (k ∈ ns)) as [Hp|Hp].
      * rewrite Hplain by done. by destruct (Hall k Hp) as [-> _].
      * rewrite Hoth; [|done|intros n _; by apply hash_not_plain].
        destruct (F !! k) eqn:HFk; [done|]. unfold value_of.
        destruct (F !! String "#" k) eqn:Hh; [|done]. exfalso. apply Hp, Hin. by rewrite Hh.
Qed.
End backrefs.

(** ** The dispatcher *)

Section dispatcher.
Context (fold : string -> string) (float64 : string -> option string).
Context {W : Type} (range : gset string -> list string).
Abbreviation dispatch := (@dispatchOne fold float64 W range).
Abbreviation dispatch_calls := (@dispatch_all fold float64 W range).
Abbreviation process := (@Process fold float64 W range).

(** The responses to one call. *)
Definition answers (call : Invocation) (block : list Invocation) : Prop :=
  block <> [] /\ Forall (fun i => CallID i = CallID call /\ isJSONObject (Args i) = true) block.

Lemma error_answers c call : answers call [error_invocation c (CallID call)].
Proof. split; [done|]. by apply Forall_singleton. Qed.

Lemma render_answers call results out :
  results <> [] -> mapM (render (CallID call)) results = Some out -> answers call out.
Proof.
  intros Hne Hm. split.
  - intros ->. apply mapM_Some_1, Forall2_length in Hm. by destruct results.
  - apply mapM_Some_1 in Hm. clear Hne. induction Hm as [|[n r] i results out Hi _ IH]; [done|].
    constructor; [|done]. unfold render in Hi. simpl in Hi.
    destruct r as [j|]; [|done]. destruct (isJSONObject j) eqn:Hj; [|done]. by simplify_eq.
Qed.

Lemma dispatchOne_answers e opted prior call w : answers call (dispatch e opted prior call w).2.
Proof.
  unfold dispatchOne. destruct (e_registry e !! Name call) as [m|]; [|apply error_answers].
  case_decide; [|apply error_answers].
  destruct (ResolveBackReferences _ _ _ _ _) as [c|args]; [apply error_answers|].
  destruct (run_method _ _ _ _) as [w' [c|[|r results]]]; try apply error_answers.
  destruct (mapM _ _) as [out|] eqn:Hm; [|apply error_answers]. by apply (render_answers call (r :: results)).
Qed.

Lemma dispatch_all_answers e opted responses calls w :
  exists blocks, (dispatch_calls e opted responses calls w).2 = (responses ++ List.concat blocks)%list /\
    Forall2 answers calls blocks.
Proof.
  revert responses w. induction calls as [|call calls IH]; intros responses w; simpl.
  { exists []. simpl. by rewrite app_nil_r. }
  pose proof (dispatchOne_answers e opted responses call w) as Ha.
  destruct (dispatch e opted responses call w) as [w' out]. simpl in Ha.
  destruct (IH (responses ++ out)%list w') as (blocks & Heq & Hb).
  exists (out :: blocks). rewrite Heq. simpl. rewrite (assoc_L (++)%list). split; [done|by constructor].
Qed.

(** C39: Every call is answered, in order. A request is processed exactly when it parses,
    opts into supported capabilities only and stays within maxCallsInRequest, and one
    that is refused runs no handler; the responses of a processed request are one
    non-empty block per call, in the order of the calls, each response an object
    under the id of its call, whatever the handlers do: fail, panic, return nothing or
    return something that is not an object. *)
Theorem process_answers_every_call (e : Engine) (b : body) (state : string) (w : W) :
  match process e b state w with
  | (w', inl _) => w' = w /\ forall req, ParseRequest fold b = inr req ->
      ~ Forall (fun c => c ∈ e_capabilities e) (Using req) \/
      MaxCallsInRequest (e_limits e) < Z.of_nat (List.length (MethodCalls req))
  | (w', inr resp) => exists req blocks,
      ParseRequest fold b = inr req /\
      Forall (fun c => c ∈ e_capabilities e) (Using req) /\
      Z.of_nat (List.length (MethodCalls req)) <= MaxCallsInRequest (e_limits e) /\
      MethodResponses resp = List.concat blocks /\ Forall2 answers (MethodCalls req) blocks /\
      SessionState resp = state /\ (is_Some (rs_CreatedIDs resp) <-> is_Some (CreatedIDs req))
  end.
Proof.
  unfold Process. destruct (ParseRequest fold b) as [rerr|req] eqn:Hp; [by split|].
  destruct (forallb _ (Using req)) eqn:Hcap.
  - destruct (MaxCallsInRequest (e_limits e) <? Z.of_nat (List.length (MethodCalls req))) eqn:Hmax.
    { split; [done|]. intros ? [= <-]. right. by apply Z.ltb_lt. }
    destruct (dispatch_all_answers e (Using req) [] (MethodCalls req) (default ∅ (CreatedIDs req), w))
      as (blocks & Heq & Hb).
    destruct (dispatch_calls _ _ _ _ _) as [[created w'] responses]. simpl in *.
    exists req, blocks. split_and!; [done| |by apply Z.ltb_ge|done|done|done|].
    + apply Forall_forall. intros c Hc. rewrite forallb_forall in Hcap.
      apply (bool_decide_eq_true_1 _), Hcap. by apply list_elem_of_In.
    + destruct (CreatedIDs req); split; intros [? ?]; try done; eauto.
  - split; [done|]. intros ? [= <-]. left. intros Hall.
    assert (forallb (fun c => bool_decide (c ∈ e_capabilities e)) (Using req) = true); [|congruence].
    apply forallb_forall. intros c Hc%list_elem_of_In. apply bool_decide_eq_true.
    by apply (proj1 (Forall_forall _ _) Hall).
Qed.

(** The engine without the methods of capabilities the request does not name. *)
Definition opted_in (opted : list string) (e : Engine) : @Engine W :=
  {| e_registry := filter (fun kv => rm_capability kv.2 ∈ opted) (e_registry e);
     e_limits := e_limits e; e_capabilities := e_capabilities e |}.

Lemma dispatchOne_opted e opted prior call w :
  dispatch (opted_in opted e) opted prior call w = dispatch e opted prior call w.
Proof.
  unfold dispatchOne, opted_in. cbn [e_registry]. rewrite map_lookup_filter.
  destruct (e_registry e !! Name call) as [m|]; [|done].
  cbn [mbind option_bind]. destruct (decide (rm_capability m ∈ opted)) as [Hin|Hout].
  - rewrite option_guard_True by done. simpl. by rewrite decide_True.
  - by rewrite option_guard_False.
Qed.

Lemma dispatch_all_opted e opted responses calls w :
  dispatch_calls (opted_in opted e) opted responses calls w = dispatch_calls e opted responses calls w.
Proof.
  revert responses w. induction calls as [|call calls IH]; intros responses w; [done|]. simpl.
  rewrite dispatchOne_opted. by destruct (dispatch e opted responses call w).
Qed.

(** What a request does not opt into does not exist for it. Processing a request is
    the same, responses and effects, as processing it on a server that has only the
    methods of the capabilities named in its "using". *)
Theorem unopted_methods_do_not_exist (e : Engine) (b : body) (state : string) (w : W) (req : Request) :
  ParseRequest fold b = inr req ->
  process (opted_in (Using req) e) b state w = process e b state w.
Proof.
  intros Hp. unfold Process. rewrite Hp. simpl. by rewrite dispatch_all_opted.
Qed.
End dispatcher.


(** ** Core/echo (echo.go), and concrete requests *)

Definition CapCore := "urn:ietf:params:jmap:core".
Definition echoHandler {W} (args : JSON) (w : @env W) : @env W * called (option JSON) :=
  (w, Done (Some args)).
Definition RegisterCore {W} (r : gmap string (@registeredMethod W)) : gmap string registeredMethod :=
  <["Core/echo" := mkMethod CapCore (Handler echoHandler)]> r.

Definition ids_query : list Invocation :=
  [mkInvocation "Email/query" (JObj [("ids", JArr [JStr "e1"; JStr "e2"])]) "a"].
Definition ids_get : list (string * JSON) :=
  [("accountId", JStr "a1");
   ("#ids", JObj [("resultOf", JStr "a"); ("name", JStr "Email/query"); ("path", JStr "/ids")])].

Lemma ids_get_plain : no_double_mark (members_of ids_get).
Proof.
  intros n [v Hv]. apply elem_of_list_to_map_2 in Hv. unfold ids_get in Hv.
  rewrite elem_of_reverse, !elem_of_cons, elem_of_nil in Hv.
  by destruct Hv as [[=]|[[= -> _]|[]]].
Qed.

Lemma backrefs_resolved_witness :
  exists l', ResolveBackReferences (fun s => s) Some elements (JObj ids_get) ids_query = inr (JObj l') /\
    members_of l' !! "ids" = Some (JArr [JStr "e1"; JStr "e2"]).
Proof.
  pose proof (backrefs_resolved (fun s => s) Some ids_query elements ids_get
    ltac:(done) ids_get_plain) as Hb. cbv zeta in Hb.
  assert (exists out, ResolveBackReferences (fun s => s) Some elements (JObj ids_get) ids_query = inr out)
    as [out Ho] by (eexists; vm_compute; reflexivity).
  rewrite Ho in Hb. destruct Hb as (_ & l' & -> & Hl'). exists l'. split; [exact Ho|].
  rewrite Hl'. vm_compute. reflexivity.
Defined.

Definition echo_body : body :=
  Body (JObj [("using", JArr [JStr CapCore]);
              ("methodCalls", JArr [JArr [JStr "Core/echo"; JObj [("x", JNum "1")]; JStr "c"]])]) "".
Definition core_engine : @Engine unit :=
  {| e_registry := RegisterCore ∅; e_limits := DefaultLimits; e_capabilities := {[CapCore]} |}.

Lemma unopted_methods_do_not_exist_witness :
  Process (fun s => s) Some elements (opted_in [CapCore] core_engine) echo_body "s" tt =
  (tt, inr (mkResponse [mkInvocation "Core/echo" (JObj [("x", JNum "1")]) "c"] None "s")).
Proof.
  transitivity (Process (fun s => s) Some elements core_engine echo_body "s" tt); [|vm_compute; reflexivity].
  exact (unopted_methods_do_not_exist (fun s => s) Some elements core_engine echo_body "s" tt
    (mkRequest [CapCore] [mkInvocation "Core/echo" (JObj [("x", JNum "1")]) "c"] None) ltac:(reflexivity)).
Defined.

(** Array indexes with a sign are taken, although RFC 6901 has only plain digits. *)
Example index_with_sign : arrayIndex "+1" 3 = Some 1%nat /\ arrayIndex "-0" 3 = Some 0%nat.
Proof. by vm_compute. Qed.

(** A closing bracket after the request is not seen as trailing data. *)
Example trailing_bracket :
  ParseRequest (fun s => s) (Body (JObj [("using", JArr []); ("methodCalls", JArr [])]) " ]x") =
  inr (mkRequest [] [] None).
Proof. by vm_compute. Qed.

(** A value of the wrong type is reported as not being JSON. *)
Example wrong_type_is_not_json :
  ParseRequest (fun s => s) (Body (JObj [("using", JStr "x"); ("methodCalls", JArr [])]) "") =
  inl (NewRequestError ProblemNotJSON).
Proof. by vm_compute. Qed.

(** With a doubly marked name the outcome depends on the order of the map. *)
Example double_mark_depends_on_order :
  let ref := JObj [("resultOf", JStr "a"); ("name", JStr "Email/query"); ("path", JStr "/ids")] in
  let resolve range := ResolveBackReferences (fun s => s) Some range
                         (JObj [("#x", ref); ("##x", ref)]) ids_query in
  resolve (fun _ => ["##x"; "#x"]) = inl CodeInvalidArguments /\
  exists out, resolve (fun _ => ["#x"; "##x"]) = inr out.
Proof. split; [by vm_compute|]. eexists. vm_compute. reflexivity. Qed.
