(* ===== verification/Changes.v ===== *)
(** Email/changes (src/internal/jmap/mail/changes.go, queries.go, queries_changes.go): the
    state strings, the change feed with its pages, the classification of RFC 8620 §5.2,
    and what a client that follows the pages ends up holding.

    The rows are those of one account, in no particular order; the two reads of a call
    see the same rows. *)

From S2P Require Import Prelude Text Jmap.
From Stdlib Require Import Ascii String.
#[local] Open Scope string_scope.
#[local] Open Scope Z_scope.

(** ** State strings *)

(** 1970-01-01 in nanoseconds since Go's zero time. *)
Definition unixEpoch : Time := 62135596800 * Second.
Definition UnixNano (t : Time) : Z := t - unixEpoch.
Definition UnixTime (n : Z) : Time := n + unixEpoch.

(** [stateFor], for instants since 1970. *)
Definition stateFor (watermark : Time) (count : Z) : string :=
  if IsZero watermark then "0-" ++ FormatInt 10 count
  else FormatInt 10 (UnixNano watermark) ++ "-" ++ FormatInt 10 count.

(** [stateForCursor]. *)
Definition stateForCursor (t : Time) : string := FormatInt 10 (UnixNano t) ++ "-0".

(** [cursorFromState]. *)
Definition cursorFromState (state : string) : ErrorCode + Time :=
  match Cut "-" state with
  | None => inl CodeCannotCalculateChanges
  | Some (nanos, _) =>
      match ParseInt 10 nanos with
      | None => inl CodeCannotCalculateChanges
      | Some n => if n <? 0 then inl CodeCannotCalculateChanges
                  else if n =? 0 then inr 0 else inr (UnixTime n)
      end
  end.

(** ** The feed *)

Record ChangeRow := mkChangeRow {
  cr_MessageID : Z;
  cr_MailboxID : Z;
  cr_CreatedAt : Time;
  cr_UpdatedAt : Time;
  cr_Destroyed : bool
}.

Definition defaultChangesLimit : Z := 256.
Definition maxChangesCeiling : Z := 4096.

(** ORDER BY updated_at, message_id. *)
Definition change_le (x y : ChangeRow) : Prop :=
  cr_UpdatedAt x < cr_UpdatedAt y \/
  (cr_UpdatedAt x = cr_UpdatedAt y /\ cr_MessageID x <= cr_MessageID y).
#[global] Instance change_le_dec : RelDecision change_le.
Proof. intros x y. unfold change_le. apply _. Defined.

Definition feed (rows : list ChangeRow) (since : Time) : list ChangeRow :=
  merge_sort change_le (filter (fun r => since < cr_UpdatedAt r) rows).

(** [changedSinceRows]. *)
Definition changedSinceRows (rows : list ChangeRow) (since : Time) (limit : Z) : list ChangeRow :=
  let limit := if limit <=? 0 then defaultChangesLimit else limit in
  take (Z.to_nat limit) (feed rows since).

(** [newestChangeAt], and the watermark of [dataState]. *)
Definition newestChangeAt (rows : list ChangeRow) : Time :=
  let newest := foldr Z.max unixEpoch (cr_UpdatedAt <$> rows) in
  if newest <? unixEpoch + Second then 0 else newest.

(** [dataState], the EmailState of the account. *)
Definition dataState (rows : list ChangeRow) : string :=
  stateFor (newestChangeAt rows) (Z.of_nat (List.length rows)).

(** [checkCursorReachable]. *)
Definition checkCursorReachable (rows : list ChangeRow) (since : Time) : option ErrorCode :=
  if IsZero since then None
  else let newest := newestChangeAt rows in
       if IsZero newest then None
       else if newest <? since then Some CodeCannotCalculateChanges else None.

Record changeWindow := mkWindow {
  cw_rows : list ChangeRow;
  cw_since : Time;
  cw_newState : string;
  cw_hasMore : bool
}.

(** [loadChangeWindow]. *)
Definition loadChangeWindow (rows : list ChangeRow) (sinceState : string) (maxChanges : option Z)
    : ErrorCode + changeWindow :=
  match cursorFromState sinceState with
  | inl e => inl e
  | inr since =>
      match checkCursorReachable rows since with
      | Some e => inl e
      | None =>
          let limit := match maxChanges with
                       | Some n => Z.min n maxChangesCeiling
                       | None => defaultChangesLimit
                       end in
          let got := changedSinceRows rows since (limit + 1) in
          if (Z.to_nat limit <? List.length got)%nat then
            let page := take (Z.to_nat limit) got in
            inr (mkWindow page since
                   (stateForCursor (default 0 (cr_UpdatedAt <$> last page))) true)
          else inr (mkWindow got since (dataState rows) false)
      end
  end.

(** ** Classification *)

Inductive changeKind := changeCreated | changeUpdated | changeDestroyed | changeOmitted.
#[global] Instance changeKind_eq : EqDecision changeKind.
Proof. solve_decision. Defined.

Definition classify (c : ChangeRow) (since : Time) : changeKind :=
  let created := IsZero since || (since <? cr_CreatedAt c) in
  if created && cr_Destroyed c then changeOmitted
  else if cr_Destroyed c then changeDestroyed
  else if created then changeCreated
  else changeUpdated.

Record changesResponse := mkChanges {
  ch_OldState : string;
  ch_NewState : string;
  ch_HasMoreChanges : bool;
  ch_Created : list string;
  ch_Updated : list string;
  ch_Destroyed : list string
}.

Definition EncodeEmailID (id : Z) : string := encodeID emailIDPrefix id.

Definition of_kind (k : changeKind) (w : changeWindow) : list string :=
  (fun r => EncodeEmailID (cr_MessageID r)) <$>
    filter (fun r => classify r (cw_since w) = k) (cw_rows w).

Record Caller := mkCaller { ca_AccountID : Z; ca_ReadOnly : bool }.
Definition JMAPAccountID (c : Caller) : string := EncodeAccountID (ca_AccountID c).

Record changesRequest := mkChangesRequest {
  cq_AccountID : string;
  cq_SinceState : string;
  cq_MaxChanges : option Z
}.

Definition MaxUint64 : Z := 18446744073709551615.

Section handler.
Context (fold : string -> string).

(** A *uint64 member: its last value, nil if absent or null. *)
Definition uint_field (f : string) (o : list (string * JSON)) : option (option Z) :=
  foldl (fun acc kv =>
    if decide (fold kv.1 = fold f) then
      match kv.2 with
      | JNum n => acc ≫= fun _ =>
                  match parse_digits 10 0 n with
                  | Some v => if v <=? MaxUint64 then Some (Some v) else None
                  | None => None
                  end
      | JNull => acc ≫= fun _ => Some None
      | _ => None
      end
    else acc) (Some None) o.

(** [parseChanges]. *)
Definition parseChanges (caller : option Caller) (args : JSON) : ErrorCode + changesRequest :=
  match caller with
  | None => inl CodeForbidden
  | Some c =>
      let fields := match args with
                    | JObj o =>
                        a ← string_field fold "accountId" o; s ← string_field fold "sinceState" o;
                        m ← uint_field "maxChanges" o; Some (mkChangesRequest a s m)
                    | JNull => Some (mkChangesRequest "" "" None)
                    | _ => None
                    end in
      match fields with
      | None => inl CodeInvalidArguments
      | Some req =>
          if decide (cq_AccountID req = "") then inl CodeInvalidArguments
          else if decide (cq_AccountID req <> JMAPAccountID c) then inl CodeAccountNotFound
          else if decide (cq_SinceState req = "") then inl CodeInvalidArguments
          else if decide (cq_MaxChanges req = Some 0) then inl CodeInvalidArguments
          else inr req
      end
  end.

(** The body of [handleEmailChanges] once the arguments are read. *)
Definition email_changes (rows : list ChangeRow) (req : changesRequest) : ErrorCode + changesResponse :=
  match loadChangeWindow rows (cq_SinceState req) (cq_MaxChanges req) with
  | inl e => inl e
  | inr w => inr {| ch_OldState := cq_SinceState req; ch_NewState := cw_newState w;
                    ch_HasMoreChanges := cw_hasMore w;
                    ch_Created := of_kind changeCreated w;
                    ch_Updated := of_kind changeUpdated w;
                    ch_Destroyed := of_kind changeDestroyed w |}
  end.

(** [handleEmailChanges]. *)
Definition handleEmailChanges (rows : list ChangeRow) (caller : option Caller) (args : JSON)
    : ErrorCode + changesResponse :=
  match parseChanges caller args with
  | inl e => inl e
  | inr req => email_changes rows req
  end.

(** [queryChangesRefusal]. *)
Definition queryChangesRefusal (caller : option Caller) (args : JSON) : ErrorCode :=
  match caller with
  | None => CodeForbidden
  | Some c =>
      match (match args with
             | JObj o => string_field fold "accountId" o
             | JNull => Some ""
             | _ => None
             end) with
      | None => CodeInvalidArguments
      | Some a => if decide (a = "") then CodeInvalidArguments
                  else if decide (a <> JMAPAccountID c) then CodeAccountNotFound
                  else CodeCannotCalculateChanges
      end
  end.
End handler.

(** ** Mailbox/changes *)

Definition maxMailboxesPerChanges : Z := 1000.

(** [mergeMailboxIDs]. *)
Definition mergeMailboxIDs (a b : list Z) : list Z := merge_sort Z.le (remove_dups (a ++ b)%list).

(** [mailboxesWithMessageChanges] and [mailboxRowsChangedSince]; a mailbox row is its id
    and the instant it was last written. *)
Definition mailboxesWithMessageChanges (rows : list ChangeRow) (since : Time) (limit : Z) : list Z :=
  let limit := if limit <=? 0 then maxMailboxesPerChanges else limit in
  take (Z.to_nat limit) (merge_sort Z.le (remove_dups
    (cr_MailboxID <$> filter (fun r => since < cr_UpdatedAt r) rows))).
Definition mailboxRowsChangedSince (boxes : list (Z * Time)) (since : Time) (limit : Z) : list Z :=
  let limit := if limit <=? 0 then maxMailboxesPerChanges else limit in
  take (Z.to_nat limit) (merge_sort Z.le ((filter (fun b => since < b.2) boxes).*1)).

Definition countProperties : list string :=
  ["totalEmails"; "unreadEmails"; "totalThreads"; "unreadThreads"].

Definition EncodeMailboxID (id : Z) : string := encodeID mailboxIDPrefix id.
Definition EncodeThreadID (id : Z) : string := encodeID threadIDPrefix id.

(** [handleMailboxChanges] once the arguments are read; MailboxState is [dataState]. *)
Definition mailbox_changes (rows : list ChangeRow) (boxes : list (Z * Time)) (req : changesRequest)
    : ErrorCode + (changesResponse * option (list string)) :=
  match cursorFromState (cq_SinceState req) with
  | inl e => inl e
  | inr since =>
      match checkCursorReachable rows since with
      | Some e => inl e
      | None =>
          let counts := mailboxesWithMessageChanges rows since maxMailboxesPerChanges in
          let rowsChanged := mailboxRowsChangedSince boxes since maxMailboxesPerChanges in
          inr (mkChanges (cq_SinceState req) (dataState rows) false []
                 (EncodeMailboxID <$> mergeMailboxIDs counts rowsChanged) [],
               if decide (rowsChanged = [] /\ counts <> []) then Some countProperties else None)
      end
  end.

(** ** Thread/changes *)

Record ThreadChangeRow := mkThreadRow {
  tr_ID : Z;
  tr_ThreadID : Z;
  tr_CreatedAt : Time;
  tr_UpdatedAt : Time;
  tr_Destroyed : bool
}.

Definition thread_le (x y : ThreadChangeRow) : Prop :=
  tr_UpdatedAt x < tr_UpdatedAt y \/ (tr_UpdatedAt x = tr_UpdatedAt y /\ tr_ID x <= tr_ID y).
#[global] Instance thread_le_dec : RelDecision thread_le.
Proof. intros x y. unfold thread_le. apply _. Defined.

(** [ThreadRowsChangedSince]. *)
Definition ThreadRowsChangedSince (threads : list ThreadChangeRow) (since : Time) (limit : Z)
    : list ThreadChangeRow :=
  let limit := if limit <=? 0 then 100 else limit in
  take (Z.to_nat limit)
    (merge_sort thread_le (filter (fun t => since < tr_UpdatedAt t) threads)).

(** [ThreadRowWatermark]. *)
Definition ThreadRowWatermark (threads : list ThreadChangeRow) : Time :=
  match tr_UpdatedAt <$> threads with
  | [] => 0
  | t :: ts => foldr Z.max t ts
  end.

(** [parseStateString]. *)
Definition parseStateString (state : string) : option (Time * Z) :=
  '(nanos, countPart) ← Cut "-" state;
  n ← ParseInt 10 nanos;
  c ← ParseInt 10 countPart;
  Some (if n =? 0 then 0 else UnixTime n, c).

(** [ThreadState]: the later of the two watermarks. *)
Definition ThreadState (rows : list ChangeRow) (threads : list ThreadChangeRow) : string :=
  let messages := dataState rows in
  let watermark := ThreadRowWatermark threads in
  if IsZero watermark then messages
  else match parseStateString messages with
       | None => stateFor watermark 0
       | Some (messageWatermark, count) =>
           if messageWatermark <? watermark then stateFor watermark count else messages
       end.

(** The row as [classify] sees it. *)
Definition thread_kind (since : Time) (t : ThreadChangeRow) : changeKind :=
  classify (mkChangeRow (tr_ThreadID t) 0 (tr_CreatedAt t) (tr_UpdatedAt t) (tr_Destroyed t)) since.

(** [handleThreadChanges] once the arguments are read. *)
Definition thread_changes (rows : list ChangeRow) (threads : option (list ThreadChangeRow))
    (req : changesRequest) : ErrorCode + changesResponse :=
  match threads with
  | None => inl CodeCannotCalculateChanges
  | Some threads =>
      match cursorFromState (cq_SinceState req) with
      | inl e => inl e
      | inr since =>
          let limit := match cq_MaxChanges req with
                       | Some n => Z.min n maxChangesCeiling
                       | None => defaultChangesLimit
                       end in
          let got := ThreadRowsChangedSince threads since (limit + 1) in
          let hasMore := (Z.to_nat limit <? List.length got)%nat in
          let page := if hasMore then take (Z.to_nat limit) got else got in
          let ids k := (fun t => EncodeThreadID (tr_ThreadID t)) <$>
                         filter (fun t => thread_kind since t = k) page in
          inr {| ch_OldState := cq_SinceState req;
                 ch_NewState := if hasMore
                                then stateForCursor (default 0 (tr_UpdatedAt <$> last page))
                                else ThreadState rows threads;
                 ch_HasMoreChanges := hasMore;
                 ch_Created := ids changeCreated;
                 ch_Updated := ids changeUpdated;
                 ch_Destroyed := ids changeDestroyed |}
      end
  end.

(** ** A client

    It fetches what is created or updated, drops what is destroyed, and asks again from
    the new state while there is more. *)

Definition apply_changes (r : changesResponse) (cache : gset string) : gset string :=
  (cache ∪ list_to_set (ch_Created r) ∪ list_to_set (ch_Updated r)) ∖ list_to_set (ch_Destroyed r).

Fixpoint follow (fuel : nat) (rows : list ChangeRow) (maxChanges : option Z) (state : string)
    (cache : gset string) : option (string * gset string) :=
  match fuel with
  | O => None
  | S fuel =>
      match email_changes rows (mkChangesRequest "" state maxChanges) with
      | inl _ => None
      | inr r =>
          let cache := apply_changes r cache in
          if ch_HasMoreChanges r then follow fuel rows maxChanges (ch_NewState r) cache
          else Some (ch_NewState r, cache)
      end
  end.

(** ** Cursors *)

Definition datable (t : Time) : Prop := unixEpoch + Second <= t <= unixEpoch + MaxInt64.

Lemma cursor_of_parts n rest :
  0 < n <= MaxInt64 -> cursorFromState (FormatInt 10 n ++ String "-" rest) = inr (UnixTime n).
Proof.
  intros Hn. unfold cursorFromState. rewrite Cut_app by (apply FormatInt_no_dash; lia).
  rewrite ParseInt_FormatInt by lia.
  by rewrite (proj2 (Z.ltb_ge n 0)), (proj2 (Z.eqb_neq n 0)) by lia.
Qed.

Lemma cursor_roundtrip t : datable t -> cursorFromState (stateForCursor t) = inr t.
Proof.
  intros Ht. unfold stateForCursor, datable, Second, Millisecond in *.
  change "-0" with (String "-" "0"). rewrite cursor_of_parts by (unfold UnixNano; lia).
  f_equal. unfold UnixTime, UnixNano. lia.
Qed.

Lemma state_roundtrip t n : datable t -> cursorFromState (stateFor t n) = inr t.
Proof.
  intros Ht. unfold stateFor. unfold datable, unixEpoch, Second, Millisecond in *.
  assert (IsZero t = false) as -> by (apply Z.eqb_neq; lia).
  change ("-" ++ FormatInt 10 n) with (String "-" (FormatInt 10 n)).
  rewrite cursor_of_parts by (unfold UnixNano, unixEpoch, Second, Millisecond; lia).
  f_equal. unfold UnixTime, UnixNano. lia.
Qed.

(** ** Pages *)

#[global] Instance change_le_total : Total change_le.
Proof. intros x y. unfold change_le. lia. Qed.
#[global] Instance change_le_trans : Transitive change_le.
Proof. intros x y z. unfold change_le. lia. Qed.

Section pages.
Context (rows : list ChangeRow).
Hypothesis Hids : NoDup (cr_MessageID <$> rows).
Hypothesis Htimes : NoDup (cr_UpdatedAt <$> rows).
Hypothesis Hdates : Forall (fun r => datable (cr_UpdatedAt r) /\ 0 < cr_MessageID r <= MaxInt64) rows.

Lemma feed_elem since r : r ∈ feed rows since <-> r ∈ rows /\ since < cr_UpdatedAt r.
Proof. unfold feed. rewrite merge_sort_Permutation, list_elem_of_filter. tauto. Qed.

Lemma feed_nodup since : NoDup (feed rows since).
Proof.
  apply (NoDup_fmap_1 cr_UpdatedAt). unfold feed. rewrite merge_sort_Permutation.
  by apply NoDup_fmap_filter.
Qed.

(** Equal instants do not occur, so the feed is strictly ordered in time. *)
Lemma feed_sorted since :
  StronglySorted (fun x y => cr_UpdatedAt x < cr_UpdatedAt y) (feed rows since).
Proof.
  assert (StronglySorted change_le (feed rows since)) as Hs
    by (apply StronglySorted_merge_sort; apply _).
  assert (NoDup (cr_UpdatedAt <$> feed rows since)) as Hnd.
  { unfold feed. rewrite merge_sort_Permutation. by apply NoDup_fmap_filter. }
  induction Hs as [|x l Hs IH Hall]; [constructor|].
  rewrite fmap_cons, NoDup_cons in Hnd. destruct Hnd as [Hnin Hnd]. constructor; [by apply IH|].
  apply Forall_forall. intros y Hy. destruct (proj1 (Forall_forall _ _) Hall y Hy) as [?|[Heq _]]; [done|].
  destruct Hnin. rewrite Heq. by apply list_elem_of_fmap_2.
Qed.

(** Resuming after the [n]-th row gives what follows it. *)
Lemma feed_resume since n r :
  feed rows since !! n = Some r -> feed rows (cr_UpdatedAt r) = drop (S n) (feed rows since).
Proof.
  intros Hn. pose proof (feed_sorted since) as Hs.
  assert (AntiSymm eq (fun x y : ChangeRow => cr_UpdatedAt x < cr_UpdatedAt y)) by (intros ? ?; lia).
  apply (StronglySorted_unique (fun x y => cr_UpdatedAt x < cr_UpdatedAt y)).
  - apply feed_sorted.
  - eapply StronglySorted_app_1_r. by rewrite take_drop.
  - apply NoDup_Permutation.
    + apply feed_nodup.
    + eapply sublist_NoDup; [|apply sublist_drop]. apply feed_nodup.
    + intros x. rewrite feed_elem. pose proof Hs as Hs'.
      rewrite <-(take_drop (S n) (feed rows since)) in Hs'.
      assert (Hcross : forall y z, y ∈ take (S n) (feed rows since) -> z ∈ drop (S n) (feed rows since) ->
        cr_UpdatedAt y < cr_UpdatedAt z) by (intros y z Hy Hz; exact (StronglySorted_app_1_elem_of _ _ _ y z Hs' Hy Hz)).
      assert (Hr : r ∈ take (S n) (feed rows since)) by (apply elem_of_take; eauto with lia).
      assert (since < cr_UpdatedAt r) by (apply (feed_elem since r); by eapply list_elem_of_lookup_2).
      split.
      * intros [Hx Hlt]. assert (x ∈ feed rows since) as Hin by (apply feed_elem; split; [done|lia]).
        rewrite <-(take_drop (S n) (feed rows since)) in Hin.
        apply elem_of_app in Hin as [Hin|Hin]; [|done]. exfalso.
        rewrite (take_S_r _ _ _ Hn) in Hin, Hs'.
        apply elem_of_app in Hin as [Hin|Hin%list_elem_of_singleton]; [|subst; lia].
        apply StronglySorted_app_1_l in Hs'.
        pose proof (StronglySorted_app_1_elem_of _ _ _ x r Hs' Hin ltac:(by left)). simpl in *. lia.
      * intros Hx. pose proof (Hcross r x Hr Hx).
        assert (x ∈ feed rows since) as [? _]%feed_elem by (by eapply subseteq_drop).
        done.
Qed.

(** *** The client *)

Abbreviation wire r := (EncodeEmailID (cr_MessageID r)).

Lemma wire_inj r r' : r ∈ rows -> r' ∈ rows -> wire r = wire r' -> r = r'.
Proof.
  intros Hr Hr' Heq.
  destruct (proj1 (Forall_forall _ _) Hdates _ Hr) as [_ Hid].
  destruct (proj1 (Forall_forall _ _) Hdates _ Hr') as [_ Hid'].
  assert (cr_MessageID r = cr_MessageID r') as Hsame.
  { pose proof (decode_encode "e" _ Hid) as H1. pose proof (decode_encode "e" _ Hid') as H2.
    unfold EncodeEmailID, emailIDPrefix in Heq. congruence. }
  apply list_elem_of_lookup in Hr as [i Hi]. apply list_elem_of_lookup in Hr' as [j Hj].
  assert (i = j) as ->; [|congruence].
  eapply NoDup_lookup; [exact Hids| |]; rewrite list_lookup_fmap; [by rewrite Hi|].
  by rewrite Hj, Hsame.
Qed.

(** What a client in sync at [c0] holds of a row: it was there, and not yet gone. *)
Definition known (c0 : Time) (r : ChangeRow) : bool :=
  negb (IsZero c0) && (cr_CreatedAt r <=? c0) && (negb (cr_Destroyed r) || (c0 <? cr_UpdatedAt r)).

(** The cache of a client that has followed the feed up to [c]. *)
Definition followed (c0 c : Time) (cache : gset string) : Prop :=
  forall id, id ∈ cache <-> exists r, r ∈ rows /\ id = wire r /\
    (if cr_UpdatedAt r <=? c then cr_Destroyed r = false else known c0 r = true).

Lemma of_kind_elem k w id :
  id ∈ of_kind k w <-> exists r, r ∈ cw_rows w /\ id = wire r /\ classify r (cw_since w) = k.
Proof.
  unfold of_kind. rewrite list_elem_of_fmap. setoid_rewrite list_elem_of_filter. naive_solver.
Qed.

Lemma classify_omitted c0 c r :
  0 <= c0 <= c -> classify r c = changeOmitted -> known c0 r = false.
Proof.
  intros Hc. unfold classify, known. destruct (IsZero c) eqn:Hz; unfold IsZero in *; bool_cases.
  - intros _. assert (c0 = 0) as -> by lia. done.
  - destruct (Z.ltb_spec c (cr_CreatedAt r)) as [Hlt|Hge]; destruct (cr_Destroyed r); simpl; try done.
    intros _. rewrite (proj2 (Z.leb_gt (cr_CreatedAt r) c0)) by lia. by rewrite andb_false_r.
Qed.

Lemma classify_live c r :
  classify r c = changeCreated \/ classify r c = changeUpdated <-> cr_Destroyed r = false.
Proof. unfold classify. destruct (IsZero c || _), (cr_Destroyed r); simpl; naive_solver. Qed.

(** One page takes the cache from [c] to [c']. *)
Lemma page_follows c0 c c' page cache old new more :
  0 <= c0 <= c -> (forall r, r ∈ rows -> r ∈ page <-> c < cr_UpdatedAt r <= c') ->
  (forall r, r ∈ page -> r ∈ rows) -> c <= c' -> followed c0 c cache ->
  let w := mkWindow page c new more in
  followed c0 c' (apply_changes
    (mkChanges old new more (of_kind changeCreated w) (of_kind changeUpdated w)
               (of_kind changeDestroyed w)) cache).
Proof.
  intros Hc Hpage Hsub Hle Hcache w id.
  unfold apply_changes. simpl. rewrite elem_of_difference, !elem_of_union, !elem_of_list_to_set.
  rewrite !of_kind_elem. simpl. rewrite (Hcache id). clear Hcache.
  pose proof (classify_live c) as Hlive.
  split.
  - intros [Hin Hnot].
    assert (exists r, r ∈ rows /\ id = wire r /\
      ((if cr_UpdatedAt r <=? c then cr_Destroyed r = false else known c0 r = true) \/
       (r ∈ page /\ cr_Destroyed r = false))) as (r & Hr & -> & Hcase).
    { destruct Hin as [[(r & Hr & -> & H)|(r & Hr & -> & H)]|(r & Hr & -> & H)]; exists r; naive_solver. }
    exists r. split_and!; [done|done|].
    destruct (Z.leb_spec (cr_UpdatedAt r) c') as [Hu|Hu].
    + destruct Hcase as [Hcase|[_ Hcase]]; [|done].
      destruct (Z.leb_spec (cr_UpdatedAt r) c) as [Hu'|Hu']; [done|].
      assert (r ∈ page) as Hrp by (apply Hpage; [done|lia]).
      destruct (cr_Destroyed r) eqn:Hd; [|done]. exfalso.
      destruct (classify r c) eqn:Hk.
      * assert (cr_Destroyed r = false) by (apply Hlive; auto). congruence.
      * assert (cr_Destroyed r = false) by (apply Hlive; auto). congruence.
      * apply Hnot. by exists r.
      * by rewrite (classify_omitted c0 c r) in Hcase.
    + destruct Hcase as [Hcase|[Hrp _]].
      * by rewrite (proj2 (Z.leb_gt (cr_UpdatedAt r) c)) in Hcase by lia.
      * apply Hpage in Hrp; [lia|done].
  - intros (r & Hr & -> & Hcase).
    destruct (Z.leb_spec (cr_UpdatedAt r) c') as [Hu|Hu].
    + split.
      * destruct (Z.leb_spec (cr_UpdatedAt r) c) as [Hu'|Hu'].
        { left. left. exists r. by rewrite (proj2 (Z.leb_le (cr_UpdatedAt r) c)). }
        assert (r ∈ page) as Hrp by (apply Hpage; [done|lia]).
        apply Hlive in Hcase as [Hk|Hk]; [left; right|right]; by exists r.
      * intros (r' & Hr' & Heq & Hk). assert (r = r') as <- by (apply wire_inj; auto).
        unfold classify in Hk. rewrite Hcase in Hk. by destruct (IsZero c || _).
    + split.
      * left. left. exists r. by rewrite (proj2 (Z.leb_gt (cr_UpdatedAt r) c)) by lia.
      * intros (r' & Hr' & Heq & Hk). assert (r = r') as <- by (apply wire_inj; auto).
        apply Hpage in Hr'; [lia|done].
Qed.

(** *** Following the feed *)

Lemma newest_ge r : r ∈ rows -> cr_UpdatedAt r <= newestChangeAt rows.
Proof.
  intros Hr. destruct (proj1 (Forall_forall _ _) Hdates _ Hr) as [[Hd _] _].
  assert (cr_UpdatedAt r <= foldr Z.max unixEpoch (cr_UpdatedAt <$> rows)) as Hle.
  { clear Hids Htimes Hdates Hd. induction rows as [|x l IH]; [by apply not_elem_of_nil in Hr|].
    rewrite fmap_cons. cbn [foldr]. apply elem_of_cons in Hr as [->|Hr]; [lia|]. specialize (IH Hr). lia. }
  unfold newestChangeAt. destruct (Z.ltb_spec (foldr Z.max unixEpoch (cr_UpdatedAt <$> rows))
    (unixEpoch + Second)); lia.
Qed.

Lemma reachable_row r : r ∈ rows -> checkCursorReachable rows (cr_UpdatedAt r) = None.
Proof.
  intros Hr. pose proof (newest_ge r Hr). unfold checkCursorReachable.
  destruct (IsZero _); [done|]. destruct (IsZero _); [done|].
  by rewrite (proj2 (Z.ltb_ge _ _)).
Qed.

Definition limit_of (maxChanges : option Z) : Z :=
  match maxChanges with Some n => Z.min n maxChangesCeiling | None => defaultChangesLimit end.

(** The rows of a page are those up to its last one. *)
Lemma page_elem c n r x :
  feed rows (cr_UpdatedAt r) = drop n (feed rows c) -> x ∈ rows -> c < cr_UpdatedAt r ->
  x ∈ take n (feed rows c) <-> c < cr_UpdatedAt x <= cr_UpdatedAt r.
Proof.
  intros Hres Hx Hcr. pose proof (feed_nodup c) as Hnd.
  pose proof (feed_elem c x) as Hc. pose proof (feed_elem (cr_UpdatedAt r) x) as Hr.
  rewrite Hres in Hr. rewrite <-(take_drop n (feed rows c)), elem_of_app in Hc.
  rewrite <-(take_drop n (feed rows c)) in Hnd. apply NoDup_app in Hnd as (_ & Hdisj & _).
  split.
  - intros Ht. assert (c < cr_UpdatedAt x) by (apply Hc; auto). split; [done|].
    apply Z.nlt_ge. intros Hlt. apply (Hdisj x Ht), Hr. done.
  - intros [Hcx Hle]. destruct (proj2 Hc) as [?|Hd]; [done|done|].
    apply Hr in Hd as [_ ?]. lia.
Qed.

Lemma follow_converges fuel c0 c maxChanges state cache :
  0 <= c0 <= c -> 1 <= limit_of maxChanges ->
  cursorFromState state = inr c -> checkCursorReachable rows c = None ->
  (List.length (feed rows c) < fuel)%nat -> followed c0 c cache ->
  exists cache', follow fuel rows maxChanges state cache = Some (dataState rows, cache') /\
    followed c0 (Z.max c (newestChangeAt rows)) cache'.
Proof.
  intros Hc0 Hlim. revert c state cache Hc0.
  induction fuel as [|fuel IH]; intros c state cache Hc0 Hcur Hreach Hfuel Hcache; [lia|].
  cbn [follow]. unfold email_changes, loadChangeWindow. cbn [cq_SinceState cq_MaxChanges].
  rewrite Hcur, Hreach. fold (limit_of maxChanges). set (n := limit_of maxChanges) in *.
  unfold changedSinceRows. rewrite (proj2 (Z.leb_gt (n + 1) 0)) by lia.
  rewrite length_take. replace (Z.to_nat (n + 1)) with (S (Z.to_nat n)) by lia.
  destruct (Nat.ltb_spec (Z.to_nat n) (S (Z.to_nat n) `min` List.length (feed rows c))) as [Hmore|Hlast].
  - rewrite take_take, Nat.min_l by lia. cbn [cw_hasMore ch_HasMoreChanges ch_NewState cw_newState].
    set (page := take (Z.to_nat n) (feed rows c)).
    destruct (lookup_lt_is_Some_2 (feed rows c) (Nat.pred (Z.to_nat n))) as [r Hr]; [lia|].
    assert (last page = Some r) as Hlastr.
    { rewrite last_lookup. unfold page. rewrite length_take, Nat.min_l, lookup_take_lt by lia. done. }
    assert (r ∈ rows /\ c < cr_UpdatedAt r) as [Hrr Hcr]
      by (apply feed_elem; by eapply list_elem_of_lookup_2).
    pose proof (feed_resume c (Nat.pred (Z.to_nat n)) r Hr) as Hres.
    rewrite Nat.succ_pred in Hres by lia.
    rewrite Hlastr. simpl default.
    match goal with |- context [follow fuel _ _ _ ?ca] => set (next := ca) end.
    destruct (IH (cr_UpdatedAt r) (stateForCursor (cr_UpdatedAt r)) next ltac:(lia)
      (cursor_roundtrip _ (proj1 (proj1 (Forall_forall _ _) Hdates _ Hrr))) (reachable_row r Hrr))
      as (cache' & Hf & Hfin).
    + rewrite Hres, length_drop. lia.
    + apply (page_follows c0 c (cr_UpdatedAt r) page cache); [lia| | |lia|exact Hcache].
      * intros x Hx. by apply (page_elem c (Z.to_nat n)).
      * intros x Hx. apply (feed_elem c). by eapply subseteq_take.
    + exists cache'. split; [exact Hf|].
      by rewrite Z.max_r in Hfin |- * by (pose proof (newest_ge r Hrr); lia).
  - rewrite take_ge by lia. cbn [cw_hasMore ch_HasMoreChanges ch_NewState cw_newState].
    eexists. split; [reflexivity|].
    apply (page_follows c0 c _ (feed rows c) cache); [lia| | |lia|exact Hcache].
    + intros x Hx. rewrite feed_elem. pose proof (newest_ge x Hx). split; [intros [_ ?]; lia|].
      intros ?. split; [done|lia].
    + intros x Hx. by apply (feed_elem c).
Qed.
End pages.

Lemma cursor_nonneg s c : cursorFromState s = inr c -> 0 <= c.
Proof.
  unfold cursorFromState. repeat case_match; try done; intros [= <-]; [done|].
  bool_cases. unfold UnixTime, unixEpoch, Second, Millisecond. lia.
Qed.

Definition wire_ids (P : ChangeRow -> bool) (rows : list ChangeRow) : gset string :=
  list_to_set ((fun r => EncodeEmailID (cr_MessageID r)) <$> filter (fun r => P r = true) rows).

Lemma wire_ids_elem P rows id :
  id ∈ wire_ids P rows <-> exists r, r ∈ rows /\ id = EncodeEmailID (cr_MessageID r) /\ P r = true.
Proof.
  unfold wire_ids. rewrite elem_of_list_to_set, list_elem_of_fmap.
  setoid_rewrite list_elem_of_filter. naive_solver.
Qed.

(** The rows of an account: ids of the table, instants PostgreSQL gives, a message
    created no later than it was last touched. *)
Record table (rows : list ChangeRow) : Prop := {
  table_ids : NoDup (cr_MessageID <$> rows);
  table_dates : Forall (fun r => datable (cr_UpdatedAt r) /\ 0 < cr_MessageID r <= MaxInt64) rows;
  table_created : Forall (fun r => cr_CreatedAt r <= cr_UpdatedAt r) rows
}.

(** C38: A client that follows Email/changes converges. When no two rows were touched at
    the same instant, a client that holds what was there at its state, and follows the
    pages with any maxChanges, finishes after at most one call per row and one more,
    with the account's current state string and exactly the messages that exist. *)
Theorem changes_converge (rows : list ChangeRow) (maxChanges : option Z) (state : string) (c0 : Time) :
  table rows -> NoDup (cr_UpdatedAt <$> rows) ->
  cursorFromState state = inr c0 -> checkCursorReachable rows c0 = None ->
  (forall n, maxChanges = Some n -> 1 <= n) ->
  follow (S (List.length rows)) rows maxChanges state (wire_ids (known c0) rows) =
    Some (dataState rows, wire_ids (fun r => negb (cr_Destroyed r)) rows).
Proof.
  intros [Hids Hdates Hcr] Htimes Hcur Hreach Hmax. pose proof (cursor_nonneg _ _ Hcur) as Hc0.
  destruct (follow_converges rows Hids Htimes Hdates (S (List.length rows)) c0 c0 maxChanges state
    (wire_ids (known c0) rows)) as (cache' & -> & Hfin); [lia| |done|done| | |].
  - unfold limit_of, maxChangesCeiling, defaultChangesLimit. destruct maxChanges as [n|]; [|lia].
    specialize (Hmax n eq_refl). lia.
  - unfold feed. rewrite merge_sort_Permutation. apply Nat.lt_succ_r, length_filter.
  - intros id. rewrite wire_ids_elem. split; intros (r & Hr & -> & Hk); exists r; split_and!; try done.
    + destruct (Z.leb_spec (cr_UpdatedAt r) c0) as [Hu|Hu]; [|done].
      unfold known in Hk. rewrite (proj2 (Z.ltb_ge c0 (cr_UpdatedAt r)) Hu), orb_false_r in Hk.
      by destruct (cr_Destroyed r); [rewrite andb_false_r in Hk|].
    + destruct (Z.leb_spec (cr_UpdatedAt r) c0) as [Hu|Hu]; [|done].
      pose proof (proj1 (Forall_forall _ _) Hcr _ Hr) as Hle. simpl in Hle.
      destruct (proj1 (Forall_forall _ _) Hdates _ Hr) as [[Hd _] _].
      unfold known. rewrite Hk, (proj2 (Z.leb_le (cr_CreatedAt r) c0)) by lia.
      unfold IsZero. rewrite (proj2 (Z.eqb_neq c0 0)); [done|].
      unfold unixEpoch, Second, Millisecond in Hd. lia.
  - f_equal. f_equal. apply set_eq. intros id. rewrite (Hfin id), wire_ids_elem.
    split; intros (r & Hr & -> & Hk); exists r; split_and!; try done;
      pose proof (newest_ge rows Hdates r Hr);
      rewrite (proj2 (Z.leb_le (cr_UpdatedAt r) (Z.max c0 (newestChangeAt rows)))) in * by lia;
      by destruct (cr_Destroyed r).
Qed.

(** *** Concrete accounts *)

Definition at_second (n : Z) : Time := unixEpoch + n * Second.
Definition row (id created updated : Z) (gone : bool) : ChangeRow :=
  mkChangeRow id 1 (at_second created) (at_second updated) gone.

Definition three_rows : list ChangeRow := [row 1 10 40 false; row 2 20 30 true; row 3 25 25 false].

Lemma three_rows_table : table three_rows.
Proof.
  split.
  - apply (bool_decide_unpack _). by vm_compute.
  - repeat constructor; vm_compute; congruence.
  - repeat constructor; vm_compute; congruence.
Qed.

Lemma changes_converge_witness :
  follow 4 three_rows (Some 1) (stateForCursor (at_second 22)) (wire_ids (known (at_second 22)) three_rows) =
  Some (dataState three_rows, wire_ids (fun r => negb (cr_Destroyed r)) three_rows).
Proof.
  apply (changes_converge three_rows (Some 1) (stateForCursor (at_second 22)) (at_second 22)).
  - exact three_rows_table.
  - apply (bool_decide_unpack _). by vm_compute.
  - vm_compute. reflexivity.
  - vm_compute. reflexivity.
  - intros n [= <-]. lia.
Defined.

(** Rows touched at the same instant can be lost between two pages. Three messages
    stored by one transaction share its instant; a client asking for two changes at a
    time is told of the first two, resumes after that instant, and never hears of the
    third, although it ends with the account's current state. *)
Theorem equal_instants_lost :
  let rows := [row 1 30 30 false; row 2 30 30 false; row 3 30 30 false] in
  table rows /\
  follow 4 rows (Some 2) (stateForCursor (at_second 22)) ∅ = 
    Some (dataState rows, {["e1"; "e2"]}) /\
  wire_ids (fun r => negb (cr_Destroyed r)) rows = {["e1"; "e2"; "e3"]}.
Proof.
  split_and!; [|vm_compute; reflexivity..]. split.
  - apply (bool_decide_unpack _). by vm_compute.
  - repeat constructor; vm_compute; congruence.
  - repeat constructor; vm_compute; congruence.
Qed.

(** A message created before the cursor of a later page and touched after it is only
    ever reported as updated. *)
Example creation_reported_as_update :
  let rows := [row 1 26 40 false; row 2 27 30 false] in
  (fun r => match r with inr r => (ch_Created r, ch_Updated r) | inl _ => ([], []) end) <$>
    [email_changes rows (mkChangesRequest "" (stateForCursor (at_second 22)) (Some 1));
     email_changes rows (mkChangesRequest "" (stateForCursor (at_second 30)) (Some 1))] =
  [(["e2"], []); ([], ["e1"])].
Proof. vm_compute. reflexivity. Qed.

(** A folder that is rebuilt takes its rows with it: the ids it had are never reported
    destroyed. *)
Example rebuilt_folder_leaves_ghosts :
  let before := [row 1 10 10 false; row 2 20 20 false] in
  let after := [row 2 20 20 false; row 3 30 30 false] in
  wire_ids (known (at_second 20)) before = {["e1"; "e2"]} /\
  follow 9 after None (dataState before) {["e1"; "e2"]} = Some (dataState after, {["e1"; "e2"; "e3"]}).
Proof. split; vm_compute; reflexivity. Qed.

Lemma existsb_filter {A} (P : A -> Prop) `{!forall x, Decision (P x)} (p : A -> bool) l :
  (forall x, p x = true <-> P x) -> existsb p l = negb (bool_decide (filter P l = [])).
Proof.
  intros Hp. induction l as [|x l IH]; [done|]. simpl. rewrite filter_cons.
  case_decide as Hx.
  - by rewrite (proj2 (Hp x) Hx).
  - destruct (p x) eqn:Hpx; [by destruct Hx; apply Hp|]. exact IH.
Qed.

Lemma forallb_existsb {A} (p q : A -> bool) l :
  (forall x, p x = negb (q x)) -> forallb p l = negb (existsb q l).
Proof. intros Hp. induction l as [|x l IH]; [done|]. simpl. by rewrite Hp, IH, negb_orb. Qed.

Lemma touched_mailboxes rows (boxes : list (Z * Time)) c :
  (List.length boxes <= 1000)%nat -> (forall r, r ∈ rows -> cr_MailboxID r ∈ boxes.*1) ->
  mailboxesWithMessageChanges rows c maxMailboxesPerChanges =
    merge_sort Z.le (remove_dups (cr_MailboxID <$> filter (fun r => c < cr_UpdatedAt r) rows)).
Proof.
  intros Hlen Hbox. unfold mailboxesWithMessageChanges. apply take_ge.
  rewrite merge_sort_Permutation. etrans; [|exact Hlen]. rewrite <-(length_fmap fst boxes).
  apply submseteq_length, NoDup_submseteq; [apply NoDup_remove_dups|].
  intros x (r & -> & [_ Hr]%list_elem_of_filter)%elem_of_remove_dups%list_elem_of_fmap. by apply Hbox.
Qed.

Lemma touched_rows boxes c :
  (List.length boxes <= 1000)%nat ->
  mailboxRowsChangedSince boxes c maxMailboxesPerChanges =
    merge_sort Z.le ((filter (fun b => c < b.2) boxes).*1).
Proof.
  intros Hlen. unfold mailboxRowsChangedSince. apply take_ge.
  rewrite merge_sort_Permutation, length_fmap. etrans; [apply length_filter|exact Hlen].
Qed.

Lemma merge_sort_nil (l : list Z) : merge_sort Z.le l = [] <-> l = [].
Proof.
  pose proof (merge_sort_Permutation Z.le l) as Hp. split; intros Heq.
  - rewrite Heq in Hp. by apply Permutation_nil_l in Hp.
  - rewrite Heq in Hp |- *. by apply Permutation_nil_r in Hp.
Qed.

Lemma touched_nil {A} (f : A -> Z) (l : list A) : remove_dups (f <$> l) = [] <-> l = [].
Proof.
  split; [|by intros ->]. destruct l as [|x l]; [done|]. intros Heq. exfalso.
  assert (f x ∈ remove_dups (f <$> x :: l)) as Hin by (apply elem_of_remove_dups; left).
  rewrite Heq in Hin. by apply not_elem_of_nil in Hin.
Qed.

(** Mailbox/changes names exactly the mailboxes that changed. While an account has
    at most a thousand folders, the reported mailboxes are those of the messages touched
    since the cursor together with the rows written since, each once and in order; the
    four count properties are given exactly when some count moved and no row did. *)
Theorem mailbox_changes_exact (rows : list ChangeRow) (boxes : list (Z * Time)) (state : string)
    (c : Time) :
  cursorFromState state = inr c -> checkCursorReachable rows c = None ->
  (List.length boxes <= 1000)%nat -> (forall r, r ∈ rows -> cr_MailboxID r ∈ boxes.*1) ->
  exists ids,
    mailbox_changes rows boxes (mkChangesRequest "" state None) =
      inr (mkChanges state (dataState rows) false [] (EncodeMailboxID <$> ids) [],
           if forallb (fun b => b.2 <=? c) boxes && existsb (fun r => c <? cr_UpdatedAt r) rows
           then Some countProperties else None) /\
    StronglySorted Z.le ids /\ NoDup ids /\
    forall id, id ∈ ids <-> (exists r, r ∈ rows /\ c < cr_UpdatedAt r /\ cr_MailboxID r = id) \/
                            (exists t, (id, t) ∈ boxes /\ c < t).
Proof.
  intros Hcur Hreach Hlen Hbox. unfold mailbox_changes. cbn [cq_SinceState]. rewrite Hcur, Hreach.
  rewrite (touched_mailboxes _ _ _ Hlen Hbox), (touched_rows _ _ Hlen).
  set (ms := filter (fun r => c < cr_UpdatedAt r) rows). set (bs := filter (fun b => c < b.2) boxes).
  eexists. split_and!; [f_equal; f_equal| | |].
  - rewrite (forallb_existsb _ (fun b => c <? b.2)) by (intros b; apply Z.leb_antisym).
    rewrite (existsb_filter (fun b => c < b.2)) by (intros b; apply Z.ltb_lt).
    rewrite (existsb_filter (fun r => c < cr_UpdatedAt r)) by (intros r; apply Z.ltb_lt).
    fold ms bs. rewrite negb_involutive, <-bool_decide_not, <-bool_decide_and.
    rewrite <-decide_bool_decide. apply decide_ext.
    rewrite !merge_sort_nil, touched_nil. destruct bs; simpl; split; intros [? ?]; by split.
  - apply StronglySorted_merge_sort; apply _.
  - unfold mergeMailboxIDs. rewrite merge_sort_Permutation. apply NoDup_remove_dups.
  - intros id. unfold mergeMailboxIDs. rewrite merge_sort_Permutation, elem_of_remove_dups, elem_of_app.
    rewrite !merge_sort_Permutation, elem_of_remove_dups, !list_elem_of_fmap.
    unfold ms, bs. setoid_rewrite list_elem_of_filter. split.
    + intros [(r & -> & Hc & Hr)|([i t] & -> & Hc & Hb)]; [left|right]; eauto.
    + intros [(r & Hr & Hc & <-)|(t & Hb & Hc)]; [left; eauto|right; exists (id, t); auto].
Qed.

Lemma mailbox_changes_exact_witness :
  exists ids, mailbox_changes three_rows [(1, at_second 5)] (mkChangesRequest "" (stateForCursor (at_second 22)) None) =
    inr (mkChanges (stateForCursor (at_second 22)) (dataState three_rows) false []
           (EncodeMailboxID <$> ids) [], Some countProperties) /\ 1 ∈ ids.
Proof.
  destruct (mailbox_changes_exact three_rows [(1, at_second 5)] (stateForCursor (at_second 22)) (at_second 22))
    as (ids & Heq & _ & _ & Hids).
  - vm_compute. reflexivity.
  - vm_compute. reflexivity.
  - simpl. lia.
  - intros r Hr. repeat (apply elem_of_cons in Hr as [->|Hr]; [left|]). by apply not_elem_of_nil in Hr.
  - exists ids. split; [exact Heq|]. apply Hids. left. exists (row 1 10 40 false).
    split_and!; [left|vm_compute; reflexivity|reflexivity].
Defined.

(** A renamed folder does not move the state string, and is reported again by every
    call until some message changes. *)
Example rename_keeps_state :
  let rows := [row 1 10 10 false] in
  let req := mkChangesRequest "" (dataState rows) None in
  mailbox_changes rows [(7, at_second 50)] req =
    inr (mkChanges (dataState rows) (dataState rows) false [] ["m7"] [], None).
Proof. vm_compute. reflexivity. Qed.
