(* ===== verification/GoStrings.v ===== *)
(** More of Go's package strings over byte strings: searching, replacing, trimming and
    joining, as the Sieve code uses them. [strings.Index] and the like return a
    position; [take_s] and [drop_s] are the slices [s[:n]] and [s[n:]]. *)

From S2P Require Import Prelude Text.
From Stdlib Require Import Ascii String.
#[local] Open Scope string_scope.
#[local] Open Scope Z_scope.

(** ** Slices and searches *)

Fixpoint take_s (n : nat) (s : string) : string :=
  match n, s with
  | S n, String c s => String c (take_s n s)
  | _, _ => EmptyString
  end.
Fixpoint drop_s (n : nat) (s : string) : string :=
  match n, s with
  | S n, String _ s => drop_s n s
  | _, _ => s
  end.

(** [strings.Index] and [strings.LastIndex]. *)
Fixpoint Index (s sub : string) : option nat :=
  if HasPrefix s sub then Some 0%nat
  else match s with
       | EmptyString => None
       | String _ s => S <$> Index s sub
       end.
Fixpoint LastIndex (s sub : string) : option nat :=
  match s with
  | EmptyString => if HasPrefix EmptyString sub then Some 0%nat else None
  | String _ s' =>
      match LastIndex s' sub with
      | Some n => Some (S n)
      | None => if HasPrefix s sub then Some 0%nat else None
      end
  end.
Definition Contains (s sub : string) : bool := match Index s sub with Some _ => true | None => false end.

Fixpoint HasSuffix (s x : string) : bool :=
  String.eqb s x || match s with EmptyString => false | String _ s => HasSuffix s x end.
Definition TrimPrefix (s p : string) : string := default s (CutPrefix s p).
Fixpoint TrimSuffix (s x : string) : string :=
  if String.eqb s x then EmptyString
  else match s with EmptyString => EmptyString | String c s => String c (TrimSuffix s x) end.

(** [strings.ReplaceAll] of a non-empty pattern: [skip] bytes of the occurrence found
    last remain to be passed. *)
Fixpoint replace_from (old new : string) (skip : nat) (s : string) : string :=
  match s with
  | EmptyString => EmptyString
  | String c s' =>
      match skip with
      | S k => replace_from old new k s'
      | O => if HasPrefix s old then new +:+ replace_from old new (pred (String.length old)) s'
             else String c (replace_from old new 0 s')
      end
  end.
Definition ReplaceAll (s old new : string) : string := replace_from old new 0 s.

(** [strings.Join]. *)
Fixpoint JoinStr (sep : string) (l : list string) : string :=
  match l with
  | [] => EmptyString
  | [x] => x
  | x :: l => x +:+ sep +:+ JoinStr sep l
  end.

(** ** White space *)

Definition byte_val (c : ascii) : Z := Z.of_nat (nat_of_ascii c).
Definition is_byte (c : ascii) (b : Z) : bool := byte_val c =? b.
Definition byte_between (c : ascii) (lo hi : Z) : bool := (lo <=? byte_val c) && (byte_val c <=? hi).

(** The number of bytes of the white space rune ([unicode.IsSpace]) at the head of [s]. *)
Definition space_width (s : string) : nat :=
  match s with
  | EmptyString => 0
  | String a r =>
      if byte_between a 9 13 || is_byte a 32 then 1
      else match r with
           | EmptyString => 0
           | String b r =>
               if is_byte a 194 && (is_byte b 133 || is_byte b 160) then 2
               else match r with
                    | EmptyString => 0
                    | String c _ =>
                        if (is_byte a 225 && is_byte b 154 && is_byte c 128) ||
                           (is_byte a 226 && is_byte b 128 &&
                              (byte_between c 128 138 || byte_between c 168 169 || is_byte c 175)) ||
                           (is_byte a 226 && is_byte b 129 && is_byte c 159) ||
                           (is_byte a 227 && is_byte b 128 && is_byte c 128)
                        then 3 else 0
                    end
           end
  end%nat.

Fixpoint trim_left_from (skip : nat) (s : string) : string :=
  match s with
  | EmptyString => EmptyString
  | String _ s' =>
      match skip with
      | S k => trim_left_from k s'
      | O => match space_width s with O => s | S w => trim_left_from w s' end
      end
  end.
Fixpoint all_space_from (skip : nat) (s : string) : bool :=
  match s with
  | EmptyString => true
  | String _ s' =>
      match skip with
      | S k => all_space_from k s'
      | O => match space_width s with O => false | S w => all_space_from w s' end
      end
  end.
Fixpoint trim_right (s : string) : string :=
  if all_space_from 0 s then EmptyString
  else match s with EmptyString => EmptyString | String c s => String c (trim_right s) end.

(** [strings.TrimSpace]. *)
Definition TrimSpace (s : string) : string := trim_right (trim_left_from 0 s).

(** [strings.TrimRight] with a cutset of single bytes. *)
Fixpoint TrimRight (P : ascii -> bool) (s : string) : string :=
  if chars_in P s then EmptyString
  else match s with EmptyString => EmptyString | String c s => String c (TrimRight P s) end.

(** [strings.ContainsAny] with a set of single bytes. *)
Fixpoint ContainsAny (P : ascii -> bool) (s : string) : bool :=
  match s with EmptyString => false | String c s => P c || ContainsAny P s end.

(** [strings.ToLower] on ASCII text, for concrete inputs. *)
Definition lower_byte (c : ascii) : ascii :=
  if byte_between c 65 90 then ascii_of_nat (Z.to_nat (byte_val c + 32)) else c.
Fixpoint lower_ascii (s : string) : string :=
  match s with EmptyString => EmptyString | String c s => String (lower_byte c) (lower_ascii s) end.

(** ** Lemmas *)

#[local] Set Default Proof Using "Type".

Lemma app_s_cons c (a b : string) : String c a +:+ b = String c (a +:+ b).
Proof. done. Qed.
Lemma app_s_empty (b : string) : EmptyString +:+ b = b.
Proof. done. Qed.
Lemma app_s_assoc (a b c : string) : a +:+ (b +:+ c) = (a +:+ b) +:+ c.
Proof. induction a as [|x a IH]; [done|]. by rewrite !app_s_cons, IH. Qed.
Lemma app_s_nil (a : string) : a +:+ EmptyString = a.
Proof. induction a as [|x a IH]; [done|]. by rewrite app_s_cons, IH. Qed.
Lemma length_app_s (a b : string) : String.length (a +:+ b) = (String.length a + String.length b)%nat.
Proof. induction a as [|x a IH]; [done|]. rewrite app_s_cons. simpl. by rewrite IH. Qed.

Lemma take_s_app (a b : string) : take_s (String.length a) (a +:+ b) = a.
Proof. induction a as [|x a IH]; [by destruct b|]. rewrite app_s_cons. simpl. by rewrite IH. Qed.
Lemma drop_s_app (a b : string) : drop_s (String.length a) (a +:+ b) = b.
Proof. induction a as [|x a IH]; [by destruct b|]. rewrite app_s_cons. simpl. by rewrite IH. Qed.
Lemma drop_s_app_more k (a b : string) : drop_s (String.length a + k) (a +:+ b) = drop_s k b.
Proof. induction a as [|x a IH]; [done|]. rewrite app_s_cons. simpl. by rewrite IH. Qed.

Lemma drop_drop_s n k (s : string) : drop_s k (drop_s n s) = drop_s (n + k) s.
Proof. revert s. induction n as [|n IH]; intros [|c s]; try done; [by destruct k|]. apply IH. Qed.

Lemma HasPrefix_app (p s : string) : HasPrefix (p +:+ s) p = true.
Proof.
  induction p as [|c p IH]; [by destruct s|]. rewrite app_s_cons. simpl. by rewrite Ascii.eqb_refl, IH.
Qed.
Lemma HasPrefix_true s p : HasPrefix s p = true -> exists r, s = p +:+ r.
Proof.
  rewrite HasPrefix_Cut. destruct (CutPrefix s p) as [r|] eqn:E; [|done]. intros _.
  exists r. by apply CutPrefix_Some.
Qed.

(** A search finds the first occurrence and nothing before it. *)
Lemma Index_Some s sub n :
  Index s sub = Some n -> s = take_s n s +:+ sub +:+ drop_s (n + String.length sub) s.
Proof.
  revert n. induction s as [|c s IH]; intros n; cbn [Index].
  - destruct (HasPrefix EmptyString sub) eqn:E; [|done]. intros [= <-]. by destruct sub.
  - destruct (HasPrefix (String c s) sub) eqn:E.
    + intros [= <-]. apply HasPrefix_true in E as (r & ->). cbn [take_s]. rewrite app_s_empty. f_equal.
      by rewrite Nat.add_0_l, drop_s_app.
    + intros Hf. destruct (Index s sub) as [m|]; [|done]. injection Hf as <-. cbn [take_s Nat.add drop_s].
      rewrite app_s_cons. by rewrite <- (IH m eq_refl).
Qed.
