(* ===== verification/GoTime.v ===== *)
(** Go's time.Time as the Sieve code uses it: an instant with its UTC offset, the
    calendar, the layouts "2006-01-02" and "15:04:05", and the RFC 3339 text of its JSON
    form. The calendar is the proleptic Gregorian one. Its facts about a 400-year cycle
    are arithmetic; those about the months of a year are checked day by day. *)

From S2P Require Import Prelude Text GoStrings.
From Stdlib Require Import Ascii String.
#[local] Open Scope string_scope.
#[local] Open Scope Z_scope.

(** ** Instants *)

(** Seconds since 1970-01-01T00:00:00Z, nanoseconds within the second, and the offset of
    the location in seconds. *)
Record Time := mkTime { t_sec : Z; t_nsec : Z; t_off : Z }.
#[global] Instance Time_eq : EqDecision Time.
Proof. solve_decision. Defined.

(** The zero value: January 1, year 1, 00:00:00 UTC. *)
Definition zeroTime : Time := mkTime (-62135596800) 0 0.
Definition IsZero (t : Time) : bool := (t_sec t =? -62135596800) && (t_nsec t =? 0).
Definition Before (t u : Time) : bool :=
  (t_sec t <? t_sec u) || ((t_sec t =? t_sec u) && (t_nsec t <? t_nsec u)).
Definition UTC (t : Time) : Time := mkTime (t_sec t) (t_nsec t) 0.

(** ** The calendar *)

(** A day of the 400-year cycle, whose years begin in March: its year and the day in
    that year, by centuries, four-year groups and years; then its month (0 for March) and
    the day of the month. *)
Definition cycle_split (doe : Z) : Z * Z :=
  let c := Z.min (doe / 36524) 3 in
  let r := doe - 36524 * c in
  let q := r / 1461 in
  let r := r - 1461 * q in
  let n := Z.min (r / 365) 3 in
  (100 * c + 4 * q + n, r - 365 * n).
Definition cycle_year (doe : Z) : Z := (cycle_split doe).1.
Definition cycle_doy (doe : Z) : Z := (cycle_split doe).2.
Definition month_of (doy : Z) : Z := (5 * doy + 2) / 153.
Definition day_of (doy : Z) : Z := doy - (153 * month_of doy + 2) / 5 + 1.
Definition cycle_month (doe : Z) : Z := month_of (cycle_doy doe).
Definition cycle_day (doe : Z) : Z := day_of (cycle_doy doe).

(** [Time.Date] of the day [z] days after 1970-01-01. *)
Definition civil_of_days (z : Z) : Z * Z * Z :=
  let era := (z + 719468) / 146097 in
  let doe := (z + 719468) mod 146097 in
  let mp := cycle_month doe in
  let m := if mp <? 10 then mp + 3 else mp - 9 in
  let y := cycle_year doe + era * 400 in
  ((if m <=? 2 then y + 1 else y), m, cycle_day doe).

(** Its inverse on dates, as [time.Date] computes it. *)
Definition days_of_civil (y m d : Z) : Z :=
  let y' := if m <=? 2 then y - 1 else y in
  let mp := if m <=? 2 then m + 9 else m - 3 in
  let yoe := y' mod 400 in
  y' / 400 * 146097 + (365 * yoe + yoe / 4 - yoe / 100 + ((153 * mp + 2) / 5 + d - 1)) - 719468.

(** The wall clock of [t] in its own location. *)
Definition local_days (t : Time) : Z := (t_sec t + t_off t) / 86400.
Definition local_secs (t : Time) : Z := (t_sec t + t_off t) mod 86400.
Definition Year (t : Time) : Z := (civil_of_days (local_days t)).1.1.

(** ** Layouts *)

(** [w] decimal digits of [v], zero-padded. *)
Fixpoint pad (w : nat) (v : Z) : string :=
  match w with
  | O => EmptyString
  | S w => String (digit_char (v / 10 ^ Z.of_nat w mod 10)) (pad w v)
  end.

(** [appendInt]. *)
Definition appendInt (v : Z) (w : nat) : string :=
  (if v <? 0 then "-" else "") +:+
  (if Z.abs v <? 10 ^ Z.of_nat w then pad w (Z.abs v) else FormatInt 10 (Z.abs v)).

(** [t.Format("2006-01-02")] and [t.Format("15:04:05")]. *)
Definition format_date (t : Time) : string :=
  let '(y, m, d) := civil_of_days (local_days t) in
  appendInt y 4 +:+ "-" +:+ appendInt m 2 +:+ "-" +:+ appendInt d 2.
Definition format_clock (t : Time) : string :=
  let s := local_secs t in
  appendInt (s / 3600) 2 +:+ ":" +:+ appendInt (s / 60 mod 60) 2 +:+ ":" +:+ appendInt (s mod 60) 2.

(** The fraction of RFC 3339 with nanoseconds: no trailing zeros, nothing for 0. *)
Definition format_fraction (ns : Z) : string :=
  if ns =? 0 then "" else "." +:+ TrimRight (fun c => Ascii.eqb c "0") (pad 9 ns).
Definition format_zone (off : Z) : string :=
  if off =? 0 then "Z"
  else (if off <? 0 then "-" else "+") +:+
       appendInt (Z.abs off / 60 / 60) 2 +:+ ":" +:+ appendInt (Z.abs off / 60 mod 60) 2.

(** [Time.MarshalJSON] without its quotes: an error for a year outside 0..9999 and an
    offset of a day or more. *)
Definition marshal_time (t : Time) : option string :=
  if (Year t <? 0) || (9999 <? Year t) then None
  else if 24 * 3600 <=? Z.abs (t_off t) then None
  else Some (format_date t +:+ "T" +:+ format_clock t +:+ format_fraction (t_nsec t) +:+
             format_zone (t_off t)).

(** ** Parsing *)

(** Exactly [w] digits, read as a number, and the rest. *)
Fixpoint read_digits (w : nat) (acc : Z) (s : string) : option (Z * string) :=
  match w, s with
  | O, _ => Some (acc, s)
  | S w, String c s =>
      if byte_between c 48 57 then read_digits w (acc * 10 + (byte_val c - 48)) s else None
  | _, _ => None
  end.
Definition read_num (w : nat) (lo hi : Z) (s : string) : option (Z * string) :=
  '(v, s) ← read_digits w 0 s;
  if (lo <=? v) && (v <=? hi) then Some (v, s) else None.
Definition read_byte (b : ascii) (s : string) : option string :=
  match s with
  | String c s => if Ascii.eqb c b then Some s else None
  | EmptyString => None
  end.

Definition is_leap (y : Z) : bool := (y mod 4 =? 0) && (negb (y mod 100 =? 0) || (y mod 400 =? 0)).
Definition days_in (m y : Z) : Z :=
  if m =? 2 then (if is_leap y then 29 else 28)
  else if (m =? 4) || (m =? 6) || (m =? 9) || (m =? 11) then 30 else 31.

(** The digits of a fraction as nanoseconds; those past the ninth are dropped. *)
Fixpoint read_fraction (w : nat) (acc : Z) (s : string) : Z * string :=
  match s with
  | String c s' =>
      if byte_between c 48 57 then
        match w with
        | S w => read_fraction w (acc * 10 + (byte_val c - 48)) s'
        | O => read_fraction O acc s'
        end
      else (acc * 10 ^ Z.of_nat w, s)
  | EmptyString => (acc * 10 ^ Z.of_nat w, s)
  end.
Definition read_nsec (s : string) : Z * string :=
  match s with
  | String p (String c _ as s') =>
      if Ascii.eqb p "." && byte_between c 48 57 then read_fraction 9 0 s' else (0, s)
  | _ => (0, s)
  end.
Definition read_zone (s : string) : option Z :=
  if String.eqb s "Z" then Some 0
  else match s with
       | String c s =>
           sgn ← (if Ascii.eqb c "+" then Some 1 else if Ascii.eqb c "-" then Some (-1) else None);
           '(h, s) ← read_num 2 0 23 s; s ← read_byte ":" s; '(m, s) ← read_num 2 0 59 s;
           if String.eqb s "" then Some (sgn * (h * 60 + m) * 60) else None
       | EmptyString => None
       end.

(** [parseStrictRFC3339], which [Time.UnmarshalJSON] applies to the quoted text. *)
Definition parse_time (s : string) : option Time :=
  '(y, s) ← read_num 4 0 9999 s; s ← read_byte "-" s;
  '(mo, s) ← read_num 2 1 12 s; s ← read_byte "-" s;
  '(d, s) ← read_num 2 1 (days_in mo y) s; s ← read_byte "T" s;
  '(h, s) ← read_num 2 0 23 s; s ← read_byte ":" s;
  '(mi, s) ← read_num 2 0 59 s; s ← read_byte ":" s;
  '(se, s) ← read_num 2 0 59 s;
  let '(ns, s) := read_nsec s in
  off ← read_zone s;
  Some (mkTime (days_of_civil y mo d * 86400 + h * 3600 + mi * 60 + se - off) ns off).

(** ** The calendar's facts *)

Definition year_start (y : Z) : Z := 365 * y + y / 4 - y / 100 + y / 400.

Lemma cycle_spec doe :
  0 <= doe < 146097 ->
  0 <= cycle_year doe < 400 /\ 0 <= cycle_doy doe <= 365 /\
  doe = 365 * cycle_year doe + cycle_year doe / 4 - cycle_year doe / 100 + cycle_doy doe /\
  year_start (cycle_year doe) <= doe < year_start (cycle_year doe + 1) /\
  (cycle_doy doe = 365 -> is_leap (cycle_year doe + 1) = true).
Proof.
  intros Hd. unfold cycle_year, cycle_doy, cycle_split, year_start, is_leap. cbn [fst snd].
  assert (exists c r, Z.min (doe / 36524) 3 = c /\ doe - 36524 * c = r /\ 0 <= c <= 3 /\
            0 <= r <= 36524 /\ (c < 3 -> r < 36524)) as (c & r & Hc & Hr & ? & ? & ?).
  { exists (Z.min (doe / 36524) 3), (doe - 36524 * Z.min (doe / 36524) 3).
    pose proof (Z.div_mod doe 36524 ltac:(lia)). pose proof (Z.mod_pos_bound doe 36524 ltac:(lia)). lia. }
  rewrite Hc, Hr. clear Hc.
  assert (exists q r2, r / 1461 = q /\ r - 1461 * q = r2 /\ 0 <= q <= 24 /\ 0 <= r2 <= 1460 /\
            (r2 = 1460 -> q < 24 \/ c = 3)) as (q & r2 & Hq & Hr2 & ? & ? & ?).
  { exists (r / 1461), (r - 1461 * (r / 1461)).
    pose proof (Z.div_mod r 1461 ltac:(lia)). pose proof (Z.mod_pos_bound r 1461 ltac:(lia)). lia. }
  rewrite Hq, Hr2. clear Hq.
  assert (exists n d, Z.min (r2 / 365) 3 = n /\ r2 - 365 * n = d /\ 0 <= n <= 3 /\ 0 <= d <= 365 /\
            (d = 365 -> n = 3 /\ r2 = 1460)) as (n & d & Hn & Hdd & ? & ? & ?).
  { exists (Z.min (r2 / 365) 3), (r2 - 365 * Z.min (r2 / 365) 3).
    pose proof (Z.div_mod r2 365 ltac:(lia)). pose proof (Z.mod_pos_bound r2 365 ltac:(lia)). lia. }
  rewrite Hn, Hdd. clear Hn.
  assert ((100 * c + 4 * q + n) / 4 = 25 * c + q) as -> by div_lia.
  assert ((100 * c + 4 * q + n) / 100 = c) as -> by div_lia.
  assert ((100 * c + 4 * q + n) / 400 = 0) as -> by div_lia.
  assert ((100 * c + 4 * q + n + 1) / 4 = 25 * c + q + (if decide (n = 3) then 1 else 0)) as Hd4
    by (destruct (decide (n = 3)); div_lia).
  assert ((100 * c + 4 * q + n + 1) / 100 = c + (if decide (n = 3 /\ q = 24) then 1 else 0)) as Hd100
    by (destruct (decide (n = 3 /\ q = 24)); div_lia).
  assert ((100 * c + 4 * q + n + 1) / 400 = (if decide (n = 3 /\ q = 24 /\ c = 3) then 1 else 0)) as Hd400
    by (destruct (decide (n = 3 /\ q = 24 /\ c = 3)); div_lia).
  rewrite Hd4, Hd100, Hd400. clear Hd4 Hd100 Hd400.
  repeat split; try (repeat case_decide; lia). intros H365.
  assert (n = 3 /\ r2 = 1460) as [-> ->] by auto.
  destruct (decide (q = 24)) as [->|].
  - replace c with 3 by lia. done.
  - rewrite (proj2 (Z.eqb_eq _ 0)) by div_lia. rewrite (proj2 (Z.eqb_neq _ 0)); [done|div_lia].
Qed.

(** The month of a day of the year that begins in March, counted from January. *)
Definition month_num (doy : Z) : Z := if month_of doy <? 10 then month_of doy + 3 else month_of doy - 9.
Definition doy_key (doy : Z) : Z :=
  (if month_num doy <=? 2 then 10000 else 0) + month_num doy * 100 + day_of doy.
Definition doy_ok (doy : Z) : bool :=
  let m := month_num doy in
  let d := day_of doy in
  (1 <=? m) && (m <=? 12) && (1 <=? d) && (d <=? 31) && (301 <=? doy_key doy) &&
  (doy_key doy <=? 10229) && (month_of doy =? (if m <=? 2 then m + 9 else m - 3)) &&
  (d <=? (if m =? 2 then (if doy =? 365 then 29 else 28) else days_in m 1)) &&
  ((153 * month_of doy + 2) / 5 + d - 1 =? doy) && (doy_key doy <? doy_key (doy + 1)).

Lemma doy_checked doy : 0 <= doy <= 365 -> doy_ok doy = true.
Proof.
  intros Hd. assert (forallb doy_ok (seqZ 0 366) = true) as Hall by (vm_compute; reflexivity).
  rewrite forallb_forall in Hall. apply Hall, list_elem_of_In, elem_of_seqZ. lia.
Qed.

Lemma doy_key_mono a b : 0 <= a -> b <= 365 -> a < b -> doy_key a < doy_key b.
Proof.
  intros Ha Hb Hab. remember (Z.to_nat (b - a - 1)) as n eqn:Hn. revert b Hb Hab Hn.
  induction n as [|n IH]; intros b Hb Hab Hn;
    pose proof (doy_checked (b - 1) ltac:(lia)) as Hok; unfold doy_ok in Hok; bool_cases;
    replace (b - 1 + 1) with b in * by lia.
  - replace a with (b - 1) by lia. lia.
  - specialize (IH (b - 1) ltac:(lia) ltac:(lia) ltac:(lia)). lia.
Qed.

Definition civil_key (z : Z) : Z :=
  let '(y, m, d) := civil_of_days z in y * 10000 + m * 100 + d.

Lemma civil_key_eq z :
  civil_key z = (cycle_year ((z + 719468) mod 146097) + (z + 719468) / 146097 * 400) * 10000 +
                doy_key (cycle_doy ((z + 719468) mod 146097)).
Proof.
  unfold civil_key, civil_of_days, doy_key, month_num, cycle_month, cycle_day.
  repeat case_match; lia.
Qed.

(** Dates are ordered as days are. *)
Lemma civil_key_mono a b : a < b -> civil_key a < civil_key b.
Proof.
  intros Hab. rewrite !civil_key_eq.
  pose proof (Z.mod_pos_bound (a + 719468) 146097 ltac:(lia)) as Ha.
  pose proof (Z.mod_pos_bound (b + 719468) 146097 ltac:(lia)) as Hb.
  pose proof (Z.div_mod (a + 719468) 146097 ltac:(lia)) as Ea.
  pose proof (Z.div_mod (b + 719468) 146097 ltac:(lia)) as Eb.
  pose proof (cycle_spec _ Ha) as (Ya & Da & Sa & Ra & _).
  pose proof (cycle_spec _ Hb) as (Yb & Db & Sb & Rb & _).
  pose proof (doy_checked _ Da) as Ka. pose proof (doy_checked _ Db) as Kb.
  unfold doy_ok in Ka, Kb. bool_cases.
  set (ea := (a + 719468) / 146097) in *. set (eb := (b + 719468) / 146097) in *.
  set (ra := (a + 719468) mod 146097) in *. set (rb := (b + 719468) mod 146097) in *.
  destruct (decide (ea = eb)) as [He|].
  - destruct (Z.lt_trichotomy (cycle_year ra) (cycle_year rb)) as [?|[Heq|?]]; [lia| |].
    + pose proof (doy_key_mono (cycle_doy ra) (cycle_doy rb)). rewrite Heq in Sa. lia.
    + unfold year_start in *. div_lia.
  - assert (ea < eb) by lia. lia.
Qed.

Lemma civil_bounds z :
  let '(y, m, d) := civil_of_days z in
  1 <= m <= 12 /\ 1 <= d <= days_in m y /\ days_of_civil y m d = z.
Proof.
  unfold civil_of_days.
  pose proof (Z.mod_pos_bound (z + 719468) 146097 ltac:(lia)) as Hr.
  pose proof (Z.div_mod (z + 719468) 146097 ltac:(lia)) as He.
  set (e := (z + 719468) / 146097) in *. set (r := (z + 719468) mod 146097) in *.
  pose proof (cycle_spec r Hr) as (Hy & Hd & Hs & _ & Hleap).
  pose proof (doy_checked _ Hd) as Hok. unfold doy_ok in Hok. bool_cases.
  unfold cycle_month, cycle_day. fold (month_num (cycle_doy r)).
  set (y := cycle_year r) in *. set (n := cycle_doy r) in *. 
  assert (Hy0 : (y + e * 400) mod 400 = y) by div_lia.
  assert (Hy1 : (y + e * 400) / 400 = e) by div_lia.
  unfold days_of_civil, days_in in *. 
  match goal with H : month_of n = _ |- _ => rename H into Hm end.
  match goal with H : _ + day_of n - 1 = n |- _ => rewrite Hm in H end.
  destruct (Z.leb_spec (month_num n) 2).
  - replace (y + e * 400 + 1 - 1) with (y + e * 400) by lia. rewrite Hy0, Hy1.
    split; [lia|]. split; [|lia]. split; [lia|]. 
    destruct (month_num n =? 2); [|done]. destruct (Z.eqb_spec n 365) as [E|].
    + specialize (Hleap E). unfold is_leap in *. 
      replace ((y + e * 400 + 1) mod 4) with ((y + 1) mod 4) by div_lia.
      replace ((y + e * 400 + 1) mod 100) with ((y + 1) mod 100) by div_lia.
      replace ((y + e * 400 + 1) mod 400) with ((y + 1) mod 400) by div_lia.
      by rewrite Hleap.
    + clearbody n. case_match; lia.
  - rewrite Hy0, Hy1. split; [lia|]. split; [|lia]. split; [lia|].
    destruct (Z.eqb_spec (month_num n) 2); [lia|done].
Qed.

(** ** Padded numbers compare as numbers *)

Lemma digit_compare x y :
  0 <= x < 10 -> 0 <= y < 10 -> Ascii.compare (digit_char x) (digit_char y) = (x ?= y).
Proof.
  intros Hx Hy.
  assert (forallb (fun p => bool_decide (Ascii.compare (digit_char p.1) (digit_char p.2) = (p.1 ?= p.2)))
            (list_prod (seqZ 0 10) (seqZ 0 10)) = true) as Hall by (vm_compute; reflexivity).
  rewrite forallb_forall in Hall. specialize (Hall (x, y)). apply bool_decide_eq_true in Hall; [done|].
  apply in_prod; apply list_elem_of_In, elem_of_seqZ; lia.
Qed.

Lemma pad_mod w v : pad w v = pad w (v mod 10 ^ Z.of_nat w).
Proof.
  revert v. induction w as [|w IH]; intros v; [done|]. cbn [pad]. f_equal.
  - f_equal. rewrite Nat2Z.inj_succ, Z.pow_succ_r by lia.
    rewrite (Z.mul_comm 10), Z.rem_mul_r by lia. rewrite (Z.mul_comm (10 ^ _)).
    rewrite Z.div_add by lia. rewrite (Z.div_small (v mod _)) by (apply Z.mod_pos_bound; lia).
    rewrite Z.add_0_l. by rewrite Zmod_mod.
  - rewrite (IH (v mod _)), (IH v). f_equal. rewrite Nat2Z.inj_succ, Z.pow_succ_r by lia.
    symmetry. apply Z.mod_mod_divide. exists 10. lia.
Qed.

Lemma pad_compare w a b s t :
  0 <= a < 10 ^ Z.of_nat w -> 0 <= b < 10 ^ Z.of_nat w ->
  String.compare (pad w a +:+ s) (pad w b +:+ t) =
  match a ?= b with Eq => String.compare s t | r => r end.
Proof.
  revert a b. induction w as [|w IH]; intros a b Ha Hb.
  { replace a with 0 by (simpl in *; lia). by replace b with 0 by (simpl in *; lia). }
  rewrite Nat2Z.inj_succ, Z.pow_succ_r in * by lia. cbn [pad]. rewrite !app_s_cons. cbn [String.compare].
  set (p := 10 ^ Z.of_nat w) in *. assert (0 < p) by (unfold p; lia).
  assert (0 <= a / p < 10 /\ 0 <= b / p < 10) as [Hqa Hqb].
  { split; (split; [apply Z.div_pos; lia|apply Z.div_lt_upper_bound; lia]). }
  rewrite digit_compare by (apply Z.mod_pos_bound; lia).
  rewrite (Z.mod_small (a / p)), (Z.mod_small (b / p)) by lia.
  pose proof (Z.div_mod a p ltac:(lia)). pose proof (Z.mod_pos_bound a p ltac:(lia)).
  pose proof (Z.div_mod b p ltac:(lia)). pose proof (Z.mod_pos_bound b p ltac:(lia)).
  rewrite (pad_mod w a), (pad_mod w b), IH by done. fold p.
  destruct (Z.compare_spec (a / p) (b / p)) as [Heq|Hlt|Hgt].
  - rewrite Heq in *. replace (a ?= b) with (a mod p ?= b mod p); [done|].
    destruct (Z.compare_spec (a mod p) (b mod p)); symmetry;
      [apply Z.compare_eq_iff|apply Z.compare_lt_iff|apply Z.compare_gt_iff]; lia.
  - replace (a ?= b) with Lt; [done|]. symmetry. apply Z.compare_lt_iff. nia.
  - replace (a ?= b) with Gt; [done|]. symmetry. apply Z.compare_gt_iff. nia.
Qed.

Definition year_ok (t : Time) : Prop := 0 <= Year t <= 9999.

Lemma appendInt_pad v w : 0 <= v < 10 ^ Z.of_nat w -> appendInt v w = pad w v.
Proof.
  intros Hv. unfold appendInt. destruct (Z.ltb_spec v 0); [lia|]. rewrite Z.abs_eq by lia.
  by rewrite (proj2 (Z.ltb_lt _ _)) by lia.
Qed.

Lemma days_in_le m y : days_in m y <= 31.
Proof. unfold days_in. repeat case_match; lia. Qed.

Lemma format_date_eq t :
  year_ok t -> exists y m d, civil_of_days (local_days t) = (y, m, d) /\
  0 <= y <= 9999 /\ 1 <= m <= 12 /\ 1 <= d <= days_in m y /\ days_of_civil y m d = local_days t /\
  format_date t = pad 4 y +:+ String "-" (pad 2 m +:+ String "-" (pad 2 d)).
Proof.
  unfold year_ok, Year, format_date. intros Hy. pose proof (civil_bounds (local_days t)) as Hb.
  destruct (civil_of_days (local_days t)) as [[y m] d] eqn:E. cbn [fst snd] in *. destruct Hb as (Hm & Hd & Hz).
  exists y, m, d. pose proof (days_in_le m y). rewrite !appendInt_pad by (simpl; lia).
  repeat split; (lia || done).
Qed.

Lemma format_clock_eq t :
  exists h m s, local_secs t = h * 3600 + m * 60 + s /\ 0 <= h <= 23 /\ 0 <= m <= 59 /\ 0 <= s <= 59 /\
  format_clock t = pad 2 h +:+ String ":" (pad 2 m +:+ String ":" (pad 2 s)).
Proof.
  unfold format_clock, local_secs.
  pose proof (Z.mod_pos_bound (t_sec t + t_off t) 86400 ltac:(lia)) as Hs.
  set (s := (t_sec t + t_off t) mod 86400) in *. clearbody s.
  exists (s / 3600), (s / 60 mod 60), (s mod 60).
  assert (s = s / 3600 * 3600 + s / 60 mod 60 * 60 + s mod 60 /\ 0 <= s / 3600 <= 23 /\
    0 <= s / 60 mod 60 <= 59 /\ 0 <= s mod 60 <= 59) as (H1 & H2 & H3 & H4) by div_lia.
  rewrite !appendInt_pad by (simpl; lia). done.
Qed.

(** The texts of dates and clocks compare as the instants do. *)
Lemma pad_compare_end w a b :
  0 <= a < 10 ^ Z.of_nat w -> 0 <= b < 10 ^ Z.of_nat w ->
  String.compare (pad w a) (pad w b) = (a ?= b).
Proof.
  intros Ha Hb. rewrite <- (app_s_nil (pad w a)), <- (app_s_nil (pad w b)), pad_compare by done.
  by destruct (a ?= b).
Qed.

Lemma format_date_compare t u :
  year_ok t -> year_ok u ->
  String.compare (format_date t) (format_date u) = (local_days t ?= local_days u).
Proof.
  intros Ht Hu. destruct (format_date_eq t Ht) as (y & m & d & E & Hy & Hm & Hd & _ & ->).
  destruct (format_date_eq u Hu) as (y' & m' & d' & E' & Hy' & Hm' & Hd' & _ & ->).
  pose proof (days_in_le m y). pose proof (days_in_le m' y').
  pose proof (civil_key_mono (local_days t) (local_days u)) as Hlt.
  pose proof (civil_key_mono (local_days u) (local_days t)) as Hgt.
  unfold civil_key in *. rewrite E, E' in *.
  rewrite pad_compare by (simpl; lia). cbn [String.compare]. 
  change (Ascii.compare "-" "-") with Eq. cbv iota.
  rewrite pad_compare by (simpl; lia). cbn [String.compare]. 
  change (Ascii.compare "-" "-") with Eq. cbv iota. rewrite pad_compare_end by (simpl; lia).
  destruct (Z.compare_spec (local_days t) (local_days u)) as [Heq|Hl|Hg].
  - rewrite Heq, E' in E. injection E as -> -> ->. by rewrite !Z.compare_refl.
  - specialize (Hlt Hl). 
    destruct (Z.compare_spec y y'), (Z.compare_spec m m'), (Z.compare_spec d d'); (done || lia).
  - specialize (Hgt Hg). 
    destruct (Z.compare_spec y y'), (Z.compare_spec m m'), (Z.compare_spec d d'); (done || lia).
Qed.

Lemma format_clock_compare t u :
  String.compare (format_clock t) (format_clock u) = (local_secs t ?= local_secs u).
Proof.
  destruct (format_clock_eq t) as (h & m & s & -> & Hh & Hm & Hs & ->).
  destruct (format_clock_eq u) as (h' & m' & s' & -> & Hh' & Hm' & Hs' & ->).
  rewrite pad_compare by (simpl; lia). cbn [String.compare].
  change (Ascii.compare ":" ":") with Eq. cbv iota.
  rewrite pad_compare by (simpl; lia). cbn [String.compare].
  change (Ascii.compare ":" ":") with Eq. cbv iota. rewrite pad_compare_end by (simpl; lia).
  destruct (Z.compare_spec (h * 3600 + m * 60 + s) (h' * 3600 + m' * 60 + s'));
    destruct (Z.compare_spec h h'), (Z.compare_spec m m'), (Z.compare_spec s s'); (done || lia).
Qed.

(** ** What MarshalJSON writes, UnmarshalJSON reads *)

Lemma digit_char_read d : 0 <= d < 10 -> byte_between (digit_char d) 48 57 = true /\ byte_val (digit_char d) - 48 = d.
Proof.
  intros Hd.
  assert (forallb (fun d => byte_between (digit_char d) 48 57 && (byte_val (digit_char d) - 48 =? d))
            (seqZ 0 10) = true) as Hall by (vm_compute; reflexivity).
  rewrite forallb_forall in Hall. specialize (Hall d).
  rewrite andb_true_iff, Z.eqb_eq in Hall. apply Hall, list_elem_of_In, elem_of_seqZ. lia.
Qed.

Lemma read_digits_pad w v acc s :
  0 <= v < 10 ^ Z.of_nat w ->
  read_digits w acc (pad w v +:+ s) = Some (acc * 10 ^ Z.of_nat w + v, s).
Proof.
  revert v acc. induction w as [|w IH]; intros v acc Hv.
  { simpl in *. rewrite app_s_empty. destruct s; f_equal; f_equal; lia. }
  rewrite Nat2Z.inj_succ, Z.pow_succ_r in * by lia. cbn [pad]. rewrite app_s_cons. cbn [read_digits].
  set (p := 10 ^ Z.of_nat w) in *. assert (0 < p) by (unfold p; lia).
  assert (0 <= v / p < 10) by (split; [apply Z.div_pos|apply Z.div_lt_upper_bound]; lia).
  rewrite (Z.mod_small (v / p)) by lia. destruct (digit_char_read (v / p)) as [-> ->]; [lia|].
  rewrite (pad_mod w v). fold p. rewrite IH by (apply Z.mod_pos_bound; lia). do 2 f_equal.
  fold p. pose proof (Z.div_mod v p). nia.
Qed.

Lemma read_num_pad w lo hi v s :
  0 <= v < 10 ^ Z.of_nat w -> lo <= v <= hi -> read_num w lo hi (pad w v +:+ s) = Some (v, s).
Proof.
  intros Hv Hb. unfold read_num. rewrite read_digits_pad by done. cbn [mbind option_bind].
  rewrite Z.mul_0_l, Z.add_0_l. by rewrite (proj2 (Z.leb_le lo v)), (proj2 (Z.leb_le v hi)) by lia.
Qed.

(** A whole second in UTC of a year RFC 3339 can write. *)
Definition stored_time (t : Time) : Prop := t_nsec t = 0 /\ t_off t = 0 /\ year_ok t.

Lemma marshal_time_roundtrip t :
  stored_time t -> exists s, marshal_time t = Some s /\ parse_time s = Some t.
Proof.
  intros (Hns & Hoff & Hy). unfold marshal_time.
  pose proof Hy as Hy'. unfold year_ok in Hy'.
  rewrite (proj2 (Z.ltb_ge _ _)), (proj2 (Z.ltb_ge 9999 _)), Hns, Hoff by lia. cbn [orb]. change (24 * 3600 <=? Z.abs 0) with false. cbv iota.
  eexists. split; [reflexivity|].
  destruct (format_date_eq t Hy) as (y & m & d & _ & Hyb & Hm & Hd & Hz & ->).
  destruct (format_clock_eq t) as (h & mi & s & Hsec & Hh & Hmi & Hs & ->).
  pose proof (days_in_le m y). change (format_fraction 0) with "". change (format_zone 0) with "Z".
  unfold parse_time. rewrite <- !app_s_assoc, !app_s_cons.
  repeat (rewrite <- ?app_s_assoc, ?app_s_cons;
          rewrite read_num_pad by (lia || (simpl; lia)); cbn [mbind option_bind];
          rewrite ?app_s_cons, ?app_s_empty; cbn [read_byte mbind option_bind];
          rewrite ?Ascii.eqb_refl; cbn [mbind option_bind]).
  cbn [read_nsec]. change (read_zone "Z") with (Some 0). cbn [mbind option_bind].
  f_equal. destruct t as [ts tn to]. cbn [t_sec t_nsec t_off] in *. subst. f_equal.
  rewrite Hz. unfold local_days, local_secs in *. cbn [t_sec t_off] in *.
  pose proof (Z.div_mod (ts + 0) 86400 ltac:(lia)). lia.
Qed.
