(* ===== verification/Json.v ===== *)
(** The text of JSON as encoding/json writes and reads it: string literals with Go's
    escapes, integers, arrays, objects, and a recursive descent reader. Strings are byte
    strings; what is not UTF-8 in them becomes U+FFFD, as in Go. The reader's fuel is twice
    the length of the text: two steps take at least one byte ([read_fuel]). Go also refuses a nesting deeper than
    10000, which is left out. *)

From S2P Require Import Prelude Utf8 Text GoStrings GoTime Jmap.
From Stdlib Require Import Ascii String.
#[local] Open Scope string_scope.
#[local] Open Scope Z_scope.

(** ** Writing *)

Definition quote_char : ascii := "034".
Definition hex_char (v : Z) : ascii := digit_char (v mod 16).
Definition u_escape (v : Z) : string :=
  String "\" (String "u" (String (hex_char (v / 4096)) (String (hex_char (v / 256))
    (String (hex_char (v / 16)) (String (hex_char v) EmptyString))))).

(** The escape of an ASCII byte ([appendString], HTML characters escaped). *)
Definition escape_byte (c : ascii) : string :=
  let b := byte_val c in
  if (b =? 34) || (b =? 92) then String "\" (String c EmptyString)
  else if b =? 8 then "\b" else if b =? 12 then "\f" else if b =? 10 then "\n"
  else if b =? 13 then "\r" else if b =? 9 then "\t"
  else if (b <? 32) || (b =? 60) || (b =? 62) || (b =? 38) then u_escape b
  else String c EmptyString.

(** U+2028 and U+2029, which JavaScript does not allow in a string. *)
Definition line_separator (s : string) : option Z :=
  match s with
  | String a (String b (String c _)) =>
      if is_byte a 226 && is_byte b 128 && byte_between c 168 169 then Some (byte_val c - 168 + 8232)
      else None
  | _ => None
  end.

(** The body of a string literal: [drop] and [copy] bytes of the current rune remain to
    be passed or copied. *)
Fixpoint quote_from (drop copy : nat) (s : string) : string :=
  match s with
  | EmptyString => EmptyString
  | String c r =>
      match drop, copy with
      | S k, _ => quote_from k copy r
      | O, S k => String c (quote_from 0 k r)
      | O, O =>
          if is_ascii_byte c then escape_byte c +:+ quote_from 0 0 r
          else match multi_width s with
               | O => u_escape 65533 +:+ quote_from 0 0 r
               | S w =>
                   match line_separator s with
                   | Some v => u_escape v +:+ quote_from 2 0 r
                   | None => String c (quote_from 0 w r)
                   end
               end
      end
  end.
Definition quote_body (s : string) : string := quote_from 0 0 s.

(** A value, its string literals written with the given body. *)
Definition literal (Q : string -> string) (s : string) : string :=
  String quote_char (Q s +:+ String quote_char EmptyString).
Fixpoint json_text (Q : string -> string) (j : JSON) : string :=
  match j with
  | JNull => "null"
  | JBool true => "true"
  | JBool false => "false"
  | JNum n => n
  | JStr s => literal Q s
  | JArr l => "[" +:+ JoinStr "," (json_text Q <$> l) +:+ "]"
  | JObj l => "{" +:+ JoinStr "," ((fun kv => literal Q kv.1 +:+ ":" +:+ json_text Q kv.2) <$> l) +:+ "}"
  end.

(** json.Marshal of a value. *)
Definition Marshal (j : JSON) : string := json_text quote_body j.

(** ** Reading *)

Definition hex_value (c : ascii) : option Z :=
  v ← digit_value c; if v <? 16 then Some v else None.
Definition hex4 (a b c d : ascii) : option Z :=
  a ← hex_value a; b ← hex_value b; c ← hex_value c; d ← hex_value d;
  Some (((a * 16 + b) * 16 + c) * 16 + d).

Definition byte_chr (v : Z) : ascii := ascii_of_nat (Z.to_nat v).

(** utf8.AppendRune. *)
Definition utf8_of (v : Z) : string :=
  if v <? 128 then String (byte_chr v) EmptyString
  else if v <? 2048 then String (byte_chr (192 + v / 64)) (String (byte_chr (128 + v mod 64)) EmptyString)
  else if v <? 65536 then
    String (byte_chr (224 + v / 4096)) (String (byte_chr (128 + v / 64 mod 64))
      (String (byte_chr (128 + v mod 64)) EmptyString))
  else
    String (byte_chr (240 + v / 262144)) (String (byte_chr (128 + v / 4096 mod 64))
      (String (byte_chr (128 + v / 64 mod 64)) (String (byte_chr (128 + v mod 64)) EmptyString))).

Definition simple_escape (e : ascii) : option ascii :=
  let b := byte_val e in
  if (b =? 34) || (b =? 92) || (b =? 47) then Some e
  else if b =? 98 then Some "008"%char else if b =? 102 then Some "012"%char
  else if b =? 110 then Some "010"%char else if b =? 114 then Some "013"%char
  else if b =? 116 then Some "009"%char else None.

Definition prepend (p : string) (r : option (string * string)) : option (string * string) :=
  '(s, rest) ← r; Some (p +:+ s, rest).

(** A string literal from after its opening quote: its value and the text after it. *)
Fixpoint unquote (copy : nat) (s : string) : option (string * string) :=
  match s with
  | EmptyString => None
  | String c r =>
      match copy with
      | S k => prepend (String c EmptyString) (unquote k r)
      | O =>
          if Ascii.eqb c quote_char then Some (EmptyString, r)
          else if Ascii.eqb c "\" then
            match r with
            | EmptyString => None
            | String e r' =>
                if Ascii.eqb e "u" then
                  match r' with
                  | String h1 (String h2 (String h3 (String h4 r4))) =>
                      v ← hex4 h1 h2 h3 h4;
                      if (55296 <=? v) && (v <=? 57343) then
                        match r4 with
                        | String b (String u (String g1 (String g2 (String g3 (String g4 r10))))) =>
                            match (if Ascii.eqb b "\" && Ascii.eqb u "u" then hex4 g1 g2 g3 g4 else None) with
                            | Some w =>
                                if (v <=? 56319) && (56320 <=? w) && (w <=? 57343) then
                                  prepend (utf8_of ((v - 55296) * 1024 + (w - 56320) + 65536)) (unquote 0 r10)
                                else prepend (utf8_of 65533) (unquote 0 r4)
                            | None => prepend (utf8_of 65533) (unquote 0 r4)
                            end
                        | _ => prepend (utf8_of 65533) (unquote 0 r4)
                        end
                      else prepend (utf8_of v) (unquote 0 r4)
                  | _ => None
                  end
                else x ← simple_escape e; prepend (String x EmptyString) (unquote 0 r')
            end
          else if byte_val c <? 32 then None
          else if is_ascii_byte c then prepend (String c EmptyString) (unquote 0 r)
          else match multi_width s with
               | O => prepend (utf8_of 65533) (unquote 0 r)
               | S w => prepend (String c EmptyString) (unquote w r)
               end
      end
  end.

(** White space between tokens. *)
Definition json_space (c : ascii) : bool :=
  is_byte c 32 || is_byte c 9 || is_byte c 10 || is_byte c 13.
Fixpoint skip_space (s : string) : string :=
  match s with
  | String c r => if json_space c then skip_space r else s
  | EmptyString => s
  end.

Definition is_digit (c : ascii) : bool := byte_between c 48 57.
Fixpoint span_digits (s : string) : string * string :=
  match s with
  | String c r => if is_digit c then let '(d, r) := span_digits r in (String c d, r) else (EmptyString, s)
  | EmptyString => (EmptyString, s)
  end.

(** The integer part: one zero, or digits without a leading zero. *)
Definition read_int_part (s : string) : option (string * string) :=
  match s with
  | String c r =>
      if Ascii.eqb c "0" then Some ("0", r)
      else if is_digit c then Some (span_digits s) else None
  | EmptyString => None
  end.
Definition read_frac (s : string) : option (string * string) :=
  match s with
  | String c r =>
      if Ascii.eqb c "." then
        match span_digits r with
        | (EmptyString, _) => None
        | (d, r) => Some (String c d, r)
        end
      else Some (EmptyString, s)
  | EmptyString => Some (EmptyString, s)
  end.
Definition read_exp (s : string) : option (string * string) :=
  match s with
  | String c r =>
      if Ascii.eqb c "e" || Ascii.eqb c "E" then
        let '(sg, r) := match r with
                        | String g r' => if Ascii.eqb g "+" || Ascii.eqb g "-"
                                         then (String g EmptyString, r') else (EmptyString, r)
                        | EmptyString => (EmptyString, r)
                        end in
        match span_digits r with
        | (EmptyString, _) => None
        | (d, r) => Some (String c (sg +:+ d), r)
        end
      else Some (EmptyString, s)
  | EmptyString => Some (EmptyString, s)
  end.
Definition read_number (s : string) : option (string * string) :=
  let '(sg, s) := match s with
                  | String c r => if Ascii.eqb c "-" then ("-", r) else (EmptyString, s)
                  | EmptyString => (EmptyString, s)
                  end in
  '(i, s) ← read_int_part s; '(f, s) ← read_frac s; '(e, s) ← read_exp s;
  Some (sg +:+ i +:+ f +:+ e, s).

Definition read_word (w : string) (j : JSON) (s : string) : option (JSON * string) :=
  r ← CutPrefix s w; Some (j, r).

(** The byte [c] after white space: the rest. *)
Definition expect (c : ascii) (s : string) : option string :=
  match skip_space s with
  | String d r => if Ascii.eqb d c then Some r else None
  | EmptyString => None
  end.

(** A value, the rest of an array after "[" or ",", and of an object. *)
Fixpoint read_value (n : nat) (s : string) : option (JSON * string) :=
  match n with
  | O => None
  | S n =>
      match skip_space s with
      | EmptyString => None
      | String c r as s =>
          if Ascii.eqb c "{" then
            match expect "}" r with
            | Some r' => Some (JObj [], r')
            | None => '(ms, r) ← read_members n r; Some (JObj ms, r)
            end
          else if Ascii.eqb c "[" then
            match expect "]" r with
            | Some r' => Some (JArr [], r')
            | None => '(l, r) ← read_items n r; Some (JArr l, r)
            end
          else if Ascii.eqb c quote_char then '(v, r) ← unquote 0 r; Some (JStr v, r)
          else if Ascii.eqb c "n" then read_word "null" JNull s
          else if Ascii.eqb c "t" then read_word "true" (JBool true) s
          else if Ascii.eqb c "f" then read_word "false" (JBool false) s
          else '(v, r) ← read_number s; Some (JNum v, r)
      end
  end
with read_items (n : nat) (s : string) : option (list JSON * string) :=
  match n with
  | O => None
  | S n =>
      '(v, r) ← read_value n s;
      match expect "," r with
      | Some r => '(l, r) ← read_items n r; Some (v :: l, r)
      | None => r ← expect "]" r; Some ([v], r)
      end
  end
with read_members (n : nat) (s : string) : option (list (string * JSON) * string) :=
  match n with
  | O => None
  | S n =>
      r ← expect quote_char s; '(k, r) ← unquote 0 r;
      r ← expect ":" r; '(v, r) ← read_value n r;
      match expect "," r with
      | Some r => '(l, r) ← read_members n r; Some ((k, v) :: l, r)
      | None => r ← expect "}" r; Some ([(k, v)], r)
      end
  end.

(** The one value of a document ([checkValid] and the decoder). *)
Definition Parse (s : string) : option JSON :=
  '(j, r) ← read_value (2 * String.length s + 2) s;
  if String.eqb (skip_space r) "" then Some j else None.

(** Templates with quotes: a single quote stands for a double quote. *)
Fixpoint dq (s : string) : string :=
  match s with
  | EmptyString => EmptyString
  | String c s => String (if Ascii.eqb c "'" then quote_char else c) (dq s)
  end.

Example parse_example :
  Parse (dq "{'a': [1, -2.5e3, true], 'b': 'x\u00e9\n*\/'}") =
  Some (JObj [("a", JArr [JNum "1"; JNum "-2.5e3"; JBool true]);
              ("b", JStr ("x" +:+ utf8_of 233 +:+ String "010" "*/"))]).
Proof. vm_compute. reflexivity. Qed.

(** ** String literals read back *)

(** A multi-byte rune. *)
Definition multi_rune (m : string) : Prop :=
  (2 <= String.length m)%nat /\ multi_width m = String.length m.

Lemma substring_app m x : String.substring 0 (String.length m) (m +:+ x) = m.
Proof.
  induction m as [|c m IH]; [by destruct x|]. rewrite app_s_cons. cbn [String.length String.substring]. by rewrite IH.
Qed.

Lemma multi_rune_app m x : multi_rune m -> multi_width (m +:+ x) = String.length m.
Proof.
  intros [Hl Hw]. apply (multi_width_prefix m); [done|lia|].
  rewrite substring_app. rewrite <- (app_s_nil m) at 2. apply substring_app.
Qed.

Lemma take_drop_s n s : s = take_s n s +:+ drop_s n s.
Proof. revert s. induction n as [|n IH]; intros [|c s]; try done. simpl. by rewrite app_s_cons, <- IH. Qed.
Lemma length_take_s n s : (n <= String.length s)%nat -> String.length (take_s n s) = n.
Proof. revert s. induction n as [|n IH]; intros [|c s]; simpl; intros; [lia..|]. by rewrite IH by lia. Qed.
Lemma length_drop_s n s : String.length (drop_s n s) = (String.length s - n)%nat.
Proof. revert s. induction n as [|n IH]; intros [|c s]; simpl; done. Qed.

Lemma valid_from_drop k s : valid_from k s = valid_from 0 (drop_s k s).
Proof. revert s. induction k as [|k IH]; intros [|c s]; try done. simpl. apply IH. Qed.

(** Bytes of a multi-byte rune are not ASCII. *)
Definition high (c : ascii) : bool := negb (is_ascii_byte c).
Lemma multi_rune_high m : multi_rune m -> chars_in high m = true.
Proof.
  intros [Hl Hw]. unfold high, is_ascii_byte.
  destruct m as [|a [|b m]]; simpl in Hl; [lia..|].
  cbn [multi_width] in Hw. cbn [String.length] in Hw.
  unfold accept3, accept4, is_cont, in_range in Hw.
  destruct m as [|c [|d [|e m]]]; cbn [String.length chars_in] in *;
    repeat case_match; try lia; bool_cases; rewrite ?andb_true_iff, ?negb_true_iff, ?Z.ltb_ge;
    repeat split; try lia.
Qed.

(** Induction on the runes of a valid string. *)
Lemma valid_ind (P : string -> Prop) :
  P EmptyString ->
  (forall c r, is_ascii_byte c = true -> ValidString r = true -> P r -> P (String c r)) ->
  (forall m r, multi_rune m -> ValidString r = true -> P r -> P (m +:+ r)) ->
  forall s, ValidString s = true -> P s.
Proof.
  intros H0 Ha Hm s. remember (String.length s) as n eqn:Hn. revert s Hn.
  induction (lt_wf n) as [n _ IH]. intros [|c r] -> Hv; [done|]. unfold ValidString in *. cbn [valid_from] in Hv.
  destruct (is_ascii_byte c) eqn:Hc; [apply Ha; [done..|]; eapply IH; [|done..]; simpl; lia|].
  destruct (multi_width (String c r)) as [|w] eqn:Hw; [done|].
  pose proof (multi_width_le (String c r)) as Hle. rewrite Hw in Hle.
  rewrite (take_drop_s (S w) (String c r)). rewrite valid_from_drop in Hv. apply Hm; [|done|].
  - assert (2 <= S w)%nat. { clear -Hw. destruct r as [|b r]; [done|]. simpl in Hw. repeat case_match; lia. }
    unfold multi_rune. rewrite length_take_s by done. split; [done|].
    apply (multi_width_prefix (String c r)); [done|lia|].
    rewrite (take_drop_s (S w) (String c r)) at 1.
    rewrite <- (length_take_s (S w) (String c r)) at 1 by done. rewrite substring_app.
    rewrite <- (app_s_nil (take_s _ _)) at 2. rewrite <- (length_take_s (S w) (String c r)) at 2 by done.
    by rewrite substring_app.
  - eapply IH; [|reflexivity|done]. rewrite length_drop_s. simpl. lia.
Qed.

Lemma quote_from_copy m r : quote_from 0 (String.length m) (m +:+ r) = m +:+ quote_body r.
Proof. induction m as [|c m IH]; [by destruct r|]. rewrite !app_s_cons. simpl. by rewrite IH. Qed.
Lemma quote_from_drop m r : quote_from (String.length m) 0 (m +:+ r) = quote_body r.
Proof. induction m as [|c m IH]; [by destruct r|]. rewrite !app_s_cons. simpl. by rewrite IH. Qed.

(** What a multi-byte rune becomes. *)
Definition quote_rune (m : string) : string :=
  match line_separator m with Some v => u_escape v | None => m end.

Lemma multi_rune_cons m : multi_rune m -> exists c m', m = String c m' /\ is_ascii_byte c = false.
Proof.
  intros Hm. pose proof (multi_rune_high m Hm) as Hh. destruct Hm as [Hl _].
  destruct m as [|c m]; [simpl in Hl; lia|]. exists c, m. split; [done|]. simpl in Hh. unfold high in Hh.
  bool_cases. done.
Qed.

Lemma byte_val_of c : byte_val c = byte_of c.
Proof. unfold byte_val, byte_of, nat_of_ascii. apply N_nat_Z. Qed.

Lemma line_separator_app m x : multi_rune m -> line_separator (m +:+ x) = line_separator m.
Proof.
  intros [Hl Hw]. destruct m as [|a [|b [|c m]]]; simpl in Hl; [lia..| |done].
  rewrite !app_s_cons, app_s_empty. destruct x as [|y x]; [done|]. cbn [line_separator].
  unfold is_byte. rewrite !byte_val_of. destruct (Z.eqb_spec (byte_of a) 226) as [E|]; [|done].
  exfalso. simpl in Hw. rewrite E in Hw. done.
Qed.

Lemma quote_body_rune m r : multi_rune m -> quote_body (m +:+ r) = quote_rune m +:+ quote_body r.
Proof.
  intros Hm. pose proof (multi_rune_app m r Hm) as Hw. pose proof (line_separator_app m r Hm) as Hs.
  destruct (multi_rune_cons m Hm) as (c & m' & -> & Hc). unfold quote_body, quote_rune.
  rewrite app_s_cons in *. cbn [quote_from]. rewrite Hc, Hw, Hs. cbn [String.length].
  destruct (line_separator (String c m')) as [v|] eqn:Hv; [|by rewrite quote_from_copy].
  f_equal. replace 2%nat with (String.length m'); [apply quote_from_drop|].
  destruct Hm as [_ Hm]. clear -Hm Hv. destruct m' as [|b [|d m]]; [done..|].
  unfold line_separator in Hv. destruct (is_byte c 226) eqn:E; [|done].
  unfold is_byte in E. rewrite byte_val_of in E. apply Z.eqb_eq in E. cbn [multi_width] in Hm. rewrite E in Hm.
  change (in_range 194 223 226) with false in Hm. change (in_range 224 239 226) with true in Hm. cbv iota in Hm.
  destruct (_ && _) in Hm; [|done]. injection Hm. simpl. lia.
Qed.

Lemma prepend_app a b r : prepend a (prepend b r) = prepend (a +:+ b) r.
Proof. destruct r as [[s r]|]; [|done]. simpl. by rewrite app_s_assoc. Qed.

Lemma unquote_copy m x : unquote (String.length m) (m +:+ x) = prepend m (unquote 0 x).
Proof.
  induction m as [|c m IH]; [rewrite app_s_empty; simpl; by destruct (unquote 0 x) as [[]|]|].
  rewrite app_s_cons. cbn [String.length]. cbn [unquote]. rewrite IH, prepend_app. done.
Qed.

(** An escape or a rune is read back whatever follows it. *)
Lemma unquote_byte c x :
  is_ascii_byte c = true -> unquote 0 (escape_byte c +:+ x) = prepend (String c EmptyString) (unquote 0 x).
Proof. intros Hc. destruct c as [[] [] [] [] [] [] [] []]; try discriminate Hc; reflexivity. Qed.

Lemma unquote_separator v x :
  v = 8232 \/ v = 8233 -> unquote 0 (u_escape v +:+ x) = prepend (utf8_of v) (unquote 0 x).
Proof. intros [->| ->]; reflexivity. Qed.

Lemma unquote_rune m x : multi_rune m -> unquote 0 (quote_rune m +:+ x) = prepend m (unquote 0 x).
Proof.
  intros Hm. unfold quote_rune. destruct (line_separator m) as [v|] eqn:Hv.
  - destruct Hm as [_ Hw]. destruct m as [|a [|b [|c m]]]; [done..|]. cbn [line_separator] in Hv.
    destruct (is_byte a 226 && is_byte b 128 && byte_between c 168 169) eqn:E; [|done].
    injection Hv as Hv. bool_cases. unfold is_byte, byte_between in *. bool_cases.
    assert (a = byte_chr 226) as ->.
    { apply byte_of_inj. rewrite <- byte_val_of. done. }
    assert (b = byte_chr 128) as ->.
    { apply byte_of_inj. rewrite <- byte_val_of. done. }
    assert (m = EmptyString) as ->.
    { cbn [multi_width] in Hw. change (byte_of (byte_chr 226)) with 226 in Hw.
      change (in_range 194 223 226) with false in Hw. change (in_range 224 239 226) with true in Hw.
      cbv iota in Hw. destruct (_ && _) in Hw; [|done]. destruct m; [done|discriminate Hw]. }
    assert (v = 8232 \/ v = 8233) as Hcases by lia.
    rewrite unquote_separator by done. f_equal. 
    assert (c = byte_chr (v - 8232 + 168)) as ->.
    { apply byte_of_inj. rewrite <- !byte_val_of. 
      destruct Hcases as [->| ->];
        [change (byte_val (byte_chr _)) with 168|change (byte_val (byte_chr _)) with 169]; lia. }
    destruct Hcases as [->| ->]; reflexivity.
  - pose proof (multi_rune_app m x Hm) as Hw. pose proof (multi_rune_high m Hm) as Hh.
    destruct (multi_rune_cons m Hm) as (c & m' & -> & Hc).
    rewrite app_s_cons in *. cbn [unquote]. rewrite Hw. cbn [String.length]. 
    destruct (Ascii.eqb_spec c quote_char) as [->|]; [done|].
    destruct (Ascii.eqb_spec c "\") as [->|]; [done|]. rewrite Hc.
    unfold is_ascii_byte in Hc. apply Z.ltb_ge in Hc.
    destruct (Z.ltb_spec (byte_val c) 32); [rewrite byte_val_of in *; lia|].
    by rewrite unquote_copy, prepend_app.
Qed.

(** ** Breaking the comment terminator *)

(** ReplaceAll of "*/" by the same pair with JSON's escaped solidus. *)
Definition break_pair (s : string) : string := ReplaceAll s "*/" "*\/".

Definition no_star (c : ascii) : bool := negb (Ascii.eqb c "*").

Lemma break_pair_plain c y : c <> "*"%char -> break_pair (String c y) = String c (break_pair y).
Proof.
  intros Hc. unfold break_pair, ReplaceAll. cbn [replace_from HasPrefix].
  by rewrite (proj2 (Ascii.eqb_neq "*" c)) by done.
Qed.
Lemma break_pair_hit y : break_pair (String "*" (String "/" y)) = "*\/" +:+ break_pair y.
Proof. unfold break_pair, ReplaceAll. cbn [replace_from HasPrefix]. by destruct y. Qed.
Lemma break_pair_star y :
  (forall z, y <> String "/" z) -> break_pair (String "*" y) = String "*" (break_pair y).
Proof.
  intros Hy. unfold break_pair, ReplaceAll. cbn [replace_from HasPrefix].
  destruct y as [|c y]; [done|]. rewrite (proj2 (Ascii.eqb_neq "/" c)); [done|].
  intros <-. by apply (Hy y).
Qed.
Lemma break_pair_app p y :
  chars_in no_star p = true -> break_pair (p +:+ y) = p +:+ break_pair y.
Proof.
  induction p as [|c p IH]; [done|]. cbn [chars_in]. intros [Hc Hp]%andb_prop.
  rewrite !app_s_cons, break_pair_plain; [by rewrite IH|]. intros ->. done.
Qed.

Lemma unquote_break_star y x :
  unquote 0 (break_pair (String "*" y) +:+ x) = prepend "*" (unquote 0 (break_pair y +:+ x)).
Proof.
  assert ((exists z, y = String "/" z) \/ forall z, y <> String "/" z) as [[z ->]|Hn].
  { destruct y as [|c y]; [by right|]. destruct (decide (c = "/"%char)) as [->|]; [eauto|].
    right. by intros z [= -> _]. }
  - rewrite break_pair_hit, break_pair_plain by done. rewrite <- app_s_assoc, !app_s_cons, app_s_empty.
    reflexivity.
  - rewrite break_pair_star by done. reflexivity.
Qed.

Lemma escape_byte_no_star c : c <> "*"%char -> chars_in no_star (escape_byte c) = true.
Proof. intros Hc. destruct c as [[] [] [] [] [] [] [] []]; try reflexivity. by destruct Hc. Qed.

Lemma chars_in_impl (P Q : ascii -> bool) s :
  (forall c, P c = true -> Q c = true) -> chars_in P s = true -> chars_in Q s = true.
Proof. intros HPQ. induction s as [|c s IH]; [done|]. simpl. intros [??]%andb_prop. rewrite HPQ, IH; done. Qed.

Lemma high_no_star c : high c = true -> no_star c = true.
Proof. unfold high, no_star. intros Hh. destruct (Ascii.eqb_spec c "*") as [->|]; done. Qed.

Lemma quote_rune_no_star m : multi_rune m -> chars_in no_star (quote_rune m) = true.
Proof.
  intros Hm. unfold quote_rune. destruct (line_separator m) as [v|] eqn:Hv.
  - assert (v = 8232 \/ v = 8233) as [->| ->]; [|reflexivity..].
    clear Hm. unfold line_separator in Hv. repeat case_match; try done. unfold byte_between in *. bool_cases.
    injection Hv. lia.
  - eapply chars_in_impl; [apply high_no_star|]. by apply multi_rune_high.
Qed.

(** A literal is read back, as it is and with its pairs broken. *)
Definition reads_back (Q : string -> string) : Prop :=
  forall s x, ValidString s = true -> unquote 0 (Q s +:+ String quote_char x) = Some (s, x).

Lemma quote_body_cons c r :
  is_ascii_byte c = true -> quote_body (String c r) = escape_byte c +:+ quote_body r.
Proof. intros Hc. unfold quote_body. cbn [quote_from]. by rewrite Hc. Qed.

Lemma reads_back_quote : reads_back quote_body.
Proof.
  intros s x Hs. revert s Hs. apply valid_ind; [done| |].
  - intros c r Hc _ IH. rewrite quote_body_cons, <- app_s_assoc, unquote_byte, IH by done. done.
  - intros m r Hm _ IH. rewrite quote_body_rune, <- app_s_assoc, unquote_rune, IH by done. done.
Qed.

Lemma reads_back_broken : reads_back (fun s => break_pair (quote_body s)).
Proof.
  intros s x Hs. revert s Hs. apply valid_ind; [done| |].
  - intros c r Hc _ IH. rewrite quote_body_cons by done.
    destruct (decide (c = "*"%char)) as [->|Hne].
    + change (escape_byte "*") with "*". rewrite app_s_cons, app_s_empty, unquote_break_star, IH. done.
    + rewrite break_pair_app by by apply escape_byte_no_star.
      rewrite <- app_s_assoc, unquote_byte, IH by done. done.
  - intros m r Hm _ IH. rewrite quote_body_rune by done.
    rewrite break_pair_app by by apply quote_rune_no_star.
    rewrite <- app_s_assoc, unquote_rune, IH by done. done.
Qed.

(** ** Values read back *)

(** What follows a value in a compact text. *)
Definition delim (x : string) : bool :=
  match x with
  | EmptyString => true
  | String c _ => Ascii.eqb c "," || Ascii.eqb c "]" || Ascii.eqb c "}"
  end.

Definition num_head (c : ascii) : bool := is_digit c || Ascii.eqb c "-".

(** A number literal: recognised whatever follows, and without a star or a slash. *)
Definition num_ok (n : string) : Prop :=
  (exists c r, n = String c r /\ num_head c = true) /\ chars_in no_star n = true /\
  forall x, delim x = true -> read_number (n +:+ x) = Some (n, x).

Inductive json_ok : JSON -> Prop :=
| ok_null : json_ok JNull
| ok_bool b : json_ok (JBool b)
| ok_num n : num_ok n -> json_ok (JNum n)
| ok_str s : ValidString s = true -> json_ok (JStr s)
| ok_arr l : Forall json_ok l -> json_ok (JArr l)
| ok_obj l : Forall (fun kv => ValidString kv.1 = true /\ json_ok kv.2) l -> json_ok (JObj l).

Section json_induction.
Context (P : JSON -> Prop).
Context (Hnull : P JNull) (Hbool : forall b, P (JBool b)) (Hnum : forall n, P (JNum n)).
Context (Hstr : forall s, P (JStr s)) (Harr : forall l, Forall P l -> P (JArr l)).
Context (Hobj : forall l, Forall (fun kv => P kv.2) l -> P (JObj l)).

(** Induction through the lists of an array and an object. *)
Fixpoint JSON_nested (j : JSON) : P j :=
  match j with
  | JNull => Hnull
  | JBool b => Hbool b
  | JNum n => Hnum n
  | JStr s => Hstr s
  | JArr l => Harr l ((fix go l : Forall P l := match l with
                                   | [] => Forall_nil_2 _
                                   | x :: l => Forall_cons_2 _ x l (JSON_nested x) (go l)
                                   end) l)
  | JObj l => Hobj l ((fix go l : Forall (fun kv => P kv.2) l := match l with
                                   | [] => Forall_nil_2 _
                                   | x :: l => Forall_cons_2 _ x l (JSON_nested x.2) (go l)
                                   end) l)
  end.
End json_induction.

Lemma num_head_cases c : num_head c = true ->
  json_space c = false /\ c <> "]"%char /\ c <> "}"%char /\ c <> "{"%char /\ c <> "["%char /\
  c <> quote_char /\ c <> "n"%char /\ c <> "t"%char /\ c <> "f"%char.
Proof. intros Hc. repeat split; [by destruct c as [[] [] [] [] [] [] [] []]|..]; by intros ->. Qed.

(** The first byte of a value's text. *)
Lemma text_head Q j :
  json_ok j -> exists c r, json_text Q j = String c r /\ json_space c = false /\ c <> "]"%char.
Proof.
  destruct 1 as [|[]|n [(c & r & -> & Hc) _]| | |]; try (by repeat eexists).
  exists c, r. apply num_head_cases in Hc. naive_solver.
Qed.

Lemma skip_space_head c r : json_space c = false -> skip_space (String c r) = String c r.
Proof. intros Hc. simpl. by rewrite Hc. Qed.

Lemma expect_hit c r : json_space c = false -> expect c (String c r) = Some r.
Proof. intros Hc. unfold expect. by rewrite skip_space_head, Ascii.eqb_refl. Qed.
Lemma expect_miss c d r : json_space d = false -> d <> c -> expect c (String d r) = None.
Proof. intros Hd Hc. unfold expect. rewrite skip_space_head by done. by rewrite (proj2 (Ascii.eqb_neq d c)). Qed.

Section read_back.
Context (Q : string -> string) (HQ : reads_back Q).

Definition reads_value (j : JSON) : Prop :=
  forall n x, (2 * String.length (json_text Q j) <= n)%nat -> delim x = true ->
  read_value n (json_text Q j +:+ x) = Some (j, x).

Lemma JoinStr_cons sep x l :
  JoinStr sep (x :: l) = x +:+ match l with [] => EmptyString | _ => sep +:+ JoinStr sep l end.
Proof. destruct l; [|done]. simpl. by rewrite app_s_nil. Qed.

Lemma read_items_back l :
  Forall reads_value l -> l <> [] -> forall n x,
  (2 * String.length (JoinStr "," (json_text Q <$> l)) + 3 <= n)%nat ->
  read_items n (JoinStr "," (json_text Q <$> l) +:+ String "]" x) = Some (l, x).
Proof.
  induction l as [|j l IH]; [done|]. intros [Hj Hl]%Forall_cons _ n x Hn.
  rewrite fmap_cons, JoinStr_cons in *. rewrite length_app_s in Hn. destruct n as [|n]; [lia|].
  rewrite <- app_s_assoc. cbn [read_items].
  destruct l as [|j' l].
  - simpl fmap. cbv iota. rewrite app_s_empty. rewrite Hj by (lia || done). reflexivity.
  - rewrite Hj by (lia || done). cbn [mbind option_bind].
    rewrite fmap_cons in *. rewrite <- app_s_assoc, app_s_cons, app_s_empty.
    rewrite length_app_s in Hn. change (String.length ",") with 1%nat in Hn.
    rewrite expect_hit by done. rewrite <- fmap_cons in *. rewrite IH; [reflexivity|done|done|lia].
Qed.

Lemma read_literal k x : ValidString k = true -> exists t,
  literal Q k +:+ x = String quote_char t /\ unquote 0 t = Some (k, x).
Proof.
  intros Hk. unfold literal. rewrite app_s_cons, <- app_s_assoc, app_s_cons, app_s_empty.
  eexists. split; [reflexivity|]. by apply HQ.
Qed.

Definition member_text (kv : string * JSON) : string := literal Q kv.1 +:+ ":" +:+ json_text Q kv.2.

Lemma read_members_back l :
  Forall (fun kv => ValidString kv.1 = true /\ reads_value kv.2) l -> l <> [] -> forall n x,
  (2 * String.length (JoinStr "," (member_text <$> l)) + 3 <= n)%nat ->
  read_members n (JoinStr "," (member_text <$> l) +:+ String "}" x) = Some (l, x).
Proof.
  induction l as [|[k j] l IH]; [done|]. intros [[Hk Hj] Hl]%Forall_cons _ n x Hn. cbn [fst snd] in *.
  rewrite fmap_cons, JoinStr_cons in *. unfold member_text in Hn at 1. unfold member_text at 1.
  cbn [fst snd] in *. rewrite !length_app_s in Hn.
  destruct n as [|n]; [lia|]. rewrite <- !app_s_assoc. cbn [read_members].
  edestruct (read_literal k) as (t & -> & Ht); [done|].
  rewrite expect_hit by done. cbn [mbind option_bind]. rewrite Ht. cbn [mbind option_bind].
  rewrite app_s_cons, app_s_empty, expect_hit by done. cbn [mbind option_bind].
  destruct l as [|kv' l].
  - simpl fmap. cbv iota. rewrite app_s_empty, Hj by (lia || done). reflexivity.
  - rewrite fmap_cons in *. rewrite length_app_s in Hn. change (String.length ",") with 1%nat in Hn.
    rewrite <- !app_s_assoc, !app_s_cons, !app_s_empty. rewrite Hj by (lia || done). cbn [mbind option_bind].
    rewrite expect_hit by done.
    rewrite <- fmap_cons in *. rewrite IH; [reflexivity|done|done|lia].
Qed.

Lemma read_value_back j : json_ok j -> reads_value j.
Proof.
  revert j. apply (JSON_nested (fun j => json_ok j -> reads_value j)).
  - intros _ n x Hn Hx. destruct n; [simpl in Hn; lia|]. reflexivity.
  - intros [] _ n x Hn Hx; (destruct n; [simpl in Hn; lia|]); reflexivity.
  - intros m Hok n x Hn Hx. inversion Hok as [| |? [(c & r & -> & Hc) [_ Hm]]| | |]; subst.
    cbn [json_text] in *. destruct n; [simpl in Hn; lia|]. rewrite app_s_cons.
    cbn [read_value]. pose proof (num_head_cases c Hc) as (Hsp & _ & _ & H1 & H2 & H3 & H4 & H5 & H6).
    rewrite skip_space_head by done.
    rewrite !(proj2 (Ascii.eqb_neq c _)) by done. rewrite <- app_s_cons, Hm by done. done.
  - intros s Hok n x Hn Hx. inversion Hok; subst. cbn [json_text] in *. destruct n; [simpl in Hn; lia|].
    destruct (read_literal s x) as (t & -> & Ht); [done|]. cbn [read_value].
    rewrite skip_space_head by done. 
    change (Ascii.eqb quote_char "{") with false. change (Ascii.eqb quote_char "[") with false.
    rewrite Ascii.eqb_refl, Ht. done.
  - intros l IH Hok n x Hn Hx. inversion Hok as [| | | |? Hl|]; subst. cbn [json_text] in *.
    rewrite !length_app_s in Hn. destruct n as [|n]; [simpl in Hn; lia|].
    rewrite <- !app_s_assoc, !app_s_cons, !app_s_empty. cbn [read_value].
    change (skip_space (String "[" ?s)) with (String "[" s). cbv iota.
    change (Ascii.eqb "[" "{") with false. change (Ascii.eqb "[" "[") with true. cbv iota.
    destruct l as [|j l]; [reflexivity|].
    assert (Forall reads_value (j :: l)) as Hall.
    { rewrite Forall_forall in *. eauto. }
    destruct (text_head Q j) as (c & r & Hj & Hsp & Hc); [by apply Forall_cons in Hl as [? _]|].
    assert (exists r', JoinStr "," (json_text Q <$> j :: l) +:+ String "]" x = String c r') as (r' & Heq).
    { rewrite fmap_cons, JoinStr_cons, Hj, !app_s_cons. eauto. }
    pose proof (read_items_back (j :: l) Hall ltac:(done) n x) as Hr. rewrite Heq in *.
    rewrite expect_miss by done. rewrite Hr; [done|].
    change (String.length "[") with 1%nat in Hn. change (String.length "]") with 1%nat in Hn. lia.
  - intros l IH Hok n x Hn Hx. inversion Hok as [| | | | |? Hl]; subst. cbn [json_text] in *.
    change (fun kv => literal Q kv.1 +:+ ":" +:+ json_text Q kv.2) with member_text in *.
    rewrite !length_app_s in Hn. destruct n as [|n]; [simpl in Hn; lia|].
    rewrite <- !app_s_assoc, !app_s_cons, !app_s_empty. cbn [read_value].
    change (skip_space (String "{" ?s)) with (String "{" s). cbv iota.
    change (Ascii.eqb "{" "{") with true. cbv iota.
    destruct l as [|[k j] l]; [reflexivity|].
    assert (Forall (fun kv => ValidString kv.1 = true /\ reads_value kv.2) ((k, j) :: l)) as Hall.
    { rewrite Forall_forall in *. naive_solver. }
    assert (exists r', JoinStr "," (member_text <$> (k, j) :: l) +:+ String "}" x = String quote_char r')
      as (r' & Heq).
    { rewrite fmap_cons, JoinStr_cons. unfold member_text at 1, literal. cbn [fst]. rewrite !app_s_cons. eauto. }
    pose proof (read_members_back ((k, j) :: l) Hall ltac:(done) n x) as Hr. rewrite Heq in *.
    rewrite expect_miss by done.
    rewrite Hr; [done|].
    change (String.length "{") with 1%nat in Hn. change (String.length "}") with 1%nat in Hn. lia.
Qed.

(** The whole document. *)
Lemma Parse_back j : json_ok j -> Parse (json_text Q j) = Some j.
Proof.
  intros Hok. unfold Parse. pose proof (read_value_back j Hok (2 * String.length (json_text Q j) + 2)%nat "") as Hr.
  rewrite app_s_nil in Hr. rewrite Hr by (lia || done). done.
Qed.
End read_back.

(** ** Integers *)

(** strconv.AppendInt of an int64. *)
Definition int_literal (v : Z) : string :=
  if v <? 0 then "-" +:+ FormatInt 10 (- v) else FormatInt 10 v.

Lemma digit_char_digit d : 0 <= d < 10 -> is_digit (digit_char d) = true.
Proof. intros Hd. by destruct (digit_char_read d Hd). Qed.

Lemma digit_char_nonzero d : 0 < d < 10 -> Ascii.eqb (digit_char d) "0" = false.
Proof.
  intros Hd. assert (forallb (fun d => negb (Ascii.eqb (digit_char d) "0")) (seqZ 1 9) = true) as Hall
    by (vm_compute; reflexivity).
  rewrite forallb_forall in Hall. apply negb_true_iff, Hall, list_elem_of_In, elem_of_seqZ. lia.
Qed.

(** Digits, the first of which is a zero only when it is the only one. *)
Lemma format_digits_lead fuel v acc :
  0 <= v < 2 ^ Z.of_nat fuel -> (0 < fuel)%nat -> exists d t,
  format_digits fuel 10 v acc = String (digit_char d) (t +:+ acc) /\ 0 <= d < 10 /\
  chars_in is_digit t = true /\ (d = 0 -> v = 0 /\ t = EmptyString).
Proof.
  revert v acc. induction fuel as [|fuel IH]; intros v acc Hv Hf; [lia|]. cbn [format_digits].
  pose proof (Z.mod_pos_bound v 10 ltac:(lia)). pose proof (Z.div_mod v 10 ltac:(lia)).
  destruct (Z.eqb_spec (v / 10) 0) as [Hz|Hnz].
  - exists (v mod 10), EmptyString. rewrite app_s_empty. repeat split; try done; lia.
  - assert (v / 10 < 2 ^ Z.of_nat fuel).
    { apply Z.div_lt_upper_bound; [lia|]. rewrite Nat2Z.inj_succ, Z.pow_succ_r in Hv by lia. nia. }
    assert (0 <= v / 10) by (apply Z.div_pos; lia).
    destruct fuel as [|fuel]; [simpl in *; lia|].
    destruct (IH (v / 10) (String (digit_char (v mod 10)) acc)) as (d & t & Heq & Hd & Ht & Hz); [lia..|].
    exists d, (t +:+ String (digit_char (v mod 10)) EmptyString). rewrite Heq, <- app_s_assoc. split; [done|].
    split; [done|]. split; [|intros ->; destruct Hz; [done|lia]].
    clear -Ht H. induction t as [|c t IH]; [simpl; by rewrite digit_char_digit|].
    rewrite app_s_cons. simpl in *. bool_cases. by rewrite H0, IH.
Qed.

Lemma FormatInt_lead v :
  0 <= v -> exists d t, FormatInt 10 v = String (digit_char d) t /\ 0 <= d < 10 /\
  chars_in is_digit t = true /\ (d = 0 -> t = EmptyString).
Proof.
  intros Hv. destruct (format_digits_lead (S (Z.to_nat (Z.log2 v))) v EmptyString) as (d & t & Heq & Hd & Ht & Hz); [|lia|].
  - split; [lia|]. rewrite Nat2Z.inj_succ, Z2Nat.id by apply Z.log2_nonneg.
    destruct (decide (v = 0)) as [->|Hnz]; [done|]. apply Z.log2_spec. lia.
  - exists d, t. unfold FormatInt. rewrite Heq, app_s_nil. naive_solver.
Qed.

Lemma span_digits_app t x :
  chars_in is_digit t = true -> delim x = true -> span_digits (t +:+ x) = (t, x).
Proof.
  intros Ht Hx. induction t as [|c t IH]; simpl in Ht.
  - rewrite app_s_empty. destruct x as [|c x]; [done|]. simpl in *.
    bool_cases; apply Ascii.eqb_eq in H as -> || apply Ascii.eqb_eq in Hx as ->; done.
  - bool_cases. rewrite app_s_cons. simpl. by rewrite H, IH.
Qed.

Lemma delim_tail x : delim x = true -> read_frac x = Some (EmptyString, x) /\ read_exp x = Some (EmptyString, x).
Proof.
  destruct x as [|c x]; [done|]. simpl. intros Hc.
  assert (c = ","%char \/ c = "]"%char \/ c = "}"%char) as [->|[->| ->]]; [|done..].
  destruct (Ascii.eqb_spec c ","), (Ascii.eqb_spec c "]"), (Ascii.eqb_spec c "}"); (done || auto).
Qed.

Lemma read_natural v x :
  0 <= v -> delim x = true -> exists i, FormatInt 10 v = i /\ read_int_part (i +:+ x) = Some (i, x).
Proof.
  intros Hv Hx. eexists. split; [reflexivity|]. destruct (FormatInt_lead v Hv) as (d & t & -> & Hd & Ht & Hz).
  rewrite app_s_cons. cbn [read_int_part]. destruct (decide (d = 0)) as [->|Hne].
  - rewrite Hz by done. done.
  - rewrite digit_char_nonzero by lia. rewrite digit_char_digit by lia. rewrite <- app_s_cons.
    rewrite span_digits_app; [done| |done]. simpl. by rewrite digit_char_digit, Ht.
Qed.

Lemma digits_no_star t : chars_in is_digit t = true -> chars_in no_star t = true.
Proof.
  apply chars_in_impl. intros c Hc. unfold no_star. by destruct (Ascii.eqb_spec c "*") as [->|].
Qed.

Lemma int_literal_ok v : num_ok (int_literal v).
Proof.
  unfold int_literal. destruct (Z.ltb_spec v 0) as [Hn|Hp].
  - destruct (FormatInt_lead (- v) ltac:(lia)) as (d & t & Heq & Hd & Ht & _). split; [|split].
    + eexists _, _. by rewrite app_s_cons.
    + rewrite Heq. apply digits_no_star in Ht. rewrite app_s_cons, app_s_empty. simpl. rewrite Ht.
      unfold no_star. destruct (Ascii.eqb_spec (digit_char d) "*") as [E|]; [|done].
      pose proof (digit_char_digit d Hd) as Hdd. by rewrite E in Hdd.
    + intros x Hx. destruct (read_natural (- v) x ltac:(lia) Hx) as (i & -> & Hi).
      unfold read_number. rewrite <- app_s_assoc, app_s_cons, app_s_empty.
      change (Ascii.eqb "-" "-") with true. cbv iota. rewrite Hi. cbn [mbind option_bind].
      destruct (delim_tail x Hx) as [-> He]. cbn [mbind option_bind]. rewrite He. cbn [mbind option_bind].
      by rewrite !app_s_nil.
  - destruct (FormatInt_lead v Hp) as (d & t & Heq & Hd & Ht & _). split; [|split].
    + eexists _, _. split; [done|]. unfold num_head. by rewrite digit_char_digit.
    + rewrite Heq. apply digits_no_star in Ht. simpl. rewrite Ht.
      unfold no_star. destruct (Ascii.eqb_spec (digit_char d) "*") as [E|]; [|done].
      pose proof (digit_char_digit d Hd) as Hdd. by rewrite E in Hdd.
    + intros x Hx. destruct (read_natural v x Hp Hx) as (i & Hi' & Hi). rewrite Hi'.
      unfold read_number. rewrite <- Hi', Heq, app_s_cons in *.
      destruct (digit_char_not_sign d) as [_ Hm]; [lia|].
      rewrite (proj2 (Ascii.eqb_neq _ "-") Hm). rewrite Hi. cbn [mbind option_bind].
      destruct (delim_tail x Hx) as [-> He]. cbn [mbind option_bind]. rewrite He. cbn [mbind option_bind].
      by rewrite !app_s_nil.
Qed.

(** ** The pairs of a whole document *)

Definition no_slash_head (y : string) : bool :=
  match y with String c _ => negb (Ascii.eqb c "/") | EmptyString => true end.

(** Breaking pairs distributes over parts that do not make a pair where they meet. *)
Lemma break_pair_split a y :
  no_slash_head y = true -> break_pair (a +:+ y) = break_pair a +:+ break_pair y.
Proof.
  intros Hy. remember (String.length a) as n eqn:Hn. revert a Hn.
  induction (lt_wf n) as [n _ IH]. intros [|c a] ->; [done|]. rewrite app_s_cons.
  destruct (decide (c = "*"%char)) as [->|Hc].
  - destruct a as [|c a].
    + rewrite app_s_empty, break_pair_star; [done|]. intros z ->. done.
    + destruct (decide (c = "/"%char)) as [->|Hs].
      * rewrite app_s_cons, !break_pair_hit. rewrite (IH (String.length a)) by (simpl; lia || done).
        by rewrite <- app_s_assoc.
      * rewrite app_s_cons, !break_pair_star by (intros z [= ? ?]; done). rewrite <- app_s_cons.
        rewrite (IH (String.length (String c a))) by (simpl; lia || done). done.
  - rewrite !break_pair_plain by done. rewrite (IH (String.length a)) by (simpl; lia || done). done.
Qed.

Lemma break_pair_no_star s : chars_in no_star s = true -> break_pair s = s.
Proof. intros Hs. rewrite <- (app_s_nil s) at 1. rewrite break_pair_app by done. apply app_s_nil. Qed.

Lemma break_pair_join l :
  Forall (fun x => no_slash_head x = true) l -> break_pair (JoinStr "," l) = JoinStr "," (break_pair <$> l).
Proof.
  induction l as [|x l IH]; [done|]. intros [Hx Hl]%Forall_cons. rewrite fmap_cons, !JoinStr_cons.
  destruct l as [|y l]; [by rewrite break_pair_split by done|]. rewrite fmap_cons in *.
  rewrite break_pair_split by done. f_equal. rewrite app_s_cons, app_s_empty, break_pair_plain by done.
  by rewrite IH.
Qed.

Lemma break_pair_literal Q s : break_pair (literal Q s) = literal (fun s => break_pair (Q s)) s.
Proof.
  unfold literal. rewrite break_pair_plain by done. by rewrite break_pair_split by done.
Qed.

Lemma text_no_slash Q j : json_ok j -> no_slash_head (json_text Q j) = true.
Proof.
  destruct 1 as [|[]|n [(c & r & -> & Hc) _]| | |]; try done. simpl.
  destruct (Ascii.eqb_spec c "/") as [->|]; done.
Qed.

(** Marshalling and then breaking the pairs is writing the literals with their pairs
    broken: outside literals there is no star. *)
Lemma break_pair_text Q j :
  json_ok j -> break_pair (json_text Q j) = json_text (fun s => break_pair (Q s)) j.
Proof.
  revert j. apply (JSON_nested (fun j => json_ok j -> _)).
  - done.
  - by intros [].
  - intros n Hok. inversion Hok as [| |? [_ [Hn _]]| | |]; subst. by apply break_pair_no_star.
  - intros s _. apply break_pair_literal.
  - intros l IH Hok. inversion Hok as [| | | |? Hl|]; subst. cbn [json_text].
    rewrite break_pair_app, break_pair_split, break_pair_join by
      (done || (apply Forall_fmap; eapply Forall_impl; [done|]; apply text_no_slash)).
    do 3 f_equal. rewrite <- list_fmap_compose. apply list_fmap_ext. intros i j Hj.
    apply list_elem_of_lookup_2 in Hj. rewrite Forall_forall in *. simpl. auto.
  - intros l IH Hok. inversion Hok as [| | | | |? Hl]; subst. cbn [json_text].
    rewrite break_pair_app, break_pair_split, break_pair_join by
      (done || (apply Forall_fmap; apply Forall_forall; done)).
    do 3 f_equal. rewrite <- list_fmap_compose. apply list_fmap_ext. intros i [k j] Hj.
    apply list_elem_of_lookup_2 in Hj. rewrite Forall_forall in *. simpl.
    specialize (IH _ Hj). specialize (Hl _ Hj). simpl in *. 
    rewrite break_pair_split by done. rewrite break_pair_literal. f_equal.
    rewrite !app_s_cons, !app_s_empty, break_pair_plain by done. f_equal. apply IH, Hl.
Qed.

(** A marshalled document whose pairs are broken is still the same document. *)
Lemma Parse_broken j : json_ok j -> Parse (break_pair (Marshal j)) = Some j.
Proof.
  intros Hok. unfold Marshal. rewrite break_pair_text by done.
  apply Parse_back; [exact reads_back_broken|done].
Qed.

Lemma break_pair_free s : Contains (break_pair s) "*/" = false.
Proof.
  unfold Contains. assert (Index (break_pair s) "*/" = None) as ->; [|done].
  remember (String.length s) as n eqn:Hn. revert s Hn. induction (lt_wf n) as [n _ IH]. intros [|c s] ->; [done|].
  destruct (decide (c = "*"%char)) as [->|Hc].
  - destruct s as [|c s]; [done|]. destruct (decide (c = "/"%char)) as [->|Hs].
    + rewrite break_pair_hit. rewrite !app_s_cons, app_s_empty. cbn [Index HasPrefix]. simpl.
      by rewrite (IH (String.length s)) by (simpl; lia || done).
    + rewrite break_pair_star by (intros z [= ? ?]; done).
      assert (exists t, break_pair (String c s) = String c t) as (t & Ht).
      { destruct (decide (c = "*"%char)) as [->|]; [|rewrite break_pair_plain by done; eauto].
        destruct s as [|c s]; [by eexists|]. destruct (decide (c = "/"%char)) as [->|];
          [rewrite break_pair_hit; by eexists|rewrite break_pair_star by (intros z [= ? ?]; done); eauto]. }
      cbn [Index]. rewrite (IH (String.length (String c s))) by (simpl; lia || done).
      rewrite Ht. cbn [HasPrefix]. rewrite (proj2 (Ascii.eqb_neq "/" c)) by congruence.
      done.
  - rewrite break_pair_plain by done. cbn [Index]. rewrite (IH (String.length s)) by (simpl; lia || done).
    cbn [HasPrefix]. rewrite (proj2 (Ascii.eqb_neq "*" c)) by congruence. done.
Qed.

(** ** The fuel is enough *)

Abbreviation len := String.length.

Lemma skip_space_len s : (len (skip_space s) <= len s)%nat.
Proof. induction s as [|c s IH]; [done|]. simpl. destruct (json_space c); simpl; lia. Qed.

Lemma prepend_len p r v x : prepend p r = Some (v, x) -> exists v', r = Some (v', x).
Proof. destruct r as [[v' x']|]; [|done]. intros [= _ <-]. eauto. Qed.

Lemma unquote_len k s v x : unquote k s = Some (v, x) -> (len x < len s)%nat.
Proof.
  revert k v. remember (len s) as n eqn:Hn. revert s Hn. induction (lt_wf n) as [n _ IH].
  intros [|c r] -> k v; [done|]. cbn [unquote].
  assert (forall k' r' p, (len r' < len (String c r))%nat -> prepend p (unquote k' r') = Some (v, x) ->
            (len x < len (String c r))%nat) as Hrec.
  { intros k' r' p Hl (v' & Hv)%prepend_len. specialize (IH _ Hl r' eq_refl k' v' Hv). lia. }
  repeat (first [match goal with |- context [hex4 ?a ?b ?c ?d] => destruct (hex4 a b c d) end
                |match goal with |- context [simple_escape ?e] => destruct (simple_escape e) end
                |case_match]; cbn [mbind option_bind]; try done);
    try (intros [= _ <-]; simpl; lia); apply Hrec; simpl in *; lia.
Qed.

Lemma span_digits_len s d r : span_digits s = (d, r) -> (len r <= len s)%nat.
Proof.
  revert d. induction s as [|c s IH]; intros d; simpl; [by intros [= _ <-]|].
  destruct (is_digit c); [|intros [= _ <-]; simpl; lia].
  destruct (span_digits s) as [d' r'] eqn:E. intros [= _ <-]. specialize (IH _ eq_refl). lia.
Qed.

Lemma read_number_len s v x : read_number s = Some (v, x) -> (len x < len s)%nat.
Proof.
  assert (forall s i r, read_int_part s = Some (i, r) -> (len r < len s)%nat) as Hi.
  { intros [|c r] i r'; [done|]. cbn [read_int_part]. destruct (Ascii.eqb c "0"); [intros [= _ <-]; simpl; lia|].
    destruct (is_digit c) eqn:Ed; [|done]. intros [= Hs]. cbn [span_digits] in Hs. rewrite Ed in Hs.
    destruct (span_digits r) as [d r0] eqn:E. apply span_digits_len in E. injection Hs as _ <-. simpl. lia. }
  assert (forall s i r, read_frac s = Some (i, r) -> (len r <= len s)%nat) as Hf.
  { intros [|c r] i r'; [by intros [= _ <-]|]. cbn [read_frac]. destruct (Ascii.eqb c "."); [|by intros [= _ <-]].
    destruct (span_digits r) as [[|] r0] eqn:E; [done|]. apply span_digits_len in E. intros [= _ <-]. simpl. lia. }
  assert (forall s i r, read_exp s = Some (i, r) -> (len r <= len s)%nat) as He.
  { intros [|c r] i r'; [by intros [= _ <-]|]. cbn [read_exp]. destruct (_ || _); [|by intros [= _ <-]].
    destruct r as [|g r]; [done|].
    destruct (_ || _); [destruct (span_digits r) as [[|] r0] eqn:E|destruct (span_digits (String g r)) as [[|] r0] eqn:E];
      try done; apply span_digits_len in E; intros [= _ <-]; simpl in *; lia. }
  unfold read_number.
  set (p := match s with String c r => if Ascii.eqb c "-" then ("-", r) else ("", s) | _ => ("", s) end).
  assert (len p.2 <= len s)%nat as Hp.
  { unfold p. destruct s as [|c s]; [done|]. destruct (Ascii.eqb c "-"); simpl; lia. }
  destruct p as [sg s']. cbn [snd] in Hp.
  destruct (read_int_part s') as [[i r1]|] eqn:E1; [|done]. cbn [mbind option_bind].
  destruct (read_frac r1) as [[f r2]|] eqn:E2; [|done]. cbn [mbind option_bind].
  destruct (read_exp r2) as [[e r3]|] eqn:E3; [|done]. cbn [mbind option_bind]. intros [= _ <-].
  apply Hi in E1. apply Hf in E2. apply He in E3. lia.
Qed.

Definition shrinks {A} (s : string) (o : option (A * string)) : Prop :=
  forall v x, o = Some (v, x) -> (len x < len s)%nat.

Lemma shrinks_le {A} s s' (o : option (A * string)) : (len s' <= len s)%nat -> shrinks s' o -> shrinks s o.
Proof. intros Hl Hs v x Ho. specialize (Hs v x Ho). lia. Qed.

Lemma expect_shrinks c s r : expect c s = Some r -> (len r < len s)%nat.
Proof.
  unfold expect. pose proof (skip_space_len s). destruct (skip_space s) as [|d t]; [done|].
  destruct (Ascii.eqb d c); [|done]. intros [= <-]. simpl in *. lia.
Qed.

Lemma read_word_shrinks w j s : w <> EmptyString -> shrinks s (read_word w j s).
Proof.
  intros Hw v x. unfold read_word. destruct (CutPrefix s w) as [r|] eqn:E; [|done]. intros [= _ <-].
  apply CutPrefix_Some in E as ->. rewrite length_app_s. destruct w; [done|]. simpl. lia.
Qed.

(** Takes apart a sequence of options that ends in a result. *)
Ltac unbind :=
  repeat match goal with
  | H : (?o ≫= _) = Some _ |- _ =>
      let E := fresh "E" in destruct o as [?|] eqn:E; [cbn [mbind option_bind] in H|done]
  | H : match ?o with Some _ => _ | None => _ end = Some _ |- _ =>
      let E := fresh "E" in destruct o as [?|] eqn:E
  | H : (if ?b then _ else _) = Some _ |- _ => destruct b
  | H : Some _ = Some _ |- _ => injection H as ?; subst
  | p : (_ * string)%type |- _ => destruct p
  | H : expect _ _ = Some _ |- _ => apply expect_shrinks in H
  | H : unquote _ _ = Some _ |- _ => apply unquote_len in H
  | H : read_number _ = Some _ |- _ => apply read_number_len in H
  | H : read_word _ _ _ = Some _ |- _ => apply read_word_shrinks in H; [|done]
  end.

Lemma read_shrinks n :
  (forall s, shrinks s (read_value n s)) /\ (forall s, shrinks s (read_items n s)) /\
  (forall s, shrinks s (read_members n s)).
Proof.
  induction n as [|n (IHv & IHi & IHm)]; [by repeat split; intros|].
  split; [|split]; intros s v x Hv; cbn [read_value read_items read_members] in Hv.
  - pose proof (skip_space_len s). destruct (skip_space s) as [|c r]; [done|].
    unbind; repeat match goal with
      | H : read_items _ _ = Some _ |- _ => apply IHi in H
      | H : read_members _ _ = Some _ |- _ => apply IHm in H end; simpl in *; lia.
  - unbind; repeat match goal with
      | H : read_items _ _ = Some _ |- _ => apply IHi in H
      | H : read_value _ _ = Some _ |- _ => apply IHv in H end; lia.
  - unbind; repeat match goal with
      | H : read_members _ _ = Some _ |- _ => apply IHm in H
      | H : read_value _ _ = Some _ |- _ => apply IHv in H end; lia.
Qed.

(** More fuel changes nothing. *)
Lemma read_fuel_step k n m :
  (2 * k + 2 <= n)%nat -> (2 * k + 2 <= m)%nat ->
  (forall s, (len s <= k)%nat -> read_value (pred n) s = read_value (pred m) s) /\
  (forall s, (len s <= k)%nat -> read_items n s = read_items m s) /\
  (forall s, (len s <= k)%nat -> read_members n s = read_members m s).
Proof.
  revert n m. induction (lt_wf k) as [k _ IH]. intros [|[|n]] [|[|m]] Hn Hm; try lia. cbn [pred].
  assert (forall s, (len s <= k)%nat -> read_value (S n) s = read_value (S m) s) as Hv.
  { intros s Hs. cbn [read_value]. pose proof (skip_space_len s).
    destruct (skip_space s) as [|c r]; [done|]. simpl in *.
    destruct (IH (pred k) ltac:(lia) n m ltac:(lia) ltac:(lia)) as (_ & Hi & Hmm).
    rewrite Hi, Hmm by lia. done. }
  assert (forall r, (len r < k)%nat -> read_items (S n) r = read_items (S m) r /\
            read_members (S n) r = read_members (S m) r /\ read_value (S n) r = read_value (S m) r) as Hr.
  { intros r Hl. destruct (IH (pred k) ltac:(lia) (S n) (S m) ltac:(lia) ltac:(lia)) as (_ & Hi & Hmm).
    split; [apply Hi; lia|]. split; [apply Hmm; lia|apply Hv; lia]. }
  split; [done|]. split; intros s Hs.
  - change (read_items (S (S ?n)) s) with ('(v, r) ← read_value (S n) s;
      match expect "," r with
      | Some r => '(l, r) ← read_items (S n) r; Some (v :: l, r)
      | None => r ← expect "]" r; Some ([v], r)
      end).
    rewrite Hv by done. destruct (read_value (S m) s) as [[v r]|] eqn:E; [|done]. cbn [mbind option_bind].
    apply read_shrinks in E. destruct (expect "," r) as [r'|] eqn:E'; [|done]. apply expect_shrinks in E'.
    destruct (Hr r') as [-> _]; [lia|done].
  - change (read_members (S (S ?n)) s) with (
      r ← expect quote_char s; '(k, r) ← unquote 0 r; r ← expect ":" r; '(v, r) ← read_value (S n) r;
      match expect "," r with
      | Some r => '(l, r) ← read_members (S n) r; Some ((k, v) :: l, r)
      | None => r ← expect "}" r; Some ([(k, v)], r)
      end).
    destruct (expect quote_char s) as [r0|] eqn:E0; [|done]. cbn [mbind option_bind]. apply expect_shrinks in E0.
    destruct (unquote 0 r0) as [[key r1]|] eqn:E1; [|done]. cbn [mbind option_bind]. apply unquote_len in E1.
    destruct (expect ":" r1) as [r2|] eqn:E2; [|done]. cbn [mbind option_bind]. apply expect_shrinks in E2.
    destruct (Hr r2) as (_ & _ & ->); [lia|].
    destruct (read_value (S m) r2) as [[v r]|] eqn:E; [|done]. cbn [mbind option_bind].
    apply read_shrinks in E. destruct (expect "," r) as [r'|] eqn:E'; [|done]. apply expect_shrinks in E'.
    destruct (Hr r') as (_ & -> & _); [lia|done].
Qed.

Lemma read_fuel s n : (2 * len s + 2 <= n)%nat -> read_value n s = read_value (2 * len s + 2) s.
Proof.
  intros Hn. destruct (read_fuel_step (len s) (S n) (S (2 * len s + 2))) as (Hv & _ & _); [lia..|].
  by apply Hv.
Qed.
