(* ===== verification/JsonDecode.v ===== *)
(** Go's json.Unmarshal into structs. A member of an object goes to the field whose name it
    has up to folding; a member given twice decodes into what the first left. *)

From S2P Require Import Prelude Utf8 Text GoStrings GoTime Jmap Json.
From Stdlib Require Import Ascii String.
#[local] Open Scope string_scope.
#[local] Open Scope Z_scope.

(** ** json.Unmarshal *)

(** Field names up to case; U+017F and U+212A fold to s and k. *)
Fixpoint fold_from (skip : nat) (s : string) : string :=
  match s with
  | EmptyString => EmptyString
  | String a r =>
      match skip with
      | S k => fold_from k r
      | O =>
          if HasPrefix s (utf8_of 8490) then String "k" (fold_from 2 r)
          else if HasPrefix s (utf8_of 383) then String "s" (fold_from 1 r)
          else String (lower_byte a) (fold_from 0 r)
      end
  end.
Definition fold_name (s : string) : string := fold_from 0 s.

Definition decoder (T : Type) : Type := T -> JSON -> option T.

Definition dec_string : decoder string := fun cur j =>
  match j with JStr s => Some s | JNull => Some cur | _ => None end.
Definition dec_bool : decoder bool := fun cur j =>
  match j with JBool b => Some b | JNull => Some cur | _ => None end.
Definition dec_int : decoder Z := fun cur j =>
  match j with JNum n => ParseInt 10 n | JNull => Some cur | _ => None end.
Definition dec_time : decoder Time := fun cur j =>
  match j with JStr s => parse_time s | JNull => Some cur | _ => None end.

(** A slice: its elements are decoded over those it has. *)
Fixpoint dec_elems {T} (dec : decoder T) (zero : T) (cur : list T) (l : list JSON) : option (list T) :=
  match l with
  | [] => Some []
  | j :: l =>
      x ← dec (match cur with x :: _ => x | [] => zero end) j;
      xs ← dec_elems dec zero (tail cur) l; Some (x :: xs)
  end.
Definition dec_slice {T} (dec : decoder T) (zero : T) : decoder (list T) := fun cur j =>
  match j with JArr l => dec_elems dec zero cur l | JNull => Some [] | _ => None end.
Definition dec_strings : decoder (list string) := dec_slice dec_string "".

(** A pointer: null clears it, a value goes where it points or to a new zero value. *)
Definition dec_pointer {T} (dec : decoder T) (zero : T) : decoder (option T) := fun cur j =>
  match j with JNull => Some None | _ => x ← dec (default zero cur) j; Some (Some x) end.

(** A struct, by the setters of its fields. *)
Definition field (T : Type) : Type := string * (T -> JSON -> option T).
Definition dec_member {T} (fields : list (field T)) (cur : T) (kv : string * JSON) : option T :=
  match List.find (fun f => String.eqb (fold_name kv.1) (fold_name f.1)) fields with
  | Some f => f.2 cur kv.2
  | None => Some cur
  end.
Fixpoint dec_members {T} (fields : list (field T)) (cur : T) (ms : list (string * JSON)) : option T :=
  match ms with
  | [] => Some cur
  | kv :: ms => cur ← dec_member fields cur kv; dec_members fields cur ms
  end.
Definition dec_struct {T} (fields : list (field T)) : decoder T := fun cur j =>
  match j with JObj ms => dec_members fields cur ms | JNull => Some cur | _ => None end.

(** One field: how it is read and how it is set. *)
Definition at_field {T A} (name : string) (get : T -> A) (set : T -> A -> T) (dec : decoder A) : field T :=
  (name, fun cur j => x ← dec (get cur) j; Some (set cur x)).
