(* ===== verification/Sieve.v ===== *)
(** The managed Sieve script (src/internal/sieve/model.go and generate.go): the rule
    model with its validation, and the generator that renders it.

    Strings are byte strings. strings.ToLower ([ToLower]) and SHA-256 ([sha256]) are
    arguments: the one is Unicode's tables, the other is opaque here as elsewhere. A
    problem of a ValidationError is a constructor with the values its message shows. *)

From S2P Require Import Prelude Utf8 Text GoStrings GoTime Jmap Json.
From Stdlib Require Import Ascii String.
#[local] Open Scope string_scope.
#[local] Open Scope Z_scope.

(** ** The model (model.go) *)

Definition RuleFilter : string := "filter".
Definition RuleBlocked : string := "blocked".
Definition RuleNeverSpam : string := "neverSpam".
Definition MetadataVersion : Z := 1.
Definition VacationDays : Z := 4.
Definition ForwardKeep : string := "keep".
Definition ForwardArchive : string := "archive".
Definition DefaultSpamHeader : string := "X-Spam-Flag".
Definition DefaultSpamValue : string := "YES".

Record Criteria := mkCriteria {
  cr_From : list string; cr_To : list string; cr_Subject : list string;
  cr_SizeOver : Z; cr_SizeUnder : Z; cr_HasAttachment : option bool
}.
Definition criteria_empty (c : Criteria) : bool :=
  bool_decide (cr_From c = []) && bool_decide (cr_To c = []) && bool_decide (cr_Subject c = []) &&
  (cr_SizeOver c =? 0) && (cr_SizeUnder c =? 0) && bool_decide (cr_HasAttachment c = None).

Record Actions := mkActions {
  ac_MoveTo : string; ac_Labels : list string; ac_MarkRead : bool; ac_Star : bool;
  ac_Forward : string; ac_Delete : bool; ac_Stop : bool
}.
Definition actions_empty (a : Actions) : bool :=
  bool_decide (ac_MoveTo a = "") && bool_decide (ac_Labels a = []) && negb (ac_MarkRead a) &&
  negb (ac_Star a) && bool_decide (ac_Forward a = "") && negb (ac_Delete a) && negb (ac_Stop a).

Record Rule := mkRule {
  ru_ID : string; ru_Name : string; ru_Type : string; ru_Enabled : bool;
  ru_Criteria : Criteria; ru_Actions : Actions
}.

Record Vacation := mkVacation {
  va_Enabled : bool; va_FromDate : Time; va_ToDate : Time;
  va_Subject : string; va_TextBody : string; va_HTMLBody : string
}.

Record ForwardAll := mkForwardAll { fw_Enabled : bool; fw_Address : string; fw_Disposition : string }.

Record Script := mkScript {
  sc_Version : Z; sc_Rules : list Rule; sc_Vacation : option Vacation;
  sc_ForwardAll : option ForwardAll; sc_ExternalRequires : list string;
  sc_ExternalSource : string; sc_ExternalBody : string
}.

Record GenerateEnv := mkEnv {
  JunkFolder : string; TrashFolder : string; ArchiveFolder : string;
  SpamHeader : string; SpamValue : string; VerifiedForward : gmap string bool
}.

(** An empty string is replaced by the default. *)
Definition or_default (s d : string) : string := if String.eqb s "" then d else s.
Definition withDefaults (e : GenerateEnv) : GenerateEnv :=
  mkEnv (or_default (JunkFolder e) "Junk") (or_default (TrashFolder e) "Trash")
        (or_default (ArchiveFolder e) "Archive") (or_default (SpamHeader e) DefaultSpamHeader)
        (or_default (SpamValue e) DefaultSpamValue) (VerifiedForward e).

(** The part of Capabilities (caps.go) the generator reads. *)
Record Capabilities := mkCaps { Extensions : list string }.
Definition HasExtension (c : Capabilities) (name : string) : bool :=
  existsb (String.eqb name) (Extensions c).

Definition ruleLabel (r : Rule) : string :=
  if negb (String.eqb (ru_Name r) "") then ru_Name r
  else if negb (String.eqb (ru_ID r) "") then ru_ID r else "unnamed".

Definition criteriaStrings (c : Criteria) : list string := (cr_From c ++ cr_To c ++ cr_Subject c)%list.

Definition is_control (c : ascii) : bool := (byte_val c <? 32) || (byte_val c =? 127).
Definition safeScriptString (v : string) : bool := chars_in (fun c => negb (is_control c)) v.

Definition looksLikeAddress (a : string) : bool :=
  if String.eqb a "" || negb (safeScriptString a) ||
     ContainsAny (fun c => Ascii.eqb c " " || Ascii.eqb c "009") a then false
  else match Cut "@" a with
       | Some (before, after) =>
           negb (String.eqb before "") && negb (String.eqb after "") && negb (Contains after "@")
       | None => false
       end.

Definition sortedSet (s : gset string) : list string := merge_sort String.le (elements s).

(** What one enabled rule needs. *)
Definition ruleExtensions (r : Rule) : gset string :=
  let a := ru_Actions r in
  let c := ru_Criteria r in
  (if String.eqb (ru_Type r) RuleBlocked || String.eqb (ru_Type r) RuleNeverSpam then {["fileinto"]} else ∅) ∪
  (if negb (String.eqb (ac_MoveTo a) "") || ac_Delete a then {["fileinto"]} else ∅) ∪
  (if negb (bool_decide (ac_Labels a = [])) || ac_MarkRead a || ac_Star a then {["imap4flags"]} else ∅) ∪
  (if negb (String.eqb (ac_Forward a) "") then {["copy"]} else ∅) ∪
  (if negb (bool_decide (cr_To c = [])) then {["envelope"]} else ∅) ∪
  (if bool_decide (is_Some (cr_HasAttachment c)) then {["mime"]} else ∅).

Definition requiredSet (s : Script) : gset string :=
  ⋃ (ruleExtensions <$> filter (fun r => ru_Enabled r = true) (sc_Rules s)) ∪
  match sc_Vacation s with
  | Some v =>
      if va_Enabled v then
        {["vacation"]} ∪
        (if negb (IsZero (va_FromDate v)) || negb (IsZero (va_ToDate v)) then {["date"; "relational"]} else ∅)
      else ∅
  | None => ∅
  end ∪
  match sc_ForwardAll s with
  | Some f =>
      if fw_Enabled f then
        {["copy"]} ∪ (if String.eqb (fw_Disposition f) ForwardArchive then {["fileinto"]} else ∅)
      else ∅
  | None => ∅
  end ∪
  list_to_set (sc_ExternalRequires s).
Definition RequiredExtensions (s : Script) : list string := sortedSet (requiredSet s).

(** ** Validation *)

Inductive problem :=
| MissingID (where_ : nat) (label : string)
| DuplicateID (where_ : nat) (label id : string)
| NoCriterion (where_ : nat) (label : string)
| NoAction (where_ : nat) (label : string)
| NoSender (where_ : nat) (label : string)
| NotAnAddress (where_ : nat) (label a : string)
| UnknownType (where_ : nat) (label t : string)
| MoveAndDelete (where_ : nat) (label : string)
| ForwardNotAddress (where_ : nat) (label a : string)
| ForwardNotVerified (where_ : nat) (label a : string)
| CriterionControl (where_ : nat) (label v : string)
| FolderControl (where_ : nat) (label : string)
| LabelUnusable (where_ : nat) (label l : string)
| NegativeSize (where_ : nat) (label : string)
| VacationEmpty | VacationSubjectControl | VacationDates
| ForwardingNotAddress (a : string) | ForwardingNotVerified (a : string) | ForwardingDisposition
| NotAdvertised (ext : string).

Section sieve.
Context (ToLower : string -> string) (sha256 : string -> string).

Definition verified (env : GenerateEnv) (address : string) : bool :=
  default false (VerifiedForward env !! ToLower address).

Definition when (b : bool) (p : problem) : list problem := if b then [p] else [].

(** The body of the loop over the rules; [seen] are the ids of the rules before. *)
Definition validateRule (env : GenerateEnv) (seen : gset string) (i : nat) (r : Rule) : list problem :=
  let w := ruleLabel r in
  let a := ru_Actions r in
  let c := ru_Criteria r in
  (if String.eqb (ru_ID r) "" then [MissingID i w]
   else when (bool_decide (ru_ID r ∈ seen)) (DuplicateID i w (ru_ID r))) ++
  (if String.eqb (ru_Type r) RuleFilter || String.eqb (ru_Type r) RuleNeverSpam then
     when (criteria_empty c) (NoCriterion i w) ++
     when (String.eqb (ru_Type r) RuleFilter && actions_empty a) (NoAction i w)
   else if String.eqb (ru_Type r) RuleBlocked then
     when (bool_decide (cr_From c = [])) (NoSender i w) ++
     (x ← cr_From c; when (negb (looksLikeAddress x)) (NotAnAddress i w x))
   else [UnknownType i w (ru_Type r)]) ++
  when (negb (String.eqb (ac_MoveTo a) "") && ac_Delete a) (MoveAndDelete i w) ++
  (if String.eqb (ac_Forward a) "" then []
   else if negb (looksLikeAddress (ac_Forward a)) then [ForwardNotAddress i w (ac_Forward a)]
   else when (negb (verified env (ac_Forward a))) (ForwardNotVerified i w (ac_Forward a))) ++
  (v ← criteriaStrings c; when (negb (safeScriptString v)) (CriterionControl i w v)) ++
  when (negb (safeScriptString (ac_MoveTo a))) (FolderControl i w) ++
  (l ← ac_Labels a; when (String.eqb l "" || negb (safeScriptString l)) (LabelUnusable i w l)) ++
  when ((cr_SizeOver c <? 0) || (cr_SizeUnder c <? 0)) (NegativeSize i w).

Fixpoint validateRules (env : GenerateEnv) (seen : gset string) (i : nat) (rs : list Rule) : list problem :=
  match rs with
  | [] => []
  | r :: rs => validateRule env seen i r ++ validateRules env ({[ru_ID r]} ∪ seen) (S i) rs
  end.

Definition validateVacation (v : Vacation) : list problem :=
  when (String.eqb (TrimSpace (va_Subject v)) "" && String.eqb (TrimSpace (va_TextBody v)) "" &&
        String.eqb (TrimSpace (va_HTMLBody v)) "") VacationEmpty ++
  when (negb (safeScriptString (va_Subject v))) VacationSubjectControl ++
  when (negb (IsZero (va_FromDate v)) && negb (IsZero (va_ToDate v)) &&
        Before (va_ToDate v) (va_FromDate v)) VacationDates.

Definition validateForwardAll (env : GenerateEnv) (f : ForwardAll) : list problem :=
  (if negb (looksLikeAddress (fw_Address f)) then [ForwardingNotAddress (fw_Address f)]
   else when (negb (verified env (fw_Address f))) (ForwardingNotVerified (fw_Address f))) ++
  when (negb (String.eqb (fw_Disposition f) "") && negb (String.eqb (fw_Disposition f) ForwardKeep) &&
        negb (String.eqb (fw_Disposition f) ForwardArchive)) ForwardingDisposition.

(** [Validate]: every problem found. *)
Definition Validate (s : Script) (env : GenerateEnv) (caps : option Capabilities) : list problem :=
  let env := withDefaults env in
  validateRules env ∅ 0 (sc_Rules s) ++
  match sc_Vacation s with Some v => if va_Enabled v then validateVacation v else [] | None => [] end ++
  match sc_ForwardAll s with Some f => if fw_Enabled f then validateForwardAll env f else [] | None => [] end ++
  match caps with
  | Some c => ext ← RequiredExtensions s; when (negb (HasExtension c ext)) (NotAdvertised ext)
  | None => []
  end.


(** ** String rendering (generate.go) *)

Definition crlf : string := String "013" (String "010" EmptyString).

Fixpoint escape_sieve (s : string) : string :=
  match s with
  | EmptyString => EmptyString
  | String c s =>
      if Ascii.eqb c quote_char || Ascii.eqb c "\" then String "\" (String c (escape_sieve s))
      else String c (escape_sieve s)
  end.
Definition quoteSieve (s : string) : string :=
  String quote_char (escape_sieve s +:+ String quote_char EmptyString).
Definition stringList (values : list string) : string :=
  "[" +:+ JoinStr ", " (quoteSieve <$> values) +:+ "]".
Definition lowerAll (values : list string) : list string := ToLower <$> values.

Definition stuff_line (l : string) : string := if HasPrefix l "." then String "." l else l.
Definition dotStuff (text : string) : string :=
  JoinStr crlf (stuff_line <$> Split "010" (ReplaceAll text crlf (String "010" EmptyString))).

(** ** Rule emission *)

Definition writeBlockedRule (r : Rule) (env : GenerateEnv) : string :=
  "# blocked:" +:+ ru_ID r +:+ crlf +:+
  dq "if address :all :is 'from' " +:+ stringList (lowerAll (cr_From (ru_Criteria r))) +:+ " {" +:+ crlf +:+
  "    fileinto " +:+ quoteSieve (JunkFolder env) +:+ ";" +:+ crlf +:+
  "    stop;" +:+ crlf +:+ "}" +:+ crlf.

(** The test of the scanner's verdict header. *)
Definition spamTest (env : GenerateEnv) : string :=
  "header :contains " +:+ quoteSieve (ToLower (SpamHeader env)) +:+ " " +:+ quoteSieve (SpamValue env).

Definition writeForwardAll (f : ForwardAll) (env : GenerateEnv) : string :=
  "# forward-all" +:+ crlf +:+
  "if not " +:+ spamTest env +:+ " {" +:+ crlf +:+
  "    redirect :copy " +:+ quoteSieve (fw_Address f) +:+ ";" +:+ crlf +:+
  (if String.eqb (fw_Disposition f) ForwardArchive
   then "    fileinto " +:+ quoteSieve (ArchiveFolder env) +:+ ";" +:+ crlf else "") +:+
  "}" +:+ crlf.

Definition attachmentTest : string :=
  dq ("anyof (header :mime :anychild :param 'filename' :matches 'content-disposition' '*', " +:+
      "header :mime :anychild :param 'name' :matches 'content-type' '*')").

Definition criteriaTests (c : Criteria) (extra : option string) : list string :=
  match extra with Some e => [e] | None => [] end ++
  (if bool_decide (cr_From c = []) then [] else [dq "header :contains 'from' " +:+ stringList (cr_From c)]) ++
  (if bool_decide (cr_To c = []) then []
   else [dq "anyof (header :contains ['to', 'cc'] " +:+ stringList (cr_To c) +:+
         dq ", envelope :all :contains 'to' " +:+ stringList (cr_To c) +:+ ")"]) ++
  (if bool_decide (cr_Subject c = []) then []
   else [dq "header :contains 'subject' " +:+ stringList (cr_Subject c)]) ++
  (if 0 <? cr_SizeOver c then ["size :over " +:+ FormatInt 10 (cr_SizeOver c)] else []) ++
  (if 0 <? cr_SizeUnder c then ["size :under " +:+ FormatInt 10 (cr_SizeUnder c)] else []) ++
  match cr_HasAttachment c with
  | Some true => [attachmentTest]
  | Some false => ["not " +:+ attachmentTest]
  | None => []
  end.
Definition criteriaTest (c : Criteria) (extra : option string) : string :=
  match criteriaTests c extra with
  | [t] => t
  | ts => "allof (" +:+ JoinStr ", " ts +:+ ")"
  end.

Definition ruleFlags (a : Actions) : list string :=
  (if ac_MarkRead a then ["\Seen"] else []) ++ (if ac_Star a then ["\Flagged"] else []) ++
  ((fun l => "$label:" +:+ l) <$> ac_Labels a).
Definition writeRuleActions (a : Actions) (env : GenerateEnv) : string :=
  (if bool_decide (ruleFlags a = []) then ""
   else "    addflag " +:+ stringList (ruleFlags a) +:+ ";" +:+ crlf) +:+
  (if String.eqb (ac_Forward a) "" then ""
   else "    redirect :copy " +:+ quoteSieve (ac_Forward a) +:+ ";" +:+ crlf) +:+
  (if ac_Delete a then "    fileinto " +:+ quoteSieve (TrashFolder env) +:+ ";" +:+ crlf
   else if String.eqb (ac_MoveTo a) "" then ""
   else "    fileinto " +:+ quoteSieve (ac_MoveTo a) +:+ ";" +:+ crlf) +:+
  (if ac_Stop a then "    stop;" +:+ crlf else "").

Definition writeFilterRule (r : Rule) (env : GenerateEnv) : string :=
  "# rule:" +:+ ru_ID r +:+ crlf +:+
  "if " +:+ criteriaTest (ru_Criteria r) None +:+ " {" +:+ crlf +:+
  writeRuleActions (ru_Actions r) env +:+ "}" +:+ crlf.

Definition writeNeverSpamRule (r : Rule) (env : GenerateEnv) : string :=
  "# never-spam:" +:+ ru_ID r +:+ crlf +:+
  "if " +:+ criteriaTest (ru_Criteria r) (Some (spamTest env)) +:+ " {" +:+ crlf +:+
  "    fileinto " +:+ quoteSieve (or_default (ac_MoveTo (ru_Actions r)) "INBOX") +:+ ";" +:+ crlf +:+
  "    stop;" +:+ crlf +:+ "}" +:+ crlf.

(** ** Vacation emission *)

Definition dateBound (t : Time) (from : bool) : string :=
  let t := UTC t in
  let day := quoteSieve (format_date t) in
  let clock := quoteSieve (format_clock t) in
  let cd := dq "currentdate :zone '+0000'" in
  "anyof (" +:+ cd +:+ dq (if from then " :value 'gt' 'date' " else " :value 'lt' 'date' ") +:+ day +:+
  ", allof (" +:+ cd +:+ dq " :is 'date' " +:+ day +:+ ", " +:+
  cd +:+ dq (if from then " :value 'ge' 'time' " else " :value 'le' 'time' ") +:+ clock +:+ "))".

Definition vacationGuards (v : Vacation) (env : GenerateEnv) : list string :=
  ["not " +:+ spamTest env;
   dq "not exists ['list-id', 'list-unsubscribe', 'list-post']";
   dq "not header :is 'precedence' ['bulk', 'list', 'junk']";
   dq "anyof (not exists 'auto-submitted', header :is 'auto-submitted' 'no')"] ++
  (if IsZero (va_FromDate v) then [] else [dateBound (va_FromDate v) true]) ++
  (if IsZero (va_ToDate v) then [] else [dateBound (va_ToDate v) false]).

(** Lower-case hexadecimal of the first eight bytes of the digest. *)
Fixpoint hex (s : string) : string :=
  match s with
  | EmptyString => EmptyString
  | String c s => String (hex_char (byte_val c / 16)) (String (hex_char (byte_val c)) (hex s))
  end.
Definition vacationHandle (v : Vacation) : string :=
  let nul := String "000" EmptyString in
  "moov-vacation-" +:+
  hex (take_s 8 (sha256 (va_Subject v +:+ nul +:+ va_TextBody v +:+ nul +:+ va_HTMLBody v))).

(** The runes outside tags; [copy] bytes of the current rune remain. *)
Fixpoint strip_from (copy : nat) (inTag : bool) (s : string) : string :=
  match s with
  | EmptyString => EmptyString
  | String c r =>
      match copy with
      | S k => if inTag then strip_from k inTag r else String c (strip_from k inTag r)
      | O =>
          if Ascii.eqb c "<" then strip_from 0 true r
          else if Ascii.eqb c ">" then strip_from 0 false r
          else if inTag then strip_from (pred (multi_width s)) true r
          else if is_ascii_byte c then String c (strip_from 0 false r)
          else match multi_width s with
               | O => replacement +:+ strip_from 0 false r
               | S w => String c (strip_from w false r)
               end
      end
  end.
Definition stripTags (html : string) : string :=
  let out := strip_from 0 false html in
  let out := ReplaceAll out "&amp;" "&" in
  let out := ReplaceAll out "&lt;" "<" in
  let out := ReplaceAll out "&gt;" ">" in
  let out := ReplaceAll out "&quot;" (String quote_char EmptyString) in
  let out := ReplaceAll out "&#39;" "'" in
  TrimSpace out.

Definition boundary : string := "=_moov_vacation_alt".
(** [vacationMIME]: None when a body contains the boundary. *)
Definition vacationMIME (v : Vacation) : option string :=
  let text := if String.eqb (va_TextBody v) "" then stripTags (va_HTMLBody v) else va_TextBody v in
  if Contains (va_HTMLBody v) boundary || Contains text boundary then None
  else Some (
    "Content-Type: multipart/alternative; boundary=" +:+
      String quote_char (boundary +:+ String quote_char EmptyString) +:+ crlf +:+
    "MIME-Version: 1.0" +:+ crlf +:+ crlf +:+
    "--" +:+ boundary +:+ crlf +:+
    "Content-Type: text/plain; charset=utf-8" +:+ crlf +:+ crlf +:+
    text +:+ crlf +:+
    "--" +:+ boundary +:+ crlf +:+
    "Content-Type: text/html; charset=utf-8" +:+ crlf +:+ crlf +:+
    va_HTMLBody v +:+ crlf +:+
    "--" +:+ boundary +:+ "--").

(** The argument of the vacation command: its tag and its text block. *)
Definition vacationBody (v : Vacation) : option string :=
  if negb (String.eqb (va_HTMLBody v) "") then
    mime ← vacationMIME v;
    Some (" :mime text:" +:+ crlf +:+ dotStuff mime +:+ crlf +:+ "." +:+ crlf +:+ ";" +:+ crlf)
  else
    let body := or_default (va_TextBody v) (va_Subject v) in
    Some (" text:" +:+ crlf +:+ dotStuff body +:+ crlf +:+ "." +:+ crlf +:+ ";" +:+ crlf).
Definition writeVacation (v : Vacation) (env : GenerateEnv) : option string :=
  body ← vacationBody v;
  Some ("# vacation" +:+ crlf +:+
    "if allof (" +:+ crlf +:+ "    " +:+ JoinStr ("," +:+ crlf +:+ "    ") (vacationGuards v env) +:+ crlf +:+ ") {" +:+ crlf +:+
    "    vacation :days " +:+ FormatInt 10 VacationDays +:+ " :handle " +:+ quoteSieve (vacationHandle v) +:+
    (if String.eqb (va_Subject v) "" then "" else " :subject " +:+ quoteSieve (va_Subject v)) +:+
    body +:+ "}" +:+ crlf).

(** ** The metadata *)

(** A struct field with [omitempty]. *)
Definition omit (empty : bool) (k : string) (j : JSON) : list (string * JSON) :=
  if empty then [] else [(k, j)].
Definition omit_list (k : string) (l : list string) : list (string * JSON) :=
  omit (bool_decide (l = [])) k (JArr (JStr <$> l)).
Definition omit_str (k s : string) : list (string * JSON) := omit (bool_decide (s = "")) k (JStr s).
Definition omit_bool (k : string) (b : bool) : list (string * JSON) := omit (negb b) k (JBool b).
Definition omit_int (k : string) (v : Z) : list (string * JSON) := omit (v =? 0) k (JNum (int_literal v)).

Definition criteria_json (c : Criteria) : JSON :=
  JObj (omit_list "from" (cr_From c) ++ omit_list "to" (cr_To c) ++ omit_list "subject" (cr_Subject c) ++
        omit_int "sizeOver" (cr_SizeOver c) ++ omit_int "sizeUnder" (cr_SizeUnder c) ++
        match cr_HasAttachment c with Some b => [("hasAttachment", JBool b)] | None => [] end).
Definition actions_json (a : Actions) : JSON :=
  JObj (omit_str "moveTo" (ac_MoveTo a) ++ omit_list "labels" (ac_Labels a) ++
        omit_bool "markRead" (ac_MarkRead a) ++ omit_bool "star" (ac_Star a) ++
        omit_str "forward" (ac_Forward a) ++ omit_bool "delete" (ac_Delete a) ++ omit_bool "stop" (ac_Stop a)).
Definition rule_json (r : Rule) : JSON :=
  JObj ([("id", JStr (ru_ID r))] ++ omit_str "name" (ru_Name r) ++
        [("type", JStr (ru_Type r)); ("enabled", JBool (ru_Enabled r));
         ("criteria", criteria_json (ru_Criteria r)); ("actions", actions_json (ru_Actions r))]).
Definition vacation_json (v : Vacation) : option JSON :=
  from ← marshal_time (va_FromDate v); to ← marshal_time (va_ToDate v);
  Some (JObj ([("enabled", JBool (va_Enabled v)); ("fromDate", JStr from); ("toDate", JStr to)] ++
              omit_str "subject" (va_Subject v) ++ omit_str "textBody" (va_TextBody v) ++
              omit_str "htmlBody" (va_HTMLBody v))).
Definition forward_json (f : ForwardAll) : JSON :=
  JObj ([("enabled", JBool (fw_Enabled f))] ++ omit_str "address" (fw_Address f) ++
        omit_str "disposition" (fw_Disposition f)).

(** The struct tags of Script; ExternalBody is not in the JSON. *)
Definition script_json (s : Script) : option JSON :=
  vac ← match sc_Vacation s with
        | Some v => j ← vacation_json v; Some [("vacation", j)]
        | None => Some []
        end;
  Some (JObj ([("version", JNum (int_literal (sc_Version s)))] ++
              omit (bool_decide (sc_Rules s = [])) "rules" (JArr (rule_json <$> sc_Rules s)) ++ vac ++
              match sc_ForwardAll s with Some f => [("forwardAll", forward_json f)] | None => [] end ++
              omit_list "externalRequires" (sc_ExternalRequires s) ++
              omit_str "externalSource" (sc_ExternalSource s))).

(** [marshalMetadata]: None when a date cannot be marshalled. *)
Definition marshalMetadata (s : Script) : option string :=
  j ← script_json s; Some (break_pair (Marshal j)).

(** ** The generator *)

Definition metaBegin : string := "/* @moov:begin".
Definition metaEnd : string := "@moov:end */".
Definition externalBegin : string := "# --- moov:external begin (foreign content, preserved verbatim) ---".
Definition externalEnd : string := "# --- moov:external end ---".

Inductive GenerateError :=
| Invalid (problems : list problem)
| RefusingRedirect (address : string)
| MarshalFailed
| BoundaryCollision.

Fixpoint concat_s (l : list string) : string :=
  match l with [] => EmptyString | x :: l => x +:+ concat_s l end.

(** The address of the first enabled rule, or of forward-all, that is not verified. *)
Definition unverifiedRedirect (s : Script) (env : GenerateEnv) : option string :=
  match List.find (fun r => ru_Enabled r && negb (String.eqb (ac_Forward (ru_Actions r)) "") &&
                            negb (verified env (ac_Forward (ru_Actions r)))) (sc_Rules s) with
  | Some r => Some (ac_Forward (ru_Actions r))
  | None =>
      match sc_ForwardAll s with
      | Some f => if fw_Enabled f && negb (verified env (fw_Address f)) then Some (fw_Address f) else None
      | None => None
      end
  end.

Definition header_text (meta : string) : string :=
  metaBegin +:+ crlf +:+ meta +:+ crlf +:+ metaEnd +:+ crlf +:+
  "# Managed by Moov Mail. Edits to this script are preserved as foreign" +:+ crlf +:+
  "# content but not merged; keep hand-written rules in a separate script." +:+ crlf.
Definition require_text (s : Script) : string :=
  match RequiredExtensions s with
  | [] => ""
  | reqs => "require " +:+ stringList reqs +:+ ";" +:+ crlf
  end.
Definition blocked_text (s : Script) (env : GenerateEnv) : string :=
  concat_s ((fun r => if ru_Enabled r && String.eqb (ru_Type r) RuleBlocked
                      then writeBlockedRule r env else "") <$> sc_Rules s).
Definition forward_text (s : Script) (env : GenerateEnv) : string :=
  match sc_ForwardAll s with Some f => if fw_Enabled f then writeForwardAll f env else "" | None => "" end.
Definition vacation_text (s : Script) (env : GenerateEnv) : option string :=
  match sc_Vacation s with
  | Some v => if va_Enabled v then writeVacation v env else Some ""
  | None => Some ""
  end.
Definition rule_text (env : GenerateEnv) (r : Rule) : string :=
  if negb (ru_Enabled r) then ""
  else if String.eqb (ru_Type r) RuleFilter then writeFilterRule r env
  else if String.eqb (ru_Type r) RuleNeverSpam then writeNeverSpamRule r env else "".
Definition external_text (s : Script) : string :=
  if String.eqb (sc_ExternalBody s) "" then ""
  else externalBegin +:+ crlf +:+ sc_ExternalBody s +:+
       (if HasSuffix (sc_ExternalBody s) (String "010" EmptyString) then "" else crlf) +:+
       externalEnd +:+ crlf.

(** [Generate]. *)
Definition Generate (s : Script) (env : GenerateEnv) (caps : option Capabilities) : GenerateError + string :=
  let env := withDefaults env in
  match Validate s env caps with
  | (_ :: _) as problems => inl (Invalid problems)
  | [] =>
      match unverifiedRedirect s env with
      | Some a => inl (RefusingRedirect a)
      | None =>
          match marshalMetadata s with
          | None => inl MarshalFailed
          | Some meta =>
              match vacation_text s env with
              | None => inl BoundaryCollision
              | Some vacation =>
                  inr (header_text meta +:+ require_text s +:+ blocked_text s env +:+ forward_text s env +:+
                       vacation +:+ concat_s (rule_text env <$> sc_Rules s) +:+ external_text s)
              end
          end
      end
  end.
End sieve.
