(* ===== verification/SieveLang.v ===== *)
(** What the generated script does: the commands the generator emits as a syntax of their
    own, the text they stand for, and their meaning by RFC 5228 (and RFC 5230, 5260, 5703
    for vacation, dates and MIME parameters). Every script of generate.go is the text of
    its compiled form ([Generate_compiled]), so the theorems on the meaning of the
    compiled form are about the generated script. The foreign section, which runs after
    these commands, is opaque. *)

From S2P Require Import Prelude Utf8 Text GoStrings GoTime Jmap Json Sieve.
From Stdlib Require Import Ascii String.
#[local] Open Scope string_scope.
#[local] Open Scope Z_scope.

(** ** Syntax *)

Inductive strs := One (s : string) | Many (l : list string).
Inductive mtype := MContains | MIs.
Inductive relop := RGt | RGe | RLt | RLe.

Inductive test :=
| THeader (m : mtype) (headers values : strs)
| TAddressFrom (values : list string)
| TEnvelopeTo (values : list string)
| TSizeOver (n : Z)
| TSizeUnder (n : Z)
| TParam (param header : string)
| TExists (headers : strs)
| TDateIs (part value : string)
| TDateCmp (op : relop) (part value : string)
| TNot (t : test)
| TAnyof (l : list test)
| TAllof (l : list test)
| TGuards (l : list test).

Inductive action :=
| AAddflag (flags : list string)
| ARedirect (address : string)
| AFileinto (folder : string)
| AStop
| AVacation (handle subject : string) (mime : bool) (text : string).

Record block := mkBlock { b_comment : string; b_test : test; b_actions : list action }.

(** ** Text *)

Definition show_strs (s : strs) : string :=
  match s with One s => quoteSieve s | Many l => stringList l end.
Definition show_mtype (m : mtype) : string := match m with MContains => ":contains" | MIs => ":is" end.
Definition show_relop (o : relop) : string :=
  match o with RGt => "gt" | RGe => "ge" | RLt => "lt" | RLe => "le" end.
Definition currentdate : string := dq "currentdate :zone '+0000'".

Fixpoint show_test (t : test) : string :=
  match t with
  | THeader m hs vs => "header " +:+ show_mtype m +:+ " " +:+ show_strs hs +:+ " " +:+ show_strs vs
  | TAddressFrom vs => dq "address :all :is 'from' " +:+ stringList vs
  | TEnvelopeTo vs => dq "envelope :all :contains 'to' " +:+ stringList vs
  | TSizeOver n => "size :over " +:+ FormatInt 10 n
  | TSizeUnder n => "size :under " +:+ FormatInt 10 n
  | TParam p h => "header :mime :anychild :param " +:+ quoteSieve p +:+ " :matches " +:+ quoteSieve h +:+ dq " '*'"
  | TExists hs => "exists " +:+ show_strs hs
  | TDateIs p v => currentdate +:+ " :is " +:+ quoteSieve p +:+ " " +:+ quoteSieve v
  | TDateCmp o p v => currentdate +:+ " :value " +:+ quoteSieve (show_relop o) +:+ " " +:+ quoteSieve p +:+ " " +:+ quoteSieve v
  | TNot t => "not " +:+ show_test t
  | TAnyof l => "anyof (" +:+ JoinStr ", " (show_test <$> l) +:+ ")"
  | TAllof l => "allof (" +:+ JoinStr ", " (show_test <$> l) +:+ ")"
  | TGuards l => "allof (" +:+ crlf +:+ "    " +:+ JoinStr ("," +:+ crlf +:+ "    ") (show_test <$> l) +:+ crlf +:+ ")"
  end.

Definition show_action (a : action) : string :=
  match a with
  | AAddflag flags => "    addflag " +:+ stringList flags +:+ ";" +:+ crlf
  | ARedirect a => "    redirect :copy " +:+ quoteSieve a +:+ ";" +:+ crlf
  | AFileinto f => "    fileinto " +:+ quoteSieve f +:+ ";" +:+ crlf
  | AStop => "    stop;" +:+ crlf
  | AVacation handle subject mime text =>
      "    vacation :days 4 :handle " +:+ quoteSieve handle +:+
      (if String.eqb subject "" then "" else " :subject " +:+ quoteSieve subject) +:+
      (if mime then " :mime text:" else " text:") +:+ crlf +:+ dotStuff text +:+ crlf +:+ "." +:+ crlf +:+ ";" +:+ crlf
  end.
Definition show_block (b : block) : string :=
  "# " +:+ b_comment b +:+ crlf +:+ "if " +:+ show_test (b_test b) +:+ " {" +:+ crlf +:+
  concat_s (show_action <$> b_actions b) +:+ "}" +:+ crlf.
Definition show_blocks (bs : list block) : string := concat_s (show_block <$> bs).

Section lang.
Context (ToLower : string -> string) (sha256 : string -> string).

(** ** The compiled form of a model *)

Definition spam_test (env : GenerateEnv) : test :=
  THeader MContains (One (ToLower (SpamHeader env))) (One (SpamValue env)).
Definition attachment_test : test :=
  TAnyof [TParam "filename" "content-disposition"; TParam "name" "content-type"].

Definition criteria_tests (c : Criteria) (extra : option test) : list test :=
  match extra with Some e => [e] | None => [] end ++
  (if bool_decide (cr_From c = []) then [] else [THeader MContains (One "from") (Many (cr_From c))]) ++
  (if bool_decide (cr_To c = []) then []
   else [TAnyof [THeader MContains (Many ["to"; "cc"]) (Many (cr_To c)); TEnvelopeTo (cr_To c)]]) ++
  (if bool_decide (cr_Subject c = []) then []
   else [THeader MContains (One "subject") (Many (cr_Subject c))]) ++
  (if 0 <? cr_SizeOver c then [TSizeOver (cr_SizeOver c)] else []) ++
  (if 0 <? cr_SizeUnder c then [TSizeUnder (cr_SizeUnder c)] else []) ++
  match cr_HasAttachment c with
  | Some true => [attachment_test]
  | Some false => [TNot attachment_test]
  | None => []
  end.
Definition criteria_test (c : Criteria) (extra : option test) : test :=
  match criteria_tests c extra with [t] => t | ts => TAllof ts end.

Definition rule_actions (a : Actions) (env : GenerateEnv) : list action :=
  (if bool_decide (ruleFlags a = []) then [] else [AAddflag (ruleFlags a)]) ++
  (if String.eqb (ac_Forward a) "" then [] else [ARedirect (ac_Forward a)]) ++
  (if ac_Delete a then [AFileinto (TrashFolder env)]
   else if String.eqb (ac_MoveTo a) "" then [] else [AFileinto (ac_MoveTo a)]) ++
  (if ac_Stop a then [AStop] else []).

Definition blocked_block (env : GenerateEnv) (r : Rule) : block :=
  mkBlock ("blocked:" +:+ ru_ID r) (TAddressFrom (lowerAll ToLower (cr_From (ru_Criteria r))))
    [AFileinto (JunkFolder env); AStop].
Definition forward_block (env : GenerateEnv) (f : ForwardAll) : block :=
  mkBlock "forward-all" (TNot (spam_test env))
    (ARedirect (fw_Address f) ::
     (if String.eqb (fw_Disposition f) ForwardArchive then [AFileinto (ArchiveFolder env)] else [])).
Definition filter_block (env : GenerateEnv) (r : Rule) : block :=
  mkBlock ("rule:" +:+ ru_ID r) (criteria_test (ru_Criteria r) None) (rule_actions (ru_Actions r) env).
Definition never_spam_block (env : GenerateEnv) (r : Rule) : block :=
  mkBlock ("never-spam:" +:+ ru_ID r) (criteria_test (ru_Criteria r) (Some (spam_test env)))
    [AFileinto (or_default (ac_MoveTo (ru_Actions r)) "INBOX"); AStop].

Definition date_bound (t : Time) (from : bool) : test :=
  let t := UTC t in
  TAnyof [TDateCmp (if from then RGt else RLt) "date" (format_date t);
          TAllof [TDateIs "date" (format_date t);
                  TDateCmp (if from then RGe else RLe) "time" (format_clock t)]].
Definition vacation_guards (v : Vacation) (env : GenerateEnv) : list test :=
  [TNot (spam_test env);
   TNot (TExists (Many ["list-id"; "list-unsubscribe"; "list-post"]));
   TNot (THeader MIs (One "precedence") (Many ["bulk"; "list"; "junk"]));
   TAnyof [TNot (TExists (One "auto-submitted")); THeader MIs (One "auto-submitted") (One "no")]] ++
  (if IsZero (va_FromDate v) then [] else [date_bound (va_FromDate v) true]) ++
  (if IsZero (va_ToDate v) then [] else [date_bound (va_ToDate v) false]).
Definition vacation_block (env : GenerateEnv) (v : Vacation) : option block :=
  let html := negb (String.eqb (va_HTMLBody v) "") in
  text ← (if html then vacationMIME v else Some (or_default (va_TextBody v) (va_Subject v)));
  Some (mkBlock "vacation" (TGuards (vacation_guards v env))
          [AVacation (vacationHandle sha256 v) (va_Subject v) html text]).

(** The sections in the order of Generate. *)
Definition is_blocked (r : Rule) : bool := ru_Enabled r && String.eqb (ru_Type r) RuleBlocked.
Definition rule_blocks (env : GenerateEnv) (r : Rule) : list block :=
  if negb (ru_Enabled r) then []
  else if String.eqb (ru_Type r) RuleFilter then [filter_block env r]
  else if String.eqb (ru_Type r) RuleNeverSpam then [never_spam_block env r] else [].
Definition compile (s : Script) (env : GenerateEnv) : option (list block) :=
  vacation ← match sc_Vacation s with
             | Some v => if va_Enabled v then b ← vacation_block env v; Some [b] else Some []
             | None => Some []
             end;
  Some ((blocked_block env <$> filter (fun r => is_blocked r = true) (sc_Rules s)) ++
        match sc_ForwardAll s with Some f => if fw_Enabled f then [forward_block env f] else [] | None => [] end ++
        vacation ++ (sc_Rules s ≫= rule_blocks env))%list.

(** ** The generated text is the text of the compiled form *)

Lemma concat_s_app l k : concat_s (l ++ k) = concat_s l +:+ concat_s k.
Proof. induction l as [|x l IH]; [done|]. simpl. by rewrite IH, app_s_assoc. Qed.

(** Equal texts once their parts are associated to the right. *)
Ltac text := cbn; rewrite <- ?app_s_assoc; reflexivity.

Lemma show_spam env : show_test (spam_test env) = spamTest ToLower env.
Proof. text. Qed.

Lemma show_criteria_tests c extra :
  show_test <$> criteria_tests c extra = criteriaTests c (show_test <$> extra).
Proof.
  unfold criteria_tests, criteriaTests. rewrite !fmap_app.
  f_equal; [by destruct extra|]. repeat (f_equal; [case_match; text|]).
  by destruct (cr_HasAttachment c) as [[]|].
Qed.

Lemma show_criteria c extra : show_test (criteria_test c extra) = criteriaTest c (show_test <$> extra).
Proof.
  unfold criteria_test, criteriaTest. rewrite <- show_criteria_tests.
  by destruct (criteria_tests c extra) as [|t [|t' ts]].
Qed.

Lemma show_rule_actions a env : concat_s (show_action <$> rule_actions a env) = writeRuleActions a env.
Proof.
  unfold rule_actions, writeRuleActions. rewrite !fmap_app, !concat_s_app.
  repeat (f_equal; [repeat case_match; text|]). case_match; text.
Qed.

Lemma show_blocked env r : show_block (blocked_block env r) = writeBlockedRule ToLower r env.
Proof. unfold show_block, writeBlockedRule. text. Qed.
Lemma show_forward env f : show_block (forward_block env f) = writeForwardAll ToLower f env.
Proof. unfold forward_block, writeForwardAll, show_block. rewrite <- show_spam. case_match; text. Qed.
Lemma show_filter env r : show_block (filter_block env r) = writeFilterRule r env.
Proof.
  unfold filter_block, writeFilterRule, show_block. cbn [b_comment b_test b_actions]. rewrite show_criteria, show_rule_actions. text.
Qed.
Lemma show_never_spam env r : show_block (never_spam_block env r) = writeNeverSpamRule ToLower r env.
Proof.
  unfold never_spam_block, writeNeverSpamRule, show_block. cbn [b_comment b_test b_actions].
  rewrite show_criteria, <- show_spam. text.
Qed.

Lemma show_date_bound t from : show_test (date_bound t from) = dateBound t from.
Proof. destruct from; text. Qed.
Lemma show_vacation_guards v env : show_test <$> vacation_guards v env = vacationGuards ToLower v env.
Proof.
  unfold vacation_guards, vacationGuards. rewrite !fmap_app.
  rewrite <- show_spam. apply (f_equal2 app); [done|].
  apply (f_equal2 app); (case_match; [done|]); by rewrite <- show_date_bound.
Qed.
Lemma show_vacation env v b :
  vacation_block env v = Some b -> writeVacation ToLower sha256 v env = Some (show_block b).
Proof.
  unfold vacation_block, writeVacation, vacationBody.
  destruct (String.eqb (va_HTMLBody v) "") eqn:Eh; cbn [negb].
  - cbn [mbind option_bind]. intros [= <-]. f_equal. unfold show_block. cbn [b_comment b_test b_actions show_test].
    rewrite show_vacation_guards. text.
  - destruct (vacationMIME v) as [m|]; [|done]. cbn [mbind option_bind]. intros [= <-]. f_equal.
    unfold show_block. cbn [b_comment b_test b_actions show_test].
    rewrite show_vacation_guards. text.
Qed.

Lemma show_blocked_rules env rs :
  show_blocks (blocked_block env <$> filter (fun r => is_blocked r = true) rs) =
  concat_s ((fun r => if ru_Enabled r && String.eqb (ru_Type r) RuleBlocked
                      then writeBlockedRule ToLower r env else "") <$> rs).
Proof.
  unfold show_blocks. induction rs as [|r rs IH]; [done|]. rewrite filter_cons. unfold is_blocked at 1.
  rewrite fmap_cons. cbn [concat_s]. rewrite <- IH.
  case_decide as E; [rewrite E, !fmap_cons, <- show_blocked; done|].
  apply not_true_is_false in E. by rewrite E.
Qed.

Lemma show_rule_blocks env rs :
  show_blocks (rs ≫= rule_blocks env) = concat_s (rule_text ToLower env <$> rs).
Proof.
  unfold show_blocks. induction rs as [|r rs IH]; [done|].
  rewrite bind_cons, fmap_app, concat_s_app, fmap_cons. cbn [concat_s]. rewrite IH. f_equal.
  unfold rule_blocks, rule_text. repeat case_match; try done; cbn [fmap list_fmap concat_s]; rewrite app_s_nil.
  - apply show_filter.
  - apply show_never_spam.
Qed.

Lemma vacation_block_None env v :
  vacation_block env v = None -> writeVacation ToLower sha256 v env = None.
Proof.
  unfold vacation_block, writeVacation, vacationBody.
  destruct (String.eqb (va_HTMLBody v) ""); cbn [negb]; [done|]. by destruct (vacationMIME v).
Qed.

(** Everything between the require line and the foreign section is the text of the
    compiled form. *)
Lemma compile_text s env :
  (bs ← compile s env; Some (show_blocks bs)) =
  (vacation ← vacation_text ToLower sha256 s env;
   Some (blocked_text ToLower s env +:+ forward_text ToLower s env +:+ vacation +:+
         concat_s (rule_text ToLower env <$> sc_Rules s))).
Proof.
  unfold compile, vacation_text, blocked_text, forward_text. rewrite <- show_blocked_rules, <- show_rule_blocks.
  assert (match sc_ForwardAll s with Some f => if fw_Enabled f then writeForwardAll ToLower f env else "" | None => "" end
    = show_blocks match sc_ForwardAll s with Some f => if fw_Enabled f then [forward_block env f] else [] | None => [] end) as ->.
  { destruct (sc_ForwardAll s) as [f|]; [|done]. destruct (fw_Enabled f); [|done].
    unfold show_blocks. cbn [fmap list_fmap concat_s]. by rewrite app_s_nil, show_forward. }
  unfold show_blocks.
  destruct (sc_Vacation s) as [v|]; [destruct (va_Enabled v); [destruct (vacation_block env v) as [b|] eqn:Eb|]|];
    cbn [mbind option_bind].
  - rewrite (show_vacation _ _ _ Eb). cbn [mbind option_bind]. f_equal.
    rewrite !fmap_app, !concat_s_app. cbn [fmap list_fmap concat_s]. by rewrite app_s_nil.
  - by rewrite (vacation_block_None _ _ Eb).
  - f_equal. rewrite !fmap_app, !concat_s_app. done.
  - f_equal. rewrite !fmap_app, !concat_s_app. done.
Qed.

Lemma withDefaults_idemp env : withDefaults (withDefaults env) = withDefaults env.
Proof.
  unfold withDefaults, or_default. cbn. f_equal; repeat (case_match; try done); try congruence.
Qed.

Lemma Generate_compiled s env caps text :
  Generate ToLower sha256 s env caps = inr text ->
  exists meta bs, marshalMetadata s = Some meta /\ compile s (withDefaults env) = Some bs /\
  Validate ToLower s env caps = [] /\ unverifiedRedirect ToLower s (withDefaults env) = None /\
  text = header_text meta +:+ require_text s +:+ show_blocks bs +:+ external_text s.
Proof.
  unfold Generate. intros HG.
  assert (Validate ToLower s (withDefaults env) caps = Validate ToLower s env caps) as HV
    by (unfold Validate; by rewrite withDefaults_idemp).
  rewrite HV in HG. destruct (Validate ToLower s env caps); [|done].
  destruct (unverifiedRedirect _ _ _); [done|]. destruct (marshalMetadata s) as [meta|]; [|done].
  pose proof (compile_text s (withDefaults env)) as Hc.
  destruct (vacation_text _ _ _ _) as [v|]; [|done]. injection HG as <-. cbn [mbind option_bind] in Hc.
  destruct (compile s (withDefaults env)) as [bs|]; [|done]. injection Hc as Hc.
  exists meta, bs. repeat split; [done..|]. rewrite Hc. by rewrite <- !app_s_assoc.
Qed.

(** ** Meaning *)

(** What the tests of RFC 5228 look at: the header fields, the addresses of From, the
    envelope recipients, the size, and the MIME parameters of the parts, by header. *)
Record message := mkMessage {
  m_headers : list (string * string);
  m_from : list string;
  m_envelope_to : list string;
  m_size : Z;
  m_params : list (string * string)
}.

(** The comparator i;ascii-casemap. *)
Definition same (a b : string) : bool := String.eqb (lower_ascii a) (lower_ascii b).
Definition within (needle hay : string) : bool := Contains (lower_ascii hay) (lower_ascii needle).
Definition strs_list (s : strs) : list string := match s with One s => [s] | Many l => l end.

Definition has_header (m : message) (h : string) : bool := existsb (fun kv => same h kv.1) (m_headers m).
Definition header_matches (m : message) (mt : mtype) (h v : string) : bool :=
  existsb (fun kv => same h kv.1 && match mt with MContains => within v kv.2 | MIs => same v kv.2 end) (m_headers m).

Definition date_part (part : string) (now : Time) : string :=
  if String.eqb part "date" then format_date (UTC now) else format_clock (UTC now).
Definition rel (o : relop) (c : comparison) : bool :=
  match o, c with
  | RGt, Gt | RGe, Gt | RGe, Eq | RLt, Lt | RLe, Lt | RLe, Eq => true
  | _, _ => false
  end.

Fixpoint eval (now : Time) (m : message) (t : test) : bool :=
  match t with
  | THeader mt hs vs => existsb (fun h => existsb (header_matches m mt h) (strs_list vs)) (strs_list hs)
  | TAddressFrom vs => existsb (fun a => existsb (same a) vs) (m_from m)
  | TEnvelopeTo vs => existsb (fun a => existsb (fun v => within v a) vs) (m_envelope_to m)
  | TSizeOver n => n <? m_size m
  | TSizeUnder n => m_size m <? n
  | TParam p h => existsb (fun kv => same h kv.1 && same p kv.2) (m_params m)
  | TExists hs => forallb (has_header m) (strs_list hs)
  | TDateIs p v => same (date_part p now) v
  | TDateCmp o p v => rel o (String.compare (lower_ascii (date_part p now)) (lower_ascii v))
  | TNot t => negb (eval now m t)
  | TAnyof l => existsb (eval now m) l
  | TAllof l | TGuards l => forallb (eval now m) l
  end.

(** What a script has done so far. *)
Record outcome := mkOutcome {
  o_flags : list string; o_redirects : list string; o_files : list string;
  o_replies : list string; o_stopped : bool
}.
Definition start : outcome := mkOutcome [] [] [] [] false.

Definition act (o : outcome) (a : action) : outcome :=
  if o_stopped o then o
  else match a with
       | AAddflag fs => mkOutcome (o_flags o ++ fs) (o_redirects o) (o_files o) (o_replies o) false
       | ARedirect x => mkOutcome (o_flags o) (o_redirects o ++ [x]) (o_files o) (o_replies o) false
       | AFileinto f => mkOutcome (o_flags o) (o_redirects o) (o_files o ++ [f]) (o_replies o) false
       | AStop => mkOutcome (o_flags o) (o_redirects o) (o_files o) (o_replies o) true
       | AVacation _ _ _ text => mkOutcome (o_flags o) (o_redirects o) (o_files o) (o_replies o ++ [text]) false
       end.
Definition run_block (now : Time) (m : message) (o : outcome) (b : block) : outcome :=
  if o_stopped o then o
  else if eval now m (b_test b) then foldl act o (b_actions b) else o.
Definition run (now : Time) (m : message) (bs : list block) : outcome := foldl (run_block now m) start bs.

(** Where the message is delivered: "redirect :copy" and "vacation" keep the implicit
    keep, "fileinto" cancels it. *)
Definition delivered (o : outcome) : list string :=
  match o_files o with [] => ["INBOX"] | fs => fs end.

(** ** Lemmas on the meaning *)

Definition caused (now : Time) (m : message) (bs : list block) (a : action) : Prop :=
  exists b, b ∈ bs /\ a ∈ b_actions b /\ eval now m (b_test b) = true.

Definition all_caused (now : Time) (m : message) (bs : list block) (o : outcome) : Prop :=
  (forall x, x ∈ o_redirects o -> caused now m bs (ARedirect x)) /\
  (forall x, x ∈ o_files o -> caused now m bs (AFileinto x)) /\
  (forall x, x ∈ o_replies o -> exists h s mi, caused now m bs (AVacation h s mi x)).

Lemma act_caused now m bs o a :
  caused now m bs a -> all_caused now m bs o -> all_caused now m bs (act o a).
Proof.
  intros Ha (Hr & Hf & Hv). unfold act. destruct (o_stopped o); [done|].
  destruct a; unfold all_caused; cbn; repeat split; intros y; try auto;
    rewrite elem_of_app, list_elem_of_singleton; intros [?| ->]; eauto.
Qed.

(** Every effect of a script comes from a block whose test holds. *)
Lemma run_caused now m bs : all_caused now m bs (run now m bs).
Proof.
  unfold run. assert (forall l o, l ⊆ bs -> all_caused now m bs o ->
    all_caused now m bs (foldl (run_block now m) o l)) as H.
  { induction l as [|b l IH]; [done|]. intros o Hl Ho. cbn [foldl]. apply IH; [set_solver|].
    unfold run_block. destruct (o_stopped o); [done|]. destruct (eval now m (b_test b)) eqn:Ht; [|done].
    assert (forall k o, k ⊆ b_actions b -> all_caused now m bs o -> all_caused now m bs (foldl act o k)) as Hk.
    { induction k as [|a k IHk]; [done|]. intros o' Hs Ho'. cbn [foldl]. apply IHk; [set_solver|].
      apply act_caused; [|done]. exists b. set_solver. }
    by apply Hk. }
  apply H; [done|]. unfold all_caused, start. cbn. split; [|split]; intros x Hx; by apply not_elem_of_nil in Hx.
Qed.

Lemma run_stopped now m bs o : o_stopped o = true -> foldl (run_block now m) o bs = o.
Proof. intros Ho. induction bs as [|b bs IH]; [done|]. cbn [foldl]. unfold run_block at 2. by rewrite Ho. Qed.

Lemma run_app now m bs cs o :
  foldl (run_block now m) o (bs ++ cs) = foldl (run_block now m) (foldl (run_block now m) o bs) cs.
Proof. apply foldl_app. Qed.

(** *** The window of a vacation *)

Lemma lower_ascii_id s : chars_in (fun c => negb (byte_between c 65 90)) s = true -> lower_ascii s = s.
Proof.
  induction s as [|c s IH]; [done|]. simpl. intros [Hc Hs]%andb_prop. unfold lower_byte.
  apply negb_true_iff in Hc. by rewrite Hc, IH.
Qed.
Lemma chars_in_app P a b : chars_in P (a +:+ b) = chars_in P a && chars_in P b.
Proof. induction a as [|c a IH]; [done|]. rewrite app_s_cons. simpl. by rewrite IH, andb_assoc. Qed.
Lemma pad_plain w v : chars_in (fun c => negb (byte_between c 65 90)) (pad w v) = true.
Proof.
  induction w as [|w IH]; [done|]. cbn [pad chars_in]. rewrite IH, andb_true_r.
  destruct (digit_char_read (v / 10 ^ Z.of_nat w mod 10)) as [Hd _]; [apply Z.mod_pos_bound; lia|].
  unfold byte_between in *. apply negb_true_iff, andb_false_iff. left. apply Z.leb_gt. bool_cases. lia.
Qed.
Lemma lower_date t : year_ok t -> lower_ascii (format_date t) = format_date t.
Proof.
  intros Ht. apply lower_ascii_id. destruct (format_date_eq t Ht) as (y & mo & d & _ & _ & _ & _ & _ & ->).
  rewrite chars_in_app. cbn [chars_in]. rewrite chars_in_app. cbn [chars_in]. by rewrite !pad_plain.
Qed.
Lemma lower_clock t : lower_ascii (format_clock t) = format_clock t.
Proof.
  apply lower_ascii_id. destruct (format_clock_eq t) as (h & mi & s & _ & _ & _ & _ & ->).
  rewrite chars_in_app. cbn [chars_in]. rewrite chars_in_app. cbn [chars_in]. by rewrite !pad_plain.
Qed.

Lemma compare_eqb a b : String.eqb a b = match String.compare a b with Eq => true | _ => false end.
Proof.
  destruct (String.eqb_spec a b) as [->|Hne].
  - assert (String.compare b b = Eq) as ->; [|done].
    induction b as [|c b IH]; [done|]. cbn [String.compare].
    unfold Ascii.compare. by rewrite N.compare_refl.
  - destruct (String.compare a b) eqn:E; [|done..]. by apply String.compare_eq_iff in E.
Qed.

(** A bound of the window is exact to the second. *)
Lemma date_bound_exact now m t from :
  year_ok (UTC t) -> year_ok (UTC now) ->
  eval now m (date_bound t from) = if from then t_sec t <=? t_sec now else t_sec now <=? t_sec t.
Proof.
  intros Ht Hn. unfold date_bound. cbn [eval existsb forallb].
  change (date_part "date" now) with (format_date (UTC now)).
  change (date_part "time" now) with (format_clock (UTC now)).
  unfold same. rewrite !lower_date, !lower_clock by done.
  rewrite compare_eqb, !format_date_compare, !format_clock_compare by done.
  unfold local_days, local_secs, UTC. cbn [t_sec t_off]. rewrite !Z.add_0_r.
  pose proof (Z.div_mod (t_sec t) 86400 ltac:(lia)). pose proof (Z.mod_pos_bound (t_sec t) 86400 ltac:(lia)).
  pose proof (Z.div_mod (t_sec now) 86400 ltac:(lia)). pose proof (Z.mod_pos_bound (t_sec now) 86400 ltac:(lia)).
  destruct from; cbn [rel];
    destruct (Z.compare_spec (t_sec now / 86400) (t_sec t / 86400)); cbn [orb andb];
    destruct (Z.compare_spec (t_sec now mod 86400) (t_sec t mod 86400)); cbn [orb andb rel];
    symmetry; (apply Z.leb_le || apply Z.leb_gt); lia.
Qed.

(** *** Which block does what *)

Lemma compile_sections s env bs :
  compile s env = Some bs -> exists fw va,
  bs = ((blocked_block env <$> filter (fun r => is_blocked r = true) (sc_Rules s)) ++ fw ++ va ++
        (sc_Rules s ≫= rule_blocks env))%list /\
  (fw = [] \/ exists f, sc_ForwardAll s = Some f /\ fw_Enabled f = true /\ fw = [forward_block env f]) /\
  (va = [] \/ exists v b, sc_Vacation s = Some v /\ va_Enabled v = true /\
                vacation_block env v = Some b /\ va = [b]).
Proof.
  unfold compile. destruct (match sc_Vacation s with Some _ => _ | None => _ end) as [va|] eqn:Ev; [|done].
  cbn [mbind option_bind]. intros [= <-]. eexists _, _. split; [reflexivity|]. split.
  - destruct (sc_ForwardAll s) as [f|]; [|by left]. destruct (fw_Enabled f) eqn:Ef; [|by left]. right. eauto.
  - destruct (sc_Vacation s) as [v|]; [|left; by injection Ev as <-].
    destruct (va_Enabled v) eqn:Ee; [|left; by injection Ev as <-].
    destruct (vacation_block env v) as [b|] eqn:Eb; [|done]. cbn [mbind option_bind] in Ev.
    injection Ev as <-. right. eauto 7.
Qed.

Lemma rule_blocks_spec env r b :
  b ∈ rule_blocks env r -> ru_Enabled r = true /\
  ((ru_Type r = RuleFilter /\ b = filter_block env r) \/ (ru_Type r = RuleNeverSpam /\ b = never_spam_block env r)).
Proof.
  unfold rule_blocks. destruct (ru_Enabled r); [|set_solver]. cbn [negb].
  destruct (String.eqb_spec (ru_Type r) RuleFilter); [set_solver|].
  destruct (String.eqb_spec (ru_Type r) RuleNeverSpam); set_solver.
Qed.

Lemma rule_actions_redirect a env x : ARedirect x ∈ rule_actions a env -> x = ac_Forward a /\ x <> "".
Proof.
  unfold rule_actions. rewrite !elem_of_app.
  intros [H|[H|[H|H]]]; repeat case_match; rewrite ?list_elem_of_singleton, ?elem_of_nil in H; try done.
  injection H as ->. split; [done|]. by apply String.eqb_neq.
Qed.
Lemma rule_actions_vacation a env h s mi x : AVacation h s mi x ∈ rule_actions a env -> False.
Proof.
  unfold rule_actions. rewrite !elem_of_app.
  intros [H|[H|[H|H]]]; repeat case_match; rewrite ?list_elem_of_singleton, ?elem_of_nil in H; done.
Qed.

Lemma vacation_block_spec env v b :
  vacation_block env v = Some b -> b_test b = TGuards (vacation_guards v env) /\
  exists text, b_actions b = [AVacation (vacationHandle sha256 v) (va_Subject v) (negb (String.eqb (va_HTMLBody v) "")) text].
Proof.
  unfold vacation_block. intros Hb. destruct (negb (String.eqb (va_HTMLBody v) "")).
  - destruct (vacationMIME v); [|done]. injection Hb as <-. eauto.
  - injection Hb as <-. eauto.
Qed.

(** A redirect comes from forward-all or from a filter that forwards. *)
Lemma redirect_cause now m s env bs x :
  compile s env = Some bs -> caused now m bs (ARedirect x) ->
  (exists f, sc_ForwardAll s = Some f /\ fw_Enabled f = true /\ x = fw_Address f /\
     eval now m (spam_test env) = false) \/
  (exists r, r ∈ sc_Rules s /\ ru_Enabled r = true /\ ru_Type r = RuleFilter /\
     x = ac_Forward (ru_Actions r) /\ x <> "").
Proof.
  intros Hc (b & Hb & Ha & Ht). apply compile_sections in Hc as (fw & va & -> & Hfw & Hva).
  rewrite !elem_of_app in Hb. destruct Hb as [Hb|[Hb|[Hb|Hb]]].
  - apply list_elem_of_fmap in Hb as (r & -> & _). cbn in Ha. set_solver.
  - destruct Hfw as [->|(f & Hf & He & ->)]; [by apply elem_of_nil in Hb|]. apply list_elem_of_singleton in Hb as ->.
    left. exists f. cbn in Ha, Ht. apply negb_true_iff in Ht.
    split; [done|]. split; [done|]. split; [|done]. repeat case_match; set_solver.
  - destruct Hva as [->|(v & b' & Hv & He & Hb' & ->)]; [by apply elem_of_nil in Hb|].
    apply list_elem_of_singleton in Hb as ->. apply vacation_block_spec in Hb' as (_ & text & Hact).
    rewrite Hact in Ha. set_solver.
  - apply list_elem_of_bind in Hb as (r & Hb & Hr). apply rule_blocks_spec in Hb as (He & [[Hty ->]|[_ ->]]).
    + right. exists r. cbn in Ha. apply rule_actions_redirect in Ha as [-> ?]. done.
    + cbn in Ha. set_solver.
Qed.

Lemma reply_cause now m s env bs h sb mi x :
  compile s env = Some bs -> caused now m bs (AVacation h sb mi x) ->
  exists v, sc_Vacation s = Some v /\ va_Enabled v = true /\
    forallb (eval now m) (vacation_guards v env) = true.
Proof.
  intros Hc (b & Hb & Ha & Ht). apply compile_sections in Hc as (fw & va & -> & Hfw & Hva).
  rewrite !elem_of_app in Hb. destruct Hb as [Hb|[Hb|[Hb|Hb]]].
  - apply list_elem_of_fmap in Hb as (r & -> & _). cbn in Ha. set_solver.
  - destruct Hfw as [->|(f & Hf & He & ->)]; [by apply elem_of_nil in Hb|]. apply list_elem_of_singleton in Hb as ->.
    cbn in Ha. repeat case_match; set_solver.
  - destruct Hva as [->|(v & b' & Hv & He & Hb' & ->)]; [by apply elem_of_nil in Hb|].
    apply list_elem_of_singleton in Hb as ->. apply vacation_block_spec in Hb' as (Htest & _).
    rewrite Htest in Ht. eauto.
  - apply list_elem_of_bind in Hb as (r & Hb & Hr). apply rule_blocks_spec in Hb as (He & [[_ ->]|[_ ->]]).
    + cbn in Ha. by apply rule_actions_vacation in Ha.
    + cbn in Ha. set_solver.
Qed.

Lemma unverified_None s env :
  unverifiedRedirect ToLower s env = None ->
  (forall r, r ∈ sc_Rules s -> ru_Enabled r = true -> ac_Forward (ru_Actions r) <> "" ->
     verified ToLower env (ac_Forward (ru_Actions r)) = true) /\
  (forall f, sc_ForwardAll s = Some f -> fw_Enabled f = true -> verified ToLower env (fw_Address f) = true).
Proof.
  unfold unverifiedRedirect. intros HN. destruct (find _ _) eqn:Ef; [done|]. split.
  - intros r Hr He Hf. pose proof (find_none _ _ Ef r (proj1 (list_elem_of_In _ _) Hr)) as Hn. cbv beta in Hn.
    apply String.eqb_neq in Hf. rewrite He, Hf in Hn. cbn in Hn. by apply negb_false_iff in Hn.
  - intros f Hf He. rewrite Hf, He in HN. cbn in HN. by destruct (verified ToLower env (fw_Address f)).
Qed.

(** The first blocked rule that matches decides. *)
Lemma blocked_stops now m env rs :
  (exists r, r ∈ rs /\ is_blocked r = true /\ eval now m (b_test (blocked_block env r)) = true) ->
  foldl (run_block now m) start (blocked_block env <$> filter (fun r => is_blocked r = true) rs) =
  mkOutcome [] [] [JunkFolder env] [] true.
Proof.
  induction rs as [|r rs IH]; [intros (r & Hr & _); by apply elem_of_nil in Hr|]. intros (r' & Hr & Hb & Ht).
  rewrite filter_cons. case_decide as E.
  - rewrite fmap_cons. cbn [foldl]. unfold run_block at 2. cbn [start o_stopped].
    destruct (eval now m (b_test (blocked_block env r))) eqn:Et.
    + cbn [b_actions blocked_block foldl]. unfold act at 1 2, start. cbn. by apply run_stopped.
    + apply IH. exists r'. apply elem_of_cons in Hr as [->|?]; [congruence|done].
  - apply IH. exists r'. apply elem_of_cons in Hr as [->|?]; [congruence|done].
Qed.

(** What the reply of a vacation presupposes. "exists" over several headers asks for all of
    them, so that only a list that sends the three of them is left alone. *)
Definition reply_due (env : GenerateEnv) (now : Time) (m : message) (v : Vacation) : Prop :=
  eval now m (spam_test env) = false /\
  ~ Forall (fun h => has_header m h = true) ["list-id"; "list-unsubscribe"; "list-post"] /\
  Forall (fun p => header_matches m MIs "precedence" p = false) ["bulk"; "list"; "junk"] /\
  (has_header m "auto-submitted" = false \/ header_matches m MIs "auto-submitted" "no" = true) /\
  (IsZero (va_FromDate v) = true \/ t_sec (va_FromDate v) <= t_sec now) /\
  (IsZero (va_ToDate v) = true \/ t_sec now <= t_sec (va_ToDate v)).

Lemma guards_due env now m v :
  year_ok (UTC now) -> year_ok (UTC (va_FromDate v)) -> year_ok (UTC (va_ToDate v)) ->
  forallb (eval now m) (vacation_guards v env) = true -> reply_due env now m v.
Proof.
  intros Hn Hf Ht. unfold vacation_guards. rewrite !forallb_app, !andb_true_iff. intros (H0 & H1 & H2).
  cbn [forallb] in H0. rewrite !andb_true_iff in H0. destruct H0 as (Hs & Hl & Hp & Ha & _).
  unfold reply_due. split; [by apply negb_true_iff in Hs|]. split; [|split; [|split; [|split]]].
  - cbn [eval strs_list] in Hl. intros Hall. apply negb_true_iff, not_true_iff_false in Hl. apply Hl, forallb_forall.
    intros h Hh. rewrite Forall_forall in Hall. by apply Hall, list_elem_of_In.
  - cbn in Hp. apply negb_true_iff in Hp. rewrite !orb_false_r, !orb_false_iff in Hp.
    destruct Hp as (? & ? & ?). by repeat constructor.
  - cbn in Ha. rewrite !andb_true_r, !orb_false_r in Ha. apply orb_prop in Ha as [Ha|Ha]; [left|by right].
    by apply negb_true_iff in Ha.
  - destruct (IsZero (va_FromDate v)); [by left|]. cbn [forallb] in H1.
    rewrite date_bound_exact, andb_true_r in H1 by done. right. by apply Z.leb_le.
  - destruct (IsZero (va_ToDate v)); [by left|]. cbn [forallb] in H2.
    rewrite date_bound_exact, andb_true_r in H2 by done. right. by apply Z.leb_le.
Qed.

(** Ids come from outside and are written into comments as they are: the text reads as the
    blocks only if every comment ends with its line. *)
Definition newline : ascii := "010".
Definition no_newline (c : ascii) : bool := negb (Ascii.eqb c newline).
Definition ids_ok (s : Script) : Prop := Forall (fun r => chars_in no_newline (ru_ID r) = true) (sc_Rules s).
Definition one_line (b : block) : Prop := chars_in no_newline (b_comment b) = true.
Lemma compiled_one_line s env bs : ids_ok s -> compile s env = Some bs -> Forall one_line bs.
Proof.
  intros Hids (fw & va & -> & Hfw & Hva)%compile_sections. unfold ids_ok in Hids. rewrite Forall_forall in Hids.
  rewrite !Forall_app. split; [|split; [|split]].
  - apply Forall_fmap, Forall_forall. intros r [_ Hr]%list_elem_of_filter.
    unfold compose, one_line. cbn [b_comment blocked_block]. by rewrite chars_in_app, Hids.
  - destruct Hfw as [->|(f & _ & _ & ->)]; by repeat constructor.
  - destruct Hva as [->|(v & b & _ & _ & Hb & ->)]; [constructor|]. constructor; [|constructor].
    unfold vacation_block in Hb. by destruct (negb _); [destruct (vacationMIME v); [|done]|]; injection Hb as <-.
  - apply Forall_forall. intros b (r & Hb & Hr)%list_elem_of_bind. unfold one_line.
    apply rule_blocks_spec in Hb as (_ & [[_ ->]|[_ ->]]); cbn [b_comment filter_block never_spam_block];
      by rewrite chars_in_app, Hids.
Qed.


(** mail from a blocked sender is filed into Junk and nothing else happens to it: it
    is not forwarded, not answered, and no later rule or foreign command sees it. *)
Theorem blocked_sender_silenced s env caps text r f :
  Generate ToLower sha256 s env caps = inr text ->
  r ∈ sc_Rules s -> ru_Enabled r = true -> ru_Type r = RuleBlocked -> f ∈ cr_From (ru_Criteria r) ->
  exists meta bs,
    text = header_text meta +:+ require_text s +:+ show_blocks bs +:+ external_text s /\
    forall now m a, a ∈ m_from m -> same a (ToLower f) = true ->
      run now m bs = mkOutcome [] [] [JunkFolder (withDefaults env)] [] true.
Proof.
  intros (meta & bs & _ & Hc & _ & _ & ->)%Generate_compiled Hr He Hty Hf. exists meta, bs. split; [done|].
  intros now m a Ha Hs. apply compile_sections in Hc as (fw & va & -> & _). unfold run. rewrite run_app.
  rewrite blocked_stops; [by apply run_stopped|]. exists r. split; [done|].
  split; [unfold is_blocked; by rewrite He, Hty|]. cbn. rewrite existsb_exists. exists a.
  split; [by apply list_elem_of_In|]. rewrite existsb_exists. exists (ToLower f). split; [|done].
  apply list_elem_of_In, list_elem_of_fmap. eauto.
Qed.
End lang.

(** ** A concrete account *)

Definition sample_env : GenerateEnv := mkEnv "" "" "" "" "" {["dest@example.org" := true]}.
Definition no_actions : Actions := mkActions "" [] false false "" false false.
Definition sample : Script :=
  mkScript 1
    [mkRule "r1" "facturas" RuleFilter true
       (mkCriteria ["billing@acme.com"] [] ["factura"] 0 5000000 (Some true))
       (mkActions "Facturas" ["Contabilidad"] true false "" false true);
     mkRule "r2" "" RuleBlocked true (mkCriteria ["Spammer@Junkmail.example"] [] [] 0 0 None) no_actions;
     mkRule "r5" "" RuleFilter true (mkCriteria [] [] [] 10000000 0 None)
       (mkActions "" [] false false "dest@example.org" true false)]
    (Some (mkVacation true (mkTime 1788231600 0 0) (mkTime 1789441199 0 0)
             "Fuera de la oficina" ".vuelvo el 15" ""))
    (Some (mkForwardAll true "dest@example.org" ForwardArchive)) [] "" "".

Definition generated (s : Script) (env : GenerateEnv) : string :=
  match Generate lower_ascii id s env None with inr text => text | inl _ => EmptyString end.
Definition compiled (s : Script) (env : GenerateEnv) : list block :=
  default [] (compile lower_ascii id s (withDefaults env)).


Lemma blocked_sender_silenced_witness :
  exists meta bs, generated sample sample_env =
    header_text meta +:+ require_text sample +:+ show_blocks bs +:+ external_text sample /\
    run (mkTime 1788231700 0 0)
      (mkMessage [("From", "S <SPAMMER@junkmail.example>")] ["SPAMMER@junkmail.example"] [] 100 []) bs =
    mkOutcome [] [] ["Junk"] [] true.
Proof.
  destruct (blocked_sender_silenced lower_ascii id sample sample_env None (generated sample sample_env)
              (mkRule "r2" "" RuleBlocked true (mkCriteria ["Spammer@Junkmail.example"] [] [] 0 0 None) no_actions)
              "Spammer@Junkmail.example") as (meta & bs & Ht & Hrun).
  - vm_compute; reflexivity.
  - right. left.
  - reflexivity.
  - reflexivity.
  - left.
  - exists meta, bs. split; [exact Ht|]. apply (Hrun _ _ "SPAMMER@junkmail.example"); [left|reflexivity].
Defined.

(** What the compiled script does with an ordinary message, inside and after the window. *)
Definition ordinary : message := mkMessage [("From", "a@b.example"); ("Subject", "hola")] ["a@b.example"] [] 100 [].
Example ordinary_answered :
  run (mkTime 1788231600 0 0) ordinary (compiled sample sample_env) =
  mkOutcome [] ["dest@example.org"] ["Archive"] [".vuelvo el 15"] false.
Proof. vm_compute. reflexivity. Qed.
Example ordinary_late :
  o_replies (run (mkTime 1789441200 0 0) ordinary (compiled sample sample_env)) = [].
Proof. vm_compute. reflexivity. Qed.

(** "exists" over a list is true when all of its headers exist: a list that marks itself
    with List-Id alone, or with List-Id and List-Unsubscribe, is answered. *)
Example list_mail_is_answered :
  o_replies (run (mkTime 1788231600 0 0)
    (mkMessage [("From", "a@b.example"); ("List-Id", "<l.b.example>"); ("List-Unsubscribe", "<mailto:x@b.example>")]
       ["a@b.example"] [] 100 [])
    (compiled sample sample_env)) = [".vuelvo el 15"].
Proof. vm_compute. reflexivity. Qed.
