(* ===== verification/SieveParse.v ===== *)
(** Reading the managed script back and importing foreign ones
    (src/internal/sieve/parse.go): the structs of model.go as json.Unmarshal reads them,
    ParseManaged with its drift check, ImportForeign, and the theorems that what was
    generated is read back and that importing is idempotent. *)

From S2P Require Import Prelude Utf8 Text GoStrings GoTime Jmap Json JsonDecode Sieve SieveLang.
From Stdlib Require Import Ascii String.
#[local] Open Scope string_scope.
#[local] Open Scope Z_scope.

(** ** The structs *)

Definition criteria_fields : list (field Criteria) :=
  [at_field "from" cr_From (fun '(mkCriteria _ b c d e f) x => mkCriteria x b c d e f) dec_strings;
   at_field "to" cr_To (fun '(mkCriteria a _ c d e f) x => mkCriteria a x c d e f) dec_strings;
   at_field "subject" cr_Subject (fun '(mkCriteria a b _ d e f) x => mkCriteria a b x d e f) dec_strings;
   at_field "sizeOver" cr_SizeOver (fun '(mkCriteria a b c _ e f) x => mkCriteria a b c x e f) dec_int;
   at_field "sizeUnder" cr_SizeUnder (fun '(mkCriteria a b c d _ f) x => mkCriteria a b c d x f) dec_int;
   at_field "hasAttachment" cr_HasAttachment (fun '(mkCriteria a b c d e _) x => mkCriteria a b c d e x)
     (dec_pointer dec_bool false)].
Definition dec_criteria : decoder Criteria := dec_struct criteria_fields.
Definition zeroCriteria : Criteria := mkCriteria [] [] [] 0 0 None.

Definition actions_fields : list (field Actions) :=
  [at_field "moveTo" ac_MoveTo (fun '(mkActions _ b c d e f g) x => mkActions x b c d e f g) dec_string;
   at_field "labels" ac_Labels (fun '(mkActions a _ c d e f g) x => mkActions a x c d e f g) dec_strings;
   at_field "markRead" ac_MarkRead (fun '(mkActions a b _ d e f g) x => mkActions a b x d e f g) dec_bool;
   at_field "star" ac_Star (fun '(mkActions a b c _ e f g) x => mkActions a b c x e f g) dec_bool;
   at_field "forward" ac_Forward (fun '(mkActions a b c d _ f g) x => mkActions a b c d x f g) dec_string;
   at_field "delete" ac_Delete (fun '(mkActions a b c d e _ g) x => mkActions a b c d e x g) dec_bool;
   at_field "stop" ac_Stop (fun '(mkActions a b c d e f _) x => mkActions a b c d e f x) dec_bool].
Definition dec_actions : decoder Actions := dec_struct actions_fields.
Definition zeroActions : Actions := mkActions "" [] false false "" false false.

Definition rule_fields : list (field Rule) :=
  [at_field "id" ru_ID (fun '(mkRule _ b c d e f) x => mkRule x b c d e f) dec_string;
   at_field "name" ru_Name (fun '(mkRule a _ c d e f) x => mkRule a x c d e f) dec_string;
   at_field "type" ru_Type (fun '(mkRule a b _ d e f) x => mkRule a b x d e f) dec_string;
   at_field "enabled" ru_Enabled (fun '(mkRule a b c _ e f) x => mkRule a b c x e f) dec_bool;
   at_field "criteria" ru_Criteria (fun '(mkRule a b c d _ f) x => mkRule a b c d x f) dec_criteria;
   at_field "actions" ru_Actions (fun '(mkRule a b c d e _) x => mkRule a b c d e x) dec_actions].
Definition dec_rule : decoder Rule := dec_struct rule_fields.
Definition zeroRule : Rule := mkRule "" "" "" false zeroCriteria zeroActions.

Definition vacation_fields : list (field Vacation) :=
  [at_field "enabled" va_Enabled (fun '(mkVacation _ b c d e f) x => mkVacation x b c d e f) dec_bool;
   at_field "fromDate" va_FromDate (fun '(mkVacation a _ c d e f) x => mkVacation a x c d e f) dec_time;
   at_field "toDate" va_ToDate (fun '(mkVacation a b _ d e f) x => mkVacation a b x d e f) dec_time;
   at_field "subject" va_Subject (fun '(mkVacation a b c _ e f) x => mkVacation a b c x e f) dec_string;
   at_field "textBody" va_TextBody (fun '(mkVacation a b c d _ f) x => mkVacation a b c d x f) dec_string;
   at_field "htmlBody" va_HTMLBody (fun '(mkVacation a b c d e _) x => mkVacation a b c d e x) dec_string].
Definition dec_vacation : decoder Vacation := dec_struct vacation_fields.
Definition zeroVacation : Vacation := mkVacation false zeroTime zeroTime "" "" "".

Definition forward_fields : list (field ForwardAll) :=
  [at_field "enabled" fw_Enabled (fun '(mkForwardAll _ b c) x => mkForwardAll x b c) dec_bool;
   at_field "address" fw_Address (fun '(mkForwardAll a _ c) x => mkForwardAll a x c) dec_string;
   at_field "disposition" fw_Disposition (fun '(mkForwardAll a b _) x => mkForwardAll a b x) dec_string].
Definition dec_forward : decoder ForwardAll := dec_struct forward_fields.
Definition zeroForward : ForwardAll := mkForwardAll false "" "".

Definition script_fields : list (field Script) :=
  [at_field "version" sc_Version (fun '(mkScript _ b c d e f g) x => mkScript x b c d e f g) dec_int;
   at_field "rules" sc_Rules (fun '(mkScript a _ c d e f g) x => mkScript a x c d e f g) (dec_slice dec_rule zeroRule);
   at_field "vacation" sc_Vacation (fun '(mkScript a b _ d e f g) x => mkScript a b x d e f g)
     (dec_pointer dec_vacation zeroVacation);
   at_field "forwardAll" sc_ForwardAll (fun '(mkScript a b c _ e f g) x => mkScript a b c x e f g)
     (dec_pointer dec_forward zeroForward);
   at_field "externalRequires" sc_ExternalRequires (fun '(mkScript a b c d _ f g) x => mkScript a b c d x f g) dec_strings;
   at_field "externalSource" sc_ExternalSource (fun '(mkScript a b c d e _ g) x => mkScript a b c d e x g) dec_string].
Definition zeroScript : Script := mkScript 0 [] None None [] "" "".

(** json.Unmarshal of the metadata. *)
Definition Unmarshal (text : string) : option Script :=
  j ← Parse text; dec_struct script_fields zeroScript j.

(** ** ParseManaged *)

Definition with_body (s : Script) (body : string) : Script :=
  mkScript (sc_Version s) (sc_Rules s) (sc_Vacation s) (sc_ForwardAll s) (sc_ExternalRequires s)
    (sc_ExternalSource s) body.

Inductive ParseError := ErrNotManaged | BadMetadata | BadVersion (v : Z) | NotTerminated.

(** The external section: what is between its markers. *)
Definition external_body (text : string) : ParseError + option string :=
  match Index text externalBegin with
  | None => inr None
  | Some eb =>
      let rest := drop_s (eb + String.length externalBegin) text in
      let rest := TrimPrefix rest crlf in
      let rest := TrimPrefix rest (String "010" EmptyString) in
      match LastIndex rest externalEnd with
      | None => inl NotTerminated
      | Some ee => inr (Some (take_s ee rest))
      end
  end.

Section parse.
Context (ToLower : string -> string) (sha256 : string -> string).

(** [ParseManaged]: the model and whether the text has drifted from it. *)
Definition ParseManaged (text : string) (env : GenerateEnv) : ParseError + (Script * bool) :=
  match Index text metaBegin, Index text metaEnd with
  | Some b, Some e =>
      if (e <? b)%nat then inl ErrNotManaged
      else
        let start := (b + String.length metaBegin)%nat in
        match Unmarshal (TrimSpace (take_s (e - start) (drop_s start text))) with
        | None => inl BadMetadata
        | Some model =>
            if negb (sc_Version model =? MetadataVersion) then inl (BadVersion (sc_Version model))
            else
              match external_body text with
              | inl err => inl err
              | inr body =>
                  let model := match body with Some b => with_body model b | None => model end in
                  match Generate ToLower sha256 model env None with
                  | inl _ => inr (model, true)
                  | inr regen => inr (model, negb (String.eqb regen text))
                  end
              end
        end
  | _, _ => inl ErrNotManaged
  end.
End parse.

(** ** The metadata is read back *)

Definition utf8 (s : string) : Prop := ValidString s = true.
Definition size_ok (v : Z) : Prop := 0 <= v <= MaxInt64.

Record criteria_ok (c : Criteria) : Prop := {
  ok_From : Forall utf8 (cr_From c); ok_To : Forall utf8 (cr_To c); ok_Subject : Forall utf8 (cr_Subject c);
  ok_SizeOver : size_ok (cr_SizeOver c); ok_SizeUnder : size_ok (cr_SizeUnder c)
}.
Record actions_ok (a : Actions) : Prop := {
  ok_MoveTo : utf8 (ac_MoveTo a); ok_Labels : Forall utf8 (ac_Labels a); ok_Forward : utf8 (ac_Forward a)
}.
Record rule_ok (r : Rule) : Prop := {
  ok_ID : utf8 (ru_ID r); ok_Name : utf8 (ru_Name r); ok_Type : utf8 (ru_Type r);
  ok_Criteria : criteria_ok (ru_Criteria r); ok_Actions : actions_ok (ru_Actions r)
}.
Record vacation_ok (v : Vacation) : Prop := {
  ok_FromDate : stored_time (va_FromDate v); ok_ToDate : stored_time (va_ToDate v);
  ok_VSubject : utf8 (va_Subject v); ok_TextBody : utf8 (va_TextBody v); ok_HTMLBody : utf8 (va_HTMLBody v)
}.
Definition forward_ok (f : ForwardAll) : Prop := utf8 (fw_Address f) /\ utf8 (fw_Disposition f).

(** A model as the JMAP layer makes it: text is UTF-8, as every JSON string is, dates are
    whole seconds in UTC, sizes are int64. *)
Record script_ok (s : Script) : Prop := {
  ok_Version : sc_Version s = MetadataVersion;
  ok_Rules : Forall rule_ok (sc_Rules s);
  ok_Vacation : forall v, sc_Vacation s = Some v -> vacation_ok v;
  ok_ForwardAll : forall f, sc_ForwardAll s = Some f -> forward_ok f;
  ok_Requires : Forall utf8 (sc_ExternalRequires s);
  ok_Source : utf8 (sc_ExternalSource s)
}.

(** *** Decoding *)

Definition has_field {T} (fields : list (field T)) (f : field T) : Prop :=
  List.find (fun g => String.eqb (fold_name f.1) (fold_name g.1)) fields = Some f.

Lemma dec_one {T A} fields k (get : T -> A) set dec cur x j ms :
  has_field fields (at_field k get set dec) -> dec (get cur) j = Some x ->
  dec_members fields cur ((k, j) :: ms) = dec_members fields (set cur x) ms.
Proof.
  intros Hf Hd. cbn [dec_members]. unfold dec_member. cbn [fst snd]. unfold has_field in Hf. cbn [fst at_field] in Hf.
  rewrite Hf. cbn [snd at_field]. rewrite Hd. done.
Qed.
Lemma dec_omit {T A} fields k (get : T -> A) set dec cur x empty j ms :
  has_field fields (at_field k get set dec) -> dec (get cur) j = Some x ->
  (empty = true -> set cur x = cur) ->
  dec_members fields cur (omit empty k j ++ ms) = dec_members fields (set cur x) ms.
Proof.
  intros Hf Hd He. destruct empty; cbn [omit app]; [by rewrite He|]. by apply (dec_one _ _ get set dec).
Qed.

Lemma dec_strings_back l : dec_strings [] (JArr (JStr <$> l)) = Some l.
Proof.
  cbn. induction l as [|x l IH]; [done|]. cbn. destruct l; [done|]. cbn in *. by rewrite IH.
Qed.
Lemma dec_int_back cur v : size_ok v -> dec_int cur (JNum (int_literal v)) = Some v.
Proof.
  intros Hv. unfold int_literal. destruct (Z.ltb_spec v 0); [unfold size_ok in Hv; lia|].
  cbn. apply ParseInt_FormatInt; [lia|done].
Qed.

Lemma find_hit {T} (f : field T) fs : has_field (f :: fs) f.
Proof. unfold has_field. cbn [List.find]. by rewrite String.eqb_refl. Qed.
Lemma find_skip {T} (f g : field T) fs :
  String.eqb (fold_name f.1) (fold_name g.1) = false -> has_field fs f -> has_field (g :: fs) f.
Proof. unfold has_field. cbn [List.find]. by intros ->. Qed.

(** The field of that name. *)
Ltac find_field :=
  repeat first [apply find_hit
               |apply find_skip; [cbn [fst at_field]; vm_compute; reflexivity|]].
(** Decodes the next field: [lem] is how its value is read back. *)
Ltac dec_next k get lem :=
  first [erewrite (dec_omit _ k get); [|find_field|lem|]
        |erewrite (dec_one _ k get); [|find_field|lem]];
  cbv beta iota; try (rewrite ?negb_true_iff, ?bool_decide_eq_true, ?Z.eqb_eq; by intros ->).

Lemma dec_criteria_back c : criteria_ok c -> dec_criteria zeroCriteria (criteria_json c) = Some c.
Proof.
  intros [_ _ _ Ho Hu]. destruct c as [a b c d e f].
  unfold dec_criteria, criteria_json, zeroCriteria, dec_struct, criteria_fields, omit_list, omit_int.
  cbn [cr_From cr_To cr_Subject cr_SizeOver cr_SizeUnder cr_HasAttachment] in *.
  dec_next "from" cr_From ltac:(apply dec_strings_back).
  dec_next "to" cr_To ltac:(apply dec_strings_back).
  dec_next "subject" cr_Subject ltac:(apply dec_strings_back).
  dec_next "sizeOver" cr_SizeOver ltac:(by apply dec_int_back).
  dec_next "sizeUnder" cr_SizeUnder ltac:(by apply dec_int_back).
  destruct f as [f|]; [|done]. dec_next "hasAttachment" cr_HasAttachment ltac:(reflexivity). done.
Qed.
Lemma dec_actions_back a : dec_actions zeroActions (actions_json a) = Some a.
Proof.
  destruct a as [a b c d e f g].
  unfold dec_actions, actions_json, zeroActions, dec_struct, actions_fields, omit_list, omit_str, omit_bool.
  cbn [ac_MoveTo ac_Labels ac_MarkRead ac_Star ac_Forward ac_Delete ac_Stop] in *.
  dec_next "moveTo" ac_MoveTo ltac:(reflexivity).
  dec_next "labels" ac_Labels ltac:(apply dec_strings_back).
  dec_next "markRead" ac_MarkRead ltac:(reflexivity).
  dec_next "star" ac_Star ltac:(reflexivity).
  dec_next "forward" ac_Forward ltac:(reflexivity).
  dec_next "delete" ac_Delete ltac:(reflexivity).
  rewrite <- (app_nil_r (omit _ "stop" _)).
  dec_next "stop" ac_Stop ltac:(reflexivity). done.
Qed.

Lemma dec_rule_back r : rule_ok r -> dec_rule zeroRule (rule_json r) = Some r.
Proof.
  intros [_ _ _ Hc _]. destruct r as [a b c d e f].
  unfold dec_rule, rule_json, zeroRule, dec_struct, rule_fields, omit_str.
  cbn [ru_ID ru_Name ru_Type ru_Enabled ru_Criteria ru_Actions app] in *.
  dec_next "id" ru_ID ltac:(reflexivity).
  dec_next "name" ru_Name ltac:(reflexivity).
  dec_next "type" ru_Type ltac:(reflexivity).
  dec_next "enabled" ru_Enabled ltac:(reflexivity).
  dec_next "criteria" ru_Criteria ltac:(by apply dec_criteria_back).
  dec_next "actions" ru_Actions ltac:(apply dec_actions_back). done.
Qed.

Lemma dec_rules_back l : Forall rule_ok l -> dec_slice dec_rule zeroRule [] (JArr (rule_json <$> l)) = Some l.
Proof.
  cbn [dec_slice]. induction 1 as [|r l Hr Hl IH]; [done|]. rewrite fmap_cons. cbn [dec_elems tail].
  rewrite dec_rule_back by done. cbn [mbind option_bind]. by rewrite IH.
Qed.

Lemma dec_forward_back f : dec_forward zeroForward (forward_json f) = Some f.
Proof.
  destruct f as [a b c]. unfold dec_forward, forward_json, zeroForward, dec_struct, forward_fields, omit_str.
  cbn [fw_Enabled fw_Address fw_Disposition app].
  dec_next "enabled" fw_Enabled ltac:(reflexivity).
  dec_next "address" fw_Address ltac:(reflexivity).
  rewrite <- (app_nil_r (omit _ "disposition" _)).
  dec_next "disposition" fw_Disposition ltac:(reflexivity). done.
Qed.

Lemma dec_vacation_back v :
  vacation_ok v -> exists j, vacation_json v = Some j /\ dec_vacation zeroVacation j = Some v.
Proof.
  intros [Hf Ht _ _ _]. destruct v as [a b c d e f]. cbn [va_FromDate va_ToDate] in *.
  destruct (marshal_time_roundtrip b Hf) as (bs & Hb & Hb'). destruct (marshal_time_roundtrip c Ht) as (cs & Hc & Hc').
  unfold vacation_json. cbn [va_Enabled va_FromDate va_ToDate va_Subject va_TextBody va_HTMLBody].
  rewrite Hb, Hc. cbn [mbind option_bind]. eexists. split; [reflexivity|].
  unfold dec_vacation, zeroVacation, dec_struct, vacation_fields, omit_str. cbn [app].
  dec_next "enabled" va_Enabled ltac:(reflexivity).
  dec_next "fromDate" va_FromDate ltac:(exact Hb').
  dec_next "toDate" va_ToDate ltac:(exact Hc').
  dec_next "subject" va_Subject ltac:(reflexivity).
  dec_next "textBody" va_TextBody ltac:(reflexivity).
  rewrite <- (app_nil_r (omit _ "htmlBody" _)).
  dec_next "htmlBody" va_HTMLBody ltac:(reflexivity). done.
Qed.

Lemma dec_pointer_back {T} (dec : decoder T) zero j x :
  j <> JNull -> dec zero j = Some x -> dec_pointer dec zero None j = Some (Some x).
Proof. intros Hj Hd. unfold dec_pointer. cbn [default]. rewrite Hd. by destruct j. Qed.

Lemma dec_script_back s j :
  script_ok s -> script_json s = Some j ->
  dec_struct script_fields zeroScript j = Some (with_body s "").
Proof.
  intros [Hver Hr Hv _ _ _] Hj. destruct s as [a b c d e f g].
  unfold script_json, with_body in *.
  cbn [sc_Version sc_Rules sc_Vacation sc_ForwardAll sc_ExternalRequires sc_ExternalSource] in *. subst a.
  assert (exists vs, j = JObj ([("version", JNum (int_literal MetadataVersion))] ++
              omit (bool_decide (b = [])) "rules" (JArr (rule_json <$> b)) ++ vs ++
              match d with Some f => [("forwardAll", forward_json f)] | None => [] end ++
              omit_list "externalRequires" e ++ omit_str "externalSource" f) /\
            match c with Some v => exists w, vs = [("vacation", w)] /\ dec_vacation zeroVacation w = Some v /\ w <> JNull
                       | None => vs = [] end) as (vs & -> & Hvs).
  { destruct c as [v|]; [|injection Hj as <-; exists []; split; reflexivity].
    destruct (dec_vacation_back v) as (w & Hw & Hd); [auto|]. rewrite Hw in Hj. injection Hj as <-.
    exists [("vacation", w)]. split; [reflexivity|]. exists w. split; [done|]. split; [done|]. intros ->.
    unfold vacation_json in Hw. by destruct (marshal_time _), (marshal_time _). }
  clear Hj. unfold dec_struct, zeroScript, script_fields, omit_list, omit_str. cbn [app].
  dec_next "version" sc_Version ltac:(by apply dec_int_back).
  dec_next "rules" sc_Rules ltac:(by apply dec_rules_back).
  assert (forall cur, sc_ForwardAll cur = None -> sc_ExternalRequires cur = [] -> sc_ExternalSource cur = "" ->
    dec_members script_fields cur
      (match d with Some f => [("forwardAll", forward_json f)] | None => [] end ++
       omit (bool_decide (e = [])) "externalRequires" (JArr (JStr <$> e)) ++
       omit (bool_decide (f = "")) "externalSource" (JStr f)) =
    Some (mkScript (sc_Version cur) (sc_Rules cur) (sc_Vacation cur) d e f (sc_ExternalBody cur))) as Htail.
  { intros [v r va fw er es eb] Hfw Her Hes. cbn in Hfw, Her, Hes. subst. unfold script_fields.
    cbn [sc_Version sc_Rules sc_Vacation sc_ExternalBody].
    rewrite <- (app_nil_r (omit _ "externalSource" _)).
    destruct d as [d|]; cbn [app]; [dec_next "forwardAll" sc_ForwardAll
      ltac:(apply dec_pointer_back; [by destruct d|apply dec_forward_back])|].
    all: dec_next "externalRequires" sc_ExternalRequires ltac:(apply dec_strings_back).
    all: dec_next "externalSource" sc_ExternalSource ltac:(reflexivity).
    all: done. }
  destruct c as [v|].
  - destruct Hvs as (w & -> & Hw & Hn). cbn [app].
    dec_next "vacation" sc_Vacation ltac:(apply dec_pointer_back; [exact Hn|exact Hw]). by rewrite Htail.
  - subst vs. cbn [app]. by rewrite Htail.
Qed.

(** *** The metadata is a document the reader understands *)

Abbreviation members_ok := (Forall (fun kv => ValidString kv.1 = true /\ json_ok kv.2)).

Lemma ascii_valid s : chars_in is_ascii_byte s = true -> utf8 s.
Proof.
  unfold utf8, ValidString. induction s as [|c s IH]; [done|]. cbn [chars_in valid_from]. intros [Hc Hs]%andb_prop.
  rewrite Hc. auto.
Qed.

Lemma omit_ok empty k j : ValidString k = true -> json_ok j -> members_ok (omit empty k j).
Proof. intros Hk Hj. destruct empty; repeat constructor; done. Qed.
Lemma strings_ok l : Forall utf8 l -> json_ok (JArr (JStr <$> l)).
Proof. intros Hl. constructor. apply Forall_fmap. eapply Forall_impl; [done|]. intros s Hs. by constructor. Qed.

(** Splits a list of members and leaves what is not closed by computation. *)
Ltac members :=
  repeat match goal with
  | |- Forall _ (_ ++ _) => apply Forall_app_2
  | |- Forall _ (_ :: _) => apply Forall_cons_2; [split; cbn [fst snd]; [vm_compute; reflexivity|]|]
  | |- Forall _ (omit _ _ _) => apply omit_ok; [vm_compute; reflexivity|]
  | |- Forall _ [] => constructor
  | |- json_ok (JArr (JStr <$> _)) => apply strings_ok
  | |- json_ok (JStr _) => apply ok_str
  | |- json_ok (JNum _) => apply ok_num, int_literal_ok
  | |- json_ok (JBool _) => apply ok_bool
  end.

Lemma criteria_json_ok c : criteria_ok c -> json_ok (criteria_json c).
Proof.
  intros [Hf Ht Hs _ _]. unfold criteria_json, omit_list, omit_int. constructor.
  destruct (cr_HasAttachment c); members; done.
Qed.
Lemma actions_json_ok a : actions_ok a -> json_ok (actions_json a).
Proof. intros [Hm Hl Hf]. unfold actions_json, omit_list, omit_str, omit_bool. constructor. members; done. Qed.
Lemma rule_json_ok r : rule_ok r -> json_ok (rule_json r).
Proof.
  intros [Hi Hn Ht Hc Ha]. unfold rule_json, omit_str. constructor.
  members; try done; [by apply criteria_json_ok|by apply actions_json_ok].
Qed.
Lemma forward_json_ok f : forward_ok f -> json_ok (forward_json f).
Proof. intros [Ha Hd]. unfold forward_json, omit_str. constructor. members; done. Qed.

Lemma pad_ascii w v : chars_in is_ascii_byte (pad w v) = true.
Proof.
  induction w as [|w IH]; [done|]. cbn [pad chars_in]. rewrite IH, andb_true_r.
  destruct (digit_char_read (v / 10 ^ Z.of_nat w mod 10)) as [Hd _]; [apply Z.mod_pos_bound; lia|].
  unfold is_ascii_byte. rewrite <- byte_val_of. unfold byte_between in Hd. bool_cases. apply Z.ltb_lt. lia.
Qed.

Lemma marshal_time_ascii t s : stored_time t -> marshal_time t = Some s -> utf8 s.
Proof.
  intros (Hns & Hoff & Hy) Hm. apply ascii_valid. unfold marshal_time in Hm.
  destruct (_ || _); [done|]. destruct (24 * 3600 <=? _); [done|]. injection Hm as <-. rewrite Hns, Hoff.
  destruct (format_date_eq t Hy) as (y & m & d & _ & _ & _ & _ & _ & ->).
  destruct (format_clock_eq t) as (h & mi & s & _ & _ & _ & _ & ->).
  repeat (rewrite chars_in_app || (progress cbn [chars_in])). by rewrite !pad_ascii.
Qed.

Lemma vacation_json_ok v j : vacation_ok v -> vacation_json v = Some j -> json_ok j.
Proof.
  intros [Hf Ht Hs Hb Hh]. unfold vacation_json.
  destruct (marshal_time (va_FromDate v)) as [from|] eqn:Ef; [|done].
  destruct (marshal_time (va_ToDate v)) as [to|] eqn:Et; [|done]. intros [= <-].
  apply marshal_time_ascii in Ef; [|done]. apply marshal_time_ascii in Et; [|done].
  unfold omit_str. constructor. members; done.
Qed.

Lemma script_json_ok s j : script_ok s -> script_json s = Some j -> json_ok j.
Proof.
  intros [_ Hr Hv Hf Hq Hs]. unfold script_json.
  destruct (match sc_Vacation s with Some _ => _ | None => _ end) as [vs|] eqn:Evs; [|done].
  cbn [mbind option_bind]. intros [= <-]. unfold omit_list, omit_str. constructor. members; try done.
  - constructor. apply Forall_fmap. eapply Forall_impl; [done|]. apply rule_json_ok.
  - destruct (sc_Vacation s) as [v|]; [|injection Evs as <-; constructor].
    destruct (vacation_json v) as [w|] eqn:Ew; [|done]. injection Evs as <-.
    members. by eapply vacation_json_ok; [apply Hv|].
  - destruct (sc_ForwardAll s) as [f|]; [|constructor]. members. apply forward_json_ok. auto.
Qed.

Lemma Unmarshal_back s meta :
  script_ok s -> marshalMetadata s = Some meta -> Unmarshal meta = Some (with_body s "").
Proof.
  intros Hok. unfold marshalMetadata. destruct (script_json s) as [j|] eqn:Ej; [|done]. intros [= <-].
  unfold Unmarshal. rewrite Parse_broken by by eapply script_json_ok. cbn [mbind option_bind].
  by apply dec_script_back.
Qed.

(** ** Where the parts of a generated script are *)


Lemma Index_min s sub n m : Index s sub = Some n -> (m < n)%nat -> HasPrefix (drop_s m s) sub = false.
Proof.
  revert n m. induction s as [|c s IH]; intros n m; cbn [Index].
  - destruct (HasPrefix "" sub); [|done]. intros [= <-]. lia.
  - destruct (HasPrefix (String c s) sub) eqn:E; [intros [= <-]; lia|].
    destruct (Index s sub) as [k|]; [|done]. intros [= <-] Hm. destruct m as [|m]; [done|]. cbn [drop_s].
    apply (IH k m eq_refl). lia.
Qed.
Lemma Index_at s sub n :
  HasPrefix (drop_s n s) sub = true -> (forall m, (m < n)%nat -> HasPrefix (drop_s m s) sub = false) ->
  Index s sub = Some n.
Proof.
  revert n. induction s as [|c s IH]; intros n Hn Hm; cbn [Index].
  - destruct n as [|n]; [cbn in Hn; by rewrite Hn|]. specialize (Hm 0%nat ltac:(lia)). cbn in *. congruence.
  - destruct n as [|n]; [cbn [drop_s] in Hn; by rewrite Hn|].
    pose proof (Hm 0%nat ltac:(lia)) as H0. cbn [drop_s] in H0. rewrite H0. cbn [drop_s] in Hn.
    rewrite (IH n Hn); [done|]. intros m Hlt. apply (Hm (S m)). lia.
Qed.

(** No comment terminator inside. *)
Fixpoint pair_free (s : string) : bool :=
  match s with
  | EmptyString => true
  | String c r => negb (Ascii.eqb c "*" && negb (no_slash_head r)) && pair_free r
  end.

Lemma pair_free_Contains s : Contains s "*/" = negb (pair_free s).
Proof.
  unfold Contains. induction s as [|c s IH]; [done|]. cbn [Index HasPrefix pair_free].
  destruct (Ascii.eqb_spec c "*") as [->|Hc]; cbn [andb].
  - change (Ascii.eqb "*" "*") with true. cbn [andb]. destruct s as [|d s]; [done|]. cbn [HasPrefix no_slash_head].
    rewrite (Ascii.eqb_sym "/" d). destruct (Ascii.eqb d "/"); cbn [andb negb]; [by destruct s|].
    rewrite <- IH. by destruct (Index (String d s) "*/").
  - rewrite (proj2 (Ascii.eqb_neq "*" c)) by congruence. cbn [andb negb]. rewrite <- IH. by destruct (Index s "*/").
Qed.

Lemma pair_free_app a b :
  no_slash_head b = true -> pair_free (a +:+ b) = pair_free a && pair_free b.
Proof.
  intros Hb. induction a as [|c a IH]; [done|]. rewrite app_s_cons. cbn [pair_free]. rewrite IH, andb_assoc.
  destruct a as [|d a]; [|done]. rewrite app_s_empty, Hb. by destruct (Ascii.eqb c "*").
Qed.

Lemma Index_pair x r : pair_free x = true -> Index (x +:+ "*/" +:+ r) "*/" = Some (String.length x).
Proof.
  induction x as [|c x IH]; [cbn; by destruct r|]. intros [Hc Hx]%andb_prop. rewrite app_s_cons. cbn [Index HasPrefix].
  rewrite IH by done. destruct (Ascii.eqb_spec c "*") as [->|Hne].
  - cbn [andb] in Hc. apply negb_true_iff, negb_false_iff in Hc.
    change (Ascii.eqb "*" "*") with true. cbn [andb]. destruct x as [|d x]; [done|]. rewrite app_s_cons. cbn [HasPrefix].
    cbn in Hc. apply negb_true_iff in Hc. rewrite (Ascii.eqb_sym "/" d), Hc. done.
  - rewrite (proj2 (Ascii.eqb_neq "*" c)) by congruence. done.
Qed.

(** A marker that ends in the terminator is found at the first terminator. *)
Lemma Index_marker a p r :
  pair_free (a +:+ p) = true -> Index (a +:+ (p +:+ "*/") +:+ r) (p +:+ "*/") = Some (String.length a).
Proof.
  intros Hf. apply Index_at; [rewrite drop_s_app; apply HasPrefix_app|]. intros m Hm.
  destruct (HasPrefix _ _) eqn:E; [exfalso|done]. apply HasPrefix_true in E as (t & Ht).
  pose proof (Index_pair (a +:+ p) r Hf) as Hi. rewrite length_app_s in Hi.
  rewrite <- !app_s_assoc in *. assert (HasPrefix (drop_s (m + String.length p) (a +:+ p +:+ "*/" +:+ r)) "*/" = true) as Hp.
  { rewrite <- drop_drop_s, Ht, drop_s_app. apply HasPrefix_app. }
  rewrite (Index_min _ _ _ (m + String.length p) Hi) in Hp by lia. done.
Qed.

(** *** White space around the metadata *)

Lemma all_space_drop k s : all_space_from k s = all_space_from 0 (drop_s k s).
Proof. revert s. induction k as [|k IH]; intros [|c s]; try done. simpl. apply IH. Qed.

Lemma space_width_brace c a w :
  (pred (space_width (String c (a +:+ String "}" w))) <= String.length a)%nat.
Proof.
  destruct a as [|b [|d a]]; rewrite ?app_s_cons, ?app_s_empty; cbn [space_width]; repeat case_match; simpl; try lia;
    bool_cases; done.
Qed.

Lemma all_space_brace a w : all_space_from 0 (a +:+ String "}" w) = false.
Proof.
  remember (String.length a) as n eqn:Hn. revert a Hn. induction (lt_wf n) as [n _ IH].
  intros [|c a] ->; [by destruct w as [|b [|d w]]|]. rewrite app_s_cons. cbn [all_space_from].
  pose proof (space_width_brace c a w) as Hw. destruct (space_width (String c (a +:+ String "}" w))) as [|k]; [done|].
  cbn [pred] in Hw. rewrite all_space_drop. rewrite (take_drop_s k a), <- app_s_assoc.
  assert (drop_s k (take_s k a +:+ (drop_s k a +:+ String "}" w)) = drop_s k a +:+ String "}" w) as ->.
  { rewrite <- (length_take_s k a) at 1 by done. apply drop_s_app. }
  apply (IH (String.length (drop_s k a))); [rewrite length_drop_s; simpl; lia|done].
Qed.

Lemma trim_right_brace a : trim_right (a +:+ String "}" crlf) = a +:+ "}".
Proof.
  induction a as [|c a IH]; [done|]. rewrite !app_s_cons. cbn [trim_right].
  rewrite <- app_s_cons, all_space_brace. by rewrite IH.
Qed.

Lemma TrimSpace_braces x : TrimSpace (crlf +:+ ("{" +:+ x +:+ "}") +:+ crlf) = "{" +:+ x +:+ "}".
Proof.
  unfold TrimSpace. rewrite <- !app_s_assoc, !app_s_cons, !app_s_empty. change ("}" +:+ crlf) with (String "}" crlf).
  assert (forall y, trim_left_from 0 (crlf +:+ String "{" y) = String "{" y) as ->
    by (by intros [|b [|c y]]).
  change (String "{" (x +:+ String "}" crlf)) with (String "{" x +:+ String "}" crlf). by rewrite trim_right_brace.
Qed.

Lemma meta_shape s meta :
  marshalMetadata s = Some meta -> pair_free meta = true /\ exists x, meta = "{" +:+ x +:+ "}".
Proof.
  unfold marshalMetadata. destruct (script_json s) as [j|] eqn:Ej; [|done]. intros [= <-]. split.
  - pose proof (break_pair_free (Marshal j)) as Hb. rewrite pair_free_Contains in Hb. by apply negb_false_iff in Hb.
  - unfold script_json in Ej. destruct (match sc_Vacation s with Some _ => _ | None => _ end) as [vs|]; [|done].
    injection Ej as <-. unfold Marshal. cbn [json_text]. rewrite break_pair_app by done.
    rewrite break_pair_split by done. by eexists.
Qed.

(** *** The external section *)

Definition ends_line (s : string) : Prop := exists t, s = t +:+ String newline EmptyString.

Lemma prefix_within a r sub :
  HasPrefix (a +:+ r) sub = true -> chars_in no_newline sub = true -> ends_line a -> HasPrefix a sub = true.
Proof.
  revert sub. induction a as [|c a IH]; intros sub Hp Hs [t Ht]; [by destruct t|].
  destruct sub as [|d sub]; [done|]. rewrite app_s_cons in Hp. cbn [HasPrefix chars_in] in *. 
  apply andb_prop in Hp as [Hd Hp]. apply andb_prop in Hs as [Hn Hs]. rewrite Hd. cbn [andb].
  apply Ascii.eqb_eq in Hd as ->. destruct t as [|e t].
  - injection Ht as -> ->. done.
  - rewrite app_s_cons in Ht. injection Ht as <- ->. apply IH; [done|done|by eexists].
Qed.

Lemma Index_after a r sub :
  HasPrefix r sub = true -> Contains a sub = false -> chars_in no_newline sub = true -> sub <> "" ->
  ends_line a -> Index (a +:+ r) sub = Some (String.length a).
Proof.
  intros Hr Hc Hs Hne Ha. unfold Contains in Hc.
  assert (forall a, (a = "" \/ ends_line a) -> Index a sub = None -> Index (a +:+ r) sub = Some (String.length a)) as H.
  { clear a Hc Ha. induction a as [|c a IH]; intros Ha Hi.
    - rewrite app_s_empty. by destruct r; cbn [Index]; rewrite Hr.
    - rewrite app_s_cons. cbn [Index] in *. destruct Ha as [Ha|Ha]; [done|].
      destruct (HasPrefix (String c (a +:+ r)) sub) eqn:E.
      + rewrite <- app_s_cons in E. apply prefix_within in E; [|done..]. by rewrite E in Hi.
      + destruct (HasPrefix (String c a) sub); [done|]. destruct (Index a sub) eqn:Ei; [done|].
        rewrite IH; [done| |done]. destruct Ha as [[|e t] Ht]; [injection Ht as -> ->; by left|].
        rewrite app_s_cons in Ht. injection Ht as -> ->. right. by eexists. }
  apply H; [by right|]. by destruct (Index a sub).
Qed.

Lemma Index_none_after a r sub :
  Contains (a +:+ r) sub = false -> Index (a +:+ r) sub = None.
Proof. unfold Contains. by destruct (Index (a +:+ r) sub). Qed.

Lemma LastIndex_after a r sub : LastIndex r sub = Some 0%nat -> LastIndex (a +:+ r) sub = Some (String.length a).
Proof.
  intros Hr. induction a as [|c a IH]; [done|]. rewrite app_s_cons. cbn [LastIndex]. by rewrite IH.
Qed.

(** A body as an import leaves it: it ends its last line and does not begin with an empty
    one. *)
Definition body_ok (b : string) : bool :=
  String.eqb b "" || (HasSuffix b (String newline EmptyString) && negb (HasPrefix b (String newline EmptyString))).

Lemma HasSuffix_app a x : HasSuffix (a +:+ x) x = true.
Proof.
  induction a as [|c a IH]; [rewrite app_s_empty; destruct x; cbn [HasSuffix]; by rewrite String.eqb_refl|].
  rewrite app_s_cons. cbn [HasSuffix]. rewrite IH. apply orb_true_r.
Qed.
Lemma HasSuffix_true s x : HasSuffix s x = true -> exists t, s = t +:+ x.
Proof.
  induction s as [|c s IH]; cbn [HasSuffix]; intros [H|H]%orb_prop; try done.
  - apply String.eqb_eq in H as <-. by exists "".
  - apply String.eqb_eq in H as <-. by exists "".
  - destruct (IH H) as [t ->]. by exists (String c t).
Qed.
Lemma ends_line_crlf s : ends_line (s +:+ crlf).
Proof. exists (s +:+ String "013" ""). by rewrite <- app_s_assoc. Qed.
Lemma ends_line_app a b : ends_line b -> ends_line (a +:+ b).
Proof. intros [t ->]. exists (a +:+ t). by rewrite app_s_assoc. Qed.
Lemma ends_line_opt a b : ends_line a -> (b = "" \/ ends_line b) -> ends_line (a +:+ b).
Proof. intros Ha [->|Hb]; [by rewrite app_s_nil|by apply ends_line_app]. Qed.

Lemma show_blocks_ends bs : show_blocks bs = "" \/ ends_line (show_blocks bs).
Proof.
  unfold show_blocks. induction bs as [|b bs IH]; [by left|]. right. rewrite fmap_cons. cbn [concat_s].
  apply ends_line_opt; [|done]. unfold show_block. repeat apply ends_line_app. by exists (String "013" "").
Qed.
Lemma require_ends s : require_text s = "" \/ ends_line (require_text s).
Proof.
  unfold require_text. destruct (RequiredExtensions s); [by left|right].
  repeat apply ends_line_app. by exists (String "013" "").
Qed.
Lemma header_ends meta : ends_line (header_text meta).
Proof. unfold header_text. repeat apply ends_line_app. by exists (String "013" ""). Qed.

(** The external section is found and its body is what was written. *)
Lemma external_found before s :
  ends_line before -> Contains before externalBegin = false -> body_ok (sc_ExternalBody s) = true ->
  exists body, external_body (before +:+ external_text s) = inr body /\
    forall m, sc_ExternalBody m = "" -> with_body m (sc_ExternalBody s) =
      match body with Some b => with_body m b | None => m end.
Proof.
  intros Hl Hc Hb. unfold external_body, external_text, body_ok in *.
  destruct (String.eqb_spec (sc_ExternalBody s) "") as [He|He].
  - rewrite app_s_nil. unfold Contains in Hc. destruct (Index before externalBegin); [done|].
    exists None. split; [done|]. intros m Hm. rewrite He. destruct m. cbn in *. by subst.
  - cbn [orb] in Hb. apply andb_prop in Hb as [Hsuf Hpre].
    apply negb_true_iff in Hpre. fold newline. rewrite Hsuf. rewrite app_s_empty.
    rewrite Index_after; [|apply HasPrefix_app|done|vm_compute; reflexivity|done|done].
    rewrite drop_s_app_more. change (drop_s (String.length externalBegin) (externalBegin +:+ ?r)) with r.
    unfold TrimPrefix.
    assert (CutPrefix (crlf +:+ sc_ExternalBody s +:+ externalEnd +:+ crlf) crlf =
              Some (sc_ExternalBody s +:+ externalEnd +:+ crlf)) as -> by (by apply CutPrefix_Some).
    cbn [default id].
    assert (CutPrefix (sc_ExternalBody s +:+ externalEnd +:+ crlf) (String newline "") = None) as ->.
    { destruct (sc_ExternalBody s) as [|c b]; [done|]. rewrite app_s_cons. cbn [CutPrefix HasPrefix] in *.
      rewrite andb_true_r in Hpre. by rewrite Hpre. }
    cbn [default]. rewrite LastIndex_after by (vm_compute; reflexivity).
    eexists. split; [reflexivity|]. intros m _. by rewrite take_s_app.
Qed.

Lemma Validate_no_caps ToLower s env caps :
  Validate ToLower s env caps = [] -> Validate ToLower s env None = [].
Proof. unfold Validate. rewrite !app_nil. naive_solver. Qed.

Section roundtrip.
Context (ToLower : string -> string) (sha256 : string -> string).

Lemma Generate_no_caps s env caps text :
  Generate ToLower sha256 s env caps = inr text -> Generate ToLower sha256 s env None = inr text.
Proof.
  unfold Generate. destruct (Validate ToLower s (withDefaults env) caps) eqn:E; [|done].
  by rewrite (Validate_no_caps _ _ _ _ E).
Qed.

(** C27: a script that was generated, under any capabilities, from a model as the JMAP layer
    makes it (UTF-8 text, whole seconds in UTC, int64 sizes, the current version) whose foreign
    body ends its last line and does not begin with an empty one, parses to the very model it
    was generated from and is not reported as drifted, as long as no text before the external
    section spells its opening marker ([marker_in_a_name] shows a rule name that does). *)
Theorem managed_roundtrip s env caps text :
  script_ok s -> body_ok (sc_ExternalBody s) = true -> Generate ToLower sha256 s env caps = inr text ->
  (forall before, text = before +:+ external_text s -> Contains before externalBegin = false) ->
  ParseManaged ToLower sha256 text env = inr (s, false).
Proof.
  intros Hok Hbody HG Hmark. pose proof (Generate_no_caps _ _ _ _ HG) as HN.
  apply Generate_compiled in HG as (meta & bs & Hm & _ & _ & _ & Htext).
  destruct (meta_shape s meta Hm) as [Hfree [x Hx]].
  set (before := header_text meta +:+ require_text s +:+ show_blocks bs).
  assert (Htext' : text = before +:+ external_text s) by (subst before; rewrite Htext, <- !app_s_assoc; done).
  destruct (external_found before s) as (body & Hext & Hwith); [|by apply Hmark|done|].
  { unfold before. apply ends_line_opt; [apply header_ends|].
    destruct (require_ends s) as [->|Hr]; [apply show_blocks_ends|right; apply ends_line_opt; [done|apply show_blocks_ends]]. }
  set (a := metaBegin +:+ crlf +:+ meta +:+ crlf).
  assert (exists r, text = a +:+ (("@moov:end " +:+ "*/") +:+ r)) as [r Hr].
  { rewrite Htext. unfold header_text, a. eexists. rewrite <- !app_s_assoc. reflexivity. }
  assert (pair_free (a +:+ "@moov:end ") = true) as Hpf.
  { unfold a. rewrite <- !app_s_assoc. rewrite !pair_free_app; try done; [by rewrite Hfree|by rewrite Hx]. }
  unfold ParseManaged.
  assert (Index text metaBegin = Some 0%nat) as ->.
  { rewrite Hr. unfold a. rewrite <- app_s_assoc. by destruct meta. }
  change metaEnd with ("@moov:end " +:+ "*/"). rewrite Hr, Index_marker, <- Hr by done.
  change (String.length a <? 0)%nat with false. cbv iota.
  assert (take_s (String.length a - (0 + String.length metaBegin)) (drop_s (0 + String.length metaBegin) text) =
          crlf +:+ meta +:+ crlf) as ->.
  { rewrite Hr. unfold a. rewrite <- app_s_assoc, length_app_s, Nat.add_0_l, drop_s_app.
    replace (String.length metaBegin + _ - String.length metaBegin)%nat with (String.length (crlf +:+ meta +:+ crlf)) by lia.
    apply take_s_app. }
  rewrite Hx, TrimSpace_braces, <- Hx, (Unmarshal_back s) by done.
  cbn [with_body sc_Version]. rewrite (ok_Version s Hok). cbn [Z.eqb negb].
  change (MetadataVersion =? MetadataVersion) with true. cbn [negb].
  rewrite Htext', Hext. rewrite <- Hwith by done.
  assert (with_body (with_body s "") (sc_ExternalBody s) = s) as -> by (by destruct s).
  rewrite HN, <- Htext'. by rewrite String.eqb_refl.
Qed.
End roundtrip.

(** ** Importing foreign scripts *)

(** [mergeSorted]. *)
Definition mergeSorted (a b : list string) : list string := sortedSet (list_to_set a ∪ list_to_set b).

(** [cutLine]: the first line with its terminator, the rest, and whether it has one. *)
Definition cutLine (text : string) : string * string * bool :=
  match Index text (String newline EmptyString) with
  | None => (text, EmptyString, false)
  | Some i => (take_s (S i) text, drop_s (S i) text, true)
  end.

Definition last_byte (s : string) : option ascii := String.get (pred (String.length s)) s.

(** One part of a require line: a quoted name without escapes. *)
Definition parseName (part : string) : option string :=
  let part := TrimSpace part in
  match part with
  | String q r =>
      if (String.length part <? 2)%nat || negb (Ascii.eqb q quote_char) ||
         negb (bool_decide (last_byte part = Some quote_char)) then None
      else
        let name := take_s (String.length part - 2) r in
        if ContainsAny (fun c => Ascii.eqb c "\" || Ascii.eqb c quote_char) name then None else Some name
  | EmptyString => None
  end.

(** [parseRequireLine]. *)
Definition parseRequireLine (line : string) : option (list string) :=
  let rest := TrimSpace (TrimPrefix line "require") in
  let rest := TrimSpace (TrimSuffix rest ";") in
  let rest := TrimSuffix (TrimPrefix rest "[") "]" in
  mapM parseName (Split "," rest).

(** [splitRequires]: the loop, whose turn takes a line; [kept] is the text kept so far. *)
Fixpoint split_loop (fuel : nat) (rest : string) (requires : list string) (kept : string) : list string * string :=
  match fuel with
  | O => (requires, kept +:+ rest)
  | S fuel =>
      let '(line, remainder, found) := cutLine rest in
      let trimmed := TrimSpace line in
      if String.eqb trimmed "" || HasPrefix trimmed "#" then
        if found then split_loop fuel remainder requires (kept +:+ line) else (requires, kept +:+ line)
      else if HasPrefix trimmed "require" then
        match parseRequireLine trimmed with
        | None => (requires, kept +:+ rest)
        | Some names =>
            if found then split_loop fuel remainder (requires ++ names) kept else (requires ++ names, kept)%list
        end
      else (requires, kept +:+ rest)
  end.
Definition splitRequires (text : string) : list string * string :=
  split_loop (S (String.length text)) text [] EmptyString.

(** [ImportForeign]. *)
Definition is_line_end (c : ascii) : bool := Ascii.eqb c "013" || Ascii.eqb c newline.
Definition import_source (source name : string) : string :=
  if String.eqb source "" then name
  else if Contains source name then source else source +:+ ", " +:+ name.
(** The external body with a foreign one appended under a source comment, unless that is
    blank or already there. *)
Definition import_external (ext name body : string) : string :=
  if String.eqb (TrimSpace body) "" then ext
  else if Contains ext body then ext
  else
    let header := "# imported from script " +:+ quoteSieve name +:+ crlf in
    let ext := if negb (String.eqb ext "") && negb (HasSuffix ext (String newline EmptyString))
               then ext +:+ crlf else ext in
    ext +:+ header +:+ body.
Definition ImportForeign (s : Script) (name content : string) : Script :=
  let '(requires, body) := splitRequires content in
  mkScript (sc_Version s) (sc_Rules s) (sc_Vacation s) (sc_ForwardAll s)
    (mergeSorted (sc_ExternalRequires s) requires) (import_source (sc_ExternalSource s) name)
    (import_external (sc_ExternalBody s) name (TrimRight is_line_end body +:+ crlf)).

Example import_sogo :
  let s := ImportForeign (mkScript 1 [] None None [] "" "") "sogo"
    (dq ("# SOGo made this" +:+ crlf +:+ "require ['fileinto', 'regex'];" +:+ crlf +:+ "keep;" +:+ crlf)) in
  sc_ExternalRequires s = ["fileinto"; "regex"] /\ sc_ExternalSource s = "sogo" /\
  sc_ExternalBody s = dq ("# imported from script 'sogo'" +:+ crlf +:+ "# SOGo made this" +:+ crlf +:+ "keep;" +:+ crlf).
Proof. vm_compute. done. Qed.

(** *** What splitting does *)

(** A leading line: kept, or lifted with the names it requires. *)
Definition leading (l : string * option (list string)) : Prop :=
  match l.2 with
  | None => (String.eqb (TrimSpace l.1) "" || HasPrefix (TrimSpace l.1) "#") = true
  | Some names => parseRequireLine (TrimSpace l.1) = Some names
  end.
Definition kept_text (ls : list (string * option (list string))) : string :=
  concat_s ((fun l => match l.2 with None => l.1 | Some _ => EmptyString end) <$> ls).
Definition lifted_names (ls : list (string * option (list string))) : list string :=
  ls ≫= fun l => default [] l.2.

Lemma cutLine_app text line rest found :
  cutLine text = (line, rest, found) ->
  text = line +:+ rest /\ (found = true -> (String.length rest < String.length text)%nat) /\
  (found = false -> rest = EmptyString).
Proof.
  unfold cutLine. destruct (Index text (String newline "")) as [i|] eqn:E.
  - intros Heq. injection Heq as Hline Hrest <-. fold (take_s (S i) text) in Hline. fold (drop_s (S i) text) in Hrest.
    subst. split; [apply (take_drop_s (S i))|]. split; [|done]. intros _.
    change (match text with "" => text | String _ s => drop_s i s end) with (drop_s (S i) text). rewrite length_drop_s.
    apply Index_Some in E. destruct text as [|c text]; [|simpl; lia].
    destruct i; cbn in E; discriminate E.
  - intros [= <- <- <-]. by rewrite app_s_nil.
Qed.

Lemma split_loop_spec fuel rest requires kept :
  (String.length rest < fuel)%nat -> exists ls tail,
  rest = concat_s (ls.*1) +:+ tail /\ Forall leading ls /\
  split_loop fuel rest requires kept = ((requires ++ lifted_names ls)%list, kept +:+ kept_text ls +:+ tail).
Proof.
  revert rest requires kept. induction fuel as [|fuel IH]; intros rest requires kept Hl; [lia|].
  cbn [split_loop]. destruct (cutLine rest) as [[line remainder] found] eqn:Ec.
  apply cutLine_app in Ec as (Hrest & Hshort & Hlast).
  assert (forall r k, (requires, kept +:+ rest) = (r, k) -> exists ls tail, rest = concat_s ls.*1 +:+ tail /\
    Forall leading ls /\ (r, k) = ((requires ++ lifted_names ls)%list, kept +:+ kept_text ls +:+ tail)) as Hstop.
  { intros r k [= <- <-]. exists [], rest. unfold lifted_names, kept_text. cbn. by rewrite app_nil_r. }
  assert (forall o names keep, leading (line, o) -> lifted_names [(line, o)] = names -> kept_text [(line, o)] = keep ->
    exists ls tail, rest = concat_s ls.*1 +:+ tail /\ Forall leading ls /\
      (if found then split_loop fuel remainder (requires ++ names) (kept +:+ keep)
       else ((requires ++ names)%list, kept +:+ keep)) =
      ((requires ++ lifted_names ls)%list, kept +:+ kept_text ls +:+ tail)) as Hstep.
  { intros o names keep Ho <- <-. destruct found.
    - destruct (IH remainder (requires ++ lifted_names [(line, o)])%list (kept +:+ kept_text [(line, o)]))
        as (ls & tail & Hr & Hls & ->); [specialize (Hshort eq_refl); lia|].
      exists ((line, o) :: ls), tail. split; [rewrite Hrest, Hr; cbn; by rewrite app_s_assoc|].
      split; [by constructor|]. unfold lifted_names, kept_text. cbn. rewrite !app_nil_r, app_s_nil.
      f_equal; [by rewrite <- List.app_assoc|by rewrite <- !app_s_assoc].
    - exists [(line, o)], EmptyString. rewrite Hlast in Hrest by done. cbn. rewrite !app_s_nil in *.
      split; [done|]. split; [by constructor|]. by rewrite ?app_s_nil. }
  destruct (_ || _) eqn:Eb.
  { destruct (Hstep None [] line) as (ls & tail & H1 & H2 & H3); [done|done|cbn; apply app_s_nil|].
    exists ls, tail. rewrite app_nil_r in H3. done. }
  destruct (HasPrefix (TrimSpace line) "require"); [|by apply Hstop].
  destruct (parseRequireLine (TrimSpace line)) as [names|] eqn:En; [|by apply Hstop].
  destruct (Hstep (Some names) names "") as (ls & tail & H1 & H2 & H3); [done|cbn; apply app_nil_r|done|].
  exists ls, tail. rewrite app_s_nil in H3. done.
Qed.

(** The lines of a script are kept in order, except for the leading requires. *)
Lemma splitRequires_spec text : exists ls tail,
  text = concat_s (ls.*1) +:+ tail /\ Forall leading ls /\
  splitRequires text = (lifted_names ls, kept_text ls +:+ tail).
Proof.
  destruct (split_loop_spec (S (String.length text)) text [] "") as (ls & tail & H1 & H2 & H3); [lia|].
  by exists ls, tail.
Qed.

(** *** Importing *)

Lemma Contains_app a x b : Contains (a +:+ x +:+ b) x = true.
Proof.
  unfold Contains. induction a as [|c a IH].
  - rewrite app_s_empty. pose proof (HasPrefix_app x b) as Hp. destruct (x +:+ b) eqn:E; cbn [Index]; by rewrite Hp.
  - rewrite app_s_cons. cbn [Index]. destruct (HasPrefix _ x); [done|]. by destruct (Index (a +:+ x +:+ b) x).
Qed.
Lemma Contains_end a x : Contains (a +:+ x) x = true.
Proof. rewrite <- (app_s_nil x) at 1. apply Contains_app. Qed.

Lemma sortedSet_set X : list_to_set (sortedSet X) = X.
Proof.
  unfold sortedSet. rewrite (merge_sort_Permutation String.le (elements X)). apply leibniz_equiv, list_to_set_elements.
Qed.
Lemma mergeSorted_again a b : mergeSorted (mergeSorted a b) b = mergeSorted a b.
Proof. unfold mergeSorted. rewrite sortedSet_set. f_equal. set_solver. Qed.

Definition import_body (content : string) : string := TrimRight is_line_end (splitRequires content).2 +:+ crlf.

Lemma import_source_again source name :
  import_source (import_source source name) name = import_source source name.
Proof.
  unfold import_source at 2 3. destruct (String.eqb_spec source "") as [->|Hs].
  - unfold import_source. destruct (String.eqb_spec name "") as [->|]; [done|].
    pose proof (Contains_end "" name) as Hn. rewrite app_s_empty in Hn. by rewrite Hn.
  - destruct (Contains source name) eqn:E; unfold import_source.
    + rewrite E. by destruct (String.eqb_spec source "").
    + rewrite app_s_assoc, Contains_end. destruct source; [done|]. by rewrite !app_s_cons.
Qed.

Lemma import_external_prefix ext name body : exists more, import_external ext name body = ext +:+ more.
Proof.
  unfold import_external. destruct (String.eqb _ ""); [exists ""; by rewrite app_s_nil|].
  destruct (Contains ext body); [exists ""; by rewrite app_s_nil|].
  destruct (_ && _); [|by eexists]. rewrite <- app_s_assoc. by eexists.
Qed.

Lemma import_external_has ext name body :
  (String.eqb (TrimSpace body) "" || Contains (import_external ext name body) body) = true.
Proof.
  unfold import_external. destruct (String.eqb _ ""); [done|]. cbn [orb].
  destruct (Contains ext body) eqn:E; [done|]. rewrite app_s_assoc. apply Contains_end.
Qed.

Lemma import_external_again ext name body :
  import_external (import_external ext name body) name body = import_external ext name body.
Proof.
  pose proof (import_external_has ext name body) as Hh. unfold import_external at 1.
  destruct (String.eqb (TrimSpace body) ""); [done|]. cbn [orb] in Hh. by rewrite Hh.
Qed.

Lemma HasPrefix_newline s r :
  s <> "" -> HasPrefix (s +:+ r) (String newline "") = HasPrefix s (String newline "").
Proof. destruct s as [|c s]; [done|]. intros _. rewrite app_s_cons. cbn [HasPrefix]. by destruct (s +:+ r), s. Qed.

Lemma import_external_ok ext name body :
  body_ok ext = true -> body_ok (import_external ext name (body +:+ crlf)) = true.
Proof.
  intros He. unfold import_external. destruct (String.eqb (TrimSpace _) ""); [done|].
  destruct (Contains ext _); [done|].
  assert ((negb (String.eqb ext "") && negb (HasSuffix ext (String newline ""))) = false) as ->.
  { unfold body_ok in He. destruct (String.eqb ext ""); [done|]. cbn in He. apply andb_prop in He as [-> _]. done. }
  unfold body_ok. apply orb_true_iff. right. apply andb_true_iff. split.
  - rewrite !app_s_assoc. change crlf with (String "013" "" +:+ String newline "") at 2.
    rewrite app_s_assoc. apply HasSuffix_app.
  - apply negb_true_iff. destruct (String.eqb_spec ext "") as [->|Hne]; [done|].
    rewrite HasPrefix_newline by done. unfold body_ok in He. apply String.eqb_neq in Hne. rewrite Hne in He.
    cbn in He. apply andb_prop in He as [_ He]. by apply negb_true_iff in He.
Qed.

(** importing a foreign script loses nothing: what the external section held stays in
    front, the foreign text is in it, byte for byte apart from its leading requires,
    which are required; and importing it again changes nothing. *)
Theorem import_keeps_everything s name content :
  let s' := ImportForeign s name content in
  (exists more, sc_ExternalBody s' = sc_ExternalBody s +:+ more) /\
  (String.eqb (TrimSpace (import_body content)) "" || Contains (sc_ExternalBody s') (import_body content)) = true /\
  (forall e, e ∈ sc_ExternalRequires s \/ e ∈ (splitRequires content).1 -> e ∈ sc_ExternalRequires s') /\
  (body_ok (sc_ExternalBody s) = true -> body_ok (sc_ExternalBody s') = true) /\
  ImportForeign s' name content = s'.
Proof.
  cbv zeta. unfold import_body, ImportForeign. destruct (splitRequires content) as [requires b].
  cbn [fst snd sc_Version sc_Rules sc_Vacation sc_ForwardAll sc_ExternalRequires sc_ExternalSource sc_ExternalBody].
  split; [apply import_external_prefix|]. split; [apply import_external_has|]. split; [|split].
  - intros e He. assert (e ∈@{gset string} list_to_set (mergeSorted (sc_ExternalRequires s) requires)) as Hin.
    { unfold mergeSorted. rewrite sortedSet_set. set_solver. }
    by apply elem_of_list_to_set in Hin.
  - apply import_external_ok.
  - by rewrite mergeSorted_again, import_source_again, import_external_again.
Qed.

(** ** A concrete account *)

Lemma app_s_inv_r (a b x : string) : a +:+ x = b +:+ x -> a = b.
Proof.
  revert b. induction a as [|c a IH]; intros b H.
  - destruct b as [|d b]; [done|]. apply (f_equal String.length) in H. rewrite !length_app_s in H. simpl in H. lia.
  - destruct b as [|d b].
    + apply (f_equal String.length) in H. rewrite !length_app_s in H. simpl in H. lia.
    + rewrite !app_s_cons in H. injection H as -> H. f_equal. by apply IH.
Qed.

Definition sample_foreign : Script :=
  ImportForeign sample "sogo"
    (dq ("require ['fileinto', 'regex'];" +:+ crlf +:+ "fileinto 'Urgent'; # */" +:+ crlf)).

Lemma sample_foreign_ok : script_ok sample_foreign.
Proof.
  constructor.
  - reflexivity.
  - change (sc_Rules sample_foreign) with (sc_Rules sample).
    repeat (apply Forall_cons_2; [repeat constructor; try (vm_compute; reflexivity); vm_compute; discriminate|]).
    constructor.
  - change (sc_Vacation sample_foreign) with (sc_Vacation sample). intros v [= <-]. constructor; try (vm_compute; reflexivity);
      (split; [vm_compute; reflexivity|split; [vm_compute; reflexivity|vm_compute; split; discriminate]]).
  - change (sc_ForwardAll sample_foreign) with (sc_ForwardAll sample).
    intros f [= <-]. split; vm_compute; reflexivity.
  - assert (sc_ExternalRequires sample_foreign = ["fileinto"; "regex"]) as -> by (vm_compute; reflexivity).
    repeat constructor; vm_compute; reflexivity.
  - vm_compute. reflexivity.
Qed.

Lemma managed_roundtrip_witness :
  ParseManaged lower_ascii id (generated sample_foreign sample_env) sample_env = inr (sample_foreign, false).
Proof.
  apply (managed_roundtrip lower_ascii id sample_foreign sample_env None).
  - exact sample_foreign_ok.
  - vm_compute. reflexivity.
  - vm_compute. reflexivity.
  - intros before Hb.
    assert (generated sample_foreign sample_env =
      take_s (String.length (generated sample_foreign sample_env) - String.length (external_text sample_foreign))
        (generated sample_foreign sample_env) +:+ external_text sample_foreign) as Hs by (vm_compute; reflexivity).
    rewrite Hs in Hb. apply app_s_inv_r in Hb as <-. vm_compute. reflexivity.
Defined.

(** A name that spells the marker of the external section makes the script unreadable:
    neither the model nor a drift is reported, and Push, which reads first, fails too. *)
Definition marker_rule : Rule :=
  mkRule "r1" externalBegin RuleFilter true (mkCriteria ["a@b.example"] [] [] 0 0 None)
    (mkActions "Inbox/X" [] false false "" false false).
Example marker_in_a_name :
  ParseManaged lower_ascii id (generated (mkScript 1 [marker_rule] None None [] "" "") sample_env) sample_env =
  inl NotTerminated.
Proof. vm_compute. reflexivity. Qed.
