(* ===== verification/SieveScan.v ===== *)
(** The redirect scanner (src/internal/sieve/scan.go) and the policy gate on raw scripts
    (CheckRedirectPolicy of src/internal/jmap/mail/sieve_adapter.go), and what the scanner
    makes of a generated script.

    The position in the text is the text that remains. Every turn of a loop takes at
    least one byte, so the fuel, the length of the text, is never used up
    ([scan_fuel]). *)

From S2P Require Import Prelude Utf8 Text GoStrings GoTime Jmap Json Sieve SieveLang SieveParse.
From Stdlib Require Import Ascii String.
#[local] Open Scope string_scope.
#[local] Open Scope Z_scope.

Inductive ScanError :=
| UnterminatedEscape | UnterminatedString | UnterminatedText | UnterminatedComment
| TextArgument | RedirectOpen | NoAddress | OutOfFuel.

Definition isWordByte (c : ascii) : bool :=
  byte_between c 97 122 || byte_between c 65 90 || byte_between c 48 57 || Ascii.eqb c "_".

(** [readString]: from after the opening quote, the string and the rest. *)
Fixpoint readString (s : string) : ScanError + (string * string) :=
  match s with
  | EmptyString => inl UnterminatedString
  | String c r =>
      if Ascii.eqb c quote_char then inr (EmptyString, r)
      else if Ascii.eqb c "\" then
        match r with
        | EmptyString => inl UnterminatedEscape
        | String d r =>
            match readString r with
            | inr (v, rest) => inr (String d v, rest)
            | inl e => inl e
            end
        end
      else
        match readString r with
        | inr (v, rest) => inr (String c v, rest)
        | inl e => inl e
        end
  end.

(** To the next newline, which remains. *)
Fixpoint skipLine (s : string) : string :=
  match s with
  | EmptyString => EmptyString
  | String c r => if Ascii.eqb c newline then s else skipLine r
  end.

(** The line that ends a text block. *)
Definition text_end (s : string) : bool :=
  String.eqb s "." || HasPrefix s ("." +:+ crlf) || HasPrefix s ("." +:+ String newline EmptyString).

(** [skipText]: from after "text:", past the line that is a single dot. *)
Fixpoint skipText (s : string) : ScanError + string :=
  match s with
  | EmptyString => inl UnterminatedText
  | String c r =>
      if Ascii.eqb c newline then
        if text_end r then inr (drop_s 1 (skipLine r)) else skipText r
      else skipText r
  end.

Fixpoint spanWord (s : string) : string * string :=
  match s with
  | String c r => if isWordByte c then let '(w, r) := spanWord r in (String c w, r) else (EmptyString, s)
  | EmptyString => (EmptyString, s)
  end.

(** The arguments of a redirect, up to the semicolon, which remains. *)
Fixpoint redirectArgs (fuel : nat) (s : string) (out : list string) : ScanError + (list string * string) :=
  match fuel with
  | O => inl OutOfFuel
  | S fuel =>
      match s with
      | EmptyString => inl RedirectOpen
      | String c r =>
          if Ascii.eqb c ";" then inr (out, s)
          else if Ascii.eqb c quote_char then
            match readString r with
            | inr (v, r) => redirectArgs fuel r (out ++ [v])
            | inl e => inl e
            end
          else if Ascii.eqb c "#" then redirectArgs fuel (skipLine s) out
          else if HasPrefix s "text:" then inl TextArgument
          else redirectArgs fuel r out
      end
  end.

Fixpoint scan (fuel : nat) (s : string) (out : list string) : ScanError + list string :=
  match fuel with
  | O => inl OutOfFuel
  | S fuel =>
      match s with
      | EmptyString => inr out
      | String c r =>
          if Ascii.eqb c "#" then scan fuel (skipLine r) out
          else if HasPrefix s "/*" then
            match Index (drop_s 2 s) "*/" with
            | None => inl UnterminatedComment
            | Some n => scan fuel (drop_s (2 + n + 2) s) out
            end
          else if Ascii.eqb c quote_char then
            match readString r with
            | inr (_, r) => scan fuel r out
            | inl e => inl e
            end
          else if HasPrefix s "text:" then
            match skipText (drop_s 5 s) with
            | inr r => scan fuel r out
            | inl e => inl e
            end
          else if isWordByte c then
            let '(w, r) := spanWord s in
            if negb (String.eqb w "redirect") then scan fuel r out
            else
              match redirectArgs (S (String.length r)) r [] with
              | inl e => inl e
              | inr ([], _) => inl NoAddress
              | inr (found, r) => scan fuel r (out ++ found)
              end
          else scan fuel r out
      end
  end.

(** [ScanRedirects]. *)
Definition ScanRedirects (content : string) : ScanError + list string :=
  scan (S (String.length content)) content [].

(** [CheckRedirectPolicy], with the accepted forwarding addresses of the account. *)
Definition CheckRedirectPolicy (ToLower : string -> string) (accepted : gmap string bool) (content : string) : bool :=
  match ScanRedirects content with
  | inl _ => false
  | inr targets => forallb (fun t => default false (accepted !! ToLower t)) targets
  end.

(** ** Concrete scripts *)

Definition ok_only : gmap string bool := {["ok@x.example" := true]}.

Example scan_finds :
  ScanRedirects (dq ("# redirect 'a@x'" +:+ crlf +:+ "/* redirect 'b@x' */" +:+ crlf +:+
    "if true { redirect :copy 'real@x'; }" +:+ crlf +:+ "redirect ['c@x', 'd@x'];" +:+ crlf +:+
    "if header 'subject' 'redirect \'e@x\'' { keep; }" +:+ crlf)) = inr ["real@x"; "c@x"; "d@x"].
Proof. vm_compute. reflexivity. Qed.

(** Identifiers are case-insensitive in Sieve (RFC 5228, section 2.1); the scanner compares
    them exactly. *)
Example capital_redirect_passes :
  CheckRedirectPolicy lower_ascii ok_only (dq "Redirect 'evil@x.example';") = true.
Proof. vm_compute. reflexivity. Qed.

(** A bracket comment among the arguments is not skipped: the address in it is taken for
    the target, and its semicolon for the end of the command. *)
Example comment_hides_target :
  CheckRedirectPolicy lower_ascii ok_only (dq "redirect /* 'ok@x.example'; */ 'evil@x.example';") = true.
Proof. vm_compute. reflexivity. Qed.

(** The id of a rule goes into a comment as it is: with a line break in it, a command
    follows that no verification sees. *)
Definition id_rule : Rule :=
  mkRule ("x" +:+ crlf +:+ dq "redirect 'evil@x.example';") "" RuleFilter true
    (mkCriteria ["a@b.example"] [] [] 0 0 None) (mkActions "X" [] false false "" false false).
Example id_escapes_comment :
  ScanRedirects (generated (mkScript 1 [id_rule] None None [] "" "") sample_env) = inr ["evil@x.example"].
Proof. vm_compute. reflexivity. Qed.

(** ** Every loop ends *)

Lemma readString_len s v r : readString s = inr (v, r) -> (len r < len s)%nat.
Proof.
  remember (len s) as n eqn:Hn. revert s v Hn. induction (lt_wf n) as [n _ IH]. intros [|c s] v ->; [done|].
  cbn [readString]. destruct (Ascii.eqb c quote_char); [intros [= _ <-]; simpl; lia|].
  destruct (Ascii.eqb c "\").
  - destruct s as [|d s]; [done|]. destruct (readString s) as [|[v' r']] eqn:E; [done|]. intros [= _ <-].
    apply (IH (len s)) in E; [simpl in *; lia|simpl; lia|done].
  - destruct (readString s) as [|[v' r']] eqn:E; [done|]. intros [= _ <-].
    apply (IH (len s)) in E; [simpl in *; lia|simpl; lia|done].
Qed.
Lemma skipLine_len s : (len (skipLine s) <= len s)%nat.
Proof. induction s as [|c s IH]; [done|]. simpl. destruct (Ascii.eqb c newline); simpl; lia. Qed.
Lemma skipText_len s r : skipText s = inr r -> (len r <= len s)%nat.
Proof.
  induction s as [|c s IH]; [done|]. cbn [skipText]. destruct (Ascii.eqb c newline).
  - destruct (text_end s); [|intros H; specialize (IH H); simpl; lia].
    intros [= <-]. pose proof (skipLine_len s). destruct (skipLine s) as [|d [|e t]]; simpl in *; lia.
  - intros H. specialize (IH H). simpl. lia.
Qed.
Lemma spanWord_len c s w r : isWordByte c = true -> spanWord (String c s) = (w, r) -> (len r <= len s)%nat.
Proof.
  intros Hc. cbn [spanWord]. rewrite Hc. destruct (spanWord s) as [w' r'] eqn:E. intros [= _ <-].
  revert w' r' E. clear. induction s as [|c s IH]; intros w' r'; cbn [spanWord]; [by intros [= _ <-]|].
  destruct (isWordByte c); [|intros [= _ <-]; done]. destruct (spanWord s) as [w r] eqn:E. intros [= _ <-].
  specialize (IH _ _ eq_refl). simpl. lia.
Qed.

Lemma redirectArgs_fuel n m s out :
  (len s < n)%nat -> (len s < m)%nat -> redirectArgs n s out = redirectArgs m s out.
Proof.
  revert m s out. induction n as [|n IH]; intros [|m] s out Hn Hm; try lia. cbn [redirectArgs].
  destruct s as [|c s]; [done|]. simpl in Hn, Hm. destruct (Ascii.eqb c ";"); [done|].
  destruct (Ascii.eqb c quote_char).
  { destruct (readString s) as [|[v r]] eqn:E; [done|]. apply readString_len in E. apply IH; lia. }
  destruct (Ascii.eqb_spec c "#") as [->|].
  { pose proof (skipLine_len s). apply IH; cbn [skipLine]; change (Ascii.eqb "#" newline) with false; lia. }
  destruct (HasPrefix _ "text:"); [done|]. apply IH; lia.
Qed.
Lemma redirectArgs_done n s out : (len s < n)%nat -> redirectArgs n s out <> inl OutOfFuel.
Proof.
  revert s out. induction n as [|n IH]; intros s out Hn; [lia|]. cbn [redirectArgs].
  destruct s as [|c s]; [done|]. simpl in Hn. destruct (Ascii.eqb c ";"); [done|].
  destruct (Ascii.eqb c quote_char).
  { destruct (readString s) as [e|[v r]] eqn:E; [|apply readString_len in E; apply IH; lia].
    intros [= ->]. clear -E. revert E. induction s as [s IHs] using (induction_ltof1 _ len). unfold ltof in IHs.
    destruct s as [|c s]; [done|]. cbn [readString]. repeat case_match; try done; intros [= ->];
      (eapply IHs; [|done]; simpl; lia). }
  destruct (Ascii.eqb_spec c "#") as [->|].
  { pose proof (skipLine_len s). apply IH; cbn [skipLine]; change (Ascii.eqb "#" newline) with false; lia. }
  destruct (HasPrefix _ "text:"); [done|]. apply IH; lia.
Qed.
Lemma redirectArgs_len n s out found r : redirectArgs n s out = inr (found, r) -> (len r <= len s)%nat.
Proof.
  revert s out. induction n as [|n IH]; intros s out; [done|]. cbn [redirectArgs].
  destruct s as [|c s]; [done|]. destruct (Ascii.eqb c ";"); [by intros [= _ <-]|].
  destruct (Ascii.eqb c quote_char).
  { destruct (readString s) as [|[v r0]] eqn:E; [done|]. apply readString_len in E. intros H.
    apply IH in H. simpl. lia. }
  destruct (Ascii.eqb_spec c "#") as [->|].
  { pose proof (skipLine_len s) as Hs. intros H. apply IH in H. cbn [skipLine] in H.
    change (Ascii.eqb "#" newline) with false in H. simpl. lia. }
  destruct (HasPrefix _ "text:"); [done|]. intros H. apply IH in H. simpl. lia.
Qed.

(** One turn of the scanner: what remains and what was found, or an error. *)
Definition step (s : string) : ScanError + (string * list string) :=
  match s with
  | EmptyString => inr (EmptyString, [])
  | String c r =>
      if Ascii.eqb c "#" then inr (skipLine r, [])
      else if HasPrefix s "/*" then
        match Index (drop_s 2 s) "*/" with
        | None => inl UnterminatedComment
        | Some n => inr (drop_s (2 + n + 2) s, [])
        end
      else if Ascii.eqb c quote_char then
        match readString r with inr (_, r) => inr (r, []) | inl e => inl e end
      else if HasPrefix s "text:" then
        match skipText (drop_s 5 s) with inr r => inr (r, []) | inl e => inl e end
      else if isWordByte c then
        let '(w, r) := spanWord s in
        if negb (String.eqb w "redirect") then inr (r, [])
        else match redirectArgs (S (len r)) r [] with
             | inl e => inl e
             | inr ([], _) => inl NoAddress
             | inr (found, r) => inr (r, found)
             end
      else inr (r, [])
  end.

Lemma scan_step n c s out :
  scan (S n) (String c s) out =
  match step (String c s) with inl e => inl e | inr (r, found) => scan n r (out ++ found) end.
Proof.
  cbn [scan step]. repeat case_match; simplify_eq; rewrite ?app_nil_r; done.
Qed.

Lemma step_len c s r found : step (String c s) = inr (r, found) -> (len r <= len s)%nat.
Proof.
  cbn [step]. destruct (Ascii.eqb c "#"); [intros [= <- _]; apply skipLine_len|].
  destruct (HasPrefix (String c s) "/*").
  { destruct (Index _ _) as [n|]; [|done]. intros H. injection H as <- _.
    change (len (drop_s (2 + n + 2) (String c s)) <= len s)%nat. rewrite length_drop_s. simpl. lia. }
  destruct (Ascii.eqb c quote_char).
  { destruct (readString s) as [|[v r']] eqn:E; [done|]. apply readString_len in E. intros [= <- _]. lia. }
  destruct (HasPrefix (String c s) "text:").
  { destruct (skipText _) eqn:E; [done|]. apply skipText_len in E. intros [= <- _].
    rewrite length_drop_s in E. simpl in E. lia. }
  destruct (isWordByte c) eqn:Ew; [|by intros [= <- _]].
  destruct (spanWord (String c s)) as [w r'] eqn:E. apply spanWord_len in E; [|done].
  destruct (negb _); [intros [= <- _]; done|].
  destruct (redirectArgs (S (len r')) r' []) as [|[[|f fs] r'']] eqn:Er; [done..|].
  apply redirectArgs_len in Er. intros [= <- _]. lia.
Qed.

Lemma scan_fuel n m s out : (len s < n)%nat -> (len s < m)%nat -> scan n s out = scan m s out.
Proof.
  revert m s out. induction n as [|n IH]; intros [|m] s out Hn Hm; try lia. destruct s as [|c s]; [done|].
  rewrite !scan_step. destruct (step (String c s)) as [e|[r f]] eqn:E; [done|].
  apply step_len in E. simpl in Hn, Hm. apply IH; lia.
Qed.

Definition Scan (s : string) (out : list string) : ScanError + list string := scan (S (len s)) s out.

Lemma Scan_step c s out :
  Scan (String c s) out =
  match step (String c s) with inl e => inl e | inr (r, found) => Scan r (out ++ found) end.
Proof.
  unfold Scan. rewrite scan_step. destruct (step (String c s)) as [e|[r f]] eqn:E; [done|].
  apply step_len in E. apply scan_fuel; simpl; lia.
Qed.

Lemma readString_fuel s : readString s <> inl OutOfFuel.
Proof.
  induction s as [s IHs] using (induction_ltof1 _ len). unfold ltof in IHs. destruct s as [|c s]; [done|].
  cbn [readString]. repeat case_match; try done; intros [= ->]; (eapply IHs; [|done]; simpl; lia).
Qed.
Lemma skipText_fuel s : skipText s <> inl OutOfFuel.
Proof. induction s as [|c s IH]; [done|]. cbn [skipText]. by repeat case_match. Qed.

Lemma step_fuel s : step s <> inl OutOfFuel.
Proof.
  destruct s as [|c s]; [done|]. cbn [step].
  destruct (Ascii.eqb c "#"); [done|]. destruct (HasPrefix _ "/*"); [by case_match|].
  destruct (Ascii.eqb c quote_char).
  { pose proof (readString_fuel s). destruct (readString s) as [|[]]; [congruence|done]. }
  destruct (HasPrefix _ "text:").
  { pose proof (skipText_fuel (drop_s 5 (String c s))) as Hf. destruct (skipText _); [congruence|done]. }
  destruct (isWordByte c); [|done]. destruct (spanWord (String c s)) as [w r]. destruct (negb _); [done|].
  pose proof (redirectArgs_done (S (len r)) r [] ltac:(lia)).
  destruct (redirectArgs _ r []) as [|[[|] ]]; [congruence|done..].
Qed.

Lemma Scan_done s out : Scan s out <> inl OutOfFuel.
Proof.
  revert out. induction s as [s IH] using (induction_ltof1 _ len). unfold ltof in IH. intros out.
  destruct s as [|c s]; [done|]. rewrite Scan_step. pose proof (step_fuel (String c s)).
  destruct (step (String c s)) as [e|[r f]] eqn:E; [congruence|]. apply step_len in E. apply IH. simpl. lia.
Qed.

(** ** What the scanner reads in a generated script *)

(** A piece of text in which the scanner finds [ts], at a token boundary on both sides. *)
Definition reads (p : string) (ts : list string) : Prop :=
  forall rest out, Scan (p +:+ rest) out = Scan rest (out ++ ts).

(** The same when one of these bytes follows. *)
Definition delimiter (c : ascii) : bool :=
  Ascii.eqb c "," || Ascii.eqb c ")" || Ascii.eqb c " " || Ascii.eqb c "013" || Ascii.eqb c ";".
Definition reads_before (p : string) : Prop :=
  forall c rest out, delimiter c = true -> Scan (p +:+ String c rest) out = Scan (String c rest) out.

Lemma reads_nil : reads "" [].
Proof. intros rest out. by rewrite app_nil_r. Qed.
Lemma reads_app p q ts us : reads p ts -> reads q us -> reads (p +:+ q) (ts ++ us)%list.
Proof. intros Hp Hq rest out. by rewrite <- app_s_assoc, Hp, Hq, List.app_assoc. Qed.
Lemma reads_app_nil p q : reads p [] -> reads q [] -> reads (p +:+ q) [].
Proof. apply (reads_app p q [] []). Qed.
Lemma reads_then p q : reads p [] -> reads_before q -> reads_before (p +:+ q).
Proof. intros Hp Hq c rest out Hc. rewrite <- app_s_assoc, Hp, app_nil_r. by apply Hq. Qed.
Lemma reads_reads_before p : reads p [] -> reads_before p.
Proof. intros Hp c rest out _. by rewrite Hp, app_nil_r. Qed.
Lemma reads_delim p c q : reads_before p -> delimiter c = true -> reads (String c q) [] -> reads (p +:+ String c q) [].
Proof.
  intros Hp Hc Hq rest out. rewrite <- app_s_assoc, app_s_cons, Hp by done. rewrite <- app_s_cons. apply Hq.
Qed.

(** Words and punctuation without strings, comments, text blocks and redirects, up to a
    byte that is not part of a word; [w] is the word so far. *)
Fixpoint plain_from (w s : string) : bool :=
  match s with
  | EmptyString => String.eqb w ""
  | String c s =>
      if isWordByte c then plain_from (w +:+ String c EmptyString) s
      else negb (String.eqb w "redirect") && negb (String.eqb w "text" && Ascii.eqb c ":") &&
           negb (Ascii.eqb c "#") && negb (Ascii.eqb c quote_char) && negb (Ascii.eqb c "/") && plain_from "" s
  end.

Lemma spanWord_app w c r :
  chars_in isWordByte w = true -> isWordByte c = false -> spanWord (w +:+ String c r) = (w, String c r).
Proof.
  intros Hw Hc. induction w as [|d w IH]; [rewrite app_s_empty; cbn [spanWord]; by rewrite Hc|].
  cbn [chars_in] in Hw. apply andb_prop in Hw as [Hd Hw]. rewrite app_s_cons. cbn [spanWord]. by rewrite Hd, IH.
Qed.

Lemma word_byte c : isWordByte c = true -> c <> "#"%char /\ c <> "/"%char /\ c <> quote_char /\ c <> ":"%char.
Proof. intros Hc. repeat split; by intros ->. Qed.

Lemma prefix_word w c r p d :
  chars_in isWordByte w = true -> isWordByte c = false -> isWordByte d = false -> chars_in isWordByte p = true ->
  HasPrefix (w +:+ String c r) (p +:+ String d "") = true -> w = p /\ c = d.
Proof.
  intros Hw Hc Hd Hp. revert w Hw. induction p as [|e p IH]; intros w Hw; rewrite ?app_s_empty, ?app_s_cons; cbn [HasPrefix].
  - destruct w as [|x w]; rewrite ?app_s_empty, ?app_s_cons; intros [H _]%andb_prop; apply Ascii.eqb_eq in H as ->; [done|].
    cbn [chars_in] in Hw. by rewrite Hd in Hw.
  - cbn [chars_in] in Hp. apply andb_prop in Hp as [He Hp].
    destruct w as [|x w]; rewrite ?app_s_empty, ?app_s_cons; intros [H H']%andb_prop; apply Ascii.eqb_eq in H as ->; [congruence|].
    cbn [chars_in] in Hw. apply andb_prop in Hw as [_ Hw]. destruct (IH Hp w Hw H') as [-> ->]. done.
Qed.

Lemma not_comment d r : d <> "/"%char -> HasPrefix (String d r) "/*" = false.
Proof. intros Hd. cbn [HasPrefix]. by rewrite (proj2 (Ascii.eqb_neq "/" d)) by congruence. Qed.

(** A word that is not a command of interest is passed. *)
Lemma Scan_word w c r out :
  chars_in isWordByte w = true -> isWordByte c = false -> w <> "redirect" -> ~ (w = "text" /\ c = ":"%char) ->
  Scan (w +:+ String c r) out = Scan (String c r) out.
Proof.
  intros Hw Hc Hr Ht. destruct w as [|d w]; [done|].
  pose proof Hw as Hd. cbn [chars_in] in Hd. apply andb_prop in Hd as [Hd _].
  destruct (word_byte d Hd) as (H1 & H2 & H3 & _).
  rewrite app_s_cons, Scan_step. cbn [step].
  rewrite (proj2 (Ascii.eqb_neq d "#") H1), not_comment, (proj2 (Ascii.eqb_neq d quote_char) H3) by done.
  rewrite <- app_s_cons.
  destruct (HasPrefix (String d w +:+ String c r) "text:") eqn:E.
  { apply (prefix_word _ _ _ "text" ":") in E; [|done..]. by destruct Ht. }
  rewrite Hd. rewrite spanWord_app by done.
  rewrite (proj2 (String.eqb_neq (String d w) "redirect") Hr). cbn [negb]. by rewrite app_nil_r.
Qed.

Lemma Scan_plain_byte c r out :
  isWordByte c = false -> c <> "#"%char -> c <> quote_char -> c <> "/"%char -> Scan (String c r) out = Scan r out.
Proof.
  intros Hw H1 H2 H3. rewrite Scan_step. cbn [step].
  rewrite (proj2 (Ascii.eqb_neq c "#") H1), not_comment, (proj2 (Ascii.eqb_neq c quote_char) H2) by done.
  assert (HasPrefix (String c r) "text:" = false) as ->.
  { cbn [HasPrefix]. destruct (Ascii.eqb_spec "t" c) as [<-|]; done. }
  rewrite Hw. by rewrite app_nil_r.
Qed.

Lemma plain_reads_from s : forall w rest out, chars_in isWordByte w = true -> plain_from w s = true ->
  Scan (w +:+ s +:+ rest) out = Scan rest out.
Proof.
  induction s as [|c s IH]; intros w rest out Hw Hp; cbn [plain_from] in Hp.
  - apply String.eqb_eq in Hp as ->. done.
  - destruct (isWordByte c) eqn:Hc.
    + replace (w +:+ String c s +:+ rest) with ((w +:+ String c "") +:+ s +:+ rest) by (by rewrite <- app_s_assoc).
      apply IH; [|done]. rewrite chars_in_app, Hw. cbn. by rewrite Hc.
    + rewrite !andb_true_iff, !negb_true_iff in Hp. destruct Hp as (((((Hr & Ht) & H1) & H2) & H3) & Hs).
      rewrite app_s_cons, Scan_word; [|done|done|by apply String.eqb_neq|].
      * rewrite Scan_plain_byte; [by apply (IH "")|done|..]; by apply Ascii.eqb_neq.
      * intros [-> ->]. done.
Qed.

Lemma plain_reads s : plain_from "" s = true -> reads s [].
Proof. intros Hs rest out. rewrite app_nil_r. by apply (plain_reads_from s "" rest out). Qed.

Lemma readString_quoted v rest : readString (escape_sieve v +:+ String quote_char rest) = inr (v, rest).
Proof.
  induction v as [|c v IH]; [done|]. cbn [escape_sieve].
  destruct (Ascii.eqb_spec c quote_char) as [->|H1]; cbn [orb].
  - rewrite !app_s_cons. cbn [readString]. change (Ascii.eqb "\" quote_char) with false.
    change (Ascii.eqb "\" "\") with true. cbv iota. by rewrite IH.
  - destruct (Ascii.eqb_spec c "\") as [->|H2]; rewrite !app_s_cons; cbn [readString].
    + change (Ascii.eqb "\" quote_char) with false. change (Ascii.eqb "\" "\") with true. cbv iota. by rewrite IH.
    + rewrite (proj2 (Ascii.eqb_neq _ _) H1), (proj2 (Ascii.eqb_neq _ _) H2). by rewrite IH.
Qed.

Lemma quoted_reads v : reads (quoteSieve v) [].
Proof.
  intros rest out. unfold quoteSieve. rewrite app_s_cons, <- app_s_assoc, app_s_cons, app_s_empty.
  rewrite Scan_step. cbn [step]. change (Ascii.eqb quote_char "#") with false. rewrite not_comment by done.
  rewrite Ascii.eqb_refl, readString_quoted. by rewrite !app_nil_r.
Qed.

Lemma skipLine_app b rest : chars_in no_newline b = true -> skipLine (b +:+ String newline rest) = String newline rest.
Proof.
  induction b as [|c b IH]; [by destruct rest|]. cbn [chars_in]. intros [Hc Hb]%andb_prop. rewrite app_s_cons.
  cbn [skipLine]. unfold no_newline in Hc. apply negb_true_iff in Hc. by rewrite Hc, IH.
Qed.

(** A comment to the end of its line. *)
Lemma comment_reads b : chars_in no_newline b = true -> reads ("#" +:+ b +:+ crlf) [].
Proof.
  intros Hb rest out. rewrite <- !app_s_assoc, app_s_cons, app_s_empty, Scan_step. cbn [step].
  change (Ascii.eqb "#" "#") with true. cbv iota.
  assert (skipLine (b +:+ crlf +:+ rest) = String newline rest) as ->.
  { change (crlf +:+ rest) with (String "013" "" +:+ String newline rest). rewrite app_s_assoc.
    apply skipLine_app. rewrite chars_in_app, Hb. done. }
  rewrite !app_nil_r. apply Scan_plain_byte; done.
Qed.

Lemma args_skip c n s out :
  c <> ";"%char -> c <> quote_char -> c <> "#"%char -> c <> "t"%char ->
  redirectArgs (S n) (String c s) out = redirectArgs n s out.
Proof.
  intros H1 H2 H3 H4. cbn [redirectArgs].
  rewrite (proj2 (Ascii.eqb_neq c ";") H1), (proj2 (Ascii.eqb_neq c quote_char) H2), (proj2 (Ascii.eqb_neq c "#") H3).
  assert (HasPrefix (String c s) "text:" = false) as ->; [|done].
  cbn [HasPrefix]. by rewrite (proj2 (Ascii.eqb_neq "t" c)) by congruence.
Qed.

Lemma redirect_reads a : reads ("redirect :copy " +:+ quoteSieve a +:+ ";") [a].
Proof.
  intros rest out. unfold quoteSieve.
  set (tail := String ";" rest). set (x := escape_sieve a +:+ String quote_char tail).
  replace (("redirect :copy " +:+ String quote_char (escape_sieve a +:+ String quote_char "") +:+ ";") +:+ rest)
    with ("redirect" +:+ String " " (":copy " +:+ String quote_char x)).
  2: { unfold x, tail. by rewrite <- !app_s_assoc, !app_s_cons, <- !app_s_assoc. }
  rewrite app_s_cons, Scan_step. cbn [step].
  change (Ascii.eqb "r" "#") with false. change (Ascii.eqb "r" quote_char) with false.
  change (isWordByte "r") with true. rewrite not_comment by done.
  change (HasPrefix (String "r" _) "text:") with false. cbv iota. rewrite <- app_s_cons.
  rewrite spanWord_app by done. change (negb (String.eqb "redirect" "redirect")) with false. cbv iota.
  rewrite !app_s_cons, app_s_empty. cbn [len String.length]. rewrite !args_skip by done.
  cbn [redirectArgs]. change (Ascii.eqb quote_char ";") with false. rewrite Ascii.eqb_refl.
  unfold x at 1. rewrite readString_quoted.
  unfold tail at 1. cbv iota. change (Ascii.eqb ";" ";") with true. cbn [app].
  unfold tail. apply Scan_plain_byte; done.
Qed.

(** *** Text blocks *)

Lemma skipText_line l rest :
  chars_in no_newline l = true -> skipText (l +:+ String newline rest) =
  if text_end rest then inr (drop_s 1 (skipLine rest)) else skipText rest.
Proof.
  induction l as [|c l IH]; [done|]. cbn [chars_in]. intros [Hc Hl]%andb_prop. rewrite app_s_cons. cbn [skipText].
  unfold no_newline in Hc. apply negb_true_iff in Hc. rewrite Hc. by apply IH.
Qed.

Lemma stuffed_not_end l rest : text_end (stuff_line l +:+ crlf +:+ rest) = false.
Proof.
  unfold stuff_line, text_end. destruct (HasPrefix l ".") eqn:E.
  - apply HasPrefix_true in E as [r ->]. done.
  - destruct l as [|c l]; [done|]. rewrite app_s_cons. cbn [HasPrefix] in E.
    assert (c <> "."%char) as Hc. { intros ->. by destruct l. }
    assert (HasPrefix (String c (l +:+ crlf +:+ rest)) ("." +:+ crlf) = false) as ->.
    { rewrite app_s_cons. cbn [HasPrefix]. by rewrite (proj2 (Ascii.eqb_neq "." c)) by congruence. }
    assert (HasPrefix (String c (l +:+ crlf +:+ rest)) ("." +:+ String newline "") = false) as ->.
    { rewrite app_s_cons. cbn [HasPrefix]. by rewrite (proj2 (Ascii.eqb_neq "." c)) by congruence. }
    rewrite !orb_false_r. apply String.eqb_neq. intros [= -> _]. done.
Qed.

Lemma stuff_line_newline l : chars_in no_newline (stuff_line l) = chars_in no_newline l.
Proof. unfold stuff_line. by destruct (HasPrefix l "."). Qed.

(** After any lines, none of which is the dot, the block ends at the dot. *)
Lemma skipText_lines ls rest :
  Forall (fun l => chars_in no_newline l = true) ls ->
  skipText (crlf +:+ JoinStr crlf (stuff_line <$> ls) +:+ crlf +:+ "." +:+ crlf +:+ rest) = inr rest.
Proof.
  assert (forall r, skipText (crlf +:+ "." +:+ crlf +:+ r) = inr r) as Hend.
  { intros r. change (crlf +:+ "." +:+ crlf +:+ r) with (String "013" "" +:+ String newline ("." +:+ crlf +:+ r)).
    by rewrite skipText_line by done. }
  assert (forall l r, chars_in no_newline l = true -> 
    skipText (crlf +:+ stuff_line l +:+ crlf +:+ r) = skipText (crlf +:+ r)) as Hline.
  { intros l r Hl. change (crlf +:+ stuff_line l +:+ crlf +:+ r)
      with (String "013" "" +:+ String newline (stuff_line l +:+ crlf +:+ r)).
    rewrite skipText_line, stuffed_not_end by done.
    change (crlf +:+ r) with (String "013" "" +:+ String newline r). rewrite app_s_assoc, !skipText_line; [done|done|].
    by rewrite chars_in_app, stuff_line_newline, Hl. }
  intros Hls. destruct ls as [|l ls].
  { change (crlf +:+ JoinStr crlf (stuff_line <$> []) +:+ crlf +:+ "." +:+ crlf +:+ rest)
      with (crlf +:+ stuff_line "" +:+ crlf +:+ "." +:+ crlf +:+ rest). by rewrite Hline. }
  revert l Hls. induction ls as [|l' ls IH]; intros l [Hl Hls]%Forall_cons.
  - cbn [fmap list_fmap JoinStr]. by rewrite Hline.
  - rewrite !fmap_cons, JoinStr_cons. rewrite <- !app_s_assoc. rewrite Hline by done. rewrite <- fmap_cons. by apply IH.
Qed.

Lemma Split_no_sep sep s :
  Forall (fun l => chars_in (fun c => negb (Ascii.eqb c sep)) l = true) (Split sep s).
Proof.
  induction s as [|c s IH]; [by repeat constructor|]. cbn [Split]. destruct (Ascii.eqb c sep) eqn:E; [by constructor|].
  destruct (Split sep s) as [|h t]; [repeat constructor; simpl; by rewrite E|].
  apply Forall_cons in IH as [Hh Ht]. constructor; [|done]. simpl. by rewrite E, Hh.
Qed.

(** The scanner passes the whole text of a block, whatever it says. *)
Lemma text_reads t : reads ("text:" +:+ crlf +:+ dotStuff t +:+ crlf +:+ "." +:+ crlf) [].
Proof.
  intros rest out. rewrite app_nil_r. rewrite <- !app_s_assoc, app_s_cons, Scan_step. cbn [step].
  change (Ascii.eqb "t" "#") with false. rewrite not_comment by done. change (Ascii.eqb "t" quote_char) with false.
  rewrite <- app_s_cons. change (String "t" "ext:") with "text:". rewrite HasPrefix_app. cbv iota.
  change (drop_s 5 ("text:" +:+ ?x)) with x. unfold dotStuff.
  rewrite skipText_lines by apply Split_no_sep. by rewrite app_nil_r.
Qed.

(** *** Tests, actions and blocks *)

Lemma join_reads_before sep l :
  reads sep [] -> (exists c s, sep = String c s /\ delimiter c = true) -> Forall reads_before l ->
  reads_before (JoinStr sep l).
Proof.
  intros Hs (c & s & Hsep & Hc) Hl. induction Hl as [|x l Hx Hl IH]; [by intros d rest out _|].
  rewrite JoinStr_cons. destruct l as [|y l]; [by rewrite app_s_nil|].
  intros d rest out Hd. rewrite <- !app_s_assoc. rewrite Hsep, app_s_cons, Hx by done.
  rewrite <- app_s_cons, <- Hsep, Hs, app_nil_r. by apply IH.
Qed.

Lemma join_reads sep l : reads sep [] -> Forall (fun x => reads x []) l -> reads (JoinStr sep l) [].
Proof.
  intros Hs Hl. induction Hl as [|x l Hx Hl IH]; [apply reads_nil|]. rewrite JoinStr_cons.
  destruct l as [|y l]; [by rewrite app_s_nil|]. apply reads_app_nil; [done|]. by apply reads_app_nil.
Qed.

(** A constant piece of text. *)
Ltac plain := apply plain_reads; vm_compute; reflexivity.

Lemma list_reads l : reads (stringList l) [].
Proof.
  unfold stringList. apply reads_app_nil; [plain|]. apply reads_app_nil; [|plain].
  apply join_reads; [plain|]. apply Forall_fmap, Forall_forall. intros x _. apply quoted_reads.
Qed.
Lemma strs_reads s : reads (show_strs s) [].
Proof. destruct s; [apply quoted_reads|apply list_reads]. Qed.

Lemma digits_reads_before v : 0 <= v -> reads_before (FormatInt 10 v).
Proof.
  intros Hv c rest out Hc. destruct (FormatInt_lead v Hv) as (d & t & -> & Hd & Ht & _).
  assert (forall x, is_digit x = true -> isWordByte x = true) as Hw.
  { intros x Hx. unfold isWordByte. unfold is_digit in Hx. rewrite Hx. by rewrite orb_true_r. }
  apply Scan_word.
  - cbn [chars_in]. rewrite Hw by by apply digit_char_digit. by apply (chars_in_impl is_digit).
  - by destruct c as [[] [] [] [] [] [] [] []].
  - intros [= Heq _]. pose proof (digit_char_digit d Hd) as Hdd. by rewrite Heq in Hdd.
  - intros [[= Heq _] _]. pose proof (digit_char_digit d Hd) as Hdd. by rewrite Heq in Hdd.
Qed.

Section test_induction.
Context (P : test -> Prop).
Context (Hheader : forall m hs vs, P (THeader m hs vs)) (Haddr : forall vs, P (TAddressFrom vs))
        (Henv : forall vs, P (TEnvelopeTo vs)) (Hover : forall n, P (TSizeOver n)) (Hunder : forall n, P (TSizeUnder n))
        (Hparam : forall p h, P (TParam p h)) (Hexists : forall hs, P (TExists hs))
        (His : forall p v, P (TDateIs p v)) (Hcmp : forall o p v, P (TDateCmp o p v))
        (Hnot : forall t, P t -> P (TNot t)) (Hany : forall l, Forall P l -> P (TAnyof l))
        (Hall : forall l, Forall P l -> P (TAllof l)) (Hguards : forall l, Forall P l -> P (TGuards l)).

(** Induction through the lists of tests. *)
Fixpoint test_nested (t : test) : P t :=
  let go := fix go l : Forall P l :=
    match l with [] => Forall_nil_2 _ | x :: l => Forall_cons_2 _ x l (test_nested x) (go l) end in
  match t with
  | THeader m hs vs => Hheader m hs vs
  | TAddressFrom vs => Haddr vs
  | TEnvelopeTo vs => Henv vs
  | TSizeOver n => Hover n
  | TSizeUnder n => Hunder n
  | TParam p h => Hparam p h
  | TExists hs => Hexists hs
  | TDateIs p v => His p v
  | TDateCmp o p v => Hcmp o p v
  | TNot t => Hnot t (test_nested t)
  | TAnyof l => Hany l (go l)
  | TAllof l => Hall l (go l)
  | TGuards l => Hguards l (go l)
  end.
End test_induction.

(** Sizes are not negative. *)
Fixpoint sizes_ok (t : test) : bool :=
  match t with
  | TSizeOver n | TSizeUnder n => 0 <=? n
  | TNot t => sizes_ok t
  | TAnyof l | TAllof l | TGuards l => forallb sizes_ok l
  | _ => true
  end.

(** Pieces one after the other. *)
Ltac pieces :=
  repeat first [apply quoted_reads | apply list_reads | apply strs_reads | plain | apply reads_app_nil].

Lemma close_reads p : reads_before p -> reads (p +:+ ")") [].
Proof. intros Hp. by apply (reads_delim p ")" ""); [| |plain]. Qed.
Lemma close_reads_line p : reads_before p -> reads (p +:+ crlf +:+ ")") [].
Proof. intros Hp. by apply (reads_delim p "013" (String newline ")")); [| |plain]. Qed.

Lemma tests_ok l :
  Forall (fun t => sizes_ok t = true -> reads_before (show_test t)) l -> forallb sizes_ok l = true ->
  Forall reads_before (show_test <$> l).
Proof.
  rewrite forallb_forall, Forall_fmap, !Forall_forall. intros IH Hl t Ht. apply IH; [done|].
  by apply Hl, list_elem_of_In.
Qed.

Lemma test_reads t : sizes_ok t = true -> reads_before (show_test t).
Proof.
  revert t. apply (test_nested (fun t => sizes_ok t = true -> reads_before (show_test t))); cbn [sizes_ok show_test].
  - intros m hs vs _. apply reads_reads_before.
    replace ("header " +:+ show_mtype m +:+ " " +:+ show_strs hs +:+ " " +:+ show_strs vs)
      with (("header " +:+ show_mtype m +:+ " ") +:+ show_strs hs +:+ " " +:+ show_strs vs)
      by (by rewrite <- !app_s_assoc).
    apply reads_app_nil; [destruct m; plain|]. pieces.
  - intros vs _. apply reads_reads_before. change (dq _) with ("address :all :is " +:+ quoteSieve "from" +:+ " ").
    rewrite <- !app_s_assoc. pieces.
  - intros vs _. apply reads_reads_before. change (dq _) with ("envelope :all :contains " +:+ quoteSieve "to" +:+ " ").
    rewrite <- !app_s_assoc. pieces.
  - intros n Hn. apply reads_then; [plain|]. by apply digits_reads_before, Z.leb_le.
  - intros n Hn. apply reads_then; [plain|]. by apply digits_reads_before, Z.leb_le.
  - intros p h _. apply reads_reads_before. change (dq _) with (" " +:+ quoteSieve "*"). pieces.
  - intros hs _. apply reads_reads_before. pieces.
  - intros p v _. apply reads_reads_before. change currentdate with ("currentdate :zone " +:+ quoteSieve "+0000").
    rewrite <- !app_s_assoc. pieces.
  - intros o p v _. apply reads_reads_before. change currentdate with ("currentdate :zone " +:+ quoteSieve "+0000").
    rewrite <- !app_s_assoc. pieces.
  - intros t IH Hs. apply reads_then; [plain|]. auto.
  - intros l IH Hl. apply reads_reads_before, reads_app_nil; [plain|]. apply close_reads.
    apply join_reads_before; [plain|by eexists _, _|]. by apply tests_ok.
  - intros l IH Hl. apply reads_reads_before, reads_app_nil; [plain|]. apply close_reads.
    apply join_reads_before; [plain|by eexists _, _|]. by apply tests_ok.
  - intros l IH Hl. apply reads_reads_before.
    replace ("allof (" +:+ crlf +:+ "    " +:+ JoinStr ("," +:+ crlf +:+ "    ") (show_test <$> l) +:+ crlf +:+ ")")
      with (("allof (" +:+ crlf +:+ "    ") +:+ JoinStr ("," +:+ crlf +:+ "    ") (show_test <$> l) +:+ crlf +:+ ")")
      by (by rewrite <- !app_s_assoc).
    apply reads_app_nil; [plain|]. apply close_reads_line.
    apply join_reads_before; [plain|by eexists _, _|]. by apply tests_ok.
Qed.

Definition action_targets (a : action) : list string := match a with ARedirect x => [x] | _ => [] end.

Lemma action_reads a : reads (show_action a) (action_targets a).
Proof.
  destruct a as [fs|x|f| |h sb mime t]; cbn [show_action action_targets].
  - pieces.
  - replace ("    redirect :copy " +:+ quoteSieve x +:+ ";" +:+ crlf)
      with ("    " +:+ ("redirect :copy " +:+ quoteSieve x +:+ ";") +:+ crlf) by (by rewrite <- !app_s_assoc).
    apply (reads_app _ _ [] [x]); [plain|]. apply (reads_app _ _ [x] []); [apply redirect_reads|plain].
  - pieces.
  - pieces.
  - apply reads_app_nil; [plain|]. apply reads_app_nil; [apply quoted_reads|].
    apply reads_app_nil; [destruct (String.eqb sb ""); [apply reads_nil|pieces]|].
    replace ((if mime then " :mime text:" else " text:") +:+ crlf +:+ dotStuff t +:+ crlf +:+ "." +:+ crlf +:+ ";" +:+ crlf)
      with ((if mime then " :mime " else " ") +:+ ("text:" +:+ crlf +:+ dotStuff t +:+ crlf +:+ "." +:+ crlf) +:+ ";" +:+ crlf)
      by (destruct mime; by rewrite <- !app_s_assoc).
    apply reads_app_nil; [destruct mime; plain|]. apply reads_app_nil; [apply text_reads|plain].
Qed.

Lemma concat_reads {A} (f : A -> string) (g : A -> list string) l :
  Forall (fun x => reads (f x) (g x)) l -> reads (concat_s (f <$> l)) (l ≫= g).
Proof.
  induction 1 as [|x l Hx Hl IH]; [apply reads_nil|]. rewrite fmap_cons, bind_cons. by apply reads_app.
Qed.

Definition block_targets (b : block) : list string := b_actions b ≫= action_targets.

Lemma block_reads b :
  chars_in no_newline (b_comment b) = true -> sizes_ok (b_test b) = true -> reads (show_block b) (block_targets b).
Proof.
  intros Hc Ht. unfold show_block.
  replace ("# " +:+ b_comment b +:+ crlf +:+ "if " +:+ show_test (b_test b) +:+ " {" +:+ crlf +:+
           concat_s (show_action <$> b_actions b) +:+ "}" +:+ crlf)
    with (("#" +:+ (" " +:+ b_comment b) +:+ crlf) +:+ ("if " +:+ (show_test (b_test b) +:+ " {")) +:+ crlf +:+
           concat_s (show_action <$> b_actions b) +:+ "}" +:+ crlf) by (by rewrite <- !app_s_assoc).
  apply (reads_app _ _ [] (block_targets b)); [apply comment_reads; by rewrite chars_in_app, Hc|].
  apply (reads_app _ _ [] (block_targets b)).
  { apply reads_app_nil; [plain|]. apply reads_delim; [by apply test_reads|done|plain]. }
  apply (reads_app _ _ [] (block_targets b)); [plain|]. rewrite <- (app_nil_r (block_targets b)).
  apply reads_app; [|plain]. apply concat_reads. apply Forall_forall. intros a _. apply action_reads.
Qed.

Lemma header_reads meta : pair_free meta = true -> no_slash_head meta = true -> meta <> "" -> reads (header_text meta) [].
Proof.
  intros Hm Hslash Hne. unfold header_text.
  replace (metaBegin +:+ crlf +:+ meta +:+ crlf +:+ metaEnd +:+ crlf +:+
    "# Managed by Moov Mail. Edits to this script are preserved as foreign" +:+ crlf +:+
    "# content but not merged; keep hand-written rules in a separate script." +:+ crlf)
    with ((metaBegin +:+ crlf +:+ meta +:+ crlf +:+ metaEnd) +:+ crlf +:+
    ("#" +:+ " Managed by Moov Mail. Edits to this script are preserved as foreign" +:+ crlf) +:+
    ("#" +:+ " content but not merged; keep hand-written rules in a separate script." +:+ crlf))
    by (by rewrite <- !app_s_assoc).
  apply reads_app_nil; [|apply reads_app_nil; [plain|apply reads_app_nil; by apply comment_reads]].
  intros rest out. rewrite app_nil_r.
  set (x := " @moov:begin" +:+ crlf +:+ meta +:+ crlf +:+ "@moov:end ").
  replace ((metaBegin +:+ crlf +:+ meta +:+ crlf +:+ metaEnd) +:+ rest) with ("/*" +:+ x +:+ "*/" +:+ rest)
    by (unfold x; by rewrite <- !app_s_assoc).
  rewrite app_s_cons, Scan_step. cbn [step]. change (Ascii.eqb "/" "#") with false. cbv iota.
  rewrite <- app_s_cons. change (String "/" "*") with "/*". rewrite HasPrefix_app. 
  change (drop_s 2 ("/*" +:+ ?y)) with y.
  rewrite Index_pair.
  2: { unfold x. rewrite !pair_free_app; try done; [by rewrite Hm|]. by destruct meta. }
  rewrite app_nil_r. f_equal.
  change (drop_s (2 + len x + 2) ("/*" +:+ x +:+ "*/" +:+ rest)) with (drop_s (len x + 2) (x +:+ "*/" +:+ rest)).
  by rewrite drop_s_app_more.
Qed.

Lemma require_reads s : reads (require_text s) [].
Proof. unfold require_text. destruct (RequiredExtensions s); [apply reads_nil|]. pieces. Qed.

(** ** The theorem *)

(** The redirects a model asks for. *)
Definition rule_redirects (r : Rule) : list string :=
  if ru_Enabled r && String.eqb (ru_Type r) RuleFilter && negb (String.eqb (ac_Forward (ru_Actions r)) "")
  then [ac_Forward (ru_Actions r)] else [].
Definition model_redirects (s : Script) : list string :=
  match sc_ForwardAll s with Some f => if fw_Enabled f then [fw_Address f] else [] | None => [] end ++
  (sc_Rules s ≫= rule_redirects).

Section agree.
Context (ToLower : string -> string) (sha256 : string -> string).

Lemma criteria_sizes c extra :
  (forall e, extra = Some e -> sizes_ok e = true) -> sizes_ok (criteria_test c extra) = true.
Proof.
  intros He. assert (forallb sizes_ok (criteria_tests c extra) = true) as Hall.
  { unfold criteria_tests. rewrite !forallb_app, !andb_true_iff. repeat split; repeat case_match; cbn; try done.
    - by rewrite He.
    - apply andb_true_iff. split; [apply Z.leb_le|done]. bool_cases. lia.
    - apply andb_true_iff. split; [apply Z.leb_le|done]. bool_cases. lia. }
  unfold criteria_test. destruct (criteria_tests c extra) as [|t [|u l]]; [done| |done].
  cbn in Hall. by rewrite andb_true_r in Hall.
Qed.

Lemma guards_sizes v env : forallb sizes_ok (vacation_guards ToLower v env) = true.
Proof. unfold vacation_guards. rewrite !forallb_app. repeat case_match; done. Qed.

Lemma rule_actions_targets a env :
  rule_actions a env ≫= action_targets = if String.eqb (ac_Forward a) "" then [] else [ac_Forward a].
Proof.
  unfold rule_actions. rewrite !bind_app. repeat case_match; done.
Qed.

Lemma compiled_targets s env bs :
  compile ToLower sha256 s env = Some bs -> bs ≫= block_targets = model_redirects s.
Proof.
  intros Hc. unfold compile in Hc. unfold model_redirects.
  destruct (match sc_Vacation s with Some _ => _ | None => _ end) as [va|] eqn:Eva; [|done].
  cbn [mbind option_bind] in Hc. injection Hc as <-. rewrite !bind_app.
  assert ((blocked_block ToLower env <$> filter (fun r => is_blocked r = true) (sc_Rules s)) ≫= block_targets = []) as ->.
  { induction (sc_Rules s) as [|r rs IH]; [done|]. rewrite filter_cons. case_decide; [|done]. rewrite fmap_cons, bind_cons.
    by rewrite IH. }
  assert (va ≫= block_targets = []) as ->.
  { destruct (sc_Vacation s) as [v|]; [destruct (va_Enabled v)|]; try by injection Eva as <-.
    destruct (vacation_block ToLower sha256 env v) as [b|] eqn:Eb; [|done]. injection Eva as <-.
    apply vacation_block_spec in Eb as (_ & text & Hact). cbn. unfold block_targets. by rewrite Hact. }
  cbn [app]. f_equal.
  { destruct (sc_ForwardAll s) as [f|]; [|done]. destruct (fw_Enabled f); [|done].
    rewrite bind_cons. unfold block_targets, forward_block. cbn [b_actions]. rewrite bind_cons. by destruct (String.eqb (fw_Disposition f) ForwardArchive). }
  induction (sc_Rules s) as [|r rs IH]; [done|]. rewrite !bind_cons, bind_app, IH. f_equal.
  unfold rule_blocks, rule_redirects. destruct (ru_Enabled r); [|done]. cbn [negb andb].
  destruct (String.eqb (ru_Type r) RuleFilter) eqn:Ef.
  - cbn. unfold block_targets. cbn [b_actions filter_block]. rewrite rule_actions_targets, app_nil_r.
    by destruct (String.eqb (ac_Forward (ru_Actions r)) "").
  - cbn [andb]. by destruct (String.eqb (ru_Type r) RuleNeverSpam).
Qed.

Lemma compiled_clean s env bs :
  ids_ok s -> compile ToLower sha256 s env = Some bs ->
  Forall (fun b => chars_in no_newline (b_comment b) = true /\ sizes_ok (b_test b) = true) bs.
Proof.
  intros Hids (fw & va & -> & Hfw & Hva)%compile_sections. unfold ids_ok in Hids. rewrite Forall_forall in Hids.
  rewrite !Forall_app. split; [|split; [|split]].
  - apply Forall_fmap, Forall_forall. intros r [_ Hr]%list_elem_of_filter.
    unfold compose. cbn [b_comment b_test blocked_block]. by rewrite chars_in_app, Hids.
  - destruct Hfw as [->|(f & _ & _ & ->)]; by repeat constructor.
  - destruct Hva as [->|(v & b & _ & _ & Hb & ->)]; [constructor|]. constructor; [|constructor].
    unfold vacation_block in Hb. destruct (negb _); [destruct (vacationMIME v); [|done]|]; injection Hb as <-;
      (split; [done|]); apply guards_sizes.
  - apply Forall_forall. intros b (r & Hb & Hr)%list_elem_of_bind.
    apply rule_blocks_spec in Hb as (_ & [[_ ->]|[_ ->]]); cbn [b_comment b_test filter_block never_spam_block];
      rewrite chars_in_app, Hids by done; (split; [done|]); apply criteria_sizes; by intros e [= <-].
Qed.

Lemma compiled_reads s env bs :
  ids_ok s -> compile ToLower sha256 s env = Some bs -> reads (show_blocks bs) (model_redirects s).
Proof.
  intros Hids Hc. rewrite <- (compiled_targets _ _ _ Hc). apply concat_reads.
  eapply Forall_impl; [by eapply compiled_clean|]. intros b [??]. by apply block_reads.
Qed.

Lemma Scan_out s out : Scan s out = match Scan s [] with inr more => inr (out ++ more)%list | inl e => inl e end.
Proof.
  revert out. induction s as [s IH] using (induction_ltof1 _ len). unfold ltof in IH. intros out.
  destruct s as [|c s]; [unfold Scan; cbn; by rewrite app_nil_r|]. rewrite !Scan_step.
  destruct (step (String c s)) as [e|[r f]] eqn:E; [done|]. apply step_len in E.
  assert (len r < len (String c s))%nat as Hl by (simpl; lia).
  rewrite (IH r Hl (out ++ f)%list), (IH r Hl ([] ++ f)%list). destruct (Scan r []); [done|]. by rewrite List.app_assoc.
Qed.

(** C28: the scanner finds in a script generated from rules whose ids have no line break exactly
    the redirects of the model, all of them verified, and then what it finds in the foreign
    section: nothing in the metadata, the quoted values, the comments or the text of a reply
    can hide or forge one. An id with a line break escapes its comment
    ([id_escapes_comment]). *)
Theorem scanner_agrees s env caps text :
  Generate ToLower sha256 s env caps = inr text -> ids_ok s ->
  ScanRedirects text =
    match ScanRedirects (external_text s) with
    | inr more => inr (model_redirects s ++ more)%list
    | inl e => inl e
    end /\
  Forall (fun x => verified ToLower env x = true) (model_redirects s).
Proof.
  intros (meta & bs & Hm & Hc & _ & Hu & ->)%Generate_compiled Hids. split.
  - destruct (meta_shape s meta Hm) as [Hfree [x Hx]].
    assert (reads (header_text meta +:+ require_text s +:+ show_blocks bs) (model_redirects s)) as Hr.
    { apply (reads_app _ _ [] _); [apply header_reads; [done|by rewrite Hx..]|].
      apply (reads_app _ _ [] _); [apply require_reads|]. by eapply compiled_reads. }
    specialize (Hr (external_text s) []). rewrite <- !app_s_assoc in Hr.
    unfold ScanRedirects. fold (Scan (external_text s) []). etrans; [exact Hr|]. apply Scan_out.
  - apply unverified_None in Hu as [Hur Huf]. unfold model_redirects. rewrite Forall_app. split.
    + destruct (sc_ForwardAll s) as [f|]; [|constructor]. destruct (fw_Enabled f) eqn:Ef; repeat constructor.
      by apply (Huf f).
    + apply Forall_forall. intros x (r & Hx & Hr)%list_elem_of_bind. unfold rule_redirects in Hx.
      destruct (ru_Enabled r) eqn:Ee; [|by apply elem_of_nil in Hx]. cbn [andb] in Hx.
      destruct (String.eqb (ru_Type r) RuleFilter); [|by apply elem_of_nil in Hx].
      destruct (String.eqb_spec (ac_Forward (ru_Actions r)) ""); [by apply elem_of_nil in Hx|].
      apply list_elem_of_singleton in Hx as ->. by apply (Hur r).
Qed.
End agree.

Lemma scanner_agrees_witness :
  ScanRedirects (generated sample sample_env) = inr ["dest@example.org"; "dest@example.org"].
Proof.
  destruct (scanner_agrees lower_ascii id sample sample_env None (generated sample sample_env)) as [Hs _].
  - vm_compute. reflexivity.
  - repeat constructor.
  - rewrite Hs. vm_compute. reflexivity.
Defined.

(** C29: the scanner ends on every input, with a list or an error: its fuel is never used up. *)
Theorem scan_total (content : string) : ScanRedirects content <> inl OutOfFuel.
Proof. exact (Scan_done content []). Qed.
