(* ===== verification/SieveManager.v ===== *)
(** The manager of the one managed script (src/internal/sieve/manager.go) over a
    ManageSieve server.

    The server (RFC 5804) is a table of scripts, the name of the active one, and a
    schedule of what happens to the commands: a command is answered, is lost before it
    takes effect, or takes effect and its answer is lost. What scripts the server accepts
    ([accepts]) and has room for ([room]) are parameters. Warnings and log lines are left
    out. *)

From S2P Require Import Prelude Utf8 Text GoStrings GoTime Jmap Json Sieve SieveLang SieveParse.
From Stdlib Require Import Ascii String.
#[local] Open Scope string_scope.
#[local] Open Scope Z_scope.

Inductive fault := Answered | LostBefore | LostAfter.

Record Server := mkServer {
  sv_scripts : gmap string string; sv_active : option string; sv_faults : list fault
}.

Inductive ManagerError :=
| Unavailable | ErrScriptNotFound | ScriptRefused | QuotaRefused
| ReadError (e : ParseError) | GenerateFailed (e : GenerateError).

Abbreviation MS := (M Server ManagerError).

(** One command: its effect on the server and its answer, under the schedule. *)
Definition command {A} (f : Server -> Server * (ManagerError + A)) : MS A := fun w =>
  let rest := mkServer (sv_scripts w) (sv_active w) (tail (sv_faults w)) in
  match sv_faults w with
  | LostBefore :: _ => (rest, inl Unavailable)
  | LostAfter :: _ => ((f rest).1, inl Unavailable)
  | _ => f rest
  end.

Definition ManagedScriptName : string := "moov".
Definition BackupPrefix : string := "moov-backup-".

(** The first [n] runes, when there are more: invalid bytes become U+FFFD. *)
Fixpoint take_runes (n : nat) (copy : nat) (s : string) : string :=
  match s with
  | EmptyString => EmptyString
  | String c r =>
      match copy with
      | S k => String c (take_runes n k r)
      | O =>
          match n with
          | O => EmptyString
          | S n =>
              if is_ascii_byte c then String c (take_runes n 0 r)
              else match multi_width s with
                   | O => replacement +:+ take_runes n 0 r
                   | S w => String c (take_runes n w r)
                   end
          end
      end
  end.
Fixpoint count_runes (skip : nat) (s : string) : nat :=
  match s with
  | EmptyString => 0
  | String c r =>
      match skip with
      | S k => count_runes k r
      | O => S (count_runes (pred (multi_width s)) r)
      end
  end.

(** The name of a safety copy. *)
Definition backupName (name : string) : string :=
  let b := if HasPrefix name BackupPrefix then name else BackupPrefix +:+ name in
  if (128 <? count_runes 0 b)%nat then take_runes 128 0 b else b.

Record ManagedState := mkState {
  ms_Model : Script; ms_Exists : bool; ms_Drifted : bool; ms_ActiveScript : string;
  ms_OursActive : bool; ms_Raw : string
}.

Section manager.
Context (ToLower : string -> string) (sha256 : string -> string).
Context (accepts : string -> bool) (room : gmap string string -> string -> string -> bool).
Context (caps : Capabilities).

(** ** The commands *)

Definition ListScripts : MS (list (string * bool)) :=
  command (fun w => (w, inr ((fun kv => (kv.1, bool_decide (sv_active w = Some kv.1))) <$> map_to_list (sv_scripts w)))).
Definition GetScript (name : string) : MS string :=
  command (fun w => (w, match sv_scripts w !! name with Some c => inr c | None => inl ErrScriptNotFound end)).
Definition CheckScript (content : string) : MS unit :=
  command (fun w => (w, if accepts content then inr tt else inl ScriptRefused)).
Definition PutScript (name content : string) : MS unit :=
  command (fun w =>
    if negb (accepts content) then (w, inl ScriptRefused)
    else if negb (room (sv_scripts w) name content) then (w, inl QuotaRefused)
    else (mkServer (<[name := content]> (sv_scripts w)) (sv_active w) (sv_faults w), inr tt)).
Definition SetActive (name : string) : MS unit :=
  command (fun w =>
    match sv_scripts w !! name with
    | Some _ => (mkServer (sv_scripts w) (Some name) (sv_faults w), inr tt)
    | None => (w, inl ErrScriptNotFound)
    end).

(** ** The manager *)

Definition emptyModel : Script := mkScript MetadataVersion [] None None [] "" "".

(** The loop of Read over the listed scripts. *)
Definition see_script (st : ManagedState) (s : string * bool) : ManagedState :=
  let st := if s.2 then mkState (ms_Model st) (ms_Exists st) (ms_Drifted st) s.1
                          (String.eqb s.1 ManagedScriptName) (ms_Raw st) else st in
  if String.eqb s.1 ManagedScriptName
  then mkState (ms_Model st) true (ms_Drifted st) (ms_ActiveScript st) (ms_OursActive st) (ms_Raw st) else st.

Definition Read (env : GenerateEnv) : MS ManagedState :=
  scripts ← ListScripts;
  let st := foldl see_script (mkState emptyModel false false "" false "") scripts in
  if negb (ms_Exists st) then mret st
  else
    raw ← GetScript ManagedScriptName;
    match ParseManaged ToLower sha256 raw env with
    | inl ErrNotManaged => mret (mkState (ms_Model st) true true (ms_ActiveScript st) (ms_OursActive st) raw)
    | inl e => throw (ReadError e)
    | inr (model, drifted) => mret (mkState model true drifted (ms_ActiveScript st) (ms_OursActive st) raw)
    end.

Definition backup (name content : string) : MS unit := PutScript (backupName name) content.

(** The preservation of what Read found, before the model is pushed: the model with what
    was imported. *)
Definition preserve_own (st : ManagedState) (model : Script) (env : GenerateEnv) : MS Script :=
  if ms_Exists st && ms_Drifted st then
    _ ← backup ManagedScriptName (ms_Raw st);
    match ParseManaged ToLower sha256 (ms_Raw st) env with
    | inl ErrNotManaged => mret (ImportForeign model ManagedScriptName (ms_Raw st))
    | _ => mret model
    end
  else mret model.
Definition preserve_active (st : ManagedState) (model : Script) : MS Script :=
  if negb (String.eqb (ms_ActiveScript st) "") && negb (String.eqb (ms_ActiveScript st) ManagedScriptName) then
    foreign ← GetScript (ms_ActiveScript st);
    _ ← backup (ms_ActiveScript st) foreign;
    mret (ImportForeign model (ms_ActiveScript st) foreign)
  else mret model.

Definition with_version (s : Script) : Script :=
  mkScript MetadataVersion (sc_Rules s) (sc_Vacation s) (sc_ForwardAll s) (sc_ExternalRequires s)
    (sc_ExternalSource s) (sc_ExternalBody s).

Definition Push (model : Script) (env : GenerateEnv) : MS unit :=
  let env := withDefaults env in
  st ← Read env;
  model ← preserve_own st model env;
  model ← preserve_active st model;
  match Generate ToLower sha256 (with_version model) env (Some caps) with
  | inl e => throw (GenerateFailed e)
  | inr content =>
      _ ← CheckScript content;
      _ ← PutScript ManagedScriptName content;
      SetActive ManagedScriptName
  end.
End manager.

(** ** What a push leaves behind *)

Lemma backupName_prefix name : exists y, backupName name = BackupPrefix +:+ y.
Proof.
  unfold backupName.
  assert (exists z, (if HasPrefix name BackupPrefix then name else BackupPrefix +:+ name) = BackupPrefix +:+ z) as [z ->].
  { destruct (HasPrefix name BackupPrefix) eqn:E; [|by eexists]. by apply HasPrefix_true in E. }
  destruct (_ <? _)%nat; [|by eexists]. exists (take_runes 116 0 z). reflexivity.
Qed.
Lemma backupName_not_managed name : backupName name <> ManagedScriptName.
Proof. destruct (backupName_prefix name) as [y ->]. by destruct y. Qed.

Section preserve.
Context (ToLower : string -> string) (sha256 : string -> string).
Context (accepts : string -> bool) (room : gmap string string -> string -> string -> bool).
Context (caps : Capabilities) (env : GenerateEnv).

(** The scripts and the active name before the push. *)
Context (S0 : gmap string string) (A0 : option string).

(** The stored managed script is not what Moov wrote. *)
Definition foreign_edit (raw : string) : Prop :=
  ParseManaged ToLower sha256 raw (withDefaults env) = inl ErrNotManaged \/
  exists model, ParseManaged ToLower sha256 raw (withDefaults env) = inr (model, true).

Definition special (n : string) : Prop :=
  n = ManagedScriptName \/ n = backupName ManagedScriptName \/ exists a, A0 = Some a /\ n = backupName a.
Definition others (T : gmap string string) : Prop := forall n, ~ special n -> T !! n = S0 !! n.
Definition own_safe (T : gmap string string) : Prop :=
  forall raw, S0 !! ManagedScriptName = Some raw -> foreign_edit raw -> T !! backupName ManagedScriptName = Some raw.
Definition act_safe (T : gmap string string) : Prop :=
  forall a c, A0 = Some a -> a <> ManagedScriptName -> S0 !! a = Some c -> T !! backupName a = Some c.

Definition preserved (w : Server) : Prop :=
  others (sv_scripts w) /\ (sv_active w = A0 \/ sv_active w = Some ManagedScriptName) /\
  (sv_scripts w !! ManagedScriptName = S0 !! ManagedScriptName \/ own_safe (sv_scripts w)) /\
  (sv_active w = A0 \/ act_safe (sv_scripts w)).

Lemma wp_command {A} (f : Server -> Server * (ManagerError + A)) Q w :
  (forall fs, Q (mkServer (sv_scripts w) (sv_active w) fs) (inl Unavailable)) ->
  (forall fs, let '(w', r) := f (mkServer (sv_scripts w) (sv_active w) fs) in Q w' (inl Unavailable) /\ Q w' r) ->
  wp (command f) Q w.
Proof.
  intros H0 H1. unfold wp, command. specialize (H1 (tail (sv_faults w))).
  destruct (f _) as [w' r]. destruct H1 as [Hu Hr]. destruct (sv_faults w) as [|[] l]; cbn; auto.
Qed.

(** Commands that change nothing. *)
Lemma wp_read {A} (f : Server -> ManagerError + A) Q w :
  (forall fs r, r = inl Unavailable \/ r = f (mkServer (sv_scripts w) (sv_active w) fs) ->
     Q (mkServer (sv_scripts w) (sv_active w) fs) r) ->
  wp (command (fun w => (w, f w))) Q w.
Proof. intros H. apply wp_command; intros fs; [|split]; auto. Qed.

Lemma wp_PutScript name content Q w :
  (forall fs e, Q (mkServer (sv_scripts w) (sv_active w) fs) (inl e)) ->
  (forall fs e, Q (mkServer (<[name := content]> (sv_scripts w)) (sv_active w) fs) (inl e)) ->
  (forall fs, Q (mkServer (<[name := content]> (sv_scripts w)) (sv_active w) fs) (inr tt)) ->
  wp (PutScript accepts room name content) Q w.
Proof.
  intros H0 H1 H2. apply wp_command; [auto|]. intros fs. cbn. destruct (accepts content); cbn; [|split; auto].
  destruct (room _ _ _); cbn; split; auto.
Qed.

(** What Read learns. *)
Definition learned (st : ManagedState) : Prop :=
  (ms_ActiveScript st = default "" A0) /\
  (ms_Exists st = bool_decide (is_Some (S0 !! ManagedScriptName))) /\
  (forall raw, S0 !! ManagedScriptName = Some raw -> ms_Raw st = raw /\ (foreign_edit raw -> ms_Drifted st = true)).

Lemma see_scripts (l : list string) st :
  let r := foldl see_script st ((fun n => (n, bool_decide (A0 = Some n))) <$> l) in
  ms_ActiveScript r = (match A0 with Some a => if decide (a ∈ l) then a else ms_ActiveScript st | None => ms_ActiveScript st end) /\
  ms_Exists r = ms_Exists st || bool_decide (ManagedScriptName ∈ l) /\
  ms_Drifted r = ms_Drifted st /\ ms_Model r = ms_Model st.
Proof.
  revert st. induction l as [|n l IH]; intros st; cbn [fmap list_fmap foldl].
  { destruct A0 as [a|]; [destruct (decide (a ∈ [])) as [H|]; [by apply elem_of_nil in H|]|];
      rewrite bool_decide_eq_false_2 by (by intros ?%elem_of_nil); by rewrite orb_false_r. }
  destruct (IH (see_script st (n, bool_decide (A0 = Some n)))) as (Ha & He & Hd & Hm).
  cbv zeta. rewrite Ha, He, Hd, Hm. clear IH Ha He Hd Hm. unfold see_script. cbn [fst snd].
  split; [|split; [|split]].
  - destruct A0 as [a|]; [|by destruct (String.eqb n ManagedScriptName)].
    destruct (decide (a ∈ l)) as [Hin|Hin].
    + rewrite decide_True by (by right). done.
    + destruct (decide (a ∈ n :: l)) as [Hc|Hc].
      * apply elem_of_cons in Hc as [->|]; [|done]. rewrite bool_decide_true by done. cbn.
        by destruct (String.eqb n ManagedScriptName).
      * rewrite bool_decide_false by (intros [= ->]; apply Hc; by left). cbn.
        by destruct (String.eqb n ManagedScriptName).
  - destruct (String.eqb_spec n ManagedScriptName) as [->|Hn]; cbn.
    + rewrite (bool_decide_eq_true_2 (_ ∈ _ :: _)) by (by left). by rewrite orb_true_r.
    + assert (bool_decide (ManagedScriptName ∈ n :: l) = bool_decide (ManagedScriptName ∈ l)) as ->.
      { apply bool_decide_ext. rewrite elem_of_cons. naive_solver. }
      by destruct (bool_decide (A0 = Some n)).
  - by destruct (String.eqb n ManagedScriptName), (bool_decide (A0 = Some n)).
  - by destruct (String.eqb n ManagedScriptName), (bool_decide (A0 = Some n)).
Qed.

(** The active script is stored. *)
Context (Hstored : forall a, A0 = Some a -> is_Some (S0 !! a)).

Definition unchanged (w : Server) : Prop := sv_scripts w = S0 /\ sv_active w = A0.

Lemma wp_Read w :
  unchanged w ->
  wp (Read ToLower sha256 (withDefaults env))
    (fun w' r => unchanged w' /\ match r with inr st => learned st | inl _ => True end) w.
Proof.
  intros [HS HA]. unfold Read. apply wp_bind, wp_read. intros fs r [->| ->]; [done|].
  cbn [sv_scripts sv_active]. rewrite HS, HA.
  destruct (see_scripts (map_to_list S0).*1 (mkState emptyModel false false "" false "")) as (Ha & He & Hd & Hm).
  rewrite <- list_fmap_compose in Ha, He, Hd, Hm. unfold compose in *.
  set (st := foldl see_script _ _) in *.
  assert (ms_ActiveScript st = default "" A0) as Hact.
  { rewrite Ha. destruct A0 as [a|] eqn:EA; [|done]. rewrite decide_True; [done|].
    destruct (Hstored a eq_refl) as [c Hc]. apply list_elem_of_fmap. exists (a, c). split; [done|].
    by apply elem_of_map_to_list. }
  assert (ms_Exists st = bool_decide (is_Some (S0 !! ManagedScriptName))) as Hex.
  { rewrite He. cbn. apply bool_decide_ext. split.
    - intros ([n c] & Heq & Hin)%list_elem_of_fmap. cbn in Heq. subst. apply elem_of_map_to_list in Hin. eauto.
    - intros [c Hc]. apply list_elem_of_fmap. exists (ManagedScriptName, c). split; [done|]. by apply elem_of_map_to_list. }
  clearbody st. clear Ha He. apply wp_if; intros Hx.
  - apply wp_ret. split; [done|]. split; [done|]. split; [done|]. intros raw Hraw.
    rewrite Hex, Hraw in Hx. by rewrite bool_decide_eq_true_2 in Hx.
  - apply wp_bind, wp_read. intros fs' r' [->| ->]; [done|]. cbn [sv_scripts sv_active].
    apply negb_false_iff in Hx. rewrite Hex in Hx. apply bool_decide_eq_true in Hx as [raw Hraw].
    rewrite Hraw.
    assert (forall st', ms_ActiveScript st' = ms_ActiveScript st -> ms_Exists st' = true -> ms_Raw st' = raw ->
      (foreign_edit raw -> ms_Drifted st' = true) -> learned st') as Hl.
    { intros st' H1 H2 H3 H4. unfold learned. rewrite H1, H2, Hact, H3. split; [done|].
      split; [by rewrite bool_decide_eq_true_2 by eauto|]. intros raw' Hraw'. rewrite Hraw in Hraw'.
      injection Hraw' as <-. done. }
    destruct (ParseManaged ToLower sha256 raw (withDefaults env)) as [[]|[model drifted]] eqn:Ep.
    + apply wp_ret. split; [done|]. apply Hl; done.
    + by apply wp_throw.
    + by apply wp_throw.
    + by apply wp_throw.
    + apply wp_ret. split; [done|]. apply Hl; try done. cbn. unfold foreign_edit. rewrite Ep.
      intros [?|[m Hm']]; [done|]. by injection Hm'.
Qed.

Context (Hnamed : A0 <> Some "").
(** The safety copy of the active script has a name of its own. *)
Context (Hdistinct : forall a, A0 = Some a -> a <> ManagedScriptName -> backupName a <> backupName ManagedScriptName).

(** [m] is [model] with foreign text imported. *)
Definition keeps (model m : Script) : Prop :=
  sc_Rules m = sc_Rules model /\ sc_Vacation m = sc_Vacation model /\ sc_ForwardAll m = sc_ForwardAll model /\
  exists more, sc_ExternalBody m = sc_ExternalBody model +:+ more.
(** The foreign script is in the external section, or has nothing but requires. *)
Definition imported (content : string) (m : Script) : Prop :=
  (String.eqb (TrimSpace (import_body content)) "" || Contains (sc_ExternalBody m) (import_body content)) = true.

Lemma keeps_model_refl m : keeps m m.
Proof. repeat split. exists "". by rewrite app_s_nil. Qed.
Lemma keeps_model_trans a b c : keeps a b -> keeps b c -> keeps a c.
Proof.
  intros (H1 & H2 & H3 & x & Hx) (H1' & H2' & H3' & y & Hy). repeat split; [congruence..|].
  exists (x +:+ y). by rewrite Hy, Hx, app_s_assoc.
Qed.
Lemma keeps_import m name content : keeps m (ImportForeign m name content) /\ imported content (ImportForeign m name content).
Proof.
  unfold keeps, imported, import_body, ImportForeign. destruct (splitRequires content) as [q b].
  cbn [fst snd sc_Rules sc_Vacation sc_ForwardAll sc_ExternalBody]. repeat split; [apply import_external_prefix|apply import_external_has].
Qed.

Definition stage1 (w : Server) : Prop :=
  sv_active w = A0 /\ others (sv_scripts w) /\ own_safe (sv_scripts w) /\
  sv_scripts w !! ManagedScriptName = S0 !! ManagedScriptName /\
  (forall a, A0 = Some a -> a <> ManagedScriptName -> sv_scripts w !! a = S0 !! a).
Definition stage2 (w : Server) : Prop :=
  sv_active w = A0 /\ others (sv_scripts w) /\ own_safe (sv_scripts w) /\ act_safe (sv_scripts w) /\
  sv_scripts w !! ManagedScriptName = S0 !! ManagedScriptName.

Lemma unchanged_preserved w : unchanged w -> preserved w.
Proof. intros [HS HA]. unfold preserved, others. rewrite HS, HA. auto. Qed.
Lemma stage1_preserved w : stage1 w -> preserved w.
Proof. intros (HA & Ho & _ & Hm & _). unfold preserved. auto. Qed.

Lemma backup_stage1 w raw fs :
  unchanged w -> S0 !! ManagedScriptName = Some raw ->
  stage1 (mkServer (<[backupName ManagedScriptName := raw]> (sv_scripts w)) (sv_active w) fs).
Proof.
  intros [-> ->] Hraw. unfold stage1. cbn [sv_scripts sv_active]. split; [done|]. split; [|split; [|split]].
  - intros n Hn. apply lookup_insert_ne. intros <-. apply Hn. right. by left.
  - intros raw' Hr _. rewrite lookup_insert_eq. congruence.
  - apply lookup_insert_ne, backupName_not_managed.
  - intros a Ha Hne. apply lookup_insert_ne. intros <-. by apply (Hdistinct _ Ha Hne).
Qed.

Lemma wp_preserve_own w st model :
  unchanged w -> learned st ->
  wp (preserve_own ToLower sha256 accepts room st model (withDefaults env))
    (fun w' r => match r with inr m => stage1 w' /\ keeps model m | inl _ => preserved w' end) w.
Proof.
  intros Hw (_ & Hex & Hraw). unfold preserve_own. apply wp_if; intros Hd.
  - apply andb_prop in Hd as [He Hd]. rewrite Hex in He. apply bool_decide_eq_true in He as [raw Hr].
    destruct (Hraw raw Hr) as [-> _].
    apply wp_bind, wp_PutScript.
    + intros fs e. apply unchanged_preserved. by destruct Hw as [-> ->].
    + intros fs e. by apply stage1_preserved, backup_stage1.
    + intros fs. pose proof (backup_stage1 w raw fs Hw Hr).
      destruct (ParseManaged _ _ _ _) as [[]|]; apply wp_ret; (split; [done|]); try apply keeps_model_refl.
      apply keeps_import.
  - apply wp_ret. split; [|apply keeps_model_refl]. destruct Hw as [HS HA]. unfold stage1, others. rewrite HS, HA.
    split; [done|]. split; [done|]. split; [|done]. intros raw Hr Hf. destruct (Hraw raw Hr) as [_ Hdr].
    rewrite Hdr, andb_true_r, Hex, Hr, bool_decide_eq_true_2 in Hd by done. done.
Qed.

Lemma wp_preserve_active w st model :
  stage1 w -> learned st ->
  wp (preserve_active accepts room st model)
    (fun w' r => match r with
      | inr m => stage2 w' /\ keeps model m /\
                 (forall a c, A0 = Some a -> a <> ManagedScriptName -> S0 !! a = Some c -> imported c m)
      | inl _ => preserved w' end) w.
Proof.
  intros Hw (Hact & _ & _). unfold preserve_active. rewrite Hact. pose proof Hw as (HA & Ho & Hown & Hm & Ha).
  assert (forall fs, preserved (mkServer (sv_scripts w) (sv_active w) fs)) as Hp.
  { intros fs. apply stage1_preserved in Hw. done. }
  apply wp_if; intros Hd.
  - apply andb_prop in Hd as [H1 H2]. assert (exists a, A0 = Some a) as [a Ea] by (destruct A0; [eauto|done]).
    rewrite Ea in H2 |- *. cbn [default] in *. change (id a) with a in *. apply negb_true_iff, String.eqb_neq in H2.
    destruct (Hstored a Ea) as [c Hc].
    apply wp_bind, wp_read. intros fs r [->| ->]; [done|]. cbn [sv_scripts sv_active].
    rewrite (Ha a Ea H2), Hc.
    assert (forall fs, stage2 (mkServer (<[backupName a := c]> (sv_scripts w)) (sv_active w) fs)) as Hs2.
    { intros fs'. unfold stage2. cbn [sv_scripts sv_active]. split; [done|]. split; [|split; [|split]].
      - intros n Hn. rewrite lookup_insert_ne; [by apply Ho|]. intros <-. apply Hn. right. right. eauto.
      - intros raw Hr Hf. rewrite lookup_insert_ne by (by apply Hdistinct). by apply Hown.
      - intros a' c' Ea' _ Hc'. rewrite Ea in Ea'. injection Ea' as <-. rewrite lookup_insert_eq. congruence.
      - rewrite lookup_insert_ne; [done|apply backupName_not_managed]. }
    apply wp_bind, wp_PutScript; cbn [sv_scripts sv_active].
    + auto.
    + intros fs' e. destruct (Hs2 fs') as (? & ? & ? & ? & ?). unfold preserved. auto.
    + intros fs'. apply wp_ret. split; [done|]. split; [apply keeps_import|].
      intros a' c' Ea' _ Hc'. assert (c' = c) as -> by congruence. apply keeps_import.
  - assert (forall a, A0 = Some a -> a <> ManagedScriptName -> False) as Hno.
    { intros a Ea Hne. rewrite Ea in Hd. cbn in Hd. change (id a) with a in Hd.
      rewrite (proj2 (String.eqb_neq a "")), (proj2 (String.eqb_neq a ManagedScriptName)) in Hd by congruence. done. }
    apply wp_ret. split; [|split; [apply keeps_model_refl|intros a c Ea Hne; by destruct (Hno a)]].
    unfold stage2. split; [done|]. split; [done|]. split; [done|]. split; [|done].
    intros a c Ea Hne. by destruct (Hno a).
Qed.

Lemma wp_push_end w content :
  stage2 w -> wp (_ ← CheckScript accepts content; _ ← PutScript accepts room ManagedScriptName content;
                  SetActive ManagedScriptName)
    (fun w' r => preserved w' /\ (r = inr tt -> sv_active w' = Some ManagedScriptName /\
                                   sv_scripts w' !! ManagedScriptName = Some content)) w.
Proof.
  intros (HA & Ho & Hown & Hact & Hm).
  assert (forall fs T act, T = sv_scripts w \/ T = <[ManagedScriptName := content]> (sv_scripts w) ->
    (act = A0 \/ act = Some ManagedScriptName) -> preserved (mkServer T act fs)) as Hp.
  { intros fs T act [->| ->] Hc; unfold preserved; cbn [sv_scripts sv_active]; (split; [|split; [done|]]).
    - done.
    - auto.
    - intros n Hn. rewrite lookup_insert_ne; [by apply Ho|]. intros <-. apply Hn. by left.
    - split; right.
      + intros raw Hr Hf. rewrite lookup_insert_ne; [by apply Hown|]. apply not_eq_sym, backupName_not_managed.
      + intros a c Ha Hne Hc'. rewrite lookup_insert_ne; [by apply Hact|]. apply not_eq_sym, backupName_not_managed. }
  apply wp_bind, wp_read. intros fs r Hr. cbn [sv_scripts sv_active]. rewrite HA.
  assert (preserved (mkServer (sv_scripts w) A0 fs)) as Hp0 by auto.
  destruct Hr as [->| ->]; [done|]. destruct (accepts content) eqn:Eacc; [|done].
  apply wp_bind, wp_PutScript; cbn [sv_scripts sv_active].
  - intros fs' e. split; [auto|done].
  - intros fs' e. split; [auto|done].
  - intros fs'. apply wp_command; cbn [sv_scripts sv_active]; [intros; split; [auto|done]|].
    intros fs''. rewrite lookup_insert_eq. cbn. split; (split; [auto|]); [done|]. by rewrite lookup_insert_eq.
Qed.

(** A finished push: the managed script is the text of the model and of what was running. *)
Definition taken_over (model : Script) (w : Server) : Prop :=
  sv_active w = Some ManagedScriptName /\
  exists m content, sv_scripts w !! ManagedScriptName = Some content /\
    Generate ToLower sha256 (with_version m) (withDefaults env) (Some caps) = inr content /\ keeps model m /\
    (forall a c, A0 = Some a -> a <> ManagedScriptName -> S0 !! a = Some c -> imported c m).

Lemma wp_Push w model :
  unchanged w -> wp (Push ToLower sha256 accepts room caps model env)
    (fun w' r => preserved w' /\ (r = inr tt -> taken_over model w')) w.
Proof.
  intros Hw. unfold Push. cbv zeta. apply wp_bind. eapply wp_mono; [by apply wp_Read|].
  intros w1 [e|st] [Hw1 Hst]; [split; [by apply unchanged_preserved|done]|].
  apply wp_bind. eapply wp_mono; [by apply wp_preserve_own|]. intros w2 [e|m2] H2; [done|]. destruct H2 as [H2 K2].
  apply wp_bind. eapply wp_mono; [by apply wp_preserve_active|]. intros w3 [e|m3] H3; [done|]. destruct H3 as (H3 & K3 & Him).
  destruct (Generate _ _ _ _ _) as [e|content] eqn:EG.
  - apply wp_throw. split; [|done]. destruct H3 as (? & ? & ? & ? & ?). unfold preserved. auto.
  - eapply wp_mono; [by apply wp_push_end|]. intros w4 r [Hp Hr]. split; [done|]. intros Hok.
    destruct (Hr Hok) as [Ha Hs]. split; [done|]. exists m3, content. split; [done|]. split; [done|].
    split; [by eapply keeps_model_trans|done].
Qed.
End preserve.


(** ** A concrete server *)

Definition all_caps : Capabilities :=
  mkCaps ["copy"; "date"; "envelope"; "fileinto"; "imap4flags"; "mime"; "regex"; "relational"; "vacation"].
Definition any_script (_ : string) : bool := true.
Definition any_room (_ : gmap string string) (_ _ : string) : bool := true.
Definition push_sample (w : Server) : Server * (ManagerError + unit) :=
  Push lower_ascii id any_script any_room all_caps sample sample_env w.

Definition sogo_text : string := dq "fileinto 'Urgent';" +:+ crlf.
Definition hand_text : string := dq "redirect 'me@home.example';" +:+ crlf.
Definition sogo_server (faults : list fault) : Server :=
  mkServer {["moov" := hand_text; "sogo" := sogo_text]} (Some "sogo") faults.


Example push_copies :
  let w := (push_sample (sogo_server [])).1 in
  sv_scripts w !! "moov-backup-moov" = Some hand_text /\ sv_scripts w !! "moov-backup-sogo" = Some sogo_text /\
  sv_scripts w !! "sogo" = Some sogo_text /\ sv_active w = Some "moov".
Proof. vm_compute. done. Qed.

(** When the active script is the safety copy of the managed one, a drift of the managed
    one overwrites it before it is read: its text is in no script afterwards. *)
Example active_copy_destroyed :
  let w := (push_sample (mkServer {["moov" := hand_text; "moov-backup-moov" := sogo_text]}
                           (Some "moov-backup-moov") [])).1 in
  sv_active w = Some "moov" /\
  forallb (fun kv => negb (Contains kv.2 "Urgent")) (map_to_list (sv_scripts w)) = true.
Proof. vm_compute. done. Qed.
