(* ===== verification/Transmission.v ===== *)
(** Preparing a draft for transmission (submit/message.go): line endings, the removal of
    blind recipients, and the headers a foreign draft may lack. Bytes are strings. *)

From S2P Require Import Prelude Text GoStrings GoTime.
From Stdlib Require Import Ascii String.
#[local] Open Scope string_scope.
#[local] Open Scope Z_scope.

Definition CR : ascii := "013".
Definition LF : ascii := "010".
Definition eol : string := String CR (String LF EmptyString).
Definition is_wsp (c : ascii) : bool := Ascii.eqb c " " || Ascii.eqb c "009".

(** ** Line endings *)

(** The first loop of [normalizeCRLF]: every line feed follows a carriage return
    ([after]) and every carriage return is followed by a line feed. *)
Fixpoint is_crlf (after : bool) (raw : string) : bool :=
  match raw with
  | EmptyString => true
  | String c r =>
      if Ascii.eqb c LF then after && is_crlf false r
      else if Ascii.eqb c CR then
        match r with String d _ => Ascii.eqb d LF | EmptyString => false end && is_crlf true r
      else is_crlf false r
  end.

(** The second loop. *)
Fixpoint to_crlf (raw : string) : string :=
  match raw with
  | EmptyString => EmptyString
  | String c r =>
      if Ascii.eqb c CR then
        match r with
        | String d r' => if Ascii.eqb d LF then eol +:+ to_crlf r' else eol +:+ to_crlf r
        | EmptyString => eol
        end
      else if Ascii.eqb c LF then eol +:+ to_crlf r
      else String c (to_crlf r)
  end.
Definition normalizeCRLF (raw : string) : string := if is_crlf false raw then raw else to_crlf raw.

(** ** Header blocks *)

(** The body is [None] when there is no blank line. *)
Definition splitHeaderBody (raw : string) : string * option string :=
  match Index raw (eol +:+ eol) with
  | Some i => (take_s (i + 2) raw, Some (drop_s (i + 4) raw))
  | None => (raw, None)
  end.

(** Lines, each with its terminator. *)
Fixpoint splitLines (b : string) : list string :=
  match b with
  | EmptyString => []
  | String c r =>
      if Ascii.eqb c LF then String c EmptyString :: splitLines r
      else match splitLines r with
           | [] => [String c EmptyString]
           | l :: ls => String c l :: ls
           end
  end.

(** [strings.EqualFold] of a string and an ASCII string of its length: any other rune
    that folds to an ASCII letter is longer than it. *)
Definition cutFold (b prefix : string) : option string :=
  if (String.length b <? String.length prefix)%nat then None
  else if String.eqb (lower_ascii (take_s (String.length prefix) b)) (lower_ascii prefix)
       then Some (drop_s (String.length prefix) b) else None.
Fixpoint trim_wsp (s : string) : string :=
  match s with
  | EmptyString => EmptyString
  | String c r => if is_wsp c then trim_wsp r else s
  end.
Definition starts_with (P : ascii -> bool) (s : string) : bool :=
  match s with String c _ => P c | EmptyString => false end.
Definition isHeaderNamed (line name : string) : bool :=
  match cutFold line name with
  | Some rest => starts_with (fun c => Ascii.eqb c ":") (trim_wsp rest)
  | None => false
  end.

(** The loop of [stripHeader] over the lines of the header. *)
Fixpoint strip_lines (name : string) (skipping : bool) (lines : list string) : string :=
  match lines with
  | [] => EmptyString
  | line :: lines =>
      if starts_with is_wsp line then (if skipping then "" else line) +:+ strip_lines name skipping lines
      else if isHeaderNamed line name then strip_lines name true lines
      else line +:+ strip_lines name false lines
  end.
Definition stripHeader (raw name : string) : string :=
  let '(header, body) := splitHeaderBody raw in
  strip_lines name false (splitLines header) +:+
  match body with Some b => eol +:+ b | None => "" end.

Definition is_break (c : ascii) : bool := Ascii.eqb c CR || Ascii.eqb c LF.

(** The continuation lines of a field. *)
Fixpoint unfold_value (value : string) (lines : list string) : string :=
  match lines with
  | next :: lines =>
      if starts_with is_wsp next
      then unfold_value (value +:+ " " +:+ TrimSpace (TrimRight is_break next)) lines else value
  | [] => value
  end.
Fixpoint header_from (lines : list string) (name : string) : string :=
  match lines with
  | [] => ""
  | line :: lines =>
      if isHeaderNamed line name then
        let v := match Cut ":" line with Some (_, v) => v | None => "" end in
        TrimSpace (unfold_value (TrimRight is_break v) lines)
      else header_from lines name
  end.
Definition headerValue (header name : string) : string := header_from (splitLines header) name.
Definition HeaderValue (raw name : string) : string :=
  headerValue (splitHeaderBody (normalizeCRLF raw)).1 name.

Definition MessageIDOf (raw : string) : string :=
  let v := TrimSpace (HeaderValue raw "Message-ID") in
  TrimSpace (TrimSuffix (TrimPrefix v "<") ">").

(** ** The transmitted bytes *)

Definition weekdays : list string := ["Sun"; "Mon"; "Tue"; "Wed"; "Thu"; "Fri"; "Sat"].
Definition months : list string :=
  ["Jan"; "Feb"; "Mar"; "Apr"; "May"; "Jun"; "Jul"; "Aug"; "Sep"; "Oct"; "Nov"; "Dec"].
(** [t.Format("Mon, 02 Jan 2006 15:04:05 +0000")]; the zone is literal text. *)
Definition rfc5322Date (t : Time) : string :=
  let '(y, m, d) := civil_of_days (local_days t) in
  default "" (weekdays !! Z.to_nat ((local_days t + 4) mod 7)) +:+ ", " +:+ appendInt d 2 +:+ " " +:+
  default "" (months !! Z.to_nat (m - 1)) +:+ " " +:+ appendInt y 4 +:+ " " +:+ format_clock t +:+ " +0000".

Definition message_id_line (messageID : string) : string := "Message-ID: <" +:+ messageID +:+ ">" +:+ eol.
Definition date_line (t : Time) : string := "Date: " +:+ rfc5322Date (UTC t) +:+ eol.

Definition PrepareTransmission (raw messageID : string) (createdAt : Time) : string :=
  let out := stripHeader (normalizeCRLF raw) "Bcc" in
  let header := (splitHeaderBody out).1 in
  let add :=
    (if String.eqb (headerValue header "Message-ID") "" && negb (String.eqb messageID "")
     then message_id_line messageID else "") +:+
    (if String.eqb (headerValue header "Date") "" then date_line createdAt else "") in
  add +:+ out.

(** [NewMessageID], with 16 bytes of entropy as hexadecimal text or an error. *)
Definition NewMessageID (random : option string) (accountEmail : string) : option string :=
  hex ← random;
  let domain := match Cut "@" accountEmail with
                | Some (_, d) => if String.eqb d "" then "moov.invalid" else d
                | None => "moov.invalid"
                end in
  Some (hex +:+ ".moov@" +:+ domain).

(** ** On concrete drafts *)

(** A draft written with bare line feeds by another client. *)
Definition lf_draft : string :=
  "From: a@x.example" +:+ String LF ("bcc : hidden@x.example," +:+ String LF (" more@x.example" +:+ String LF
  ("To: b@x.example" +:+ String LF (String LF ("Bcc: in the body" +:+ String LF ""))))).
Example prepared_draft :
  PrepareTransmission lf_draft "m1@x.example" (mkTime 1767225600 0 0) =
  "Message-ID: <m1@x.example>" +:+ eol +:+ "Date: Thu, 01 Jan 2026 00:00:00 +0000" +:+ eol +:+
  "From: a@x.example" +:+ eol +:+ "To: b@x.example" +:+ eol +:+ eol +:+ "Bcc: in the body" +:+ eol.
Proof. vm_compute. reflexivity. Qed.

(** A carriage return in front of a line break counts as a break of its own: the header
    ends there, and the blind recipients travel in the body. *)
Example doubled_return_leaks_bcc :
  PrepareTransmission ("From: a@x.example" +:+ String CR eol +:+ "Bcc: hidden@x.example" +:+ eol +:+ eol +:+ "text")
    "m1@x.example" (mkTime 1767225600 0 0) =
  "Message-ID: <m1@x.example>" +:+ eol +:+ "Date: Thu, 01 Jan 2026 00:00:00 +0000" +:+ eol +:+
  "From: a@x.example" +:+ eol +:+ eol +:+ "Bcc: hidden@x.example" +:+ eol +:+ eol +:+ "text".
Proof. vm_compute. reflexivity. Qed.

(** ** Lines without their terminators *)

Definition no_break (s : string) : Prop := chars_in (fun c => negb (is_break c)) s = true.

(** The text of some terminated lines and a rest. *)
Fixpoint text (xs : list string) (rest : string) : string :=
  match xs with
  | [] => rest
  | x :: xs => x +:+ eol +:+ text xs rest
  end.

Lemma no_break_cons c s : no_break (String c s) <-> is_break c = false /\ no_break s.
Proof. unfold no_break. cbn. rewrite andb_true_iff, negb_true_iff. done. Qed.
Lemma is_break_false c : is_break c = false <-> Ascii.eqb c CR = false /\ Ascii.eqb c LF = false.
Proof. apply orb_false_iff. Qed.

Lemma text_app xs ys rest : text (xs ++ ys)%list rest = text xs (text ys rest).
Proof. induction xs as [|x xs IH]; [done|]. cbn. by rewrite IH. Qed.
Lemma text_rest xs rest : text xs rest = text xs "" +:+ rest.
Proof. induction xs as [|x xs IH]; [done|]. cbn [text]. by rewrite IH, <- !app_s_assoc. Qed.

(** What [to_crlf] writes is made of lines. *)
Lemma to_crlf_text raw : exists xs rest, to_crlf raw = text xs rest /\ Forall no_break xs /\ no_break rest.
Proof.
  assert (forall n raw, (String.length raw <= n)%nat ->
    exists xs rest, to_crlf raw = text xs rest /\ Forall no_break xs /\ no_break rest) as H; [|by eapply H].
  clear raw. intros n. induction n as [|n IH]; intros [|c r]; cbn [String.length]; intros Hn;
    [by exists [], ""|lia|by exists [], ""|].
  cbn [to_crlf]. destruct (Ascii.eqb c CR) eqn:Ec.
  - destruct r as [|d r']; [exists [""], ""; repeat constructor|]. cbn in Hn. destruct (Ascii.eqb d LF).
    + destruct (IH r') as (xs & rest & -> & H & Hr); [lia|]. exists ("" :: xs), rest. split; [done|]. split; [by constructor|done].
    + destruct (IH (String d r')) as (xs & rest & -> & H & Hr); [cbn; lia|]. exists ("" :: xs), rest. split; [done|].
      split; [by constructor|done].
  - destruct (IH r) as (xs & rest & -> & H & Hr); [lia|]. destruct (Ascii.eqb c LF) eqn:El.
    + exists ("" :: xs), rest. split; [done|]. split; [by constructor|done].
    + assert (is_break c = false) as Hb by (unfold is_break; by rewrite Ec, El).
      destruct xs as [|x xs]; cbn.
      * exists [], (String c rest). split; [done|]. split; [done|]. by apply no_break_cons.
      * inversion H; subst. exists (String c x :: xs), rest. split; [done|]. split; [|done].
        constructor; [by apply no_break_cons|done].
Qed.

(** The shortcut of [normalizeCRLF] changes nothing. *)
Lemma to_crlf_id raw : is_crlf false raw = true -> to_crlf raw = raw.
Proof.
  assert (forall n raw, (String.length raw <= n)%nat -> is_crlf false raw = true -> to_crlf raw = raw) as H; [|by eapply H].
  clear raw. intros n. induction n as [|n IH]; intros [|c r]; cbn [String.length]; intros Hn; try done; [lia|].
  cbn [is_crlf to_crlf]. destruct (Ascii.eqb c LF) eqn:El; [done|]. destruct (Ascii.eqb c CR) eqn:Ec.
  - destruct r as [|d r]; [done|]. destruct (Ascii.eqb d LF) eqn:Ed; [|done]. cbn. rewrite Ed.
    intros H. apply Ascii.eqb_eq in Ec as ->, Ed as ->. unfold eol. rewrite !app_s_cons, app_s_empty.
    by rewrite IH by (done || cbn in Hn; lia).
  - intros H. by rewrite IH by (done || lia).
Qed.
Lemma normalize_eq raw : normalizeCRLF raw = to_crlf raw.
Proof. unfold normalizeCRLF. destruct (is_crlf false raw) eqn:E; [by rewrite to_crlf_id|done]. Qed.
Lemma normalize_text raw : exists xs rest, normalizeCRLF raw = text xs rest /\ Forall no_break xs /\ no_break rest.
Proof. rewrite normalize_eq. apply to_crlf_text. Qed.

Lemma splitLines_line x s : no_break x -> splitLines (x +:+ eol +:+ s) = (x +:+ eol) :: splitLines s.
Proof.
  induction x as [|c x IH]; intros H; [done|].
  apply no_break_cons in H as [Hc H]. apply is_break_false in Hc as [_ Hc]. rewrite !app_s_cons. cbn [splitLines].
  by rewrite Hc, IH.
Qed.
Definition last_line (rest : string) : list string := if String.eqb rest "" then [] else [rest].
Lemma splitLines_rest rest : no_break rest -> splitLines rest = last_line rest.
Proof.
  induction rest as [|c x IH]; intros H; [done|].
  apply no_break_cons in H as [Hc H]. apply is_break_false in Hc as [_ Hc]. cbn [splitLines].
  rewrite Hc, IH by done. unfold last_line. by destruct x.
Qed.
Definition ended (x : string) : string := x +:+ eol.
Lemma splitLines_text xs rest :
  Forall no_break xs -> no_break rest -> splitLines (text xs rest) = ((ended <$> xs) ++ last_line rest)%list.
Proof.
  intros H Hr. induction H as [|x xs Hx H IH]; [by apply splitLines_rest|].
  cbn [text]. rewrite splitLines_line by done. by rewrite IH.
Qed.

(** ** Where the header ends *)

Lemma HasPrefix_head c r p : Ascii.eqb c CR = false -> HasPrefix (String c r) (eol +:+ p) = false.
Proof. intros H. change (eol +:+ p) with (String CR (String LF p)). cbn [HasPrefix]. by rewrite Ascii.eqb_sym, H. Qed.
Lemma starts_break_text xs rest : no_break rest -> Forall no_break xs ->
  HasPrefix (text xs rest) (eol +:+ "") = match xs with x :: _ => String.eqb x "" | [] => false end.
Proof.
  intros Hr Hx. destruct Hx as [|x xs Hx _]; cbn [text].
  - destruct rest as [|c r]; [done|]. apply no_break_cons in Hr as [Hc _]. apply is_break_false in Hc as [Hc _].
    by apply HasPrefix_head.
  - destruct x as [|c x]; [done|]. apply no_break_cons in Hx as [Hc _]. apply is_break_false in Hc as [Hc _].
    by apply HasPrefix_head.
Qed.

(** Searching the blank line passes over a line that is not followed by one. *)
Lemma Index_line x s : no_break x ->
  Index (x +:+ eol +:+ s) (eol +:+ eol) =
  if HasPrefix s (eol +:+ "") then Some (String.length x) else (fun n => String.length x + 2 + n)%nat <$> Index s (eol +:+ eol).
Proof.
  induction x as [|c x IH]; intros H.
  - rewrite app_s_empty. unfold eol at 1. rewrite !app_s_cons, app_s_empty.
    assert (forall t, HasPrefix (String CR (String LF t)) (eol +:+ eol) = HasPrefix t (eol +:+ "")) as Hp by done.
    cbn [Index]. rewrite Hp. destruct (HasPrefix s (eol +:+ "")); [done|].
    assert (HasPrefix (String LF s) (eol +:+ eol) = false) as -> by done.
    destruct (Index s _); done.
  - apply no_break_cons in H as [Hc H]. apply is_break_false in Hc as [Hc _]. rewrite app_s_cons. cbn [Index].
    assert (HasPrefix (String c (x +:+ eol +:+ s)) (eol +:+ eol) = false) as ->.
    { by apply HasPrefix_head. }
    rewrite IH by done. destruct (HasPrefix s (eol +:+ "")); [done|]. by destruct (Index s _).
Qed.
Lemma Index_rest rest : no_break rest -> Index rest (eol +:+ eol) = None.
Proof.
  induction rest as [|c r IH]; intros H; [done|]. apply no_break_cons in H as [Hc H].
  apply is_break_false in Hc as [Hc _]. cbn [Index].
  rewrite HasPrefix_head by done. by rewrite (IH H).
Qed.

Definition nonempty (x : string) : Prop := x <> "".

Lemma take_line n x s : take_s (String.length x + 2 + n) (x +:+ eol +:+ s) = x +:+ eol +:+ take_s n s.
Proof. induction x as [|c x IH]; [done|]. rewrite app_s_cons. cbn. by rewrite IH. Qed.
Lemma drop_line n x s : drop_s (String.length x + 2 + n) (x +:+ eol +:+ s) = drop_s n s.
Proof. induction x as [|c x IH]; [done|]. rewrite app_s_cons. cbn. by rewrite IH. Qed.
Lemma take_0 s : take_s 0 s = "".
Proof. by destruct s. Qed.
Lemma drop_0 s : drop_s 0 s = s.
Proof. by destruct s. Qed.

(** With a blank line after the first line. *)
Lemma split_blank x a b rest :
  Forall no_break (x :: a ++ b)%list -> Forall nonempty a -> no_break rest ->
  splitHeaderBody (text (x :: a ++ "" :: b)%list rest) = (text (x :: a)%list "", Some (text b rest)).
Proof.
  intros Hall Ha Hr. unfold splitHeaderBody.
  assert (exists i, Index (text (x :: a ++ "" :: b)%list rest) (eol +:+ eol) = Some i /\
    take_s (i + 2) (text (x :: a ++ "" :: b)%list rest) = text (x :: a)%list "" /\
    drop_s (i + 4) (text (x :: a ++ "" :: b)%list rest) = text b rest) as (i & -> & -> & ->); [|done].
  revert x Hall. induction Ha as [|y a Hy Ha IH]; intros x Hall; inversion Hall as [|? ? Hx Hall']; subst.
  - cbn [app text]. exists (String.length x). rewrite Index_line by done. cbn. split; [done|].
    pose proof (take_line 0 x (eol +:+ text b rest)) as Ht. pose proof (drop_line 2 x (eol +:+ text b rest)) as Hd.
    rewrite Nat.add_0_r in Ht. rewrite app_s_empty, Ht, take_0. split; [done|].
    by rewrite <- Nat.add_assoc in Hd.
  - destruct (IH y Hall') as (i & Hi & Ht & Hd). cbn [app text] in Hi, Ht, Hd |- *.
    exists (String.length x + 2 + i)%nat. rewrite Index_line by done.
    assert (HasPrefix (y +:+ eol +:+ text (a ++ "" :: b)%list rest) (eol +:+ "") = false) as ->.
    { inversion Hall'; subst. pose proof (starts_break_text [y] (text (a ++ "" :: b)%list rest)) as Hs.
      destruct y as [|c y]; [done|]. apply no_break_cons in H1 as [Hc _]. apply is_break_false in Hc as [Hc _].
      by apply HasPrefix_head. }
    rewrite Hi. split; [done|].
    rewrite <- !Nat.add_assoc, (Nat.add_assoc (String.length x)), take_line.
    rewrite (Nat.add_assoc (String.length x)), drop_line. rewrite Ht, Hd. done.
Qed.
Lemma split_none xs rest :
  Forall no_break xs -> Forall nonempty (tail xs) -> no_break rest ->
  splitHeaderBody (text xs rest) = (text xs rest, None).
Proof.
  intros Hall Hne Hr. unfold splitHeaderBody. assert (Index (text xs rest) (eol +:+ eol) = None) as ->; [|done].
  induction Hall as [|x xs Hx Hall IH]; [by apply Index_rest|]. cbn in Hne. cbn [text].
  rewrite Index_line by done. rewrite starts_break_text by done.
  destruct xs as [|y xs]; cbn in Hne; [by rewrite IH|]. inversion Hne as [|? ? Hy Hne']; subst.
  destruct (String.eqb y "") eqn:Ey; [by apply String.eqb_eq in Ey|]. by rewrite IH.
Qed.

(** ** Stripping a field, line by line *)

Fixpoint strip_list (name : string) (skipping : bool) (lines : list string) : list string :=
  match lines with
  | [] => []
  | line :: lines =>
      if starts_with is_wsp line then
        if skipping then strip_list name skipping lines else line :: strip_list name skipping lines
      else if isHeaderNamed line name then strip_list name true lines
      else line :: strip_list name false lines
  end.
Fixpoint concat_lines (l : list string) : string :=
  match l with [] => "" | x :: l => x +:+ concat_lines l end.

Lemma strip_lines_list name sk ls : strip_lines name sk ls = concat_lines (strip_list name sk ls).
Proof.
  revert sk. induction ls as [|l ls IH]; intros sk; [done|]. cbn.
  destruct (starts_with is_wsp l); [destruct sk; cbn; by rewrite IH|]. destruct (isHeaderNamed l name); cbn; by rewrite IH.
Qed.
Lemma strip_list_sub name sk ls y : y ∈ strip_list name sk ls -> y ∈ ls.
Proof.
  revert sk. induction ls as [|l ls IH]; intros sk; [done|]. cbn.
  destruct (starts_with is_wsp l); [destruct sk|destruct (isHeaderNamed l name)];
    rewrite ?elem_of_cons; naive_solver.
Qed.
Lemma strip_list_ended name sk xs : exists ys, strip_list name sk (ended <$> xs) = ended <$> ys /\ forall y, y ∈ ys -> y ∈ xs.
Proof.
  revert sk. induction xs as [|x xs IH]; intros sk; [by exists []|]. rewrite fmap_cons. cbn [strip_list].
  assert (forall sk, exists ys, ended x :: strip_list name sk (ended <$> xs) = ended <$> ys /\ forall y, y ∈ ys -> y ∈ x :: xs) as Hk.
  { intros sk'. destruct (IH sk') as (ys & -> & H). exists (x :: ys). split; [done|]. intros y.
    rewrite !elem_of_cons. naive_solver. }
  assert (forall sk, exists ys, strip_list name sk (ended <$> xs) = ended <$> ys /\ forall y, y ∈ ys -> y ∈ x :: xs) as Hd.
  { intros sk'. destruct (IH sk') as (ys & -> & H). exists ys. split; [done|]. intros y. rewrite elem_of_cons. naive_solver. }
  destruct (starts_with is_wsp _); [destruct sk; auto|]. destruct (isHeaderNamed _ name); auto.
Qed.
Lemma concat_ended ys rest : concat_lines (ended <$> ys) +:+ rest = text ys rest.
Proof.
  induction ys as [|y ys IH]; [done|]. rewrite fmap_cons. cbn [concat_lines text].
  unfold ended at 1. rewrite <- !app_s_assoc. by rewrite IH.
Qed.
Lemma strip_list_app name sk xs ys :
  exists sk', strip_list name sk (xs ++ ys) = (strip_list name sk xs ++ strip_list name sk' ys)%list.
Proof.
  revert sk. induction xs as [|x xs IH]; intros sk; [by exists sk|]. cbn [app strip_list].
  destruct (starts_with is_wsp x).
  - destruct (IH sk) as [sk' ->]. exists sk'. by destruct sk.
  - destruct (isHeaderNamed x name); [destruct (IH true) as [sk' ->]|destruct (IH false) as [sk' ->]]; by exists sk'.
Qed.

(** A line with a field name starts with its first letter. *)
Lemma named_head line c n : isHeaderNamed line (String c n) = true ->
  exists d r, line = String d r /\ lower_byte d = lower_byte c.
Proof.
  unfold isHeaderNamed, cutFold. destruct line as [|d r]; [done|]. destruct (_ <? _)%nat; [done|].
  cbn [take_s String.length lower_ascii]. destruct (String.eqb _ _) eqn:E; [|done]. intros _.
  apply String.eqb_eq in E. injection E as Hd _. eauto.
Qed.
Lemma wsp_not_named line c n : starts_with is_wsp line = true -> is_wsp (lower_byte c) = false ->
  isHeaderNamed line (String c n) = false.
Proof.
  intros Hw Hc. apply not_true_is_false. intros (d & r & -> & Hd)%named_head. cbn in Hw. rewrite <- Hd in Hc.
  apply orb_true_iff in Hw as [H%Ascii.eqb_eq|H%Ascii.eqb_eq]; subst; done.
Qed.

Lemma strip_list_ok c n sk ls : is_wsp (lower_byte c) = false ->
  Forall (fun l => isHeaderNamed l (String c n) = false) (strip_list (String c n) sk ls).
Proof.
  intros Hc. revert sk. induction ls as [|l ls IH]; intros sk; [constructor|]. cbn [strip_list].
  destruct (starts_with is_wsp l) eqn:Ew; [destruct sk; [done|]; constructor; [by apply wsp_not_named|done]|].
  destruct (isHeaderNamed l (String c n)) eqn:En; [done|]. by constructor.
Qed.

(** The values of other fields stay. *)
Lemma unfold_stripped name v ls : unfold_value v (strip_list name true ls) = v.
Proof.
  induction ls as [|l ls IH]; [done|]. cbn. destruct (starts_with is_wsp l) eqn:E; [done|].
  destruct (isHeaderNamed l name); [done|]. cbn. by rewrite E.
Qed.
Lemma unfold_strip name v ls : unfold_value v (strip_list name false ls) = unfold_value v ls.
Proof.
  revert v. induction ls as [|l ls IH]; intros v; [done|]. cbn. destruct (starts_with is_wsp l) eqn:E.
  - cbn. by rewrite E, IH.
  - destruct (isHeaderNamed l name); [apply unfold_stripped|]. cbn. by rewrite E.
Qed.
Lemma header_from_strip c n d m ls sk : lower_byte c <> lower_byte d -> is_wsp (lower_byte d) = false ->
  header_from (strip_list (String c n) sk ls) (String d m) = header_from ls (String d m).
Proof.
  intros Hcd Hd. revert sk. induction ls as [|l ls IH]; intros sk; [done|]. cbn [strip_list].
  cbn [header_from]. destruct (starts_with is_wsp l) eqn:Ew.
  - rewrite (wsp_not_named l d m Ew Hd). destruct sk; [done|]. cbn [header_from]. by rewrite (wsp_not_named l d m Ew Hd).
  - destruct (isHeaderNamed l (String c n)) eqn:En.
    + assert (isHeaderNamed l (String d m) = false) as ->; [|done]. apply not_true_is_false.
      intros (d' & r & -> & Hd')%named_head. apply named_head in En as (? & ? & [= <- <-] & ?). congruence.
    + cbn [header_from]. destruct (isHeaderNamed l (String d m)); [|done]. by rewrite unfold_strip.
Qed.

(** ** The header and the body as RFC 5322 has them *)

(** The lines before the first blank line, and those after it. *)
Fixpoint header_lines (ls : list string) : list string :=
  match ls with [] => [] | l :: ls => if String.eqb l eol then [] else l :: header_lines ls end.
Fixpoint body_lines (ls : list string) : list string :=
  match ls with [] => [] | l :: ls => if String.eqb l eol then ls else body_lines ls end.

Lemma header_lines_upto l r y : y ∈ header_lines (l ++ eol :: r)%list -> y ∈ l.
Proof.
  induction l as [|x l IH]; cbn [app header_lines].
  - by rewrite String.eqb_refl.
  - destruct (String.eqb x eol); [set_solver|]. rewrite !elem_of_cons. naive_solver.
Qed.
Lemma header_lines_sub l y : y ∈ header_lines l -> y ∈ l.
Proof.
  induction l as [|x l IH]; cbn; [done|]. destruct (String.eqb x eol); [set_solver|]. rewrite !elem_of_cons. naive_solver.
Qed.
Lemma ended_blank x : String.eqb (ended x) eol = String.eqb x "".
Proof.
  unfold ended. destruct x as [|c x]; [done|]. apply String.eqb_neq. intros [= _ H].
  apply (f_equal String.length) in H. rewrite length_app_s in H. cbn in H. lia.
Qed.
Lemma header_lines_ended a r : Forall nonempty a ->
  header_lines ((ended <$> a) ++ r)%list = ((ended <$> a) ++ header_lines r)%list /\
  body_lines ((ended <$> a) ++ r)%list = body_lines r.
Proof.
  induction 1 as [|x a Hx Ha [IH1 IH2]]; [done|]. cbn. rewrite ended_blank.
  destruct (String.eqb_spec x ""); [done|]. by rewrite IH1, IH2.
Qed.
Lemma last_line_header rest : no_break rest -> header_lines (last_line rest) = last_line rest /\ body_lines (last_line rest) = [].
Proof.
  intros H. unfold last_line. destruct (String.eqb rest "") eqn:E; [done|]. cbn.
  destruct (String.eqb_spec rest eol); [by subst|done].
Qed.

Lemma first_empty (t : list string) :
  Forall nonempty t \/ exists a b, t = (a ++ "" :: b)%list /\ Forall nonempty a.
Proof.
  induction t as [|x t IH]; [left; constructor|]. destruct (decide (x = "")) as [->|Hx].
  - right. exists [], t. by split.
  - destruct IH as [IH|(a & b & -> & Ha)]; [left; by constructor|]. right. exists (x :: a), b. split; [done|by constructor].
Qed.

Notation bcc_free := (strip_list "Bcc" false).

(** What stripping leaves, in a message with a blank line and in one without. *)
Lemma strip_shape xs rest : Forall no_break xs -> no_break rest ->
  (exists x a b ys, xs = (x :: a ++ "" :: b)%list /\ Forall nonempty a /\
     bcc_free (ended <$> (x :: a)) = ended <$> ys /\ (forall y, y ∈ ys -> y ∈ x :: a) /\
     stripHeader (text xs rest) "Bcc" = text (ys ++ "" :: b)%list rest) \/
  (Forall nonempty (tail xs) /\ exists ys rest',
     bcc_free ((ended <$> xs) ++ last_line rest)%list = ((ended <$> ys) ++ last_line rest')%list /\
     (forall y, y ∈ ys -> y ∈ xs) /\ no_break rest' /\
     stripHeader (text xs rest) "Bcc" = text ys rest').
Proof.
  intros Hxs Hr. destruct (first_empty (tail xs)) as [Hne|(a & b & Ht & Ha)].
  - right. split; [done|]. destruct (strip_list_app "Bcc" false (ended <$> xs) (last_line rest)) as [sk Hsk].
    destruct (strip_list_ended "Bcc" false xs) as (ys & Hys & Hsub). rewrite Hsk, Hys.
    assert (exists rest', strip_list "Bcc" sk (last_line rest) = last_line rest' /\ no_break rest' /\
      concat_lines (last_line rest') = rest') as (rest' & Hst & Hr' & Hc).
    { assert (concat_lines (last_line rest) = rest) as Hcr.
      { unfold last_line. destruct (String.eqb_spec rest ""); [by subst|]. apply app_s_nil. }
      unfold last_line at 1. destruct (String.eqb rest "") eqn:E.
      - exists "". done.
      - assert (strip_list "Bcc" sk [rest] = [rest] \/ strip_list "Bcc" sk [rest] = []) as [->| ->].
        { cbn. destruct (starts_with _ rest), sk, (isHeaderNamed rest "Bcc"); auto. }
        + exists rest. split; [|done]. unfold last_line. by rewrite E.
        + exists "". done. }
    exists ys, rest'. rewrite Hst. split; [done|]. split; [done|]. split; [done|].
    unfold stripHeader. rewrite split_none by done. rewrite splitLines_text by done.
    rewrite strip_lines_list, Hsk, Hys.
    assert (forall l r, concat_lines (l ++ r)%list = concat_lines l +:+ concat_lines r) as Happ.
    { intros l r. induction l as [|z l IH]; [done|]. cbn. by rewrite IH, app_s_assoc. }
    rewrite app_s_nil, Happ.
    rewrite Hst, Hc. by rewrite concat_ended.
  - left. destruct xs as [|x t]; [by destruct a|]. cbn in Ht. subst t.
    destruct (strip_list_ended "Bcc" false (x :: a)) as (ys & Hys & Hsub).
    exists x, a, b, ys. split; [done|]. split; [done|]. split; [done|]. split; [done|].
    rewrite Forall_cons, Forall_app, Forall_cons in Hxs. destruct Hxs as (Hx & Hxa & _ & Hxb).
    unfold stripHeader. rewrite split_blank; [|by rewrite Forall_cons, Forall_app|done|done].
    rewrite splitLines_text; [|by constructor|done]. cbn [last_line String.eqb]. rewrite app_nil_r.
    rewrite strip_lines_list, Hys, concat_ended. by rewrite text_app.
Qed.

Lemma normalize_lines xs rest : Forall no_break xs -> no_break rest -> normalizeCRLF (text xs rest) = text xs rest.
Proof.
  intros Hxs Hr. rewrite normalize_eq. induction Hxs as [|x xs Hx Hxs IH].
  - cbn [text]. induction rest as [|c r IHr]; [done|]. apply no_break_cons in Hr as [Hc Hr].
    apply is_break_false in Hc as [Hc1 Hc2]. cbn [to_crlf]. by rewrite Hc1, Hc2, IHr.
  - cbn [text]. induction x as [|c x IHx].
    + rewrite app_s_empty. unfold eol. rewrite !app_s_cons, app_s_empty. cbn [to_crlf]. cbn. by rewrite IH.
    + apply no_break_cons in Hx as [Hc Hx]. apply is_break_false in Hc as [Hc1 Hc2]. rewrite app_s_cons.
      cbn [to_crlf]. by rewrite Hc1, Hc2, IHx.
Qed.

(** The lines that are added. *)
Definition added (raw messageID : string) (createdAt : Time) : list string :=
  let header := (splitHeaderBody (stripHeader (normalizeCRLF raw) "Bcc")).1 in
  ((if String.eqb (headerValue header "Message-ID") "" && negb (String.eqb messageID "")
    then ["Message-ID: <" +:+ messageID +:+ ">"] else []) ++
   (if String.eqb (headerValue header "Date") "" then ["Date: " +:+ rfc5322Date (UTC createdAt)] else []))%list.
Lemma prepare_text raw messageID createdAt :
  PrepareTransmission raw messageID createdAt =
  text (added raw messageID createdAt) (stripHeader (normalizeCRLF raw) "Bcc").
Proof.
  unfold PrepareTransmission, added. set (h := (splitHeaderBody _).1).
  destruct (_ && _), (String.eqb (headerValue h "Date") ""); cbn [text app]; rewrite ?app_s_empty, ?app_s_nil;
    unfold message_id_line, date_line; rewrite <- ?app_s_assoc; done.
Qed.

Definition visible (c : ascii) : bool := byte_between c 33 126.
Definition printable (c : ascii) : bool := byte_between c 32 126.
Lemma printable_no_break s : chars_in printable s = true -> no_break s.
Proof.
  induction s as [|c s IH]; [done|]. cbn. rewrite andb_true_iff. intros [Hc Hs]. apply no_break_cons. split; [|auto].
  apply is_break_false. split; apply not_true_is_false; intros ->%Ascii.eqb_eq; done.
Qed.
Lemma chars_in_both P a b : chars_in P (a +:+ b) = chars_in P a && chars_in P b.
Proof. induction a as [|c a IH]; [done|]. rewrite app_s_cons. cbn. by rewrite IH, andb_assoc. Qed.
Lemma visible_printable s : chars_in visible s = true -> chars_in printable s = true.
Proof.
  induction s as [|c s IH]; [done|]. cbn. rewrite !andb_true_iff. intros [Hc Hs]. split; [|auto].
  unfold visible, printable, byte_between in *. bool_cases. apply andb_true_iff. split; apply Z.leb_le; lia.
Qed.

Lemma digit_printable d : 0 <= d < 10 -> printable (digit_char d) = true.
Proof.
  intros Hd. assert (d = 0 \/ d = 1 \/ d = 2 \/ d = 3 \/ d = 4 \/ d = 5 \/ d = 6 \/ d = 7 \/ d = 8 \/ d = 9) as Hc by lia.
  repeat destruct Hc as [->|Hc]; try reflexivity. subst. reflexivity.
Qed.
Lemma pad_printable w v : chars_in printable (pad w v) = true.
Proof.
  induction w as [|w IH]; [done|]. cbn [pad chars_in]. rewrite IH, digit_printable; [done|]. by apply Z.mod_pos_bound.
Qed.

Lemma format_digits_printable fuel v acc :
  chars_in printable acc = true -> chars_in printable (format_digits fuel 10 v acc) = true.
Proof.
  revert v acc. induction fuel as [|fuel IH]; intros v acc Ha; [done|]. cbn [format_digits].
  assert (chars_in printable (String (digit_char (v mod 10)) acc) = true) as Hs.
  { cbn. rewrite digit_printable, Ha; [done|]. by apply Z.mod_pos_bound. }
  destruct (v / 10 =? 0); [done|]. by apply IH.
Qed.
Lemma appendInt_printable v w : chars_in printable (appendInt v w) = true.
Proof.
  unfold appendInt. rewrite chars_in_both. destruct (v <? 0), (Z.abs v <? _); rewrite ?pad_printable; try done;
    by apply format_digits_printable.
Qed.
Lemma format_clock_printable t : chars_in printable (format_clock t) = true.
Proof. unfold format_clock. by rewrite !chars_in_both, !appendInt_printable. Qed.
Lemma lookup_printable l n : Forall (fun s => chars_in printable s = true) l ->
  chars_in printable (default "" (l !! n)) = true.
Proof. intros H. destruct (l !! n) eqn:E; [|done]. by eapply Forall_lookup_1 in H. Qed.
Lemma weekdays_ok : Forall (fun s => chars_in printable s = true) weekdays.
Proof. repeat constructor. Qed.
Lemma months_ok : Forall (fun s => chars_in printable s = true) months.
Proof. repeat constructor. Qed.

Lemma rfc5322Date_printable t : chars_in printable (rfc5322Date t) = true.
Proof.
  unfold rfc5322Date. destruct (civil_of_days _) as [[y m] d].
  rewrite !chars_in_both, !appendInt_printable, format_clock_printable.
  rewrite (lookup_printable _ _ weekdays_ok), (lookup_printable _ _ months_ok). done.
Qed.
Lemma added_ok raw messageID createdAt : chars_in visible messageID = true ->
  Forall (fun x => no_break x /\ x <> "" /\ isHeaderNamed (ended x) "Bcc" = false) (added raw messageID createdAt).
Proof.
  intros Hid. unfold added. apply Forall_app. split.
  - destruct (_ && _); [|constructor]. constructor; [|constructor]. split; [|split; [discriminate|reflexivity]].
    apply printable_no_break. by rewrite !chars_in_both, (visible_printable _ Hid).
  - destruct (String.eqb _ _); [|constructor]. constructor; [|constructor]. split; [|split; [discriminate|reflexivity]].
    apply printable_no_break. by rewrite chars_in_both, rfc5322Date_printable.
Qed.

Lemma Forall_ended P xs : Forall P (ended <$> xs) <-> Forall (fun x => P (ended x)) xs.
Proof. apply Forall_fmap. Qed.

(** Blind recipients: nothing in the header of what is transmitted names one. *)
Lemma no_bcc_line raw messageID createdAt :
  chars_in visible messageID = true ->
  Forall (fun l => isHeaderNamed l "Bcc" = false)
    (header_lines (splitLines (PrepareTransmission raw messageID createdAt))).
Proof.
  intros Hid. rewrite prepare_text. pose proof (added_ok raw messageID createdAt Hid) as Hadd.
  set (add := added raw messageID createdAt) in *. clearbody add.
  assert (Forall no_break add) as Hnb by (eapply Forall_impl; [apply Hadd|]; by intros ? (? & _)).
  assert (Forall (fun l => isHeaderNamed l "Bcc" = false) (ended <$> add)) as Hab.
  { apply Forall_ended. eapply Forall_impl; [apply Hadd|]. by intros ? (_ & _ & ?). }
  destruct (normalize_text raw) as (xs & rest & -> & Hxs & Hr).
  destruct (strip_shape xs rest Hxs Hr) as [(x & a & b & ys & -> & Ha & Hys & Hsub & ->)|(Hne & ys & rest' & Hys & Hsub & Hr' & ->)];
    rewrite <- text_app, splitLines_text; try done.
  - rewrite !fmap_app, fmap_cons. apply Forall_forall. intros l. rewrite <- !app_assoc. cbn [app].
    rewrite app_assoc. intros Hl%header_lines_upto. apply elem_of_app in Hl as [Hl|Hl].
    + exact (proj1 (Forall_forall _ _) Hab l Hl).
    + rewrite <- Hys in Hl. exact (proj1 (Forall_forall _ _) (strip_list_ok "B" "cc" false _ eq_refl) l Hl).
  - apply Forall_app. split; [done|]. apply Forall_app. rewrite Forall_forall in Hxs. split.
    + apply Forall_forall. intros y Hy. apply Hxs. apply Hsub in Hy. set_solver.
    + constructor; [done|]. apply Forall_forall. intros y Hy. apply Hxs. set_solver.
  - rewrite fmap_app, <- app_assoc, <- Hys. apply Forall_forall. intros l Hl%header_lines_sub.
    apply elem_of_app in Hl as [Hl|Hl]; [exact (proj1 (Forall_forall _ _) Hab l Hl)|].
    exact (proj1 (Forall_forall _ _) (strip_list_ok "B" "cc" false _ eq_refl) l Hl).
  - apply Forall_app. split; [done|]. rewrite Forall_forall in Hxs |- *. auto.
Qed.

(** ** What else is kept *)

(** The message begins with a field: not with a blank line, not with a continuation. *)
Definition begins_with_field (m : string) : Prop := starts_with (fun c => is_break c || is_wsp c) m = false.

Lemma text_begins xs rest : begins_with_field (text xs rest) -> match xs with x :: _ => x <> "" | [] => True end.
Proof. destruct xs as [|x xs]; [done|]. by destruct x. Qed.

Lemma text_lines xs rest : Forall no_break xs -> no_break rest -> Forall nonempty xs ->
  header_lines (splitLines (text xs rest)) = ((ended <$> xs) ++ last_line rest)%list /\ body_lines (splitLines (text xs rest)) = [].
Proof.
  intros Hxs Hr Hne. rewrite splitLines_text by done.
  destruct (header_lines_ended xs (last_line rest) Hne) as [-> ->]. by destruct (last_line_header rest Hr) as [-> ->].
Qed.
Lemma text_lines_blank a b rest : Forall no_break (a ++ "" :: b)%list -> no_break rest -> Forall nonempty a ->
  header_lines (splitLines (text (a ++ "" :: b)%list rest)) = ended <$> a /\
  body_lines (splitLines (text (a ++ "" :: b)%list rest)) = splitLines (text b rest).
Proof.
  intros Hall Hr Ha. rewrite splitLines_text by done. rewrite fmap_app, fmap_cons, <- app_assoc. cbn [app].
  destruct (header_lines_ended a (ended "" :: (ended <$> b) ++ last_line rest)%list Ha) as [-> ->].
  change (ended "") with eol. cbn [header_lines body_lines]. rewrite String.eqb_refl, app_nil_r. split; [done|].
  rewrite Forall_app, Forall_cons in Hall. destruct Hall as (_ & _ & Hb). by rewrite splitLines_text.
Qed.

(** The search for the header block and the lines of the header agree. *)
Lemma header_block xs rest : Forall no_break xs -> no_break rest -> match xs with x :: _ => x <> "" | [] => True end ->
  splitLines (splitHeaderBody (text xs rest)).1 = header_lines (splitLines (text xs rest)).
Proof.
  intros Hxs Hr Hx. destruct (first_empty (tail xs)) as [Hne|(a & b & Ht & Ha)].
  - rewrite split_none by done. cbn. destruct (text_lines xs rest) as [-> _]; [done..|destruct xs; [constructor|by constructor]|].
    by apply splitLines_text.
  - destruct xs as [|x t]; [by destruct a|]. cbn in Ht. subst t.
    destruct (text_lines_blank (x :: a) b rest) as [Hh _]; [done|done|by constructor|]. cbn [app] in Hh. rewrite Hh.
    rewrite Forall_cons, Forall_app, Forall_cons in Hxs. destruct Hxs as (Hxb & Hab & _ & Hbb).
    rewrite split_blank; [|by rewrite Forall_cons, Forall_app|done|done]. cbn [fst].
    rewrite splitLines_text; [|by constructor|done]. cbn [last_line]. by rewrite app_nil_r.
Qed.

(** A message of lines in front of what stripping leaves. *)
Lemma strip_parts raw add :
  Forall no_break add -> Forall nonempty add -> begins_with_field (normalizeCRLF raw) ->
  let m := text add (stripHeader (normalizeCRLF raw) "Bcc") in
  let h := bcc_free (header_lines (splitLines (normalizeCRLF raw))) in
  header_lines (splitLines m) = ((ended <$> add) ++ h)%list /\
  body_lines (splitLines m) = body_lines (splitLines (normalizeCRLF raw)) /\
  normalizeCRLF m = m /\
  (h <> [] -> splitLines (splitHeaderBody m).1 = header_lines (splitLines m)).
Proof.
  intros Hnb Hane Hb. cbv zeta.
  destruct (normalize_text raw) as (xs & rest & En & Hxs & Hr). rewrite En in Hb |- *. apply text_begins in Hb.
  destruct (strip_shape xs rest Hxs Hr) as [(x & a & b & ys & -> & Ha & Hys & Hsub & ->)|(Hne & ys & rest' & Hys & Hsub & Hr' & ->)];
    rewrite <- text_app.
  - assert (Forall nonempty (x :: a)) as Hxa by (by constructor).
    assert (Forall no_break (add ++ ys ++ "" :: b)%list /\ Forall nonempty ys) as [Hyb Hyn].
    { rewrite !Forall_app, Forall_cons. rewrite app_comm_cons, Forall_app in Hxs. destruct Hxs as (Hxa' & [? ?]%Forall_cons).
      rewrite Forall_forall in Hxa', Hxa. split; [split; [done|split; [|done]]|]; apply Forall_forall; auto. }
    rewrite app_comm_cons. destruct (text_lines_blank (x :: a) b rest) as [-> ->]; [done..|].
    split; [|split; [|split; [by apply normalize_lines|]]].
    1-2: rewrite app_assoc; destruct (text_lines_blank (add ++ ys)%list b rest) as [E1 E2];
      [rewrite <- app_assoc; done|done|by rewrite Forall_app|]; rewrite ?E1, ?E2, ?Hys, ?fmap_app; done.
    rewrite Hys. intros Hh. apply header_block; [done..|]. destruct Hane; [|done]. by destruct Hyn.
  - assert (Forall nonempty xs) as Hxn by (destruct xs; [constructor|by constructor]).
    assert (Forall no_break (add ++ ys)%list /\ Forall nonempty ys) as [Hyb Hyn].
    { rewrite Forall_app. rewrite Forall_forall in Hxs, Hxn. split; [split; [done|]|]; apply Forall_forall; auto. }
    destruct (text_lines xs rest) as [-> ->]; [done..|].
    split; [|split; [|split; [by apply normalize_lines|]]].
    1-2: destruct (text_lines (add ++ ys)%list rest') as [E1 E2]; [done|done|by rewrite Forall_app|];
      rewrite ?E1, ?E2, ?Hys, ?fmap_app, ?app_assoc; done.
    intros _. apply header_block; [done..|]. destruct Hane; [|done]. by destruct Hyn.
Qed.


(** ** Added values read back *)

Lemma TrimRight_all P s : chars_in P s = true -> TrimRight P s = "".
Proof. destruct s as [|c s]; [done|]. intros H. cbn [TrimRight]. by rewrite H. Qed.
Lemma TrimRight_line s : no_break s -> TrimRight is_break (ended s) = s.
Proof.
  unfold ended. induction s as [|c s IH]; intros H; [done|]. apply no_break_cons in H as [Hc H].
  rewrite app_s_cons. cbn [TrimRight chars_in]. rewrite Hc. cbn [andb]. by rewrite IH.
Qed.

Lemma printable_space c r : printable c = true -> space_width (String c r) = if Ascii.eqb c " " then 1%nat else 0%nat.
Proof.
  intros Hp. unfold space_width. assert (byte_between c 9 13 || is_byte c 32 = Ascii.eqb c " ") as ->.
  { unfold printable, byte_between, is_byte in *. bool_cases.
    replace (byte_val c <=? 13) with false by (symmetry; apply Z.leb_gt; lia). rewrite andb_false_r. cbn [orb].
    destruct (Ascii.eqb_spec c " ") as [->|Hc]; [done|]. apply Z.eqb_neq. intros Hv. apply Hc.
    unfold byte_val in Hv. rewrite <- (ascii_nat_embedding c). replace (nat_of_ascii c) with 32%nat by lia. done. }
  destruct (Ascii.eqb c " "); [done|]. unfold printable, byte_between in Hp. bool_cases.
  assert (forall v, 127 <= v -> is_byte c v = false) as Hb by (intros v Hv; apply Z.eqb_neq; lia).
  destruct r as [|b [|d r]]; [done|by rewrite !Hb|]. by rewrite !Hb.
Qed.
Lemma printable_not_all_space s c : chars_in printable s = true -> visible c = true ->
  all_space_from 0 (s +:+ String c "") = false.
Proof.
  intros Hs Hc. induction s as [|d s IH].
  - rewrite app_s_empty. cbn [all_space_from]. rewrite printable_space; [by destruct (Ascii.eqb_spec c " "); [subst|]|].
    pose proof (visible_printable (String c "")) as Hv. cbn in Hv. rewrite Hc in Hv. specialize (Hv eq_refl).
    by apply andb_prop in Hv as [? _].
  - cbn in Hs. apply andb_prop in Hs as [Hd Hs]. rewrite app_s_cons. cbn [all_space_from].
    rewrite printable_space by done. destruct (Ascii.eqb d " "); [by apply IH|done].
Qed.
Lemma trim_right_printable s c : chars_in printable s = true -> visible c = true ->
  trim_right (s +:+ String c "") = s +:+ String c "".
Proof.
  intros Hs Hc. induction s as [|d s IH].
  - pose proof (printable_not_all_space "" c eq_refl Hc) as H. rewrite app_s_empty in H |- *. cbn [trim_right]. by rewrite H.
  - pose proof (printable_not_all_space (String d s) c Hs Hc) as H. rewrite app_s_cons in H |- *. cbn [trim_right].
    rewrite H. cbn in Hs. apply andb_prop in Hs as [_ Hs]. by rewrite IH.
Qed.
(** A value after the space that follows the colon. *)
Lemma TrimSpace_value b s c : chars_in printable (String b s) = true -> visible b = true -> visible c = true ->
  TrimSpace (String " " (String b s +:+ String c "")) = String b s +:+ String c "".
Proof.
  intros Hs Hb Hc. unfold TrimSpace. cbn [trim_left_from]. rewrite printable_space by done. cbn [trim_left_from].
  rewrite app_s_cons. cbn [trim_left_from].
  rewrite printable_space by (cbn in Hs; by apply andb_prop in Hs as [? _]).
  destruct (Ascii.eqb_spec b " "); [by subst|]. rewrite <- app_s_cons. by apply trim_right_printable.
Qed.

Lemma unfold_stops v ls : match ls with l :: _ => starts_with is_wsp l = false | [] => True end -> unfold_value v ls = v.
Proof. destruct ls as [|l ls]; [done|]. intros H. cbn. by rewrite H. Qed.
Lemma strip_list_starts name ls : match ls with l :: _ => starts_with is_wsp l = false | [] => True end ->
  match strip_list name false ls with l :: _ => starts_with is_wsp l = false | [] => True end.
Proof.
  destruct ls as [|l ls]; [done|]. intros H. cbn. rewrite H. destruct (isHeaderNamed l name); [|done].
  clear H. induction ls as [|k ls IH]; [done|]. cbn. destruct (starts_with is_wsp k) eqn:E; [done|].
  destruct (isHeaderNamed k name); [done|]. done.
Qed.
Lemma header_starts m : begins_with_field m ->
  match header_lines (splitLines m) with l :: _ => starts_with is_wsp l = false | [] => True end.
Proof.
  intros Hb. destruct m as [|c m]; [done|]. unfold begins_with_field in Hb. cbn in Hb. apply orb_false_iff in Hb as [_ Hw].
  cbn [splitLines]. destruct (Ascii.eqb c LF); [|destruct (splitLines m)]; cbn [header_lines];
    destruct (String.eqb _ eol); done.
Qed.

Lemma HeaderValue_lines raw name : begins_with_field (normalizeCRLF raw) ->
  HeaderValue raw name = header_from (header_lines (splitLines (normalizeCRLF raw))) name.
Proof.
  intros Hb. unfold HeaderValue, headerValue. f_equal. destruct (normalize_text raw) as (xs & rest & En & Hxs & Hr).
  rewrite En in Hb |- *. apply header_block; [done..|]. by apply text_begins in Hb.
Qed.

Lemma date_ends t : exists b s c, rfc5322Date t = String b s +:+ String c "" /\ chars_in printable (String b s) = true /\
  visible b = true /\ visible c = true.
Proof.
  pose proof (rfc5322Date_printable t) as Hp. unfold rfc5322Date in *. destruct (civil_of_days _) as [[y m] d].
  set (w := default "" (weekdays !! _)) in *.
  assert (exists b w', w = String b w' /\ visible b = true) as (b & w' & Hw & Hb).
  { subst w. pose proof (Z.mod_pos_bound (local_days t + 4) 7 ltac:(lia)) as Hm.
    assert ((Z.to_nat ((local_days t + 4) mod 7) < List.length weekdays)%nat) as Hlt by (cbn; lia).
    apply lookup_lt_is_Some in Hlt as [x Hx]. rewrite Hx. cbn.
    assert (Forall (fun x => exists b w', x = String b w' /\ visible b = true) weekdays) as Hall.
    { repeat constructor; by eexists _, _. }
    by eapply Forall_lookup_1 in Hall. }
  rewrite Hw in *. eexists b, _, "0"%char. repeat split; [|clear Hw|done..].
  - rewrite app_s_cons. f_equal. change (" +0000") with (" +000" +:+ "0"). rewrite !app_s_assoc. reflexivity.
  - rewrite app_s_cons in Hp. change (" +0000") with (" +000" +:+ "0") in Hp. rewrite !app_s_assoc in Hp.
    rewrite <- app_s_cons, chars_in_both in Hp. by apply andb_prop in Hp as [? _].
Qed.

(** What is transmitted has normal line endings. *)
Lemma prepared_normal raw messageID createdAt :
  chars_in visible messageID = true -> begins_with_field (normalizeCRLF raw) ->
  normalizeCRLF (PrepareTransmission raw messageID createdAt) = PrepareTransmission raw messageID createdAt.
Proof.
  intros Hid Hb. rewrite prepare_text. pose proof (added_ok raw messageID createdAt Hid) as Hadd.
  apply strip_parts; [| |done]; (eapply Forall_impl; [apply Hadd|]); by intros ? (? & ? & _).
Qed.


