(* ===== verification/Smtp.v ===== *)
(** The SMTP submission client (submit/client.go): one transaction with a peer that may
    answer anything, close the connection or take a message without its answer arriving.

    A session is a program over [Conn]: the events still to come, the client's session,
    and what the peer holds of the transaction. Each command meets one event. The peer
    adds a recipient when it answers a RCPT with a 2yz reply and takes the message of a
    DATA it answers with 250; it may also take it and lose the answer. The process may
    die at any exchange. *)

From S2P Require Import Prelude Text GoStrings Transmission.
From Stdlib Require Import Ascii String.
#[local] Open Scope string_scope.
#[local] Open Scope Z_scope.

Record Config := mkConfig { DisableTLS : bool; HeloName : string; Username : string; Password : string }.
Record Envelope := mkEnvelope { MailFrom : string; RcptTo : list string; Size : Z }.

(** The phases. *)
Definition PhaseConnect : string := "connect".
Definition PhaseEHLO : string := "ehlo".
Definition PhaseStartTLS : string := "starttls".
Definition PhaseAuth : string := "auth".
Definition PhaseMail : string := "mail".
Definition PhaseRcpt : string := "rcpt".
Definition PhaseData : string := "data".
Definition PhaseDataClose : string := "data-close".

(** [Error] without its text, [AcceptedUnrecordedError], and the end of the process. *)
Inductive SendError :=
  | Died
  | SmtpError (phase : string) (code : Z)
  | AcceptedUnrecorded (reply : string).

(** [Error.Permanent] and [IsPermanent]. *)
Definition Permanent (code : Z) : bool := (500 <=? code) && (code <? 600).
Definition IsPermanent (e : SendError) : bool :=
  match e with SmtpError _ code => Permanent code | _ => false end.

(** ** The peer *)

(** What happens at one exchange: the reply that arrives, if one does; whether the peer
    took what it was sent although no reply arrived; whether the process dies then. *)
Record event := mkEvent { ev_reply : option (Z * string); ev_taken : bool; ev_dies : bool }.
(** A message the peer took: sender, recipients and text. *)
Record delivery := mkDelivery { de_from : string; de_rcpts : list string; de_text : option string }.

Record Conn := mkConn {
  c_events : list event;
  c_tls : bool;                        (* the connection is encrypted *)
  c_ext : gmap string string;          (* the extensions of the last EHLO *)
  c_sent : list (bool * string);       (* the commands sent, and whether encrypted *)
  c_from : string; c_rcpts : list string;  (* the transaction, as the peer has it *)
  c_taken : list delivery
}.

Definition CM := M Conn SendError.

Definition set_peer (c : Conn) (from : string) (rcpts : list string) (taken : list delivery) : Conn :=
  mkConn (c_events c) (c_tls c) (c_ext c) (c_sent c) from rcpts taken.
Definition set_session (c : Conn) (tls : bool) (ext : gmap string string) : Conn :=
  mkConn (c_events c) tls ext (c_sent c) (c_from c) (c_rcpts c) (c_taken c).

(** [textproto.ReadResponse]: the expected code may be given by its first digits. *)
Definition code_ok (expect code : Z) : bool :=
  if expect <? 10 then code / 100 =? expect
  else if expect <? 100 then code / 10 =? expect
  else code =? expect.

(** One exchange: the command is recorded, the peer acts on it ([act], told the event),
    and the reply is compared with the expected code. A connection without events left
    is broken. *)
Definition broken : event := mkEvent None false false.
Definition exchange (phase : string) (expect : Z) (command : string) (act : event -> Conn -> Conn) : CM (Z * string) :=
  fun c =>
    let '(e, es) := match c_events c with e :: es => (e, es) | [] => (broken, []) end in
    let c := mkConn es (c_tls c) (c_ext c) (c_sent c ++ [(c_tls c, command)]) (c_from c) (c_rcpts c) (c_taken c) in
    let c := act e c in
    if ev_dies e then (c, inl Died)
    else match ev_reply e with
         | None => (c, inl (SmtpError phase 0))
         | Some (code, msg) => if code_ok expect code then (c, inr (code, msg)) else (c, inl (SmtpError phase code))
         end.
Definition no_act (_ : event) (c : Conn) : Conn := c.
Definition positive (e : event) : bool :=
  match ev_reply e with Some (code, _) => code / 100 =? 2 | None => ev_taken e end.

(** How the peer acts on the commands of a transaction. *)
Definition take_mail (from : string) (e : event) (c : Conn) : Conn :=
  if positive e then set_peer c from [] (c_taken c) else c.
Definition take_rcpt (rcpt : string) (e : event) (c : Conn) : Conn :=
  if positive e then set_peer c (c_from c) (c_rcpts c ++ [rcpt]) (c_taken c) else c.
Definition take_rset (e : event) (c : Conn) : Conn :=
  if positive e then set_peer c "" [] (c_taken c) else c.
(** A message ends a transaction; any 2yz answer says that it was taken. *)
Definition take_data (text : option string) (e : event) (c : Conn) : Conn :=
  if positive e then set_peer c "" [] (c_taken c ++ [mkDelivery (c_from c) (c_rcpts c) text]) else c.

(** ** Dot-stuffing *)

(** [textproto.DotWriter]: at the beginning of a line, after a carriage return, or in
    the middle. *)
Inductive wstate := BeginLine | InCR | InData.
Fixpoint dot_write (st : wstate) (s : string) : string :=
  match s with
  | EmptyString =>
      match st with
      | InData => eol +:+ "." +:+ eol
      | InCR => String LF ("." +:+ eol)
      | BeginLine => "." +:+ eol
      end
  | String c r =>
      match st with
      | InCR => String c (dot_write (if Ascii.eqb c LF then BeginLine else InData) r)
      | _ =>
          (match st with BeginLine => if Ascii.eqb c "." then "." else "" | _ => "" end) +:+
          (if Ascii.eqb c LF then String CR (String c (dot_write BeginLine r))
           else String c (dot_write (if Ascii.eqb c CR then InCR else InData) r))
      end
  end.
(** The initial state is that of a line's beginning, but an empty message closes with a
    line break in front of the dot. *)
Definition DotWriter (msg : string) : string :=
  if String.eqb msg "" then eol +:+ "." +:+ eol else dot_write BeginLine msg.

(** The peer's reading of it (RFC 5321, section 4.5.2): the text in front of the line of
    one dot, without the leading dot of a line that has one. *)
Fixpoint undot (begin : bool) (s : string) : option string :=
  match s with
  | EmptyString => None
  | String c r =>
      if begin && Ascii.eqb c "." then
        if HasPrefix r eol then Some EmptyString
        else match r with
             | EmptyString => None
             | String d r => String d <$> undot (Ascii.eqb d LF) r
             end
      else String c <$> undot (Ascii.eqb c LF) r
  end.

(** ** The session *)

Section session.
Context (ToUpper : string -> string) (base64 : string -> string).
Context (cfg : Config).

Definition cmd (phase : string) (expect : Z) (command : string) (act : event -> Conn -> Conn) : CM unit :=
  _ ← exchange phase expect command act; mret tt.

(** [ehlo]: the keywords of the lines after the first. *)
Definition extensions (msg : string) : gmap string string :=
  foldl (fun ext line =>
    let line := TrimSpace line in
    let '(keyword, param) := match Cut " " line with Some kp => kp | None => (line, "") end in
    if String.eqb keyword "" then ext else <[ToUpper keyword := param]> ext) ∅ (tail (Split LF msg)).
Definition ehlo : CM unit :=
  r ← exchange PhaseEHLO 250 ("EHLO " +:+ HeloName cfg) no_act;
  modify (fun c => set_session c (c_tls c) (extensions r.2)).
Definition has (keyword : string) : CM bool :=
  gets (fun c => bool_decide (is_Some (c_ext c !! ToUpper keyword))).

(** [open]: a new connection, on which no transaction has begun, and its greeting. A dial
    that fails is an event without a reply. *)
Definition open_ : CM unit :=
  modify (fun c => mkConn (c_events c) false ∅ (c_sent c) "" [] (c_taken c)) ≫= fun _ =>
  cmd PhaseConnect 220 "" no_act.

(** The TLS handshake is an exchange of its own; its failure has no code. *)
Definition handshake : CM unit := fun c =>
  match cmd PhaseStartTLS 220 "" no_act c with
  | (c, inl (SmtpError p _)) => (c, inl (SmtpError p 0))
  | r => r
  end.

Definition hello : CM unit :=
  ehlo ≫= fun _ =>
  if DisableTLS cfg then mret tt
  else
    offered ← has "STARTTLS";
    if negb offered then throw (SmtpError PhaseStartTLS 0)
    else
      cmd PhaseStartTLS 220 "STARTTLS" no_act ≫= fun _ =>
      handshake ≫= fun _ =>
      modify (fun c => set_session c true (c_ext c)) ≫= fun _ =>
      ehlo.

Definition authenticate : CM unit :=
  if String.eqb (Username cfg) "" && String.eqb (Password cfg) "" then mret tt
  else
    tls ← gets c_tls;
    if negb tls && negb (DisableTLS cfg) then throw (SmtpError PhaseAuth 0)
    else
      let nul := String "000" EmptyString in
      cmd PhaseAuth 235 ("AUTH PLAIN " +:+ base64 (nul +:+ Username cfg +:+ nul +:+ Password cfg)) no_act.

Definition mail (env : Envelope) (eightBit : bool) : CM unit :=
  let params := if eightBit then " BODY=8BITMIME" else "" in
  declared ← gets (fun c => c_ext c !! "SIZE");
  let command params := cmd PhaseMail 250 ("MAIL FROM:<" +:+ MailFrom env +:+ ">" +:+ params) (take_mail (MailFrom env)) in
  match declared with
  | Some raw =>
      if 0 <? Size env then
        let over := match ParseInt 10 raw with Some limit => (0 <? limit) && (limit <? Size env) | None => false end in
        if over then throw (SmtpError PhaseMail 552)
        else command (params +:+ " SIZE=" +:+ FormatInt 10 (Size env))
      else command params
  | None => command params
  end.

(** The loop of [rcpt]: the worst refusal, a permanent one before a transient one. *)
Definition worse (worst : option Z) (code : Z) : option Z :=
  match worst with
  | None => Some code
  | Some w => if Permanent code && negb (Permanent w) then Some code else Some w
  end.
Fixpoint rcpt_all (rcptTo : list string) (worst : option Z) : CM (option Z) :=
  match rcptTo with
  | [] => mret worst
  | r :: rcptTo => fun c =>
      match cmd PhaseRcpt 25 ("RCPT TO:<" +:+ r +:+ ">") (take_rcpt r) c with
      | (c, inr _) => rcpt_all rcptTo worst c
      | (c, inl (SmtpError _ code)) => rcpt_all rcptTo (worse worst code) c
      | (c, inl e) => (c, inl e)
      end
  end.
(** A command whose outcome is ignored. *)
Definition best_effort (m : CM unit) : CM unit := fun c =>
  match m c with
  | (c, inl Died) => (c, inl Died)
  | (c, _) => (c, inr tt)
  end.
Definition rcpt (rcptTo : list string) : CM unit :=
  worst ← rcpt_all rcptTo None;
  match worst with
  | Some code => best_effort (cmd PhaseRcpt 250 "RSET" take_rset) ≫= fun _ => throw (SmtpError PhaseRcpt code)
  | None => mret tt
  end.

Definition reply_text (r : Z * string) : string := FormatInt 10 r.1 +:+ " " +:+ r.2.
(** [data]: what the peer reads of the text is what [undot] makes of it. *)
Definition data (msg : string) : CM string :=
  cmd PhaseData 354 "DATA" no_act ≫= fun _ =>
  r ← exchange PhaseDataClose 250 (DotWriter msg) (take_data (undot true (DotWriter msg)));
  mret (reply_text r).

Definition quit : CM unit := best_effort (cmd "quit" 221 "QUIT" no_act).

(** [Send] up to the 250. *)
Definition transaction (env : Envelope) (msg : string) : CM string :=
  if String.eqb (MailFrom env) "" then throw (SmtpError PhaseMail 0)
  else if bool_decide (RcptTo env = []) then throw (SmtpError PhaseRcpt 0)
  else
    open_ ≫= fun _ => hello ≫= fun _ => authenticate ≫= fun _ =>
    eightBit ← has "8BITMIME";
    mail env eightBit ≫= fun _ => rcpt (RcptTo env) ≫= fun _ => data msg.

(** [Send] in a world that holds a connection: the callback runs after the 250 and before
    QUIT. *)
Context {W : Type} (lift : forall A, CM A -> M W SendError A).
Definition after_250 (onAccepted : string -> M W SendError unit) (reply : string) : M W SendError string := fun w =>
  match onAccepted reply w with
  | (w, inl Died) => (w, inl Died)
  | (w, inl _) => (lift _ quit ≫= fun _ => throw (AcceptedUnrecorded reply) : M W SendError string) w
  | (w, inr _) => (lift _ quit ≫= fun _ => mret reply : M W SendError string) w
  end.
Definition Send (env : Envelope) (msg : string) (onAccepted : string -> M W SendError unit) : M W SendError string :=
  reply ← lift _ (transaction env msg); after_250 onAccepted reply.
End session.

(** ** The text arrives as it was *)

Lemma dot_write_data x s : no_break x -> dot_write InData (x +:+ eol +:+ s) = x +:+ eol +:+ dot_write BeginLine s.
Proof.
  induction x as [|c x IH]; intros H; [done|]. apply no_break_cons in H as [Hc H].
  apply is_break_false in Hc as [Hc1 Hc2]. rewrite app_s_cons. cbn [dot_write]. rewrite Hc1, Hc2, app_s_empty.
  by rewrite IH.
Qed.
Lemma undot_data x s : no_break x -> undot false (x +:+ eol +:+ s) = (fun t => x +:+ eol +:+ t) <$> undot true s.
Proof.
  induction x as [|c x IH]; intros H.
  - rewrite app_s_empty. unfold eol. rewrite !app_s_cons, app_s_empty. cbn [undot andb]. cbn.
    by destruct (undot true s).
  - apply no_break_cons in H as [Hc H]. apply is_break_false in Hc as [_ Hc2]. rewrite app_s_cons.
    cbn [undot andb]. rewrite Hc2, IH by done. by destruct (undot true s).
Qed.

(** One line, with the dot in front of it that the writer adds. *)
Lemma dot_line x : no_break x ->
  exists t, (forall s, dot_write BeginLine (x +:+ eol +:+ s) = t +:+ dot_write BeginLine s) /\
    forall u, undot true (t +:+ u) = (fun v => x +:+ eol +:+ v) <$> undot true u.
Proof.
  intros H. destruct x as [|c x].
  - exists eol. split; [done|]. intros u. unfold eol. rewrite !app_s_cons, app_s_empty.
    cbn [undot andb]. cbn. by destruct (undot true u).
  - apply no_break_cons in H as [Hc H]. apply is_break_false in Hc as [Hc1 Hc2].
    assert (forall s, dot_write BeginLine (String c x +:+ eol +:+ s) =
      (if Ascii.eqb c "." then "." else "") +:+ String c (x +:+ eol +:+ dot_write BeginLine s)) as Hw.
    { intros s. rewrite app_s_cons. cbn [dot_write]. by rewrite Hc1, Hc2, dot_write_data. }
    destruct (Ascii.eqb c ".") eqn:Ed.
    + apply Ascii.eqb_eq in Ed as ->. exists ("." +:+ "." +:+ x +:+ eol).
      split; [intros s; rewrite Hw, <- !app_s_assoc; done|].
      intros u. rewrite <- !app_s_assoc.
      assert (undot true ("." +:+ "." +:+ x +:+ eol +:+ u) = String "." <$> undot false (x +:+ eol +:+ u)) as -> by done.
      rewrite undot_data by done. by destruct (undot true u).
    + exists (String c (x +:+ eol)). split; [intros s; by rewrite Hw, app_s_empty, app_s_cons, <- app_s_assoc|].
      intros u. rewrite app_s_cons, <- app_s_assoc. cbn [undot andb]. rewrite Ed, Hc2, undot_data by done.
      by destruct (undot true u).
Qed.
Lemma dot_lines xs : Forall no_break xs -> undot true (dot_write BeginLine (text xs "")) = Some (text xs "").
Proof.
  induction 1 as [|x xs Hx Hxs IH]; [done|]. cbn [text].
  destruct (dot_line x Hx) as (t & -> & Hu). by rewrite Hu, IH.
Qed.

Lemma dot_write_rest rest : no_break rest -> rest <> "" -> dot_write BeginLine rest = dot_write BeginLine (rest +:+ eol).
Proof.
  intros H Hne. assert (forall r, no_break r -> dot_write InData r = dot_write InData (r +:+ eol)) as Hd.
  { induction r as [|c r IH]; intros Hr; [done|]. apply no_break_cons in Hr as [Hc Hr].
    apply is_break_false in Hc as [Hc1 Hc2]. rewrite app_s_cons. cbn [dot_write]. rewrite Hc1, Hc2. by rewrite <- IH. }
  destruct rest as [|c r]; [done|]. apply no_break_cons in H as [Hc Hr]. apply is_break_false in Hc as [Hc1 Hc2].
  rewrite app_s_cons. cbn [dot_write]. rewrite Hc1, Hc2. by rewrite <- Hd.
Qed.
Lemma dot_write_text xs rest : Forall no_break xs -> no_break rest -> rest <> "" ->
  dot_write BeginLine (text xs rest) = dot_write BeginLine (text (xs ++ [rest])%list "").
Proof.
  intros Hxs Hr Hne. induction Hxs as [|x xs Hx Hxs IH]; cbn [text app].
  - rewrite app_s_nil. by apply dot_write_rest.
  - destruct (dot_line x Hx) as (t & Hw & _). by rewrite !Hw, IH.
Qed.

(** The peer reads the message, with at most a final line break added to it. *)
Lemma dot_roundtrip m : normalizeCRLF m = m ->
  exists e, (e = "" \/ e = eol) /\ undot true (DotWriter m) = Some (m +:+ e).
Proof.
  intros Hm. destruct (normalize_text m) as (xs & rest & En & Hxs & Hr). rewrite Hm in En. subst m. unfold DotWriter.
  destruct (String.eqb_spec (text xs rest) "") as [He|He].
  - rewrite He. exists eol. by split; [right|].
  - destruct (decide (rest = "")) as [->|Hne].
    + exists "". split; [by left|]. rewrite app_s_nil. by apply dot_lines.
    + exists eol. split; [by right|]. rewrite dot_write_text by done.
      rewrite dot_lines by (apply Forall_app; split; [done|by constructor]).
      rewrite text_app, text_rest. cbn [text]. rewrite app_s_nil, (text_rest xs rest). by rewrite <- app_s_assoc.
Qed.

(** ** What a transaction leaves behind *)

Section spec.
Context (ToUpper : string -> string) (base64 : string -> string) (cfg : Config).

(** Nothing but the greeting, EHLO and STARTTLS goes over a clear connection. *)
Definition in_clear : list string := [""; "EHLO " +:+ HeloName cfg; "STARTTLS"].
Definition protected (x : bool * string) : Prop := DisableTLS cfg = true \/ x.1 = true \/ x.2 ∈ in_clear.
(** Commands that deliver nothing. *)
Definition quiet (c c' : Conn) : Prop :=
  c_taken c' = c_taken c /\ exists l, c_sent c' = (c_sent c ++ l)%list /\ Forall protected l.
(** An error before the text was sent. *)
Definition early (e : SendError) : Prop :=
  match e with Died => True | SmtpError phase _ => phase <> PhaseDataClose | AcceptedUnrecorded _ => False end.

Lemma quiet_refl c : quiet c c.
Proof. split; [done|]. exists []. by rewrite app_nil_r. Qed.
Lemma quiet_trans c1 c2 c3 : quiet c1 c2 -> quiet c2 c3 -> quiet c1 c3.
Proof.
  intros [H1 (l1 & E1 & F1)] [H2 (l2 & E2 & F2)]. split; [congruence|]. exists (l1 ++ l2)%list.
  split; [by rewrite E2, E1, app_assoc|]. by apply Forall_app.
Qed.

(** The peer's actions on the commands before the text. *)
Definition harmless (act : event -> Conn -> Conn) : Prop :=
  forall e c, c_taken (act e c) = c_taken c /\ c_sent (act e c) = c_sent c /\ c_tls (act e c) = c_tls c.
Lemma no_act_harmless : harmless no_act.
Proof. done. Qed.
Lemma take_mail_harmless f : harmless (take_mail f).
Proof. intros e c. unfold take_mail. by destruct (positive e). Qed.
Lemma take_rcpt_harmless f : harmless (take_rcpt f).
Proof. intros e c. unfold take_rcpt. by destruct (positive e). Qed.
Lemma take_rset_harmless : harmless take_rset.
Proof. intros e c. unfold take_rset. by destruct (positive e). Qed.

Definition told (c : Conn) (es : list event) (command : string) : Conn :=
  mkConn es (c_tls c) (c_ext c) (c_sent c ++ [(c_tls c, command)]) (c_from c) (c_rcpts c) (c_taken c).
Lemma wp_exchange phase expect command act (Q : Conn -> SendError + (Z * string) -> Prop) c :
  (forall e es, let c' := act e (told c es command) in
     Q c' (inl Died) /\ (ev_reply e = None -> Q c' (inl (SmtpError phase 0))) /\
     (forall code msg, ev_reply e = Some (code, msg) ->
        if code_ok expect code then Q c' (inr (code, msg)) else Q c' (inl (SmtpError phase code)))) ->
  wp (exchange phase expect command act) Q c.
Proof.
  intros H. unfold wp, exchange. destruct (match c_events c with e :: es => (e, es) | [] => (broken, []) end) as [e es].
  fold (told c es command). destruct (H e es) as (H1 & H2 & H3).
  destruct (ev_dies e); [done|]. destruct (ev_reply e) as [[code msg]|]; [|by apply H2].
  specialize (H3 code msg eq_refl). by destruct (code_ok expect code).
Qed.

(** A command that keeps a property of the peer's transaction when it succeeds. *)
Lemma wp_cmd phase expect command act (R : Conn -> Prop) (Q : Conn -> SendError + unit -> Prop) c :
  harmless act -> protected (c_tls c, command) -> phase <> PhaseDataClose ->
  (forall e es code msg, ev_reply e = Some (code, msg) -> code_ok expect code = true -> R (act e (told c es command))) ->
  (forall c', quiet c c' -> c_tls c' = c_tls c -> R c' -> Q c' (inr tt)) ->
  (forall c' e, quiet c c' -> c_tls c' = c_tls c -> early e -> Q c' (inl e)) ->
  wp (cmd phase expect command act) Q c.
Proof.
  intros Hact Hp Hph HR Hok Herr. unfold cmd. apply wp_bind. apply wp_exchange. intros e es c'.
  destruct (Hact e (told c es command)) as (Ht & Hs & Hl).
  assert (quiet c c') as Hq.
  { split; [done|]. exists [(c_tls c, command)]. split; [done|]. by constructor. }
  assert (c_tls c' = c_tls c) as Htls by done.
  split; [by apply Herr|]. split; [intros _; by apply Herr|]. intros code msg Hr.
  destruct (code_ok expect code) eqn:Ec; [|by apply Herr]. apply wp_ret. apply Hok; [done..|]. by eapply HR.
Qed.

(** The program [m] delivers nothing, fails early, and establishes [R]. *)
Definition step_ok {A} (m : CM A) (c : Conn) (R : Conn -> A -> Prop) : Prop :=
  wp m (fun c' r => quiet c c' /\ match r with inl e => early e | inr a => R c' a end) c.
Lemma step_bind {A B} (m : CM A) (k : A -> CM B) c R R' :
  step_ok m c R -> (forall c' a, quiet c c' -> R c' a -> step_ok (k a) c' R') -> step_ok (m ≫= k) c R'.
Proof.
  intros Hm Hk. unfold step_ok in *. apply wp_bind. eapply wp_mono; [exact Hm|]. intros c' [e|a] [Hq H]; [done|].
  eapply wp_mono; [by apply Hk|]. intros c'' r [Hq' Hr]. split; [by eapply quiet_trans|done].
Qed.
Lemma step_ret {A} (a : A) c (R : Conn -> A -> Prop) : R c a -> step_ok (mret a) c R.
Proof. intros H. apply wp_ret. by split; [apply quiet_refl|]. Qed.
Lemma step_throw {A} e c (R : Conn -> A -> Prop) : early e -> step_ok (throw e) c R.
Proof. intros H. apply wp_throw. by split; [apply quiet_refl|]. Qed.
Lemma step_gets {A} (f : Conn -> A) c (R : Conn -> A -> Prop) : R c (f c) -> step_ok (gets f) c R.
Proof. intros H. apply wp_gets. by split; [apply quiet_refl|]. Qed.
Lemma step_cmd phase expect command act c (R : Conn -> unit -> Prop) :
  harmless act -> protected (c_tls c, command) -> phase <> PhaseDataClose ->
  (forall e es code msg, ev_reply e = Some (code, msg) -> code_ok expect code = true -> R (act e (told c es command)) tt) ->
  step_ok (cmd phase expect command act) c R.
Proof. intros H1 H2 H3 H4. apply (wp_cmd _ _ _ _ (fun c => R c tt)); auto. Qed.

Definition secure (c : Conn) : Prop := DisableTLS cfg = true \/ c_tls c = true.
Lemma secure_protected c command : secure c -> protected (c_tls c, command).
Proof. intros [?|?]; [by left|right; by left]. Qed.
Lemma clear_protected tls command : command ∈ in_clear -> protected (tls, command).
Proof. intros ?. right. by right. Qed.

Lemma ehlo_ok c : step_ok (ehlo ToUpper cfg) c (fun c' _ => c_tls c' = c_tls c).
Proof.
  unfold ehlo. apply wp_bind. apply wp_exchange. intros e es c'.
  assert (quiet c c') as Hq.
  { split; [done|]. eexists. split; [reflexivity|]. constructor; [|done]. apply clear_protected. set_solver. }
  split; [by split|]. split; [by split|]. intros code msg _. destruct (code_ok 250 code); [|by split].
  apply wp_modify. split; [|done]. eapply quiet_trans; [exact Hq|]. split; [done|]. exists []. by rewrite app_nil_r.
Qed.
Lemma open_ok c : step_ok (open_) c (fun c' _ => True).
Proof.
  unfold open_. eapply (step_bind _ _ _ (fun c' _ => True)).
  - apply wp_modify. split; [|done]. split; [done|]. exists []. by rewrite app_nil_r.
  - intros c' [] _ _. apply step_cmd; [apply no_act_harmless| |done..]. apply clear_protected. set_solver.
Qed.
Lemma handshake_ok c : step_ok handshake c (fun _ _ => True).
Proof.
  unfold step_ok, handshake, wp.
  assert (step_ok (cmd PhaseStartTLS 220 "" no_act) c (fun _ _ => True)) as H.
  { apply step_cmd; [apply no_act_harmless| |done..]. apply clear_protected. set_solver. }
  unfold step_ok, wp in H. destruct (cmd _ _ _ _ c) as [c' [[]|[]]]; naive_solver.
Qed.
Lemma hello_ok c : step_ok (hello ToUpper cfg) c (fun c' _ => secure c').
Proof.
  unfold hello. eapply step_bind; [apply ehlo_ok|]. intros c1 [] _ _. cbv beta.
  destruct (DisableTLS cfg) eqn:Et; [apply step_ret; by left|].
  eapply (step_bind _ _ _ (fun _ _ => True)); [by apply step_gets|]. intros c2 [] _ _; cbn [negb]; [|by apply step_throw].
  eapply (step_bind _ _ _ (fun _ _ => True)).
  { apply step_cmd; [apply no_act_harmless| |done..]. apply clear_protected. set_solver. }
  intros c3 [] _ _. eapply step_bind; [apply handshake_ok|]. intros c4 [] _ _.
  eapply (step_bind _ _ _ (fun c _ => c_tls c = true)).
  { apply wp_modify. split; [|done]. split; [done|]. exists []. by rewrite app_nil_r. }
  intros c5 [] _ H5. eapply wp_mono; [apply ehlo_ok|]. intros c6 [e|[]] [Hq H6]; split; try done. right. congruence.
Qed.
Lemma authenticate_ok c : secure c -> step_ok (authenticate base64 cfg) c (fun c' _ => secure c').
Proof.
  intros Hs. unfold authenticate. destruct (_ && _); [by apply step_ret|].
  eapply (step_bind _ _ _ (fun c' _ => secure c')); [by apply step_gets|]. intros c' tls _ Hs'.
  destruct (negb tls && _); [by apply step_throw|].
  apply step_cmd; [apply no_act_harmless|by apply secure_protected|done|]. intros e es code msg _ _. exact Hs'.
Qed.

(** What the peer holds of the transaction. *)
Definition transacts (c : Conn) (from : string) (rcpts : list string) : Prop :=
  secure c /\ c_from c = from /\ c_rcpts c = rcpts.
Lemma mail_ok env b c : secure c -> step_ok (mail env b) c (fun c' _ => transacts c' (MailFrom env) []).
Proof.
  intros Hs. unfold mail. eapply (step_bind _ _ _ (fun c' _ => secure c')); [by apply step_gets|].
  intros c' declared _ Hs'.
  assert (forall params, step_ok (cmd PhaseMail 250 ("MAIL FROM:<" +:+ MailFrom env +:+ ">" +:+ params) (take_mail (MailFrom env)))
    c' (fun c' _ => transacts c' (MailFrom env) [])) as Hc.
  { intros params. apply step_cmd; [apply take_mail_harmless|by apply secure_protected|done|].
    intros e es code msg Hr Hc. apply Z.eqb_eq in Hc as ->. unfold take_mail, positive. by rewrite Hr. }
  destruct declared as [raw|]; [|apply Hc]. destruct (0 <? Size env); [|apply Hc].
  destruct (match ParseInt 10 raw with Some _ => _ | None => _ end); [by apply step_throw|apply Hc].
Qed.
Lemma rcpt_all_ok rcptTo : forall worst c, secure c ->
  step_ok (rcpt_all rcptTo worst) c (fun c' r => secure c' /\
    (r = None -> worst = None /\ c_from c' = c_from c /\ c_rcpts c' = (c_rcpts c ++ rcptTo)%list)).
Proof.
  induction rcptTo as [|x rcptTo IH]; intros worst c Hs.
  - apply step_ret. split; [done|]. by rewrite app_nil_r.
  - unfold step_ok, wp. cbn [rcpt_all].
    assert (wp (cmd PhaseRcpt 25 ("RCPT TO:<" +:+ x +:+ ">") (take_rcpt x))
      (fun c' r => quiet c c' /\ c_tls c' = c_tls c /\
         match r with inl e => early e | inr _ => c_from c' = c_from c /\ c_rcpts c' = (c_rcpts c ++ [x])%list end) c) as H.
    { apply (wp_cmd _ _ _ _ (fun c' => c_from c' = c_from c /\ c_rcpts c' = (c_rcpts c ++ [x])%list));
        [apply take_rcpt_harmless|by apply secure_protected|done| |done..].
      intros e es code msg Hr Hc. unfold take_rcpt, positive. rewrite Hr.
      assert (code / 100 =? 2 = true) as ->; [|done]. unfold code_ok in Hc. cbn in Hc. apply Z.eqb_eq in Hc. apply Z.eqb_eq.
      div_lia. }
    unfold wp in H. destruct (cmd _ _ _ _ c) as [c' [e|[]]]; cbn in H; destruct H as (Hq & Htls & H);
      assert (secure c') as Hs' by (destruct Hs; [by left|right; congruence]).
    + destruct e as [|phase code|]; [by split| |done].
      pose proof (IH (worse worst code) c' Hs') as Hr. unfold step_ok, wp in Hr.
      destruct (rcpt_all rcptTo (worse worst code) c') as [c'' [e|r]]; cbn in Hr |- *; destruct Hr as (Hq' & Hr);
        (split; [by eapply quiet_trans|]); [done|]. destruct Hr as [Hs'' Hn]. split; [done|]. intros ->.
      destruct (Hn eq_refl) as [Hw _]. by destruct worst as [w|]; cbn in Hw; [destruct (_ && _)|].
    + pose proof (IH worst c' Hs') as Hr. unfold step_ok, wp in Hr. destruct H as [Hf Hrc].
      destruct (rcpt_all rcptTo worst c') as [c'' [e|r]]; cbn in Hr |- *; destruct Hr as (Hq' & Hr);
        (split; [by eapply quiet_trans|]); [done|]. destruct Hr as [Hs'' Hn]. split; [done|]. intros ->.
      destruct (Hn eq_refl) as (-> & -> & ->). by rewrite Hf, Hrc, <- app_assoc.
Qed.
Lemma rcpt_ok rcptTo c from : transacts c from [] ->
  step_ok (rcpt rcptTo) c (fun c' _ => transacts c' from rcptTo).
Proof.
  intros (Hs & Hf & Hr). unfold rcpt. eapply step_bind; [by apply rcpt_all_ok|]. intros c' [code|] _ [Hs' Hn].
  - eapply (step_bind _ _ _ (fun _ _ => True)); [|intros; by apply step_throw].
    unfold step_ok, wp, best_effort.
    assert (step_ok (cmd PhaseRcpt 250 "RSET" take_rset) c' (fun _ _ => True)) as H.
    { apply step_cmd; [apply take_rset_harmless|by apply secure_protected|done..]. }
    unfold step_ok, wp in H. destruct (cmd _ _ _ _ c') as [c'' [[]|[]]]; naive_solver.
  - apply step_ret. destruct (Hn eq_refl) as (_ & Hf' & Hr'). split; [done|]. rewrite Hr in Hr'. split; [congruence|done].
Qed.

(** No reply was read, or a positive one that is not the 250 the client waits for. *)
Definition unread_success (code : Z) : Prop := code = 0 \/ (code / 100 = 2 /\ code <> 250).

(** What one attempt may add to what the peer took: the message, complete and for every
    recipient, or nothing. *)
Definition whole (env : Envelope) (msg : string) : delivery :=
  mkDelivery (MailFrom env) (RcptTo env) (undot true (DotWriter msg)).
Definition attempted (env : Envelope) (msg : string) (c c' : Conn) (r : SendError + string) : Prop :=
  (exists l, c_sent c' = (c_sent c ++ l)%list /\ Forall protected l) /\
  ((c_taken c' = c_taken c /\ match r with inl e => match e with AcceptedUnrecorded _ => False | _ => True end | inr _ => False end) \/
   (c_taken c' = (c_taken c ++ [whole env msg])%list /\
    match r with inl e => e = Died \/ exists code, e = SmtpError PhaseDataClose code /\ unread_success code | inr _ => True end)).

Lemma data_ok env msg c : transacts c (MailFrom env) (RcptTo env) -> wp (data msg) (attempted env msg c) c.
Proof.
  intros (Hs & Hf & Hr). unfold data. apply wp_bind.
  apply (wp_cmd _ _ _ _ (fun c' => transacts c' (MailFrom env) (RcptTo env)));
    [apply no_act_harmless|by apply secure_protected|done|done| |].
  - intros c1 [Ht1 (l1 & El1 & Fl1)] Htls (Hs1 & Hf1 & Hr1). apply wp_bind, wp_exchange. intros e es c'.
    assert (exists l, c_sent c' = (c_sent c ++ l)%list /\ Forall protected l) as Hsent.
    { exists (l1 ++ [(c_tls c1, DotWriter msg)])%list. unfold c', take_data.
      split; [destruct (positive e); cbn; by rewrite El1, app_assoc|]. apply Forall_app. split; [done|].
      constructor; [by apply secure_protected|done]. }
    assert (c_taken c' = if positive e then (c_taken c ++ [whole env msg])%list else c_taken c) as Htaken.
    { unfold c', take_data, whole. destruct (positive e); cbn; [|done]. by rewrite Ht1, Hf1, Hr1. }
    split; [split; [done|]; destruct (positive e); [right|left]; split; auto|].
    split; [intros He; split; [done|]; unfold positive in Htaken; rewrite He in Htaken; destruct (ev_taken e); [right|left]; (split; [done|]);
      [right; exists 0; split; [done|by left]|done]|].
    intros code rmsg He. unfold positive in Htaken. rewrite He in Htaken.
    change (code_ok 250 code) with (code =? 250). destruct (Z.eqb_spec code 250) as [->|Hne]; [apply wp_ret; split; [done|]; right; by split|].
    split; [done|]. destruct (Z.eqb_spec (code / 100) 2); [right|left]; (split; [done|]); [|done]. right. exists code. split; [done|by right].
  - intros c1 e [Ht1 Hl1] _ He. split; [done|]. left. split; [done|]. by destruct e.
Qed.

Lemma transaction_ok env msg c : wp (transaction ToUpper base64 cfg env msg) (attempted env msg c) c.
Proof.
  unfold transaction.
  assert (forall c' e, quiet c c' -> early e -> attempted env msg c c' (inl e)) as Hearly.
  { intros c' e [Ht Hl] He. split; [done|]. left. split; [done|]. by destruct e. }
  destruct (String.eqb _ _); [apply wp_throw, Hearly; [apply quiet_refl|done]|].
  destruct (bool_decide _); [apply wp_throw, Hearly; [apply quiet_refl|done]|].
  assert (forall c' r, quiet c c' -> attempted env msg c' (r : Conn * (SendError + string)).1 r.2 -> attempted env msg c r.1 r.2) as Hmore.
  { intros c' [c'' r] [Ht (l & El & Fl)] [(l' & El' & Fl') H]. cbn in *. split.
    - exists (l ++ l')%list. split; [by rewrite El', El, app_assoc|by apply Forall_app].
    - by rewrite Ht in H. }
  assert (forall {A} (m : CM A) (k : A -> CM string) R c', quiet c c' -> step_ok m c' R ->
    (forall c'' a, quiet c c'' -> R c'' a -> wp (k a) (attempted env msg c) c'') -> wp (m ≫= k) (attempted env msg c) c') as Hb.
  { intros A m k R c' Hq Hm Hk. unfold step_ok in Hm. apply wp_bind. eapply wp_mono; [exact Hm|]. intros c'' [e|a] [Hq' H].
    - apply Hearly; [by eapply quiet_trans|done].
    - apply Hk; [by eapply quiet_trans|done]. }
  eapply Hb; [apply quiet_refl|apply open_ok|]. intros c1 [] Hq1 _.
  eapply Hb; [done|apply hello_ok|]. intros c2 [] Hq2 Hs2. eapply Hb; [done|by apply authenticate_ok|]. intros c3 [] Hq3 Hs3.
  eapply (Hb _ _ _ (fun c _ => secure c)); [done|by apply step_gets|]. intros c4 b Hq4 Hs4.
  eapply Hb; [done|by apply mail_ok|]. intros c5 [] Hq5 Hm5. eapply Hb; [done|by apply rcpt_ok|]. intros c6 [] Hq6 Hm6.
  unfold wp. apply (Hmore c6); [done|]. by apply data_ok.
Qed.
End spec.

(** C12: one transaction delivers the message to all its recipients or to nobody: what the
    peer takes is the complete message, unchanged but for a final line break, for exactly
    the envelope's recipients. A reported success was taken; an error with a reply code
    was not, unless the code is a positive answer to the text that is not the 250 the
    client waits for; only that, or a lost answer to the text, leaves an error open.
    Nothing but the greeting, EHLO and STARTTLS travels unencrypted. *)
Theorem transaction_all_or_nothing ToUpper base64 cfg env raw messageID createdAt c c' r :
  chars_in visible messageID = true -> begins_with_field (normalizeCRLF raw) ->
  let msg := PrepareTransmission raw messageID createdAt in
  transaction ToUpper base64 cfg env msg c = (c', r) ->
  (exists sent, c_sent c' = (c_sent c ++ sent)%list /\
     (DisableTLS cfg = false -> Forall (fun x => x.1 = true \/ x.2 ∈ in_clear cfg) sent)) /\
  exists new, c_taken c' = (c_taken c ++ new)%list /\
    (new = [] \/ exists e, (e = "" \/ e = eol) /\ new = [mkDelivery (MailFrom env) (RcptTo env) (Some (msg +:+ e))]) /\
    match r with
    | inr _ => new <> []
    | inl (SmtpError phase code) => new <> [] -> phase = PhaseDataClose /\ unread_success code
    | inl Died => True
    | inl (AcceptedUnrecorded _) => False
    end.
Proof.
  intros Hid Hb msg Heq. pose proof (transaction_ok ToUpper base64 cfg env msg c) as H. unfold wp in H. rewrite Heq in H.
  cbn [fst snd] in H. destruct H as [(l & El & Fl) H]. split.
  { exists l. split; [done|]. intros Hd. eapply Forall_impl; [exact Fl|]. intros x [Hx|[Hx|Hx]]; [congruence|auto|auto]. }
  destruct H as [[Ht Hr]|[Ht Hr]].
  - exists []. rewrite app_nil_r. split; [done|]. split; [by left|]. by destruct r as [[]|].
  - exists [whole env msg]. split; [done|]. split.
    + right. destruct (dot_roundtrip msg) as (e & He & Hu); [by apply prepared_normal|]. exists e. split; [done|].
      unfold whole. by rewrite Hu.
    + destruct r as [[]|]; [done| |by destruct Hr as [?|(? & ? & _)]|done]. intros _. destruct Hr as [?|(code' & Hr & Hu)]; [done|]. injection Hr as -> ->. done.
Qed.

(** ** A concrete conversation *)

Definition sample_cfg : Config := mkConfig false "moov" "u" "p".
Definition sample_env : Envelope := mkEnvelope "a@x.example" ["b@x.example"; "c@x.example"] 0.
Definition says (code : Z) : event := mkEvent (Some (code, "ok")) false false.
Definition offers_tls : event := mkEvent (Some (250, "mail" +:+ String LF "STARTTLS" +:+ String LF "SIZE 1000")) false false.
(** Greeting, EHLO, STARTTLS, handshake, EHLO, AUTH, MAIL. *)
Definition welcome : list event := [says 220; offers_tls; says 220; says 220; offers_tls; says 235; says 250].
Definition connect (es : list event) : Conn := mkConn es false ∅ [] "" [] [].
Definition same_case (s : string) : string := s.
Definition converse (es : list event) : Conn * (SendError + string) :=
  transaction same_case same_case sample_cfg sample_env lf_draft (connect es).

Example accepted :
  let '(c, r) := converse (welcome ++ [says 250; says 251; says 354; says 250])%list in
  r = inr "250 ok" /\ List.length (c_taken c) = 1%nat.
Proof. vm_compute. by split. Qed.

(** One refused recipient: the others do not get the message either, and the permanent
    refusal decides. *)
Example refused_for_all :
  let '(c, r) := converse (welcome ++ [says 450; says 550; says 250; says 354; says 250])%list in
  r = inl (SmtpError "rcpt" 550) /\ c_taken c = [].
Proof. vm_compute. by split. Qed.

(** The peer takes the message and the answer is lost: the error is the transient one of
    a connection that broke before. *)
Example lost_answer :
  let '(c, r) := converse (welcome ++ [says 250; says 250; says 354; mkEvent None true false])%list in
  r = inl (SmtpError "data-close" 0) /\ List.length (c_taken c) = 1%nat /\ IsPermanent (SmtpError "data-close" 0) = false.
Proof. vm_compute. by split. Qed.

(** A server that does not offer STARTTLS gets no credentials. *)
Example stripped_tls :
  let '(c, r) := converse [says 220; says 250; says 235; says 250; says 250; says 354; says 250] in
  r = inl (SmtpError "starttls" 0) /\ c_sent c = [(false, ""); (false, "EHLO moov")].
Proof. vm_compute. by split. Qed.

Lemma transaction_all_or_nothing_witness :
  exists new, c_taken (transaction same_case same_case sample_cfg sample_env
      (PrepareTransmission lf_draft "m1@x.example" (GoTime.mkTime 1767225600 0 0))
      (connect (welcome ++ [says 250; says 251; says 354; says 250])%list)).1 = new /\ new <> [].
Proof.
  destruct (transaction same_case same_case sample_cfg sample_env
      (PrepareTransmission lf_draft "m1@x.example" (GoTime.mkTime 1767225600 0 0))
      (connect (welcome ++ [says 250; says 251; says 354; says 250])%list)) as [c r] eqn:E.
  pose proof (f_equal snd E) as Er. vm_compute in Er. cbn in Er. subst r.
  destruct (transaction_all_or_nothing same_case same_case sample_cfg sample_env lf_draft "m1@x.example"
    (GoTime.mkTime 1767225600 0 0) _ c (inr "250 ok") eq_refl eq_refl E) as (_ & new & Ht & _ & Hn).
  exists new. cbn [fst]. split; [exact Ht|exact Hn].
Defined.
