(* ===== verification/Outbox.v ===== *)
(** The outbox (submit/outbox.go) over the send intents of the store
    (store/submission.go) and the mailboxes it touches (sync/append.go, sync/snooze.go).

    Programs run over [World]. Each statement and each IMAP operation first takes an
    [entry] of the schedule: what other goroutines did in the meantime (the JMAP handlers
    queue, cancel and destroy submissions, mail moves, time passes) and whether the
    operation succeeds, fails before or after it took effect, or the process dies. A
    theorem over all schedules is one over every interleaving and every crash. Error texts
    are left out. *)

From S2P Require Import Prelude Text GoStrings GoTime Jmap Json JsonDecode Transmission Smtp.
From Stdlib Require Import Ascii String.
#[local] Open Scope string_scope.
#[local] Open Scope Z_scope.

(** ** The intents table *)

Inductive IntentState := IntentQueued | IntentInFlight | IntentDone | IntentFailed | IntentCanceled.
#[global] Instance IntentState_eq_dec : EqDecision IntentState.
Proof. solve_decision. Defined.

(** Times are nanoseconds since Go's zero time. *)
Record SendIntent := mkIntent {
  si_ID : Z; si_AccountID : Z; si_EmailID : Z; si_MessageRFCID : string; si_Payload : string;
  si_State : IntentState; si_Attempts : Z; si_NotBefore : Z;
  si_AcceptedAt : option Z; si_AcceptedReply : string; si_AppendedAt : option Z;
  si_CanceledAt : option Z; si_DestroyedAt : option Z; si_CreatedAt : Z; si_UpdatedAt : Z
}.
Definition Accepted (s : SendIntent) : bool := bool_decide (is_Some (si_AcceptedAt s)).

(** ** The world *)

Inductive role := RoleDrafts | RoleSent | RoleTrash | RoleOther.
#[global] Instance role_eq_dec : EqDecision role.
Proof. solve_decision. Defined.
(** A message of the store: its mailbox, whether it is still there, and its bytes while the
    blob store has them. *)
Record MailRow := mkMail { ml_Account : Z; ml_Mailbox : role; ml_Live : bool; ml_MessageID : string; ml_Raw : option string }.

(** What others do between two operations of the outbox. *)
Inductive action :=
  | AEnqueue (accountID emailID : Z) (messageRFCID payload : string) (notBefore : Z)
  | ACancel (accountID id : Z)
  | ADestroy (accountID id : Z)
  | AMail (id : Z) (m : MailRow)
  | ATick (d : Z).
Inductive fault := Fine | FailBefore | FailAfter | DieBefore | DieAfter.
Record entry := mkEntry { en_acts : list action; en_fault : fault }.

Record World := mkWorld {
  ow_intents : gmap Z SendIntent;
  ow_mail : gmap Z MailRow;
  ow_roles : list (Z * role);          (* the special mailboxes an account has *)
  ow_now : Z;
  ow_schedule : list entry;
  ow_conn : Conn;                      (* the submission server *)
  ow_executing : gset Z;               (* the memory of the process *)
  ow_delivered : list Z;               (* the intents whose message the server took *)
  ow_lost : list Z;                    (* acceptances that were not recorded *)
  ow_found : list Z                    (* intents whose Message-ID a probe found in Sent *)
}.
(** The process died, or an operation returned an error. *)
Inductive failure := Crash | Err.
Definition OM := M World failure.

Definition set_intents (w : World) (t : gmap Z SendIntent) : World :=
  mkWorld t (ow_mail w) (ow_roles w) (ow_now w) (ow_schedule w) (ow_conn w) (ow_executing w) (ow_delivered w) (ow_lost w) (ow_found w).
Definition set_mail (w : World) (t : gmap Z MailRow) : World :=
  mkWorld (ow_intents w) t (ow_roles w) (ow_now w) (ow_schedule w) (ow_conn w) (ow_executing w) (ow_delivered w) (ow_lost w) (ow_found w).
Definition set_now (w : World) (t : Z) : World :=
  mkWorld (ow_intents w) (ow_mail w) (ow_roles w) t (ow_schedule w) (ow_conn w) (ow_executing w) (ow_delivered w) (ow_lost w) (ow_found w).
Definition set_schedule (w : World) (s : list entry) : World :=
  mkWorld (ow_intents w) (ow_mail w) (ow_roles w) (ow_now w) s (ow_conn w) (ow_executing w) (ow_delivered w) (ow_lost w) (ow_found w).
Definition set_executing (w : World) (s : gset Z) : World :=
  mkWorld (ow_intents w) (ow_mail w) (ow_roles w) (ow_now w) (ow_schedule w) (ow_conn w) s (ow_delivered w) (ow_lost w) (ow_found w).
Definition set_lost (w : World) (l : list Z) : World :=
  mkWorld (ow_intents w) (ow_mail w) (ow_roles w) (ow_now w) (ow_schedule w) (ow_conn w) (ow_executing w) (ow_delivered w) l (ow_found w).
Definition set_found (w : World) (l : list Z) : World :=
  mkWorld (ow_intents w) (ow_mail w) (ow_roles w) (ow_now w) (ow_schedule w) (ow_conn w) (ow_executing w) (ow_delivered w) (ow_lost w) l.

(** ** Statements on the intents *)

Definition with_state (s : SendIntent) (st : IntentState) (attempts notBefore now : Z) : SendIntent :=
  mkIntent (si_ID s) (si_AccountID s) (si_EmailID s) (si_MessageRFCID s) (si_Payload s) st attempts notBefore
    (si_AcceptedAt s) (si_AcceptedReply s) (si_AppendedAt s) (si_CanceledAt s) (si_DestroyedAt s) (si_CreatedAt s) now.
Definition with_phase (s : SendIntent) (accepted : option Z) (reply : string) (appended : option Z) (now : Z) : SendIntent :=
  mkIntent (si_ID s) (si_AccountID s) (si_EmailID s) (si_MessageRFCID s) (si_Payload s) (si_State s) (si_Attempts s)
    (si_NotBefore s) accepted reply appended (si_CanceledAt s) (si_DestroyedAt s) (si_CreatedAt s) now.
Definition with_end (s : SendIntent) (st : IntentState) (canceled destroyed : option Z) (now : Z) : SendIntent :=
  mkIntent (si_ID s) (si_AccountID s) (si_EmailID s) (si_MessageRFCID s) (si_Payload s) st (si_Attempts s) (si_NotBefore s)
    (si_AcceptedAt s) (si_AcceptedReply s) (si_AppendedAt s) canceled destroyed (si_CreatedAt s) now.

(** [EnqueueSendIntent]: the zero time means now; the id is the next of the sequence. *)
Definition next_id (t : gmap Z SendIntent) : Z := map_fold (fun k _ m => Z.max (k + 1) m) 1 t.
Definition EnqueueSendIntent (accountID emailID : Z) (messageRFCID payload : string) (notBefore : Z) (w : World) : World * SendIntent :=
  let notBefore := if Prelude.IsZero notBefore then ow_now w else notBefore in
  let id := next_id (ow_intents w) in
  let s := mkIntent id accountID emailID messageRFCID payload IntentQueued 0 notBefore None "" None None None (ow_now w) (ow_now w) in
  (set_intents w (<[id := s]> (ow_intents w)), s).

(** Still in the undo window, or past it and not claimed. *)
Definition cancelable (s : SendIntent) : bool := bool_decide (si_State s = IntentQueued) && negb (Accepted s).

Inductive CancelError := ErrNotFound | ErrSubmissionNotCancelable.
Definition CancelSendIntent (accountID id : Z) (w : World) : World * (CancelError + SendIntent) :=
  match ow_intents w !! id with
  | Some s =>
      if negb (si_AccountID s =? accountID) then (w, inl ErrNotFound)
      else if cancelable s then
        let s' := with_end s IntentCanceled (Some (ow_now w)) (si_DestroyedAt s) (ow_now w) in
        (set_intents w (<[id := s']> (ow_intents w)), inr s')
      else if bool_decide (si_State s = IntentCanceled) then (w, inr s)
      else (w, inl ErrSubmissionNotCancelable)
  | None => (w, inl ErrNotFound)
  end.
Definition DestroySendIntent (accountID id : Z) (w : World) : World * (CancelError + SendIntent) :=
  match ow_intents w !! id with
  | Some s =>
      if negb (si_AccountID s =? accountID) then (w, inl ErrNotFound)
      else
        let destroyed := Some (default (ow_now w) (si_DestroyedAt s)) in
        let s' := if cancelable s then with_end s IntentCanceled (Some (ow_now w)) destroyed (ow_now w)
                  else with_end s (si_State s) (si_CanceledAt s) destroyed (ow_now w) in
        (set_intents w (<[id := s']> (ow_intents w)), inr s')
  | None => (w, inl ErrNotFound)
  end.

Definition act (a : action) (w : World) : World :=
  match a with
  | AEnqueue accountID emailID rfc payload notBefore => (EnqueueSendIntent accountID emailID rfc payload notBefore w).1
  | ACancel accountID id => (CancelSendIntent accountID id w).1
  | ADestroy accountID id => (DestroySendIntent accountID id w).1
  | AMail id m => set_mail w (<[id := m]> (ow_mail w))
  | ATick d => set_now w (ow_now w + Z.max 0 d)
  end.
Definition acts (l : list action) (w : World) : World := foldl (fun w a => act a w) w l.

(** An operation of the outbox under the schedule; an exhausted schedule is quiet. *)
Definition io {A} (f : World -> World * (failure + A)) : OM A := fun w =>
  let '(e, s) := match ow_schedule w with e :: s => (e, s) | [] => (mkEntry [] Fine, []) end in
  let w := acts (en_acts e) (set_schedule w s) in
  match en_fault e with
  | Fine => f w
  | FailBefore => (w, inl Err)
  | FailAfter => ((f w).1, inl Err)
  | DieBefore => (w, inl Crash)
  | DieAfter => ((f w).1, inl Crash)
  end.
(** An error is a value for the caller; the end of the process is not. *)
Definition try {A} (m : OM A) : OM (option A) := fun w =>
  match m w with
  | (w, inr a) => (w, inr (Some a))
  | (w, inl Err) => (w, inr None)
  | (w, inl Crash) => (w, inl Crash)
  end.

(** ** The queue of the executor *)

Section queue.
(** PostgreSQL returns the rows of an UPDATE and the values of a DISTINCT in any order. *)
Context (order : list SendIntent -> list SendIntent) (order_accounts : list Z -> list Z).

Definition due (now : Z) (s : SendIntent) : bool :=
  bool_decide (si_State s = IntentQueued) && (si_NotBefore s <=? now).
Definition rows (w : World) : list SendIntent := (map_to_list (ow_intents w)).*2.

Definition DueSendAccounts : OM (list Z) := io (fun w =>
  (w, inr (order_accounts (remove_dups (si_AccountID <$> filter (fun s => due (ow_now w) s = true) (rows w)))))).

(** The rows a claim takes: ORDER BY not_before, id LIMIT. *)
Definition due_le (a b : SendIntent) : Prop :=
  si_NotBefore a < si_NotBefore b \/ (si_NotBefore a = si_NotBefore b /\ si_ID a <= si_ID b).
#[global] Instance due_le_dec a b : Decision (due_le a b) := ltac:(unfold due_le; apply _).
Definition claimable (accountID : Z) (limit : nat) (w : World) : list SendIntent :=
  take limit (merge_sort due_le (filter (fun s => si_AccountID s = accountID /\ due (ow_now w) s = true) (rows w))).
(** UPDATE of the rows whose id is among those of [l]. *)
Definition update_all (f : SendIntent -> SendIntent) (l : list SendIntent) (t : gmap Z SendIntent) : gmap Z SendIntent :=
  (fun s => if decide (si_ID s ∈ si_ID <$> l) then f s else s) <$> t.

Definition ClaimDueSendIntents (accountID : Z) (limit : Z) : OM (list SendIntent) := io (fun w =>
  let limit := if limit <=? 0 then 10 else limit in
  let claim s := with_state s IntentInFlight (si_Attempts s + 1) (si_NotBefore s) (ow_now w) in
  let l := claimable accountID (Z.to_nat limit) w in
  (set_intents w (update_all claim l (ow_intents w)), inr (order (claim <$> l)))).
Definition RecoverInFlightSendIntents : OM (list SendIntent) := io (fun w =>
  let recover s := with_state s (si_State s) (si_Attempts s + 1) (si_NotBefore s) (ow_now w) in
  let l := filter (fun s => si_State s = IntentInFlight) (rows w) in
  (set_intents w (update_all recover l (ow_intents w)), inr (order (recover <$> l)))).

(** A statement on the row of [id]; no row is an error. *)
Definition update_row (id : Z) (f : Z -> SendIntent -> SendIntent) (w : World) : World * (failure + unit) :=
  match ow_intents w !! id with
  | Some s => (set_intents w (<[id := f (ow_now w) s]> (ow_intents w)), inr tt)
  | None => (w, inl Err)
  end.
(** [MarkSendIntentAccepted]; a row that is accepted already stays as it is. *)
Definition mark_accepted (reply : string) (now : Z) (s : SendIntent) : SendIntent :=
  if Accepted s then s else with_phase s (Some now) reply (si_AppendedAt s) now.
Definition MarkSendIntentAccepted (id : Z) (reply : string) : OM unit := io (update_row id (mark_accepted reply)).
Definition MarkSendIntentAppended (id : Z) : OM unit := io (update_row id (fun now s =>
  with_phase s (si_AcceptedAt s) (si_AcceptedReply s) (Some (default now (si_AppendedAt s))) now)).
Definition CompleteIntent (id : Z) : OM unit := io (update_row id (fun now s =>
  with_state s IntentDone (si_Attempts s) (si_NotBefore s) now)).
Definition FailIntent (id : Z) (retryAt : option Z) : OM unit := io (update_row id (fun now s =>
  with_state s (if retryAt then IntentQueued else IntentFailed) (si_Attempts s) (default now retryAt) now)).
(** [GetAccount] of an account that exists. *)
Definition GetAccount (accountID : Z) : OM unit := io (fun w => (w, inr tt)).

(** ** The mailboxes *)

(** [RawMessage] of jmap/mail/adapter.go, read to its end. *)
Definition RawMessage (accountID messageID : Z) : OM string := io (fun w =>
  match ow_mail w !! messageID with
  | Some m =>
      if negb (ml_Account m =? accountID) then (w, inl Err)
      else match ml_Raw m with Some raw => (w, inr raw) | None => (w, inl Err) end
  | None => (w, inl Err)
  end).

(** [MailboxContainsMessageID] on the account's Sent mailbox. *)
Definition in_sent (accountID : Z) (messageID : string) (m : MailRow) : bool :=
  (ml_Account m =? accountID) && bool_decide (ml_Mailbox m = RoleSent) && ml_Live m && String.eqb (ml_MessageID m) messageID.
Definition sent_contains (accountID : Z) (messageID : string) (w : World) : bool :=
  existsb (in_sent accountID messageID) ((map_to_list (ow_mail w)).*2).
Definition has_role (w : World) (accountID : Z) (r : role) : bool := bool_decide ((accountID, r) ∈ ow_roles w).
Definition SentContainsMessageID (accountID : Z) (messageID : string) : OM bool :=
  if String.eqb messageID "" then mret false
  else io (fun w => (w, inr (has_role w accountID RoleSent && sent_contains accountID messageID w))).

(** APPEND to Sent and its reflection in the store: a new message with the appended
    bytes. *)
Definition next_mail (t : gmap Z MailRow) : Z := map_fold (fun k _ m => Z.max (k + 1) m) 1 t.
Definition ApplyAppend (accountID : Z) (raw : string) : OM unit := io (fun w =>
  if String.eqb raw "" then (w, inl Err)
  else (set_mail w (<[next_mail (ow_mail w) := mkMail accountID RoleSent true (MessageIDOf raw) (Some raw)]> (ow_mail w)), inr tt)).
Definition AppendToSent (accountID : Z) (raw messageID : string) : OM bool :=
  dup ← SentContainsMessageID accountID messageID;
  if dup : bool then mret true
  else
    sent ← io (fun w => (w, if has_role w accountID RoleSent then inr tt else inl Err));
    ApplyAppend accountID raw ≫= fun _ => mret false.

(** [ApplyDestroy]: out of Trash the message is expunged, elsewhere it moves to Trash. *)
Definition ApplyDestroy (accountID messageID : Z) : OM bool := io (fun w =>
  match ow_mail w !! messageID with
  | Some m =>
      if negb (ml_Account m =? accountID) || negb (ml_Live m) then (w, inr false)
      else if bool_decide (ml_Mailbox m = RoleTrash)
      then (set_mail w (<[messageID := mkMail (ml_Account m) RoleTrash false (ml_MessageID m) (ml_Raw m)]> (ow_mail w)), inr true)
      else if has_role w accountID RoleTrash
      then (set_mail w (<[messageID := mkMail (ml_Account m) RoleTrash true (ml_MessageID m) (ml_Raw m)]> (ow_mail w)), inr true)
      else (w, inl Err)
  | None => (w, inr false)
  end).
(** [RetireDraft]: a message that is gone already is no error. *)
Definition RetireDraft (accountID messageID : Z) : OM unit := _ ← ApplyDestroy accountID messageID; mret tt.
End queue.

(** ** The executor *)

(** [IntentEnvelope] and its JSON. *)
Record IntentEnvelope := mkIntentEnvelope { ie_IdentityID : string; ie_MailFrom : string; ie_RcptTo : list string }.
Definition envelope_json (e : IntentEnvelope) : JSON :=
  JObj [("identityId", JStr (ie_IdentityID e)); ("mailFrom", JStr (ie_MailFrom e));
        ("rcptTo", JArr (JStr <$> ie_RcptTo e))].
Definition envelope_fields : list (field IntentEnvelope) :=
  [at_field "identityId" ie_IdentityID (fun e x => mkIntentEnvelope x (ie_MailFrom e) (ie_RcptTo e)) dec_string;
   at_field "mailFrom" ie_MailFrom (fun e x => mkIntentEnvelope (ie_IdentityID e) x (ie_RcptTo e)) dec_string;
   at_field "rcptTo" ie_RcptTo (fun e x => mkIntentEnvelope (ie_IdentityID e) (ie_MailFrom e) x) dec_strings].
Definition decode_envelope (payload : string) : option IntentEnvelope :=
  j ← Parse payload; dec_struct envelope_fields (mkIntentEnvelope "" "" []) j.

Record Options := mkOptions { ClaimBatch : Z; MaxAttempts : Z; RetryBase : Z; RetryMax : Z; Drafts : bool }.
Definition positive_or (v d : Z) : Z := if v <=? 0 then d else v.
Definition withDefaults (o : Options) : Options :=
  mkOptions (positive_or (ClaimBatch o) 10) (positive_or (MaxAttempts o) 8)
    (positive_or (RetryBase o) (30 * Second)) (positive_or (RetryMax o) (10 * Minute)) (Drafts o).

Definition maxUndoWindow : Z := 30 * Second.
Definition ScheduledIntent (s : SendIntent) : bool :=
  Prelude.After (si_NotBefore s) (si_CreatedAt s + maxUndoWindow).

(** The instant as a calendar time. *)
Definition calendar (t : Z) : Time := mkTime (t / Second - 62135596800) (t mod Second) 0.

Section outbox.
Context (order : list SendIntent -> list SendIntent) (order_accounts : list Z -> list Z).
Context (ToUpper base64 : string -> string) (config : Z -> Config).
(** The jitter of [backoff]. *)
Context (jitter : Z -> Z).
Context (opts : Options).

(** [prepare]. *)
Definition prepare (s : SendIntent) : OM (string * Envelope) :=
  match decode_envelope (si_Payload s) with
  | None => throw Err
  | Some env =>
      if String.eqb (ie_MailFrom env) "" || bool_decide (ie_RcptTo env = []) then throw Err
      else
        raw ← RawMessage (si_AccountID s) (si_EmailID s);
        let msg := PrepareTransmission raw (si_MessageRFCID s) (calendar (si_CreatedAt s)) in
        mret (msg, mkEnvelope (ie_MailFrom env) (ie_RcptTo env) (Z.of_nat (String.length msg)))
  end.

(** The loop of [backoff]. *)
Fixpoint doubled (n : nat) (d : Z) : Z :=
  match n with
  | O => d
  | S n => if d <? RetryMax opts then doubled n (2 * d) else d
  end.
Definition backoff (attempts : Z) : Z :=
  jitter (Z.min (doubled (Z.to_nat (attempts - 1)) (RetryBase opts)) (RetryMax opts)).

Definition requeue (s : SendIntent) : OM unit :=
  now ← gets ow_now;
  _ ← try (FailIntent (si_ID s) (Some (now + backoff (si_Attempts s)))); mret tt.
Definition failPermanently (s : SendIntent) : OM unit :=
  _ ← try (FailIntent (si_ID s) None); mret tt.

(** The context ends, as the schedule has it. *)
Definition ctx_done : OM bool := r ← try (io (fun w => (w, inr tt))); mret (match r with Some _ => false | None => true end).

(** The loop of [persistAcceptance]. *)
Fixpoint persist_loop (n : nat) (id : Z) (reply : string) : OM unit :=
  match n with
  | O => throw Err
  | S n =>
      r ← try (MarkSendIntentAccepted id reply);
      match r with
      | Some _ => mret tt
      | None => stop ← ctx_done; if stop : bool then throw Err else persist_loop n id reply
      end
  end.
Definition persistAcceptance (id : Z) (reply : string) : OM unit := persist_loop 6 id reply.

Definition markAccepted (s : SendIntent) (reply : string) : OM SendIntent :=
  now ← gets ow_now; mret (with_phase s (Some now) reply (si_AppendedAt s) (si_UpdatedAt s)).

(** The transport: a program on the connection, with what the server takes noted down
    for the intent, and as lost when the program does not learn of it. *)
Definition on_smtp (id : Z) (A : Type) (m : CM A) : M World SendError A := fun w =>
  let '(c, r) := m (ow_conn w) in
  let new := (List.length (c_taken c) - List.length (c_taken (ow_conn w)))%nat in
  (mkWorld (ow_intents w) (ow_mail w) (ow_roles w) (ow_now w) (ow_schedule w) c (ow_executing w)
     (replicate new id ++ ow_delivered w)
     ((if r then replicate new id else []) ++ ow_lost w) (ow_found w), r).
Definition recorded (id : Z) (w : World) : bool :=
  match ow_intents w !! id with Some s => Accepted s | None => false end.
(** The callback, with an acceptance that was not recorded noted down as lost. *)
Definition on_accepted (id : Z) (reply : string) : M World SendError unit := fun w =>
  let '(w, r) := MarkSendIntentAccepted id reply w in
  let w := if recorded id w then w else set_lost w (id :: ow_lost w) in
  (w, match r with inr _ => inr tt | inl Crash => inl Died | inl Err => inl (SmtpError "" 0) end).
(** [smtpTransport.Send] of cmd/moovd: the credential may be unreadable. *)
Definition transport (s : SendIntent) (env : Envelope) (msg : string) : M World SendError string := fun w =>
  match try (io (fun w => (w, inr tt))) w with
  | (w, inl _) => (w, inl Died)
  | (w, inr None) => (w, inl (SmtpError "" 0))
  | (w, inr (Some _)) =>
      Send ToUpper base64 (config (si_AccountID s)) (on_smtp (si_ID s)) env msg (on_accepted (si_ID s)) w
  end.

(** What [transmit] makes of the outcome of the transport. *)
Definition recorded_late (s : SendIntent) (reply : string) : OM (option SendIntent) :=
  r ← try (persistAcceptance (si_ID s) reply);
  match r with
  | None => mret None
  | Some _ => s' ← markAccepted s reply; mret (Some s')
  end.
Definition not_sent (s : SendIntent) (e : SendError) : OM (option SendIntent) :=
  (if IsPermanent e || (MaxAttempts opts <=? si_Attempts s) then failPermanently s else requeue s) ≫= fun _ =>
  mret None.
Definition deliver (s : SendIntent) (env : Envelope) (msg : string) : OM (option SendIntent) := fun w =>
  match transport s env msg w with
  | (w, inr reply) => (s' ← markAccepted s reply; mret (Some s') : OM (option SendIntent)) w
  | (w, inl Died) => (w, inl Crash)
  | (w, inl (AcceptedUnrecorded reply)) => recorded_late s reply w
  | (w, inl e) => not_sent s e w
  end.
(** The half of [transmit] after the probe. *)
Definition send_now (s : SendIntent) : OM (option SendIntent) :=
  p ← try (prepare s);
  match p with
  | None => failPermanently s ≫= fun _ => mret None
  | Some (msg, env) =>
      a ← try (GetAccount (si_AccountID s));
      match a with
      | None => requeue s ≫= fun _ => mret None
      | Some _ => deliver s env msg
      end
  end.
(** [transmit]: the accepted intent, or None. *)
Definition transmit (s : SendIntent) (recovered : bool) : OM (option SendIntent) :=
  if recovered || (1 <? si_Attempts s) then
    found ← try (SentContainsMessageID (si_AccountID s) (si_MessageRFCID s));
    match found with
    | None => requeue s ≫= fun _ => mret None
    | Some true =>
        modify (fun w => set_found w (si_ID s :: ow_found w)) ≫= fun _ =>
        let reply := "recovered: message found in Sent by Message-ID" in
        r ← try (persistAcceptance (si_ID s) reply);
        match r with
        | None => requeue s ≫= fun _ => mret None
        | Some _ => s' ← markAccepted s reply; mret (Some s')
        end
    | Some false => send_now s
    end
  else send_now s.

(** The Sent copy of [postSend]: whether the phase may be stamped. *)
Definition sent_copy (s : SendIntent) : OM bool :=
  p ← try (prepare s);
  match p with
  | None => mret true
  | Some (msg, _) =>
      r ← try (AppendToSent (si_AccountID s) msg (si_MessageRFCID s));
      match r with
      | None => requeue s ≫= fun _ => mret false
      | Some _ => mret true
      end
  end.
Definition append_phase (s : SendIntent) : OM (option SendIntent) :=
  if si_AppendedAt s then mret (Some s)
  else
    ok ← sent_copy s;
    if ok : bool then
      r ← try (MarkSendIntentAppended (si_ID s));
      match r with
      | None => requeue s ≫= fun _ => mret None
      | Some _ => now ← gets ow_now;
          mret (Some (with_phase s (si_AcceptedAt s) (si_AcceptedReply s) (Some now) (si_UpdatedAt s)))
      end
    else mret None.
Definition retireScheduledDraft (s : SendIntent) : OM unit :=
  if negb (Drafts opts) || (si_EmailID s =? 0) || negb (ScheduledIntent s) then mret tt
  else _ ← try (RetireDraft (si_AccountID s) (si_EmailID s)); mret tt.
Definition postSend (s : SendIntent) : OM unit :=
  r ← append_phase s;
  match r with
  | None => mret tt
  | Some s =>
      retireScheduledDraft s ≫= fun _ =>
      c ← try (CompleteIntent (si_ID s));
      match c with None => requeue s | Some _ => mret tt end
  end.

(** [begin] and [end]. *)
Definition begin_ (id : Z) : OM bool := fun w =>
  if bool_decide (id ∈ ow_executing w) then (w, inr false)
  else (set_executing w ({[id]} ∪ ow_executing w), inr true).
Definition end_ (id : Z) : OM unit := modify (fun w => set_executing w (ow_executing w ∖ {[id]})).
Definition execute (recovered : bool) (s : SendIntent) : OM unit :=
  ok ← begin_ (si_ID s);
  if ok : bool then
    r ← (if Accepted s then mret (Some s) else transmit s recovered);
    (match r with None => mret tt | Some s => postSend s end) ≫= fun _ =>
    end_ (si_ID s)
  else mret tt.

(** [recover], [runOnce] and [Run] for a number of ticks. *)
Definition recover : OM unit :=
  r ← try (RecoverInFlightSendIntents order);
  match r with None => mret tt | Some l => forM_ l (execute true) end.
Definition run_account (accountID : Z) : OM unit :=
  r ← try (ClaimDueSendIntents order accountID (ClaimBatch opts));
  match r with None => mret tt | Some l => forM_ l (execute false) end.
Fixpoint run_accounts (l : list Z) : OM unit :=
  match l with
  | [] => mret tt
  | a :: l => stop ← ctx_done; if stop : bool then mret tt else run_account a ≫= fun _ => run_accounts l
  end.
Definition runOnce : OM unit :=
  r ← try (DueSendAccounts order_accounts);
  match r with None => mret tt | Some l => run_accounts l end.
Fixpoint ticks (n : nat) : OM unit :=
  match n with O => mret tt | S n => runOnce ≫= fun _ => ticks n end.
Definition Run (n : nat) : OM unit := recover ≫= fun _ => ticks n.

(** A history: processes that end by themselves or die, one after the other, each with an
    empty memory. *)
Fixpoint lives (l : list nat) (w : World) : World :=
  match l with
  | [] => w
  | n :: l => lives l (Run n (set_executing w ∅)).1
  end.
End outbox.

(** ** On concrete accounts *)

Definition start_time : Z := 63902822400 * Second.
Definition sample_payload : string :=
  Marshal (envelope_json (mkIntentEnvelope "i1" "a@x.example" ["b@x.example"; "c@x.example"])).
(** A submission created in the ordinary flow: queued until its undo window of ten seconds
    ends, its draft filed into Sent by the implicit Email/set. *)
Definition queued_intent : SendIntent :=
  mkIntent 1 5 7 "m1@x.example" sample_payload IntentQueued 0 (start_time + 10 * Second) None "" None None None start_time start_time.
Definition filed : MailRow := mkMail 5 RoleSent true "m1@x.example" (Some lf_draft).
Definition drafted : MailRow := mkMail 5 RoleDrafts true "m1@x.example" (Some lf_draft).
Definition sample_world (m : MailRow) (schedule : list entry) (es : list event) : World :=
  mkWorld {[1 := queued_intent]} {[7 := m]} [(5, RoleSent); (5, RoleTrash); (5, RoleDrafts)] start_time schedule
    (connect es) ∅ [] [] [].
Definition sample_options : Options := withDefaults (mkOptions 0 0 0 0 true).
Definition keep {A} (x : A) : A := x.
Definition sample_run : list nat -> World -> World :=
  lives keep keep same_case same_case (fun _ => sample_cfg) keep sample_options.
(** Operations that go well, the first after some time. *)
Definition wait (d : Z) : entry := mkEntry [ATick d] Fine.
Definition ok : entry := mkEntry [] Fine.
Definition good_talk : list event := (welcome ++ [says 250; says 250; says 354; says 250; says 221])%list.

Definition outcome (w : World) : option (IntentState * bool) * list Z * option role :=
  ((fun s => (si_State s, Accepted s)) <$> ow_intents w !! 1, ow_delivered w, ml_Mailbox <$> ow_mail w !! 7).

(** The ordinary case: delivered once, the message stays in Sent. *)
Example sent_once : outcome (sample_run [1%nat] (sample_world filed [wait (15 * Second)] good_talk)) =
  (Some (IntentDone, true), [1], Some RoleSent).
Proof. vm_compute. reflexivity. Qed.

(** Cancelled in the undo window: nothing is sent. *)
Example canceled_in_time :
  outcome (sample_run [2%nat] (sample_world filed [mkEntry [ATick (5 * Second); ACancel 5 1; ATick (20 * Second)] Fine] good_talk)) =
  (Some (IntentCanceled, false), [], Some RoleSent).
Proof. vm_compute. reflexivity. Qed.

(** The first connection fails. The retry asks whether Sent holds the Message-ID, finds the
    draft that was filed there when the submission was created, and takes it for the copy
    of a sent message: the message is never transmitted, the submission reads as sent, and
    since the retry moved not_before the message is taken for a scheduled draft and put
    into Trash. *)
Example retry_loses_filed_message :
  outcome (sample_run [2%nat] (sample_world filed
    (wait (15 * Second) :: replicate 7 ok ++ [wait (60 * Second)])%list (broken :: good_talk))) =
  (Some (IntentDone, true), [], Some RoleTrash).
Proof. vm_compute. reflexivity. Qed.

(** The server takes the message and its answer is lost on the way: the error reads as a
    failed connection, and the retry sends the message again. *)
Example lost_answer_sends_twice :
  outcome (sample_run [2%nat] (sample_world drafted (wait (15 * Second) :: replicate 7 ok ++ [wait (60 * Second)])%list
    (welcome ++ [says 250; says 250; says 354; mkEvent None true false] ++ good_talk)%list)) =
  (Some (IntentDone, true), [1; 1], Some RoleTrash).
Proof. vm_compute. reflexivity. Qed.

(** The database is unreachable for the moment the draft is read: the submission fails for
    good, although nothing is wrong with it. *)
Example read_error_is_final :
  outcome (sample_run [1%nat] (sample_world drafted
    [wait (15 * Second); ok; ok; ok; mkEntry [] FailBefore] good_talk)) =
  (Some (IntentFailed, false), [], Some RoleDrafts).
Proof. vm_compute. reflexivity. Qed.
