(* ===== verification/OutboxSafety.v ===== *)
(** The outbox never sends what was recorded as sent or cancelled: the invariant that ties
    the intents to what the submission server took, kept by every operation of the
    executor under every schedule, and its theorems. *)

From S2P Require Import Prelude Text GoStrings GoTime Jmap Json JsonDecode Transmission Smtp Outbox.
From Stdlib Require Import Ascii String.
#[local] Open Scope string_scope.
#[local] Open Scope Z_scope.

(** ** What an operation leaves alone *)

Definition keyed (w : World) : Prop := forall j s, ow_intents w !! j = Some s -> si_ID s = j.
Definition state_of (j : Z) (w : World) : option IntentState := si_State <$> ow_intents w !! j.

(** Nothing is delivered, recorded or lost, and no row but [own]'s leaves the states
    cancelled and in flight. *)
Record silent (own : option Z) (w w' : World) : Prop := {
  s_keyed : keyed w -> keyed w';
  s_delivered : ow_delivered w' = ow_delivered w;
  s_lost : ow_lost w' = ow_lost w;
  s_found : ow_found w' = ow_found w;
  s_recorded : forall j, recorded j w' = recorded j w;
  s_state : forall j, Some j <> own ->
    (state_of j w = Some IntentCanceled -> state_of j w' = Some IntentCanceled) /\
    (state_of j w = Some IntentInFlight -> state_of j w' = Some IntentInFlight)
}.
Lemma silent_refl own w : silent own w w.
Proof. by split. Qed.
Lemma silent_trans own w1 w2 w3 : silent own w1 w2 -> silent own w2 w3 -> silent own w1 w3.
Proof.
  intros [] []. split; try congruence; [auto|]. intros j Hj. destruct (s_state0 j Hj), (s_state1 j Hj). auto.
Qed.
Lemma silent_any own w w' : silent None w w' -> silent own w w'.
Proof. intros []. split; auto. Qed.
(** A world that differs elsewhere. *)
Lemma silent_same own w w' :
  ow_intents w' = ow_intents w -> ow_delivered w' = ow_delivered w -> ow_lost w' = ow_lost w -> ow_found w' = ow_found w ->
  silent own w w'.
Proof.
  intros Hi Hd Hl Hf. split; [|done..| |]; unfold keyed, recorded, state_of; rewrite Hi; auto.
Qed.

(** A program all of whose effects are silent. *)
Class Silent (own : option Z) {E A} (m : M World E A) : Prop := silent_prog : forall w, silent own w (m w).1.

Section silent.
Context (own : option Z).
#[global] Instance silent_ret {E A} (a : A) : Silent own (mret a : M World E A).
Proof. intros w. apply silent_refl. Qed.
#[global] Instance silent_throw {E A} (e : E) : Silent own (throw e : M World E A).
Proof. intros w. apply silent_refl. Qed.
#[global] Instance silent_gets {E A} (f : World -> A) : Silent own (gets f : M World E A).
Proof. intros w. apply silent_refl. Qed.
#[global] Instance silent_bind {E A B} (m : M World E A) (k : A -> M World E B) :
  Silent own m -> (forall a, Silent own (k a)) -> Silent own (m ≫= k).
Proof.
  intros Hm Hk w. specialize (Hm w). unfold mbind, M_bind. destruct (m w) as [w' [e|a]]; [done|].
  eapply silent_trans; [exact Hm|]. apply (Hk a w').
Qed.
#[global] Instance silent_try {A} (m : OM A) : Silent own m -> Silent own (try m).
Proof. intros Hm w. specialize (Hm w). unfold try. by destruct (m w) as [w' [[]|a]]. Qed.
#[global] Instance silent_forM {E A} (l : list A) (f : A -> M World E unit) :
  (forall x, Silent own (f x)) -> Silent own (forM_ l f).
Proof. intros Hf. induction l as [|x l IH]; cbn [forM_]; apply _. Qed.
End silent.

(** ** The others *)

Lemma next_id_fresh t : t !! next_id t = None.
Proof.
  assert (forall k s, t !! k = Some s -> k < next_id t) as H.
  { unfold next_id. apply (map_fold_weak_ind (fun m t => forall k s, t !! k = Some s -> k < m)).
    - intros k s Hk. by rewrite lookup_empty in Hk.
    - intros i x m r Hi IH k s. rewrite lookup_insert_Some. intros [[-> _]|[_ Hk]]; [lia|]. specialize (IH _ _ Hk). lia. }
  destruct (t !! next_id t) as [s|] eqn:E; [|done]. apply H in E. lia.
Qed.

(** Replacing a row by one with the same acceptance. *)
Lemma silent_row own w j s s' :
  ow_intents w !! j = Some s -> si_AcceptedAt s' = si_AcceptedAt s -> si_ID s' = si_ID s ->
  (Some j <> own -> (si_State s = IntentCanceled -> si_State s' = IntentCanceled) /\
                    (si_State s = IntentInFlight -> si_State s' = IntentInFlight)) ->
  silent own w (set_intents w (<[j := s']> (ow_intents w))).
Proof.
  intros Hs Ha Hid Hst. split; [|done..| |].
  - intros Hk i x. cbn. rewrite lookup_insert_Some. intros [[<- <-]|[_ Hx]]; [|by apply Hk]. rewrite Hid. by apply Hk.
  - intros i. unfold recorded, Accepted. cbn. destruct (decide (i = j)) as [->|];
      [by rewrite lookup_insert_eq, Hs, Ha|by rewrite lookup_insert_ne].
  - intros i Hi. unfold state_of. cbn. destruct (decide (i = j)) as [->|Hne].
    + rewrite lookup_insert_eq, Hs. cbn. destruct (Hst Hi) as [H1 H2]. split; intros [= H]; f_equal; auto.
    + by rewrite lookup_insert_ne.
Qed.

Lemma act_silent a w : silent None w (act a w).
Proof.
  destruct a as [acc em rfc pl nb|acc id|acc id|id m|d]; cbn [act].
  - unfold EnqueueSendIntent. cbn [fst]. pose proof (next_id_fresh (ow_intents w)) as Hf.
    set (s := mkIntent _ _ _ _ _ _ _ _ _ _ _ _ _ _ _). split; [|done..| |].
    + intros Hk i x. cbn. rewrite lookup_insert_Some. intros [[<- <-]|[_ Hx]]; [done|by apply Hk].
    + intros i. unfold recorded. cbn. destruct (decide (i = next_id (ow_intents w))) as [->|];
        [by rewrite lookup_insert_eq, Hf|by rewrite lookup_insert_ne].
    + intros i _. unfold state_of. cbn. destruct (decide (i = next_id (ow_intents w))) as [->|];
        [by rewrite lookup_insert_eq, Hf|by rewrite lookup_insert_ne].
  - unfold CancelSendIntent. destruct (ow_intents w !! id) as [s|] eqn:Es; [|apply silent_refl].
    destruct (negb _); [apply silent_refl|]. destruct (cancelable s) eqn:Ec.
    + apply (silent_row _ _ _ s); [done..|]. intros _. split; [done|]. unfold cancelable in Ec. bool_cases. congruence.
    + destruct (bool_decide _); apply silent_refl.
  - unfold DestroySendIntent. destruct (ow_intents w !! id) as [s|] eqn:Es; [|apply silent_refl].
    destruct (negb _); [apply silent_refl|]. cbn [fst]. destruct (cancelable s) eqn:Ec; apply (silent_row _ _ _ s); try done.
    intros _. split; [done|]. unfold cancelable in Ec. bool_cases. congruence.
  - by apply silent_same.
  - by apply silent_same.
Qed.
Lemma acts_silent l w : silent None w (acts l w).
Proof.
  revert w. induction l as [|a l IH]; intros w; [apply silent_refl|].
  eapply silent_trans; [apply act_silent|apply IH].
Qed.

(** A silent statement is silent under every schedule. *)
#[global] Instance silent_io own {A} (f : World -> World * (failure + A)) :
  (forall w, silent own w (f w).1) -> Silent own (io f).
Proof.
  intros Hf w. unfold io. destruct (match ow_schedule w with e :: s => (e, s) | [] => (mkEntry [] Fine, []) end) as [e sch].
  set (w1 := acts (en_acts e) (set_schedule w sch)).
  assert (silent own w w1) as H1.
  { eapply silent_trans; [|apply silent_any, acts_silent]. by apply silent_same. }
  destruct (en_fault e); cbn [fst]; try done; eapply silent_trans; eauto.
Qed.

(** ** The operations of the executor *)

Lemma update_row_silent id f w :
  (forall now s, si_AcceptedAt (f now s) = si_AcceptedAt s /\ si_ID (f now s) = si_ID s) ->
  silent (Some id) w (update_row id f w).1.
Proof.
  intros Hf. unfold update_row. destruct (ow_intents w !! id) as [s|] eqn:Es; [|apply silent_refl].
  destruct (Hf (ow_now w) s). by apply (silent_row _ _ _ s).
Qed.
#[global] Instance FailIntent_silent id t : Silent (Some id) (FailIntent id t).
Proof. apply silent_io. intros w. by apply update_row_silent. Qed.
#[global] Instance CompleteIntent_silent id : Silent (Some id) (CompleteIntent id).
Proof. apply silent_io. intros w. by apply update_row_silent. Qed.
#[global] Instance MarkSendIntentAppended_silent id : Silent (Some id) (MarkSendIntentAppended id).
Proof. apply silent_io. intros w. by apply update_row_silent. Qed.

Section silent_ops.
Context (own : option Z).
#[global] Instance GetAccount_silent a : Silent own (GetAccount a).
Proof. apply silent_io. intros w. apply silent_refl. Qed.
#[global] Instance ctx_done_silent : Silent own ctx_done.
Proof. unfold ctx_done. apply silent_bind; [|apply _]. apply silent_try, silent_io. intros w. apply silent_refl. Qed.
#[global] Instance RawMessage_silent a m : Silent own (RawMessage a m).
Proof. apply silent_io. intros w. repeat case_match; apply silent_refl. Qed.
#[global] Instance SentContains_silent a m : Silent own (SentContainsMessageID a m).
Proof. unfold SentContainsMessageID. destruct (String.eqb m ""); [apply _|]. apply silent_io. intros w. apply silent_refl. Qed.
#[global] Instance AppendToSent_silent a raw m : Silent own (AppendToSent a raw m).
Proof.
  unfold AppendToSent. apply silent_bind; [apply _|]. intros []; [apply _|]. apply silent_bind.
  - apply silent_io. intros w. apply silent_refl.
  - intros _. apply silent_bind; [|apply _]. apply silent_io. intros w. destruct (String.eqb raw ""); by apply silent_same.
Qed.
#[global] Instance RetireDraft_silent a m : Silent own (RetireDraft a m).
Proof.
  unfold RetireDraft. apply silent_bind; [|apply _]. apply silent_io. intros w.
  repeat case_match; by apply silent_same.
Qed.
#[global] Instance prepare_silent s : Silent own (prepare s).
Proof. unfold prepare. destruct (decode_envelope _) as [env|]; [|apply _]. destruct (_ || _); apply _. Qed.
#[global] Instance markAccepted_silent s reply : Silent own (markAccepted s reply).
Proof. unfold markAccepted. apply _. Qed.
End silent_ops.

Section executor.
Context (order : list SendIntent -> list SendIntent) (order_accounts : list Z -> list Z).
Context (ToUpper base64 : string -> string) (config : Z -> Config) (jitter : Z -> Z) (opts : Options).

#[local] Instance requeue_silent s : Silent (Some (si_ID s)) (requeue jitter opts s).
Proof. unfold requeue. apply _. Qed.
#[local] Instance failPermanently_silent s : Silent (Some (si_ID s)) (failPermanently s).
Proof. unfold failPermanently. apply _. Qed.

#[local] Instance sent_copy_silent s : Silent (Some (si_ID s)) (sent_copy jitter opts s).
Proof.
  unfold sent_copy. apply silent_bind; [apply _|]. intros [[msg env]|]; [|apply _].
  apply silent_bind; [apply _|]. intros [b|]; apply _.
Qed.
#[local] Instance append_phase_silent s : Silent (Some (si_ID s)) (append_phase jitter opts s).
Proof.
  unfold append_phase. destruct (si_AppendedAt s); [apply _|]. apply silent_bind; [apply _|]. intros [|]; [|apply _].
  apply silent_bind; [apply _|]. intros [[]|]; apply _.
Qed.
(** The appended intent is still the same one. *)
Lemma append_phase_id s w w' r : append_phase jitter opts s w = (w', inr (Some r)) -> si_ID r = si_ID s.
Proof.
  intros H. refine (wp_elim (append_phase jitter opts s)
    (fun _ r => match r with inr (Some r) => si_ID r = si_ID s | _ => True end) w w' (inr (Some r)) _ H).
  unfold append_phase. destruct (si_AppendedAt s); [by apply wp_ret|]. apply wp_bind, wp_any. intros w1 [e|[]]; [done| |by apply wp_ret].
  apply wp_bind, wp_any. intros w2 [e|[[]|]]; [done| |].
  - apply wp_bind, wp_gets. by apply wp_ret.
  - apply wp_bind, wp_any. intros w3 [e|[]]; [done|]. by apply wp_ret.
Qed.
#[local] Instance retire_silent s : Silent (Some (si_ID s)) (retireScheduledDraft opts s).
Proof. unfold retireScheduledDraft. destruct (_ || _); apply _. Qed.
#[local] Instance postSend_silent s : Silent (Some (si_ID s)) (postSend jitter opts s).
Proof.
  intros w. unfold postSend, mbind, M_bind. pose proof (append_phase_silent s w) as H1.
  destruct (append_phase jitter opts s w) as [w1 [e|[r|]]] eqn:E; [exact H1| |exact H1].
  apply append_phase_id in E. eapply silent_trans; [exact H1|]. rewrite <- E.
  assert (Silent (Some (si_ID r)) (retireScheduledDraft opts r ≫= fun _ => c ← try (CompleteIntent (si_ID r));
    match c with None => requeue jitter opts r | Some _ => mret tt end)) as H; [|exact (H w1)].
  apply silent_bind; [apply _|]. intros _. apply silent_bind; [apply _|]. intros [[]|]; apply _.
Qed.

(** ** Deliveries, acceptances and losses *)

Definition times (j : Z) (l : list Z) : Z := Z.of_nat (List.length (filter (fun x => x = j) l)).
Definition was_recorded (j : Z) (w : World) : Z := if recorded j w then 1 else 0.
(** Deliveries that are neither recorded nor lost: there are none at rest. *)
Definition open_deliveries (j : Z) (w : World) : Z :=
  times j (ow_delivered w) - times j (ow_lost w) - was_recorded j w.
(** A row reads as accepted only with a reason. *)
Definition accounted (j : Z) (w : World) : Prop :=
  recorded j w = true -> j ∈ ow_delivered w \/ j ∈ ow_found w.

(** What working on the intent [id] may change. *)
Record moves (id : Z) (w w' : World) : Prop := {
  m_keyed : keyed w -> keyed w';
  m_other : forall j, j <> id -> recorded j w' = recorded j w /\
    times j (ow_delivered w') = times j (ow_delivered w) /\ times j (ow_lost w') = times j (ow_lost w) /\
    (state_of j w = Some IntentCanceled -> state_of j w' = Some IntentCanceled) /\
    (state_of j w = Some IntentInFlight -> state_of j w' = Some IntentInFlight);
  m_open : open_deliveries id w' <= open_deliveries id w;
  m_mono : forall j, (j ∈ ow_delivered w -> j ∈ ow_delivered w') /\ (j ∈ ow_found w -> j ∈ ow_found w') /\
    (recorded j w = true -> recorded j w' = true);
  m_accounted : accounted id w -> accounted id w'
}.
Lemma silent_moves id w w' : silent (Some id) w w' -> moves id w w'.
Proof.
  intros [Hk Hd Hl Hf Hr Hs]. split; [done| | | |].
  - intros j Hj. rewrite Hr, Hd, Hl. destruct (Hs j) as [? ?]; [congruence|]. auto.
  - unfold open_deliveries, was_recorded. rewrite Hr, Hd, Hl. lia.
  - intros j. by rewrite Hd, Hf, Hr.
  - unfold accounted. by rewrite Hr, Hd, Hf.
Qed.
Lemma moves_trans id w1 w2 w3 : moves id w1 w2 -> moves id w2 w3 -> moves id w1 w3.
Proof.
  intros [Hk Ho Hp Hm Ha] [Hk' Ho' Hp' Hm' Ha']. split; [auto| |lia| |auto].
  - intros j Hj. destruct (Ho j Hj) as (H1 & H2 & H3 & H4 & H5), (Ho' j Hj) as (H1' & H2' & H3' & H4' & H5').
    split; [congruence|]. split; [congruence|]. split; [congruence|]. auto.
  - intros j. destruct (Hm j) as (? & ? & ?), (Hm' j) as (? & ? & ?). auto.
Qed.
Lemma moves_refl id w : moves id w w.
Proof. apply silent_moves, silent_refl. Qed.

Lemma times_cons j i l : times j (i :: l) = (if decide (i = j) then 1 else 0) + times j l.
Proof. unfold times. rewrite filter_cons. destruct (decide (i = j)); cbn [List.length]; lia. Qed.

(** Recording an acceptance that has a reason. *)
Lemma mark_moves id reply w :
  id ∈ ow_delivered w \/ id ∈ ow_found w -> moves id w (MarkSendIntentAccepted id reply w).1.
Proof.
  intros Hev. unfold MarkSendIntentAccepted, io.
  destruct (match ow_schedule w with e :: s => (e, s) | [] => (mkEntry [] Fine, []) end) as [e sch].
  set (w1 := acts (en_acts e) (set_schedule w sch)).
  assert (silent (Some id) w w1) as H1.
  { eapply silent_trans; [|apply silent_any, acts_silent]. by apply silent_same. }
  assert (moves id w1 (update_row id (mark_accepted reply) w1).1) as H2.
  { unfold update_row. destruct (ow_intents w1 !! id) as [s|] eqn:Es; [|apply moves_refl]. cbn [fst].
    unfold mark_accepted. destruct (Accepted s) eqn:Ea; [by rewrite insert_id by done; apply silent_moves, silent_same|].
    set (s' := with_phase _ _ _ _ _). set (w2 := set_intents w1 _).
    assert (recorded id w2 = true) as Hr2 by (unfold recorded, w2; cbn; by rewrite lookup_insert_eq).
    assert (recorded id w1 = false) as Hr1 by (unfold recorded; by rewrite Es).
    split.
    - intros Hk i x. cbn. rewrite lookup_insert_Some. intros [[<- <-]|[_ Hx]]; [by apply Hk in Es|by apply Hk].
    - intros j Hj. unfold recorded, state_of, w2. cbn. by rewrite !lookup_insert_ne by congruence.
    - unfold open_deliveries, was_recorded. rewrite Hr1, Hr2. cbn. lia.
    - intros j. split; [done|]. split; [done|]. intros Hj. destruct (decide (j = id)) as [->|]; [done|].
      unfold recorded, w2 in *. cbn. by rewrite lookup_insert_ne.
    - intros _ _. cbn. destruct H1 as [_ -> _ -> _ _]. done. }
  destruct (en_fault e); cbn [fst]; try (by apply silent_moves); (eapply moves_trans; [by apply silent_moves|done]).
Qed.

Lemma persist_moves n id reply w :
  id ∈ ow_delivered w \/ id ∈ ow_found w -> moves id w (persist_loop n id reply w).1.
Proof.
  revert w. induction n as [|n IH]; intros w Hev; cbn [persist_loop]; [apply moves_refl|].
  unfold mbind, M_bind at 1, try at 1. pose proof (mark_moves id reply w Hev) as H1.
  destruct (MarkSendIntentAccepted id reply w) as [w1 [[]|[]]]; [exact H1| |exact H1]. cbn [fst] in H1.
  eapply moves_trans; [exact H1|]. destruct H1 as [_ _ _ Hm _]. destruct (Hm id) as (Hd & Hf & _).
  unfold mbind, M_bind. pose proof (ctx_done_silent (Some id) w1) as H2.
  destruct (ctx_done w1) as [w2 [e|[]]]; [by apply silent_moves|by apply silent_moves|].
  eapply moves_trans; [by apply silent_moves|]. apply IH.
  destruct H2 as [_ Hd2 _ Hf2 _ _]. cbn [fst] in Hd2, Hf2. rewrite Hd2, Hf2. naive_solver.
Qed.

Lemma mark_lists id reply w : let w' := (MarkSendIntentAccepted id reply w).1 in
  ow_delivered w' = ow_delivered w /\ ow_lost w' = ow_lost w.
Proof.
  cbv zeta. unfold MarkSendIntentAccepted, io.
  destruct (match ow_schedule w with e :: s => (e, s) | [] => (mkEntry [] Fine, []) end) as [e sch].
  set (w1 := acts (en_acts e) (set_schedule w sch)).
  assert (silent None (set_schedule w sch) w1) as [_ Hd Hl _ _ _] by apply acts_silent.
  assert (ow_delivered (update_row id (mark_accepted reply) w1).1 = ow_delivered w1 /\
          ow_lost (update_row id (mark_accepted reply) w1).1 = ow_lost w1) as [Hd' Hl'].
  { unfold update_row. by destruct (ow_intents w1 !! id). }
  cbn in Hd, Hl. destruct (en_fault e); cbn [fst]; split; congruence.
Qed.

(** The world after the server took a message for [id]. *)
Definition took (id : Z) (w w' : World) : Prop :=
  ow_intents w' = ow_intents w /\ ow_delivered w' = id :: ow_delivered w /\ ow_lost w' = ow_lost w /\ ow_found w' = ow_found w.
Lemma took_moves id w w' w3 : recorded id w = false -> took id w w' -> moves id w' w3 ->
  open_deliveries id w3 <= open_deliveries id w' - 1 -> moves id w w3.
Proof.
  intros Hr (Hi & Hd & Hl & Hf) [Hk Ho Hp Hm Ha] Hopen. unfold keyed, recorded, state_of in *. split.
  - unfold keyed. rewrite Hi in Hk. done.
  - intros j Hj. destruct (Ho j Hj) as (H1 & H2 & H3 & H4). unfold recorded, state_of. rewrite Hi in *.
    rewrite H2, H3, Hd, Hl, times_cons, decide_False by congruence. done.
  - unfold open_deliveries, was_recorded, recorded in *. rewrite Hi, Hr, Hd, Hl, times_cons, decide_True in Hopen by done.
    rewrite Hr. lia.
  - intros j. destruct (Hm j) as (H1 & H2 & H3). unfold recorded. rewrite Hi in H3. rewrite Hd in H1. rewrite Hf in H2.
    split; [|done]. intros Hj. apply H1. by right.
  - intros _ _. left. apply Hm. rewrite Hd. left.
Qed.
Lemma lost_moves id w w' : took id w w' -> moves id w (set_lost w' (id :: ow_lost w')).
Proof.
  intros (Hi & Hd & Hl & Hf). split; unfold keyed, recorded, state_of; cbn.
  - by rewrite Hi.
  - intros j Hj. rewrite Hi, Hd, Hl, !times_cons, decide_False by congruence. done.
  - unfold open_deliveries, was_recorded, recorded. cbn. rewrite Hi, Hd, Hl, !times_cons, decide_True by done. lia.
  - intros j. rewrite Hd, Hf, Hi. split; [|done]. intros Hj. by right.
  - intros _ _. left. cbn. rewrite Hd. left.
Qed.

Lemma on_accepted_moves id reply w w1 :
  recorded id w = false -> took id w w1 -> moves id w (on_accepted id reply w1).1.
Proof.
  intros Hr Ht. pose proof Ht as (Hi & Hd & Hl & Hf). unfold on_accepted.
  assert (id ∈ ow_delivered w1) as Hin by (rewrite Hd; left).
  pose proof (mark_moves id reply w1 (or_introl Hin)) as Hm. pose proof (mark_lists id reply w1) as [Hd2 Hl2].
  destruct (MarkSendIntentAccepted id reply w1) as [w2 r]. cbn [fst] in Hm, Hd2, Hl2 |- *.
  assert (recorded id w1 = false) as Hr1 by (unfold recorded in *; by rewrite Hi).
  destruct (recorded id w2) eqn:E2.
  - apply (took_moves id w w1); [done..|]. unfold open_deliveries, was_recorded. rewrite E2, Hr1, Hd2, Hl2. lia.
  - apply (took_moves id w w1); [done..| |].
    + destruct Hm as [Hk Ho Hp Hmo Ha]. split; [done| |cbn..].
      * intros j Hj. destruct (Ho j Hj) as (? & ? & ? & ?). cbn. rewrite times_cons, decide_False by congruence. done.
      * unfold open_deliveries, was_recorded, recorded in *. cbn. rewrite times_cons, decide_True by done. lia.
      * intros j. destruct (Hmo j) as (? & ? & ?). done.
      * intros H _. left. cbn. rewrite Hd2. done.
    + unfold open_deliveries, was_recorded, recorded in *. cbn. rewrite E2, Hr1, Hd2, Hl2, times_cons, decide_True by done. lia.
Qed.

(** Commands that deliver nothing. *)
Lemma on_smtp_silent own id (m : CM unit) w :
  c_taken (m (ow_conn w)).1 = c_taken (ow_conn w) -> silent own w (on_smtp id unit m w).1.
Proof.
  intros H. unfold on_smtp. destruct (m (ow_conn w)) as [c r]. cbn in H. rewrite H, Nat.sub_diag. cbn [fst].
  by apply silent_same; destruct r.
Qed.
Lemma quit_silent own id w : silent own w (on_smtp id unit quit w).1.
Proof.
  apply on_smtp_silent. unfold quit, best_effort, cmd, mbind, M_bind, exchange.
  destruct (match c_events _ with e :: es => (e, es) | [] => (broken, []) end) as [e es].
  destruct (ev_dies e); [done|]. destruct (ev_reply e) as [[code msg]|]; [|done]. by destruct (code_ok 221 code).
Qed.

(** An attempt: what it learned is in the result. *)
Lemma transport_moves s env msg w : recorded (si_ID s) w = false ->
  let '(w', r) := transport ToUpper base64 config s env msg w in
  moves (si_ID s) w w' /\
  match r with
  | inr _ => si_ID s ∈ ow_delivered w'
  | inl (AcceptedUnrecorded _) => si_ID s ∈ ow_delivered w'
  | inl _ => True
  end.
Proof.
  intros Hr. unfold transport. set (id := si_ID s) in *.
  assert (Silent (Some id) (try (io (fun w => (w, inr tt))))) as H0.
  { apply silent_try, silent_io. intros ?. apply silent_refl. }
  specialize (H0 w). destruct (try _ w) as [w0 [e|[[]|]]]; [split; [by apply silent_moves|done]| |split; [by apply silent_moves|done]].
  cbn [fst] in H0. assert (recorded id w0 = false) as Hr0 by (by rewrite (s_recorded _ _ _ H0)).
  assert (forall w' r, moves id w0 w' /\ r -> moves id w w' /\ r) as Hpre.
  { intros w' r [H ?]. split; [|done]. eapply moves_trans; [by apply silent_moves|done]. }
  unfold Send, mbind, M_bind. pose proof (transaction_ok ToUpper base64 (config (si_AccountID s)) env msg (ow_conn w0)) as Htr.
  unfold wp in Htr. unfold on_smtp at 1. destruct (transaction _ _ _ _ _ (ow_conn w0)) as [c r]. cbn [fst snd] in Htr.
  destruct Htr as [_ [[Htk Hres]|[Htk Hres]]]; rewrite Htk.
  - rewrite Nat.sub_diag. cbn [replicate app]. destruct r as [e|reply]; [|done].
    apply Hpre. split; [apply silent_moves; by apply silent_same|]. by destruct e.
  - assert ((List.length (c_taken (ow_conn w0) ++ [whole env msg]) - List.length (c_taken (ow_conn w0)))%nat = 1%nat) as ->.
    { rewrite length_app. cbn. lia. }
    cbn [replicate app]. set (w1 := mkWorld _ _ _ _ _ _ _ _ _ _).
    destruct r as [e|reply].
    + apply Hpre. split; [|destruct Hres as [->|(? & -> & _)]; done]. subst w1.
      set (wt := mkWorld (ow_intents w0) (ow_mail w0) (ow_roles w0) (ow_now w0) (ow_schedule w0) c (ow_executing w0)
        (id :: ow_delivered w0) (ow_lost w0) (ow_found w0)).
      assert (took id w0 wt) as Ht by done. exact (lost_moves id w0 wt Ht).
    + assert (took id w0 w1) as Ht by done. pose proof (on_accepted_moves id reply w0 w1 Hr0 Ht) as Hm.
      assert (id ∈ ow_delivered (on_accepted id reply w1).1) as Hin.
      { unfold on_accepted. pose proof (mark_lists id reply w1) as [Hd2 _].
        destruct (MarkSendIntentAccepted id reply w1) as [w2 r]. cbn [fst] in *. destruct (recorded id w2); cbn; rewrite Hd2; left. }
      unfold after_250. destruct (on_accepted id reply w1) as [w2 r2]. cbn [fst] in Hm, Hin.
      assert (forall res : SendError + string, let w3 := (on_smtp id unit quit w2).1 in moves id w0 w3 /\ id ∈ ow_delivered w3) as Hq.
      { intros _ w3. pose proof (quit_silent (Some id) id w2) as Hs. split.
        - eapply moves_trans; [exact Hm|]. by apply silent_moves.
        - unfold w3. by rewrite (s_delivered _ _ _ Hs). }
      specialize (Hq (inr "")).
      destruct r2 as [[]|[]]; [by apply Hpre| | |]; unfold mbind, M_bind; destruct (on_smtp id unit quit w2) as [w3 [e|[]]];
        cbn [fst] in Hq; destruct Hq; apply Hpre; (split; [done|]); try done; by destruct e.
Qed.

(** ** An execution *)

(** An attempt works on its own intent only, and hands that one on. *)
Definition attempt (s : SendIntent) (m : OM (option SendIntent)) (w : World) : Prop :=
  let '(w', r) := m w in
  moves (si_ID s) w w' /\ match r with inr (Some s') => si_ID s' = si_ID s | _ => True end.
Lemma attempt_bind {A} s (m : OM A) k w :
  Silent (Some (si_ID s)) m ->
  (forall a w', silent (Some (si_ID s)) w w' -> attempt s (k a) w') -> attempt s (m ≫= k) w.
Proof.
  intros Hm Hk. unfold attempt, mbind, M_bind. specialize (Hm w). destruct (m w) as [w1 [e|a]]; cbn [fst] in Hm.
  - split; [by apply silent_moves|done].
  - specialize (Hk a w1 Hm). unfold attempt in Hk. destruct (k a w1) as [w2 r]. destruct Hk. split; [|done].
    eapply moves_trans; [by apply silent_moves|done].
Qed.
Lemma attempt_ret s r w : match r with Some s' => si_ID s' = si_ID s | None => True end -> attempt s (mret r) w.
Proof. intros H. split; [apply moves_refl|done]. Qed.
Lemma attempt_none s (m : OM unit) w : Silent (Some (si_ID s)) m -> attempt s (m ≫= fun _ => mret None) w.
Proof. intros Hm. apply attempt_bind; [done|]. intros. by apply attempt_ret. Qed.
Lemma attempt_mark s reply w : attempt s (s' ← markAccepted s reply; mret (Some s')) w.
Proof. split; [apply moves_refl|done]. Qed.
(** Recording an acceptance that has a reason, and what follows. *)
Lemma attempt_persist s reply k w :
  si_ID s ∈ ow_delivered w \/ si_ID s ∈ ow_found w -> (forall r w', attempt s (k r) w') ->
  attempt s (r ← try (persistAcceptance (si_ID s) reply); k r) w.
Proof.
  intros Hev Hk. unfold attempt, mbind, M_bind, try. pose proof (persist_moves 6 (si_ID s) reply w Hev) as Hm.
  unfold persistAcceptance. destruct (persist_loop 6 (si_ID s) reply w) as [w1 r1]. cbn [fst] in Hm.
  assert (forall r, let '(w', r) := k r w1 in
    moves (si_ID s) w w' /\ match r with inr (Some s') => si_ID s' = si_ID s | _ => True end) as H.
  { intros r. specialize (Hk r w1). unfold attempt in Hk. destruct (k r w1) as [w2 r2]. destruct Hk.
    split; [by eapply moves_trans|done]. }
  destruct r1 as [[]|[]]; [done|apply H..].
Qed.
Lemma found_moves id w : moves id w (set_found w (id :: ow_found w)).
Proof.
  split; unfold keyed, recorded, state_of, open_deliveries, was_recorded, recorded; cbn; [done|done|lia| |].
  - intros j. split; [done|]. split; [|done]. intros H. by right.
  - intros _ _. right. cbn. left.
Qed.

Lemma deliver_attempt s env msg w :
  recorded (si_ID s) w = false -> attempt s (deliver ToUpper base64 config jitter opts s env msg) w.
Proof.
  intros Hr. unfold attempt, deliver. pose proof (transport_moves s env msg w Hr) as Ht.
  destruct (transport _ _ _ s env msg w) as [w1 r1]. destruct Ht as [Hm Hev].
  assert (forall m, attempt s m w1 -> attempt s m w1 /\ let '(w', r) := m w1 in
    moves (si_ID s) w w' /\ match r with inr (Some s') => si_ID s' = si_ID s | _ => True end) as H.
  { intros m Ha. split; [done|]. unfold attempt in Ha. destruct (m w1) as [w2 r2]. destruct Ha. split; [by eapply moves_trans|done]. }
  destruct r1 as [[]|reply]; try done; apply H.
  all: try (apply attempt_mark).
  all: try (unfold not_sent; destruct (_ || _); apply attempt_none, _).
  unfold recorded_late. apply attempt_persist; [by left|]. intros [[]|] w2; [apply attempt_mark|by apply attempt_ret].
Qed.
Lemma send_now_attempt s w :
  recorded (si_ID s) w = false -> attempt s (send_now ToUpper base64 config jitter opts s) w.
Proof.
  intros Hr. unfold send_now. apply attempt_bind; [apply _|]. intros [[msg env]|] w1 H1; [|apply attempt_none, _].
  apply attempt_bind; [apply _|]. intros [[]|] w2 H2; [|apply attempt_none, _].
  apply deliver_attempt. by rewrite (s_recorded _ _ _ H2), (s_recorded _ _ _ H1).
Qed.
Lemma transmit_attempt s recovered w :
  recorded (si_ID s) w = false -> attempt s (transmit ToUpper base64 config jitter opts s recovered) w.
Proof.
  intros Hr. unfold transmit. destruct (recovered || _); [|by apply send_now_attempt].
  apply attempt_bind; [apply _|]. intros [[|]|] w1 H1; [| |apply attempt_none, _].
  - unfold attempt, mbind, M_bind at 1, modify.
    set (w2 := set_found w1 _). match goal with |- let '(_, _) := ?m w2 in _ => assert (attempt s m w2) as Ha end.
    { apply attempt_persist; [right; left|]. intros [[]|] w3; [apply attempt_mark|apply attempt_none, _]. }
    unfold attempt in Ha. match type of Ha with let '(_, _) := ?p in _ => destruct p as [w3 r] end.
    destruct Ha. split; [|done]. eapply moves_trans; [apply found_moves|done].
  - apply send_now_attempt. by rewrite (s_recorded _ _ _ H1).
Qed.

(** The executor has the row: it is in flight and reads as the intent does. *)
Definition held (s : SendIntent) (w : World) : Prop :=
  state_of (si_ID s) w = Some IntentInFlight /\ recorded (si_ID s) w = Accepted s.
(** From one moment to a later one. *)
Record evolves (w w' : World) : Prop := {
  e_keyed : keyed w -> keyed w';
  e_open : forall j, open_deliveries j w <= 0 -> open_deliveries j w' <= 0;
  e_accounted : forall j, accounted j w -> accounted j w';
  e_recorded : forall j, recorded j w = true -> recorded j w' = true /\ times j (ow_delivered w') = times j (ow_delivered w);
  e_canceled : forall j, state_of j w = Some IntentCanceled ->
    state_of j w' = Some IntentCanceled /\ times j (ow_delivered w') = times j (ow_delivered w)
}.
Lemma evolves_refl w : evolves w w.
Proof. by split. Qed.
Lemma evolves_trans w1 w2 w3 : evolves w1 w2 -> evolves w2 w3 -> evolves w1 w3.
Proof.
  intros [Hk Ho Ha Hr Hc] [Hk' Ho' Ha' Hr' Hc']. split; [auto..| |].
  - intros j Hj. destruct (Hr j Hj) as [H1 <-]. by apply Hr'.
  - intros j Hj. destruct (Hc j Hj) as [H1 <-]. by apply Hc'.
Qed.
Lemma silent_evolves w w' : silent None w w' -> evolves w w'.
Proof.
  intros [Hk Hd Hl Hf Hr Hs]. split; [done| | | |].
  - intros j. unfold open_deliveries, was_recorded. rewrite Hr, Hd, Hl. lia.
  - intros j. unfold accounted. by rewrite Hr, Hd, Hf.
  - intros j. by rewrite Hr, Hd.
  - intros j Hj. rewrite Hd. by destruct (Hs j) as [H _]; [|auto].
Qed.
(** Working on a row that is in flight; a recorded one is not delivered again. *)
Lemma moves_evolves id w w' : moves id w w' -> state_of id w = Some IntentInFlight ->
  (recorded id w = true -> times id (ow_delivered w') = times id (ow_delivered w)) -> evolves w w'.
Proof.
  intros [Hk Ho Hp Hm Ha] Hst Hrec. split; [done| | | |].
  - intros j Hj. destruct (decide (j = id)) as [->|Hne]; [lia|]. destruct (Ho j Hne) as (H1 & H2 & H3 & _).
    unfold open_deliveries, was_recorded in *. by rewrite H1, H2, H3.
  - intros j Hj. destruct (decide (j = id)) as [->|Hne]; [auto|]. destruct (Ho j Hne) as (H1 & _).
    unfold accounted. rewrite H1. intros Hr. destruct (Hm j) as (? & ? & _). destruct (Hj Hr); auto.
  - intros j Hj. split; [by apply Hm|]. destruct (decide (j = id)) as [->|Hne]; [auto|]. apply (Ho j Hne).
  - intros j Hj. destruct (decide (j = id)) as [->|Hne]; [congruence|]. destruct (Ho j Hne) as (_ & H2 & _ & H4 & _). auto.
Qed.
Lemma moves_held id w w' s : moves id w w' -> si_ID s <> id -> held s w -> held s w'.
Proof. intros Hm Hne [H1 H2]. destruct (m_other _ _ _ Hm _ Hne) as (E & _ & _ & _ & H). split; [auto|by rewrite E]. Qed.
Lemma silent_held w w' s : silent None w w' -> held s w -> held s w'.
Proof. intros [] [H1 H2]. split; [by apply s_state0|by rewrite s_recorded0]. Qed.

#[local] Instance begin_silent own id : Silent own (begin_ id).
Proof. intros w. unfold begin_. destruct (bool_decide _); [apply silent_refl|by apply silent_same]. Qed.
#[local] Instance end_silent own id : Silent own (end_ id).
Proof. intros w. by apply silent_same. Qed.

Notation exec := (execute ToUpper base64 config jitter opts).
(** An accepted intent is only completed. *)
Lemma execute_accepted recovered s w : Accepted s = true -> silent (Some (si_ID s)) w (exec recovered s w).1.
Proof.
  intros Ha. unfold execute. rewrite Ha.
  assert (Silent (Some (si_ID s)) (exec recovered s)) as H; [|specialize (H w); unfold execute in H; by rewrite Ha in H].
  unfold execute. rewrite Ha. apply silent_bind; [apply _|]. intros []; [|apply _].
  intros w1. unfold mbind at 1, M_bind at 1, mret at 1, M_ret at 1.
  apply (silent_bind (Some (si_ID s)) (postSend jitter opts s) (fun _ => end_ (si_ID s))); apply _.
Qed.
Lemma execute_moves recovered s w : recorded (si_ID s) w = Accepted s -> moves (si_ID s) w (exec recovered s w).1.
Proof.
  intros Hr. destruct (Accepted s) eqn:Ea; [by apply silent_moves, execute_accepted|].
  unfold execute. rewrite Ea. unfold mbind, M_bind. pose proof (begin_silent (Some (si_ID s)) (si_ID s) w) as H1.
  destruct (begin_ (si_ID s) w) as [w1 [e|[]]]; [by apply silent_moves| |by apply silent_moves]. cbn [fst] in H1.
  assert (recorded (si_ID s) w1 = false) as Hr1 by (by rewrite (s_recorded _ _ _ H1)).
  eapply moves_trans; [by apply silent_moves|]. pose proof (transmit_attempt s recovered w1 Hr1) as Ht. unfold attempt in Ht.
  destruct (transmit _ _ _ _ _ s recovered w1) as [w2 [e|r]]; destruct Ht as [Hm Hid]; [done|].
  eapply moves_trans; [exact Hm|]. destruct r as [s'|]; cbn [mret M_ret]; [|by apply silent_moves, end_silent].
  pose proof (postSend_silent s' w2) as H3. rewrite Hid in H3.
  destruct (postSend jitter opts s' w2) as [w3 [e|[]]]; [by apply silent_moves|].
  eapply moves_trans; [by apply silent_moves|]. apply silent_moves, end_silent.
Qed.

Lemma execute_evolves recovered s w : held s w -> evolves w (exec recovered s w).1.
Proof.
  intros [Hst Hr]. apply (moves_evolves (si_ID s)); [by apply execute_moves|done|].
  intros H. rewrite Hr in H. by rewrite (s_delivered _ _ _ (execute_accepted recovered s w H)).
Qed.
Lemma loop_evolves recovered l w :
  NoDup (si_ID <$> l) -> Forall (fun s => held s w) l -> evolves w (forM_ l (exec recovered) w).1.
Proof.
  revert w. induction l as [|s l IH]; intros w Hnd Hl; [apply evolves_refl|].
  apply Forall_cons in Hl as [Hs Hl]. rewrite fmap_cons in Hnd. apply NoDup_cons in Hnd as [Hnin Hnd].
  cbn [forM_]. unfold mbind, M_bind. pose proof (execute_evolves recovered s w Hs) as H1.
  pose proof (execute_moves recovered s w (proj2 Hs)) as Hm.
  destruct (exec recovered s w) as [w1 [e|[]]]; [exact H1|]. eapply evolves_trans; [exact H1|]. apply IH; [done|].
  apply Forall_forall. intros x Hx. apply (moves_held (si_ID s) w); [exact Hm| |exact (proj1 (Forall_forall _ _) Hl x Hx)].
  intros E. apply Hnin. rewrite <- E. apply list_elem_of_fmap. eauto.
Qed.

(** ** Claims *)

Hypothesis order_perm : forall l, order l ≡ₚ l.

Lemma rows_lookup w s : keyed w -> s ∈ rows w -> ow_intents w !! si_ID s = Some s.
Proof.
  intros Hk Hs. unfold rows in Hs. apply list_elem_of_fmap in Hs as ([j x] & -> & Hx).
  apply elem_of_map_to_list in Hx. cbn. by rewrite (Hk _ _ Hx).
Qed.
Lemma rows_nodup w : keyed w -> NoDup (si_ID <$> rows w).
Proof.
  intros Hk. unfold rows. rewrite <- list_fmap_compose.
  rewrite (list_fmap_ext _ fst); [apply NoDup_fst_map_to_list|].
  intros i [j x] Hx%list_elem_of_lookup_2. apply elem_of_map_to_list in Hx. cbn. by apply Hk.
Qed.

(** Taking rows into flight, or keeping them there. *)
Section take.
Context (f : SendIntent -> SendIntent) (l : list SendIntent) (w : World).
Hypothesis Hf : forall s, s ∈ l -> si_AcceptedAt (f s) = si_AcceptedAt s /\ si_State (f s) = IntentInFlight.
Hypothesis Hid : forall s, si_ID (f s) = si_ID s.
Hypothesis Hl : forall s, s ∈ l -> s ∈ rows w /\ si_State s <> IntentCanceled.
Notation w' := (set_intents w (update_all f l (ow_intents w))).

Lemma taken_row s : keyed w -> s ∈ l -> ow_intents w' !! si_ID s = Some (f s).
Proof.
  intros Hk Hs. cbn. unfold update_all. rewrite lookup_fmap, (rows_lookup w s Hk) by (by apply Hl). cbn.
  rewrite decide_True; [done|]. apply list_elem_of_fmap. eauto.
Qed.
Lemma taken_held s : keyed w -> s ∈ l -> held (f s) w'.
Proof. intros Hk Hs. unfold held, state_of, recorded. rewrite Hid, taken_row by done. cbn.
  by rewrite (proj2 (Hf s Hs)).
Qed.
Lemma taken_silent : keyed w -> silent None w w'.
Proof.
  intros Hk.
  assert (forall j, ow_intents w' !! j = ow_intents w !! j \/
    exists s, s ∈ l /\ si_ID s = j /\ ow_intents w !! j = Some s /\ ow_intents w' !! j = Some (f s)) as Hrow.
  { intros j. cbn. unfold update_all. rewrite lookup_fmap. destruct (ow_intents w !! j) as [x|] eqn:Ex; [|by left]. cbn.
    destruct (decide _) as [Hin|]; [|by left]. right. apply list_elem_of_fmap in Hin as (s & Es & Hs).
    pose proof (rows_lookup w s Hk (proj1 (Hl s Hs))) as H. rewrite <- Es, (Hk _ _ Ex), Ex in H. injection H as <-.
    exists x. by rewrite (Hk _ _ Ex). }
  split; [|done..| |].
  - intros _ j x Hx. destruct (Hrow j) as [E|(s & Hs & <- & _ & E)]; rewrite E in Hx; [by apply Hk|]. injection Hx as <-. apply Hid.
  - intros j. unfold recorded. destruct (Hrow j) as [->|(s & Hs & _ & -> & ->)]; [done|].
    unfold Accepted. by rewrite (proj1 (Hf s Hs)).
  - intros j _. unfold state_of. destruct (Hrow j) as [->|(s & Hs & _ & -> & ->)]; [done|]. cbn.
    destruct (Hf s Hs) as [_ ->], (Hl s Hs) as [_ Hn]. split; [congruence|done].
Qed.
End take.

(** A claim of either kind: it is silent, and what it returns is held. *)
Definition claims (m : OM (list SendIntent)) : Prop := forall w, keyed w ->
  let '(w', r) := m w in
  silent None w w' /\ match r with inr l => NoDup (si_ID <$> l) /\ Forall (fun s => held s w') l | inl _ => True end.
Lemma claims_io (pick : World -> list SendIntent) (f : World -> SendIntent -> SendIntent) :
  (forall w s, s ∈ pick w -> s ∈ rows w /\ si_State s <> IntentCanceled) ->
  (forall w, NoDup (rows w) -> NoDup (pick w)) ->
  (forall w s, s ∈ pick w -> si_AcceptedAt (f w s) = si_AcceptedAt s /\ si_State (f w s) = IntentInFlight) ->
  (forall w s, si_ID (f w s) = si_ID s) ->
  claims (io (fun w => (set_intents w (update_all (f w) (pick w) (ow_intents w)), inr (order (f w <$> pick w))))).
Proof.
  intros Hp Hnd Hf Hid w Hk. unfold io.
  destruct (match ow_schedule w with e :: s => (e, s) | [] => (mkEntry [] Fine, []) end) as [e sch].
  set (w1 := acts (en_acts e) (set_schedule w sch)).
  assert (silent None w w1) as H1. { eapply silent_trans; [|apply acts_silent]. by apply silent_same. }
  assert (keyed w1) as Hk1 by (by apply (s_keyed _ _ _ H1)).
  pose proof (taken_silent (f w1) (pick w1) w1 (Hf w1) (Hid w1) (Hp w1) Hk1) as H2.
  assert (forall w2, silent None w1 w2 -> silent None w w2) as Htr by (intros w2; by apply silent_trans).
  destruct (en_fault e); cbn [fst]; (split; [by auto|]); try done. split.
  - rewrite order_perm, <- list_fmap_compose. rewrite (list_fmap_ext _ si_ID) by (intros ? ? _; apply Hid).
    apply NoDup_fmap_2_strong; [|by apply Hnd, (NoDup_fmap_1 si_ID), rows_nodup]. intros x y Hx Hy E.
    apply Hp in Hx as [Hx _], Hy as [Hy _]. apply rows_lookup in Hx, Hy; [|done..]. congruence.
  - rewrite order_perm. apply Forall_fmap, Forall_forall. intros s Hs. cbn. by apply taken_held; [apply Hf|apply Hid|apply Hp|..].
Qed.
Lemma ClaimDue_claims accountID limit : claims (ClaimDueSendIntents order accountID limit).
Proof.
  unfold ClaimDueSendIntents. cbv zeta.
  apply (claims_io (claimable accountID _) (fun w s => with_state s IntentInFlight (si_Attempts s + 1) (si_NotBefore s) (ow_now w)));
    [| |done|done]; unfold claimable.
  - intros w s Hs%elem_of_take. destruct Hs as (i & Hs%list_elem_of_lookup_2 & _). rewrite merge_sort_Permutation in Hs.
    apply list_elem_of_filter in Hs as [[_ Hd] Hs]. split; [done|]. unfold due in Hd. bool_cases. congruence.
  - intros w Hnd. eapply sublist_NoDup; [|apply sublist_take]. rewrite merge_sort_Permutation. by apply NoDup_filter.
Qed.
Lemma Recover_claims : claims (RecoverInFlightSendIntents order).
Proof.
  unfold RecoverInFlightSendIntents. cbv zeta.
  apply (claims_io (fun w => filter (fun s => si_State s = IntentInFlight) (rows w))
    (fun w s => with_state s (si_State s) (si_Attempts s + 1) (si_NotBefore s) (ow_now w))); [| | |done].
  - intros w s [Hs Hr]%list_elem_of_filter. split; [done|]. by rewrite Hs.
  - intros w Hnd. by apply NoDup_filter.
  - by intros w s [Hs _]%list_elem_of_filter.
Qed.

(** ** The process, and one process after the other *)

Definition steady {A} (m : OM A) : Prop := forall w, keyed w -> evolves w (m w).1.
Lemma steady_ret {A} (a : A) : steady (mret a).
Proof. intros w _. apply evolves_refl. Qed.
Lemma steady_silent {A} (m : OM A) : Silent None m -> steady m.
Proof. intros Hm w _. apply silent_evolves, Hm. Qed.
Lemma steady_bind {A B} (m : OM A) (k : A -> OM B) : steady m -> (forall a, steady (k a)) -> steady (m ≫= k).
Proof.
  intros Hm Hk w Hw. specialize (Hm w Hw). unfold mbind, M_bind. destruct (m w) as [w1 [e|a]]; [done|].
  eapply evolves_trans; [exact Hm|]. apply Hk. by apply Hm.
Qed.
(** A claim and the execution of what it returned. *)
Lemma steady_claim recovered m : claims m ->
  steady (r ← try m; match r with None => mret tt | Some l => forM_ l (exec recovered) end).
Proof.
  intros Hm w Hw. specialize (Hm w Hw). unfold mbind, M_bind, try. destruct (m w) as [w1 [[]|l]]; destruct Hm as [Hs Hr];
    [by apply silent_evolves..|]. destruct Hr. eapply evolves_trans; [by apply silent_evolves|]. by apply loop_evolves.
Qed.
Notation process := (Run order order_accounts ToUpper base64 config jitter opts).
Lemma runOnce_steady : steady (runOnce order order_accounts ToUpper base64 config jitter opts).
Proof.
  unfold runOnce. apply steady_bind; [apply steady_silent, silent_try, silent_io; intros w; apply silent_refl|].
  intros [l|]; [|apply steady_ret]. induction l as [|a l IH]; cbn [run_accounts]; [apply steady_ret|].
  apply steady_bind; [apply steady_silent, _|]. intros []; [apply steady_ret|]. apply steady_bind; [|done].
  apply steady_claim, ClaimDue_claims.
Qed.
Lemma Run_steady n : steady (process n).
Proof.
  unfold Run. apply steady_bind; [apply steady_claim, Recover_claims|]. intros _.
  induction n as [|n IH]; cbn [ticks]; [apply steady_ret|]. apply steady_bind; [apply runOnce_steady|done].
Qed.
Lemma lives_evolves h w : keyed w -> evolves w (lives order order_accounts ToUpper base64 config jitter opts h w).
Proof.
  revert w. induction h as [|n h IH]; intros w Hw; [apply evolves_refl|]. cbn [lives].
  assert (evolves w (set_executing w ∅)) as H0 by (by apply silent_evolves, silent_same).
  eapply evolves_trans; [exact H0|]. pose proof (Run_steady n _ (e_keyed _ _ H0 Hw)) as H1.
  eapply evolves_trans; [exact H1|]. apply IH. by apply H1.
Qed.

End executor.

(** Two processes, of which the first dies after the server took the message and before the
    acceptance is written: the second sends it again. *)
Definition crash_world : World :=
  sample_world drafted (wait (15 * Second) :: replicate 6 ok ++ [mkEntry [] DieBefore; wait (60 * Second)])%list
    (welcome ++ [says 250; says 250; says 354; says 250] ++ good_talk)%list.
