(* ===== verification/OutboxLiveness.v ===== *)
(** The outbox leaves nothing in flight: a process that is not disturbed, whatever the
    submission server answers, ends every execution with the intent done, failed or queued
    for a later attempt. *)

From S2P Require Import Prelude Text GoStrings GoTime Jmap Json JsonDecode Transmission Smtp Outbox OutboxSafety.
From Stdlib Require Import Ascii String.
#[local] Open Scope string_scope.
#[local] Open Scope Z_scope.

(** ** A session in which the process lives on *)

Definition lively (c : Conn) : Prop := Forall (fun e => ev_dies e = false) (c_events c).
Class Alive {A} (m : CM A) : Prop := alive : forall c, lively c -> lively (m c).1 /\ (m c).2 <> inl Died.
#[global] Instance alive_ret {A} (a : A) : Alive (mret a).
Proof. by intros c. Qed.
#[global] Instance alive_throw {A} p code : Alive (throw (SmtpError p code) : CM A).
Proof. by intros c. Qed.
#[global] Instance alive_gets {A} (f : Conn -> A) : Alive (gets f).
Proof. by intros c. Qed.
#[global] Instance alive_bind {A B} (m : CM A) (k : A -> CM B) : Alive m -> (forall a, Alive (k a)) -> Alive (m ≫= k).
Proof.
  intros Hm Hk c Hc. destruct (Hm c Hc) as [H1 H2]. unfold mbind, M_bind. destruct (m c) as [c1 [e|a]]; [|by apply Hk].
  cbn [fst snd] in *. split; congruence.
Qed.
Lemma alive_modify (f : Conn -> Conn) : (forall c, c_events (f c) = c_events c) -> Alive (modify f).
Proof. intros Hf c Hc. split; [|done]. unfold lively. cbn. by rewrite Hf. Qed.
Lemma alive_exchange phase expect command act : (forall e c, c_events (act e c) = c_events c) ->
  Alive (exchange phase expect command act).
Proof.
  intros Ha c Hc. unfold exchange.
  assert (exists e es, match c_events c with e :: es => (e, es) | [] => (broken, []) end = (e, es) /\ ev_dies e = false /\
    Forall (fun e => ev_dies e = false) es) as (e & es & -> & He & Hes).
  { unfold lively in Hc. destruct (c_events c) as [|e es]; [by exists broken, []|]. apply Forall_cons in Hc as [? ?]. by exists e, es. }
  rewrite He. destruct (ev_reply e) as [[code msg]|]; [destruct (code_ok expect code)|]; (split; [|done]);
    unfold lively; cbn [fst]; by rewrite Ha.
Qed.
Lemma alive_cmd phase expect command act : (forall e c, c_events (act e c) = c_events c) -> Alive (cmd phase expect command act).
Proof. intros Ha. unfold cmd. apply alive_bind; [by apply alive_exchange|apply _]. Qed.
#[global] Instance alive_plain phase expect command : Alive (cmd phase expect command no_act).
Proof. by apply alive_cmd. Qed.
#[global] Instance alive_best (m : CM unit) : Alive m -> Alive (best_effort m).
Proof.
  intros Hm c Hc. unfold best_effort. destruct (Hm c Hc) as [H1 H2]. by destruct (m c) as [c1 [[]|[]]].
Qed.

Section session.
Context (ToUpper base64 : string -> string) (cfg : Config).
#[local] Instance alive_ehlo : Alive (ehlo ToUpper cfg).
Proof. unfold ehlo. apply alive_bind; [by apply alive_exchange|]. intros r. by apply alive_modify. Qed.
#[local] Instance alive_handshake : Alive handshake.
Proof.
  intros c Hc. unfold handshake. destruct (alive_plain PhaseStartTLS 220 "" c Hc) as [H1 H2].
  by destruct (cmd _ _ _ _ c) as [c1 [[]|[]]].
Qed.
#[local] Instance alive_hello : Alive (hello ToUpper cfg).
Proof.
  unfold hello. apply alive_bind; [apply _|]. intros _. destruct (DisableTLS cfg); [apply _|].
  apply alive_bind; [unfold has; apply _|]. intros []; cbn [negb]; [|apply _].
  apply alive_bind; [apply _|]. intros _. apply alive_bind; [apply _|]. intros _.
  apply alive_bind; [by apply alive_modify|apply _].
Qed.
#[local] Instance alive_authenticate : Alive (authenticate base64 cfg).
Proof.
  unfold authenticate. destruct (_ && _); [apply _|]. apply alive_bind; [apply _|]. intros tls. destruct (_ && _); apply _.
Qed.
Lemma act_events_mail from e c : c_events (take_mail from e c) = c_events c.
Proof. unfold take_mail. by destruct (positive e). Qed.
#[local] Instance alive_mail env b : Alive (mail env b).
Proof.
  unfold mail. apply alive_bind; [apply _|]. intros [raw|]; [|apply alive_cmd, act_events_mail].
  destruct (0 <? Size env); [|apply alive_cmd, act_events_mail].
  case_match; [apply _|apply alive_cmd, act_events_mail].
Qed.
#[local] Instance alive_rcpt_all l worst : Alive (rcpt_all l worst).
Proof.
  revert worst. induction l as [|r l IH]; intros worst; cbn [rcpt_all]; [apply _|]. intros c Hc.
  assert (Alive (cmd PhaseRcpt 25 ("RCPT TO:<" +:+ r +:+ ">") (take_rcpt r))) as Hr.
  { apply alive_cmd. intros e c'. unfold take_rcpt. by destruct (positive e). }
  destruct (Hr c Hc) as [H1 H2]. destruct (cmd _ _ _ _ c) as [c1 [[]|[]]]; try done; by apply IH.
Qed.
#[local] Instance alive_rcpt l : Alive (rcpt l).
Proof.
  unfold rcpt. apply alive_bind; [apply _|]. intros [code|]; [|apply _]. apply alive_bind; [|apply _].
  apply alive_best, alive_cmd. intros e c. unfold take_rset. by destruct (positive e).
Qed.
#[local] Instance alive_data msg : Alive (data msg).
Proof.
  unfold data. apply alive_bind; [apply _|]. intros _. apply alive_bind; [|apply _].
  apply alive_exchange. intros e c. unfold take_data. by destruct (positive e).
Qed.
Lemma alive_transaction env msg : Alive (transaction ToUpper base64 cfg env msg).
Proof.
  unfold transaction. destruct (String.eqb _ _); [apply _|]. destruct (bool_decide _); [apply _|].
  apply alive_bind; [unfold open_; apply alive_bind; [by apply alive_modify|apply _]|]. intros _.
  apply alive_bind; [apply _|]. intros _. apply alive_bind; [apply _|]. intros _.
  apply alive_bind; [unfold has; apply _|]. intros b. apply alive_bind; [apply _|]. intros _. apply alive_bind; apply _.
Qed.
Lemma alive_quit : Alive quit.
Proof. unfold quit. apply _. Qed.
End session.

(** ** An undisturbed executor *)

(** Nothing fails, nobody interferes, and the row is there. *)
Definition calm (w : World) : Prop := ow_schedule w = [] /\ lively (ow_conn w).
Record ready (id : Z) (w : World) : Prop := { r_calm : calm w; r_row : is_Some (ow_intents w !! id) }.
Record stays (id : Z) (w w' : World) : Prop := {
  st_ready : ready id w -> ready id w';
  st_other : forall j, j <> id -> ow_intents w' !! j = ow_intents w !! j;
  st_keyed : keyed w -> keyed w';
  st_executing : ow_executing w' = ow_executing w
}.
Lemma stays_refl id w : stays id w w.
Proof. by split. Qed.
Lemma stays_trans id w1 w2 w3 : stays id w1 w2 -> stays id w2 w3 -> stays id w1 w3.
Proof. intros [] []. split; auto; [|congruence]. intros j Hj. rewrite st_other1 by done. auto. Qed.
Lemma stays_same id w w' : ow_intents w' = ow_intents w -> ow_schedule w' = ow_schedule w -> ow_conn w' = ow_conn w ->
  ow_executing w' = ow_executing w -> stays id w w'.
Proof.
  intros Hi Hs Hc He. split; [|by rewrite Hi|by unfold keyed; rewrite Hi|done].
  intros [[H1 H2] H3]. split; [split|]; congruence.
Qed.
Lemma io_quiet {A} (f : World -> World * (failure + A)) w : calm w -> io f w = f w.
Proof. intros [Hs _]. unfold io. rewrite Hs. cbn. destruct w. cbn in Hs. by subst. Qed.

(** A program on the row of [id] that returns. *)
Class Tidy (id : Z) {A} (m : OM A) : Prop :=
  tidy : forall w, ready id w -> stays id w (m w).1 /\ (m w).2 <> inl Crash.
Section tidy.
Context (id : Z).
#[global] Instance tidy_ret {A} (a : A) : Tidy id (mret a).
Proof. intros w _. by split; [apply stays_refl|]. Qed.
#[global] Instance tidy_throw {A} : Tidy id (throw Err : OM A).
Proof. intros w _. by split; [apply stays_refl|]. Qed.
#[global] Instance tidy_gets {A} (f : World -> A) : Tidy id (gets f).
Proof. intros w _. by split; [apply stays_refl|]. Qed.
#[global] Instance tidy_bind {A B} (m : OM A) (k : A -> OM B) : Tidy id m -> (forall a, Tidy id (k a)) -> Tidy id (m ≫= k).
Proof.
  intros Hm Hk w Hw. destruct (Hm w Hw) as [H1 H2]. unfold mbind, M_bind. destruct (m w) as [w1 [e|a]]; cbn [fst snd] in *.
  - split; congruence.
  - destruct (Hk a w1 (st_ready _ _ _ H1 Hw)). split; [by eapply stays_trans|done].
Qed.
#[global] Instance tidy_try {A} (m : OM A) : Tidy id m -> Tidy id (try m).
Proof. intros Hm w Hw. destruct (Hm w Hw). unfold try. by destruct (m w) as [w1 [[]|a]]. Qed.
Lemma tidy_io {A} (f : World -> World * (failure + A)) :
  (forall w, ready id w -> stays id w (f w).1 /\ (f w).2 <> inl Crash) -> Tidy id (io f).
Proof. intros Hf w Hw. rewrite io_quiet by apply Hw. by apply Hf. Qed.

(** The statements on the row do their work. *)
Definition runs {A} (m : OM A) (P : SendIntent -> Prop) : Prop := forall w, ready id w ->
  stays id w (m w).1 /\ exists a s, (m w).2 = inr a /\ ow_intents (m w).1 !! id = Some s /\ P s.
Lemma runs_row f (P : SendIntent -> Prop) :
  (forall now s, si_ID (f now s) = si_ID s /\ P (f now s)) -> runs (io (update_row id f)) P.
Proof.
  intros Hf w Hw. rewrite io_quiet by apply Hw. unfold update_row. destruct (r_row _ _ Hw) as [s Es]. rewrite Es. cbn [fst snd].
  destruct (Hf (ow_now w) s) as [Hid HP].
  split.
  - split; [intros [Hc _]; split; [done|]|..|done]; cbn.
    + rewrite lookup_insert_eq. eauto.
    + intros j Hj. by rewrite lookup_insert_ne.
    + intros Hk j x. cbn. rewrite lookup_insert_Some. intros [[<- <-]|[_ Hx]]; [rewrite Hid; by apply Hk|by apply Hk].
  - eexists _, _. split; [done|]. cbn. by rewrite lookup_insert_eq.
Qed.
Lemma runs_tidy {A} (m : OM A) P : runs m P -> Tidy id m.
Proof. intros H w Hw. destruct (H w Hw) as [? (a & s & E & _)]. split; [done|]. by rewrite E. Qed.
Lemma runs_try {A} (m : OM A) P w : runs m P -> ready id w ->
  exists w' a s, try m w = (w', inr (Some a)) /\ stays id w w' /\ ow_intents w' !! id = Some s /\ P s.
Proof.
  intros H Hw. destruct (H w Hw) as [Hst (a & s & E & Hs & HP)]. unfold try. destruct (m w) as [w' r]. cbn [fst snd] in *. subst r.
  by exists w', a, s.
Qed.

#[global] Instance GetAccount_tidy a : Tidy id (GetAccount a).
Proof. apply tidy_io. intros w _. by split; [apply stays_refl|]. Qed.
#[global] Instance RawMessage_tidy a m : Tidy id (RawMessage a m).
Proof. apply tidy_io. intros w _. repeat case_match; by split; [apply stays_refl|]. Qed.
#[global] Instance SentContains_tidy a m : Tidy id (SentContainsMessageID a m).
Proof.
  unfold SentContainsMessageID. destruct (String.eqb m ""); [apply _|]. apply tidy_io. intros w _. by split; [apply stays_refl|].
Qed.
#[global] Instance AppendToSent_tidy a raw m : Tidy id (AppendToSent a raw m).
Proof.
  unfold AppendToSent. apply tidy_bind; [apply _|]. intros []; [apply _|]. apply tidy_bind.
  - apply tidy_io. intros w _. destruct (has_role _ _ _); by split; [apply stays_refl|].
  - intros _. apply tidy_bind; [|apply _]. apply tidy_io. intros w _. destruct (String.eqb raw ""); (split; [|done]); by apply stays_same.
Qed.
#[global] Instance RetireDraft_tidy a m : Tidy id (RetireDraft a m).
Proof.
  unfold RetireDraft. apply tidy_bind; [|apply _]. apply tidy_io. intros w _.
  repeat case_match; (split; [|done]); by apply stays_same.
Qed.
#[global] Instance prepare_tidy s : Tidy id (prepare s).
Proof. unfold prepare. destruct (decode_envelope _) as [env|]; [|apply _]. destruct (_ || _); apply _. Qed.
Lemma MarkAccepted_runs reply : runs (MarkSendIntentAccepted id reply) (fun _ => True).
Proof. apply runs_row. intros now s. unfold mark_accepted. by destruct (Accepted s). Qed.
Lemma MarkAppended_runs : runs (MarkSendIntentAppended id) (fun _ => True).
Proof. by apply runs_row. Qed.
Lemma Complete_runs : runs (CompleteIntent id) (fun s => si_State s <> IntentInFlight).
Proof. by apply runs_row. Qed.
Lemma Fail_runs t : runs (FailIntent id t) (fun s => si_State s <> IntentInFlight).
Proof. apply runs_row. intros now s. by destruct t. Qed.
End tidy.

Section executor.
Context (order : list SendIntent -> list SendIntent) (order_accounts : list Z -> list Z).
Context (ToUpper base64 : string -> string) (config : Z -> Config) (jitter : Z -> Z) (opts : Options).

Definition settled (id : Z) (w : World) : Prop := state_of id w <> Some IntentInFlight.
(** An end of the work on a row, and a phase that may end it or hand the intent on. *)
Definition ends (id : Z) (m : OM unit) : Prop := forall w, ready id w ->
  stays id w (m w).1 /\ (m w).2 = inr tt /\ settled id (m w).1.
Definition hands (s : SendIntent) (m : OM (option SendIntent)) : Prop := forall w, ready (si_ID s) w ->
  stays (si_ID s) w (m w).1 /\
  exists r, (m w).2 = inr r /\ match r with Some s' => si_ID s' = si_ID s | None => settled (si_ID s) (m w).1 end.

Lemma runs_ends {A} id (m : OM A) : runs id m (fun s => si_State s <> IntentInFlight) -> ends id (_ ← try m; mret tt).
Proof.
  intros H w Hw. destruct (runs_try id m _ w H Hw) as (w' & a & s & E & Hst & Hs & HP). unfold mbind, M_bind. rewrite E.
  split; [done|]. split; [done|]. unfold settled, state_of. cbn [mret M_ret fst]. rewrite Hs. cbn. intros [= H1]. by apply HP.
Qed.
Lemma requeue_ends s : ends (si_ID s) (requeue jitter opts s).
Proof. intros w Hw. unfold requeue. by apply (runs_ends (si_ID s)); [apply Fail_runs|]. Qed.
Lemma failPermanently_ends s : ends (si_ID s) (failPermanently s).
Proof. apply runs_ends, Fail_runs. Qed.

Lemma hands_end s m : ends (si_ID s) m -> hands s (m ≫= fun _ => mret None).
Proof.
  intros H w Hw. destruct (H w Hw) as (H1 & H2 & H3). unfold mbind, M_bind. destruct (m w) as [w1 r]. cbn [fst snd] in *. subst r.
  split; [done|]. by exists None.
Qed.
Lemma hands_some s s' : si_ID s' = si_ID s -> hands s (mret (Some s')).
Proof. intros H w Hw. split; [apply stays_refl|]. by exists (Some s'). Qed.
Lemma hands_mark s reply : hands s (s' ← markAccepted s reply; mret (Some s')).
Proof. intros w Hw. split; [apply stays_refl|]. by eexists (Some _). Qed.
Lemma hands_try {A} s (m : OM A) k : Tidy (si_ID s) m -> (forall r, hands s (k r)) -> hands s (try m ≫= k).
Proof.
  intros Hm Hk w Hw. destruct (Hm w Hw) as [H1 H2]. unfold mbind, M_bind, try.
  destruct (m w) as [w1 [[]|a]]; cbn [fst snd] in *; [done|..];
    (edestruct Hk as [H3 H4]; [by apply H1|]; split; [by eapply stays_trans|exact H4]).
Qed.
Lemma hands_runs {A} s (m : OM A) P k : runs (si_ID s) m P -> (forall a, hands s (k (Some a))) -> hands s (try m ≫= k).
Proof.
  intros Hm Hk w Hw. destruct (runs_try _ m _ w Hm Hw) as (w1 & a & x & E & H1 & _). unfold mbind, M_bind. rewrite E.
  destruct (Hk a w1) as [H3 H4]; [by apply H1|]. split; [by eapply stays_trans|exact H4].
Qed.
Lemma persist_runs id reply : runs id (persistAcceptance id reply) (fun _ => True).
Proof.
  intros w Hw. unfold persistAcceptance. cbn [persist_loop]. unfold mbind at 1, M_bind at 1.
  destruct (runs_try _ _ _ w (MarkAccepted_runs id reply) Hw) as (w1 & a & s & E & H1 & Hs & _).
  unfold mbind, M_bind. rewrite E. cbn. split; [done|]. by exists tt, s.
Qed.

(** The transport returns, and not by the end of the process. *)
Lemma transport_stays s env msg w : ready (si_ID s) w ->
  stays (si_ID s) w (transport ToUpper base64 config s env msg w).1 /\
  (transport ToUpper base64 config s env msg w).2 <> inl Died.
Proof.
  intros Hw. unfold transport, try. rewrite io_quiet by apply Hw. set (id := si_ID s) in *.
  assert (forall A (m : CM A) w, Alive m -> ready id w -> stays id w (on_smtp id A m w).1 /\ (on_smtp id A m w).2 <> inl Died) as Hsm.
  { intros A m v Hm [[Hs Hc] Hr]. destruct (Hm _ Hc) as [Hl Hd]. unfold on_smtp. destruct (m (ow_conn v)) as [c r]. cbn [fst snd] in *.
    split; [|done]. split; [|done..]. intros _. done. }
  unfold Send, mbind, M_bind. destruct (Hsm _ _ w (alive_transaction ToUpper base64 (config (si_AccountID s)) env msg) Hw) as [H1 H2].
  destruct (on_smtp id _ _ w) as [w1 [e|reply]]; cbn [fst snd] in *; [split; congruence|].
  assert (ready id w1) as Hw1 by (by apply H1). unfold after_250, on_accepted.
  destruct (MarkAccepted_runs id reply w1 Hw1) as [H3 (a & x & E & Hx & _)].
  destruct (MarkSendIntentAccepted id reply w1) as [w2 r]. cbn [fst snd] in *. subst r.
  set (w3 := if recorded id w2 then w2 else _).
  assert (stays id w2 w3) as H4 by (unfold w3; destruct (recorded id w2); by apply stays_same).
  assert (ready id w3) as Hw3 by (by apply H4, H3).
  unfold mbind, M_bind. destruct (Hsm _ _ w3 alive_quit Hw3) as [H5 H6].
  destruct (on_smtp id unit quit w3) as [w4 [e|[]]]; cbn [fst snd] in *;
    (split; [|cbn; congruence]); cbn [fst snd]; repeat (eapply stays_trans; [eassumption|]); apply stays_refl.
Qed.

Lemma deliver_hands s env msg : hands s (deliver ToUpper base64 config jitter opts s env msg).
Proof.
  intros w Hw. unfold deliver. destruct (transport_stays s env msg w Hw) as [H1 H2].
  destruct (transport _ _ _ s env msg w) as [w1 r]. cbn [fst snd] in H1, H2.
  assert (forall m, hands s m -> stays (si_ID s) w (m w1).1 /\ exists r, (m w1).2 = inr r /\
    match r with Some s' => si_ID s' = si_ID s | None => settled (si_ID s) (m w1).1 end) as Hm.
  { intros m Hm. destruct (Hm w1) as [H3 H4]; [by apply H1|]. split; [by eapply stays_trans|done]. }
  destruct r as [[| |reply]|reply]; [done|apply Hm..].
  - unfold not_sent. destruct (_ || _); apply hands_end; [apply failPermanently_ends|apply requeue_ends].
  - unfold recorded_late. eapply hands_runs; [apply persist_runs|]. intros _. apply hands_mark.
  - apply hands_mark.
Qed.
Lemma send_now_hands s : hands s (send_now ToUpper base64 config jitter opts s).
Proof.
  unfold send_now. apply hands_try; [apply _|]. intros [[msg env]|]; [|apply hands_end, failPermanently_ends].
  apply hands_try; [apply _|]. intros [[]|]; [apply deliver_hands|apply hands_end, requeue_ends].
Qed.
Lemma transmit_hands s recovered : hands s (transmit ToUpper base64 config jitter opts s recovered).
Proof.
  unfold transmit. destruct (recovered || _); [|apply send_now_hands].
  apply hands_try; [apply _|]. intros [[|]|]; [|apply send_now_hands|apply hands_end, requeue_ends].
  intros w Hw. unfold mbind at 1, M_bind at 1, modify. set (w1 := set_found w _).
  assert (stays (si_ID s) w w1) as H1 by (by apply stays_same).
  eassert (hands s _) as Hh; [|destruct (Hh w1) as [H2 H3]; [by apply H1|]; split; [eapply stays_trans; [exact H1|exact H2]|exact H3]].
  eapply hands_runs; [apply persist_runs|]. intros _. apply hands_mark.
Qed.
(** The Sent copy: done, or the intent is queued again. *)
Lemma sent_copy_stays s w : ready (si_ID s) w -> stays (si_ID s) w (sent_copy jitter opts s w).1 /\
  exists b, (sent_copy jitter opts s w).2 = inr b /\ (b = false -> settled (si_ID s) (sent_copy jitter opts s w).1).
Proof.
  intros Hw. unfold sent_copy, mbind, M_bind, try. destruct (prepare_tidy (si_ID s) s w Hw) as [H1 H2].
  destruct (prepare s w) as [w1 [[]|[msg env]]]; cbn [fst snd] in *; [done|split; [done|by exists true]|].
  destruct (AppendToSent_tidy (si_ID s) (si_AccountID s) msg (si_MessageRFCID s) w1) as [H3 H4]; [by apply H1|].
  destruct (AppendToSent _ _ _ w1) as [w2 [[]|b]]; cbn [fst snd] in *; [done| |split; [by eapply stays_trans|by exists true]].
  destruct (requeue_ends s w2) as (H5 & H6 & H7); [by apply H3, H1|].
  destruct (requeue jitter opts s w2) as [w3 r3]; cbn [fst snd] in *. subst r3. cbn.
  split; [|by exists false]. repeat (eapply stays_trans; [eassumption|]). apply stays_refl.
Qed.
Lemma hands_sent_copy s k : hands s (k true) -> (forall w, k false w = (w, inr None)) -> hands s (sent_copy jitter opts s ≫= k).
Proof.
  intros Hk Hk' w Hw. unfold mbind, M_bind. destruct (sent_copy_stays s w Hw) as [H1 (b & E & Hb)].
  destruct (sent_copy jitter opts s w) as [w1 r]. cbn [fst snd] in *. subst r. destruct b.
  - destruct (Hk w1) as [H2 H3]; [by apply H1|]. split; [by eapply stays_trans|exact H3].
  - rewrite Hk'. split; [done|]. exists None. split; [done|]. by apply Hb.
Qed.
Lemma append_phase_hands s : hands s (append_phase jitter opts s).
Proof.
  unfold append_phase. destruct (si_AppendedAt s); [by apply hands_some|]. apply hands_sent_copy; [|done].
  eapply hands_runs; [apply MarkAppended_runs|]. intros _ w2 Hw2. split; [apply stays_refl|]. by eexists (Some _).
Qed.
Lemma postSend_ends s : ends (si_ID s) (postSend jitter opts s).
Proof.
  intros w Hw. unfold postSend, mbind, M_bind. destruct (append_phase_hands s w Hw) as [H1 (r & E & Hr)].
  destruct (append_phase jitter opts s w) as [w1 r1]. cbn [fst snd] in *. subst r1. destruct r as [s'|]; [|done].
  rewrite <- Hr in *.
  assert (exists w2, retireScheduledDraft opts s' w1 = (w2, inr tt) /\ stays (si_ID s') w1 w2) as (w2 & -> & H2).
  { unfold retireScheduledDraft. destruct (_ || _); [exists w1; by split; [|apply stays_refl]|].
    unfold mbind, M_bind, try. destruct (RetireDraft_tidy (si_ID s') (si_AccountID s') (si_EmailID s') w1) as [H2 H3]; [by apply H1|].
    destruct (RetireDraft _ _ w1) as [w2 [[]|[]]]; cbn [fst snd] in *; [done|by exists w2..]. }
  destruct (runs_try _ _ _ w2 (Complete_runs (si_ID s'))) as (w3 & a & x & -> & H3 & Hx & HP); [by apply H2, H1|]. cbn.
  split; [|split; [done|unfold settled, state_of; rewrite Hx; cbn; by intros [= ?]]].
  repeat (eapply stays_trans; [eassumption|]). apply stays_refl.
Qed.

Notation exec := (execute ToUpper base64 config jitter opts).
Lemma execute_settles recovered s w : ready (si_ID s) w -> si_ID s ∉ ow_executing w ->
  stays (si_ID s) w (exec recovered s w).1 /\ (exec recovered s w).2 = inr tt /\ settled (si_ID s) (exec recovered s w).1.
Proof.
  intros Hw Hx. unfold execute, mbind, M_bind, begin_. rewrite bool_decide_eq_false_2 by done.
  set (w1 := set_executing w _). assert (ready (si_ID s) w1) as Hw1 by (destruct Hw as [[]]; by repeat split).
  set (phase := if Accepted s then mret (Some s) else transmit ToUpper base64 config jitter opts s recovered).
  assert (hands s phase) as Hh by (unfold phase; destruct (Accepted s); [by apply hands_some|apply transmit_hands]).
  destruct (Hh w1 Hw1) as [H1 (r & E & Hr)]. destruct (phase w1) as [w2 r2]. cbn [fst snd] in *. subst r2.
  assert (exists w3, (match r with None => mret tt | Some s => postSend jitter opts s end) w2 = (w3, inr tt) /\
    stays (si_ID s) w1 w3 /\ settled (si_ID s) w3) as (w3 & -> & H3 & Hset).
  { destruct r as [s'|]; [|by exists w2]. destruct (postSend_ends s' w2) as (H2 & H3 & H4); [rewrite Hr; by apply H1|].
    rewrite Hr in *. destruct (postSend jitter opts s' w2) as [w3 r3]. cbn [fst snd] in *. subst r3. exists w3. split; [done|].
    split; [by eapply stays_trans|done]. }
  unfold end_, modify. cbn [fst snd]. split; [|done]. destruct H3 as [Ha Hb Hc Hd]. split; cbn.
  - intros _. destruct (Ha Hw1) as [[]]. by repeat split.
  - exact Hb.
  - exact Hc.
  - rewrite Hd. cbn. set_solver.
Qed.

(** Between two executions. *)
Definition resting (w : World) : Prop := calm w /\ keyed w /\ ow_executing w = ∅.
Lemma loop_settles recovered l w : resting w -> NoDup (si_ID <$> l) -> Forall (fun s => is_Some (ow_intents w !! si_ID s)) l ->
  (forall j, ~ settled j w -> j ∈ si_ID <$> l) ->
  resting (forM_ l (exec recovered) w).1 /\ (forM_ l (exec recovered) w).2 = inr tt /\
  forall j, settled j (forM_ l (exec recovered) w).1.
Proof.
  revert w. induction l as [|s l IH]; intros w Hw Hnd Hl Hin; cbn [forM_].
  - split; [done|]. split; [done|]. intros j Hj. apply (not_elem_of_nil j), Hin. by intros Hn.
  - apply Forall_cons in Hl as [Hs Hl]. rewrite fmap_cons in Hnd. apply NoDup_cons in Hnd as [Hnin Hnd].
    destruct Hw as (Hc & Hk & He). unfold mbind, M_bind.
    destruct (execute_settles recovered s w) as ([Ha Hb Hd Hx] & E & Hset); [done|rewrite He; set_solver|].
    destruct (exec recovered s w) as [w1 r]. cbn [fst snd] in *. subst r. apply IH; [|done|..].
    + split; [by apply Ha|]. split; [by apply Hd|congruence].
    + apply Forall_forall. intros x Hx'. rewrite Hb; [exact (proj1 (Forall_forall _ _) Hl x Hx')|].
      intros Ex. apply Hnin. rewrite <- Ex. apply list_elem_of_fmap. eauto.
    + intros j Hj. destruct (decide (j = si_ID s)) as [->|Hne]; [done|].
      assert (~ settled j w) as Hj'. { unfold settled, state_of in *. by rewrite Hb in Hj. }
      apply Hin in Hj'. rewrite fmap_cons in Hj'. by apply elem_of_cons in Hj' as [|].
Qed.

Hypothesis order_perm : forall l, order l ≡ₚ l.
(** A claim and the executions it leads to. *)
Lemma claim_settles recovered f pick w :
  let m := io (fun w => (set_intents w (update_all (f w) (pick w) (ow_intents w)), inr (order (f w <$> pick w)))) in
  resting w -> claims m -> (forall s, si_ID (f w s) = si_ID s) ->
  (forall j, ~ settled j w -> j ∈ si_ID <$> pick w) ->
  let r := (r ← try m; match r with None => mret tt | Some l => forM_ l (exec recovered) end) w in
  resting r.1 /\ r.2 = inr tt /\ forall j, settled j r.1.
Proof.
  intros m Hw Hm Hid Hin. cbv zeta. destruct Hw as (Hc & Hk & He). specialize (Hm w Hk).
  unfold mbind, M_bind, try. unfold m in *. rewrite io_quiet in * by done. cbv beta in *. destruct Hm as [Hs [Hnd Hheld]].
  set (w1 := set_intents w _) in *. apply loop_settles.
  - split; [done|]. split; [by apply Hs|done].
  - done.
  - apply Forall_forall. intros s Hsl. destruct (proj1 (Forall_forall _ _) Hheld s Hsl) as [H _]. unfold state_of in H.
    by destruct (ow_intents w1 !! si_ID s).
  - intros j Hj. rewrite order_perm, <- list_fmap_compose, (list_fmap_ext _ si_ID) by (intros ? ? _; apply Hid).
    destruct (decide (j ∈ si_ID <$> pick w)) as [|Hn]; [done|]. apply Hin. intros Hst. apply Hj. unfold settled, state_of in *.
    subst w1. cbn in *. unfold update_all. rewrite lookup_fmap. destruct (ow_intents w !! j) as [x|] eqn:Ex; [|done]. cbn in *.
    by rewrite decide_False by (by rewrite (Hk _ _ Ex)).
Qed.

Notation process := (Run order order_accounts ToUpper base64 config jitter opts).
Definition clear (w : World) : Prop := resting w /\ forall j, settled j w.
Lemma run_accounts_clear l w : clear w ->
  clear (run_accounts order ToUpper base64 config jitter opts l w).1 /\ (run_accounts order ToUpper base64 config jitter opts l w).2 = inr tt.
Proof.
  revert w. induction l as [|a l IH]; intros w Hw; [done|]. cbn [run_accounts]. unfold mbind, M_bind.
  assert (ctx_done w = (w, inr false)) as ->.
  { unfold ctx_done, mbind, M_bind, try. rewrite io_quiet by apply Hw. done. }
  destruct Hw as [Hr Hset].
  destruct (claim_settles false (fun w s => with_state s IntentInFlight (si_Attempts s + 1) (si_NotBefore s) (ow_now w))
    (claimable a (Z.to_nat (if ClaimBatch opts <=? 0 then 10 else ClaimBatch opts))) w) as (H1 & H2 & H3); [done| |done| |].
  - apply (ClaimDue_claims order order_perm a (ClaimBatch opts)).
  - intros j Hj. exfalso. apply Hj, Hset.
  - change (try _ ≫= _) with (run_account order ToUpper base64 config jitter opts a) in H1, H2, H3.
    destruct (run_account _ _ _ _ _ _ a w) as [w1 r]. cbn [fst snd] in *. subst r. by apply IH.
Qed.
Lemma ticks_clear n w : clear w -> clear (ticks order order_accounts ToUpper base64 config jitter opts n w).1.
Proof.
  revert w. induction n as [|n IH]; intros w Hw; [done|]. cbn [ticks]. unfold runOnce.
  unfold mbind, M_bind, try. unfold DueSendAccounts. rewrite io_quiet by apply Hw.
  destruct (run_accounts_clear (order_accounts (remove_dups (si_AccountID <$> filter (fun s => due (ow_now w) s = true) (rows w)))) w Hw)
    as [H1 H2].
  destruct (run_accounts _ _ _ _ _ _ _ w) as [w1 r]. cbn [fst snd] in *. subst r. by apply IH.
Qed.

(** C6: Nothing is left in flight: a process that starts on whatever a crash left behind and
    is not disturbed has, after its recovery and after every tick, every submission done,
    failed, cancelled or queued for its next attempt, whatever the submission server
    answers. *)
Theorem outbox_settles n w :
  ow_schedule w = [] -> lively (ow_conn w) -> keyed w ->
  forall j, state_of j (process n (set_executing w ∅)).1 <> Some IntentInFlight.
Proof.
  intros Hs Hl Hk. set (w0 := set_executing w ∅). assert (resting w0) as Hw by done.
  unfold Run, mbind, M_bind.
  destruct (claim_settles true (fun w s => with_state s (si_State s) (si_Attempts s + 1) (si_NotBefore s) (ow_now w))
    (fun w => filter (fun s => si_State s = IntentInFlight) (rows w)) w0) as (H1 & H2 & H3); [done| |done| |].
  - apply (Recover_claims order order_perm).
  - intros j Hj. unfold settled, state_of in Hj. destruct (ow_intents w0 !! j) as [s|] eqn:Es; [|by destruct Hj].
    apply list_elem_of_fmap. exists s. split; [by rewrite (Hk j s)|]. apply list_elem_of_filter. split.
    + destruct (decide (si_State s = IntentInFlight)); [done|]. destruct Hj. cbn. congruence.
    + unfold rows. apply list_elem_of_fmap. exists (j, s). by rewrite elem_of_map_to_list.
  - change (try _ ≫= _) with (recover order ToUpper base64 config jitter opts) in H1, H2, H3.
    destruct (recover _ _ _ _ _ _ w0) as [w1 r]. cbn [fst snd] in *. subst r. apply (ticks_clear n w1). by split.
Qed.
End executor.

(** A row that was in flight when the process before died. *)
Definition orphan_world : World :=
  mkWorld {[1 := with_state queued_intent IntentInFlight 1 (si_NotBefore queued_intent) start_time]} {[7 := drafted]}
    [(5, RoleSent); (5, RoleTrash); (5, RoleDrafts)] (start_time + 60 * Second) [] (connect (broken :: good_talk)) ∅ [] [] [].
Lemma outbox_settles_witness :
  let w := (Run keep keep same_case same_case (fun _ => sample_cfg) keep sample_options 0 (set_executing orphan_world ∅)).1 in
  state_of 1 w = Some IntentQueued /\ state_of 1 w <> Some IntentInFlight.
Proof.
  cbv zeta. split; [vm_compute; reflexivity|].
  refine (outbox_settles keep keep same_case same_case (fun _ => sample_cfg) keep sample_options _ 0 orphan_world _ _ _ 1).
  - intros l. reflexivity.
  - reflexivity.
  - repeat constructor.
  - intros j s. cbn. intros [<- <-]%lookup_singleton_Some. reflexivity.
Defined.
