(* ===== verification/GoEncoding.v ===== *)
(** Text encodings of Go's standard library: encoding/hex and the unpadded URL alphabet of
    encoding/base64, written and read back. *)

From S2P Require Import Prelude Text GoStrings Json.
From Stdlib Require Import Ascii String.
#[local] Open Scope string_scope.
#[local] Open Scope Z_scope.

(** [hex.EncodeToString]. *)
Fixpoint hex_encode (s : string) : string :=
  match s with
  | EmptyString => EmptyString
  | String c r => String (digit_char (byte_val c / 16)) (String (digit_char (byte_val c mod 16)) (hex_encode r))
  end.

(** [base64.RawURLEncoding]. *)
Definition b64_char (v : Z) : ascii :=
  if v <? 26 then byte_chr (65 + v)
  else if v <? 52 then byte_chr (97 + (v - 26))
  else if v <? 62 then byte_chr (48 + (v - 52))
  else if v =? 62 then "-" else "_".
Definition b64_value (c : ascii) : option Z :=
  if byte_between c 65 90 then Some (byte_val c - 65)
  else if byte_between c 97 122 then Some (byte_val c - 97 + 26)
  else if byte_between c 48 57 then Some (byte_val c - 48 + 52)
  else if Ascii.eqb c "-" then Some 62
  else if Ascii.eqb c "_" then Some 63
  else None.

Fixpoint b64_encode (s : string) : string :=
  match s with
  | String a (String b (String c r)) =>
      let v := byte_val a * 65536 + byte_val b * 256 + byte_val c in
      String (b64_char (v / 262144)) (String (b64_char (v / 4096 mod 64))
        (String (b64_char (v / 64 mod 64)) (String (b64_char (v mod 64)) (b64_encode r))))
  | String a (String b EmptyString) =>
      let v := byte_val a * 1024 + byte_val b * 4 in
      String (b64_char (v / 4096)) (String (b64_char (v / 64 mod 64)) (String (b64_char (v mod 64)) EmptyString))
  | String a EmptyString =>
      let v := byte_val a * 16 in
      String (b64_char (v / 64)) (String (b64_char (v mod 64)) EmptyString)
  | EmptyString => EmptyString
  end.

(** The decoder passes over line breaks, refuses any other byte outside the alphabet and a
    single character left over, and ignores the unused bits at the end. *)
Fixpoint b64_values (s : string) : option (list Z) :=
  match s with
  | EmptyString => Some []
  | String c r =>
      if Ascii.eqb c "013" || Ascii.eqb c "010" then b64_values r
      else v ← b64_value c; l ← b64_values r; Some (v :: l)
  end.
Fixpoint b64_quanta (l : list Z) : option string :=
  match l with
  | [] => Some EmptyString
  | [_] => None
  | [a; b] => Some (String (byte_chr ((a * 64 + b) / 16)) EmptyString)
  | [a; b; c] =>
      let v := a * 4096 + b * 64 + c in
      Some (String (byte_chr (v / 1024)) (String (byte_chr (v / 4 mod 256)) EmptyString))
  | a :: b :: c :: d :: l =>
      let v := a * 262144 + b * 4096 + c * 64 + d in
      r ← b64_quanta l;
      Some (String (byte_chr (v / 65536)) (String (byte_chr (v / 256 mod 256)) (String (byte_chr (v mod 256)) r)))
  end.
Definition b64_decode (s : string) : option string := l ← b64_values s; b64_quanta l.

Example b64_known : b64_encode "push|17" = "cHVzaHwxNw" /\ b64_decode "cHVzaHwxNw" = Some "push|17".
Proof. by vm_compute. Qed.

(** ** Round trips *)

Lemma byte_val_range c : 0 <= byte_val c < 256.
Proof. unfold byte_val. pose proof (nat_ascii_bounded c). lia. Qed.
Lemma byte_chr_val c : byte_chr (byte_val c) = c.
Proof. unfold byte_chr, byte_val. by rewrite Nat2Z.id, ascii_nat_embedding. Qed.
Lemma byte_chr_is v c : v = byte_val c -> byte_chr v = c.
Proof. intros ->. apply byte_chr_val. Qed.

Fixpoint below_nat (n : nat) : list Z := match n with O => [] | S n => Z.of_nat n :: below_nat n end.
Lemma below_nat_spec n v : 0 <= v < Z.of_nat n -> v ∈ below_nat n.
Proof.
  induction n as [|n IH]; intros H; [lia|]. cbn [below_nat]. apply elem_of_cons.
  destruct (decide (v = Z.of_nat n)); [by left|]. right. apply IH. lia.
Qed.
Lemma b64_char_props v : 0 <= v < 64 ->
  b64_value (b64_char v) = Some v /\ (Ascii.eqb (b64_char v) "013" || Ascii.eqb (b64_char v) "010") = false /\
  Ascii.eqb (b64_char v) "." = false.
Proof.
  intros Hv. assert (forallb (fun v => bool_decide (b64_value (b64_char v) = Some v /\
    (Ascii.eqb (b64_char v) "013" || Ascii.eqb (b64_char v) "010") = false /\ Ascii.eqb (b64_char v) "." = false)) (below_nat 64) = true) as H
    by (vm_compute; reflexivity).
  rewrite forallb_forall in H. apply (bool_decide_eq_true_1 _), H, list_elem_of_In, below_nat_spec. lia.
Qed.
Lemma b64_values_char v r : 0 <= v < 64 -> b64_values (String (b64_char v) r) = (l ← b64_values r; Some (v :: l)).
Proof. intros Hv. cbn [b64_values]. destruct (b64_char_props v Hv) as (-> & -> & _). done. Qed.

(** Strings by groups of three. *)
Lemma string_ind3 (P : string -> Prop) :
  P "" -> (forall a, P (String a "")) -> (forall a b, P (String a (String b ""))) ->
  (forall a b c r, P r -> P (String a (String b (String c r)))) -> forall s, P s.
Proof.
  intros H0 H1 H2 H3. fix IH 1. intros [|a [|b [|c r]]]; [done|apply H1|apply H2|apply H3, IH].
Qed.

Lemma b64_decode_values s l : b64_values s = Some l -> b64_decode s = b64_quanta l.
Proof. intros H. unfold b64_decode. by rewrite H. Qed.
Lemma b64_roundtrip s : b64_decode (b64_encode s) = Some s.
Proof.
  assert (exists l, b64_values (b64_encode s) = Some l /\ b64_quanta l = Some s) as (l & Hl & Hq);
    [|unfold b64_decode; by rewrite Hl].
  induction s as [|a|a b|a b c r (l & Hl & Hq)] using string_ind3.
  - by exists [].
  - pose proof (byte_val_range a). cbn [b64_encode]. eexists. rewrite !b64_values_char by div_lia. split; [done|].
    cbn [b64_quanta]. repeat f_equal. apply byte_chr_is. div_lia.
  - pose proof (byte_val_range a). pose proof (byte_val_range b). cbn [b64_encode].
    eexists. rewrite !b64_values_char by div_lia. split; [done|].
    cbn [b64_quanta]. repeat f_equal; apply byte_chr_is; div_lia.
  - pose proof (byte_val_range a). pose proof (byte_val_range b). pose proof (byte_val_range c). cbn [b64_encode].
    eexists. rewrite !b64_values_char by div_lia. rewrite Hl. split; [done|].
    cbn [b64_quanta]. rewrite Hq. cbn. repeat f_equal; apply byte_chr_is; div_lia.
Qed.
Lemma b64_no_dot s : chars_in (fun c => negb (Ascii.eqb c ".")) (b64_encode s) = true.
Proof.
  assert (forall v r, 0 <= v < 64 -> chars_in (fun c => negb (Ascii.eqb c ".")) (String (b64_char v) r) =
    chars_in (fun c => negb (Ascii.eqb c ".")) r) as Hc.
  { intros v r Hv. cbn [chars_in]. by destruct (b64_char_props v Hv) as (_ & _ & ->). }
  induction s as [|a|a b|a b c r IH] using string_ind3; cbn [b64_encode]; [done|..].
  - pose proof (byte_val_range a). by rewrite !Hc by div_lia.
  - pose proof (byte_val_range a). pose proof (byte_val_range b). by rewrite !Hc by div_lia.
  - pose proof (byte_val_range a). pose proof (byte_val_range b). pose proof (byte_val_range c). by rewrite !Hc by div_lia.
Qed.

(** Hexadecimal text has no separator in it. *)
Lemma hex_encode_chars (P : ascii -> bool) s : (forall d, 0 <= d < 16 -> P (digit_char d) = true) -> chars_in P (hex_encode s) = true.
Proof.
  intros HP. induction s as [|c r IH]; [done|]. cbn [hex_encode chars_in]. pose proof (byte_val_range c).
  by rewrite !HP, IH by div_lia.
Qed.
Lemma hex_encode_inj s s' : hex_encode s = hex_encode s' -> s = s'.
Proof.
  revert s'. induction s as [|c s IH]; intros [|c' s']; [done|done|done|]. cbn [hex_encode]. intros [= H1 H2 H3].
  pose proof (byte_val_range c). pose proof (byte_val_range c').
  assert (forall d d', 0 <= d < 16 -> 0 <= d' < 16 -> digit_char d = digit_char d' -> d = d') as Hd.
  { intros d d' Hd Hd' E. pose proof (digit_char_value d) as E1. rewrite E, digit_char_value in E1 by lia. naive_solver lia. }
  apply Hd in H1, H2; [|div_lia..]. rewrite (IH s' H3). f_equal. rewrite <- (byte_chr_val c), <- (byte_chr_val c'). f_equal. div_lia.
Qed.

(** [binary.BigEndian]: [k] bytes, the most significant first. *)
Fixpoint be_bytes (k : nat) (n : Z) : string :=
  match k with
  | O => EmptyString
  | S k => be_bytes k (n / 256) +:+ String (byte_chr (n mod 256)) EmptyString
  end.
Lemma be_bytes_length k n : String.length (be_bytes k n) = k.
Proof. revert n. induction k as [|k IH]; intros n; [done|]. cbn [be_bytes]. rewrite length_app_s, IH. cbn. lia. Qed.
Lemma byte_chr_inj a b : 0 <= a < 256 -> 0 <= b < 256 -> byte_chr a = byte_chr b -> a = b.
Proof.
  intros Ha Hb E. unfold byte_chr in E. apply (f_equal nat_of_ascii) in E. rewrite !nat_ascii_embedding in E by lia. lia.
Qed.
Lemma app_s_inj a b c d : String.length a = String.length b -> a +:+ c = b +:+ d -> a = b /\ c = d.
Proof.
  revert b. induction a as [|x a IH]; intros [|y b]; cbn [String.length]; try done; intros Hl.
  rewrite !app_s_cons. intros [= -> E]. destruct (IH b) as [-> ->]; [lia|done|done].
Qed.
Lemma be_bytes_inj k n m : 0 <= n < 256 ^ Z.of_nat k -> 0 <= m < 256 ^ Z.of_nat k -> be_bytes k n = be_bytes k m -> n = m.
Proof.
  revert n m. induction k as [|k IH]; intros n m Hn Hm E; [cbn in *; lia|]. cbn [be_bytes] in E.
  rewrite Nat2Z.inj_succ, Z.pow_succ_r in Hn, Hm by lia.
  apply app_s_inj in E as [E1 E2]; [|by rewrite !be_bytes_length]. injection E2 as E2.
  apply byte_chr_inj in E2; [|div_lia..]. apply IH in E1; [div_lia|..].
  - split; [div_lia|]. apply Z.div_lt_upper_bound; lia.
  - split; [div_lia|]. apply Z.div_lt_upper_bound; lia.
Qed.
