(* ===== verification/Token.v ===== *)
(** Scoped access tokens (jmaphttp/token.go): a signed payload that names a scope, an
    account and an expiry, and a registry by which a token is revoked.

    Each operation holds the authority's mutex while it touches the registry, so any
    interleaving of requests is a sequence of them. The signature is a parameter, as is the
    order in which Go ranges over a map. *)

From S2P Require Import Prelude Text GoStrings Jmap Json JsonDecode GoEncoding.
From Stdlib Require Import Ascii String.
#[local] Open Scope string_scope.
#[local] Open Scope Z_scope.

Definition ScopePush : string := "push".
Definition ScopeBlob : string := "blob".
Definition tokenTTL : Z := 10 * Minute.
Definition maxTokensPerAccount : nat := 64.
Definition maxScopesPerMint : nat := 4.
Definition maxTokensPerRevoke : nat := 16.
Definition tokenPrefix : string := "mt1".

(** [Time.Unix] of an instant counted from Go's zero time. *)
Definition Unix (t : Z) : Z := t / Second - 62135596800.

Record tokenGrant := mkGrant { tg_account : Z; tg_scope : string; tg_expires : Z }.
Definition zeroGrant : tokenGrant := mkGrant 0 "" 0.
Record tokenAuthority := mkAuthority { grants : gmap string tokenGrant; byAccount : gmap Z (gset string) }.
Definition newTokenAuthority : tokenAuthority := mkAuthority ∅ ∅.

Definition known_scope (scope : string) : bool := String.eqb scope ScopePush || String.eqb scope ScopeBlob.
Definition nonces (a : tokenAuthority) (accountID : Z) : gset string := default ∅ (byAccount a !! accountID).

Section authority.
(** HMAC-SHA256 under the key of the process, and the order of a range over a map. *)
Context (hmac : string -> string) (order : list string -> list string).

Definition tokenCanonical (payload : string) : string := "moov-token-v1" +:+ String "000" payload.
Definition payload_of (scope : string) (accountID expiresUnix : Z) (nonce : string) : string :=
  scope +:+ "|" +:+ FormatInt 10 accountID +:+ "|" +:+ FormatInt 10 expiresUnix +:+ "|" +:+ nonce.
Definition token_of (payload : string) : string :=
  tokenPrefix +:+ "." +:+ b64_encode payload +:+ "." +:+ b64_encode (hmac (tokenCanonical payload)).

Definition parse_payload (payload : string) : option (string * Z * Z * string) :=
  match Split "|" payload with
  | [scope; account; expires; nonce] =>
      accountID ← ParseInt 10 account;
      expiresUnix ← ParseInt 10 expires;
      Some (scope, accountID, expiresUnix, nonce)
  | _ => None
  end.
Definition parseAndAuthenticate (token : string) : option (string * Z * Z * string) :=
  match Split "." token with
  | [prefix; payload; tag] =>
      if negb (String.eqb prefix tokenPrefix) then None
      else
        payloadRaw ← b64_decode payload;
        got ← b64_decode tag;
        if String.eqb got (hmac (tokenCanonical payloadRaw)) then parse_payload payloadRaw else None
  | _ => None
  end.

(** Out of both indexes; an account without tokens has no set. *)
Definition dropLocked (nonce : string) (a : tokenAuthority) : tokenAuthority :=
  let by_account :=
    match grants a !! nonce with
    | Some g =>
        match byAccount a !! tg_account g with
        | Some per =>
            let per := per ∖ {[nonce]} in
            if bool_decide (per = ∅) then delete (tg_account g) (byAccount a) else <[tg_account g := per]> (byAccount a)
        | None => byAccount a
        end
    | None => byAccount a
    end in
  mkAuthority (delete nonce (grants a)) by_account.

Definition pruneLocked (accountID now : Z) (a : tokenAuthority) : tokenAuthority :=
  foldl (fun a nonce =>
    match grants a !! nonce with
    | Some g => if After now (tg_expires g) then dropLocked nonce a else a
    | None => dropLocked nonce a
    end) a (order (elements (nonces a accountID))).

(** The loop of [evictOldestLocked]. *)
Definition older (a : tokenAuthority) (oldest : string * Z) (nonce : string) : string * Z :=
  let g := default zeroGrant (grants a !! nonce) in
  if String.eqb oldest.1 "" || Before (tg_expires g) oldest.2 then (nonce, tg_expires g) else oldest.
Definition evictOldestLocked (accountID : Z) (a : tokenAuthority) : tokenAuthority :=
  let oldest := (foldl (older a) ("", 0) (order (elements (nonces a accountID)))).1 in
  if String.eqb oldest "" then a else dropLocked oldest a.

(** The registry half of [Mint]. *)
Definition register (accountID : Z) (scope nonce : string) (now : Z) (a : tokenAuthority) : tokenAuthority :=
  let a := pruneLocked accountID now a in
  let a := if (maxTokensPerAccount <=? size (nonces a accountID))%nat then evictOldestLocked accountID a else a in
  mkAuthority (<[nonce := mkGrant accountID scope (now + tokenTTL)]> (grants a))
    (<[accountID := {[nonce]} ∪ nonces a accountID]> (byAccount a)).
(** [Mint], given what the random source returned. *)
Definition Mint (accountID : Z) (scope : string) (random : option string) (now : Z) (a : tokenAuthority) :
    tokenAuthority * option string :=
  if negb (known_scope scope) then (a, None)
  else match random with
       | None => (a, None)
       | Some nonceRaw =>
           let nonce := hex_encode nonceRaw in
           (register accountID scope nonce now a,
            Some (token_of (payload_of scope accountID (Unix (now + tokenTTL)) nonce)))
       end.

Definition Verify (token want : string) (now : Z) (a : tokenAuthority) : option Z :=
  match parseAndAuthenticate token with
  | None => None
  | Some (scope, accountID, expiresUnix, nonce) =>
      if negb (String.eqb scope want) then None
      else if expiresUnix <? Unix now then None
      else match grants a !! nonce with
           | Some g => if (tg_account g =? accountID) && String.eqb (tg_scope g) scope then Some accountID else None
           | None => None
           end
  end.

Definition Revoke (token : string) (accountID : Z) (a : tokenAuthority) : tokenAuthority :=
  match parseAndAuthenticate token with
  | Some (_, tokenAccount, _, nonce) => if tokenAccount =? accountID then dropLocked nonce a else a
  | None => a
  end.
Definition RevokeAccount (accountID : Z) (a : tokenAuthority) : tokenAuthority :=
  mkAuthority (foldl (fun m nonce => delete nonce m) (grants a) (order (elements (nonces a accountID))))
    (delete accountID (byAccount a)).

(** ** The routes *)

Inductive AccountState := AccountActive | AccountDisabled | AccountMissing | LookupFailed.
Inductive outcome := Served (accountID : Z) | BasicAuth | Forbidden | Unavailable.

(** [requireProvisionedByID]. *)
Definition requireProvisionedByID (directory : Z -> AccountState) (accountID : Z) : outcome :=
  match directory accountID with
  | AccountMissing => Forbidden
  | LookupFailed => Unavailable
  | AccountDisabled => Forbidden
  | AccountActive => Served accountID
  end.
(** [requireAuthOrToken]: a header always wins. *)
Definition requireAuthOrToken (scope : string) (directory : Z -> AccountState) (authorization token : string) (now : Z)
    (a : tokenAuthority) : outcome :=
  if negb (String.eqb authorization "") || String.eqb token "" then BasicAuth
  else match Verify token scope now a with
       | None => Forbidden
       | Some accountID => requireProvisionedByID directory accountID
       end.

(** [handleTokenMint] after authentication: the error status, or the tokens by scope. *)
Definition mint_fields : list (field (list string)) := [at_field "scopes" (fun x => x) (fun _ x => x) dec_strings].
Definition decode_list (fields : list (field (list string))) (body : string) : option (list string) :=
  j ← Parse body; dec_struct fields [] j.
Fixpoint validate_scopes (scopes seen : list string) : option (list string) :=
  match scopes with
  | [] => Some seen
  | s :: scopes =>
      if negb (known_scope s) then None
      else validate_scopes scopes (if bool_decide (s ∈ seen) then seen else (seen ++ [s])%list)
  end.
Definition scope_le (a b : string) : Prop := String.leb a b = true.
#[global] Instance scope_le_dec a b : Decision (scope_le a b) := ltac:(unfold scope_le; apply _).
(** One nonce per token; a random source that fails ends the request. *)
Fixpoint mint_all (accountID : Z) (scopes : list string) (random : list (option string)) (now : Z) (a : tokenAuthority) :
    tokenAuthority * (Z + list (string * string)) :=
  match scopes with
  | [] => (a, inr [])
  | s :: scopes =>
      match Mint accountID s (default None (head random)) now a with
      | (a, None) => (a, inl 500)
      | (a, Some token) =>
          match mint_all accountID scopes (tail random) now a with
          | (a, inl e) => (a, inl e)
          | (a, inr l) => (a, inr ((s, token) :: l))
          end
      end
  end.
Definition handleTokenMint (accountID : Z) (body : string) (random : list (option string)) (now : Z) (a : tokenAuthority) :
    tokenAuthority * (Z + list (string * string)) :=
  match decode_list mint_fields (take_s 4096 body) with
  | None => (a, inl 400)
  | Some raw =>
      if bool_decide (raw = []) || (maxScopesPerMint <? List.length raw)%nat then (a, inl 400)
      else match validate_scopes raw [] with
           | None => (a, inl 400)
           | Some scopes => mint_all accountID (merge_sort scope_le scopes) random now a
           end
  end.

(** [handleTokenRevoke]. *)
Definition revoke_fields : list (field (list string)) := [at_field "tokens" (fun x => x) (fun _ x => x) dec_strings].
Definition handleTokenRevoke (accountID : Z) (body : string) (a : tokenAuthority) : tokenAuthority * Z :=
  match decode_list revoke_fields (take_s 65536 body) with
  | None => (a, 400)
  | Some tokens =>
      if (maxTokensPerRevoke <? List.length tokens)%nat then (a, 400)
      else (foldl (fun a token => Revoke token accountID a) a tokens, 204)
  end.
End authority.

(** ** Tokens are read back *)

Definition no_char (c : ascii) (s : string) : bool := chars_in (fun x => negb (Ascii.eqb x c)) s.
Lemma digit_no_bar d : 0 <= d < 16 -> negb (Ascii.eqb (digit_char d) "|") = true.
Proof.
  intros Hd. assert (forallb (fun d => negb (Ascii.eqb (digit_char d) "|")) (below_nat 16) = true) as H by (vm_compute; reflexivity).
  rewrite forallb_forall in H. apply H, list_elem_of_In, below_nat_spec. lia.
Qed.
Lemma FormatInt_no_bar v : 0 <= v -> no_char "|" (FormatInt 10 v) = true.
Proof. intros Hv. apply format_digits_chars; [lia|done| |done]. intros d Hd. apply digit_no_bar. lia. Qed.
Lemma scope_no_bar scope : known_scope scope = true -> no_char "|" scope = true.
Proof. unfold known_scope. intros H. bool_cases; apply String.eqb_eq in H as ->; done. Qed.

Lemma parse_payload_of scope accountID expires raw :
  known_scope scope = true -> 0 <= accountID <= MaxInt64 -> 0 <= expires <= MaxInt64 ->
  parse_payload (payload_of scope accountID expires (hex_encode raw)) = Some (scope, accountID, expires, hex_encode raw).
Proof.
  intros Hs Ha He. unfold parse_payload, payload_of.
  assert (Split "|" (scope +:+ "|" +:+ FormatInt 10 accountID +:+ "|" +:+ FormatInt 10 expires +:+ "|" +:+ hex_encode raw) =
    [scope; FormatInt 10 accountID; FormatInt 10 expires; hex_encode raw]) as ->.
  { assert (forall x s, no_char "|" x = true -> Split "|" (x +:+ "|" +:+ s) = x :: Split "|" s) as Hsp.
    { intros x s Hx. apply Split_app. exact Hx. }
    rewrite (Hsp scope) by (by apply scope_no_bar).
    rewrite !Hsp by (apply FormatInt_no_bar; lia). rewrite Split_plain; [done|].
    apply hex_encode_chars, digit_no_bar. }
  by rewrite !ParseInt_FormatInt by lia.
Qed.

Section facts.
Context (hmac : string -> string) (order : list string -> list string).
Hypothesis order_perm : forall l, order l ≡ₚ l.

Lemma parse_token_of payload :
  parseAndAuthenticate hmac (token_of hmac payload) = parse_payload payload.
Proof.
  unfold parseAndAuthenticate, token_of.
  assert (Split "." (tokenPrefix +:+ "." +:+ b64_encode payload +:+ "." +:+ b64_encode (hmac (tokenCanonical payload))) =
    [tokenPrefix; b64_encode payload; b64_encode (hmac (tokenCanonical payload))]) as ->.
  { assert (forall x s, no_char "." x = true -> Split "." (x +:+ "." +:+ s) = x :: Split "." s) as Hsp.
    { intros x s Hx. apply Split_app. exact Hx. }
    rewrite Hsp by done. rewrite Hsp by apply b64_no_dot. by rewrite Split_plain by apply b64_no_dot. }
  rewrite !b64_roundtrip. cbn. by rewrite String.eqb_refl.
Qed.

(** ** The registry *)

Definition owns (a : tokenAuthority) (accountID : Z) (nonce : string) : Prop :=
  exists g, grants a !! nonce = Some g /\ tg_account g = accountID.
(** Both indexes agree, and no account has more than its share. *)
Record registry_ok (a : tokenAuthority) : Prop := {
  ro_index : forall accountID nonce, nonce ∈ nonces a accountID <-> owns a accountID nonce;
  ro_live : forall accountID, byAccount a !! accountID <> Some ∅;
  ro_share : forall accountID, (size (nonces a accountID) <= maxTokensPerAccount)%nat;
  ro_named : forall nonce, is_Some (grants a !! nonce) -> nonce <> ""
}.

Lemma drop_grants n a m : grants (dropLocked n a) !! m = if decide (m = n) then None else grants a !! m.
Proof.
  unfold dropLocked. cbn. destruct (decide (m = n)) as [->|]; [by rewrite lookup_delete_eq|by rewrite lookup_delete_ne].
Qed.
Lemma drop_nonces n a accountID : registry_ok a -> nonces (dropLocked n a) accountID = nonces a accountID ∖ {[n]}.
Proof.
  intros [Hi _ _ _]. assert (forall acc, n ∈ nonces a acc <-> owns a acc n) as Hn by (intros acc; apply Hi).
  assert (~ (n ∈ nonces a accountID) -> nonces a accountID = nonces a accountID ∖ {[n]}) as Hsame by set_solver.
  unfold dropLocked. unfold nonces at 1. cbn. destruct (grants a !! n) as [g|] eqn:Eg.
  - destruct (decide (accountID = tg_account g)) as [->|Hne].
    + destruct (byAccount a !! tg_account g) as [per|] eqn:Ep.
      * unfold nonces. rewrite Ep. cbn. case_bool_decide as Hd; [by rewrite lookup_delete_eq, Hd|by rewrite lookup_insert_eq].
      * unfold nonces. rewrite Ep. cbn. set_solver.
    + etransitivity; [|apply Hsame; rewrite Hn; intros (g' & E & ?); congruence].
      destruct (byAccount a !! tg_account g); [|done]. case_bool_decide; [by rewrite lookup_delete_ne|by rewrite lookup_insert_ne].
  - apply Hsame. rewrite Hn. intros (g' & E & ?). congruence.
Qed.
Lemma drop_ok n a : registry_ok a -> registry_ok (dropLocked n a).
Proof.
  intros Ha. pose proof Ha as [Hi Hl Hs Hm]. split.
  - intros acc m. rewrite drop_nonces by done. unfold owns. rewrite drop_grants, elem_of_difference, elem_of_singleton, Hi. unfold owns.
    destruct (decide (m = n)); naive_solver.
  - intros acc. unfold dropLocked. cbn. destruct (grants a !! n) as [g|]; [|apply Hl].
    destruct (byAccount a !! tg_account g) as [per|] eqn:Ep; [|apply Hl]. case_bool_decide as Hd.
    + rewrite lookup_delete_Some. intros [_ H]. by apply Hl in H.
    + rewrite lookup_insert_Some. intros [[_ H]|[_ H]]; [done|by apply Hl in H].
  - intros acc. rewrite drop_nonces by done. etransitivity; [|apply (Hs acc)]. apply subseteq_size. set_solver.
  - intros m Hsome. apply Hm. rewrite drop_grants in Hsome. destruct (decide (m = n)); [by destruct Hsome|done].
Qed.

(** Pruning removes what expired among the account's tokens. *)
Lemma prune_loop now l a : registry_ok a ->
  let a' := foldl (fun a nonce => match grants a !! nonce with
    | Some g => if After now (tg_expires g) then dropLocked nonce a else a
    | None => dropLocked nonce a end) a l in
  registry_ok a' /\ forall m, grants a' !! m =
    g ← grants a !! m; if decide (m ∈ l) then if After now (tg_expires g) then None else Some g else Some g.
Proof.
  revert a. induction l as [|n l IH]; intros a Ha; cbn [foldl].
  - split; [done|]. intros m. destruct (grants a !! m); cbn; [|done]. by rewrite decide_False by apply not_elem_of_nil.
  - set (a1 := match grants a !! n with Some g => _ | None => _ end).
    assert (registry_ok a1 /\ forall m, grants a1 !! m =
      g ← grants a !! m; if decide (m = n) then if After now (tg_expires g) then None else Some g else Some g) as [H1 H2].
    { unfold a1. destruct (grants a !! n) as [g|] eqn:Eg; [destruct (After now (tg_expires g)) eqn:Ex|].
      - split; [by apply drop_ok|]. intros m. rewrite drop_grants. destruct (decide (m = n)) as [->|]; [by rewrite Eg; cbn; rewrite Ex|].
        by destruct (grants a !! m).
      - split; [done|]. intros m. destruct (decide (m = n)) as [->|]; [by rewrite Eg; cbn; rewrite Ex|]. by destruct (grants a !! m).
      - split; [by apply drop_ok|]. intros m. rewrite drop_grants. destruct (decide (m = n)) as [->|]; [by rewrite Eg|].
        by destruct (grants a !! m). }
    destruct (IH a1 H1) as [H3 H4]. split; [done|]. intros m. rewrite H4, H2. destruct (grants a !! m) as [g|]; [|done]. cbn.
    destruct (decide (m = n)) as [->|Hne].
    + rewrite (decide_True (P := n ∈ n :: l)) by left. destruct (After now (tg_expires g)) eqn:Ex; [done|]. cbn.
      by rewrite Ex; destruct (decide (n ∈ l)).
    + cbn. destruct (decide (m ∈ l)); [rewrite decide_True by (by right); done|].
      by rewrite decide_False by (rewrite elem_of_cons; naive_solver).
Qed.
Lemma prune_ok accountID now a : registry_ok a -> registry_ok (pruneLocked order accountID now a).
Proof. intros Ha. by apply prune_loop. Qed.
Lemma prune_grants accountID now a m g : registry_ok a ->
  grants (pruneLocked order accountID now a) !! m = Some g <->
  grants a !! m = Some g /\ (tg_account g = accountID -> tg_expires g >= now).
Proof.
  intros Ha. unfold pruneLocked. destruct (prune_loop now (order (elements (nonces a accountID))) a Ha) as [_ ->].
  destruct (grants a !! m) as [g'|] eqn:Eg; cbn; [|naive_solver].
  assert (m ∈ order (elements (nonces a accountID)) <-> tg_account g' = accountID) as Hin.
  { rewrite order_perm, elem_of_elements, (ro_index _ Ha). unfold owns. rewrite Eg. naive_solver. }
  unfold After. destruct (decide _) as [Hd|Hd]; [|naive_solver]. destruct (Z.ltb_spec (tg_expires g') now).
  - split; [done|]. intros [[= <-] H']. apply Hin in Hd. specialize (H' Hd). lia.
  - split; [|naive_solver]. intros [= <-]. split; [done|]. intros _. lia.
Qed.

(** Eviction removes one token, and none that expires later than another of its account. *)
Lemma older_fold a l o : (forall n, n ∈ l -> n <> "") ->
  let r := foldl (older a) o l in
  (r = o \/ r.1 ∈ l /\ r.2 = tg_expires (default zeroGrant (grants a !! r.1))) /\ (l <> [] -> r.1 <> "").
Proof.
  revert o. induction l as [|n l IH]; intros o Hl; cbn [foldl]; [split; [by left|done]|].
  assert (n <> "") as Hn by (apply Hl; left). destruct (IH (older a o n)) as [H1 H2]; [intros m Hm; apply Hl; by right|].
  split.
  - destruct H1 as [->|[? ?]]; [|right; split; [by right|done]]. unfold older. destruct (_ || _); [right; cbn; split; [left|done]|by left].
  - intros _. destruct l as [|n' l']; [|by apply H2]. cbn [foldl]. unfold older. destruct (String.eqb o.1 "") eqn:E; cbn [orb fst]; [done|].
    destruct (Before _ _); [done|]. intros E'. rewrite E' in E. done.
Qed.
Lemma evict_ok accountID a : registry_ok a -> registry_ok (evictOldestLocked order accountID a) /\
  (nonces a accountID <> ∅ -> (size (nonces (evictOldestLocked order accountID a) accountID) < size (nonces a accountID))%nat) /\
  (forall m, grants (evictOldestLocked order accountID a) !! m = grants a !! m \/
             grants (evictOldestLocked order accountID a) !! m = None /\ m ∈ nonces a accountID).
Proof.
  intros Ha. unfold evictOldestLocked. set (l := order (elements (nonces a accountID))).
  assert (forall n, n ∈ l <-> n ∈ nonces a accountID) as Hl by (intros n; unfold l; by rewrite order_perm, elem_of_elements).
  assert (forall n, n ∈ l -> n <> "") as Hne.
  { intros n Hn. apply Hl, (ro_index _ Ha) in Hn as (g & E & _). apply (ro_named _ Ha). by rewrite E. }
  destruct (older_fold a l ("", 0) Hne) as [H1 H2]. set (r := foldl (older a) ("", 0) l) in *.
  destruct (String.eqb r.1 "") eqn:Er.
  - apply String.eqb_eq in Er. split; [done|]. split; [|by left]. intros Hnn. destruct H2; [|done].
    destruct (set_choose_L _ Hnn) as [x Hx]. apply Hl in Hx. intros E. rewrite E in Hx. by apply not_elem_of_nil in Hx.
  - apply String.eqb_neq in Er. destruct H1 as [->|[Hin _]]; [done|]. apply Hl in Hin. split; [by apply drop_ok|]. split.
    + intros _. rewrite drop_nonces by done. apply subset_size. set_solver.
    + intros m. rewrite drop_grants. destruct (decide (m = r.1)) as [->|]; [by right|by left].
Qed.

Lemma register_ok accountID scope nonce now a : registry_ok a -> nonce <> "" -> grants a !! nonce = None ->
  registry_ok (register order accountID scope nonce now a).
Proof.
  intros Ha Hn Hfresh. unfold register. set (a1 := pruneLocked order accountID now a).
  assert (registry_ok a1) as H1 by (by apply prune_ok).
  assert (grants a1 !! nonce = None) as Hf1.
  { destruct (grants a1 !! nonce) as [g|] eqn:E; [|done]. apply prune_grants in E as [E _]; [congruence|done]. }
  set (a2 := if (_ <=? _)%nat then _ else a1).
  assert (registry_ok a2 /\ grants a2 !! nonce = None /\ (size (nonces a2 accountID) < maxTokensPerAccount)%nat) as (H2 & Hf2 & Hsz).
  { unfold a2. destruct (Nat.leb_spec maxTokensPerAccount (size (nonces a1 accountID))) as [Hge|Hlt]; [|done].
    destruct (evict_ok accountID a1 H1) as (Hok & Hsz & Hgr). split; [done|]. split; [destruct (Hgr nonce) as [->|[-> _]]; done|].
    pose proof (ro_share _ H1 accountID). eapply Nat.lt_le_trans; [apply Hsz|done]. intros E. rewrite E, size_empty in Hge.
    unfold maxTokensPerAccount in Hge. lia. }
  clearbody a2. destruct H2 as [Hi Hl Hs Hm].
  assert (forall acc, nonces (mkAuthority (<[nonce := mkGrant accountID scope (now + tokenTTL)]> (grants a2))
    (<[accountID := {[nonce]} ∪ nonces a2 accountID]> (byAccount a2))) acc =
    if decide (acc = accountID) then {[nonce]} ∪ nonces a2 accountID else nonces a2 acc) as Hno.
  { intros acc. unfold nonces at 1. cbn. destruct (decide (acc = accountID)) as [->|]; [by rewrite lookup_insert_eq|by rewrite lookup_insert_ne]. }
  split.
  - intros acc m. rewrite Hno. unfold owns. cbn. destruct (decide (m = nonce)) as [->|Hne].
    + rewrite lookup_insert_eq. destruct (decide (acc = accountID)) as [->|Hd]; [set_solver|].
      rewrite Hi. unfold owns. rewrite Hf2. naive_solver.
    + rewrite lookup_insert_ne by done. fold (owns a2 acc m). rewrite <- Hi. destruct (decide (acc = accountID)) as [->|]; set_solver.
  - intros acc. cbn. rewrite lookup_insert_Some. intros [[_ H]|[_ H]]; [set_solver|by apply Hl in H].
  - intros acc. rewrite Hno. destruct (decide (acc = accountID)) as [->|]; [|apply Hs]. rewrite size_union_alt, size_singleton.
    pose proof (subseteq_size (nonces a2 accountID ∖ {[nonce]}) (nonces a2 accountID)). set_solver by lia.
  - intros m. cbn. rewrite lookup_insert_is_Some. intros [<-|[_ H]]; [done|by apply Hm].
Qed.
Lemma register_grants accountID scope nonce now a m g : registry_ok a ->
  grants (register order accountID scope nonce now a) !! m = Some g ->
  (m = nonce /\ g = mkGrant accountID scope (now + tokenTTL)) \/ (m <> nonce /\ grants a !! m = Some g).
Proof.
  intros Ha. unfold register. cbn [grants]. rewrite lookup_insert_Some. intros [[<- <-]|[Hne H]]; [by left|]. right. split; [done|].
  assert (registry_ok (pruneLocked order accountID now a)) as H1 by (by apply prune_ok).
  assert (grants (pruneLocked order accountID now a) !! m = Some g) as H2.
  { destruct (maxTokensPerAccount <=? _)%nat; [|done]. destruct (evict_ok accountID _ H1) as (_ & _ & Hgr).
    destruct (Hgr m) as [E|[E _]]; rewrite E in H; [done|by rewrite H in *]. }
  by apply prune_grants in H2 as [H2 _].
Qed.
Lemma fold_delete (l : list string) (m : gmap string tokenGrant) n :
  foldl (fun m n => delete n m) m l !! n = if decide (n ∈ l) then None else m !! n.
Proof.
  revert m. induction l as [|x l IH]; intros m; cbn [foldl]; [by rewrite decide_False by apply not_elem_of_nil|].
  rewrite IH. destruct (decide (n ∈ l)); [by rewrite decide_True by (by right)|].
  destruct (decide (n = x)) as [->|]; [rewrite lookup_delete_eq, decide_True by left; done|].
  rewrite lookup_delete_ne by done. by rewrite decide_False by (rewrite elem_of_cons; naive_solver).
Qed.
Lemma revoke_account_grants accountID a m g : registry_ok a ->
  grants (RevokeAccount order accountID a) !! m = Some g <-> grants a !! m = Some g /\ tg_account g <> accountID.
Proof.
  intros Ha. unfold RevokeAccount. cbn. rewrite fold_delete.
  assert (m ∈ order (elements (nonces a accountID)) <-> owns a accountID m) as Hin by (by rewrite order_perm, elem_of_elements, (ro_index _ Ha)).
  unfold owns in Hin. destruct (decide _) as [Hd|Hd]; [|naive_solver]. apply Hin in Hd as (g' & E & Hg). split; [done|].
  intros [E' H']. congruence.
Qed.
Lemma revoke_account_ok accountID a : registry_ok a -> registry_ok (RevokeAccount order accountID a).
Proof.
  intros Ha. pose proof Ha as [Hi Hl Hs Hm].
  assert (forall acc, nonces (RevokeAccount order accountID a) acc = if decide (acc = accountID) then ∅ else nonces a acc) as Hno.
  { intros acc. unfold nonces, RevokeAccount. cbn. destruct (decide (acc = accountID)) as [->|]; [by rewrite lookup_delete_eq|by rewrite lookup_delete_ne]. }
  split.
  - intros acc m. rewrite Hno. unfold owns. setoid_rewrite revoke_account_grants; [|done].
    destruct (decide (acc = accountID)) as [->|]; [|rewrite Hi; unfold owns]; set_solver.
  - intros acc. unfold RevokeAccount. cbn. rewrite lookup_delete_Some. intros [_ H]. by apply Hl in H.
  - intros acc. rewrite Hno. destruct (decide _); [rewrite size_empty; lia|apply Hs].
  - intros m [g Hg]. apply revoke_account_grants in Hg as [Hg _]; [|done]. by apply Hm; rewrite Hg.
Qed.
Lemma revoke_ok token accountID a : registry_ok a -> registry_ok (Revoke hmac token accountID a).
Proof. intros Ha. unfold Revoke. destruct (parseAndAuthenticate hmac token) as [[[[? ?] ?] ?]|]; [|done]. case_match; [by apply drop_ok|done]. Qed.

(** ** Histories *)

Inductive event :=
  | EMint (accountID : Z) (scope nonceRaw : string)
  | ERevoke (token : string) (accountID : Z)
  | ERevokeAccount (accountID : Z)
  | ETick (d : Z).
#[global] Instance event_eq_dec : EqDecision event.
Proof. solve_decision. Defined.
Definition clock (now : Z) (e : event) : Z := match e with ETick d => now + Z.max 0 d | _ => now end.
Definition step (now : Z) (e : event) (a : tokenAuthority) : tokenAuthority :=
  match e with
  | EMint accountID scope raw => (Mint hmac order accountID scope (Some raw) now a).1
  | ERevoke token accountID => Revoke hmac token accountID a
  | ERevokeAccount accountID => RevokeAccount order accountID a
  | ETick _ => a
  end.
Definition now_after (t0 : Z) (h : list event) : Z := foldl clock t0 h.
Definition run (t0 : Z) (h : list event) : tokenAuthority :=
  (foldl (fun s e => (clock s.1 e, step s.1 e s.2)) (t0, newTokenAuthority) h).2.

(** The nonces drawn, and the payloads signed. *)
Definition drawn (h : list event) : list string :=
  omap (fun e => match e with EMint _ scope raw => if known_scope scope then Some (hex_encode raw) else None | _ => None end) h.
Fixpoint signed (now : Z) (h : list event) : list string :=
  match h with
  | [] => []
  | e :: h =>
      let rest := signed (clock now e) h in
      match e with
      | EMint accountID scope raw =>
          if known_scope scope then payload_of scope accountID (Unix (now + tokenTTL)) (hex_encode raw) :: rest else rest
      | _ => rest
      end
  end.
(** Random nonces of sixteen bytes do not repeat; accounts have ids. *)
Definition plausible (h : list event) : Prop :=
  NoDup (drawn h) /\
  Forall (fun e => match e with EMint accountID _ raw => 0 <= accountID <= MaxInt64 /\ String.length raw = 16%nat | _ => True end) h.

Lemma run_snoc t0 h e : run t0 (h ++ [e])%list = step (now_after t0 h) e (run t0 h).
Proof.
  unfold run, now_after. rewrite foldl_app. cbn.
  assert (forall s, (foldl (fun s e => (clock s.1 e, step s.1 e s.2)) s h).1 = foldl clock s.1 h) as H.
  { induction h as [|x h IH]; [done|]. intros s. cbn. by rewrite IH. }
  by rewrite H.
Qed.
Lemma now_snoc t0 h e : now_after t0 (h ++ [e])%list = clock (now_after t0 h) e.
Proof. unfold now_after. by rewrite foldl_app. Qed.
Lemma now_mono t0 h1 h2 : now_after t0 h1 <= now_after t0 (h1 ++ h2)%list.
Proof.
  unfold now_after. rewrite foldl_app. generalize (foldl clock t0 h1). induction h2 as [|e h IH]; intros t; cbn; [lia|].
  etransitivity; [|apply IH]. destruct e; cbn; lia.
Qed.
Lemma drawn_app h1 h2 : drawn (h1 ++ h2)%list = (drawn h1 ++ drawn h2)%list.
Proof. unfold drawn. apply omap_app. Qed.
Lemma signed_app t0 h1 h2 : signed t0 (h1 ++ h2)%list = (signed t0 h1 ++ signed (now_after t0 h1) h2)%list.
Proof.
  revert t0. induction h1 as [|e h1 IH]; intros t0; [done|]. cbn. rewrite IH. fold (now_after (clock t0 e) h1).
  destruct e; cbn; try done. by destruct (known_scope _).
Qed.

(** Where a grant comes from. *)
Definition granted_by (t0 : Z) (h : list event) (n : string) (g : tokenGrant) : Prop :=
  exists h1 raw h2, h = (h1 ++ EMint (tg_account g) (tg_scope g) raw :: h2)%list /\
    n = hex_encode raw /\ known_scope (tg_scope g) = true /\ tg_expires g = now_after t0 h1 + tokenTTL /\
    ERevokeAccount (tg_account g) ∉ h2 /\
    (forall token s e, ERevoke token (tg_account g) ∈ h2 -> parseAndAuthenticate hmac token <> Some (s, tg_account g, e, n)).
Lemma granted_later t0 h n g x : granted_by t0 h n g -> x <> ERevokeAccount (tg_account g) ->
  (forall token s e, x = ERevoke token (tg_account g) -> parseAndAuthenticate hmac token <> Some (s, tg_account g, e, n)) ->
  granted_by t0 (h ++ [x])%list n g.
Proof.
  intros (h1 & raw & h2 & -> & Hn & Hk & He & Hra & Hr) Hx Hx'. exists h1, raw, (h2 ++ [x])%list.
  split; [by rewrite <- app_assoc|]. split; [done|]. split; [done|]. split; [done|]. split.
  - rewrite elem_of_app, list_elem_of_singleton. naive_solver.
  - intros token s e. rewrite elem_of_app, list_elem_of_singleton. intros [Hin|Heq]; [by apply Hr|]. apply Hx'. done.
Qed.
Lemma plausible_app h1 h2 : plausible (h1 ++ h2)%list -> plausible h1.
Proof. intros [Hn Hf]. rewrite drawn_app in Hn. apply NoDup_app in Hn as [Hn _]. apply Forall_app in Hf as [Hf _]. done. Qed.
Lemma drawn_elem h1 accountID scope raw h2 : known_scope scope = true ->
  hex_encode raw ∈ drawn (h1 ++ EMint accountID scope raw :: h2)%list.
Proof. intros Hk. rewrite drawn_app. unfold drawn at 2. cbn. rewrite Hk. apply elem_of_app. right. left. Qed.

Lemma history_ok t0 h : plausible h ->
  registry_ok (run t0 h) /\ forall n g, grants (run t0 h) !! n = Some g -> granted_by t0 h n g.
Proof.
  induction h as [|x h IH] using rev_ind; intros Hp.
  - split; [|done]. split.
    + intros acc n. unfold nonces, owns. cbn. rewrite !lookup_empty. set_solver.
    + intros acc. cbn. by rewrite lookup_empty.
    + intros acc. unfold nonces. cbn. rewrite lookup_empty. cbn. rewrite size_empty. lia.
    + intros n [g Hg]. cbn in Hg. by rewrite lookup_empty in Hg.
  - destruct (IH (plausible_app h [x] Hp)) as [Hok Hg]. rewrite run_snoc. set (a := run t0 h) in *. clearbody a. destruct x as [acc scope raw|token acc|acc|d]; cbn [step].
    + unfold Mint. destruct (known_scope scope) eqn:Ek; cbn [negb fst]; [|split; [done|]; intros n g E; apply granted_later; [by apply Hg|done..]].
      destruct Hp as [Hnd Hf]. apply Forall_app in Hf as [_ Hf]. apply Forall_singleton in Hf as [_ Hlen].
      assert (grants a !! hex_encode raw = None) as Hfresh.
      { destruct (grants a !! hex_encode raw) as [g|] eqn:E; [|done]. apply Hg in E as (h1 & raw' & h2 & -> & En & Ek' & _).
        rewrite drawn_app in Hnd. apply NoDup_app in Hnd as (_ & Hd & _). exfalso. apply (Hd (hex_encode raw)).
        - rewrite En. by apply drawn_elem.
        - unfold drawn. cbn. rewrite Ek. left. }
      split; [apply register_ok; [done| |done]; by destruct raw|].
      intros n g E. apply register_grants in E as [[-> ->]|[_ E]]; [| |done].
      * exists h, raw, []. cbn. repeat (split; [done|]). split; [apply not_elem_of_nil|]. intros ? ? ? Hin. by apply not_elem_of_nil in Hin.
      * apply granted_later; [by apply Hg|done..].
    + split; [by apply revoke_ok|]. intros n g E. unfold Revoke in E.
      destruct (parseAndAuthenticate hmac token) as [[[[s tacc] e] nonce]|] eqn:Ep.
      * destruct (Z.eqb_spec tacc acc) as [->|Hne].
        -- rewrite drop_grants in E. destruct (decide (n = nonce)) as [->|Hn]; [done|].
           apply granted_later; [by apply Hg|done|]. intros token' s' e' [= <- <-]. congruence.
        -- apply granted_later; [by apply Hg|done|]. intros token' s' e' [= <- <-]. congruence.
      * apply granted_later; [by apply Hg|done|]. intros token' s' e' [= <- <-]. congruence.
    + split; [by apply revoke_account_ok|]. intros n g E. apply revoke_account_grants in E as [E Hne]; [|done].
      apply granted_later; [by apply Hg|congruence|done].
    + split; [done|]. intros n g E. apply granted_later; [by apply Hg|done..].
Qed.

(** A nonce is drawn once. *)
Lemma drawn_cons x h : drawn (x :: h) = (drawn [x] ++ drawn h)%list.
Proof. exact (drawn_app [x] h). Qed.
Lemma mint_unique n h1 x1 k1 h2 x2 k2 :
  (h1 ++ x1 :: k1)%list = (h2 ++ x2 :: k2)%list -> NoDup (drawn (h1 ++ x1 :: k1)) -> drawn [x1] = [n] -> drawn [x2] = [n] ->
  h1 = h2 /\ x1 = x2.
Proof.
  intros E Hnd H1 H2. revert h2 E. induction h1 as [|y h1 IH]; intros [|z h2] E; cbn [app] in *; injection E as -> E; try done.
  - exfalso. subst k1. rewrite drawn_cons, H1, drawn_app, (drawn_cons x2), H2 in Hnd. apply NoDup_cons in Hnd as [Hn _].
    apply Hn. rewrite !elem_of_app. right. left. left.
  - exfalso. rewrite drawn_cons, H2, drawn_app, (drawn_cons x1), H1 in Hnd. apply NoDup_cons in Hnd as [Hn _].
    apply Hn. rewrite !elem_of_app. right. left. left.
  - rewrite drawn_cons in Hnd. apply NoDup_app in Hnd as (_ & _ & Hnd). by destruct (IH Hnd h2 E) as [-> ->].
Qed.
Lemma signed_elem t0 h p : p ∈ signed t0 h -> exists h1 accountID scope raw h2,
  h = (h1 ++ EMint accountID scope raw :: h2)%list /\ known_scope scope = true /\
  p = payload_of scope accountID (Unix (now_after t0 h1 + tokenTTL)) (hex_encode raw).
Proof.
  revert t0. induction h as [|x h IH]; intros t0 Hp; [by apply not_elem_of_nil in Hp|].
  assert (p ∈ signed (clock t0 x) h -> exists h1 accountID scope raw h2,
    x :: h = (h1 ++ EMint accountID scope raw :: h2)%list /\ known_scope scope = true /\
    p = payload_of scope accountID (Unix (now_after t0 h1 + tokenTTL)) (hex_encode raw)) as Hlater.
  { intros (h1 & acc & s & raw & h2 & -> & Hk & ->)%IH. exists (x :: h1), acc, s, raw, h2. done. }
  destruct x as [acc s raw|?|?|?]; cbn in Hp; try (by apply Hlater). destruct (known_scope s) eqn:Ek; [|by apply Hlater].
  apply elem_of_cons in Hp as [->|Hp]; [|by apply Hlater]. by exists [], acc, s, raw, h.
Qed.

(** What a presented token carries a signature of. *)
Definition carries (token payload : string) : Prop :=
  exists prefix body tag, Split "." token = [prefix; body; tag] /\ b64_decode tag = Some (hmac (tokenCanonical payload)).

(** A token that reads as the payload, with the signature of the server: what [Mint] hands
    out for the payload does, in any spelling of the encoding. *)
Definition presents (token payload : string) : Prop :=
  exists body tag, Split "." token = [tokenPrefix; body; tag] /\ b64_decode body = Some payload /\
    b64_decode tag = Some (hmac (tokenCanonical payload)).
Lemma presents_minted payload : presents (token_of hmac payload) payload.
Proof.
  exists (b64_encode payload), (b64_encode (hmac (tokenCanonical payload))). rewrite !b64_roundtrip. split; [|done].
  unfold token_of.
  assert (forall x s, no_char "." x = true -> Split "." (x +:+ "." +:+ s) = x :: Split "." s) as Hsp by (intros x s Hx; apply Split_app; exact Hx).
  rewrite Hsp by done. rewrite Hsp by apply b64_no_dot. by rewrite Split_plain by apply b64_no_dot.
Qed.
Lemma parse_presents token x : parseAndAuthenticate hmac token = Some x ->
  exists payload, presents token payload /\ parse_payload payload = Some x.
Proof.
  unfold parseAndAuthenticate. destruct (Split "." token) as [|pre [|body [|tag [|]]]] eqn:Esp; try done.
  destruct (String.eqb_spec pre tokenPrefix) as [->|]; [|done]. cbn [negb].
  destruct (b64_decode body) as [p|] eqn:Eb; [|done]. cbn. destruct (b64_decode tag) as [got|] eqn:Et; [|done]. cbn.
  destruct (String.eqb_spec got (hmac (tokenCanonical p))) as [->|]; [|done]. intros H. exists p. split; [|done]. by exists body, tag.
Qed.
Lemma presents_parse token payload : presents token payload -> parseAndAuthenticate hmac token = parse_payload payload.
Proof.
  intros (body & tag & Es & Eb & Et). unfold parseAndAuthenticate. rewrite Es. cbn [negb String.eqb Ascii.eqb].
  rewrite String.eqb_refl. cbn [negb]. rewrite Eb. cbn. rewrite Et. cbn. by rewrite String.eqb_refl.
Qed.

(** C8: A token opens a route only if this very token (its nonce, account, scope and expiry,
    under the server's signature) was minted for that scope and that account, the expiry set
    then has not passed, and since then neither this token, in any spelling of its encoding,
    nor all of the account's were revoked; whatever was minted, revoked and evicted in
    between. Nonces do not repeat, account ids and instants fit their 64 bits, and nobody
    but the server can sign: a token carries only signatures the server made. *)
Theorem token_sound t0 h token want accountID :
  plausible h -> 62135596800 * Second <= t0 -> Unix (now_after t0 h + tokenTTL) <= MaxInt64 ->
  (forall payload, carries token payload -> payload ∈ signed t0 h) ->
  Verify hmac token want (now_after t0 h) (run t0 h) = Some accountID ->
  exists h1 raw h2, h = (h1 ++ EMint accountID want raw :: h2)%list /\
    presents token (payload_of want accountID (Unix (now_after t0 h1 + tokenTTL)) (hex_encode raw)) /\
    Unix (now_after t0 h) <= Unix (now_after t0 h1 + tokenTTL) /\
    ERevokeAccount accountID ∉ h2 /\
    (forall token', ERevoke token' accountID ∈ h2 ->
       ~ presents token' (payload_of want accountID (Unix (now_after t0 h1 + tokenTTL)) (hex_encode raw))).
Proof.
  intros Hp Ht0 Hmax Hsig Hv. unfold Verify in Hv.
  destruct (parseAndAuthenticate hmac token) as [[[[scope acc] exp] n]|] eqn:Epa; [|done].
  destruct (String.eqb_spec scope want) as [->|]; [|done]. cbn [negb] in Hv.
  destruct (Z.ltb_spec exp (Unix (now_after t0 h))); [done|].
  destruct (grants (run t0 h) !! n) as [g|] eqn:Eg; [|done].
  destruct ((tg_account g =? acc) && String.eqb (tg_scope g) want) eqn:Eb; [|done]. injection Hv as <-.
  apply andb_prop in Eb as [Ea Es]. apply Z.eqb_eq in Ea. apply String.eqb_eq in Es. subst acc want.
  destruct (proj2 (history_ok t0 h Hp) n g Eg) as (h1 & raw & h2 & Eh & En & Hk & He & Hra & Hr).
  destruct (parse_presents _ _ Epa) as (p & Hpres & Epp).
  assert (p ∈ signed t0 h) as Hin.
  { apply Hsig. destruct Hpres as (body & tag & ? & _ & ?). by exists tokenPrefix, body, tag. }
  apply signed_elem in Hin as (k1 & acc & s & raw' & k2 & Eh' & Hk' & ->).
  assert (Forall (fun e => match e with EMint a _ raw => 0 <= a <= MaxInt64 /\ String.length raw = 16%nat | _ => True end) h) as Hf by apply Hp.
  rewrite Eh' in Hf. apply Forall_app in Hf as [_ Hf]. apply Forall_cons in Hf as [[Hacc _] _].
  assert (0 <= Unix (now_after t0 k1 + tokenTTL) <= MaxInt64) as Hu.
  { assert (t0 <= now_after t0 k1) as H0 by exact (now_mono t0 [] k1). pose proof (now_mono t0 k1 (EMint acc s raw' :: k2)) as H1. rewrite <- Eh' in H1.
    split.
    - unfold Unix. apply Z.le_0_sub, Z.div_le_lower_bound; [done|]. unfold tokenTTL, Minute, Second, Millisecond in *. lia.
    - etransitivity; [|exact Hmax]. unfold Unix. apply Z.sub_le_mono_r, Z.div_le_mono; [done|lia]. }
  assert (parse_payload (payload_of s acc (Unix (now_after t0 k1 + tokenTTL)) (hex_encode raw')) =
    Some (s, acc, Unix (now_after t0 k1 + tokenTTL), hex_encode raw')) as Eread by by apply parse_payload_of.
  rewrite Eread in Epp. injection Epp as -> -> <- <-.
  destruct (mint_unique (hex_encode raw) h1 (EMint (tg_account g) (tg_scope g) raw) h2 k1 (EMint (tg_account g) (tg_scope g) raw') k2)
    as [-> E]; [by rewrite <- Eh, <- Eh'|rewrite <- Eh; apply Hp|by cbn; rewrite Hk|by cbn; rewrite Hk, <- En|]. injection E as ->.
  exists k1, raw', h2. split; [done|]. split; [done|]. split; [lia|]. split; [done|].
  intros token' Hin Hpr. apply (Hr token' (tg_scope g) (Unix (now_after t0 k1 + tokenTTL)) Hin). by rewrite (presents_parse _ _ Hpr), Eread.
Qed.

(** ** A token lives for its ten minutes *)

Lemma register_keeps accountID scope nonce now a m g : registry_ok a -> grants a !! m = Some g -> m <> nonce ->
  (tg_account g = accountID -> tg_expires g >= now /\ (size (nonces a accountID) < maxTokensPerAccount)%nat) ->
  grants (register order accountID scope nonce now a) !! m = Some g.
Proof.
  intros Ha Hg Hne Hacc. unfold register. cbn [grants]. rewrite lookup_insert_ne by done.
  set (a1 := pruneLocked order accountID now a). assert (registry_ok a1) as H1 by (by apply prune_ok).
  assert (grants a1 !! m = Some g) as Hg1 by (apply prune_grants; naive_solver).
  destruct (Nat.leb_spec maxTokensPerAccount (size (nonces a1 accountID))) as [Hge|]; [|done].
  destruct (evict_ok accountID a1 H1) as (_ & _ & Hgr). destruct (Hgr m) as [->|[_ Hin]]; [done|]. exfalso.
  apply (ro_index _ H1) in Hin as (g' & E & Hg'). rewrite Hg1 in E. injection E as <-. destruct (Hacc Hg') as [_ Hsz].
  assert (size (nonces a1 accountID) <= size (nonces a accountID))%nat; [|lia]. apply subseteq_size. intros n Hn.
  apply (ro_index _ H1) in Hn as (g2 & E & Hg2). apply (ro_index _ Ha). exists g2. split; [|done].
  by apply prune_grants in E as [E _].
Qed.
Definition drawn_for (accountID : Z) (h : list event) : list string :=
  omap (fun e => match e with
    | EMint acc scope raw => if known_scope scope && (acc =? accountID) then Some (hex_encode raw) else None
    | _ => None end) h.
Lemma share_bound t0 h accountID : plausible h -> (size (nonces (run t0 h) accountID) <= List.length (drawn_for accountID h))%nat.
Proof.
  intros Hp. destruct (history_ok t0 h Hp) as [Hok Hg]. unfold size, set_size. cbn.
  apply submseteq_length, NoDup_submseteq; [apply NoDup_elements|]. intros n Hn. apply elem_of_elements, (ro_index _ Hok) in Hn as (g & E & <-).
  apply Hg in E as (h1 & raw & h2 & -> & -> & Hk & _). unfold drawn_for. rewrite omap_app. cbn. rewrite Hk, Z.eqb_refl. cbn.
  apply elem_of_app. right. left.
Qed.

(** A token that was minted is honoured until ten minutes have passed, as long as
    nobody revokes it or its account and the account does not draw more tokens than its
    share. *)
Theorem token_lives t0 h1 accountID scope raw h2 :
  let h := (h1 ++ EMint accountID scope raw :: h2)%list in
  let expires := now_after t0 h1 + tokenTTL in
  plausible h -> known_scope scope = true -> 62135596800 * Second <= t0 -> Unix expires <= MaxInt64 ->
  (List.length (drawn_for accountID h) <= maxTokensPerAccount)%nat ->
  now_after t0 h <= expires ->
  ERevokeAccount accountID ∉ h2 ->
  (forall token acc s e, ERevoke token acc ∈ h2 -> parseAndAuthenticate hmac token <> Some (s, acc, e, hex_encode raw)) ->
  Verify hmac (token_of hmac (payload_of scope accountID (Unix expires) (hex_encode raw))) scope (now_after t0 h) (run t0 h) = Some accountID.
Proof.
  intros h expires Hp Hk Ht0 Hmax Hshare Hnow Hra Hr.
  assert (grants (run t0 h) !! hex_encode raw = Some (mkGrant accountID scope expires)) as Hg.
  { subst h. induction h2 as [|x h2 IH] using rev_ind.
    - rewrite run_snoc. cbn [step]. unfold Mint. rewrite Hk. cbn [negb fst]. unfold register. cbn [grants]. by rewrite lookup_insert_eq.
    - change (h1 ++ EMint accountID scope raw :: h2 ++ [x])%list with (h1 ++ (EMint accountID scope raw :: h2) ++ [x])%list in *.
      rewrite app_assoc in *. set (h := (h1 ++ EMint accountID scope raw :: h2)%list) in *.
      assert (plausible h) as Hph by (by eapply plausible_app).
      assert (now_after t0 h <= expires) as Hnh by (etransitivity; [apply (now_mono t0 h [x])|done]).
      rewrite run_snoc. destruct (history_ok t0 h Hph) as [Hok _].
      assert (grants (run t0 h) !! hex_encode raw = Some (mkGrant accountID scope expires)) as IH'.
      { apply IH; [done| |done|..].
        - unfold drawn_for in *. rewrite omap_app, length_app in Hshare. lia.
        - intros Hin. apply Hra, elem_of_app. by left.
        - intros token acc s e Hin. apply Hr, elem_of_app. by left. }
      destruct x as [acc s' raw'|token acc|acc|d]; cbn [step]; [| | |done].
      + unfold Mint. destruct (known_scope s') eqn:Ek'; cbn [negb fst]; [|done]. apply register_keeps; [done..| |].
        * intros E. destruct Hp as [Hnd _]. rewrite drawn_app in Hnd. apply NoDup_app in Hnd as (_ & Hd & _).
          apply (Hd (hex_encode raw)); [by apply drawn_elem|].
          assert (drawn [EMint acc s' raw'] = [hex_encode raw']) as -> by (unfold drawn; cbn; by rewrite Ek'). rewrite <- E. left.
        * cbn. intros <-. split; [lia|]. eapply Nat.le_lt_trans; [apply (share_bound t0 h accountID Hph)|].
          unfold drawn_for in Hshare. rewrite omap_app, length_app in Hshare. cbn in Hshare. rewrite Ek', Z.eqb_refl in Hshare.
          cbn [andb List.length] in Hshare. unfold drawn_for. lia.
      + unfold Revoke. destruct (parseAndAuthenticate hmac token) as [[[[s tacc] e] n]|] eqn:Ep; [|done].
        destruct (Z.eqb_spec tacc acc) as [->|]; [|done]. rewrite drop_grants. rewrite decide_False; [done|]. intros <-.
        assert (ERevoke token acc ∈ (h2 ++ [ERevoke token acc])%list) as Hin by (apply elem_of_app; right; left).
        by apply (Hr token acc s e Hin).
      + apply revoke_account_grants; [done|]. split; [done|]. cbn. intros ->. apply Hra, elem_of_app. right. left. }
  unfold Verify. rewrite parse_token_of. destruct Hp as [_ Hf]. unfold h in Hf. apply Forall_app in Hf as [_ Hf].
  apply Forall_cons in Hf as [[Hacc _] _]. rewrite parse_payload_of; [|done|done|].
  - rewrite String.eqb_refl. cbn [negb]. destruct (Z.ltb_spec (Unix expires) (Unix (now_after t0 h))) as [Hlt|_].
    + exfalso. unfold Unix in Hlt. assert (now_after t0 h / Second <= expires / Second) by (apply Z.div_le_mono; [done|lia]). lia.
    + rewrite Hg. cbn. by rewrite Z.eqb_refl, String.eqb_refl.
  - split; [|done]. unfold Unix. apply Z.le_0_sub, Z.div_le_lower_bound; [done|].
    assert (t0 <= now_after t0 h1) by exact (now_mono t0 [] h1). subst expires. unfold tokenTTL, Minute, Second, Millisecond in *. lia.
Qed.

(** C31: Every reachable registry is well formed: the tokens of an account are exactly those
    granted to it, no account keeps an empty set or holds more than sixty-four tokens, and
    no grant has an empty name. *)
Theorem registry_well_formed t0 h : plausible h -> registry_ok (run t0 h).
Proof. intros Hp. by apply history_ok. Qed.
End facts.

(** ** On a concrete history *)

Definition sample_hmac (s : string) : string := "k" +:+ s.
Definition sample_order (l : list string) : list string := l.
Definition nonce_a : string := "0123456789abcdef".
Definition nonce_b : string := "fedcba9876543210".
Definition epoch : Z := 63902822400 * Second.
(** Two tokens; the second is revoked, the first is used five minutes later. *)
Definition expiry_a : Z := Unix (epoch + Minute + tokenTTL).
Definition token_a : string := token_of sample_hmac (payload_of ScopeBlob 7 expiry_a (hex_encode nonce_a)).
Definition token_b : string := token_of sample_hmac (payload_of ScopePush 7 expiry_a (hex_encode nonce_b)).
Definition session_events : list event :=
  [ETick Minute; EMint 7 ScopeBlob nonce_a; EMint 7 ScopePush nonce_b; ERevoke token_b 7; ETick (5 * Minute)].

Lemma session_plausible : plausible session_events.
Proof.
  split.
  - vm_compute. repeat (constructor; [apply (bool_decide_unpack _); by vm_compute|]). constructor.
  - repeat constructor; vm_compute; discriminate.
Qed.
Lemma sample_carries payload : carries sample_hmac token_a payload -> payload ∈ signed epoch session_events.
Proof.
  intros (prefix & body & tag & Hs & Hd). vm_compute in Hs. injection Hs as <- <- <-. vm_compute in Hd.
  injection Hd as Hd. subst payload. apply (bool_decide_unpack _). by vm_compute.
Qed.
Lemma token_sound_witness : exists h1 raw h2,
  session_events = (h1 ++ EMint 7 ScopeBlob raw :: h2)%list /\
    presents sample_hmac token_a (payload_of ScopeBlob 7 (Unix (now_after epoch h1 + tokenTTL)) (hex_encode raw)) /\
    Unix (now_after epoch session_events) <= Unix (now_after epoch h1 + tokenTTL) /\
    ERevokeAccount 7 ∉ h2 /\
    (forall token', ERevoke token' 7 ∈ h2 ->
       ~ presents sample_hmac token' (payload_of ScopeBlob 7 (Unix (now_after epoch h1 + tokenTTL)) (hex_encode raw))).
Proof.
  apply (token_sound sample_hmac sample_order (fun l => reflexivity l) epoch session_events token_a ScopeBlob 7).
  - exact session_plausible.
  - vm_compute. discriminate.
  - vm_compute. discriminate.
  - exact sample_carries.
  - vm_compute. reflexivity.
Defined.
Lemma registry_well_formed_witness : registry_ok (run sample_hmac sample_order epoch session_events).
Proof. exact (registry_well_formed sample_hmac sample_order (fun l => reflexivity l) epoch session_events session_plausible). Defined.
Lemma token_lives_witness :
  Verify sample_hmac token_a ScopeBlob (now_after epoch session_events) (run sample_hmac sample_order epoch session_events) = Some 7 /\
  Verify sample_hmac token_b ScopePush (now_after epoch session_events) (run sample_hmac sample_order epoch session_events) = None.
Proof.
  split; [|vm_compute; reflexivity].
  apply (token_lives sample_hmac sample_order (fun l => reflexivity l) epoch [ETick Minute] 7 ScopeBlob nonce_a
    [EMint 7 ScopePush nonce_b; ERevoke token_b 7; ETick (5 * Minute)]).
  - exact session_plausible.
  - reflexivity.
  - vm_compute. discriminate.
  - vm_compute. discriminate.
  - vm_compute. lia.
  - vm_compute. discriminate.
  - apply (bool_decide_unpack _). vm_compute. reflexivity.
  - intros token acc s e Hin E. repeat (apply elem_of_cons in Hin as [Hin|Hin]; [try discriminate Hin|]); [|by apply not_elem_of_nil in Hin].
    injection Hin as -> ->. vm_compute in E. discriminate E.
Defined.
