(* ===== verification/Auth.v ===== *)
(** Sign-in (jmaphttp/auth.go, authcache.go, lockout.go): Basic credentials are checked by a
    login at the mail server, good ones are remembered for a while, and failures are
    throttled per client and account and, by a bucket of tokens, over all clients.

    Requests run concurrently. Each step of the machine is one critical section of the
    code (a mutex is held from its first to its last access), and a history is any sequence
    of steps of any requests. [Authenticate] is one request that nothing interleaves.

    The bucket counts in float64; here it counts exactly, in parts of which [window] make a
    token. *)

From S2P Require Import Prelude Text GoStrings Json GoEncoding.
From Stdlib Require Import Ascii String.
#[local] Open Scope string_scope.
#[local] Open Scope Z_scope.

(** ** The failed-attempt limiter *)

Record lockoutEntry := mkEntry { failures : Z; until : Z; touched : Z }.
Record lockoutTable := mkLockout { entries : gmap string lockoutEntry; tokens : Z; lastRefill : Z }.
Record AuthConfig := mkAuthConfig {
  CacheTTL : Z; LockoutBase : Z; LockoutMax : Z; GlobalFailureBudget : Z; GlobalFailureWindow : Z
}.
Definition DefaultAuthCacheTTL : Z := 10 * Minute.
Definition DefaultLockoutBase : Z := 5 * Second.
Definition DefaultLockoutMax : Z := 30 * Minute.
Definition DefaultGlobalFailureBudget : Z := 20.
Definition DefaultGlobalFailureWindow : Z := 10 * Minute.
(** The defaults of [NewAuthenticator]. *)
Definition or_default (v d : Z) : Z := if v <=? 0 then d else v.
Definition withDefaults (c : AuthConfig) : AuthConfig :=
  mkAuthConfig (or_default (CacheTTL c) DefaultAuthCacheTTL) (or_default (LockoutBase c) DefaultLockoutBase)
    (or_default (LockoutMax c) DefaultLockoutMax) (or_default (GlobalFailureBudget c) DefaultGlobalFailureBudget)
    (or_default (GlobalFailureWindow c) DefaultGlobalFailureWindow).

Definition pruneThreshold : nat := 4096.
Definition pruneIdle : Z := Hour.

Section limiter.
Context (cfg : AuthConfig).

Definition capacity : Z := GlobalFailureBudget cfg * GlobalFailureWindow cfg.
Definition newLockoutTable (now : Z) : lockoutTable := mkLockout ∅ capacity now.

Definition lockedFor (key : string) (now : Z) (t : lockoutTable) : Z :=
  match entries t !! key with
  | None => 0
  | Some e => let wait := Sub (until e) now in if 0 <? wait then wait else 0
  end.

Definition stale (now : Z) (e : lockoutEntry) : bool := After now (until e) && (pruneIdle <? Sub now (touched e)).
Definition maybePrune (now : Z) (m : gmap string lockoutEntry) : gmap string lockoutEntry :=
  if (size m <? pruneThreshold)%nat then m else filter (fun kv => stale now kv.2 = false) m.

(** The loop of [recordFailure]. *)
Fixpoint lock_loop (n : nat) (lock : Z) : Z :=
  match n with
  | O => lock
  | S n =>
      let lock := wrap64s (lock * 2) in
      if LockoutMax cfg <=? lock then LockoutMax cfg else lock_loop n lock
  end.
Definition lock_after (failures : Z) : Z :=
  let lock := lock_loop (Z.to_nat (Z.min (failures - 1) 30)) (LockoutBase cfg) in
  if LockoutMax cfg <? lock then LockoutMax cfg else lock.
Definition recordFailure (key : string) (now : Z) (t : lockoutTable) : lockoutTable * Z :=
  let m := maybePrune now (entries t) in
  let n := (match m !! key with Some e => failures e | None => 0 end) + 1 in
  let lock := lock_after n in
  (mkLockout (<[key := mkEntry n (now + lock) now]> m) (tokens t) (lastRefill t), lock).
Definition recordSuccess (key : string) (t : lockoutTable) : lockoutTable :=
  mkLockout (delete key (entries t)) (tokens t) (lastRefill t).

Definition refill (now : Z) (t : lockoutTable) : lockoutTable :=
  let elapsed := Sub now (lastRefill t) in
  if elapsed <=? 0 then t
  else mkLockout (entries t) (Z.min capacity (tokens t + elapsed * GlobalFailureBudget cfg)) now.
Definition budgetAvailable (now : Z) (t : lockoutTable) : lockoutTable * bool :=
  let t := refill now t in (t, GlobalFailureWindow cfg <=? tokens t).
Definition consumeBudget (now : Z) (t : lockoutTable) : lockoutTable :=
  let t := refill now t in
  mkLockout (entries t) (if GlobalFailureWindow cfg <=? tokens t then tokens t - GlobalFailureWindow cfg else 0) (lastRefill t).
End limiter.

(** ** The cache of good credentials *)

Record cacheEntry := mkCached { mac : string; expires : Z }.
Definition credentialCache : Type := gmap string (list cacheEntry).
Definition maxCachedCredentialsPerUser : nat := 4.

(** The bytes that are signed: lengths in front make them unambiguous. *)
Definition credential (user pass : string) : string :=
  be_bytes 8 (Z.of_nat (String.length user)) +:+ user +:+ be_bytes 8 (Z.of_nat (String.length pass)) +:+ pass.

Section cache.
Context (hmac : string -> string) (cfg : AuthConfig).

Definition credentialMAC (user pass : string) : string := hmac (credential user pass).
Definition macHex (user pass : string) : string := hex_encode (credentialMAC user pass).

Definition check (user pass : string) (now : Z) (c : credentialCache) : credentialCache * bool :=
  match c !! user with
  | None | Some [] => (c, false)
  | Some bucket =>
      let kept := filter (fun e => After now (expires e) = false) bucket in
      ((if bool_decide (kept = []) then delete user c else <[user := kept]> c),
       existsb (fun e => String.eqb (mac e) (credentialMAC user pass)) kept)
  end.

(** The position of the entry closest to expiry. *)
Fixpoint oldest_from (i oldest : nat) (least : Z) (bucket : list cacheEntry) : nat :=
  match bucket with
  | [] => oldest
  | e :: bucket =>
      if Before (expires e) least then oldest_from (S i) i (expires e) bucket else oldest_from (S i) oldest least bucket
  end.
Definition oldest_entry (bucket : list cacheEntry) : nat :=
  match bucket with [] => O | e :: _ => oldest_from 0 0 (expires e) bucket end.
Fixpoint renew (m : string) (until : Z) (bucket : list cacheEntry) : option (list cacheEntry) :=
  match bucket with
  | [] => None
  | e :: bucket =>
      if String.eqb (mac e) m then Some (mkCached (mac e) until :: bucket)
      else (fun b => e :: b) <$> renew m until bucket
  end.
Definition put (user pass : string) (now : Z) (c : credentialCache) : credentialCache :=
  let m := credentialMAC user pass in
  let bucket := default [] (c !! user) in
  let until := now + CacheTTL cfg in
  match renew m until bucket with
  | Some bucket => <[user := bucket]> c
  | None =>
      if (maxCachedCredentialsPerUser <=? List.length bucket)%nat
      then <[user := <[oldest_entry bucket := mkCached m until]> bucket]> c
      else <[user := (bucket ++ [mkCached m until])%list]> c
  end.
Definition invalidateUser (user : string) (c : credentialCache) : credentialCache := delete user c.
Definition invalidateAll (c : credentialCache) : credentialCache := ∅.
End cache.

(** ** Requests *)

Record Request := mkRequest { rq_ip : string; rq_user : string; rq_pass : string }.
(** What the mail server said of a login, or why it was not asked. *)
Inductive loginResult := Valid | Invalid | Exhausted | Failed.
Inductive reply := Challenge | TooMany (wait : Z) | ServiceUnavailable | NotServed | Granted (user : string).
(** Where a request is. *)
Inductive place :=
  | AtCheck | AtLockout | AtJoin | AtBudget | AtLogin | AtCharge
  | AtLeave (r : loginResult) | AtClose (r : loginResult) | AtWait (leader : nat)
  | AtOutcome (r : loginResult) | AtPut | AtProvision | Done (r : reply).
Inductive accountState := Active | Disabled.

Record System := mkSystem {
  sy_now : Z;
  sy_cache : credentialCache;
  sy_lockout : lockoutTable;
  sy_inflight : gmap string nat;            (* who asks for a credential *)
  sy_calls : gmap nat loginResult;          (* the closed channels *)
  sy_requests : gmap nat (Request * place);
  sy_logins : gset (string * string);       (* what the mail server accepts *)
  sy_accounts : gmap string accountState;
  sy_accepted : list (string * string);     (* the logins it accepted *)
  sy_rejected : list (string * Z);          (* those it rejected, by limiter key, and when *)
  sy_trusted : list (nat * string * string * Z);  (* who put which credentials into the cache, and when *)
  sy_hits : list (nat * string * string * Z)      (* who found which there, and when *)
}.

Definition set_cache (s : System) (c : credentialCache) : System :=
  mkSystem (sy_now s) c (sy_lockout s) (sy_inflight s) (sy_calls s) (sy_requests s) (sy_logins s) (sy_accounts s)
    (sy_accepted s) (sy_rejected s) (sy_trusted s) (sy_hits s).
Definition set_lockout (s : System) (t : lockoutTable) : System :=
  mkSystem (sy_now s) (sy_cache s) t (sy_inflight s) (sy_calls s) (sy_requests s) (sy_logins s) (sy_accounts s)
    (sy_accepted s) (sy_rejected s) (sy_trusted s) (sy_hits s).
Definition set_calls (s : System) (inflight : gmap string nat) (calls : gmap nat loginResult) : System :=
  mkSystem (sy_now s) (sy_cache s) (sy_lockout s) inflight calls (sy_requests s) (sy_logins s) (sy_accounts s)
    (sy_accepted s) (sy_rejected s) (sy_trusted s) (sy_hits s).
Definition goto (i : nat) (r : Request) (p : place) (s : System) : System :=
  mkSystem (sy_now s) (sy_cache s) (sy_lockout s) (sy_inflight s) (sy_calls s) (<[i := (r, p)]> (sy_requests s)) (sy_logins s)
    (sy_accounts s) (sy_accepted s) (sy_rejected s) (sy_trusted s) (sy_hits s).
Definition log (s : System) (accepted : list (string * string)) (rejected : list (string * Z)) (trusted hits : list (nat * string * string * Z)) : System :=
  mkSystem (sy_now s) (sy_cache s) (sy_lockout s) (sy_inflight s) (sy_calls s) (sy_requests s) (sy_logins s) (sy_accounts s)
    (accepted ++ sy_accepted s) (rejected ++ sy_rejected s) (trusted ++ sy_trusted s) (hits ++ sy_hits s).
(** What happens outside: time passes, passwords and accounts change. *)
Definition set_world (s : System) (now : Z) (logins : gset (string * string)) (accounts : gmap string accountState) : System :=
  mkSystem now (sy_cache s) (sy_lockout s) (sy_inflight s) (sy_calls s) (sy_requests s) logins accounts
    (sy_accepted s) (sy_rejected s) (sy_trusted s) (sy_hits s).

(** [tooMany]: whole seconds, at least one. *)
Definition tooMany (wait : Z) : reply := TooMany (Z.max 1 ((wait + Second - 1) / Second)).

Section machine.
(** HMAC-SHA256 under the key of the process, and [strings.ToLower]. *)
Context (hmac : string -> string) (ToLower : string -> string) (cfg : AuthConfig).

Definition userKey (r : Request) : string := ToLower (rq_user r).
Definition lockKey (r : Request) : string := rq_ip r +:+ "|" +:+ userKey r.

(** [Authenticate] up to the lockout. *)
Definition at_check (i : nat) (r : Request) (s : System) : System :=
  if String.eqb (rq_user r) "" then goto i r (Done Challenge) s
  else
    let '(c, hit) := check hmac (userKey r) (rq_pass r) (sy_now s) (sy_cache s) in
    if hit then goto i r AtProvision (log (set_cache s c) [] [] [] [(i, userKey r, rq_pass r, sy_now s)])
    else goto i r AtLockout (set_cache s c).
Definition at_lockout (i : nat) (r : Request) (s : System) : System :=
  let wait := lockedFor (lockKey r) (sy_now s) (sy_lockout s) in
  if 0 <? wait then goto i r (Done (tooMany wait)) s else goto i r AtJoin s.

(** [validateCoalesced]: join who asks already, or ask. *)
Definition at_join (i : nat) (r : Request) (s : System) : System :=
  let key := macHex hmac (userKey r) (rq_pass r) in
  match sy_inflight s !! key with
  | Some leader => goto i r (AtWait leader) s
  | None => goto i r AtBudget (set_calls s (<[key := i]> (sy_inflight s)) (sy_calls s))
  end.
(** [validateUpstream]. *)
Definition at_budget (i : nat) (r : Request) (s : System) : System :=
  let '(t, available) := budgetAvailable cfg (sy_now s) (sy_lockout s) in
  goto i r (if available : bool then AtLogin else AtLeave Exhausted) (set_lockout s t).
Definition at_login (fault : bool) (i : nat) (r : Request) (s : System) : System :=
  if fault then goto i r (AtLeave Failed) s
  else if bool_decide ((rq_user r, rq_pass r) ∈ sy_logins s)
  then goto i r (AtLeave Valid) (log s [(userKey r, rq_pass r)] [] [] [])
  else goto i r AtCharge (log s [] [(lockKey r, sy_now s)] [] []).
Definition at_charge (i : nat) (r : Request) (s : System) : System :=
  goto i r (AtLeave Invalid) (set_lockout s (consumeBudget cfg (sy_now s) (sy_lockout s))).
Definition at_leave (res : loginResult) (i : nat) (r : Request) (s : System) : System :=
  goto i r (AtClose res) (set_calls s (delete (macHex hmac (userKey r) (rq_pass r)) (sy_inflight s)) (sy_calls s)).
Definition at_close (res : loginResult) (i : nat) (r : Request) (s : System) : System :=
  goto i r (AtOutcome res) (set_calls s (sy_inflight s) (<[i := res]> (sy_calls s))).
Definition at_wait (fault : bool) (leader i : nat) (r : Request) (s : System) : System :=
  if fault then goto i r (AtOutcome Failed) s
  else match sy_calls s !! leader with
       | Some res => goto i r (AtOutcome res) s
       | None => s
       end.
(** The switch of [Authenticate]. *)
Definition at_outcome (res : loginResult) (i : nat) (r : Request) (s : System) : System :=
  match res with
  | Exhausted => goto i r (Done (tooMany (30 * Second))) s
  | Failed => goto i r (Done ServiceUnavailable) s
  | Invalid => goto i r (Done Challenge) (set_lockout s (recordFailure cfg (lockKey r) (sy_now s) (sy_lockout s)).1)
  | Valid => goto i r AtPut (set_lockout s (recordSuccess (lockKey r) (sy_lockout s)))
  end.
Definition at_put (i : nat) (r : Request) (s : System) : System :=
  goto i r AtProvision (log (set_cache s (put hmac cfg (userKey r) (rq_pass r) (sy_now s) (sy_cache s)))
    [] [] [(i, userKey r, rq_pass r, sy_now s)] []).
(** [requireProvisioned]. *)
Definition at_provision (fault : bool) (i : nat) (r : Request) (s : System) : System :=
  if fault then goto i r (Done ServiceUnavailable) s
  else match sy_accounts s !! userKey r with
       | Some Active => goto i r (Done (Granted (userKey r))) s
       | Some Disabled | None => goto i r (Done NotServed) s
       end.

Definition advance (fault : bool) (i : nat) (s : System) : System :=
  match sy_requests s !! i with
  | None => s
  | Some (r, p) =>
      match p with
      | AtCheck => at_check i r s
      | AtLockout => at_lockout i r s
      | AtJoin => at_join i r s
      | AtBudget => at_budget i r s
      | AtLogin => at_login fault i r s
      | AtCharge => at_charge i r s
      | AtLeave res => at_leave res i r s
      | AtClose res => at_close res i r s
      | AtWait leader => at_wait fault leader i r s
      | AtOutcome res => at_outcome res i r s
      | AtPut => at_put i r s
      | AtProvision => at_provision fault i r s
      | Done _ => s
      end
  end.

(** Histories: requests arrive under new numbers and advance; [InvalidateUser] and
    [InvalidateAll] are called; time passes. A step that faults is a login, a lookup or a
    wait that ends with an error. *)
Inductive event :=
  | EArrive (i : nat) (r : Request)
  | EStep (i : nat) (fault : bool)
  | EInvalidate (email : string)
  | EInvalidateAll
  | EWorld (d : Z) (logins : gset (string * string)) (accounts : gmap string accountState).
Definition step (s : System) (e : event) : System :=
  match e with
  | EArrive i r => if decide (is_Some (sy_requests s !! i)) then s else goto i r AtCheck s
  | EStep i fault => advance fault i s
  | EInvalidate email => set_cache s (invalidateUser (ToLower email) (sy_cache s))
  | EInvalidateAll => set_cache s (invalidateAll (sy_cache s))
  | EWorld d logins accounts => set_world s (sy_now s + Z.max 0 d) logins accounts
  end.
Definition start (now : Z) (logins : gset (string * string)) (accounts : gmap string accountState) : System :=
  mkSystem now ∅ (newLockoutTable cfg now) ∅ ∅ ∅ logins accounts [] [] [] [].
Definition history (s : System) (h : list event) : System := foldl step s h.
End machine.

(** ** Sign-in is sound *)

Definition short (s : string) : Prop := Z.of_nat (String.length s) < 256 ^ 8.
Lemma credential_inj u p u' p' : short u -> short p -> short u' -> short p' ->
  credential u p = credential u' p' -> u = u' /\ p = p'.
Proof.
  unfold short, credential. intros Hu Hp Hu' Hp' E.
  apply app_s_inj in E as [E1 E]; [|by rewrite !be_bytes_length]. apply be_bytes_inj in E1; [|change (Z.of_nat 8) with 8; lia..].
  apply app_s_inj in E as [-> E]; [|lia]. apply app_s_inj in E as [_ ->]; [done|by rewrite !be_bytes_length].
Qed.

Section soundness.
Context (hmac : string -> string) (ToLower : string -> string) (cfg : AuthConfig).
(** No two messages have the same code. *)
Hypothesis hmac_inj : forall x y, hmac x = hmac y -> x = y.
Notation userKey := (userKey ToLower).
Notation MAC := (credentialMAC hmac).

Definition accepted (s : System) (r : Request) : Prop := (userKey r, rq_pass r) ∈ sy_accepted s.
Definition vouched (s : System) (i : nat) (r : Request) : Prop :=
  (exists c, (i, userKey r, rq_pass r, c) ∈ sy_hits s) \/ (exists t, (i, userKey r, rq_pass r, t) ∈ sy_trusted s).
Definition place_ok (s : System) (i : nat) (r : Request) (p : place) : Prop :=
  match p with
  | AtLeave Valid | AtClose Valid | AtOutcome Valid | AtPut => accepted s r
  | AtProvision => vouched s i r
  | Done (Granted u) => u = userKey r /\ vouched s i r
  | AtWait leader => exists r' p', sy_requests s !! leader = Some (r', p') /\ userKey r' = userKey r /\ rq_pass r' = rq_pass r
  | _ => True
  end.
Definition entry_ok (s : System) (u : string) (e : cacheEntry) : Prop :=
  exists i p t, (i, u, p, t) ∈ sy_trusted s /\ mac e = MAC u p /\ expires e = t + CacheTTL cfg.

Record sound (s : System) : Prop := {
  so_trusted : forall i u p t, (i, u, p, t) ∈ sy_trusted s -> (u, p) ∈ sy_accepted s /\ short u /\ short p /\ t <= sy_now s;
  so_cache : forall u b e, sy_cache s !! u = Some b -> e ∈ b -> entry_ok s u e;
  so_hits : forall i u p c, (i, u, p, c) ∈ sy_hits s -> exists j t, (j, u, p, t) ∈ sy_trusted s /\ t <= c <= t + CacheTTL cfg;
  so_short : forall i r p, sy_requests s !! i = Some (r, p) -> short (userKey r) /\ short (rq_pass r);
  so_inflight : forall key leader, sy_inflight s !! key = Some leader ->
    exists r p, sy_requests s !! leader = Some (r, p) /\ key = macHex hmac (userKey r) (rq_pass r);
  so_calls : forall i, sy_calls s !! i = Some Valid -> exists r p, sy_requests s !! i = Some (r, p) /\ accepted s r;
  so_place : forall i r p, sy_requests s !! i = Some (r, p) -> place_ok s i r p
}.

(** A request moves on. *)
Lemma goto_sound s i r p p' : sound s -> sy_requests s !! i = Some (r, p) -> place_ok s i r p' -> sound (goto i r p' s).
Proof.
  intros [Ht Hc Hh Hs Hi Hca Hp] Hr Hok.
  assert (forall j x q, sy_requests s !! j = Some (x, q) -> exists q', sy_requests (goto i r p' s) !! j = Some (x, q')) as Hold.
  { intros j x q Hj. cbn. destruct (decide (j = i)) as [->|]; [rewrite lookup_insert_eq|rewrite lookup_insert_ne by done]; eauto. naive_solver. }
  assert (forall j x q, sy_requests (goto i r p' s) !! j = Some (x, q) -> (exists q', sy_requests s !! j = Some (x, q')) /\ place_ok s j x q) as Hnew.
  { intros j x q. cbn. rewrite lookup_insert_Some. intros [[<- [= <- <-]]|[_ Hj]]; eauto. }
  assert (forall j x q, place_ok s j x q -> place_ok (goto i r p' s) j x q) as Hmono.
  { intros j x q. destruct q as [| | | | | |[]|[]|l|[]| | |[]]; try done. intros (r' & q' & Hl & ? & ?).
    apply Hold in Hl as [q'' Hl]. by exists r', q''. }
  split; [exact Ht|exact Hc|exact Hh| | | |].
  - intros j x q Hj. destruct (Hnew j x q Hj) as [[q' Hj'] _]. by eapply Hs.
  - intros key l Hl. destruct (Hi key l Hl) as (x & q & Hx & ->). apply Hold in Hx as [q' Hx]. by exists x, q'.
  - intros j Hj. destruct (Hca j Hj) as (x & q & Hx & Ha). apply Hold in Hx as [q' Hx]. by exists x, q'.
  - intros j x q Hj. apply Hmono. by apply (Hnew j x q).
Qed.
Lemma set_lockout_sound s t : sound s -> sound (set_lockout s t).
Proof. intros []. by split. Qed.
Lemma set_cache_sound s c : sound s -> (forall u b e, c !! u = Some b -> e ∈ b -> entry_ok s u e) -> sound (set_cache s c).
Proof. intros [] H. by split. Qed.
Lemma set_calls_sound s inflight calls : sound s ->
  (forall key leader, inflight !! key = Some leader -> exists r p, sy_requests s !! leader = Some (r, p) /\ key = macHex hmac (userKey r) (rq_pass r)) ->
  (forall i, calls !! i = Some Valid -> exists r p, sy_requests s !! i = Some (r, p) /\ accepted s r) ->
  sound (set_calls s inflight calls).
Proof. intros [] Hi Hc. by split. Qed.
(** The logs grow. *)
Lemma log_sound s a rj t h : sound s ->
  (forall i u p x, (i, u, p, x) ∈ t -> (u, p) ∈ (a ++ sy_accepted s)%list /\ short u /\ short p /\ x <= sy_now s) ->
  (forall i u p c, (i, u, p, c) ∈ h -> exists j x, (j, u, p, x) ∈ (t ++ sy_trusted s)%list /\ x <= c <= x + CacheTTL cfg) ->
  sound (log s a rj t h).
Proof.
  intros [Ht Hc Hh Hs Hi Hca Hp] Ht' Hh'.
  assert (forall x, x ∈ sy_trusted s -> x ∈ sy_trusted (log s a rj t h)) as Hti by (intros x Hx; cbn; apply elem_of_app; by right).
  assert (forall x, x ∈ sy_accepted s -> x ∈ sy_accepted (log s a rj t h)) as Hai by (intros x Hx; cbn; apply elem_of_app; by right).
  assert (forall x, x ∈ sy_hits s -> x ∈ sy_hits (log s a rj t h)) as Hhi by (intros x Hx; cbn; apply elem_of_app; by right).
  split.
  - intros i u p x. cbn. rewrite elem_of_app. intros [Hx|Hx]; [by eapply Ht'|]. destruct (Ht _ _ _ _ Hx) as (? & ? & ? & ?).
    repeat split; try done. apply elem_of_app. by right.
  - intros u b e Hb He. destruct (Hc u b e Hb He) as (i & p & x & Hx & ? & ?). exists i, p, x. auto.
  - intros i u p c. cbn. rewrite elem_of_app. intros [Hx|Hx]; [by eapply Hh'|]. destruct (Hh _ _ _ _ Hx) as (j & x & ? & ?).
    exists j, x. split; [|done]. apply elem_of_app. by right.
  - exact Hs.
  - exact Hi.
  - intros i Hx. destruct (Hca i Hx) as (r & q & Hr & Ha). exists r, q. split; [done|]. by apply Hai.
  - intros i r q Hr. specialize (Hp i r q Hr). unfold place_ok, accepted, vouched in *.
    destruct q as [| | | | | |[]|[]|l|[]| | |[]]; try done; try (by apply Hai); naive_solver.
Qed.

(** The cache operations. *)
Lemma check_entries u p now c c' hit : check hmac u p now c = (c', hit) ->
  (forall u' b e, c' !! u' = Some b -> e ∈ b -> exists b', c !! u' = Some b' /\ e ∈ b') /\
  (hit = true -> exists b e, c !! u = Some b /\ e ∈ b /\ mac e = MAC u p /\ now <= expires e).
Proof.
  unfold check. destruct (c !! u) as [[|e0 b0]|] eqn:Eb; [intros [= <- <-]; split; [eauto|done]| |intros [= <- <-]; split; [eauto|done]].
  set (kept := filter _ (e0 :: b0)). intros [= <- <-]. split.
  - intros u' b e Hb He. case_bool_decide.
    + apply lookup_delete_Some in Hb as [_ Hb]. eauto.
    + apply lookup_insert_Some in Hb as [[<- <-]|[_ Hb]]; [|eauto]. exists (e0 :: b0). split; [done|].
      by apply list_elem_of_filter in He as [_ He].
  - intros Hx. apply existsb_exists in Hx as (e & He & Hm). apply list_elem_of_In, list_elem_of_filter in He as [Hx He].
    apply String.eqb_eq in Hm. exists (e0 :: b0), e. repeat split; try done. unfold After in Hx. apply Z.ltb_ge in Hx. lia.
Qed.
Lemma renew_elem m x b b' e : renew m x b = Some b' -> e ∈ b' -> e ∈ b \/ e = mkCached m x.
Proof.
  revert b'. induction b as [|e0 b IH]; intros b'; [done|]. cbn [renew]. destruct (String.eqb_spec (mac e0) m) as [<-|].
  - intros [= <-] [->|H]%elem_of_cons; [by right|left; by right].
  - destruct (renew m x b) as [b1|]; [|done]. intros [= <-] [->|H]%elem_of_cons; [left; left|].
    destruct (IH b1 eq_refl H); [left; by right|by right].
Qed.
Lemma put_entries u p now c u' b e : put hmac cfg u p now c !! u' = Some b -> e ∈ b ->
  (exists b', c !! u' = Some b' /\ e ∈ b') \/ (u' = u /\ e = mkCached (MAC u p) (now + CacheTTL cfg)).
Proof.
  unfold put. assert (forall e, e ∈ default [] (c !! u) -> exists b', c !! u = Some b' /\ e ∈ b') as Hd.
  { intros x Hx. destruct (c !! u) as [b0|]; [by exists b0|]. by apply not_elem_of_nil in Hx. }
  destruct (renew _ _ _) as [b1|] eqn:Er; [|destruct (_ <=? _)%nat]; intros [[<- <-]|[_ Hb]]%lookup_insert_Some He; eauto.
  - destruct (renew_elem _ _ _ _ _ Er He); [left; by apply Hd|by right].
  - apply list_elem_of_lookup in He as [k Hk]. apply list_lookup_insert_Some in Hk as [(_ & <- & _)|[_ Hk]]; [by right|].
    left. apply Hd. by apply list_elem_of_lookup_2 in Hk.
  - apply elem_of_app in He as [He|He]; [left; by apply Hd|]. apply list_elem_of_singleton in He. by right.
Qed.

(** Each step keeps the invariant. *)
Lemma check_sound s i r : sound s -> sy_requests s !! i = Some (r, AtCheck) -> sound (at_check hmac ToLower i r s).
Proof.
  intros Hs Hr. unfold at_check. destruct (String.eqb _ _); [by eapply goto_sound|].
  destruct (check hmac (userKey r) (rq_pass r) (sy_now s) (sy_cache s)) as [c hit] eqn:Ec.
  destruct (check_entries _ _ _ _ _ _ Ec) as [Hsub Hhit].
  assert (sound (set_cache s c)) as Hc.
  { apply set_cache_sound; [done|]. intros u b e Hb He. destruct (Hsub u b e Hb He) as (b' & Hb' & He'). by eapply so_cache. }
  destruct hit; [|by eapply goto_sound]. destruct (Hhit eq_refl) as (b & e & Hb & He & Hm & Hx).
  destruct (so_cache _ Hs _ _ _ Hb He) as (j & p & t & Ht & Hmac & Hexp). destruct (so_trusted _ Hs _ _ _ _ Ht) as (_ & Hsu & Hsp & Hnow).
  destruct (so_short _ Hs _ _ _ Hr) as [Hru Hrp]. rewrite Hm in Hmac. apply hmac_inj, credential_inj in Hmac as [_ <-]; try done.
  eapply goto_sound; [|exact Hr|left; eexists; cbn; left]. apply log_sound; [done|by intros ? ? ? ? ?%not_elem_of_nil|].
  intros i' u' p' c' [= -> -> -> ->]%list_elem_of_singleton. exists j, t. split; [done|]. lia.
Qed.
Lemma join_sound s i r : sound s -> sy_requests s !! i = Some (r, AtJoin) -> sound (at_join hmac ToLower i r s).
Proof.
  intros Hs Hr. unfold at_join. destruct (sy_inflight s !! _) as [l|] eqn:El.
  - eapply goto_sound; [done|exact Hr|]. destruct (so_inflight _ Hs _ _ El) as (r' & p' & Hr' & Hk). exists r', p'. split; [done|].
    destruct (so_short _ Hs _ _ _ Hr), (so_short _ Hs _ _ _ Hr'). unfold macHex in Hk.
    apply hex_encode_inj, hmac_inj, credential_inj in Hk as [? ?]; done.
  - eapply goto_sound; [|exact Hr|done]. apply set_calls_sound; [done| |apply Hs]. intros key l.
    rewrite lookup_insert_Some. intros [[<- <-]|[_ Hl]]; [by exists r, AtJoin|by apply Hs].
Qed.
Lemma login_sound fault s i r : sound s -> sy_requests s !! i = Some (r, AtLogin) -> sound (at_login ToLower fault i r s).
Proof.
  intros Hs Hr. unfold at_login. destruct fault; [by eapply goto_sound|]. case_bool_decide.
  - eapply goto_sound; [|exact Hr|unfold place_ok, accepted; cbn; left].
    apply log_sound; [done|by intros ? ? ? ? ?%not_elem_of_nil|by intros ? ? ? ? ?%not_elem_of_nil].
  - eapply goto_sound; [|exact Hr|done]. apply log_sound; [done|by intros ? ? ? ? ?%not_elem_of_nil|by intros ? ? ? ? ?%not_elem_of_nil].
Qed.
Lemma leave_sound res s i r : sound s -> sy_requests s !! i = Some (r, AtLeave res) -> sound (at_leave hmac ToLower res i r s).
Proof.
  intros Hs Hr. unfold at_leave. pose proof (so_place _ Hs _ _ _ Hr) as Hp. eapply goto_sound; [|exact Hr|by destruct res].
  apply set_calls_sound; [done| |apply Hs]. intros key l. rewrite lookup_delete_Some. intros [_ Hl]. by apply Hs.
Qed.
Lemma close_sound res s i r : sound s -> sy_requests s !! i = Some (r, AtClose res) -> sound (at_close res i r s).
Proof.
  intros Hs Hr. unfold at_close. pose proof (so_place _ Hs _ _ _ Hr) as Hp. eapply goto_sound; [|exact Hr|by destruct res].
  apply set_calls_sound; [done|apply Hs|]. intros j. rewrite lookup_insert_Some. intros [[<- ->]|[_ Hj]]; [|by apply Hs].
  by exists r, (AtClose Valid).
Qed.
Lemma wait_sound fault l s i r : sound s -> sy_requests s !! i = Some (r, AtWait l) -> sound (at_wait fault l i r s).
Proof.
  intros Hs Hr. unfold at_wait. destruct fault; [by eapply goto_sound|]. destruct (sy_calls s !! l) as [res|] eqn:El; [|done].
  eapply goto_sound; [done|exact Hr|]. destruct res; try done. destruct (so_place _ Hs _ _ _ Hr) as (r' & p' & Hr' & Hu & Hp).
  destruct (so_calls _ Hs _ El) as (r2 & p2 & Hr2 & Ha). rewrite Hr' in Hr2. injection Hr2 as <- <-. unfold place_ok, accepted in *. by rewrite <- Hu, <- Hp.
Qed.
Lemma put_sound s i r : sound s -> sy_requests s !! i = Some (r, AtPut) -> sound (at_put hmac ToLower cfg i r s).
Proof.
  intros Hs Hr. unfold at_put. pose proof (so_place _ Hs _ _ _ Hr) as Ha. destruct (so_short _ Hs _ _ _ Hr) as [Hu Hp].
  eapply goto_sound; [|exact Hr|right; eexists; cbn; left].
  set (t := (i, userKey r, rq_pass r, sy_now s)).
  assert (sound (log s [] [] [t] [])) as H1.
  { apply log_sound; [done| |by intros ? ? ? ? ?%not_elem_of_nil]. intros i' u' p' x [= -> -> -> ->]%list_elem_of_singleton.
    split; [exact Ha|]. split; [done|]. split; [done|lia]. }
  apply (set_cache_sound _ (put hmac cfg (userKey r) (rq_pass r) (sy_now s) (sy_cache s))) in H1; [exact H1|].
  intros u b e Hb He. destruct (put_entries _ _ _ _ _ _ _ Hb He) as [(b' & Hb' & He')|[-> ->]].
  - by apply (so_cache _ H1 u b').
  - exists i, (rq_pass r), (sy_now s). split; [left|done].
Qed.

Lemma advance_sound fault i s : sound s -> sound (advance hmac ToLower cfg fault i s).
Proof.
  intros Hs. unfold advance. destruct (sy_requests s !! i) as [[r p]|] eqn:Hr; [|done]. pose proof (so_place _ Hs _ _ _ Hr) as Hp.
  destruct p as [| | | | | |res|res|l|res| | |rep]; [by apply check_sound|..|done].
  - unfold at_lockout. destruct (0 <? _); by eapply goto_sound.
  - by apply join_sound.
  - unfold at_budget. destruct (budgetAvailable _ _ _) as [t []]; (eapply goto_sound; [by apply set_lockout_sound|exact Hr|done]).
  - by apply login_sound.
  - eapply goto_sound; [by apply set_lockout_sound|exact Hr|done].
  - by apply leave_sound.
  - by apply close_sound.
  - by apply wait_sound.
  - unfold at_outcome. destruct res; try (by eapply goto_sound); (eapply goto_sound; [by apply set_lockout_sound|exact Hr|done]).
  - by apply put_sound.
  - unfold at_provision. destruct fault; [by eapply goto_sound|]. destruct (sy_accounts s !! _) as [[]|]; by eapply goto_sound.
Qed.

(** Requests of an HTTP server are short. *)
Definition short_event (e : event) : Prop :=
  match e with EArrive _ r => short (userKey r) /\ short (rq_pass r) | _ => True end.
Lemma step_sound s e : short_event e -> sound s -> sound (step hmac ToLower cfg s e).
Proof.
  intros He Hs. destruct e as [i r|i fault|email| |d logins accounts]; cbn [step].
  - destruct (decide _) as [|Hn]; [done|]. destruct Hs as [Ht Hc Hh Hsh Hi Hca Hp].
    assert (forall j x, sy_requests s !! j = Some x -> sy_requests (goto i r AtCheck s) !! j = Some x) as Hold.
    { intros j x Hj. cbn. rewrite lookup_insert_ne; [done|]. intros ->. apply Hn. eauto. }
    split; [exact Ht|exact Hc|exact Hh|..].
    + intros j x q. cbn. rewrite lookup_insert_Some. intros [[<- [= <- <-]]|[_ Hj]]; [exact He|by eapply Hsh].
    + intros key l Hl. destruct (Hi key l Hl) as (x & q & Hx & ->). exists x, q. auto.
    + intros j Hj. destruct (Hca j Hj) as (x & q & Hx & Ha). exists x, q. auto.
    + intros j x q. cbn [goto sy_requests]. rewrite lookup_insert_Some. intros [[<- [= <- <-]]|[_ Hj]]; [done|].
      specialize (Hp j x q Hj). destruct q as [| | | | | |[]|[]|l|[]| | |[]]; try done. destruct Hp as (r' & q' & Hl & ? & ?).
      exists r', q'. auto.
  - by apply advance_sound.
  - apply set_cache_sound; [done|]. intros u b e Hb Hin. unfold invalidateUser in Hb. apply lookup_delete_Some in Hb as [_ Hb]. by eapply so_cache.
  - apply set_cache_sound; [done|]. intros u b e Hb. exfalso. exact (lookup_empty_Some _ _ Hb).
  - destruct Hs as [Ht Hc Hh Hsh Hi Hca Hp]. split; try done. intros i u p t Hx. destruct (Ht i u p t Hx) as (? & ? & ? & ?).
    split; [done|]. split; [done|]. split; [done|]. cbn. lia.
Qed.

End soundness.

(** ** One request after the other *)

Section sequential.
Context (hmac : string -> string) (ToLower : string -> string) (cfg : AuthConfig).

(** [Authenticate] without interleaving: the request under the number [i], to its end. *)
Definition fault_at (loginFault lookupFault : bool) (p : place) : bool :=
  match p with AtLogin => loginFault | AtProvision => lookupFault | _ => false end.
Definition drive (loginFault lookupFault : bool) (i : nat) (s : System) : System :=
  match sy_requests s !! i with
  | Some (_, p) => advance hmac ToLower cfg (fault_at loginFault lookupFault p) i s
  | None => s
  end.
Definition Authenticate (loginFault lookupFault : bool) (i : nat) (r : Request) (s : System) : System :=
  Nat.iter 11 (drive loginFault lookupFault i) (goto i r AtCheck s).

(** A call some time later, in a world that may have changed. *)
Record call := mkCall {
  cl_after : Z; cl_logins : gset (string * string); cl_accounts : gmap string accountState;
  cl_request : Request; cl_loginFault : bool; cl_lookupFault : bool
}.
Definition run_call (s : System) (n : nat) (c : call) : System :=
  Authenticate (cl_loginFault c) (cl_lookupFault c) n (cl_request c)
    (set_world s (sy_now s + Z.max 0 (cl_after c)) (cl_logins c) (cl_accounts c)).
Fixpoint calls (s : System) (n : nat) (l : list call) : System :=
  match l with
  | [] => s
  | c :: l => calls (run_call s n c) (S n) l
  end.

(** What a call does to the limiter. *)
Inductive served (r : Request) (s s' : System) : Prop :=
  | served_untouched : sy_lockout s' = sy_lockout s -> sy_rejected s' = sy_rejected s -> served r s s'
  | served_unasked : sy_lockout s' = refill cfg (sy_now s) (sy_lockout s) -> sy_rejected s' = sy_rejected s -> served r s s'
  | served_valid :
      (rq_user r, rq_pass r) ∈ sy_logins s ->
      sy_lockout s' = recordSuccess (lockKey ToLower r) (refill cfg (sy_now s) (sy_lockout s)) ->
      sy_rejected s' = sy_rejected s -> served r s s'
  | served_rejected :
      lockedFor (lockKey ToLower r) (sy_now s) (sy_lockout s) = 0 ->
      (GlobalFailureWindow cfg <=? tokens (refill cfg (sy_now s) (sy_lockout s))) = true ->
      sy_lockout s' = (recordFailure cfg (lockKey ToLower r) (sy_now s)
        (consumeBudget cfg (sy_now s) (refill cfg (sy_now s) (sy_lockout s)))).1 ->
      sy_rejected s' = (lockKey ToLower r, sy_now s) :: sy_rejected s -> served r s s'.

Lemma lookup_goto i r p s : sy_requests (goto i r p s) !! i = Some (r, p).
Proof. cbn. by rewrite lookup_insert_eq. Qed.
Lemma drive_goto lf pf i r p s :
  drive lf pf i (goto i r p s) = match p with
    | AtCheck => at_check hmac ToLower i r (goto i r p s)
    | AtLockout => at_lockout ToLower i r (goto i r p s)
    | AtJoin => at_join hmac ToLower i r (goto i r p s)
    | AtBudget => at_budget cfg i r (goto i r p s)
    | AtLogin => at_login ToLower lf i r (goto i r p s)
    | AtCharge => at_charge cfg i r (goto i r p s)
    | AtLeave res => at_leave hmac ToLower res i r (goto i r p s)
    | AtClose res => at_close res i r (goto i r p s)
    | AtWait leader => at_wait false leader i r (goto i r p s)
    | AtOutcome res => at_outcome ToLower cfg res i r (goto i r p s)
    | AtPut => at_put hmac ToLower cfg i r (goto i r p s)
    | AtProvision => at_provision ToLower pf i r (goto i r p s)
    | Done _ => goto i r p s
    end.
Proof. unfold drive, advance. rewrite lookup_goto. by destruct p. Qed.
Lemma drive_done lf pf n i r rep s : Nat.iter n (drive lf pf i) (goto i r (Done rep) s) = goto i r (Done rep) s.
Proof. induction n as [|n IH]; [done|]. rewrite Nat.iter_succ, IH. apply drive_goto. Qed.
(** The last lookup changes nothing but the answer. *)
Lemma drive_provision lf pf n i r s : exists rep, Nat.iter (S n) (drive lf pf i) (goto i r AtProvision s) = goto i r (Done rep) (goto i r AtProvision s).
Proof.
  rewrite Nat.iter_succ_r, drive_goto. unfold at_provision. destruct pf; [eexists; apply drive_done|].
  destruct (sy_accounts _ !! _) as [[]|]; eexists; apply drive_done.
Qed.

Lemma Authenticate_served lf pf i r s : sy_inflight s = ∅ ->
  let s' := Authenticate lf pf i r s in
  served r s s' /\ sy_inflight s' = ∅ /\ sy_now s' = sy_now s.
Proof.
  intros Hi. unfold Authenticate.
  rewrite Nat.iter_succ_r, drive_goto. unfold at_check.
  destruct (String.eqb (rq_user r) ""); [rewrite drive_done; split; [by apply served_untouched|done]|].
  destruct (check _ _ _ _ _) as [c []].
  { destruct (drive_provision lf pf 9 i r (log (set_cache (goto i r AtCheck s) c) [] [] []
      [(i, userKey ToLower r, rq_pass r, sy_now (goto i r AtCheck s))])) as [rep ->]. split; [by apply served_untouched|done]. }
  set (s1 := set_cache _ c). rewrite Nat.iter_succ_r, drive_goto. unfold at_lockout.
  change (sy_lockout (goto i r AtLockout s1)) with (sy_lockout s). change (sy_now (goto i r AtLockout s1)) with (sy_now s).
  destruct (Z.ltb_spec 0 (lockedFor (lockKey ToLower r) (sy_now s) (sy_lockout s))) as [|Hw];
    [rewrite drive_done; split; [by apply served_untouched|done]|].
  assert (lockedFor (lockKey ToLower r) (sy_now s) (sy_lockout s) = 0) as Hw0.
  { unfold lockedFor in *. destruct (entries _ !! _) as [e|]; [|done]. destruct (Z.ltb_spec 0 (Sub (until e) (sy_now s))); [lia|done]. }
  rewrite Nat.iter_succ_r, drive_goto. unfold at_join. cbn [goto sy_inflight s1 set_cache]. rewrite Hi, lookup_empty.
  set (s2 := set_calls _ _ _). rewrite Nat.iter_succ_r, drive_goto. unfold at_budget, budgetAvailable.
  change (sy_lockout (goto i r AtBudget s2)) with (sy_lockout s). change (sy_now (goto i r AtBudget s2)) with (sy_now s).
  set (t1 := refill cfg (sy_now s) (sy_lockout s)). set (key := macHex hmac (userKey ToLower r) (rq_pass r)) in *.
  assert (delete key (sy_inflight s2) = ∅) as Hdel by (unfold s2; cbn; by rewrite delete_insert_id).
  destruct (GlobalFailureWindow cfg <=? tokens t1) eqn:Eb.
  2: { do 4 (rewrite Nat.iter_succ_r, drive_goto; unfold at_leave, at_close, at_outcome). rewrite drive_done.
       split; [by apply served_unasked|]. cbn. fold key. done. }
  rewrite Nat.iter_succ_r, drive_goto. unfold at_login. destruct lf.
  { do 3 (rewrite Nat.iter_succ_r, drive_goto; unfold at_leave, at_close, at_outcome). rewrite drive_done.
    split; [by apply served_unasked|done]. }
  case_bool_decide as Hin.
  - do 4 (rewrite Nat.iter_succ_r, drive_goto; unfold at_leave, at_close, at_outcome, at_put).
    match goal with |- context [goto i r AtProvision ?x] => destruct (drive_provision false pf 1 i r x) as [rep ->] end.
    split; [by apply served_valid|done].
  - do 4 (rewrite Nat.iter_succ_r, drive_goto; unfold at_charge, at_leave, at_close, at_outcome). rewrite drive_done.
    split; [by apply served_rejected|done].
Qed.

Definition world_of (s : System) (c : call) : System :=
  set_world s (sy_now s + Z.max 0 (cl_after c)) (cl_logins c) (cl_accounts c).
Lemma run_call_served s n c : sy_inflight s = ∅ ->
  served (cl_request c) (world_of s c) (run_call s n c) /\ sy_inflight (run_call s n c) = ∅ /\
  sy_now (run_call s n c) = sy_now s + Z.max 0 (cl_after c).
Proof. intros Hi. exact (Authenticate_served (cl_loginFault c) (cl_lookupFault c) n (cl_request c) (world_of s c) Hi). Qed.

(** ** The global budget *)

Hypothesis budget_pos : 0 < GlobalFailureBudget cfg.
Hypothesis window_pos : 0 < GlobalFailureWindow cfg.
Notation budget := (GlobalFailureBudget cfg).
Notation window := (GlobalFailureWindow cfg).

Definition filled (t : lockoutTable) : Prop := 0 <= tokens t <= capacity cfg.
Lemma capacity_pos : 0 < capacity cfg.
Proof. unfold capacity. nia. Qed.
Lemma refill_filled now t : filled t -> filled (refill cfg now t).
Proof.
  unfold filled, refill. intros H. pose proof capacity_pos. destruct (Z.leb_spec (Sub now (lastRefill t)) 0); [done|]. cbn.
  assert (0 <= Sub now (lastRefill t) * budget) by nia. lia.
Qed.
Lemma refill_again now t : refill cfg now (refill cfg now t) = refill cfg now t.
Proof.
  unfold refill at 2 3. destruct (Z.leb_spec (Sub now (lastRefill t)) 0) as [H|H].
  - unfold refill. by rewrite (proj2 (Z.leb_le _ _) H).
  - unfold refill. cbn [lastRefill]. assert (Sub now now = 0) as ->; [|done].
    unfold Sub. rewrite Z.sub_diag. unfold MinInt64, MaxInt64. lia.
Qed.
(** The bucket gains no faster than its rate. *)
Lemma refill_later now d t : filled t -> 0 <= d -> tokens (refill cfg (now + d) t) <= tokens (refill cfg now t) + d * budget.
Proof.
  intros Hf Hd. unfold refill.
  assert (Sub now (lastRefill t) <= Sub (now + d) (lastRefill t) <= Sub now (lastRefill t) + d) as Hs
    by (unfold Sub, MinInt64, MaxInt64; lia).
  unfold filled in Hf. destruct (Z.leb_spec (Sub (now + d) (lastRefill t)) 0), (Z.leb_spec (Sub now (lastRefill t)) 0); cbn; nia.
Qed.
Lemma consume_tokens now t : filled t -> (window <=? tokens (refill cfg now t)) = true ->
  let t' := consumeBudget cfg now (refill cfg now t) in
  tokens (refill cfg now t') = tokens (refill cfg now t) - window /\ filled t'.
Proof.
  intros Hf Hw. pose proof (refill_filled now t Hf) as Hf1. unfold consumeBudget. rewrite refill_again, Hw. cbv zeta. apply Z.leb_le in Hw.
  assert (Sub now (lastRefill (refill cfg now t)) <= 0) as Hl.
  { unfold refill. destruct (Z.leb_spec (Sub now (lastRefill t)) 0); [done|]. cbn. unfold Sub, MinInt64, MaxInt64. lia. }
  split; [|unfold filled in *; cbn; lia]. unfold refill at 1. cbn [lastRefill]. by rewrite (proj2 (Z.leb_le _ _) Hl).
Qed.

(** What is in the bucket, or would be if one looked. *)
Definition level (s : System) : Z := tokens (refill cfg (sy_now s) (sy_lockout s)).
Definition rejections (s : System) : Z := Z.of_nat (List.length (sy_rejected s)).
Record metered (s s' : System) : Prop := {
  me_filled : filled (sy_lockout s');
  me_idle : sy_inflight s' = ∅;
  me_now : sy_now s <= sy_now s';
  me_level : level s' + window * (rejections s' - rejections s) <= level s + budget * (sy_now s' - sy_now s)
}.
Lemma call_metered s n c : filled (sy_lockout s) -> sy_inflight s = ∅ -> metered s (run_call s n c).
Proof.
  intros Hf Hi. destruct (run_call_served s n c Hi) as (Hs & Hi' & Hn).
  set (s0 := world_of s c) in *. set (s' := run_call s n c) in *. set (d := Z.max 0 (cl_after c)) in *.
  assert (sy_now s0 = sy_now s + d) as Hd by done. rewrite <- Hd in Hn. assert (0 <= d) by (unfold d; lia).
  assert (budget * (sy_now s0 - sy_now s) = d * budget) as Hmul by (rewrite Hd; ring).
  assert (level s0 <= level s + d * budget) as Hl by (unfold level; rewrite Hd; by apply refill_later).
  assert (filled (refill cfg (sy_now s0) (sy_lockout s))) as Hf1 by (by apply refill_filled).
  unfold level in Hl. clearbody s'.
  destruct Hs as [E1 E2|E1 E2|_ E1 E2|_ Hw E1 E2]; change (sy_lockout s0) with (sy_lockout s) in *; change (sy_rejected s0) with (sy_rejected s) in *.
  1-3: split; [rewrite E1; try done|done|lia|unfold level, rejections; rewrite E1, E2, Hn].
  - lia.
  - rewrite refill_again. lia.
  - assert (forall t, tokens (refill cfg (sy_now s0) (recordSuccess (lockKey ToLower (cl_request c)) t)) = tokens (refill cfg (sy_now s0) t)) as Ht.
    { intros t. unfold refill. cbn. by destruct (_ <=? 0). }
    rewrite Ht, refill_again. lia.
  - destruct (consume_tokens (sy_now s0) (sy_lockout s) Hf Hw) as [Hc Hf2]. set (t2 := consumeBudget _ _ _) in *.
    assert (tokens (refill cfg (sy_now s0) (recordFailure cfg (lockKey ToLower (cl_request c)) (sy_now s0) t2).1) = tokens (refill cfg (sy_now s0) t2)) as Ht.
    { unfold refill. cbn. by destruct (_ <=? 0). }
    split; [rewrite E1; exact Hf2|done|lia|]. unfold level, rejections. rewrite E1, E2, Hn. cbn [List.length]. rewrite Ht, Hc. lia.
Qed.
Lemma calls_metered s n l : filled (sy_lockout s) -> sy_inflight s = ∅ -> metered s (calls s n l).
Proof.
  revert s n. induction l as [|c l IH]; intros s n Hf Hi; cbn [calls].
  - split; try done; lia.
  - destruct (call_metered s n c Hf Hi) as [Hf1 Hi1 Hn1 Hl1]. destruct (IH (run_call s n c) (S n) Hf1 Hi1) as [Hf2 Hi2 Hn2 Hl2].
    split; try done; lia.
Qed.

(** The budget protects the mail server: between any two moments of a history of
    requests served one after the other, the logins it rejects number at most the budget
    and what has been refilled since, so at most twice the budget within one window. *)
Theorem budget_bounds_rejections now logins accounts before l :
  let s1 := calls (start cfg now logins accounts) 0 before in
  let s2 := calls s1 (List.length before) l in
  window * (rejections s2 - rejections s1) <= budget * (window + (sy_now s2 - sy_now s1)).
Proof.
  intros s1 s2. assert (filled (sy_lockout (start cfg now logins accounts))) as Hf0.
  { unfold filled. cbn. pose proof capacity_pos. lia. }
  destruct (calls_metered (start cfg now logins accounts) 0 before Hf0 eq_refl) as [Hf1 Hi1 _ _]. fold s1 in Hf1, Hi1.
  destruct (calls_metered s1 (List.length before) l Hf1 Hi1) as [Hf2 _ _ Hl]. fold s2 in Hf2, Hl.
  pose proof (refill_filled (sy_now s1) _ Hf1) as [_ H1]. pose proof (refill_filled (sy_now s2) _ Hf2) as [H2 _].
  unfold level in Hl. unfold capacity in H1. lia.
Qed.

(** ** The lockout of a pair *)

Hypothesis base_pos : 0 < LockoutBase cfg.
Hypothesis base_fits : 2 * LockoutBase cfg <= MaxInt64.
Hypothesis max_pos : 0 < LockoutMax cfg.
Hypothesis max_fits : 2 * LockoutMax cfg <= MaxInt64.

Lemma lock_loop_eq n lock : 0 < lock -> 2 * lock <= MaxInt64 ->
  Z.min (LockoutMax cfg) (lock_loop cfg n lock) = Z.min (LockoutMax cfg) (lock * 2 ^ Z.of_nat n).
Proof.
  revert lock. induction n as [|n IH]; intros lock H1 H2; [cbn; by rewrite Z.mul_1_r|]. cbn [lock_loop].
  assert (wrap64s (lock * 2) = lock * 2) as ->.
  { unfold wrap64s, MaxInt64 in *. rewrite Z.mod_small; lia. }
  rewrite Nat2Z.inj_succ, Z.pow_succ_r by lia. assert (0 < 2 ^ Z.of_nat n) by (apply Z.pow_pos_nonneg; lia).
  destruct (Z.leb_spec (LockoutMax cfg) (lock * 2)); [nia|]. rewrite IH by lia. f_equal. ring.
Qed.
(** A failure locks for the base doubled with each failure before, up to the maximum. *)
Lemma lock_after_eq f : lock_after cfg f = Z.min (LockoutMax cfg) (LockoutBase cfg * 2 ^ Z.max 0 (Z.min (f - 1) 30)).
Proof.
  unfold lock_after. set (lock := lock_loop _ _ _).
  assert ((if LockoutMax cfg <? lock then LockoutMax cfg else lock) = Z.min (LockoutMax cfg) lock) as ->
    by (destruct (Z.ltb_spec (LockoutMax cfg) lock); lia).
  unfold lock. rewrite lock_loop_eq by done. f_equal. f_equal. f_equal. lia.
Qed.
Lemma lock_after_mono f f' : f <= f' -> lock_after cfg f <= lock_after cfg f'.
Proof.
  intros H. rewrite !lock_after_eq. assert (2 ^ Z.max 0 (Z.min (f - 1) 30) <= 2 ^ Z.max 0 (Z.min (f' - 1) 30))
    by (apply Z.pow_le_mono_r; lia). nia.
Qed.
Lemma lock_after_pos f : 0 < lock_after cfg f.
Proof. rewrite lock_after_eq. assert (0 < 2 ^ Z.max 0 (Z.min (f - 1) 30)) by (apply Z.pow_pos_nonneg; lia). nia. Qed.
(** How long [n] failures keep a pair away at least. *)
Fixpoint lock_sum (n : nat) : Z := match n with O => 0 | S n => lock_sum n + lock_after cfg (Z.of_nat n + 1) end.
Lemma lock_sum_mono n m : (n <= m)%nat -> lock_sum n <= lock_sum m.
Proof. induction 1 as [|m _ IH]; [lia|]. cbn [lock_sum]. pose proof (lock_after_pos (Z.of_nat m + 1)). lia. Qed.

Definition rejections_of (k : string) (s : System) : nat := List.length (filter (fun x => x.1 = k) (sy_rejected s)).
Definition counted (s : System) : Prop := forall k e, entries (sy_lockout s) !! k = Some e -> 0 <= failures e.

Lemma refill_entries now t : entries (refill cfg now t) = entries t.
Proof. unfold refill. by destruct (_ <=? 0). Qed.
Lemma consume_entries now t : entries (consumeBudget cfg now t) = entries t.
Proof. unfold consumeBudget. cbn. apply refill_entries. Qed.
Lemma prune_lookup now (m : gmap string lockoutEntry) k e : m !! k = Some e -> stale now e = false -> maybePrune now m !! k = Some e.
Proof.
  intros H Hs. unfold maybePrune. destruct (_ <? _)%nat; [done|]. apply map_lookup_filter_Some. by split.
Qed.
Lemma prune_old now (m : gmap string lockoutEntry) k e : maybePrune now m !! k = Some e -> m !! k = Some e.
Proof. unfold maybePrune. destruct (_ <? _)%nat; [done|]. by intros [? _]%map_lookup_filter_Some. Qed.

(** A pair since the moment [t]: how often it was rejected, and until when it is locked. *)
Definition paced (k : string) (t : Z) (j : nat) (s : System) : Prop :=
  t <= sy_now s /\
  (j <> 0%nat -> t + lock_sum (pred j) <= sy_now s /\
    exists e, entries (sy_lockout s) !! k = Some e /\ Z.of_nat j <= failures e /\ t + lock_sum j <= until e /\ t <= touched e).
Lemma call_paced k t j s n c : sy_inflight s = ∅ -> counted s -> paced k t j s ->
  sy_now (run_call s n c) - t <= pruneIdle ->
  (lockKey ToLower (cl_request c) = k -> (rq_user (cl_request c), rq_pass (cl_request c)) ∉ cl_logins c) ->
  let s' := run_call s n c in
  sy_inflight s' = ∅ /\ counted s' /\ sy_now s <= sy_now s' /\
  exists j', paced k t j' s' /\ (rejections_of k s' = rejections_of k s + (j' - j))%nat /\ (j <= j')%nat.
Proof.
  intros Hi Hcnt [Ht Hj] Hidle Hno. destruct (run_call_served s n c Hi) as (Hs & Hi' & Hn).
  set (s0 := world_of s c) in *. set (s' := run_call s n c) in *. assert (sy_now s <= sy_now s') as Hnow by lia.
  change (sy_now s + Z.max 0 (cl_after c)) with (sy_now s0) in Hn.
  clearbody s'. cbv zeta. split; [done|].
  assert (forall m, (forall k' e, m !! k' = Some e -> entries (sy_lockout s) !! k' = Some e \/ 0 <= failures e) ->
    entries (sy_lockout s') = m -> counted s') as Hc by (intros m Hm Em k' e; rewrite Em; intros [He|He]%Hm; [by eapply Hcnt|done]).
  assert (forall e, entries (sy_lockout s) !! k = Some e -> t <= touched e -> stale (sy_now s') e = false) as Hfresh.
  { intros e _ Hte. unfold stale. apply andb_false_iff. right. apply Z.ltb_ge. unfold Sub, pruneIdle, MinInt64, MaxInt64 in *.
    unfold Hour, Minute, Second, Millisecond in *. lia. }
  assert (forall m, (forall e, entries (sy_lockout s) !! k = Some e -> t <= touched e -> m !! k = Some e) ->
    entries (sy_lockout s') = m -> sy_rejected s' = sy_rejected s \/ (exists x k', k' <> k /\ sy_rejected s' = (k', x) :: sy_rejected s) ->
    exists j', paced k t j' s' /\ (rejections_of k s' = rejections_of k s + (j' - j))%nat /\ (j <= j')%nat) as Hkeep.
  { intros m Hm Em Er. exists j. split; [|split; [|done]].
    - split; [lia|]. intros Hj0. destruct (Hj Hj0) as (H1 & e & He & H2 & H3 & H4). split; [lia|]. exists e. rewrite Em. auto.
    - rewrite Nat.sub_diag, Nat.add_0_r. unfold rejections_of. destruct Er as [->|(x & k' & Hne & ->)]; [done|].
      by rewrite filter_cons, decide_False. }
  destruct Hs as [E1 E2|E1 E2|Hin E1 E2|Hw Hb E1 E2]; change (sy_lockout s0) with (sy_lockout s) in *; change (sy_rejected s0) with (sy_rejected s) in *.
  - split; [eapply Hc; [|by rewrite E1]; by left|]. split; [done|]. eapply Hkeep; [|by rewrite E1|by left]. done.
  - split; [eapply Hc; [|rewrite E1; apply refill_entries]; by left|]. split; [done|].
    eapply Hkeep; [|rewrite E1; apply refill_entries|by left]. done.
  - assert (entries (sy_lockout s') = delete (lockKey ToLower (cl_request c)) (entries (sy_lockout s))) as Em
      by (rewrite E1; cbn; by rewrite refill_entries).
    split; [eapply Hc; [|exact Em]; intros k' e [_ ?]%lookup_delete_Some; by left|]. split; [done|].
    eapply Hkeep; [|exact Em|by left]. intros e He _. rewrite lookup_delete_ne; [done|]. intros E. by apply Hno in E.
  - set (key := lockKey ToLower (cl_request c)) in *. set (m := maybePrune (sy_now s') (entries (sy_lockout s))).
    set (f := (match m !! key with Some e => failures e | None => 0 end) + 1).
    assert (entries (sy_lockout s') = <[key := mkEntry f (sy_now s' + lock_after cfg f) (sy_now s')]> m) as Em.
    { rewrite E1. unfold recordFailure. cbn [entries fst]. rewrite consume_entries, refill_entries. unfold f, m. by rewrite Hn. }
    assert (0 < f) as Hf. { unfold f. destruct (m !! key) as [e|] eqn:Ee; [apply prune_old in Ee; specialize (Hcnt _ _ Ee)|]; lia. }
    split; [eapply Hc; [|exact Em]; intros k' e [[<- <-]|[_ Hx%prune_old]]%lookup_insert_Some; [right; cbn; lia|by left]|]. split; [done|].
    destruct (decide (key = k)) as [Ek|Hne].
    2: { eapply Hkeep; [|exact Em|right; by exists (sy_now s0), key]. intros e He Hte. rewrite lookup_insert_ne by done. apply prune_lookup; [done|by apply (Hfresh e)]. }
    exists (S j). assert (t + lock_sum j <= sy_now s' /\ Z.of_nat j < f) as [Hlj Hfj].
    { destruct (decide (j = 0%nat)) as [->|Hj0]; [cbn; lia|]. destruct (Hj Hj0) as (_ & e & He & H2 & H3 & H4).
      assert (m !! key = Some e) as Hme by (rewrite Ek; apply prune_lookup; [done|by apply (Hfresh e)]).
      unfold f. rewrite Hme. split; [|lia]. unfold lockedFor in Hw. rewrite <- Ek in He. rewrite He in Hw. rewrite Hn.
      destruct (Z.ltb_spec 0 (Sub (until e) (sy_now s0))) as [|Hle]; [lia|]. unfold Sub, MaxInt64, MinInt64 in Hle. lia. }
    split; [|split; [|lia]].
    + split; [lia|]. intros _. split; [done|]. eexists. rewrite Em, Ek, lookup_insert_eq. split; [done|]. cbn [failures until touched lock_sum].
      split; [lia|]. split; [|lia]. pose proof (lock_after_mono (Z.of_nat j + 1) f). lia.
    + unfold rejections_of. rewrite E2, filter_cons, decide_True by done. cbn [List.length]. lia.
Qed.
Lemma calls_paced k t l : forall j s n, sy_inflight s = ∅ -> counted s -> paced k t j s ->
  sy_now (calls s n l) - t <= pruneIdle ->
  Forall (fun c => lockKey ToLower (cl_request c) = k -> (rq_user (cl_request c), rq_pass (cl_request c)) ∉ cl_logins c) l ->
  filled (sy_lockout s) ->
  exists j', paced k t j' (calls s n l) /\ (rejections_of k (calls s n l) = rejections_of k s + (j' - j))%nat /\ (j <= j')%nat.
Proof.
  induction l as [|c l IH]; intros j s n Hi Hc Hp Hidle Hno Hf; cbn [calls] in *; [exists j; split; [done|]; lia|].
  apply Forall_cons in Hno as [Hno1 Hno]. destruct (call_metered s n c Hf Hi) as [Hf1 Hi1 _ _].
  pose proof (me_now _ _ (calls_metered (run_call s n c) (S n) l Hf1 Hi1)) as Hmono.
  destruct (call_paced k t j s n c Hi Hc Hp) as (_ & Hc1 & _ & j1 & Hp1 & Hr1 & Hle1); [lia|done|].
  destruct (IH j1 (run_call s n c) (S n) Hi1 Hc1 Hp1 Hidle Hno Hf1) as (j2 & Hp2 & Hr2 & Hle2). exists j2. split; [done|]. lia.
Qed.
Lemma calls_counted l : forall s n, sy_inflight s = ∅ -> filled (sy_lockout s) -> counted s -> counted (calls s n l).
Proof.
  induction l as [|c l IH]; intros s n Hi Hf Hc; cbn [calls]; [done|]. destruct (call_metered s n c Hf Hi) as [Hf1 Hi1 _ _]. apply IH; [done..|].
  destruct (run_call_served s n c Hi) as (Hs & _ & _). set (s' := run_call s n c) in *. clearbody s'.
  destruct Hs as [E1 _|E1 _|_ E1 _|_ _ E1 _]; intros k e; rewrite E1; cbn [recordSuccess recordFailure entries fst].
  - apply Hc.
  - rewrite refill_entries. apply Hc.
  - rewrite refill_entries. intros [_ H]%lookup_delete_Some. by apply (Hc k).
  - rewrite consume_entries, refill_entries. intros [[_ <-]|[_ H%prune_old]]%lookup_insert_Some; [|by apply (Hc k)]. cbn.
    destruct (maybePrune _ _ !! _) as [e0|] eqn:E0; [|lia]. apply prune_old, Hc in E0. lia.
Qed.

(** C30: A pair of client and account is kept away: while nobody signs in as the account
    from the client, requests served one after the other make the mail server reject at
    most [n] of its logins within any time that is both shorter than the first [n] lockouts
    together and at most the hour after which an idle pair may be forgotten. *)
Theorem lockout_paces_pair now logins accounts before l k n :
  let s1 := calls (start cfg now logins accounts) 0 before in
  let s2 := calls s1 (List.length before) l in
  Forall (fun c => lockKey ToLower (cl_request c) = k -> (rq_user (cl_request c), rq_pass (cl_request c)) ∉ cl_logins c) l ->
  sy_now s2 - sy_now s1 < lock_sum n -> sy_now s2 - sy_now s1 <= pruneIdle ->
  (rejections_of k s2 - rejections_of k s1 <= n)%nat.
Proof.
  intros s1 s2 Hno Hlt Hidle. assert (filled (sy_lockout (start cfg now logins accounts))) as Hf0.
  { unfold filled. cbn. pose proof capacity_pos. lia. }
  destruct (calls_metered (start cfg now logins accounts) 0 before Hf0 eq_refl) as [Hf1 Hi1 _ _]. fold s1 in Hf1, Hi1.
  assert (counted s1) as Hc1.
  { apply calls_counted; [done|done|]. intros k' e H. cbn in H. by rewrite lookup_empty in H. }
  destruct (calls_paced k (sy_now s1) l 0 s1 (List.length before) Hi1 Hc1) as (j & [_ Hj] & Hr & _); [by split; [lia|]|done..|].
  fold s2 in Hj, Hr. destruct (decide (j = 0%nat)) as [->|Hj0]; [lia|]. destruct (Hj Hj0) as [Hs _].
  destruct (decide (j <= n)%nat); [lia|]. assert (lock_sum n <= lock_sum (pred j)) by (apply lock_sum_mono; lia). lia.
Qed.
End sequential.

(** ** On concrete histories *)

Definition sample_hmac (s : string) : string := "k" +:+ s.
Definition default_config : AuthConfig := withDefaults (mkAuthConfig 0 0 0 0 0).
Definition sample_start : System :=
  start default_config (63902822400 * Second) {[("ana@x.example", "good")]} {["ana@x.example" := Active]}.
Definition sample_history : System -> list event -> System := history sample_hmac lower_ascii default_config.
Definition sample_calls : System -> nat -> list call -> System := calls sample_hmac lower_ascii default_config.
(** One step, or several, of the requests [l]. *)
Definition each (l : list nat) : list event := (fun i => EStep i false) <$> l.
Definition steps (n : nat) (l : list nat) : list event := List.concat (replicate n (each l)).
Definition user_no (i : nat) : string := "u" +:+ FormatInt 10 (Z.of_nat i) +:+ "@x.example".
Definition arrive (l : list nat) (f : nat -> Request) : list event := (fun i => EArrive i (f i)) <$> l.

(** A sign-in, and one from the cache. *)
Definition ana : Request := mkRequest "10.0.0.1" "Ana@x.example" "good".
Definition with_ana : gset (string * string) := {[("Ana@x.example", "good")]}.
Definition first_and_cached : list event :=
  (EWorld 0 with_ana {["ana@x.example" := Active]} :: EArrive 0 ana :: steps 10 [0%nat] ++ EArrive 1 ana :: steps 2 [1%nat])%list.
Lemma steps_short ToLower n l : Forall (short_event ToLower) (steps n l).
Proof.
  unfold steps. induction n as [|n IH]; [constructor|]. cbn. apply Forall_app. split; [|done].
  unfold each. apply Forall_fmap, Forall_forall. done.
Qed.
Lemma first_and_cached_short : Forall (short_event lower_ascii) first_and_cached.
Proof.
  unfold first_and_cached. constructor; [exact I|]. constructor; [split; vm_compute; reflexivity|]. apply Forall_app.
  split; [apply steps_short|]. constructor; [split; vm_compute; reflexivity|]. apply steps_short.
Qed.
Lemma sample_hmac_inj x y : sample_hmac x = sample_hmac y -> x = y.
Proof. intros E. by injection E. Qed.

(** The whole budget at once, and then a login with each token that comes back: forty
    rejections within ten minutes. *)
Definition bad_call (d : Z) (i : nat) : call :=
  mkCall d ∅ ∅ (mkRequest "10.0.0.1" (user_no i) "bad") false false.
Definition steady_stream : list call := ((bad_call 0 <$> seq 0 20) ++ (bad_call (30 * Second) <$> seq 20 20))%list.
Lemma budget_bounds_rejections_witness :
  let s1 := sample_calls sample_start 0 [] in
  let s2 := sample_calls s1 0 steady_stream in
  rejections s2 = 40 /\ sy_now s2 - sy_now s1 = 10 * Minute /\
  10 * Minute * (rejections s2 - rejections s1) <= 20 * (10 * Minute + (sy_now s2 - sy_now s1)).
Proof.
  cbv zeta. split; [vm_compute; reflexivity|]. split; [vm_compute; reflexivity|].
  exact (budget_bounds_rejections sample_hmac lower_ascii default_config ltac:(reflexivity) ltac:(reflexivity)
    (63902822400 * Second) {[("ana@x.example", "good")]} {["ana@x.example" := Active]} [] steady_stream).
Defined.

(** One pair that tries again as soon as it may: seven rejections in ten minutes. *)
Definition patient_guesser : list call :=
  (fun d => mkCall (d * Second) ∅ ∅ (mkRequest "10.0.0.1" "ana@x.example" "bad") false false) <$> [0; 5; 10; 20; 40; 80; 160; 285].
Lemma lockout_paces_pair_witness :
  let s2 := sample_calls sample_start 0 patient_guesser in
  rejections_of "10.0.0.1|ana@x.example" s2 = 7%nat /\ sy_now s2 - sy_now sample_start = 10 * Minute /\
  (rejections_of "10.0.0.1|ana@x.example" s2 - rejections_of "10.0.0.1|ana@x.example" sample_start <= 7)%nat.
Proof.
  cbv zeta. split; [vm_compute; reflexivity|]. split; [vm_compute; reflexivity|].
  apply (lockout_paces_pair sample_hmac lower_ascii default_config ltac:(reflexivity) ltac:(reflexivity) ltac:(reflexivity)
    ltac:(vm_compute; discriminate) ltac:(reflexivity) ltac:(vm_compute; discriminate)
    (63902822400 * Second) {[("ana@x.example", "good")]} {["ana@x.example" := Active]} [] patient_guesser "10.0.0.1|ana@x.example" 7).
  - repeat (apply Forall_cons; split; [intros _; apply not_elem_of_empty|]). apply Forall_nil. done.
  - vm_compute. reflexivity.
  - vm_compute. discriminate.
Defined.

(** Requests that run at the same time all see the budget before any of them is charged:
    twenty-five rejected logins at one instant, where the budget has twenty. *)
Example budget_overrun :
  rejections (sample_history sample_start
    (arrive (seq 0 25) (fun i => mkRequest "10.0.0.1" (user_no i) "bad") ++ steps 5 (seq 0 25))%list) = 25.
Proof. vm_compute. reflexivity. Qed.

(** Guesses for one account that run at the same time all see it unlocked. *)
Example lockout_overrun :
  rejections_of "10.0.0.1|ana@x.example" (sample_history sample_start
    (arrive (seq 0 15) (fun i => mkRequest "10.0.0.1" "ana@x.example" (user_no i)) ++ steps 5 (seq 0 15))%list) = 15%nat.
Proof. vm_compute. reflexivity. Qed.

(** Ten parallel requests with one mistyped password are one login and ten failures: the
    pair is locked for half an hour. *)
Example one_mistake_ten_strikes :
  let s := sample_history sample_start
    (arrive (seq 0 10) (fun _ => mkRequest "10.0.0.1" "ana@x.example" "godo") ++ steps 3 (seq 0 10) ++ steps 5 [0%nat] ++ steps 2 (seq 0 10))%list in
  rejections s = 1 /\ lockedFor "10.0.0.1|ana@x.example" (sy_now s) (sy_lockout s) = 30 * Minute.
Proof. vm_compute. split; reflexivity. Qed.

(** The password changes and the cache is invalidated while a request that was validated
    with the old one has yet to put it there: the old password works for the next one. *)
Example invalidation_undone :
  let old := mkRequest "10.0.0.1" "ana@x.example" "good" in
  let s := sample_history sample_start
    (EArrive 0 old :: steps 8 [0%nat] ++ [EWorld 0 ∅ {["ana@x.example" := Active]}; EInvalidate "ana@x.example"] ++ steps 1 [0%nat] ++
     EArrive 1 old :: steps 2 [1%nat])%list in
  sy_requests s !! 1%nat = Some (old, Done (Granted "ana@x.example")).
Proof. vm_compute. reflexivity. Qed.
