(* ===== verification/WriteWorld.v ===== *)
(** The world of the write path: what the client-initiated writes of
    src/internal/sync (write.go, append.go, write_mailbox.go, snooze.go) run in.

    Beside the store and the mail server of [Store.World] it holds the columns only this
    path reads, the cached connections of the executor, and a schedule. Every command on
    the wire and every statement takes a turn of the schedule: first whatever the rest of
    the world does to the server and to the tables (other mail clients, the sync engine),
    then what becomes of the command itself. A trace records what the process saw and
    did; no code reads it.

    The server's side of the write commands is a class, [ImapWriter], with the guarantees
    of RFC 3501, 4315, 6851 and 7162 as a second one; [MemServer] is an instance. *)

From S2P Require Import Prelude Store Imap.
From stdpp Require Import strings.
#[local] Open Scope Z_scope.

(** ** What the server answers *)

(** A tagged NO or BAD: response code and text. *)
Record no_response := mkNo { no_code : string; no_text : string }.

Inductive FlagOp := FlagsAdd | FlagsRemove | FlagsSet.

#[global] Instance no_response_eq_dec : EqDecision no_response.
Proof. solve_decision. Defined.
#[global] Instance FlagOp_eq_dec : EqDecision FlagOp.
Proof. solve_decision. Defined.

(** A UID set as it arrives: absent or of another kind, unbounded, or its numbers. *)
Inductive numset := NotUIDSet | Dynamic | Nums (l : list Z).

(** The COPYUID response code. *)
Record CopyData := mkCopy {
  cd_UIDValidity : Z;
  cd_SourceUIDs : numset;
  cd_DestUIDs : numset
}.

(** The responses of a STORE: the FETCH echoes and the [MODIFIED] set, if one came. *)
Record StoreData := mkStoreData { sd_echo : list Fetched; sd_modified : numset }.

(** The commands that change something: a NO leaves the server as it was. Flags travel in
    their wire form ("\Seen", "label"). *)
Class ImapWriter (S : Type) `{ImapServer S} := {
  srv_caps : S -> gset string;
  srv_store : S -> string -> list Z -> FlagOp -> list string -> Z -> no_response + (S * StoreData);
  srv_move : S -> string -> list Z -> string -> no_response + (S * option CopyData);
  srv_expunge : S -> string -> list Z -> no_response + (S * unit);
  srv_append : S -> string -> string -> list string -> Time -> no_response + (S * option (Z * Z));
  srv_create : S -> string -> no_response + (S * unit);
  srv_rename : S -> string -> string -> no_response + (S * unit);
  srv_delete : S -> string -> no_response + (S * unit);
  srv_subscribe : S -> string -> bool -> no_response + (S * unit)
}.

(** ** Connections *)

(** [imap.client]: its capabilities, the mailbox it believes is selected and whether it
    was closed; and, on the other side of the socket, whether the socket still is one and
    what the session has selected, under which UIDVALIDITY. *)
Record client := mkClient {
  cl_caps : gset string;
  cl_selected : string;
  cl_closed : bool;
  cl_alive : bool;
  cl_session : option (string * Z)
}.

Record accountConn := mkConn {
  ac_client : option client;
  ac_selectedName : string;
  ac_selectedResult : SelectResult
}.

(** ** Columns only this path reads *)

(** A row of snoozes (src/internal/store/snooze.go). *)
Inductive SnoozeState := SnoozePending | SnoozeWoken | SnoozeFailed.
Record Snooze := mkSnooze {
  sn_AccountID : Z;
  sn_MessageRFCID : string;
  sn_WakeAt : Time;
  sn_OriginMailbox : string;
  sn_State : SnoozeState;
  sn_Attempts : Z;
  sn_LastError : option string
}.
#[global] Instance SnoozeState_eq_dec : EqDecision SnoozeState.
Proof. solve_decision. Defined.

Record Cols := mkCols {
  accounts : gmap Z string;                (* accounts: id, email *)
  account_of : gmap Z Z;                   (* messages.account_id, message_state.account_id *)
  dates : gmap Z (Time * option Time);     (* messages.date, messages.internal_date *)
  delimiters : gmap Z string;              (* mailboxes.delimiter *)
  files : gmap string string;              (* the blob files, by hash *)
  snoozes : gmap Z Snooze                  (* snoozes: id, row *)
}.

(** ** Errors *)

Inductive werr :=
| EStore (e : err)                         (* from the store *)
| ErrNotConnected | ErrNoMailboxSelected | ErrMissingCapability
| ErrMailboxStale | ErrMailboxExists | ErrMailboxMissing
| ErrInvalidMailboxName | ErrRenameInbox | ErrDeleteInbox
| EServer (r : no_response)                (* the server answered NO or BAD *)
| ESocket                                  (* the connection broke *)
| ECanceled                                (* ctx.Err() *)
| EArgument                                (* refused by the client itself *)
| EDial                                    (* no connection could be made *)
| ErrWriteNotFound | ErrWriteConflict | ErrNoTrashMailbox
| ErrClosed | ErrNoBlobs | ErrEmptyMessage | ErrAppendNotSupported | ErrNoAppendUID
| ErrDisappeared | EBlob
| ErrMailboxNotFound | ErrMailboxNameTaken | ErrMailboxNameInvalid
| ErrMailboxProtected | ErrMailboxHasChildren
| ErrSnoozeUnavailable | ErrNotSnoozed.

#[global] Instance werr_eq_dec : EqDecision werr.
Proof. solve_decision. Defined.

(** ** The trace *)

(** A change the server executed, and what it was executed on: mailbox, UIDVALIDITY of
    the selection, UIDs. *)
Inductive mutation :=
| MStore (n : string) (v : Z) (uids : list Z) (op : FlagOp) (flags : list string) (unchanged : Z)
| MMove (n : string) (v : Z) (uids : list Z) (dest : string)
| MExpunge (n : string) (v : Z) (uids : list Z)
| MAppend (n : string) (raw : string) (flags : list string) (date : Time)
| MCreate (n : string)
| MRename (n to : string)
| MDelete (n : string)
| MSubscribe (n : string) (b : bool).

#[global] Instance mutation_eq_dec : EqDecision mutation.
Proof. solve_decision. Defined.

Inductive event (S : Type) :=
(** [target] resolved a message, with the account it belongs to, to its row and mailbox. *)
| Targeted (account message : Z) (owner : option Z) (k : state_key) (st : MessageState) (mb : Mailbox)
(** The mailbox a message is to go to was accepted. *)
| Resolved (account : Z) (mb : Mailbox)
(** The server executed a change, in the given state. *)
| Executed (account : Z) (m : mutation) (before : S)
(** A read-back answered, from the given mailbox and UIDVALIDITY. *)
| Saw (account : Z) (n : string) (v : Z) (f : Fetched)
(** A fresh SELECT answered. *)
| Selected (account : Z) (n : string) (v : Z)
(** The store was told: new flags of a row, a tombstone, a new place of a row, a new row. *)
| Reflected (u : FlagUpdate)
| Tombstoned (k : state_key)
| Repointed (message : Z) (k : state_key)
| Inserted (account : Z) (nm : NewMessage)
(** The bytes of a message were read from the blob file its row names. *)
| Loaded (message : Z) (hash raw : string).
Arguments Targeted {S}.
Arguments Resolved {S}.
Arguments Executed {S}.
Arguments Saw {S}.
Arguments Selected {S}.
Arguments Reflected {S}.
Arguments Tombstoned {S}.
Arguments Repointed {S}.
Arguments Inserted {S}.
Arguments Loaded {S}.

(** ** Turns *)

(** What becomes of a command: answered; never sent, the context being over; refused
    with a NO; lost with its connection before or after the server executed it. *)
Inductive outcome := Served | Canceled | Refused (r : no_response) | Broken | Lost.

Record turn (S : Type) := mkTurn {
  t_other : World S -> Cols -> World S * Cols;
  t_out : outcome
}.
Arguments mkTurn {S}.
Arguments t_other {S}.
Arguments t_out {S}.

Record WWorld (S : Type) := mkWW {
  x_world : World S;
  x_cols : Cols;
  x_conns : gmap Z accountConn;
  x_closed : bool;
  x_sched : list (turn S);
  x_trace : list (event S);
  x_notified : list Z
}.
Arguments mkWW {S}.
Arguments x_world {S}.
Arguments x_cols {S}.
Arguments x_conns {S}.
Arguments x_closed {S}.
Arguments x_sched {S}.
Arguments x_trace {S}.
Arguments x_notified {S}.

(** ** Primitives *)

Section primitives.
Context {S : Type}.
Abbreviation WM := (M (WWorld S) werr).

Definition set_world (w : World S) (x : WWorld S) : WWorld S :=
  {| x_world := w; x_cols := x_cols x; x_conns := x_conns x; x_closed := x_closed x;
     x_sched := x_sched x; x_trace := x_trace x; x_notified := x_notified x |}.
Definition set_srv (s : S) (x : WWorld S) : WWorld S :=
  set_world {| w_db := w_db (x_world x); w_srv := s; w_now := w_now (x_world x);
               w_faults := w_faults (x_world x) |} x.
Definition set_cols (f : Cols -> Cols) (x : WWorld S) : WWorld S :=
  {| x_world := x_world x; x_cols := f (x_cols x); x_conns := x_conns x; x_closed := x_closed x;
     x_sched := x_sched x; x_trace := x_trace x; x_notified := x_notified x |}.
Definition set_conns (f : gmap Z accountConn -> gmap Z accountConn) (x : WWorld S) : WWorld S :=
  {| x_world := x_world x; x_cols := x_cols x; x_conns := f (x_conns x); x_closed := x_closed x;
     x_sched := x_sched x; x_trace := x_trace x; x_notified := x_notified x |}.
Definition add_event (ev : event S) (x : WWorld S) : WWorld S :=
  {| x_world := x_world x; x_cols := x_cols x; x_conns := x_conns x; x_closed := x_closed x;
     x_sched := x_sched x; x_trace := x_trace x ++ [ev]; x_notified := x_notified x |}.

Definition emit (ev : event S) : WM unit := modify (add_event ev).

(** [Broker.Notify]. *)
Definition Notify (a : Z) : WM unit := modify (fun x =>
  {| x_world := x_world x; x_cols := x_cols x; x_conns := x_conns x; x_closed := x_closed x;
     x_sched := x_sched x; x_trace := x_trace x; x_notified := x_notified x ++ [a] |}).

(** An exhausted schedule is a quiet world. *)
Definition still : turn S := {| t_other := fun w c => (w, c); t_out := Served |}.

Definition tick : WM outcome := fun x =>
  let t := default still (head (x_sched x)) in
  let '(w, c) := t_other t (x_world x) (x_cols x) in
  ({| x_world := w; x_cols := c; x_conns := x_conns x; x_closed := x_closed x;
      x_sched := tail (x_sched x); x_trace := x_trace x; x_notified := x_notified x |},
   inr (t_out t)).

(** A statement of the store. *)
Definition in_store {A} (m : M (World S) err A) : WM A := fun x =>
  let '(w, r) := m (x_world x) in
  (set_world w x, match r with inl e => inl (EStore e) | inr a => inr a end).
Definition stmt {A} (m : M (World S) err A) : WM A := tick ;; in_store m.

(** [if err := f(); err != nil { ... }] without leaving the function. *)
Definition tryW {A} (m : WM A) : WM (werr + A) := fun x => let '(x', r) := m x in (x', inr r).

(** ** Commands on an account's connection *)

Definition no_selection : SelectResult :=
  {| sel_UIDValidity := 0; sel_HighestModSeq := 0; sel_UIDNext := 0; sel_NumMessages := 0;
     sel_VanishedUIDs := [] |}.
Definition no_conn : accountConn :=
  {| ac_client := None; ac_selectedName := ""; ac_selectedResult := no_selection |}.

Definition slot (x : WWorld S) (a : Z) : accountConn := default no_conn (x_conns x !! a).
Definition set_slot (a : Z) (f : accountConn -> accountConn) (x : WWorld S) : WWorld S :=
  set_conns <[a := f (slot x a)]> x.

Definition with_client (f : client -> client) (ac : accountConn) : accountConn :=
  {| ac_client := f <$> ac_client ac; ac_selectedName := ac_selectedName ac;
     ac_selectedResult := ac_selectedResult ac |}.

Definition kill (c : client) : client :=
  {| cl_caps := cl_caps c; cl_selected := cl_selected c; cl_closed := cl_closed c;
     cl_alive := false; cl_session := None |}.
Definition in_session (se : option (string * Z)) (c : client) : client :=
  {| cl_caps := cl_caps c; cl_selected := cl_selected c; cl_closed := cl_closed c;
     cl_alive := cl_alive c; cl_session := se |}.
Definition selecting (n : string) (c : client) : client :=
  {| cl_caps := cl_caps c; cl_selected := n; cl_closed := cl_closed c;
     cl_alive := cl_alive c; cl_session := cl_session c |}.

(** [client.conn]. *)
Definition conn (a : Z) : WM client :=
  x ← get;
  match ac_client (slot x a) with
  | Some c => if cl_closed c then throw ErrNotConnected else mret c
  | None => throw ErrNotConnected
  end.

(** [client.selectedMailbox]. *)
Definition selectedMailbox (a : Z) : WM string :=
  c ← conn a;
  if bool_decide (cl_selected c = "") then throw ErrNoMailboxSelected else mret (cl_selected c).

(** [client.requireCap]. *)
Definition caps_of (x : WWorld S) (a : Z) : gset string :=
  match ac_client (slot x a) with Some c => cl_caps c | None => ∅ end.

(** A command: what the server does with it, and the events that records. *)
Definition wire {A} (a : Z) (act : client -> S -> no_response + (S * A))
    (evs : client -> S -> A -> list (event S)) : WM A :=
  c ← conn a;
  o ← tick;
  let run : WM A := x ← get;
    match act c (w_srv (x_world x)) with
    | inl r => throw (EServer r)
    | inr (s', v) =>
        modify (set_srv s') ;; forM_ (evs c (w_srv (x_world x)) v) emit ;; mret v
    end in
  match o with
  | Canceled => throw ECanceled
  | Refused r => if cl_alive c then throw (EServer r) else throw ESocket
  | Broken => modify (set_slot a (with_client kill)) ;; throw ESocket
  | Lost =>
      if cl_alive c then
        tryW run ;; modify (set_slot a (with_client kill)) ;; throw ESocket
      else throw ESocket
  | Served => if cl_alive c then run else throw ESocket
  end.
End primitives.

Section sessions.
Context {S : Type} `{ImapServer S} `{!ImapWriter S}.

Definition bad_state : no_response := {| no_code := ""; no_text := "No mailbox selected" |}.
Definition gone_response : no_response := {| no_code := ""; no_text := "Mailbox was deleted under us" |}.

(** UIDs of a session name messages of the mailbox it selected and of no other: when the
    name now belongs to another mailbox or to none, the command is refused. *)
Definition on_session {A} (f : string -> Z -> S -> no_response + (S * A)) (c : client) (s : S)
    : no_response + (S * A) :=
  match cl_session c with
  | None => inl bad_state
  | Some (n, v) =>
      match srv_select s n 0 0 with
      | Some sel => if sel_UIDValidity sel =? v then f n v s else inl gone_response
      | None => inl gone_response
      end
  end.

Definition session_event {A} (a : Z) (f : string -> Z -> mutation) (c : client) (s : S) (_ : A)
    : list (event S) :=
  match cl_session c with Some (n, v) => [Executed a (f n v) s] | None => [] end.
End sessions.
