(* ===== verification/ImapClient.v ===== *)
(** The IMAP client of src/internal/imap as the write path uses it: store.go, move.go,
    append.go, folder.go, the conversions of convert.go and the selection of mailbox.go
    and conn.go, over a server that is a parameter ([WriteWorld.ImapWriter]).

    The go-imap library carries a command and its responses; a command is one turn of the
    world. Response sets are expanded by the library, so a UID set is its list. *)

From S2P Require Import Prelude Text GoStrings Store Imap WriteWorld.
From Stdlib Require Import Ascii.
From stdpp Require Import sorting.
#[local] Open Scope Z_scope.

(** ** convert.go *)

(** [normalizeCap] and [Capabilities.Has]. *)
Definition normalizeCap (name : string) : string := lower_ascii (TrimSpace name).
Definition HasCap (c : gset string) (name : string) : bool := bool_decide (normalizeCap name ∈ c).

Definition CapCondStore : string := "condstore".
Definition CapUIDPlus : string := "uidplus".
Definition CapMove : string := "move".

Definition systemFlags : list (string * string) :=
  [("seen", "\Seen"); ("answered", "\Answered"); ("flagged", "\Flagged");
   ("deleted", "\Deleted"); ("draft", "\Draft")].
Definition system_flag (name : string) : option string :=
  snd <$> List.find (fun kv => String.eqb (fst kv) name) systemFlags.

Definition flagToGoIMAP (name : string) : string :=
  default name (system_flag (lower_ascii name)).
Definition flagsToGoIMAP (names : list string) : list string := flagToGoIMAP <$> names.

(** [splitFlags]: the system flags without their backslash, the rest as keywords. *)
Fixpoint splitFlags (flags : list string) : list string * list string :=
  match flags with
  | [] => ([], [])
  | s :: flags =>
      let '(system, keywords) := splitFlags flags in
      if negb (HasPrefix s "\") then (system, s :: keywords)
      else
        let lower := lower_ascii (TrimPrefix s "\") in
        if String.eqb lower "recent" then (system, keywords)
        else match system_flag lower with
             | Some _ => (lower :: system, keywords)
             | None => (system, s :: keywords)
             end
  end.

(** [uidsFromUIDSet]: the numbers up to [limit], and whether that was all. *)
Definition uidsFromUIDSet (set : numset) (limit : nat) : list Z * bool :=
  match set with
  | Nums l => if (limit <? List.length l)%nat then (take limit l, true) else (l, false)
  | Dynamic | NotUIDSet => ([], true)
  end.

(** [pairCopyUIDs]: the two halves of a COPYUID, paired by position; nothing (a nil map)
    when they do not fit. *)
Definition pairCopyUIDs (source dest : numset) (expected : nat) : gmap Z Z :=
  match source, dest with
  | NotUIDSet, _ | _, NotUIDSet => ∅
  | _, _ =>
      let '(src, tr1) := uidsFromUIDSet source expected in
      let '(dst, tr2) := uidsFromUIDSet dest expected in
      if tr1 || tr2 then ∅
      else if (List.length src =? 0)%nat || negb (List.length src =? List.length dst)%nat then ∅
      else foldl (fun out sd => <[sd.1 := sd.2]> out) ∅ (zip src dst)
  end.

(** ** Responses *)

Definition error_text (r : no_response) : string :=
  "imap: NO" +:+ (if String.eqb (no_code r) "" then "" else " [" +:+ no_code r +:+ "]") +:+ " " +:+
  (if String.eqb (no_text r) "" then "<unknown>" else no_text r).

(** [isStaleIndexError], [mailboxExistsError], [mailboxMissingError]. *)
Definition isStaleIndexError (r : no_response) : bool :=
  let msg := lower_ascii (error_text r) in
  Contains msg "deleted under us" ||
  (Contains msg "serverbug" &&
   (Contains msg "indexid changed" || Contains msg "corrupted transaction log" ||
    Contains msg "internal error occurred")).
Definition mailboxExistsError (r : no_response) : bool :=
  String.eqb (lower_ascii (no_code r)) "alreadyexists" ||
  (let msg := lower_ascii (error_text r) in
   Contains msg "alreadyexists" || Contains msg "already exists" || Contains msg "mailbox exists").
Definition mailboxMissingError (r : no_response) : bool :=
  String.eqb (lower_ascii (no_code r)) "nonexistent" ||
  (let msg := lower_ascii (error_text r) in
   Contains msg "nonexistent" || Contains msg "doesn't exist" || Contains msg "does not exist" ||
   Contains msg "no such mailbox").

(** ** Results *)

Record StoreResult := mkStoreResult {
  sr_Updated : list Z;
  sr_Rejected : list Z;
  sr_HighestModSeq : Z;
  sr_VerifiedByReadBack : bool
}.
Definition zero_store : StoreResult :=
  {| sr_Updated := []; sr_Rejected := []; sr_HighestModSeq := 0; sr_VerifiedByReadBack := false |}.
Definition Conflicted (r : StoreResult) : bool := negb (bool_decide (sr_Rejected r = [])).

Record MoveResult := mkMove { mv_DestUIDValidity : Z; mv_DestUIDs : gmap Z Z }.

Record AppendResult := mkAppend { ap_UID : Z; ap_UIDValidity : Z }.

(** What a FETCH asks for beside UID and MODSEQ. *)
Record FetchSpec := mkSpec { spec_Flags : bool; spec_InternalDate : bool; spec_Body : bool }.

(** What [messageIter.Next] fills in: an item that was not asked for does not arrive. *)
Definition project (spec : FetchSpec) (f : Fetched) : Fetched :=
  {| f_UID := f_UID f; f_ModSeq := f_ModSeq f;
     f_Flags := if spec_Flags spec then f_Flags f else [];
     f_Keywords := if spec_Flags spec then f_Keywords f else [];
     f_InternalDate := if spec_InternalDate spec then f_InternalDate f else 0;
     f_Body := if spec_Body spec then f_Body f else None |}.

Definition storeBatchSize : nat := 512.
Definition MaxMailboxNameBytes : nat := 512.

(** [equalFoldASCII] compares byte by byte after lowering the ASCII letters. *)
Fixpoint equalFoldASCII (a b : string) : bool :=
  match a, b with
  | EmptyString, EmptyString => true
  | String x a, String y b => Ascii.eqb (lower_byte x) (lower_byte y) && equalFoldASCII a b
  | _, _ => false
  end.
Definition isInboxName (name : string) : bool := equalFoldASCII name "INBOX".

Definition unencodable (c : ascii) : bool := is_byte c 13 || is_byte c 10 || is_byte c 0.
Definition validateMailboxName (name : string) : bool :=
  negb (String.eqb name "") && negb (String.eqb (TrimSpace name) "") &&
  negb (ContainsAny unencodable name) && (String.length name <=? MaxMailboxNameBytes)%nat.

Section commands.
Context {S : Type} `{ImapServer S} `{!ImapWriter S}.
Abbreviation WM := (M (WWorld S) werr).

Definition requireCap (a : Z) (name : string) : WM unit :=
  x ← get; if HasCap (caps_of x a) name then mret tt else throw ErrMissingCapability.

(** A command that changes nothing. *)
Definition reading {A} (f : string -> Z -> S -> A) : client -> S -> no_response + (S * A) :=
  on_session (fun n v s => inr (s, f n v s)).
Definition no_events {A} : client -> S -> A -> list (event S) := fun _ _ _ => [].

(** ** SELECT *)

Definition no_such_mailbox : no_response :=
  {| no_code := "NONEXISTENT"; no_text := "Mailbox doesn't exist" |}.

Definition select_act (n : string) (_ : client) (s : S) : no_response + (S * SelectResult) :=
  match srv_select s n 0 0 with
  | Some sel => inr (s, sel)
  | None => inl no_such_mailbox
  end.

(** [SelectQResync] of a caller with no state to resume from. A SELECT that fails leaves
    the session without a mailbox (RFC 3501 6.3.1); the client's memory is not touched. *)
Definition SelectQResync (a : Z) (mailbox : string) : WM SelectResult :=
  r ← tryW (wire a (select_act mailbox)
              (fun _ _ sel => [Selected a mailbox (sel_UIDValidity sel)]));
  match r with
  | inr sel =>
      modify (set_slot a (with_client (fun c =>
        selecting mailbox (in_session (Some (mailbox, sel_UIDValidity sel)) c)))) ;;
      mret sel
  | inl (EServer no) =>
      modify (set_slot a (with_client (in_session None))) ;;
      if isStaleIndexError no then throw ErrMailboxStale else throw (EServer no)
  | inl e => throw e
  end.

(** ** FETCH *)

Definition seen_events (a : Z) (c : client) (_ : S) (l : list Fetched) : list (event S) :=
  match cl_session c with Some (n, v) => Saw a n v <$> l | None => [] end.

Definition FetchMessages (a : Z) (uids : list Z) (spec : FetchSpec) : WM (list Fetched) :=
  selectedMailbox a ;;
  if bool_decide (uids = []) then mret []
  else wire a (reading (fun n _ s => project spec <$> srv_fetch s n uids)) (seen_events a).

(** ** STORE *)

(** [verifyByReadBack]: which of the unconfirmed messages changed after [since]. *)
Definition verifyByReadBack (a : Z) (uids : list Z) (since : Z) : WM (list Z) :=
  states ← wire a (reading (fun n _ s =>
                     (fun f => (f_UID f, f_ModSeq f)) <$> srv_fetch s n uids)) no_events;
  mret (merge_sort Z.le ((filter (fun um => since < um.2 /\ um.1 <> 0) states).*1)).

Definition storeBatch (a : Z) (batch : list Z) (op : FlagOp) (flags : list string) (since : Z)
    : WM StoreResult :=
  d ← wire a (on_session (fun n _ s => srv_store s n batch op flags since))
             (session_event a (fun n v => MStore n v batch op flags since));
  let msgs := filter (fun f => f_UID f <> 0) (sd_echo d) in
  let updated := f_UID <$> msgs in
  let out rejected verified :=
    {| sr_Updated := filter (fun u => u ∈ updated) batch; sr_Rejected := rejected;
       sr_HighestModSeq := foldr Z.max 0 (f_ModSeq <$> msgs);
       sr_VerifiedByReadBack := verified |} in
  if since =? 0 then mret (out [] false)
  else
    let fallback :=
      let missing := filter (fun u => u ∉ updated) batch in
      if bool_decide (missing = []) then mret (out [] false)
      else rejected ← verifyByReadBack a missing since; mret (out rejected true) in
    match sd_modified d with
    | NotUIDSet => fallback
    | m =>
        let '(rejected, truncated) := uidsFromUIDSet m (List.length batch) in
        if truncated then fallback else mret (out rejected false)
    end.

Fixpoint store_batches (a : Z) (batches : list (list Z)) (op : FlagOp) (flags : list string)
    (since : Z) (out : StoreResult) : WM StoreResult :=
  match batches with
  | [] => mret out
  | b :: batches =>
      res ← storeBatch a b op flags since;
      store_batches a batches op flags since
        {| sr_Updated := sr_Updated out ++ sr_Updated res;
           sr_Rejected := sr_Rejected out ++ sr_Rejected res;
           sr_HighestModSeq := Z.max (sr_HighestModSeq out) (sr_HighestModSeq res);
           sr_VerifiedByReadBack := sr_VerifiedByReadBack out || sr_VerifiedByReadBack res |}
  end.

(** Slices of [n]; the length of the list is enough fuel, each slice being non-empty. *)
Fixpoint slices (fuel n : nat) (l : list Z) : list (list Z) :=
  match fuel, l with
  | Datatypes.S fuel, _ :: _ => take n l :: slices fuel n (drop n l)
  | _, _ => []
  end.

Definition StoreFlags (a : Z) (uids : list Z) (op : FlagOp) (flags : list string)
    (unchangedSince : Z) : WM StoreResult :=
  if bool_decide (uids = []) then mret zero_store
  else
    (if unchangedSince =? 0 then mret tt else requireCap a CapCondStore) ;;
    selectedMailbox a ;;
    store_batches a (slices (List.length uids) storeBatchSize uids) op (flagsToGoIMAP flags)
      unchangedSince zero_store.

(** ** MOVE and UID EXPUNGE *)

Definition Move (a : Z) (uids : list Z) (dest : string) : WM MoveResult :=
  let nothing := {| mv_DestUIDValidity := 0; mv_DestUIDs := ∅ |} in
  if bool_decide (uids = []) then mret nothing
  else if String.eqb dest "" then throw EArgument
  else
    x ← get;
    (if HasCap (caps_of x a) CapMove then mret tt else requireCap a CapUIDPlus) ;;
    selectedMailbox a ;;
    d ← wire a (on_session (fun n _ s => srv_move s n uids dest))
               (session_event a (fun n v => MMove n v uids dest));
    match d with
    | None => mret nothing
    | Some cd =>
        mret {| mv_DestUIDValidity := cd_UIDValidity cd;
                mv_DestUIDs := pairCopyUIDs (cd_SourceUIDs cd) (cd_DestUIDs cd) (List.length uids) |}
    end.

Definition Expunge (a : Z) (uids : list Z) : WM unit :=
  if bool_decide (uids = []) then mret tt
  else
    requireCap a CapUIDPlus ;;
    selectedMailbox a ;;
    wire a (on_session (fun n _ s => srv_store s n uids FlagsAdd ["\Deleted"] 0))
           (session_event a (fun n v => MStore n v uids FlagsAdd ["\Deleted"] 0)) ;;
    wire a (on_session (fun n _ s => srv_expunge s n uids))
           (session_event a (fun n v => MExpunge n v uids)).

(** ** APPEND *)

Definition plain_event {A} (a : Z) (m : mutation) (_ : client) (s : S) (_ : A) : list (event S) :=
  [Executed a m s].

Definition Append (a : Z) (mailbox raw : string) (flags : list string) (internalDate : Time)
    : WM AppendResult :=
  if String.eqb mailbox "" || String.eqb raw "" then throw EArgument
  else
    d ← wire a (fun _ s => srv_append s mailbox raw (flagsToGoIMAP flags) internalDate)
               (plain_event a (MAppend mailbox raw (flagsToGoIMAP flags) internalDate));
    match d with
    | Some (u, v) => mret {| ap_UID := u; ap_UIDValidity := v |}
    | None => mret {| ap_UID := 0; ap_UIDValidity := 0 |}
    end.

(** ** Folders *)

Definition CreateMailbox (a : Z) (name : string) : WM unit :=
  if negb (validateMailboxName name) then throw ErrInvalidMailboxName
  else
    r ← tryW (wire a (fun _ s => srv_create s name) (plain_event a (MCreate name)));
    match r with
    | inr _ => mret tt
    | inl (EServer no) =>
        if mailboxExistsError no then throw ErrMailboxExists else throw (EServer no)
    | inl e => throw e
    end.

Definition forget_renamed (from : string) (c : client) : client :=
  if String.eqb (cl_selected c) from || HasPrefix (cl_selected c) (from +:+ "/")
  then selecting "" c else c.

Definition RenameMailbox (a : Z) (from to : string) : WM unit :=
  if negb (validateMailboxName to) then throw ErrInvalidMailboxName
  else if String.eqb from "" then throw EArgument
  else if isInboxName from then throw ErrRenameInbox
  else if String.eqb from to then mret tt
  else
    r ← tryW (wire a (fun _ s => srv_rename s from to) (plain_event a (MRename from to)));
    match r with
    | inr _ => modify (set_slot a (with_client (forget_renamed from)))
    | inl (EServer no) =>
        if mailboxExistsError no then throw ErrMailboxExists
        else if mailboxMissingError no then throw ErrMailboxMissing
        else throw (EServer no)
    | inl e => throw e
    end.

(** UNSELECT, whose failure is ignored. *)
Definition unselect (a : Z) : WM unit :=
  r ← tryW (wire a (fun _ s => inr (s, tt)) no_events);
  match r with
  | inr _ => modify (set_slot a (with_client (in_session None)))
  | inl _ => mret tt
  end ;;
  modify (set_slot a (with_client (selecting ""))).

Definition DeleteMailbox (a : Z) (name : string) : WM unit :=
  if String.eqb name "" then throw EArgument
  else if isInboxName name then throw ErrDeleteInbox
  else
    c ← conn a;
    (if String.eqb (cl_selected c) "" then mret tt else unselect a) ;;
    r ← tryW (wire a (fun _ s => srv_delete s name) (plain_event a (MDelete name)));
    match r with
    | inr _ => mret tt
    | inl (EServer no) =>
        if mailboxMissingError no then throw ErrMailboxMissing else throw (EServer no)
    | inl e => throw e
    end.

Definition SetSubscribed (a : Z) (name : string) (subscribed : bool) : WM unit :=
  if String.eqb name "" then throw EArgument
  else wire a (fun _ s => srv_subscribe s name subscribed) (plain_event a (MSubscribe name subscribed)).

Definition StatusMailbox (a : Z) (name : string) : WM MailboxInfo :=
  if String.eqb name "" then throw EArgument
  else wire a (fun _ s => match srv_status s name with
                          | Some i => inr (s, i)
                          | None => inl no_such_mailbox
                          end) no_events.
End commands.
