(* ===== verification/WriteLaws.v ===== *)
(** What the server guarantees of the commands that change it ([ImapWriterLaws]: RFC 3501
    6.3.5, 6.3.11 and 6.4.6, RFC 4315, RFC 6851, RFC 7162 3.1.3), and the in-memory server of
    [Imap] as an instance of the commands and of the guarantees. *)

From S2P Require Import Prelude Text GoStrings Store Imap WriteWorld ImapClient.
From Stdlib Require Import Ascii.
From stdpp Require Import sorting.
#[local] Open Scope Z_scope.

(** ** Flags of a message *)

(** The flags of a message on the wire; names are compared without regard to case. *)
Definition wire_flags (m : SrvMsg) : list string :=
  (String.append "\" <$> sm_Flags m) ++ sm_Keywords m.
Definition named (l : list string) (f : string) : Prop :=
  exists g, g ∈ l /\ lower_ascii g = lower_ascii f.
Definition has_flag (m : SrvMsg) (f : string) : Prop := named (wire_flags m) f.

#[global] Instance named_dec l f : Decision (named l f).
Proof.
  refine (cast_if (decide (Exists (fun g => lower_ascii g = lower_ascii f) l)));
    by rewrite Exists_exists in *.
Defined.
#[global] Instance has_flag_dec m f : Decision (has_flag m f).
Proof. unfold has_flag. apply _. Defined.

(** \Recent is the server's own. *)
Definition settable (f : string) : Prop := lower_ascii f <> "\recent".

(** The flags a STORE leaves. *)
Definition flags_after (op : FlagOp) (l : list string) (m m' : SrvMsg) : Prop :=
  sm_InternalDate m' = sm_InternalDate m /\ sm_Body m' = sm_Body m /\
  forall f, settable f ->
    (has_flag m' f <-> match op with
                       | FlagsAdd => has_flag m f \/ named l f
                       | FlagsRemove => has_flag m f /\ ~ named l f
                       | FlagsSet => named l f
                       end).

(** A conditional STORE leaves a message alone that changed after [since]. *)
Definition refused (since : Z) (m : SrvMsg) : Prop := since <> 0 /\ since < sm_ModSeq m.
#[global] Instance refused_dec since m : Decision (refused since m).
Proof. unfold refused. apply _. Defined.

(** A mailbox takes its inferior names along (RFC 3501 6.3.5). *)
Definition renamed (from to n : string) : string :=
  if String.eqb n from then to
  else match CutPrefix n (from +:+ "/") with Some r => to +:+ "/" +:+ r | None => n end.

Section laws.
Context {S : Type} `{ImapServer S} `{!ImapLaws S} `{!ImapWriter S}.

(** Everything but mailbox [n] is as it was. *)
Definition elsewhere (P : string -> Prop) (s s' : S) : Prop :=
  forall n, P n -> srv_view s' n = srv_view s n /\ srv_validity s' n = srv_validity s n /\
    srv_uidnext s' n = srv_uidnext s n /\ srv_highest s' n = srv_highest s n.

Record store_effect (n : string) (uids : list Z) (op : FlagOp) (l : list string) (since : Z)
    (s s' : S) (d : StoreData) : Prop := {
  se_elsewhere : elsewhere (fun n' => n' <> n) s s';
  se_validity : srv_validity s' n = srv_validity s n;
  se_uidnext : srv_uidnext s' n = srv_uidnext s n;
  se_highest : srv_highest s n <= srv_highest s' n;
  se_other u : u ∉ uids -> srv_view s' n !! u = srv_view s n !! u;
  se_none u : srv_view s n !! u = None -> srv_view s' n !! u = None;
  se_refused u m : srv_view s n !! u = Some m -> refused since m -> srv_view s' n !! u = Some m;
  se_applied u m : u ∈ uids -> srv_view s n !! u = Some m -> ~ refused since m ->
    exists m', srv_view s' n !! u = Some m' /\ flags_after op l m m' /\
      (m' = m \/ srv_highest s n < sm_ModSeq m');
  se_echo f m : f ∈ sd_echo d -> srv_view s n !! f_UID f = Some m -> ~ refused since m;
  se_modified : match sd_modified d with
    | Nums r => forall u, u ∈ r <-> u ∈ uids /\ exists m, srv_view s n !! u = Some m /\ refused since m
    | _ => True
    end
}.

(** One message moved: it is gone from its mailbox and under a new UID in the other; the
    COPYUID, if one came, names that UID. *)
Record move_effect (n : string) (u : Z) (dest : string) (s s' : S) (cd : option CopyData) : Prop := {
  me_elsewhere : elsewhere (fun n' => n' <> n /\ n' <> dest) s s';
  me_validity n' : srv_validity s' n' = srv_validity s n';
  me_gone : n <> dest -> srv_view s' n = delete u (srv_view s n);
  me_missing : srv_view s n !! u = None -> cd = None;
  me_arrived m : srv_view s n !! u = Some m -> n <> dest ->
    exists u' m', srv_uidnext s dest <= u' /\
      srv_view s' dest = <[u' := m']> (srv_view s dest) /\
      wire_flags m' = wire_flags m /\ sm_Body m' = sm_Body m /\
      sm_InternalDate m' = sm_InternalDate m /\
      match cd with
      | Some c => cd_SourceUIDs c = Nums [u] /\ cd_DestUIDs c = Nums [u'] /\
          cd_UIDValidity c = srv_validity s dest
      | None => True
      end
}.

Class ImapWriterLaws : Prop := {
  wl_store s n uids op l since s' d : NoDup uids ->
    srv_store s n uids op l since = inr (s', d) -> store_effect n uids op l since s s' d;
  wl_move s n u dest s' cd :
    srv_move s n [u] dest = inr (s', cd) -> move_effect n u dest s s' cd;
  wl_rename s n to s' :
    srv_rename s n to = inr (s', tt) ->
    (mi_Name <$> srv_list s') ≡ₚ (renamed n to <$> (mi_Name <$> srv_list s))
}.
End laws.
Arguments ImapWriterLaws S {_ _ _}.

(** ** The in-memory server *)

Definition mem_put (n : string) (m : MemMailbox) (s : MemServer) : option MemServer :=
  match decide (bool_decide (mem_wf m)) with
  | left Hm => Some (<[n := m ↾ Hm]> s)
  | right _ => None
  end.

Definition cannot : no_response := {| no_code := "CANNOT"; no_text := "Internal limit" |}.
Definition or_no {A} (r : no_response) (o : option A) : no_response + A :=
  match o with Some v => inr v | None => inl r end.

(** The flags after a command, in wire form, split as a FETCH reports them. *)
Definition new_wire (op : FlagOp) (l : list string) (m : SrvMsg) : list string :=
  match op with
  | FlagsAdd => wire_flags m ++ filter (fun f => ~ has_flag m f) l
  | FlagsRemove => filter (fun f => ~ named l f) (wire_flags m)
  | FlagsSet => l
  end.
Definition mem_flag (op : FlagOp) (l : list string) (since h : Z) (m : SrvMsg) : SrvMsg :=
  if decide (refused since m) then m
  else
    let '(sys, kw) := splitFlags (new_wire op l m) in
    {| sm_ModSeq := h; sm_Flags := sys; sm_Keywords := kw; sm_InternalDate := sm_InternalDate m;
       sm_Body := sm_Body m |}.

Definition with_msgs (h next : Z) (msgs : gmap Z SrvMsg) (exp : list (Z * Z)) (m : MemMailbox) : MemMailbox :=
  {| mem_UIDValidity := mem_UIDValidity m; mem_UIDNext := next; mem_HighestModSeq := h;
     mem_Role := mem_Role m; mem_msgs := msgs; mem_expunged := exp |}.

Definition mem_store_box (uids : list Z) (op : FlagOp) (l : list string) (since : Z) (m : MemMailbox)
    : MemMailbox :=
  let h := mem_HighestModSeq m + 1 in
  with_msgs h (mem_UIDNext m)
    (foldr (fun u => alter (mem_flag op l since h) u) (mem_msgs m) uids) (mem_expunged m) m.

Definition mem_refused (since : Z) (m : MemMailbox) (u : Z) : bool :=
  match mem_msgs m !! u with Some msg => bool_decide (refused since msg) | None => false end.

Definition mem_store (s : MemServer) (n : string) (uids : list Z) (op : FlagOp) (l : list string)
    (since : Z) : no_response + (MemServer * StoreData) :=
  match mem_lookup s n with
  | None => inl no_such_mailbox
  | Some m =>
      let m' := mem_store_box uids op l since m in
      let bad := filter (fun u => mem_refused since m u = true) uids in
      match mem_put n m' s with
      | None => inl cannot
      | Some s' =>
          inr (s', {| sd_echo := omap (fun u => if decide (u ∈ bad) then None
                                                else fetched_of u <$> mem_msgs m' !! u) uids;
                      sd_modified := if decide (bad = []) then NotUIDSet else Nums bad |})
      end
  end.

(** Take a message out, put one in. *)
Definition mem_remove (u : Z) (m : MemMailbox) : MemMailbox :=
  let h := mem_HighestModSeq m + 1 in
  with_msgs h (mem_UIDNext m) (delete u (mem_msgs m)) (mem_expunged m ++ [(u, h)]) m.
Definition mem_deliver (msg : SrvMsg) (m : MemMailbox) : MemMailbox :=
  let h := mem_HighestModSeq m + 1 in
  with_msgs h (mem_UIDNext m + 1)
    (<[mem_UIDNext m := {| sm_ModSeq := h; sm_Flags := sm_Flags msg; sm_Keywords := sm_Keywords msg;
                           sm_InternalDate := sm_InternalDate msg; sm_Body := sm_Body msg |}]> (mem_msgs m))
    (mem_expunged m) m.

Definition mem_move1 (s : MemServer) (n : string) (u : Z) (dest : string) : option (MemServer * option CopyData) :=
  m ← mem_lookup s n;
  match mem_msgs m !! u with
  | None => Some (s, None)
  | Some msg =>
      s1 ← mem_put n (mem_remove u m) s;
      md ← mem_lookup s1 dest;
      s2 ← mem_put dest (mem_deliver msg md) s1;
      Some (s2, Some {| cd_UIDValidity := mem_UIDValidity md; cd_SourceUIDs := Nums [u];
                        cd_DestUIDs := Nums [mem_UIDNext md] |})
  end.

(** The COPYUID of several messages. *)
Definition add_copy (c c' : option CopyData) : option CopyData :=
  match c, c' with
  | Some c, Some c' =>
      match cd_SourceUIDs c, cd_DestUIDs c, cd_SourceUIDs c', cd_DestUIDs c' with
      | Nums a, Nums b, Nums a', Nums b' =>
          Some {| cd_UIDValidity := cd_UIDValidity c; cd_SourceUIDs := Nums (a ++ a');
                  cd_DestUIDs := Nums (b ++ b') |}
      | _, _, _, _ => None
      end
  | Some c, None => Some c
  | None, c' => c'
  end.
Fixpoint mem_moves (s : MemServer) (n : string) (uids : list Z) (dest : string)
    : option (MemServer * option CopyData) :=
  match uids with
  | [] => Some (s, None)
  | u :: uids =>
      '(s, c) ← mem_move1 s n u dest;
      '(s, c') ← mem_moves s n uids dest;
      Some (s, add_copy c c')
  end.

Definition mem_expunge_box (uids : list Z) (m : MemMailbox) : MemMailbox :=
  foldr (fun u m => match mem_msgs m !! u with
                    | Some msg => if decide (has_flag msg "\Deleted") then mem_remove u m else m
                    | None => m
                    end) m uids.

Definition new_message (raw : string) (flags : list string) (date : Time) : SrvMsg :=
  let '(sys, kw) := splitFlags flags in
  {| sm_ModSeq := 0; sm_Flags := sys; sm_Keywords := kw; sm_InternalDate := date; sm_Body := raw |}.

Definition new_mailbox (s : MemServer) : MemMailbox :=
  {| mem_UIDValidity := 1 + foldr Z.max 0 ((fun nm => mem_UIDValidity (proj1_sig nm.2)) <$> map_to_list s);
     mem_UIDNext := 1; mem_HighestModSeq := 1; mem_Role := RoleNone; mem_msgs := ∅; mem_expunged := [] |}.

Definition name_exists : no_response :=
  {| no_code := "ALREADYEXISTS"; no_text := "Mailbox already exists" |}.

#[global] Instance MemServer_writer : ImapWriter MemServer := {
  srv_caps _ := {[ CapCondStore; CapUIDPlus; CapMove ]};
  srv_store := mem_store;
  srv_move s n uids dest := or_no no_such_mailbox (mem_moves s n uids dest);
  srv_expunge s n uids :=
    or_no cannot (m ← mem_lookup s n; s' ← mem_put n (mem_expunge_box uids m) s; Some (s', tt));
  srv_append s n raw flags date :=
    or_no no_such_mailbox
      (m ← mem_lookup s n; s' ← mem_put n (mem_deliver (new_message raw flags date) m) s;
       Some (s', Some (mem_UIDNext m, mem_UIDValidity m)));
  srv_create s n :=
    match mem_lookup s n with
    | Some _ => inl name_exists
    | None => or_no cannot (s' ← mem_put n (new_mailbox s) s; Some (s', tt))
    end;
  srv_rename s n to :=
    match mem_lookup s n, mem_lookup s to with
    | None, _ => inl no_such_mailbox
    | _, Some _ => inl name_exists
    | Some _, None =>
        if decide (NoDup (renamed n to <$> (map_to_list s).*1))
        then inr (list_to_map (prod_map (renamed n to) id <$> map_to_list s), tt)
        else inl name_exists
    end;
  srv_delete s n :=
    match mem_lookup s n with None => inl no_such_mailbox | Some _ => inr (delete n s, tt) end;
  srv_subscribe s _ _ := inr (s, tt)
}.

(** *** Its flags *)

Lemma named_app l l' f : named (l ++ l') f <-> named l f \/ named l' f.
Proof. unfold named. setoid_rewrite elem_of_app. naive_solver. Qed.
Lemma named_cons g l f : named (g :: l) f <-> lower_ascii g = lower_ascii f \/ named l f.
Proof. unfold named. setoid_rewrite elem_of_cons. naive_solver. Qed.

Lemma lower_byte_idem c : lower_byte (lower_byte c) = lower_byte c.
Proof. destruct c as [[] [] [] [] [] [] [] []]; vm_compute; reflexivity. Qed.
Lemma lower_ascii_idem s : lower_ascii (lower_ascii s) = lower_ascii s.
Proof. induction s as [|c s IH]; [done|]. simpl. by rewrite lower_byte_idem, IH. Qed.

Lemma backslash_cut s : HasPrefix s "\" = true -> s = "\" +:+ TrimPrefix s "\".
Proof.
  destruct s as [|c s]; [done|]. unfold TrimPrefix. cbn [HasPrefix CutPrefix].
  destruct (Ascii.eqb_spec "\"%char c) as [<-|]; [|done]. intros _. by destruct s.
Qed.
Lemma lower_backslash s : lower_ascii ("\" +:+ s) = "\" +:+ lower_ascii s.
Proof. done. Qed.

Lemma split_named W f :
  settable f ->
  named ((String.append "\" <$> (splitFlags W).1) ++ (splitFlags W).2) f <-> named W f.
Proof.
  intros Hf. induction W as [|s W IH]; [done|]. cbn [splitFlags].
  destruct (splitFlags W) as [sys kw]. cbn [fst snd] in IH. rewrite named_cons, <- IH.
  destruct (HasPrefix s "\") eqn:Ep; cbn [negb fst snd].
  - apply backslash_cut in Ep. set (r := TrimPrefix s "\") in *.
    assert (lower_ascii s = "\" +:+ lower_ascii r) as Hs by (by rewrite Ep at 1).
    destruct (String.eqb_spec (lower_ascii r) "recent") as [Hr|_].
    + cbn [fst snd]. rewrite Hs, Hr. split; [by right|]. intros [Heq|?]; [|done]. by destruct Hf.
    + destruct (system_flag (lower_ascii r)); cbn [fst snd fmap list_fmap].
      * rewrite <- app_comm_cons, named_cons, lower_backslash, lower_ascii_idem, <- Hs. done.
      * rewrite !named_app, named_cons. naive_solver.
  - rewrite !named_app, named_cons. naive_solver.
Qed.

Lemma mem_flag_after op l since h m :
  ~ refused since m -> flags_after op l m (mem_flag op l since h m).
Proof.
  intros Hr. unfold mem_flag. rewrite decide_False by done.
  destruct (splitFlags (new_wire op l m)) as [sys kw] eqn:E.
  split; [done|]. split; [done|]. intros f Hf. unfold has_flag, wire_flags. cbn [sm_Flags sm_Keywords].
  pose proof (split_named (new_wire op l m) f Hf) as Hs. rewrite E in Hs. cbn [fst snd] in Hs.
  rewrite Hs. fold (wire_flags m). destruct op; cbn [new_wire].
  - rewrite named_app. split; [|].
    + intros [?|(g & [_ Hg]%list_elem_of_filter & Hl)]; [by left|]. right. by exists g.
    + intros [?|(g & Hg & Hl)]; [by left|]. destruct (decide (has_flag m g)) as [(g' & ? & ?)|Hno].
      * left. exists g'. split; [done|]. congruence.
      * right. exists g. split; [|done]. by apply list_elem_of_filter.
  - split.
    + intros (g & [Hno Hg]%list_elem_of_filter & Hl). split; [by exists g|].
      intros (g' & ? & ?). apply Hno. exists g'. split; [done|]. congruence.
    + intros [(g & Hg & Hl) Hno]. exists g. split; [|done]. apply list_elem_of_filter. split; [|done].
      intros (g' & ? & ?). apply Hno. exists g'. split; [done|]. congruence.
  - done.
Qed.

(** *** Its mailboxes *)

Lemma mem_put_lookup n m s s' :
  mem_put n m s = Some s' ->
  mem_lookup s' n = Some m /\ forall n', n' <> n -> mem_lookup s' n' = mem_lookup s n'.
Proof.
  unfold mem_put. destruct (decide _) as [Hm|]; [|done]. intros [= <-]. unfold mem_lookup, MemServer in *. split.
  - by rewrite lookup_insert_eq.
  - intros n' Hn. by rewrite lookup_insert_ne.
Qed.

Lemma mem_elsewhere (P : string -> Prop) s s' :
  (forall n, P n -> mem_lookup s' n = mem_lookup s n) -> elsewhere P s s'.
Proof. intros Hl n Hn. simpl. unfold mem_view, mem_get. by rewrite (Hl n Hn). Qed.

Lemma foldr_alter_lookup {A} (g : A -> A) (uids : list Z) (msgs : gmap Z A) u :
  NoDup uids ->
  foldr (fun u => alter g u) msgs uids !! u = if decide (u ∈ uids) then g <$> msgs !! u else msgs !! u.
Proof.
  induction 1 as [|v uids Hv Hnd IH]; simpl; [done|].
  destruct (decide (u = v)) as [->|Hne].
  - rewrite lookup_alter_eq, IH, decide_False, decide_True by set_solver. done.
  - rewrite lookup_alter_ne, IH by done. by destruct (decide (u ∈ uids)), (decide (u ∈ v :: uids)); set_solver.
Qed.

Lemma mem_store_effect (s : MemServer) n uids op l since s' d :
  NoDup uids -> mem_store s n uids op l since = inr (s', d) -> store_effect n uids op l since s s' d.
Proof.
  intros Hnd. unfold mem_store. destruct (mem_lookup s n) as [m|] eqn:Em; [|done].
  destruct (mem_put n _ s) as [s1|] eqn:Ep; [|done]. intros [= <- <-].
  apply mem_put_lookup in Ep as [Hn Helse].
  assert (forall u, mem_view s1 n !! u =
    if decide (u ∈ uids) then mem_flag op l since (mem_HighestModSeq m + 1) <$> mem_view s n !! u
    else mem_view s n !! u) as Hview.
  { intros u. unfold mem_view. rewrite Hn, Em. cbn [mem_store_box with_msgs mem_msgs].
    by apply foldr_alter_lookup. }
  split; cbn [srv_view srv_validity srv_uidnext srv_highest MemServer_laws sd_echo sd_modified].
  - apply mem_elsewhere. done.
  - unfold mem_get. by rewrite Hn, Em.
  - unfold mem_get. by rewrite Hn, Em.
  - unfold mem_get. rewrite Hn, Em. simpl. lia.
  - intros u Hu. rewrite Hview, decide_False by done. done.
  - intros u Hu. rewrite Hview, Hu. by destruct (decide (u ∈ uids)).
  - intros u msg Hu Hr. rewrite Hview, Hu. destruct (decide (u ∈ uids)); [|done].
    simpl. unfold mem_flag. by rewrite decide_True.
  - intros u msg Hin Hu Hr. rewrite Hview, Hu, decide_True by done. simpl. eexists. split; [done|].
    split; [by apply mem_flag_after|]. right. unfold mem_get, mem_flag. rewrite Em, decide_False by done.
    destruct (splitFlags _). simpl. lia.
  - intros f msg (u & Hu & Hf)%list_elem_of_omap Hm Hr. destruct (decide _) as [|Hbad]; [done|].
    apply fmap_Some in Hf as (mm & _ & ->). simpl in Hm.
    apply Hbad. apply list_elem_of_filter. split; [|done]. unfold mem_refused.
    unfold mem_view in Hm. rewrite Em in Hm. rewrite Hm. by apply bool_decide_eq_true.
  - destruct (decide _); [done|]. intros u. rewrite list_elem_of_filter. unfold mem_refused, mem_view.
    rewrite Em. destruct (mem_msgs m !! u) as [msg|]; [|naive_solver].
    rewrite bool_decide_eq_true. naive_solver.
Qed.

Lemma mem_move_effect (s : MemServer) n u dest s' cd :
  mem_moves s n [u] dest = Some (s', cd) -> move_effect n u dest s s' cd.
Proof.
  cbn [mem_moves]. intros ([s0 c] & Hmv & Heq)%bind_Some. simpl in Heq. simplify_eq.
  assert (add_copy c None = c) as -> by (by destruct c).
  unfold mem_move1 in Hmv. apply bind_Some in Hmv as (m & Em & Hmv).
  destruct (mem_msgs m !! u) as [msg|] eqn:Eu; cycle 1.
  { simplify_eq. split; cbn [srv_view srv_validity MemServer_laws]; try done.
    - unfold mem_view. rewrite Em. by rewrite delete_id.
    - unfold mem_view. rewrite Em. congruence. }
  apply bind_Some in Hmv as (s1 & Hp1 & Hmv). apply bind_Some in Hmv as (md & Emd & Hmv).
  apply bind_Some in Hmv as (s2 & Hp2 & Hmv). simplify_eq.
  apply mem_put_lookup in Hp1 as [Hn1 Helse1], Hp2 as [Hn2 Helse2].
  split; cbn [srv_view srv_validity srv_uidnext MemServer_laws].
  - apply mem_elsewhere. intros n' [??]. by rewrite Helse2, Helse1.
  - intros n'. unfold mem_get. destruct (decide (n' = dest)) as [->|Hd].
    + rewrite Hn2. destruct (decide (dest = n)) as [->|Hdn].
      * rewrite Hn1 in Emd. simplify_eq. by rewrite Em.
      * rewrite Helse1 in Emd by done. by rewrite Emd.
    + rewrite Helse2 by done. destruct (decide (n' = n)) as [->|Hdn]; [by rewrite Hn1, Em|].
      by rewrite Helse1.
  - intros Hd. unfold mem_view. by rewrite Helse2, Hn1, Em.
  - unfold mem_view. rewrite Em. congruence.
  - intros mm Hmm Hd. rewrite Helse1 in Emd by done.
    unfold mem_view in *. rewrite Em in Hmm. rewrite Eu in Hmm. simplify_eq. unfold mem_get. rewrite Hn2, Emd.
    eexists _, _. split; [reflexivity|]. split; [reflexivity|]. by repeat split.
Qed.

#[global] Instance MemServer_writer_laws : ImapWriterLaws MemServer.
Proof.
  split.
  - apply mem_store_effect.
  - intros s n u dest s' cd. cbn [srv_move MemServer_writer]. unfold or_no.
    destruct (mem_moves s n [u] dest) as [[s1 c]|] eqn:E; [|done]. intros [= <- <-].
    by apply mem_move_effect.
  - intros s n to s'. cbn [srv_rename MemServer_writer srv_list MemServer_ops].
    destruct (mem_lookup s n), (mem_lookup s to); try done.
    destruct (decide (NoDup _)) as [Hnd|]; [|done]. intros [= <-].
    assert (forall t : MemServer, mi_Name <$> ((fun nm => mem_info nm.1 (proj1_sig nm.2)) <$> map_to_list t) =
      (map_to_list t).*1) as Hnames.
    { intros t. rewrite <- list_fmap_compose. done. }
    rewrite !Hnames. unfold MemServer in *.
    assert ((prod_map (renamed n to) id <$> map_to_list s).*1 = renamed n to <$> (map_to_list s).*1) as Hfst.
    { by rewrite <- !list_fmap_compose. }
    rewrite <- Hfst. apply fmap_Permutation, map_to_list_to_map. by rewrite Hfst.
Qed.
