(* ===== verification/Write.v ===== *)
(** The write executor (src/internal/sync/write.go): the one path by which a change a user
    makes reaches the mail server. A write is applied over IMAP first and then reflected in
    the store from what the server answers.

    The connection of an account is a slot of the world; its lock makes the commands of one
    account a sequence, and whatever other processes do comes between them as turns of the
    schedule. A callback given to [withMailbox] returns its result instead of assigning it. *)

From S2P Require Import Prelude Convert Utf8 Text Store Imap Pipeline Incremental WriteWorld ImapClient.
#[local] Open Scope Z_scope.

(** ** Statements of internal/store that the write path adds *)

Section statements.
Context {S : Type}.
Abbreviation MM := (M (World S) err).

(** [GetMessageState]: message_id is the primary key. *)
Definition state_row (d : DB) (id : Z) : option (state_key * MessageState) :=
  List.find (fun kv => ms_MessageID kv.2 =? id) (map_to_list (message_state d)).
Definition GetMessageState (id : Z) : MM (state_key * MessageState) :=
  io ;; d ← the_db;
  match state_row d id with Some r => mret r | None => throw ErrNotFound end.

Definition GetMailboxByRole (accountID : Z) (role : MailboxRole) : MM Mailbox :=
  io ;; d ← the_db;
  match List.find (fun m => bool_decide (mb_AccountID m = accountID /\ mb_Role m = role))
          (map_to_list (mailboxes d)).*2 with
  | Some m => mret m
  | None => throw ErrNotFound
  end.

(** [MoveMessages] of one message: UPDATE ... SET mailbox_id, uid, uidvalidity. A row that
    already has the new identity violates the unique index. *)
Definition touched (t : Time) (st : MessageState) : MessageState :=
  {| ms_MessageID := ms_MessageID st; ms_Flags := ms_Flags st; ms_Keywords := ms_Keywords st;
     ms_ModSeqSeen := ms_ModSeqSeen st; ms_DeletedAt := ms_DeletedAt st; ms_UpdatedAt := t |}.
Definition MoveMessage (id toMailboxID uidvalidity uid : Z) : MM unit :=
  io ;; t ← now; d ← the_db;
  match state_row d id with
  | None => mret tt
  | Some (k, st) =>
      let k' := (toMailboxID, uidvalidity, uid) in
      if bool_decide (k = k') then modify (set_db (set_message_state <[k := touched t st]>))
      else if bool_decide (is_Some (message_state d !! k')) then throw ErrUnique
      else modify (set_db (set_message_state (fun m => <[k' := touched t st]> (delete k m))))
  end.
End statements.

(** ** Requests and results *)

Record FlagChange := mkFlagChange {
  fc_Replace : bool;
  fc_Flags : list string;
  fc_Add : list string;
  fc_Remove : list string
}.
Definition isNoop (c : FlagChange) : bool :=
  negb (fc_Replace c) && bool_decide (fc_Add c = []) && bool_decide (fc_Remove c = []).

Record WriteResult := mkWriteResult {
  wr_MailboxID : Z;
  wr_UID : Z;
  wr_Flags : Z;
  wr_Keywords : list string;
  wr_Expunged : bool
}.
Definition result_of (id uid : Z) (flags : Z) (keywords : list string) : WriteResult :=
  {| wr_MailboxID := id; wr_UID := uid; wr_Flags := flags; wr_Keywords := keywords;
     wr_Expunged := false |}.

Definition key_mailbox (k : state_key) : Z := k.1.1.
Definition key_validity (k : state_key) : Z := k.1.2.
Definition key_uid (k : state_key) : Z := k.2.

(** [invisibleFlags]: what a JMAP client cannot see and a replace must keep. *)
Definition invisibleFlags (st : MessageState) : list string :=
  (if negb (Z.land (ms_Flags st) FlagDeleted =? 0) then ["deleted"] else []) ++
  filter (fun k => HasPrefix k "\" = true) (ms_Keywords st).

Section executor.
Context {S : Type} `{ImapServer S} `{!ImapWriter S}.
Abbreviation WM := (M (WWorld S) werr).

(** ** Connections *)

(** [accountConn.selection], [remember], [forgetSelection]. *)
Definition selection (ac : accountConn) (mailbox : string) : option SelectResult :=
  if bool_decide (ac_client ac = None) || bool_decide (ac_selectedName ac = "") ||
     negb (bool_decide (ac_selectedName ac = mailbox))
  then None else Some (ac_selectedResult ac).
Definition remember (mailbox : string) (sel : SelectResult) (ac : accountConn) : accountConn :=
  {| ac_client := ac_client ac; ac_selectedName := mailbox; ac_selectedResult := sel |}.
Definition forgetSelection (ac : accountConn) : accountConn :=
  {| ac_client := ac_client ac; ac_selectedName := ""; ac_selectedResult := no_selection |}.

Definition forAccount (a : Z) : WM unit :=
  x ← get;
  if x_closed x then throw ErrClosed
  else modify (set_slot a id).

Definition fresh_client (s : S) : client :=
  {| cl_caps := srv_caps s; cl_selected := ""; cl_closed := false; cl_alive := true;
     cl_session := None |}.

(** [accountConn.ensure]: a dial, when there is no connection. *)
Definition ensure (a : Z) : WM unit :=
  x ← get;
  match ac_client (slot x a) with
  | Some _ => mret tt
  | None =>
      o ← tick;
      match o with
      | Served =>
          x ← get;
          modify (set_slot a (fun ac =>
            {| ac_client := Some (fresh_client (w_srv (x_world x)));
               ac_selectedName := ac_selectedName ac;
               ac_selectedResult := ac_selectedResult ac |}))
      | _ => throw EDial
      end
  end.

(** [accountConn.discard]. *)
Definition discard (a : Z) : WM unit := modify (set_slot a (fun _ => no_conn)).

(** [isConnectionDead] (write_mailbox.go). *)
Definition isConnectionDead (e : werr) : bool :=
  bool_decide (e = ErrNotConnected) || bool_decide (e = ErrMailboxStale).

(** [withMailbox]; [retry] is 1 on the first attempt. *)
Fixpoint mailbox_attempts {A} (retry : nat) (a : Z) (mailbox : string) (fn : SelectResult -> WM A)
    : WM A :=
  ensure a ;;
  x ← get;
  match selection (slot x a) mailbox with
  | Some sel =>
      r ← tryW (fn sel);
      match r, retry with
      | inr v, _ => mret v
      | inl e, Datatypes.S retry =>
          if isConnectionDead e then discard a ;; mailbox_attempts retry a mailbox fn
          else throw e
      | inl e, O => throw e
      end
  | None =>
      r ← tryW (SelectQResync a mailbox);
      match r, retry with
      | inr sel, _ => modify (set_slot a (remember mailbox sel)) ;; fn sel
      | inl e, Datatypes.S retry => discard a ;; mailbox_attempts retry a mailbox fn
      | inl e, O => discard a ;; throw e
      end
  end.
Definition withMailbox {A} (a : Z) (mailbox : string) (fn : SelectResult -> WM A) : WM A :=
  forAccount a ;; mailbox_attempts 1 a mailbox fn.

Definition reselect (a : Z) (mailbox : string) : WM SelectResult :=
  r ← tryW (SelectQResync a mailbox);
  match r with
  | inl e => modify (set_slot a forgetSelection) ;; throw e
  | inr sel => modify (set_slot a (remember mailbox sel)) ;; mret sel
  end.

(** [Close]. *)
Definition CloseExecutor (x : WWorld S) : WWorld S :=
  {| x_world := x_world x; x_cols := x_cols x; x_conns := ∅; x_closed := true;
     x_sched := x_sched x; x_trace := x_trace x; x_notified := x_notified x |}.

(** ** Helpers of the operations *)

Definition GetAccount (a : Z) : WM unit :=
  stmt io ;; x ← get;
  if bool_decide (is_Some (accounts (x_cols x) !! a)) then mret tt else throw (EStore ErrNotFound).

(** The error that stands for [store.ErrNotFound]. *)
Definition found {A} (e : werr) (p : WM A) : WM A :=
  r ← tryW p;
  match r with
  | inr v => mret v
  | inl e' => if bool_decide (e' = EStore ErrNotFound) then throw e else throw e'
  end.

(** [target]: the row and the mailbox of a live message of this account. *)
Definition target (a m : Z) : WM (state_key * MessageState * Mailbox) :=
  '(k, st) ← found ErrWriteNotFound (stmt (GetMessageState m));
  x ← get;
  if negb (bool_decide (account_of (x_cols x) !! m = Some a)) ||
     negb (bool_decide (ms_DeletedAt st = None))
  then throw ErrWriteNotFound
  else
    mb ← stmt (GetMailbox (key_mailbox k));
    emit (Targeted a m (account_of (x_cols x) !! m) k st mb) ;;
    mret (k, st, mb).

Definition checkUIDValidity (sel : SelectResult) (k : state_key) : WM unit :=
  if sel_UIDValidity sel =? key_validity k then mret tt else throw ErrWriteConflict.

Definition flags_only : FetchSpec :=
  {| spec_Flags := true; spec_InternalDate := false; spec_Body := false |}.

(** [fetchOne]: the last answer that names the UID. *)
Definition fetchOne (a uid : Z) : WM (option Fetched) :=
  l ← FetchMessages a [uid] flags_only;
  mret (last (filter (fun f => f_UID f = uid) l)).

(** [reflectFlags]: writes nothing when the row already says so. *)
Definition flag_update_of (m : Z) (f : Fetched) : FlagUpdate :=
  {| fu_MessageID := m; fu_Flags := storeFlags (f_Flags f);
     fu_Keywords := sanitizeAll (f_Keywords f); fu_ModSeqSeen := modSeqToDB (f_ModSeq f) |}.
Definition reflectFlags (st : MessageState) (f : Fetched) : WM (Z * list string) :=
  let u := flag_update_of (ms_MessageID st) f in
  (if (ms_Flags st =? fu_Flags u) && sameKeywords (ms_Keywords st) (fu_Keywords u) &&
      (ms_ModSeqSeen st =? fu_ModSeqSeen u)
   then mret tt
   else stmt (UpdateFlags [u]) ;; emit (Reflected u)) ;;
  mret (fu_Flags u, fu_Keywords u).

Definition need {A} (o : option A) : WM A :=
  match o with Some a => mret a | None => throw ErrWriteNotFound end.

(** [storeReplace]: the conditional full-set STORE and its conflict protocol. *)
Definition storeReplace (a : Z) (st : MessageState) (uid : Z) (flags : list string) : WM unit :=
  let delta := flags ++ invisibleFlags st in
  let unchanged := modSeqFromDB (ms_ModSeqSeen st) in
  unchanged ← (if unchanged =? 0 then msg ← fetchOne a uid; f ← need msg; mret (f_ModSeq f)
               else mret unchanged);
  res ← StoreFlags a [uid] FlagsSet delta unchanged;
  if negb (Conflicted res) then mret tt
  else
    msg ← fetchOne a uid; fresh ← need msg;
    if (storeFlags (f_Flags fresh) =? ms_Flags st) &&
       sameKeywords (sanitizeAll (f_Keywords fresh)) (ms_Keywords st)
    then
      res ← StoreFlags a [uid] FlagsSet delta (f_ModSeq fresh);
      if negb (Conflicted res) then mret tt
      else msg ← fetchOne a uid; fresh ← need msg; reflectFlags st fresh ;; throw ErrWriteConflict
    else reflectFlags st fresh ;; throw ErrWriteConflict.

(** ** The three writes *)

Definition ApplyFlagChange (a m : Z) (change : FlagChange) : WM WriteResult :=
  '(k, st, mb) ← target a m;
  if isNoop change then
    mret (result_of (key_mailbox k) (key_uid k) (ms_Flags st) (ms_Keywords st))
  else
    GetAccount a ;;
    out ← withMailbox a (mb_Name mb) (fun sel =>
      checkUIDValidity sel k ;;
      let uid := uidFromDB (key_uid k) in
      (if fc_Replace change then storeReplace a st uid (fc_Flags change)
       else
         (if bool_decide (fc_Add change = []) then mret tt
          else StoreFlags a [uid] FlagsAdd (fc_Add change) 0 ;; mret tt) ;;
         (if bool_decide (fc_Remove change = []) then mret tt
          else StoreFlags a [uid] FlagsRemove (fc_Remove change) 0 ;; mret tt)) ;;
      msg ← fetchOne a uid; f ← need msg;
      '(flags, keywords) ← reflectFlags st f;
      mret (result_of (key_mailbox k) (key_uid k) flags keywords));
    Notify a ;; mret out.

(** The tombstone of a message that left its mailbox. *)
Definition tombstone_row (k : state_key) : WM unit :=
  stmt (MarkDeleted (key_mailbox k) (key_validity k) [key_uid k]) ;; emit (Tombstoned k).

Definition ApplyMove (a m targetMailboxID : Z) : WM WriteResult :=
  '(k, st, srcMb) ← target a m;
  if key_mailbox k =? targetMailboxID then
    mret (result_of (key_mailbox k) (key_uid k) (ms_Flags st) (ms_Keywords st))
  else
    tgtMb ← found ErrWriteNotFound (stmt (GetMailbox targetMailboxID));
    if negb (mb_AccountID tgtMb =? a) || negb (mb_Selectable tgtMb) then throw ErrWriteNotFound
    else
      emit (Resolved a tgtMb) ;;
      GetAccount a ;;
      out ← withMailbox a (mb_Name srcMb) (fun sel =>
        checkUIDValidity sel k ;;
        let uid := uidFromDB (key_uid k) in
        res ← Move a [uid] (mb_Name tgtMb);
        match mv_DestUIDs res !! uid with
        | None =>
            tombstone_row k ;;
            mret (result_of targetMailboxID 0 (ms_Flags st) (ms_Keywords st))
        | Some destUID =>
            dsel ← reselect a (mb_Name tgtMb);
            let destValidity := sel_UIDValidity dsel in
            if negb (mv_DestUIDValidity res =? 0) &&
               negb (mv_DestUIDValidity res =? sel_UIDValidity dsel)
            then
              tombstone_row k ;;
              mret (result_of targetMailboxID 0 (ms_Flags st) (ms_Keywords st))
            else
              stmt (MoveMessage m targetMailboxID destValidity destUID) ;;
              emit (Repointed m (targetMailboxID, destValidity, destUID)) ;;
              msg ← fetchOne a destUID;
              match msg with
              | None => mret (result_of targetMailboxID destUID (ms_Flags st) (ms_Keywords st))
              | Some f =>
                  '(flags, keywords) ← reflectFlags st f;
                  mret (result_of targetMailboxID destUID flags keywords)
              end
        end);
      Notify a ;; mret out.

Definition ApplyDestroy (a m : Z) : WM WriteResult :=
  '(k, st, mb) ← target a m;
  if negb (bool_decide (mb_Role mb = RoleTrash)) then
    trash ← found ErrNoTrashMailbox (stmt (GetMailboxByRole a RoleTrash));
    ApplyMove a m (mb_ID trash)
  else
    GetAccount a ;;
    out ← withMailbox a (mb_Name mb) (fun sel =>
      checkUIDValidity sel k ;;
      Expunge a [uidFromDB (key_uid k)] ;;
      tombstone_row k ;;
      mret {| wr_MailboxID := mb_ID mb; wr_UID := key_uid k; wr_Flags := ms_Flags st;
              wr_Keywords := ms_Keywords st; wr_Expunged := true |});
    Notify a ;; mret out.
End executor.
