(* ===== verification/Append.v ===== *)
(** The APPEND half of the write executor (src/internal/sync/append.go) and the statements
    and blob operations it uses: a new message is given to the server first and then stored
    as the row the sync engine would have stored.

    The blob files are the column [files] of the world; the parser, the hash, the assignment
    of threads and what PostgreSQL says of a row are parameters, as in [Pipeline]. *)

From S2P Require Import Prelude Convert Utf8 Text Store Imap Pipeline WriteWorld ImapClient Write.
#[local] Open Scope Z_scope.

Record AppendedMessage := mkAppended {
  am_MessageID : Z;
  am_ThreadID : Z;
  am_BlobHash : string;
  am_Size : Z;
  am_UID : Z
}.

Section append.
Context {S : Type} `{ImapServer S} `{!ImapWriter S}.
Context (sha256 : string -> string) (derive : string -> Message).
(** The Date header, when it is there, parses and is plausible. *)
Context (header_date : string -> option Time).
Context (rejects : NewMessage -> bool).
Context (assign : DB -> Z -> list Z -> option (list (Z * Z))).
(** Whether the executor was given a blob store. *)
Context (has_blobs : bool).
Abbreviation WM := (M (WWorld S) werr).
Abbreviation MM := (M (World S) err).

(** ** Blobs *)

Definition set_files (f : gmap string string -> gmap string string) (c : Cols) : Cols :=
  {| accounts := accounts c; account_of := account_of c; dates := dates c;
     delimiters := delimiters c; files := f (files c); snoozes := snoozes c |}.

(** A file-system operation: it fails with nothing done, or is done and may still fail. *)
Definition fs_turn {A} (run : WM A) : WM A :=
  o ← tick;
  match o with
  | Served => run
  | Lost => run ;; throw EBlob
  | _ => throw EBlob
  end.

(** [Put]: a file that is already there is kept. *)
Definition recordBlob (h : string) : MM unit := io ;; modify (set_db (set_blobs (fun s => {[h]} ∪ s))).
Definition Put (raw : string) : WM (string * Z) :=
  let h := sha256 raw in
  fs_turn (modify (set_cols (set_files (fun fs =>
    match fs !! h with Some _ => fs | None => <[h := raw]> fs end)))) ;;
  stmt (recordBlob h) ;;
  mret (h, Z.of_nat (String.length raw)).

(** [AddRefTx]. *)
Definition AddRefTx (h : string) (a id : Z) : WM unit :=
  stmt io ;; x ← get;
  if bool_decide (h ∈ blobs (w_db (x_world x))) then
    in_store (modify (set_db (set_blob_refs (fun s => {[(h, a, id)]} ∪ s))))
  else throw EBlob.

(** [Open] and [io.ReadAll]. *)
Definition OpenAll (h : string) : WM string :=
  fs_turn (x ← get; match files (x_cols x) !! h with Some raw => mret raw | None => throw EBlob end).

(** ** Statements *)

Definition GetMessage (id : Z) : MM Message :=
  io ;; d ← the_db; match messages d !! id with Some m => mret m | None => throw ErrNotFound end.
Definition GetMessageStateByUID (mailboxID uidValidity uid : Z) : MM MessageState :=
  io ;; d ← the_db;
  match message_state d !! (mailboxID, uidValidity, uid) with
  | Some st => mret st
  | None => throw ErrNotFound
  end.

(** A live message of the mailbox has this Message-ID. *)
Definition holds_message_id (mailboxID : Z) (rfc : string) (d : DB) (kv : state_key * MessageState) : bool :=
  bool_decide (key_mailbox kv.1 = mailboxID /\ ms_DeletedAt kv.2 = None /\
               MessageID <$> messages d !! ms_MessageID kv.2 = Some rfc).
Definition MailboxContainsMessageID (mailboxID : Z) (rfc : string) : MM bool :=
  io ;; d ← the_db;
  mret (existsb (holds_message_id mailboxID rfc d) (map_to_list (message_state d))).

(** [messageDate] (message.go). *)
Definition messageDate (raw : string) (internal clock : Time) : Time :=
  match header_date raw with
  | Some t => t
  | None => if internal =? 0 then clock else internal
  end.

(** The columns of a new row that [DB] does not keep. *)
Definition set_row_cols (a id : Z) (date : Time) (internal : option Time) (c : Cols) : Cols :=
  {| accounts := accounts c; account_of := <[id := a]> (account_of c);
     dates := <[id := (date, internal)]> (dates c); delimiters := delimiters c;
     files := files c; snoozes := snoozes c |}.
Definition InsertMessage (a : Z) (nm : NewMessage) (date : Time) (internal : option Time) : WM Z :=
  ids ← stmt (InsertMessages rejects [nm]);
  let id := List.hd 0 ids in
  (if id =? 0 then mret tt
   else modify (set_cols (set_row_cols a id date internal)) ;; emit (Inserted a nm)) ;;
  mret id.

(** [AssignThreads] of one message. *)
Definition AssignThread (a id : Z) : MM (list (Z * Z)) :=
  io ;; d ← the_db;
  match assign d a [id] with
  | Some pairs =>
      modify (set_db (set_thread_ids (fun m => foldl (fun m p => <[p.1 := p.2]> m) m pairs))) ;;
      mret pairs
  | None => throw ErrUnique
  end.

(** ** [reflectAppend] *)

Definition appended_row (mailboxID uidValidity : Z) (raw h : string) (f : Fetched) : NewMessage :=
  newMessage mailboxID uidValidity
    {| pm_raw := {| raw_uid := f_UID f; raw_modSeq := f_ModSeq f; raw_flags := storeFlags (f_Flags f);
                    raw_keywords := f_Keywords f; raw_bytes := raw |};
       pm_hash := h; pm_parsed := derive raw |}.

Definition reflectAppend (a mailboxID uidValidity : Z) (raw : string) (f : Fetched)
    : WM AppendedMessage :=
  '(h, size) ← Put raw;
  x ← get;
  let date := messageDate raw (f_InternalDate f) (w_now (x_world x)) in
  let internal := if f_InternalDate f =? 0 then None else Some (f_InternalDate f) in
  id ← InsertMessage a (appended_row mailboxID uidValidity raw h f) date internal;
  let out id threadID := {| am_MessageID := id; am_ThreadID := threadID; am_BlobHash := h;
                            am_Size := size; am_UID := f_UID f |} in
  if id =? 0 then
    st ← stmt (GetMessageStateByUID mailboxID uidValidity (f_UID f));
    stmt (GetMessage (ms_MessageID st)) ;;
    x ← get;
    mret (out (ms_MessageID st) (default 0 (thread_ids (w_db (x_world x)) !! ms_MessageID st)))
  else
    AddRefTx h a id ;;
    r ← tryW (stmt (AssignThread a id));
    mret (out id (match r with inr [(_, t)] => t | _ => id end)).

(** ** [ApplyAppendAt] *)

Definition append_in (a : Z) (mb : Mailbox) (raw : string) (flags : list string) (date : Time)
    (sel : SelectResult) : WM AppendedMessage :=
  x ← get;
  if negb (HasCap (caps_of x a) CapUIDPlus) then throw ErrAppendNotSupported
  else
    res ← Append a (mb_Name mb) raw flags date;
    if ap_UID res =? 0 then throw ErrNoAppendUID
    else
      let v := if ap_UIDValidity res =? 0 then sel_UIDValidity sel else ap_UIDValidity res in
      msg ← fetchOne a (ap_UID res);
      match msg with
      | None => throw ErrDisappeared
      | Some f => reflectAppend a (mb_ID mb) v raw f
      end.

Definition ApplyAppendAt (a mailboxID : Z) (raw : string) (flags : list string) (internalDate : Time)
    : WM AppendedMessage :=
  x ← get;
  let date := if internalDate =? 0 then w_now (x_world x) else internalDate in
  if negb has_blobs then throw ErrNoBlobs
  else if String.eqb raw "" then throw ErrEmptyMessage
  else
    mb ← found ErrWriteNotFound (stmt (GetMailbox mailboxID));
    if negb (mb_AccountID mb =? a) || negb (mb_Selectable mb) then throw ErrWriteNotFound
    else
      emit (Resolved a mb) ;;
      GetAccount a ;;
      out ← withMailbox a (mb_Name mb) (append_in a mb raw flags date);
      Notify a ;; mret out.

Definition ApplyAppend (a mailboxID : Z) (raw : string) (flags : list string) : WM AppendedMessage :=
  ApplyAppendAt a mailboxID raw flags 0.

(** ** The copy in Sent *)

Definition SentContainsMessageID (a : Z) (rfc : string) : WM bool :=
  if String.eqb rfc "" then mret false
  else
    r ← tryW (stmt (GetMailboxByRole a RoleSent));
    match r with
    | inr sent => stmt (MailboxContainsMessageID (mb_ID sent) rfc)
    | inl e => if bool_decide (e = EStore ErrNotFound) then mret false else throw e
    end.

(** [AppendToSent]: whether the copy was already there. *)
Definition AppendToSent (a : Z) (raw rfc : string) : WM bool :=
  dup ← SentContainsMessageID a rfc;
  if dup : bool then mret true
  else
    sent ← found ErrWriteNotFound (stmt (GetMailboxByRole a RoleSent));
    ApplyAppend a (mb_ID sent) raw ["seen"] ;;
    mret false.
End append.
