(* ===== verification/Folders.v ===== *)
(** The folder half of the write executor (src/internal/sync/write_mailbox.go) and the
    statements it uses (src/internal/store/mailboxes.go): create, rename and destroy a
    mailbox, and the budget of durable keywords.

    Names are byte strings. PostgreSQL's LIKE is [like]; keywords are IMAP atoms, so
    lowering their ASCII letters is lower() and strings.ToLower. *)

From S2P Require Import Prelude Convert Text GoStrings Store Imap WriteWorld ImapClient Write.
From Stdlib Require Import Ascii.
From stdpp Require Import sorting.
#[local] Open Scope Z_scope.

(** ** LIKE *)

(** [s LIKE p], with the backslash as escape character. *)
Fixpoint like (p s : string) {struct p} : bool :=
  match p with
  | EmptyString => String.eqb s EmptyString
  | String c p' =>
      if is_byte c 37 then
        (fix any (s : string) : bool :=
           like p' s || match s with EmptyString => false | String _ s => any s end) s
      else if is_byte c 95 then
        match s with EmptyString => false | String _ s => like p' s end
      else if is_byte c 92 then
        match p', s with
        | String e p'', String d s => Ascii.eqb e d && like p'' s
        | _, _ => false
        end
      else match s with EmptyString => false | String d s => Ascii.eqb c d && like p' s end
  end.

Definition likeEscape (s : string) : string :=
  ReplaceAll (ReplaceAll (ReplaceAll s "\" "\\") "%" "\%") "_" "\_".

(** ** Rows *)

Definition set_delimiters (f : gmap Z string -> gmap Z string) (c : Cols) : Cols :=
  {| accounts := accounts c; account_of := account_of c; dates := dates c;
     delimiters := f (delimiters c); files := files c; snoozes := snoozes c |}.
Definition delimiter_of (c : Cols) (id : Z) : string := default "/" (delimiters c !! id).

Definition rename_to (name : string) (m : Mailbox) : Mailbox :=
  {| mb_ID := mb_ID m; mb_AccountID := mb_AccountID m; mb_Name := name; mb_Role := mb_Role m;
     mb_Selectable := mb_Selectable m; mb_UIDValidity := mb_UIDValidity m; mb_UIDNext := mb_UIDNext m;
     mb_HighestModSeq := mb_HighestModSeq m; mb_BackfillState := mb_BackfillState m;
     mb_BackfillUIDLow := mb_BackfillUIDLow m |}.

(** WHERE account_id = $1 AND name LIKE prefix || '%'. *)
Definition under (a : Z) (prefix : string) (m : Mailbox) : bool :=
  (mb_AccountID m =? a) && like (likeEscape prefix +:+ "%") (mb_Name m).
(** SET name = $3 || right(name, -length($4)). *)
Definition rename_child (a : Z) (prefix newPrefix : string) (m : Mailbox) : Mailbox :=
  if under a prefix m then rename_to (newPrefix +:+ drop_s (String.length prefix) (mb_Name m)) m else m.

(** The unique index (account_id, name). *)
Definition names_unique (ms : gmap Z Mailbox) : bool :=
  bool_decide (NoDup ((fun im => (mb_AccountID im.2, mb_Name im.2)) <$> map_to_list ms)).

Definition MaxDurableKeywordsPerMailbox : Z := 26.
Record KeywordBudget := mkBudget { kb_InUse : list string; kb_Limit : Z }.
Definition Remaining (b : KeywordBudget) : Z :=
  let n := kb_Limit b - Z.of_nat (List.length (kb_InUse b)) in if 0 <? n then n else 0.
Definition HasKeyword (b : KeywordBudget) (keyword : string) : bool :=
  existsb (String.eqb (lower_ascii (TrimSpace keyword))) (kb_InUse b).

Record MailboxWriteResult := mkMailboxResult {
  mw_MailboxID : Z;
  mw_Name : string;
  mw_UIDValidity : Z;
  mw_ChildrenRenamed : Z;
  mw_MessagesTombstoned : Z
}.
Definition mailbox_result (id : Z) (name : string) : MailboxWriteResult :=
  {| mw_MailboxID := id; mw_Name := name; mw_UIDValidity := 0; mw_ChildrenRenamed := 0;
     mw_MessagesTombstoned := 0 |}.

Section folders.
Context {S : Type} `{ImapServer S} `{!ImapWriter S}.
Abbreviation WM := (M (WWorld S) werr).
Abbreviation MM := (M (World S) err).

(** ** Statements *)

(** ORDER BY name, in byte order. *)
Definition name_le (m m' : Mailbox) : Prop := String.le (mb_Name m) (mb_Name m').
#[local] Instance name_le_dec m m' : Decision (name_le m m').
Proof. unfold name_le. apply _. Defined.

Definition ListMailboxes (a : Z) : MM (list Mailbox) :=
  io ;; d ← the_db;
  mret (merge_sort name_le (filter (fun m => mb_AccountID m = a) (map_to_list (mailboxes d)).*2)).

Definition RenameMailbox (a id : Z) (newName : string) : WM Z :=
  if String.eqb newName "" then throw EArgument
  else
    stmt io ;; x ← get;
    let ms := mailboxes (w_db (x_world x)) in
    match ms !! id with
    | Some mb =>
        if negb (mb_AccountID mb =? a) then throw (EStore ErrNotFound)
        else if String.eqb (mb_Name mb) newName then mret 0
        else
          let delim := delimiter_of (x_cols x) id in
          let prefix := mb_Name mb +:+ delim in
          let ms1 := rename_child a prefix (newName +:+ delim) <$> ms in
          let ms2 := alter (rename_to newName) id ms1 in
          if names_unique ms1 && names_unique ms2 then
            in_store (modify (set_db (set_mailboxes (fun _ => ms2)))) ;;
            mret (Z.of_nat (List.length (filter (fun m => under a prefix m = true) (map_to_list ms).*2)) + 1)
          else throw (EStore ErrUnique)
    | None => throw (EStore ErrNotFound)
    end.

Definition ListChildMailboxes (a id : Z) : WM (list Mailbox) :=
  parent ← stmt (GetMailbox id);
  if negb (mb_AccountID parent =? a) then throw (EStore ErrNotFound)
  else
    stmt io ;; x ← get;
    let prefix := mb_Name parent +:+ delimiter_of (x_cols x) id in
    mret (merge_sort name_le (filter (fun m => under a prefix m = true)
           (map_to_list (mailboxes (w_db (x_world x)))).*2)).

Definition live_in (id : Z) (kv : state_key * MessageState) : bool :=
  bool_decide (key_mailbox kv.1 = id /\ ms_DeletedAt kv.2 = None).
Definition TombstoneMailbox (id : Z) : MM Z :=
  io ;; t ← now; d ← the_db;
  modify (set_db (set_message_state (map_imap (fun k st =>
    Some (if live_in id (k, st) then tombstone t st else st))))) ;;
  mret (Z.of_nat (List.length (filter (fun kv => live_in id kv = true) (map_to_list (message_state d))))).

(** [DeleteMailbox]: message_state.mailbox_id is ON DELETE CASCADE. *)
Definition DeleteMailboxRow (id : Z) : MM unit :=
  io ;; d ← the_db;
  match mailboxes d !! id with
  | None => throw ErrNotFound
  | Some _ =>
      modify (set_db (fun d => set_mailboxes (delete id)
        (set_message_state (filter (fun kv => key_mailbox kv.1 <> id)) d)))
  end.

Definition DistinctKeywordsInMailbox (id : Z) : MM (list string) :=
  io ;; d ← the_db;
  let rows := filter (fun kv => live_in id kv = true) (map_to_list (message_state d)) in
  mret (filter (fun k => k <> EmptyString) (TrimSpace <$>
    merge_sort String.le (remove_dups (lower_ascii <$> (kv ← rows; ms_Keywords kv.2))))).

(** ** Connections *)

Definition mapFolderErr (e : werr) : werr :=
  match e with
  | ErrMailboxExists => ErrMailboxNameTaken
  | ErrMailboxMissing => ErrMailboxNotFound
  | ErrInvalidMailboxName => ErrMailboxNameInvalid
  | ErrRenameInbox | ErrDeleteInbox => ErrMailboxProtected
  | e => e
  end.
Definition folder_command {A} (p : WM A) : WM A :=
  r ← tryW p; match r with inr v => mret v | inl e => throw (mapFolderErr e) end.

(** [withConn]; the selection is forgotten before and after. [retry] is 1 on the first
    attempt. *)
Fixpoint conn_attempts {A} (retry : nat) (a : Z) (fn : WM A) : WM A :=
  r ← tryW (ensure a);
  match r, retry with
  | inl e, Datatypes.S retry => conn_attempts retry a fn
  | inl e, O => throw e
  | inr _, _ =>
      r ← tryW fn;
      match r, retry with
      | inr v, _ => mret v
      | inl e, Datatypes.S retry =>
          if isConnectionDead e then discard a ;; conn_attempts retry a fn else throw e
      | inl e, O => throw e
      end
  end.
Definition withConn {A} (a : Z) (fn : WM A) : WM A :=
  forAccount a ;;
  modify (set_slot a forgetSelection) ;;
  r ← tryW (conn_attempts 1 a fn);
  modify (set_slot a forgetSelection) ;;
  match r with inr v => mret v | inl e => throw e end.

(** ** Internals *)

Definition ownedMailbox (a id : Z) : WM Mailbox :=
  mb ← found ErrMailboxNotFound (stmt (GetMailbox id));
  if mb_AccountID mb =? a then emit (Resolved a mb) ;; mret mb else throw ErrMailboxNotFound.

Definition first_delimiter (a : Z) : WM string :=
  boxes ← tryW (stmt (ListMailboxes a));
  x ← get;
  mret (match boxes with
        | inr ms => default "/" (head (filter (fun s => s <> EmptyString)
                      ((fun m => delimiter_of (x_cols x) (mb_ID m)) <$> ms)))
        | inl _ => "/"
        end).
Definition delimiterFor (a : Z) : WM string :=
  r ← tryW (stmt (GetMailboxByRole a RoleInbox));
  x ← get;
  match r with
  | inr inbox =>
      let delim := delimiter_of (x_cols x) (mb_ID inbox) in
      if String.eqb delim "" then first_delimiter a else mret delim
  | inl _ => first_delimiter a
  end.

(** The pre-check that answers a collision fast. *)
Definition name_free (a : Z) (name : string) : WM unit :=
  r ← tryW (stmt (GetMailboxByName a name));
  match r with
  | inr _ => throw ErrMailboxNameTaken
  | inl e => if bool_decide (e = EStore ErrNotFound) then mret tt else throw e
  end.

Definition is_space (c : ascii) : bool := is_byte c 32.

(** ** The three operations *)

Definition create_on_server (a : Z) (name : string) (subscribe : bool) : WM (option MailboxInfo) :=
  folder_command (CreateMailbox a name) ;;
  (if subscribe then tryW (SetSubscribed a name true) ;; mret tt else mret tt) ;;
  r ← tryW (StatusMailbox a name);
  mret (match r with inr i => Some i | inl _ => None end).

Definition ApplyMailboxCreate (a : Z) (name : string) (subscribe : bool) : WM MailboxWriteResult :=
  let name := TrimRight is_space name in
  if String.eqb name "" then throw ErrMailboxNameInvalid
  else
    GetAccount a ;;
    name_free a name ;;
    info ← withConn a (create_on_server a name subscribe);
    delim ← delimiterFor a;
    row ← stmt (UpsertMailbox a name RoleNone true);
    modify (set_cols (set_delimiters <[mb_ID row := delim]>)) ;;
    let out := mailbox_result (mb_ID row) (mb_Name row) in
    out ← match info with
          | Some i =>
              if mi_HasStatus i && negb (mi_UIDValidity i =? 0) then
                stmt (SetMailboxSyncState (mb_ID row) (uidValidityToDB (mi_UIDValidity i))
                        (uidNextToDB (mi_UIDNext i)) (modSeqToDB (mi_HighestModSeq i))) ;;
                mret {| mw_MailboxID := mb_ID row; mw_Name := mb_Name row;
                        mw_UIDValidity := uidValidityToDB (mi_UIDValidity i);
                        mw_ChildrenRenamed := 0; mw_MessagesTombstoned := 0 |}
              else mret out
          | None => mret out
          end;
    Notify a ;; mret out.

Definition ApplyMailboxRename (a id : Z) (newName : string) : WM MailboxWriteResult :=
  let newName := TrimRight is_space newName in
  if String.eqb newName "" then throw ErrMailboxNameInvalid
  else
    mb ← ownedMailbox a id;
    if String.eqb (mb_Name mb) newName then mret (mailbox_result (mb_ID mb) (mb_Name mb))
    else if equalFoldASCII (mb_Name mb) "INBOX" then throw ErrMailboxProtected
    else
      name_free a newName ;;
      GetAccount a ;;
      withConn a (folder_command (ImapClient.RenameMailbox a (mb_Name mb) newName)) ;;
      n ← RenameMailbox a id newName;
      Notify a ;;
      mret {| mw_MailboxID := mb_ID mb; mw_Name := newName; mw_UIDValidity := 0;
              mw_ChildrenRenamed := if 0 <? n then n - 1 else 0; mw_MessagesTombstoned := 0 |}.

(** A mailbox the server no longer has counts as deleted. *)
Definition delete_on_server (a : Z) (name : string) : WM unit :=
  r ← tryW (DeleteMailbox a name);
  match r with
  | inr _ => mret tt
  | inl e => if bool_decide (e = ErrMailboxMissing) then mret tt else throw (mapFolderErr e)
  end.

Definition ApplyMailboxDestroy (a id : Z) : WM MailboxWriteResult :=
  mb ← ownedMailbox a id;
  if equalFoldASCII (mb_Name mb) "INBOX" then throw ErrMailboxProtected
  else
    children ← ListChildMailboxes a id;
    if negb (bool_decide (children = [])) then throw ErrMailboxHasChildren
    else
      GetAccount a ;;
      withConn a (delete_on_server a (mb_Name mb)) ;;
      n ← stmt (TombstoneMailbox id);
      r ← tryW (stmt (DeleteMailboxRow id));
      match r with
      | inl e => if bool_decide (e = EStore ErrNotFound) then mret tt else throw e
      | inr _ => mret tt
      end ;;
      Notify a ;;
      mret {| mw_MailboxID := mb_ID mb; mw_Name := mb_Name mb; mw_UIDValidity := 0;
              mw_ChildrenRenamed := 0; mw_MessagesTombstoned := n |}.

Definition KeywordBudgetFor (a id : Z) : WM KeywordBudget :=
  ownedMailbox a id ;;
  inUse ← stmt (DistinctKeywordsInMailbox id);
  mret {| kb_InUse := inUse; kb_Limit := MaxDurableKeywordsPerMailbox |}.
End folders.
