(* ===== verification/Snooze.v ===== *)
(** Snooze (src/internal/sync/snooze.go, waker.go and the snooze half of
    src/internal/store/snooze.go): a snoozed message is moved to the folder Snoozed and a row
    says when it comes back; waking appends its bytes to the folder it came from and only
    then expunges the sleeping copy.

    The waker's claim takes no lock that outlives its statement, so a claimed row is one that
    was pending and due at that moment. *)

From S2P Require Import Prelude Convert Text Store Imap Pipeline GoStrings WriteWorld ImapClient Write.
From S2P Require Import Append Folders.
From Stdlib Require Import Ascii.
From stdpp Require Import sorting.
#[local] Open Scope Z_scope.

(** [strings.EqualFold] with an ASCII string: beside the ASCII letters, the long s folds to
    s and the Kelvin sign to k. *)
Definition long_s : string := String (ascii_of_nat 197) (String (ascii_of_nat 191) EmptyString).
Definition kelvin : string :=
  String (ascii_of_nat 226) (String (ascii_of_nat 132) (String (ascii_of_nat 170) EmptyString)).
Fixpoint EqualFold (s t : string) {struct t} : bool :=
  match t with
  | EmptyString => String.eqb s EmptyString
  | String c t =>
      match s with
      | EmptyString => false
      | String d s' =>
          if Ascii.eqb (lower_byte d) (lower_byte c) then EqualFold s' t
          else if is_byte (lower_byte c) 115 then
            match CutPrefix s long_s with Some r => EqualFold r t | None => false end
          else if is_byte (lower_byte c) 107 then
            match CutPrefix s kelvin with Some r => EqualFold r t | None => false end
          else false
      end
  end.

Definition SnoozeMailboxName : string := "Snoozed".
Definition DefaultWakeInterval : Time := 60 * 1000000000.
Definition wakeBatch : nat := 50.
Definition maxWakeAttempts : Z := 5.
Definition wakeRetryDelay : Time := 5 * 60 * 1000000000.

(** ** Rows of snoozes *)

Definition pending_for (a : Z) (rfc : string) (sn : Snooze) : bool :=
  bool_decide (sn_AccountID sn = a /\ sn_MessageRFCID sn = rfc /\ sn_State sn = SnoozePending).
Definition find_pending (a : Z) (rfc : string) (t : gmap Z Snooze) : option (Z * Snooze) :=
  List.find (fun kv => pending_for a rfc kv.2) (map_to_list t).
Definition fresh_snooze_id (t : gmap Z Snooze) : Z := 1 + foldr Z.max 0 (map_to_list t).*1.

Definition new_snooze (a : Z) (rfc : string) (wakeAt : Time) (origin : string) : Snooze :=
  {| sn_AccountID := a; sn_MessageRFCID := rfc; sn_WakeAt := wakeAt; sn_OriginMailbox := origin;
     sn_State := SnoozePending; sn_Attempts := 0; sn_LastError := None |}.
(** INSERT ... ON CONFLICT (account_id, message_rfc_id) WHERE state = 'pending' DO UPDATE. *)
Definition put_snooze (a : Z) (rfc : string) (wakeAt : Time) (origin : string) (t : gmap Z Snooze)
    : gmap Z Snooze :=
  match find_pending a rfc t with
  | Some (id, _) => <[id := new_snooze a rfc wakeAt origin]> t
  | None => <[fresh_snooze_id t := new_snooze a rfc wakeAt origin]> t
  end.

Definition due_by (t : Time) (sn : Snooze) : bool :=
  bool_decide (sn_State sn = SnoozePending /\ sn_WakeAt sn <= t).
(** ORDER BY wake_at, id. *)
Definition wake_le (x y : Z * Snooze) : Prop :=
  sn_WakeAt x.2 < sn_WakeAt y.2 \/ (sn_WakeAt x.2 = sn_WakeAt y.2 /\ x.1 <= y.1).
#[global] Instance wake_le_dec x y : Decision (wake_le x y).
Proof. unfold wake_le. apply _. Defined.
Definition due_snoozes (t : Time) (limit : nat) (rows : gmap Z Snooze) : list (Z * Snooze) :=
  take limit (merge_sort wake_le (filter (fun kv => due_by t kv.2 = true) (map_to_list rows))).

Definition woken (sn : Snooze) : Snooze :=
  {| sn_AccountID := sn_AccountID sn; sn_MessageRFCID := sn_MessageRFCID sn;
     sn_WakeAt := sn_WakeAt sn; sn_OriginMailbox := sn_OriginMailbox sn;
     sn_State := SnoozeWoken; sn_Attempts := sn_Attempts sn; sn_LastError := None |}.
Definition failed_wake (message : string) (retryAt : option Time) (sn : Snooze) : Snooze :=
  {| sn_AccountID := sn_AccountID sn; sn_MessageRFCID := sn_MessageRFCID sn;
     sn_WakeAt := default (sn_WakeAt sn) retryAt; sn_OriginMailbox := sn_OriginMailbox sn;
     sn_State := match retryAt with Some _ => sn_State sn | None => SnoozeFailed end;
     sn_Attempts := sn_Attempts sn + 1; sn_LastError := Some message |}.
(** UPDATE ... WHERE id = $1 AND state = 'pending'. *)
Definition update_pending (f : Snooze -> Snooze) (id : Z) (t : gmap Z Snooze) : gmap Z Snooze :=
  match t !! id with
  | Some sn => if bool_decide (sn_State sn = SnoozePending) then <[id := f sn]> t else t
  | None => t
  end.

Definition imapFlagsOf (st : MessageState) : list string :=
  let bit b name := if Z.land (ms_Flags st) b =? 0 then [] else [name] in
  bit FlagSeen "seen" ++ bit FlagAnswered "answered" ++ bit FlagFlagged "flagged" ++
  bit FlagDraft "draft" ++ ms_Keywords st.

Record SnoozeResult := mkSnoozeResult {
  zr_MailboxID : Z; zr_UID : Z; zr_WakeAt : Time; zr_OriginMailbox : string
}.
Record WakeResult := mkWake { wk_MessageID : Z; wk_MailboxID : Z; wk_UID : Z }.

Section snooze.
Context {S : Type} `{ImapServer S} `{!ImapWriter S}.
Context (sha256 : string -> string) (derive : string -> Message) (header_date : string -> option Time).
Context (rejects : NewMessage -> bool).
Context (assign : DB -> Z -> list Z -> option (list (Z * Z))).
Context (has_blobs : bool).
(** [error.Error]. *)
Context (error_message : werr -> string).
Abbreviation WM := (M (WWorld S) werr).
Abbreviation MM := (M (World S) err).
Abbreviation ApplyAppendAt := (ApplyAppendAt sha256 derive header_date rejects assign has_blobs).

(** ** Statements *)

Definition set_snoozes (f : gmap Z Snooze -> gmap Z Snooze) (c : Cols) : Cols :=
  {| accounts := accounts c; account_of := account_of c; dates := dates c;
     delimiters := delimiters c; files := files c; snoozes := f (snoozes c) |}.

Definition PutSnooze (a : Z) (rfc : string) (wakeAt : Time) (origin : string) : WM Snooze :=
  if String.eqb rfc "" then throw EArgument
  else
    stmt io ;; modify (set_cols (set_snoozes (put_snooze a rfc wakeAt origin))) ;;
    mret (new_snooze a rfc wakeAt origin).

Definition CancelSnooze (a : Z) (rfc : string) : WM bool :=
  stmt io ;; x ← get;
  modify (set_cols (set_snoozes (filter (fun kv => pending_for a rfc kv.2 = false)))) ;;
  mret (bool_decide (is_Some (find_pending a rfc (snoozes (x_cols x))))).

(** [SnoozesByMessageIDs] of one message. *)
Definition SnoozeByMessageID (a : Z) (rfc : string) : WM (option Snooze) :=
  stmt io ;; x ← get; mret (snd <$> find_pending a rfc (snoozes (x_cols x))).

Definition ClaimDueSnoozes (t : Time) (limit : nat) : WM (list (Z * Snooze)) :=
  stmt io ;; x ← get; mret (due_snoozes t limit (snoozes (x_cols x))).

Definition MarkSnoozeWoken (id : Z) : WM unit :=
  stmt io ;; x ← get;
  match snoozes (x_cols x) !! id with
  | Some sn =>
      if bool_decide (sn_State sn = SnoozePending)
      then modify (set_cols (set_snoozes (update_pending woken id)))
      else throw (EStore ErrNotFound)
  | None => throw (EStore ErrNotFound)
  end.

Definition FailSnooze (id : Z) (message : string) (retryAt : option Time) : WM unit :=
  stmt io ;; modify (set_cols (set_snoozes (update_pending (failed_wake message retryAt) id))).

(** [MessageIDInMailbox]: the newest. *)
Definition MessageIDInMailbox (mailboxID : Z) (rfc : string) : MM Z :=
  if String.eqb rfc "" then throw ErrNotFound
  else
    io ;; d ← the_db;
    match (fun kv => ms_MessageID kv.2) <$>
          filter (fun kv => holds_message_id mailboxID rfc d kv = true) (map_to_list (message_state d)) with
    | [] => throw ErrNotFound
    | id :: ids => mret (foldr Z.max id ids)
    end.

(** ** Lookups *)

Definition ownedMessage (a m : Z) : WM Message :=
  msg ← found ErrWriteNotFound (stmt (GetMessage m));
  x ← get;
  if bool_decide (account_of (x_cols x) !! m = Some a) then mret msg else throw ErrWriteNotFound.

Definition inbox_of (a : Z) : WM Mailbox :=
  r ← tryW (stmt (GetMailboxByRole a RoleInbox));
  match r with
  | inr mb => mret mb
  | inl e => if bool_decide (e = EStore ErrNotFound) then stmt (GetMailboxByName a "INBOX") else throw e
  end.
Definition originMailbox (a : Z) (name : string) : WM Mailbox :=
  if String.eqb name "" then inbox_of a
  else
    r ← tryW (stmt (GetMailboxByName a name));
    match r with
    | inr mb => if mb_Selectable mb then mret mb else inbox_of a
    | inl e => if bool_decide (e = EStore ErrNotFound) then inbox_of a else throw e
    end.

(** The folder, created on first use. *)
Definition create_snoozed (a : Z) : WM Mailbox :=
  r ← tryW (ApplyMailboxCreate a SnoozeMailboxName true);
  match r with
  | inr res =>
      r ← tryW (stmt (GetMailbox (mw_MailboxID res)));
      match r with inr mb => mret mb | inl _ => throw ErrSnoozeUnavailable end
  | inl e =>
      if bool_decide (e = ErrMailboxNameTaken) then
        r ← tryW (stmt (GetMailboxByName a SnoozeMailboxName));
        match r with inr mb => mret mb | inl _ => throw ErrSnoozeUnavailable end
      else throw ErrSnoozeUnavailable
  end.
Definition ensureSnoozeMailbox (a : Z) : WM Mailbox :=
  r ← tryW (stmt (GetMailboxByName a SnoozeMailboxName));
  match r with
  | inr mb => if mb_Selectable mb then mret mb else throw ErrSnoozeUnavailable
  | inl e => if bool_decide (e = EStore ErrNotFound) then create_snoozed a else throw e
  end.

Definition rawBytes (a m : Z) : WM string :=
  msg ← ownedMessage a m;
  raw ← OpenAll (RawSHA256 msg);
  if String.eqb raw "" then throw EBlob
  else emit (Loaded m (RawSHA256 msg) raw) ;; mret raw.

(** ** Operations *)

Definition ApplySnooze (a m : Z) (wakeAt : Time) : WM SnoozeResult :=
  '(_, _, srcMb) ← target a m;
  msg ← ownedMessage a m;
  if String.eqb (MessageID msg) "" then throw ErrSnoozeUnavailable
  else
    snoozeMb ← ensureSnoozeMailbox a;
    if mb_ID snoozeMb =? mb_ID srcMb then throw ErrSnoozeUnavailable
    else
      ApplyMove a m (mb_ID snoozeMb) ;;
      let origin := if bool_decide (mb_Role srcMb = RoleInbox) || EqualFold (mb_Name srcMb) "INBOX"
                    then "" else mb_Name srcMb in
      row ← PutSnooze a (MessageID msg) wakeAt origin;
      r ← tryW (stmt (GetMessageState m));
      mret {| zr_MailboxID := mb_ID snoozeMb;
              zr_UID := match r with inr ks => key_uid ks.1 | inl _ => 0 end;
              zr_WakeAt := sn_WakeAt row; zr_OriginMailbox := sn_OriginMailbox row |}.

Definition expungeFromSnoozed (a : Z) (mb : Mailbox) (k : state_key) : WM unit :=
  GetAccount a ;;
  withMailbox a (mb_Name mb) (fun sel =>
    checkUIDValidity sel k ;;
    Expunge a [uidFromDB (key_uid k)] ;;
    stmt (MarkDeleted (mb_ID mb) (key_validity k) [key_uid k]) ;;
    emit (Tombstoned (mb_ID mb, key_validity k, key_uid k))).

Definition wakeMessage (a m : Z) (origin : string) : WM WakeResult :=
  if negb has_blobs then throw ErrNoBlobs
  else
    '(k, st, srcMb) ← target a m;
    if negb (EqualFold (mb_Name srcMb) SnoozeMailboxName) then throw ErrNotSnoozed
    else
      tgt ← originMailbox a origin;
      raw ← rawBytes a m;
      x ← get;
      appended ← ApplyAppendAt a (mb_ID tgt) raw (imapFlagsOf st) (w_now (x_world x));
      tryW (expungeFromSnoozed a srcMb k) ;;
      Notify a ;;
      mret {| wk_MessageID := am_MessageID appended; wk_MailboxID := mb_ID tgt;
              wk_UID := am_UID appended |}.

Definition ApplyUnsnooze (a m : Z) : WM WakeResult :=
  msg ← ownedMessage a m;
  sn ← SnoozeByMessageID a (MessageID msg);
  res ← wakeMessage a m (match sn with Some sn => sn_OriginMailbox sn | None => "" end);
  tryW (CancelSnooze a (MessageID msg)) ;;
  mret res.

(** [RetireDraft]: a draft that is already gone is retired. *)
Definition RetireDraft (a m : Z) : WM unit :=
  r ← tryW (ApplyDestroy a m);
  match r with
  | inr _ => mret tt
  | inl e => if bool_decide (e = ErrWriteNotFound) then mret tt else throw e
  end.

(** ** The waker *)

Definition resolveSnoozedMessage (sn : Snooze) : WM Z :=
  mb ← found ErrNotSnoozed (stmt (GetMailboxByName (sn_AccountID sn) SnoozeMailboxName));
  found ErrNotSnoozed (stmt (MessageIDInMailbox (mb_ID mb) (sn_MessageRFCID sn))).

Definition fail_wake (id : Z) (sn : Snooze) (cause : werr) : WM unit :=
  x ← get;
  let retryAt := if maxWakeAttempts <=? sn_Attempts sn + 1 then None
                 else Some (w_now (x_world x) + wakeRetryDelay) in
  tryW (FailSnooze id (error_message cause) retryAt) ;; mret tt.

Definition wakeOne (id : Z) (sn : Snooze) : WM unit :=
  r ← tryW (resolveSnoozedMessage sn);
  match r with
  | inl e =>
      if bool_decide (e = ErrNotSnoozed) || bool_decide (e = ErrWriteNotFound)
      then tryW (MarkSnoozeWoken id) ;; mret tt
      else fail_wake id sn e
  | inr m =>
      r ← tryW (wakeMessage (sn_AccountID sn) m (sn_OriginMailbox sn));
      match r with
      | inl e => fail_wake id sn e
      | inr _ => tryW (MarkSnoozeWoken id) ;; mret tt
      end
  end.

(** [RunOnce]; the context may end after some of the rows. *)
Definition RunOnce (alive : nat) : WM unit :=
  x ← get;
  due ← ClaimDueSnoozes (w_now (x_world x)) wakeBatch;
  forM_ (take alive due) (fun kv => wakeOne kv.1 kv.2).
End snooze.
