(* ===== verification/WriteLogic.v ===== *)
(** A logic for the traces of the write path (src/internal/sync/write.go).

    [keeps] says of a computation that it keeps the cache of selected mailboxes true and that
    every event it adds is justified by the events before it, whatever the schedule does;
    [inside] is the same of the callbacks [withMailbox] runs in a selected mailbox. What
    justifies an event is a parameter. *)

From S2P Require Import Prelude Convert Utf8 Text Store Imap Pipeline Incremental WriteWorld ImapClient Write Append Folders.
#[local] Open Scope Z_scope.

(** ** The connection cache tells the truth *)

(** What the executor remembers as selected is what the session has selected. *)
Definition conn_ok (ac : accountConn) : Prop :=
  match ac_client ac with
  | None => ac_selectedName ac = ""
  | Some c => ac_selectedName ac <> "" -> cl_alive c = true ->
      cl_session c = Some (ac_selectedName ac, sel_UIDValidity (ac_selectedResult ac))
  end.
Definition conn_inv {S} (x : WWorld S) : Prop := map_Forall (fun _ ac => conn_ok ac) (x_conns x).

(** The account's session, while its socket lives, is in this mailbox. *)
Definition open_at {S} (a : Z) (n : string) (v : Z) (x : WWorld S) : Prop :=
  forall c, ac_client (slot x a) = Some c -> cl_alive c = true -> cl_session c = Some (n, v).

(** ** Runs whose events are justified *)

(** What the account reads needs no justification, [evok] judges the rest. *)
Definition event_ok {S} (a : Z) (evok : list (event S) -> event S -> Prop)
    (pre : list (event S)) (ev : event S) : Prop :=
  match ev with
  | Saw a' _ _ _ | Selected a' _ _ => a' = a
  | _ => evok pre ev
  end.

(** Every event is justified by those before it. *)
Definition justified {S} (a : Z) (evok : list (event S) -> event S -> Prop)
    (run : list (event S)) : Prop :=
  forall pre ev post, run = pre ++ ev :: post -> event_ok a evok pre ev.

Lemma justified_nil {S} a (evok : list (event S) -> event S -> Prop) : justified a evok [].
Proof. intros [|??] ? ?; done. Qed.

Lemma justified_snoc {S} a (evok : list (event S) -> event S -> Prop) run ev :
  justified a evok run -> event_ok a evok run ev -> justified a evok (run ++ [ev]).
Proof.
  intros Hrun Hev pre ev' post Heq. destruct post as [|e post _] using rev_ind.
  - by apply app_inj_tail in Heq as [<- <-].
  - rewrite app_comm_cons, app_assoc in Heq. apply app_inj_tail in Heq as [-> _].
    by eapply Hrun.
Qed.

(** A fact about the trace that later events do not undo. *)
Class Mono {S} (T : list (event S) -> Prop) : Prop := mono l l' : T l -> T (l ++ l').

#[global] Instance Mono_true {S} : Mono (fun _ : list (event S) => True).
Proof. by intros l l'. Qed.
#[global] Instance Mono_and {S} (T T' : list (event S) -> Prop) :
  Mono T -> Mono T' -> Mono (fun l => T l /\ T' l).
Proof. intros ? ? l l' [? ?]. split; by apply mono. Qed.
#[global] Instance Mono_elem {S} (ev : event S) : Mono (elem_of ev).
Proof. intros l l' ?. set_solver. Qed.
#[global] Instance Mono_elem_eta {S} (ev : event S) : Mono (fun l => ev ∈ l).
Proof. apply Mono_elem. Qed.
#[global] Instance Mono_exists {S A} (T : A -> list (event S) -> Prop) :
  (forall a, Mono (T a)) -> Mono (fun l => exists a, T a l).
Proof. intros HT l l' [a Ha]. exists a. by apply HT. Qed.
#[global] Instance Mono_pure {S} (P : Prop) : Mono (fun _ : list (event S) => P).
Proof. by intros l l'. Qed.
#[global] Instance Mono_forall {S A} (T : A -> list (event S) -> Prop) :
  (forall a, Mono (T a)) -> Mono (fun l => forall a, T a l).
Proof. intros HT l l' Ha a. by apply HT. Qed.
#[global] Instance Mono_impl {S} (P : Prop) (T : list (event S) -> Prop) :
  Mono T -> Mono (fun l => P -> T l).
Proof. intros HT l l' Ha HP. by apply HT, Ha. Qed.

(** ** A logic of runs *)

Section logic.
Context {S : Type} `{ImapServer S} `{!ImapWriter S}.
Context (a : Z) (evok : list (event S) -> event S -> Prop) (tr0 : list (event S)).
Abbreviation WM := (M (WWorld S) werr).
Implicit Types (o : option (string * Z)) (T : list (event S) -> Prop).

(** The session is where [o] says, and the run since [tr0] is justified and has [T]. *)
Definition Inv o T (x : WWorld S) : Prop :=
  conn_inv x /\
  match o with Some (n, v) => open_at a n v x | None => True end /\
  exists run, x_trace x = tr0 ++ run /\ justified a evok run /\ T run.

Definition keeps {A} o T (p : WM A) (R : A -> list (event S) -> Prop) : Prop :=
  forall x, Inv o T x ->
  wp p (fun x' r => match r with
                    | inl _ => Inv o T x'
                    | inr v => Inv o (fun l => T l /\ R v l) x'
                    end) x.

Lemma Inv_weaken o T T' x : Inv o T x -> (forall l, T l -> T' l) -> Inv o T' x.
Proof. intros (Hc & Ho & run & Hr & Hj & HT) Hw. split; [done|]. split; [done|]. eauto. Qed.

(** The session assertion may be dropped. *)
Lemma Inv_leave o T x : Inv o T x -> Inv None T x.
Proof. intros (? & _ & ?). by split. Qed.

Lemma keeps_weaken {A} o T (p : WM A) (R R' : A -> list (event S) -> Prop) :
  keeps o T p R -> (forall v l, T l -> R v l -> R' v l) -> keeps o T p R'.
Proof.
  intros Hp Hw x Hx. eapply wp_mono; [by apply Hp|]. intros x' [e|v]; [done|].
  intros Hi. eapply Inv_weaken; [done|]. naive_solver.
Qed.

Lemma keeps_pre {A} o T T' (p : WM A) R :
  keeps o (fun l => T l /\ T' l) p R -> (forall l, T l -> T' l) -> keeps o T p R.
Proof.
  intros Hp Hw x Hx. eapply wp_mono; [apply Hp; eapply Inv_weaken; [done|naive_solver]|].
  intros x' [e|v] Hi; (eapply Inv_weaken; [done|]; naive_solver).
Qed.

Lemma keeps_equiv {A} o T T' (p : WM A) R :
  keeps o T p R -> (forall l, T l <-> T' l) -> keeps o T' p R.
Proof.
  intros Hp Hw x Hx. eapply wp_mono; [apply Hp; eapply Inv_weaken; [exact Hx|apply Hw]|].
  intros x' [e|v] Hi; (eapply Inv_weaken; [exact Hi|]; naive_solver).
Qed.

Lemma keeps_ret {A} o T (v : A) (R : A -> list (event S) -> Prop) :
  (forall l, T l -> R v l) -> keeps o T (mret v) R.
Proof. intros HR x Hx. apply wp_ret. eapply Inv_weaken; [done|]. auto. Qed.

Lemma keeps_throw {A} o T e (R : A -> list (event S) -> Prop) : keeps o T (throw e) R.
Proof. intros x Hx. by apply wp_throw. Qed.

Lemma keeps_bind {A B} o T (p : WM A) (q : A -> WM B) R R' :
  keeps o T p R -> (forall v, keeps o (fun l => T l /\ R v l) (q v) R') ->
  keeps o T (p ≫= q) R'.
Proof.
  intros Hp Hq x Hx. apply wp_bind. eapply wp_mono; [by apply Hp|].
  intros x' [e|v] Hi; [done|]. eapply wp_mono; [by apply Hq|].
  intros x'' [e|w] Hi'; (eapply Inv_weaken; [done|]; naive_solver).
Qed.

(** The continuation may forget what the first part told it. *)
Lemma keeps_bind_with {A B} o T (T' : A -> list (event S) -> Prop) (p : WM A) (q : A -> WM B) R R' :
  keeps o T p R -> (forall v l, T l -> R v l -> T' v l) -> (forall v l, T' v l -> T l) ->
  (forall v, keeps o (T' v) (q v) R') -> keeps o T (p ≫= q) R'.
Proof.
  intros Hp Hto Hfrom Hq x Hx. apply wp_bind. eapply wp_mono; [by apply Hp|].
  intros x' [e|v] Hi; [done|]. eapply wp_mono; [apply Hq|].
  - eapply Inv_weaken; [exact Hi|]. naive_solver.
  - intros x'' [e|w] Hi'; (eapply Inv_weaken; [exact Hi'|]; naive_solver).
Qed.

Lemma keeps_try {A} o T (p : WM A) R :
  keeps o T p R ->
  keeps o T (tryW p) (fun r l => match r with inl _ => True | inr v => R v l end).
Proof.
  intros Hp x Hx. unfold tryW, wp. specialize (Hp x Hx). unfold wp in Hp.
  destruct (p x) as [x' [e|v]]; simpl in *; [|done]. eapply Inv_weaken; [done|]. auto.
Qed.

Lemma keeps_get o T : keeps o T get (fun _ _ => True).
Proof. intros x Hx. apply wp_get. eapply Inv_weaken; [done|]. auto. Qed.

Lemma Inv_conns o T x x' :
  Inv o T x -> x_conns x' = x_conns x -> x_trace x' = x_trace x -> Inv o T x'.
Proof.
  intros (Hc & Ho & Hr) Hx Ht. unfold Inv, conn_inv, open_at, slot. rewrite Hx, Ht. by split.
Qed.

Lemma keeps_tick o T : keeps o T tick (fun _ _ => True).
Proof.
  intros x Hx. unfold wp, tick. destruct (t_other _ _ _) as [w c]. simpl.
  eapply Inv_weaken; [eapply Inv_conns; [exact Hx|done|done]|]. auto.
Qed.

Lemma keeps_in_store {A} o T (p : M (World S) err A) : keeps o T (in_store p) (fun _ _ => True).
Proof.
  intros x Hx. unfold wp, in_store. destruct (p (x_world x)) as [w [e|v]]; simpl.
  - eapply Inv_conns; [exact Hx|done|done].
  - eapply Inv_weaken; [eapply Inv_conns; [exact Hx|done|done]|]. auto.
Qed.

Lemma keeps_stmt {A} o T (p : M (World S) err A) : keeps o T (stmt p) (fun _ _ => True).
Proof.
  eapply keeps_bind; [apply keeps_tick|]. intros ?.
  eapply keeps_weaken; [apply keeps_in_store|]. auto.
Qed.

Lemma keeps_Notify o T b : keeps o T (Notify b) (fun _ _ => True).
Proof.
  intros x Hx. apply wp_modify. eapply Inv_weaken; [eapply Inv_conns; [exact Hx|done|done]|]. auto.
Qed.

Lemma Inv_emit o T ev x :
  Mono T -> Inv o T x -> (forall l, T l -> event_ok a evok l ev) ->
  Inv o (fun l => T l /\ ev ∈ l) (add_event ev x).
Proof.
  intros Hm (Hc & Ho & run & Hr & Hj & HT) Hok. split; [done|]. split; [done|].
  exists (run ++ [ev]). simpl. rewrite Hr, app_assoc. split; [done|]. split.
  - apply justified_snoc; auto.
  - split; [by apply mono|]. set_solver.
Qed.

Lemma keeps_emit o T ev :
  Mono T -> (forall l, T l -> event_ok a evok l ev) -> keeps o T (emit ev) (fun _ l => ev ∈ l).
Proof. intros Hm Hok x Hx. by apply wp_modify, Inv_emit. Qed.

(** ** Commands *)

Definition add_events (evs : list (event S)) (x : WWorld S) : WWorld S :=
  {| x_world := x_world x; x_cols := x_cols x; x_conns := x_conns x; x_closed := x_closed x;
     x_sched := x_sched x; x_trace := x_trace x ++ evs; x_notified := x_notified x |}.

Lemma wp_emits evs (Q : WWorld S -> werr + unit -> Prop) x :
  Q (add_events evs x) (inr tt) -> wp (forM_ evs emit) Q x.
Proof.
  revert x. induction evs as [|ev evs IH]; intros x HQ; simpl.
  - apply wp_ret. unfold add_events in HQ. rewrite app_nil_r in HQ. by destruct x.
  - apply wp_bind, wp_modify, IH. unfold add_events, add_event in *. simpl in *.
    by rewrite <- app_assoc.
Qed.

(** Events that are justified one after the other, after [l]. *)
Definition events_ok (l evs : list (event S)) : Prop :=
  forall pre ev post, evs = pre ++ ev :: post -> event_ok a evok (l ++ pre) ev.

Lemma events_ok_nil l : events_ok l [].
Proof. intros [|??] ??; done. Qed.
Lemma events_ok_one l ev : event_ok a evok l ev -> events_ok l [ev].
Proof.
  intros Hok [|? [|??]] ev' post Heq; simplify_eq/=. by rewrite app_nil_r.
Qed.

Lemma justified_app run evs : justified a evok run -> events_ok run evs -> justified a evok (run ++ evs).
Proof.
  intros Hj. induction evs as [|ev evs IH] using rev_ind; intros Hok; [by rewrite app_nil_r|].
  rewrite app_assoc. apply justified_snoc.
  - apply IH. intros pre ev' post ->. eapply (Hok pre ev' (post ++ [ev])). by rewrite <- app_assoc.
  - by eapply (Hok evs ev []).
Qed.

Lemma conn_ok_slot (x : WWorld S) b : conn_inv x -> conn_ok (slot x b).
Proof. intros Hc. unfold slot. destruct (x_conns x !! b) eqn:E; simpl; [by eapply Hc|done]. Qed.

Lemma conn_inv_set_slot (x : WWorld S) b f :
  conn_inv x -> conn_ok (f (slot x b)) -> conn_inv (set_slot b f x).
Proof. intros Hc Hf. unfold conn_inv, set_slot. simpl. by apply map_Forall_insert_2. Qed.

Lemma slot_set_slot (x : WWorld S) b f : slot (set_slot b f x) b = f (slot x b).
Proof. unfold slot at 1, set_slot. simpl. by rewrite lookup_insert_eq. Qed.

Lemma Inv_kill o T x : Inv o T x -> Inv o T (set_slot a (with_client kill) x).
Proof.
  intros (Hc & Ho & Hr). split; [|split; [|done]].
  - apply conn_inv_set_slot; [done|]. pose proof (conn_ok_slot x a Hc) as Hs. unfold conn_ok in *.
    simpl. by destruct (ac_client (slot x a)).
  - destruct o as [[n v]|]; [|done]. intros c. rewrite slot_set_slot. simpl.
    destruct (ac_client (slot x a)); simpl; [intros [= <-]|done]. done.
Qed.

Lemma keeps_conn o T : keeps o T (conn a) (fun _ _ => True).
Proof.
  eapply keeps_bind; [apply keeps_get|]. intros x.
  destruct (ac_client (slot x a)) as [c|]; [|apply keeps_throw].
  destruct (cl_closed c); [apply keeps_throw|by apply keeps_ret].
Qed.

Definition in_place o (c : client) : Prop :=
  match o with Some nv => cl_session c = Some nv | None => True end.

Lemma wp_conn (Q : WWorld S -> werr + client -> Prop) x :
  Q x (inl ErrNotConnected) ->
  (forall c, ac_client (slot x a) = Some c -> Q x (inr c)) -> wp (conn a) Q x.
Proof.
  intros He Hok. unfold conn. apply wp_bind, wp_get. destruct (ac_client (slot x a)) as [c|] eqn:E.
  - destruct (cl_closed c); [by apply wp_throw|]. apply wp_ret. auto.
  - by apply wp_throw.
Qed.

Lemma wp_tick (Q : WWorld S -> werr + outcome -> Prop) x :
  (forall x' oc, x_conns x' = x_conns x -> x_trace x' = x_trace x -> Q x' (inr oc)) -> wp tick Q x.
Proof.
  intros HQ. unfold wp, tick. destruct (t_other _ _ _) as [w c]. by apply HQ.
Qed.

Lemma keeps_wire {A} o T act evs (R : A -> list (event S) -> Prop) :
  Mono T ->
  (forall c s s' v l, in_place o c -> act c s = inr (s', v) -> T l ->
     events_ok l (evs c s v) /\ R v (l ++ evs c s v)) ->
  keeps o T (wire a act evs) R.
Proof.
  intros Hm Hact x Hx. unfold wire. apply wp_bind, wp_conn; [done|]. intros c Hc.
  apply wp_bind, wp_tick. intros x1 oc Hx1 Ht1.
  assert (Inv o T x1) as Hi1 by (by eapply Inv_conns).
  assert (cl_alive c = true -> in_place o c) as Hplace.
  { destruct Hx as (_ & Ho & _). destruct o as [[n v]|]; [|done]. by apply Ho. }
  assert (cl_alive c = true -> wp (x ← get;
    match act c (w_srv (x_world x)) with
    | inl r => throw (EServer r)
    | inr (s', v) =>
        modify (set_srv s') ;; forM_ (evs c (w_srv (x_world x)) v) emit ;; mret v
    end) (fun x' r => match r with inl _ => Inv o T x' | inr v => Inv o (fun l => T l /\ R v l) x' end)
    x1) as Hrun.
  { intros Hal. apply wp_bind, wp_get. destruct (act c (w_srv (x_world x1))) as [r|[s' v]] eqn:Ea.
    { by apply wp_throw. }
    apply wp_bind, wp_modify, wp_bind, wp_emits, wp_ret.
    destruct Hi1 as (Hci & Hoi & run & Hr & Hj & HT).
    destruct (Hact c _ s' v run (Hplace Hal) Ea HT) as [Hevs HR].
    split; [done|]. split; [done|]. exists (run ++ evs c (w_srv (x_world x1)) v). simpl.
    rewrite Hr, app_assoc. split; [done|]. split; [by apply justified_app|]. split; [by apply mono|done]. }
  destruct oc as [| |r| |].
  - destruct (cl_alive c); [auto|by apply wp_throw].
  - by apply wp_throw.
  - by destruct (cl_alive c); apply wp_throw.
  - apply wp_bind, wp_modify, wp_throw. by apply Inv_kill.
  - destruct (cl_alive c); [|by apply wp_throw].
    apply wp_bind. specialize (Hrun eq_refl). unfold tryW, wp in *.
    destruct ((x ← get; _) x1) as [x2 r2] eqn:E2. simpl in *.
    assert (Inv o T x2) as Hi2.
    { destruct r2; [done|]. eapply Inv_weaken; [exact Hrun|]. naive_solver. }
    by apply Inv_kill.
Qed.

(** A change of the selected mailbox. *)
Lemma keeps_session_wire {A} n v T (act : client -> S -> no_response + (S * A)) f :
  Mono T -> (forall l s, T l -> evok l (Executed a (f n v) s)) ->
  keeps (Some (n, v)) T (wire a act (session_event a f))
    (fun _ l => exists s, Executed a (f n v) s ∈ l).
Proof.
  intros Hm Hok. apply keeps_wire; [done|]. intros c s s' w l Hpl _ HT. unfold session_event.
  simpl in Hpl. rewrite Hpl. split; [apply events_ok_one; exact (Hok _ _ HT)|]. exists s. set_solver.
Qed.

(** A command that changes nothing and tells nothing. *)
Lemma keeps_quiet_wire {A} o T (act : client -> S -> no_response + (S * A)) :
  Mono T -> keeps o T (wire a act no_events) (fun _ _ => True).
Proof.
  intros Hm. apply keeps_wire; [done|]. intros c s s' w l _ _ _. split; [apply events_ok_nil|done].
Qed.

Lemma keeps_fetch_wire o T (act : client -> S -> no_response + (S * list Fetched)) :
  Mono T -> keeps o T (wire a act (seen_events a))
    (fun fs l => o <> None -> forall f, f ∈ fs -> exists n v, Saw a n v f ∈ l).
Proof.
  intros Hm. apply keeps_wire; [done|]. intros c s s' fs l Hpl _ HT. unfold seen_events.
  destruct (cl_session c) as [[n v]|] eqn:E.
  - split.
    + intros pre ev post Heq.
      assert (ev ∈ Saw a n v <$> fs) as Hin by (rewrite Heq; set_solver).
      by apply list_elem_of_fmap in Hin as (f & -> & _).
    + intros _ f Hf. exists n, v. apply elem_of_app. right. by apply list_elem_of_fmap_2.
  - split; [apply events_ok_nil|]. intros Ho. destruct o; [|done]. simpl in Hpl. congruence.
Qed.

Lemma keeps_selectedMailbox o T : keeps o T (selectedMailbox a) (fun _ _ => True).
Proof.
  eapply keeps_bind; [apply keeps_conn|]. intros c. case_match; [apply keeps_throw|by apply keeps_ret].
Qed.
Lemma keeps_requireCap o T name : keeps o T (requireCap a name) (fun _ _ => True).
Proof.
  eapply keeps_bind; [apply keeps_get|]. intros c. case_match; [by apply keeps_ret|apply keeps_throw].
Qed.

(** Step through a computation. *)
Ltac kstep :=
  match goal with
  | |- keeps _ _ (mret _) _ => apply keeps_ret; try (intros; exact I)
  | |- keeps _ _ (throw _) _ => apply keeps_throw
  | |- keeps _ _ (stmt _) _ => eapply keeps_weaken; [apply keeps_stmt|intros; exact I]
  | |- keeps _ _ (conn _) _ => eapply keeps_weaken; [apply keeps_conn|intros; exact I]
  | |- keeps _ _ (selectedMailbox _) _ => eapply keeps_weaken; [apply keeps_selectedMailbox|intros; exact I]
  | |- keeps _ _ (requireCap _ _) _ => eapply keeps_weaken; [apply keeps_requireCap|intros; exact I]
  | |- keeps _ _ get _ => eapply keeps_weaken; [apply keeps_get|intros; exact I]
  | |- keeps _ _ (if ?b then _ else _) _ => destruct b
  end.
(** A step whose result says nothing about the trace. *)
Ltac kbind := eapply keeps_bind with (R := fun _ _ => True); [repeat kstep|intros ?].

Lemma keeps_FetchMessages o T us spec :
  Mono T -> keeps o T (FetchMessages a us spec)
    (fun fs l => o <> None -> forall f, f ∈ fs -> exists n v, Saw a n v f ∈ l).
Proof.
  intros Hm. unfold FetchMessages. kbind. case_match.
  - apply keeps_ret. set_solver.
  - apply keeps_fetch_wire, _.
Qed.

Lemma keeps_fetchOne o T u :
  Mono T -> keeps o T (fetchOne a u)
    (fun r l => o <> None -> forall f, r = Some f -> exists n v, Saw a n v f ∈ l).
Proof.
  intros Hm. eapply keeps_bind; [by apply keeps_FetchMessages|]. intros fs. apply keeps_ret.
  intros l [_ Hl] Ho f Hf. apply (Hl Ho). apply last_Some_elem_of, list_elem_of_filter in Hf. tauto.
Qed.

Lemma keeps_need {A} o T (r : option A) :
  keeps o T (need r) (fun w _ => r = Some w).
Proof. destruct r; [by apply keeps_ret|apply keeps_throw]. Qed.

(** [fetchOne], then an error unless the message is still there. *)
Lemma keeps_fetch_bind {B} n' v' T u (q : Fetched -> WM B) R :
  Mono T ->
  (forall f, keeps (Some (n', v')) (fun l => T l /\ exists n v, Saw a n v f ∈ l) (q f) R) ->
  keeps (Some (n', v')) T (msg ← fetchOne a u; f ← need msg; q f) R.
Proof.
  intros Hm Hq.
  eapply (keeps_bind_with _ _ (fun r l => T l /\ forall f, r = Some f -> exists n v, Saw a n v f ∈ l));
    [by apply keeps_fetchOne|naive_solver|naive_solver|]. intros r.
  eapply (keeps_bind_with _ _ (fun f l => (T l /\ forall f, r = Some f -> exists n v, Saw a n v f ∈ l)
    /\ r = Some f)); [apply keeps_need|naive_solver|naive_solver|]. intros f.
  intros x Hx. assert (r = Some f) as -> by (destruct Hx as (_ & _ & _ & _ & _ & _ & ?); done).
  eapply wp_mono; [apply Hq|].
  - eapply Inv_weaken; [exact Hx|]. naive_solver.
  - intros x' [e|w] Hi; (eapply Inv_weaken; [exact Hi|]; naive_solver).
Qed.

Lemma keeps_stmt_val {A} o T (p : M (World S) err A) (P : A -> Prop) :
  (forall w, wp p (fun _ r => forall v, r = inr v -> P v) w) ->
  keeps o T (stmt p) (fun v _ => P v).
Proof.
  intros HP. eapply keeps_bind; [apply keeps_tick|]. intros ? x Hx.
  pose proof (keeps_in_store o _ p x Hx) as Hk. specialize (HP (x_world x)).
  unfold wp, in_store in *. destruct (p (x_world x)) as [w [e|u]]; simpl in *; [done|].
  eapply Inv_weaken; [exact Hk|]. naive_solver.
Qed.

Lemma keeps_found {A} o T e (p : WM A) R : keeps o T p R -> keeps o T (found e p) R.
Proof.
  intros Hp. eapply keeps_bind; [by apply keeps_try|]. intros [e'|w]; [case_match; apply keeps_throw|].
  apply keeps_ret. naive_solver.
Qed.

Lemma keeps_GetAccount o T : keeps o T (GetAccount a) (fun _ _ => True).
Proof. unfold GetAccount. kbind. kbind. repeat kstep. Qed.

(** ** Selecting a mailbox *)

Lemma wp_and {W E A} (p : M W E A) (P Q : W -> E + A -> Prop) x :
  wp p P x -> wp p Q x -> wp p (fun x r => P x r /\ Q x r) x.
Proof. done. Qed.

Lemma wp_tryW {A} (p : WM A) (Q : WWorld S -> werr + (werr + A) -> Prop) x :
  wp p (fun x' r => Q x' (inr r)) x -> wp (tryW p) Q x.
Proof. unfold wp, tryW. by destruct (p x). Qed.

(** The other accounts' slots, and the run. *)
Definition others_ok (x : WWorld S) : Prop :=
  forall b ac, b <> a -> x_conns x !! b = Some ac -> conn_ok ac.
Definition run_ok T (x : WWorld S) : Prop :=
  exists run, x_trace x = tr0 ++ run /\ justified a evok run /\ T run.

Lemma Inv_parts o T x : Inv o T x -> others_ok x /\ run_ok T x.
Proof. intros (Hc & _ & Hr). split; [|done]. intros b ac _. apply Hc. Qed.

Lemma others_ok_set_slot f x : others_ok x -> others_ok (set_slot a f x).
Proof. intros Ho b ac Hb. simpl. rewrite lookup_insert_ne by done. by apply Ho. Qed.

Lemma Inv_set_slot o T f x :
  others_ok x -> run_ok T x -> conn_ok (f (slot x a)) ->
  match o with
  | Some (n, v) => forall c, ac_client (f (slot x a)) = Some c -> cl_alive c = true ->
      cl_session c = Some (n, v)
  | None => True
  end -> Inv o T (set_slot a f x).
Proof.
  intros Ho Hr Hf Hpl. split; [|split; [|done]].
  - intros b ac. simpl. rewrite lookup_insert_Some. intros [[<- <-]|[Hb Hac]]; [done|]. by eapply Ho.
  - destruct o as [[n v]|]; [|done]. intros c. rewrite slot_set_slot. apply Hpl.
Qed.

(** A command that was answered was sent on a connection. *)
Lemma wire_connected {A} act evs (x : WWorld S) :
  wp (wire (A := A) a act evs)
    (fun x' r => forall v, r = inr v -> is_Some (ac_client (slot x' a))) x.
Proof.
  unfold wire. apply wp_bind, wp_conn; [done|]. intros c Hc. apply wp_bind, wp_tick.
  intros x1 oc Hx1 _.
  assert (is_Some (ac_client (slot x1 a))) as Hs by (unfold slot in *; rewrite Hx1; eauto).
  destruct oc as [| |r| |]; try (by apply wp_throw).
  - destruct (cl_alive c); [|by apply wp_throw]. apply wp_bind, wp_get.
    destruct (act c _) as [r|[s' v]]; [by apply wp_throw|].
    by apply wp_bind, wp_modify, wp_bind, wp_emits, wp_ret.
  - by destruct (cl_alive c); apply wp_throw.
  - by apply wp_bind, wp_modify, wp_throw.
  - destruct (cl_alive c); [|by apply wp_throw]. apply wp_bind, wp_any. intros x2 [e|?]; [done|].
    by apply wp_bind, wp_modify, wp_throw.
Qed.

Lemma wp_SelectQResync T mailbox x :
  Mono T -> Inv None T x ->
  wp (SelectQResync a mailbox) (fun x' r => others_ok x' /\ run_ok T x' /\
    match r with
    | inr sel => exists c, ac_client (slot x' a) = Some c /\
        (cl_alive c = true -> cl_session c = Some (mailbox, sel_UIDValidity sel))
    | inl _ => True
    end) x.
Proof.
  intros Hm Hx. unfold SelectQResync. apply wp_bind, wp_tryW.
  assert (keeps None T (wire a (select_act mailbox)
    (fun _ _ sel => [Selected a mailbox (sel_UIDValidity sel)])) (fun _ _ => True)) as Hk.
  { apply keeps_wire; [done|]. intros c s s' sel l _ _ _. split; [|done]. by apply events_ok_one. }
  eapply wp_mono; [apply wp_and; [apply Hk, Hx|apply wire_connected]|].
  intros x1 [e|sel] [Hi Hc]; [|].
  - apply Inv_parts in Hi as [Ho Hr]. destruct e; try (by apply wp_throw).
    apply wp_bind, wp_modify. case_match; apply wp_throw; (split; [by apply others_ok_set_slot|done]).
  - apply Inv_parts in Hi as [Ho Hr]. apply wp_bind, wp_modify, wp_ret.
    split; [by apply others_ok_set_slot|]. split.
    + destruct Hr as (run & ? & ? & ? & ?). by exists run.
    + destruct (Hc sel eq_refl) as [c Hcl]. rewrite slot_set_slot. simpl. rewrite Hcl. simpl. eauto.
Qed.

(** ** [withMailbox] *)

Lemma wp_ensure T (Q : WWorld S -> werr + unit -> Prop) x :
  Inv None T x ->
  (forall x' e, Inv None T x' -> Q x' (inl e)) ->
  (forall x', Inv None T x' -> is_Some (ac_client (slot x' a)) -> Q x' (inr tt)) ->
  wp (ensure a) Q x.
Proof.
  intros Hx He Hok. unfold ensure. apply wp_bind, wp_get.
  destruct (ac_client (slot x a)) as [c|] eqn:Ec; [apply wp_ret; eauto|].
  apply wp_bind, wp_tick. intros x1 oc Hx1 Ht1.
  assert (Inv None T x1) as Hi1 by (by eapply Inv_conns).
  destruct oc; try (apply wp_throw; auto).
  apply wp_bind, wp_get, wp_modify. apply Hok; [|rewrite slot_set_slot; simpl; eauto].
  pose proof (conn_ok_slot x1 a (proj1 Hi1)) as Hs.
  assert (slot x1 a = slot x a) as Hslot by (unfold slot; by rewrite Hx1).
  apply Inv_parts in Hi1 as [Ho Hr]. apply Inv_set_slot; [done|done| |done].
  unfold conn_ok in *. rewrite Hslot, Ec in Hs. simpl. rewrite Hslot, Hs. done.
Qed.

Lemma Inv_discard T x : others_ok x -> run_ok T x -> Inv None T (set_slot a (fun _ => no_conn) x).
Proof. intros Ho Hr. by apply Inv_set_slot. Qed.

(** A computation that runs in the selected mailbox and may leave it. *)
Definition inside {A} o T (p : WM A) (R : A -> list (event S) -> Prop) : Prop :=
  forall x, Inv o T x ->
  wp p (fun x' r => match r with
                    | inl _ => Inv None T x'
                    | inr v => Inv None (fun l => T l /\ R v l) x'
                    end) x.

Lemma selection_open (x : WWorld S) mailbox sel :
  conn_inv x -> selection (slot x a) mailbox = Some sel -> open_at a mailbox (sel_UIDValidity sel) x.
Proof.
  unfold selection. intros Hc Hs. pose proof (conn_ok_slot x a Hc) as Hok. unfold conn_ok in Hok.
  destruct (bool_decide (ac_client (slot x a) = None) || _ || _) eqn:E; [done|]. simplify_eq.
  apply orb_false_elim in E as [[_ En%bool_decide_eq_false]%orb_false_elim Em].
  apply negb_false_iff, bool_decide_eq_true in Em. subst mailbox.
  intros c Hcl Hal. rewrite Hcl in Hok. auto.
Qed.

Lemma keeps_mailbox_attempts {A} retry mailbox (fn : SelectResult -> WM A) T R :
  Mono T -> (forall sel, inside (Some (mailbox, sel_UIDValidity sel)) T (fn sel) R) ->
  keeps None T (mailbox_attempts retry a mailbox fn) R.
Proof.
  intros Hm Hfn. induction retry as [|retry IH]; intros x Hx; cbn [mailbox_attempts];
    (apply wp_bind; eapply wp_ensure; [exact Hx|done|]); intros x1 Hx1 _;
    apply wp_bind, wp_get;
    (destruct (selection (slot x1 a) mailbox) as [sel|] eqn:Esel; apply wp_bind, wp_tryW).
  all: try (assert (Inv (Some (mailbox, sel_UIDValidity sel)) T x1) as Hin
              by (split; [apply Hx1|]; split; [by eapply selection_open; [apply Hx1|]|apply Hx1])).
  all: try (eapply wp_mono; [by apply Hfn|]; intros x2 [e|w] Hi2; [|by apply wp_ret]).
  all: try (eapply wp_mono; [by apply wp_SelectQResync|]; intros x2 [e|sel] (Ho2 & Hr2 & Hsel)).
  - by apply wp_throw.
  - unfold discard. by apply wp_bind, wp_modify, wp_throw, Inv_discard.
  - destruct Hsel as (c & Hcl & Hal). apply wp_bind, wp_modify. apply Hfn.
    apply Inv_set_slot; [done|done| |]; unfold conn_ok; simpl; rewrite Hcl; [auto|by intros ? [= <-]].
  - case_match; [|by apply wp_throw]. unfold discard. apply wp_bind, wp_modify, IH.
    apply Inv_parts in Hi2 as [??]. by apply Inv_discard.
  - unfold discard. apply wp_bind, wp_modify, IH. by apply Inv_discard.
  - destruct Hsel as (c & Hcl & Hal). apply wp_bind, wp_modify. apply Hfn.
    apply Inv_set_slot; [done|done| |]; unfold conn_ok; simpl; rewrite Hcl; [auto|by intros ? [= <-]].
Qed.

Lemma keeps_withMailbox {A} mailbox (fn : SelectResult -> WM A) T R :
  Mono T -> (forall sel, inside (Some (mailbox, sel_UIDValidity sel)) T (fn sel) R) ->
  keeps None T (withMailbox a mailbox fn) R.
Proof.
  intros Hm Hfn. unfold withMailbox, forAccount. intros x Hx. apply wp_bind, wp_bind, wp_get.
  destruct (x_closed x); [by apply wp_throw|]. apply wp_modify.
  apply keeps_mailbox_attempts; [done|done|]. pose proof (conn_ok_slot x a (proj1 Hx)) as Hs.
  apply Inv_parts in Hx as [??]. by apply Inv_set_slot.
Qed.

Lemma inside_keeps {A} o T (p : WM A) R : keeps o T p R -> inside o T p R.
Proof.
  intros Hp x Hx. eapply wp_mono; [by apply Hp|]. intros x' [e|w] Hi; by eapply Inv_leave.
Qed.

Lemma inside_bind {A B} o T (p : WM A) (q : A -> WM B) R R' :
  keeps o T p R -> (forall w, inside o (fun l => T l /\ R w l) (q w) R') ->
  inside o T (p ≫= q) R'.
Proof.
  intros Hp Hq x Hx. apply wp_bind. eapply wp_mono; [by apply Hp|].
  intros x' [e|w] Hi; [by eapply Inv_leave|]. eapply wp_mono; [by apply Hq|].
  intros x'' [e|u] Hi'; (eapply Inv_weaken; [done|]; naive_solver).
Qed.

Lemma inside_reselect {B} o mailbox T (q : SelectResult -> WM B) R :
  Mono T -> (forall sel, inside (Some (mailbox, sel_UIDValidity sel)) T (q sel) R) ->
  inside o T (reselect a mailbox ≫= q) R.
Proof.
  intros Hm Hq x Hx. apply wp_bind. unfold reselect. apply wp_bind, wp_tryW.
  eapply wp_mono; [apply wp_SelectQResync; [done|by eapply Inv_leave]|].
  intros x2 [e|sel] (Ho2 & Hr2 & Hsel).
  - apply wp_bind, wp_modify, wp_throw, Inv_set_slot; [done|done| |done].
    unfold conn_ok. simpl. by destruct (ac_client (slot x2 a)).
  - destruct Hsel as (c & Hcl & Hal). apply wp_bind, wp_modify, wp_ret, Hq.
    apply Inv_set_slot; [done|done| |]; unfold conn_ok; simpl; rewrite Hcl; [auto|by intros ? [= <-]].
Qed.

(** What a checked UIDVALIDITY means for the session. *)
Lemma inside_checked {B} n sel k T (p : WM B) R :
  inside (Some (n, key_validity k)) T p R ->
  inside (Some (n, sel_UIDValidity sel)) T (checkUIDValidity sel k ;; p) R.
Proof.
  intros Hp x Hx. apply wp_bind. unfold checkUIDValidity.
  destruct (sel_UIDValidity sel =? key_validity k) eqn:E.
  - apply wp_ret. apply Z.eqb_eq in E. rewrite E in Hx. by apply Hp.
  - apply wp_throw. by eapply Inv_leave.
Qed.

(** ** Files and columns *)

Lemma keeps_cols o T f : keeps o T (modify (set_cols f)) (fun _ _ => True).
Proof.
  intros x Hx. apply wp_modify. eapply Inv_weaken; [eapply Inv_conns; [exact Hx|done|done]|]. auto.
Qed.

Lemma keeps_fs {A} o T (run : WM A) R : keeps o T run R -> keeps o T (fs_turn run) R.
Proof.
  intros Hr x Hx. apply wp_bind. eapply wp_mono; [apply keeps_tick, Hx|].
  intros x1 [e|oc] Hi; [done|].
  assert (Inv o T x1) as Hi1 by (eapply Inv_weaken; [exact Hi|naive_solver]).
  destruct oc; try by apply wp_throw.
  - by apply Hr.
  - apply wp_bind. eapply wp_mono; [by apply Hr|]. intros x2 [e|v] Hi2; [done|]. apply wp_throw.
    eapply Inv_weaken; [exact Hi2|]. naive_solver.
Qed.

(** A command outside any mailbox. *)
Lemma keeps_plain_wire {A} o T (act : client -> S -> no_response + (S * A)) mu :
  Mono T -> (forall l s, T l -> evok l (Executed a mu s)) ->
  keeps o T (wire a act (plain_event a mu)) (fun _ l => exists s, Executed a mu s ∈ l).
Proof.
  intros Hm Hok. apply keeps_wire; [done|]. intros c s s' w l _ _ HT. unfold plain_event.
  split; [apply events_ok_one; exact (Hok _ _ HT)|]. exists s. set_solver.
Qed.

(** ** [withConn] *)

Lemma keeps_slot T f :
  (forall ac, conn_ok ac -> conn_ok (f ac)) -> keeps None T (modify (set_slot a f)) (fun _ _ => True).
Proof.
  intros Hf x Hx. apply wp_modify. pose proof (conn_ok_slot x a (proj1 Hx)) as Hs.
  apply Inv_parts in Hx as [Ho Hr]. eapply Inv_weaken; [apply Inv_set_slot; [done|exact Hr|auto|done]|done].
Qed.

Lemma conn_ok_forget ac : conn_ok ac -> conn_ok (forgetSelection ac).
Proof. unfold conn_ok. simpl. by destruct (ac_client ac). Qed.

Lemma keeps_ensure T : keeps None T (ensure a) (fun _ _ => True).
Proof.
  intros x Hx. eapply wp_ensure; [exact Hx|done|]. intros x' Hi _. eapply Inv_weaken; [exact Hi|done].
Qed.

Lemma keeps_discard T : keeps None T (discard a) (fun _ _ => True).
Proof. by apply keeps_slot. Qed.

Lemma keeps_conn_attempts {A} retry (fn : WM A) T R :
  keeps None T fn R -> keeps None T (conn_attempts retry a fn) R.
Proof.
  intros Hfn. induction retry as [|retry IH]; cbn [conn_attempts];
    (eapply (keeps_bind_with _ _ (fun _ => T)); [apply keeps_try, keeps_ensure|naive_solver|done|]);
    intros [e|[]]; [apply keeps_throw| |apply IH|].
  all: eapply keeps_bind; [by apply keeps_try|]; intros [e|v]; [|apply keeps_ret; naive_solver].
  - apply keeps_throw.
  - case_match; [|apply keeps_throw].
    eapply keeps_bind; [apply keeps_discard|]. intros []. eapply keeps_equiv; [exact IH|]. naive_solver.
Qed.

Lemma keeps_withConn {A} (fn : WM A) T R : keeps None T fn R -> keeps None T (withConn a fn) R.
Proof.
  intros Hfn. unfold withConn, forAccount.
  eapply (keeps_bind_with _ _ (fun _ => T)) with (R := fun _ _ => True); [|naive_solver|done|].
  { eapply keeps_bind; [apply keeps_get|]. intros y. case_match; [apply keeps_throw|].
    eapply keeps_weaken; [by apply keeps_slot|done]. }
  intros _. eapply (keeps_bind_with _ _ (fun _ => T)); [apply keeps_slot, conn_ok_forget|naive_solver|done|].
  intros _. eapply keeps_bind; [by apply keeps_try, keeps_conn_attempts|].
  intros r. eapply keeps_bind; [apply keeps_slot, conn_ok_forget|].
  intros []. destruct r as [e|v]; [apply keeps_throw|]. apply keeps_ret. naive_solver.
Qed.
End logic.

(** Step through a computation. *)
Ltac kstep :=
  match goal with
  | |- keeps _ _ _ _ _ (mret _) _ => apply keeps_ret; try (intros; exact I)
  | |- keeps _ _ _ _ _ (throw _) _ => apply keeps_throw
  | |- keeps _ _ _ _ _ (stmt _) _ => eapply keeps_weaken; [apply keeps_stmt|intros; exact I]
  | |- keeps _ _ _ _ _ (conn _) _ => eapply keeps_weaken; [apply keeps_conn|intros; exact I]
  | |- keeps _ _ _ _ _ (selectedMailbox _) _ => eapply keeps_weaken; [apply keeps_selectedMailbox|intros; exact I]
  | |- keeps _ _ _ _ _ (requireCap _ _) _ => eapply keeps_weaken; [apply keeps_requireCap|intros; exact I]
  | |- keeps _ _ _ _ _ get _ => eapply keeps_weaken; [apply keeps_get|intros; exact I]
  | |- keeps _ _ _ _ _ (if ?b then _ else _) _ => destruct b
  end.
(** A step whose result says nothing about the trace. *)
Ltac kbind := eapply keeps_bind with (R := fun _ _ => True); [repeat kstep|intros ?].

