(* ===== verification/WriteSafety.v ===== *)
(** What a client-initiated write may do (src/internal/sync/write.go), whatever else happens
    on the server, in the store and on the wire meanwhile.

    The trace of a run is checked event by event against [ev_ok], the contract of the
    file's opening comment: a change is executed only on the message that was resolved for
    this account, in the mailbox and under the UIDVALIDITY of its row; the store learns
    flags only from a read-back, and that a message left its place only after the server
    executed the move or the expunge; an expunge happens in Trash only. Underneath lies the
    invariant of the connection cache, [conn_inv] (WriteLogic). *)

From S2P Require Import Prelude Convert Utf8 Text Store Imap Pipeline Incremental WriteWorld ImapClient WriteLaws Write WriteLogic.
From S2P Require Import Append Folders Snooze.
#[local] Open Scope Z_scope.

(** ** The contract of a write *)

(** The mailbox, the UIDVALIDITY and the UID of a row. *)
Definition hits (k : state_key) (mb : Mailbox) (n : string) (v : Z) (uids : list Z) : Prop :=
  n = mb_Name mb /\ v = key_validity k /\ uids = [uidFromDB (key_uid k)].

Section contract.
Context {S : Type} (sha256 : string -> string) (a m : Z).
Implicit Types pre : list (event S).

Definition resolved pre (P : state_key -> MessageState -> Mailbox -> Prop) : Prop :=
  exists k st mb, Targeted a m (Some a) k st mb ∈ pre /\ P k st mb.

(** The bytes of the message, read from its blob, are on the server again. *)
Definition returned pre : Prop :=
  exists h raw n flags date s, Loaded m h raw ∈ pre /\ Executed a (MAppend n raw flags date) s ∈ pre.

(** Where a message may be expunged. *)
Definition expungeable pre (mb : Mailbox) : Prop :=
  mb_Role mb = RoleTrash \/ (EqualFold (mb_Name mb) SnoozeMailboxName = true /\ returned pre).

Definition change_ok pre (mu : mutation) : Prop :=
  match mu with
  | MStore n v uids _ _ _ => resolved pre (fun k _ mb => hits k mb n v uids)
  | MMove n v uids dest => resolved pre (fun k _ mb => hits k mb n v uids) /\
      exists t, Resolved a t ∈ pre /\ dest = mb_Name t
  | MExpunge n v uids => resolved pre (fun k _ mb => hits k mb n v uids /\ expungeable pre mb)
  | MAppend n _ _ _ => exists t, Resolved a t ∈ pre /\ n = mb_Name t
  | MCreate n | MSubscribe n _ => n = SnoozeMailboxName
  | MRename _ _ | MDelete _ => False
  end.

(** The server was told to take the message of row [k] out of its mailbox, and did. *)
Definition left_mailbox pre (k : state_key) : Prop :=
  exists mb s mu, Executed a mu s ∈ pre /\
    match mu with
    | MMove n v uids _ | MExpunge n v uids => hits k mb n v uids
    | _ => False
    end.

Definition ev_ok pre (ev : event S) : Prop :=
  match ev with
  | Targeted a' m' owner k st mb =>
      a' = a /\ m' = m /\ owner = Some a /\ ms_MessageID st = m /\ ms_DeletedAt st = None
  | Resolved a' t => a' = a /\ mb_AccountID t = a /\ mb_Selectable t = true
  | Executed a' mu _ => a' = a /\ change_ok pre mu
  | Saw _ _ _ _ | Selected _ _ _ => True
  | Reflected u => exists n v f, Saw a n v f ∈ pre /\ u = flag_update_of m f
  | Tombstoned k => left_mailbox pre k
  | Repointed m' _ => m' = m /\ exists k, left_mailbox pre k
  | Inserted a' nm => a' = a /\ exists t raw flags date s n v f v',
      Resolved a t ∈ pre /\ Executed a (MAppend (mb_Name t) raw flags date) s ∈ pre /\
      Saw a n v f ∈ pre /\ nm_Key nm = (mb_ID t, v', f_UID f) /\
      RawSHA256 (nm_Message nm) = sha256 raw
  | Loaded m' _ _ => m' = m
  end.

Lemma resolved_mono pre pre' P : resolved pre P -> resolved (pre ++ pre') P.
Proof. intros (k & st & mb & Hin & HP). exists k, st, mb. set_solver. Qed.

End contract.

Section logic.
Context {S : Type} `{ImapServer S} `{!ImapWriter S}.
Context (sha256 : string -> string) (a m : Z) (tr0 : list (event S)).
Abbreviation WM := (M (WWorld S) werr).
Abbreviation keeps := (keeps a (ev_ok sha256 a m) tr0).
Abbreviation Inv := (Inv a (ev_ok sha256 a m) tr0).
Abbreviation inside := (inside a (ev_ok sha256 a m) tr0).
Implicit Types (o : option (string * Z)) (T : list (event S) -> Prop).

(** ** The operations on the selected mailbox *)

Section at_target.
Context (k : state_key) (st : MessageState) (mb : Mailbox).
Hypothesis Hst : ms_MessageID st = m.
Let n := mb_Name mb.
Let v := key_validity k.
Let uid := uidFromDB (key_uid k).
Let here := Some (n, v).

(** The run has resolved the message to this row. *)
Definition knows T : Prop := forall l, T l -> Targeted a m (Some a) k st mb ∈ l.

Lemma knows_and T T' : knows T -> knows (fun l => T l /\ T' l).
Proof. intros Hk l [? _]. by apply Hk. Qed.
#[local] Hint Resolve knows_and : core.

Lemma knows_resolved T l (P : state_key -> MessageState -> Mailbox -> Prop) :
  knows T -> T l -> P k st mb -> resolved a m l P.
Proof. intros Hk HT HP. exists k, st, mb. split; [by apply Hk|done]. Qed.

Lemma keeps_storeBatch T op flags since :
  Mono T -> knows T -> keeps here T (storeBatch a [uid] op flags since) (fun _ _ => True).
Proof.
  intros Hm Hk. unfold storeBatch.
  eapply keeps_bind; [apply keeps_session_wire; [done|]|].
  { intros l s HT. split; [done|]. simpl. eapply knows_resolved; [done|done|]. done. }
  intros d. case_match; [by apply keeps_ret|].
  assert (forall T' missing, Mono T' ->
    keeps here T' (verifyByReadBack a missing since) (fun _ _ => True)) as Hverify.
  { intros T' missing Hm'. eapply keeps_bind; [by apply keeps_quiet_wire|]. intros ?. by apply keeps_ret. }
  assert (forall T', Mono T' -> forall b (r : StoreResult) (f : list Z -> StoreResult) missing,
    keeps here T' (if b : bool then mret r else rejected ← verifyByReadBack a missing since; mret (f rejected))
      (fun _ _ => True)) as Hfall.
  { intros T' Hm' b r f missing. destruct b; [by apply keeps_ret|].
    eapply keeps_bind; [by apply Hverify|]. intros ?. by apply keeps_ret. }
  destruct (sd_modified d) as [| |nums]; cbn [uidsFromUIDSet]; [apply Hfall, _|apply Hfall, _|].
  destruct (_ <? _)%nat; [apply Hfall, _|by apply keeps_ret].
Qed.

Lemma keeps_StoreFlags T op flags since :
  Mono T -> knows T -> keeps here T (StoreFlags a [uid] op flags since) (fun _ _ => True).
Proof.
  intros Hm Hk. unfold StoreFlags. rewrite bool_decide_eq_false_2 by done.
  kbind. kbind. cbn [List.length slices storeBatchSize take drop store_batches].
  eapply keeps_bind; [apply keeps_storeBatch; [apply _|auto]|]. intros ?. by apply keeps_ret.
Qed.

(** A read-back is put into the store as it came. *)
Lemma keeps_reflectFlags o T f :
  Mono T -> (forall l, T l -> exists n v, Saw a n v f ∈ l) ->
  keeps o T (reflectFlags st f) (fun _ _ => True).
Proof.
  intros Hm Hsaw. unfold reflectFlags. kbind; [|by apply keeps_ret].
  kbind. eapply keeps_weaken; [apply keeps_emit; [apply _|]|done].
  intros l [HT _]. destruct (Hsaw l HT) as (n' & v' & Hin). exists n', v', f. by rewrite Hst.
Qed.

Lemma keeps_storeReplace T flags :
  Mono T -> knows T -> keeps here T (storeReplace a st uid flags) (fun _ _ => True).
Proof.
  intros Hm Hk. unfold storeReplace.
  eapply keeps_bind with (R := fun _ _ => True).
  { case_match; [|by apply keeps_ret]. apply keeps_fetch_bind; [done|]. intros f. by apply keeps_ret. }
  intros since. eapply keeps_bind; [apply keeps_StoreFlags; [apply _|auto]|]. intros res.
  case_match; [by apply keeps_ret|]. apply keeps_fetch_bind; [apply _|]. intros fresh.
  assert (forall T' f, Mono T' -> (forall l, T' l -> exists n v, Saw a n v f ∈ l) ->
    keeps here T' (reflectFlags st f ;; throw (A := unit) ErrWriteConflict) (fun _ _ => True)) as Hlast.
  { intros T' f Hm' Hsaw. eapply keeps_bind; [by apply keeps_reflectFlags|]. intros ?. apply keeps_throw. }
  case_match; [|apply Hlast; [apply _|naive_solver]].
  eapply keeps_bind; [apply keeps_StoreFlags; [apply _|auto]|]. intros res2.
  case_match; [by apply keeps_ret|]. apply keeps_fetch_bind; [apply _|]. intros f2.
  apply Hlast; [apply _|naive_solver].
Qed.

Lemma keeps_Move T dest :
  Mono T -> knows T -> (forall l, T l -> exists t, Resolved a t ∈ l /\ dest = mb_Name t) ->
  keeps here T (Move a [uid] dest) (fun _ l => exists s, Executed a (MMove n v [uid] dest) s ∈ l).
Proof.
  intros Hm Hk Hdest. unfold Move. rewrite bool_decide_eq_false_2 by done. case_match; [apply keeps_throw|].
  kbind. kbind. kbind.
  eapply keeps_bind; [apply keeps_session_wire; [apply _|]|].
  { intros l s [[[HT _] _] _]. split; [done|]. split; [|by apply Hdest].
    eapply knows_resolved; [done|done|]. done. }
  intros [cd|]; apply keeps_ret; naive_solver.
Qed.

Lemma keeps_Expunge T :
  Mono T -> knows T -> (forall l, T l -> expungeable a m l mb) ->
  keeps here T (Expunge a [uid]) (fun _ l => exists s, Executed a (MExpunge n v [uid]) s ∈ l).
Proof.
  intros Hm Hk Hexp. unfold Expunge. rewrite bool_decide_eq_false_2 by done. kbind. kbind.
  eapply keeps_bind; [apply keeps_session_wire; [apply _|]|].
  { intros l s [[HT _] _]. split; [done|]. simpl. eapply knows_resolved; [done|done|]. done. }
  intros d. apply keeps_session_wire; [apply _|]. intros l s [[[HT _] _] _]. split; [done|].
  simpl. eapply knows_resolved; [done|done|]. split; [done|]. by apply Hexp.
Qed.

Lemma keeps_tombstone_row o T :
  Mono T -> (forall l, T l -> left_mailbox a l k) -> keeps o T (tombstone_row k) (fun _ _ => True).
Proof.
  intros Hm Hleft. unfold tombstone_row. kbind.
  eapply keeps_weaken; [apply keeps_emit; [apply _|]|done]. intros l [HT _]. by apply Hleft.
Qed.
End at_target.

(** ** The statements before it *)

Lemma GetMessageState_id id w :
  wp (GetMessageState (S := S) id) (fun _ r => forall ks, r = inr ks -> ms_MessageID ks.2 = id) w.
Proof.
  unfold GetMessageState. apply wp_bind, wp_io; [done|]. wp_steps.
  destruct (state_row _ id) as [ks|] eqn:E; [|by apply wp_throw]. apply wp_ret. intros ? [= <-].
  apply List.find_some in E as [_ Heq]. by apply Z.eqb_eq in Heq.
Qed.

Lemma keeps_target T :
  Mono T ->
  keeps None T (target a m) (fun r l => match r with (k, st, mb) =>
    Targeted a m (Some a) k st mb ∈ l /\ ms_MessageID st = m end).
Proof.
  intros Hm. unfold target.
  eapply keeps_bind; [apply keeps_found, keeps_stmt_val, GetMessageState_id|].
  intros [k st]. cbn [snd].
  kbind. destruct (negb (bool_decide (account_of (x_cols v) !! m = Some a)) || _) eqn:Eown;
    [apply keeps_throw|].
  apply orb_false_elim in Eown as [Hown Hdel].
  apply negb_false_iff, bool_decide_eq_true in Hown, Hdel. kbind.
  rewrite Hown. eapply keeps_bind; [apply keeps_emit; [apply _|]|].
  { intros l (((_ & Hid) & _) & _). done. }
  intros []. apply keeps_ret. intros l [(((_ & Hid) & _) & _) Hin]. done.
Qed.

Lemma keeps_target_bind {B} T (q : state_key * MessageState * Mailbox -> WM B) R :
  Mono T ->
  (forall k st mb, ms_MessageID st = m ->
     keeps None (fun l => T l /\ Targeted a m (Some a) k st mb ∈ l) (q (k, st, mb)) R) ->
  keeps None T (target a m ≫= q) R.
Proof.
  intros Hm Hq x Hx. apply wp_bind. eapply wp_mono; [by apply keeps_target|].
  intros x' [e|[[k st] mb]] Hi; [done|].
  assert (ms_MessageID st = m) as Hid by (destruct Hi as (_ & _ & run & _ & _ & _ & _ & ?); done).
  eapply wp_mono; [apply Hq; [done|eapply Inv_weaken; [exact Hi|]; naive_solver]|].
  intros x'' [e|u] Hi'; (eapply Inv_weaken; [done|]; naive_solver).
Qed.

(** ** The three writes *)

Lemma keeps_ApplyFlagChange T change :
  Mono T -> keeps None T (ApplyFlagChange a m change) (fun _ _ => True).
Proof.
  intros Hm. apply keeps_target_bind; [done|]. intros k st mb Hid.
  case_match; [by apply keeps_ret|].
  eapply keeps_bind; [apply keeps_GetAccount|]. intros ?.
  eapply keeps_bind with (R := fun _ _ => True).
  2: { intros out. eapply keeps_bind; [apply keeps_Notify|]. intros ?. by apply keeps_ret. }
  apply keeps_withMailbox; [apply _|]. intros sel. apply inside_checked, inside_keeps.
  assert (knows k st mb (fun l => (T l /\ Targeted a m (Some a) k st mb ∈ l) /\ True)) as Hk.
  { by intros l [[_ ?] _]. }
  eapply keeps_bind with (R := fun _ _ => True).
  { destruct (fc_Replace change); [apply (keeps_storeReplace k st mb); [done|apply _|done]|].
    eapply keeps_bind with (R := fun _ _ => True).
    - case_match; [by apply keeps_ret|].
      eapply keeps_bind; [apply (keeps_StoreFlags k st mb); [apply _|done]|]. intros ?. by apply keeps_ret.
    - intros ?. case_match; [by apply keeps_ret|].
      eapply keeps_bind; [apply (keeps_StoreFlags k st mb); [apply _|by apply knows_and]|].
      intros ?. by apply keeps_ret. }
  intros ?. apply keeps_fetch_bind; [apply _|]. intros f.
  eapply keeps_bind; [apply keeps_reflectFlags; [done|apply _|naive_solver]|].
  intros [flags keywords]. by apply keeps_ret.
Qed.

Lemma left_mailbox_intro k (mb : Mailbox) mu (l : list (event S)) (s : S) :
  Executed a mu s ∈ l ->
  match mu with MMove n v uids _ | MExpunge n v uids => hits k mb n v uids | _ => False end ->
  left_mailbox a l k.
Proof. intros Hin Hmu. exists mb, s, mu. by split. Qed.

Lemma keeps_ApplyMove T tgt :
  Mono T -> keeps None T (ApplyMove a m tgt) (fun _ _ => True).
Proof.
  intros Hm. apply keeps_target_bind; [done|]. intros k st mb Hid.
  case_match; [by apply keeps_ret|].
  eapply keeps_bind; [apply keeps_found, keeps_stmt|]. intros tgtMb.
  destruct (negb (mb_AccountID tgtMb =? a) || negb (mb_Selectable tgtMb)) eqn:Eok; [apply keeps_throw|].
  apply orb_false_elim in Eok as [Ha%negb_false_iff%Z.eqb_eq Hsel%negb_false_iff].
  eapply keeps_bind; [apply keeps_emit; [apply _|done]|]. intros ?.
  eapply keeps_bind; [apply keeps_GetAccount|]. intros ?.
  eapply keeps_bind with (R := fun _ _ => True).
  2: { intros out. eapply keeps_bind; [apply keeps_Notify|]. intros ?. by apply keeps_ret. }
  apply keeps_withMailbox; [apply _|]. intros sel. apply inside_checked.
  eapply inside_bind; [apply (keeps_Move k st mb); [apply _|by intros l [[[[_ ?] _] _] _]|]|].
  { intros l [[_ ?] _]. eauto. }
  intros res.
  match goal with |- inside _ ?P _ _ => set (T' := P) end.
  assert (Mono T') as HT' by (unfold T'; apply _).
  assert (forall l, T' l -> left_mailbox a l k) as Hleft.
  { intros l [_ [s Hs]]. by eapply (left_mailbox_intro k mb). }
  destruct (mv_DestUIDs res !! uidFromDB (key_uid k)) as [destUID|].
  2: { apply inside_keeps. eapply keeps_bind; [by apply keeps_tombstone_row|].
       intros ?. by apply keeps_ret. }
  apply inside_reselect; [done|]. intros dsel. apply inside_keeps. case_match.
  { eapply keeps_bind; [by apply keeps_tombstone_row|]. intros ?. by apply keeps_ret. }
  eapply keeps_bind; [apply keeps_stmt|]. intros ?.
  eapply keeps_bind; [apply keeps_emit; [apply _|]|].
  { intros l [HT _]. split; [done|]. eauto. }
  intros ?. eapply keeps_bind; [apply keeps_fetchOne, _|]. intros [f|]; [|by apply keeps_ret].
  eapply keeps_bind; [apply keeps_reflectFlags; [done|apply _|]|].
  { intros l [_ Hf]. by apply Hf. }
  intros [flags keywords]. by apply keeps_ret.
Qed.

Lemma keeps_ApplyDestroy T : Mono T -> keeps None T (ApplyDestroy a m) (fun _ _ => True).
Proof.
  intros Hm. apply keeps_target_bind; [done|]. intros k st mb Hid.
  destruct (negb (bool_decide (mb_Role mb = RoleTrash))) eqn:Etr.
  { eapply keeps_bind; [apply keeps_found, keeps_stmt|]. intros trash. apply keeps_ApplyMove, _. }
  apply negb_false_iff, bool_decide_eq_true in Etr.
  eapply keeps_bind; [apply keeps_GetAccount|]. intros ?.
  eapply keeps_bind with (R := fun _ _ => True).
  2: { intros out. eapply keeps_bind; [apply keeps_Notify|]. intros ?. by apply keeps_ret. }
  apply keeps_withMailbox; [apply _|]. intros sel. apply inside_checked, inside_keeps.
  eapply keeps_bind; [apply (keeps_Expunge k st mb); [apply _|by intros l [[_ ?] _]|by left]|]. intros ?.
  eapply keeps_bind; [apply keeps_tombstone_row; [apply _|]|].
  { intros l [_ [s Hs]]. by eapply (left_mailbox_intro k mb). }
  intros ?. by apply keeps_ret.
Qed.
End logic.

(** ** An account *)

Definition sample_mailbox (id : Z) (name : string) (role : MailboxRole) : Mailbox :=
  {| mb_ID := id; mb_AccountID := 1; mb_Name := name; mb_Role := role; mb_Selectable := true;
     mb_UIDValidity := Some id; mb_UIDNext := None; mb_HighestModSeq := None;
     mb_BackfillState := BackfillComplete; mb_BackfillUIDLow := None |}.
Definition sample_box (v next h : Z) (role : MailboxRole) (msgs : gmap Z SrvMsg) : MemMailbox :=
  {| mem_UIDValidity := v; mem_UIDNext := next; mem_HighestModSeq := h; mem_Role := role;
     mem_msgs := msgs; mem_expunged := [] |}.
Definition sample_message (modseq : Z) (flags keywords : list string) : SrvMsg :=
  {| sm_ModSeq := modseq; sm_Flags := flags; sm_Keywords := keywords; sm_InternalDate := 10;
     sm_Body := "b" |}.
Definition sample_server (msgs : gmap Z SrvMsg) (Hm : bool_decide (mem_wf (sample_box 1 4 9 RoleInbox msgs)))
    : MemServer :=
  <["INBOX" := sample_box 1 4 9 RoleInbox msgs ↾ Hm]>
    {["Trash" := sample_box 2 1 1 RoleTrash ∅ ↾ I]}.

(** Message 7 is in the inbox under UID 3; the store knows it. *)
Definition sample_row (flags : Z) (keywords : list string) (modseq : Z) : MessageState :=
  {| ms_MessageID := 7; ms_Flags := flags; ms_Keywords := keywords; ms_ModSeqSeen := modseq;
     ms_DeletedAt := None; ms_UpdatedAt := 5 |}.
Definition sample_db (k : state_key) (st : MessageState) : DB :=
  {| mailboxes := {[1 := sample_mailbox 1 "INBOX" RoleInbox; 2 := sample_mailbox 2 "Trash" RoleTrash]};
     messages := ∅; message_state := {[k := st]}; thread_ids := ∅; blobs := ∅; blob_refs := ∅;
     sync_log := ∅; next_message_id := 8 |}.
Definition sample_cols : Cols :=
  {| accounts := {[1 := "u@example.org"]}; account_of := {[7 := 1]}; dates := ∅; delimiters := ∅;
     files := ∅; snoozes := ∅ |}.
Definition sample_world (d : DB) (s : MemServer) (sched : list (turn MemServer)) : WWorld MemServer :=
  {| x_world := {| w_db := d; w_srv := s; w_now := 100; w_faults := [] |}; x_cols := sample_cols;
     x_conns := ∅; x_closed := false; x_sched := sched; x_trace := []; x_notified := [] |}.

Definition plain_server : MemServer := sample_server {[3 := sample_message 9 ["seen"] ["work"]]} I.
Definition plain_world (sched : list (turn MemServer)) : WWorld MemServer :=
  sample_world (sample_db (1, 1, 3) (sample_row 1 ["work"] 9)) plain_server sched.

Definition is_change (mu : mutation) (ev : event MemServer) : bool :=
  match ev with Executed _ mu' _ => bool_decide (mu' = mu) | _ => false end.
