(* ===== verification/WriteContract.v ===== *)
(** The contract of every message write of src/internal/sync (write.go, append.go,
    snooze.go): flag changes, moves and destroys ([WriteSafety]), appends, snoozes and wakes.
    Whatever happens meanwhile, a run does to the server and to the store only what
    [WriteSafety.ev_ok] allows. *)

From S2P Require Import Prelude Convert Utf8 Text GoStrings Store Imap Pipeline Incremental WriteWorld ImapClient WriteLaws Write.
From S2P Require Import Append Folders Snooze WriteLogic WriteSafety.
#[local] Open Scope Z_scope.

Section logic.
Context {S : Type} `{ImapServer S} `{!ImapWriter S}.
Context (sha256 : string -> string) (derive : string -> Message) (header_date : string -> option Time).
Context (rejects : NewMessage -> bool) (assign : DB -> Z -> list Z -> option (list (Z * Z))).
Context (has_blobs : bool).
Context (a m : Z) (tr0 : list (event S)).
Abbreviation WM := (M (WWorld S) werr).
Abbreviation keeps := (keeps a (ev_ok sha256 a m) tr0).
Abbreviation Inv := (Inv a (ev_ok sha256 a m) tr0).
Abbreviation inside := (inside a (ev_ok sha256 a m) tr0).
Implicit Types (o : option (string * Z)) (T : list (event S) -> Prop).

(** ** Appends *)

Lemma keeps_Put o T raw : keeps o T (Put sha256 raw) (fun hs _ => hs.1 = sha256 raw).
Proof.
  unfold Put. eapply keeps_bind; [apply keeps_fs, keeps_cols|]. intros ?. kbind. by apply keeps_ret.
Qed.

Lemma keeps_AddRefTx o T h b id : keeps o T (AddRefTx h b id) (fun _ _ => True).
Proof.
  unfold AddRefTx. kbind. kbind. case_match; [|apply keeps_throw].
  eapply keeps_weaken; [apply keeps_in_store|done].
Qed.

Lemma keeps_OpenAll o T h : keeps o T (OpenAll h) (fun _ _ => True).
Proof. apply keeps_fs. kbind. case_match; repeat kstep. Qed.

Lemma keeps_InsertMessage o T nm date internal :
  Mono T -> (forall l, T l -> ev_ok sha256 a m l (Inserted a nm)) ->
  keeps o T (InsertMessage rejects a nm date internal) (fun _ _ => True).
Proof.
  intros Hm Hok. unfold InsertMessage. kbind.
  eapply keeps_bind with (R := fun _ _ => True); [|intros ?; by apply keeps_ret].
  case_match; [by apply keeps_ret|]. eapply keeps_bind; [apply keeps_cols|]. intros ?.
  eapply keeps_weaken; [apply keeps_emit; [apply _|]|done]. intros l [[HT _] _]. by apply Hok.
Qed.

(** The message has been appended to a mailbox of the account, and read back. *)
Definition appended (t : Mailbox) (raw : string) (f : Fetched) (l : list (event S)) : Prop :=
  (exists flags date s, Executed a (MAppend (mb_Name t) raw flags date) s ∈ l) /\
  Resolved a t ∈ l /\ exists n v, Saw a n v f ∈ l.

Lemma keeps_reflectAppend o T t v raw f :
  Mono T -> (forall l, T l -> appended t raw f l) ->
  keeps o T (reflectAppend sha256 derive header_date rejects assign a (mb_ID t) v raw f) (fun _ _ => True).
Proof.
  intros Hm Happ. unfold reflectAppend. eapply keeps_bind; [apply keeps_Put|]. intros [h size]. kbind.
  eapply keeps_bind; [apply keeps_InsertMessage; [apply _|]|].
  { intros l [[HT Hh] _]. simpl in Hh. subst h. split; [done|].
    destruct (Happ l HT) as ((flags & date & s & He) & Hr & n & v' & Hs).
    exists t, raw, flags, date, s, n, v', f, v. by repeat (split; [done|]). }
  intros id. case_match.
  - kbind. kbind. kbind. by apply keeps_ret.
  - eapply keeps_bind; [apply keeps_AddRefTx|]. intros ?.
    eapply keeps_bind; [apply keeps_try, keeps_stmt|]. intros ?. by apply keeps_ret.
Qed.

Lemma keeps_Append o T n raw flags date :
  Mono T -> (forall l, T l -> exists t, Resolved a t ∈ l /\ n = mb_Name t) ->
  keeps o T (Append a n raw flags date)
    (fun _ l => exists s, Executed a (MAppend n raw (flagsToGoIMAP flags) date) s ∈ l).
Proof.
  intros Hm Hok. unfold Append. case_match; [apply keeps_throw|].
  eapply keeps_bind; [apply keeps_plain_wire; [done|]|].
  { intros l s HT. split; [done|]. simpl. by apply Hok. }
  intros [[u v]|]; apply keeps_ret; naive_solver.
Qed.

(** What an append that returned did. *)
Definition put_back (raw : string) (l : list (event S)) : Prop :=
  exists n flags date s, Executed a (MAppend n raw flags date) s ∈ l.

Lemma keeps_append_in T n v mb raw flags date sel :
  Mono T -> (forall l, T l -> Resolved a mb ∈ l) ->
  keeps (Some (n, v)) T
    (append_in sha256 derive header_date rejects assign a mb raw flags date sel)
    (fun _ => put_back raw).
Proof.
  intros Hm Hres. unfold append_in. kbind. case_match; [apply keeps_throw|].
  eapply keeps_bind; [apply keeps_Append; [apply _|]|].
  { intros l [HT _]. eauto. }
  intros res. case_match; [apply keeps_throw|].
  eapply keeps_bind; [apply keeps_fetchOne, _|]. intros [f|]; [|apply keeps_throw].
  eapply keeps_weaken; [apply keeps_reflectAppend; [apply _|]|].
  - intros l [[[HT _] [s Hs]] Hf]. split; [eauto|]. split; [by apply Hres|]. by apply Hf.
  - intros w l [[_ [s Hs]] _] _. by exists (mb_Name mb), (flagsToGoIMAP flags), date, s.
Qed.

Lemma keeps_ApplyAppendAt T mailbox raw flags date :
  Mono T ->
  keeps None T (ApplyAppendAt sha256 derive header_date rejects assign has_blobs a mailbox raw flags date)
    (fun _ => put_back raw).
Proof.
  intros Hm. unfold ApplyAppendAt. kbind. case_match; [apply keeps_throw|]. case_match; [apply keeps_throw|].
  eapply keeps_bind; [apply keeps_found, keeps_stmt|]. intros mb.
  destruct (negb (mb_AccountID mb =? a) || negb (mb_Selectable mb)) eqn:Eok; [apply keeps_throw|].
  apply orb_false_elim in Eok as [Ha%negb_false_iff%Z.eqb_eq Hsel%negb_false_iff].
  eapply keeps_bind; [apply keeps_emit; [apply _|done]|]. intros ?.
  eapply keeps_bind; [apply keeps_GetAccount|]. intros ?.
  eapply keeps_bind; [apply keeps_withMailbox; [apply _|]|].
  - intros sel. apply inside_keeps, keeps_append_in; [apply _|]. by intros l [[_ ?] _].
  - intros out. eapply keeps_bind; [apply keeps_Notify|]. intros ?. apply keeps_ret. naive_solver.
Qed.

(** ** The folder Snoozed *)

Lemma keeps_CreateMailbox T name :
  Mono T -> (forall l s, T l -> ev_ok sha256 a m l (Executed a (MCreate name) s)) ->
  keeps None T (CreateMailbox a name) (fun _ _ => True).
Proof.
  intros Hm Hok. unfold CreateMailbox. case_match; [apply keeps_throw|].
  eapply keeps_bind; [by apply keeps_try, keeps_plain_wire|].
  intros [[]|]; try apply keeps_throw; [|by apply keeps_ret]. case_match; apply keeps_throw.
Qed.

Lemma keeps_create_on_server T subscribe :
  Mono T -> keeps None T (create_on_server a SnoozeMailboxName subscribe) (fun _ _ => True).
Proof.
  intros Hm. unfold create_on_server, folder_command.
  eapply keeps_bind with (R := fun _ _ => True).
  { eapply keeps_bind; [apply keeps_try, keeps_CreateMailbox; [done|done]|].
    intros [e|[]]; [apply keeps_throw|by apply keeps_ret]. }
  intros ?. eapply keeps_bind with (R := fun _ _ => True).
  { destruct subscribe; [|by apply keeps_ret].
    eapply keeps_bind; [apply keeps_try; unfold SetSubscribed; apply keeps_plain_wire; [apply _|done]|].
    intros ?. by apply keeps_ret. }
  intros ?. eapply keeps_bind with (R := fun _ _ => True); [|intros [?|?]; by apply keeps_ret].
  eapply keeps_weaken; [apply keeps_try; unfold StatusMailbox; by apply keeps_quiet_wire, _|done].
Qed.

Lemma keeps_try_stmt {A} o T (p : M (World S) err A) : keeps o T (tryW (stmt p)) (fun _ _ => True).
Proof. eapply keeps_weaken; [apply keeps_try, keeps_stmt|done]. Qed.

Lemma keeps_delimiterFor o T : keeps o T (delimiterFor a) (fun _ _ => True).
Proof.
  assert (forall T', keeps o T' (first_delimiter a) (fun _ _ => True)) as Hfirst.
  { intros T'. unfold first_delimiter. eapply keeps_bind; [apply keeps_try_stmt|]. intros ?.
    kbind. by apply keeps_ret. }
  unfold delimiterFor. eapply keeps_bind; [apply keeps_try_stmt|]. intros r. kbind.
  destruct r as [e|mb]; [apply Hfirst|]. case_match; [apply Hfirst|by apply keeps_ret].
Qed.

Lemma keeps_create_Snoozed T :
  Mono T -> keeps None T (ApplyMailboxCreate a SnoozeMailboxName true) (fun _ _ => True).
Proof.
  intros Hm. unfold ApplyMailboxCreate. cbn zeta.
  change (TrimRight is_space SnoozeMailboxName) with SnoozeMailboxName.
  change (String.eqb SnoozeMailboxName "") with false. cbv iota.
  eapply keeps_bind; [apply keeps_GetAccount|]. intros ?.
  eapply keeps_bind with (R := fun _ _ => True).
  { unfold name_free. eapply keeps_bind; [apply keeps_try_stmt|].
    intros [e|mb]; [case_match; [by apply keeps_ret|apply keeps_throw]|apply keeps_throw]. }
  intros ?. eapply keeps_bind; [apply keeps_withConn, keeps_create_on_server, _|]. intros info.
  eapply keeps_bind; [apply keeps_delimiterFor|]. intros delim. kbind.
  eapply keeps_bind; [apply keeps_cols|]. intros ?.
  eapply keeps_bind with (R := fun _ _ => True).
  { destruct info as [i|]; [|by apply keeps_ret]. case_match; [|by apply keeps_ret].
    kbind. by apply keeps_ret. }
  intros ?. eapply keeps_bind; [apply keeps_Notify|]. intros ?. by apply keeps_ret.
Qed.

Lemma keeps_ensureSnoozeMailbox T :
  Mono T -> keeps None T (ensureSnoozeMailbox a) (fun _ _ => True).
Proof.
  intros Hm. unfold ensureSnoozeMailbox. eapply keeps_bind; [apply keeps_try_stmt|]. intros [e|mb].
  2: { case_match; [by apply keeps_ret|apply keeps_throw]. }
  case_match; [|apply keeps_throw]. unfold create_snoozed.
  eapply keeps_bind with (R := fun _ _ => True).
  { eapply keeps_weaken; [apply keeps_try, keeps_create_Snoozed, _|done]. }
  intros [e'|res].
  - case_match; [|apply keeps_throw]. eapply keeps_bind; [apply keeps_try_stmt|].
    intros [?|?]; [apply keeps_throw|by apply keeps_ret].
  - eapply keeps_bind; [apply keeps_try_stmt|]. intros [?|?]; [apply keeps_throw|by apply keeps_ret].
Qed.

(** ** Snooze and wake *)

Lemma keeps_ownedMessage o T b : keeps o T (ownedMessage a b) (fun _ _ => True).
Proof.
  unfold ownedMessage. eapply keeps_bind; [apply keeps_found, keeps_stmt|]. intros ?. kbind.
  case_match; [by apply keeps_ret|apply keeps_throw].
Qed.

Lemma keeps_originMailbox o T name : keeps o T (originMailbox a name) (fun _ _ => True).
Proof.
  assert (forall T', keeps o T' (inbox_of a) (fun _ _ => True)) as Hin.
  { intros T'. unfold inbox_of. eapply keeps_bind; [apply keeps_try_stmt|].
    intros [e|mb]; [case_match; repeat kstep|by apply keeps_ret]. }
  unfold originMailbox. case_match; [apply Hin|]. eapply keeps_bind; [apply keeps_try_stmt|].
  intros [e|mb]; case_match; first [apply Hin|apply keeps_throw|by apply keeps_ret].
Qed.

Lemma keeps_rawBytes o T :
  Mono T -> keeps o T (rawBytes a m) (fun raw l => exists h, Loaded m h raw ∈ l).
Proof.
  intros Hm. unfold rawBytes. eapply keeps_bind; [apply keeps_ownedMessage|]. intros msg.
  eapply keeps_bind; [apply keeps_OpenAll|]. intros raw. case_match; [apply keeps_throw|].
  eapply keeps_bind; [apply keeps_emit; [apply _|done]|]. intros ?. apply keeps_ret. naive_solver.
Qed.

Lemma keeps_ApplySnooze T wakeAt :
  Mono T -> keeps None T (ApplySnooze a m wakeAt) (fun _ _ => True).
Proof.
  intros Hm. apply keeps_target_bind; [done|]. intros k st mb Hid.
  eapply keeps_bind; [apply keeps_ownedMessage|]. intros msg. case_match; [apply keeps_throw|].
  eapply keeps_bind; [apply keeps_ensureSnoozeMailbox, _|]. intros smb. case_match; [apply keeps_throw|].
  eapply keeps_bind; [apply keeps_ApplyMove, _|]. intros ?.
  eapply keeps_bind with (R := fun _ _ => True).
  { unfold PutSnooze. case_match; [apply keeps_throw|]. kbind.
    eapply keeps_bind; [apply keeps_cols|]. intros ?. by apply keeps_ret. }
  intros row. eapply keeps_bind; [apply keeps_try_stmt|]. intros ?. by apply keeps_ret.
Qed.

Lemma keeps_expungeFromSnoozed T k st mb :
  Mono T -> ms_MessageID st = m ->
  (forall l, T l -> Targeted a m (Some a) k st mb ∈ l /\ expungeable a m l mb) ->
  keeps None T (expungeFromSnoozed a mb k) (fun _ _ => True).
Proof.
  intros Hm Hid Hok. unfold expungeFromSnoozed.
  eapply keeps_bind; [apply keeps_GetAccount|]. intros ?.
  apply keeps_withMailbox; [apply _|]. intros sel. apply inside_checked, inside_keeps.
  eapply keeps_bind; [apply (keeps_Expunge sha256 a m tr0 k st mb); [apply _| |]|].
  { intros l [HT _]. by apply Hok. }
  { intros l [HT _]. by apply Hok. }
  intros ?. kbind. eapply keeps_weaken; [apply keeps_emit; [apply _|]|done].
  intros l [[_ [s Hs]] _]. by eapply (left_mailbox_intro a _ mb).
Qed.

Lemma keeps_wakeMessage T origin :
  Mono T ->
  keeps None T (wakeMessage sha256 derive header_date rejects assign has_blobs a m origin) (fun _ _ => True).
Proof.
  intros Hm. unfold wakeMessage. case_match; [apply keeps_throw|].
  apply keeps_target_bind; [done|]. intros k st mb Hid.
  destruct (EqualFold (mb_Name mb) SnoozeMailboxName) eqn:Efold; simpl; [|apply keeps_throw].
  eapply keeps_bind; [apply keeps_originMailbox|]. intros tgt.
  eapply keeps_bind; [apply keeps_rawBytes, _|]. intros raw. kbind.
  eapply keeps_bind; [apply keeps_ApplyAppendAt, _|]. intros app.
  eapply keeps_bind; [apply keeps_try, (keeps_expungeFromSnoozed _ k st); [apply _|done|]|].
  { intros l [[[[[_ Ht] _] [h Hl]] _] Hp]. split; [done|]. right. split; [done|].
    destruct Hp as (n & flags & date & s & Hs). by exists h, raw, n, flags, date, s. }
  intros ?. eapply keeps_bind; [apply keeps_Notify|]. intros ?. by apply keeps_ret.
Qed.

Lemma keeps_ApplyUnsnooze T :
  Mono T ->
  keeps None T (ApplyUnsnooze sha256 derive header_date rejects assign has_blobs a m) (fun _ _ => True).
Proof.
  intros Hm. unfold ApplyUnsnooze. eapply keeps_bind; [apply keeps_ownedMessage|]. intros msg.
  eapply keeps_bind with (R := fun _ _ => True).
  { unfold SnoozeByMessageID. kbind. kbind. by apply keeps_ret. }
  intros sn. eapply keeps_bind; [apply keeps_wakeMessage, _|]. intros res.
  eapply keeps_bind with (R := fun _ _ => True); [|intros ?; by apply keeps_ret].
  eapply keeps_weaken; [apply keeps_try with (R := fun _ _ => True)|done]. unfold CancelSnooze.
  kbind. kbind. eapply keeps_bind; [apply keeps_cols|]. intros ?. by apply keeps_ret.
Qed.

Lemma keeps_RetireDraft T : Mono T -> keeps None T (RetireDraft a m) (fun _ _ => True).
Proof.
  intros Hm. unfold RetireDraft. eapply keeps_bind; [by apply keeps_try, keeps_ApplyDestroy|].
  intros [e|?]; [case_match; [by apply keeps_ret|apply keeps_throw]|by apply keeps_ret].
Qed.

(** The writes a client or the waker can ask for on a message. *)
Inductive write :=
| WFlags (change : FlagChange)
| WMove (mailbox : Z)
| WDestroy
| WRetireDraft
| WAppend (mailbox : Z) (raw : string) (flags : list string) (date : Time)
| WSnooze (wakeAt : Time)
| WUnsnooze
| WWake (origin : string).
Definition discarding {A} (p : WM A) : WM unit := p ;; mret tt.
Definition apply_write (op : write) : WM unit :=
  match op with
  | WFlags change => discarding (ApplyFlagChange a m change)
  | WMove mailbox => discarding (ApplyMove a m mailbox)
  | WDestroy => discarding (ApplyDestroy a m)
  | WRetireDraft => RetireDraft a m
  | WAppend mailbox raw flags date =>
      discarding (ApplyAppendAt sha256 derive header_date rejects assign has_blobs a mailbox raw flags date)
  | WSnooze wakeAt => discarding (ApplySnooze a m wakeAt)
  | WUnsnooze => discarding (ApplyUnsnooze sha256 derive header_date rejects assign has_blobs a m)
  | WWake origin => discarding (wakeMessage sha256 derive header_date rejects assign has_blobs a m origin)
  end.

Lemma keeps_apply_write T op : Mono T -> keeps None T (apply_write op) (fun _ _ => True).
Proof.
  intros Hm.
  assert (forall A (p : WM A) R, keeps None T p R -> keeps None T (discarding p) (fun _ _ => True)) as Hd.
  { intros A p R Hp. eapply keeps_bind; [exact Hp|]. intros ?. by apply keeps_ret. }
  destruct op; simpl;
    [eapply Hd, keeps_ApplyFlagChange|eapply Hd, keeps_ApplyMove|eapply Hd, keeps_ApplyDestroy|
     apply keeps_RetireDraft|eapply Hd, keeps_ApplyAppendAt|eapply Hd, keeps_ApplySnooze|
     eapply Hd, keeps_ApplyUnsnooze|eapply Hd, keeps_wakeMessage]; exact Hm.
Qed.
End logic.

(** C4: A write does what write.go, append.go and snooze.go promise of it and nothing else,
    whatever happens meanwhile. Other clients and the sync engine may change the server and
    the store between any two commands, and any command may be refused, lost or lose its
    connection. Every change the server executes in the run is on the one message that was
    resolved to a live row of this account, in that row's mailbox, under its UIDVALIDITY and
    its UID, or an append into a selectable mailbox of the account, or the creation of
    Snoozed. A message is expunged only from Trash, or from Snoozed after its bytes were read
    from its blob and appended again: waking a message never loses it. The store takes flags
    only from a read-back, a new row only from an append that was read back, and loses or
    moves a row only after the server executed the move or the expunge. The cache of selected
    mailboxes stays true for the next write. *)
Theorem write_contract {S} `{ImapServer S} `{!ImapWriter S} (sha256 : string -> string)
    (derive : string -> Message) (header_date : string -> option Time) (rejects : NewMessage -> bool)
    (assign : DB -> Z -> list Z -> option (list (Z * Z))) (has_blobs : bool) (a m : Z) (op : write)
    (x x' : WWorld S) (r : werr + unit) :
  conn_inv x -> apply_write sha256 derive header_date rejects assign has_blobs a m op x = (x', r) ->
  conn_inv x' /\ exists run, x_trace x' = x_trace x ++ run /\ justified a (ev_ok sha256 a m) run.
Proof.
  intros Hc Hrun.
  pose proof (keeps_apply_write sha256 derive header_date rejects assign has_blobs a m (x_trace x)
    (fun _ => True) op _ x) as Hk.
  assert (WriteLogic.Inv a (ev_ok sha256 a m) (x_trace x) None (fun _ => True) x) as Hx.
  { split; [done|]. split; [done|]. exists []. rewrite app_nil_r. split; [done|].
    split; [apply justified_nil|done]. }
  pose proof (wp_elim _ _ _ _ _ (Hk Hx) Hrun) as Hi.
  destruct r; destruct Hi as (? & _ & run & ? & ? & _); eauto.
Qed.

(** ** Witness: a message wakes *)

Definition sample_hash (raw : string) : string := "#" +:+ raw.
Definition no_threads (d : DB) (a : Z) (ids : list Z) : option (list (Z * Z)) :=
  Some ((fun id => (id, id)) <$> ids).
Definition sleeping_mail : Message := let m := plain_mail "b" in
  {| RawSHA256 := "#b"; MessageID := "id@example.org"; InReplyTo := InReplyTo m;
     ReferencesIDs := ReferencesIDs m; Subject := Subject m; FromAddr := FromAddr m;
     ToAddrs := ToAddrs m; CcAddrs := CcAddrs m; Addresses := Addresses m;
     MIMEStructure := MIMEStructure m; Preview := Preview m; BodyText := BodyText m;
     MParseStatus := MParseStatus m; Defects := Defects m |}.
Definition snooze_row : Snooze := new_snooze 1 "id@example.org" 90 "".
Definition snoozed_server : MemServer :=
  <["Snoozed" := sample_box 3 4 9 RoleNone {[3 := sample_message 9 ["seen"] ["work"]]} ↾ I]>
    {["INBOX" := sample_box 1 1 1 RoleInbox ∅ ↾ I]}.
Definition snoozed_world (sched : list (turn MemServer)) : WWorld MemServer :=
  {| x_world :=
       {| w_db := {| mailboxes := {[1 := sample_mailbox 1 "INBOX" RoleInbox;
                                    3 := sample_mailbox 3 "Snoozed" RoleNone]};
                     messages := {[7 := sleeping_mail]};
                     message_state := {[(3, 3, 3) := sample_row 1 ["work"] 9]};
                     thread_ids := {[7 := 7]}; blobs := {["#b"]}; blob_refs := {[("#b", 1, 7)]};
                     sync_log := ∅; next_message_id := 8 |};
          w_srv := snoozed_server; w_now := 100; w_faults := [] |};
     x_cols := {| accounts := {[1 := "u@example.org"]}; account_of := {[7 := 1]};
                  dates := {[7 := (40, Some 50)]}; delimiters := ∅; files := {["#b" := "b"]};
                  snoozes := {[1 := snooze_row]} |};
     x_conns := ∅; x_closed := false; x_sched := sched; x_trace := []; x_notified := [] |}.
Definition sample_write (op : write) (x : WWorld MemServer) : WWorld MemServer * (werr + unit) :=
  apply_write sample_hash plain_mail (fun _ => Some 40) (fun _ => false) no_threads true 1 7 op x.

Lemma write_contract_witness :
  let x := snoozed_world [] in
  conn_inv x /\
  exists run, x_trace (sample_write (WWake "") x).1 = run /\
    justified 1 (ev_ok sample_hash 1 7) run /\
    existsb (is_change (MAppend "INBOX" "b" ["\Seen"; "work"] 100)) run = true /\
    existsb (is_change (MExpunge "Snoozed" 3 [3])) run = true.
Proof.
  intros x. assert (conn_inv x) as Hc by apply map_Forall_empty. split; [done|].
  destruct (write_contract sample_hash plain_mail (fun _ => Some 40) (fun _ => false) no_threads true
              1 7 (WWake "") x (sample_write (WWake "") x).1
              (sample_write (WWake "") x).2 Hc (surjective_pairing _)) as (_ & run & Ht & Hj).
  exists run. split; [exact Ht|]. split; [done|].
  assert (run = x_trace (sample_write (WWake "") x).1) as -> by (by rewrite Ht).
  split; vm_compute; reflexivity.
Defined.

(** The woken message does not come back at the top: the read-back asks for flags only, so
    the new row has no internal date and is dated by its Date header, here 40, although it
    was appended at 100. *)
Example woken_keeps_old_date :
  let x := (sample_write (WWake "") (snoozed_world [])).1 in
  dates (x_cols x) !! 8 = Some (40, None) /\
  (sm_InternalDate <$> srv_view (w_srv (x_world x)) "INBOX" !! 1) = Some 100.
Proof. split; vm_compute; reflexivity. Qed.
