(* ===== verification/WriteEffects.v ===== *)
(** What a write achieves when nothing interferes, and what a dead connection does to it
    (src/internal/sync/write.go). In a quiet world every command is answered and nothing
    else happens between two of them. *)

From S2P Require Import Prelude Convert Utf8 Text GoStrings Store Imap Pipeline Incremental WriteWorld.
From S2P Require Import ImapClient WriteLaws Write WriteLogic WriteSafety.
#[local] Open Scope Z_scope.

Definition quiet {S} (x : WWorld S) : Prop := x_sched x = [] /\ w_faults (x_world x) = [].

(** ** Steps of a quiet world *)

Section quiet.
Context {S : Type}.
Abbreviation WM := (M (WWorld S) werr).
Implicit Types x : WWorld S.

Lemma tick_quiet x : quiet x -> tick x = (x, inr Served).
Proof. intros [Hs _]. destruct x. simpl in *. by subst. Qed.

Lemma wp_tick_quiet (Q : WWorld S -> werr + outcome -> Prop) x :
  quiet x -> Q x (inr Served) -> wp tick Q x.
Proof. intros Hq HQ. unfold wp. by rewrite tick_quiet. Qed.

Lemma wp_stmt_quiet {A} (p : M (World S) err A) (Q : WWorld S -> werr + A -> Prop) x :
  quiet x ->
  wp p (fun w r => Q (set_world w x) (match r with inl e => inl (EStore e) | inr v => inr v end))
    (x_world x) ->
  wp (stmt p) Q x.
Proof.
  intros Hq Hp. apply wp_bind, wp_tick_quiet; [done|]. unfold wp, in_store in *.
  by destruct (p (x_world x)) as [w [e|v]].
Qed.

Lemma wp_io_quiet (Q : World S -> err + unit -> Prop) w :
  w_faults w = [] -> Q w (inr tt) -> wp io Q w.
Proof. intros Hf HQ. unfold wp, io. by rewrite Hf. Qed.

(** A command on an open connection. *)
Lemma wp_wire_quiet {A} a c (act : client -> S -> no_response + (S * A)) evs
    (Q : WWorld S -> werr + A -> Prop) x :
  quiet x -> ac_client (slot x a) = Some c -> cl_closed c = false ->
  match (if cl_alive c then Some (act c (w_srv (x_world x))) else None) with
  | None => Q x (inl ESocket)
  | Some (inl r) => Q x (inl (EServer r))
  | Some (inr (s', v)) => Q (add_events (evs c (w_srv (x_world x)) v) (set_srv s' x)) (inr v)
  end -> wp (wire a act evs) Q x.
Proof.
  intros Hq Hc Hcl HQ. unfold wire. apply wp_bind. unfold conn. apply wp_bind, wp_get.
  rewrite Hc, Hcl. apply wp_ret, wp_bind, wp_tick_quiet; [done|].
  destruct (cl_alive c); [|by apply wp_throw]. apply wp_bind, wp_get.
  destruct (act c _) as [r|[s' v]]; [by apply wp_throw|].
  by apply wp_bind, wp_modify, wp_bind, wp_emits, wp_ret.
Qed.
End quiet.

(** ** A socket that died while a mailbox was remembered as selected *)

(** The connection the executor has cached is dead, and it does not know. *)
Definition wedged {S} (a : Z) (n : string) (x : WWorld S) : Prop :=
  n <> "" /\ ac_selectedName (slot x a) = n /\
  exists c, ac_client (slot x a) = Some c /\ cl_closed c = false /\ cl_selected c <> "" /\
    cl_alive c = false.

(** What a write needs to be possible: a live message of the account. *)
Record writable {S} (a m : Z) (k : state_key) (st : MessageState) (mb : Mailbox) (x : WWorld S) : Prop := {
  wr_quiet : quiet x;
  wr_open : x_closed x = false;
  wr_row : state_row (w_db (x_world x)) m = Some (k, st);
  wr_owner : account_of (x_cols x) !! m = Some a;
  wr_live : ms_DeletedAt st = None;
  wr_mailbox : mailboxes (w_db (x_world x)) !! key_mailbox k = Some mb;
  wr_account : is_Some (accounts (x_cols x) !! a)
}.

Section steps.
Context {S : Type} `{ImapServer S} `{!ImapWriter S}.
Implicit Types x : WWorld S.

Lemma quiet_world x w : quiet x -> w_faults w = [] -> quiet (set_world w x).
Proof. intros [??] ?. by split. Qed.

Lemma set_world_id x : set_world (x_world x) x = x.
Proof. by destruct x. Qed.

(** [target] finds it, and leaves a note. *)
Lemma wp_target_quiet a m k st mb (Q : WWorld S -> werr + _ -> Prop) x :
  writable a m k st mb x ->
  Q (add_event (Targeted a m (Some a) k st mb) x) (inr (k, st, mb)) ->
  wp (target a m) Q x.
Proof.
  intros [Hq Hop Hrow Hown Hlive Hmb Hacc] HQ. unfold target. apply wp_bind.
  unfold found. apply wp_bind, wp_tryW, wp_stmt_quiet; [done|].
  unfold GetMessageState. apply wp_bind, wp_io_quiet; [apply Hq|]. apply wp_bind, wp_the_db.
  rewrite Hrow. apply wp_ret, wp_ret. rewrite set_world_id. apply wp_bind, wp_get.
  rewrite Hown, Hlive, !bool_decide_eq_true_2 by done. cbn [negb orb].
  apply wp_bind, wp_stmt_quiet; [done|]. unfold GetMailbox.
  apply wp_bind, wp_io_quiet; [apply Hq|]. apply wp_bind, wp_the_db. rewrite Hmb. apply wp_ret.
  rewrite set_world_id. by apply wp_bind, wp_modify, wp_ret.
Qed.

Lemma wp_GetAccount_quiet a (Q : WWorld S -> werr + unit -> Prop) x :
  quiet x -> is_Some (accounts (x_cols x) !! a) -> Q x (inr tt) -> wp (GetAccount a) Q x.
Proof.
  intros Hq Hacc HQ. unfold GetAccount. apply wp_bind, wp_stmt_quiet; [done|].
  apply wp_io_quiet; [apply Hq|]. apply wp_bind, wp_get. rewrite bool_decide_eq_true_2 by done.
  apply wp_ret. by destruct x.
Qed.

(** On a dead socket every command fails, with an error that is not taken for a dead
    connection, and nothing changes. *)
Definition dead_end {A} a n (p : M (WWorld S) werr A) : Prop :=
  forall x, quiet x -> wedged a n x ->
  wp p (fun x' r => x' = x /\ exists e, r = inl e /\ isConnectionDead e = false) x.
Definition harmless {A} a n (p : M (WWorld S) werr A) : Prop :=
  forall x, quiet x -> wedged a n x ->
  wp p (fun x' r => x' = x /\ forall e, r = inl e -> isConnectionDead e = false) x.

Lemma dead_bind {A B} a n (p : M (WWorld S) werr A) (q : A -> M (WWorld S) werr B) :
  dead_end a n p -> dead_end a n (p ≫= q).
Proof.
  intros Hp x Hq Hw. apply wp_bind. eapply wp_mono; [by apply Hp|]. by intros x' r (-> & e & -> & He); eauto.
Qed.
Lemma harmless_bind {A B} a n (p : M (WWorld S) werr A) (q : A -> M (WWorld S) werr B) :
  harmless a n p -> (forall v, dead_end a n (q v)) -> dead_end a n (p ≫= q).
Proof.
  intros Hp Hd x Hq Hw. apply wp_bind. eapply wp_mono; [by apply Hp|].
  intros x' [e|v] [-> He]; [eauto|]. by apply Hd.
Qed.
Lemma harmless_ret {A} a n (v : A) : harmless a n (mret v).
Proof. intros x _ _. by apply wp_ret. Qed.

Lemma dead_wire {A} a n (act : client -> S -> no_response + (S * A)) evs :
  dead_end a n (wire a act evs).
Proof.
  intros x Hq (_ & _ & c & Hc & Hcl & _ & Hal). eapply wp_wire_quiet; [done|done|done|].
  rewrite Hal. eauto.
Qed.
Lemma harmless_selected a n : harmless a n (selectedMailbox a).
Proof.
  intros x Hq (_ & _ & c & Hc & Hcl & Hsel & _). unfold selectedMailbox, conn.
  apply wp_bind, wp_bind, wp_get. rewrite Hc, Hcl. apply wp_ret.
  rewrite bool_decide_eq_false_2 by done. by apply wp_ret.
Qed.
Lemma harmless_requireCap a n name : harmless a n (requireCap a name).
Proof.
  intros x _ _. apply wp_bind, wp_get. case_match; [by apply wp_ret|]. apply wp_throw.
  split; [done|]. by intros e [= <-].
Qed.

Lemma dead_fetchOne a n u : dead_end a n (fetchOne a u).
Proof.
  apply dead_bind. unfold FetchMessages. apply harmless_bind; [apply harmless_selected|].
  intros _. rewrite bool_decide_eq_false_2 by done. apply dead_wire.
Qed.
Lemma dead_StoreFlags a n u op flags since : dead_end a n (StoreFlags a [u] op flags since).
Proof.
  unfold StoreFlags. rewrite bool_decide_eq_false_2 by done. apply harmless_bind.
  { case_match; [apply harmless_ret|apply harmless_requireCap]. }
  intros _. apply harmless_bind; [apply harmless_selected|]. intros _.
  cbn [List.length slices storeBatchSize take drop store_batches].
  apply dead_bind, dead_bind, dead_wire.
Qed.

Lemma dead_flag_write a n st u change (q : unit -> M (WWorld S) werr WriteResult) :
  isNoop change = false ->
  dead_end a n
    ((if fc_Replace change then storeReplace a st u (fc_Flags change)
      else
        (if bool_decide (fc_Add change = []) then mret tt
         else StoreFlags a [u] FlagsAdd (fc_Add change) 0 ;; mret tt) ;;
        (if bool_decide (fc_Remove change = []) then mret tt
         else StoreFlags a [u] FlagsRemove (fc_Remove change) 0 ;; mret tt)) ≫= q).
Proof.
  intros Hn. apply dead_bind. unfold isNoop in Hn. destruct (fc_Replace change); simpl in Hn.
  - unfold storeReplace. destruct (_ =? 0).
    + apply dead_bind, dead_bind, dead_fetchOne.
    + apply harmless_bind; [apply harmless_ret|]. intros since. apply dead_bind, dead_StoreFlags.
  - destruct (bool_decide (fc_Add change = [])); simpl in Hn.
    + apply harmless_bind; [apply harmless_ret|]. intros _. rewrite Hn. apply dead_bind, dead_StoreFlags.
    + apply dead_bind, dead_bind, dead_StoreFlags.
Qed.

Lemma slot_forAccount (x : WWorld S) a : slot (set_slot a id x) a = slot x a.
Proof. by rewrite slot_set_slot. Qed.

Lemma dead_attempt {A} a n (fn : SelectResult -> M (WWorld S) werr A) x :
  x_closed x = false -> quiet x -> wedged a n x -> (forall sel, dead_end a n (fn sel)) ->
  wp (withMailbox a n fn) (fun x' r => x' = set_slot a id x /\ exists e, r = inl e) x.
Proof.
  intros Hcl Hq Hw Hfn. unfold withMailbox, forAccount. apply wp_bind, wp_bind, wp_get. rewrite Hcl.
  apply wp_modify. set (x1 := set_slot a id x).
  assert (wedged a n x1) as Hw1 by (unfold wedged, x1; by rewrite slot_forAccount).
  assert (quiet x1) as Hq1 by done.
  pose proof Hw1 as (Hn & Hname & c & Hc & _). cbn [mailbox_attempts]. apply wp_bind.
  unfold ensure. apply wp_bind, wp_get. rewrite Hc. apply wp_ret, wp_bind, wp_get.
  unfold selection. rewrite Hc, Hname, !bool_decide_eq_false_2, bool_decide_eq_true_2 by done. cbn [negb orb].
  apply wp_bind, wp_tryW. eapply wp_mono; [by apply Hfn|]. intros x' r (-> & e & -> & He).
  rewrite He. apply wp_throw. eauto.
Qed.
End steps.

(** Asking again and again. *)
Fixpoint retries {S A} (tries : nat) (p : M (WWorld S) werr A) (x : WWorld S) : list (werr + A) :=
  match tries with
  | O => []
  | Datatypes.S tries => let '(x', r) := p x in r :: retries tries p x'
  end.

(** C23: A connection that dies while a mailbox is remembered as selected does not heal by
    retries. When nothing else is written for the account and nothing else fails, every flag
    change in that mailbox fails, however often it is asked for back to back, although the
    server answers and a new connection could be made: the error a broken socket gives is
    not one of the two that [isConnectionDead] knows, so the connection and its selection
    stay cached and no SELECT is sent that would reveal it. (A write to another mailbox in
    between sends one; it fails, the connection is dropped, and the next dial heals both.) *)
Theorem dead_socket_wedges {S} `{ImapServer S} `{!ImapWriter S} (a m : Z) (k : state_key)
    (st : MessageState) (mb : Mailbox) (change : FlagChange) (x : WWorld S) (tries : nat) :
  writable a m k st mb x -> isNoop change = false -> wedged a (mb_Name mb) x ->
  Forall (fun r => exists e, r = inl e) (retries tries (ApplyFlagChange a m change) x).
Proof.
  intros Hx Hn. revert x Hx. induction tries as [|tries IH]; intros x Hx Hw; [constructor|].
  cbn [retries].
  assert (wp (ApplyFlagChange a m change) (fun x' r =>
    (exists e, r = inl e) /\ writable a m k st mb x' /\ wedged a (mb_Name mb) x') x) as Hwp.
  { apply wp_bind. eapply wp_target_quiet; [done|]. set (x1 := add_event _ x). rewrite Hn.
    destruct Hx as [Hq Hop Hrow Hown Hlive Hmb Hacc]. assert (quiet x1) as Hq1 by done.
    apply wp_bind, wp_GetAccount_quiet; [done|done|]. apply wp_bind.
    eapply wp_mono; [apply (dead_attempt a (mb_Name mb)); [done|done|done|]|].
    - intros sel. apply harmless_bind.
      + intros y _ _. unfold checkUIDValidity. case_match; [by apply wp_ret|]. apply wp_throw.
        split; [done|]. by intros e [= <-].
      + intros _. by apply dead_flag_write.
    - intros x' r (-> & e & ->). split; [eauto|]. split; [by split|].
      destruct Hw as (? & ? & ?). unfold wedged. rewrite slot_forAccount. done. }
  destruct (ApplyFlagChange a m change x) as [x' r] eqn:E.
  destruct (wp_elim _ _ _ _ _ Hwp E) as (He & Hx' & Hw'). constructor; [done|]. by apply IH.
Qed.

(** The server drops the connection between two changes of the same message. *)
Definition add_star : FlagChange :=
  {| fc_Replace := false; fc_Flags := []; fc_Add := ["flagged"]; fc_Remove := [] |}.
Definition dropped : turn MemServer := {| t_other := fun w c => (w, c); t_out := Broken |}.
Definition run_star (x : WWorld MemServer) : WWorld MemServer := (ApplyFlagChange 1 7 add_star x).1.
Definition wedged_world : WWorld MemServer :=
  run_star (run_star (plain_world (replicate 11 still ++ [dropped]))).

Lemma dead_socket_wedges_witness :
  (exists out, (ApplyFlagChange 1 7 add_star (plain_world (replicate 11 still ++ [dropped]))).2 = inr out) /\
  Forall (fun r => exists e, r = inl e) (retries 5 (ApplyFlagChange 1 7 add_star) wedged_world) /\
  (exists out, (ApplyFlagChange 1 7 add_star (set_conns (fun _ => ∅) wedged_world)).2 = inr out).
Proof.
  split; [eexists; vm_compute; reflexivity|]. split; [|eexists; vm_compute; reflexivity].
  assert (writable 1 7 (1, 1, 3) (touched 100 (sample_row 5 ["work"] 10)) (sample_mailbox 1 "INBOX" RoleInbox)
            wedged_world) as Hw.
  { split; [split; [apply nil_length_inv|]| | | | | |eexists]; vm_compute; reflexivity. }
  apply (dead_socket_wedges 1 7 _ _ _ add_star wedged_world 5 Hw).
  - reflexivity.
  - split; [done|]. split; [vm_compute; reflexivity|]. eexists. split; [vm_compute; reflexivity|].
    by repeat split.
Defined.
