(* ===== verification/WriteReplace.v ===== *)
(** The lost update that is not possible (src/internal/sync/write.go, storeReplace): a client
    that sets the whole keyword set of a message never overwrites what another client changed
    after the state the set was computed from.

    The rest of the world changes the server as IMAP with CONDSTORE does ([evolves]) while a
    write runs. [runs] follows a callback in the selected mailbox together with a fact about
    the server that such changes keep. *)

From S2P Require Import Prelude Convert Utf8 Text GoStrings Store Imap Pipeline Incremental WriteWorld.
From S2P Require Import ImapClient WriteLaws Write WriteLogic WriteSafety WriteEffects.
#[local] Open Scope Z_scope.

Section replace.
Context {S : Type} `{ImapServer S} `{!ImapLaws S} `{!ImapWriter S} `{!ImapWriterLaws S}.
Abbreviation WM := (M (WWorld S) werr).

(** The rest of the world: it leaves the store alone and changes the server by the rules. *)
Definition polite (t : turn S) : Prop :=
  forall w c, w_db (t_other t w c).1 = w_db w /\ (t_other t w c).2 = c /\
    forall n, evolves n (w_srv w) (w_srv (t_other t w c).1).

Lemma mailbox_evolves_refl n (s : S) : evolves n s s.
Proof.
  split; try done; try (intros; lia); [naive_solver| |].
  - intros u Hn [m Hm]. congruence.
  - intros u since [m Hm]. congruence.
Qed.

(** A message whose flags and keywords are those of the row. *)
Definition content_agrees (st : MessageState) (msg : SrvMsg) : Prop :=
  ms_Flags st = storeFlags (sm_Flags msg) /\ ms_Keywords st ≡ₚ sanitizeAll (sm_Keywords msg).

(** Whatever has not changed after [since] is as the row says. *)
Definition settled (n : string) (uid : Z) (st : MessageState) (since : Z) (s : S) : Prop :=
  since <= srv_highest s n /\
  forall msg, srv_view s n !! uid = Some msg -> sm_ModSeq msg <= since -> content_agrees st msg.

(** A full-set STORE that takes effect finds the flags the row says. *)
Definition no_clobber (n : string) (uid : Z) (st : MessageState) (ev : event S) : Prop :=
  match ev with
  | Executed _ (MStore n' _ uids FlagsSet _ since) s =>
      n' = n -> uids = [uid] -> forall msg, srv_view s n !! uid = Some msg ->
      ~ refused since msg -> content_agrees st msg
  | _ => True
  end.

(** Modification sequences are positive. *)
Definition positive (n : string) (s : S) : Prop :=
  forall u msg, srv_view s n !! u = Some msg -> 0 < sm_ModSeq msg.

Definition not_closed (x : WWorld S) : Prop :=
  map_Forall (fun _ ac => match ac_client ac with Some c => cl_closed c = false | None => True end)
    (x_conns x).

Section run.
Context (a : Z) (n : string) (uid : Z) (st : MessageState) (tr0 : list (event S)).
Implicit Types (F : S -> Prop) (x : WWorld S).

Class Stable F : Prop := stable s s' : evolves n s s' -> F s -> F s'.

#[local] Instance Stable_true : Stable (fun _ => True).
Proof. by intros s s'. Qed.
#[local] Instance Stable_and F F' : Stable F -> Stable F' -> Stable (fun s => F s /\ F' s).
Proof. intros HF HF' s s' He [? ?]. split; by eapply stable. Qed.
#[local] Instance Stable_settled since : Stable (settled n uid st since).
Proof.
  intros s s' He [Hle Hag]. split; [pose proof (ev_highest _ _ _ He); lia|].
  intros msg Hmsg Hmod. destruct (ev_view _ _ _ He _ _ Hmsg) as [?|?]; [auto|lia].
Qed.
#[local] Instance Stable_positive : Stable (positive n).
Proof.
  intros s s' He Hp u msg Hmsg. destruct (ev_view _ _ _ He _ _ Hmsg) as [?|?]; [eauto|].
  pose proof (highest_nonneg s n). lia.
Qed.

Definition K F x : Prop :=
  not_closed x /\ Forall polite (x_sched x) /\ F (w_srv (x_world x)).

Lemma K_weaken F F' x : K F x -> (forall s, F s -> F' s) -> K F' x.
Proof. intros (? & ? & ?) Hw. by split; auto. Qed.

Lemma wp_tick_polite F (Q : WWorld S -> werr + outcome -> Prop) x :
  Stable F -> K F x ->
  (forall x' oc, K F x' -> x_conns x' = x_conns x -> x_trace x' = x_trace x ->
     w_db (x_world x') = w_db (x_world x) -> x_cols x' = x_cols x -> Q x' (inr oc)) ->
  wp tick Q x.
Proof.
  intros HF (Hc & Hs & HFx) HQ. unfold wp, tick.
  assert (Forall polite (tail (x_sched x)) /\ polite (default still (head (x_sched x)))) as [Ht Hh].
  { destruct (x_sched x); simpl; [|by apply Forall_cons in Hs as [??]].
    split; [constructor|]. intros w c. split; [done|]. split; [done|]. intros n'. apply mailbox_evolves_refl. }
  pose proof (Hh (x_world x) (x_cols x)) as (Hdb & Hcols & Hev).
  destruct (t_other (default still (head (x_sched x))) (x_world x) (x_cols x)) as [w c]. simpl in *.
  apply HQ; simpl; [|done|done|done|done]. split; [done|]. split; [done|].
  eapply stable; [apply Hev|done].
Qed.

(** ** Callbacks in the selected mailbox *)

Abbreviation Invn v := (Inv a (fun _ => no_clobber n uid st) tr0 (Some (n, v)) (fun _ => True)).

Definition runs {A} (v : Z) F (p : WM A) (R : A -> S -> Prop) : Prop :=
  forall x, Invn v x -> K F x -> is_Some (ac_client (slot x a)) ->
  wp p (fun x' r => Invn v x' /\ is_Some (ac_client (slot x' a)) /\
    match r with
    | inl e => isConnectionDead e = false /\ K (fun _ => True) x'
    | inr w => K (R w) x'
    end) x.

Lemma runs_ret {A} v F (w : A) R : (forall s, F s -> R w s) -> runs v F (mret w) R.
Proof.
  intros HR x Hi Hk Hc. apply wp_ret. split; [done|]. split; [done|]. by eapply K_weaken.
Qed.
Lemma runs_throw {A} v F e (R : A -> S -> Prop) : isConnectionDead e = false -> runs v F (throw e) R.
Proof.
  intros He x Hi Hk Hc. apply wp_throw. split; [done|]. split; [done|]. split; [done|].
  by eapply K_weaken.
Qed.
Lemma runs_bind {A B} v F (p : WM A) (q : A -> WM B) R R' :
  runs v F p R -> (forall w, runs v (R w) (q w) R') -> runs v F (p ≫= q) R'.
Proof.
  intros Hp Hq x Hi Hk Hc. apply wp_bind. eapply wp_mono; [by apply Hp|].
  intros x' [e|w] (Hi' & Hc' & Hk'); [done|]. by apply Hq.
Qed.
Lemma runs_conseq {A} v F F' (p : WM A) (R R' : A -> S -> Prop) :
  runs v F' p R -> (forall s, F s -> F' s) -> (forall w s, R w s -> R' w s) -> runs v F p R'.
Proof.
  intros Hp HF HR x Hi Hk Hc. eapply wp_mono; [apply Hp; [done|by eapply K_weaken|done]|].
  intros x' [e|w] (Hi' & Hc' & Hk'); [done|]. split; [done|]. split; [done|]. eapply K_weaken; [exact Hk'|auto].
Qed.
Lemma runs_get v F : runs v F get (fun _ => F).
Proof. intros x Hi Hk Hc. by apply wp_get. Qed.

(** A statement that does not talk to the server. *)
Lemma runs_stmt {A} v F (p : M (World S) err A) :
  Stable F -> (forall w, w_srv (p w).1 = w_srv w) -> runs v F (stmt p) (fun _ => F).
Proof.
  intros HF Hp x Hi Hk Hc. apply wp_bind, (wp_tick_polite F); [done|done|].
  intros x1 oc (Hnc & Hs & HFx) Hx1 Ht1 _ _. unfold wp, in_store.
  assert (Inv a (fun _ => no_clobber n uid st) tr0 (Some (n, v)) (fun _ => True) x1) as Hi1
    by (by eapply Inv_conns).
  specialize (Hp (x_world x1)). destruct (p (x_world x1)) as [w r]. simpl in *.
  split; [by eapply Inv_conns|]. split; [by unfold slot in *; simpl; rewrite Hx1|].
  destruct r; [split; [done|]|]; (split; [done|]); (split; [done|]); simpl; [done|]. by rewrite Hp.
Qed.

Lemma K_kill F x : K F x -> K F (set_slot a (with_client kill) x).
Proof.
  intros (Hnc & Hs & HF). split; [|done]. unfold not_closed, set_slot in *. simpl.
  apply map_Forall_insert_2; [|done]. simpl. unfold slot.
  destruct (x_conns x !! a) as [ac|] eqn:E; simpl; [|done]. specialize (Hnc a ac E). simpl in Hnc.
  destruct (ac_client ac); simpl; done.
Qed.

Lemma K_add_events F evs x : K F x -> K F (add_events evs x).
Proof. done. Qed.

Lemma wp_conn_open (Q : WWorld S -> werr + client -> Prop) x :
  not_closed x -> is_Some (ac_client (slot x a)) ->
  (forall c, ac_client (slot x a) = Some c -> Q x (inr c)) -> wp (conn a) Q x.
Proof.
  intros Hnc [c Hc] HQ. unfold conn. apply wp_bind, wp_get. rewrite Hc.
  assert (cl_closed c = false) as ->; [|by apply wp_ret, HQ].
  unfold slot in Hc. destruct (x_conns x !! a) as [ac|] eqn:E; simpl in Hc; [|done].
  specialize (Hnc a ac E). simpl in Hnc. by rewrite Hc in Hnc.
Qed.

Lemma runs_selectedMailbox v F : runs v F (selectedMailbox a) (fun _ => F).
Proof.
  intros x Hi Hk Hc. unfold selectedMailbox. apply wp_bind, wp_conn_open; [apply Hk|done|]. intros c _.
  case_match; [apply wp_throw|apply wp_ret]; (split; [done|]); (split; [done|]); [|done].
  split; [done|]. by eapply K_weaken.
Qed.

Lemma runs_requireCap v F name : runs v F (requireCap a name) (fun _ => F).
Proof.
  eapply runs_bind; [apply runs_get|]. intros x. case_match; [by apply runs_ret|by apply runs_throw].
Qed.

(** A command in the mailbox. *)
Lemma runs_wire {A} v F (act : client -> S -> no_response + (S * A)) evs R :
  Stable F ->
  (forall c s s' w, cl_session c = Some (n, v) -> F s -> act c s = inr (s', w) ->
     Forall (event_ok a (fun _ => no_clobber n uid st) []) (evs c s w) /\ R w s') ->
  runs v F (wire a act evs) R.
Proof.
  intros HF Hact x Hi Hk Hc. unfold wire. apply wp_bind, wp_conn_open; [apply Hk|done|]. intros c Hcl.
  apply wp_bind, (wp_tick_polite F); [done|done|]. intros x1 oc Hk1 Hx1 Ht1 _ _.
  assert (Invn v x1) as Hi1 by (by eapply Inv_conns).
  assert (is_Some (ac_client (slot x1 a))) as Hc1 by (unfold slot in *; by rewrite Hx1).
  assert (K (fun _ => True) x1) as Hk1' by (by eapply K_weaken).
  assert (forall (e : werr), isConnectionDead e = false -> Invn v x1 /\ is_Some (ac_client (slot x1 a)) /\
    isConnectionDead e = false /\ K (fun _ => True) x1) as Hfail by done.
  assert (cl_alive c = true -> wp (x ← get;
    match act c (w_srv (x_world x)) with
    | inl r => throw (EServer r)
    | inr (s', w) =>
        modify (set_srv s') ;; forM_ (evs c (w_srv (x_world x)) w) emit ;; mret w
    end) (fun x' r => Invn v x' /\ is_Some (ac_client (slot x' a)) /\
      match r with
      | inl e => isConnectionDead e = false /\ K (fun _ => True) x'
      | inr w => K (R w) x'
      end) x1) as Hrun.
  { intros Hal. apply wp_bind, wp_get. destruct (act c (w_srv (x_world x1))) as [r|[s' w]] eqn:Ea.
    { by apply wp_throw, Hfail. }
    apply wp_bind, wp_modify, wp_bind, wp_emits, wp_ret.
    destruct Hi as (_ & Hop & _). specialize (Hop c Hcl Hal).
    destruct Hk1 as (Hnc1 & Hs1 & HF1). destruct (Hact c _ s' w Hop HF1 Ea) as [Hevs HR].
    split; [|split; [done|done]]. destruct Hi1 as (Hci & Hoi & run & Hr & Hj & _).
    split; [done|]. split; [done|]. eexists. simpl. rewrite Hr, <- app_assoc. split; [done|].
    split; [|done]. apply justified_app; [done|]. intros pre ev post Heq.
    rewrite Heq in Hevs. by apply Forall_app in Hevs as [_ [Hev _]%Forall_cons]. }
  destruct oc as [| |r| |].
  - destruct (cl_alive c); [auto|by apply wp_throw, Hfail].
  - by apply wp_throw, Hfail.
  - by destruct (cl_alive c); apply wp_throw, Hfail.
  - apply wp_bind, wp_modify, wp_throw. split; [by apply Inv_kill|].
    split; [|split; [done|by apply K_kill]]. rewrite slot_set_slot. destruct Hc1 as [? Hc1]. simpl. by rewrite Hc1.
  - destruct (cl_alive c); [|by apply wp_throw, Hfail].
    apply wp_bind. specialize (Hrun eq_refl). unfold tryW, wp in *.
    destruct ((x ← get; _) x1) as [x2 r2] eqn:E2. simpl in *. destruct Hrun as (Hi2 & Hc2 & Hr2).
    assert (K (fun _ => True) x2) as Hk2 by (destruct r2; [apply Hr2|by eapply K_weaken]).
    split; [by apply Inv_kill|]. split; [|split; [done|by apply K_kill]].
    rewrite slot_set_slot. destruct Hc2 as [? Hc2]. simpl. by rewrite Hc2.
Qed.

(** What a read-back says is so until something changes after it. *)
Definition seen_at (f : Fetched) (s : S) : Prop :=
  0 < f_ModSeq f /\ f_ModSeq f <= srv_highest s n /\
  forall msg, srv_view s n !! uid = Some msg -> sm_ModSeq msg <= f_ModSeq f ->
    sm_Flags msg = f_Flags f /\ sm_Keywords msg = f_Keywords f.
#[local] Instance Stable_seen_at f : Stable (seen_at f).
Proof.
  intros s s' He (Hpos & Hle & Hag). split; [done|]. split; [pose proof (ev_highest _ _ _ He); lia|].
  intros msg Hmsg Hmod. destruct (ev_view _ _ _ He _ _ Hmsg) as [?|?]; [auto|lia].
Qed.

Lemma on_session_eq {A} v (f : string -> Z -> S -> no_response + (S * A)) c s r :
  cl_session c = Some (n, v) -> on_session f c s = inr r -> f n v s = inr r.
Proof.
  unfold on_session. intros ->. destruct (srv_select s n 0 0); [|done]. by destruct (_ =? v).
Qed.

Lemma runs_fetchOne v F :
  Stable F ->
  runs v (fun s => positive n s /\ F s) (fetchOne a uid)
    (fun r s => positive n s /\ F s /\ forall f, r = Some f -> seen_at f s).
Proof.
  intros HF. unfold fetchOne.
  eapply runs_bind with (R := fun fs s => positive n s /\ F s /\
    forall f, f ∈ fs -> f_UID f = uid -> seen_at f s).
  - unfold FetchMessages. eapply runs_bind; [apply runs_selectedMailbox|]. intros ?.
    rewrite bool_decide_eq_false_2 by done. apply runs_wire; [apply _|].
    intros c s s' fs Hse [Hpos HFs] Hact. unfold reading in Hact.
    apply (on_session_eq v) in Hact; [|done]. simplify_eq. split.
    + unfold seen_events. rewrite Hse. apply Forall_fmap, Forall_true. done.
    + split; [done|]. split; [done|]. intros f (f0 & -> & Hf0)%list_elem_of_fmap Hu.
      apply view_fetch in Hf0 as (msg & Hin & Hmsg & Heq); [|apply NoDup_singleton].
      assert (f_ModSeq f0 = sm_ModSeq msg /\ f_Flags f0 = sm_Flags msg /\
              f_Keywords f0 = sm_Keywords msg) as (Hmo & Hfl & Hkw) by (by rewrite Heq).
      apply list_elem_of_singleton in Hin. simpl in *. rewrite Hin in Hmsg. unfold seen_at. simpl.
      rewrite Hmo, Hfl, Hkw. destruct (view_bounds s' n) as (_ & _ & Hb). destruct (Hb _ _ Hmsg) as [_ Hle].
      split; [by eapply Hpos|]. split; [done|]. intros msg' Hmsg' _. by simplify_eq.
  - intros fs. apply runs_ret. intros s (Hpos & HFs & Hfs). split; [done|]. split; [done|].
    intros f Hl. apply last_Some_elem_of, list_elem_of_filter in Hl as [? ?]. by apply Hfs.
Qed.

Lemma runs_fetch_bind {B} v F (q : Fetched -> WM B) R :
  Stable F -> (forall f, runs v (fun s => positive n s /\ F s /\ seen_at f s) (q f) R) ->
  runs v (fun s => positive n s /\ F s) (msg ← fetchOne a uid; f ← need msg; q f) R.
Proof.
  intros HF Hq. eapply runs_bind; [by apply runs_fetchOne|]. intros [f|].
  - eapply runs_bind with (R := fun f' s => f' = f /\ positive n s /\ F s /\ seen_at f s).
    { apply runs_ret. intros s (? & ? & Hf). naive_solver. }
    intros f' x Hi Hk Hc. assert (f' = f) as -> by apply Hk. apply (Hq f); [done| |done].
    eapply K_weaken; [exact Hk|]. naive_solver.
  - eapply runs_bind with (R := fun _ _ => False); [by apply runs_throw|].
    intros f x _ (_ & _ & []).
Qed.

(** A STORE whose condition the row or a read-back justifies. *)
Lemma runs_StoreFlags v F op fl since :
  Stable F ->
  (op = FlagsSet -> forall s, F s -> since <> 0 /\ settled n uid st since s) ->
  runs v (fun s => positive n s /\ F s) (StoreFlags a [uid] op fl since) (fun _ => positive n).
Proof.
  intros HF Hset. unfold StoreFlags. rewrite bool_decide_eq_false_2 by done.
  eapply runs_bind with (R := fun _ s => positive n s /\ F s).
  { case_match; [by apply runs_ret|apply runs_requireCap]. }
  intros _. eapply runs_bind; [apply runs_selectedMailbox|]. intros ?.
  cbn [List.length slices storeBatchSize take drop store_batches].
  eapply runs_bind with (R := fun _ => positive n); [|intros res; by apply runs_ret].
  unfold storeBatch. eapply runs_bind with (R := fun _ => positive n).
  { apply runs_wire; [apply _|]. intros c s s' d Hse [Hpos HFs] Hact.
    apply (on_session_eq v) in Hact; [|done].
    apply wl_store in Hact; [|apply NoDup_singleton]. split.
    - unfold session_event. rewrite Hse. apply Forall_singleton. simpl. destruct op; try done.
      intros _ _ msg Hmsg Hr. destruct (Hset eq_refl s HFs) as [Hne [_ Hag]].
      apply Hag; [done|]. unfold refused in Hr. lia.
    - intros u msg Hmsg. destruct (srv_view s n !! u) as [msg0|] eqn:E.
      2: { rewrite (se_none _ _ _ _ _ _ _ _ Hact u E) in Hmsg. done. }
      destruct (decide (u ∈ [uid])) as [Hu|Hu].
      2: { rewrite (se_other _ _ _ _ _ _ _ _ Hact u Hu) in Hmsg. by eapply Hpos. }
      destruct (decide (refused since msg0)) as [Hr|Hr].
      + rewrite (se_refused _ _ _ _ _ _ _ _ Hact u msg0 E Hr) in Hmsg. simplify_eq. by eapply Hpos.
      + destruct (se_applied _ _ _ _ _ _ _ _ Hact u msg0 Hu E Hr) as (m' & Hm' & _ & Hmod).
        rewrite Hmsg in Hm'. simplify_eq. destruct Hmod as [->|Hmod]; [by eapply Hpos|].
        pose proof (highest_nonneg s n). lia. }
  intros d. case_match; [by apply runs_ret|].
  assert (forall (b : bool) (r : StoreResult) (g : list Z -> StoreResult) missing,
    runs v (positive n) (if b then mret r else rejected ← verifyByReadBack a missing since; mret (g rejected))
      (fun _ => positive n)) as Hfall.
  { intros b r g missing. destruct b; [by apply runs_ret|].
    eapply runs_bind with (R := fun _ => positive n); [|intros ?; by apply runs_ret]. unfold verifyByReadBack.
    eapply runs_bind with (R := fun _ => positive n); [|intros ?; by apply runs_ret]. apply runs_wire; [apply _|].
    intros c s s' ? Hse Hpos Hact. apply (on_session_eq v) in Hact; [|done]. simplify_eq.
    split; [constructor|done]. }
  destruct (sd_modified d) as [| |nums]; cbn [uidsFromUIDSet]; [apply Hfall|apply Hfall|].
  destruct (_ <? _)%nat; [apply Hfall|by apply runs_ret].
Qed.

Lemma runs_emit v F ev :
  event_ok a (fun _ => no_clobber n uid st) [] ev -> runs v F (emit ev) (fun _ => F).
Proof.
  intros Hev x Hi Hk Hc. apply wp_modify. split; [|by split].
  eapply Inv_weaken; [apply Inv_emit; [apply _|exact Hi|]|done]. intros l _. by destruct ev.
Qed.

Lemma UpdateFlags_srv us (w : World S) : w_srv (UpdateFlags us w).1 = w_srv w.
Proof.
  assert (wp (UpdateFlags us) (fun w' _ => w_srv w' = w_srv w) w) as Hwp; [|exact Hwp].
  unfold UpdateFlags. destruct (decide (us = [])); [by apply wp_ret|].
  apply wp_bind, wp_io; [done|]. by wp_steps.
Qed.

Lemma runs_reflectFlags v F f : Stable F -> runs v F (reflectFlags st f) (fun _ => F).
Proof.
  intros HF. unfold reflectFlags.
  eapply runs_bind with (R := fun _ => F); [|intros ?; by apply runs_ret].
  case_match; [by apply runs_ret|].
  eapply runs_bind; [apply runs_stmt; [done|apply UpdateFlags_srv]|]. intros ?. by apply runs_emit.
Qed.

Lemma runs_storeReplace v flags :
  modSeqFromDB (ms_ModSeqSeen st) <> 0 ->
  runs v (fun s => positive n s /\ settled n uid st (modSeqFromDB (ms_ModSeqSeen st)) s)
    (storeReplace a st uid flags) (fun _ => positive n).
Proof.
  intros Hne. unfold storeReplace. rewrite (proj2 (Z.eqb_neq _ _) Hne).
  eapply runs_bind with (R := fun since s => since = modSeqFromDB (ms_ModSeqSeen st) /\
    positive n s /\ settled n uid st (modSeqFromDB (ms_ModSeqSeen st)) s); [by apply runs_ret|].
  intros since. set (G := fun s => since = modSeqFromDB (ms_ModSeqSeen st) /\
    settled n uid st (modSeqFromDB (ms_ModSeqSeen st)) s).
  assert (Stable G) as HG.
  { intros s s' He [? ?]. split; [done|]. by eapply stable. }
  eapply runs_bind with (R := fun _ => positive n).
  { eapply runs_conseq; [apply (runs_StoreFlags v G); [done|]|unfold G; naive_solver|done].
    intros _ s [-> ?]. done. }
  intros res. case_match; [by apply runs_ret|].
  assert (forall F f, Stable F -> runs v (fun s => positive n s /\ F s)
    (reflectFlags st f ;; throw (A := unit) ErrWriteConflict) (fun _ => positive n)) as Hlast.
  { intros F f HF. eapply runs_bind; [apply runs_reflectFlags, _|]. intros ?. by apply runs_throw. }
  eapply runs_conseq with (F' := fun s => positive n s /\ True) (R := fun _ => positive n); [|done|done].
  apply runs_fetch_bind; [apply _|]. intros fresh. case_match eqn:Esame.
  2: { eapply runs_conseq; [apply (Hlast (fun s => True /\ seen_at fresh s)), _|naive_solver|done]. }
  apply andb_prop in Esame as [Hfl%Z.eqb_eq Hkw%sameKeywords_perm].
  eapply runs_bind with (R := fun _ => positive n).
  { eapply runs_conseq; [apply (runs_StoreFlags v (seen_at fresh)); [apply _|]|naive_solver|done].
    intros _ s (Hpos & Hle & Hseen). split; [lia|]. split; [done|]. intros msg Hmsg Hmod.
    destruct (Hseen msg Hmsg Hmod) as [Hf Hk]. unfold content_agrees. by rewrite Hf, Hk. }
  intros res2. case_match; [by apply runs_ret|].
  eapply runs_conseq with (F' := fun s => positive n s /\ True) (R := fun _ => positive n); [|done|done].
  apply runs_fetch_bind; [apply _|]. intros f2.
  eapply runs_conseq; [apply (Hlast (fun s => True /\ seen_at f2 s)), _|naive_solver|done].
Qed.

(** ** Around the callback *)

(** A computation that leaves the server alone. *)
Definition unmoved {A} F (p : WM A) : Prop := forall x, K F x -> wp p (fun x' _ => K F x') x.

Lemma unmoved_ret {A} F (w : A) : unmoved F (mret w).
Proof. intros x Hk. by apply wp_ret. Qed.
Lemma unmoved_throw {A} F e : unmoved F (throw (A := A) e).
Proof. intros x Hk. by apply wp_throw. Qed.
Lemma unmoved_get F : unmoved F get.
Proof. intros x Hk. by apply wp_get. Qed.
Lemma unmoved_bind {A B} F (p : WM A) (q : A -> WM B) :
  unmoved F p -> (forall w, unmoved F (q w)) -> unmoved F (p ≫= q).
Proof.
  intros Hp Hq x Hk. apply wp_bind. eapply wp_mono; [by apply Hp|]. intros x' [e|w] Hk'; [done|]. by apply Hq.
Qed.
Lemma unmoved_try {A} F (p : WM A) : unmoved F p -> unmoved F (tryW p).
Proof. intros Hp x Hk. apply wp_tryW. by apply Hp. Qed.
Lemma unmoved_tick F : Stable F -> unmoved F tick.
Proof. intros HF x Hk. by apply (wp_tick_polite F). Qed.

Lemma unmoved_slot F f :
  (forall ac, match ac_client ac with Some c => cl_closed c = false | None => True end ->
     match ac_client (f ac) with Some c => cl_closed c = false | None => True end) ->
  unmoved F (modify (set_slot a f)).
Proof.
  intros Hf x (Hnc & Hs & HF). apply wp_modify. split; [|done]. unfold not_closed, set_slot in *.
  simpl. apply map_Forall_insert_2; [|done]. apply Hf. unfold slot.
  destruct (x_conns x !! a) as [ac|] eqn:E; simpl; [by apply (Hnc a ac)|done].
Qed.

Lemma unmoved_emits F (evs : list (event S)) : unmoved F (forM_ evs emit).
Proof. intros x Hk. by apply wp_emits. Qed.

Lemma unmoved_conn F : unmoved F (conn a).
Proof.
  apply unmoved_bind; [apply unmoved_get|]. intros x. destruct (ac_client _); [|apply unmoved_throw].
  case_match; [apply unmoved_throw|apply unmoved_ret].
Qed.

Lemma unmoved_wire {A} F (act : client -> S -> no_response + (S * A)) evs :
  Stable F -> (forall c s s' w, act c s = inr (s', w) -> s' = s) -> unmoved F (wire a act evs).
Proof.
  intros HF Hact. unfold wire. apply unmoved_bind; [apply unmoved_conn|]. intros c.
  apply unmoved_bind; [by apply unmoved_tick|]. intros oc.
  assert (unmoved F (x ← get;
    match act c (w_srv (x_world x)) with
    | inl r => throw (EServer r)
    | inr (s', v) =>
        modify (set_srv s') ;; forM_ (evs c (w_srv (x_world x)) v) emit ;; mret v
    end)) as Hrun.
  { intros x Hx. apply wp_bind, wp_get.
    destruct (act c (w_srv (x_world x))) as [r|[s' w]] eqn:E; [by apply wp_throw|].
    apply Hact in E. subst s'. by apply wp_bind, wp_modify, wp_bind, wp_emits, wp_ret. }
  assert (unmoved F (modify (set_slot a (with_client kill)))) as Hkill.
  { apply unmoved_slot. intros ac. simpl. by destruct (ac_client ac). }
  destruct oc as [| |r| |].
  - by destruct (cl_alive c); [|apply unmoved_throw].
  - apply unmoved_throw.
  - destruct (cl_alive c); apply unmoved_throw.
  - apply unmoved_bind; [done|]. intros ?. apply unmoved_throw.
  - destruct (cl_alive c); [|apply unmoved_throw]. apply unmoved_bind; [by apply unmoved_try|]. intros ?.
    apply unmoved_bind; [done|]. intros ?. apply unmoved_throw.
Qed.

Lemma unmoved_SelectQResync F mailbox : Stable F -> unmoved F (SelectQResync a mailbox).
Proof.
  intros HF. unfold SelectQResync. apply unmoved_bind.
  - apply unmoved_try, unmoved_wire; [done|]. intros c s s' w. unfold select_act.
    destruct (srv_select s mailbox 0 0); [by intros [= <- _]|done].
  - intros [e|sel].
    + destruct e; try apply unmoved_throw. apply unmoved_bind.
      * apply unmoved_slot. intros ac. simpl. by destruct (ac_client ac).
      * intros ?. case_match; apply unmoved_throw.
    + apply unmoved_bind; [|intros ?; apply unmoved_ret]. apply unmoved_slot. intros ac. simpl.
      by destruct (ac_client ac).
Qed.

Lemma unmoved_ensure F : Stable F -> unmoved F (ensure a).
Proof.
  intros HF. apply unmoved_bind; [apply unmoved_get|]. intros x.
  destruct (ac_client (slot x a)); [apply unmoved_ret|].
  apply unmoved_bind; [by apply unmoved_tick|]. intros oc. destruct oc; try apply unmoved_throw.
  apply unmoved_bind; [apply unmoved_get|]. intros y. by apply unmoved_slot.
Qed.

Abbreviation Inv0 := (Inv a (fun _ => no_clobber n uid st) tr0 None (fun _ => True)).


Lemma unmoved_discard F : unmoved F (discard a).
Proof. by apply unmoved_slot. Qed.

Lemma Inv_discarded x : Inv0 x -> Inv0 (set_slot a (fun _ => no_conn) x).
Proof. intros Hi. apply Inv_parts in Hi as [??]. by apply Inv_discard. Qed.

Lemma K_discarded F x : K F x -> K F (set_slot a (fun _ => no_conn) x).
Proof. intros Hk. by apply (unmoved_discard F x Hk). Qed.

(** Enter the mailbox: from the cache or with a SELECT. *)
Lemma wp_ensure_runs F (Q : WWorld S -> werr + unit -> Prop) x :
  Stable F -> Inv0 x -> K F x ->
  (forall x' e, Inv0 x' -> Q x' (inl e)) ->
  (forall x', Inv0 x' -> K F x' -> is_Some (ac_client (slot x' a)) -> Q x' (inr tt)) ->
  wp (ensure a) Q x.
Proof.
  intros HF Hi Hk He Hok.
  eapply wp_mono; [apply wp_and; [|by apply (unmoved_ensure F)]|].
  - apply (wp_ensure a (fun _ => no_clobber n uid st) tr0 (fun _ => True) (fun x' r => Inv0 x' /\
      match r with inr _ => is_Some (ac_client (slot x' a)) | inl _ => True end)); [exact Hi|done|done].
  - intros x' [e|[]] [[Hi' Hc'] Hk']; auto.
Qed.

Lemma wp_Select_runs {A} F (fn : SelectResult -> WM A) (Q : WWorld S -> werr + A -> Prop) x e0 :
  Stable F -> (forall sel, runs (sel_UIDValidity sel) F (fn sel) (fun _ _ => True)) ->
  Inv0 x -> K F x ->
  (forall x' r, Inv0 x' -> Q x' r) ->
  (forall x' e, Inv0 x' -> K F x' -> wp (e0 e) Q x') ->
  wp (r ← tryW (SelectQResync a n);
      match r with
      | inr sel => modify (set_slot a (remember n sel)) ;; fn sel
      | inl e => discard a ;; e0 e
      end) Q x.
Proof.
  intros HF Hfn Hi Hk HQ He. apply wp_bind, wp_tryW.
  eapply wp_mono; [apply wp_and; [by apply (wp_SelectQResync a (fun _ => no_clobber n uid st) tr0 (fun _ => True))|
                                  by apply (unmoved_SelectQResync F)]|].
  intros x1 [e|sel] [(Ho & Hr & Hsel) Hk1].
  - apply wp_bind, wp_modify, He; [by apply Inv_discard|by apply K_discarded].
  - destruct Hsel as (c & Hcl & Hal). apply wp_bind, wp_modify.
    eapply wp_mono; [apply Hfn|].
    + apply Inv_set_slot; [done|done| |]; unfold conn_ok; simpl; rewrite Hcl; [auto|by intros ? [= <-]].
    + by apply (unmoved_slot F (remember n sel)).
    + rewrite slot_set_slot. simpl. eauto.
    + intros x' r (Hi' & _). apply HQ. by eapply Inv_leave.
Qed.

Lemma runs_attempts {A} retry F (fn : SelectResult -> WM A) x :
  Stable F -> (forall sel, runs (sel_UIDValidity sel) F (fn sel) (fun _ _ => True)) ->
  Inv0 x -> K F x -> wp (mailbox_attempts retry a n fn) (fun x' _ => Inv0 x') x.
Proof.
  intros HF Hfn. revert x. induction retry as [|retry IH]; intros x Hi Hk; cbn [mailbox_attempts];
    (apply wp_bind, (wp_ensure_runs F); [done|done|done|done|]); intros x1 Hi1 Hk1 Hc1;
    apply wp_bind, wp_get; destruct (selection (slot x1 a) n) as [sel|] eqn:Esel.
  2: { by apply (wp_Select_runs F fn _ _ throw). }
  3: { apply (wp_Select_runs F fn _ _ (fun _ => mailbox_attempts retry a n fn)); auto. }
  all: assert (Invn (sel_UIDValidity sel) x1) as Hin
    by (split; [apply Hi1|]; split; [by eapply selection_open; [apply Hi1|]|apply Hi1]).
  all: apply wp_bind, wp_tryW; eapply wp_mono; [by apply Hfn|]; intros x2 [e|w] (Hi2 & Hc2 & Hk2).
  all: try (apply wp_ret; by eapply Inv_leave).
  - apply wp_throw. by eapply Inv_leave.
  - destruct Hk2 as [-> _]. apply wp_throw. by eapply Inv_leave.
Qed.

Lemma runs_withMailbox {A} F (fn : SelectResult -> WM A) x :
  Stable F -> (forall sel, runs (sel_UIDValidity sel) F (fn sel) (fun _ _ => True)) ->
  Inv0 x -> K F x -> wp (withMailbox a n fn) (fun x' _ => Inv0 x') x.
Proof.
  intros HF Hfn Hi Hk. unfold withMailbox, forAccount. apply wp_bind, wp_bind, wp_get.
  destruct (x_closed x); [by apply wp_throw|]. apply wp_modify, (runs_attempts _ F); [done|done| |].
  - pose proof (conn_ok_slot x a (proj1 Hi)). apply Inv_parts in Hi as [??]. by apply Inv_set_slot.
  - by apply (unmoved_slot F id).
Qed.
End run.

(** ** The row the set was computed from *)

Section target.
Context (a m : Z) (k : state_key) (st : MessageState) (mb : Mailbox) (d : DB) (tr0 : list (event S)).
Context (Hrow : state_row d m = Some (k, st)) (Hmb : mailboxes d !! key_mailbox k = Some mb).
Abbreviation n := (mb_Name mb).
Abbreviation uid := (uidFromDB (key_uid k)).
Abbreviation evok := (fun _ : list (event S) => no_clobber n uid st).

Definition J F (x : WWorld S) : Prop :=
  Inv a evok tr0 None (fun _ => True) x /\ K F x /\ w_db (x_world x) = d.

(** A statement that only reads. *)
Lemma wp_read_known {A} F (p : M (World S) err A) (P : A -> Prop) (Q : WWorld S -> werr + A -> Prop) x :
  Stable n F -> J F x ->
  (forall w, w_db w = d -> wp p (fun w' r => w_db w' = d /\ w_srv w' = w_srv w /\
    match r with inr v => P v | inl _ => True end) w) ->
  (forall x' e, J F x' -> Q x' (inl e)) -> (forall x' v, J F x' -> P v -> Q x' (inr v)) ->
  wp (stmt p) Q x.
Proof.
  intros HF (Hi & Hk & Hd) Hp He Hok. apply wp_bind, (wp_tick_polite n F); [done|done|].
  intros x1 oc Hk1 Hx1 Ht1 Hd1 _. rewrite Hd in Hd1.
  assert (Inv a evok tr0 None (fun _ => True) x1) as Hi1 by (by eapply Inv_conns).
  specialize (Hp _ Hd1). unfold wp, in_store in *. destruct (p (x_world x1)) as [w r]. simpl in *.
  destruct Hp as (Hdb & Hsrv & Hr), Hk1 as (Hnc & Hs & HFx).
  assert (J F (set_world w x1)) as HJ.
  { split; [by eapply Inv_conns|]. split; [|done]. split; [done|]. split; [done|]. simpl. by rewrite Hsrv. }
  destruct r as [e|v]; auto.
Qed.

Lemma wp_io_known (Q : World S -> err + unit -> Prop) (w : World S) :
  w_db w = d ->
  (forall w' r, w_db w' = d -> w_srv w' = w_srv w -> Q w' r) -> wp io Q w.
Proof. intros Hd HQ. by apply wp_io; intros; apply HQ. Qed.

Lemma wp_target_known F (Q : WWorld S -> werr + (state_key * MessageState * Mailbox) -> Prop) x :
  Stable n F -> J F x -> (forall x' e, J F x' -> Q x' (inl e)) ->
  (forall x', J F x' -> Q x' (inr (k, st, mb))) -> wp (target a m) Q x.
Proof.
  intros HF HJ He Hok. unfold target, found. apply wp_bind, wp_bind, wp_tryW.
  apply (wp_read_known F _ (fun r => r = (k, st))); [done|done| | |].
  { intros w Hd. unfold GetMessageState. apply wp_bind, wp_io_known; [done|].
    intros w' [e|[]] Hd' Hs'; [done|]. wp_steps. rewrite Hd', Hrow. by apply wp_ret. }
  { intros x1 e HJ1. case_match; apply wp_throw; auto. }
  intros x1 ? HJ1 ->. apply wp_ret, wp_bind, wp_get. case_match; [apply wp_throw; auto|].
  apply wp_bind, (wp_read_known F _ (fun r => r = mb)); [done|done| |auto|].
  { intros w Hd. unfold GetMailbox. apply wp_bind, wp_io_known; [done|].
    intros w' [e|[]] Hd' Hs'; [done|]. wp_steps. rewrite Hd', Hmb. by apply wp_ret. }
  intros x2 ? HJ2 ->. apply wp_bind, wp_modify, wp_ret, Hok. destruct HJ2 as (Hi & Hk & Hd).
  split; [|done]. eapply Inv_weaken; [apply Inv_emit; [apply _|exact Hi|done]|done].
Qed.

Lemma wp_GetAccount_known F (Q : WWorld S -> werr + unit -> Prop) x :
  Stable n F -> J F x -> (forall x' r, J F x' -> Q x' r) -> wp (GetAccount a) Q x.
Proof.
  intros HF HJ HQ. apply wp_bind, (wp_read_known F _ (fun _ => True)); [done|done| |auto|].
  { intros w Hd. apply wp_io_known; [done|]. by intros w' []. }
  intros x1 [] HJ1 _. apply wp_bind, wp_get. case_match; [apply wp_ret|apply wp_throw]; auto.
Qed.
End target.

(** C5: A client that replaces the keywords of a message whose row is a true snapshot never
    undoes a change it has not seen. The row has a recorded modification sequence (not 0), and
    the message, while the server holds it with a sequence no greater than that, has the flags
    and keywords of the row; sequences are positive. Other clients may change the server at any
    moment of the write, by the rules of CONDSTORE; nobody else writes the store meanwhile.
    Then every full-set STORE the server executes finds the message with exactly the flags and
    keywords of that row: otherwise the server refuses it and the write reports a conflict.
    A row that [MoveMessages] re-keyed keeps the sequence of the mailbox it left, which is no
    snapshot of the new one until a read-back replaces it: [stale_sequence_clobbers]. *)
Theorem replace_never_clobbers (a m : Z) (flags : list string) (k : state_key) (st : MessageState)
    (mb : Mailbox) (x x' : WWorld S) (r : werr + WriteResult) :
  conn_inv x -> not_closed x -> Forall polite (x_sched x) ->
  state_row (w_db (x_world x)) m = Some (k, st) ->
  mailboxes (w_db (x_world x)) !! key_mailbox k = Some mb ->
  modSeqFromDB (ms_ModSeqSeen st) <> 0 ->
  positive (mb_Name mb) (w_srv (x_world x)) ->
  settled (mb_Name mb) (uidFromDB (key_uid k)) st (modSeqFromDB (ms_ModSeqSeen st)) (w_srv (x_world x)) ->
  ApplyFlagChange a m (mkFlagChange true flags [] []) x = (x', r) ->
  exists run, x_trace x' = x_trace x ++ run /\
    Forall (no_clobber (mb_Name mb) (uidFromDB (key_uid k)) st) run.
Proof.
  intros Hc Hnc Hs Hrow Hmb Hne Hpos Hset Hrun.
  set (n := mb_Name mb) in *. set (uid := uidFromDB (key_uid k)) in *.
  set (F := fun s => positive n s /\ settled n uid st (modSeqFromDB (ms_ModSeqSeen st)) s).
  assert (Stable n F) as HF.
  { intros s s' He [? ?]. split; [by eapply (Stable_positive n)|by eapply (Stable_settled n)]. }
  set (I0 := Inv a (fun _ => no_clobber n uid st) (x_trace x) None (fun _ => True)).
  assert (wp (ApplyFlagChange a m (mkFlagChange true flags [] [])) (fun x' _ => I0 x') x) as Hwp.
  { apply wp_bind, (wp_target_known a m k st mb _ (x_trace x) Hrow Hmb F); [done| |by intros ?? [? _]|].
    { split; [|done]. split; [done|]. split; [done|]. exists []. rewrite app_nil_r. split; [done|].
      split; [apply justified_nil|done]. }
    intros x1 HJ1. simpl. apply wp_bind, (wp_GetAccount_known a k st mb (w_db (x_world x)) (x_trace x) F); [done|done|].
    intros x2 [e|[]] (Hi2 & Hk2 & _); [done|]. apply wp_bind.
    eapply wp_mono; [apply (runs_withMailbox a n uid st (x_trace x) F); [done| |done|done]|].
    2: { intros x3 [e|out] Hi3; [done|]. apply wp_bind, wp_modify, wp_ret.
         by eapply Inv_conns; [exact Hi3| |]. }
    intros sel. eapply runs_bind with (R := fun _ => F).
    { unfold checkUIDValidity. case_match; [by apply runs_ret|by apply runs_throw]. }
    intros _. eapply runs_bind with (R := fun _ => positive n); [by apply runs_storeReplace|]. intros _.
    eapply runs_conseq with (F' := fun s => positive n s /\ True) (R := fun _ _ => True); [|done|done].
    apply runs_fetch_bind; [apply Stable_true|]. intros f.
    eapply runs_conseq with (F' := fun _ => True) (R := fun _ _ => True); [|done|done].
    eapply runs_bind; [apply runs_reflectFlags, Stable_true|]. intros [??]. by apply runs_ret. }
  apply (wp_elim _ _ _ _ _ Hwp) in Hrun. destruct Hrun as (_ & _ & run & Ht & Hj & _).
  exists run. split; [done|]. apply Forall_forall. intros ev Hev.
  apply list_elem_of_split in Hev as (pre & post & Heq).
  specialize (Hj pre ev post Heq). by destruct ev.
Qed.
End replace.

(** ** Witness: a change that comes in between *)

Lemma mem_store_evolves s n uids op l since s' d n' :
  NoDup uids -> mem_store s n uids op l since = inr (s', d) -> evolves n' s s'.
Proof.
  intros Hnd Hst. pose proof (mem_store_effect _ _ _ _ _ _ _ _ Hnd Hst) as He.
  assert (forall since u, reported s n' since u -> reported s' n' since u) as Hrep.
  { intros since' u. unfold reported, mem_store in *. simpl in *. unfold mem_get in *.
    destruct (mem_lookup s n) as [m|] eqn:Em; [|done]. destruct (mem_put n _ s) as [s1|] eqn:Ep; [|done].
    simplify_eq. apply mem_put_lookup in Ep as [Hn Helse].
    destruct (decide (n' = n)) as [->|Hne]; [rewrite Hn, Em|by rewrite Helse]. simpl.
    intros [?|(sel & [= <-] & Hu)]; [by left|right]. simpl in Hu. eexists. by split. }
  destruct (decide (n' = n)) as [->|Hne].
  2: { destruct (se_elsewhere _ _ _ _ _ _ _ _ He n' Hne) as (Hv & Hval & Hnext & Hh).
       split; [done|by rewrite Hnext|by rewrite Hh|rewrite Hv; auto|..]; rewrite ?Hv; [|intros u ? [m Hm]|auto].
       - intros u Hn [m Hm]. congruence.
       - congruence. }
  split.
  - apply (se_validity _ _ _ _ _ _ _ _ He).
  - apply Z.eq_le_incl. symmetry. apply (se_uidnext _ _ _ _ _ _ _ _ He).
  - apply (se_highest _ _ _ _ _ _ _ _ He).
  - intros u m Hm. destruct (srv_view s n !! u) as [m0|] eqn:E.
    2: { rewrite (se_none _ _ _ _ _ _ _ _ He u E) in Hm. done. }
    destruct (decide (u ∈ uids)) as [Hu|Hu]; [|rewrite (se_other _ _ _ _ _ _ _ _ He u Hu) in Hm; left; congruence].
    destruct (decide (refused since m0)) as [Hr|Hr].
    + rewrite (se_refused _ _ _ _ _ _ _ _ He u m0 E Hr) in Hm. by left.
    + destruct (se_applied _ _ _ _ _ _ _ _ He u m0 Hu E Hr) as (m' & Hm' & _ & Hmod).
      rewrite Hm in Hm'. simplify_eq. destruct Hmod as [->|?]; [by left|by right].
  - intros u Hn [m Hm]. rewrite (se_none _ _ _ _ _ _ _ _ He u Hn) in Hm. done.
  - intros u since' [m Hm] Hn. exfalso.
    destruct (decide (u ∈ uids)) as [Hu|Hu]; [|rewrite (se_other _ _ _ _ _ _ _ _ He u Hu) in Hn; congruence].
    destruct (decide (refused since m)) as [Hr|Hr].
    + rewrite (se_refused _ _ _ _ _ _ _ _ He u m Hm Hr) in Hn. done.
    + destruct (se_applied _ _ _ _ _ _ _ _ He u m Hu Hm Hr) as (m' & Hm' & _). congruence.
  - auto.
Qed.

(** Another client stars message 3 while the write runs. *)
Definition other_stars : turn MemServer :=
  {| t_other := fun w c =>
       (match srv_store (w_srv w) "INBOX" [3] FlagsAdd ["\Flagged"] 0 with
        | inr (s, _) => {| w_db := w_db w; w_srv := s; w_now := w_now w; w_faults := w_faults w |}
        | inl _ => w
        end, c);
     t_out := Served |}.
Lemma other_stars_polite : polite other_stars.
Proof.
  intros w c. simpl. destruct (mem_store _ _ _ _ _ _) as [r|[s d]] eqn:E; simpl.
  - split; [done|]. split; [done|]. intros n. apply mailbox_evolves_refl.
  - split; [done|]. split; [done|]. intros n. eapply mem_store_evolves; [apply NoDup_singleton|done].
Qed.

Definition stored (since : Z) (ev : event MemServer) : bool :=
  match ev with Executed _ (MStore _ _ [3] FlagsSet _ since') _ => since =? since' | _ => false end.

(** The replace is refused, read back and reported as a conflict: the star stays. *)
Lemma replace_never_clobbers_witness :
  let x := plain_world [still; still; still; still; still; other_stars] in
  let st := sample_row 1 ["work"] 9 in
  exists run, x_trace (ApplyFlagChange 1 7 (mkFlagChange true ["$done"] [] []) x).1 = run /\
    Forall (no_clobber "INBOX" 3 st) run /\
    existsb (stored 9) run = true /\
    match (ApplyFlagChange 1 7 (mkFlagChange true ["$done"] [] []) x).2 with
    | inl e => e = ErrWriteConflict | inr _ => False end.
Proof.
  intros x st.
  assert (srv_view (w_srv (x_world x)) (mb_Name (sample_mailbox 1 "INBOX" RoleInbox)) =
          {[3 := sample_message 9 ["seen"] ["work"]]}) as Hview by reflexivity.
  destruct (replace_never_clobbers 1 7 ["$done"] (1, 1, 3) st (sample_mailbox 1 "INBOX" RoleInbox) x
    (ApplyFlagChange 1 7 (mkFlagChange true ["$done"] [] []) x).1
    (ApplyFlagChange 1 7 (mkFlagChange true ["$done"] [] []) x).2) as (run & Ht & Hr).
  - apply map_Forall_empty.
  - apply map_Forall_empty.
  - assert (polite (S := MemServer) still).
    { intros w c. split; [done|]. split; [done|]. intros n. apply mailbox_evolves_refl. }
    repeat (constructor; [first [done|apply other_stars_polite]|]). constructor.
  - vm_compute. reflexivity.
  - vm_compute. reflexivity.
  - vm_compute. discriminate.
  - intros u msg Hm. rewrite Hview in Hm.
    apply lookup_singleton_Some in Hm as [_ <-]. done.
  - split; [vm_compute; discriminate|]. intros msg Hm _.
    rewrite Hview in Hm.
    apply lookup_singleton_Some in Hm as [_ <-]. split; [vm_compute; reflexivity|]. vm_compute. done.
  - apply surjective_pairing.
  - exists run. split; [exact Ht|]. split; [done|].
    assert (run = x_trace (ApplyFlagChange 1 7 (mkFlagChange true ["$done"] [] []) x).1) as -> by (by rewrite Ht).
    split; vm_compute; reflexivity.
Defined.

(** A row whose modification sequence the engine never learned is not protected: the
    condition then is the sequence just read, so a star set before the write began is
    overwritten by a set that was computed without it, and the write succeeds. *)
Definition unseen_world : WWorld MemServer :=
  sample_world (sample_db (1, 1, 3) (sample_row 1 ["work"] 0))
    (sample_server {[3 := sample_message 9 ["seen"; "flagged"] ["work"]]} I) [].
Definition starred (x : WWorld MemServer) : bool :=
  match srv_view (w_srv (x_world x)) "INBOX" !! 3 with
  | Some m => bool_decide (has_flag m "\Flagged")
  | None => false
  end.
Example unseen_replace_clobbers :
  starred unseen_world = true /\
  let '(x, r) := ApplyFlagChange 1 7 (mkFlagChange true ["\Seen"] [] []) unseen_world in
  starred x = false /\ match r with inr _ => true | inl _ => false end = true.
Proof. split; vm_compute; [reflexivity|]. split; reflexivity. Qed.

(** A move whose read-back is lost leaves the row under its new identity with the sequence
    number of the mailbox it came from, which counts for itself. After a restart a set that
    was computed from that row overwrites a star another client has set since, and succeeds:
    message 3 of INBOX (sequence 9) becomes message 1 of Trash (sequence 2), is starred
    (sequence 3), and the STORE is conditional on 9. *)
Definition half_moved : WWorld MemServer :=
  let x := (ApplyMove 1 7 2 (plain_world (replicate 9 still ++ [dropped]))).1 in
  let w := x_world x in
  let s := match srv_store (w_srv w) "Trash" [1] FlagsAdd ["\Flagged"] 0 with inr (s, _) => s | inl _ => w_srv w end in
  {| x_world := {| w_db := w_db w; w_srv := s; w_now := w_now w; w_faults := [] |}; x_cols := x_cols x; x_conns := ∅;
     x_closed := false; x_sched := []; x_trace := []; x_notified := [] |}.
Definition starred_in_trash (x : WWorld MemServer) : bool :=
  match srv_view (w_srv (x_world x)) "Trash" !! 1 with Some m => bool_decide (has_flag m "\Flagged") | None => false end.
Example stale_sequence_clobbers :
  starred_in_trash half_moved = true /\
  let '(x, r) := ApplyFlagChange 1 7 (mkFlagChange true ["\Seen"] [] []) half_moved in
  starred_in_trash x = false /\ match r with inr _ => true | inl _ => false end = true.
Proof. split; vm_compute; [reflexivity|]. split; reflexivity. Qed.
