(* ===== verification/AppendSafety.v ===== *)
(** An append is never repeated (src/internal/sync/append.go over withMailbox of write.go):
    whatever becomes of the commands, one [ApplyAppendAt] makes the server execute at most one
    APPEND, and exactly one when it reports success.

    [adds] counts the appends a computation adds to the trace, on its errors and on its
    success, while the connection of the account stays usable. *)

From S2P Require Import Prelude Convert Text Store Imap Pipeline WriteWorld ImapClient WriteLaws Write.
From S2P Require Import Append Folders Snooze WriteLogic WriteSafety WriteContract.
#[local] Open Scope Z_scope.

Section once.
Context {S : Type} `{ImapServer S} `{!ImapWriter S}.
Context (sha256 : string -> string) (derive : string -> Message) (header_date : string -> option Time).
Context (rejects : NewMessage -> bool) (assign : DB -> Z -> list Z -> option (list (Z * Z))).
Context (has_blobs : bool) (a : Z).
Abbreviation WM := (M (WWorld S) werr).

Definition is_append (ev : event S) : bool :=
  match ev with Executed _ (MAppend _ _ _ _) _ => true | _ => false end.
Definition appends (x : WWorld S) : nat := List.length (filter (fun ev => is_append ev = true) (x_trace x)).

Definition open_conn (x : WWorld S) : Prop :=
  match ac_client (slot x a) with Some c => cl_closed c = false | None => True end.
Definition usable (x : WWorld S) : Prop :=
  exists c, ac_client (slot x a) = Some c /\ cl_closed c = false.

Lemma usable_open x : usable x -> open_conn x.
Proof. intros (c & Hc & Hcl). unfold open_conn. by rewrite Hc. Qed.

(** ** Inside a mailbox *)

Definition adds {A} (e s : nat) (p : WM A) : Prop :=
  forall x, usable x -> wp p (fun x' r => usable x' /\
    match r with
    | inl er => isConnectionDead er = false /\ (appends x <= appends x' <= appends x + e)%nat
    | inr _ => appends x' = (appends x + s)%nat
    end) x.

Lemma adds_weaken {A} e e' s (p : WM A) : adds e s p -> (e <= e')%nat -> adds e' s p.
Proof.
  intros Hp He x Hx. eapply wp_mono; [by apply Hp|]. intros x' [er|v] [Hu Hr]; [|done].
  split; [done|]. split; [apply Hr|]. destruct Hr. lia.
Qed.
Lemma adds_ret {A} (v : A) : adds 0 0 (mret v).
Proof. intros x Hx. apply wp_ret. split; [done|]. lia. Qed.
Lemma adds_throw {A} er s : isConnectionDead er = false -> adds 0 s (throw (A := A) er).
Proof. intros He x Hx. apply wp_throw. split; [done|]. split; [done|]. lia. Qed.
Lemma adds_bind {A B} e s e' s' (p : WM A) (q : A -> WM B) :
  adds e s p -> (forall v, adds e' s' (q v)) -> adds (Nat.max e (s + e')) (s + s') (p ≫= q).
Proof.
  intros Hp Hq x Hx. apply wp_bind. eapply wp_mono; [by apply Hp|]. intros x1 [er|v] [Hu Hr].
  - split; [done|]. split; [apply Hr|]. destruct Hr. lia.
  - eapply wp_mono; [by apply Hq|]. intros x2 [er|w] [Hu2 Hr2]; (split; [done|]).
    + split; [apply Hr2|]. destruct Hr2. lia.
    + lia.
Qed.
(** A step that appends nothing before one that may. *)
Lemma adds_then {A B} e s (p : WM A) (q : A -> WM B) :
  adds 0 0 p -> (forall v, adds e s (q v)) -> adds e s (p ≫= q).
Proof. intros Hp Hq. exact (adds_bind 0 0 e s p q Hp Hq). Qed.
Lemma adds_after {A B} n (p : WM A) (q : A -> WM B) :
  adds n n p -> (forall v, adds 0 0 (q v)) -> adds n n (p ≫= q).
Proof.
  intros Hp Hq. pose proof (adds_bind n n 0 0 p q Hp Hq) as Hb. rewrite Nat.add_0_r, Nat.max_id in Hb. exact Hb.
Qed.
Lemma adds_get : adds 0 0 get.
Proof. intros x Hx. apply wp_get. split; [done|]. lia. Qed.
Lemma adds_try {A} (p : WM A) : adds 0 0 p -> adds 0 0 (tryW p).
Proof.
  intros Hp x Hx. apply wp_tryW. eapply wp_mono; [by apply Hp|]. intros x' [er|v] [Hu Hr]; (split; [done|]); [|done].
  destruct Hr. lia.
Qed.

Lemma adds_tick : adds 0 0 tick.
Proof.
  intros x (c & Hc & Hcl). unfold wp, tick. destruct (t_other _ _ _) as [w co]. simpl.
  split; [by exists c|]. unfold appends. simpl. lia.
Qed.
Lemma adds_in_store {A} (p : M (World S) err A) : adds 0 0 (in_store p).
Proof.
  intros x (c & Hc & Hcl). unfold wp, in_store. destruct (p (x_world x)) as [w [er|v]]; simpl.
  - split; [by exists c|]. split; [done|]. unfold appends. simpl. lia.
  - split; [by exists c|]. unfold appends. simpl. lia.
Qed.
Lemma adds_stmt {A} (p : M (World S) err A) : adds 0 0 (stmt p).
Proof. apply adds_then; [apply adds_tick|]. intros ?. apply adds_in_store. Qed.
Lemma adds_cols f : adds 0 0 (modify (set_cols f)).
Proof. intros x (c & Hc & Hcl). apply wp_modify. split; [by exists c|]. unfold appends. simpl. lia. Qed.
Lemma adds_fs {A} (run : WM A) : adds 0 0 run -> adds 0 0 (fs_turn run).
Proof.
  intros Hr. apply adds_then; [apply adds_tick|]. intros []; try by apply adds_throw.
  - done.
  - apply adds_then; [done|]. intros ?. by apply adds_throw.
Qed.
Lemma appends_add evs x :
  appends (add_events evs x) = (appends x + List.length (filter (fun ev => is_append ev = true) evs))%nat.
Proof. unfold appends. simpl. by rewrite filter_app, length_app. Qed.
Lemma adds_emit ev : is_append ev = false -> adds 0 0 (emit ev).
Proof.
  intros He x (c & Hc & Hcl). apply wp_modify. split; [by exists c|].
  unfold appends, add_event. simpl. rewrite filter_app, length_app, filter_cons_False by (by rewrite He).
  simpl. lia.
Qed.

Lemma usable_kill x : usable x -> usable (set_slot a (with_client kill) x).
Proof.
  intros (c & Hc & Hcl). exists (kill c). rewrite slot_set_slot. simpl. by rewrite Hc.
Qed.

Lemma adds_conn : adds 0 0 (conn a).
Proof.
  intros x Hx. pose proof Hx as (c & Hc & Hcl). unfold conn. apply wp_bind, wp_get. rewrite Hc, Hcl.
  apply wp_ret. split; [done|]. lia.
Qed.

(** A command whose events hold [k] appends. *)
Lemma adds_wire {A} k (act : client -> S -> no_response + (S * A)) evs :
  (forall c s v, List.length (filter (fun ev => is_append ev = true) (evs c s v)) = k) ->
  adds k k (wire a act evs).
Proof.
  intros Hk. unfold wire. apply adds_then; [apply adds_conn|]. intros c.
  apply adds_then; [apply adds_tick|]. intros oc.
  assert (adds 0 k (x ← get;
    match act c (w_srv (x_world x)) with
    | inl r => throw (EServer r)
    | inr (s', v) =>
        modify (set_srv s') ;; forM_ (evs c (w_srv (x_world x)) v) emit ;; mret v
    end)) as Hrun.
  { intros x Hx. apply wp_bind, wp_get. destruct (act c (w_srv (x_world x))) as [r|[s' v]].
    { apply wp_throw. split; [done|]. split; [done|]. lia. }
    apply wp_bind, wp_modify, wp_bind, wp_emits, wp_ret. split; [done|].
    rewrite appends_add, Hk. unfold appends. simpl. done. }
  assert (adds 0 0 (modify (set_slot a (with_client kill)))) as Hkill.
  { intros x Hx. apply wp_modify. split; [by apply usable_kill|]. unfold appends. simpl. lia. }
  assert (forall er s, isConnectionDead er = false -> adds k s (throw (A := A) er)) as Hthrow.
  { intros er s He. eapply adds_weaken; [by apply adds_throw|lia]. }
  destruct oc as [| |r| |].
  - destruct (cl_alive c); [eapply adds_weaken; [exact Hrun|lia]|by apply Hthrow].
  - by apply Hthrow.
  - by destruct (cl_alive c); apply Hthrow.
  - apply adds_then; [done|]. intros ?. by apply Hthrow.
  - destruct (cl_alive c); [|by apply Hthrow]. intros x Hx. apply wp_bind, wp_tryW.
    eapply wp_mono; [by apply Hrun|]. intros x1 r1 [Hu1 Hr1]. apply wp_bind, wp_modify, wp_throw.
    split; [by apply usable_kill|]. split; [done|].
    assert (appends (set_slot a (with_client kill) x1) = appends x1) as -> by done.
    destruct r1; [destruct Hr1; lia|lia].
Qed.
Lemma adds_wire_none {A} (act : client -> S -> no_response + (S * A)) evs :
  (forall c s v, List.length (filter (fun ev => is_append ev = true) (evs c s v)) = 0%nat) ->
  adds 0 0 (wire a act evs).
Proof. by apply adds_wire. Qed.

Lemma adds_selectedMailbox : adds 0 0 (selectedMailbox a).
Proof.
  apply adds_then; [apply adds_conn|]. intros c. case_match; [by apply adds_throw|apply adds_ret].
Qed.

Lemma adds_fetchOne u : adds 0 0 (fetchOne a u).
Proof.
  unfold fetchOne, FetchMessages. apply adds_then; [|intros ?; apply adds_ret].
  apply adds_then; [apply adds_selectedMailbox|]. intros ?. case_match; [apply adds_ret|].
  apply adds_wire_none. intros c s l. unfold seen_events. destruct (cl_session c) as [[??]|]; [|done].
  induction l as [|f l IH]; [done|]. by rewrite fmap_cons, filter_cons_False.
Qed.

Lemma adds_reflectAppend id v raw f :
  adds 0 0 (reflectAppend sha256 derive header_date rejects assign a id v raw f).
Proof.
  unfold reflectAppend. apply adds_then.
  { unfold Put. apply adds_then; [apply adds_fs, adds_cols|]. intros ?.
    apply adds_then; [apply adds_stmt|]. intros ?. apply adds_ret. }
  intros [h size]. apply adds_then; [apply adds_get|]. intros x. apply adds_then.
  { unfold InsertMessage. apply adds_then; [apply adds_stmt|]. intros ids.
    apply adds_then; [|intros ?; apply adds_ret]. case_match; [apply adds_ret|].
    apply adds_then; [apply adds_cols|]. intros ?. by apply adds_emit. }
  intros mid. case_match.
  - apply adds_then; [apply adds_stmt|]. intros st. apply adds_then; [apply adds_stmt|]. intros ?.
    apply adds_then; [apply adds_get|]. intros ?. apply adds_ret.
  - apply adds_then.
    { unfold AddRefTx. apply adds_then; [apply adds_stmt|]. intros ?. apply adds_then; [apply adds_get|].
      intros ?. case_match; [apply adds_in_store|by apply adds_throw]. }
    intros ?. apply adds_then; [apply adds_try, adds_stmt|]. intros ?. apply adds_ret.
Qed.

Lemma adds_append_in mb raw flags date sel :
  adds 1 1 (append_in sha256 derive header_date rejects assign a mb raw flags date sel).
Proof.
  unfold append_in. apply adds_then; [apply adds_get|]. intros x.
  case_match; [eapply adds_weaken; [by apply adds_throw|lia]|].
  apply adds_after.
  - unfold Append. case_match; [eapply adds_weaken; [by apply adds_throw|lia]|].
    apply adds_after; [by apply adds_wire|]. intros [[u v]|]; apply adds_ret.
  - intros res. case_match; [by apply adds_throw|]. apply adds_then; [apply adds_fetchOne|].
    intros [f|]; [apply adds_reflectAppend|by apply adds_throw].
Qed.

(** ** Around it *)

(** A computation that appends nothing, whether or not there is a connection. *)
Definition silent {A} (p : WM A) : Prop :=
  forall x, open_conn x -> wp p (fun x' _ => open_conn x' /\ appends x' = appends x) x.

Lemma silent_bind {A B} (p : WM A) (q : A -> WM B) :
  silent p -> (forall v, silent (q v)) -> silent (p ≫= q).
Proof.
  intros Hp Hq x Hx. apply wp_bind. eapply wp_mono; [by apply Hp|]. intros x1 [e|v] [Ho Hn]; [done|].
  eapply wp_mono; [by apply Hq|]. intros x2 r [Ho2 Hn2]. split; [done|]. congruence.
Qed.
Lemma silent_ret {A} (v : A) : silent (mret v).
Proof. intros x Hx. by apply wp_ret. Qed.
Lemma silent_throw {A} e : silent (throw (A := A) e).
Proof. intros x Hx. by apply wp_throw. Qed.
Lemma silent_get : silent get.
Proof. intros x Hx. by apply wp_get. Qed.
Lemma silent_try {A} (p : WM A) : silent p -> silent (tryW p).
Proof. intros Hp x Hx. apply wp_tryW. by apply Hp. Qed.
Lemma silent_tick : silent tick.
Proof. intros x Hx. unfold wp, tick. by destruct (t_other _ _ _). Qed.
Lemma silent_stmt {A} (p : M (World S) err A) : silent (stmt p).
Proof.
  apply silent_bind; [apply silent_tick|]. intros ? x Hx. unfold wp, in_store.
  by destruct (p (x_world x)) as [? [?|?]].
Qed.
Lemma silent_emit ev : is_append ev = false -> silent (emit ev).
Proof.
  intros He x Hx. apply wp_modify. split; [done|].
  unfold appends, add_event. simpl. rewrite filter_app, length_app, filter_cons_False by (by rewrite He).
  simpl. lia.
Qed.
Lemma silent_slot f :
  (forall ac, match ac_client ac with Some c => cl_closed c = false | None => True end ->
     match ac_client (f ac) with Some c => cl_closed c = false | None => True end) ->
  silent (modify (set_slot a f)).
Proof.
  intros Hf x Hx. apply wp_modify. split; [|done]. unfold open_conn in *. rewrite slot_set_slot. by apply Hf.
Qed.
Lemma silent_wire {A} (act : client -> S -> no_response + (S * A)) evs :
  (forall c s v, List.length (filter (fun ev => is_append ev = true) (evs c s v)) = 0%nat) ->
  silent (wire a act evs).
Proof.
  intros Hk x Hx. unfold open_conn in Hx. destruct (ac_client (slot x a)) as [c|] eqn:Ec.
  - eapply wp_mono; [apply (adds_wire_none act evs Hk); by exists c|].
    intros x' [e|v] [Hu Hr]; (split; [by apply usable_open|]); [destruct Hr; lia|lia].
  - unfold wire, conn. apply wp_bind, wp_bind, wp_get. rewrite Ec. apply wp_throw.
    unfold open_conn. by rewrite Ec.
Qed.
Lemma usable_slot f x :
  (forall c, cl_closed (f c) = cl_closed c) -> usable x -> usable (set_slot a (with_client f) x).
Proof.
  intros Hf (c & Hc & Hcl). exists (f c). rewrite slot_set_slot. simpl. by rewrite Hc, Hf.
Qed.
Lemma wp_SelectQResync_usable mailbox x :
  usable x -> wp (SelectQResync a mailbox) (fun x' _ => usable x' /\ appends x' = appends x) x.
Proof.
  intros Hx. unfold SelectQResync. apply wp_bind, wp_tryW.
  eapply wp_mono; [apply adds_wire_none; done|]. intros x1 r [Hu Hr].
  assert (appends x1 = appends x) as Hn by (destruct r; [destruct Hr; lia|lia]).
  destruct r as [e|sel].
  - destruct e; try by apply wp_throw. apply wp_bind, wp_modify. case_match; apply wp_throw; (split; [|done]);
      by apply usable_slot.
  - apply wp_bind, wp_modify, wp_ret. split; [|done]. by apply usable_slot.
Qed.

Lemma wp_ensure_usable x :
  open_conn x ->
  wp (ensure a) (fun x' r => open_conn x' /\ appends x' = appends x /\ match r with inr _ => usable x' | inl _ => True end) x.
Proof.
  intros Hx. pose proof Hx as Hx'. unfold ensure. apply wp_bind, wp_get. unfold open_conn in Hx'.
  destruct (ac_client (slot x a)) as [c|] eqn:Ec.
  - apply wp_ret. split; [done|]. split; [done|]. by exists c.
  - apply wp_bind. eapply wp_mono; [by apply silent_tick|].
    intros x1 [e|oc] [Ho Hn]; [done|]. destruct oc; try (apply wp_throw; by repeat split).
    apply wp_bind, wp_get, wp_modify. unfold open_conn, usable. rewrite slot_set_slot. simpl. eauto.
Qed.

Definition once {A} (x x' : WWorld S) (r : werr + A) : Prop :=
  open_conn x' /\
  match r with
  | inl _ => (appends x <= appends x' <= appends x + 1)%nat
  | inr _ => appends x' = (appends x + 1)%nat
  end.

Lemma once_adds {A} (p : WM A) x : adds 1 1 p -> usable x -> wp p (once x) x.
Proof.
  intros Hp Hx. eapply wp_mono; [by apply Hp|]. intros x' [e|v] [Hu Hr]; (split; [by apply usable_open|]); [|done].
  apply Hr.
Qed.
Lemma once_from {A} (x x1 x' : WWorld S) (r : werr + A) : appends x1 = appends x -> once x1 x' r -> once x x' r.
Proof. intros Hn [Ho Hr]. split; [done|]. destruct r; lia. Qed.

Lemma usable_remember mailbox sel x : usable x -> usable (set_slot a (remember mailbox sel) x).
Proof. intros (c & Hc & Hcl). exists c. by rewrite slot_set_slot. Qed.

Lemma mailbox_attempts_once {A} retry mailbox (fn : SelectResult -> WM A) x :
  (forall sel, adds 1 1 (fn sel)) -> open_conn x -> wp (mailbox_attempts retry a mailbox fn) (once x) x.
Proof.
  intros Hfn. revert x. induction retry as [|retry IH]; intros x Hx; cbn [mailbox_attempts];
    apply wp_bind; (eapply wp_mono; [by apply wp_ensure_usable|]); intros x1 [e|[]] (Ho & Hn & Hu);
    try (split; [done|lia]); apply wp_bind, wp_get;
    destruct (selection (slot x1 a) mailbox) as [sel|]; apply wp_bind, wp_tryW.
  all: try (eapply wp_mono; [by apply Hfn|]; intros x2 [e|w] [Hu2 Hr2];
    [destruct Hr2 as [Hd Hr2]; rewrite ?Hd; apply wp_throw|apply wp_ret];
    (split; [by apply usable_open|lia])).
  all: eapply wp_mono; [by apply wp_SelectQResync_usable|]; intros x2 [e|sel] [Hu2 Hn2].
  - apply wp_bind, wp_modify, wp_throw. split; [by unfold open_conn; rewrite slot_set_slot|].
    unfold appends in *. simpl. lia.
  - apply wp_bind, wp_modify. eapply wp_mono; [by apply once_adds, usable_remember|].
    intros x3 r. apply once_from. unfold appends in *. simpl. congruence.
  - apply wp_bind, wp_modify. eapply wp_mono; [apply IH; by unfold open_conn; rewrite slot_set_slot|].
    intros x3 r. apply once_from. unfold appends in *. simpl. congruence.
  - apply wp_bind, wp_modify. eapply wp_mono; [by apply once_adds, usable_remember|].
    intros x3 r. apply once_from. unfold appends in *. simpl. congruence.
Qed.

Lemma silent_GetAccount : silent (GetAccount a).
Proof.
  unfold GetAccount. apply silent_bind; [apply silent_stmt|]. intros ?.
  apply silent_bind; [apply silent_get|]. intros ?. case_match; [apply silent_ret|apply silent_throw].
Qed.
Lemma silent_found {A} e (p : WM A) : silent p -> silent (found e p).
Proof.
  intros Hp. apply silent_bind; [by apply silent_try|]. intros [?|?]; [case_match; apply silent_throw|apply silent_ret].
Qed.

Lemma once_silent {A B} (p : WM A) (q : A -> WM B) x :
  silent p -> open_conn x -> (forall x1 v, open_conn x1 -> wp (q v) (once x1) x1) ->
  wp (p ≫= q) (once x) x.
Proof.
  intros Hp Hx Hq. apply wp_bind. eapply wp_mono; [by apply Hp|]. intros x1 [e|v] [Ho Hn].
  - split; [done|lia].
  - eapply wp_mono; [by apply Hq|]. intros x2 r. by apply once_from.
Qed.
End once.

(** C21: An append is executed at most once. Whatever the server answers and whenever the
    connection breaks or the context ends, one [ApplyAppendAt] makes the server execute no
    more than one APPEND, and exactly one when it reports success: a connection that died is
    retried only before the APPEND was sent. *)
Theorem append_at_most_once {S} `{ImapServer S} `{!ImapWriter S} (sha256 : string -> string)
    (derive : string -> Message) (header_date : string -> option Time) (rejects : NewMessage -> bool)
    (assign : DB -> Z -> list Z -> option (list (Z * Z))) (has_blobs : bool) (a mailbox : Z)
    (raw : string) (flags : list string) (date : Time) (x x' : WWorld S) (r : werr + AppendedMessage) :
  open_conn a x ->
  ApplyAppendAt sha256 derive header_date rejects assign has_blobs a mailbox raw flags date x = (x', r) ->
  match r with
  | inl _ => (appends x <= appends x' <= appends x + 1)%nat
  | inr _ => appends x' = (appends x + 1)%nat
  end.
Proof.
  intros Hx Hrun.
  assert (wp (ApplyAppendAt sha256 derive header_date rejects assign has_blobs a mailbox raw flags date)
            (once a x) x) as Hwp.
  { unfold ApplyAppendAt. apply (once_silent a); [apply silent_get|done|]. intros x1 y Hx1.
    case_match; [apply wp_throw; split; [done|lia]|]. case_match; [apply wp_throw; split; [done|lia]|].
    apply (once_silent a); [apply silent_found, silent_stmt|done|]. intros x2 mb Hx2.
    case_match; [apply wp_throw; split; [done|lia]|].
    apply (once_silent a); [by apply silent_emit|done|]. intros x3 ? Hx3.
    apply (once_silent a); [apply silent_GetAccount|done|]. intros x4 ? Hx4.
    unfold withMailbox, forAccount. apply wp_bind, wp_bind, wp_bind, wp_get.
    destruct (x_closed x4); [apply wp_throw; split; [done|lia]|]. apply wp_modify.
    assert (open_conn a (set_slot a id x4)) as Hx5 by (unfold open_conn in *; by rewrite slot_set_slot).
    eapply wp_mono; [apply mailbox_attempts_once; [|exact Hx5]|].
    - intros sel. apply adds_append_in.
    - intros x5 [e|out] [Ho Hr]; [by split|]. apply wp_bind, wp_modify, wp_ret. by split. }
  apply (wp_elim _ _ _ _ _ Hwp) in Hrun. by destruct Hrun as [_ ?].
Qed.

(** A draft is created; then again over a connection that breaks while the server executes
    the command: it is on the server once and the caller gets the error. *)
Definition sample_append (x : WWorld MemServer) : WWorld MemServer * (werr + AppendedMessage) :=
  ApplyAppendAt sample_hash plain_mail (fun _ => None) (fun _ => false) no_threads true
    1 1 "draft" ["draft"] 0 x.
Definition lost_turn : turn MemServer := {| t_other := fun w c => (w, c); t_out := Lost |}.

(** The two outcomes of the theorem, read off a concrete run. *)
Lemma succeeded_once {A} (n n' : nat) (r : werr + A) :
  match r with inl _ => (n <= n' <= n + 1)%nat | inr _ => n' = (n + 1)%nat end ->
  match r with inr _ => true | inl _ => false end = true -> n' = (n + 1)%nat.
Proof. by destruct r. Qed.

Lemma failed_at_most_once {A} (n n' : nat) (r : werr + A) :
  match r with inl _ => (n <= n' <= n + 1)%nat | inr _ => n' = (n + 1)%nat end ->
  match r with inl _ => true | inr _ => false end = true -> (n' <= n + 1)%nat.
Proof. destruct r; [lia|done]. Qed.

Lemma append_at_most_once_witness :
  let x := plain_world [] in
  let y := plain_world [still; still; still; still; lost_turn] in
  (open_conn 1 x /\ open_conn 1 y) /\
  (match (sample_append x).2 with inr _ => true | inl _ => false end = true /\
   appends (sample_append x).1 = (appends x + 1)%nat) /\
  (match (sample_append y).2 with inl _ => true | inr _ => false end = true /\
   (appends (sample_append y).1 <= appends y + 1)%nat).
Proof.
  intros x y. split; [split; exact I|].
  pose proof (append_at_most_once sample_hash plain_mail (fun _ => None) (fun _ => false) no_threads true
    1 1 "draft" ["draft"] 0 x (sample_append x).1 (sample_append x).2 I (surjective_pairing _)) as Hx.
  pose proof (append_at_most_once sample_hash plain_mail (fun _ => None) (fun _ => false) no_threads true
    1 1 "draft" ["draft"] 0 y (sample_append y).1 (sample_append y).2 I (surjective_pairing _)) as Hy.
  pose proof (succeeded_once (appends x) (appends (sample_append x).1) (sample_append x).2 Hx) as Gx.
  pose proof (failed_at_most_once (appends y) (appends (sample_append y).1) (sample_append y).2 Hy) as Gy.
  split; split; [vm_compute; reflexivity|apply Gx; vm_compute; reflexivity|
                 vm_compute; reflexivity|apply Gy; vm_compute; reflexivity].
Defined.
