(* ===== verification/FolderSafety.v ===== *)
(** Folder writes (src/internal/sync/write_mailbox.go, src/internal/store/mailboxes.go): what
    they may do whatever happens meanwhile, and that a rename happens in place. *)

From S2P Require Import Prelude Convert Text GoStrings Store Imap Pipeline WriteWorld ImapClient WriteLaws Write.
From S2P Require Import Append Folders WriteLogic WriteSafety WriteEffects.
From Stdlib Require Import Ascii.
#[local] Open Scope Z_scope.

(** ** Escaped prefixes *)

Definition meta (c : ascii) : bool := is_byte c 92 || is_byte c 37 || is_byte c 95.
Fixpoint escaped (s : string) : string :=
  match s with
  | EmptyString => EmptyString
  | String c s => if meta c then String "\" (String c (escaped s)) else String c (escaped s)
  end.

Lemma replace_one (o : ascii) new c s :
  ReplaceAll (String c s) (String o EmptyString) new =
  if Ascii.eqb o c then new +:+ ReplaceAll s (String o EmptyString) new
  else String c (ReplaceAll s (String o EmptyString) new).
Proof.
  unfold ReplaceAll. cbn [replace_from HasPrefix String.length pred]. by rewrite andb_true_r.
Qed.

Lemma likeEscape_spec s : likeEscape s = escaped s.
Proof.
  induction s as [|c s IH]; [done|]. cbn [escaped]. rewrite <- IH. clear IH. unfold likeEscape, meta.
  rewrite (replace_one "\"). destruct (Ascii.eqb_spec "\" c) as [<-|H1].
  { done. }
  rewrite (replace_one "%"). destruct (Ascii.eqb_spec "%" c) as [<-|H2].
  { done. }
  rewrite (replace_one "_"). destruct (Ascii.eqb_spec "_" c) as [<-|H3]; [done|].
  assert (is_byte c 92 = false /\ is_byte c 37 = false /\ is_byte c 95 = false) as (-> & -> & ->); [|done].
  unfold is_byte, byte_val. rewrite !Z.eqb_neq.
  repeat split; intros Heq; apply (f_equal (fun z => ascii_of_nat (Z.to_nat z))) in Heq;
    rewrite Nat2Z.id, ascii_nat_embedding in Heq; done.
Qed.

Lemma like_any s : like "%" s = true.
Proof.
  cbn [like]. change (is_byte "%" 37) with true. cbv iota. induction s as [|c s IH]; [done|].
  rewrite IH. by rewrite orb_true_r.
Qed.

(** An escaped prefix matches the names that start with it and no other. *)
Lemma like_prefix p s : like (likeEscape p +:+ "%") s = HasPrefix s p.
Proof.
  rewrite likeEscape_spec. revert s. induction p as [|c p IH]; intros s; [apply like_any|].
  cbn [escaped]. destruct (meta c) eqn:Em; rewrite !app_s_cons; cbn [like HasPrefix].
  - change (is_byte "\" 37) with false. change (is_byte "\" 95) with false.
    change (is_byte "\" 92) with true. cbv iota. destruct s as [|d s]; [done|]. by rewrite IH.
  - unfold meta in Em. apply orb_false_elim in Em as [[E1 E2]%orb_false_elim E3]. rewrite E1, E2, E3.
    destruct s as [|d s]; [done|]. by rewrite IH.
Qed.

Lemma under_prefix a prefix m : under a prefix m = (mb_AccountID m =? a) && HasPrefix (mb_Name m) prefix.
Proof. unfold under. by rewrite like_prefix. Qed.

(** ** Rename in place *)

Definition rows_of (a : Z) (ms : gmap Z Mailbox) : list Mailbox :=
  filter (fun m => mb_AccountID m = a) (map_to_list ms).*2.
(** The rows of the account are the mailboxes of the server. *)
Definition mirrors {S} `{ImapServer S} (a : Z) (ms : gmap Z Mailbox) (s : S) : Prop :=
  (mb_Name <$> rows_of a ms) ≡ₚ (mi_Name <$> srv_list s).

Definition renamed_row (a : Z) (from to : string) (m : Mailbox) : Mailbox :=
  if mb_AccountID m =? a then rename_to (renamed from to (mb_Name m)) m else m.

Lemma rename_to_same m : rename_to (mb_Name m) m = m.
Proof. by destruct m. Qed.

Lemma HasPrefix_longer n d : HasPrefix n (n +:+ String d EmptyString) = false.
Proof.
  destruct (HasPrefix n (n +:+ String d EmptyString)) eqn:E; [|done].
  apply HasPrefix_true in E as [r Hr]. apply (f_equal String.length) in Hr.
  rewrite !length_app_s in Hr. simpl in Hr. lia.
Qed.

Lemma rename_child_renamed a from to m :
  mb_AccountID m = a -> mb_Name m <> from ->
  rename_child a (from +:+ "/") (to +:+ "/") m = rename_to (renamed from to (mb_Name m)) m.
Proof.
  intros Ha Hn. unfold rename_child, renamed. rewrite under_prefix, Ha, Z.eqb_refl. cbn [andb].
  rewrite (proj2 (String.eqb_neq _ _) Hn), HasPrefix_Cut.
  destruct (CutPrefix (mb_Name m) (from +:+ "/")) as [r|] eqn:E; [|by rewrite rename_to_same].
  apply CutPrefix_Some in E.
  assert (drop_s (String.length (from +:+ "/")) (mb_Name m) = r) as ->.
  { change (from +:+ "/") with (from +:+ String "/" EmptyString) in *. rewrite E. apply drop_s_app. }
  by rewrite app_s_assoc.
Qed.

Lemma names_unique_inj ms i j m m' :
  names_unique ms = true -> ms !! i = Some m -> ms !! j = Some m' ->
  mb_AccountID m = mb_AccountID m' -> mb_Name m = mb_Name m' -> i = j.
Proof.
  unfold names_unique. rewrite bool_decide_eq_true. intros Hnd Hi Hj Ha Hn.
  apply elem_of_map_to_list in Hi, Hj. apply list_elem_of_lookup in Hi as [p Hp], Hj as [q Hq].
  assert (p = q) as ->.
  { eapply (NoDup_lookup _ _ _ _ Hnd); rewrite list_lookup_fmap; [rewrite Hp|rewrite Hq]; simpl; [done|].
    by rewrite Ha, Hn. }
  congruence.
Qed.

(** Children first and then the mailbox itself: together, the renaming of the hierarchy. *)
Lemma renamed_rows a id mb to ms :
  names_unique ms = true -> ms !! id = Some mb -> mb_AccountID mb = a ->
  alter (rename_to to) id (rename_child a (mb_Name mb +:+ "/") (to +:+ "/") <$> ms) =
  renamed_row a (mb_Name mb) to <$> ms.
Proof.
  intros Hu Hid Ha. apply map_eq. intros i. rewrite lookup_fmap. destruct (decide (i = id)) as [->|Hne].
  - rewrite lookup_alter_eq, lookup_fmap, Hid. simpl. unfold rename_child, renamed_row, renamed.
    rewrite under_prefix, Ha, Z.eqb_refl, String.eqb_refl. cbn [andb].
    change (mb_Name mb +:+ "/") with (mb_Name mb +:+ String "/" EmptyString).
    by rewrite HasPrefix_longer.
  - rewrite lookup_alter_ne by done. rewrite lookup_fmap. destruct (ms !! i) as [m|] eqn:Ei; [|done].
    simpl. f_equal. unfold renamed_row. destruct (Z.eqb_spec (mb_AccountID m) a) as [Hm|Hm].
    + apply rename_child_renamed; [done|]. intros Hn. apply Hne. eapply names_unique_inj; [done|exact Ei|exact Hid|congruence|done].
    + unfold rename_child. rewrite under_prefix, (proj2 (Z.eqb_neq _ _) Hm). done.
Qed.

Lemma rows_of_renamed a from to ms :
  mb_Name <$> rows_of a (renamed_row a from to <$> ms) ≡ₚ renamed from to <$> (mb_Name <$> rows_of a ms).
Proof.
  unfold rows_of. rewrite map_to_list_fmap. generalize (map_to_list ms). intros l.
  induction l as [|[i m] l IH]; [done|].
  assert (mb_AccountID (renamed_row a from to m) = mb_AccountID m) as Hacc.
  { unfold renamed_row. by destruct (_ =? _). }
  rewrite !fmap_cons. cbn [fst snd prod_map]. rewrite !filter_cons. cbv beta. rewrite Hacc.
  destruct (decide (mb_AccountID m = a)) as [Hm|Hm]; [|exact IH].
  rewrite !fmap_cons, IH. unfold renamed_row. by rewrite Hm, Z.eqb_refl.
Qed.

(** What a rename needs to be possible. *)
Record renamable {S} `{ImapServer S} `{!ImapWriter S} (a id : Z) (mb : Mailbox) (to : string) (s' : S)
    (x : WWorld S) : Prop := {
  rn_quiet : quiet x;
  rn_open : x_closed x = false;
  rn_unconnected : ac_client (slot x a) = None;
  rn_account : is_Some (accounts (x_cols x) !! a);
  rn_row : mailboxes (w_db (x_world x)) !! id = Some mb;
  rn_owner : mb_AccountID mb = a;
  rn_delimiter : delimiter_of (x_cols x) id = "/";
  rn_named : mb_Name mb <> "" /\ isInboxName (mb_Name mb) = false;
  rn_trimmed : TrimRight is_space to = to;
  rn_valid : validateMailboxName to = true;
  rn_new : mb_Name mb <> to;
  rn_unique : names_unique (mailboxes (w_db (x_world x))) = true;
  rn_free : forall i m, mailboxes (w_db (x_world x)) !! i = Some m -> mb_AccountID m = a -> mb_Name m <> to;
  (* neither statement of the transaction leaves two rows of one name *)
  rn_children : names_unique (rename_child a (mb_Name mb +:+ "/") (to +:+ "/") <$>
                              mailboxes (w_db (x_world x))) = true;
  rn_after : names_unique (renamed_row a (mb_Name mb) to <$> mailboxes (w_db (x_world x))) = true;
  rn_server : srv_rename (w_srv (x_world x)) (mb_Name mb) to = inr (s', tt)
}.

Section rename.
Context {S : Type} `{ImapServer S} `{!ImapLaws S} `{!ImapWriter S} `{!ImapWriterLaws S}.
Implicit Types x : WWorld S.

Lemma find_none a name (ms : gmap Z Mailbox) :
  (forall i m, ms !! i = Some m -> mb_AccountID m = a -> mb_Name m <> name) ->
  List.find (same_folder a name) (map_to_list ms).*2 = None.
Proof.
  intros Hfree. destruct (List.find _ _) as [m|] eqn:E; [|done]. exfalso.
  apply List.find_some in E as [Hin Hs]. apply list_elem_of_In, list_elem_of_fmap in Hin as ([i m'] & -> & Hin).
  apply elem_of_map_to_list in Hin. unfold same_folder in Hs. apply bool_decide_eq_true in Hs as [??].
  by eapply Hfree.
Qed.

Lemma wp_ensure_quiet a (Q : WWorld S -> werr + unit -> Prop) x :
  quiet x -> ac_client (slot x a) = None ->
  Q (set_slot a (fun ac => {| ac_client := Some (fresh_client (w_srv (x_world x)));
       ac_selectedName := ac_selectedName ac; ac_selectedResult := ac_selectedResult ac |}) x) (inr tt) ->
  wp (ensure a) Q x.
Proof.
  intros Hq Hc HQ. unfold ensure. apply wp_bind, wp_get. rewrite Hc.
  apply wp_bind, wp_tick_quiet; [done|]. by apply wp_bind, wp_get, wp_modify.
Qed.

(** A folder command that a fresh connection carries to the server. *)
Lemma wp_withConn_quiet {A} a (fn : M (WWorld S) werr A) (Q : WWorld S -> werr + A -> Prop) x :
  quiet x -> x_closed x = false -> ac_client (slot x a) = None ->
  (forall x1, quiet x1 -> x_world x1 = x_world x -> x_cols x1 = x_cols x -> x_notified x1 = x_notified x ->
     ac_client (slot x1 a) = Some (fresh_client (w_srv (x_world x))) ->
     wp fn (fun x2 r => match r with
                        | inr v => Q (set_slot a forgetSelection x2) (inr v)
                        | inl _ => False
                        end) x1) ->
  wp (withConn a fn) Q x.
Proof.
  intros Hq Hcl Hc Hfn. unfold withConn, forAccount. apply wp_bind, wp_bind, wp_get. rewrite Hcl.
  apply wp_modify, wp_bind, wp_modify, wp_bind, wp_tryW. cbn [conn_attempts].
  apply wp_bind, wp_tryW, wp_ensure_quiet; [done|by rewrite !slot_set_slot|].
  apply wp_bind, wp_tryW. eapply wp_mono; [apply Hfn; [done|done|done|done|by rewrite !slot_set_slot]|].
  intros x2 [e|v] HQ; [done|]. by apply wp_ret, wp_bind, wp_modify, wp_ret.
Qed.

Lemma wp_ownedMailbox_quiet a id mb (Q : WWorld S -> werr + Mailbox -> Prop) x :
  quiet x -> mailboxes (w_db (x_world x)) !! id = Some mb -> mb_AccountID mb = a ->
  Q (add_event (Resolved a mb) x) (inr mb) -> wp (ownedMailbox a id) Q x.
Proof.
  intros Hq Hmb Ha HQ. unfold ownedMailbox, found. apply wp_bind, wp_bind, wp_tryW, wp_stmt_quiet; [done|].
  unfold GetMailbox. apply wp_bind, wp_io_quiet; [apply Hq|]. apply wp_bind, wp_the_db. rewrite Hmb.
  apply wp_ret, wp_ret. rewrite set_world_id, Ha, Z.eqb_refl. by apply wp_bind, wp_modify, wp_ret.
Qed.

Lemma wp_name_free_quiet a name (Q : WWorld S -> werr + unit -> Prop) x :
  quiet x ->
  (forall i m, mailboxes (w_db (x_world x)) !! i = Some m -> mb_AccountID m = a -> mb_Name m <> name) ->
  Q x (inr tt) -> wp (name_free a name) Q x.
Proof.
  intros Hq Hfree HQ. unfold name_free. apply wp_bind, wp_tryW, wp_stmt_quiet; [done|].
  unfold GetMailboxByName. apply wp_bind, wp_io_quiet; [apply Hq|]. apply wp_bind, wp_the_db.
  rewrite find_none by done. apply wp_throw. rewrite set_world_id, bool_decide_eq_true_2 by done. by apply wp_ret.
Qed.

Lemma TrimRight_valid to : validateMailboxName to = true -> String.eqb to "" = false.
Proof. unfold validateMailboxName. by destruct (String.eqb to ""). Qed.

Definition children (a : Z) (mb : Mailbox) (ms : gmap Z Mailbox) : list Mailbox :=
  filter (fun m => under a (mb_Name mb +:+ "/") m = true) (map_to_list ms).*2.

(** C22: A rename keeps the mailbox. In a run nothing else disturbs and no statement fails,
    with no connection cached, of an owned mailbox other than INBOX whose hierarchy delimiter
    is "/", to a valid new name that no row of the account has, such that neither UPDATE of
    the transaction gives two rows one name, and which the server accepts: the row keeps its
    id (the JMAP Mailbox id), exactly the names of the mailbox and of its children change, to
    what the server has renamed them to, no other row or message is touched, and if the rows
    of the account were the mailboxes of the server before, they are after.
    [rename_children_first_clashes] shows a rename the server accepts and the store refuses. *)
Theorem rename_in_place (a id : Z) (mb : Mailbox) (to : string) (s' : S) x x' r :
  renamable a id mb to s' x ->
  ApplyMailboxRename a id to x = (x', r) ->
  let ms := mailboxes (w_db (x_world x)) in
  r = inr {| mw_MailboxID := mb_ID mb; mw_Name := to; mw_UIDValidity := 0;
             mw_ChildrenRenamed := Z.of_nat (List.length (children a mb ms)); mw_MessagesTombstoned := 0 |} /\
  w_db (x_world x') = set_mailboxes (fun _ => renamed_row a (mb_Name mb) to <$> ms) (w_db (x_world x)) /\
  w_srv (x_world x') = s' /\ x_notified x' = x_notified x ++ [a] /\
  (mirrors a ms (w_srv (x_world x)) -> mirrors a (mailboxes (w_db (x_world x'))) s').
Proof.
  intros [Hq Hcl Hun Hacc Hrow Hown Hdel [Hnamed Hinbox] Htrim Hval Hnew Huniq Hfree Hch Haft Hsrv] Hrun ms.
  assert (wp (ApplyMailboxRename a id to) (fun x' r =>
  r = inr {| mw_MailboxID := mb_ID mb; mw_Name := to; mw_UIDValidity := 0;
             mw_ChildrenRenamed := Z.of_nat (List.length (children a mb ms)); mw_MessagesTombstoned := 0 |} /\
    w_db (x_world x') = set_mailboxes (fun _ => renamed_row a (mb_Name mb) to <$> ms) (w_db (x_world x)) /\
    w_srv (x_world x') = s' /\ x_notified x' = x_notified x ++ [a]) x) as Hwp.
  { unfold ApplyMailboxRename. rewrite Htrim, (TrimRight_valid to Hval).
    apply wp_bind, (wp_ownedMailbox_quiet a id mb); [done|done|done|].
    rewrite (proj2 (String.eqb_neq _ _) Hnew). unfold isInboxName in Hinbox. rewrite Hinbox.
    apply wp_bind, wp_name_free_quiet; [done|done|].
    apply wp_bind, wp_GetAccount_quiet; [done|done|]. apply wp_bind, wp_withConn_quiet; [done|done|done|].
    intros x1 Hq1 Hw1 Hc1 Hn1 Hcl1. unfold folder_command, ImapClient.RenameMailbox.
    rewrite Hval, (proj2 (String.eqb_neq _ _) Hnamed), (proj2 (String.eqb_neq _ _) Hnew).
    unfold isInboxName. rewrite Hinbox. cbn [negb].
    apply wp_bind, wp_tryW, wp_bind, wp_tryW. eapply wp_wire_quiet; [done|exact Hcl1|done|].
    cbn [cl_alive fresh_client]. rewrite Hw1. cbn [add_event x_world] in *. rewrite Hsrv.
    apply wp_modify, wp_ret. unfold RenameMailbox. rewrite (TrimRight_valid to Hval).
    set (x2 := set_slot a forgetSelection _).
    assert (quiet x2) as Hq2 by (split; [apply Hq1|by simpl; rewrite Hw1; apply Hq]).
    apply wp_bind, wp_bind, wp_stmt_quiet; [done|]. apply wp_io_quiet; [apply Hq2|]. rewrite set_world_id.
    apply wp_bind, wp_get.
    assert (mailboxes (w_db (x_world x2)) = ms) as -> by (by simpl; rewrite Hw1).
    assert (delimiter_of (x_cols x2) id = "/") as -> by (simpl; by rewrite Hc1).
    assert (ms !! id = Some mb) as Hrow' by done. rewrite Hrow', Hown, Z.eqb_refl, (proj2 (String.eqb_neq _ _) Hnew). cbn [negb].
    rewrite renamed_rows by done. unfold ms. rewrite Hch, Haft. cbn [andb].
    apply wp_bind. unfold wp, in_store. simpl. rewrite Hw1, Hn1. split; [|done].
    do 2 f_equal. rewrite (proj2 (Z.ltb_lt _ _)) by lia. unfold children. lia. }
  pose proof (wp_elim _ _ _ _ _ Hwp Hrun) as (Hr & Hdb & Hs & Hn). do 4 (split; [done|]).
  rewrite Hdb. intros Hm. unfold mirrors in *. simpl. rewrite rows_of_renamed, Hm.
  symmetry. by apply wl_rename.
Qed.
End rename.

(** ** Witness: a folder with a child *)

Definition tree_server : MemServer :=
  <["Work" := sample_box 2 1 1 RoleNone ∅ ↾ I]> (<["Work/2026" := sample_box 3 1 1 RoleNone ∅ ↾ I]>
    {["INBOX" := sample_box 1 1 1 RoleInbox ∅ ↾ I]}).
Definition tree_db (rows : gmap Z Mailbox) : DB :=
  {| mailboxes := rows; messages := ∅; message_state := ∅; thread_ids := ∅; blobs := ∅;
     blob_refs := ∅; sync_log := ∅; next_message_id := 1 |}.
Definition tree_world : WWorld MemServer :=
  sample_world (tree_db {[1 := sample_mailbox 1 "INBOX" RoleInbox; 2 := sample_mailbox 2 "Work" RoleNone;
                          3 := sample_mailbox 3 "Work/2026" RoleNone;
                          4 := sample_mailbox 4 "Workshop" RoleNone]}) tree_server [].
Definition name_of (x : WWorld MemServer) (id : Z) : option string :=
  mb_Name <$> mailboxes (w_db (x_world x)) !! id.

Lemma rename_in_place_witness :
  exists s', srv_rename tree_server "Work" "Projects" = inr (s', tt) /\
    let x' := (ApplyMailboxRename 1 2 "Projects" tree_world).1 in
    w_srv (x_world x') = s' /\ name_of x' 2 = Some "Projects" /\
    name_of x' 3 = Some "Projects/2026" /\ name_of x' 4 = Some "Workshop".
Proof.
  assert (match srv_rename tree_server "Work" "Projects" with inr _ => true | inl _ => false end = true) as Hok
    by (vm_compute; reflexivity).
  destruct (srv_rename tree_server "Work" "Projects") as [e|[s' []]] eqn:Es; [done|].
  exists s'. split; [done|].
  destruct (rename_in_place 1 2 (sample_mailbox 2 "Work" RoleNone) "Projects" s' tree_world
    (ApplyMailboxRename 1 2 "Projects" tree_world).1 (ApplyMailboxRename 1 2 "Projects" tree_world).2)
    as (_ & _ & Hs & _).
  - split; [by split|done|done|by eexists|done|done|done|by split|done|done|done|..|exact Es];
      try (vm_compute; reflexivity).
    intros i m Hm _. assert (Forall (fun im => mb_Name im.2 <> "Projects")
        (map_to_list (mailboxes (w_db (x_world tree_world))))) as Hall.
    { apply (bool_decide_unpack _). vm_compute. exact I. }
    rewrite Forall_forall in Hall. apply (Hall (i, m)). by apply elem_of_map_to_list.
  - apply surjective_pairing.
  - split; [exact Hs|]. repeat split; vm_compute; reflexivity.
Defined.

(** The order of the two statements matters: while the children are renamed the mailbox
    still has its old name, so a child that takes that name violates the unique index, after
    the server has renamed everything. *)
Definition nested_server : MemServer :=
  <["A/B" := sample_box 2 1 1 RoleNone ∅ ↾ I]> (<["A/B/B" := sample_box 3 1 1 RoleNone ∅ ↾ I]>
    {["INBOX" := sample_box 1 1 1 RoleInbox ∅ ↾ I]}).
Definition nested_world : WWorld MemServer :=
  sample_world (tree_db {[1 := sample_mailbox 1 "INBOX" RoleInbox; 2 := sample_mailbox 2 "A/B" RoleNone;
                          3 := sample_mailbox 3 "A/B/B" RoleNone]}) nested_server [].
Example rename_children_first_clashes :
  let '(x', r) := ApplyMailboxRename 1 2 "A" nested_world in
  match r with inl (EStore ErrUnique) => true | _ => false end = true /\
  match srv_status (w_srv (x_world x')) "A" with Some _ => true | None => false end = true /\
  name_of x' 2 = Some "A/B".
Proof. vm_compute. done. Qed.
