(* ===== verification/Blob.v ===== *)
(** The blob store of src/internal/blob (blob.go and pins.go): message bytes as files named
    by their digest, reference counts in PostgreSQL, and a garbage collector that runs
    beside the writers, among them the batches of messages the sync engine stores
    (sync/pipeline.go, store/messages.go). The operations are programs of atomic actions (a
    statement, a file operation); a step relation interleaves the goroutines that run them,
    under the row locks (FOR UPDATE, and the FOR KEY SHARE of a foreign key) and the READ
    COMMITTED visibility of PostgreSQL, with failures, crashes of the process and of the
    machine. *)

From S2P Require Import Prelude.
#[local] Open Scope Z_scope.

(** ** Data *)

Abbreviation Hash := string.
Definition HashSize : Z := 32.

Inductive OwnerKind : Set := OwnerMessage | OwnerPart | OwnerDraft | OwnerPin.
#[export] Instance OwnerKind_eq_dec : EqDecision OwnerKind.
Proof. solve_decision. Defined.
#[export] Instance OwnerKind_countable : Countable OwnerKind.
Proof.
  refine (inj_countable' (fun k => match k with OwnerMessage => 0 | OwnerPart => 1 | OwnerDraft => 2 | OwnerPin => 3 end)
    (fun n => match n with 0 => OwnerMessage | 1 => OwnerPart | 2 => OwnerDraft | _ => OwnerPin end) _).
  by intros [].
Defined.

(** An hour, in nanoseconds. *)
Definition DefaultGCGracePeriod : Z := 3600 * 1000000000.

(** A row of blobs. *)
Record blob_row := mkBlob { br_Size : Z; br_Refcount : Z; br_ZeroSince : option Z }.

(** The key of a row of blob_refs is its unique index: every caller gives an owner id. *)
Abbreviation ref_key := (string * OwnerKind * Z)%type.
Record ref_row := mkRef { rr_AccountID : Z; rr_CreatedAt : Z }.

Record Ref := { Ref_Hash : Hash; Ref_AccountID : Z; Ref_Kind : OwnerKind; Ref_OwnerID : Z }.
Definition key_of (r : Ref) : ref_key := (Ref_Hash r, Ref_Kind r, Ref_OwnerID r).

Record GCStats := { Scanned : Z; Collected : Z; Bytes : Z; Skipped : Z }.

(** ** Actions and programs *)

Inductive action : Set -> Type :=
| ANow : action Z
| AStat (h : Hash) : action bool
| ARename (h : Hash) (bytes : string) : action unit
| ASyncDir (h : Hash) : action unit                     (* fsync of the directory of the file *)
| ARemove (h : Hash) : action unit
| ARecord (h : Hash) (size : Z) : action unit
| ABegin : action unit
| ACommit : action unit
| ALock (h : Hash) : action bool                        (* SELECT ... FOR UPDATE: is there a row? *)
| ALockGarbage (h : Hash) (cutoff : Z) : action bool
| AInsertRef (r : Ref) : action unit
| ADeleteRefs (h : Hash) (hit : OwnerKind -> Z -> ref_row -> bool) : action Z
| ASync (h : Hash) : action unit
| ADeleteBlob (h : Hash) : action bool
| AScanGarbage (cutoff : Z) (limit : Z) : action (list (Hash * Z))
| AScanPins (cutoff : Z) (limit : Z) : action (list Hash)
| AInsertMessage (a : Z) (h : Hash) : action Z          (* INSERT INTO messages ... RETURNING id *)
| ADeleteMessages (ids : list Z) : action unit.

(** A goroutine's code from some point on. [PErr] is an error returned to the caller, which
    rolls an open transaction back. *)
Inductive proc (A : Type) : Type :=
| PRet (a : A)
| PErr
| PAct {R : Set} (act : action R) (k : R -> proc A).
Arguments PRet {A}.
Arguments PErr {A}.
Arguments PAct {A R}.

Fixpoint pbind {A B} (p : proc A) (f : A -> proc B) : proc B :=
  match p with
  | PRet a => f a
  | PErr => PErr
  | PAct act k => PAct act (fun r => pbind (k r) f)
  end.
#[export] Instance proc_ret : MRet proc := @PRet.
#[export] Instance proc_bind : MBind proc := fun A B f p => pbind p f.
Definition perform {R : Set} (act : action R) : proc R := PAct act PRet.

Fixpoint for_each {A B} (xs : list A) (acc : B) (f : B -> A -> proc B) : proc B :=
  match xs with [] => PRet acc | x :: xs => acc ← f acc x; for_each xs acc f end.

(** ** Operations *)

Section operations.
Context (sha256 : string -> string) (grace : Z).

Definition inTx {A} (fn : proc A) : proc A :=
  perform ABegin ;; r ← fn; perform ACommit ;; mret r.

Definition recordBlob (h : Hash) (size : Z) : proc unit := perform (ARecord h size).

Definition Put (raw : string) : proc (Hash * Z) :=
  let h := sha256 raw in
  let size := Z.of_nat (String.length raw) in
  there ← perform (AStat h);
  (if (there : bool) then mret tt else perform (ARename h raw) ;; perform (ASyncDir h)) ;;
  recordBlob h size ;;
  mret (h, size).

Definition syncRefcount (h : Hash) : proc unit := perform (ASync h).

Definition AddRef (r : Ref) : proc unit :=
  there ← perform (ALock (Ref_Hash r));
  if (there : bool) then perform (AInsertRef r) ;; syncRefcount (Ref_Hash r) else PErr.

(** bytes.Compare(a, b) <= 0. *)
Definition hash_le (a b : Hash) : Prop := String.leb a b = true.
#[export] Instance hash_le_dec : RelDecision hash_le.
Proof. intros a b. unfold hash_le. apply _. Defined.

Definition lock_order (refs : list Ref) : list Hash :=
  merge_sort hash_le (remove_dups (Ref_Hash <$> refs)).

Definition AddRefs (refs : list Ref) : proc unit :=
  for_each (lock_order refs) tt (fun _ h =>
    there ← perform (ALock h);
    if (there : bool) then
      for_each (filter (fun r => Ref_Hash r = h) refs) tt (fun _ r => perform (AInsertRef r)) ;;
      syncRefcount h
    else PErr).

Definition RemoveRef (h : Hash) (kind : OwnerKind) (ownerID : Z) : proc unit :=
  there ← perform (ALock h);
  if (there : bool) then
    perform (ADeleteRefs h (fun k o _ => bool_decide (k = kind /\ o = ownerID))) ;;
    syncRefcount h
  else mret tt.

Definition AddRefTx (r : Ref) : proc unit := inTx (AddRef r).
Definition RemoveRefTx (h : Hash) (kind : OwnerKind) (ownerID : Z) : proc unit :=
  inTx (RemoveRef h kind ownerID).

Definition collectOne (h : Hash) (cutoff : Z) : proc bool :=
  inTx (garbage ← perform (ALockGarbage h cutoff);
        if (garbage : bool) then perform (ADeleteBlob h) else mret false).

Definition or_default (limit : Z) : Z := if limit <=? 0 then 1000 else limit.

Definition GC (limit : Z) : proc GCStats :=
  now ← perform ANow;
  let cutoff := now - grace in
  candidates ← perform (AScanGarbage cutoff (or_default limit));
  for_each candidates
    {| Scanned := Z.of_nat (List.length candidates); Collected := 0; Bytes := 0; Skipped := 0 |}
    (fun st c =>
      collected ← collectOne c.1 cutoff;
      if (collected : bool) then
        perform (ARemove c.1) ;;
        mret {| Scanned := Scanned st; Collected := Collected st + 1; Bytes := Bytes st + c.2;
                Skipped := Skipped st |}
      else
        mret {| Scanned := Scanned st; Collected := Collected st; Bytes := Bytes st;
                Skipped := Skipped st + 1 |}).

Definition expirePinsOf (h : Hash) (cutoff : Z) : proc Z :=
  inTx (there ← perform (ALock h);
        if (there : bool) then
          removed ← perform (ADeleteRefs h (fun k _ r => bool_decide (k = OwnerPin /\ rr_CreatedAt r < cutoff)));
          (if removed =? 0 then mret tt else syncRefcount h) ;; mret removed
        else mret 0).

Definition ExpirePins (maxAge limit : Z) : proc Z :=
  now ← perform ANow;
  let cutoff := now - maxAge in
  hashes ← perform (AScanPins cutoff (or_default limit));
  for_each hashes 0 (fun removed h => n ← expirePinsOf h cutoff; mret (removed + n)).

(** A message of a batch, as far as this model goes: the digest of its bytes, and whether its
    UID is already stored, so that its row is deleted again in the same transaction. *)
Record batch_row := mkRow { b_Hash : Hash; b_known : bool }.

Definition InsertMessages (account : Z) (msgs : list batch_row) : proc (list Z) :=
  match msgs with
  | [] => mret []
  | _ =>
      inTx (ids ← for_each msgs [] (fun ids m =>
              id ← perform (AInsertMessage account (b_Hash m)); mret (ids ++ [id]));
            let orphans := fst <$> filter (fun im : Z * batch_row => b_known im.2 = true) (zip ids msgs) in
            (match orphans with [] => mret tt | _ => perform (ADeleteMessages orphans) end) ;;
            mret (zip_with (fun id m => if b_known m then 0 else id) ids msgs))
  end.

Definition addBlobRefs (account : Z) (ids : list Z) (batch : list batch_row) : proc unit :=
  let refs := (fun im : Z * batch_row => {| Ref_Hash := b_Hash im.2; Ref_AccountID := account;
                                            Ref_Kind := OwnerMessage; Ref_OwnerID := im.1 |})
              <$> filter (fun im : Z * batch_row => im.1 <> 0) (zip ids batch) in
  match refs with [] => mret tt | _ => inTx (AddRefs refs) end.

Definition batch_le (a b : batch_row) : Prop := hash_le (b_Hash a) (b_Hash b).
#[export] Instance batch_le_dec : RelDecision batch_le.
Proof. intros a b. unfold batch_le. apply _. Defined.

(** Threads and mutes, which follow, touch no blob. *)
Definition commitBatch (account : Z) (batch : list batch_row) : proc unit :=
  let batch := merge_sort batch_le batch in
  ids ← InsertMessages account batch;
  addBlobRefs account ids batch.

(** The way on after a batch was refused for the content of a row: one transaction per row,
    [None] for a row that is refused alone and stripped. *)
Definition insertDegraded (account : Z) (batch : list (option batch_row)) : proc (list Z) :=
  for_each batch [] (fun ids m =>
    match m with
    | Some m => got ← InsertMessages account [m]; mret (ids ++ got)
    | None => mret (ids ++ [0])
    end).

Definition commitDegraded (account : Z) (batch : list (option batch_row)) : proc unit :=
  ids ← insertDegraded account batch;
  addBlobRefs account ids (default (mkRow EmptyString true) <$> batch).

(** A message appended to a mailbox, in Append's reflection. *)
Definition reflectAppended (account : Z) (m : batch_row) : proc unit :=
  ids ← InsertMessages account [m];
  match ids with
  | id :: _ => if id =? 0 then mret tt
               else AddRefTx {| Ref_Hash := b_Hash m; Ref_AccountID := account;
                                Ref_Kind := OwnerMessage; Ref_OwnerID := id |}
  | [] => mret tt
  end.

(** What a goroutine may be asked to do. [OpAddRefs] is the references of a batch whose rows
    are already stored. A transaction that is retried, or that gives way to the degraded
    path, is a goroutine that fails and another that is asked. *)
Inductive op :=
| OpPut (raw : string)
| OpAddRef (r : Ref)
| OpAddRefs (refs : list Ref)
| OpRemoveRef (h : Hash) (kind : OwnerKind) (ownerID : Z)
| OpGC (limit : Z)
| OpExpirePins (maxAge limit : Z)
| OpCommitBatch (account : Z) (batch : list batch_row)
| OpCommitDegraded (account : Z) (batch : list (option batch_row))
| OpReflectAppended (account : Z) (m : batch_row).

Definition code (o : op) : proc unit :=
  match o with
  | OpPut raw => Put raw ;; mret tt
  | OpAddRef r => AddRefTx r
  | OpAddRefs [] => mret tt
  | OpAddRefs refs => inTx (AddRefs refs)
  | OpRemoveRef h kind ownerID => RemoveRefTx h kind ownerID
  | OpGC limit => GC limit ;; mret tt
  | OpExpirePins maxAge limit => ExpirePins maxAge limit ;; mret tt
  | OpCommitBatch account batch => commitBatch account batch
  | OpCommitDegraded account batch => commitDegraded account batch
  | OpReflectAppended account m => reflectAppended account m
  end.
End operations.

(** ** The store *)

(** What a transaction has written and nobody else sees yet: per key a new row, or [None]
    for a deleted one. *)
Record tx := mkTx {
  t_start : Z;                            (* now() in a transaction *)
  t_blobs : gmap Hash (option blob_row);
  t_refs : gmap ref_key (option ref_row);
  t_msgs : gmap Z (Z * Hash);             (* its new messages *)
  t_shares : gset Hash                    (* its FOR KEY SHARE locks on rows of blobs *)
}.
Definition begun (now : Z) : tx := mkTx now ∅ ∅ ∅ ∅.
Definition no_tx : tx := begun 0.

Record goroutine := mkGo { g_code : proc unit; g_tx : tx }.

Record State := mkState {
  files : gmap Hash string;
  unsynced : gset Hash;                   (* files whose name is not on disk yet *)
  blobs : gmap Hash blob_row;
  refs : gmap ref_key ref_row;
  messages : gmap Z (Z * Hash);           (* account_id and raw_sha256 *)
  seq : Z;                                (* the last id drawn for a message *)
  accounts : gset Z;
  now : Z;
  locks : gmap Hash nat;                  (* FOR UPDATE locks on rows of blobs *)
  procs : gmap nat goroutine
}.

Definition set_files f s := mkState (f (files s)) (unsynced s) (blobs s) (refs s) (messages s) (seq s) (accounts s) (now s) (locks s) (procs s).
Definition set_unsynced f s := mkState (files s) (f (unsynced s)) (blobs s) (refs s) (messages s) (seq s) (accounts s) (now s) (locks s) (procs s).
Definition set_blobs f s := mkState (files s) (unsynced s) (f (blobs s)) (refs s) (messages s) (seq s) (accounts s) (now s) (locks s) (procs s).
Definition set_refs f s := mkState (files s) (unsynced s) (blobs s) (f (refs s)) (messages s) (seq s) (accounts s) (now s) (locks s) (procs s).
Definition set_messages f s := mkState (files s) (unsynced s) (blobs s) (refs s) (f (messages s)) (seq s) (accounts s) (now s) (locks s) (procs s).
Definition set_seq f s := mkState (files s) (unsynced s) (blobs s) (refs s) (messages s) (f (seq s)) (accounts s) (now s) (locks s) (procs s).
Definition set_accounts f s := mkState (files s) (unsynced s) (blobs s) (refs s) (messages s) (seq s) (f (accounts s)) (now s) (locks s) (procs s).
Definition set_now f s := mkState (files s) (unsynced s) (blobs s) (refs s) (messages s) (seq s) (accounts s) (f (now s)) (locks s) (procs s).
Definition set_locks f s := mkState (files s) (unsynced s) (blobs s) (refs s) (messages s) (seq s) (accounts s) (now s) (f (locks s)) (procs s).
Definition set_procs f s := mkState (files s) (unsynced s) (blobs s) (refs s) (messages s) (seq s) (accounts s) (now s) (locks s) (f (procs s)).

Definition empty_store : State := mkState ∅ ∅ ∅ ∅ ∅ 0 ∅ 0 ∅ ∅.

Definition overlay {K} `{Countable K} {V} (o : gmap K (option V)) (m : gmap K V) : gmap K V :=
  merge (fun x y => match x with Some z => z | None => y end) o m.

(** What a statement of a transaction sees: what is committed and its own writes. *)
Definition refs_seen (t : tx) (s : State) : gmap ref_key ref_row := overlay (t_refs t) (refs s).
Definition blobs_seen (t : tx) (s : State) : gmap Hash blob_row := overlay (t_blobs t) (blobs s).

Definition refs_of (h : Hash) (m : gmap ref_key ref_row) : gmap ref_key ref_row :=
  filter (fun kr => kr.1.1.1 = h) m.
Definition count (h : Hash) (m : gmap ref_key ref_row) : Z := Z.of_nat (size (refs_of h m)).

(** The UPDATE of syncRefcount. *)
Definition synced (n : Z) (now : Z) (b : blob_row) : blob_row :=
  {| br_Size := br_Size b; br_Refcount := n;
     br_ZeroSince := if 0 <? n then None else Some (default now (br_ZeroSince b)) |}.

Definition collectable (cutoff : Z) (b : blob_row) : bool :=
  (br_Refcount b =? 0) && match br_ZeroSince b with Some z => z <? cutoff | None => false end.

Definition older (a b : Hash * blob_row) : Prop := default 0 (br_ZeroSince a.2) <= default 0 (br_ZeroSince b.2).
#[export] Instance older_dec : RelDecision older.
Proof. intros a b. unfold older. apply _. Defined.

Definition garbage (cutoff : Z) (s : State) : list (Hash * blob_row) :=
  merge_sort older (filter (fun hb => collectable cutoff hb.2 = true) (map_to_list (blobs s))).

(** ** Executing an action *)

Inductive outcome (R : Set) :=
| Blocked                              (* waits for a lock of another transaction *)
| Failed                               (* an error *)
| Next (s : State) (t : tx) (r : R).
Arguments Blocked {R}.
Arguments Failed {R}.
Arguments Next {R}.

Section steps.
(** The order in which SELECT DISTINCT returns its rows. *)
Context (pick : list Hash -> list Hash).

Definition foreign (tid : nat) (h : Hash) (s : State) : bool :=
  match locks s !! h with Some t => negb (Nat.eqb t tid) | None => false end.

(** Some other transaction has a FOR KEY SHARE lock on the row of the blob. *)
Definition shared (tid : nat) (h : Hash) (s : State) : bool :=
  existsb (fun i : nat * goroutine => negb (Nat.eqb i.1 tid) && bool_decide (h ∈ t_shares (g_tx i.2)))
    (map_to_list (procs s)).

(** Some other transaction has written a reference of the blob that is not committed. *)
Definition unsettled (tid : nat) (h : Hash) (s : State) : bool :=
  existsb (fun i : nat * goroutine => negb (Nat.eqb i.1 tid) &&
    existsb (fun k : ref_key * option ref_row => String.eqb k.1.1.1 h) (map_to_list (t_refs (g_tx i.2))))
    (map_to_list (procs s)).

(** Some other transaction has deleted the row of the blob and not committed yet. *)
Definition vanishing (tid : nat) (h : Hash) (s : State) : bool :=
  existsb (fun i : nat * goroutine => negb (Nat.eqb i.1 tid) &&
    match t_blobs (g_tx i.2) !! h with Some None => true | _ => false end) (map_to_list (procs s)).

Definition write_blob (h : Hash) (b : option blob_row) (t : tx) : tx :=
  mkTx (t_start t) (<[h := b]> (t_blobs t)) (t_refs t) (t_msgs t) (t_shares t).

Definition write_refs (m : gmap ref_key (option ref_row)) (t : tx) : tx :=
  mkTx (t_start t) (t_blobs t) m (t_msgs t) (t_shares t).

Definition write_msgs (m : gmap Z (Z * Hash)) (shares : gset Hash) (t : tx) : tx :=
  mkTx (t_start t) (t_blobs t) (t_refs t) m shares.

Definition deletions (m : gmap ref_key ref_row) : gmap ref_key (option ref_row) :=
  fmap (M := gmap ref_key) (fun _ => None) m.

(** ON DELETE RESTRICT of blob_refs and of messages. *)
Definition restricted (h : Hash) (t : tx) (s : State) : bool :=
  negb (count h (refs_seen t s) =? 0) ||
  existsb (fun im : Z * (Z * Hash) => String.eqb h im.2.2) (map_to_list (messages s)).

Definition exec {R : Set} (tid : nat) (act : action R) (t : tx) (s : State) : outcome R :=
  match act in action R return outcome R with
  | ANow => Next s t (now s)
  | AStat h => Next s t (bool_decide (is_Some (files s !! h)))
  | ARename h bytes =>
      (* a name that was there before stays on disk, for the old file or the new *)
      Next (set_unsynced (fun u => if bool_decide (is_Some (files s !! h)) then u else {[h]} ∪ u)
             (set_files (insert h bytes) s)) t tt
  | ASyncDir h => Next (set_unsynced (fun u => u ∖ {[h]}) s) t tt
  | ARemove h => Next (set_unsynced (fun u => u ∖ {[h]}) (set_files (base.delete h) s)) t tt
  | ARecord h size =>
      if vanishing tid h s then Blocked
      else match blobs s !! h with
           | Some _ => Next s t tt
           | None => Next (set_blobs (insert h {| br_Size := size; br_Refcount := 0; br_ZeroSince := Some (now s) |}) s) t tt
           end
  | ABegin => Next s (begun (now s)) tt
  | ACommit =>
      Next (set_locks (filter (fun ht => ht.2 <> tid))
             (set_blobs (overlay (t_blobs t)) (set_refs (overlay (t_refs t))
               (set_messages (union (t_msgs t)) s)))) no_tx tt
  | ALock h =>
      match blobs_seen t s !! h with
      | None => Next s t false
      | Some _ => if foreign tid h s || shared tid h s then Blocked else Next (set_locks (insert h tid) s) t true
      end
  | ALockGarbage h cutoff =>
      match blobs_seen t s !! h with
      | Some b =>
          if collectable cutoff b then
            if foreign tid h s || shared tid h s then Blocked else Next (set_locks (insert h tid) s) t true
          else Next s t false
      | None => Next s t false
      end
  | AInsertRef r =>
      let h := Ref_Hash r in
      if foreign tid h s || unsettled tid h s then Blocked
      else if bool_decide (Ref_AccountID r ∈ accounts s) && bool_decide (is_Some (blobs_seen t s !! h)) then
        match refs_seen t s !! key_of r with
        | Some _ => Next s t tt
        | None => Next s (write_refs (<[key_of r := Some (mkRef (Ref_AccountID r) (t_start t))]> (t_refs t)) t) tt
        end
      else Failed
  | ADeleteRefs h hit =>
      if unsettled tid h s then Blocked
      else
        let gone := filter (fun kr => hit kr.1.1.2 kr.1.2 kr.2 = true) (refs_of h (refs_seen t s)) in
        Next s (write_refs (deletions gone ∪ t_refs t) t) (Z.of_nat (size gone))
  | ASync h =>
      if foreign tid h s then Blocked
      else match blobs_seen t s !! h with
           | Some b => Next (set_locks (insert h tid) s)
                         (write_blob h (Some (synced (count h (refs_seen t s)) (t_start t) b)) t) tt
           | None => Next s t tt
           end
  | ADeleteBlob h =>
      if foreign tid h s || shared tid h s then Blocked
      else match blobs_seen t s !! h with
           | Some b =>
               if negb (br_Refcount b =? 0) then Next s t false
               else if restricted h t s then Failed
               else Next (set_locks (insert h tid) s) (write_blob h None t) true
           | None => Next s t false
           end
  | AScanGarbage cutoff limit =>
      Next s t (List.map (fun hb => (hb.1, br_Size hb.2)) (take (Z.to_nat limit) (garbage cutoff s)))
  | AScanPins cutoff limit =>
      let old := filter (fun kr => kr.1.1.2 = OwnerPin /\ rr_CreatedAt kr.2 < cutoff) (map_to_list (refs s)) in
      Next s t (take (Z.to_nat limit) (pick (remove_dups (List.map (fun kr : ref_key * ref_row => kr.1.1.1) old))))
  | AInsertMessage a h =>
      if foreign tid h s then Blocked
      else if bool_decide (a ∈ accounts s) && bool_decide (is_Some (blobs_seen t s !! h)) then
        let id := seq s + 1 in
        Next (set_seq (fun _ => id) s) (write_msgs (<[id := (a, h)]> (t_msgs t)) ({[h]} ∪ t_shares t) t) id
      else Failed
  | ADeleteMessages ids => Next s (write_msgs (filter (fun im => im.1 ∉ ids) (t_msgs t)) (t_shares t) t) tt
  end.

(** ** Interleaving *)

Context (sha256 : string -> string) (grace : Z).

Inductive label :=
| LSpawn (tid : nat) (o : op)
| LAct (tid : nat)                        (* the goroutine's next action *)
| LFail (tid : nat)                       (* its next action fails, or its answer is lost *)
| LCrash                                  (* the process dies *)
| LPowerLoss (lost : gset Hash)           (* the machine dies: names not on disk may be lost *)
| LFlush (h : Hash)                       (* the kernel writes a directory back by itself *)
| LTick (d : Z)
| LAddAccount (a : Z)
| LDeleteAccount (a : Z)
| LDeleteMessage (id : Z).

(** The goroutine ends; the server rolls its transaction back. *)
Definition drop_proc (tid : nat) (s : State) : State :=
  set_procs (base.delete tid) (set_locks (filter (fun ht => ht.2 <> tid)) s).

Definition act_step (tid : nat) (s : State) : option State :=
  match procs s !! tid with
  | None => None
  | Some g =>
      match g_code g with
      | PRet _ | PErr => Some (drop_proc tid s)
      | PAct act k =>
          match exec tid act (g_tx g) s with
          | Blocked => None
          | Failed => Some (drop_proc tid s)
          | Next s' t r => Some (set_procs (insert tid (mkGo (k r) t)) s')
          end
      end
  end.

(** No transaction has written a reference or a message of the account, nor removed one. *)
Definition account_settled (a : Z) (s : State) : bool :=
  forallb (fun i : nat * goroutine =>
    forallb (fun k : ref_key * option ref_row =>
      match k.2 with
      | Some r => negb (rr_AccountID r =? a)
      | None => match refs s !! k.1 with Some r => negb (rr_AccountID r =? a) | None => true end
      end) (map_to_list (t_refs (g_tx i.2))) &&
    forallb (fun im : Z * (Z * Hash) => negb (im.2.1 =? a)) (map_to_list (t_msgs (g_tx i.2)))) (map_to_list (procs s)).

Definition step (l : label) (s : State) : option State :=
  match l with
  | LSpawn tid o =>
      if bool_decide (procs s !! tid = None)
      then Some (set_procs (insert tid (mkGo (code sha256 grace o) no_tx)) s) else None
  | LAct tid => act_step tid s
  | LFail tid => if bool_decide (is_Some (procs s !! tid)) then Some (drop_proc tid s) else None
  | LCrash => Some (set_procs (fun _ => ∅) (set_locks (fun _ => ∅) s))
  | LPowerLoss lost =>
      Some (set_procs (fun _ => ∅) (set_locks (fun _ => ∅) (set_unsynced (fun _ => ∅)
             (set_files (filter (fun hb => hb.1 ∉ unsynced s ∩ lost)) s))))
  | LFlush h => Some (set_unsynced (fun u => u ∖ {[h]}) s)
  | LTick d => if 0 <=? d then Some (set_now (Z.add d) s) else None
  | LAddAccount a => Some (set_accounts (union {[a]}) s)
  | LDeleteAccount a =>
      if account_settled a s then
        Some (set_accounts (fun acc => acc ∖ {[a]}) (set_messages (filter (fun im => im.2.1 <> a))
               (set_refs (filter (fun kr => rr_AccountID kr.2 <> a)) s)))
      else None
  | LDeleteMessage id => Some (set_messages (base.delete id) s)
  end.

(** A run and the states it goes through. *)
Inductive run : State -> list label -> list State -> State -> Prop :=
| run_nil s : run s [] [s] s
| run_cons s l s' ls ss t : step l s = Some s' -> run s' ls ss t -> run s (l :: ls) (s :: ss) t.
End steps.
