(* ===== verification/BlobSafety.v ===== *)
(** The blob store (blob.go, pins.go) under every interleaving. Each operation is checked
    once, against a typestate of its transaction ([safe]); the invariant of the store, which
    ties locks, uncommitted writes and reference counts together, then follows for every
    step of every goroutine ([inv]). *)

From S2P Require Import Prelude Blob.
#[local] Open Scope Z_scope.

(** ** The order of hashes *)

Lemma compare_trans a b c o : String.compare a b = o -> String.compare b c = o -> String.compare a c = o.
Proof.
  revert b c. induction a as [|x a IH]; intros [|y b] [|z c]; simpl; intros H1 H2; subst; try done.
  unfold Ascii.compare in *.
  destruct (N.compare_spec (Ascii.N_of_ascii x) (Ascii.N_of_ascii y)) as [Hxy|Hxy|Hxy];
    destruct (N.compare_spec (Ascii.N_of_ascii y) (Ascii.N_of_ascii z)) as [Hyz|Hyz|Hyz];
    destruct (N.compare_spec (Ascii.N_of_ascii x) (Ascii.N_of_ascii z)) as [Hxz|Hxz|Hxz];
    try lia; try done; try congruence; eauto.
Qed.

Definition hash_lt (a b : Hash) : Prop := String.compare a b = Lt.

Lemma compare_refl a : String.compare a a = Eq.
Proof.
  pose proof (String.compare_antisym a a) as E. by destruct (String.compare a a).
Qed.

Lemma hash_lt_irrefl a : ~ hash_lt a a.
Proof. unfold hash_lt. by rewrite compare_refl. Qed.

Lemma hash_lt_trans a b c : hash_lt a b -> hash_lt b c -> hash_lt a c.
Proof. apply compare_trans. Qed.

Lemma hash_le_lt a b : hash_le a b <-> a = b \/ hash_lt a b.
Proof.
  unfold hash_le, hash_lt, String.leb. split.
  - destruct (String.compare a b) eqn:E; [left; by apply String.compare_eq_iff|by right|done].
  - intros [-> | ->]; [by rewrite compare_refl|done].
Qed.

Lemma hash_tricho a b : hash_lt a b \/ a = b \/ hash_lt b a.
Proof.
  unfold hash_lt. rewrite (String.compare_antisym b a).
  destruct (String.compare a b) eqn:E; simpl; auto using String.compare_eq_iff.
Qed.

#[export] Instance hash_le_total : Total hash_le.
Proof. intros a b. rewrite !hash_le_lt. destruct (hash_tricho a b) as [|[|]]; naive_solver. Qed.

#[export] Instance hash_le_trans : Transitive hash_le.
Proof. intros a b c. rewrite !hash_le_lt. intros [->|H1] [->|H2]; eauto using hash_lt_trans. Qed.

Lemma lock_order_sorted rs : StronglySorted hash_le (lock_order rs) /\ NoDup (lock_order rs).
Proof.
  split.
  - apply Sorted_StronglySorted; [apply _|]. apply Sorted_merge_sort, _.
  - unfold lock_order. rewrite merge_sort_Permutation. apply NoDup_remove_dups.
Qed.

(** A finite set of hashes that is not empty has a greatest element. *)
Lemma greatest_hash (X : gset Hash) : X ≢ ∅ -> exists h, h ∈ X /\ forall h', h' ∈ X -> ~ hash_lt h h'.
Proof.
  induction X as [|h X Hh IH] using set_ind_L; [done|]. intros _.
  destruct (decide (X = ∅)) as [->|Hne].
  - exists h. split; [set_solver|]. intros h' Hh'. assert (h' = h) as -> by set_solver. apply hash_lt_irrefl.
  - destruct IH as (m & Hm & Hmax); [by rewrite <- leibniz_equiv_iff in *|].
    destruct (hash_tricho m h) as [Hlt|Hge].
    + exists h. split; [set_solver|]. intros h' [->%elem_of_singleton|Hh']%elem_of_union Hl;
        [by apply hash_lt_irrefl in Hl|]. by apply (Hmax h' Hh'), (hash_lt_trans _ h).
    + exists m. split; [set_solver|]. intros h' [->%elem_of_singleton|Hh']%elem_of_union Hl; [|by eapply Hmax].
      destruct Hge as [->|Hge]; [by apply hash_lt_irrefl in Hl|].
      by apply (hash_lt_irrefl m), (hash_lt_trans _ h).
Qed.

(** ** Overlays and counts *)

Lemma overlay_lookup {K} `{Countable K} {V} (o : gmap K (option V)) m k :
  overlay o m !! k = match o !! k with Some z => z | None => m !! k end.
Proof. unfold overlay. rewrite lookup_merge. by destruct (o !! k), (m !! k). Qed.

Lemma overlay_empty {K} `{Countable K} {V} (m : gmap K V) : overlay ∅ m = m.
Proof. apply map_eq. intros k. by rewrite overlay_lookup, lookup_empty. Qed.

(** Two tables have the same references of a blob. *)
Definition agree (h : Hash) (m m' : gmap ref_key ref_row) : Prop :=
  forall k, k.1.1 = h -> m !! k = m' !! k.

Lemma refs_of_lookup h m k : refs_of h m !! k = if decide (k.1.1 = h) then m !! k else None.
Proof.
  unfold refs_of. case_decide as E.
  - destruct (m !! k) eqn:Ek; [by apply map_lookup_filter_Some|by apply map_lookup_filter_None; left].
  - apply map_lookup_filter_None. right. by intros r _ ?.
Qed.

Lemma count_agree h m m' : agree h m m' -> count h m = count h m'.
Proof.
  intros Ha. unfold count. f_equal. f_equal. apply map_eq. intros k. rewrite !refs_of_lookup.
  case_decide; [by apply Ha|done].
Qed.

Lemma count_subseteq h m m' : m ⊆ m' -> count h m <= count h m'.
Proof.
  intros Hs. unfold count. apply Nat2Z.inj_le, map_subseteq_size.
  apply map_subseteq_spec. intros k r. rewrite !refs_of_lookup. case_decide; [|done].
  intros Hk. by eapply lookup_weaken.
Qed.

Lemma count_nonneg h m : 0 <= count h m.
Proof. unfold count. lia. Qed.

Lemma count_zero h m : count h m = 0 <-> forall k, k.1.1 = h -> m !! k = None.
Proof.
  unfold count. split.
  - intros Hc k Hk. assert (refs_of h m = ∅) as E by (apply map_size_empty_iff; lia).
    apply (f_equal (lookup k)) in E. rewrite refs_of_lookup, decide_True, lookup_empty in E; done.
  - intros Hk. assert (refs_of h m = ∅) as ->; [|by rewrite map_size_empty].
    apply map_eq. intros k. rewrite refs_of_lookup, lookup_empty. case_decide; [by apply Hk|done].
Qed.

Lemma overlay_mono (o : gmap ref_key (option ref_row)) m m' : m ⊆ m' -> overlay o m ⊆ overlay o m'.
Proof.
  intros Hs. apply map_subseteq_spec. intros k r. rewrite !overlay_lookup.
  destruct (o !! k); [done|]. intros Hk. by eapply lookup_weaken.
Qed.

(** ** The typestate of a transaction *)

Record ts := mkTs {
  held : gset Hash;           (* blobs whose row the transaction has locked *)
  dirty : gset Hash;          (* references written, count not recomputed *)
  victim : option Hash;       (* row deleted *)
  have : option Hash;         (* bytes seen or put in place, row not recorded *)
  gone : option Hash;         (* deletion of the row committed, file still there *)
  sharing : gset Hash         (* blobs whose row its new messages point to *)
}.
Definition idle : ts := mkTs ∅ ∅ None None None ∅.

Section safe.
Context (sha256 : string -> string) (grace : Z).

Definition sized (h : Hash) (size : Z) : Prop :=
  exists raw, sha256 raw = h /\ size = Z.of_nat (String.length raw).

(** What an operation may do in which typestate: references are written and counted under
    the lock of their blob, several locks are taken in ascending order, shared ones as well,
    nothing is committed before it was counted, a row is recorded only after its bytes are in
    place, and a file is removed only after the deletion of its row was committed. *)
Definition pre {R : Set} (act : action R) (L : ts) : Prop :=
  match act with
  | ARecord h size => have L = Some h /\ held L = ∅ /\ gone L = None /\ sized h size
  | ASyncDir h => have L = Some h /\ gone L = None
  | ARemove h => gone L = Some h /\ have L = None
  | _ => have L = None /\ gone L = None
  end /\
  match act with
  | ARename h bytes => sha256 bytes = h
  | ABegin => held L = ∅ /\ sharing L = ∅
  | ACommit => dirty L = ∅
  | AInsertMessage _ h => held L = ∅ /\ (forall h', h' ∈ sharing L -> hash_le h' h) /\ victim L = None
  | ADeleteMessages _ => True
  | ALock h => (forall h', h' ∈ held L -> hash_lt h' h) /\ victim L = None /\ sharing L = ∅
  | ALockGarbage h _ => held L = ∅ /\ victim L = None /\ sharing L = ∅
  | AInsertRef r => Ref_Hash r ∈ held L /\ victim L = None
  | ADeleteRefs h _ | ASync h => h ∈ held L /\ victim L = None
  | ADeleteBlob h => h ∈ held L /\ victim L = None /\ dirty L = ∅
  | ARecord _ _ => sharing L = ∅
  | _ => True
  end.

Definition hold (h : Hash) (L : ts) : ts :=
  mkTs ({[h]} ∪ held L) (dirty L) (victim L) (have L) (gone L) (sharing L).
Definition soil (h : Hash) (L : ts) : ts :=
  mkTs (held L) ({[h]} ∪ dirty L) (victim L) (have L) (gone L) (sharing L).
Definition with_bytes (o : option Hash) (L : ts) : ts :=
  mkTs (held L) (dirty L) (victim L) o (gone L) (sharing L).
Definition counted (h : Hash) (L : ts) : ts :=
  mkTs (held L) (dirty L ∖ {[h]}) (victim L) (have L) (gone L) (sharing L).
Definition doom (h : Hash) (L : ts) : ts :=
  mkTs (held L) (dirty L) (Some h) (have L) (gone L) (sharing L).
Definition share (h : Hash) (L : ts) : ts :=
  mkTs (held L) (dirty L) (victim L) (have L) (gone L) ({[h]} ∪ sharing L).
Definition committed (L : ts) : ts := mkTs ∅ ∅ None None (victim L) ∅.

Definition post {R : Set} (act : action R) : R -> ts -> ts :=
  match act in action R return R -> ts -> ts with
  | AStat h => fun there => with_bytes (if there then Some h else None)
  | ARename h _ => fun _ => with_bytes (Some h)
  | ARecord _ _ => fun _ => with_bytes None
  | ARemove _ => fun _ L => mkTs (held L) (dirty L) (victim L) (have L) None (sharing L)
  | ABegin => fun _ _ => idle
  | ACommit => fun _ => committed
  | ALock h | ALockGarbage h _ => fun there L => if there then hold h L else L
  | AInsertRef r => fun _ => soil (Ref_Hash r)
  | ADeleteRefs h _ => fun n L => if n =? 0 then L else soil h L
  | ASync h => fun _ => counted h
  | ADeleteBlob h => fun deleted L => if deleted then doom h L else L
  | AInsertMessage _ h => fun _ => share h
  | _ => fun _ L => L
  end.

Fixpoint safe {A} (p : proc A) (L : ts) (Q : A -> ts -> Prop) : Prop :=
  match p with
  | PRet a => Q a L
  | PErr => True
  | PAct act k => pre act L /\ forall r, safe (k r) (post act r L) Q
  end.

Lemma blob_safe_mono {A} (p : proc A) L (Q Q' : A -> ts -> Prop) :
  safe p L Q -> (forall a L', Q a L' -> Q' a L') -> safe p L Q'.
Proof. revert L. induction p as [a| |R act k IH]; simpl; naive_solver. Qed.

Lemma blob_safe_bind {A B} (p : proc A) (f : A -> proc B) L Q :
  safe p L (fun a L' => safe (f a) L' Q) -> safe (p ≫= f) L Q.
Proof.
  unfold mbind, proc_bind. revert L. induction p as [a| |R act k IH]; simpl; [done|done|].
  intros L [Hp Hk]. split; [done|]. intros r. by apply IH.
Qed.

Lemma safe_perform {R : Set} (act : action R) L (Q : R -> ts -> Prop) :
  pre act L -> (forall r, Q r (post act r L)) -> safe (perform act) L Q.
Proof. by split. Qed.

Lemma safe_for_each {A B} (I : list A -> B -> ts -> Prop) (xs : list A) acc (f : B -> A -> proc B) L Q :
  I xs acc L ->
  (forall x xs b L', I (x :: xs) b L' -> safe (f b x) L' (I xs)) ->
  (forall b L', I [] b L' -> Q b L') ->
  safe (for_each xs acc f) L Q.
Proof.
  intros HI Hf HQ. revert acc L HI. induction xs as [|x xs IH]; intros acc L HI; simpl; [by apply HQ|].
  apply blob_safe_bind. eapply blob_safe_mono; [by apply Hf|]. intros b L' HI'. by apply IH.
Qed.

(** Between two operations of a goroutine: nothing locked, nothing pending. *)
Definition rest (L : ts) : Prop := L = idle.

(** Inside a transaction whose counts are right. *)
Definition balanced (L : ts) : Prop := dirty L = ∅ /\ victim L = None /\ have L = None /\ gone L = None.

(** And that has no new message. *)
Definition alone (L : ts) : Prop := balanced L /\ sharing L = ∅.

Lemma safe_inTx {A} (fn : proc A) L (Q : A -> ts -> Prop) :
  rest L -> safe fn idle (fun a L' => dirty L' = ∅ /\ have L' = None /\ gone L' = None /\
                          Q a (committed L')) ->
  safe (inTx fn) L Q.
Proof.
  intros -> Hfn. apply blob_safe_bind, safe_perform; [done|]. intros [].
  apply blob_safe_bind. eapply blob_safe_mono; [apply Hfn|]. intros a L' (Hd & Hh & Hg & HQ).
  apply blob_safe_bind, safe_perform; [done|]. by intros [].
Qed.

Lemma safe_Put raw L : rest L -> safe (Put sha256 raw) L (fun _ => rest).
Proof.
  intros ->. apply blob_safe_bind, safe_perform; [done|]. intros there. apply blob_safe_bind.
  assert (safe (if there then mret tt else perform (ARename (sha256 raw) raw) ;; perform (ASyncDir (sha256 raw)))
    (post (AStat (sha256 raw)) there idle) (fun _ L => L = with_bytes (Some (sha256 raw)) idle)) as Hs.
  { destruct there; [done|]. apply blob_safe_bind, safe_perform; [done|]. intros [].
    apply safe_perform; [done|]. by intros []. }
  eapply blob_safe_mono; [exact Hs|]. intros [] L ->. apply blob_safe_bind, safe_perform; [|by intros []].
  repeat split; eauto; by exists raw.
Qed.

(** Locking a blob, changing its references, counting them. *)
Lemma safe_locked {A} h L (change : proc A) (Q : A -> ts -> Prop) (absent : proc A) :
  alone L -> (forall h', h' ∈ held L -> hash_lt h' h) ->
  (safe change (hold h L) Q) -> safe absent L Q ->
  safe (there ← perform (ALock h); if (there : bool) then change else absent) L Q.
Proof.
  intros [(Hd & Hv & Hh & Hg) Hs] Hlt Hc Ha. apply blob_safe_bind, safe_perform; [done|]. by intros [].
Qed.

Lemma safe_sync h L (Q : unit -> ts -> Prop) :
  h ∈ held L -> victim L = None -> have L = None -> gone L = None ->
  Q tt (counted h L) -> safe (syncRefcount h) L Q.
Proof. intros. apply safe_perform; [done|]. by intros []. Qed.

Lemma safe_AddRef r : safe (AddRef r) idle (fun _ => alone).
Proof.
  apply safe_locked; [done|set_solver| |done].
  apply blob_safe_bind, safe_perform; [repeat split; set_solver|]. intros [].
  apply safe_sync; [set_solver|done..|]. repeat split. set_solver.
Qed.

Lemma safe_inserts h rs L :
  alone L -> h ∈ held L -> Forall (fun r => Ref_Hash r = h) rs ->
  safe (for_each rs tt (fun _ r => perform (AInsertRef r))) L
    (fun _ L' => held L' = held L /\ dirty L' ⊆ {[h]} /\ victim L' = None /\ have L' = None /\ gone L' = None /\ sharing L' = ∅).
Proof.
  intros [(Hd & Hv & Hh & Hg) Hsh] Hin Hrs.
  apply (safe_for_each (fun rs (_ : unit) L' => Forall (fun r => Ref_Hash r = h) rs /\ held L' = held L /\
    dirty L' ⊆ {[h]} /\ victim L' = None /\ have L' = None /\ gone L' = None /\ sharing L' = ∅)).
  - repeat split; try done. set_solver.
  - intros r rs' [] L' ([Hr Hrs']%Forall_cons & Hl & Hs & Hv' & Hh' & Hg' & Hsh'). apply safe_perform.
    + repeat split; try done. by rewrite Hl, Hr.
    + intros []. repeat split; simpl; try done. rewrite Hr. set_solver.
  - intros [] L' (_ & ?). done.
Qed.

Lemma safe_AddRefs rs : safe (AddRefs rs) idle (fun _ => alone).
Proof.
  destruct (lock_order_sorted rs) as [Hs Hn].
  apply (safe_for_each (fun hs (_ : unit) L => alone L /\ StronglySorted hash_le hs /\ NoDup hs /\
    forall h h', h ∈ hs -> h' ∈ held L -> hash_lt h' h)).
  - by repeat split.
  - intros h hs [] L (Hb & [Hs' Hle]%StronglySorted_inv & [Hnin Hn']%NoDup_cons & Hlt).
    apply safe_locked; [done|intros h' Hh'; apply Hlt; [by left|done]| |done].
    apply blob_safe_bind. eapply blob_safe_mono; [apply (safe_inserts h); [done|set_solver|]|].
    { apply Forall_forall. by intros r [Hr _]%list_elem_of_filter. }
    intros [] L' (Hl & Hd & Hv & Hh & Hg & Hsh). apply safe_sync; [rewrite Hl; set_solver|done..|].
    split; [repeat split; set_solver|]. split; [done|]. split; [done|]. simpl. rewrite Hl. simpl.
    intros h1 h' Hh1 [->%elem_of_singleton|Hh']%elem_of_union; [|apply Hlt; [by right|done]].
    rewrite Forall_forall in Hle. destruct (proj1 (hash_le_lt _ _) (Hle _ Hh1)) as [->|]; [done|done].
  - by intros [] L (? & _).
Qed.

Lemma safe_RemoveRef h kind o : safe (RemoveRef h kind o) idle (fun _ => alone).
Proof.
  apply safe_locked; [done|set_solver| |done].
  apply blob_safe_bind, safe_perform; [repeat split; set_solver|]. intros n.
  assert (forall b : bool, let L := if b then hold h idle else soil h (hold h idle) in
    safe (syncRefcount h) L (fun _ => alone)) as Hb.
  { intros []; (apply safe_sync; [set_solver|done..|]); repeat split; set_solver. }
  apply (Hb (n =? 0)).
Qed.

Lemma safe_collectOne h cutoff L (Q : bool -> ts -> Prop) :
  rest L -> Q false idle -> Q true (committed (doom h idle)) -> safe (collectOne h cutoff) L Q.
Proof.
  intros HL Hf Ht. apply safe_inTx; [done|]. apply blob_safe_bind, safe_perform; [done|]. intros [|]; [|done].
  apply safe_perform; [repeat split; set_solver|]. by intros [].
Qed.

Lemma safe_GC limit L : rest L -> safe (GC grace limit) L (fun _ => rest).
Proof.
  intros ->. apply blob_safe_bind, safe_perform; [done|]. intros now. apply blob_safe_bind, safe_perform; [done|].
  intros cands. apply (safe_for_each (fun _ _ => rest)); [done| |done].
  intros c cs st L HL. apply blob_safe_bind, safe_collectOne; [done|done|].
  apply blob_safe_bind, safe_perform; [done|]. by intros [].
Qed.

Lemma safe_expirePinsOf h cutoff L : rest L -> safe (expirePinsOf h cutoff) L (fun _ => rest).
Proof.
  intros HL. apply safe_inTx; [done|]. eapply blob_safe_mono with (Q := fun _ => alone).
  2:{ intros n [? ? ? ? ? ?] [(Hd & Hv & Hh & Hg) Hsh]; simpl in *; subst. done. }
  apply safe_locked; [done|set_solver| |done].
  apply blob_safe_bind, safe_perform; [repeat split; set_solver|]. intros n. simpl.
  destruct (n =? 0); [done|]. apply blob_safe_bind, safe_sync; [set_solver|done..|]. repeat split. simpl. set_solver.
Qed.

Lemma safe_ExpirePins maxAge limit L : rest L -> safe (ExpirePins maxAge limit) L (fun _ => rest).
Proof.
  intros ->. apply blob_safe_bind, safe_perform; [done|]. intros now. apply blob_safe_bind, safe_perform; [done|].
  intros hs. apply (safe_for_each (fun _ _ => rest)); [done| |done].
  intros h hs' n L HL. apply blob_safe_bind. eapply blob_safe_mono; [by apply safe_expirePinsOf|]. done.
Qed.

Lemma safe_balanced {A} (fn : proc A) :
  safe fn idle (fun _ => balanced) -> safe (inTx fn) idle (fun _ => rest).
Proof.
  intros Hf. apply safe_inTx; [done|]. eapply blob_safe_mono; [exact Hf|].
  intros a [? ? ? ? ? ?] (Hd & Hv & Hh & Hg); simpl in *; subst. done.
Qed.

Lemma safe_alone {A} (fn : proc A) :
  safe fn idle (fun _ => alone) -> safe (inTx fn) idle (fun _ => rest).
Proof. intros Hf. apply safe_balanced. eapply blob_safe_mono; [exact Hf|]. by intros a L [? _]. Qed.

Lemma safe_InsertMessages account msgs :
  StronglySorted batch_le msgs -> safe (InsertMessages account msgs) idle (fun _ => rest).
Proof.
  intros Hs. unfold InsertMessages. destruct msgs as [|m0 msgs0]; [done|]. set (msgs := m0 :: msgs0) in *.
  apply safe_balanced, blob_safe_bind.
  apply (safe_for_each (fun ms (_ : list Z) L => balanced L /\ held L = ∅ /\ StronglySorted batch_le ms /\
    forall h m, h ∈ sharing L -> m ∈ ms -> hash_le h (b_Hash m))).
  - by repeat split.
  - intros m ms ids L (Hb & Hh & [Hs' Hle]%StronglySorted_inv & Hlt). apply blob_safe_bind, safe_perform.
    + destruct Hb as (? & ? & ? & ?). repeat split; try done. intros h Hin. apply Hlt; [done|by left].
    + intros id. split; [exact Hb|]. split; [done|]. split; [done|].
      simpl. intros h m' [->%elem_of_singleton|Hin]%elem_of_union Hm'; [|apply Hlt; [done|by right]].
      rewrite Forall_forall in Hle. by apply Hle.
  - intros ids L (Hb & _). apply blob_safe_bind.
    eapply (blob_safe_mono _ _ (fun _ => balanced)); [|done].
    destruct Hb as (? & ? & ? & ?). destruct (fst <$> _); [done|]. apply safe_perform; [done|]. by intros [].
Qed.

Lemma safe_addBlobRefs account ids batch L :
  rest L -> safe (addBlobRefs account ids batch) L (fun _ => rest).
Proof.
  intros ->. unfold addBlobRefs. destruct (_ <$> _); [done|]. apply safe_alone, safe_AddRefs.
Qed.

Lemma batch_sorted batch : StronglySorted batch_le (merge_sort batch_le batch).
Proof.
  apply Sorted_StronglySorted; [intros a b c; unfold batch_le; apply hash_le_trans|].
  apply Sorted_merge_sort. intros a b. unfold batch_le. apply hash_le_total.
Qed.

Lemma safe_commitBatch account batch : safe (commitBatch account batch) idle (fun _ => rest).
Proof.
  apply blob_safe_bind. eapply blob_safe_mono; [apply safe_InsertMessages, batch_sorted|].
  intros ids L HL. by apply safe_addBlobRefs.
Qed.

Lemma safe_commitDegraded account batch : safe (commitDegraded account batch) idle (fun _ => rest).
Proof.
  apply blob_safe_bind. apply (safe_for_each (fun _ _ => rest)); [done| |].
  - intros [m|] ms ids L ->; [|done]. apply blob_safe_bind.
    eapply blob_safe_mono; [apply safe_InsertMessages; by repeat constructor|done].
  - intros ids L HL. by apply safe_addBlobRefs.
Qed.

Lemma safe_reflectAppended account m : safe (reflectAppended account m) idle (fun _ => rest).
Proof.
  apply blob_safe_bind. eapply blob_safe_mono; [apply safe_InsertMessages; by repeat constructor|].
  intros [|id ids] L ->; [done|]. destruct (id =? 0); [done|]. apply safe_alone, safe_AddRef.
Qed.

Lemma safe_code o : safe (code sha256 grace o) idle (fun _ _ => True).
Proof.
  eapply blob_safe_mono with (Q := fun _ => rest); [|done].
  destruct o as [raw|r|[|r rs]|h kind o|limit|maxAge limit|a b|a b|a m]; cbn [code].
  - apply blob_safe_bind. eapply blob_safe_mono; [by apply safe_Put|done].
  - apply safe_alone, safe_AddRef.
  - done.
  - apply safe_alone, safe_AddRefs.
  - apply safe_alone, safe_RemoveRef.
  - apply blob_safe_bind. eapply blob_safe_mono; [by apply safe_GC|done].
  - apply blob_safe_bind. eapply blob_safe_mono; [by apply safe_ExpirePins|done].
  - apply safe_commitBatch.
  - apply safe_commitDegraded.
  - apply safe_reflectAppended.
Qed.
End safe.

(** ** The invariant *)

Section invariant.
Context (pick : list Hash -> list Hash) (sha256 : string -> string) (grace : Z).
Implicit Types (exact : bool) (s : State) (t : tx) (L : ts) (h : Hash).

(** A row and the number [n] of references of its blob: never more references than the count,
    as many when no account was deleted, garbage exactly when the count is zero. *)
Record row_ok exact h (b : blob_row) (n : Z) : Prop := {
  row_le : n <= br_Refcount b;
  row_exact : exact = true -> n = br_Refcount b;
  row_zero : br_ZeroSince b = None <-> 0 < br_Refcount b
}.

Definition unused h s : Prop := forall id a, messages s !! id <> Some (a, h).

Record mine exact (tid : nat) t L s : Prop := {
  my_locks : forall h, h ∈ held L <-> locks s !! h = Some tid;
  my_there : forall h, h ∈ held L -> is_Some (blobs s !! h);
  my_refs : forall k o, t_refs t !! k = Some o -> k.1.1 ∈ held L;
  my_blobs : forall h o, t_blobs t !! h = Some o -> h ∈ held L;
  my_rows : forall h b, h ∈ held L -> blobs_seen t s !! h = Some b ->
    sized sha256 h (br_Size b) /\ (h ∉ dirty L -> row_ok exact h b (count h (refs_seen t s)));
  my_gone : forall h, h ∈ held L -> blobs_seen t s !! h = None ->
    victim L = Some h /\ count h (refs_seen t s) = 0 /\ unused h s;
  my_victim : forall h, victim L = Some h -> t_blobs t !! h = Some None;
  my_shares : t_shares t = sharing L;
  my_shared : forall h, h ∈ t_shares t -> is_Some (blobs s !! h) /\ locks s !! h = None;
  my_msgs : forall id a h, t_msgs t !! id = Some (a, h) -> h ∈ t_shares t
}.

Record inv exact s : Prop := {
  inv_rows : forall h b, blobs s !! h = Some b -> sized sha256 h (br_Size b) /\ row_ok exact h b (count h (refs s));
  inv_refs : forall h, blobs s !! h = None -> count h (refs s) = 0;
  inv_messages : forall id a h, messages s !! id = Some (a, h) -> is_Some (blobs s !! h);
  inv_files : forall h bytes, files s !! h = Some bytes -> sha256 bytes = h;
  inv_locks : forall h tid, locks s !! h = Some tid -> is_Some (procs s !! tid);
  inv_procs : forall tid g, procs s !! tid = Some g ->
    exists L, safe sha256 (g_code g) L (fun _ _ => True) /\ mine exact tid (g_tx g) L s
}.

Lemma row_weaken exact h b n n' : row_ok exact h b n -> n' <= n -> row_ok false h b n'.
Proof. intros [H1 H2 H3] ?. by split; [lia| |]. Qed.

(** What a transaction sees of the blobs it has locked does not depend on anything else. *)
Lemma mine_stable exact tid t L s s' :
  mine exact tid t L s ->
  (forall h, locks s' !! h = Some tid <-> locks s !! h = Some tid) ->
  (forall h, locks s !! h = Some tid -> blobs s' !! h = blobs s !! h /\ agree h (refs s') (refs s) /\
     (unused h s -> unused h s')) ->
  (forall h, h ∈ t_shares t -> locks s !! h = None -> is_Some (blobs s !! h) ->
     locks s' !! h = None /\ is_Some (blobs s' !! h)) ->
  mine exact tid t L s'.
Proof.
  intros [M1 M0 M2 M3 M4 M5 M6 S1 S2 S3] Hl Hb Hsh.
  assert (forall h, h ∈ held L -> blobs_seen t s' !! h = blobs_seen t s !! h /\
    count h (refs_seen t s') = count h (refs_seen t s)) as Hsee.
  { intros h Hh%M1. destruct (Hb h Hh) as (Eb & Ea & _). split.
    - unfold blobs_seen. rewrite !overlay_lookup. by case_match.
    - apply count_agree. intros k Hk. unfold refs_seen. rewrite !overlay_lookup. case_match; [done|by apply Ea]. }
  split; [intros h; by rewrite Hl| |done|done| | |done|done| |done].
  - intros h Hh. pose proof (M0 h Hh) as Hr. apply M1 in Hh. destruct (Hb h Hh) as (-> & _). done.
  - intros h b Hh Eb. destruct (Hsee h Hh) as [E1 ->]. apply M4; [done|]. by rewrite <- E1.
  - intros h Hh Eb. destruct (Hsee h Hh) as [E1 ->]. rewrite E1 in Eb.
    destruct (M5 h Hh Eb) as (? & ? & ?). split; [done|]. split; [done|].
    apply M1 in Hh. by apply (Hb h Hh).
  - intros h Hh. destruct (S2 h Hh) as [Hr Hn]. by destruct (Hsh h Hh Hn Hr).
Qed.

(** A transaction that has nothing open. *)
Lemma mine_idle exact tid t L s :
  held L = ∅ -> victim L = None -> sharing L = ∅ ->
  t_blobs t = ∅ -> t_refs t = ∅ -> t_shares t = ∅ -> t_msgs t = ∅ ->
  (forall h, locks s !! h <> Some tid) -> mine exact tid t L s.
Proof.
  intros Hh Hv Hs Hb Hr Ht Hm Hl. split.
  - intros h. rewrite Hh. split; [set_solver|]. by intros ?%Hl.
  - intros h. rewrite Hh. set_solver.
  - intros k o. by rewrite Hr.
  - intros h o. by rewrite Hb.
  - intros h b. rewrite Hh. set_solver.
  - intros h. rewrite Hh. set_solver.
  - intros h. by rewrite Hv.
  - congruence.
  - intros h. rewrite Ht. set_solver.
  - intros id a h. by rewrite Hm.
Qed.

Lemma shared_by tid tid' g h s :
  procs s !! tid' = Some g -> tid' <> tid -> h ∈ t_shares (g_tx g) -> shared tid h s = true.
Proof.
  intros Hg Hne Hh. apply existsb_exists. exists (tid', g). split; [by apply list_elem_of_In, elem_of_map_to_list|].
  simpl. apply andb_true_iff. split; [by apply negb_true_iff, Nat.eqb_neq|by apply bool_decide_eq_true].
Qed.

Lemma shared_elim tid h s :
  shared tid h s = true -> exists tid' g, procs s !! tid' = Some g /\ tid' <> tid /\ h ∈ t_shares (g_tx g).
Proof.
  intros ([t' g] & Hin & [Hne%negb_true_iff%Nat.eqb_neq Hh%bool_decide_eq_true]%andb_true_iff)%existsb_exists.
  apply list_elem_of_In, elem_of_map_to_list in Hin. by exists t', g.
Qed.

(** A step of one goroutine: what it leaves untouched of the blobs that others hold. *)
Lemma blob_inv_step exact s s' tid g' L' :
  inv exact s -> procs s' = <[tid := g']> (procs s) ->
  (forall h b, blobs s' !! h = Some b -> sized sha256 h (br_Size b) /\ row_ok exact h b (count h (refs s'))) ->
  (forall h, blobs s' !! h = None -> count h (refs s') = 0) ->
  (forall id a h, messages s' !! id = Some (a, h) -> is_Some (blobs s' !! h)) ->
  (forall h bytes, files s' !! h = Some bytes -> sha256 bytes = h) ->
  (forall h tid', tid' <> tid -> locks s' !! h = Some tid' <-> locks s !! h = Some tid') ->
  (forall h tid', tid' <> tid -> locks s !! h = Some tid' ->
     blobs s' !! h = blobs s !! h /\ agree h (refs s') (refs s) /\ (unused h s -> unused h s')) ->
  (forall h, shared tid h s = true -> locks s !! h = None -> is_Some (blobs s !! h) ->
     locks s' !! h = None /\ is_Some (blobs s' !! h)) ->
  safe sha256 (g_code g') L' (fun _ _ => True) -> mine exact tid (g_tx g') L' s' ->
  inv exact s'.
Proof.
  intros [I1 I2 I3 I4 I5 I6] Hp H1 H2 H3 H4 H5 H6 H7 Hsafe Hmine. split; try done.
  - intros h tid' Hl. rewrite Hp. destruct (decide (tid' = tid)) as [->|Hne]; [by rewrite lookup_insert_eq|].
    rewrite lookup_insert_ne by done. apply (I5 h). by apply H5.
  - intros tid' g. rewrite Hp. destruct (decide (tid' = tid)) as [->|Hne].
    + rewrite lookup_insert_eq. intros [= <-]. by exists L'.
    + rewrite lookup_insert_ne by done. intros Hg. destruct (I6 _ _ Hg) as (L & Hs & HM). exists L. split; [done|].
      eapply mine_stable; [exact HM|intros h; by apply H5| |].
      * intros h Hl. by apply (H6 h tid' Hne).
      * intros h Hh. apply H7. by eapply shared_by.
Qed.

(** A step that changes no table and no lock. *)
Lemma inv_local exact s s' tid g' L' :
  inv exact s -> procs s' = <[tid := g']> (procs s) -> blobs s' = blobs s -> refs s' = refs s ->
  messages s' = messages s -> locks s' = locks s ->
  (forall h bytes, files s' !! h = Some bytes -> sha256 bytes = h) ->
  safe sha256 (g_code g') L' (fun _ _ => True) -> mine exact tid (g_tx g') L' s' ->
  inv exact s'.
Proof.
  intros HI Hp Hb Hr Hm Hl Hf ??.
  eapply blob_inv_step; eauto; unfold unused; rewrite ?Hb, ?Hr, ?Hm, ?Hl; try apply HI; done.
Qed.

Lemma mine_tables exact tid t L L' s s' :
  mine exact tid t L s -> blobs s' = blobs s -> refs s' = refs s -> messages s' = messages s ->
  locks s' = locks s -> held L' = held L -> dirty L' = dirty L -> victim L' = victim L ->
  sharing L' = sharing L -> mine exact tid t L' s'.
Proof.
  intros [M1 M0 M2 M3 M4 M5 M6 S1 S2 S3] Hb Hr Hm Hl E1 E2 E3 E4. split; rewrite ?E1, ?E2, ?E3, ?E4, ?Hl, ?Hb; try done.
  - unfold blobs_seen, refs_seen. by rewrite Hb, Hr.
  - unfold blobs_seen, refs_seen, unused. by rewrite Hb, Hr, Hm.
Qed.

(** ** Each action keeps it *)

Lemma not_foreign tid h s : foreign tid h s = false -> locks s !! h = None \/ locks s !! h = Some tid.
Proof.
  unfold foreign. destruct (locks s !! h) as [t'|]; [|by left].
  intros Hn%negb_false_iff. apply Nat.eqb_eq in Hn as ->. by right.
Qed.

(** Of a blob the transaction has not locked it sees what is committed. *)
Lemma seen_committed exact tid t L s h :
  mine exact tid t L s -> h ∉ held L ->
  blobs_seen t s !! h = blobs s !! h /\ agree h (refs_seen t s) (refs s).
Proof.
  intros HM Hh. split.
  - unfold blobs_seen. rewrite overlay_lookup. destruct (t_blobs t !! h) eqn:E; [|done].
    by apply (my_blobs _ _ _ _ _ HM) in E.
  - intros k <-. unfold refs_seen. rewrite overlay_lookup. destruct (t_refs t !! k) eqn:E; [|done].
    by apply (my_refs _ _ _ _ _ HM) in E.
Qed.

Lemma mine_acquire exact tid t L s h b :
  inv exact s -> mine exact tid t L s -> h ∉ held L -> victim L = None -> sharing L = ∅ ->
  blobs_seen t s !! h = Some b ->
  mine exact tid t (hold h L) (set_locks (insert h tid) s).
Proof.
  intros HI HM Hh Hv Hsh Eb. destruct (seen_committed _ _ _ _ _ h HM Hh) as [E1 E2]. rewrite E1 in Eb.
  pose proof HM as [M1 M0 M2 M3 M4 M5 M6 S1 S2 S3]. split; simpl.
  - intros h'. rewrite elem_of_union, elem_of_singleton, M1. destruct (decide (h' = h)) as [->|Hne].
    + rewrite lookup_insert_eq. naive_solver.
    + rewrite lookup_insert_ne by done. naive_solver.
  - intros h' [->%elem_of_singleton|?]%elem_of_union; [by eexists|by apply M0].
  - intros k o ?%M2. set_solver.
  - intros h' o ?%M3. set_solver.
  - intros h' b' [->%elem_of_singleton|Hh']%elem_of_union Eb'; [|by apply M4].
    rewrite (E1 : blobs_seen t (set_locks _ s) !! h = _) in Eb'. simplify_eq.
    destruct (inv_rows _ _ HI _ _ Eb) as [? ?]. split; [done|]. intros _. 
    rewrite (count_agree h (refs_seen t (set_locks _ s)) (refs s) E2). done.
  - intros h' [->%elem_of_singleton|Hh']%elem_of_union Eb'; [|by apply M5].
    rewrite (E1 : blobs_seen t (set_locks _ s) !! h = _) in Eb'. congruence.
  - intros h' Hv'. congruence.
  - done.
  - intros h'. rewrite S1, Hsh. set_solver.
  - done.
Qed.

Section action.
Context (exact : bool) (s : State) (tid : nat) (t : tx) (L : ts).
Context (HI : inv exact s) (HM : mine exact tid t L s).

(** The goroutine goes on as [g] and the typestate is [L']. *)
Definition goes_on (s' : State) (t' : tx) (L' : ts) : Prop :=
  forall k, safe sha256 k L' (fun _ _ => True) -> inv exact (set_procs (insert tid (mkGo k t')) s').

Lemma goes_on_local s' t' L' :
  blobs s' = blobs s -> refs s' = refs s -> messages s' = messages s -> locks s' = locks s ->
  procs s' = procs s -> (forall h bytes, files s' !! h = Some bytes -> sha256 bytes = h) ->
  mine exact tid t' L' s -> goes_on s' t' L'.
Proof.
  intros Hb Hr Hm Hl Hp Hf HM' k Hk. apply (inv_local exact s _ tid (mkGo k t') L'); try done; simpl; [by rewrite Hp|].
  eapply mine_tables; [exact HM'|done..].
Qed.

Lemma goes_on_same L' :
  held L' = held L -> dirty L' = dirty L -> victim L' = victim L -> sharing L' = sharing L -> goes_on s t L'.
Proof.
  intros. apply goes_on_local; try done; [apply HI|]. by eapply mine_tables.
Qed.

Lemma goes_on_acquire h b :
  h ∉ held L -> victim L = None -> sharing L = ∅ -> blobs_seen t s !! h = Some b ->
  foreign tid h s = false -> shared tid h s = false ->
  goes_on (set_locks (insert h tid) s) t (hold h L).
Proof.
  intros Hh Hv Hsh Eb Hf Hns k Hk.
  assert (locks s !! h = None) as Hnone.
  { destruct (not_foreign _ _ _ Hf) as [|Hl]; [done|]. by apply (my_locks _ _ _ _ _ HM) in Hl. }
  apply (blob_inv_step exact s _ tid (mkGo k t) (hold h L)); try done; simpl; try apply HI.
  - intros h' tid' Hne. destruct (decide (h' = h)) as [->|?]; [|by rewrite lookup_insert_ne].
    rewrite lookup_insert_eq. naive_solver.
  - intros h' Hs' Hl Hr. split; [|done]. rewrite lookup_insert_ne; [done|]. intros <-. congruence.
  - eapply mine_tables; [by eapply mine_acquire|done..].
Qed.

Lemma goes_on_record h size :
  sized sha256 h size -> held L = ∅ -> victim L = None -> sharing L = ∅ -> blobs s !! h = None ->
  goes_on (set_blobs (insert h {| br_Size := size; br_Refcount := 0; br_ZeroSince := Some (now s) |}) s) t
    (with_bytes None L).
Proof.
  intros Hs Hh Hv Hsh Eb k Hk.
  apply (blob_inv_step exact s _ tid (mkGo k t) (with_bytes None L)); try done; simpl; try apply HI.
  - intros h' b'. destruct (decide (h' = h)) as [->|?].
    + rewrite lookup_insert_eq. intros [= <-]. rewrite (inv_refs _ _ HI h Eb). split; [done|]. by split.
    + rewrite lookup_insert_ne by done. apply HI.
  - intros h'. destruct (decide (h' = h)) as [->|?]; [by rewrite lookup_insert_eq|].
    rewrite lookup_insert_ne by done. apply HI.
  - intros id a h' Hm. destruct (decide (h' = h)) as [->|?]; [by rewrite lookup_insert_eq|].
    rewrite lookup_insert_ne by done. by eapply HI.
  - intros h' tid' Hne Hl. split; [|done]. destruct (decide (h' = h)) as [->|?]; [|by rewrite lookup_insert_ne].
    destruct (inv_locks _ _ HI _ _ Hl) as [g Hg]. destruct (inv_procs _ _ HI _ _ Hg) as (L1 & _ & HM1).
    apply (my_locks _ _ _ _ _ HM1), (my_there _ _ _ _ _ HM1) in Hl. rewrite Eb in Hl. by destruct Hl.
  - intros h' _ Hl Hr. split; [done|]. rewrite lookup_insert_is_Some. destruct (decide (h = h')); auto.
  - apply mine_idle; try done; simpl.
    + apply map_empty. intros h'. destruct (t_blobs t !! h') eqn:E; [|done].
      apply (my_blobs _ _ _ _ _ HM) in E. set_solver.
    + apply map_empty. intros k'. destruct (t_refs t !! k') eqn:E; [|done].
      apply (my_refs _ _ _ _ _ HM) in E. set_solver.
    + by rewrite (my_shares _ _ _ _ _ HM).
    + apply map_empty. intros id. destruct (t_msgs t !! id) as [[a h']|] eqn:E; [|done].
      apply (my_msgs _ _ _ _ _ HM) in E. rewrite (my_shares _ _ _ _ _ HM) in E. set_solver.
    + intros h' Hl%(my_locks _ _ _ _ _ HM). set_solver.
Qed.

Lemma goes_on_commit :
  dirty L = ∅ ->
  goes_on (set_locks (filter (fun ht => ht.2 <> tid))
             (set_blobs (overlay (t_blobs t)) (set_refs (overlay (t_refs t))
               (set_messages (union (t_msgs t)) s)))) no_tx (committed L).
Proof.
  intros Hd k Hk. apply (blob_inv_step exact s _ tid (mkGo k no_tx) (committed L)); try done; simpl;
    change (overlay (t_blobs t) (blobs s)) with (blobs_seen t s);
    change (overlay (t_refs t) (refs s)) with (refs_seen t s); try apply HI.
  - intros h b Eb. destruct (decide (h ∈ held L)) as [Hh|Hh].
    + destruct (my_rows _ _ _ _ _ HM h b Hh Eb) as [? Hr]. split; [done|]. apply Hr. set_solver.
    + destruct (seen_committed _ _ _ _ _ h HM Hh) as [E1 E2]. rewrite E1 in Eb.
      rewrite (count_agree h _ _ E2). by apply HI.
  - intros h Eb. destruct (decide (h ∈ held L)) as [Hh|Hh].
    + by apply (my_gone _ _ _ _ _ HM).
    + destruct (seen_committed _ _ _ _ _ h HM Hh) as [E1 E2]. rewrite E1 in Eb.
      rewrite (count_agree h _ _ E2). by apply HI.
  - intros id a h Hm. destruct (blobs_seen t s !! h) as [b|] eqn:Eb; [done|]. exfalso.
    apply lookup_union_Some_raw in Hm as [Hm%(my_msgs _ _ _ _ _ HM)|[_ Hm]].
    { destruct (my_shared _ _ _ _ _ HM h Hm) as [[b Hb] Hn].
      destruct (seen_committed _ _ _ _ _ h HM) as [E1 _]; [|congruence].
      rewrite (my_locks _ _ _ _ _ HM). congruence. }
    destruct (decide (h ∈ held L)) as [Hh|Hh].
    + destruct (my_gone _ _ _ _ _ HM h Hh Eb) as (_ & _ & Hu). by apply (Hu id a).
    + destruct (seen_committed _ _ _ _ _ h HM Hh) as [E1 _]. rewrite E1 in Eb.
      destruct (inv_messages _ _ HI _ _ _ Hm) as [b Hb]. congruence.
  - intros h tid' Hne. rewrite map_lookup_filter_Some. naive_solver.
  - intros h tid' Hne Hl. destruct (seen_committed _ _ _ _ _ h HM) as [E1 E2].
    { rewrite (my_locks _ _ _ _ _ HM). congruence. }
    split; [done|]. split; [done|]. intros Hu id a. simpl.
    intros [Hm%(my_msgs _ _ _ _ _ HM)|[_ Hm]]%lookup_union_Some_raw; [|by apply (Hu id a)].
    apply (my_shared _ _ _ _ _ HM) in Hm as [_ ?]. congruence.
  - intros h _ Hn Hr. split; [apply map_lookup_filter_None; by left|].
    destruct (seen_committed _ _ _ _ _ h HM) as [E1 _]; [|by rewrite E1].
    rewrite (my_locks _ _ _ _ _ HM). congruence.
  - apply mine_idle; try done; simpl. intros h [_ ?]%map_lookup_filter_Some. done.
Qed.

(** A transaction that writes references of a blob it has locked. *)
Lemma mine_write_refs h m :
  h ∈ held L -> victim L = None ->
  (forall k o, m !! k = Some o -> k.1.1 = h \/ t_refs t !! k = Some o) ->
  (forall k, k.1.1 <> h -> m !! k = t_refs t !! k) ->
  mine exact tid (write_refs m t) (soil h L) s.
Proof.
  intros Hh Hv Hn Ho. pose proof HM as [M1 M0 M2 M3 M4 M5 M6 S1 S2 S3].
  assert (forall h', blobs_seen (write_refs m t) s !! h' = blobs_seen t s !! h') as Es by done.
  split; simpl; try done.
  - intros k o [->|?]%Hn; [done|by eapply M2].
  - intros h' b Hh'. rewrite Es. intros Hb. destruct (M4 h' b Hh' Hb) as [? Hr]. split; [done|].
    intros [Hne Hd]%not_elem_of_union. rewrite not_elem_of_singleton in Hne.
    rewrite (count_agree h' (refs_seen (write_refs m t) s) (refs_seen t s)); [by apply Hr|].
    intros k Hk. unfold refs_seen. rewrite !overlay_lookup. simpl. rewrite Ho; [done|congruence].
  - intros h' Hh'. rewrite Es. intros Hb. destruct (M5 h' Hh' Hb) as (? & _). congruence.
Qed.

Lemma goes_on_write_refs h m :
  h ∈ held L -> victim L = None ->
  (forall k o, m !! k = Some o -> k.1.1 = h \/ t_refs t !! k = Some o) ->
  (forall k, k.1.1 <> h -> m !! k = t_refs t !! k) ->
  goes_on s (write_refs m t) (soil h L).
Proof. intros. apply goes_on_local; try done; [apply HI|]. by apply mine_write_refs. Qed.

(** A transaction that inserts a message, and one that takes new messages back. *)
Lemma goes_on_insert_message a h b id :
  held L = ∅ -> victim L = None -> blobs_seen t s !! h = Some b -> foreign tid h s = false ->
  goes_on (set_seq (fun _ => id) s) (write_msgs (<[id := (a, h)]> (t_msgs t)) ({[h]} ∪ t_shares t) t) (share h L).
Proof.
  intros Hh Hv Eb Hf. apply goes_on_local; try done; [apply HI|].
  destruct (seen_committed _ _ _ _ _ h HM) as [E1 _]; [set_solver|].
  pose proof HM as [M1 M0 M2 M3 M4 M5 M6 S1 S2 S3]. split; simpl; try done.
  - by rewrite S1.
  - intros h' [->%elem_of_singleton|?]%elem_of_union; [|by apply S2]. split; [rewrite <- E1; by eexists|].
    destruct (not_foreign _ _ _ Hf) as [|Hl]; [done|]. apply M1 in Hl. set_solver.
  - intros id' a' h'. rewrite lookup_insert_Some. intros [[_ [= <- <-]]|[_ ?%S3]]; set_solver.
Qed.

Lemma goes_on_delete_messages (ids : list Z) :
  goes_on s (write_msgs (filter (fun im => im.1 ∉ ids) (t_msgs t)) (t_shares t) t) L.
Proof.
  apply goes_on_local; try done; [apply HI|]. pose proof HM as [M1 M0 M2 M3 M4 M5 M6 S1 S2 S3].
  split; simpl; try done. intros id a h [Hm _]%map_lookup_filter_Some. by eapply S3.
Qed.

Lemma insert_held h : h ∈ held L -> <[h := tid]> (locks s) = locks s.
Proof. intros Hh%(my_locks _ _ _ _ _ HM). by apply insert_id. Qed.

Lemma goes_on_sync h b :
  h ∈ held L -> victim L = None -> blobs_seen t s !! h = Some b ->
  goes_on (set_locks (insert h tid) s)
    (write_blob h (Some (synced (count h (refs_seen t s)) (t_start t) b)) t)
    (counted h L).
Proof.
  intros Hh Hv Eb. apply goes_on_local; try done; simpl; [by apply insert_held|apply HI|].
  pose proof HM as [M1 M0 M2 M3 M4 M5 M6 S1 S2 S3]. split; simpl; try done.
  - intros h' o. destruct (decide (h' = h)) as [->|?]; [done|]. rewrite lookup_insert_ne by done. apply M3.
  - intros h' b' Hh'. unfold blobs_seen at 1. rewrite overlay_lookup. simpl.
    destruct (decide (h' = h)) as [->|Hne].
    + rewrite lookup_insert_eq. intros [= <-]. destruct (M4 h b Hh Eb) as [? _]. split; [done|]. intros _.
      pose proof (count_nonneg h (refs_seen t s)).
      split; simpl; [by apply Z.le_refl|done|]. destruct (Z.ltb_spec 0 (count h (refs_seen t s))); split; try done; lia.
    + rewrite lookup_insert_ne by done. intros Eb'.
      destruct (M4 h' b' Hh') as [? Hr]; [unfold blobs_seen; by rewrite overlay_lookup|].
      split; [done|]. intros Hd. apply Hr. set_solver.
  - intros h' Hh'. unfold blobs_seen at 1. rewrite overlay_lookup. simpl.
    destruct (decide (h' = h)) as [->|Hne]; [by rewrite lookup_insert_eq|]. rewrite lookup_insert_ne by done.
    intros Eb'. destruct (M5 h' Hh') as (? & _); [unfold blobs_seen; by rewrite overlay_lookup|]. congruence.
  - intros h' ?. congruence.
Qed.

Lemma goes_on_delete h b :
  h ∈ held L -> victim L = None -> dirty L = ∅ -> blobs_seen t s !! h = Some b -> restricted h t s = false ->
  goes_on (set_locks (insert h tid) s) (write_blob h None t)
    (doom h L).
Proof.
  intros Hh Hv Hd Eb [Hc Hu]%orb_false_iff. apply negb_false_iff, Z.eqb_eq in Hc.
  apply goes_on_local; try done; simpl; [by apply insert_held|apply HI|].
  pose proof HM as [M1 M0 M2 M3 M4 M5 M6 S1 S2 S3]. split; simpl; try done.
  - intros h' o. destruct (decide (h' = h)) as [->|?]; [done|]. rewrite lookup_insert_ne by done. apply M3.
  - intros h' b' Hh'. unfold blobs_seen at 1. rewrite overlay_lookup. simpl.
    destruct (decide (h' = h)) as [->|Hne]; [by rewrite lookup_insert_eq|]. rewrite lookup_insert_ne by done.
    intros Eb'. apply M4; [done|]. unfold blobs_seen. by rewrite overlay_lookup.
  - intros h' Hh'. unfold blobs_seen at 1. rewrite overlay_lookup. simpl.
    destruct (decide (h' = h)) as [->|Hne].
    + intros _. split; [done|]. split; [done|]. intros id a Hm%elem_of_map_to_list.
      rewrite <- not_true_iff_false in Hu. apply Hu, existsb_exists. exists (id, (a, h)).
      split; [by apply list_elem_of_In|by apply String.eqb_eq].
    + rewrite lookup_insert_ne by done. intros Eb'.
      destruct (M5 h' Hh') as (? & _); [unfold blobs_seen; by rewrite overlay_lookup|]. congruence.
  - intros h' [= <-]. by rewrite lookup_insert_eq.
Qed.
End action.

Lemma exec_goes_on exact s tid {R : Set} (act : action R) t L s1 t1 r :
  inv exact s -> mine exact tid t L s -> pre sha256 act L ->
  exec pick tid act t s = Next s1 t1 r -> goes_on exact tid s1 t1 (post act r L).
Proof.
  intros HI HM [Hp1 Hp2].
  assert (forall L', held L' = held L -> dirty L' = dirty L -> victim L' = victim L -> sharing L' = sharing L ->
    goes_on exact tid s t L') as Hsame by (intros; by eapply goes_on_same).
  destruct act as [|h|h bytes|h|h|h size| | |h|h cutoff|ref|h hit|h|h|cutoff limit|cutoff limit|a h|ids]; simpl in *.
  - intros [= <- <- <-]. by apply Hsame.
  - intros [= <- <- <-]. by apply Hsame.
  - intros [= <- <- <-]. apply (goes_on_local exact s tid); try done; simpl; [|by eapply mine_tables].
    intros h' b'. destruct (decide (h' = h)) as [->|?].
    + rewrite lookup_insert_eq. by intros [= <-].
    + rewrite lookup_insert_ne by done. apply HI.
  - intros [= <- <- <-]. apply (goes_on_local exact s tid); try done. apply HI.
  - intros [= <- <- <-]. apply (goes_on_local exact s tid); try done; simpl; [|by eapply mine_tables].
    intros h' b' [_ ?]%lookup_delete_Some. by eapply HI.
  - destruct Hp1 as (Hh & Hl & Hg & Hs). case_match; [done|].
    destruct (blobs s !! h) as [b|] eqn:Eb; intros [= <- <- <-]; [by apply Hsame|].
    eapply goes_on_record; try done.
    destruct (victim L) as [h'|] eqn:E; [|done]. apply (my_victim _ _ _ _ _ HM), (my_blobs _ _ _ _ _ HM) in E.
    set_solver.
  - intros [= <- <- <-]. destruct Hp2 as [Hh Hsh].
    apply (goes_on_local exact s tid); try done; [apply HI|]. apply mine_idle; try done.
    intros h Hl%(my_locks _ _ _ _ _ HM). set_solver.
  - intros [= <- <- <-]. by eapply goes_on_commit.
  - destruct (blobs_seen t s !! h) as [b|] eqn:Eb; [|intros [= <- <- <-]; by apply Hsame].
    destruct (foreign tid h s || shared tid h s) eqn:Ef; [done|]. apply orb_false_iff in Ef as [Ef Es].
    intros [= <- <- <-]. destruct Hp2 as (Hlt & Hv & Hsh).
    eapply goes_on_acquire; try done. intros Hin. by apply Hlt, hash_lt_irrefl in Hin.
  - destruct (blobs_seen t s !! h) as [b|] eqn:Eb; [|intros [= <- <- <-]; by apply Hsame].
    destruct (collectable cutoff b); [|intros [= <- <- <-]; by apply Hsame].
    destruct (foreign tid h s || shared tid h s) eqn:Ef; [done|]. apply orb_false_iff in Ef as [Ef Es].
    intros [= <- <- <-]. destruct Hp2 as (Hl & Hv & Hsh).
    eapply goes_on_acquire; try done. set_solver.
  - destruct Hp2 as [Hh Hv]. destruct (foreign _ _ _ || _); [done|]. destruct (_ && _); [|done].
    destruct (refs_seen t s !! key_of ref); intros [= <- <- <-].
    + replace t with (write_refs (t_refs t) t) by (by destruct t). eapply goes_on_write_refs; eauto.
    + eapply goes_on_write_refs; eauto.
      * intros k o. destruct (decide (k = key_of ref)) as [->|]; [by left|]. rewrite lookup_insert_ne by done. by right.
      * intros k Hk. rewrite lookup_insert_ne; [done|]. by intros <-.
  - destruct Hp2 as [Hh Hv]. destruct (unsettled _ _ _); [done|]. intros [= <- <- <-].
    set (m := filter _ _). assert (forall k r, m !! k = Some r -> k.1.1 = h) as Hm.
    { intros k r' [Hk _]%map_lookup_filter_Some. rewrite refs_of_lookup in Hk. by case_decide. }
    assert (forall k, (deletions m ∪ t_refs t) !! k = match m !! k with Some _ => Some None | None => t_refs t !! k end) as Hu.
    { intros k. rewrite lookup_union. unfold deletions. rewrite lookup_fmap.
      destruct (m !! k), (t_refs t !! k); done. }
    destruct (Z.eqb_spec (Z.of_nat (size m)) 0) as [Hz|_].
    + assert (m = ∅) as Em by (apply map_size_empty_iff; lia).
      apply (goes_on_local exact s tid); try done; [apply HI|].
      replace (deletions m ∪ t_refs t) with (t_refs t); [by destruct t|].
      apply map_eq. intros k. by rewrite Hu, Em, lookup_empty.
    + eapply goes_on_write_refs; eauto.
      * intros k o. rewrite Hu. destruct (m !! k) eqn:Ek; [|by right]. left. by eapply Hm.
      * intros k Hk. rewrite Hu. destruct (m !! k) eqn:Ek; [|done]. by apply Hm in Ek.
  - destruct Hp2 as [Hh Hv]. destruct (foreign _ _ _); [done|].
    destruct (blobs_seen t s !! h) as [b|] eqn:Eb; intros [= <- <- <-]; [by eapply goes_on_sync|].
    destruct (my_gone _ _ _ _ _ HM h Hh Eb) as (? & _). congruence.
  - destruct Hp2 as (Hh & Hv & Hd). destruct (foreign _ _ _ || _); [done|].
    destruct (blobs_seen t s !! h) as [b|] eqn:Eb; [|intros [= <- <- <-]; by apply Hsame].
    destruct (negb _); [intros [= <- <- <-]; by apply Hsame|].
    destruct (restricted h t s) eqn:Er; [done|]. intros [= <- <- <-]. by eapply goes_on_delete.
  - intros [= <- <- <-]. by apply Hsame.
  - intros [= <- <- <-]. by apply Hsame.
  - destruct Hp2 as (Hh & Hlt & Hv). destruct (foreign tid h s) eqn:Ef; [done|].
    destruct (bool_decide (a ∈ accounts s)); [|done]. simpl. case_bool_decide as Hb; [|done]. destruct Hb as [b Eb].
    intros [= <- <- <-]. by eapply goes_on_insert_message.
  - intros [= <- <- <-]. by apply goes_on_delete_messages.
Qed.

(** ** Every step keeps it *)

Lemma inv_drop exact s tid : inv exact s -> inv exact (drop_proc tid s).
Proof.
  intros HI. split; try apply HI; simpl.
  - intros h tid' [Hl Hne]%map_lookup_filter_Some. simpl in Hne. rewrite lookup_delete_ne by done.
    by apply (inv_locks _ _ HI h).
  - intros tid' g' [Hne Hg']%lookup_delete_Some. destruct (inv_procs _ _ HI _ _ Hg') as (L' & Hs' & HM').
    exists L'. split; [done|]. eapply mine_stable; [exact HM'| |done|]; simpl.
    + intros h. rewrite map_lookup_filter_Some. naive_solver.
    + intros h _ Hn Hr. split; [|done]. apply map_lookup_filter_None. by left.
Qed.

Lemma inv_act exact s tid s' : inv exact s -> act_step pick tid s = Some s' -> inv exact s'.
Proof.
  intros HI. unfold act_step. destruct (procs s !! tid) as [g|] eqn:Hg; [|done].
  destruct (inv_procs _ _ HI _ _ Hg) as (L & Hs & HM).
  destruct g as [[u| |R act k] t]; simpl in *; [by intros [= <-]; apply inv_drop..|].
  destruct Hs as [Hp Hk]. destruct (exec pick tid act t s) as [| |s1 t1 r] eqn:He;
    [done|by intros [= <-]; apply inv_drop|].
  intros [= <-]. apply (exec_goes_on exact s tid act t L s1 t1 r HI HM Hp He), Hk.
Qed.

Definition deletes_account (l : label) : bool := match l with LDeleteAccount _ => true | _ => false end.

Lemma inv_delete_account exact s a :
  inv exact s ->
  inv false (set_accounts (fun acc => acc ∖ {[a]}) (set_messages (filter (fun im => im.2.1 <> a))
               (set_refs (filter (fun kr => rr_AccountID kr.2 <> a)) s))).
Proof.
  intros HI. set (s' := set_accounts _ _).
  assert (forall h, count h (refs s') <= count h (refs s)) as Hc.
  { intros h. apply count_subseteq, map_filter_subseteq. }
  assert (forall t h, count h (refs_seen t s') <= count h (refs_seen t s)) as Hc'.
  { intros t h. apply count_subseteq, overlay_mono, map_filter_subseteq. }
  split; try apply HI.
  - intros h b Hb. destruct (inv_rows _ _ HI h b Hb) as [? Hr]. split; [done|]. by eapply row_weaken.
  - intros h Hb. pose proof (inv_refs _ _ HI h Hb). pose proof (count_nonneg h (refs s')). specialize (Hc h). lia.
  - intros id a' h [Hm _]%map_lookup_filter_Some. by apply (inv_messages _ _ HI id a').
  - intros tid g Hg. destruct (inv_procs _ _ HI _ _ Hg) as (L & Hs & [M1 M0 M2 M3 M4 M5 M6 S1 S2 S3]).
    exists L. split; [done|]. split; try done.
    + intros h b Hh Hb. destruct (M4 h b Hh Hb) as [? Hr]. split; [done|]. intros Hd.
      eapply row_weaken; [by apply Hr|apply Hc'].
    + intros h Hh Hb. destruct (M5 h Hh Hb) as (? & Hz & Hu). split; [done|]. split.
      * pose proof (count_nonneg h (refs_seen (g_tx g) s')). specialize (Hc' (g_tx g) h). lia.
      * intros id a' [Hm _]%map_lookup_filter_Some. by apply (Hu id a').
Qed.

Lemma inv_spawn exact s tid o :
  inv exact s -> procs s !! tid = None ->
  inv exact (set_procs (insert tid (mkGo (code sha256 grace o) no_tx)) s).
Proof.
  intros HI Hn. apply (inv_local exact s _ tid (mkGo (code sha256 grace o) no_tx) idle);
    try done; [apply HI|apply safe_code|].
  apply mine_idle; try done. intros h Hl. destruct (inv_locks _ _ HI _ _ Hl). congruence.
Qed.

Lemma inv_delete_message exact s id : inv exact s -> inv exact (set_messages (base.delete id) s).
Proof.
  intros HI. split; try apply HI.
  - intros id' a h. simpl. intros [_ Hm]%lookup_delete_Some. by eapply HI.
  - intros tid g Hg. destruct (inv_procs _ _ HI _ _ Hg) as (L & Hs & HM). exists L. split; [done|].
    eapply mine_stable; [exact HM|done| |done]. intros h' Hl'. split; [done|]. split; [done|].
    intros Hu id' a. simpl. intros [_ Hm]%lookup_delete_Some. by apply (Hu id' a).
Qed.

Lemma inv_frame exact s s' :
  inv exact s -> (forall h bytes, files s' !! h = Some bytes -> sha256 bytes = h) -> blobs s' = blobs s -> refs s' = refs s ->
  messages s' = messages s -> locks s' = locks s -> procs s' = procs s -> inv exact s'.
Proof.
  intros [I1 I2 I3 I4 I5 I6] Hf Hb Hr Hm Hl Hp. split; rewrite ?Hb, ?Hr, ?Hm, ?Hl, ?Hp; try done.
  intros tid g Hg. destruct (I6 _ _ Hg) as (L & Hs & HM). exists L. split; [done|]. by eapply mine_tables.
Qed.

Lemma inv_label exact s l s' :
  inv exact s -> step pick sha256 grace l s = Some s' -> inv (exact && negb (deletes_account l)) s'.
Proof.
  intros HI. destruct l as [tid o|tid|tid| |lost|h|d|a|a|id]; simpl; rewrite ?andb_true_r.
  - case_bool_decide; [|done]. intros [= <-]. by apply inv_spawn.
  - by apply inv_act.
  - case_bool_decide; [|done]. intros [= <-]. by apply inv_drop.
  - intros [= <-]. by split; try apply HI.
  - intros [= <-]. split; try apply HI; try done.
    intros h bytes [Hb _]%map_lookup_filter_Some. by apply HI.
  - intros [= <-]. by apply (inv_frame exact s); try apply HI.
  - case_match; [|done]. intros [= <-]. by apply (inv_frame exact s); try apply HI.
  - intros [= <-]. by apply (inv_frame exact s); try apply HI.
  - rewrite andb_false_r. case_match; [|done]. intros [= <-]. by eapply inv_delete_account.
  - intros [= <-]. by apply inv_delete_message.
Qed.

Lemma blob_inv_empty exact : inv exact empty_store.
Proof. split; try done. Qed.

Lemma inv_run exact s ls ss s' :
  inv exact s -> run pick sha256 grace s ls ss s' -> inv (exact && forallb (fun l => negb (deletes_account l)) ls) s'.
Proof.
  intros HI Hr. revert exact HI. induction Hr as [s|s l s1 ls ss s' Hs Hr IH]; intros exact HI; simpl.
  - by rewrite andb_true_r.
  - rewrite andb_assoc. apply IH. by eapply inv_label.
Qed.
End invariant.
