(* ===== verification/BlobKept.v ===== *)
(** What the blob store keeps (blob.go, pins.go): the bytes behind every row, and progress
    under its row locks; the theorems on reference counts, bytes and deadlocks, with concrete
    interleavings. *)

From S2P Require Import Prelude Blob BlobSafety.
#[local] Open Scope Z_scope.

(** ** Bytes *)

(** No account is deleted in the run. *)
Definition keeps_accounts (ls : list label) : bool := forallb (fun l => negb (deletes_account l)) ls.

(** The goroutine can take its next action. *)
Definition enabled (pick : list Hash -> list Hash) (s : State) (tid : nat) : Prop :=
  exists s', act_step pick tid s = Some s'.

(** A Put that has the bytes in place and not yet a row, and one whose next action records
    the row. *)
Definition recording (h : Hash) (p : proc unit) : Prop :=
  match p with PAct (ASyncDir h') _ | PAct (ARecord h' _) _ => h' = h | _ => False end.
Definition inserting (h : Hash) (p : proc unit) : Prop :=
  match p with PAct (ARecord h' _) _ => h' = h | _ => False end.

(** A Put of these bytes has looked for its file and not yet recorded its row. *)
Definition putting (h : Hash) (p : proc unit) : Prop :=
  match p with PAct (ARename h' _) _ | PAct (ASyncDir h') _ | PAct (ARecord h' _) _ => h' = h | _ => False end.

(** A collection has deleted the row of the blob and not yet removed its file. *)
Definition removing (h : Hash) (p : proc unit) : Prop :=
  match p with PAct (ARemove h') _ => h' = h | _ => False end.

(** The moment at which a Put and a collection of the same bytes overlap. *)
Definition overlap (s : State) : Prop :=
  exists h t1 g1 t2 g2, procs s !! t1 = Some g1 /\ procs s !! t2 = Some g2 /\
    putting h (g_code g1) /\ removing h (g_code g2).

(** A Put is about to record bytes whose name is not on disk: it found the file of another
    Put that has not synced the directory, or has failed to. *)
Definition hasty (s : State) : Prop :=
  exists h tid g, procs s !! tid = Some g /\ inserting h (g_code g) /\ h ∈ unsynced s /\ blobs s !! h = None.

Definition power_fails (l : label) : bool := match l with LPowerLoss _ => true | _ => false end.

(** The machine does not fail in the run. *)
Definition powered (ls : list label) : bool := forallb (fun l => negb (power_fails l)) ls.

Section bytes.
Context (pick : list Hash -> list Hash) (sha256 : string -> string) (grace : Z).

(** Where the bytes are; [durable] says that the name of a recorded blob is on disk. *)
Record filed (durable : bool) (s : State) : Prop := {
  filed_rows : forall h, is_Some (blobs s !! h) -> is_Some (files s !! h);
  filed_recording : forall tid g h, procs s !! tid = Some g -> recording h (g_code g) -> is_Some (files s !! h);
  filed_removing : forall tid g h, procs s !! tid = Some g -> removing h (g_code g) -> blobs s !! h = None;
  filed_durable : durable = true -> forall h, is_Some (blobs s !! h) -> h ∉ unsynced s
}.

Lemma safe_recording p L h : safe sha256 p L (fun (_ : unit) _ => True) -> recording h p -> have L = Some h.
Proof.
  destruct p as [| |R act k]; cbn; [done|done|]. destruct act; cbn; try done; by intros [[[Hh _] _] _] <-.
Qed.

Lemma safe_removing p L h : safe sha256 p L (fun (_ : unit) _ => True) -> removing h p -> gone L = Some h.
Proof.
  destruct p as [| |R act k]; cbn; [done|done|]. destruct act; cbn; try done. by intros [[[Hh _] _] _] <-.
Qed.

(** A step of goroutine [tid] that keeps the files of rows and of recorders. *)
Lemma filed_step durable s s' tid g' :
  filed durable s -> procs s' = <[tid := g']> (procs s) ->
  (forall h, is_Some (blobs s' !! h) -> is_Some (files s' !! h)) ->
  (forall t2 g h, t2 <> tid -> procs s !! t2 = Some g -> recording h (g_code g) ->
     is_Some (files s !! h) -> is_Some (files s' !! h)) ->
  (forall t2 g h, t2 <> tid -> procs s !! t2 = Some g -> removing h (g_code g) ->
     blobs s !! h = None -> blobs s' !! h = None) ->
  (forall h, recording h (g_code g') -> is_Some (files s' !! h)) ->
  (forall h, removing h (g_code g') -> blobs s' !! h = None) ->
  (durable = true -> forall h, is_Some (blobs s' !! h) -> h ∉ unsynced s') ->
  filed durable s'.
Proof.
  intros [F1 F2 F3 F4] Hp H1 H2 H3 H4 H5 H6. split; [done| | |done]; intros t2 g h; rewrite Hp;
    (destruct (decide (t2 = tid)) as [->|Hne];
      [rewrite lookup_insert_eq; intros [= <-]|rewrite lookup_insert_ne by done]); eauto.
Qed.

Lemma filed_act exact durable s tid s' :
  inv sha256 exact s -> filed durable s -> ~ overlap s -> (durable = true -> ~ hasty s) ->
  act_step pick tid s = Some s' -> filed durable s'.
Proof.
  intros HI HF Hno Hdur. unfold act_step. destruct (procs s !! tid) as [g|] eqn:Hg; [|done].
  destruct (inv_procs _ _ _ HI _ _ Hg) as (L & Hs & HM).
  assert (filed durable (drop_proc tid s)) as Hdrop.
  { split; [apply HF| | |apply HF]; intros t2 g2 h; simpl; intros [_ Hg2]%lookup_delete_Some;
      [by apply (filed_recording _ _ HF t2 g2)|by apply (filed_removing _ _ HF t2 g2)]. }
  destruct g as [[u| |R act k] t]; cbn [g_code g_tx] in *; [by intros [= <-]..|].
  destruct Hs as [[Hp1 Hp2] Hk]. destruct (exec pick tid act t s) as [| |s1 t1 r] eqn:He;
    [done|by intros [= <-]|]. intros [= <-].
  assert (forall h, recording h (k r) -> have (post act r L) = Some h) as Hrec by (intros h; by apply safe_recording).
  assert (forall h, removing h (k r) -> gone (post act r L) = Some h) as Hrem by (intros h; by apply safe_removing).
  assert (forall h t2 g2, procs s !! t2 = Some g2 -> recording h (g_code g2) -> putting h (g_code g2)) as Hput.
  { intros h t2 [[]]; simpl; try done. by destruct act0. }
  assert (procs s1 = procs s -> files s1 = files s -> blobs s1 = blobs s -> unsynced s1 ⊆ unsynced s ->
    (forall h, have (post act r L) = Some h -> is_Some (files s !! h)) -> gone (post act r L) = None ->
    filed durable (set_procs (insert tid (mkGo (k r) t1)) s1)) as Hplain.
  { intros Ep Ef Eb Eu Hh Hgo.
    apply (filed_step durable s _ tid (mkGo (k r) t1)); simpl; rewrite ?Ep, ?Ef, ?Eb; try done.
    - apply HF.
    - intros h Hr. by apply Hh, Hrec.
    - intros h Hr%Hrem. congruence.
    - intros Hd h Hb%(filed_durable _ _ HF Hd). set_solver. }
  destruct act as [|h|h bytes|h|h|h size| | |h|h cutoff|ref|h hit|h|h|cutoff limit|cutoff limit|a h|ids]; simpl in *.
  - destruct Hp1. simplify_eq. apply Hplain; congruence.
  - destruct Hp1. simplify_eq. apply Hplain; try done. intros h'. case_bool_decide; [by intros [= <-]|done].
  - destruct Hp1 as [_ Hgn]. injection He as <- <- <-.
    apply (filed_step durable s _ tid (mkGo (k ()) t)); simpl; try done.
    + intros h' Hb%(filed_rows _ _ HF). rewrite lookup_insert_is_Some. destruct (decide (h = h')); auto.
    + intros t2 g2 h' _ _ _ Hf. rewrite lookup_insert_is_Some. destruct (decide (h = h')); auto.
    + intros h' [= <-]%Hrec. by rewrite lookup_insert_eq.
    + intros h' Hr%Hrem. congruence.
    + intros Hd h' Hb. pose proof (filed_rows _ _ HF _ Hb) as Hf. pose proof (filed_durable _ _ HF Hd _ Hb).
      case_bool_decide as Hn; [done|]. intros [->%elem_of_singleton|?]%elem_of_union; done.
  - destruct Hp1 as [Hh Hgn]. injection He as <- <- <-.
    apply Hplain; simpl; try congruence; [set_solver|]. intros h' Eh'. rewrite Hh in Eh'. injection Eh' as <-.
    by apply (filed_recording _ _ HF tid _ h Hg).
  - destruct Hp1 as [Hgn Hh]. simplify_eq.
    assert (blobs s !! h = None) as Hnone by (by apply (filed_removing _ _ HF tid _ h Hg)).
    apply (filed_step durable s _ tid (mkGo (k ()) t1)); simpl; try done.
    + intros h' Hb. rewrite lookup_delete_ne; [by apply HF|]. intros <-. rewrite Hnone in Hb. by destruct Hb.
    + intros t2 g2 h' _ Hg2 Hr Hf. rewrite lookup_delete_ne; [done|]. intros E. subst h'. apply Hno.
      exists h, t2, g2, tid. eexists. split; [done|]. split; [exact Hg|]. split; [by eapply Hput|done].
    + intros h' Hr%Hrec. congruence.
    + intros h' Hr%Hrem. congruence.
    + intros Hd h' Hb%(filed_durable _ _ HF Hd). set_solver.
  - destruct Hp1 as (Hh & Hl & Hgn & Hsz). case_match; [done|].
    assert (is_Some (files s !! h)) as Hf by (by apply (filed_recording _ _ HF tid _ h Hg)).
    destruct (blobs s !! h) as [b|] eqn:Eb; simplify_eq; [by apply Hplain|].
    apply (filed_step durable s _ tid (mkGo (k ()) t1)); simpl; try done.
    + intros h'. rewrite lookup_insert_is_Some. intros [<-|[_ Hb]]; [done|by apply HF].
    + intros t2 g2 h' _ Hg2 Hr Hb. rewrite lookup_insert_ne; [done|]. intros E. subst h'. apply Hno.
      exists h, tid. eexists. exists t2, g2. split; [exact Hg|done].
    + intros h' Hr%Hrec. congruence.
    + intros h' Hr%Hrem. congruence.
    + intros Hd h'. rewrite lookup_insert_is_Some. intros [<-|[_ Hb]]; [|by apply (filed_durable _ _ HF Hd)].
      intros Hu. apply (Hdur Hd). exists h, tid. eexists. split; [exact Hg|done].
  - destruct Hp1. simplify_eq. by apply Hplain.
  - destruct Hp1. simplify_eq. change (overlay (t_blobs t)) with (fun m => overlay (t_blobs t) m) in *.
    apply (filed_step durable s _ tid (mkGo (k ()) no_tx)); simpl; try done.
    + intros h' Hb. apply (filed_rows _ _ HF). rewrite overlay_lookup in Hb.
      destruct (t_blobs t !! h') as [o|] eqn:E; [|done].
      apply (my_blobs _ _ _ _ _ _ HM) in E. by apply (my_there _ _ _ _ _ _ HM).
    + intros t2 g2 h' _ Hg2 Hr Hb. rewrite overlay_lookup. destruct (t_blobs t !! h') as [o|] eqn:E; [|done].
      apply (my_blobs _ _ _ _ _ _ HM), (my_there _ _ _ _ _ _ HM) in E. rewrite Hb in E. by destruct E.
    + by intros h' Hr%Hrec.
    + intros h' Hr%Hrem. rewrite overlay_lookup. by rewrite (my_victim _ _ _ _ _ _ HM h' Hr).
    + intros Hd h' Hb. apply (filed_durable _ _ HF Hd). rewrite overlay_lookup in Hb.
      destruct (t_blobs t !! h') as [o|] eqn:E; [|done].
      apply (my_blobs _ _ _ _ _ _ HM) in E. by apply (my_there _ _ _ _ _ _ HM).
  - destruct Hp1. repeat case_match; simplify_eq; apply Hplain; simpl; congruence.
  - destruct Hp1. repeat case_match; simplify_eq; apply Hplain; simpl; congruence.
  - destruct Hp1. repeat case_match; simplify_eq; apply Hplain; simpl; congruence.
  - destruct Hp1. repeat case_match; simplify_eq; apply Hplain; simpl; congruence.
  - destruct Hp1. repeat case_match; simplify_eq; apply Hplain; simpl; congruence.
  - destruct Hp1. repeat case_match; simplify_eq; apply Hplain; simpl; congruence.
  - destruct Hp1. simplify_eq. apply Hplain; congruence.
  - destruct Hp1. simplify_eq. apply Hplain; congruence.
  - destruct Hp1. repeat case_match; simplify_eq; apply Hplain; simpl; congruence.
  - destruct Hp1. simplify_eq. apply Hplain; congruence.
Qed.

Lemma filed_label exact durable s l s' :
  inv sha256 exact s -> filed durable s -> ~ overlap s -> (durable = true -> ~ hasty s) ->
  durable || negb (power_fails l) = true -> step pick sha256 grace l s = Some s' -> filed durable s'.
Proof.
  intros HI HF Hno Hdur Hp. pose proof HF as [F1 F2 F3 F4].
  destruct l as [tid o|tid|tid| |lost|h|d|a|a|id]; simpl.
  - case_bool_decide as Hn; [|done]. intros [= <-].
    apply (filed_step durable s _ tid (mkGo (code sha256 grace o) no_tx)); simpl; try done.
    + by intros h Hr%(safe_recording _ _ _ (safe_code sha256 grace o)).
    + by intros h Hr%(safe_removing _ _ _ (safe_code sha256 grace o)).
  - by apply filed_act with (exact := exact).
  - case_bool_decide; [|done]. intros [= <-]. split; [done| | |done]; intros t2 g2 h; simpl;
      intros [_ Hg2]%lookup_delete_Some; [by apply (F2 t2 g2)|by apply (F3 t2 g2)].
  - intros [= <-]. by split.
  - rewrite orb_false_r in Hp. intros [= <-]. split; try done; simpl.
    intros h Hb. destruct (F1 h Hb) as [bytes Hf]. exists bytes. apply map_lookup_filter_Some. split; [done|].
    simpl. pose proof (F4 Hp h Hb). set_solver.
  - intros [= <-]. split; try done. simpl. intros Hd h' Hb%(F4 Hd). set_solver.
  - case_match; [|done]. by intros [= <-].
  - by intros [= <-].
  - case_match; [|done]. by intros [= <-].
  - by intros [= <-].
Qed.

Lemma filed_run exact durable s ls ss s' :
  inv sha256 exact s -> filed durable s -> run pick sha256 grace s ls ss s' -> Forall (fun s => ~ overlap s) ss ->
  (durable = true -> Forall (fun s => ~ hasty s) ss) -> durable || powered ls = true -> filed durable s'.
Proof.
  intros HI HF Hr. revert exact HI HF. induction Hr as [s|s l s1 ls ss s' Hs Hr IH]; intros exact HI HF; [done|].
  intros [Hno Hss]%Forall_cons Hd Hp.
  assert (durable || negb (power_fails l) = true /\ durable || powered ls = true) as [Hp1 Hp2].
  { destruct durable; [done|]. by apply andb_prop in Hp. }
  eapply IH; [by eapply inv_label| |done| |done].
  - eapply filed_label; try done. intros E. by apply Hd, Forall_cons in E as [? _].
  - intros E. by apply Hd, Forall_cons in E as [_ ?].
Qed.

(** ** Waiting *)

(** The goroutine has a lock on the row of the blob, of either kind. *)
Definition holds (s : State) (tid : nat) (h : Hash) : Prop :=
  locks s !! h = Some tid \/ exists g, procs s !! tid = Some g /\ h ∈ t_shares (g_tx g).

(** A goroutine that cannot step waits for a lock above every lock it holds. *)
Lemma blocked_waits exact s tid g :
  inv sha256 exact s -> procs s !! tid = Some g -> act_step pick tid s = None ->
  exists h t', holds s t' h /\ forall h', holds s tid h' -> hash_lt h' h.
Proof.
  intros HI Hg. unfold act_step. rewrite Hg.
  destruct (inv_procs _ _ _ HI _ _ Hg) as (L & Hs & HM).
  assert (forall h, foreign tid h s = true -> exists t', locks s !! h = Some t' /\ t' <> tid) as Hfor.
  { intros h. unfold foreign. destruct (locks s !! h) as [t'|] eqn:E; [|done].
    intros Hn%negb_true_iff. apply Nat.eqb_neq in Hn. eauto. }
  assert (forall h, h ∈ held L -> foreign tid h s = false) as Hown.
  { intros h Hh. apply not_true_iff_false. intros (t' & Hl & Hne)%Hfor.
    apply (my_locks _ _ _ _ _ _ HM) in Hh. congruence. }
  assert (forall h, h ∈ held L -> unsettled tid h s = false) as Hset.
  { intros h Hh. apply not_true_iff_false. intros ([t' g'] & Hin & [Hne Hk]%andb_true_iff)%existsb_exists.
    apply list_elem_of_In, elem_of_map_to_list in Hin. apply negb_true_iff, Nat.eqb_neq in Hne. simpl in *.
    apply existsb_exists in Hk as ([k o] & Hk & Ek%String.eqb_eq). simpl in *.
    apply list_elem_of_In, elem_of_map_to_list in Hk. destruct (inv_procs _ _ _ HI _ _ Hin) as (L' & _ & HM').
    apply (my_refs _ _ _ _ _ _ HM'), (my_locks _ _ _ _ _ _ HM') in Hk. rewrite Ek in Hk.
    apply (my_locks _ _ _ _ _ _ HM) in Hh. congruence. }
  assert (forall h, foreign tid h s || shared tid h s = true -> exists t', holds s t' h) as Hby.
  { intros h [Hf|Hs']%orb_true_iff; [destruct (Hfor h Hf) as (t' & Hl & _); exists t'; by left|].
    apply shared_elim in Hs' as (t' & g' & Hg' & _ & Hh). exists t'. right. by exists g'. }
  assert (forall h, h ∈ held L -> shared tid h s = false) as Hmine.
  { intros h Hh. apply not_true_iff_false. intros (t' & g' & Hg' & _ & Hs')%shared_elim.
    destruct (inv_procs _ _ _ HI _ _ Hg') as (L' & _ & HM'). apply (my_shared _ _ _ _ _ _ HM') in Hs' as [_ Hn].
    apply (my_locks _ _ _ _ _ _ HM) in Hh. congruence. }
  assert (forall h', holds s tid h' -> h' ∈ held L \/ h' ∈ sharing L) as Hhold.
  { intros h' [Hl|(g' & Hg' & Hh)]; [left; by apply (my_locks _ _ _ _ _ _ HM)|right].
    rewrite Hg in Hg'. injection Hg' as <-. by rewrite <- (my_shares _ _ _ _ _ _ HM). }
  destruct g as [[u| |R act k] t]; cbn [g_code g_tx] in *; [done|done|]. destruct Hs as [[Hp1 Hp2] _].
  destruct (exec pick tid act t s) eqn:He; [|done|done]. intros _. revert He.
  destruct act as [|h|h bytes|h|h|h size| | |h|h cutoff|ref|h hit|h|h|cutoff limit|cutoff limit|a h|ids]; simpl in *; try done.
  - destruct Hp1 as (_ & Hl & _). destruct (vanishing tid h s) eqn:Ev; [|by destruct (blobs s !! h)]. intros _.
    apply existsb_exists in Ev as ([t' g'] & Hin & [Hne Hv]%andb_true_iff).
    apply list_elem_of_In, elem_of_map_to_list in Hin. simpl in *.
    destruct (inv_procs _ _ _ HI _ _ Hin) as (L' & _ & HM').
    destruct (t_blobs (g_tx g') !! h) as [o|] eqn:E; [|done].
    apply (my_blobs _ _ _ _ _ _ HM'), (my_locks _ _ _ _ _ _ HM') in E. exists h, t'. split; [by left|].
    intros h' [|]%Hhold; set_solver.
  - destruct (blobs_seen t s !! h); [|done]. destruct (_ || _) eqn:Ef; [|done]. intros _.
    destruct (Hby h Ef) as [t' Ht']. destruct Hp2 as (Hlt & _ & Hn). exists h, t'. split; [done|].
    intros h' [|]%Hhold; [by apply Hlt|set_solver].
  - destruct (blobs_seen t s !! h); [|done]. destruct (collectable _ _); [|done].
    destruct (foreign tid h s || _) eqn:Ef; [|done]. intros _.
    destruct (Hby h Ef) as [t' Ht']. destruct Hp2 as (Hl & _ & Hn). exists h, t'. split; [done|].
    intros h' [|]%Hhold; set_solver.
  - destruct Hp2 as [Hh _]. rewrite (Hown _ Hh), (Hset _ Hh). simpl. destruct (_ && _); [|done].
    by destruct (refs_seen t s !! key_of ref).
  - destruct Hp2 as [Hh _]. by rewrite (Hset _ Hh).
  - destruct Hp2 as [Hh _]. rewrite (Hown _ Hh). by destruct (blobs_seen t s !! h).
  - destruct Hp2 as [Hh _]. rewrite (Hown _ Hh), (Hmine _ Hh). simpl. destruct (blobs_seen t s !! h); [|done].
    destruct (negb _); [done|]. by destruct (restricted h t s).
  - destruct Hp2 as (Hh & Hlt & _). destruct (foreign tid h s) eqn:Ef; [|by destruct (_ && _)]. intros _.
    destruct (Hfor h Ef) as (t' & Hl & Hne). exists h, t'. split; [by left|].
    intros h' [|Hs']%Hhold; [set_solver|]. destruct (proj1 (hash_le_lt _ _) (Hlt h' Hs')) as [->|]; [|done].
    rewrite <- (my_shares _ _ _ _ _ _ HM) in Hs'. apply (my_shared _ _ _ _ _ _ HM) in Hs' as [_ ?]. congruence.
Qed.

(** The rows somebody has locked. *)
Definition locked_rows (s : State) : gset Hash :=
  dom (locks s) ∪ ⋃ ((fun i : nat * goroutine => t_shares (g_tx i.2)) <$> map_to_list (procs s)).

Lemma locked_rows_spec s h : h ∈ locked_rows s <-> exists tid, holds s tid h.
Proof.
  unfold locked_rows, holds. rewrite elem_of_union, elem_of_dom, elem_of_union_list. split.
  - intros [[tid Hl]|(X & ([tid g] & -> & Hg%elem_of_map_to_list)%list_elem_of_fmap & Hh)]; exists tid; [by left|].
    right. by exists g.
  - intros (tid & [Hl|(g & Hg & Hh)]); [left; by exists tid|right]. exists (t_shares (g_tx g)). split; [|done].
    apply list_elem_of_fmap. exists (tid, g). split; [done|]. by apply elem_of_map_to_list.
Qed.

Lemma holder_is_there exact s tid h : inv sha256 exact s -> holds s tid h -> is_Some (procs s !! tid).
Proof. intros HI [Hl|(g & Hg & _)]; [by eapply HI|by exists g]. Qed.
End bytes.

(** ** The theorems *)

Section theorems.
Context (pick : list Hash -> list Hash) (sha256 : string -> string) (grace : Z).

(** C18: Reference counts are right in every interleaving of writers, reference changes, pin
    expiry and garbage collection, whatever fails and whenever the process crashes. The
    count of a blob is never below the number of its committed references, and equal to it
    as long as no account is deleted; a blob counts as garbage exactly from the moment its
    count is zero; no reference and no message points to a blob without a row; a file
    holds bytes whose digest is its name. *)
Theorem blob_counts ls ss s :
  run pick sha256 grace empty_store ls ss s ->
  (forall h b, blobs s !! h = Some b ->
     count h (refs s) <= br_Refcount b /\
     (keeps_accounts ls = true -> br_Refcount b = count h (refs s)) /\
     (br_ZeroSince b = None <-> 0 < br_Refcount b)) /\
  (forall k r, refs s !! k = Some r -> is_Some (blobs s !! k.1.1)) /\
  (forall id a h, messages s !! id = Some (a, h) -> is_Some (blobs s !! h)) /\
  (forall h bytes, files s !! h = Some bytes -> sha256 bytes = h).
Proof.
  intros Hr. pose proof (inv_run pick sha256 grace true _ _ _ _ (blob_inv_empty sha256 true) Hr) as HI.
  split; [|split; [|split]].
  - intros h b Hb. destruct (inv_rows _ _ _ HI h b Hb) as [_ [Hle Hex Hz]]. split; [done|]. split; [|done].
    intros Hn. symmetry. by apply Hex.
  - intros k r Hk. destruct (blobs s !! k.1.1) eqn:Eb; [done|].
    apply (inv_refs _ _ _ HI) in Eb. rewrite count_zero in Eb. by rewrite (Eb k eq_refl) in Hk.
  - apply HI.
  - apply HI.
Qed.


(** C20: The row locks on blobs never deadlock, whether taken FOR UPDATE by the blob store or
    FOR KEY SHARE by the foreign key of the messages a batch inserts: while a goroutine is
    under way, one of them can take its next action. *)
Theorem blob_no_deadlock ls ss s :
  run pick sha256 grace empty_store ls ss s -> procs s <> ∅ ->
  exists tid, enabled pick s tid.
Proof.
  intros Hr Hne. pose proof (inv_run pick sha256 grace true _ _ _ _ (blob_inv_empty sha256 true) Hr) as HI.
  assert (forall tid g, procs s !! tid = Some g ->
    (exists s', act_step pick tid s = Some s') \/
    (exists h t', holds s t' h /\ forall h', holds s tid h' -> hash_lt h' h)) as Hw.
  { intros tid g Hg. destruct (act_step pick tid s) eqn:E; [by left; eexists|right].
    by eapply blocked_waits. }
  destruct (decide (locked_rows s = ∅)) as [He|He].
  - apply map_choose in Hne as (tid & g & Hg).
    destruct (Hw tid g Hg) as [[s' Hs]|(h & t' & Hl & _)]; [by exists tid, s'|].
    assert (h ∈ locked_rows s) as Hin by (apply locked_rows_spec; by exists t'). rewrite He in Hin. set_solver.
  - destruct (greatest_hash (locked_rows s)) as (h & [tid Hl]%locked_rows_spec & Hmax).
    { by rewrite leibniz_equiv_iff. }
    destruct (holder_is_there _ _ _ _ _ HI Hl) as [g Hg].
    destruct (Hw tid g Hg) as [[s' Hs]|(h2 & t' & Hl2 & Hlt)]; [by exists tid, s'|].
    exfalso. apply (Hmax h2); [apply locked_rows_spec; by exists t'|by apply Hlt].
Qed.
End theorems.

(** ** Concrete runs *)

Section examples.
Let step := step id id 10.

Fixpoint play (ls : list label) (s : State) : option (list State * State) :=
  match ls with
  | [] => Some ([s], s)
  | l :: ls =>
      match step l s with
      | Some s' => match play ls s' with Some (ss, t) => Some (s :: ss, t) | None => None end
      | None => None
      end
  end.
End examples.

Lemma play_run ls s ss t : play ls s = Some (ss, t) -> run id id 10 s ls ss t.
Proof.
  revert s ss. induction ls as [|l ls IH]; intros s ss; simpl; [intros [= <- <-]; constructor|].
  destruct (step _ _ _ l s) as [s'|] eqn:Hs; [|done]. destruct (play ls s') as [[ss' t']|] eqn:Hp; [|done].
  intros [= <- <-]. econstructor; [exact Hs|by apply IH].
Qed.

Definition acts (tid n : nat) : list label := repeat (LAct tid) n.
Definition new (h : Hash) : batch_row := mkRow h false.
Definition bill : Ref := {| Ref_Hash := "bill"; Ref_AccountID := 1; Ref_Kind := OwnerMessage; Ref_OwnerID := 1 |}.

(** Two goroutines store the same bytes at once; one stores a message with them and the other
    adds the reference too. *)
Definition two_writers : list label :=
  [LAddAccount 1; LSpawn 0 (OpPut "bill"); LSpawn 1 (OpPut "bill")] ++
  [LAct 0; LAct 1; LAct 0; LAct 1; LAct 0; LAct 1; LAct 0; LAct 1] ++
  [LSpawn 2 (OpCommitBatch 1 [new "bill"])] ++ acts 2 3 ++ [LSpawn 3 (OpAddRef bill)] ++
  acts 2 2 ++ [LAct 3] ++ acts 2 4 ++ acts 3 5.

Definition ends (ls : list label) (ok : State -> bool) : bool :=
  match play ls empty_store with Some (_, s) => ok s | None => false end.
Definition refcount_of (h : Hash) (s : State) : option Z := br_Refcount <$> blobs s !! h.

Example two_writers_count_once :
  ends two_writers (fun s => bool_decide (refcount_of "bill" s = Some 1) &&
                             bool_decide (count "bill" (refs s) = 1)) = true.
Proof. vm_compute. reflexivity. Qed.

Definition put_of (p : proc unit) : option Hash :=
  match p with PAct (ARename h _) _ | PAct (ASyncDir h) _ | PAct (ARecord h _) _ => Some h | _ => None end.
Definition remove_of (p : proc unit) : option Hash :=
  match p with PAct (ARemove h) _ => Some h | _ => None end.

Definition overlaps (s : State) : bool :=
  existsb (fun i : nat * goroutine => existsb (fun j : nat * goroutine =>
    match put_of (g_code i.2), remove_of (g_code j.2) with Some h, Some h' => String.eqb h h' | _, _ => false end)
    (map_to_list (procs s))) (map_to_list (procs s)).

Lemma not_overlaps s : overlaps s = false -> ~ overlap s.
Proof.
  rewrite <- not_true_iff_false. intros Hn (h & t1 & g1 & t2 & g2 & H1 & H2 & Hp & Hr). apply Hn.
  apply existsb_exists. exists (t1, g1). split; [by apply list_elem_of_In, elem_of_map_to_list|].
  apply existsb_exists. exists (t2, g2). split; [by apply list_elem_of_In, elem_of_map_to_list|]. simpl.
  assert (put_of (g_code g1) = Some h) as ->.
  { destruct (g_code g1) as [| |R act k]; try done. destruct act; simpl in *; try done; by subst. }
  assert (remove_of (g_code g2) = Some h) as ->.
  { destruct (g_code g2) as [| |R act k]; try done. destruct act; simpl in *; try done; by subst. }
  by apply String.eqb_eq.
Qed.

Definition hastes (s : State) : bool :=
  existsb (fun i : nat * goroutine =>
    match g_code i.2 with PAct (ARecord h _) _ => bool_decide (h ∈ unsynced s /\ blobs s !! h = None) | _ => false end)
    (map_to_list (procs s)).

Lemma not_hastes s : hastes s = false -> ~ hasty s.
Proof.
  rewrite <- not_true_iff_false. intros Hn (h & tid & g & Hg & Hi & Hu). apply Hn.
  apply existsb_exists. exists (tid, g). split; [by apply list_elem_of_In, elem_of_map_to_list|]. simpl.
  destruct (g_code g) as [| |R act k]; try done. destruct act; simpl in *; try done. subst. by apply bool_decide_eq_true.
Qed.

(** Every state of the run passes the test. *)
Definition throughout (ok : State -> bool) (ls : list label) : bool :=
  match play ls empty_store with Some (ss, _) => forallb ok ss | None => false end.
Definition calm : list label -> bool := throughout (fun s => negb (overlaps s)).
Definition careful : list label -> bool := throughout (fun s => negb (hastes s)).

Lemma throughout_spec bad (P : State -> Prop) ls ss s :
  (forall s, bad s = false -> P s) -> throughout (fun s => negb (bad s)) ls = true ->
  play ls empty_store = Some (ss, s) -> Forall P ss.
Proof.
  intros HP. unfold throughout. intros Hok E. rewrite E in Hok. apply Forall_forall. intros s' Hs'. apply HP.
  rewrite forallb_forall in Hok. by apply negb_true_iff, Hok, list_elem_of_In.
Qed.

Definition draft : Ref := {| Ref_Hash := "draft"; Ref_AccountID := 1; Ref_Kind := OwnerPin; Ref_OwnerID := 1 |}.

(** Then an upload is pinned, its pin expires, and it is collected, while a writer puts other
    bytes in place; then the power fails. *)
Definition upload_expires : list label :=
  two_writers ++ [LSpawn 4 (OpPut "draft")] ++ acts 4 5 ++ [LSpawn 4 (OpAddRef draft)] ++ acts 4 6 ++
  [LTick 100; LSpawn 5 (OpExpirePins 50 0)] ++ acts 5 8 ++ [LTick 100; LSpawn 6 (OpGC 0); LSpawn 7 (OpPut "memo")] ++
  acts 6 6 ++ [LAct 7; LAct 6; LAct 7; LAct 6; LAct 7; LAct 7; LSpawn 8 (OpPut "note")] ++ acts 8 2 ++
  [LPowerLoss {["memo"; "note"]}].

Example upload_is_collected :
  ends upload_expires (fun s => bool_decide (refcount_of "draft" s = None) &&
    bool_decide (files s !! "draft" = None) && bool_decide (refcount_of "bill" s = Some 1) &&
    bool_decide (is_Some (files s !! "memo")) && bool_decide (files s !! "note" = None)) = true.
Proof. vm_compute. reflexivity. Qed.

Lemma blob_counts_witness :
  exists ss s, run id id 10 empty_store upload_expires ss s /\
    forall h b, blobs s !! h = Some b -> br_Refcount b = count h (refs s).
Proof.
  assert (ends upload_expires (fun _ => true) = true) as Hok by (vm_compute; reflexivity).
  unfold ends in Hok. destruct (play upload_expires empty_store) as [[ss s]|] eqn:E; [|done].
  apply play_run in E. exists ss, s. split; [done|]. intros h b Hb.
  destruct (blob_counts id id 10 upload_expires ss s E) as [Hc _]. destruct (Hc h b Hb) as (_ & He & _).
  by apply He.
Defined.


(** Two batches that want two blobs in opposite orders: the rows of one, and the references of
    another. *)
Definition memo : Ref := {| Ref_Hash := "memo"; Ref_AccountID := 1; Ref_Kind := OwnerMessage; Ref_OwnerID := 8 |}.
Definition crossing : list label :=
  [LAddAccount 1; LSpawn 0 (OpPut "bill")] ++ acts 0 5 ++ [LSpawn 0 (OpPut "memo")] ++ acts 0 5 ++
  [LSpawn 1 (OpCommitBatch 1 [new "memo"; new "bill"]); LSpawn 2 (OpAddRefs [memo; bill])] ++ acts 1 2 ++ acts 2 1.

Lemma blob_no_deadlock_witness :
  exists ss s, run id id 10 empty_store crossing ss s /\ act_step id 2 s = None /\
    exists tid, enabled id s tid.
Proof.
  assert (ends crossing (fun s => negb (bool_decide (size (procs s) = 0%nat)) &&
    match act_step id 2 s with None => true | Some _ => false end) = true) as Hok by (vm_compute; reflexivity).
  unfold ends in Hok. destruct (play crossing empty_store) as [[ss s]|] eqn:E; [|done].
  apply play_run in E. exists ss, s. split; [done|].
  apply andb_true_iff in Hok as [Hne%negb_true_iff%bool_decide_eq_false Hb].
  split; [by destruct (act_step id 2 s)|].
  apply (blob_no_deadlock id id 10 crossing ss s E). intros He. by rewrite He, map_size_empty in Hne.
Defined.

(** ** Where it does not hold *)

(** A Put finds the file of old garbage; a collection deletes the row; the Put records it
    anew; the collection removes the file. The message that is stored then has a row, a
    reference and no bytes. *)
Definition put_meets_gc : list label :=
  [LAddAccount 1; LSpawn 0 (OpPut "bill")] ++ acts 0 5 ++ [LTick 100; LSpawn 1 (OpPut "bill"); LAct 1; LSpawn 2 (OpGC 0)] ++
  acts 2 6 ++ [LAct 1; LAct 1; LAct 2; LSpawn 3 (OpCommitBatch 1 [new "bill"])] ++ acts 3 9.

Example put_gc_race_loses_bytes :
  ends put_meets_gc (fun s => bool_decide (refcount_of "bill" s = Some 1) &&
    bool_decide (is_Some (messages s !! 1)) && bool_decide (files s !! "bill" = None)) = true /\
  calm put_meets_gc = false.
Proof. split; vm_compute; reflexivity. Qed.

(** The fsync of a Put fails after its rename, and its caller tries again: the second Put
    finds the file and records it without a sync. The message stored with it has no bytes
    after a power loss. *)
Definition retried_put : list label :=
  [LAddAccount 1; LSpawn 0 (OpPut "bill"); LAct 0; LAct 0; LFail 0; LSpawn 0 (OpPut "bill")] ++ acts 0 3 ++
  [LSpawn 1 (OpCommitBatch 1 [new "bill"])] ++ acts 1 9 ++ [LPowerLoss {["bill"]}].

Example retried_put_loses_bytes :
  ends retried_put (fun s => bool_decide (refcount_of "bill" s = Some 1) &&
    bool_decide (is_Some (messages s !! 1)) && bool_decide (files s !! "bill" = None)) = true /\
  calm retried_put = true /\ careful retried_put = false.
Proof. repeat split; vm_compute; reflexivity. Qed.

(** The references of a deleted account go without a recount: the blob keeps its count and is
    never collected. *)
Example deleted_account_leaks :
  ends (two_writers ++ [LDeleteAccount 1; LTick 100; LSpawn 4 (OpGC 0)] ++ acts 4 3)
    (fun s => bool_decide (refcount_of "bill" s = Some 1) && bool_decide (count "bill" (refs s) = 0) &&
              bool_decide (procs s !! 4%nat = None)) = true.
Proof. vm_compute. reflexivity. Qed.

(** A stored message whose reference was never added stops every collection: its blob is the
    oldest candidate, its row cannot be deleted, and the error ends the pass before the
    garbage behind it. *)
Example collection_stops_at_message :
  ends ([LAddAccount 1; LSpawn 0 (OpPut "bill")] ++ acts 0 5 ++ [LSpawn 1 (OpCommitBatch 1 [new "bill"])] ++ acts 1 3 ++
        [LFail 1; LTick 1; LSpawn 0 (OpPut "junk")] ++ acts 0 5 ++ [LTick 100; LSpawn 1 (OpGC 0)] ++ acts 1 5)
    (fun s => bool_decide (refcount_of "bill" s = Some 0) && bool_decide (refcount_of "junk" s = Some 0) &&
              bool_decide (is_Some (messages s !! 1)) && bool_decide (procs s !! 1%nat = None)) = true.
Proof. vm_compute. reflexivity. Qed.

(** A collection that meets a batch waits for it, and then leaves its blob alone: the row it
    has selected cannot be locked before the batch commits nor deleted after. *)
Definition batch_meets_gc : list label :=
  [LAddAccount 1; LSpawn 0 (OpPut "bill")] ++ acts 0 5 ++ [LTick 100; LSpawn 1 (OpCommitBatch 1 [new "bill"]); LSpawn 2 (OpGC 0)] ++
  acts 1 2 ++ acts 2 3.

Example collection_waits_for_batch :
  ends batch_meets_gc (fun s => match act_step id 2 s with None => true | Some _ => false end) = true /\
  ends (batch_meets_gc ++ acts 1 1 ++ acts 2 2) (fun s => bool_decide (is_Some (blobs s !! "bill")) &&
    bool_decide (is_Some (files s !! "bill")) && bool_decide (procs s !! 2%nat = None)) = true.
Proof. split; vm_compute; reflexivity. Qed.
