(* ===== verification/Search.v ===== *)
(** The search repertoire of src/internal/store: search.go, narrowing.go and collapse.go.
    A row is a message joined with its state (message_state has one row per message); a
    query is its WHERE clause, its order and its limit. Full-text matching and ranking
    belong to PostgreSQL and are parameters. *)

From S2P Require Import Prelude Text GoStrings.
#[local] Open Scope Z_scope.

(** ** Rows *)

Record Row := mkRow {
  r_ID : Z;
  r_AccountID : Z;
  r_Date : Z;
  r_MailboxID : Z;
  r_Flags : Z;
  r_Keywords : list string;
  r_Deleted : bool;                  (* deleted_at IS NOT NULL *)
  r_ThreadID : option Z;
  r_Size : Z;
  r_HasAttachments : bool;
  r_Cc : string;                     (* lower(cc_addrs) *)
  r_Bcc : string                     (* the lower-cased addresses of bcc *)
}.

Definition DefaultSearchLimit : Z := 50.
Definition MaxSearchLimit : Z := 200.
Definition RankCandidateWindow : Z := 200.
Definition CollapseWindow : Z := 1000.
Definition MaxCollapseWindow : Z := 5000.

Record SearchCursor := mkCursor { sc_Date : Z; sc_MessageID : Z }.

Record Narrowing := mkNarrowing {
  HasAttachment : option bool;
  Cc : string;
  Bcc : string;
  MinSize : option Z;
  MaxSize : option Z;
  FlagsAll : Z;
  FlagsNone : Z;
  ExcludeMailboxIDs : list Z
}.

(** The fields the three shapes share: SearchQuery, MailboxListQuery, AccountListQuery and
    CollapsedQuery. [sq_Limit] 0 is unset. *)
Record SearchQuery := mkQuery {
  sq_AccountID : Z;
  sq_Text : string;
  sq_MailboxID : option Z;
  sq_Since : option Z;
  sq_Until : option Z;
  sq_UnreadOnly : bool;
  sq_Keyword : string;
  sq_Narrow : Narrowing;
  sq_After : option SearchCursor;
  sq_Limit : Z
}.

Definition effectiveLimit (limit : Z) : Z :=
  let limit := if limit <=? 0 then DefaultSearchLimit else limit in
  if MaxSearchLimit <? limit then MaxSearchLimit else limit.

(** flagsBits: a mask that does not fit a bigint is no mask. *)
Definition flagsBits (f : Z) : Z := if 2 ^ 62 - 1 <? f then 0 else f.

(** ** Order *)

(** ORDER BY date DESC, id DESC. *)
Definition newer (a b : Row) : Prop :=
  r_Date b < r_Date a \/ (r_Date b = r_Date a /\ r_ID b <= r_ID a).
#[export] Instance newer_dec : RelDecision newer.
Proof. intros a b. unfold newer. apply _. Defined.

(** (date, id) < (cursor). *)
Definition below (c : SearchCursor) (r : Row) : bool :=
  (r_Date r <? sc_Date c) || ((r_Date r =? sc_Date c) && (r_ID r <? sc_MessageID c)).

Definition cursor_at (r : Row) : SearchCursor := mkCursor (r_Date r) (r_ID r).

Definition by_date (rows : list Row) : list Row := merge_sort newer rows.

(** ** Conditions *)

Section conditions.
(** tsv @@ websearch_to_tsquery(...), ts_rank_cd, and the lower-casing of Go. *)
Context (matches_text : string -> Row -> bool) (rank : string -> Row -> Z) (ToLower : string -> string).

Definition opt {A} (o : option A) (p : A -> bool) : bool := match o with Some a => p a | None => true end.
Definition unless_empty (s : string) (p : bool) : bool := String.eqb s "" || p.

(** appendConditions. *)
Definition narrowed (n : Narrowing) (r : Row) : bool :=
  opt (HasAttachment n) (Bool.eqb (r_HasAttachments r)) &&
  unless_empty (Cc n) (Contains (r_Cc r) (ToLower (Cc n))) &&
  unless_empty (Bcc n) (Contains (r_Bcc r) (ToLower (Bcc n))) &&
  opt (MinSize n) (fun s => s <=? r_Size r) &&
  opt (MaxSize n) (fun s => r_Size r <? s) &&
  ((FlagsAll n =? 0) || (Z.land (r_Flags r) (flagsBits (FlagsAll n)) =? flagsBits (FlagsAll n))) &&
  ((FlagsNone n =? 0) || (Z.land (r_Flags r) (flagsBits (FlagsNone n)) =? 0)) &&
  negb (existsb (Z.eqb (r_MailboxID r)) (ExcludeMailboxIDs n)).

Definition has_keyword_entry (k : string) (r : Row) : bool := existsb (String.eqb k) (r_Keywords r).

(** What every shape tests: account, liveness, dates, unread, narrowing and cursor. *)
Definition common (q : SearchQuery) (r : Row) : bool :=
  (r_AccountID r =? sq_AccountID q) && negb (r_Deleted r) &&
  opt (sq_Since q) (fun t => t <=? r_Date r) &&
  opt (sq_Until q) (fun t => r_Date r <? t) &&
  (negb (sq_UnreadOnly q) || (Z.land (r_Flags r) 1 =? 0)) &&
  narrowed (sq_Narrow q) r.
Definition after_cursor (q : SearchQuery) (r : Row) : bool := opt (sq_After q) (fun c => below c r).
Definition keyword_cond (q : SearchQuery) (r : Row) : bool :=
  unless_empty (sq_Keyword q) (has_keyword_entry (sq_Keyword q) r).
Definition mailbox_cond (q : SearchQuery) (r : Row) : bool := opt (sq_MailboxID q) (Z.eqb (r_MailboxID r)).

(** conditions of SearchQuery, without the cursor. *)
Definition search_cond (q : SearchQuery) (r : Row) : bool :=
  common q r && matches_text (sq_Text q) r && mailbox_cond q r && keyword_cond q r.
Definition mailbox_list_cond (q : SearchQuery) (r : Row) : bool :=
  common q r && (match sq_MailboxID q with Some m => r_MailboxID r =? m | None => false end).
Definition account_list_cond (q : SearchQuery) (r : Row) : bool := common q r && keyword_cond q r.

(** SELECT ... WHERE cond AND cursor ORDER BY date DESC, id DESC LIMIT. *)
Definition page (cond : SearchQuery -> Row -> bool) (q : SearchQuery) (db : list Row) : list Row :=
  take (Z.to_nat (effectiveLimit (sq_Limit q)))
       (by_date (filter (fun r => cond q r && after_cursor q r = true) db)).

(** Search fails without a text. *)
Definition Search (q : SearchQuery) (db : list Row) : option (list Row) :=
  if String.eqb (sq_Text q) "" then None else Some (page search_cond q db).
Definition ListMailboxMessages : SearchQuery -> list Row -> list Row := page mailbox_list_cond.
Definition ListAccountMessages : SearchQuery -> list Row -> list Row := page account_list_cond.

(** ORDER BY rank DESC, date DESC, message_id DESC. *)
Definition better (t : string) (a b : Row) : Prop :=
  rank t b < rank t a \/ (rank t b = rank t a /\ newer a b).
#[export] Instance better_dec t : RelDecision (better t).
Proof. intros a b. unfold better. apply _. Defined.

Definition SearchByRelevance (q : SearchQuery) (db : list Row) : option (list Row) :=
  if String.eqb (sq_Text q) "" then None
  else
    let candidates := take (Z.to_nat RankCandidateWindow)
                        (by_date (filter (fun r => search_cond q r && after_cursor q r = true) db)) in
    Some (take (Z.to_nat (effectiveLimit (sq_Limit q))) (merge_sort (better (sq_Text q)) candidates)).

(** ** Collapsed pages *)

Definition effectiveWindow (window limit : Z) : Z :=
  let window := if window <=? 0 then CollapseWindow else window in
  let window := if MaxCollapseWindow <? window then MaxCollapseWindow else window in
  if window <? effectiveLimit limit then effectiveLimit limit else window.

Record CollapsedResult := mkCollapsed {
  co_Rows : list Row;
  co_NextCursor : option SearchCursor;
  co_WindowExhausted : bool
}.

Definition collapsed_cond (q : SearchQuery) (r : Row) : bool :=
  common q r && unless_empty (sq_Text q) (matches_text (sq_Text q) r) && mailbox_cond q r && keyword_cond q r.

(** SELECT DISTINCT ON (thread_id): of rows in order, the first of each thread; messages
    without a thread are one group. *)
Fixpoint first_of_threads (seen : list (option Z)) (rows : list Row) : list Row :=
  match rows with
  | [] => []
  | r :: rows =>
      if bool_decide (r_ThreadID r ∈ seen) then first_of_threads seen rows
      else r :: first_of_threads (r_ThreadID r :: seen) rows
  end.

(** dedupeClause: the thread has a member at or above the cursor under the same filter. *)
Definition offered (q : SearchQuery) (db : list Row) (r : Row) : bool :=
  match sq_After q, r_ThreadID r with
  | Some c, Some th =>
      existsb (fun p => bool_decide (r_ThreadID p = Some th) && collapsed_cond q p && negb (below c p)) db
  | _, _ => false
  end.

(** ListCollapsedMessages. The size of the window and its edge are read off the rows that are
    returned, so there are none when no row is. *)
Definition ListCollapsedMessages (window : Z) (q : SearchQuery) (db : list Row) : option CollapsedResult :=
  if negb (String.eqb (sq_Keyword q) "") && String.eqb (sq_Text q) "" && bool_decide (is_Some (sq_MailboxID q))
  then None
  else
    let size := effectiveWindow window (sq_Limit q) in
    let w := take (Z.to_nat size) (by_date (filter (fun r => collapsed_cond q r && after_cursor q r = true) db)) in
    let d := filter (fun r => offered q db r = false) (first_of_threads [] w) in
    let rows := take (Z.to_nat (effectiveLimit (sq_Limit q))) d in
    let exhausted := match rows with [] => false | _ => size <=? Z.of_nat (List.length w) end in
    Some {| co_Rows := rows;
            co_NextCursor := if exhausted then cursor_at <$> last w else None;
            co_WindowExhausted := exhausted |}.
End conditions.
