(* ===== verification/QueryFilter.v ===== *)
(** Filters of Email/query: query.go and adapter_query_e3.go of src/internal/jmap/mail. A
    filter of RFC 8621 is translated into the conditions the search repertoire can evaluate,
    or refused; nothing in it may be dropped. *)

From S2P Require Import Prelude Text GoStrings Jmap Json JsonDecode Changes Search.
From Stdlib Require Import Ascii.
#[local] Open Scope Z_scope.

(** ** The translated filter *)

(** searchFilter. [sf_excludeMailboxIDs] is [None] for nil; a filter with branches in [sf_or]
    has no conditions of its own. *)
Inductive searchFilter := mkFilter {
  sf_text : string;
  sf_mailboxID : option Z;
  sf_since : option Z;
  sf_before : option Z;
  sf_unreadOnly : bool;
  sf_keyword : string;
  sf_hasAttachment : option bool;
  sf_cc : string;
  sf_bcc : string;
  sf_minSize : option Z;
  sf_maxSize : option Z;
  sf_flagsAll : Z;
  sf_flagsNone : Z;
  sf_excludeMailboxIDs : option (list Z);
  sf_defaultExclusion : bool;
  sf_or : list searchFilter;
  sf_accountWide : bool
}.
Definition zero_filter : searchFilter :=
  mkFilter "" None None None false "" None "" "" None None 0 0 None false [] false.

Definition with_text v f := mkFilter v (sf_mailboxID f) (sf_since f) (sf_before f) (sf_unreadOnly f) (sf_keyword f) (sf_hasAttachment f) (sf_cc f) (sf_bcc f) (sf_minSize f) (sf_maxSize f) (sf_flagsAll f) (sf_flagsNone f) (sf_excludeMailboxIDs f) (sf_defaultExclusion f) (sf_or f) (sf_accountWide f).
Definition with_mailboxID v f := mkFilter (sf_text f) v (sf_since f) (sf_before f) (sf_unreadOnly f) (sf_keyword f) (sf_hasAttachment f) (sf_cc f) (sf_bcc f) (sf_minSize f) (sf_maxSize f) (sf_flagsAll f) (sf_flagsNone f) (sf_excludeMailboxIDs f) (sf_defaultExclusion f) (sf_or f) (sf_accountWide f).
Definition with_since v f := mkFilter (sf_text f) (sf_mailboxID f) v (sf_before f) (sf_unreadOnly f) (sf_keyword f) (sf_hasAttachment f) (sf_cc f) (sf_bcc f) (sf_minSize f) (sf_maxSize f) (sf_flagsAll f) (sf_flagsNone f) (sf_excludeMailboxIDs f) (sf_defaultExclusion f) (sf_or f) (sf_accountWide f).
Definition with_before v f := mkFilter (sf_text f) (sf_mailboxID f) (sf_since f) v (sf_unreadOnly f) (sf_keyword f) (sf_hasAttachment f) (sf_cc f) (sf_bcc f) (sf_minSize f) (sf_maxSize f) (sf_flagsAll f) (sf_flagsNone f) (sf_excludeMailboxIDs f) (sf_defaultExclusion f) (sf_or f) (sf_accountWide f).
Definition with_unreadOnly v f := mkFilter (sf_text f) (sf_mailboxID f) (sf_since f) (sf_before f) v (sf_keyword f) (sf_hasAttachment f) (sf_cc f) (sf_bcc f) (sf_minSize f) (sf_maxSize f) (sf_flagsAll f) (sf_flagsNone f) (sf_excludeMailboxIDs f) (sf_defaultExclusion f) (sf_or f) (sf_accountWide f).
Definition with_keyword v f := mkFilter (sf_text f) (sf_mailboxID f) (sf_since f) (sf_before f) (sf_unreadOnly f) v (sf_hasAttachment f) (sf_cc f) (sf_bcc f) (sf_minSize f) (sf_maxSize f) (sf_flagsAll f) (sf_flagsNone f) (sf_excludeMailboxIDs f) (sf_defaultExclusion f) (sf_or f) (sf_accountWide f).
Definition with_hasAttachment v f := mkFilter (sf_text f) (sf_mailboxID f) (sf_since f) (sf_before f) (sf_unreadOnly f) (sf_keyword f) v (sf_cc f) (sf_bcc f) (sf_minSize f) (sf_maxSize f) (sf_flagsAll f) (sf_flagsNone f) (sf_excludeMailboxIDs f) (sf_defaultExclusion f) (sf_or f) (sf_accountWide f).
Definition with_cc v f := mkFilter (sf_text f) (sf_mailboxID f) (sf_since f) (sf_before f) (sf_unreadOnly f) (sf_keyword f) (sf_hasAttachment f) v (sf_bcc f) (sf_minSize f) (sf_maxSize f) (sf_flagsAll f) (sf_flagsNone f) (sf_excludeMailboxIDs f) (sf_defaultExclusion f) (sf_or f) (sf_accountWide f).
Definition with_bcc v f := mkFilter (sf_text f) (sf_mailboxID f) (sf_since f) (sf_before f) (sf_unreadOnly f) (sf_keyword f) (sf_hasAttachment f) (sf_cc f) v (sf_minSize f) (sf_maxSize f) (sf_flagsAll f) (sf_flagsNone f) (sf_excludeMailboxIDs f) (sf_defaultExclusion f) (sf_or f) (sf_accountWide f).
Definition with_minSize v f := mkFilter (sf_text f) (sf_mailboxID f) (sf_since f) (sf_before f) (sf_unreadOnly f) (sf_keyword f) (sf_hasAttachment f) (sf_cc f) (sf_bcc f) v (sf_maxSize f) (sf_flagsAll f) (sf_flagsNone f) (sf_excludeMailboxIDs f) (sf_defaultExclusion f) (sf_or f) (sf_accountWide f).
Definition with_maxSize v f := mkFilter (sf_text f) (sf_mailboxID f) (sf_since f) (sf_before f) (sf_unreadOnly f) (sf_keyword f) (sf_hasAttachment f) (sf_cc f) (sf_bcc f) (sf_minSize f) v (sf_flagsAll f) (sf_flagsNone f) (sf_excludeMailboxIDs f) (sf_defaultExclusion f) (sf_or f) (sf_accountWide f).
Definition with_flags a n f := mkFilter (sf_text f) (sf_mailboxID f) (sf_since f) (sf_before f) (sf_unreadOnly f) (sf_keyword f) (sf_hasAttachment f) (sf_cc f) (sf_bcc f) (sf_minSize f) (sf_maxSize f) a n (sf_excludeMailboxIDs f) (sf_defaultExclusion f) (sf_or f) (sf_accountWide f).
Definition with_exclude v f := mkFilter (sf_text f) (sf_mailboxID f) (sf_since f) (sf_before f) (sf_unreadOnly f) (sf_keyword f) (sf_hasAttachment f) (sf_cc f) (sf_bcc f) (sf_minSize f) (sf_maxSize f) (sf_flagsAll f) (sf_flagsNone f) v (sf_defaultExclusion f) (sf_or f) (sf_accountWide f).
Definition with_defaultExclusion v f := mkFilter (sf_text f) (sf_mailboxID f) (sf_since f) (sf_before f) (sf_unreadOnly f) (sf_keyword f) (sf_hasAttachment f) (sf_cc f) (sf_bcc f) (sf_minSize f) (sf_maxSize f) (sf_flagsAll f) (sf_flagsNone f) (sf_excludeMailboxIDs f) v (sf_or f) (sf_accountWide f).
Definition with_or v f := mkFilter (sf_text f) (sf_mailboxID f) (sf_since f) (sf_before f) (sf_unreadOnly f) (sf_keyword f) (sf_hasAttachment f) (sf_cc f) (sf_bcc f) (sf_minSize f) (sf_maxSize f) (sf_flagsAll f) (sf_flagsNone f) (sf_excludeMailboxIDs f) (sf_defaultExclusion f) v (sf_accountWide f).
Definition with_accountWide v f := mkFilter (sf_text f) (sf_mailboxID f) (sf_since f) (sf_before f) (sf_unreadOnly f) (sf_keyword f) (sf_hasAttachment f) (sf_cc f) (sf_bcc f) (sf_minSize f) (sf_maxSize f) (sf_flagsAll f) (sf_flagsNone f) (sf_excludeMailboxIDs f) (sf_defaultExclusion f) (sf_or f) v.

Definition maxOrBranches : nat := 4.

(** The properties of a FilterCondition that are served. *)
Inductive property :=
| PInMailbox | PText | PFrom | PTo | PSubject | PAfter | PBefore | PHasKeyword | PNotKeyword
| PHasAttachment | PCc | PBcc | PMinSize | PMaxSize | PInMailboxOtherThan.
#[export] Instance property_eq_dec : EqDecision property.
Proof. solve_decision. Defined.

Definition property_of (name : string) : option property :=
  if String.eqb name "inMailbox" then Some PInMailbox
  else if String.eqb name "text" then Some PText
  else if String.eqb name "from" then Some PFrom
  else if String.eqb name "to" then Some PTo
  else if String.eqb name "subject" then Some PSubject
  else if String.eqb name "after" then Some PAfter
  else if String.eqb name "before" then Some PBefore
  else if String.eqb name "hasKeyword" then Some PHasKeyword
  else if String.eqb name "notKeyword" then Some PNotKeyword
  else if String.eqb name "hasAttachment" then Some PHasAttachment
  else if String.eqb name "cc" then Some PCc
  else if String.eqb name "bcc" then Some PBcc
  else if String.eqb name "minSize" then Some PMinSize
  else if String.eqb name "maxSize" then Some PMaxSize
  else if String.eqb name "inMailboxOtherThan" then Some PInMailboxOtherThan
  else None.

(** systemFlagKeywords. *)
Definition systemFlagKeywords : list (Z * string) :=
  [(1, "$seen"); (2, "$answered"); (4, "$flagged"); (16, "$draft")].

Definition DecodeMailboxID (s : string) : option Z := decodeID mailboxIDPrefix s.

(** json.Unmarshal into a uint64. *)
Definition dec_uint : decoder Z := fun cur j =>
  match j with
  | JNum n => match parse_digits 10 0 n with Some v => if v <=? MaxUint64 then Some v else None | None => None end
  | JNull => Some cur
  | _ => None
  end.
Definition dec_raw : decoder JSON := fun _ j => Some j.

(** strings.ToUpper of an operator name, up to letters that have no upper-case form among
    those of AND, OR and NOT. *)
Definition upper_byte (c : ascii) : ascii :=
  if byte_between c 97 122 then ascii_of_nat (nat_of_ascii c - 32) else c.
Fixpoint ToUpper (s : string) : string :=
  match s with EmptyString => EmptyString | String c s => String (upper_byte c) (ToUpper s) end.

Section translate.
(** strings.EqualFold, time.Parse with RFC 3339, and the order in which Go ranges over a
    map. *)
Context (EqualFold : string -> string -> bool) (parse_date : string -> option Z).
Context (order : list (string * JSON) -> list (string * JSON)).

Definition systemFlagBit (keyword : string) : option Z :=
  fst <$> List.find (fun f => EqualFold f.2 keyword) systemFlagKeywords.

Definition stringNode (j : JSON) : option string :=
  s ← dec_string "" j; if String.eqb s "" then None else Some s.
Definition parseUTCDate (j : JSON) : option Z := s ← dec_string "" j; parse_date s.

Definition applyHasKeyword (kw : string) (f : searchFilter) : option searchFilter :=
  match systemFlagBit kw with
  | Some bit =>
      if negb (Z.land (sf_flagsNone f) bit =? 0) then None
      else Some (with_flags (Z.lor (sf_flagsAll f) bit) (sf_flagsNone f) f)
  | None =>
      if negb (String.eqb (sf_keyword f) "") && negb (EqualFold (sf_keyword f) kw) then None
      else Some (with_keyword kw f)
  end.

Definition applyNotKeyword (kw : string) (f : searchFilter) : option searchFilter :=
  if EqualFold kw "$seen" then Some (with_unreadOnly true f)
  else
    match systemFlagBit kw with
    | Some bit =>
        if negb (Z.land (sf_flagsAll f) bit =? 0) then None
        else Some (with_flags (sf_flagsAll f) (Z.lor (sf_flagsNone f) bit) f)
    | None => None
    end.

(** "a second, different condition". *)
Definition only_one (old new : string) : bool := String.eqb old "" || String.eqb old new.

Definition apply_property (p : property) (j : JSON) (f : searchFilter) : option searchFilter :=
  match p with
  | PInMailbox => s ← dec_string "" j; id ← DecodeMailboxID s; Some (with_mailboxID (Some id) f)
  | PText | PFrom | PTo | PSubject =>
      s ← dec_string "" j;
      if String.eqb (TrimSpace s) "" then None
      else if only_one (sf_text f) s then Some (with_text s f) else None
  | PAfter => t ← parseUTCDate j; Some (with_since (Some t) f)
  | PBefore => t ← parseUTCDate j; Some (with_before (Some t) f)
  | PHasKeyword => kw ← stringNode j; applyHasKeyword kw f
  | PNotKeyword => kw ← stringNode j; applyNotKeyword kw f
  | PHasAttachment =>
      b ← dec_bool false j;
      match sf_hasAttachment f with
      | Some b' => if Bool.eqb b' b then Some (with_hasAttachment (Some b) f) else None
      | None => Some (with_hasAttachment (Some b) f)
      end
  | PCc => s ← stringNode j; if only_one (sf_cc f) s then Some (with_cc s f) else None
  | PBcc => s ← stringNode j; if only_one (sf_bcc f) s then Some (with_bcc s f) else None
  | PMinSize => n ← dec_uint 0 j; if 2 ^ 62 <? n then None else Some (with_minSize (Some n) f)
  | PMaxSize => n ← dec_uint 0 j; if 2 ^ 62 <? n then None else Some (with_maxSize (Some n) f)
  | PInMailboxOtherThan =>
      wire ← dec_strings [] j;
      Some (with_defaultExclusion false
              (with_exclude (Some (default [] (sf_excludeMailboxIDs f) ++ omap DecodeMailboxID wire)) f))
  end.

Fixpoint apply_properties (ps : list (string * JSON)) (f : searchFilter) : option searchFilter :=
  match ps with
  | [] => Some f
  | (name, j) :: ps => p ← property_of name; f ← apply_property p j f; apply_properties ps f
  end.

Definition translateCondition (props : gmap string JSON) : option searchFilter :=
  if decide (props = ∅) then None else apply_properties (order (map_to_list props)) zero_filter.

(** The later of two lower bounds, the earlier of two upper bounds. *)
Definition tighter (worse : Z -> Z -> bool) (a b : option Z) : option Z :=
  match a, b with
  | Some x, Some y => if worse y x then Some y else Some x
  | None, _ => b
  | _, None => a
  end.

Definition mergeFilters (a b : searchFilter) : option searchFilter :=
  if negb (String.eqb (sf_text b) "") && negb (only_one (sf_text a) (sf_text b)) then None
  else if match sf_mailboxID a, sf_mailboxID b with Some x, Some y => negb (x =? y) | _, _ => false end then None
  else if negb (String.eqb (sf_keyword b) "") && negb (only_one (sf_keyword a) (sf_keyword b)) then None
  else if match sf_hasAttachment a, sf_hasAttachment b with Some x, Some y => negb (Bool.eqb x y) | _, _ => false end then None
  else if negb (String.eqb (sf_cc b) "") && negb (only_one (sf_cc a) (sf_cc b)) then None
  else if negb (String.eqb (sf_bcc b) "") && negb (only_one (sf_bcc a) (sf_bcc b)) then None
  else if negb (Z.land (sf_flagsAll b) (sf_flagsNone a) =? 0) || negb (Z.land (sf_flagsNone b) (sf_flagsAll a) =? 0) then None
  else if negb (bool_decide (sf_or b = [])) then None
  else Some
    {| sf_text := if String.eqb (sf_text b) "" then sf_text a else sf_text b;
       sf_mailboxID := match sf_mailboxID b with Some m => Some m | None => sf_mailboxID a end;
       sf_since := tighter (fun y x => x <? y) (sf_since a) (sf_since b);
       sf_before := tighter (fun y x => y <? x) (sf_before a) (sf_before b);
       sf_unreadOnly := sf_unreadOnly a || sf_unreadOnly b;
       sf_keyword := if String.eqb (sf_keyword b) "" then sf_keyword a else sf_keyword b;
       sf_hasAttachment := match sf_hasAttachment b with Some v => Some v | None => sf_hasAttachment a end;
       sf_cc := if String.eqb (sf_cc b) "" then sf_cc a else sf_cc b;
       sf_bcc := if String.eqb (sf_bcc b) "" then sf_bcc a else sf_bcc b;
       sf_minSize := tighter (fun y x => x <? y) (sf_minSize a) (sf_minSize b);
       sf_maxSize := tighter (fun y x => y <? x) (sf_maxSize a) (sf_maxSize b);
       sf_flagsAll := Z.lor (sf_flagsAll a) (sf_flagsAll b);
       sf_flagsNone := Z.lor (sf_flagsNone a) (sf_flagsNone b);
       sf_excludeMailboxIDs := match sf_excludeMailboxIDs b with
                               | Some l => Some (default [] (sf_excludeMailboxIDs a) ++ l)
                               | None => sf_excludeMailboxIDs a
                               end;
       sf_defaultExclusion := sf_defaultExclusion a;
       sf_or := sf_or a;
       sf_accountWide := sf_accountWide a |}.

Definition answerable (f : searchFilter) : option searchFilter :=
  let no_text := String.eqb (sf_text f) "" in
  let has_kw := negb (String.eqb (sf_keyword f) "") in
  let f := if has_kw && no_text && bool_decide (sf_mailboxID f = None) && negb (sf_accountWide f)
           then with_accountWide true f else f in
  if no_text && bool_decide (sf_mailboxID f = None) && negb (sf_accountWide f) then None
  else if has_kw && no_text && bool_decide (sf_mailboxID f <> None) then None
  else Some f.

Definition applyDefaultExclusion (f : searchFilter) : searchFilter :=
  if sf_accountWide f then f
  else if bool_decide (sf_mailboxID f <> None) || bool_decide (sf_excludeMailboxIDs f <> None) then f
  else with_defaultExclusion true f.

(** The struct a FilterOperator is read into. *)
Record operator := mkOperator { op_Operator : string; op_Conditions : list JSON }.
Definition operator_fields : list (field operator) :=
  [at_field "operator" op_Operator (fun o v => mkOperator v (op_Conditions o)) dec_string;
   at_field "conditions" op_Conditions (fun o v => mkOperator (op_Operator o) v) (dec_slice dec_raw JNull)].
Definition read_operator (j : JSON) : option operator := dec_struct operator_fields (mkOperator "" []) j.

Section nodes.
Context (translateNode : JSON -> option searchFilter).

Fixpoint translateAnd (merged : searchFilter) (conditions : list JSON) : option searchFilter :=
  match conditions with
  | [] => Some merged
  | c :: cs => sub ← translateNode c; merged ← mergeFilters merged sub; translateAnd merged cs
  end.

Fixpoint translate_branches (conditions : list JSON) : option (list searchFilter) :=
  match conditions with
  | [] => Some []
  | c :: cs =>
      branch ← translateNode c;
      (if negb (bool_decide (sf_or branch = [])) then None
       else branch ← answerable branch; bs ← translate_branches cs; Some (branch :: bs))
  end.

Definition translateOr (conditions : list JSON) : option searchFilter :=
  match conditions with
  | [] => None
  | [c] => translateNode c
  | _ => if (maxOrBranches <? List.length conditions)%nat then None
         else bs ← translate_branches conditions; Some (with_or bs zero_filter)
  end.

Definition translateOperator (j : JSON) : option searchFilter :=
  op ← read_operator j;
  let o := ToUpper (op_Operator op) in
  if String.eqb o "AND" then translateAnd zero_filter (op_Conditions op)
  else if String.eqb o "OR" then translateOr (op_Conditions op)
  else None.
End nodes.

(** Nesting of a JSON value. *)
Fixpoint depth (j : JSON) : nat :=
  match j with
  | JArr l => S (fold_right Nat.max 0%nat (map depth l))
  | JObj l => S (fold_right Nat.max 0%nat (map (fun kv => depth kv.2) l))
  | _ => 0%nat
  end.

(** [n] bounds the nesting. *)
Fixpoint translate_node (n : nat) (j : JSON) : option searchFilter :=
  match j with
  | JNull => Some (with_accountWide true zero_filter)
  | JObj ms =>
      let probe := members_of ms in
      match probe !! "operator" with
      | Some _ => match n with S n => translateOperator (translate_node n) j | O => None end
      | None => translateCondition probe
      end
  | _ => None
  end.
Definition translateNode (j : JSON) : option searchFilter := translate_node (depth j) j.

(** [None] is the error unsupportedFilter. *)
Definition translateFilter (j : JSON) : option searchFilter :=
  f ← translateNode j;
  match sf_or f with
  | [] => f ← answerable f; Some (applyDefaultExclusion f)
  | bs => Some (with_or (map applyDefaultExclusion bs) f)
  end.

(** ** From the filter to the repertoire *)

Definition narrowing (f : searchFilter) : Narrowing :=
  {| HasAttachment := sf_hasAttachment f; Cc := sf_cc f; Bcc := sf_bcc f; MinSize := sf_minSize f;
     MaxSize := sf_maxSize f; FlagsAll := sf_flagsAll f; FlagsNone := sf_flagsNone f;
     ExcludeMailboxIDs := default [] (sf_excludeMailboxIDs f) |}.

(** resolveExclusions, with the ids of the junk and trash mailboxes the account has. *)
Definition resolveExclusions (hidden : list Z) (f : searchFilter) : searchFilter :=
  if sf_defaultExclusion f then with_exclude (Some (default [] (sf_excludeMailboxIDs f) ++ hidden)) f else f.

Definition query_of (a : Z) (f : searchFilter) (after : option SearchCursor) (limit : Z) : SearchQuery :=
  {| sq_AccountID := a; sq_Text := sf_text f; sq_MailboxID := sf_mailboxID f; sq_Since := sf_since f;
     sq_Until := sf_before f; sq_UnreadOnly := sf_unreadOnly f; sq_Keyword := sf_keyword f;
     sq_Narrow := narrowing f; sq_After := after; sq_Limit := limit |}.

(** ** hasKeyword of a row *)

(** Whether a message carries a keyword: a system flag is a bit, any other an entry that
    [keq] compares. *)
Definition carries (keq : string -> string -> bool) (keyword : string) (r : Row) : bool :=
  match systemFlagBit keyword with
  | Some bit => Z.land (r_Flags r) bit =? bit
  | None => existsb (fun k => keq k keyword) (r_Keywords r)
  end.
Definition hasKeyword (r : Row) (keyword : string) : bool := carries EqualFold keyword r.
End translate.
