(* ===== verification/QueryFaithful.v ===== *)
(** The translation of filters is faithful: what the repertoire evaluates for an accepted
    filter is what RFC 8621 says of it, no condition dropped and none added but the
    exclusion of junk and trash. *)

From S2P Require Import Prelude Text GoStrings Jmap Json JsonDecode Changes Search QueryFilter.
#[local] Open Scope Z_scope.

(** ** What a filter means *)

Section meaning.
Context (matches_text : string -> Row -> bool) (ToLower : string -> string).
Context (EqualFold : string -> string -> bool) (parse_date : string -> option Z).

(** The meaning of one property (RFC 8621, 4.4.1); from, to and subject are read as text, as
    the comment of translateCondition says. [keq] compares keywords. *)
Definition wanted_property (keq : string -> string -> bool) (p : property) (j : JSON) (r : Row) : bool :=
  match p with
  | PInMailbox => match dec_string "" j ≫= DecodeMailboxID with Some id => r_MailboxID r =? id | None => false end
  | PText | PFrom | PTo | PSubject => match dec_string "" j with Some s => matches_text s r | None => false end
  | PAfter => match parseUTCDate parse_date j with Some t => t <=? r_Date r | None => false end
  | PBefore => match parseUTCDate parse_date j with Some t => r_Date r <? t | None => false end
  | PHasKeyword => match dec_string "" j with Some k => carries EqualFold keq k r | None => false end
  | PNotKeyword => match dec_string "" j with Some k => negb (carries EqualFold keq k r) | None => false end
  | PHasAttachment => match dec_bool false j with Some b => Bool.eqb (r_HasAttachments r) b | None => false end
  | PCc => match dec_string "" j with Some s => Contains (r_Cc r) (ToLower s) | None => false end
  | PBcc => match dec_string "" j with Some s => Contains (r_Bcc r) (ToLower s) | None => false end
  | PMinSize => match dec_uint 0 j with Some n => n <=? r_Size r | None => false end
  | PMaxSize => match dec_uint 0 j with Some n => r_Size r <? n | None => false end
  | PInMailboxOtherThan =>
      match dec_strings [] j with
      | Some l => negb (existsb (Z.eqb (r_MailboxID r)) (omap DecodeMailboxID l))
      | None => false
      end
  end.

(** The meaning of a filter (RFC 8620, 5.5), to nesting [n]. *)
Fixpoint wanted_to (keq : string -> string -> bool) (n : nat) (j : JSON) (r : Row) : bool :=
  match j with
  | JNull => true
  | JObj ms =>
      match members_of ms !! "operator" with
      | Some _ =>
          match n, read_operator j with
          | S n, Some op =>
              let o := ToUpper (op_Operator op) in
              if String.eqb o "AND" then forallb (fun c => wanted_to keq n c r) (op_Conditions op)
              else if String.eqb o "OR" then existsb (fun c => wanted_to keq n c r) (op_Conditions op)
              else if String.eqb o "NOT" then negb (existsb (fun c => wanted_to keq n c r) (op_Conditions op))
              else false
          | _, _ => false
          end
      | None =>
          forallb (fun kv => match property_of kv.1 with Some p => wanted_property keq p kv.2 r | None => false end)
                  (map_to_list (members_of ms))
      end
  | _ => false
  end.
Definition wanted (keq : string -> string -> bool) (j : JSON) (r : Row) : bool := wanted_to keq (depth j) j r.

(** ** What is evaluated *)

(** The condition of the statement that fetchPage chooses. *)
Definition path_cond (a : Z) (f : searchFilter) (r : Row) : bool :=
  let q := query_of a f None 0 in
  if negb (String.eqb (sf_text f) "") then search_cond matches_text ToLower q r
  else if sf_accountWide f then account_list_cond ToLower q r
  else mailbox_list_cond ToLower q r.

(** The rows a query returns, whatever their order and number. *)
Definition answers (a : Z) (hidden : list Z) (f : searchFilter) (r : Row) : bool :=
  match sf_or f with
  | [] => path_cond a (resolveExclusions hidden f) r
  | bs => existsb (fun b => path_cond a (resolveExclusions hidden b) r) bs
  end.

(** All conditions of a filter without branches. *)
Definition flat_cond (f : searchFilter) (r : Row) : bool :=
  opt (sf_mailboxID f) (Z.eqb (r_MailboxID r)) &&
  unless_empty (sf_text f) (matches_text (sf_text f) r) &&
  opt (sf_since f) (fun t => t <=? r_Date r) &&
  opt (sf_before f) (fun t => r_Date r <? t) &&
  (negb (sf_unreadOnly f) || (Z.land (r_Flags r) 1 =? 0)) &&
  unless_empty (sf_keyword f) (has_keyword_entry (sf_keyword f) r) &&
  narrowed ToLower (narrowing f) r.

Definition branch_cond (f : searchFilter) (r : Row) : bool :=
  match sf_or f with [] => flat_cond f r | bs => existsb (fun b => flat_cond b r) bs end.

(** ** Masks *)

Lemma land_lor_all x a b : Z.land x (Z.lor a b) = Z.lor a b <-> Z.land x a = a /\ Z.land x b = b.
Proof.
  split.
  - intros H. split; apply Z.bits_inj'; intros n Hn; apply (f_equal (fun z => Z.testbit z n)) in H;
      rewrite Z.land_spec, Z.lor_spec in H; rewrite Z.land_spec;
      destruct (Z.testbit x n), (Z.testbit a n), (Z.testbit b n); done.
  - intros [Ha Hb]. by rewrite Z.land_lor_distr_r, Ha, Hb.
Qed.

Lemma land_lor_none x a b : Z.land x (Z.lor a b) = 0 <-> Z.land x a = 0 /\ Z.land x b = 0.
Proof. rewrite Z.land_lor_distr_r. apply Z.lor_eq_0_iff. Qed.

Definition mask_ok (m : Z) : Prop := 0 <= m < 32.

Lemma mask_ok_lor a b : mask_ok a -> mask_ok b -> mask_ok (Z.lor a b).
Proof.
  unfold mask_ok. intros Ha Hb. split; [apply Z.lor_nonneg; lia|].
  destruct (decide (Z.lor a b = 0)) as [->|Hne]; [lia|].
  apply (Z.log2_lt_pow2 _ 5); [assert (0 <= Z.lor a b) by (apply Z.lor_nonneg; lia); lia|].
  rewrite Z.log2_lor by lia. apply Z.max_lub_lt.
  - destruct (decide (a = 0)) as [->|]; [done|]. apply Z.log2_lt_pow2; lia.
  - destruct (decide (b = 0)) as [->|]; [done|]. apply Z.log2_lt_pow2; lia.
Qed.

Lemma flagsBits_ok m : mask_ok m -> flagsBits m = m.
Proof. unfold mask_ok, flagsBits. intros ?. destruct (Z.ltb_spec (2 ^ 62 - 1) m); [lia|done]. Qed.

Lemma systemFlagBit_ok k bit : systemFlagBit EqualFold k = Some bit -> mask_ok bit /\ bit <> 0.
Proof.
  unfold systemFlagBit, systemFlagKeywords, mask_ok. cbn. repeat case_match; intros [= <-]; cbn; lia.
Qed.

(** The mask tests of a filter, without their guards. *)
Definition all_of (m : Z) (r : Row) : bool := Z.land (r_Flags r) m =? m.
Definition none_of (m : Z) (r : Row) : bool := Z.land (r_Flags r) m =? 0.

Lemma all_of_guard m r : mask_ok m ->
  (m =? 0) || (Z.land (r_Flags r) (flagsBits m) =? flagsBits m) = all_of m r.
Proof.
  intros Hm. rewrite flagsBits_ok by done. unfold all_of. destruct (Z.eqb_spec m 0) as [->|]; [|done].
  by rewrite Z.land_0_r.
Qed.
Lemma none_of_guard m r : mask_ok m -> (m =? 0) || (Z.land (r_Flags r) (flagsBits m) =? 0) = none_of m r.
Proof.
  intros Hm. rewrite flagsBits_ok by done. unfold none_of. destruct (Z.eqb_spec m 0) as [->|]; [|done].
  by rewrite Z.land_0_r.
Qed.
Lemma all_of_lor a b r : all_of (Z.lor a b) r = all_of a r && all_of b r.
Proof.
  unfold all_of. apply eq_true_iff_eq. rewrite andb_true_iff, !Z.eqb_eq. apply land_lor_all.
Qed.
Lemma none_of_lor a b r : none_of (Z.lor a b) r = none_of a r && none_of b r.
Proof.
  unfold none_of. apply eq_true_iff_eq. rewrite andb_true_iff, !Z.eqb_eq. apply land_lor_none.
Qed.

(** ** Conditions as propositions *)

Definition masks_ok (f : searchFilter) : Prop := mask_ok (sf_flagsAll f) /\ mask_ok (sf_flagsNone f).

Definition holds (f : searchFilter) (r : Row) : Prop :=
  opt (sf_mailboxID f) (Z.eqb (r_MailboxID r)) = true /\
  unless_empty (sf_text f) (matches_text (sf_text f) r) = true /\
  opt (sf_since f) (fun t => t <=? r_Date r) = true /\
  opt (sf_before f) (fun t => r_Date r <? t) = true /\
  (negb (sf_unreadOnly f) || (Z.land (r_Flags r) 1 =? 0)) = true /\
  unless_empty (sf_keyword f) (has_keyword_entry (sf_keyword f) r) = true /\
  opt (sf_hasAttachment f) (Bool.eqb (r_HasAttachments r)) = true /\
  unless_empty (sf_cc f) (Contains (r_Cc r) (ToLower (sf_cc f))) = true /\
  unless_empty (sf_bcc f) (Contains (r_Bcc r) (ToLower (sf_bcc f))) = true /\
  opt (sf_minSize f) (fun s => s <=? r_Size r) = true /\
  opt (sf_maxSize f) (fun s => r_Size r <? s) = true /\
  all_of (sf_flagsAll f) r = true /\
  none_of (sf_flagsNone f) r = true /\
  negb (existsb (Z.eqb (r_MailboxID r)) (default [] (sf_excludeMailboxIDs f))) = true.

Lemma flat_cond_holds f r : masks_ok f -> flat_cond f r = true <-> holds f r.
Proof.
  intros [Ha Hn]. unfold flat_cond, narrowed, holds, narrowing. simpl.
  rewrite all_of_guard, none_of_guard, !andb_true_iff by done. tauto.
Qed.

Lemma zero_holds r : holds zero_filter r.
Proof. unfold holds, all_of, none_of. simpl. by rewrite !Z.land_0_r. Qed.

(** ** Merging *)

(** The guards of a definition that goes on. *)
Ltac pass_guards :=
  repeat match goal with |- (if ?b then None else _) = _ -> _ => destruct b eqn:?; [done|] end.

Lemma tighter_lower a b d : opt (tighter (fun y x => x <? y) a b) (fun t => t <=? d) = true <->
  opt a (fun t => t <=? d) = true /\ opt b (fun t => t <=? d) = true.
Proof.
  destruct a as [x|], b as [y|]; simpl; try tauto. destruct (Z.ltb_spec x y); rewrite ?Z.leb_le; simpl; rewrite ?Z.leb_le; lia.
Qed.
Lemma tighter_upper a b d : opt (tighter (fun y x => y <? x) a b) (fun t => d <? t) = true <->
  opt a (fun t => d <? t) = true /\ opt b (fun t => d <? t) = true.
Proof.
  destruct a as [x|], b as [y|]; simpl; try tauto. destruct (Z.ltb_spec y x); simpl; rewrite ?Z.ltb_lt; lia.
Qed.

Lemma unless_empty_merge a b (P : string -> bool) :
  negb (String.eqb b "") && negb (only_one a b) = false ->
  unless_empty (if String.eqb b "" then a else b) (P (if String.eqb b "" then a else b)) = true <->
  unless_empty a (P a) = true /\ unless_empty b (P b) = true.
Proof.
  unfold unless_empty, only_one. destruct (String.eqb_spec b "") as [->|Hb]; simpl; [tauto|].
  destruct (String.eqb_spec a "") as [->|Ha]; simpl; [rewrite (proj2 (String.eqb_neq b "") Hb); tauto|].
  destruct (String.eqb_spec a b) as [->|]; [|done]. rewrite (proj2 (String.eqb_neq b "") Hb). simpl. tauto.
Qed.

Lemma mergeFilters_holds a b c r :
  mergeFilters a b = Some c -> holds c r <-> holds a r /\ holds b r.
Proof.
  unfold mergeFilters. pass_guards. intros [= <-]. unfold holds. simpl.
  rewrite !tighter_lower, !tighter_upper, (unless_empty_merge _ _ (fun s => matches_text s r)),
    (unless_empty_merge _ _ (fun s => has_keyword_entry s r)),
    (unless_empty_merge _ _ (fun s => Contains (r_Cc r) (ToLower s))),
    (unless_empty_merge _ _ (fun s => Contains (r_Bcc r) (ToLower s))) by done.
  rewrite all_of_lor, none_of_lor, !andb_true_iff.
  match goal with H : match sf_mailboxID a with _ => _ end = false |- _ => rename H into Hm end.
  match goal with H : match sf_hasAttachment a with _ => _ end = false |- _ => rename H into Hh end.
  assert (opt (match sf_mailboxID b with Some m => Some m | None => sf_mailboxID a end) (Z.eqb (r_MailboxID r)) = true <->
    opt (sf_mailboxID a) (Z.eqb (r_MailboxID r)) = true /\ opt (sf_mailboxID b) (Z.eqb (r_MailboxID r)) = true) as E1.
  { destruct (sf_mailboxID a), (sf_mailboxID b); simpl in *; try tauto.
    apply negb_false_iff, Z.eqb_eq in Hm as ->. tauto. }
  assert (opt (match sf_hasAttachment b with Some m => Some m | None => sf_hasAttachment a end) (Bool.eqb (r_HasAttachments r)) = true <->
    opt (sf_hasAttachment a) (Bool.eqb (r_HasAttachments r)) = true /\ opt (sf_hasAttachment b) (Bool.eqb (r_HasAttachments r)) = true) as E2.
  { destruct (sf_hasAttachment a), (sf_hasAttachment b); simpl in *; try tauto.
    apply negb_false_iff, eqb_prop in Hh as ->. tauto. }
  assert (negb (sf_unreadOnly a || sf_unreadOnly b) || (Z.land (r_Flags r) 1 =? 0) = true <->
    (negb (sf_unreadOnly a) || (Z.land (r_Flags r) 1 =? 0)) = true /\
    (negb (sf_unreadOnly b) || (Z.land (r_Flags r) 1 =? 0)) = true) as E3.
  { destruct (sf_unreadOnly a), (sf_unreadOnly b), (Z.land (r_Flags r) 1 =? 0); simpl; tauto. }
  assert (negb (existsb (Z.eqb (r_MailboxID r)) (default [] (match sf_excludeMailboxIDs b with
      | Some l => Some (default [] (sf_excludeMailboxIDs a) ++ l) | None => sf_excludeMailboxIDs a end))) = true <->
    negb (existsb (Z.eqb (r_MailboxID r)) (default [] (sf_excludeMailboxIDs a))) = true /\
    negb (existsb (Z.eqb (r_MailboxID r)) (default [] (sf_excludeMailboxIDs b))) = true) as E4.
  { destruct (sf_excludeMailboxIDs b); simpl; [|tauto]. by rewrite existsb_app, negb_orb, andb_true_iff. }
  rewrite E1, E2, E3, E4. tauto.
Qed.

Lemma mergeFilters_shape a b c :
  mergeFilters a b = Some c -> masks_ok a -> masks_ok b ->
  masks_ok c /\ sf_or c = sf_or a /\ sf_accountWide c = sf_accountWide a /\ sf_defaultExclusion c = sf_defaultExclusion a /\
  sf_or b = [].
Proof.
  unfold mergeFilters. pass_guards. intros [= <-] [? ?] [? ?]. simpl.
  split; [by split; apply mask_ok_lor|]. repeat split; try done.
  match goal with H : negb (bool_decide (sf_or b = [])) = false |- _ => apply negb_false_iff, bool_decide_eq_true in H end. done.
Qed.

(** ** One property *)

(** A property is given once: the field it sets is still unset. *)
Definition fresh (p : property) (f : searchFilter) : Prop :=
  match p with
  | PInMailbox => sf_mailboxID f = None
  | PAfter => sf_since f = None
  | PBefore => sf_before f = None
  | PHasKeyword => sf_keyword f = ""
  | PMinSize => sf_minSize f = None
  | PMaxSize => sf_maxSize f = None
  | _ => True
  end.

Lemma only_one_cond old new (P : string -> bool) :
  only_one old new = true -> new <> "" ->
  unless_empty new (P new) = true <-> unless_empty old (P old) = true /\ P new = true.
Proof.
  unfold only_one, unless_empty. intros Ho Hn. rewrite (proj2 (String.eqb_neq new "") Hn). simpl.
  destruct (String.eqb_spec old "") as [->|Ho']; simpl; [tauto|]. simpl in Ho. apply String.eqb_eq in Ho as ->. tauto.
Qed.

Lemma stringNode_dec j s : stringNode j = Some s -> dec_string "" j = Some s /\ s <> "".
Proof.
  unfold stringNode. destruct (dec_string "" j) as [s'|]; simpl; [|done].
  destruct (String.eqb_spec s' ""); [done|]. by intros [= <-].
Qed.

Lemma TrimSpace_nonempty s : String.eqb (TrimSpace s) "" = false -> s <> "".
Proof. by intros H ->. Qed.

Context (EqualFold_refl : forall s, EqualFold s s = true) (EqualFold_sym : forall s t, EqualFold s t = EqualFold t s).

Lemma seen_bit kw : EqualFold kw "$seen" = true -> systemFlagBit EqualFold kw = Some 1.
Proof. intros H. unfold systemFlagBit, systemFlagKeywords. cbn. by rewrite EqualFold_sym, H. Qed.

(** A set bit is the opposite of a clear one. *)
Lemma none_of_bit bit x : bit = 1 \/ bit = 2 \/ bit = 4 \/ bit = 16 ->
  (Z.land x bit =? 0) = negb (Z.land x bit =? bit).
Proof.
  intros Hb. assert (exists n, 0 <= n /\ bit = 2 ^ n) as (n & Hn & ->).
  { destruct Hb as [->|[->|[->| ->]]]; [exists 0|exists 1|exists 2|exists 4]; done. }
  assert (Z.land x (2 ^ n) = if Z.testbit x n then 2 ^ n else 0) as ->.
  { apply Z.bits_inj'. intros m Hm. rewrite Z.land_spec, Z.pow2_bits_eqb by done.
    destruct (Z.eqb_spec n m) as [->|Hne].
    - rewrite andb_true_r. destruct (Z.testbit x m); [by rewrite Z.pow2_bits_true|by rewrite Z.bits_0].
    - rewrite andb_false_r. destruct (Z.testbit x n); [by rewrite Z.pow2_bits_false|by rewrite Z.bits_0]. }
  assert (0 < 2 ^ n) by (by apply Z.pow_pos_nonneg). destruct (Z.testbit x n).
  - rewrite Z.eqb_refl. apply Z.eqb_neq. lia.
  - rewrite Z.eqb_refl. symmetry. apply negb_true_iff, Z.eqb_neq. lia.
Qed.

Lemma systemFlagBit_cases k bit : systemFlagBit EqualFold k = Some bit -> bit = 1 \/ bit = 2 \/ bit = 4 \/ bit = 16.
Proof.
  unfold systemFlagBit, systemFlagKeywords. cbn. repeat case_match; intros [= <-]; cbn; auto.
Qed.

Lemma text_holds j f f' r :
  (s ← dec_string "" j;
   if String.eqb (TrimSpace s) "" then None
   else if only_one (sf_text f) s then Some (with_text s f) else None) = Some f' -> masks_ok f ->
  masks_ok f' /\
  (holds f' r <-> holds f r /\ match dec_string "" j with Some s => matches_text s r | None => false end = true).
Proof.
  destruct (dec_string "" j) as [s|]; simpl; [|done]. destruct (String.eqb (TrimSpace s) "") eqn:Et; [done|].
  destruct (only_one (sf_text f) s) eqn:Eo; [|done]. intros [= <-] Hm. split; [done|]. unfold holds. simpl.
  rewrite (only_one_cond _ _ (fun s => matches_text s r) Eo) by (by apply TrimSpace_nonempty). tauto.
Qed.

Lemma apply_property_holds p j f f' r :
  apply_property EqualFold parse_date p j f = Some f' -> fresh p f -> masks_ok f ->
  masks_ok f' /\ (holds f' r <-> holds f r /\ wanted_property String.eqb p j r = true).
Proof.
  intros Ha Hf [Hm1 Hm2]. destruct p; cbn [apply_property wanted_property fresh] in *.
  2-5: by apply text_holds.
  - destruct (dec_string "" j) as [s|]; simpl in *; [|done]. destruct (DecodeMailboxID s) as [id|]; simpl in *; [|done].
    injection Ha as <-. split; [done|]. unfold holds. simpl. rewrite Hf. simpl. tauto.
  - destruct (parseUTCDate parse_date j) as [t|]; simpl in *; [|done]. injection Ha as <-. split; [done|].
    unfold holds. simpl. rewrite Hf. simpl. tauto.
  - destruct (parseUTCDate parse_date j) as [t|]; simpl in *; [|done]. injection Ha as <-. split; [done|].
    unfold holds. simpl. rewrite Hf. simpl. tauto.
  - destruct (stringNode j) as [kw|] eqn:Ej; simpl in *; [|done]. apply stringNode_dec in Ej as [-> Hne].
    unfold applyHasKeyword, carries in *. destruct (systemFlagBit EqualFold kw) as [bit|] eqn:Eb.
    + pass_guards. revert Ha. pass_guards. intros [= <-]. destruct (systemFlagBit_ok _ _ Eb) as [Hb _].
      split; [split; [by apply mask_ok_lor|done]|]. unfold holds. simpl. rewrite all_of_lor, andb_true_iff.
      unfold all_of at 2. tauto.
    + revert Ha. pass_guards. intros [= <-]. split; [done|]. unfold holds. simpl. rewrite Hf.
      unfold unless_empty at 2. rewrite (proj2 (String.eqb_neq kw "") Hne). simpl.
      assert (has_keyword_entry kw r = existsb (fun k => String.eqb k kw) (r_Keywords r)) as <-.
      { unfold has_keyword_entry. induction (r_Keywords r) as [|k ks IH]; [done|]. simpl. by rewrite IH, String.eqb_sym. }
      unfold unless_empty at 5. simpl. tauto.
  - destruct (stringNode j) as [kw|] eqn:Ej; simpl in *; [|done]. apply stringNode_dec in Ej as [-> Hne].
    unfold applyNotKeyword, carries in *. destruct (EqualFold kw "$seen") eqn:Es.
    + injection Ha as <-. split; [done|]. rewrite (seen_bit _ Es). unfold holds. simpl.
      rewrite <- none_of_bit by auto. destruct (sf_unreadOnly f), (Z.land (r_Flags r) 1 =? 0); simpl; tauto.
    + destruct (systemFlagBit EqualFold kw) as [bit|] eqn:Eb; [|done]. revert Ha. pass_guards. intros [= <-].
      destruct (systemFlagBit_ok _ _ Eb) as [Hb _]. split; [split; [done|by apply mask_ok_lor]|].
      unfold holds. simpl. rewrite none_of_lor, andb_true_iff, <- none_of_bit by (by eapply systemFlagBit_cases).
      unfold none_of at 2. tauto.
  - destruct (dec_bool false j) as [b|]; simpl in *; [|done]. unfold holds.
    destruct (sf_hasAttachment f) as [b'|] eqn:Eh; simpl in *.
    + destruct (Bool.eqb b' b) eqn:E; [|done]. injection Ha as <-. apply eqb_prop in E as ->. split; [done|]. simpl. tauto.
    + injection Ha as <-. split; [done|]. simpl. tauto.
  - destruct (stringNode j) as [s|] eqn:Ej; simpl in *; [|done]. apply stringNode_dec in Ej as [-> Hne].
    destruct (only_one (sf_cc f) s) eqn:Eo; [|done]. injection Ha as <-. split; [done|]. unfold holds. simpl.
    rewrite (only_one_cond _ _ (fun s => Contains (r_Cc r) (ToLower s)) Eo Hne). tauto.
  - destruct (stringNode j) as [s|] eqn:Ej; simpl in *; [|done]. apply stringNode_dec in Ej as [-> Hne].
    destruct (only_one (sf_bcc f) s) eqn:Eo; [|done]. injection Ha as <-. split; [done|]. unfold holds. simpl.
    rewrite (only_one_cond _ _ (fun s => Contains (r_Bcc r) (ToLower s)) Eo Hne). tauto.
  - destruct (dec_uint 0 j) as [n|]; simpl in *; [|done]. revert Ha. pass_guards. intros [= <-]. split; [done|].
    unfold holds. simpl. rewrite Hf. simpl. tauto.
  - destruct (dec_uint 0 j) as [n|]; simpl in *; [|done]. revert Ha. pass_guards. intros [= <-]. split; [done|].
    unfold holds. simpl. rewrite Hf. simpl. tauto.
  - destruct (dec_strings [] j) as [l|]; simpl in *; [|done]. injection Ha as <-. split; [done|]. unfold holds. simpl.
    rewrite existsb_app, negb_orb, andb_true_iff. tauto.
Qed.

Lemma apply_property_keeps p j f f' :
  apply_property EqualFold parse_date p j f = Some f' ->
  sf_or f' = sf_or f /\ sf_accountWide f' = sf_accountWide f /\
  (sf_defaultExclusion f = false -> sf_defaultExclusion f' = false) /\
  forall p', p' <> p -> fresh p' f -> fresh p' f'.
Proof.
  intros Ha.
  destruct p; cbn [apply_property] in Ha; unfold stringNode, applyHasKeyword, applyNotKeyword in Ha;
    repeat (case_match; simplify_option_eq; try done); simplify_option_eq;
    repeat (case_match; simplify_option_eq; try done).
  all: split; [done|split; [done|split; [done|]]]; intros p' Hne; by destruct p'.
Qed.

Lemma apply_property_folds p j f f' r :
  apply_property EqualFold parse_date p j f = Some f' ->
  wanted_property String.eqb p j r = true -> wanted_property EqualFold p j r = true.
Proof.
  intros Ha. destruct p; try done; cbn [apply_property wanted_property] in *.
  - destruct (dec_string "" j) as [kw|]; [|done]. unfold carries. destruct (systemFlagBit EqualFold kw); [done|].
    rewrite !existsb_exists. intros (k & Hk & ->%String.eqb_eq). exists kw. by rewrite EqualFold_refl.
  - destruct (stringNode j) as [kw|] eqn:Ej; simpl in *; [|done]. apply stringNode_dec in Ej as [-> _].
    unfold applyNotKeyword, carries in *. destruct (EqualFold kw "$seen") eqn:Es; [by rewrite (seen_bit _ Es)|].
    by destruct (systemFlagBit EqualFold kw).
Qed.

(** ** Conditions and operators *)

Context (order : list (string * JSON) -> list (string * JSON)) (order_perm : forall l, order l ≡ₚ l).
Abbreviation translate_node := (translate_node EqualFold parse_date order).

Lemma property_of_inj a b p : property_of a = Some p -> property_of b = Some p -> a = b.
Proof.
  assert (forall s, property_of s = Some p -> s = match p with
    | PInMailbox => "inMailbox" | PText => "text" | PFrom => "from" | PTo => "to" | PSubject => "subject"
    | PAfter => "after" | PBefore => "before" | PHasKeyword => "hasKeyword" | PNotKeyword => "notKeyword"
    | PHasAttachment => "hasAttachment" | PCc => "cc" | PBcc => "bcc" | PMinSize => "minSize" | PMaxSize => "maxSize"
    | PInMailboxOtherThan => "inMailboxOtherThan" end) as Hn.
  { intros s. unfold property_of.
    repeat match goal with |- context [String.eqb s ?n] => destruct (String.eqb_spec s n) as [->|_]; [by intros [= <-]|] end.
    done. }
  intros ->%Hn ->%Hn. done.
Qed.

Definition wanted_member (keq : string -> string -> bool) (r : Row) (kv : string * JSON) : bool :=
  match property_of kv.1 with Some p => wanted_property keq p kv.2 r | None => false end.

Lemma apply_properties_holds ps f f' :
  apply_properties EqualFold parse_date ps f = Some f' -> NoDup ps.*1 ->
  (forall name p, name ∈ ps.*1 -> property_of name = Some p -> fresh p f) -> masks_ok f ->
  masks_ok f' /\ sf_or f' = sf_or f /\ sf_accountWide f' = sf_accountWide f /\
  (sf_defaultExclusion f = false -> sf_defaultExclusion f' = false) /\
  forall r, (holds f' r <-> holds f r /\ forallb (wanted_member String.eqb r) ps = true) /\
  (forallb (wanted_member String.eqb r) ps = true -> forallb (wanted_member EqualFold r) ps = true).
Proof.
  revert f. induction ps as [|[name j] ps IH]; intros f Ha Hn Hf Hm; simpl in *.
  - injection Ha as <-. split; [done|]. split; [done|]. split; [done|]. split; [done|]. intros r. split; [tauto|done].
  - destruct (property_of name) as [p|] eqn:Hp; simpl in Ha; [|done].
    destruct (apply_property EqualFold parse_date p j f) as [f1|] eqn:H1; simpl in Ha; [|done].
    apply NoDup_cons in Hn as [Hnin Hn].
    assert (fresh p f) as Hfp by (eapply Hf; [by left|done]).
    destruct (apply_property_keeps _ _ _ _ H1) as (E1 & E2 & E3 & Hkeep).
    assert (forall r, masks_ok f1 /\ (holds f1 r <-> holds f r /\ wanted_property String.eqb p j r = true)) as Hs.
    { intros r. by apply (apply_property_holds p j f f1 r). }
    destruct (IH f1 Ha Hn) as (Hm' & E1' & E2' & E3' & Hh).
    { intros name' p' Hin Hp'. apply Hkeep; [|by eapply Hf; [by right|]].
      intros ->. apply Hnin. by rewrite (property_of_inj _ _ _ Hp Hp'). }
    { apply (Hs (mkRow 0 0 0 0 0 [] false None 0 false "" "")). }
    split; [done|]. split; [congruence|]. split; [congruence|]. split; [tauto|]. intros r.
    destruct (Hs r) as [_ H2]. destruct (Hh r) as [H3 H4].
    unfold wanted_member at 1 3 5. simpl. rewrite Hp. rewrite H3, H2, !andb_true_iff.
    split; [tauto|]. intros [Hw Hps]. split; [by eapply apply_property_folds|by apply H4].
Qed.

(** ** Answerable branches *)

Definition served (f : searchFilter) : Prop :=
  sf_text f <> "" \/ (sf_text f = "" /\ sf_accountWide f = true /\ sf_mailboxID f = None) \/
  (sf_text f = "" /\ sf_accountWide f = false /\ is_Some (sf_mailboxID f) /\ sf_keyword f = "").

Definition branch_ok (f : searchFilter) : Prop := masks_ok f /\ sf_or f = [] /\ served f.

Definition wide_ok (f : searchFilter) : Prop :=
  sf_accountWide f = true -> sf_text f = "" /\ sf_mailboxID f = None.

Lemma answerable_ok f f' :
  answerable f = Some f' -> masks_ok f -> sf_or f = [] -> wide_ok f ->
  branch_ok f' /\ sf_defaultExclusion f' = sf_defaultExclusion f /\ forall r, holds f' r <-> holds f r.
Proof.
  unfold answerable, branch_ok, served, wide_ok. intros Ha Hm Ho Hw.
  destruct (String.eqb_spec (sf_text f) "") as [Et|Et]; simpl in Ha.
  - destruct (String.eqb_spec (sf_keyword f) "") as [Ek|Ek]; simpl in Ha.
    + destruct (sf_mailboxID f) as [m|] eqn:Em; simpl in Ha.
      * injection Ha as <-. destruct (sf_accountWide f) eqn:Ew; [naive_solver|]. rewrite Em. naive_solver.
      * destruct (sf_accountWide f) eqn:Ew; simpl in Ha; [|done]. injection Ha as <-. rewrite Em. naive_solver.
    + destruct (sf_mailboxID f) as [m|] eqn:Em; simpl in Ha; [by destruct (sf_accountWide f); simpl in Ha; rewrite ?Em in Ha|].
      destruct (sf_accountWide f) eqn:Ew; simpl in Ha; rewrite ?Em in Ha; simpl in Ha; rewrite ?Em, ?Ew in Ha;
        repeat case_bool_decide; try done; simpl in Ha; simplify_eq; simpl; rewrite ?Em; naive_solver.
  - rewrite andb_false_r in Ha. simpl in Ha. injection Ha as <-. naive_solver.
Qed.

Lemma path_cond_holds a f r :
  branch_ok f -> r_AccountID r = a -> r_Deleted r = false -> path_cond a f r = true <-> holds f r.
Proof.
  intros (Hm & _ & Hs) Ha Hd. rewrite <- flat_cond_holds by done.
  unfold path_cond, flat_cond, search_cond, account_list_cond, mailbox_list_cond, common, mailbox_cond, keyword_cond.
  cbn. rewrite Ha, Hd, Z.eqb_refl. unfold unless_empty.
  destruct Hs as [Ht|[(Ht & Hw & Hmb)|(Ht & Hw & [m Hmb] & Hk)]].
  - rewrite (proj2 (String.eqb_neq _ _) Ht). simpl. rewrite !andb_true_iff. tauto.
  - rewrite Ht, Hw, Hmb. simpl. rewrite !andb_true_iff. tauto.
  - rewrite Ht, Hw, Hmb, Hk. simpl. rewrite !andb_true_iff. tauto.
Qed.

Lemma resolve_ok hidden f :
  branch_ok f -> branch_ok (resolveExclusions hidden f) /\
  forall r, holds (resolveExclusions hidden f) r <->
    holds f r /\ (sf_defaultExclusion f = true -> r_MailboxID r ∉ hidden).
Proof.
  intros Hb. unfold resolveExclusions. destruct (sf_defaultExclusion f); [|naive_solver].
  split; [done|]. intros r. unfold holds. simpl. rewrite existsb_app, negb_orb, andb_true_iff.
  assert (negb (existsb (Z.eqb (r_MailboxID r)) hidden) = true <-> r_MailboxID r ∉ hidden) as ->; [|naive_solver].
  rewrite negb_true_iff, <- not_true_iff_false, existsb_exists. split.
  - intros Hn Hin. apply Hn. exists (r_MailboxID r). split; [by apply list_elem_of_In|apply Z.eqb_refl].
  - intros Hn (m & Hin & E%Z.eqb_eq). subst m. by apply Hn, list_elem_of_In.
Qed.

(** ** Nodes *)

Definition node_ok (n : nat) (j : JSON) (f : searchFilter) : Prop :=
  wide_ok f /\ sf_defaultExclusion f = false /\
  (forall r, wanted_to String.eqb n j r = true -> wanted_to EqualFold n j r = true) /\
  match sf_or f with
  | [] => masks_ok f /\ forall r, holds f r <-> wanted_to String.eqb n j r = true
  | bs => Forall branch_ok bs /\ Forall (fun b => sf_defaultExclusion b = false) bs /\
          forall r, (exists b, b ∈ bs /\ holds b r) <-> wanted_to String.eqb n j r = true
  end.

Lemma translateCondition_ok n ms f :
  members_of ms !! "operator" = None ->
  translateCondition EqualFold parse_date order (members_of ms) = Some f -> node_ok n (JObj ms) f.
Proof.
  intros Hop Ht. unfold translateCondition in Ht. case_decide; [done|].
  pose proof (order_perm (map_to_list (members_of ms))) as Hp.
  destruct (apply_properties_holds _ _ _ Ht) as (Hm & E1 & E2 & E3 & Hh).
  { rewrite Hp. apply NoDup_fst_map_to_list. }
  { by intros name []. }
  { done. }
  assert (forall keq r, wanted_to keq n (JObj ms) r = forallb (wanted_member keq r) (order (map_to_list (members_of ms)))) as Hw.
  { intros keq r. assert (wanted_to keq n (JObj ms) r = forallb (wanted_member keq r) (map_to_list (members_of ms))) as ->.
    { destruct n; cbn [wanted_to]; by rewrite Hop. }
    apply eq_true_iff_eq. rewrite !forallb_forall. setoid_rewrite <- list_elem_of_In. by setoid_rewrite Hp. }
  split; [by intros Hw'; rewrite E2 in Hw'|]. split; [by apply E3|]. split.
  - intros r. rewrite !Hw. apply Hh.
  - rewrite E1. simpl. split; [done|]. intros r. rewrite Hw. destruct (Hh r) as [-> _].
    pose proof (zero_holds r). tauto.
Qed.

Section operators.
Context (n : nat) (node_translates : forall j f, translate_node n j = Some f -> node_ok n j f).

Lemma translateAnd_ok cs merged f :
  translateAnd (translate_node n) merged cs = Some f -> masks_ok merged -> sf_or merged = [] ->
  sf_accountWide merged = false -> sf_defaultExclusion merged = false ->
  masks_ok f /\ sf_or f = [] /\ sf_accountWide f = false /\ sf_defaultExclusion f = false /\
  forall r, (holds f r <-> holds merged r /\ forallb (fun c => wanted_to String.eqb n c r) cs = true) /\
    (forallb (fun c => wanted_to String.eqb n c r) cs = true -> forallb (fun c => wanted_to EqualFold n c r) cs = true).
Proof.
  revert merged. induction cs as [|c cs IH]; intros merged Ht Hm Ho Hw Hd; simpl in Ht.
  - injection Ht as <-. split; [done|]. split; [done|]. split; [done|]. split; [done|]. intros r. simpl. tauto.
  - destruct (translate_node n c) as [sub|] eqn:Hc; simpl in Ht; [|done].
    destruct (mergeFilters merged sub) as [m1|] eqn:H1; simpl in Ht; [|done].
    destruct (node_translates _ _ Hc) as (Hwo & Hdo & Hfold & Hsub).
    assert (sf_or sub = []) as Eo.
    { revert H1. unfold mergeFilters. pass_guards. intros _.
      match goal with H : negb (bool_decide (sf_or sub = [])) = false |- _ => by apply negb_false_iff, bool_decide_eq_true in H end. }
    rewrite Eo in Hsub. destruct Hsub as [Hms Hh].
    destruct (mergeFilters_shape _ _ _ H1 Hm Hms) as (Hm1 & E1 & E2 & E3 & _).
    destruct (IH m1 Ht Hm1) as (A & B & C & D & Hr); [congruence..|].
    split; [done|]. split; [done|]. split; [done|]. split; [done|]. intros r. simpl.
    destruct (Hr r) as [Hr1 Hr2]. rewrite Hr1, (mergeFilters_holds _ _ _ r H1), Hh, !andb_true_iff.
    split; [tauto|]. intros [? ?]. split; [by apply Hfold|by apply Hr2].
Qed.

Lemma translate_branches_ok cs bs :
  translate_branches (translate_node n) cs = Some bs ->
  Forall branch_ok bs /\ Forall (fun b => sf_defaultExclusion b = false) bs /\
  forall r, ((exists b, b ∈ bs /\ holds b r) <-> existsb (fun c => wanted_to String.eqb n c r) cs = true) /\
    (existsb (fun c => wanted_to String.eqb n c r) cs = true -> existsb (fun c => wanted_to EqualFold n c r) cs = true).
Proof.
  revert bs. induction cs as [|c cs IH]; intros bs Ht; simpl in Ht.
  - injection Ht as <-. split; [done|]. split; [done|]. intros r. split; [|done]. split; [intros (b & Hb & _); by inversion Hb|done].
  - destruct (translate_node n c) as [sub|] eqn:Hc; simpl in Ht; [|done].
    destruct (bool_decide (sf_or sub = [])) eqn:Eo; simpl in Ht; [|done]. apply bool_decide_eq_true in Eo.
    destruct (answerable sub) as [b|] eqn:Hb; simpl in Ht; [|done].
    destruct (translate_branches (translate_node n) cs) as [bs'|]; simpl in Ht; [|done]. injection Ht as <-.
    destruct (IH bs' eq_refl) as (Hok & Hd & Hr). destruct (node_translates _ _ Hc) as (Hwo & Hdo & Hfold & Hsub).
    rewrite Eo in Hsub. destruct Hsub as [Hms Hh].
    destruct (answerable_ok _ _ Hb Hms Eo Hwo) as (Hbo & Ed & Heq).
    split; [by constructor|]. split; [constructor; [congruence|done]|]. intros r. simpl.
    destruct (Hr r) as [Hr1 Hr2]. rewrite !orb_true_iff, <- Hr1, <- Hh, <- Heq. split.
    + split; [intros (b' & [->|Hin]%elem_of_cons & Hb'); eauto|].
      intros [?|(b' & ? & ?)]; [exists b; split; [by left|done]|exists b'; split; [by right|done]].
    + rewrite Hr1. intros [?|?]; [left; by apply Hfold, Hh, Heq|right; by apply Hr2].
Qed.
End operators.

Lemma null_ok n : node_ok n JNull (with_accountWide true zero_filter).
Proof.
  split; [done|]. split; [done|]. split; [by destruct n|]. split; [done|].
  intros r. split; [by destruct n|]. intros _. apply (zero_holds r).
Qed.

Lemma translate_node_ok n j f : translate_node n j = Some f -> node_ok n j f.
Proof.
  revert j f. induction n as [|n IH]; intros j f Ht; (destruct j as [|b|l|s|l|ms]; simpl in Ht; try done;
    [injection Ht as <-; apply null_ok|]);
    (destruct (members_of ms !! "operator") as [o|] eqn:Ho; [|by apply translateCondition_ok]); [done|].
  unfold translateOperator in Ht. destruct (read_operator (JObj ms)) as [op|] eqn:Hr; simpl in Ht; [|done].
  assert (forall keq r, wanted_to keq (S n) (JObj ms) r =
    let o := ToUpper (op_Operator op) in
    if String.eqb o "AND" then forallb (fun c => wanted_to keq n c r) (op_Conditions op)
    else if String.eqb o "OR" then existsb (fun c => wanted_to keq n c r) (op_Conditions op)
    else if String.eqb o "NOT" then negb (existsb (fun c => wanted_to keq n c r) (op_Conditions op))
    else false) as Hw.
  { intros keq r. cbn [wanted_to]. by rewrite Ho, Hr. }
  cbv zeta in Hw. destruct (String.eqb (ToUpper (op_Operator op)) "AND").
  - destruct (translateAnd_ok n IH _ _ _ Ht) as (A & B & C & D & Hh); try done.
    split; [intros ?; congruence|]. split; [done|]. split; [intros r; rewrite !Hw; apply Hh|].
    rewrite B. split; [done|]. intros r. rewrite Hw. destruct (Hh r) as [-> _]. pose proof (zero_holds r). tauto.
  - destruct (String.eqb (ToUpper (op_Operator op)) "OR"); [|done].
    unfold translateOr in Ht. destruct (op_Conditions op) as [|c [|c' cs]]; [done| |].
    + destruct (IH _ _ Ht) as (A & B & Hf & Hm). split; [done|]. split; [done|].
      split; [intros r; rewrite !Hw; simpl; rewrite !orb_false_r; apply Hf|].
      destruct (sf_or f) as [|b bs].
      * destruct Hm as [Hm Hh]. split; [done|]. intros r. rewrite Hw. simpl. by rewrite orb_false_r, Hh.
      * destruct Hm as (H1 & H2 & Hh). split; [done|]. split; [done|]. intros r. rewrite Hw. simpl. by rewrite orb_false_r, <- Hh.
    + destruct (_ <? _)%nat; [done|].
      destruct (translate_branches (translate_node n) (c :: c' :: cs)) as [bs|] eqn:Hb; simpl in Ht; [|done].
      injection Ht as <-. destruct (translate_branches_ok n IH _ _ Hb) as (H1 & H2 & Hh).
      split; [done|]. split; [done|]. split; [intros r; rewrite !Hw; apply Hh|]. cbn [sf_or with_or].
      destruct bs as [|b bs].
      { exfalso. revert Hb. simpl. destruct (translate_node n c); simpl; [|done]. destruct (bool_decide _); simpl; [|done].
        destruct (answerable s); simpl; [|done]. destruct (translate_node n c'); simpl; [|done].
        destruct (bool_decide _); simpl; [|done]. destruct (answerable s1); simpl; [|done].
        by destruct (translate_branches _ cs). }
      split; [done|]. split; [done|]. intros r. rewrite Hw. apply Hh.
Qed.

(** ** The theorem *)

(** C16: A filter is never half-applied. Whatever filter a client sends and in whatever order
    its properties are visited, if the server accepts it then every row it returns satisfies
    the whole filter ([wanted]: its operators, and each property as RFC 8621 reads it, except
    that text, from, to and subject ask for a match of the row's full-text vector, which is
    PostgreSQL's). Conversely a row of the account that satisfies it is returned, unless it
    lies in the junk or trash mailbox the server hides, provided that the keywords the filter
    names are spelled byte for byte as they are stored: [keyword_case_hidden] shows that
    others are missed. *)
Theorem filter_faithful (a : Z) (hidden : list Z) (j : JSON) (f : searchFilter) (r : Row) :
  translateFilter EqualFold parse_date order j = Some f -> r_AccountID r = a -> r_Deleted r = false ->
  (answers a hidden f r = true -> wanted EqualFold j r = true) /\
  (wanted String.eqb j r = true -> r_MailboxID r ∉ hidden -> answers a hidden f r = true).
Proof.
  intros Ht Ha Hd. unfold translateFilter, translateNode in Ht. unfold wanted.
  destruct (translate_node (depth j) j) as [f0|] eqn:Hn; simpl in Ht; [|done].
  destruct (translate_node_ok _ _ _ Hn) as (Hw & Hdef & Hfold & Hsem). unfold answers.
  assert (forall b, branch_ok b -> sf_defaultExclusion b = false ->
    let b' := applyDefaultExclusion b in branch_ok b' /\ forall r, holds b' r <-> holds b r) as Hexcl.
  { intros b Hb Hbd. unfold applyDefaultExclusion. destruct (sf_accountWide b); [done|]. by destruct (_ || _). }
  assert (forall b, branch_ok b -> sf_defaultExclusion b = false ->
    path_cond a (resolveExclusions hidden (applyDefaultExclusion b)) r = true <->
    holds b r /\ (sf_defaultExclusion (applyDefaultExclusion b) = true -> r_MailboxID r ∉ hidden)) as Hpath.
  { intros b Hb Hbd. destruct (Hexcl b Hb Hbd) as [Hb' Hh]. destruct (resolve_ok hidden _ Hb') as [Hb'' Hh'].
    by rewrite (path_cond_holds a _ r Hb'' Ha Hd), Hh', Hh. }
  destruct (sf_or f0) as [|b0 bs] eqn:Eo.
  - destruct (answerable f0) as [f1|] eqn:H1; simpl in Ht; [|done]. injection Ht as <-.
    destruct Hsem as [Hm Hh]. destruct (answerable_ok _ _ H1 Hm Eo Hw) as (Hb & Ed & Heq).
    assert (sf_defaultExclusion f1 = false) as Hd1 by congruence.
    assert (sf_or (applyDefaultExclusion f1) = []) as -> by apply (Hexcl f1 Hb Hd1).
    rewrite (Hpath f1 Hb Hd1), Heq, Hh. split; [intros [? _]; by apply Hfold|tauto].
  - injection Ht as <-. cbn [sf_or with_or map]. destruct Hsem as (Hok & Hds & Hh).
    assert (forall P : searchFilter -> bool, existsb P (applyDefaultExclusion b0 :: map applyDefaultExclusion bs) = true <->
      exists b, b ∈ b0 :: bs /\ P (applyDefaultExclusion b) = true) as Hex.
    { intros P. change (applyDefaultExclusion b0 :: map applyDefaultExclusion bs) with (map applyDefaultExclusion (b0 :: bs)). rewrite existsb_exists.
      setoid_rewrite in_map_iff. setoid_rewrite <- list_elem_of_In. split.
      - intros (x & (b & <- & Hb) & Hp). by exists b.
      - intros (b & Hb & Hp). eauto. }
    rewrite Hex. rewrite Forall_forall in Hok, Hds. split.
    + intros (b & Hb & Hp). apply Hfold, Hh. exists b. split; [done|].
      apply (Hpath b (Hok b Hb) (Hds b Hb)). done.
    + intros (b & Hb & Hp)%Hh Hhid. exists b. split; [done|]. apply (Hpath b (Hok b Hb) (Hds b Hb)). done.
Qed.
End meaning.

(** ** The bound on nesting *)

Lemma depth_member name j ms : (name, j) ∈ ms -> (S (depth j) <= depth (JObj ms))%nat.
Proof.
  intros Hin. simpl. apply le_n_S. induction ms as [|kv ms IH]; [by inversion Hin|]. simpl.
  apply elem_of_cons in Hin as [<-|Hin]; simpl; [lia|]. specialize (IH Hin). lia.
Qed.
Lemma depth_item c l : c ∈ l -> (S (depth c) <= depth (JArr l))%nat.
Proof.
  intros Hin. simpl. apply le_n_S. induction l as [|d l IH]; [by inversion Hin|]. simpl.
  apply elem_of_cons in Hin as [<-|Hin]; [lia|]. specialize (IH Hin). lia.
Qed.

Lemma dec_raws cur l l' : dec_elems dec_raw JNull cur l = Some l' -> l' = l.
Proof.
  revert cur l'. induction l as [|j l IH]; intros cur l'; simpl; [by intros [= <-]|].
  destruct (dec_elems dec_raw JNull (tail cur) l) as [xs|] eqn:E; simpl; [|done]. intros [= <-]. f_equal. by eapply IH.
Qed.

Lemma operator_depth ms op c :
  read_operator (JObj ms) = Some op -> c ∈ op_Conditions op -> (S (S (depth c)) <= depth (JObj ms))%nat.
Proof.
  unfold read_operator, dec_struct. set (d := depth (JObj ms)).
  assert (forall kv, kv ∈ ms -> (S (depth kv.2) <= d)%nat) as Hms by (intros [k j]; apply depth_member).
  clearbody d.
  assert (forall cur, (forall c, c ∈ op_Conditions cur -> (S (S (depth c)) <= d)%nat) ->
    dec_members operator_fields cur ms = Some op -> forall c, c ∈ op_Conditions op -> (S (S (depth c)) <= d)%nat) as Hgen.
  { revert Hms. induction ms as [|[k j] ms IH]; intros Hms cur Hcur; simpl; [intros [= <-]; done|].
    destruct (dec_member operator_fields cur (k, j)) as [cur'|] eqn:E; simpl; [|done].
    apply IH; [intros kv Hin; apply Hms; by right|]. intros c' Hc'. unfold dec_member in E. simpl in E.
    pose proof (Hms (k, j) ltac:(by left)) as Hj. simpl in Hj.
    destruct (String.eqb (fold_name k) (fold_name "operator")).
    - simpl in E. destruct (dec_string (op_Operator cur) j); simpl in E; [|done]. injection E as <-. by apply Hcur.
    - destruct (String.eqb (fold_name k) (fold_name "conditions")); [|injection E as <-; by apply Hcur].
      simpl in E. destruct j as [|b|n|s|l|ms']; simpl in E; try done.
      + injection E as <-. simpl in Hc'. by inversion Hc'.
      + destruct (dec_elems dec_raw JNull (op_Conditions cur) l) as [xs|] eqn:El; simpl in E; [|done].
        injection E as <-. apply dec_raws in El as ->. simpl in Hc'. pose proof (depth_item _ _ Hc'). lia. }
  intros Hr. apply (Hgen (mkOperator "" [])); [intros c' Hc'; by inversion Hc'|done].
Qed.

(** The nesting of the filter is enough: any larger bound gives the same translation. *)
Lemma translate_node_depth EqualFold parse_date order n j :
  (depth j <= n)%nat -> translate_node EqualFold parse_date order n j = translateNode EqualFold parse_date order j.
Proof.
  unfold translateNode. intros Hn. assert (forall n m j, (depth j <= n)%nat -> (depth j <= m)%nat ->
    translate_node EqualFold parse_date order n j = translate_node EqualFold parse_date order m j) as Hg; [|by apply Hg].
  clear n j Hn. intros n. induction n as [|n IH]; intros m j Hn Hm.
  - destruct j; try (by destruct m). simpl in Hn. lia.
  - destruct j as [|b|l|s|l|ms]; try (by destruct m). destruct m as [|m]; [simpl in Hm; lia|].
    cbn [translate_node]. destruct (members_of ms !! "operator"); [|done]. unfold translateOperator.
    destruct (read_operator (JObj ms)) as [op|] eqn:Hr; [|done]. simpl.
    assert (forall c, c ∈ op_Conditions op -> translate_node EqualFold parse_date order n c = translate_node EqualFold parse_date order m c) as Hc.
    { intros c Hc. pose proof (operator_depth _ _ _ Hr Hc). apply IH; lia. }
    assert (forall l f, (forall c, c ∈ l -> c ∈ op_Conditions op) ->
      translateAnd (translate_node EqualFold parse_date order n) f l = translateAnd (translate_node EqualFold parse_date order m) f l) as Hand.
    { induction l as [|c l IHl]; intros f Hl; simpl; [done|]. rewrite Hc by (apply Hl; by left).
      destruct (translate_node _ _ _ m c) as [sub|]; simpl; [|done]. destruct (mergeFilters f sub); simpl; [|done].
      apply IHl. intros c' ?. apply Hl. by right. }
    assert (forall l, (forall c, c ∈ l -> c ∈ op_Conditions op) ->
      translate_branches (translate_node EqualFold parse_date order n) l = translate_branches (translate_node EqualFold parse_date order m) l) as Hor.
    { induction l as [|c l IHl]; intros Hl; simpl; [done|]. rewrite Hc by (apply Hl; by left).
      destruct (translate_node _ _ _ m c) as [sub|]; simpl; [|done]. destruct (negb _); [done|].
      rewrite IHl; [done|]. intros c' ?. apply Hl. by right. }
    rewrite Hand by done. destruct (String.eqb _ "AND"); [done|]. destruct (String.eqb _ "OR"); [|done].
    unfold translateOr. destruct (op_Conditions op) as [|c [|c' cs]] eqn:Ec; [done|apply Hc; by left|].
    destruct (_ <? _)%nat; [done|]. by rewrite Hor.
Qed.

(** ** Concrete filters *)

Section samples.
Definition fold_ascii (s t : string) : bool := String.eqb (lower_ascii s) (lower_ascii t).
Lemma fold_ascii_refl s : fold_ascii s s = true.
Proof. apply String.eqb_refl. Qed.
Lemma fold_ascii_sym s t : fold_ascii s t = fold_ascii t s.
Proof. apply String.eqb_sym. Qed.

Definition in_cc (text : string) (r : Row) : bool := Contains (r_Cc r) text.
Definition sample_row (id mailbox flags : Z) (keywords : list string) : Row :=
  mkRow id 1 100 mailbox flags keywords false None 50 false "ana@example.org" "".
Definition sample_translate : JSON -> option searchFilter := translateFilter fold_ascii (ParseInt 10) id.

(** Flagged mail of Ana, or anything in mailbox 3 of at least forty bytes. *)
Definition flagged_or_big : JSON :=
  JObj [("operator", JStr "or");
        ("conditions", JArr [JObj [("from", JStr "ana"); ("hasKeyword", JStr "$Flagged")];
                             JObj [("operator", JStr "AND");
                                   ("conditions", JArr [JObj [("inMailbox", JStr (encodeID mailboxIDPrefix 3))];
                                                        JObj [("minSize", JNum "40")]])]])].
End samples.

(** What the repertoire answers to a filter, if it is accepted. *)
Definition answer_to (j : JSON) (hidden : list Z) (r : Row) : option bool :=
  f ← sample_translate j; Some (answers in_cc lower_ascii 1 hidden f r).

Lemma filter_faithful_witness :
  exists f, sample_translate flagged_or_big = Some f /\
    wanted in_cc lower_ascii fold_ascii (ParseInt 10) String.eqb flagged_or_big (sample_row 1 2 4 []) = true /\
    answers in_cc lower_ascii 1 [9] f (sample_row 1 2 4 []) = true /\
    answers in_cc lower_ascii 1 [9] f (sample_row 2 9 4 []) = false.
Proof.
  assert (bool_decide (is_Some (sample_translate flagged_or_big)) = true) as Hs by (vm_compute; reflexivity).
  apply bool_decide_eq_true in Hs as [f Hf]. exists f. split; [done|].
  assert (wanted in_cc lower_ascii fold_ascii (ParseInt 10) String.eqb flagged_or_big (sample_row 1 2 4 []) = true) as Hw
    by (vm_compute; reflexivity).
  split; [done|]. split.
  - apply (filter_faithful in_cc lower_ascii fold_ascii (ParseInt 10) fold_ascii_refl fold_ascii_sym id
      (fun l => reflexivity l) 1 [9] flagged_or_big f (sample_row 1 2 4 []) Hf eq_refl eq_refl); [done|].
    intros [E|E]%elem_of_cons; [done|by inversion E].
  - vm_compute in Hf. injection Hf as <-. vm_compute. reflexivity.
Defined.

(** A keyword is compared byte by byte in the database: mail labelled with another case of it
    is not found, although keywords are case-insensitive and the sort finds it. *)
Example keyword_case_hidden :
  let j := JObj [("hasKeyword", JStr "Work")] in
  wanted in_cc lower_ascii fold_ascii (ParseInt 10) fold_ascii j (sample_row 1 2 0 ["work"]) = true /\
  answer_to j [] (sample_row 1 2 0 ["work"]) = Some false.
Proof. split; vm_compute; reflexivity. Qed.

(** A search for a label is exempt from the exclusion of junk and trash, which is kept for
    filters without conditions. *)
Example label_search_shows_trash :
  answer_to (JObj [("hasKeyword", JStr "work")]) [9] (sample_row 1 9 0 ["work"]) = Some true.
Proof. vm_compute. reflexivity. Qed.

(** Naming the folder is enough to see it. *)
Example trash_is_searchable :
  answer_to (JObj [("text", JStr "ana"); ("inMailbox", JStr (encodeID mailboxIDPrefix 9))]) [9] (sample_row 1 9 0 []) =
    Some true.
Proof. vm_compute. reflexivity. Qed.
