(* ===== verification/Query.v ===== *)
(** Email/query: the handler of query.go and the store-backed search of adapter_query.go and
    adapter_query_e3.go (src/internal/jmap/mail). The rows of the store do not change while
    one request is answered. *)

From S2P Require Import Prelude Text GoStrings Jmap Json JsonDecode Changes Search QueryFilter.
#[local] Open Scope Z_scope.

Definition DefaultSearchWindow : Z := 200.
Definition MaxQueryReach : Z := 100000.
Definition maxCollapsePasses : nat := 32.

(** ** Requests *)

Record comparator := mkComparator {
  co_Property : string;
  co_IsAscending : option bool;
  co_Collation : option string;
  co_Keyword : string
}.
Definition ascending (c : comparator) : bool := default true (co_IsAscending c).

Record queryRequest := mkQueryRequest {
  qr_AccountID : string;
  qr_Filter : JSON;
  qr_Sort : list comparator;
  qr_Position : option Z;
  qr_Anchor : option string;
  qr_AnchorOffset : Z;
  qr_Limit : option Z;
  qr_CalculateTotal : bool;
  qr_CollapseThreads : bool
}.

Record queryResponse := mkQueryResponse {
  qs_AccountID : string;
  qs_QueryState : string;
  qs_CanCalculateChanges : bool;
  qs_Position : Z;
  qs_IDs : list string;
  qs_Total : option Z;
  qs_Limit : option Z
}.

Definition zero_comparator : comparator := mkComparator "" None None "".
Definition comparator_fields : list (field comparator) :=
  [at_field "property" co_Property (fun c v => mkComparator v (co_IsAscending c) (co_Collation c) (co_Keyword c)) dec_string;
   at_field "isAscending" co_IsAscending (fun c v => mkComparator (co_Property c) v (co_Collation c) (co_Keyword c)) (dec_pointer dec_bool false);
   at_field "collation" co_Collation (fun c v => mkComparator (co_Property c) (co_IsAscending c) v (co_Keyword c)) (dec_pointer dec_string "");
   at_field "keyword" co_Keyword (fun c v => mkComparator (co_Property c) (co_IsAscending c) (co_Collation c) v) dec_string].

(** An absent filter is null. *)
Definition zero_request : queryRequest := mkQueryRequest "" JNull [] None None 0 None false false.
Definition query_fields : list (field queryRequest) :=
  [at_field "accountId" qr_AccountID (fun q v => mkQueryRequest v (qr_Filter q) (qr_Sort q) (qr_Position q) (qr_Anchor q) (qr_AnchorOffset q) (qr_Limit q) (qr_CalculateTotal q) (qr_CollapseThreads q)) dec_string;
   at_field "filter" qr_Filter (fun q v => mkQueryRequest (qr_AccountID q) v (qr_Sort q) (qr_Position q) (qr_Anchor q) (qr_AnchorOffset q) (qr_Limit q) (qr_CalculateTotal q) (qr_CollapseThreads q)) dec_raw;
   at_field "sort" qr_Sort (fun q v => mkQueryRequest (qr_AccountID q) (qr_Filter q) v (qr_Position q) (qr_Anchor q) (qr_AnchorOffset q) (qr_Limit q) (qr_CalculateTotal q) (qr_CollapseThreads q)) (dec_slice (dec_struct comparator_fields) zero_comparator);
   at_field "position" qr_Position (fun q v => mkQueryRequest (qr_AccountID q) (qr_Filter q) (qr_Sort q) v (qr_Anchor q) (qr_AnchorOffset q) (qr_Limit q) (qr_CalculateTotal q) (qr_CollapseThreads q)) (dec_pointer dec_int 0);
   at_field "anchor" qr_Anchor (fun q v => mkQueryRequest (qr_AccountID q) (qr_Filter q) (qr_Sort q) (qr_Position q) v (qr_AnchorOffset q) (qr_Limit q) (qr_CalculateTotal q) (qr_CollapseThreads q)) (dec_pointer dec_string "");
   at_field "anchorOffset" qr_AnchorOffset (fun q v => mkQueryRequest (qr_AccountID q) (qr_Filter q) (qr_Sort q) (qr_Position q) (qr_Anchor q) v (qr_Limit q) (qr_CalculateTotal q) (qr_CollapseThreads q)) dec_int;
   at_field "limit" qr_Limit (fun q v => mkQueryRequest (qr_AccountID q) (qr_Filter q) (qr_Sort q) (qr_Position q) (qr_Anchor q) (qr_AnchorOffset q) v (qr_CalculateTotal q) (qr_CollapseThreads q)) (dec_pointer dec_uint 0);
   at_field "calculateTotal" qr_CalculateTotal (fun q v => mkQueryRequest (qr_AccountID q) (qr_Filter q) (qr_Sort q) (qr_Position q) (qr_Anchor q) (qr_AnchorOffset q) (qr_Limit q) v (qr_CollapseThreads q)) dec_bool;
   at_field "collapseThreads" qr_CollapseThreads (fun q v => mkQueryRequest (qr_AccountID q) (qr_Filter q) (qr_Sort q) (qr_Position q) (qr_Anchor q) (qr_AnchorOffset q) (qr_Limit q) (qr_CalculateTotal q) v) dec_bool].

Definition parseQuery (caller : option Caller) (args : JSON) : ErrorCode + queryRequest :=
  match caller with
  | None => inl CodeForbidden
  | Some c =>
      match dec_struct query_fields zero_request args with
      | None => inl CodeInvalidArguments
      | Some req =>
          if String.eqb (qr_AccountID req) "" then inl CodeInvalidArguments
          else if negb (String.eqb (qr_AccountID req) (JMAPAccountID c)) then inl CodeAccountNotFound
          else if match qr_Limit req with Some l => 2 ^ 32 <? l | None => false end then inl CodeInvalidArguments
          else inr req
      end
  end.

(** ** Sorting *)

Definition SortReceivedAt : string := "receivedAt".
Definition SortRelevance : string := "relevance".
Definition SortHasKeyword : string := "hasKeyword".

Record sortSpec := mkSort {
  ss_byRelevance : bool;
  ss_ascending : bool;
  ss_keyword : string;
  ss_keywordFirst : bool
}.

Definition no_collation (c : comparator) : bool :=
  match co_Collation c with Some s => String.eqb s "" | None => true end.

Definition keywordComparator (c : comparator) : option string :=
  if String.eqb (TrimSpace (co_Keyword c)) "" then None else Some (co_Keyword c).

Definition translateKeywordSort (sort : list comparator) : option sortSpec :=
  match sort with
  | [k; d] =>
      if String.eqb (co_Property k) SortHasKeyword && String.eqb (co_Property d) SortReceivedAt &&
         no_collation k && no_collation d
      then kw ← keywordComparator k; Some (mkSort false (ascending d) kw (negb (ascending k)))
      else None
  | _ => None
  end.

(** [None] is the error unsupportedSort. *)
Definition translateSort (sort : list comparator) : option sortSpec :=
  match sort with
  | [] => Some (mkSort false false "" false)
  | [c] =>
      if negb (no_collation c) then None
      else if String.eqb (co_Property c) SortReceivedAt then Some (mkSort false (ascending c) "" false)
      else if String.eqb (co_Property c) SortRelevance then
        if ascending c then None else Some (mkSort true false "" false)
      else if String.eqb (co_Property c) SortHasKeyword then
        kw ← keywordComparator c; Some (mkSort false false kw (negb (ascending c)))
      else None
  | _ => translateKeywordSort sort
  end.

Record searchHit := mkHit { sh_id : Z; sh_date : Z; sh_hasKeyword : bool }.

(** The comparison of sortIDsStable. *)
Definition hit_before (s : sortSpec) (a b : searchHit) : bool :=
  if negb (String.eqb (ss_keyword s) "") && negb (Bool.eqb (sh_hasKeyword a) (sh_hasKeyword b))
  then Bool.eqb (sh_hasKeyword a) (ss_keywordFirst s)
  else if sh_date a =? sh_date b
       then if ss_ascending s then sh_id a <? sh_id b else sh_id b <? sh_id a
       else if ss_ascending s then sh_date a <? sh_date b else sh_date b <? sh_date a.
Definition hit_le (s : sortSpec) (a b : searchHit) : Prop := hit_before s b a = false.
#[export] Instance hit_le_dec s : RelDecision (hit_le s).
Proof. intros a b. unfold hit_le. apply _. Defined.
Definition sortIDsStable (hits : list searchHit) (s : sortSpec) : list Z :=
  sh_id <$> merge_sort (hit_le s) hits.

(** ** The store-backed search *)

Section adapter.
Context (matches_text : string -> Row -> bool) (rank : string -> Row -> Z) (ToLower : string -> string).
Context (EqualFold : string -> string -> bool) (parse_date : string -> option Z).
Context (order : list (string * JSON) -> list (string * JSON)).
(** The account, the ids of its junk and trash mailboxes, and the rows. *)
Context (a : Z) (hidden : list Z) (db : list Row).

(** [None] is an error of the store. *)
Definition fetchPage (f : searchFilter) (limit : Z) (cursor : option SearchCursor) : option (list Row) :=
  let q := query_of a f cursor limit in
  if negb (String.eqb (sf_text f) "") then Search matches_text ToLower q db
  else if sf_accountWide f then Some (ListAccountMessages ToLower q db)
  else if negb (String.eqb (sf_keyword f) "") then None
  else match sf_mailboxID f with Some _ => Some (ListMailboxMessages ToLower q db) | None => None end.

(** The paging walk of SearchEmails. *)
Fixpoint walk (fuel : nat) (fetch : Z -> option SearchCursor -> option (list Row)) (reach : Z)
    (hits : list Row) (cursor : option SearchCursor) : option (list Row) :=
  match fuel with
  | O => Some hits
  | S fuel =>
      if Z.of_nat (List.length hits) <? reach then
        let want := Z.min (reach - Z.of_nat (List.length hits)) MaxSearchLimit in
        results ← fetch want cursor;
        match last results with
        | None => Some hits
        | Some l =>
            if Z.of_nat (List.length results) <? want then Some (hits ++ results)
            else walk fuel fetch reach (hits ++ results) (Some (cursor_at l))
        end
      else Some hits
  end.

Definition hit_of (s : sortSpec) (r : Row) : searchHit :=
  mkHit (r_ID r) (r_Date r) (negb (String.eqb (ss_keyword s) "") && hasKeyword EqualFold r (ss_keyword s)).

Definition search_one (f : searchFilter) (s : sortSpec) (reach : Z) : option (list Z) :=
  let f := resolveExclusions hidden f in
  if ss_byRelevance s then
    rows ← SearchByRelevance matches_text rank ToLower (query_of a f None MaxSearchLimit) db; Some (map r_ID rows)
  else
    rows ← walk (Z.to_nat reach) (fetchPage f) reach [] None;
    Some (sortIDsStable (map (hit_of s) rows) s).

(** The walk over windows of SearchThreads. *)
Fixpoint collapsed_walk (passes : nat) (f : searchFilter) (reach : Z) (hits : list Row)
    (cursor : option SearchCursor) : option (list Row) :=
  match passes with
  | O => Some hits
  | S passes =>
      if Z.of_nat (List.length hits) <? reach then
        let want := Z.min (reach - Z.of_nat (List.length hits)) MaxSearchLimit in
        res ← ListCollapsedMessages matches_text ToLower 0 (query_of a f cursor want) db;
        let hits := hits ++ co_Rows res in
        match co_NextCursor res with
        | Some c => if co_WindowExhausted res then collapsed_walk passes f reach hits (Some c) else Some hits
        | None => Some hits
        end
      else Some hits
  end.

Definition threads_one (f : searchFilter) (s : sortSpec) (reach : Z) : option (list Z) :=
  if ss_byRelevance s then None
  else
    rows ← collapsed_walk maxCollapsePasses (resolveExclusions hidden f) reach [] None;
    Some (sortIDsStable (map (hit_of s) rows) s).

(** ** Unions *)

(** The ids of a branch with their positions, without those seen before. *)
Fixpoint unseen (seen : list Z) (pos : Z) (ids : list Z) : list (Z * Z) :=
  match ids with
  | [] => []
  | i :: ids => if bool_decide (i ∈ seen) then unseen seen (pos + 1) ids
                else (i, pos) :: unseen (i :: seen) (pos + 1) ids
  end.

Fixpoint merge_branches (run : searchFilter -> option (list Z)) (seen : list Z) (bs : list searchFilter)
    : option (list (Z * Z)) :=
  match bs with
  | [] => Some []
  | b :: bs =>
      ids ← run b;
      let new := unseen seen 0 ids in
      rest ← merge_branches run ((new.*1) ++ seen) bs; Some (new ++ rest)
  end.

(** By position, then by id, the newest first. *)
Definition rank_le (x y : Z * Z) : Prop := x.2 < y.2 \/ (x.2 = y.2 /\ y.1 <= x.1).
#[export] Instance rank_le_dec : RelDecision rank_le.
Proof. intros x y. unfold rank_le. apply _. Defined.

Definition searchUnion (run : searchFilter -> option (list Z)) (bs : list searchFilter) (reach : Z) : option (list Z) :=
  hits ← merge_branches run [] bs;
  Some (take (Z.to_nat reach) ((merge_sort rank_le hits).*1)).

Definition SearchEmails (f : searchFilter) (s : sortSpec) (reach : Z) : option (list Z) :=
  if reach <=? 0 then Some []
  else match sf_or f with
       | [] => search_one f s reach
       | bs => searchUnion (fun b => search_one b s reach) bs reach
       end.

Definition SearchThreads (f : searchFilter) (s : sortSpec) (reach : Z) : option (list Z) :=
  if reach <=? 0 then Some []
  else if ss_byRelevance s then None
  else match sf_or f with
       | [] => threads_one f s reach
       | bs => searchUnion (fun b => threads_one b s reach) bs reach
       end.

(** ** The handler *)

Definition effectiveQueryLimit (requested : option Z) : Z * bool :=
  match requested with
  | None => (DefaultSearchWindow, true)
  | Some l => if DefaultSearchWindow <? l then (DefaultSearchWindow, true) else (l, false)
  end.

Definition queryReach (req : queryRequest) (limit : Z) : Z :=
  if bool_decide (is_Some (qr_Anchor req)) || match qr_Position req with Some p => p <? 0 | None => false end
  then MaxQueryReach
  else
    let pos := default 0 (qr_Position req) in
    if MaxQueryReach <? pos then MaxQueryReach
    else if MaxQueryReach <? pos + limit then MaxQueryReach else pos + limit.

Fixpoint index_of (i : Z) (l : list Z) : option nat :=
  match l with [] => None | x :: l => if x =? i then Some 0%nat else S <$> index_of i l end.

Definition DecodeEmailID (s : string) : option Z := decodeID emailIDPrefix s.

(** The index of the first id; int64 arithmetic wraps. *)
Definition resolveStart (req : queryRequest) (found : list Z) : ErrorCode + Z :=
  match qr_Anchor req with
  | Some anchor =>
      match DecodeEmailID anchor with
      | None => inl CodeAnchorNotFound
      | Some id =>
          match index_of id found with
          | None => inl CodeAnchorNotFound
          | Some i => let start := wrap64s (Z.of_nat i + qr_AnchorOffset req) in
                      inr (if start <? 0 then 0 else start)
          end
      end
  | None =>
      let pos := default 0 (qr_Position req) in
      let pos := if pos <? 0 then pos + Z.of_nat (List.length found) else pos in
      inr (if pos <? 0 then 0 else pos)
  end.

Definition queryTotal (matched reach : Z) : option Z :=
  let bound := if (0 <? reach) && (reach <? DefaultSearchWindow) then reach else DefaultSearchWindow in
  if matched <? bound then Some matched else None.

Definition collapseRefusal (req : queryRequest) (s : sortSpec) : bool := qr_CollapseThreads req && ss_byRelevance s.

Definition queryStateFor (dataState : string) : string := "q" +:+ dataState.

(** The part of the handler behind parseQuery. *)
Definition answer_query (dataState : string) (req : queryRequest) : ErrorCode + queryResponse :=
  match translateFilter EqualFold parse_date order (qr_Filter req) with
  | None => inl CodeUnsupportedFilter
  | Some f =>
      match translateSort (qr_Sort req) with
      | None => inl CodeUnsupportedSort
      | Some s =>
          if ss_byRelevance s && String.eqb (sf_text f) "" then inl CodeUnsupportedSort
          else if collapseRefusal req s then inl CodeUnsupportedSort
          else
            let '(limit, serverLimited) := effectiveQueryLimit (qr_Limit req) in
            let reach := queryReach req limit in
            match (if qr_CollapseThreads req then SearchThreads f s reach else SearchEmails f s reach) with
            | None => inl CodeServerFail
            | Some found =>
                match resolveStart req found with
                | inl e => inl e
                | inr start =>
                    let n := Z.of_nat (List.length found) in
                    let stop := Z.min (start + limit) n in
                    let start := Z.min start n in
                    inr {| qs_AccountID := qr_AccountID req;
                           qs_QueryState := queryStateFor dataState;
                           qs_CanCalculateChanges := false;
                           qs_Position := start;
                           qs_IDs := EncodeEmailID <$> take (Z.to_nat (stop - start)) (drop (Z.to_nat start) found);
                           qs_Total := if qr_CalculateTotal req then queryTotal n reach else None;
                           qs_Limit := if serverLimited then Some limit else None |}
                end
            end
      end
  end.

Definition handleEmailQuery (dataState : string) (caller : option Caller) (args : JSON) : ErrorCode + queryResponse :=
  match parseQuery caller args with
  | inl e => inl e
  | inr req => answer_query dataState req
  end.
End adapter.
