(* ===== verification/QueryPages.v ===== *)
(** Email/query answers the pages RFC 8620 asks for, in the order of arrival: the keyset walk
    returns exactly a prefix of the sorted matches, and the window cut out of it is the
    requested one. Where it does not, concrete requests show it. *)

From S2P Require Import Prelude Text GoStrings Jmap Json JsonDecode Changes Search QueryFilter QueryFaithful Query.
#[local] Open Scope Z_scope.

(** ** Sorted lists of rows *)

#[export] Instance newer_trans : Transitive newer.
Proof. intros x y z. unfold newer. lia. Qed.
#[export] Instance newer_total : Total newer.
Proof. intros x y. unfold newer. lia. Qed.

(** Rows of one table. *)
Definition distinct (rows : list Row) : Prop := NoDup (map r_ID rows).

Lemma distinct_inj rows x y : distinct rows -> x ∈ rows -> y ∈ rows -> r_ID x = r_ID y -> x = y.
Proof.
  unfold distinct. induction rows as [|r rows IH]; [by intros _ Hx; inversion Hx|]. simpl.
  intros [Hn Hd]%NoDup_cons Hx Hy E. assert (forall z, z ∈ rows -> r_ID z ∈ map r_ID rows) as Hin.
  { intros z Hz. apply list_elem_of_In, in_map, list_elem_of_In, Hz. }
  apply elem_of_cons in Hx as [->|Hx], Hy as [->|Hy]; [done| | |by apply IH].
  - exfalso. apply Hn. rewrite E. by apply Hin.
  - exfalso. apply Hn. rewrite <- E. by apply Hin.
Qed.

Lemma distinct_perm l l' : l ≡ₚ l' -> distinct l -> distinct l'.
Proof. unfold distinct. intros Hp. by rewrite (Permutation_map r_ID Hp). Qed.

Lemma distinct_filter P `{!forall x, Decision (P x)} l : distinct l -> distinct (filter P l).
Proof.
  unfold distinct. induction l as [|x l IH]; [done|]. simpl. intros [Hn Hd]%NoDup_cons.
  rewrite filter_cons. case_decide; simpl; [|by apply IH]. apply NoDup_cons. split; [|by apply IH].
  intros (y & E & Hy)%list_elem_of_In%in_map_iff. apply Hn. rewrite <- E. apply list_elem_of_In, in_map, list_elem_of_In.
  apply list_elem_of_In, list_elem_of_filter in Hy. apply Hy.
Qed.

Lemma by_date_perm l : by_date l ≡ₚ l.
Proof. apply merge_sort_Permutation. Qed.

Lemma by_date_sorted l : StronglySorted newer (by_date l).
Proof. apply (StronglySorted_merge_sort newer); apply _. Qed.

Lemma newer_antisym rows x y : distinct rows -> x ∈ rows -> y ∈ rows -> newer x y -> newer y x -> x = y.
Proof. intros Hd Hx Hy H1 H2. apply (distinct_inj rows); try done. unfold newer in *. lia. Qed.

Lemma sorted_unique l l' : distinct l -> l ≡ₚ l' -> StronglySorted newer l -> StronglySorted newer l' -> l = l'.
Proof.
  intros Hd Hp H1 H2. apply (StronglySorted_unique_strong newer); try done.
  intros x y Hx Hy. apply (newer_antisym l); try done. by rewrite Hp.
Qed.

Lemma StronglySorted_filter {A} (R : relation A) P `{!forall x, Decision (P x)} l :
  StronglySorted R l -> StronglySorted R (filter P l).
Proof.
  induction 1 as [|x l Hs IH Hx]; [constructor|]. rewrite filter_cons. case_decide; [|done].
  constructor; [done|]. rewrite Forall_forall in *. intros y [_ Hy]%list_elem_of_filter. by apply Hx.
Qed.

Lemma by_date_filter P `{!forall x, Decision (P x)} l :
  distinct l -> by_date (filter P l) = filter P (by_date l).
Proof.
  intros Hd. apply sorted_unique.
  - eapply distinct_perm; [symmetry; apply by_date_perm|by apply distinct_filter].
  - rewrite by_date_perm. by rewrite by_date_perm.
  - apply by_date_sorted.
  - apply StronglySorted_filter, by_date_sorted.
Qed.

(** The rows below the k-th of a sorted list are those behind it. *)
Lemma filter_below l k x :
  distinct l -> StronglySorted newer l -> l !! k = Some x ->
  filter (fun r => below (cursor_at x) r = true) l = drop (S k) l.
Proof.
  intros Hd Hs Hk. rewrite <- (take_drop_middle l k x Hk) in Hd, Hs |- * at 1.
  rewrite filter_app, filter_cons. apply StronglySorted_app in Hs as (Hlt & _ & [_ Hx]%StronglySorted_inv).
  assert (filter (fun r => below (cursor_at x) r = true) (take k l) = []) as ->.
  { apply list_filter_empty_iff || idtac. apply elem_of_nil_inv. intros y [Hb Hy]%list_elem_of_filter.
    specialize (Hlt y x Hy ltac:(by left)). unfold below, cursor_at, newer in *. simpl in Hb. lia. }
  assert (below (cursor_at x) x = false) as -> by (unfold below, cursor_at; simpl; lia).
  rewrite decide_False by done. simpl.
  assert (forall l', l' ⊆ drop (S k) l -> filter (fun r => below (cursor_at x) r = true) l' = l') as Hf; [|by apply Hf].
  intros l' Hl'. induction l' as [|y l' IH]; [done|]. rewrite filter_cons, decide_True, IH; [done|set_solver|].
  assert (y ∈ drop (S k) l) as Hy by set_solver. rewrite Forall_forall in Hx. specialize (Hx y Hy).
  assert (r_ID y <> r_ID x) as Hne.
  { intros E. unfold distinct in Hd. rewrite map_app in Hd. apply NoDup_app in Hd as (_ & _ & [Hn _]%NoDup_cons).
    apply Hn. rewrite <- E. apply list_elem_of_In, in_map, list_elem_of_In, Hy. }
  unfold below, cursor_at, newer in *. simpl. lia.
Qed.

(** ** The walk *)

Section walk.
Context (full : list Row) (full_distinct : distinct full) (full_sorted : StronglySorted newer full).
Context (fetch : Z -> option SearchCursor -> option (list Row)).
Context (fetch_page : forall want c, 1 <= want <= MaxSearchLimit ->
  fetch want c = Some (take (Z.to_nat want) (filter (fun r => opt c (fun c => below c r) = true) full))).

Lemma fetch_next want k x :
  1 <= want <= MaxSearchLimit -> full !! k = Some x ->
  fetch want (Some (cursor_at x)) = Some (take (Z.to_nat want) (drop (S k) full)).
Proof. intros Hw Hk. rewrite fetch_page by done. simpl. by rewrite (filter_below full k x). Qed.

Lemma fetch_first want : 1 <= want <= MaxSearchLimit -> fetch want None = Some (take (Z.to_nat want) full).
Proof.
  intros Hw. rewrite fetch_page by done. f_equal. f_equal. simpl.
  clear. induction full as [|x l IH]; [done|]. by rewrite filter_cons, decide_True, IH.
Qed.

Lemma walk_prefix fuel n reach cursor :
  (n <= List.length full)%nat -> Z.of_nat n <= reach -> reach - Z.of_nat n <= Z.of_nat fuel ->
  cursor = match n with O => None | S k => cursor_at <$> full !! k end ->
  walk fuel fetch reach (take n full) cursor = Some (take (Z.to_nat reach) full).
Proof.
  revert n cursor. induction fuel as [|fuel IH]; intros n cursor Hn Hr Hf Hc; simpl.
  - by replace (Z.to_nat reach) with n by lia.
  - rewrite length_take_le by done. destruct (Z.ltb_spec (Z.of_nat n) reach) as [Hlt|];
      [|by replace (Z.to_nat reach) with n by lia].
    set (want := Z.min (reach - Z.of_nat n) MaxSearchLimit).
    assert (1 <= want <= MaxSearchLimit) as Hw by (unfold want, MaxSearchLimit; lia).
    assert (fetch want cursor = Some (take (Z.to_nat want) (drop n full))) as ->.
    { destruct n as [|k]; [subst; by apply fetch_first|].
      destruct (lookup_lt_is_Some_2 full k) as [x Hx]; [lia|]. rewrite Hx in Hc. subst. by apply fetch_next. }
    simpl. set (page := take (Z.to_nat want) (drop n full)).
    assert (take n full ++ page = take (n + Z.to_nat want) full) as Hpage by (unfold page; by rewrite take_take_drop).
    assert (List.length page = Nat.min (Z.to_nat want) (List.length full - n)) as Hlen.
    { unfold page. by rewrite length_take, length_drop. }
    destruct (last page) as [l|] eqn:El.
    + rewrite Hpage. destruct (Z.ltb_spec (Z.of_nat (List.length page)) want) as [Hs|Hs].
      * rewrite !take_ge by lia. done.
      * apply IH; [lia|lia| |].
        { assert (0 < Z.to_nat want)%nat by lia. lia. }
        destruct (n + Z.to_nat want)%nat as [|m] eqn:Em; [lia|].
        assert (full !! m = Some l) as ->; [|done].
        rewrite last_lookup in El. unfold page in El. rewrite lookup_take_Some, lookup_drop in El. 
        destruct El as [El _]. rewrite <- El. f_equal. fold page. lia.
    + apply last_None in El. rewrite El in Hlen. simpl in Hlen.
      rewrite !take_ge by lia. done.
Qed.

Lemma walk_full reach : walk (Z.to_nat reach) fetch reach [] None = Some (take (Z.to_nat reach) full).
Proof.
  destruct (Z.le_gt_cases 0 reach).
  - apply (walk_prefix _ 0); simpl; lia || done.
  - replace (Z.to_nat reach) with 0%nat by lia. done.
Qed.
End walk.

(** ** From the filter to the walk *)

(** The filter has a statement that evaluates it. *)
Definition servable (f : searchFilter) : Prop :=
  sf_text f <> "" \/ sf_accountWide f = true \/ (is_Some (sf_mailboxID f) /\ sf_keyword f = "").

Lemma answerable_servable f f' : answerable f = Some f' -> servable f'.
Proof.
  unfold answerable, servable. destruct (String.eqb_spec (sf_text f) "") as [Et|Et]; simpl.
  2: { rewrite !andb_false_r. simpl. intros [= <-]. by left. }
  rewrite andb_true_r. destruct (String.eqb_spec (sf_keyword f) "") as [Ek|Ek]; simpl;
    destruct (sf_mailboxID f) as [m|] eqn:Em; simpl; destruct (sf_accountWide f) eqn:Ew; simpl;
    rewrite ?Et, ?Ek, ?Em, ?Ew; simpl; try done; rewrite ?Em; simpl; try done; intros [= <-];
    simpl; rewrite ?Ew, ?Em, ?Ek; eauto.
Qed.

Lemma servable_resolved hidden f :
  servable f -> servable (resolveExclusions hidden (applyDefaultExclusion f)).
Proof. unfold resolveExclusions, applyDefaultExclusion. by repeat case_match. Qed.

Lemma accepted_servable EqualFold parse_date order j f :
  translateFilter EqualFold parse_date order j = Some f -> sf_or f = [] ->
  forall hidden, servable (resolveExclusions hidden f).
Proof.
  unfold translateFilter. destruct (translateNode _ _ _ j) as [f0|]; simpl; [|done].
  destruct (sf_or f0) as [|b bs] eqn:Eo; [|by intros [= <-]].
  destruct (answerable f0) as [f1|] eqn:Ea; simpl; [|done]. intros [= <-] _ hidden.
  eapply servable_resolved, answerable_servable, Ea.
Qed.

Lemma filter_and (P Q : Row -> bool) (l : list Row) :
  filter (fun r => P r && Q r = true) l = filter (fun r => Q r = true) (filter (fun r => P r = true) l).
Proof.
  induction l as [|r l IH]; [done|]. rewrite !filter_cons. rewrite IH.
  destruct (P r) eqn:Ep; cbn [andb].
  - rewrite (decide_True (P := true = true)) by done. by rewrite filter_cons.
  - by rewrite !(decide_False (P := false = true)) by done.
Qed.

Section pages.
Context (matches_text : string -> Row -> bool) (rank : string -> Row -> Z) (ToLower : string -> string).
Context (EqualFold : string -> string -> bool) (parse_date : string -> option Z).
Context (order : list (string * JSON) -> list (string * JSON)).
Context (a : Z) (hidden : list Z) (db : list Row).

(** All rows a filter without branches matches, the newest first. *)
Definition listing (f : searchFilter) : list Row :=
  by_date (filter (fun r => path_cond matches_text ToLower a (resolveExclusions hidden f) r = true) db).

Lemma page_below cond q :
  distinct db -> 1 <= sq_Limit q <= MaxSearchLimit ->
  page cond q db = take (Z.to_nat (sq_Limit q))
    (filter (fun r => after_cursor q r = true) (by_date (filter (fun r => cond q r = true) db))).
Proof.
  intros Hd Hl. unfold page. replace (effectiveLimit (sq_Limit q)) with (sq_Limit q).
  2: { unfold effectiveLimit, MaxSearchLimit in *. destruct (Z.leb_spec (sq_Limit q) 0); [lia|]. destruct (Z.ltb_spec 200 (sq_Limit q)); lia. }
  by rewrite filter_and, by_date_filter by by apply distinct_filter.
Qed.

Lemma fetchPage_below f want c :
  distinct db -> servable f -> 1 <= want <= MaxSearchLimit ->
  fetchPage matches_text ToLower a db f want c =
    Some (take (Z.to_nat want) (filter (fun r => opt c (fun c => below c r) = true)
      (by_date (filter (fun r => path_cond matches_text ToLower a f r = true) db)))).
Proof.
  intros Hd Hs Hw. unfold fetchPage, path_cond, Search, ListAccountMessages, ListMailboxMessages.
  set (q := query_of a f c want).
  assert (1 <= sq_Limit q <= MaxSearchLimit) as Hq by done.
  destruct (String.eqb_spec (sf_text f) "") as [Et|Et]; cbn [negb].
  - destruct (sf_accountWide f) eqn:Ew; [rewrite (page_below _ q) by done; reflexivity|].
    destruct Hs as [?|[?|[[m Hm] Hk]]]; [done|congruence|]. rewrite Hk, Hm. cbn. rewrite (page_below _ q) by done. reflexivity.
  - change (sq_Text q) with (sf_text f). rewrite (proj2 (String.eqb_neq _ _) Et). rewrite (page_below _ q) by done. reflexivity.
Qed.

Lemma listing_distinct f : distinct db -> distinct (listing f).
Proof. intros Hd. eapply distinct_perm; [symmetry; apply by_date_perm|by apply distinct_filter]. Qed.

Lemma walk_listing f reach :
  distinct db -> servable (resolveExclusions hidden f) ->
  walk (Z.to_nat reach) (fetchPage matches_text ToLower a db (resolveExclusions hidden f)) reach [] None =
    Some (take (Z.to_nat reach) (listing f)).
Proof.
  intros Hd Hs. apply walk_full; [by apply listing_distinct|apply by_date_sorted|].
  intros want c Hw. by apply fetchPage_below.
Qed.
End pages.

(** ** The order *)

(** The plain order, newest first. *)
Definition newest_first (s : sortSpec) : Prop :=
  ss_byRelevance s = false /\ ss_ascending s = false /\ ss_keyword s = "".

Lemma hit_le_total s : Total (hit_le s).
Proof.
  intros x y. unfold hit_le, hit_before.
  destruct (negb (String.eqb (ss_keyword s) "")), (sh_hasKeyword x), (sh_hasKeyword y), (ss_keywordFirst s), (ss_ascending s);
    simpl; auto; rewrite ?(Z.eqb_sym (sh_date y));
    destruct (Z.eqb_spec (sh_date x) (sh_date y)); rewrite !Z.ltb_ge; lia.
Qed.

Lemma sortIDs_newest EqualFold s rows :
  newest_first s -> distinct rows -> StronglySorted newer rows ->
  sortIDsStable (map (hit_of EqualFold s) rows) s = map r_ID rows.
Proof.
  intros (_ & Ha & Hk) Hd Hs. unfold sortIDsStable.
  assert (forall x y, hit_le s x y <-> sh_date y < sh_date x \/ (sh_date y = sh_date x /\ sh_id y <= sh_id x)) as Hle.
  { intros x y. unfold hit_le, hit_before. rewrite Ha, Hk. simpl.
    destruct (Z.eqb_spec (sh_date y) (sh_date x)); rewrite Z.ltb_ge; lia. }
  assert (Transitive (hit_le s)) by (intros x y z; rewrite !Hle; lia).
  assert (Total (hit_le s)) by apply hit_le_total.
  assert (forall l, map r_ID l = sh_id <$> map (hit_of EqualFold s) l) as ->.
  { induction l as [|r l IH]; [done|]. simpl. by rewrite IH. }
  f_equal. apply (StronglySorted_unique_strong (hit_le s)).
  - intros x y Hx Hy. rewrite !Hle. intros H1 H2. rewrite merge_sort_Permutation in Hx.
    apply list_elem_of_In, in_map_iff in Hx as (r & <- & Hr%list_elem_of_In).
    apply list_elem_of_In, in_map_iff in Hy as (r' & <- & Hr'%list_elem_of_In).
    rewrite (distinct_inj rows r r'); try done. simpl in *. lia.
  - apply (StronglySorted_merge_sort (hit_le s)); apply _.
  - induction Hs as [|r rows Hs IH Hr]; simpl; [constructor|]. constructor.
    + apply IH. unfold distinct in *. simpl in Hd. by apply NoDup_cons in Hd as [_ ?].
    + rewrite Forall_forall. rewrite Forall_forall in Hr. intros x (r' & <- & Hr'%list_elem_of_In)%list_elem_of_In%in_map_iff.
      apply Hle. simpl. specialize (Hr r' Hr'). unfold newer in Hr. lia.
  - apply merge_sort_Permutation.
Qed.

(** ** The window *)

(** Where the answer starts (RFC 8620, 5.5), over the whole list; [None] is anchorNotFound. *)
Definition wanted_start (req : queryRequest) (ids : list Z) : option Z :=
  match qr_Anchor req with
  | Some anchor =>
      id ← DecodeEmailID anchor; i ← index_of id ids; Some (Z.max 0 (Z.of_nat i + qr_AnchorOffset req))
  | None =>
      let pos := default 0 (qr_Position req) in
      Some (if pos <? 0 then Z.max 0 (pos + Z.of_nat (List.length ids)) else pos)
  end.

Definition wanted_ids (start limit : Z) (ids : list Z) : list string :=
  EncodeEmailID <$> take (Z.to_nat limit) (drop (Z.to_nat start) ids).

(** The request asks for what the server reaches: a position it can walk to, or a list it can
    walk to the end of. *)
Definition in_reach (req : queryRequest) (ids : list Z) : Prop :=
  (qr_Anchor req = None /\ 0 <= default 0 (qr_Position req) /\
     default 0 (qr_Position req) + (effectiveQueryLimit (qr_Limit req)).1 <= MaxQueryReach) \/
  Z.of_nat (List.length ids) <= MaxQueryReach.

(** Integers of a request: UnsignedInt and Int of RFC 8620. *)
Definition small_ints (req : queryRequest) : Prop :=
  (match qr_Limit req with Some l => 0 <= l | None => True end) /\ - 9007199254740992 < qr_AnchorOffset req < 9007199254740992.

Lemma effectiveQueryLimit_range req : small_ints req -> 0 <= (effectiveQueryLimit (qr_Limit req)).1 <= DefaultSearchWindow.
Proof.
  intros [Hl _]. unfold effectiveQueryLimit, DefaultSearchWindow. destruct (qr_Limit req) as [l|]; [|simpl; lia].
  destruct (Z.ltb_spec 200 l); simpl; lia.
Qed.

Lemma queryReach_range req limit : 0 <= limit -> 0 <= queryReach req limit <= MaxQueryReach.
Proof.
  intros Hl. unfold queryReach. destruct (bool_decide (is_Some (qr_Anchor req)) || _) eqn:E; [unfold MaxQueryReach; lia|].
  apply orb_false_iff in E as [_ E].
  assert (0 <= default 0 (qr_Position req)) by (destruct (qr_Position req); simpl in *; lia).
  unfold MaxQueryReach. destruct (Z.ltb_spec 100000 (default 0 (qr_Position req))); [lia|].
  destruct (Z.ltb_spec 100000 (default 0 (qr_Position req) + limit)); lia.
Qed.

Lemma index_of_lt i l k : index_of i l = Some k -> (k < List.length l)%nat.
Proof.
  revert k. induction l as [|x l IH]; intros k; simpl; [done|]. destruct (x =? i); [intros [= <-]; lia|].
  destruct (index_of i l) as [k'|]; simpl; [|done]. intros [= <-]. specialize (IH k' eq_refl). lia.
Qed.

(** The part of the list that was walked suffices. *)
Lemma resolveStart_wanted req ids limit :
  0 <= limit -> small_ints req ->
  let found := take (Z.to_nat (queryReach req limit)) ids in
  (qr_Anchor req = None /\ 0 <= default 0 (qr_Position req) /\ default 0 (qr_Position req) + limit <= MaxQueryReach) \/
  Z.of_nat (List.length ids) <= MaxQueryReach ->
  match wanted_start req ids with
  | None => resolveStart req found = inl CodeAnchorNotFound
  | Some i => resolveStart req found = inr i /\ 0 <= i /\
      take (Z.to_nat limit) (drop (Z.to_nat i) found) = take (Z.to_nat limit) (drop (Z.to_nat i) ids) /\
      Z.min i (Z.of_nat (List.length found)) = Z.min i (Z.of_nat (List.length ids))
  end.
Proof.
  intros Hl [_ Ho] found Hr. unfold found, resolveStart, wanted_start, queryReach. clear found.
  destruct (qr_Anchor req) as [anchor|].
  - destruct Hr as [[? _]|Hr]; [done|]. simpl. rewrite (take_ge ids) by lia.
    destruct (DecodeEmailID anchor) as [id|]; simpl; [|done]. destruct (index_of id ids) as [k|] eqn:Ei; simpl; [|done].
    apply index_of_lt in Ei. assert (wrap64s (Z.of_nat k + qr_AnchorOffset req) = Z.of_nat k + qr_AnchorOffset req) as ->.
    { unfold wrap64s, MaxQueryReach in *. rewrite Z.mod_small by lia. lia. }
    destruct (Z.ltb_spec (Z.of_nat k + qr_AnchorOffset req) 0).
    + rewrite Z.max_l by lia. done.
    + rewrite Z.max_r by lia. done.
  - rewrite bool_decide_eq_false_2 by (by intros [? ?]). cbn [orb].
    assert (match qr_Position req with Some p => p <? 0 | None => false end = (default 0 (qr_Position req) <? 0)) as ->.
    { by destruct (qr_Position req). }
    set (pos := default 0 (qr_Position req)) in *. destruct (Z.ltb_spec pos 0) as [Hp|Hp].
    + destruct Hr as [(_ & ? & _)|Hr]; [lia|]. rewrite (take_ge ids) by lia.
      destruct (Z.ltb_spec (pos + Z.of_nat (List.length ids)) 0); [rewrite Z.max_l by lia|rewrite Z.max_r by lia]; done.
    + destruct (Z.ltb_spec pos 0); [lia|]. split; [done|]. split; [done|].
      destruct Hr as [(_ & _ & Hr)|Hr].
      * destruct (Z.ltb_spec MaxQueryReach pos); [lia|]. destruct (Z.ltb_spec MaxQueryReach (pos + limit)); [lia|].
        split; [|rewrite length_take; lia].
        replace (Z.to_nat (pos + limit)) with (Z.to_nat pos + Z.to_nat limit)%nat by lia.
        by rewrite <- take_drop_commute, take_take, Nat.min_id.
      * destruct (Z.ltb_spec MaxQueryReach pos); [by rewrite (take_ge ids) by lia|].
        destruct (Z.ltb_spec MaxQueryReach (pos + limit)); [by rewrite (take_ge ids) by lia|].
        split; [|rewrite length_take; lia].
        replace (Z.to_nat (pos + limit)) with (Z.to_nat pos + Z.to_nat limit)%nat by lia.
        by rewrite <- take_drop_commute, take_take, Nat.min_id.
Qed.

Section answers.
Context (matches_text : string -> Row -> bool) (rank : string -> Row -> Z) (ToLower : string -> string).
Context (EqualFold : string -> string -> bool) (parse_date : string -> option Z).
Context (order : list (string * JSON) -> list (string * JSON)).
Context (a : Z) (hidden : list Z) (db : list Row).
Abbreviation answer := (answer_query matches_text rank ToLower EqualFold parse_date order a hidden db).

Lemma search_one_listing f s reach :
  distinct db -> servable (resolveExclusions hidden f) -> newest_first s ->
  search_one matches_text rank ToLower EqualFold a hidden db f s reach =
    Some (take (Z.to_nat reach) (map r_ID (listing matches_text ToLower a hidden db f))).
Proof.
  intros Hd Hs Hn. unfold search_one. destruct Hn as (Hr & Ha & Hk). rewrite Hr.
  rewrite walk_listing by done. simpl. rewrite sortIDs_newest.
  - by rewrite <- firstn_map.
  - done.
  - pose proof (listing_distinct matches_text ToLower a hidden db f Hd) as Hl. unfold distinct in *.
    rewrite <- (take_drop (Z.to_nat reach) (listing _ _ _ _ _ f)), map_app in Hl. by apply NoDup_app in Hl as [? _].
  - assert (StronglySorted newer (listing matches_text ToLower a hidden db f)) as Hl by apply by_date_sorted.
    rewrite <- (take_drop (Z.to_nat reach) (listing _ _ _ _ _ f)) in Hl. by apply StronglySorted_app in Hl as (_ & ? & _).
Qed.

Lemma search_listing f s reach :
  distinct db -> servable (resolveExclusions hidden f) -> newest_first s -> sf_or f = [] ->
  SearchEmails matches_text rank ToLower EqualFold a hidden db f s reach =
    Some (take (Z.to_nat reach) (map r_ID (listing matches_text ToLower a hidden db f))).
Proof.
  intros Hd Hs Hn Ho. unfold SearchEmails. destruct (Z.leb_spec reach 0).
  - by replace (Z.to_nat reach) with 0%nat by lia.
  - rewrite Ho. by apply search_one_listing.
Qed.

Lemma queryTotal_exact (ids : list Z) reach n :
  0 < reach -> queryTotal (Z.of_nat (List.length (take (Z.to_nat reach) ids))) reach = Some n -> n = Z.of_nat (List.length ids).
Proof.
  intros Hr. unfold queryTotal. rewrite length_take. destruct (Z.ltb_spec 0 reach); [simpl|lia].
  destruct (Z.ltb_spec reach DefaultSearchWindow); (match goal with |- context [?x <? ?y] => destruct (Z.ltb_spec x y) end); [|done| |done];
    intros [= <-]; lia.
Qed.

(** C17: Paging through Email/query is exact where the server reaches. For a filter without OR,
    in the default order, newest first and not collapsed by thread, with integers of RFC 8620,
    and either a position that ends with its page within the first 100000 matches or a list no
    longer than that, the server walks its bounded pages with a cursor and answers exactly the
    ids RFC 8620 asks for: the window [start, start+limit) of the complete list of matching
    messages, or anchorNotFound when the anchor is not in that list; and a total it reports is
    the number of matches, provided at least one row was asked for or lies before the window.
    [total_of_no_rows], [collapsed_list_stops] and [long_thread_ends_list] show the rest. *)
Theorem query_pages_exact (dataState : string) (req : queryRequest) (f : searchFilter) (s : sortSpec) :
  distinct db ->
  translateFilter EqualFold parse_date order (qr_Filter req) = Some f -> sf_or f = [] ->
  translateSort (qr_Sort req) = Some s -> newest_first s ->
  qr_CollapseThreads req = false -> small_ints req ->
  let ids := map r_ID (listing matches_text ToLower a hidden db f) in
  let limit := (effectiveQueryLimit (qr_Limit req)).1 in
  in_reach req ids ->
  match wanted_start req ids with
  | None => answer dataState req = inl CodeAnchorNotFound
  | Some start => exists resp, answer dataState req = inr resp /\
      qs_IDs resp = wanted_ids start limit ids /\
      qs_Position resp = Z.min start (Z.of_nat (List.length ids)) /\
      (forall n, qs_Total resp = Some n -> 0 < queryReach req limit -> n = Z.of_nat (List.length ids))
  end.
Proof.
  intros Hd Hf Ho Hs Hn Hc Hi ids limit Hr.
  assert (servable (resolveExclusions hidden f)) as Hsv by (eapply accepted_servable; eauto).
  pose proof (effectiveQueryLimit_range req Hi) as Hl. fold limit in Hl.
  unfold answer_query. rewrite Hf, Hs. destruct Hn as (Hn1 & Hn2 & Hn3). rewrite Hn1. unfold collapseRefusal. rewrite Hc. simpl.
  destruct (effectiveQueryLimit (qr_Limit req)) as [l serverLimited] eqn:El. simpl in limit. fold limit.
  rewrite search_listing by done. fold ids.
  pose proof (resolveStart_wanted req ids limit ltac:(lia) Hi) as Hw. simpl in Hw.
  unfold in_reach in Hr. rewrite El in Hr. simpl in Hr. specialize (Hw Hr).
  pose proof (queryReach_range req limit ltac:(lia)) as Hq. set (reach := queryReach req limit) in *.
  destruct (wanted_start req ids) as [i|]; [|by rewrite Hw].
  destruct Hw as (-> & Hi0 & Hids & Hpos). eexists. split; [done|]. cbn [qs_IDs qs_Position qs_Total]. split; [|split].
  - unfold wanted_ids. f_equal. rewrite <- Hids. clear - Hi0 Hl.
    set (found := take (Z.to_nat reach) ids). destruct (Z.le_gt_cases i (Z.of_nat (List.length found))).
    + rewrite (Z.min_l i) by lia. destruct (Z.le_gt_cases (i + limit) (Z.of_nat (List.length found))).
      * rewrite Z.min_l by lia. by replace (i + limit - i) with limit by lia.
      * rewrite Z.min_r by lia. rewrite !take_ge; [done| |]; rewrite length_drop; lia.
    + rewrite (Z.min_r i) by lia. rewrite !drop_ge by lia. by rewrite !take_nil.
  - apply Hpos.
  - intros n Ht Hr0. destruct (qr_CalculateTotal req); [|done]. by eapply queryTotal_exact.
Qed.
End answers.

(** ** Concrete requests *)

Section samples.
(** A message of the inbox, number 2. *)
Definition mail (id date : Z) (thread : option Z) (keywords : list string) : Row :=
  mkRow id 1 date 2 0 keywords false thread 50 false "" "".
Definition no_rank (t : string) (r : Row) : Z := 0.
Definition inbox : JSON := JObj [("inMailbox", JStr (encodeID mailboxIDPrefix 2))].
Definition request (sort : list comparator) (position limit : Z) (collapse : bool) : queryRequest :=
  mkQueryRequest "a" inbox sort (Some position) None 0 (Some limit) true collapse.
Definition sample_answer (db : list Row) (req : queryRequest) : ErrorCode + queryResponse :=
  answer_query in_cc no_rank lower_ascii fold_ascii (ParseInt 10) id 1 [9] db "s" req.
(** The ids of an answer and its total. *)
Definition page_of (db : list Row) (req : queryRequest) : option (list string * option Z) :=
  match sample_answer db req with inr resp => Some (qs_IDs resp, qs_Total resp) | inl _ => None end.
Definition ids_of (ids : list Z) : list string := EncodeEmailID <$> ids.

Definition five : list Row :=
  [mail 3 30 (Some 1) []; mail 1 10 (Some 2) []; mail 5 50 (Some 3) ["star"]; mail 2 20 (Some 4) ["star"]; mail 4 40 (Some 5) []].
End samples.

Lemma query_pages_exact_witness :
  exists resp, sample_answer five (request [] 1 2 false) = inr resp /\ qs_IDs resp = ids_of [4; 3].
Proof.
  assert (bool_decide (is_Some (sample_translate inbox)) = true) as Hs by (vm_compute; reflexivity).
  apply bool_decide_eq_true in Hs as [f Hf].
  assert (distinct five) as Hd by (apply (bool_decide_unpack _); vm_compute; exact I).
  assert (sf_or f = [] /\ map r_ID (listing in_cc lower_ascii 1 [9] five f) = [5; 4; 3; 2; 1]) as [Ho Hl].
  { vm_compute in Hf. injection Hf as <-. split; vm_compute; reflexivity. }
  pose proof (query_pages_exact in_cc no_rank lower_ascii fold_ascii (ParseInt 10) id 1 [9] five "s"
    (request [] 1 2 false) f (mkSort false false "" false) Hd Hf Ho eq_refl (conj eq_refl (conj eq_refl eq_refl)) eq_refl) as H.
  cbv zeta in H. rewrite Hl in H. simpl in H.
  destruct H as (resp & Ha & Hids & _ & _).
  - repeat split; vm_compute; congruence.
  - left. repeat split; vm_compute; congruence.
  - exists resp. split; [exact Ha|]. rewrite Hids. vm_compute. reflexivity.
Defined.

(** Ascending order sorts the newest position+limit messages, not the list: the first page
    is the newest messages, the oldest first, and the second page starts over below it. *)
Example ascending_pages_repeat :
  let asc := [mkComparator "receivedAt" (Some true) None ""] in
  page_of five (request asc 0 2 false) = Some (ids_of [4; 5], None) /\
  page_of five (request asc 2 2 false) = Some (ids_of [4; 5], None).
Proof. split; vm_compute; reflexivity. Qed.

(** So does the sort by keyword: the second starred message is on no page of two. *)
Example keyword_pages_lose :
  let star := [mkComparator "hasKeyword" (Some false) None "star"; mkComparator "receivedAt" (Some false) None ""] in
  page_of five (request star 0 2 false) = Some (ids_of [5; 4], None) /\
  page_of five (request star 2 2 false) = Some (ids_of [4; 3], None) /\
  page_of five (request star 0 5 false) = Some (ids_of [5; 2; 4; 3; 1], None).
Proof. repeat split; vm_compute; reflexivity. Qed.

(** A request for no ids, only for the count, is told that nothing matches. *)
Example total_of_no_rows : page_of five (request [] 0 0 false) = Some ([], Some 0).
Proof. vm_compute. reflexivity. Qed.

(** Messages that have no thread yet are one conversation: two of the three are not listed. *)
Example unthreaded_collapse :
  page_of [mail 1 10 None []; mail 2 20 None []; mail 3 30 None []] (request [] 0 10 true) = Some (ids_of [3], Some 1).
Proof. vm_compute. reflexivity. Qed.

(** An offset past the end that overflows is the start of the list. *)
Example anchor_offset_wraps :
  resolveStart (mkQueryRequest "a" inbox [] None (Some (EncodeEmailID 4)) 9223372036854775807 None false false) [5; 4; 3] =
    inr 0.
Proof. vm_compute. reflexivity. Qed.

(** A collapsed list stops at two hundred conversations when the messages fit one window:
    the two hundred and first is on no page. *)
Example collapsed_list_stops :
  let db := map (fun i => mail i i (Some i) []) (seqZ 1 201) in
  page_of db (request [] 199 50 true) = Some (ids_of [2], None) /\
  page_of db (request [] 200 50 true) = Some ([], None) /\
  page_of db (request [] 200 50 false) = Some (ids_of [1], None).
Proof. repeat split; vm_compute; reflexivity. Qed.

(** A conversation of two thousand messages ends the list: the second window shows nothing
    new, and the walk reads that as the end. The total says so too. *)
Example long_thread_ends_list :
  let db := mail 1 1 (Some 2) [] :: map (fun i => mail i i (Some 1) []) (seqZ 2 2000) in
  page_of db (request [] 0 50 true) = Some (ids_of [2001], Some 1).
Proof. vm_compute. reflexivity. Qed.
