(* ===== verification/DelegatedToken.v ===== *)
(** The tokens of delegated sign-in (jmaphttp/delegated_jwt.go): a compact JWS of a closed
    profile, signed with a key the issuer publishes. Ed25519, RSA, SHA-256, lower-casing and
    the reading of a NumericDate that is not an int64 are parameters. *)

From S2P Require Import Prelude Text GoStrings Jmap Json JsonDecode GoEncoding.
From Stdlib Require Import Ascii String.
#[local] Open Scope string_scope.
#[local] Open Scope Z_scope.

Definition maxDelegatedTokenBytes : Z := 4096.
Definition delegatedMaxLifetime : Z := 300 * Second.
Definition delegatedClockSkew : Z := 30 * Second.
Definition jwksCacheTTL : Z := 10 * Minute.
Definition jwksRefetchMinGap : Z := 60 * Second.
Definition jwksMaxBody : Z := 256 * 1024.
Definition minRSABits : Z := 2048.
Definition maxJTILength : Z := 256.
Definition purposeLogin : string := "login".
Definition purposeRevoke : string := "revoke".

Definition strlen (s : string) : Z := Z.of_nat (String.length s).

(** strings.EqualFold with a word none of whose letters folds to more than two cases. *)
Definition fold_is (s word : string) : bool := String.eqb (fold_name s) (fold_name word).

(** ** Keys *)

Inductive publicKey := KEd (x : string) | KRsa (n e : Z).
Record jwksKey := mkKey { jk_kid : string; jk_alg : string; jk_key : publicKey }.

Record jwk := mkJwk {
  Kty : string; Kid : string; Use : string; Alg : string; Crv : string; KX : string; KN : string; KE : string
}.
Definition zero_jwk : jwk := mkJwk "" "" "" "" "" "" "" "".
Definition jwk_fields : list (field jwk) :=
  [at_field "kty" Kty (fun k v => mkJwk v (Kid k) (Use k) (Alg k) (Crv k) (KX k) (KN k) (KE k)) dec_string;
   at_field "kid" Kid (fun k v => mkJwk (Kty k) v (Use k) (Alg k) (Crv k) (KX k) (KN k) (KE k)) dec_string;
   at_field "use" Use (fun k v => mkJwk (Kty k) (Kid k) v (Alg k) (Crv k) (KX k) (KN k) (KE k)) dec_string;
   at_field "alg" Alg (fun k v => mkJwk (Kty k) (Kid k) (Use k) v (Crv k) (KX k) (KN k) (KE k)) dec_string;
   at_field "crv" Crv (fun k v => mkJwk (Kty k) (Kid k) (Use k) (Alg k) v (KX k) (KN k) (KE k)) dec_string;
   at_field "x" KX (fun k v => mkJwk (Kty k) (Kid k) (Use k) (Alg k) (Crv k) v (KN k) (KE k)) dec_string;
   at_field "n" KN (fun k v => mkJwk (Kty k) (Kid k) (Use k) (Alg k) (Crv k) (KX k) v (KE k)) dec_string;
   at_field "e" KE (fun k v => mkJwk (Kty k) (Kid k) (Use k) (Alg k) (Crv k) (KX k) (KN k) v) dec_string].
Definition jwks_fields : list (field (list jwk)) :=
  [at_field "keys" (fun x => x) (fun _ x => x) (dec_slice (dec_struct jwk_fields) zero_jwk)].

(** big.Int.SetBytes. *)
Fixpoint big_endian (acc : Z) (s : string) : Z :=
  match s with EmptyString => acc | String c s => big_endian (acc * 256 + byte_val c) s end.

Definition parseRSAPublic (nRaw eRaw : string) : option (Z * Z) :=
  nb ← b64_decode nRaw;
  if String.eqb nb "" then None
  else
    eb ← b64_decode eRaw;
    if String.eqb eb "" || (4 <? strlen eb) then None
    else
      let n := big_endian 0 nb in
      if n <? 2 ^ (minRSABits - 1) then None
      else
        let e := big_endian 0 eb in
        if (e <? 3) || Z.even e then None else Some (n, e).

Definition usable_key (k : jwk) : option jwksKey :=
  if String.eqb (Kty k) "OKP" then
    if negb (String.eqb (Crv k) "Ed25519") || (negb (String.eqb (Alg k) "") && negb (String.eqb (Alg k) "EdDSA")) then None
    else x ← b64_decode (KX k);
         if strlen x =? 32 then Some (mkKey (Kid k) "EdDSA" (KEd x)) else None
  else if String.eqb (Kty k) "RSA" then
    if negb (String.eqb (Alg k) "") && negb (String.eqb (Alg k) "RS256") then None
    else '(n, e) ← parseRSAPublic (KN k) (KE k); Some (mkKey (Kid k) "RS256" (KRsa n e))
  else None.

Definition keep_key (out : gmap string jwksKey) (k : jwk) : gmap string jwksKey :=
  if String.eqb (Kid k) "" || (negb (String.eqb (Use k) "") && negb (String.eqb (Use k) "sig")) then out
  else match out !! Kid k with
       | Some _ => delete (Kid k) out
       | None => match usable_key k with Some key => <[Kid k := key]> out | None => out end
       end.

Definition parseJWKS (body : string) : option (gmap string jwksKey) :=
  j ← Parse body; keys ← dec_struct jwks_fields [] j; Some (foldl keep_key ∅ keys).

(** ** The cache of one issuer's keys *)

(** [jc_inflight] is the fetch under way, by number; [jc_fetchedAt] 0 is the zero time. *)
Record jwksCache := mkCache {
  jc_keys : gmap string jwksKey;
  jc_fetchedAt : Z;
  jc_lastKidMiss : Z;
  jc_inflight : option nat;
  jc_fetches : nat
}.
Definition newJWKSCache : jwksCache := mkCache ∅ 0 0 None 0.

Inductive lookupAnswer := Known (k : jwksKey) | UnknownKid | WaitFor (fetch : nat) | MustFetch.

(** [lookup] up to the fetch. *)
Definition lookup_begin (kid : string) (now : Z) (c : jwksCache) : jwksCache * lookupAnswer :=
  let fresh := negb (IsZero (jc_fetchedAt c)) && (Sub now (jc_fetchedAt c) <? jwksCacheTTL) in
  match jc_keys c !! kid, fresh with
  | Some k, true => (c, Known k)
  | _, _ =>
      if fresh && (Sub now (jc_lastKidMiss c) <? jwksRefetchMinGap)
      then (c, match jc_keys c !! kid with Some k => Known k | None => UnknownKid end)
      else match jc_inflight c with
           | Some n => (c, WaitFor n)
           | None =>
               (mkCache (jc_keys c) (jc_fetchedAt c) (if fresh then now else jc_lastKidMiss c)
                  (Some (jc_fetches c)) (S (jc_fetches c)), MustFetch)
           end
  end.

(** After the fetch. *)
Definition lookup_done (fetched : option (gmap string jwksKey)) (now : Z) (c : jwksCache) : jwksCache :=
  match fetched with
  | Some keys => mkCache keys now (jc_lastKidMiss c) None (jc_fetches c)
  | None => mkCache (jc_keys c) (jc_fetchedAt c) (jc_lastKidMiss c) None (jc_fetches c)
  end.

Definition lookupCached (kid : string) (c : jwksCache) : option jwksKey := jc_keys c !! kid.

(** [fetch]: what a document of an answered request is read as. *)
Definition read_keys (body : string) : option (gmap string jwksKey) :=
  if jwksMaxBody <? strlen body then None else parseJWKS body.

(** ** Issuers *)

Record DelegatedIssuer := mkIssuer { di_Host : string; di_Issuer : string; di_JWKSURL : string }.
(** [issuers] by host and issuer; the caches are by URL. *)
Abbreviation issuer_table := (gmap string (gmap string DelegatedIssuer)).

Section verifier.
Context (ToLower : string -> string).

Definition issuer_ok (i : DelegatedIssuer) : bool :=
  negb (String.eqb (di_Host i) "" || String.eqb (di_Issuer i) "" || String.eqb (di_JWKSURL i) "") &&
  String.eqb (ToLower (di_Host i)) (di_Host i) &&
  negb (ContainsAny (fun c => Ascii.eqb c ":" || Ascii.eqb c "/") (di_Host i)) &&
  HasPrefix (ToLower (di_JWKSURL i)) "https://".

Fixpoint add_issuers (table : issuer_table) (l : list DelegatedIssuer) : option issuer_table :=
  match l with
  | [] => Some table
  | i :: l =>
      if issuer_ok i then
        let byIssuer := default ∅ (table !! di_Host i) in
        match byIssuer !! di_Issuer i with
        | Some _ => None
        | None => add_issuers (<[di_Host i := <[di_Issuer i := i]> byIssuer]> table) l
        end
      else None
  end.
Definition newDelegatedVerifier (l : list DelegatedIssuer) : option issuer_table :=
  match l with [] => None | _ => add_issuers ∅ l end.
End verifier.

Definition configuredFor (table : issuer_table) (host : string) : bool :=
  match table !! host with Some m => negb (bool_decide (m = ∅)) | None => false end.
Definition issuer_of (table : issuer_table) (host iss : string) : option DelegatedIssuer :=
  m ← table !! host; m !! iss.

(** ** Tokens *)

Record jwsHeader := mkHeader { h_Alg : string; h_Kid : string; h_Typ : string; h_Crit : option JSON }.
Record jwtPayload := mkPayload {
  p_Iss : string; p_Aud : option JSON; p_Sub : string; p_Iat : string; p_Exp : string; p_Nbf : string;
  p_Jti : string; p_Purpose : string
}.
Definition zero_header : jwsHeader := mkHeader "" "" "" None.
Definition zero_payload : jwtPayload := mkPayload "" None "" "" "" "" "" "".

(** A json.RawMessage: also a null is its bytes. *)
Definition dec_rawmessage : decoder (option JSON) := fun _ j => Some (Some j).
(** A json.Number takes numbers and strings that hold one. *)
Definition dec_number : decoder string := fun cur j =>
  match j with
  | JNum n => Some n
  | JStr s => match read_number s with Some (_, EmptyString) => Some s | _ => None end
  | JNull => Some cur
  | _ => None
  end.
Definition header_fields : list (field jwsHeader) :=
  [at_field "alg" h_Alg (fun h v => mkHeader v (h_Kid h) (h_Typ h) (h_Crit h)) dec_string;
   at_field "kid" h_Kid (fun h v => mkHeader (h_Alg h) v (h_Typ h) (h_Crit h)) dec_string;
   at_field "typ" h_Typ (fun h v => mkHeader (h_Alg h) (h_Kid h) v (h_Crit h)) dec_string;
   at_field "crit" h_Crit (fun h v => mkHeader (h_Alg h) (h_Kid h) (h_Typ h) v) dec_rawmessage].
Definition payload_fields : list (field jwtPayload) :=
  [at_field "iss" p_Iss (fun p v => mkPayload v (p_Aud p) (p_Sub p) (p_Iat p) (p_Exp p) (p_Nbf p) (p_Jti p) (p_Purpose p)) dec_string;
   at_field "aud" p_Aud (fun p v => mkPayload (p_Iss p) v (p_Sub p) (p_Iat p) (p_Exp p) (p_Nbf p) (p_Jti p) (p_Purpose p)) dec_rawmessage;
   at_field "sub" p_Sub (fun p v => mkPayload (p_Iss p) (p_Aud p) v (p_Iat p) (p_Exp p) (p_Nbf p) (p_Jti p) (p_Purpose p)) dec_string;
   at_field "iat" p_Iat (fun p v => mkPayload (p_Iss p) (p_Aud p) (p_Sub p) v (p_Exp p) (p_Nbf p) (p_Jti p) (p_Purpose p)) dec_number;
   at_field "exp" p_Exp (fun p v => mkPayload (p_Iss p) (p_Aud p) (p_Sub p) (p_Iat p) v (p_Nbf p) (p_Jti p) (p_Purpose p)) dec_number;
   at_field "nbf" p_Nbf (fun p v => mkPayload (p_Iss p) (p_Aud p) (p_Sub p) (p_Iat p) (p_Exp p) v (p_Jti p) (p_Purpose p)) dec_number;
   at_field "jti" p_Jti (fun p v => mkPayload (p_Iss p) (p_Aud p) (p_Sub p) (p_Iat p) (p_Exp p) (p_Nbf p) v (p_Purpose p)) dec_string;
   at_field "purpose" p_Purpose (fun p v => mkPayload (p_Iss p) (p_Aud p) (p_Sub p) (p_Iat p) (p_Exp p) (p_Nbf p) (p_Jti p) v) dec_string].

Record delegatedClaims := mkClaims {
  c_Issuer : string; c_Subject : string; c_JTI : string; c_Purpose : string; c_Expires : Z; c_IssuedAt : Z
}.

(** time.Unix(sec, 0): the count of seconds from the year 1 wraps. *)
Definition unix_time (sec : Z) : Z := wrap64s (sec + 62135596800) * Second.

(** The part before the key is looked up: header, payload, the signed bytes and the
    signature. [None] is a refusal. *)
Definition read_token (token : string) : option (jwsHeader * jwtPayload * string * string) :=
  if maxDelegatedTokenBytes <? strlen token then None
  else match Split "." token with
       | [p0; p1; p2] =>
           h ← (raw ← b64_decode p0; j ← Parse raw; dec_struct header_fields zero_header j);
           if negb (String.eqb (h_Alg h) "EdDSA") && negb (String.eqb (h_Alg h) "RS256") then None
           else if String.eqb (h_Kid h) "" then None
           else if bool_decide (is_Some (h_Crit h)) then None
           else if negb (String.eqb (h_Typ h) "") && negb (fold_is (h_Typ h) "JWT") then None
           else
             p ← (raw ← b64_decode p1; j ← Parse raw; dec_struct payload_fields zero_payload j);
             Some (h, p, p0 +:+ "." +:+ p1, p2)
       | _ => None
       end.

Definition audienceContains (aud : option JSON) (host : string) : bool :=
  match aud with
  | None => false
  | Some j =>
      match dec_string "" j with
      | Some single => String.eqb single host
      | None => match dec_strings [] j with
                | Some many => existsb (fun a => String.eqb a host) many
                | None => false
                end
      end
  end.

Section claims.
Context (ed_verify : string -> string -> string -> bool) (rsa_verify : Z -> Z -> string -> string -> bool).
Context (sha256 : string -> string) (ToLower : string -> string) (float_date : string -> option Z).

Definition signature_ok (key : jwksKey) (signed sig : string) : bool :=
  match jk_key key with
  | KEd x => ed_verify x signed sig
  | KRsa n e => rsa_verify n e (sha256 signed) sig
  end.

Definition numericDate (n : string) : option Z :=
  if String.eqb n "" then None
  else match ParseInt 10 n with Some i => Some (unix_time i) | None => float_date n end.

(** The address a token names. *)
Definition subject_of (p : jwtPayload) : string := ToLower (TrimSpace (p_Sub p)).

(** The claim rules. [None] is a refusal. *)
Definition check_claims (p : jwtPayload) (host purpose : string) (now : Z) : option delegatedClaims :=
  if negb (audienceContains (p_Aud p) host) then None
  else
    let sub := subject_of p in
    if String.eqb sub "" || negb (Contains sub "@") then None
    else
      iat ← numericDate (p_Iat p);
      exp ← numericDate (p_Exp p);
      if delegatedMaxLifetime <? Sub exp iat then None
      else if negb (After exp (now - delegatedClockSkew)) then None
      else if After iat (now + delegatedClockSkew) then None
      else if negb (String.eqb (p_Nbf p) "") &&
              match numericDate (p_Nbf p) with Some nbf => After nbf (now + delegatedClockSkew) | None => true end then None
      else if String.eqb (p_Jti p) "" || (maxJTILength <? strlen (p_Jti p)) then None
      else if negb (String.eqb (p_Purpose p) purpose) then None
      else Some (mkClaims (p_Iss p) sub (p_Jti p) (p_Purpose p) exp iat).
End claims.

(** A document that repeats a key id twice more is believed: the third one is inserted after
    the second was taken as a reason to drop the first. *)
Example third_duplicate_believed :
  let key := JObj [("kty", JStr "OKP"); ("kid", JStr "a"); ("crv", JStr "Ed25519");
                   ("x", JStr (b64_encode "0123456789abcdef0123456789abcdef"))] in
  let doc l := Marshal (JObj [("keys", JArr l)]) in
  (m ← parseJWKS (doc [key; key]); m !! "a") = None /\
  (m ← parseJWKS (doc [key; key; key]); m !! "a") =
    Some (mkKey "a" "EdDSA" (KEd "0123456789abcdef0123456789abcdef")).
Proof. split; vm_compute; reflexivity. Qed.
