(* ===== verification/Delegated.v ===== *)
(** Delegated sign-in (jmaphttp/delegated.go) over its tables (store/delegated.go): an issuer's
    token is exchanged for a session, which is renewed, served, ended by its user, its issuer
    or the accounts API. Requests are programs of statements and critical sections, which a
    step relation interleaves; statements may fail, with or without their effect.

    Instants keep all their digits in the tables, the buckets count exactly, and the feature
    is configured; log lines, counters and the texts of responses are left out. *)

From S2P Require Import Prelude Text GoStrings Jmap Json JsonDecode GoEncoding DelegatedToken.
From S2P Require Token Auth.
From Stdlib Require Import Ascii String.
#[local] Open Scope string_scope.
#[local] Open Scope Z_scope.

Definition sessionTokenPrefix : string := "mds1_".
Definition sessionTokenBytes : Z := 32.
Definition sessionTokenLength : Z := 48.
Definition DefaultDelegatedSessionTTL : Z := 12 * Hour.
Definition DefaultDelegatedSessionMax : Z := 168 * Hour.
Definition delegatedRenewLead : Z := Hour.
Definition delegatedRenewGrace : Z := 60 * Second.
Definition delegatedTouchInterval : Z := Minute.
Definition delegatedExchangeRate : Z := 30.
Definition delegatedBearerFailureRate : Z := 60.
Definition maxDelegatedBody : Z := 16 * 1024.
Definition jwksUnavailableRetryAfter : Z := 30.

(** ** Hosts *)

(** net.SplitHostPort; [None] is an error. *)
Definition SplitHostPort (hp : string) : option (string * string) :=
  i ← LastIndex hp ":";
  let port := drop_s (S i) hp in
  if HasPrefix hp "[" then
    e ← Index hp "]";
    if negb (Nat.eqb (S e) i) then None
    else if Contains (drop_s 1 hp) "[" || Contains (drop_s (S e) hp) "]" then None
    else Some (take_s (e - 1) (drop_s 1 hp), port)
  else
    let host := take_s i hp in
    if Contains host ":" || Contains hp "[" || Contains hp "]" then None else Some (host, port).

Section hosts.
Context (ToLower : string -> string).
Definition host_char (c : ascii) : bool :=
  byte_between c 97 122 || byte_between c 48 57 || Ascii.eqb c "-" || Ascii.eqb c ".".
(** NormalizeHost of internal/branding: "" is no configured host. *)
Definition NormalizeHost (raw : string) : string :=
  let h := TrimSpace raw in
  if String.eqb h "" then ""
  else
    let h := match SplitHostPort h with Some (host, _) => host | None => h end in
    let h := TrimSuffix (ToLower h) "." in
    if String.eqb h "" || ContainsAny (fun c => Contains "/\[]%:" (String c "")) h then ""
    else if String.eqb h "." || String.eqb h ".." || Contains h ".." then ""
    else if negb (chars_in host_char h) then ""
    else if HasPrefix h "." || HasPrefix h "-" then "" else h.
End hosts.

(** ** Rows *)

Record DelegatedSession := mkSession {
  s_ID : Z;
  s_TokenHash : string;
  s_AccountID : Z;
  s_Issuer : string;
  s_CreatedAt : Z;
  s_ExpiresAt : Z;
  s_AbsoluteExpiresAt : Z;
  s_RevokedAt : option Z;
  s_LastSeenAt : option Z
}.
Definition set_expiry (t : Z) (s : DelegatedSession) : DelegatedSession :=
  mkSession (s_ID s) (s_TokenHash s) (s_AccountID s) (s_Issuer s) (s_CreatedAt s) t (s_AbsoluteExpiresAt s) (s_RevokedAt s) (s_LastSeenAt s).
Definition set_revoked (t : Z) (s : DelegatedSession) : DelegatedSession :=
  mkSession (s_ID s) (s_TokenHash s) (s_AccountID s) (s_Issuer s) (s_CreatedAt s) (s_ExpiresAt s) (s_AbsoluteExpiresAt s) (Some t) (s_LastSeenAt s).
Definition set_seen (t : Z) (s : DelegatedSession) : DelegatedSession :=
  mkSession (s_ID s) (s_TokenHash s) (s_AccountID s) (s_Issuer s) (s_CreatedAt s) (s_ExpiresAt s) (s_AbsoluteExpiresAt s) (s_RevokedAt s) (Some t).

(** What is read of a row of accounts. *)
Record Account := mkAccount {
  a_Email : string; a_Disabled : bool; a_DisplayName : string; a_ReadOnly : bool; a_Suspended : bool
}.
Record AccountStatus := mkStatus { as_Name : string; as_ReadOnly : bool; as_Suspended : bool }.

(** ** Buckets per client *)

Record bucketEntry := mkBucket { be_tokens : Z; be_last : Z }.
Abbreviation ipRateLimiter := (gmap string bucketEntry).

Section buckets.
(** A token is [window] parts. *)
Context (rate window : Z).
Definition bucket_refill (key : string) (now : Z) (l : ipRateLimiter) : ipRateLimiter * bucketEntry :=
  let l := if (size l <? Auth.pruneThreshold)%nat then l
           else filter (fun kv => Sub now (be_last kv.2) <= Auth.pruneIdle) l in
  match l !! key with
  | None => let e := mkBucket (rate * window) now in (<[key := e]> l, e)
  | Some e =>
      let elapsed := Sub now (be_last e) in
      let e := if 0 <? elapsed then mkBucket (Z.min (rate * window) (be_tokens e + elapsed * rate)) now else e in
      (<[key := e]> l, e)
  end.
Definition bucket_wait (e : bucketEntry) : Z :=
  let missing := window - be_tokens e in
  (missing + rate * Second - 1) / (rate * Second) * Second.
Definition bucket_take (key : string) (now : Z) (l : ipRateLimiter) : ipRateLimiter * (bool * Z) :=
  let '(l, e) := bucket_refill key now l in
  if window <=? be_tokens e then (<[key := mkBucket (be_tokens e - window) (be_last e)]> l, (true, 0))
  else (l, (false, bucket_wait e)).
Definition bucket_peek (key : string) (now : Z) (l : ipRateLimiter) : ipRateLimiter * (bool * Z) :=
  let '(l, e) := bucket_refill key now l in
  if window <=? be_tokens e then (l, (true, 0)) else (l, (false, bucket_wait e)).
End buckets.

(** ** Requests and responses *)

Record Request := mkRequest {
  q_Host : string; q_IP : string; q_Authorization : string; q_ContentType : string; q_Body : string
}.

Record sessionResponse := mkSessionResponse {
  sr_SessionToken : string; sr_ExpiresAt : Z; sr_RenewAfter : Z; sr_AbsoluteExpiresAt : Z;
  sr_Address : string; sr_Name : string; sr_ReadOnly : bool
}.

Inductive response :=
| Served (accountID sessionID : Z)        (* the route's handler runs as the account *)
| BasicFlow                               (* another scheme *)
| RNotFound
| RTooMany (wait : Z)
| RUnsupportedMedia
| RTooLarge
| RBadRequest (field : string)
| RBearerChallenge                        (* 401 invalid session *)
| RInvalidToken                           (* 401 invalid delegated token *)
| RKeysUnavailable (retryAfter : Z)
| RUnavailable                            (* 503 *)
| RForbidden
| RAccountProblem (code : string)
| RSession (r : sessionResponse) (sessionID : Z)
| RRevoked (n : Z)
| RNoContent
| RRevokedAccount (ok : bool).            (* of RevokeDelegatedSessions *)

Inductive op :=
| OpServe (q : Request)
| OpExchange (q : Request)
| OpRenew (q : Request)
| OpLogout (q : Request)
| OpRevoke (q : Request)
| OpRevokeAccount (accountID : Z).

(** ** Actions and programs *)

Inductive limiter := ExchangeLimiter | BearerLimiter.

(** Answers of statements are [None] for an error. *)
Inductive action : Type -> Type :=
| ANow : action Z
| ATake (l : limiter) (key : string) : action (bool * Z)
| APeek (l : limiter) (key : string) : action (bool * Z)
| ARandom : action (option string)
| AKeysBegin (url kid : string) : action lookupAnswer
| AKeysWait (url : string) (fetch : nat) : action unit
| AFetch (url : string) : action (option string)
| AKeysDone (url : string) (keys : option (gmap string jwksKey)) : action unit
| AKeysCached (url kid : string) : action (option jwksKey)
| AGetSession (hash : string) : action (option (option DelegatedSession))
| ACreate (s : DelegatedSession) : action (option DelegatedSession)
| ATouch (id now : Z) : action (option unit)
| ASetExpiry (id t : Z) : action (option bool)
| ARevoke (id now : Z) : action (option unit)
| ARevokeByIssuer (accountID : Z) (issuer : string) (now : Z) : action (option Z)
| ARevokeForAccount (accountID now : Z) : action (option Z)
| ASweep (now : Z) : action (option unit)
| AInsertJTI (issuer jti : string) (expires : Z) : action (option bool)
| AAccountByEmail (email : string) : action (option (option (Z * Account)))
| AAccount (id : Z) : action (option (option Account))
| ARevokeTokens (accountID : Z) : action unit.

Inductive proc (A : Type) : Type :=
| PRet (a : A)
| PAct {R : Type} (act : action R) (k : R -> proc A).
Arguments PRet {A}.
Arguments PAct {A R}.
Fixpoint pbind {A B} (p : proc A) (f : A -> proc B) : proc B :=
  match p with PRet a => f a | PAct act k => PAct act (fun r => pbind (k r) f) end.
#[export] Instance proc_ret : MRet proc := @PRet.
#[export] Instance proc_bind : MBind proc := fun A B f p => pbind p f.
Definition perform {R} (act : action R) : proc R := PAct act PRet.

(** ** Handlers *)

Section handlers.
Context (sha256 : string -> string) (ToLower : string -> string) (media_type : string -> option string).
Context (ed_verify : string -> string -> string -> bool) (rsa_verify : Z -> Z -> string -> string -> bool).
Context (float_date : string -> option Z).
(** The configured issuers and lifetimes. *)
Context (issuers : issuer_table) (ttl maxLife : Z).

Definition looksLikeSessionToken (token : string) : bool :=
  (strlen token =? sessionTokenLength) && HasPrefix token sessionTokenPrefix &&
  bool_decide (is_Some (b64_decode (drop_s 5 token))).

Definition mintSessionToken : proc (option (string * string)) :=
  raw ← perform ARandom;
  match raw with
  | None => mret None
  | Some raw => let token := sessionTokenPrefix +:+ b64_encode raw in mret (Some (token, sha256 token))
  end.

(** [None] is an error. *)
Definition issueSession (accountID : Z) (issuer : string) (absolute : Z) : proc (option (string * DelegatedSession)) :=
  minted ← mintSessionToken;
  match minted with
  | None => mret None
  | Some (token, hash) =>
      now ← perform ANow;
      let expires := now + ttl in
      let expires := if After expires absolute then absolute else expires in
      created ← perform (ACreate (mkSession 0 hash accountID issuer now expires absolute None None));
      mret (match created with Some sess => Some (token, sess) | None => None end)
  end.

Definition writeSession (token : string) (sess : DelegatedSession) (acct : Account) (status : AccountStatus) : response :=
  let renewAfter := s_ExpiresAt sess - delegatedRenewLead in
  RSession {| sr_SessionToken := token; sr_ExpiresAt := s_ExpiresAt sess;
              sr_RenewAfter := if Before renewAfter (s_CreatedAt sess) then s_CreatedAt sess else renewAfter;
              sr_AbsoluteExpiresAt := s_AbsoluteExpiresAt sess;
              sr_Address := a_Email acct;
              sr_Name := if String.eqb (as_Name status) "" then a_Email acct else as_Name status;
              sr_ReadOnly := as_ReadOnly status |} (s_ID sess).

(** storeAccountStatus of cmd/moovd: a row that has vanished denies nothing. *)
Definition AccountStatusOf (accountID : Z) : proc (option AccountStatus) :=
  row ← perform (AAccount accountID);
  mret (match row with
        | None => None
        | Some None => Some (mkStatus "" false false)
        | Some (Some acct) => Some (mkStatus (a_DisplayName acct) (a_ReadOnly acct) (a_Suspended acct))
        end).

Definition admitAccount (accountID : Z) (acct : Account) : proc (response + AccountStatus) :=
  if a_Disabled acct then mret (inl (RAccountProblem "disabled"))
  else
    status ← AccountStatusOf accountID;
    mret (match status with
          | None => inl RUnavailable
          | Some status => if as_Suspended status then inl (RAccountProblem "suspended") else inr status
          end).

Definition bearerToken (q : Request) : option string :=
  let h := q_Authorization q in
  if (String.length h <=? 7)%nat || negb (fold_is (take_s 7 h) "bearer ") then None else Some (TrimSpace (drop_s 7 h)).

Inductive resolved := Live (s : DelegatedSession) | SessionRefused | LookupError.
Definition resolveSession (token : string) : proc resolved :=
  if negb (looksLikeSessionToken token) then mret SessionRefused
  else
    row ← perform (AGetSession (sha256 token));
    match row with
    | None => mret LookupError
    | Some None => mret SessionRefused
    | Some (Some sess) =>
        now ← perform ANow;
        mret (if bool_decide (is_Some (s_RevokedAt sess)) || negb (After (s_ExpiresAt sess) now) ||
                 negb (After (s_AbsoluteExpiresAt sess) now)
              then SessionRefused else Live sess)
    end.

(** requireProvisionedByID of token.go. *)
Definition requireProvisionedByID (accountID : Z) : proc (response + Account) :=
  row ← perform (AAccount accountID);
  mret (match row with
        | None => inl RUnavailable
        | Some None => inl RForbidden
        | Some (Some acct) => if a_Disabled acct then inl RForbidden else inr acct
        end).

Definition touch (sess : DelegatedSession) : proc unit :=
  now ← perform ANow;
  if match s_LastSeenAt sess with Some t => Sub now t <? delegatedTouchInterval | None => false end then mret tt
  else perform (ATouch (s_ID sess) now) ;; mret tt.

Definition authenticateBearer (q : Request) : proc (response + Account * DelegatedSession) :=
  budget ← perform (APeek BearerLimiter (q_IP q));
  if negb (fst budget) then mret (inl (RTooMany (snd budget)))
  else
    found ← resolveSession (default "" (bearerToken q));
    match found with
    | LookupError => mret (inl RUnavailable)
    | SessionRefused => perform (ATake BearerLimiter (q_IP q)) ;; mret (inl RBearerChallenge)
    | Live sess =>
        provisioned ← requireProvisionedByID (s_AccountID sess);
        match provisioned with
        | inl r => mret (inl r)
        | inr acct =>
            admitted ← admitAccount (s_AccountID sess) acct;
            match admitted with
            | inl r => mret (inl r)
            | inr _ => touch sess ;; mret (inr (acct, sess))
            end
        end
    end.

(** requireAuth of middleware.go, for a request that presents a bearer. *)
Definition requireAuth (q : Request) : proc response :=
  match bearerToken q with
  | None => mret BasicFlow
  | Some _ =>
      r ← authenticateBearer q;
      mret (match r with inl r => r | inr (acct, sess) => Served (s_AccountID sess) (s_ID sess) end)
  end.

(** ** Tokens *)

Inductive verified := Refused | KeysUnavailable | Verified (c : delegatedClaims).

Definition lookupKey (url kid : string) : proc (verified + jwksKey) :=
  answer ← perform (AKeysBegin url kid);
  match answer with
  | Known k => mret (inr k)
  | UnknownKid => mret (inl Refused)
  | WaitFor n =>
      perform (AKeysWait url n) ;;
      k ← perform (AKeysCached url kid);
      mret (match k with Some k => inr k | None => inl Refused end)
  | MustFetch =>
      body ← perform (AFetch url);
      let keys := body ≫= read_keys in
      perform (AKeysDone url keys) ;;
      k ← perform (AKeysCached url kid);
      mret (match k with
            | Some k => inr k
            | None => inl (if bool_decide (is_Some keys) then Refused else KeysUnavailable)
            end)
  end.

Definition verify (token host purpose : string) : proc verified :=
  match read_token token with
  | None => mret Refused
  | Some (hdr, pl, signed, sig) =>
      match issuer_of issuers host (p_Iss pl) with
      | None => mret Refused
      | Some iss =>
          key ← lookupKey (di_JWKSURL iss) (h_Kid hdr);
          match key with
          | inl r => mret r
          | inr key =>
              if negb (String.eqb (jk_alg key) (h_Alg hdr)) then mret Refused
              else match b64_decode sig with
                   | None => mret Refused
                   | Some sig =>
                       if negb (signature_ok ed_verify rsa_verify sha256 key signed sig) then mret Refused
                       else
                         now ← perform ANow;
                         mret (match check_claims ToLower float_date pl host purpose now with
                               | Some c => Verified c
                               | None => Refused
                               end)
                   end
          end
      end
  end.

(** ConsumeDelegatedJTI of store/delegated.go. *)
Definition ConsumeDelegatedJTI (issuer jti : string) (expires now : Z) : proc (option bool) :=
  swept ← perform (ASweep now);
  match swept with None => mret None | Some _ => perform (AInsertJTI issuer jti expires) end.

(** ** Routes *)

(** The host, where the feature exists for it. *)
Definition delegatedEnabledFor (q : Request) : option string :=
  let host := NormalizeHost ToLower (q_Host q) in
  if String.eqb host "" || negb (configuredFor issuers host) then None else Some host.

Definition exchange_fields : list (field (option string)) :=
  [at_field "token" (fun x => x) (fun _ x => x) (dec_pointer dec_string "")].
Definition readTokenBody (q : Request) : response + string :=
  match media_type (q_ContentType q) with
  | Some mt =>
      if negb (String.eqb mt "application/json") then inl RUnsupportedMedia
      else if maxDelegatedBody <? strlen (q_Body q) then inl RTooLarge
      else match j ← Parse (q_Body q); dec_struct exchange_fields None j with
           | None => inl (RBadRequest "")
           | Some None | Some (Some EmptyString) => inl (RBadRequest "token")
           | Some (Some token) => inr token
           end
  | None => inl RUnsupportedMedia
  end.

Definition verifyPresented (q : Request) (purpose : string) : proc (response + delegatedClaims) :=
  match delegatedEnabledFor q with
  | None => mret (inl RNotFound)
  | Some host =>
      budget ← perform (ATake ExchangeLimiter (q_IP q));
      if negb (fst budget) then mret (inl (RTooMany (snd budget)))
      else match readTokenBody q with
           | inl r => mret (inl r)
           | inr token =>
               v ← verify token host purpose;
               match v with
               | KeysUnavailable => mret (inl (RKeysUnavailable jwksUnavailableRetryAfter))
               | Refused => mret (inl RInvalidToken)
               | Verified claims =>
                   now ← perform ANow;
                   fresh ← ConsumeDelegatedJTI (c_Issuer claims) (c_JTI claims) (c_Expires claims) now;
                   mret (match fresh with
                         | None => inl RUnavailable
                         | Some false => inl RInvalidToken
                         | Some true => inr claims
                         end)
               end
           end
  end.

Definition handleDelegatedExchange (q : Request) : proc response :=
  presented ← verifyPresented q purposeLogin;
  match presented with
  | inl r => mret r
  | inr claims =>
      row ← perform (AAccountByEmail (c_Subject claims));
      match row with
      | None => mret RUnavailable
      | Some None => mret (RAccountProblem "notProvisioned")
      | Some (Some (accountID, acct)) =>
          admitted ← admitAccount accountID acct;
          match admitted with
          | inl r => mret r
          | inr status =>
              now ← perform ANow;
              issued ← issueSession accountID (c_Issuer claims) (now + maxLife);
              mret (match issued with
                    | None => RUnavailable
                    | Some (token, sess) => writeSession token sess acct status
                    end)
          end
      end
  end.

Definition handleDelegatedRenew (q : Request) : proc response :=
  match delegatedEnabledFor q, bearerToken q with
  | None, _ => mret RNotFound
  | Some _, None => mret RBearerChallenge
  | Some _, Some _ =>
      authenticated ← authenticateBearer q;
      match authenticated with
      | inl r => mret r
      | inr (acct, old) =>
          status ← AccountStatusOf (s_AccountID old);
          match status with
          | None => mret RUnavailable
          | Some status =>
              issued ← issueSession (s_AccountID old) (s_Issuer old) (s_AbsoluteExpiresAt old);
              match issued with
              | None => mret RUnavailable
              | Some (token, sess) =>
                  now ← perform ANow;
                  let grace := now + delegatedRenewGrace in
                  (if Before grace (s_ExpiresAt old) then perform (ASetExpiry (s_ID old) grace) ;; mret tt else mret tt) ;;
                  mret (writeSession token sess acct status)
              end
          end
      end
  end.

Definition handleDelegatedLogout (q : Request) : proc response :=
  match delegatedEnabledFor q with
  | None => mret RNotFound
  | Some _ =>
      match bearerToken q with
      | None => mret RNoContent
      | Some token =>
          found ← resolveSession token;
          match found with
          | Live sess =>
              now ← perform ANow;
              perform (ARevoke (s_ID sess) now) ;;
              perform (ARevokeTokens (s_AccountID sess)) ;;
              mret RNoContent
          | _ => mret RNoContent
          end
      end
  end.

Definition handleDelegatedRevoke (q : Request) : proc response :=
  presented ← verifyPresented q purposeRevoke;
  match presented with
  | inl r => mret r
  | inr claims =>
      row ← perform (AAccountByEmail (c_Subject claims));
      match row with
      | None => mret RUnavailable
      | Some None => mret (RRevoked 0)
      | Some (Some (accountID, _)) =>
          now ← perform ANow;
          n ← perform (ARevokeByIssuer accountID (c_Issuer claims) now);
          match n with
          | None => mret RUnavailable
          | Some n =>
              (if 0 <? n then perform (ARevokeTokens accountID) else mret tt) ;;
              mret (RRevoked n)
          end
      end
  end.

(** The seam of the accounts API. *)
Definition RevokeDelegatedSessions (accountID : Z) : proc response :=
  perform (ARevokeTokens accountID) ;;
  now ← perform ANow;
  n ← perform (ARevokeForAccount accountID now);
  mret (RRevokedAccount (bool_decide (is_Some n))).

Definition code (o : op) : proc response :=
  match o with
  | OpServe q => requireAuth q
  | OpExchange q => handleDelegatedExchange q
  | OpRenew q => handleDelegatedRenew q
  | OpLogout q => handleDelegatedLogout q
  | OpRevoke q => handleDelegatedRevoke q
  | OpRevokeAccount accountID => RevokeDelegatedSessions accountID
  end.
End handlers.

(** ** The world *)

(** What has happened, newest first. *)
Inductive event :=
| TFetched (url body : string)                               (* an issuer answered with a document *)
| TConsumed (tid : nat) (issuer jti : string) (expires now : Z)
| TNamed (email : string) (accountID : Z)                    (* the directory named the account *)
| TCreated (tid : nat) (s : DelegatedSession) (now : Z)
| TFound (tid : nat) (s : DelegatedSession)                    (* a session was looked up *)
| TStarted (tid : nat) (now : Z)
| TDrawn (tid : nat) (raw : string)                           (* from the random source *)
| TAccount (tid : nat) (id : Z) (a : Account).                (* an account was read *)

Record DWorld := mkWorld {
  dw_now : Z;
  dw_sessions : gmap Z DelegatedSession;
  dw_nextID : Z;
  dw_jtis : gmap (string * string) Z;
  dw_accounts : gmap Z Account;
  dw_published : gmap string string;        (* the documents issuers serve, by URL *)
  dw_caches : gmap string jwksCache;
  dw_exchange : ipRateLimiter;
  dw_bearer : ipRateLimiter;
  dw_tokens : Token.tokenAuthority;
  dw_trace : list event
}.
Definition set_now f w := mkWorld (f (dw_now w)) (dw_sessions w) (dw_nextID w) (dw_jtis w) (dw_accounts w) (dw_published w) (dw_caches w) (dw_exchange w) (dw_bearer w) (dw_tokens w) (dw_trace w).
Definition set_sessions f w := mkWorld (dw_now w) (f (dw_sessions w)) (dw_nextID w) (dw_jtis w) (dw_accounts w) (dw_published w) (dw_caches w) (dw_exchange w) (dw_bearer w) (dw_tokens w) (dw_trace w).
Definition set_nextID f w := mkWorld (dw_now w) (dw_sessions w) (f (dw_nextID w)) (dw_jtis w) (dw_accounts w) (dw_published w) (dw_caches w) (dw_exchange w) (dw_bearer w) (dw_tokens w) (dw_trace w).
Definition set_jtis f w := mkWorld (dw_now w) (dw_sessions w) (dw_nextID w) (f (dw_jtis w)) (dw_accounts w) (dw_published w) (dw_caches w) (dw_exchange w) (dw_bearer w) (dw_tokens w) (dw_trace w).
Definition set_accounts f w := mkWorld (dw_now w) (dw_sessions w) (dw_nextID w) (dw_jtis w) (f (dw_accounts w)) (dw_published w) (dw_caches w) (dw_exchange w) (dw_bearer w) (dw_tokens w) (dw_trace w).
Definition set_published f w := mkWorld (dw_now w) (dw_sessions w) (dw_nextID w) (dw_jtis w) (dw_accounts w) (f (dw_published w)) (dw_caches w) (dw_exchange w) (dw_bearer w) (dw_tokens w) (dw_trace w).
Definition set_caches f w := mkWorld (dw_now w) (dw_sessions w) (dw_nextID w) (dw_jtis w) (dw_accounts w) (dw_published w) (f (dw_caches w)) (dw_exchange w) (dw_bearer w) (dw_tokens w) (dw_trace w).
Definition set_limiter l f w :=
  match l with
  | ExchangeLimiter => mkWorld (dw_now w) (dw_sessions w) (dw_nextID w) (dw_jtis w) (dw_accounts w) (dw_published w) (dw_caches w) (f (dw_exchange w)) (dw_bearer w) (dw_tokens w) (dw_trace w)
  | BearerLimiter => mkWorld (dw_now w) (dw_sessions w) (dw_nextID w) (dw_jtis w) (dw_accounts w) (dw_published w) (dw_caches w) (dw_exchange w) (f (dw_bearer w)) (dw_tokens w) (dw_trace w)
  end.
Definition set_tokens f w := mkWorld (dw_now w) (dw_sessions w) (dw_nextID w) (dw_jtis w) (dw_accounts w) (dw_published w) (dw_caches w) (dw_exchange w) (dw_bearer w) (f (dw_tokens w)) (dw_trace w).
Definition log (e : event) w := mkWorld (dw_now w) (dw_sessions w) (dw_nextID w) (dw_jtis w) (dw_accounts w) (dw_published w) (dw_caches w) (dw_exchange w) (dw_bearer w) (dw_tokens w) (e :: dw_trace w).

Definition limiter_of (l : limiter) (w : DWorld) : ipRateLimiter :=
  match l with ExchangeLimiter => dw_exchange w | BearerLimiter => dw_bearer w end.
Definition rate_of (l : limiter) : Z :=
  match l with ExchangeLimiter => delegatedExchangeRate | BearerLimiter => delegatedBearerFailureRate end.
Definition cache_of (url : string) (w : DWorld) : jwksCache := default newJWKSCache (dw_caches w !! url).

Definition with_hash (hash : string) (w : DWorld) : option DelegatedSession :=
  snd <$> List.find (fun r => String.eqb (s_TokenHash r.2) hash) (map_to_list (dw_sessions w)).
Definition account_named (email : string) (w : DWorld) : option (Z * Account) :=
  List.find (fun r => String.eqb (a_Email r.2) email) (map_to_list (dw_accounts w)).

(** delegated_sessions_expiry_order. *)
Definition expiry_order (s : DelegatedSession) : bool := s_ExpiresAt s <=? s_AbsoluteExpiresAt s + 60 * Second.

(** The UPDATEs of the two revocations. *)
Definition revocable (accountID : Z) (issuer : option string) (now : Z) (s : DelegatedSession) : bool :=
  (s_AccountID s =? accountID) && match issuer with Some i => String.eqb (s_Issuer s) i | None => true end &&
  bool_decide (s_RevokedAt s = None) && After (s_ExpiresAt s) now.
Definition revoke_where (hit : DelegatedSession -> bool) (now : Z) (w : DWorld) : DWorld * Z :=
  (set_sessions (fmap (fun s => if hit s then set_revoked now s else s)) w,
   Z.of_nat (size (filter (fun r => hit r.2 = true) (dw_sessions w)))).

Section execution.
(** The order of a range over the nonces of an account. *)
Context (order : list string -> list string).

(** One action of goroutine [tid]; [input] is what the random source yields. [None] waits. *)
Definition exec {R} (tid : nat) (input : string) (act : action R) (w : DWorld) : option (DWorld * R) :=
  match act in action R return option (DWorld * R) with
  | ANow => Some (w, dw_now w)
  | ATake l key =>
      let '(b, r) := bucket_take (rate_of l) Minute key (dw_now w) (limiter_of l w) in Some (set_limiter l (fun _ => b) w, r)
  | APeek l key =>
      let '(b, r) := bucket_peek (rate_of l) Minute key (dw_now w) (limiter_of l w) in Some (set_limiter l (fun _ => b) w, r)
  | ARandom => if strlen input =? sessionTokenBytes then Some (log (TDrawn tid input) w, Some input) else None
  | AKeysBegin url kid =>
      let '(c, answer) := lookup_begin kid (dw_now w) (cache_of url w) in Some (set_caches (insert url c) w, answer)
  | AKeysWait url n => if bool_decide (jc_inflight (cache_of url w) = Some n) then None else Some (w, tt)
  | AFetch url =>
      match dw_published w !! url with
      | Some body => Some (log (TFetched url body) w, Some body)
      | None => Some (w, None)
      end
  | AKeysDone url keys => Some (set_caches (insert url (lookup_done keys (dw_now w) (cache_of url w))) w, tt)
  | AKeysCached url kid => Some (w, lookupCached kid (cache_of url w))
  | AGetSession hash =>
      match with_hash hash w with
      | Some s => Some (log (TFound tid s) w, Some (Some s))
      | None => Some (w, Some None)
      end
  | ACreate s =>
      let s := mkSession (dw_nextID w) (s_TokenHash s) (s_AccountID s) (s_Issuer s) (s_CreatedAt s) (s_ExpiresAt s) (s_AbsoluteExpiresAt s) None None in
      let w := set_nextID Z.succ w in
      if bool_decide (is_Some (with_hash (s_TokenHash s) w)) || negb (expiry_order s) ||
         negb (bool_decide (is_Some (dw_accounts w !! s_AccountID s)))
      then Some (w, None)
      else Some (log (TCreated tid s (dw_now w)) (set_sessions (insert (s_ID s) s) w), Some s)
  | ATouch id now => Some (set_sessions (alter (set_seen now) id) w, Some tt)
  | ASetExpiry id t =>
      match dw_sessions w !! id with
      | Some s =>
          if bool_decide (is_Some (s_RevokedAt s)) then Some (w, Some false)
          else if negb (expiry_order (set_expiry t s)) then Some (w, None)
          else Some (set_sessions (insert id (set_expiry t s)) w, Some true)
      | None => Some (w, Some false)
      end
  | ARevoke id now =>
      Some (set_sessions (alter (fun s => if bool_decide (s_RevokedAt s = None) then set_revoked now s else s) id) w, Some tt)
  | ARevokeByIssuer accountID issuer now =>
      let '(w, n) := revoke_where (revocable accountID (Some issuer) now) now w in Some (w, Some n)
  | ARevokeForAccount accountID now =>
      let '(w, n) := revoke_where (revocable accountID None now) now w in Some (w, Some n)
  | ASweep now => Some (set_jtis (filter (fun r => ~ r.2 < now)) w, Some tt)
  | AInsertJTI issuer jti expires =>
      match dw_jtis w !! (issuer, jti) with
      | Some _ => Some (w, Some false)
      | None => Some (log (TConsumed tid issuer jti expires (dw_now w)) (set_jtis (insert (issuer, jti) expires) w), Some true)
      end
  | AAccountByEmail email =>
      match account_named email w with
      | Some r => Some (log (TNamed email r.1) w, Some (Some r))
      | None => Some (w, Some None)
      end
  | AAccount id =>
      match dw_accounts w !! id with
      | Some a => Some (log (TAccount tid id a) w, Some (Some a))
      | None => Some (w, Some None)
      end
  | ARevokeTokens accountID => Some (set_tokens (Token.RevokeAccount order accountID) w, tt)
  end.

(** The answer of an action that fails, where it can. *)
Definition failed {R} (act : action R) : option R :=
  match act in action R return option R with
  | ARandom | AFetch _ => Some None
  | AGetSession _ => Some None
  | ACreate _ => Some None
  | ATouch _ _ | ARevoke _ _ | ASweep _ => Some None
  | ASetExpiry _ _ => Some None
  | ARevokeByIssuer _ _ _ | ARevokeForAccount _ _ => Some None
  | AInsertJTI _ _ _ => Some None
  | AAccountByEmail _ => Some None
  | AAccount _ => Some None
  | _ => None
  end.

(** ** Histories *)

Context (sha256 : string -> string) (ToLower : string -> string) (media_type : string -> option string).
Context (ed_verify : string -> string -> string -> bool) (rsa_verify : Z -> Z -> string -> string -> bool).
Context (float_date : string -> option Z) (issuers : issuer_table) (ttl maxLife : Z).

Record DSystem := mkSystem { ds_world : DWorld; ds_procs : gmap nat (op * proc response); ds_next : nat }.

Inductive label :=
| LSpawn (o : op)
| LAct (tid : nat) (input : string)       (* its next action *)
| LFail (tid : nat)                       (* its next action fails *)
| LLost (tid : nat) (input : string)      (* its next action takes effect and is answered by an error *)
| LCrash
| LTick (d : Z)
| LPublish (url : string) (body : option string)
| LPutAccount (id : Z) (a : Account)
| LDeleteAccount (id : Z).

Definition resume (tid : nat) (o : op) (p : proc response) (w : DWorld) (s : DSystem) : DSystem :=
  mkSystem w (<[tid := (o, p)]> (ds_procs s)) (ds_next s).
Definition with_world (f : DWorld -> DWorld) (s : DSystem) : DSystem := mkSystem (f (ds_world s)) (ds_procs s) (ds_next s).

(** What was answered stays answered, whatever happens to the process. *)
Definition answered (p : op * proc response) : bool := match p.2 with PRet _ => true | PAct _ _ => false end.

(** A new process has no keys, no budgets spent and no tokens. *)
Definition restarted (w : DWorld) : DWorld :=
  mkWorld (dw_now w) (dw_sessions w) (dw_nextID w) (dw_jtis w) (dw_accounts w) (dw_published w) ∅ ∅ ∅ Token.newTokenAuthority (dw_trace w).

Definition step (l : label) (s : DSystem) : option DSystem :=
  let w := ds_world s in
  match l with
  | LSpawn o =>
      Some (mkSystem (log (TStarted (ds_next s) (dw_now w)) w) (<[ds_next s := (o, code sha256 ToLower media_type ed_verify rsa_verify float_date issuers ttl maxLife o)]> (ds_procs s))
              (S (ds_next s)))
  | LAct tid input =>
      match ds_procs s !! tid with
      | Some (o, PAct act k) => '(w, r) ← exec tid input act w; Some (resume tid o (k r) w s)
      | _ => None
      end
  | LFail tid =>
      match ds_procs s !! tid with
      | Some (o, PAct act k) => r ← failed act; Some (resume tid o (k r) w s)
      | _ => None
      end
  | LLost tid input =>
      match ds_procs s !! tid with
      | Some (o, PAct act k) => r ← failed act; '(w, _) ← exec tid input act w; Some (resume tid o (k r) w s)
      | _ => None
      end
  | LCrash => Some (mkSystem (restarted w) (filter (fun r => answered r.2 = true) (ds_procs s)) (ds_next s))
  | LTick d => if 0 <=? d then Some (with_world (set_now (Z.add d)) s) else None
  | LPublish url body => Some (with_world (set_published (fun m => match body with Some b => <[url := b]> m | None => delete url m end)) s)
  | LPutAccount id a =>
      if existsb (fun r => negb (r.1 =? id) && String.eqb (a_Email r.2) (a_Email a)) (map_to_list (dw_accounts w)) then None
      else Some (with_world (set_accounts (insert id a)) s)
  | LDeleteAccount id =>
      Some (with_world (fun w => set_accounts (delete id) (set_sessions (filter (fun r => s_AccountID r.2 <> id)) w)) s)
  end.

Definition history (s : DSystem) (ls : list label) : option DSystem :=
  foldl (fun s l => s ≫= step l) (Some s) ls.
End execution.

Definition start (now : Z) : DSystem :=
  mkSystem (mkWorld now ∅ 1 ∅ ∅ ∅ ∅ ∅ ∅ Token.newTokenAuthority []) ∅ 0.
