(* ===== verification/DelegatedSafety.v ===== *)
(** Delegated sign-in is sound: whatever interleaves, fails or crashes, a request is served
    under a session only for the random token drawn for it, and every session goes back to
    a login token that an issuer of the host signed, named its account, and was consumed.
    Each program is checked once against what its actions need and tell ([justified]). *)

From S2P Require Import Prelude Text GoStrings Jmap Json JsonDecode GoEncoding DelegatedToken Delegated.
From S2P Require Token Auth.
From Stdlib Require Import Ascii String.
#[local] Open Scope string_scope.
#[local] Open Scope Z_scope.

(** Later worlds: the trace has grown and time has passed. *)
Definition later (w w' : DWorld) : Prop := (exists l, dw_trace w' = (l ++ dw_trace w)%list) /\ dw_now w <= dw_now w'.
#[export] Instance later_preorder : PreOrder later.
Proof.
  split; [intros w; split; [by exists []|lia]|]. intros x y z [[l Hl] H1] [[l' Hl'] H2]. split; [|lia].
  exists (l' ++ l)%list. by rewrite Hl', Hl, app_assoc.
Qed.

Lemma later_trace w w' e : later w w' -> e ∈ dw_trace w -> e ∈ dw_trace w'.
Proof. intros [[l ->] _] He. apply elem_of_app. by right. Qed.
Lemma later_log e w : later w (log e w).
Proof. split; [by exists [e]|simpl; lia]. Qed.

(** ** What the statements promise *)

Section safety.
Context (order : list string -> list string).
Context (sha256 : string -> string) (ToLower : string -> string) (media_type : string -> option string).
Context (ed_verify : string -> string -> string -> bool) (rsa_verify : Z -> Z -> string -> string -> bool).
Context (float_date : string -> option Z) (issuers : issuer_table) (ttl maxLife : Z).

(** A key the document at [url] has had. *)
Definition key_from (w : DWorld) (url kid : string) (k : jwksKey) : Prop :=
  exists body keys, TFetched url body ∈ dw_trace w /\ read_keys body = Some keys /\ keys !! kid = Some k.

(** At [host] the token is signed by an issuer configured for it, with a key it publishes. *)
Definition signed_for (w : DWorld) (host token : string) (pl : jwtPayload) : Prop :=
  exists hdr signed sig raw iss k,
    read_token token = Some (hdr, pl, signed, sig) /\ issuer_of issuers host (p_Iss pl) = Some iss /\
    key_from w (di_JWKSURL iss) (h_Kid hdr) k /\ jk_alg k = h_Alg hdr /\
    b64_decode sig = Some raw /\ signature_ok ed_verify rsa_verify sha256 k signed raw = true.

(** It was accepted at instant [t]. *)
Definition authentic (w : DWorld) (host token purpose : string) (c : delegatedClaims) (t : Z) : Prop :=
  exists pl, signed_for w host token pl /\ check_claims ToLower float_date pl host purpose t = Some c /\ t <= dw_now w.

Definition session_token (raw : string) : string := sessionTokenPrefix +:+ b64_encode raw.

(** What request [tid] may open a session for, and the login it goes back to: it consumed a
    login token itself, or it presented a live session whose creator may. [s0] is the row as
    it was written; both are checked at an instant [t] after the request began. *)
Inductive rooted (w : DWorld) : nat -> Z -> string -> Z -> nat -> Prop :=
| rooted_login tid begun host token c t t0 n accountID :
    TStarted tid begun ∈ dw_trace w -> authentic w host token purposeLogin c t ->
    TConsumed tid (c_Issuer c) (c_JTI c) (c_Expires c) n ∈ dw_trace w ->
    TNamed (c_Subject c) accountID ∈ dw_trace w -> begun <= t /\ t <= t0 <= dw_now w ->
    rooted w tid accountID (c_Issuer c) (t0 + maxLife) tid
| rooted_renewal tid begun s t creator s0 n login :
    TStarted tid begun ∈ dw_trace w -> TFound tid s ∈ dw_trace w -> s_RevokedAt s = None ->
    begun <= t <= dw_now w -> t < s_ExpiresAt s -> t < s_AbsoluteExpiresAt s ->
    TCreated creator s0 n ∈ dw_trace w -> s_ID s0 = s_ID s ->
    rooted w creator (s_AccountID s) (s_Issuer s) (s_AbsoluteExpiresAt s) login ->
    rooted w tid (s_AccountID s) (s_Issuer s) (s_AbsoluteExpiresAt s) login.

(** Request [tid] drew the secret of the row and may open the session. *)
Definition openable (w : DWorld) (tid : nat) (s : DelegatedSession) (raw : string) (login : nat) : Prop :=
  TDrawn tid raw ∈ dw_trace w /\ s_TokenHash s = sha256 (session_token raw) /\
  rooted w tid (s_AccountID s) (s_Issuer s) (s_AbsoluteExpiresAt s) login.
Definition session_ok (w : DWorld) (s : DelegatedSession) : Prop :=
  exists creator s0 n raw login,
    TCreated creator s0 n ∈ dw_trace w /\ s_ID s0 = s_ID s /\ openable w creator s raw login.

Lemma key_from_later w w' url kid k : later w w' -> key_from w url kid k -> key_from w' url kid k.
Proof. intros Hl (body & keys & H & ?). exists body, keys. split; [by eapply later_trace|done]. Qed.
Lemma authentic_later w w' host token purpose c t :
  later w w' -> authentic w host token purpose c t -> authentic w' host token purpose c t.
Proof.
  intros Hl (pl & (hdr & signed & sig & raw & iss & k & ? & ? & Hk & ?) & ? & ?). exists pl. split; [|split; [done|]].
  - exists hdr, signed, sig, raw, iss, k. split; [done|]. split; [done|]. split; [by eapply key_from_later|done].
  - destruct Hl as [_ Hl]. lia.
Qed.
Lemma rooted_later w w' tid a i x login : later w w' -> rooted w tid a i x login -> rooted w' tid a i x login.
Proof.
  intros Hl. pose proof Hl as [_ Hn]. induction 1 as [tid begun host token c t t0 n a Hs Ha Hc Hm Ht|tid begun s t creator s0 n login Hs Hf Hr Ht He Hx Hc Hi _ IH].
  - eapply rooted_login; [by eapply later_trace|by eapply authentic_later|by eapply later_trace|by eapply later_trace|lia].
  - eapply rooted_renewal; [by eapply later_trace|by eapply later_trace|done| |exact He|done|by eapply later_trace|done|done]. lia.
Qed.
(** The login token a session goes back to, however often it was renewed. *)
Lemma rooted_origin w tid a i x login : rooted w tid a i x login ->
  exists begun host token c t t0 n, TStarted login begun ∈ dw_trace w /\ authentic w host token purposeLogin c t /\
    TConsumed login (c_Issuer c) (c_JTI c) (c_Expires c) n ∈ dw_trace w /\ TNamed (c_Subject c) a ∈ dw_trace w /\
    (begun <= t /\ t <= t0 <= dw_now w) /\ i = c_Issuer c /\ x = t0 + maxLife.
Proof. induction 1 as [tid begun host token c t t0 n a|]; [|done]. by exists begun, host, token, c, t, t0, n. Qed.
Lemma openable_later w w' tid s raw login : later w w' -> openable w tid s raw login -> openable w' tid s raw login.
Proof. intros Hl (? & ? & ?). split; [by eapply later_trace|]. split; [done|by eapply rooted_later]. Qed.
Lemma session_ok_later w w' s : later w w' -> session_ok w s -> session_ok w' s.
Proof.
  intros Hl (creator & s0 & n & raw & login & Hc & ? & ?). exists creator, s0, n, raw, login.
  split; [by eapply later_trace|]. split; [done|by eapply openable_later].
Qed.

(** What an action needs. *)
Definition pre (tid : nat) (w : DWorld) {R} (act : action R) : Prop :=
  match act with
  | AKeysDone url (Some keys) => exists body, TFetched url body ∈ dw_trace w /\ read_keys body = Some keys
  | ACreate s => exists raw login, openable w tid s raw login
  | ASweep now => now <= dw_now w
  | _ => True
  end.

(** What its answer tells, between the worlds before and after it. *)
Definition post (tid : nat) (w : DWorld) {R} (act : action R) : R -> DWorld -> Prop :=
  match act in action R return R -> DWorld -> Prop with
  | ANow => fun r _ => r = dw_now w
  | ARandom => fun r w' => forall raw, r = Some raw -> TDrawn tid raw ∈ dw_trace w'
  | AKeysBegin url kid => fun r w' => forall k, r = Known k -> key_from w' url kid k
  | AKeysCached url kid => fun r w' => forall k, r = Some k -> key_from w' url kid k
  | AFetch url => fun r w' => forall body, r = Some body -> TFetched url body ∈ dw_trace w'
  | AGetSession hash => fun r w' => forall s, r = Some (Some s) ->
      session_ok w' s /\ s_TokenHash s = hash /\ TFound tid s ∈ dw_trace w'
  | AInsertJTI issuer jti e => fun r w' => r = Some true -> exists n, TConsumed tid issuer jti e n ∈ dw_trace w'
  | AAccountByEmail email => fun r w' => forall id a, r = Some (Some (id, a)) -> TNamed email id ∈ dw_trace w'
  | AAccount id => fun r w' => forall a, r = Some (Some a) -> TAccount tid id a ∈ dw_trace w'
  | _ => fun _ _ => True
  end.

(** ** The invariant of the world *)

(** Of two consumptions of a token id the first had expired. *)
Fixpoint once (tr : list event) : Prop :=
  match tr with
  | [] => True
  | TConsumed _ i j _ n :: tr => (forall tid e n', TConsumed tid i j e n' ∈ tr -> e < n) /\ once tr
  | _ :: tr => once tr
  end.

Record Inv (w : DWorld) : Prop := {
  inv_keys : forall url c kid k, dw_caches w !! url = Some c -> jc_keys c !! kid = Some k -> key_from w url kid k;
  inv_sessions : forall id s, dw_sessions w !! id = Some s -> s_ID s = id /\ id < dw_nextID w /\ session_ok w s;
  inv_jtis : forall tid i j e n, TConsumed tid i j e n ∈ dw_trace w ->
    n <= dw_now w /\ (dw_jtis w !! (i, j) = Some e \/ e < dw_now w);
  inv_once : once (dw_trace w)
}.

Lemma once_log e tr : (forall tid i j x n, e <> TConsumed tid i j x n) -> once tr -> once (e :: tr).
Proof. intros He H. destruct e; try done. by edestruct He. Qed.

(** A step that adds an event which consumes nothing and leaves the tables. *)
Lemma Inv_log e w : (forall tid i j x n, e <> TConsumed tid i j x n) -> Inv w -> Inv (log e w).
Proof.
  intros He [H1 H2 H3 H4]. pose proof (later_log e w) as Hl. split.
  - intros url c kid k Hc Hk. eapply key_from_later; eauto.
  - intros id s Hs. destruct (H2 id s Hs) as (? & ? & ?). split; [done|]. split; [done|by eapply session_ok_later].
  - intros tid i j x n [E|Hin]%elem_of_cons; [by edestruct He|]. by apply (H3 tid).
  - by apply once_log.
Qed.

(** A step that changes neither the trace nor what the invariant reads. *)
Lemma Inv_same w w' :
  dw_now w' = dw_now w -> dw_trace w' = dw_trace w -> dw_jtis w' = dw_jtis w ->
  (forall url c kid k, dw_caches w' !! url = Some c -> jc_keys c !! kid = Some k -> key_from w url kid k) ->
  (forall id s, dw_sessions w' !! id = Some s -> s_ID s = id /\ id < dw_nextID w' /\ session_ok w s) ->
  Inv w -> Inv w' /\ later w w'.
Proof.
  intros En Et Ej Hc Hs [H1 H2 H3 H4]. assert (later w w') as Hl by (split; [by exists []; rewrite Et|lia]).
  split; [|done]. split.
  - intros url c kid k Hu Hk. eapply key_from_later; eauto.
  - intros id s Hi. destruct (Hs id s Hi) as (? & ? & ?). split; [done|]. split; [done|by eapply session_ok_later].
  - intros tid i j e n. rewrite Et, En, Ej. apply H3.
  - by rewrite Et.
Qed.

Lemma session_fields w s s' :
  s_ID s' = s_ID s -> s_TokenHash s' = s_TokenHash s -> s_AccountID s' = s_AccountID s -> s_Issuer s' = s_Issuer s ->
  s_AbsoluteExpiresAt s' = s_AbsoluteExpiresAt s -> session_ok w s -> session_ok w s'.
Proof. unfold session_ok, openable. by intros -> -> -> -> ->. Qed.

Lemma cache_keys w url kid k : Inv w -> jc_keys (cache_of url w) !! kid = Some k -> key_from w url kid k.
Proof.
  intros Hi. unfold cache_of. destruct (dw_caches w !! url) as [c|] eqn:Ec; simpl; [by apply (inv_keys w Hi)|].
  by rewrite lookup_empty.
Qed.

(** Only fields no invariant reads, and the id, are kept by an update. *)
Definition harmless (f : DelegatedSession -> DelegatedSession) : Prop :=
  forall s, s_ID (f s) = s_ID s /\ s_TokenHash (f s) = s_TokenHash s /\ s_AccountID (f s) = s_AccountID s /\
    s_Issuer (f s) = s_Issuer s /\ s_AbsoluteExpiresAt (f s) = s_AbsoluteExpiresAt s.

Lemma Inv_update w (m : gmap Z DelegatedSession) :
  (forall id s', m !! id = Some s' -> exists s f, harmless f /\ dw_sessions w !! id = Some s /\ s' = f s) ->
  Inv w -> Inv (set_sessions (fun _ => m) w) /\ later w (set_sessions (fun _ => m) w).
Proof.
  intros Hm Hi. apply Inv_same; try done; [by apply (inv_keys w Hi)|]. intros id s' Hs.
  destruct (Hm id s' Hs) as (s & f & Hf & Hid & ->). destruct (Hf s) as (E1 & E2 & E3 & E4 & E5).
  destruct (inv_sessions w Hi id s Hid) as (<- & Hlt & Hok). split; [done|]. split; [done|by eapply session_fields].
Qed.

Lemma alter_update (f : DelegatedSession -> DelegatedSession) id w :
  harmless f -> forall i s', alter f id (dw_sessions w) !! i = Some s' ->
  exists s f', harmless f' /\ dw_sessions w !! i = Some s /\ s' = f' s.
Proof.
  intros Hf i s' Hs. destruct (decide (id = i)) as [->|Hne].
  - rewrite lookup_alter_eq in Hs. destruct (dw_sessions w !! i) as [s|]; [|done]. injection Hs as <-. by exists s, f.
  - rewrite lookup_alter_ne in Hs by done. exists s', (fun s => s). split; [by intros s|done].
Qed.

Lemma harmless_seen t : harmless (set_seen t). Proof. by intros s. Qed.
Lemma harmless_expiry t : harmless (set_expiry t). Proof. by intros s. Qed.
Lemma harmless_revoked_if (b : DelegatedSession -> bool) t : harmless (fun s => if b s then set_revoked t s else s).
Proof. intros s. by destruct (b s). Qed.

Lemma with_hash_ok hash w s : with_hash hash w = Some s -> exists id, dw_sessions w !! id = Some s /\ s_TokenHash s = hash.
Proof.
  unfold with_hash. destruct (List.find _ _) as [[id s']|] eqn:E; [|done]. intros [= <-].
  apply find_some in E as [Hin Heq%String.eqb_eq]. exists id. split; [|done].
  by apply list_elem_of_In, elem_of_map_to_list in Hin.
Qed.

Lemma lookup_begin_keys kid now c c' r : lookup_begin kid now c = (c', r) ->
  jc_keys c' = jc_keys c /\ forall k, r = Known k -> jc_keys c !! kid = Some k.
Proof.
  unfold lookup_begin. destruct (jc_keys c !! kid) as [k0|] eqn:Ek; repeat case_match; intros [= <- <-];
    (split; [done|]); intros k; try done; by intros [= <-].
Qed.

Lemma Inv_cache w url c' :
  Inv w -> (forall kid k, jc_keys c' !! kid = Some k -> key_from w url kid k) ->
  Inv (set_caches (insert url c') w) /\ later w (set_caches (insert url c') w).
Proof.
  intros Hi Hc. apply Inv_same; try done; [|by apply (inv_sessions w Hi)]. intros u c kid k Hu Hk. simpl in Hu.
  destruct (decide (u = url)) as [->|Hne].
  - rewrite lookup_insert_eq in Hu. injection Hu as <-. by apply Hc.
  - rewrite lookup_insert_ne in Hu by done. by eapply inv_keys.
Qed.

Lemma exec_create tid input s w w' r raw login : Inv w -> openable w tid s raw login ->
  exec order tid input (ACreate s) w = Some (w', r) -> Inv w' /\ later w w'.
Proof.
  intros Hi Hs. simpl. set (s' := mkSession (dw_nextID w) _ _ _ _ _ _ None None).
  assert (Inv (set_nextID Z.succ w) /\ later w (set_nextID Z.succ w)) as [Hi1 Hl1].
  { apply Inv_same; try done; [apply (inv_keys w Hi)|]. intros id x Hx. destruct (inv_sessions w Hi id x Hx) as (? & ? & ?).
    simpl. split; [done|]. split; [lia|done]. }
  case_match; intros [= <- <-]; [done|].
  set (w1 := log (TCreated tid s' (dw_now w)) (set_nextID Z.succ w)).
  assert (Inv w1) as Hi2 by by apply Inv_log. assert (later w w1) as Hl2 by (etransitivity; [exact Hl1|apply later_log]).
  assert (session_ok w1 s') as Hs'.
  { exists tid, s', (dw_now w), raw, login. split; [by left|]. split; [done|]. eapply openable_later; [exact Hl2|exact Hs]. }
  assert (Inv (set_sessions (insert (dw_nextID w) s') w1) /\ later w1 (set_sessions (insert (dw_nextID w) s') w1)) as [Hi3 Hl3].
  { apply Inv_same; try done; [apply (inv_keys _ Hi2)|]. intros id x Hx. simpl in Hx.
    destruct (decide (id = dw_nextID w)) as [->|Hne].
    - rewrite lookup_insert_eq in Hx. injection Hx as <-. split; [done|]. split; [simpl; lia|done].
    - rewrite lookup_insert_ne in Hx by done. apply (inv_sessions _ Hi2 id x Hx). }
  split; [exact Hi3|]. etransitivity; [exact Hl2|exact Hl3].
Qed.

Lemma exec_jti tid input i j e w w' r : Inv w ->
  exec order tid input (AInsertJTI i j e) w = Some (w', r) ->
  Inv w' /\ later w w' /\ (r = Some true -> exists n, TConsumed tid i j e n ∈ dw_trace w').
Proof.
  intros [H1 H2 H3 H4]. simpl. destruct (dw_jtis w !! (i, j)) as [x|] eqn:Ej; intros [= <- <-]; [done|].
  set (w' := log _ _). assert (later w w') as Hl by (split; [by eexists [_]|simpl; lia]).
  split; [|split; [done|intros _; exists (dw_now w); by left]]. split.
  - intros url c kid k Hc Hk. eapply key_from_later; eauto.
  - intros id s Hs. destruct (H2 id s Hs) as (? & ? & ?). split; [done|]. split; [done|by eapply session_ok_later].
  - intros tid' i' j' e' n' Hin. apply elem_of_cons in Hin as [E|Hin]; simpl.
    + injection E as -> -> -> -> ->. split; [lia|]. left. apply lookup_insert_eq.
    + destruct (H3 tid' i' j' e' n' Hin) as [Hn Hd]. split; [done|].
      destruct (decide ((i, j) = (i', j'))) as [E|Hne]; [|by rewrite lookup_insert_ne].
      injection E as <- <-. right. destruct Hd as [Hd|Hd]; [congruence|done].
  - simpl. split; [|done]. intros tid' e' n' Hin. destruct (H3 tid' i j e' n' Hin) as [_ [Hd|Hd]]; [congruence|done].
Qed.

Lemma revoke_where_ok hit now w : Inv w -> Inv (revoke_where hit now w).1 /\ later w (revoke_where hit now w).1.
Proof.
  intros Hi. apply Inv_update; [|done]. intros i s' Hs'. apply lookup_fmap_Some in Hs' as (s & <- & Hs).
  eexists s, _. split; [apply harmless_revoked_if|done].
Qed.

(** Every action keeps the invariant, moves the world on and answers what it promises. *)
Lemma exec_ok {R} tid input (act : action R) w w' r :
  Inv w -> pre tid w act -> exec order tid input act w = Some (w', r) -> Inv w' /\ later w w' /\ post tid w act r w'.
Proof.
  intros Hi Hp He. destruct act.
  - simpl in He. injection He as <- <-. split; [done|split; [done|done]].
  - simpl in He. destruct (bucket_take _ _ _ _ _) as [b x]. injection He as <- <-.
    assert (Inv (set_limiter l (fun _ => b) w) /\ later w (set_limiter l (fun _ => b) w)) as [? ?]; [|done].
    destruct l; (apply Inv_same; try done; [apply (inv_keys w Hi)|apply (inv_sessions w Hi)]).
  - simpl in He. destruct (bucket_peek _ _ _ _ _) as [b x]. injection He as <- <-.
    assert (Inv (set_limiter l (fun _ => b) w) /\ later w (set_limiter l (fun _ => b) w)) as [? ?]; [|done].
    destruct l; (apply Inv_same; try done; [apply (inv_keys w Hi)|apply (inv_sessions w Hi)]).
  - simpl in He. case_match; [|done]. injection He as <- <-. split; [by apply Inv_log|]. split; [apply later_log|].
    intros raw [= <-]. by left.
  - simpl in He. destruct (lookup_begin _ _ _) as [c x] eqn:E. injection He as <- <-.
    apply lookup_begin_keys in E as [Ek Ex].
    destruct (Inv_cache w url c Hi) as [Hi' Hl]. { intros kid' k. rewrite Ek. by apply cache_keys. }
    split; [done|split; [done|]]. intros k ->. eapply key_from_later; [done|]. apply cache_keys; [done|by apply Ex].
  - simpl in He. case_bool_decide; [done|]. injection He as <- <-. done.
  - simpl in He. destruct (dw_published w !! url) as [body|]; injection He as <- <-; [|done].
    split; [by apply Inv_log|]. split; [apply later_log|]. intros b [= <-]. by left.
  - simpl in He. injection He as <- <-.
    destruct (Inv_cache w url (lookup_done keys (dw_now w) (cache_of url w)) Hi) as [Hi' Hl]; [|done].
    intros kid k Hk. destruct keys as [keys|]; [|by apply cache_keys].
    destruct Hp as (body & Hb & Hr). by exists body, keys.
  - simpl in He. injection He as <- <-. split; [done|split; [done|]]. intros k Hk. by apply cache_keys.
  - simpl in He. destruct (with_hash hash w) as [s|] eqn:Es; injection He as <- <-; [|done].
    split; [by apply Inv_log|]. split; [apply later_log|]. intros s' [= <-].
    apply with_hash_ok in Es as (id & Hs & Hh). split; [|split; [done|by left]].
    eapply session_ok_later; [apply later_log|]. by destruct (inv_sessions w Hi id s Hs) as (_ & _ & Hok).
  - destruct Hp as (raw & login & Hp). destruct (exec_create tid input s w w' r raw login Hi Hp He) as [? ?]. done.
  - simpl in He. injection He as <- <-. destruct (Inv_update w (alter (set_seen now) id (dw_sessions w))) as [? ?]; [|done..].
    apply alter_update, harmless_seen.
  - simpl in He. destruct (dw_sessions w !! id) as [s|] eqn:Es; [|by injection He as <- <-].
    case_bool_decide; [by injection He as <- <-|]. case_match; injection He as <- <-; [done|].
    destruct (Inv_update w (<[id := set_expiry t s]> (dw_sessions w))) as [? ?]; [|done..].
    intros i s' Hs'. destruct (decide (i = id)) as [->|Hne].
    + rewrite lookup_insert_eq in Hs'. injection Hs' as <-. exists s, (set_expiry t). split; [apply harmless_expiry|done].
    + rewrite lookup_insert_ne in Hs' by done. exists s', (fun s => s). split; [by intros x|done].
  - simpl in He. injection He as <- <-.
    destruct (Inv_update w (alter (fun s => if bool_decide (s_RevokedAt s = None) then set_revoked now s else s) id (dw_sessions w))) as [? ?]; [|done..].
    apply alter_update, harmless_revoked_if.
  - simpl in He. injection He as <- <-. by destruct (revoke_where_ok (revocable accountID (Some issuer) now) now w Hi).
  - simpl in He. injection He as <- <-. by destruct (revoke_where_ok (revocable accountID None now) now w Hi).
  - simpl in He. injection He as <- <-. simpl in Hp. destruct Hi as [H1 H2 H3 H4].
    set (w' := set_jtis _ w). assert (later w w') as Hl by (split; [by exists []|simpl; lia]).
    split; [|done]. split; [done| | |done]; simpl.
    { intros id s Hs. destruct (H2 id s Hs) as (? & ? & ?). split; [done|]. split; [done|by eapply session_ok_later]. }
    intros tid' i j e n Hin. destruct (H3 tid' i j e n Hin) as [Hn Hd]. split; [done|]. destruct Hd as [Hd|Hd]; [|by right].
    destruct (decide (e < now)); [right; lia|left]. apply map_lookup_filter_Some. done.
  - by apply (exec_jti tid input).
  - simpl in He. destruct (account_named email w) as [[id a]|]; injection He as <- <-; [|done].
    split; [by apply Inv_log|]. split; [apply later_log|]. intros i x [= <- <-]. by left.
  - simpl in He. destruct (dw_accounts w !! id) as [a|]; injection He as <- <-; [|done].
    split; [by apply Inv_log|]. split; [apply later_log|]. intros x [= <-]. by left.
  - simpl in He. injection He as <- <-. assert (Inv (set_tokens (Token.RevokeAccount order accountID) w) /\ later w (set_tokens (Token.RevokeAccount order accountID) w)) as [? ?]; [|done].
    apply Inv_same; try done; [apply (inv_keys w Hi)|apply (inv_sessions w Hi)].
Qed.

Lemma failed_post {R} tid (act : action R) r w w' : failed act = Some r -> post tid w act r w'.
Proof. destruct act; simpl; intros [= <-]; try done; intros ?; done. Qed.

(** ** Programs *)

Section programs.
Context (tid : nat).

(** Whatever happens between its actions, a program has what they need, and ends in [Q]. *)
Fixpoint justified {A} (w : DWorld) (p : proc A) (Q : DWorld -> A -> Prop) : Prop :=
  match p with
  | PRet a => Q w a
  | PAct act k =>
      pre tid w act /\ forall w1 r w2, later w w1 -> later w1 w2 -> post tid w1 act r w2 -> justified w2 (k r) Q
  end.

Lemma pre_later {R} (act : action R) w w' : later w w' -> pre tid w act -> pre tid w' act.
Proof.
  intros Hl. destruct act; simpl; try done.
  - destruct keys; [|done]. intros (body & Hb & ?). exists body. split; [by eapply later_trace|done].
  - intros (raw & login & ?). exists raw, login. by eapply openable_later.
  - destruct Hl as [_ ?]. lia.
Qed.

Lemma justified_later {A} (p : proc A) Q w w' :
  (forall w w' a, later w w' -> Q w a -> Q w' a) -> later w w' -> justified w p Q -> justified w' p Q.
Proof.
  intros HQ Hl. destruct p as [a|R act k]; simpl; [by apply HQ|]. intros [Hp Hk]. split; [by eapply pre_later|].
  intros w1 r w2 H1. apply Hk. by etransitivity.
Qed.

Lemma justified_bind {A B} (p : proc A) (f : A -> proc B) Q1 Q w :
  justified w p Q1 -> (forall w' a, later w w' -> Q1 w' a -> justified w' (f a) Q) -> justified w (p ≫= f) Q.
Proof.
  revert w. induction p as [a|R act k IH]; simpl; intros w Hp Hf; [by apply Hf|].
  destruct Hp as [Hp Hk]. split; [done|]. intros w1 r w2 H1 H2 Hr. apply IH; [by eapply Hk|].
  intros w' a Hl. apply Hf. etransitivity; [exact H1|]. by etransitivity.
Qed.

Lemma justified_perform {R B} (act : action R) (f : R -> proc B) Q w :
  pre tid w act -> (forall w1 r w2, later w w1 -> later w1 w2 -> post tid w1 act r w2 -> justified w2 (f r) Q) ->
  justified w (perform act ≫= f) Q.
Proof. intros Hp Hf. by split. Qed.

Lemma justified_mono {A} (p : proc A) (Q Q' : DWorld -> A -> Prop) w :
  justified w p Q -> (forall w' a, later w w' -> Q w' a -> Q' w' a) -> justified w p Q'.
Proof.
  revert w. induction p as [a|R act k IH]; simpl; intros w Hp HQ; [by apply HQ|].
  destruct Hp as [Hp Hk]. split; [done|]. intros w1 r w2 H1 H2 Hr. eapply IH; [by eapply Hk|].
  intros w' a Hl. apply HQ. etransitivity; [exact H1|]. by etransitivity.
Qed.

Lemma lookupKey_ok w url kid :
  justified w (lookupKey url kid)
    (fun w' r => match r with inl v => forall c, v <> Verified c | inr k => key_from w' url kid k end).
Proof.
  unfold lookupKey. apply justified_perform; [done|]. intros w1 r w2 _ _ Hr. simpl in Hr. destruct r as [k| |n|]; simpl.
  - by apply Hr.
  - done.
  - split; [done|]. intros ? _ w3 _ _ _. split; [done|]. intros ? k w4 _ _ Hk. simpl in *. destruct k; [by apply Hk|done].
  - split; [done|]. intros ? body w3 _ _ Hb. split.
    + simpl. destruct body as [body|]; simpl; [|done]. destruct (read_keys body) as [keys|] eqn:Ek; [|done].
      exists body. split; [by apply Hb|done].
    + intros ? _ w4 _ _ _. split; [done|]. intros ? k ? _ _ Hk. simpl in *. destruct k; [by apply Hk|]. by case_bool_decide.
Qed.

Lemma verify_ok w token host purpose :
  justified w (verify sha256 ToLower ed_verify rsa_verify float_date issuers token host purpose)
    (fun w' v => forall c, v = Verified c -> exists t, dw_now w <= t /\ authentic w' host token purpose c t).
Proof.
  unfold verify. destruct (read_token token) as [[[[hdr pl] signed] sig]|] eqn:Et; [|done].
  destruct (issuer_of issuers host (p_Iss pl)) as [iss|] eqn:Ei; [|done].
  eapply justified_bind; [apply lookupKey_ok|]. intros w1 [r|k] Hl Hk; [by intros c ->; edestruct Hk|].
  destruct (String.eqb_spec (jk_alg k) (h_Alg hdr)) as [Ea|]; [|done]. simpl.
  destruct (b64_decode sig) as [raw|] eqn:Es; [|done].
  destruct (signature_ok ed_verify rsa_verify sha256 k signed raw) eqn:Eg; [|done]. simpl.
  split; [done|]. intros w2 now w3 H2 H3 ->. intros c. destruct (check_claims _ _ _ _ _ _) as [c'|] eqn:Ec; [|done].
  intros [= <-]. exists (dw_now w2). split; [destruct Hl, H2; lia|]. exists pl. split; [|split; [done|destruct H3; lia]].
  exists hdr, signed, sig, raw, iss, k. split; [done|]. split; [done|]. split; [|done].
  eapply key_from_later; [|exact Hk]. by etransitivity.
Qed.

Lemma consume_ok w i j e now : now <= dw_now w ->
  justified w (ConsumeDelegatedJTI i j e now) (fun w' r => r = Some true -> exists n, TConsumed tid i j e n ∈ dw_trace w').
Proof.
  intros Hn. unfold ConsumeDelegatedJTI. split; [done|]. intros w1 [x|] w2 _ _ _; [|done]. split; [done|]. by intros w3 r w4 _ _ Hr.
Qed.

(** Responses that grant nothing. *)
Definition plain (r : response) : Prop :=
  match r with Served _ _ | RSession _ _ => False | _ => True end.

Lemma readTokenBody_plain q r : readTokenBody media_type q = inl r -> plain r.
Proof. unfold readTokenBody. repeat case_match; intros; simplify_eq; done. Qed.

(** A presented token was authentic for the host and is consumed. *)
Definition presented (w : DWorld) (q : Request) (purpose : string) (c : delegatedClaims) : Prop :=
  exists begun host token t n, TStarted tid begun ∈ dw_trace w /\ begun <= t /\
    readTokenBody media_type q = inr token /\ host = NormalizeHost ToLower (q_Host q) /\
    authentic w host token purpose c t /\ TConsumed tid (c_Issuer c) (c_JTI c) (c_Expires c) n ∈ dw_trace w.
Lemma presented_later w w' q purpose c : later w w' -> presented w q purpose c -> presented w' q purpose c.
Proof.
  intros Hl (begun & host & token & t & n & ? & ? & ? & ? & ? & ?). exists begun, host, token, t, n.
  split; [by eapply later_trace|]. do 3 (split; [done|]). split; [by eapply authentic_later|by eapply later_trace].
Qed.

(** A program begins in the world that records its start. *)
Definition started (w : DWorld) : Prop := TStarted tid (dw_now w) ∈ dw_trace w.

Lemma verifyPresented_ok w q purpose : started w ->
  justified w (verifyPresented sha256 ToLower media_type ed_verify rsa_verify float_date issuers q purpose)
    (fun w' r => match r with inl r => plain r | inr c => presented w' q purpose c end).
Proof.
  intros Hst. unfold verifyPresented. destruct (delegatedEnabledFor ToLower issuers q) as [host|] eqn:Eh; [|done].
  assert (host = NormalizeHost ToLower (q_Host q)) as -> by (unfold delegatedEnabledFor in Eh; by case_match; simplify_eq).
  apply justified_perform; [done|]. intros w1 budget w2 H1 H2 _. destruct (negb budget.1); [done|].
  destruct (readTokenBody media_type q) as [r|token] eqn:Eb; [by eapply readTokenBody_plain|].
  eapply justified_bind; [apply verify_ok|]. intros w3 v Hl Hv. destruct v as [| |c]; [done|done|].
  destruct (Hv c eq_refl) as (t & Ht & Ha). apply justified_perform; [done|]. intros w4 now w5 H4 H5 ->.
  eapply justified_bind; [apply consume_ok; destruct H5; lia|]. intros w6 fresh H6 Hf. simpl.
  destruct fresh as [[]|]; [|done|done]. destruct (Hf eq_refl) as [n Hn].
  assert (later w3 w6) as Hl' by (etransitivity; [exact H4|]; by etransitivity).
  exists (dw_now w), (NormalizeHost ToLower (q_Host q)), token, t, n.
  split; [eapply later_trace, Hst; repeat (etransitivity; [eassumption|]); reflexivity|].
  split; [destruct H1, H2; lia|]. do 2 (split; [done|]). split; [by eapply authentic_later|done].
Qed.

Lemma admitAccount_ok w accountID acct : justified w (admitAccount accountID acct) (fun _ r => match r with inl r => plain r | inr _ => True end).
Proof.
  unfold admitAccount, AccountStatusOf. destruct (a_Disabled acct); [done|]. split; [done|].
  intros w1 row w2 _ _ _. simpl. destruct row as [[a|]|]; simpl; try done. by destruct (a_Suspended a).
Qed.

Lemma issueSession_ok w accountID issuer absolute login :
  rooted w tid accountID issuer absolute login -> justified w (issueSession sha256 ttl accountID issuer absolute) (fun _ _ => True).
Proof.
  intros Hg. unfold issueSession, mintSessionToken. split; [done|]. intros w1 raw w2 H1 H2 Hr. simpl in Hr.
  destruct raw as [raw|]; simpl; [|done]. split; [done|]. intros w3 now w4 H3 H4 _. split; [|done]. simpl.
  exists raw, login. split; [|split; [done|]]; simpl.
  - eapply later_trace; [|by apply Hr]. by etransitivity.
  - eapply rooted_later; [|exact Hg]. etransitivity; [exact H1|]. etransitivity; [exact H2|]. by etransitivity.
Qed.

Lemma exchange_ok w q : started w ->
  justified w (handleDelegatedExchange sha256 ToLower media_type ed_verify rsa_verify float_date issuers ttl maxLife q)
    (fun w' r => match r with RSession _ _ => exists c, presented w' q purposeLogin c | Served _ _ => False | _ => True end).
Proof.
  intros Hst. unfold handleDelegatedExchange. eapply justified_bind; [by apply verifyPresented_ok|]. intros w1 [r|c] _ Hp; [by destruct r|].
  apply justified_perform; [done|]. intros w2 row w3 H2 H3 Hrow. simpl in Hrow. destruct row as [[[accountID acct]|]|]; [|done|done].
  specialize (Hrow accountID acct eq_refl).
  eapply justified_bind; [apply admitAccount_ok|]. intros w4 [r|status] H4 Ha; [by destruct r|].
  apply justified_perform; [done|]. intros w5 now w6 H5 H6 ->.
  assert (later w1 w6) as Hl by (repeat (etransitivity; [eassumption|]); reflexivity).
  eapply justified_bind.
  - eapply issueSession_ok. destruct Hp as (begun & host & token & t & n & Hb & Hbt & _ & _ & Ht & Hc).
    apply (rooted_login w6 tid begun host token c t (dw_now w5) n); [by eapply later_trace|by eapply authentic_later|by eapply later_trace| |].
    + eapply later_trace; [|exact Hrow]. etransitivity; [exact H4|]. by etransitivity.
    + destruct Ht as (? & _ & _ & Ht). destruct H2, H3, H4, H5, H6. split; lia.
  - intros w7 issued H7 _. simpl. destruct issued as [[token sess]|]; [|done]. simpl. exists c.
    eapply presented_later; [|exact Hp]. by etransitivity.
Qed.

(** The session found for a bearer, live at instant [t]. *)
Definition live_at (w : DWorld) (token : string) (s : DelegatedSession) (t : Z) : Prop :=
  session_ok w s /\ s_TokenHash s = sha256 token /\ TFound tid s ∈ dw_trace w /\ s_RevokedAt s = None /\
  t <= dw_now w /\ t < s_ExpiresAt s /\ t < s_AbsoluteExpiresAt s.
Lemma live_at_later w w' token s t : later w w' -> live_at w token s t -> live_at w' token s t.
Proof.
  intros Hl (? & ? & ? & ? & ? & ? & ?). split; [by eapply session_ok_later|]. split; [done|]. split; [by eapply later_trace|].
  split; [done|]. split; [destruct Hl; lia|done].
Qed.

Lemma resolveSession_ok w token :
  justified w (resolveSession sha256 token)
    (fun w' r => forall s, r = Live s -> exists t, dw_now w <= t /\ live_at w' token s t).
Proof.
  unfold resolveSession. destruct (looksLikeSessionToken token); [|done]. simpl.
  split; [done|]. intros w1 row w2 H1 H2 Hr. simpl in Hr. destruct row as [[s|]|]; [|done|done].
  destruct (Hr s eq_refl) as (Hs & Hh & Hf). split; [done|]. intros w3 now w4 H3 H4 ->. simpl. intros s'.
  destruct (_ || _) eqn:E; [done|]. intros [= <-]. apply orb_false_iff in E as [[E1 E2]%orb_false_iff E3].
  unfold After in *. exists (dw_now w3). split; [destruct H1, H2, H3; lia|].
  assert (later w2 w4) as Hl by by etransitivity.
  split; [by eapply session_ok_later|]. split; [done|]. split; [by eapply later_trace|].
  split; [by apply bool_decide_eq_false, eq_None_not_Some in E1|]. split; [destruct H4; lia|]. lia.
Qed.

(** What stands behind an authenticated bearer. *)
Definition admitted (w0 w : DWorld) (q : Request) (s : DelegatedSession) : Prop :=
  exists t a, dw_now w0 <= t /\ live_at w (default "" (bearerToken q)) s t /\
    TAccount tid (s_AccountID s) a ∈ dw_trace w /\ a_Disabled a = false.
Lemma admitted_later w0 w w' q s : later w w' -> admitted w0 w q s -> admitted w0 w' q s.
Proof.
  intros Hl (t & a & ? & ? & ? & ?). exists t, a. split; [done|]. split; [by eapply live_at_later|]. split; [by eapply later_trace|done].
Qed.

Lemma authenticateBearer_ok w q :
  justified w (authenticateBearer sha256 q)
    (fun w' r => match r with inl r => plain r | inr (_, s) => admitted w w' q s end).
Proof.
  unfold authenticateBearer. apply justified_perform; [done|]. intros w1 budget w2 H1 H2 _.
  destruct (negb budget.1); [done|]. eapply justified_bind; [apply resolveSession_ok|].
  intros w3 found H3 Hf. destruct found as [s| |]; [|by apply justified_perform|done].
  destruct (Hf s eq_refl) as (t & Ht & Hlive). unfold requireProvisionedByID.
  apply justified_perform; [done|]. intros w4 row w5 H4 H5 Hr. simpl in Hr. destruct row as [[acct|]|]; [|done|done].
  specialize (Hr acct eq_refl). simpl. destruct (a_Disabled acct) eqn:Ed; [done|].
  assert (admitted w w5 q s) as Ha.
  { exists t, acct. split; [destruct H1, H2; lia|]. split; [|done]. eapply live_at_later; [|exact Hlive]. by etransitivity. }
  eapply justified_bind; [apply admitAccount_ok|]. intros w6 [r|status] H6 Hp; [done|].
  unfold touch. apply (justified_later _ _ w5); [intros ? ? [r|[x y]] ?; [done|by apply admitted_later]|done|].
  assert (forall w', later w5 w' -> admitted w w' q s) as Hl by (intros; by eapply admitted_later).
  split; [done|]. intros w7 now w8 H7 H8 _. destruct (match s_LastSeenAt s with Some _ => _ | None => _ end).
  - apply Hl. by etransitivity.
  - split; [done|]. intros w9 x w10 H9 H10 _. apply Hl. etransitivity; [exact H7|]. etransitivity; [exact H8|]. by etransitivity.
Qed.

(** What stands behind a request that is served. *)
Definition served (w0 w : DWorld) (q : Request) (accountID sessionID : Z) : Prop :=
  exists s, is_Some (bearerToken q) /\ admitted w0 w q s /\ s_AccountID s = accountID /\ s_ID s = sessionID.

Lemma requireAuth_ok w q :
  justified w (requireAuth sha256 q)
    (fun w' r => match r with Served a id => served w w' q a id | RSession _ _ => False | _ => True end).
Proof.
  unfold requireAuth. destruct (bearerToken q) as [token|] eqn:Eb; [|done].
  eapply justified_bind; [apply authenticateBearer_ok|]. intros w1 [r|[acct s]] _ Hr; simpl; [by destruct r|].
  exists s. by rewrite Eb.
Qed.

Lemma renew_ok w q : started w ->
  justified w (handleDelegatedRenew sha256 ToLower issuers ttl q)
    (fun _ r => match r with Served _ _ => False | _ => True end).
Proof.
  intros Hst. unfold handleDelegatedRenew. destruct (delegatedEnabledFor ToLower issuers q) as [host|]; [|done].
  destruct (bearerToken q) as [token0|]; [|done]. eapply justified_bind; [apply authenticateBearer_ok|].
  intros w1 [r|[acct s]] H1 Hr; [by destruct r|].
  apply (justified_bind _ _ (fun _ _ => True)); [by split|]. intros w3 [status|] H3 _; [|done].
  eapply justified_bind.
  { destruct Hr as (t & a & Hbt & ((creator & s0 & n & raw & login & Hc & Hid & _ & _ & Hg) & _ & Hf & Hrev & Ht & He & Hx) & _).
    apply (issueSession_ok _ _ _ _ login), (rooted_later w1); [done|].
    eapply rooted_renewal; [by eapply later_trace|exact Hf|done|by split|done|done|exact Hc|done|done]. }
  intros w4 [[token sess]|] H4 _; [|done]. apply justified_perform; [done|]. intros w5 now w6 H5 H6 _.
  apply (justified_bind _ _ (fun _ _ => True)); [by destruct (Before _ _)|done].
Qed.

Lemma logout_ok w q :
  justified w (handleDelegatedLogout sha256 ToLower issuers q) (fun _ r => plain r).
Proof.
  unfold handleDelegatedLogout. destruct (delegatedEnabledFor ToLower issuers q) as [host|]; [|done]. destruct (bearerToken q) as [token|]; [|done].
  eapply justified_bind; [apply resolveSession_ok|]. intros w1 [s| |] _ _; [|done|done].
  do 3 (split; [done|]; intros ? ? ? _ _ _). done.
Qed.

Lemma issuer_revoke_ok w q : started w ->
  justified w (handleDelegatedRevoke sha256 ToLower media_type ed_verify rsa_verify float_date issuers q)
    (fun _ r => plain r).
Proof.
  intros Hst. unfold handleDelegatedRevoke. eapply justified_bind; [by apply verifyPresented_ok|]. intros w1 [r|c] _ Hr; [done|].
  apply justified_perform; [done|]. intros w2 row w3 _ _ _. destruct row as [[[id a]|]|]; [|done|done].
  apply justified_perform; [done|]. intros ? now w4 _ _ _. apply justified_perform; [done|]. intros ? n w5 _ _ _.
  destruct n as [n|]; [|done]. destruct (0 <? n); [|done]. split; [done|]. by intros ? ? ? _ _ _.
Qed.

(** What the end of each operation, begun in [w0], is worth. *)
Definition outcome_ok (w0 : DWorld) (o : op) (w : DWorld) (r : response) : Prop :=
  match o, r with
  | OpServe q, Served a id => served w0 w q a id
  | OpExchange q, RSession _ _ => exists c, presented w q purposeLogin c
  | _, _ => True
  end.
Lemma outcome_ok_later w0 o w w' r : later w w' -> outcome_ok w0 o w r -> outcome_ok w0 o w' r.
Proof.
  intros Hl. destruct o; try done; destruct r; try done; simpl.
  - intros (s & ? & ? & ?). exists s. split; [done|]. split; [by eapply admitted_later|done].
  - intros (c & Hc). exists c. by eapply presented_later.
Qed.

Lemma code_ok w o : started w ->
  justified w (code sha256 ToLower media_type ed_verify rsa_verify float_date issuers ttl maxLife o) (outcome_ok w o).
Proof.
  intros Hst. destruct o as [q|q|q|q|q|a]; simpl.
  - eapply justified_mono; [apply requireAuth_ok|]. by intros w' r _; destruct r.
  - eapply justified_mono; [by apply exchange_ok|]. by intros w' r _; destruct r.
  - eapply justified_mono; [by apply renew_ok|]. done.
  - eapply justified_mono; [apply logout_ok|]. done.
  - eapply justified_mono; [by apply issuer_revoke_ok|]. done.
  - do 3 (split; [done|]; intros ? ? ? _ _ _). done.
Qed.
End programs.

(** ** Histories *)

Abbreviation dstep := (step order sha256 ToLower media_type ed_verify rsa_verify float_date issuers ttl maxLife).
Abbreviation dhistory := (history order sha256 ToLower media_type ed_verify rsa_verify float_date issuers ttl maxLife).

(** A step of one goroutine: its action is executed, fails, or both. *)
Definition acted (tid : nat) {R} (act : action R) (w w' : DWorld) (r : R) : Prop :=
  (exists input, exec order tid input act w = Some (w', r)) \/
  (w' = w /\ failed act = Some r) \/
  (exists input r', exec order tid input act w = Some (w', r') /\ failed act = Some r).

Lemma acted_ok {R} tid (act : action R) w w' r :
  Inv w -> pre tid w act -> acted tid act w w' r -> Inv w' /\ later w w' /\ post tid w act r w'.
Proof.
  intros Hi Hp [[input He]|[[-> Hf]|(input & r' & He & Hf)]].
  - by eapply exec_ok.
  - split; [done|split; [done|by apply failed_post]].
  - destruct (exec_ok _ _ _ _ _ _ Hi Hp He) as (? & ? & _). split; [done|split; [done|by apply failed_post]].
Qed.

(** The kinds of steps. *)
Lemma step_cases l s s' : dstep l s = Some s' ->
  (exists o, ds_world s' = log (TStarted (ds_next s) (dw_now (ds_world s))) (ds_world s) /\ ds_next s' = S (ds_next s) /\
     ds_procs s' = <[ds_next s := (o, code sha256 ToLower media_type ed_verify rsa_verify float_date issuers ttl maxLife o)]> (ds_procs s)) \/
  (exists tid o R (act : action R) k r, ds_procs s !! tid = Some (o, PAct act k) /\
     acted tid act (ds_world s) (ds_world s') r /\ ds_next s' = ds_next s /\ ds_procs s' = <[tid := (o, k r)]> (ds_procs s)) \/
  (ds_next s' = ds_next s /\ dw_trace (ds_world s') = dw_trace (ds_world s) /\ dw_now (ds_world s) <= dw_now (ds_world s') /\
     dw_jtis (ds_world s') = dw_jtis (ds_world s) /\ dw_nextID (ds_world s') = dw_nextID (ds_world s) /\
     (forall url c, dw_caches (ds_world s') !! url = Some c -> dw_caches (ds_world s) !! url = Some c) /\
     (forall id x, dw_sessions (ds_world s') !! id = Some x -> dw_sessions (ds_world s) !! id = Some x) /\
     (forall tid p, ds_procs s' !! tid = Some p -> ds_procs s !! tid = Some p)).
Proof.
  destruct l as [o|tid input|tid|tid input| |d|url body|id a|id]; simpl; intros H.
  - left. injection H as <-. by exists o.
  - right. left. destruct (ds_procs s !! tid) as [[o [x|R act k]]|] eqn:Ep; [done| |done].
    destruct (exec order tid input act (ds_world s)) as [[w' r]|] eqn:He; simpl in H; [|done]. injection H as <-.
    exists tid, o, R, act, k, r. split; [done|]. split; [left; by exists input|done].
  - right. left. destruct (ds_procs s !! tid) as [[o [x|R act k]]|] eqn:Ep; [done| |done].
    destruct (failed act) as [r|] eqn:Hf; simpl in H; [|done]. injection H as <-.
    exists tid, o, R, act, k, r. split; [done|]. split; [right; by left|done].
  - right. left. destruct (ds_procs s !! tid) as [[o [x|R act k]]|] eqn:Ep; [done| |done].
    destruct (failed act) as [r|] eqn:Hf; simpl in H; [|done].
    destruct (exec order tid input act (ds_world s)) as [[w' r']|] eqn:He; simpl in H; [|done]. injection H as <-.
    exists tid, o, R, act, k, r. split; [done|]. split; [right; right; by exists input, r'|done].
  - right. right. injection H as <-. simpl. split; [done|]. split; [done|]. split; [lia|]. split; [done|]. split; [done|].
    split; [intros url c; by rewrite lookup_empty|]. split; [done|]. intros tid p Hp. by apply map_lookup_filter_Some in Hp as [? _].
  - right. right. destruct (Z.leb_spec 0 d); [|done]. injection H as <-. simpl. repeat (split; [done || lia|]). done.
  - right. right. injection H as <-. simpl. repeat (split; [done || lia|]). done.
  - right. right. case_match; [done|]. injection H as <-. simpl. repeat (split; [done || lia|]). done.
  - right. right. injection H as <-. simpl. do 6 (split; [done || lia|]). split; [|done].
    intros i x Hx. by apply map_lookup_filter_Some in Hx as [? _].
Qed.

Record SInv (s : DSystem) : Prop := {
  si_world : Inv (ds_world s);
  si_procs : forall tid o p, ds_procs s !! tid = Some (o, p) -> (tid < ds_next s)%nat /\
    exists w0, TStarted tid (dw_now w0) ∈ dw_trace (ds_world s) /\ justified tid (ds_world s) p (outcome_ok tid w0 o)
}.

Lemma procs_later s w' tid o p w0 :
  later (ds_world s) w' -> TStarted tid (dw_now w0) ∈ dw_trace (ds_world s) ->
  justified tid (ds_world s) p (outcome_ok tid w0 o) ->
  exists w0, TStarted tid (dw_now w0) ∈ dw_trace w' /\ justified tid w' p (outcome_ok tid w0 o).
Proof.
  intros Hl Ht Hj. exists w0. split; [by eapply later_trace|]. eapply justified_later; [|exact Hl|exact Hj].
  intros w w'' a. apply outcome_ok_later.
Qed.

Lemma step_ok l s s' : dstep l s = Some s' -> SInv s -> SInv s' /\ later (ds_world s) (ds_world s').
Proof.
  intros Hs [Hi Hp]. apply step_cases in Hs as [(o & Ew & En & Ep)|[(tid & o & R & act & k & r & Hg & Ha & En & Ep)|(En & Et & Hn & Ej & Eid & Hc & Hss & Hps)]].
  - assert (later (ds_world s) (ds_world s')) as Hl by (rewrite Ew; apply later_log). split; [|done]. split.
    + rewrite Ew. by apply Inv_log.
    + intros tid o' p. rewrite Ep, En. destruct (decide (tid = ds_next s)) as [->|Hne].
      * rewrite lookup_insert_eq. intros [= <- <-]. split; [lia|]. exists (ds_world s').
        assert (started (ds_next s) (ds_world s')) by (unfold started; rewrite Ew; by left). split; [done|by apply code_ok].
      * rewrite lookup_insert_ne by done. intros H. destruct (Hp tid o' p H) as (? & w0 & Ht & Hj). split; [lia|].
        by eapply procs_later.
  - destruct (Hp tid o _ Hg) as (Hlt & w0 & Ht & [Hpre Hk]).
    destruct (acted_ok tid act _ _ r Hi Hpre Ha) as (Hi' & Hl & Hpost). split; [|done]. split; [done|].
    intros tid' o' p. rewrite Ep, En. destruct (decide (tid' = tid)) as [->|Hne].
    + rewrite lookup_insert_eq. intros [= <- <-]. split; [done|]. exists w0. split; [by eapply later_trace|].
      eapply Hk; [reflexivity|exact Hl|exact Hpost].
    + rewrite lookup_insert_ne by done. intros H. destruct (Hp tid' o' p H) as (? & w1 & Ht' & Hj). split; [done|].
      by eapply procs_later.
  - assert (later (ds_world s) (ds_world s')) as Hl by (split; [by exists []; rewrite Et|done]). split; [|done]. split.
    + destruct Hi as [H1 H2 H3 H4]. split.
      * intros url c kid key Hu Hk. eapply key_from_later; [exact Hl|]. eapply H1; [by apply Hc|done].
      * intros id x Hx. destruct (H2 id x (Hss id x Hx)) as (? & ? & ?). split; [done|]. split; [lia|by eapply session_ok_later].
      * intros tid i j e n. rewrite Et, Ej. intros Hin. destruct (H3 tid i j e n Hin) as [? [?|?]]; (split; [lia|]); [by left|right; lia].
      * by rewrite Et.
    + intros tid o p H. rewrite En. destruct (Hp tid o p (Hps _ _ H)) as (? & w0 & Ht & Hj). split; [done|]. by eapply procs_later.
Qed.

Lemma history_app ls1 ls2 s : dhistory s (ls1 ++ ls2)%list = (s ← dhistory s ls1; dhistory s ls2).
Proof.
  unfold history. rewrite foldl_app. destruct (foldl _ (Some s) ls1) as [s'|]; [done|]. simpl.
  induction ls2 as [|l ls IH]; [done|]. simpl. apply IH.
Qed.
Lemma history_cons l ls s : dhistory s (l :: ls) = (s ← dstep l s; dhistory s ls).
Proof. apply (history_app [l]). Qed.

Lemma delegated_history_ok ls s s' : dhistory s ls = Some s' -> SInv s -> SInv s'.
Proof.
  revert s. induction ls as [|l ls IH]; intros s; [by intros [= <-]|]. rewrite history_cons.
  destruct (dstep l s) as [s1|] eqn:E; simpl; [|done]. intros H Hs. eapply IH; [exact H|]. by eapply step_ok.
Qed.

Lemma start_ok now : SInv (start now).
Proof.
  split; [split; simpl; try done|]; intros *; simpl; rewrite ?lookup_empty; try done. intros Hin. by inversion Hin.
Qed.

(** ** Revocation *)

(** A session that is revoked or gone, and whose number is taken. *)
Definition dead (id : Z) (w : DWorld) : Prop :=
  id < dw_nextID w /\ forall s, dw_sessions w !! id = Some s -> is_Some (s_RevokedAt s).

Lemma dead_update id w (m : gmap Z DelegatedSession) :
  dead id w ->
  (forall s', m !! id = Some s' -> exists s, dw_sessions w !! id = Some s /\ (is_Some (s_RevokedAt s) -> is_Some (s_RevokedAt s'))) ->
  dead id (set_sessions (fun _ => m) w).
Proof. intros [Hn Hd] Hm. split; [done|]. intros s' Hs. destruct (Hm s' Hs) as (s & Hs' & Hr). by apply Hr, Hd. Qed.

Lemma dead_alter id id' f w :
  dead id w -> (forall s, is_Some (s_RevokedAt s) -> is_Some (s_RevokedAt (f s))) ->
  dead id (set_sessions (alter f id') w).
Proof.
  intros Hd Hf. apply (dead_update id w (alter f id' (dw_sessions w)) Hd). intros s' Hs.
  destruct (decide (id' = id)) as [->|Hne].
  - rewrite lookup_alter_eq in Hs. destruct (dw_sessions w !! id) as [s|]; [|done]. injection Hs as <-. exists s. auto.
  - rewrite lookup_alter_ne in Hs by done. by exists s'.
Qed.

Lemma dead_fmap id (hit : DelegatedSession -> bool) now w :
  dead id w -> dead id (set_sessions (fmap (fun s => if hit s then set_revoked now s else s)) w).
Proof.
  intros Hd. apply (dead_update id w _ Hd). intros s' Hs. apply lookup_fmap_Some in Hs as (s & <- & Hs).
  exists s. split; [done|]. by destruct (hit s).
Qed.

(** Request [t] read the session from a row that was not revoked. *)
Definition found_alive (t : nat) (id : Z) (w : DWorld) : Prop :=
  exists x, TFound t x ∈ dw_trace w /\ s_ID x = id /\ s_RevokedAt x = None.
Lemma found_alive_log t id e w : (forall x, e <> TFound t x) -> found_alive t id (log e w) -> found_alive t id w.
Proof. intros He (x & [E|?]%elem_of_cons & ?); [by edestruct He|]. by exists x. Qed.

(** Nobody finds a dead session alive. *)
Lemma exec_dead {R} tid input (act : action R) w w' r id :
  Inv w -> dead id w -> exec order tid input act w = Some (w', r) ->
  dead id w' /\ forall t, found_alive t id w' -> found_alive t id w.
Proof.
  intros Hi Hd He. destruct act; simpl in He;
    try (injection He as <- <-; split; [exact Hd|done]).
  - destruct (bucket_take _ _ _ _ _) as [b x]. injection He as <- <-. by destruct l.
  - destruct (bucket_peek _ _ _ _ _) as [b x]. injection He as <- <-. by destruct l.
  - case_match; [|done]. injection He as <- <-. split; [done|]. intros t. by apply found_alive_log.
  - destruct (lookup_begin _ _ _) as [c x]. by injection He as <- <-.
  - case_bool_decide; [done|]. by injection He as <- <-.
  - destruct (dw_published w !! url); injection He as <- <-; (split; [done|]); [|done]. intros t. by apply found_alive_log.
  - destruct (with_hash hash w) as [s|] eqn:Es; injection He as <- <-; [|done]. split; [done|]. intros t (x & [E|Hin]%elem_of_cons & Hx & Hr); [|by exists x]. exfalso.
    injection E as <- ->. apply with_hash_ok in Es as (i & Hs & _). destruct (inv_sessions w Hi i s Hs) as (E & _). subst i.
    rewrite Hx in Hs. destruct Hd as [_ Hd]. destruct (Hd s Hs). congruence.
  - destruct Hd as [Hn Hd]. case_match; injection He as <- <-.
    + split; [|done]. split; [simpl; lia|done].
    + split.
      * split; [simpl; lia|]. simpl. intros s'. rewrite lookup_insert_ne by lia. apply Hd.
      * intros t. by apply found_alive_log.
  - injection He as <- <-. split; [|done]. by apply dead_alter.
  - destruct (dw_sessions w !! id0) as [s0|] eqn:Es; [|by injection He as <- <-].
    case_bool_decide as Hr; [by injection He as <- <-|]. case_match; injection He as <- <-; [done|]. split; [|done].
    apply (dead_update id w (<[id0 := set_expiry t s0]> (dw_sessions w)) Hd). intros s' Hs'.
    destruct (decide (id = id0)) as [->|Hne].
    + rewrite lookup_insert_eq in Hs'. injection Hs' as <-. by exists s0.
    + rewrite lookup_insert_ne in Hs' by done. by exists s'.
  - injection He as <- <-. split; [|done]. apply dead_alter; [done|]. intros s Hs. by case_bool_decide.
  - injection He as <- <-. split; [|done]. by apply dead_fmap.
  - injection He as <- <-. split; [|done]. by apply dead_fmap.
  - destruct (dw_jtis w !! (issuer, jti)); injection He as <- <-; [done|]. split; [done|]. intros t. by apply found_alive_log.
  - destruct (account_named email w) as [x|]; injection He as <- <-; [|done]. split; [done|]. intros t. by apply found_alive_log.
  - destruct (dw_accounts w !! id0) as [x|]; injection He as <- <-; [|done]. split; [done|]. intros t. by apply found_alive_log.
Qed.

Lemma history_dead ls s s' id :
  dhistory s ls = Some s' -> SInv s -> dead id (ds_world s) ->
  forall t, found_alive t id (ds_world s') -> found_alive t id (ds_world s).
Proof.
  revert s. induction ls as [|l ls IH]; intros s; [by intros [= <-]|]. rewrite history_cons.
  destruct (dstep l s) as [s1|] eqn:E; simpl; [|done]. intros H Hs Hd t Ht.
  destruct (step_ok _ _ _ E Hs) as [Hs1 _].
  assert (dead id (ds_world s1) /\ forall t, found_alive t id (ds_world s1) -> found_alive t id (ds_world s)) as [Hd1 Hf].
  { apply step_cases in E as [(o & Ew & _)|[(tid & o & R & act & k & r & Hg & Ha & _)|(_ & Et & _ & _ & En & _ & Hss & _)]].
    - rewrite Ew. split; [done|]. intros t'. by apply found_alive_log.
    - destruct Ha as [[input He]|[[-> _]|(input & r' & He & _)]]; [|done|]; (eapply exec_dead; [apply Hs|exact Hd|exact He]).
    - split; [|intros t'; unfold found_alive; by rewrite Et]. destruct Hd as [Hn Hd]. split; [lia|]. intros x Hx. by apply Hd, Hss. }
  apply Hf. by eapply IH.
Qed.

Definition event_tid (e : event) : option nat :=
  match e with
  | TConsumed tid _ _ _ _ | TCreated tid _ _ | TFound tid _ | TStarted tid _ | TDrawn tid _ | TAccount tid _ _ => Some tid
  | TFetched _ _ | TNamed _ _ => None
  end.

Lemma exec_trace {R} tid input (act : action R) w w' r :
  exec order tid input act w = Some (w', r) ->
  dw_trace w' = dw_trace w \/ exists e, dw_trace w' = e :: dw_trace w /\ forall t, event_tid e = Some t -> t = tid.
Proof.
  assert (forall l b, dw_trace (set_limiter l b w) = dw_trace w) as Hl by (by intros []).
  intros He. destruct act; simpl in He; repeat (case_match; simplify_eq; simpl in * ); simplify_eq;
    rewrite ?Hl; try (by left); right; eexists; (split; [reflexivity|]); simpl; congruence.
Qed.

Lemma history_tids ls s s' :
  dhistory s ls = Some s' -> SInv s -> (forall e t, e ∈ dw_trace (ds_world s) -> event_tid e = Some t -> (t < ds_next s)%nat) ->
  forall e t, e ∈ dw_trace (ds_world s') -> event_tid e = Some t -> (t < ds_next s')%nat.
Proof.
  revert s. induction ls as [|l ls IH]; intros s; [by intros [= <-]|]. rewrite history_cons.
  destruct (dstep l s) as [s1|] eqn:E; simpl; [|done]. intros H Hs Ht. destruct (step_ok _ _ _ E Hs) as [Hs1 _].
  eapply IH; [exact H|done|]. intros e t Hin He.
  apply step_cases in E as [(o & Ew & En & _)|[(tid & o & R & act & k & r & Hg & Ha & En & _)|(En & Et & _)]]; rewrite En.
  - rewrite Ew in Hin. simpl in Hin. apply elem_of_cons in Hin as [->|Hin]; [injection He as <-; lia|].
    specialize (Ht e t Hin He). lia.
  - destruct (si_procs s Hs tid o _ Hg) as [Hlt _].
    assert (dw_trace (ds_world s1) = dw_trace (ds_world s) \/
      exists e, dw_trace (ds_world s1) = e :: dw_trace (ds_world s) /\ forall t, event_tid e = Some t -> t = tid) as [Et|(e' & Et & He')].
    { destruct Ha as [[input He']|[[-> _]|(input & r' & He' & _)]]; [by eapply exec_trace|by left|by eapply exec_trace]. }
    + rewrite Et in Hin. by eapply Ht.
    + rewrite Et in Hin. apply elem_of_cons in Hin as [->|Hin]; [by rewrite (He' t He)|by eapply Ht].
  - rewrite Et in Hin. by eapply Ht.
Qed.

Lemma once_pair tr tid1 tid2 i j e1 e2 n1 n2 :
  once tr -> tid1 <> tid2 -> TConsumed tid1 i j e1 n1 ∈ tr -> TConsumed tid2 i j e2 n2 ∈ tr -> e1 < n2 \/ e2 < n1.
Proof.
  intros Ho Hne. induction tr as [|e tr IH]; [by intros H; inversion H|].
  intros [E1|H1]%elem_of_cons [E2|H2]%elem_of_cons.
  - congruence.
  - subst e. right. destruct Ho as [Ho _]. by eapply Ho.
  - subst e. left. destruct Ho as [Ho _]. by eapply Ho.
  - apply IH; [by destruct e; try done; destruct Ho|done|done].
Qed.

(** What an accepted token says. *)
Definition says (pl : jwtPayload) (host purpose : string) (iat exp t : Z) : Prop :=
  audienceContains (p_Aud pl) host = true /\ p_Purpose pl = purpose /\ p_Jti pl <> "" /\
  numericDate float_date (p_Iat pl) = Some iat /\ numericDate float_date (p_Exp pl) = Some exp /\
  Sub exp iat <= delegatedMaxLifetime /\ iat <= t + delegatedClockSkew /\ t < exp + delegatedClockSkew.

Lemma check_claims_says pl host purpose t c :
  check_claims ToLower float_date pl host purpose t = Some c ->
  says pl host purpose (c_IssuedAt c) (c_Expires c) t /\ c_Issuer c = p_Iss pl /\ c_JTI c = p_Jti pl /\
  c_Subject c = subject_of ToLower pl.
Proof.
  unfold check_claims, says. destruct (audienceContains (p_Aud pl) host) eqn:Ea; [|done]. cbn [negb].
  destruct (_ || negb _); [done|]. destruct (numericDate float_date (p_Iat pl)) as [iat|] eqn:Ei; [|done].
  destruct (numericDate float_date (p_Exp pl)) as [exp|] eqn:Ee; [|done]. simpl.
  destruct (Z.ltb_spec delegatedMaxLifetime (Sub exp iat)); [done|].
  destruct (negb (After exp _)) eqn:E1; [done|]. destruct (After iat _) eqn:E2; [done|].
  destruct (negb (String.eqb (p_Nbf pl) "") && _); [done|].
  destruct (String.eqb_spec (p_Jti pl) ""); [done|]. simpl. destruct (maxJTILength <? strlen (p_Jti pl)); [done|].
  destruct (String.eqb_spec (p_Purpose pl) purpose); [|done]. intros [= <-]. simpl. unfold After in *.
  split; [|done]. repeat (split; [done || lia|]). lia.
Qed.

(** The claims below are about any history from a start without sessions. *)
Context (now : Z) (ls : list label) (s : DSystem) (run : dhistory (start now) ls = Some s).

Lemma delegated_run_ok : SInv s.
Proof. eapply delegated_history_ok; [exact run|apply start_ok]. Qed.

(** C9: Delegated sign-in is sound. Whatever interleaves, fails or crashes: a request that is
    served under a session read, after it began, the row of that session, which was not
    revoked, and an account that was enabled, and at an instant [t] after it began the row had
    neither passed its sliding nor its absolute expiry. The bearer it presented is the secret
    drawn by the very request that created that session, and that request goes back, through
    renewals that each presented a live session (for the same account, issuer and absolute
    expiry), to one login: a request that consumed a token which names the account, is meant
    for a host and the purpose of login, was valid at an instant of that request, and carries
    the signature of the issuer of the session, configured for that host, under a key it
    published; the absolute expiry is the maximal lifetime after that login. Distinct strings
    are taken to have distinct hashes. *)
Theorem delegated_sound tid q accountID sessionID :
  (forall x y, sha256 x = sha256 y -> x = y) ->
  ds_procs s !! tid = Some (OpServe q, PRet (Served accountID sessionID)) ->
  let w := ds_world s in
  exists row begun t acct creator s0 n0 raw login,
    TStarted tid begun ∈ dw_trace w /\ begun <= t <= dw_now w /\
    TFound tid row ∈ dw_trace w /\ s_ID row = sessionID /\ s_AccountID row = accountID /\
    s_RevokedAt row = None /\ t < s_ExpiresAt row /\ t < s_AbsoluteExpiresAt row /\
    TAccount tid accountID acct ∈ dw_trace w /\ a_Disabled acct = false /\
    TCreated creator s0 n0 ∈ dw_trace w /\ s_ID s0 = sessionID /\
    TDrawn creator raw ∈ dw_trace w /\ bearerToken q = Some (session_token raw) /\
    rooted w creator accountID (s_Issuer row) (s_AbsoluteExpiresAt row) login /\
    exists begun0 host token pl iat exp tl t0 n,
      TStarted login begun0 ∈ dw_trace w /\ begun0 <= tl /\ tl <= t0 <= dw_now w /\
      signed_for w host token pl /\ says pl host purposeLogin iat exp tl /\
      TConsumed login (p_Iss pl) (p_Jti pl) exp n ∈ dw_trace w /\
      TNamed (subject_of ToLower pl) accountID ∈ dw_trace w /\
      s_Issuer row = p_Iss pl /\ s_AbsoluteExpiresAt row = t0 + maxLife.
Proof.
  intros Hinj Hp w. destruct (si_procs s delegated_run_ok tid _ _ Hp) as (_ & w0 & Hst & Ho). simpl in Ho.
  destruct Ho as (x & [token Hb] & (t & acct & Hbegun & Hlive & Hacct & Hdis) & <- & <-).
  destruct Hlive as ((creator & s0 & n0 & raw & login & Hc & Hid & Hd & Hh & Hg) & Hh' & Hf & Hr & Ht & He & Hx).
  rewrite Hb in Hh'. simpl in Hh'. exists x, (dw_now w0), t, acct, creator, s0, n0, raw, login.
  do 13 (split; [done|]). split; [rewrite Hb; f_equal; apply Hinj; congruence|]. split; [done|].
  destruct (rooted_origin _ _ _ _ _ _ Hg) as (b0 & host & tok & c & tl & t0 & n & Hst0 & (pl & Hsig & Hcl & _) & Hcons & Hname & [Hb0 Ht0] & Ei & Ex).
  destruct (check_claims_says _ _ _ _ _ Hcl) as (Hsay & E1 & E2 & E3). rewrite E1, E2 in Hcons. rewrite E3 in Hname. rewrite E1 in Ei.
  exists b0, host, tok, pl, (c_IssuedAt c), (c_Expires c), tl, t0, n. done.
Qed.

(** C10: A login token opens at most one session until it expires, across restarts of the
    server too. Of two exchanges that were answered with a session for tokens of one issuer
    with one id, the clock has passed the expiry of one of the tokens. *)
Theorem delegated_single_use tid1 tid2 q1 q2 r1 r2 id1 id2 token1 token2 h1 h2 pl1 pl2 m1 m2 g1 g2 exp1 exp2 :
  tid1 <> tid2 ->
  ds_procs s !! tid1 = Some (OpExchange q1, PRet (RSession r1 id1)) ->
  ds_procs s !! tid2 = Some (OpExchange q2, PRet (RSession r2 id2)) ->
  readTokenBody media_type q1 = inr token1 -> readTokenBody media_type q2 = inr token2 ->
  read_token token1 = Some (h1, pl1, m1, g1) -> read_token token2 = Some (h2, pl2, m2, g2) ->
  p_Iss pl1 = p_Iss pl2 -> p_Jti pl1 = p_Jti pl2 ->
  numericDate float_date (p_Exp pl1) = Some exp1 -> numericDate float_date (p_Exp pl2) = Some exp2 ->
  exp1 < dw_now (ds_world s) \/ exp2 < dw_now (ds_world s).
Proof.
  intros Hne Hp1 Hp2 Hb1 Hb2 Hr1 Hr2 Ei Ej Hx1 Hx2.
  assert (forall tid q r id token h pl m g exp, ds_procs s !! tid = Some (OpExchange q, PRet (RSession r id)) ->
    readTokenBody media_type q = inr token -> read_token token = Some (h, pl, m, g) ->
    numericDate float_date (p_Exp pl) = Some exp ->
    exists n, TConsumed tid (p_Iss pl) (p_Jti pl) exp n ∈ dw_trace (ds_world s)) as Hc.
  { intros tid q r id token h pl m g exp Hp Hb Hr Hx. destruct (si_procs s delegated_run_ok tid _ _ Hp) as (_ & w0 & _ & Ho). simpl in Ho.
    destruct Ho as (c & begun & host & tok & t & n & _ & _ & Hb' & _ & (pl' & Hsig & Hc & _) & Hcons).
    rewrite Hb in Hb'. injection Hb' as <-. destruct Hsig as (hdr & sg & sig & raw & iss & k & Hr' & _).
    rewrite Hr in Hr'. injection Hr' as <- <- <- <-. destruct (check_claims_says _ _ _ _ _ Hc) as ((_ & _ & _ & _ & Hx' & _) & E1 & E2 & _).
    rewrite E1, E2 in Hcons. exists n. rewrite Hx in Hx'. by injection Hx' as ->. }
  destruct (Hc _ _ _ _ _ _ _ _ _ _ Hp1 Hb1 Hr1 Hx1) as [n1 H1]. destruct (Hc _ _ _ _ _ _ _ _ _ _ Hp2 Hb2 Hr2 Hx2) as [n2 H2].
  rewrite <- Ei, <- Ej in H2. pose proof (si_world s delegated_run_ok) as Hi.
  destruct (inv_jtis _ Hi _ _ _ _ _ H1) as [? _]. destruct (inv_jtis _ Hi _ _ _ _ _ H2) as [? _].
  destruct (once_pair _ _ _ _ _ _ _ _ _ (inv_once _ Hi) Hne H1 H2); lia.
Qed.

(** C11: Revocation is final. Once a session is marked as revoked (by its user, by its issuer
    or for its account) no request that arrives afterwards is served under it, whatever
    renewals and failures are under way. *)
Theorem revoked_stays_out more s' tid q accountID sessionID row :
  dw_sessions (ds_world s) !! sessionID = Some row -> is_Some (s_RevokedAt row) ->
  dhistory s more = Some s' -> (ds_next s <= tid)%nat ->
  ds_procs s' !! tid <> Some (OpServe q, PRet (Served accountID sessionID)).
Proof.
  intros Hrow Hrev Hmore Hnew Hp.
  destruct (inv_sessions _ (si_world s delegated_run_ok) _ _ Hrow) as (_ & Hid & _).
  pose proof (delegated_history_ok _ _ _ Hmore delegated_run_ok) as Hok.
  destruct (si_procs s' Hok tid _ _ Hp) as (_ & w0 & _ & (x & _ & (t & acct & _ & (_ & _ & Hf & Hfr & _) & _) & _ & <-)).
  assert (dead (s_ID x) (ds_world s)) as Hd by (split; [done|]; intros y Hy; by simplify_eq).
  destruct (history_dead _ _ _ _ Hmore delegated_run_ok Hd tid ltac:(by exists x)) as (y & Hold & _).
  assert (tid < ds_next s)%nat; [|lia]. eapply (history_tids _ _ _ run (start_ok now)); [|exact Hold|done].
  simpl. intros e t' Hin. by inversion Hin.
Qed.
End safety.

(** ** Concrete histories *)

Section samples.
Definition sample_sha (s : string) : string := "#" +:+ s.
Definition sample_ed (x signed sig : string) : bool := String.eqb sig ("by " +:+ x).
Definition sample_issuers : issuer_table :=
  default ∅ (newDelegatedVerifier lower_ascii [mkIssuer "mail.example.org" "https://portal" "https://portal/jwks"]).
Definition sample_history : DSystem -> list label -> option DSystem :=
  history id sample_sha lower_ascii Some sample_ed (fun _ _ _ _ => false) (fun _ => None) sample_issuers
    DefaultDelegatedSessionTTL DefaultDelegatedSessionMax.

Definition sample_key : string := "0123456789abcdef0123456789abcdef".
Definition sample_jwks : string :=
  Marshal (JObj [("keys", JArr [JObj [("kty", JStr "OKP"); ("kid", JStr "k"); ("crv", JStr "Ed25519"); ("x", JStr (b64_encode sample_key))]])]).
(** A token of the second 1000000000, good for five minutes. *)
Definition sample_token (purpose jti : string) : string :=
  b64_encode (Marshal (JObj [("alg", JStr "EdDSA"); ("kid", JStr "k")])) +:+ "." +:+
  b64_encode (Marshal (JObj [("iss", JStr "https://portal"); ("aud", JStr "mail.example.org"); ("sub", JStr "Ana@example.org");
    ("iat", JNum "1000000000"); ("exp", JNum "1000000300"); ("jti", JStr jti); ("purpose", JStr purpose)])) +:+ "." +:+
  b64_encode ("by " +:+ sample_key).
Definition second (n : Z) : Z := unix_time (1000000000 + n).

Definition sample_request (authorization body : string) : Request :=
  mkRequest "mail.example.org:443" "192.0.2.1" authorization "application/json" body.
Definition posting (token : string) : Request := sample_request "" (Marshal (JObj [("token", JStr token)])).
Definition raw_a : string := "aaaaaaaaaaaaaaaaaaaaaaaaaaaaaaaa".
Definition raw_b : string := "bbbbbbbbbbbbbbbbbbbbbbbbbbbbbbbb".
Definition bearing (raw : string) : Request := sample_request ("Bearer " +:+ session_token raw) "".

Definition acts (tid : nat) (raw : string) (n : nat) : list label := List.repeat (LAct tid raw) n.
Definition opening : list label :=
  [LPublish "https://portal/jwks" (Some sample_jwks); LPutAccount 7 (mkAccount "ana@example.org" false "Ana" false false)].
(** Exchange as request 0, under the session 1. *)
Definition signed_in : list label := opening ++ LSpawn (OpExchange (posting (sample_token "login" "j1"))) :: acts 0 raw_a 15.
Definition after (ls : list label) : DSystem := default (start 0) (sample_history (start (second 1)) ls).
Definition result_of (ls : list label) (tid : nat) : option response :=
  match ds_procs (after ls) !! tid with Some (_, PRet r) => Some r | _ => None end.
End samples.

Lemma delegated_sound_witness :
  exists raw creator s0 n, bearerToken (bearing raw_a) = Some (session_token raw) /\ s_ID s0 = 1 /\
    TCreated creator s0 n ∈ dw_trace (ds_world (after (signed_in ++ LSpawn (OpServe (bearing raw_a)) :: acts 1 "" 7))).
Proof.
  pose proof (delegated_sound id sample_sha lower_ascii Some sample_ed (fun _ _ _ _ => false) (fun _ => None) sample_issuers
    DefaultDelegatedSessionTTL DefaultDelegatedSessionMax (second 1) (signed_in ++ LSpawn (OpServe (bearing raw_a)) :: acts 1 "" 7)
    (after (signed_in ++ LSpawn (OpServe (bearing raw_a)) :: acts 1 "" 7)) ltac:(vm_compute; reflexivity)
    1 (bearing raw_a) 7 1 ltac:(intros x y E; by injection E) ltac:(vm_compute; reflexivity)) as H.
  cbv zeta in H. destruct H as (row & begun & t & acct & creator & s0 & n0 & raw & login & _ & _ & _ & _ & _ & _ & _ & _ & _ & _ & Hc & Hid & _ & Hb & _).
  by exists raw, creator, s0, n0.
Defined.

(** The server restarts, and the token is presented again, before it expired and after. *)
Definition replayed (seconds : Z) (n : nat) : list label :=
  signed_in ++ LCrash :: LTick (seconds * Second) :: LSpawn (OpExchange (posting (sample_token "login" "j1"))) :: acts 1 raw_b n.

Lemma delegated_single_use_witness :
  second 300 < dw_now (ds_world (after (replayed 300 15))) \/ second 300 < dw_now (ds_world (after (replayed 300 15))).
Proof.
  assert (exists r id, ds_procs (after (replayed 300 15)) !! 0%nat = Some (OpExchange (posting (sample_token "login" "j1")), PRet (RSession r id))) as (r & id & Hp)
    by (vm_compute; eexists _, _; reflexivity).
  assert (exists r id, ds_procs (after (replayed 300 15)) !! 1%nat = Some (OpExchange (posting (sample_token "login" "j1")), PRet (RSession r id))) as (r' & id' & Hp')
    by (vm_compute; eexists _, _; reflexivity).
  assert (exists x, read_token (sample_token "login" "j1") = Some x) as ([[[h pl] m] g] & Hr) by (vm_compute; eexists; reflexivity).
  assert (numericDate (fun _ => None) (p_Exp pl) = Some (second 300)) as He by (vm_compute in Hr; injection Hr as <- <- <- <-; vm_compute; reflexivity).
  exact (delegated_single_use Datatypes.id sample_sha lower_ascii Some sample_ed (fun _ _ _ _ => false) (fun _ => None) sample_issuers
    DefaultDelegatedSessionTTL DefaultDelegatedSessionMax (second 1) (replayed 300 15) (after (replayed 300 15)) ltac:(vm_compute; reflexivity)
    0 1 _ _ r r' id id' (sample_token "login" "j1") (sample_token "login" "j1") h h pl pl m m g g (second 300) (second 300)
    ltac:(discriminate) Hp Hp' ltac:(vm_compute; reflexivity) ltac:(vm_compute; reflexivity) Hr Hr eq_refl eq_refl He He).
Defined.

(** Signed in and out again. *)
Definition signed_out : list label := signed_in ++ LSpawn (OpLogout (bearing raw_a)) :: acts 1 "" 5.

Lemma revoked_stays_out_witness :
  let more := LSpawn (OpServe (bearing raw_a)) :: acts 2 "" 4 in
  result_of (signed_out ++ more) 2 = Some RBearerChallenge /\
  ds_procs (after (signed_out ++ more)) !! 2%nat <> Some (OpServe (bearing raw_a), PRet (Served 7 1)).
Proof.
  split; [vm_compute; reflexivity|].
  assert (exists row, dw_sessions (ds_world (after signed_out)) !! 1 = Some row /\ is_Some (s_RevokedAt row)) as (row & Hrow & Hrev)
    by (vm_compute; eexists; split; [reflexivity|eexists; reflexivity]).
  apply (revoked_stays_out id sample_sha lower_ascii Some sample_ed (fun _ _ _ _ => false) (fun _ => None) sample_issuers
    DefaultDelegatedSessionTTL DefaultDelegatedSessionMax (second 1) signed_out (after signed_out) ltac:(vm_compute; reflexivity)
    (LSpawn (OpServe (bearing raw_a)) :: acts 2 "" 4) _ 2 _ 7 1 row Hrow Hrev); [vm_compute; reflexivity|vm_compute; lia].
Defined.

(** Single use ends at the expiry of a token, which is accepted for thirty seconds longer: its
    id is swept from the replay cache by the very exchange that presents it again. *)
Example replay_after_expiry :
  result_of (replayed 200 9) 1 = Some RInvalidToken /\
  match result_of (replayed 300 15) 1 with Some (RSession _ 2) => true | _ => false end = true.
Proof. split; vm_compute; reflexivity. Qed.

(** A renewal under way when the issuer revokes writes its session afterwards, and the user
    stays signed in under it. *)
Example renewal_escapes_revocation :
  let ls := (signed_in ++ LSpawn (OpRenew (bearing raw_a)) :: acts 1 raw_b 10 ++
            LSpawn (OpRevoke (posting (sample_token "revoke" "j2"))) :: acts 2 "" 10 ++ acts 1 raw_b 3 ++
            LSpawn (OpServe (bearing raw_b)) :: acts 3 "" 7)%list in
  result_of ls 2 = Some (RRevoked 1) /\ result_of ls 3 = Some (Served 7 2).
Proof. split; vm_compute; reflexivity. Qed.

(** Two renewals of one session: the second one to write its expiry brings the session back
    after it had expired, and after the issuer revoked all that were alive. *)
Example expired_session_returns :
  let ls := (signed_in ++ LSpawn (OpRenew (bearing raw_a)) :: acts 1 raw_b 11 ++
            LSpawn (OpRenew (bearing raw_a)) :: acts 2 "cccccccccccccccccccccccccccccccc" 12 ++ LTick (100 * Second) ::
            LSpawn (OpServe (bearing raw_a)) :: acts 3 "" 4 ++
            LSpawn (OpRevoke (posting (sample_token "revoke" "j2"))) :: acts 4 "" 10 ++ acts 1 "" 2 ++
            LSpawn (OpServe (bearing raw_a)) :: acts 5 "" 7)%list in
  result_of ls 3 = Some RBearerChallenge /\ result_of ls 4 = Some (RRevoked 2) /\ result_of ls 5 = Some (Served 7 1).
Proof. repeat split; vm_compute; reflexivity. Qed.

(** A suspended account is disabled in the store, so nobody is told that it is suspended. *)
Example suspension_reads_disabled :
  let suspended := LPutAccount 7 (mkAccount "ana@example.org" true "Ana" false true) in
  result_of (opening ++ suspended :: LSpawn (OpExchange (posting (sample_token "login" "j1"))) :: acts 0 raw_a 10) 0 =
    Some (RAccountProblem "disabled") /\
  result_of (signed_in ++ suspended :: LSpawn (OpServe (bearing raw_a)) :: acts 1 "" 4) 1 = Some RForbidden.
Proof. split; vm_compute; reflexivity. Qed.

(** Of two requests that share a failing fetch of the keys, one is told to come back and the
    other that its token is invalid. *)
Example waiter_is_refused :
  let q := OpExchange (posting (sample_token "login" "j1")) in
  let ls := (LSpawn q :: acts 0 "" 3 ++ LSpawn q :: acts 1 "" 2 ++ acts 0 "" 2 ++ acts 1 "" 2)%list in
  result_of ls 0 = Some (RKeysUnavailable 30) /\ result_of ls 1 = Some RInvalidToken.
Proof. split; vm_compute; reflexivity. Qed.

(** While an issuer does not answer, every token of a made-up key asks it again. *)
Example failing_issuer_not_spared :
  let c := lookup_done None (second 1) (lookup_begin "x" (second 1) newJWKSCache).1 in
  (lookup_begin "y" (second 1) c).2 = MustFetch.
Proof. vm_compute. reflexivity. Qed.
